(* ===== verification/_CoqProject ===== *)
-Q . S2P
Prelude.v
MemTypes.v
MemRegion.v
Hash.v
Replacement.v
Lines.v
CacheArray.v
MemEvent.v
Mshr.v
Coherence.v
MesiL1.v
CtrlRuns.v
L1Demo.v
L1Steps.v
L1Mshr.v
L1Safety.v
L1Function.v
L1Below.v
CacheController.v
CacheRuns.v
L1Cache.v
CacheInit.v
Merlin.v
Grid.v
GridRoute.v
GridShape.v
Arbitration.v
PortControl.v
FlowControl.v
Outlet.v
LinkSystem.v
XbarArb.v
XbarMatch.v
XbarFair.v
HrRouter.v
RouterWake.v
RouterPorts.v
RouterClock.v
RouterCycle.v
TorusRouter.v
RouterDemo.v
FatTree.v
FatTreeRoute.v
FatTreeShape.v
FatTreeCast.v
FatTreeRouter.v
FatTreeDemo.v
LinkControl.v
LinkControlRuns.v
LinkControlSafe.v
LinkControlFair.v
LinkControlInit.v
LinkControlDemo.v
VanadisRegs.v
VanadisInst.v
RiscvIsa.v
RiscvDecode.v
RiscvFields.v
RiscvCode.v
RiscvSound.v
RiscvExec.v
RiscvDemo.v
VanadisQueue.v
VanadisRename.v
VanadisFrame.v
VanadisMem.v
VanadisLsq.v
VanadisFree.v
VanadisPipeline.v
VanadisOrder.v
VanadisCore.v
VanadisIssue.v
VanadisRetire.v
VanadisCycle.v
VanadisLsqSafe.v
VanadisLsqOrder.v
VanadisRun.v
VanadisDemo.v
