(* ===== verification/Prelude.v ===== *)
(** * A verification of the SST elements: caches, networks and processors

    The repository holds the element libraries of the Structural Simulation Toolkit:
    models of hardware that a discrete-event simulator connects by links and clocks.
    This library translates the logic of three of them and proves what they promise.
    All paths are below [src/src/sst/elements/].

    ** How the code is translated

    A handler or method of a C++ class is a function in the monad [M] below: it takes
    the state of its object, and returns a result with the new state, or a failure.
    [Fatal] is a call of [Output::fatal] or a failed [assert], which end the
    simulation; [Undefined] is what C++ leaves undefined (an index out of range, a
    pointer to a deleted object, a division by zero, an overflow of a signed type).
    Objects shared by pointers live in a heap and are named by keys; virtual functions
    and the interfaces of other components are records or classes of functions. What a
    component sends, schedules or calls elsewhere is recorded in a list of its state, in
    order. Unsigned arithmetic wraps at its width ([u32], [u64]); bytes are numbers below
    256. Names of definitions are those of the source where that is possible. Debug
    output, tracing and statistics (but where a claim is about them) are left out.

    Three ways to speak of a handler recur. [runs m s Q]: it returns, in a state that
    satisfies [Q] (total correctness). [meets ok m s Q]: it returns so, or it fails with
    one of the failures [ok] names. [steps R m]: whatever it does keeps the preorder
    [R].

    ** memHierarchy: the cache

    - [MemTypes], [MemRegion], [Hash], [MemEvent]: [memTypes.h] (commands, coherence
      states, interleaved address regions), [hash.h], [memEventBase.h], [memEvent.h].
    - [Replacement], [Lines], [CacheArray]: [replacementManager.h], [lineTypes.h],
      [cacheArray.h]. The array is a client of the classes of policies and hash
      functions, whose instances are the eight policies and three functions.
    - [Mshr]: [mshr.h/.cc], the requests that wait for an address.
    - [Coherence], [MesiL1]: [coherencemgr/coherenceController.h/.cc] and
      [coherencemgr/MESI_L1.h/.cc], every handler. [CtrlRuns], [L1Steps] and [L1Mshr] are
      the two proof principles for handlers (what they return; what all of them keep).
    - [CacheController]: [cacheController.h/.cc], the buffers, the clock, arbitration and
      dispatch, for any coherence manager; [CacheInit]: the initialisation messages.
    Theorems: [L1Safety], [L1Cache] (invariants of every reachable state of a whole L1
    cache, the protection of locked lines), [L1Function], [L1Below] (loads and stores
    read and write the line, evictions and fetches hand over its data), [CacheRuns] (one
    access per line and cycle, a clock that stops only when nothing waits). [L1Demo] has
    the concrete cache of the witnesses.

    ** merlin: the network

    - [Merlin], [Grid], [FatTree]: [router.h], [topology/torus.h/.cc],
      [topology/mesh.h/.cc], [topology/fattree.h/.cc], with the links the Python builders
      make between routers.
    - [Arbitration], [PortControl], [XbarArb], [HrRouter]: [arbitration/*.h],
      [interfaces/portControl.h/.cc], [interfaces/output_arb_basic.h],
      [hr_router/xbar_arb_rr.h], [hr_router/xbar_arb_lru.h], [hr_router/hr_router.cc].
    - [LinkControl]: [interfaces/linkControl.h/.cc], the interface of an endpoint.
    Theorems: [GridRoute], [GridShape], [FatTreeRoute], [FatTreeShape], [FatTreeCast]
    (packets arrive, in how many hops, without a circle of channels that wait for each
    other; broadcasts reach everyone once; the constructors build these networks);
    [FlowControl], [Outlet], [LinkSystem] (two ports and a link of fixed width as a transition system:
    credits are conserved, buffers never overflow, no wake-up is lost); [XbarMatch],
    [XbarFair] (the crossbar is matched maximally; who starves); [RouterWake],
    [RouterPorts], [RouterClock], [RouterCycle], [TorusRouter], [FatTreeRouter] (a cycle
    of a router moves exactly the granted packets and is a sequence of steps of its
    links); [LinkControlRuns], [LinkControlSafe], [LinkControlFair], [LinkControlInit]
    (every operation of the interface returns with its answer, packets keep their order, and it is made ready by
    three init phases). The [Demo] files have the networks of the witnesses.

    ** vanadis: the processor

    - [VanadisRegs], [VanadisInst]: [inst/regfile.h] and the micro-operations of
      [inst/v*.h]. The host's floating-point arithmetic is an argument.
    - [RiscvDecode]: [decoder/vriscv64decoder.h]; [RiscvIsa] is an independent reference
      of RV64I and M, [RiscvFields], [RiscvCode], [RiscvSound] and [RiscvExec] compare
      the decoder and the micro-operations with it.
    - [VanadisQueue], [VanadisRename], [VanadisPipeline]: [datastruct/cqueue.h],
      [inst/regstack.h], [inst/isatable.h], [vfuncunit.h] and [vanadis.cc]: the reorder
      buffers, renaming, the stages of a cycle, misspeculation, start and halt.
    - [VanadisMem], [VanadisLsq]: the interface [lsq/vlsq.h] with its laws, and
      [lsq/vbasiclsq.h].
    [VanadisFrame] says what an execution can change, [VanadisFree] what renaming does to
    the free registers, [VanadisOrder] what holds of the instructions of a thread between
    issue and retirement, [VanadisCore] what holds of the whole core; [VanadisIssue],
    [VanadisRetire] and [VanadisCycle] prove that the stages keep it. Theorems:
    [VanadisRun] (out-of-order execution is in program order to the program, and loses
    no register), [VanadisLsqSafe] and [VanadisLsqOrder] (the basic queue keeps the laws;
    stores wait for retirement, loads for older stores), [RiscvSound] and [RiscvExec]
    (what the decoder accepts and what the micro-operations compute). The programs of
    [VanadisRun] have no system calls and no jumps through a register with a
    displacement: the source gives back registers that are in use for the first and
    overwrites a source register for the second.

    ** Fuel

    Recursion on fuel is only where the source loops on something that is not a
    structure: [log2Of_rec] (31 steps halve every argument of 32 bits to 1), [gcd_rec] (130 steps,
    enough for operands of 64 bits), [best_port] (one
    iteration per port), the journeys of packets in [GridRoute] and [FatTreeRoute] (the
    theorems give the number of hops, at most the diameter), and [flood] (the number of
    levels). Running out is a failure, and the theorems show that it does not occur.

    ** Not modelled

    Of memHierarchy: the coherence managers below the L1 and the incoherent ones, the
    directory and memory controllers with their backends, the links and interfaces, and
    the traffic generators. Of merlin: the dragonfly, HyperX and other topologies,
    congestion management of ports, bridges and endpoints. Of vanadis: the MIPS decoder,
    the operating system and its requests to clone, fork and dump threads, the fetch of
    instruction bytes. The other element libraries (kingsley, shogun, CramSim, Messier,
    Opal, Samba, mmu, miranda, prospero, ariel, firefly, ember and the rest) are
    independent of these three or glue to external tools; they were not reached. The
    simulator core that delivers events and ticks clocks is not part of the repository:
    its choices are arguments or steps of a relation. *)


From stdpp Require Export base tactics list gmap strings numbers sorting.
From Stdlib Require Export ZArith Lia.

Declare Scope sst_scope.
Delimit Scope sst_scope with sst.
#[global] Open Scope Z_scope.
#[global] Open Scope sst_scope.

(** ** Failures and the state-and-failure monad *)

(** The two ways a simulation run can stop inside a handler: a call of
    [Output::fatal] (which ends the simulation with a message), or an operation
    that C++ leaves undefined (null dereference, access out of range, use of a
    deleted object, division by zero, an over-wide shift). *)
Inductive failure : Type :=
| Fatal (site : string)
| Undefined (why : string).

#[export] Instance failure_eq_dec : EqDecision failure.
Proof. solve_decision. Defined.

Inductive res (A : Type) : Type :=
| Ok (a : A)
| Err (e : failure).
Arguments Ok {A} a.
Arguments Err {A} e.

#[export] Instance res_ret : MRet res := fun _ a => Ok a.
#[export] Instance res_bind : MBind res := fun _ _ f m =>
  match m with Ok a => f a | Err e => Err e end.
#[export] Instance res_fmap : FMap res := fun _ _ f m =>
  match m with Ok a => Ok (f a) | Err e => Err e end.

Definition of_option {A} (e : failure) (o : option A) : res A :=
  match o with Some a => Ok a | None => Err e end.

Definition M (St A : Type) : Type := St -> res (A * St).

#[export] Instance M_ret {St} : MRet (M St) := fun _ a s => Ok (a, s).
#[export] Instance M_bind {St} : MBind (M St) := fun _ _ f m s =>
  match m s with Ok (a, s') => f a s' | Err e => Err e end.

Definition fail {St A} (e : failure) : M St A := fun _ => Err e.
Definition fatal {St A} (site : string) : M St A := fail (Fatal site).
Definition undefined {St A} (why : string) : M St A := fail (Undefined why).
Definition gets {St A} (f : St -> A) : M St A := fun s => Ok (f s, s).
Definition modify {St} (f : St -> St) : M St unit := fun s => Ok (tt, f s).
Definition getsR {St A} (f : St -> res A) : M St A := fun s =>
  match f s with Ok a => Ok (a, s) | Err e => Err e end.
Definition skip {St} : M St unit := mret tt.
Definition when {St} (b : bool) (m : M St unit) : M St unit :=
  if b then m else skip.

(** Run an operation of a component inside the state of its owner. *)
Definition zoom {St T A} (get : St -> T) (put : T -> St -> St) (m : M T A) : M St A :=
  fun s => match m (get s) with
           | Ok (a, t) => Ok (a, put t s)
           | Err e => Err e
           end.

(** A C++ range-[for] over a list, the body run for its effects. *)
Fixpoint forM {St A} (l : list A) (f : A -> M St unit) : M St unit :=
  match l with
  | [] => skip
  | x :: l' => f x ;; forM l' f
  end.

(** ** Record update: [r <| field := v |>] *)

Class Eta (R : Type) := eta : R -> R.

Class Update {R F : Type} (proj : R -> F) := update : (F -> F) -> R -> R.

Ltac derive_update proj :=
  let f := fresh "f" in
  let r := fresh "r" in
  intros f r;
  let e := eval cbv beta delta [eta] in (eta r) in
  let e := eval hnf in e in
  match e with
  | context C [proj r] => let e' := context C [f (proj r)] in exact e'
  end.

#[export] Hint Extern 1 (@Update _ _ ?proj) => derive_update proj : typeclass_instances.

Notation "r <| proj := v |>" := (update (proj := proj) (fun _ => v) r)
  (at level 1, left associativity, format "r  <| proj  :=  v |>") : sst_scope.
Notation "r <| proj ::= f |>" := (update (proj := proj) f r)
  (at level 1, left associativity, format "r  <| proj  ::=  f |>") : sst_scope.

(** ** Machine integers *)

Definition two64 : Z := 2 ^ 64.
Definition two32 : Z := 2 ^ 32.
Definition u64 (x : Z) : Z := x mod 2 ^ 64.
Definition u32 (x : Z) : Z := x mod 2 ^ 32.

Lemma u64_range x : 0 <= u64 x < 2 ^ 64.
Proof. unfold u64. apply Z.mod_pos_bound. lia. Qed.

Lemma u64_small x : 0 <= x < 2 ^ 64 -> u64 x = x.
Proof. unfold u64. apply Z.mod_small. Qed.

Lemma u32_range x : 0 <= u32 x < 2 ^ 32.
Proof. unfold u32. apply Z.mod_pos_bound. lia. Qed.

Lemma u32_small x : 0 <= x < 2 ^ 32 -> u32 x = x.
Proof. unfold u32. apply Z.mod_small. Qed.

(** Integer division and remainder as C++ evaluates them on unsigned operands:
    a zero divisor is undefined. *)
Definition udiv (a b : Z) : res Z :=
  if b =? 0 then Err (Undefined "division by zero") else Ok (a / b).
Definition umod (a b : Z) : res Z :=
  if b =? 0 then Err (Undefined "division by zero") else Ok (a mod b).

(** Indexing a vector: out of range is undefined. *)
Definition at_index {A} (l : list A) (i : Z) : res A :=
  if i <? 0 then Err (Undefined "index out of range")
  else of_option (Undefined "index out of range") (l !! Z.to_nat i).

(** ** Reasoning about the monad *)

Section monad_laws.
Context {St : Type}.

Lemma bind_Ok {A B} (m : M St A) (f : A -> M St B) s b s'' :
  (m ≫= f) s = Ok (b, s'') <-> exists a s', m s = Ok (a, s') /\ f a s' = Ok (b, s'').
Proof.
  unfold mbind, M_bind. split.
  - destruct (m s) as [[a s']|e]; [|discriminate]. eauto.
  - intros (a & s' & -> & Hf). exact Hf.
Qed.

Lemma bind_step {A B} (m : M St A) (f : A -> M St B) s a s' :
  m s = Ok (a, s') -> (m ≫= f) s = f a s'.
Proof. unfold mbind, M_bind. by intros ->. Qed.

Lemma getsR_Ok {A} (f : St -> res A) s a s' :
  getsR f s = Ok (a, s') <-> f s = Ok a /\ s' = s.
Proof. unfold getsR. destruct (f s); naive_solver. Qed.

Lemma ret_Ok {A} (a b : A) (s s' : St) :
  (mret a : M St A) s = Ok (b, s') <-> a = b /\ s = s'.
Proof. unfold mret, M_ret. naive_solver. Qed.
End monad_laws.

(** [steps R m]: whenever [m] succeeds, the states before and after it are
    related by [R]. With [R] a preorder this composes along the monad, so one
    notion covers invariants ([fun s s' => I s -> I s']) and frame conditions
    ([fun s s' => f s' = f s]). *)
Definition steps {St A} (R : relation St) (m : M St A) : Prop :=
  forall s a s', m s = Ok (a, s') -> R s s'.

Section steps.
Context {St : Type} (R : relation St).

Lemma steps_fail {A} e : steps R (fail e : M St A).
Proof. intros s a s' H. discriminate. Qed.

Lemma steps_ret `{!Reflexive R} {A} (a : A) : steps R (mret a : M St A).
Proof. intros s b s' [_ ->]%ret_Ok. done. Qed.

Lemma steps_skip `{!Reflexive R} : steps R (skip : M St unit).
Proof. apply steps_ret. Qed.

Lemma steps_gets `{!Reflexive R} {A} (f : St -> A) : steps R (gets f).
Proof. intros s a s' H. injection H as _ ->. done. Qed.

Lemma steps_getsR `{!Reflexive R} {A} (f : St -> res A) : steps R (getsR f).
Proof. intros s a s'. unfold getsR. destruct (f s); [|discriminate]. by intros [= _ ->]. Qed.

Lemma steps_modify f : (forall s, R s (f s)) -> steps R (modify f).
Proof. intros H s a s' [= _ <-]. apply H. Qed.

Lemma steps_bind `{!Transitive R} {A B} (m : M St A) (f : A -> M St B) :
  steps R m -> (forall a, steps R (f a)) -> steps R (m ≫= f).
Proof.
  intros Hm Hf s b s'' (a & s' & Ha & Hb)%bind_Ok.
  etrans; [by eapply Hm | by eapply Hf].
Qed.

Lemma steps_when `{!Reflexive R} b (m : M St unit) : steps R m -> steps R (when b m).
Proof. destruct b; [done|]. intros _. apply steps_skip. Qed.

Lemma steps_forM `{!Reflexive R} `{!Transitive R} {A} (l : list A) f :
  (forall a, steps R (f a)) -> steps R (forM l f).
Proof.
  intros Hf. induction l as [|x l IH]; simpl; [apply steps_skip|].
  apply steps_bind; auto.
Qed.

Lemma steps_zoom {T A} get put (R' : relation T) (m : M T A) :
  steps R' m -> (forall s t, R' (get s) t -> R s (put t s)) ->
  steps R (zoom get put m).
Proof.
  intros Hm HR s a s'. unfold zoom.
  destruct (m (get s)) as [[b t]|] eqn:E; [|discriminate].
  intros [= -> <-]. apply HR. by eapply Hm.
Qed.

Lemma steps_mono {A} (R' : relation St) (m : M St A) :
  steps R' m -> (forall s s', R' s s' -> R s s') -> steps R m.
Proof. unfold steps. eauto. Qed.
End steps.

#[export] Instance invariant_preorder {St} (I : St -> Prop) :
  PreOrder (fun s s' => I s -> I s').
Proof. split; [intros s; auto | intros s s' s''; auto]. Qed.

#[export] Instance frame_preorder {St T} (f : St -> T) :
  PreOrder (fun s s' => f s' = f s).
Proof. split; [intros s; auto | intros s s' s''; congruence]. Qed.

Create HintDb steps discriminated.
#[export] Hint Resolve steps_fail steps_skip : steps.

(** Walk through a monadic term, opening every branch, and close the calls of
    operations with the lemmas of the [steps] database. *)
Ltac steps_leaf :=
  first
    [ solve [eauto 4 with steps typeclass_instances]
    | apply steps_fail | apply steps_ret; apply _ | apply steps_skip; apply _
    | apply steps_gets; apply _ | apply steps_getsR; apply _ ].

Ltac steps_walk :=
  intros;
  repeat first
    [ match goal with
      | |- steps _ (mbind _ _) => apply steps_bind; [apply _ | | intros ?]
      | |- steps _ (match ?x with _ => _ end) => destruct x eqn:?; cbn beta iota
      | |- steps _ (let _ := _ in _) => cbv zeta
      end
    | progress intros
    | steps_leaf
    | apply steps_when; [apply _ |]
    | apply steps_forM; [apply _ | apply _ | intros ?] ].

(** Run one monadic equation [m s = Ok (a, s')] forward, naming nothing. *)
Ltac inv_bind :=
  repeat match goal with
    | H : (_ ≫= _) _ = Ok _ |- _ =>
        let a := fresh "a" in let s := fresh "s" in
        let H1 := fresh "Hm" in let H2 := fresh "Hk" in
        apply bind_Ok in H as (a & s & H1 & H2)
    | H : (mret _) _ = Ok _ |- _ => apply ret_Ok in H as [? ?]; subst
    | H : gets _ _ = Ok _ |- _ => injection H as ? ?; subst
    | H : modify _ _ = Ok _ |- _ => injection H as ? ?; subst
    | H : skip _ = Ok _ |- _ => injection H as ? ?; subst
    | H : fail _ _ = Ok _ |- _ => discriminate H
    | H : fatal _ _ = Ok _ |- _ => discriminate H
    | H : undefined _ _ = Ok _ |- _ => discriminate H
    end.

Lemma res_bind_Ok {A B} (m : res A) (f : A -> res B) b :
  (m ≫= f) = Ok b <-> exists a, m = Ok a /\ f a = Ok b.
Proof. destruct m as [a|e]; cbn; naive_solver. Qed.

(** The same for equations of [res], and for the reads of a state. *)
Ltac inv_res :=
  repeat match goal with
    | H : (_ ≫= _) = Ok _ |- _ => apply res_bind_Ok in H as (? & ? & ?)
    | H : Ok _ = Ok _ |- _ => injection H as ?; subst
    | H : Err _ = Ok _ |- _ => discriminate H
    | H : getsR _ _ = Ok _ |- _ => apply getsR_Ok in H as [? ?]; subst
    end.
Ltac inv_run := repeat progress (inv_bind; inv_res).

(** ** Total correctness *)

(** [runs m s Q]: [m] succeeds from [s], with a result and a state that satisfy
    [Q]. Unlike [steps], it says that the computation returns. *)
Definition runs {St A} (m : M St A) (s : St) (Q : A -> St -> Prop) : Prop :=
  exists a s', m s = Ok (a, s') /\ Q a s'.

Section runs.
Context {St : Type}.

Lemma runs_mono {A} (m : M St A) s (Q Q' : A -> St -> Prop) :
  runs m s Q -> (forall a s', Q a s' -> Q' a s') -> runs m s Q'.
Proof. intros (a & s' & H & HQ) Himp. exists a, s'. auto. Qed.

Lemma runs_bind {A B} (m : M St A) (k : A -> M St B) s Q :
  runs m s (fun a s1 => runs (k a) s1 Q) -> runs (m ≫= k) s Q.
Proof.
  intros (a & s1 & H1 & b & s2 & H2 & HQ). exists b, s2. split; [|done].
  by rewrite (bind_step _ _ _ _ _ H1).
Qed.

Lemma runs_bind_inv {A B} (m : M St A) (k : A -> M St B) s Q :
  runs (m ≫= k) s Q -> runs m s (fun a s1 => runs (k a) s1 Q).
Proof.
  intros (b & s2 & (a & s1 & H1 & H2)%bind_Ok & HQ). exists a, s1. split; [done|]. by exists b, s2.
Qed.

(** Run [m] by its specification, then go on. *)
Lemma runs_step {A B} (m : M St A) (k : A -> M St B) s (Q1 : A -> St -> Prop) Q :
  runs m s Q1 -> (forall a s1, Q1 a s1 -> runs (k a) s1 Q) -> runs (m ≫= k) s Q.
Proof. intros H Hk. apply runs_bind. by eapply runs_mono. Qed.

Lemma runs_ret {A} (a : A) s (Q : A -> St -> Prop) : Q a s -> runs (mret a) s Q.
Proof. intros H. by exists a, s. Qed.
Lemma runs_skip s (Q : unit -> St -> Prop) : Q tt s -> runs skip s Q.
Proof. apply runs_ret. Qed.
Lemma runs_gets {A} (f : St -> A) s (Q : A -> St -> Prop) : Q (f s) s -> runs (gets f) s Q.
Proof. intros H. by exists (f s), s. Qed.
Lemma runs_getsR {A} (f : St -> res A) s a (Q : A -> St -> Prop) :
  f s = Ok a -> Q a s -> runs (getsR f) s Q.
Proof. intros Hf H. exists a, s. unfold getsR. by rewrite Hf. Qed.
Lemma runs_modify f s (Q : unit -> St -> Prop) : Q tt (f s) -> runs (modify f) s Q.
Proof. intros H. by exists tt, (f s). Qed.
Lemma runs_when b (m : M St unit) s Q :
  (b = true -> runs m s Q) -> (b = false -> Q tt s) -> runs (when b m) s Q.
Proof. destruct b; intros H1 H2; [by apply H1|by apply runs_ret, H2]. Qed.
Lemma runs_zoom {T A} get put (m : M T A) (s : St) Q :
  runs m (get s) (fun a t => Q a (put t s)) -> runs (zoom get put m) s Q.
Proof.
  intros (a & t & H & HQ). exists a, (put t s). unfold zoom. by rewrite H.
Qed.
End runs.

(** ** Contracts *)

(** [meets ok m s Q]: run from [s], [m] returns with [Q], or stops with one of the
    failures [ok] admits. With [ok] false everywhere this is [runs]. *)
Definition meets {St A} (ok : failure -> Prop) (m : M St A) (s : St) (Q : A -> St -> Prop) : Prop :=
  match m s with Ok (a, s') => Q a s' | Err e => ok e end.
Definition yields {A} (ok : failure -> Prop) (m : res A) (Q : A -> Prop) : Prop :=
  match m with Ok a => Q a | Err e => ok e end.

Section contracts.
Context {St : Type} (ok : failure -> Prop).

Lemma meets_mono {A} (m : M St A) s (Q Q' : A -> St -> Prop) :
  meets ok m s Q -> (forall a s', Q a s' -> Q' a s') -> meets ok m s Q'.
Proof. unfold meets. destruct (m s) as [[a s']|e]; auto. Qed.
Lemma meets_bind {A B} (m : M St A) (k : A -> M St B) s Q :
  meets ok m s (fun a s1 => meets ok (k a) s1 Q) -> meets ok (m ≫= k) s Q.
Proof. unfold meets, mbind, M_bind. by destruct (m s) as [[a s']|e]. Qed.
Lemma meets_step {A B} (m : M St A) (k : A -> M St B) s (Q1 : A -> St -> Prop) Q :
  meets ok m s Q1 -> (forall a s1, Q1 a s1 -> meets ok (k a) s1 Q) -> meets ok (m ≫= k) s Q.
Proof. intros H Hk. apply meets_bind. by eapply meets_mono. Qed.
Lemma meets_ret {A} (a : A) s (Q : A -> St -> Prop) : Q a s -> meets ok (mret a) s Q.
Proof. done. Qed.
Lemma meets_gets {A} (f : St -> A) s (Q : A -> St -> Prop) : Q (f s) s -> meets ok (gets f) s Q.
Proof. done. Qed.
Lemma meets_modify f s (Q : unit -> St -> Prop) : Q tt (f s) -> meets ok (modify f) s Q.
Proof. done. Qed.
Lemma meets_fail {A} e s (Q : A -> St -> Prop) : ok e -> meets ok (fail e) s Q.
Proof. done. Qed.
Lemma meets_getsR {A} (f : St -> res A) s (Q : A -> St -> Prop) :
  yields ok (f s) (fun a => Q a s) -> meets ok (getsR f) s Q.
Proof. unfold meets, yields, getsR. by destruct (f s). Qed.
Lemma meets_when b (m : M St unit) s Q :
  (b = true -> meets ok m s Q) -> (b = false -> Q tt s) -> meets ok (when b m) s Q.
Proof. destruct b; intros H1 H2; [by apply H1|by apply H2]. Qed.
Lemma meets_runs {A} (m : M St A) s Q : runs m s Q -> meets ok m s Q.
Proof. intros (a & s' & H & HQ). unfold meets. by rewrite H. Qed.
Lemma meets_inv {A} (m : M St A) s Q a s' : meets ok m s Q -> m s = Ok (a, s') -> Q a s'.
Proof. unfold meets. intros H E. by rewrite E in H. Qed.

(** A loop keeps what its body keeps. *)
Lemma meets_forM {A} (l : list A) f s (I : list A -> St -> Prop) :
  I l s -> (forall x l' s1, I (x :: l') s1 -> meets ok (f x) s1 (fun _ => I l')) ->
  meets ok (forM l f) s (fun _ => I []).
Proof.
  intros HI Hf. revert s HI. induction l as [|x l IH]; intros s1 HI; [exact HI|].
  eapply meets_step; [by apply Hf|]. intros u s2 HI2. by apply IH.
Qed.
End contracts.

Lemma meets_zoom {St T A} ok get put (m : M T A) (s : St) Q :
  meets ok m (get s) (fun a t => Q a (put t s)) -> meets ok (zoom get put m) s Q.
Proof. unfold meets, zoom. by destruct (m (get s)) as [[a t]|e]. Qed.

Lemma yields_bind {A B} ok (m : res A) (k : A -> res B) Q :
  yields ok m (fun a => yields ok (k a) Q) -> yields ok (m ≫= k) Q.
Proof. by destruct m. Qed.
Lemma yields_mono {A} ok (m : res A) (Q Q' : A -> Prop) :
  yields ok m Q -> (forall a, Q a -> Q' a) -> yields ok m Q'.
Proof. unfold yields. destruct m; auto. Qed.
Lemma yields_index {A} ok (l : list A) i (Q : A -> Prop) x :
  0 <= i -> l !! Z.to_nat i = Some x -> Q x -> yields ok (at_index l i) Q.
Proof.
  intros Hi Hx HQ. unfold at_index. destruct (Z.ltb_spec i 0); [lia|]. by rewrite Hx.
Qed.

(** ** Lists *)

(** [std::list::erase] at a position, and [std::list::insert] before one. *)
Definition erase_at {A} (i : nat) (l : list A) : list A := take i l ++ drop (S i) l.
Definition insert_before {A} (i : nat) (x : A) (l : list A) : list A :=
  take i l ++ x :: drop i l.

Section lists.
Context {A : Type}.
Implicit Types (l : list A) (x : A).

Lemma filter_none (P : A -> Prop) `{Pdec : !forall x, Decision (P x)} l :
  (forall x, x ∈ l -> ~ P x) -> filter P l = [].
Proof.
  intros Hn. destruct (filter P l) as [|x l'] eqn:E; [done|].
  assert (x ∈ filter P l) as [? ?]%list_elem_of_filter by (rewrite E; by left).
  exfalso. by eapply Hn.
Qed.

Lemma erase_at_split i l x :
  l !! i = Some x -> l = take i l ++ x :: drop (S i) l.
Proof. intros H. symmetry. by apply take_drop_middle. Qed.

Lemma erase_at_perm i l x : l !! i = Some x -> x :: erase_at i l ≡ₚ l.
Proof.
  intros H. unfold erase_at. rewrite (erase_at_split i l x H) at 3.
  by rewrite Permutation_middle.
Qed.

Lemma insert_before_perm i x l : insert_before i x l ≡ₚ x :: l.
Proof.
  unfold insert_before. rewrite <- Permutation_middle. by rewrite take_drop.
Qed.

Lemma insert_before_lookup i x l :
  (i <= length l)%nat -> insert_before i x l !! i = Some x.
Proof.
  intros H. unfold insert_before. rewrite lookup_app_r; rewrite length_take; [|lia].
  by replace (i - (i `min` length l))%nat with 0%nat by lia.
Qed.

Lemma erase_insert_before i x l :
  (i <= length l)%nat -> erase_at i (insert_before i x l) = l.
Proof.
  intros H. unfold erase_at, insert_before.
  rewrite take_app_le by (rewrite length_take; lia).
  rewrite take_take. replace (i `min` i)%nat with i by lia.
  rewrite drop_app_ge by (rewrite length_take; lia).
  rewrite length_take. replace (S i - (i `min` length l))%nat with 1%nat by lia.
  rewrite skipn_cons. rewrite drop_0. apply take_drop.
Qed.
End lists.

(** ** Sums over a list *)

Definition total {A} (f : A -> Z) (l : list A) : Z := foldr (fun x n => f x + n) 0 l.

#[global] Arguments total : simpl never.

Section totals.
Context {A : Type} (f : A -> Z).
Implicit Types l : list A.

Lemma total_cons x l : total f (x :: l) = f x + total f l.
Proof. done. Qed.

Lemma total_app l l' : total f (l ++ l') = total f l + total f l'.
Proof. unfold total. induction l; simpl; lia. Qed.

Lemma total_nonneg l : Forall (fun x => 0 <= f x) l -> 0 <= total f l.
Proof. unfold total. induction 1; simpl; lia. Qed.

Lemma total_one x : total f [x] = f x.
Proof. rewrite total_cons. unfold total. simpl. lia. Qed.

Lemma total_take_S l i x : l !! i = Some x -> total f (take (S i) l) = total f (take i l) + f x.
Proof. intros H. by rewrite (take_S_r _ _ _ H), total_app, total_one. Qed.

Lemma total_split k l : total f l = total f (take k l) + total f (drop k l).
Proof. rewrite <- total_app. by rewrite take_drop. Qed.
End totals.

Lemma total_insert {B} (f : B -> Z) (l : list B) k x y :
  l !! k = Some x -> total f (<[k := y]> l) = total f l - f x + f y.
Proof.
  intros Hx. pose proof (lookup_lt_Some _ _ _ Hx) as Hk.
  rewrite insert_take_drop by done. rewrite <- (take_drop_middle l k x Hx) at 3.
  rewrite !total_app, !total_cons. lia.
Qed.

Lemma insert_total {B} `{!Inhabited B} (l : list B) i k (x : B) :
  (i < length l)%nat -> <[i := x]> l !!! k = if decide (i = k) then x else l !!! k.
Proof.
  intros Hi. rewrite !list_lookup_total_alt, list_lookup_insert.
  destruct (decide (i = k)) as [->|]; [by rewrite decide_True|by rewrite decide_False by naive_solver].
Qed.

(** ** Vectors written by index *)

(** [v[i] = x]: out of range is undefined. *)
Definition set_index {A} (l : list A) (i : Z) (x : A) : res (list A) :=
  if i <? 0 then Err (Undefined "index out of range")
  else if (Z.to_nat i <? length l)%nat then Ok (<[Z.to_nat i := x]> l)
  else Err (Undefined "index out of range").

Section vectors.
Context {A : Type}.
Implicit Types (l : list A) (x : A).

Lemma at_index_Ok l i x :
  at_index l i = Ok x <-> 0 <= i /\ l !! Z.to_nat i = Some x.
Proof.
  unfold at_index, of_option. destruct (Z.ltb_spec i 0); [split; [done|lia]|].
  destruct (l !! Z.to_nat i); naive_solver.
Qed.

Lemma at_index_nat l (i : nat) x : l !! i = Some x -> at_index l (Z.of_nat i) = Ok x.
Proof. intros. apply at_index_Ok. rewrite Nat2Z.id. split; [lia|done]. Qed.

Lemma at_index_in_range l i :
  0 <= i < Z.of_nat (length l) -> exists x, at_index l i = Ok x.
Proof.
  intros Hi. destruct (lookup_lt_is_Some_2 l (Z.to_nat i)) as [x Hx]; [lia|].
  exists x. apply at_index_Ok. auto with lia.
Qed.

Lemma set_index_Ok l i x l' :
  set_index l i x = Ok l' <->
  0 <= i < Z.of_nat (length l) /\ l' = <[Z.to_nat i := x]> l.
Proof.
  unfold set_index. destruct (Z.ltb_spec i 0); [split; [done|lia]|].
  destruct (Nat.ltb_spec (Z.to_nat i) (length l)); [|split; [done|lia]].
  split; [intros [= <-]; auto with lia | intros [_ ->]; done].
Qed.

Lemma set_index_in_range l i x :
  0 <= i < Z.of_nat (length l) -> set_index l i x = Ok (<[Z.to_nat i := x]> l).
Proof. intros. by apply set_index_Ok. Qed.

Lemma at_index_insert_ne l i j v : 0 <= i -> i <> j -> at_index (<[Z.to_nat i := v]> l) j = at_index l j.
Proof.
  intros Hi Hne. unfold at_index. destruct (Z.ltb_spec j 0); [done|]. by rewrite list_lookup_insert_ne by lia.
Qed.
Lemma at_index_insert l i v : 0 <= i < Z.of_nat (length l) -> at_index (<[Z.to_nat i := v]> l) i = Ok v.
Proof. intros Hi. apply at_index_Ok. split; [lia|]. rewrite list_lookup_insert, decide_True by lia. done. Qed.
End vectors.
