(* ===== verification/MemTypes.v ===== *)
(** * MemTypes: commands and coherence states

    Models [memTypes.h] of memHierarchy: the command table [X_CMDS] with the
    arrays generated from it, and the coherence states [STATE_TYPES]. *)

From S2P Require Import Prelude.

(** Command attributes. *)
Module CommandClass.
Inductive t := Request | Data | Ack | ForwardRequest.
#[global] Instance eq_dec : EqDecision t.
Proof. solve_decision. Defined.
End CommandClass.

Module BasicCommandClass.
Inductive t := Request | Response.
#[global] Instance eq_dec : EqDecision t.
Proof. solve_decision. Defined.
End BasicCommandClass.

Module MemEventType.
Inductive t := Cache | Move | Custom.
#[global] Instance eq_dec : EqDecision t.
Proof. solve_decision. Defined.
End MemEventType.

(** [enum class Command]: the rows of [X_CMDS] in order, then [LAST_CMD]. *)
Module Command.
Inductive t :=
| NULLCMD | GetS | GetX | GetSX | Write | FlushLine
| FlushLineInv | FlushAll | GetSResp | GetXResp | WriteResp | FlushLineResp
| FlushAllResp | PutS | PutM | PutE | PutX | Inv
| ForceInv | Fetch | FetchInv | FetchInvX | FetchResp | FetchXResp
| NACK | AckInv | AckPut | Put | Get | AckMove
| CustomReq | CustomResp | CustomAck | Evict
| LAST_CMD.

#[global] Instance eq_dec : EqDecision t.
Proof. solve_decision. Defined.
End Command.

(** One row of [X_CMDS]: response command, basic class, class, route by
    address, writeback, event type. *)
Record cmd_row := CmdRow {
  row_response : Command.t;
  row_basic : BasicCommandClass.t;
  row_class : CommandClass.t;
  row_route : bool;
  row_writeback : bool;
  row_type : MemEventType.t
}.

(** [X_CMDS]. [LAST_CMD] is past the end of every generated array. *)
Definition X_CMDS (c : Command.t) : option cmd_row :=
  match c with
  | Command.NULLCMD => Some (CmdRow Command.NULLCMD BasicCommandClass.Request CommandClass.Request true false MemEventType.Cache)
  | Command.GetS => Some (CmdRow Command.GetSResp BasicCommandClass.Request CommandClass.Request true false MemEventType.Cache)
  | Command.GetX => Some (CmdRow Command.GetXResp BasicCommandClass.Request CommandClass.Request true false MemEventType.Cache)
  | Command.GetSX => Some (CmdRow Command.GetSResp BasicCommandClass.Request CommandClass.Request true false MemEventType.Cache)
  | Command.Write => Some (CmdRow Command.WriteResp BasicCommandClass.Request CommandClass.Request true false MemEventType.Cache)
  | Command.FlushLine => Some (CmdRow Command.FlushLineResp BasicCommandClass.Request CommandClass.Request true false MemEventType.Cache)
  | Command.FlushLineInv => Some (CmdRow Command.FlushLineResp BasicCommandClass.Request CommandClass.Request true false MemEventType.Cache)
  | Command.FlushAll => Some (CmdRow Command.FlushAllResp BasicCommandClass.Request CommandClass.Request true false MemEventType.Cache)
  | Command.GetSResp => Some (CmdRow Command.NULLCMD BasicCommandClass.Response CommandClass.Data false false MemEventType.Cache)
  | Command.GetXResp => Some (CmdRow Command.NULLCMD BasicCommandClass.Response CommandClass.Data false false MemEventType.Cache)
  | Command.WriteResp => Some (CmdRow Command.NULLCMD BasicCommandClass.Response CommandClass.Ack false false MemEventType.Cache)
  | Command.FlushLineResp => Some (CmdRow Command.NULLCMD BasicCommandClass.Response CommandClass.Ack false false MemEventType.Cache)
  | Command.FlushAllResp => Some (CmdRow Command.NULLCMD BasicCommandClass.Response CommandClass.Ack false false MemEventType.Cache)
  | Command.PutS => Some (CmdRow Command.AckPut BasicCommandClass.Request CommandClass.Request true true MemEventType.Cache)
  | Command.PutM => Some (CmdRow Command.AckPut BasicCommandClass.Request CommandClass.Request true true MemEventType.Cache)
  | Command.PutE => Some (CmdRow Command.AckPut BasicCommandClass.Request CommandClass.Request true true MemEventType.Cache)
  | Command.PutX => Some (CmdRow Command.AckPut BasicCommandClass.Request CommandClass.Request true true MemEventType.Cache)
  | Command.Inv => Some (CmdRow Command.AckInv BasicCommandClass.Request CommandClass.ForwardRequest false false MemEventType.Cache)
  | Command.ForceInv => Some (CmdRow Command.AckInv BasicCommandClass.Request CommandClass.ForwardRequest false false MemEventType.Cache)
  | Command.Fetch => Some (CmdRow Command.FetchResp BasicCommandClass.Request CommandClass.ForwardRequest false false MemEventType.Cache)
  | Command.FetchInv => Some (CmdRow Command.FetchResp BasicCommandClass.Request CommandClass.ForwardRequest false false MemEventType.Cache)
  | Command.FetchInvX => Some (CmdRow Command.FetchXResp BasicCommandClass.Request CommandClass.ForwardRequest false false MemEventType.Cache)
  | Command.FetchResp => Some (CmdRow Command.NULLCMD BasicCommandClass.Response CommandClass.Data true false MemEventType.Cache)
  | Command.FetchXResp => Some (CmdRow Command.NULLCMD BasicCommandClass.Response CommandClass.Data true false MemEventType.Cache)
  | Command.NACK => Some (CmdRow Command.NULLCMD BasicCommandClass.Response CommandClass.Ack true false MemEventType.Cache)
  | Command.AckInv => Some (CmdRow Command.NULLCMD BasicCommandClass.Response CommandClass.Ack true false MemEventType.Cache)
  | Command.AckPut => Some (CmdRow Command.NULLCMD BasicCommandClass.Response CommandClass.Ack false false MemEventType.Cache)
  | Command.Put => Some (CmdRow Command.AckMove BasicCommandClass.Request CommandClass.Request true false MemEventType.Move)
  | Command.Get => Some (CmdRow Command.AckMove BasicCommandClass.Request CommandClass.Request true false MemEventType.Move)
  | Command.AckMove => Some (CmdRow Command.NULLCMD BasicCommandClass.Response CommandClass.Ack false false MemEventType.Move)
  | Command.CustomReq => Some (CmdRow Command.CustomResp BasicCommandClass.Request CommandClass.Request true false MemEventType.Custom)
  | Command.CustomResp => Some (CmdRow Command.NULLCMD BasicCommandClass.Response CommandClass.Data false false MemEventType.Custom)
  | Command.CustomAck => Some (CmdRow Command.NULLCMD BasicCommandClass.Response CommandClass.Ack false false MemEventType.Custom)
  | Command.Evict => Some (CmdRow Command.NULLCMD BasicCommandClass.Request CommandClass.Request false false MemEventType.Cache)
  | Command.LAST_CMD => None
  end.

Definition cmd_lookup {A} (f : cmd_row -> A) (c : Command.t) : res A :=
  of_option (Undefined "command table index out of range") (f <$> X_CMDS c).

(** The arrays the table generates. *)
Definition CommandResponse : Command.t -> res Command.t := cmd_lookup row_response.
Definition BasicCommandClassArr : Command.t -> res BasicCommandClass.t := cmd_lookup row_basic.
Definition CommandClassArr : Command.t -> res CommandClass.t := cmd_lookup row_class.
Definition CommandRouteByAddress : Command.t -> res bool := cmd_lookup row_route.
Definition CommandWriteback : Command.t -> res bool := cmd_lookup row_writeback.
Definition MemEventTypeArr : Command.t -> res MemEventType.t := cmd_lookup row_type.

(** Coherence states ([STATE_TYPES]). *)
Module State.
Inductive t :=
| NP | I | S | E | O | M | IS | IM | SM | OM
| I_d | S_d | M_d | M_Inv | M_InvX | E_Inv | E_InvX | S_D | E_D | M_D
| SM_D | SB_D | S_Inv | SM_Inv | SD_Inv | MI | EI | SI | M_B | E_B
| S_B | I_B | SB_Inv | IA | SA | EA | MA | NULLST
| LAST_STATE.

#[global] Instance eq_dec : EqDecision t.
Proof. solve_decision. Defined.
End State.

(** [NextState]: the stable (or blocked) state a transient one leads to. *)
Definition NextState (s : State.t) : option State.t :=
  match s with
  | State.NP => Some State.NP
  | State.I => Some State.I
  | State.S => Some State.S
  | State.E => Some State.E
  | State.O => Some State.O
  | State.M => Some State.M
  | State.IS => Some State.S
  | State.IM => Some State.M
  | State.SM => Some State.M
  | State.OM => Some State.M
  | State.I_d => Some State.I
  | State.S_d => Some State.S
  | State.M_d => Some State.M
  | State.M_Inv => Some State.M
  | State.M_InvX => Some State.M
  | State.E_Inv => Some State.E
  | State.E_InvX => Some State.E
  | State.S_D => Some State.S
  | State.E_D => Some State.E
  | State.M_D => Some State.M
  | State.SM_D => Some State.SM
  | State.SB_D => Some State.S_B
  | State.S_Inv => Some State.S
  | State.SM_Inv => Some State.SM
  | State.SD_Inv => Some State.IS
  | State.MI => Some State.I
  | State.EI => Some State.I
  | State.SI => Some State.I
  | State.M_B => Some State.M
  | State.E_B => Some State.E
  | State.S_B => Some State.S
  | State.I_B => Some State.I
  | State.SB_Inv => Some State.S_B
  | State.IA => Some State.I
  | State.SA => Some State.S
  | State.EA => Some State.E
  | State.MA => Some State.M
  | State.NULLST => Some State.NULLST
  | State.LAST_STATE => None
  end.

(** [enum class MemEventStatus]. *)
Module MemEventStatus.
Inductive t := OK | Stall | Reject.
#[global] Instance eq_dec : EqDecision t.
Proof. solve_decision. Defined.
End MemEventStatus.

(** Node kinds exchanged at initialisation ([enum class Endpoint], [util.h]). *)
Module Endpoint.
Inductive t := CPU | Cache | Memory | Directory | Scratchpad | MMIO | RoundRobinArbiter.
#[global] Instance eq_dec : EqDecision t.
Proof. solve_decision. Defined.
End Endpoint.
