(* ===== verification/MemRegion.v ===== *)
(** * MemRegion: interleaved address regions

    Models [class MemRegion] of [memTypes.h]: membership, the order used by
    [std::set<MemRegion>], and the two operations that scan one period of the
    combined interleaving for common addresses ([intersect], [doesIntersect]). *)

From S2P Require Import Prelude.

Record MemRegion := mkMemRegion {
  start : Z;
  end_ : Z;
  interleaveSize : Z;
  interleaveStep : Z
}.

#[export] Instance MemRegion_eta : Eta MemRegion := fun r =>
  mkMemRegion (start r) (end_ r) (interleaveSize r) (interleaveStep r).

#[export] Instance MemRegion_eq_dec : EqDecision MemRegion.
Proof. solve_decision. Defined.

Definition REGION_MAX : Z := 2 ^ 64 - 1.

Definition setDefault (r : MemRegion) : MemRegion :=
  r <| start := 0 |> <| interleaveSize := 0 |> <| interleaveStep := 0 |>
    <| end_ := REGION_MAX |>.

Definition setEmpty (r : MemRegion) : MemRegion :=
  r <| start := 0 |> <| interleaveSize := 0 |> <| interleaveStep := 0 |>
    <| end_ := 0 |>.

Definition contains (r : MemRegion) (addr : Z) : res bool :=
  if (start r <=? addr) && (addr <=? end_ r) then
    if interleaveSize r =? 0 then Ok true
    else offset ← umod (u64 (addr - start r)) (interleaveStep r);
         Ok (offset <? interleaveSize r)
  else Ok false.

(** Euclid's algorithm as the code recurses; [gcd_fuel] is enough for every
    pair of 64-bit operands ([gcd_Zgcd]). *)
Fixpoint gcd_rec (fuel : nat) (a b : Z) : option Z :=
  if b =? 0 then Some a
  else match fuel with
       | O => None
       | S n => gcd_rec n b (a mod b)
       end.
Definition gcd_fuel : nat := 130.
Definition gcd (a b : Z) : res Z :=
  of_option (Undefined "gcd recursion") (gcd_rec gcd_fuel a b).

(** [operator==], [operator<]; the products wrap at 64 bits. *)
Definition region_eqb (r o : MemRegion) : bool :=
  (start r =? start o) && (end_ r =? end_ o) &&
  (interleaveSize r =? interleaveSize o) && (interleaveStep r =? interleaveStep o).

Definition region_ltb (r o : MemRegion) : bool :=
  if negb (start r =? start o) then start r <? start o
  else if negb (end_ r =? end_ o) then end_ r <? end_ o
  else u64 (interleaveSize r * interleaveStep o) <? u64 (interleaveStep r * interleaveSize o).

(** [std::set<MemRegion>::insert]: in order, and dropped when an equivalent
    element is already there. *)
Fixpoint region_insert (r : MemRegion) (l : list MemRegion) : list MemRegion :=
  match l with
  | [] => [r]
  | o :: l' => if region_ltb r o then r :: l
               else if region_ltb o r then o :: region_insert r l'
               else l
  end.

(** The least common multiple of the two steps, as both operations compute it. *)
Definition region_lcm (r o : MemRegion) : res Z :=
  if interleaveStep r =? interleaveStep o then Ok (interleaveStep r)
  else if interleaveStep o <? interleaveStep r then
    g ← gcd (interleaveStep r) (interleaveStep o);
    q ← udiv (interleaveStep r) g;
    Ok (u64 (q * interleaveStep o))
  else
    g ← gcd (interleaveStep o) (interleaveStep r);
    q ← udiv (interleaveStep r) g;
    Ok (u64 (q * interleaveStep o)).

(** The scanned window [check_start, check_end), empty when the sum wraps. *)
Definition check_window (r o : MemRegion) : res (list Z) :=
  lcm ← region_lcm r o;
  let check_start := Z.max (start r) (start o) in
  let check_end := u64 (check_start + lcm) in
  Ok (seqZ check_start (check_end - check_start)).

(** Whether both regions contain [i], the right one only asked when the left does. *)
Definition both_contain (r o : MemRegion) (i : Z) : res bool :=
  b ← contains r i;
  if b : bool then contains o i else Ok false.

(** The region added for a run of common addresses. *)
Definition run_region (r o : MemRegion) (lcm region_start region_size : Z) : MemRegion :=
  mkMemRegion region_start (Z.min (end_ r) (end_ o)) region_size lcm.

(** The loop of [intersect]; the accumulator is
    ([region_start], [region_size], [regions]). *)
Fixpoint intersect_loop (r o : MemRegion) (lcm : Z) (addrs : list Z)
    (region_start region_size : Z) (regions : list MemRegion)
    : res (Z * Z * list MemRegion) :=
  match addrs with
  | [] => Ok (region_start, region_size, regions)
  | i :: addrs' =>
      in_region ← both_contain r o i;
      if in_region : bool then
        intersect_loop r o lcm addrs'
          (if region_size =? 0 then i else region_start)
          (u64 (region_size + 1)) regions
      else if negb (region_size =? 0) then
        intersect_loop r o lcm addrs' region_start 0
          (region_insert (run_region r o lcm region_start region_size) regions)
      else intersect_loop r o lcm addrs' region_start region_size regions
  end.

Definition intersect (r o : MemRegion) : res (list MemRegion) :=
  if (end_ o <? start r) || (end_ r <? start o) then Ok []
  else if region_eqb r o then Ok [r]
  else if (interleaveSize r =? 0) && (interleaveStep o =? 0) then
    Ok [mkMemRegion (Z.max (start r) (start o)) (Z.min (end_ r) (end_ o)) 0 0]
  else
    lcm ← region_lcm r o;
    addrs ← check_window r o;
    '(region_start, region_size, regions) ←
      intersect_loop r o lcm addrs (Z.max (start r) (start o)) 0 [];
    if negb (region_size =? 0)
    then Ok (region_insert (run_region r o lcm region_start region_size) regions)
    else Ok regions.

Fixpoint scan (r o : MemRegion) (addrs : list Z) : res bool :=
  match addrs with
  | [] => Ok false
  | i :: addrs' => b ← both_contain r o i;
                if b : bool then Ok true else scan r o addrs'
  end.

Definition doesIntersect (r o : MemRegion) : res bool :=
  if (end_ o <? start r) || (end_ r <? start o) then Ok false
  else if region_eqb r o then Ok true
  else if (interleaveSize r =? 0) && (interleaveStep o =? 0) then Ok true
  else addrs ← check_window r o; scan r o addrs.

(** ** Well-formed regions and what they denote *)

Record region_wf (r : MemRegion) : Prop := {
  wf_start : 0 <= start r < 2 ^ 64;
  wf_end : 0 <= end_ r < 2 ^ 64;
  wf_size : 0 <= interleaveSize r < 2 ^ 64;
  wf_step : 0 <= interleaveStep r < 2 ^ 64;
  wf_step_pos : interleaveSize r <> 0 -> interleaveStep r <> 0
}.

(** The addresses a region denotes: every chunk of [interleaveSize] bytes at
    distance [interleaveStep], cut at [end_]. *)
Definition in_region (r : MemRegion) (a : Z) : Prop :=
  start r <= a <= end_ r /\
  (interleaveSize r = 0 \/ (a - start r) mod interleaveStep r < interleaveSize r).

#[export] Instance in_region_dec r a : Decision (in_region r a).
Proof. unfold in_region. apply _. Defined.

Definition interleaved (r : MemRegion) : Prop :=
  0 < interleaveSize r /\ 0 < interleaveStep r.

Lemma contains_in_region r a :
  region_wf r -> contains r a = Ok (bool_decide (in_region r a)).
Proof.
  intros [Hs He Hz Ht Hp]. unfold contains, in_region.
  destruct (Z.leb_spec (start r) a); simpl.
  2: { rewrite bool_decide_eq_false_2; [done|lia]. }
  destruct (Z.leb_spec a (end_ r)); simpl.
  2: { rewrite bool_decide_eq_false_2; [done|lia]. }
  destruct (Z.eqb_spec (interleaveSize r) 0) as [E|E].
  - rewrite bool_decide_eq_true_2; [done|lia].
  - unfold umod. destruct (Z.eqb_spec (interleaveStep r) 0) as [E'|E']; [lia|].
    rewrite u64_small by lia. cbn. f_equal.
    destruct (Z.ltb_spec ((a - start r) mod interleaveStep r) (interleaveSize r)).
    + rewrite bool_decide_eq_true_2; [done|]. split; [lia|by right].
    + rewrite bool_decide_eq_false_2; [done|]. intros [_ [?|?]]; lia.
Qed.

(** Membership depends on the offset only modulo the step. *)
Lemma in_region_shift r a p :
  interleaved r -> (interleaveStep r | p) -> in_region r a ->
  start r <= a + p <= end_ r -> in_region r (a + p).
Proof.
  intros [Hz Hp] [k ->] [Hr [?|Hm]] Hb; [lia|].
  split; [done|]. right.
  by replace (a + k * interleaveStep r - start r)
    with (a - start r + k * interleaveStep r) by lia; rewrite Z.mod_add by lia.
Qed.

Lemma both_contain_in_region r o i :
  region_wf r -> region_wf o ->
  both_contain r o i = Ok (bool_decide (in_region r i /\ in_region o i)).
Proof.
  intros Hr Ho. unfold both_contain. rewrite contains_in_region by done. cbn.
  repeat case_bool_decide; try (rewrite contains_in_region by done; f_equal);
    repeat case_bool_decide; tauto.
Qed.

(** ** Termination of [gcd] *)

Lemma gcd_rec_enough k a b :
  0 <= a -> 0 <= b < 2 ^ Z.of_nat k -> gcd_rec (2 * k) a b = Some (Z.gcd a b).
Proof.
  revert a b. induction k as [|k IH]; intros a b Ha Hb.
  - assert (b = 0) as -> by (simpl in Hb; lia). simpl. f_equal.
    rewrite Z.gcd_0_r. lia.
  - replace (2 * S k)%nat with (S (S (2 * k))) by lia. cbn [gcd_rec].
    destruct (Z.eqb_spec b 0) as [->|Hnz]; [f_equal; rewrite Z.gcd_0_r; lia|].
    pose proof (Z.mod_pos_bound a b ltac:(lia)) as Hr.
    replace (Z.gcd a b) with (Z.gcd b (a mod b)).
    2: { rewrite Z.gcd_comm, Z.gcd_mod by lia. apply Z.gcd_comm. }
    destruct (Z.eqb_spec (a mod b) 0) as [->|Hnz']; [f_equal; rewrite Z.gcd_0_r; lia|].
    set (r := a mod b) in *.
    rewrite IH.
    + f_equal. rewrite (Z.gcd_comm r), Z.gcd_mod by lia. apply Z.gcd_comm.
    + lia.
    + pose proof (Z.mod_pos_bound b r ltac:(lia)) as Hr2. split; [lia|].
      rewrite Nat2Z.inj_succ, Z.pow_succ_r in Hb by lia.
      pose proof (Z.div_mod b r ltac:(lia)) as Hd.
      assert (1 <= b / r) by (apply Z.div_le_lower_bound; lia).
      nia.
Qed.

Lemma gcd_Zgcd a b : 0 <= a -> 0 <= b < 2 ^ 64 -> gcd a b = Ok (Z.gcd a b).
Proof.
  intros Ha Hb. unfold gcd, gcd_fuel.
  assert (forall n m a b g, gcd_rec n a b = Some g -> gcd_rec (n + m) a b = Some g) as mono.
  { clear. intros n m. induction n as [|n IH]; intros a b g H.
    - destruct m; simpl in *; destruct (b =? 0); done.
    - simpl in *. destruct (b =? 0); [done|]. by apply IH. }
  change 130%nat with (2 * 64 + 2)%nat.
  erewrite mono; [done|]. apply gcd_rec_enough; lia.
Qed.

Lemma region_lcm_Zlcm r o :
  region_wf r -> region_wf o -> interleaved r -> interleaved o ->
  Z.lcm (interleaveStep r) (interleaveStep o) < 2 ^ 64 ->
  region_lcm r o = Ok (Z.lcm (interleaveStep r) (interleaveStep o)).
Proof.
  intros [_ _ _ Hr _] [_ _ _ Ho _] [_ Hpr] [_ Hpo] Hb. unfold region_lcm.
  destruct (Z.eqb_spec (interleaveStep r) (interleaveStep o)) as [->|Hne].
  { f_equal. rewrite Z.lcm_diag. lia. }
  set (p := interleaveStep r) in *. set (q := interleaveStep o) in *.
  assert (0 < Z.gcd p q) as Hg.
  { pose proof (Z.gcd_nonneg p q). destruct (Z.eq_dec (Z.gcd p q) 0) as [E|]; [|lia].
    apply Z.gcd_eq_0_l in E. lia. }
  assert (p / Z.gcd p q * q = Z.lcm p q) as Hl.
  { unfold Z.lcm. pose proof (Z.gcd_divide_l p q) as [a Ea].
    pose proof (Z.gcd_divide_r p q) as [b Eb].
    rewrite Eb at 3. rewrite Z.div_mul by lia.
    rewrite Eb at 2. rewrite Ea at 1. rewrite Z.div_mul by lia.
    rewrite Ea at 2. rewrite Z.abs_eq by nia. nia. }
  assert (0 <= Z.lcm p q) by apply Z.lcm_nonneg.
  destruct (q <? p).
  - rewrite gcd_Zgcd by lia. cbn. unfold udiv.
    destruct (Z.eqb_spec (Z.gcd p q) 0); [lia|]. cbn. rewrite Hl, u64_small by lia. done.
  - rewrite gcd_Zgcd by lia. rewrite Z.gcd_comm. cbn. unfold udiv.
    destruct (Z.eqb_spec (Z.gcd p q) 0); [lia|]. cbn. rewrite Hl, u64_small by lia. done.
Qed.

(** ** The scanned window decides intersection *)

Definition common (r o : MemRegion) (a : Z) : Prop := in_region r a /\ in_region o a.

(** Both regions interleaved, and one combined period above the larger start
    still a 64-bit address. *)
Definition periods_fit (r o : MemRegion) : Prop :=
  interleaved r /\ interleaved o /\
  Z.max (start r) (start o) + Z.lcm (interleaveStep r) (interleaveStep o) < 2 ^ 64.

Definition contiguous (r : MemRegion) : Prop :=
  interleaveSize r = 0 /\ interleaveStep r = 0.

Section window.
Context (r o : MemRegion) (Hr : region_wf r) (Ho : region_wf o).
Context (Hfit : periods_fit r o).

Abbreviation cs := (Z.max (start r) (start o)).
Abbreviation L := (Z.lcm (interleaveStep r) (interleaveStep o)).

Lemma lcm_pos : 0 < L.
Proof.
  destruct Hfit as ([? ?] & [? ?] & _).
  pose proof (Z.lcm_nonneg (interleaveStep r) (interleaveStep o)).
  destruct (Z.eq_dec L 0) as [E|]; [|lia]. apply Z.lcm_eq_0 in E. lia.
Qed.

Lemma region_lcm_fit : region_lcm r o = Ok L.
Proof.
  destruct Hfit as (? & ? & ?). destruct Hr, Ho.
  apply region_lcm_Zlcm; [done..|lia].
Qed.

Lemma check_window_seq : check_window r o = Ok (seqZ cs L).
Proof.
  unfold check_window. rewrite region_lcm_fit. cbn.
  pose proof lcm_pos. destruct Hfit as (_ & _ & ?). destruct Hr, Ho.
  rewrite u64_small by lia. by replace (cs + L - cs) with L by lia.
Qed.

Lemma common_shift a k :
  common r o a -> cs <= a + k * L <= Z.min (end_ r) (end_ o) -> common r o (a + k * L).
Proof.
  destruct Hfit as (Hir & Hio & _). intros [H1 H2] Hb.
  pose proof (Z.divide_lcm_l (interleaveStep r) (interleaveStep o)).
  pose proof (Z.divide_lcm_r (interleaveStep r) (interleaveStep o)).
  split; (apply in_region_shift; [done| by apply Z.divide_mul_r | done | lia]).
Qed.

(** Every common address has a representative inside the window. *)
Definition fold_back (a : Z) : Z := cs + (a - cs) mod L.

Lemma fold_back_window a : cs <= fold_back a < cs + L.
Proof. unfold fold_back. pose proof (Z.mod_pos_bound (a - cs) L lcm_pos). lia. Qed.

Lemma fold_back_eq a : exists k, a = fold_back a + k * L /\ (cs <= a -> 0 <= k).
Proof.
  pose proof lcm_pos. exists ((a - cs) / L). unfold fold_back.
  pose proof (Z.div_mod (a - cs) L ltac:(lia)). split; [lia|].
  intros. apply Z.div_pos; lia.
Qed.

Lemma common_fold_back a : common r o a -> common r o (fold_back a).
Proof.
  intros Hc. pose proof Hc as [[? _] [? _]].
  destruct (fold_back_eq a) as (k & Ek & Hk). pose proof (fold_back_window a).
  pose proof lcm_pos.
  replace (fold_back a) with (a + (- k) * L) by lia. apply common_shift; [done|]. nia.
Qed.

Lemma scan_Exists l :
  exists b, scan r o l = Ok b /\ (b = true <-> exists a, a ∈ l /\ common r o a).
Proof.
  induction l as [|i l (b & Hb & Hiff)]; simpl.
  { exists false. set_solver. }
  rewrite both_contain_in_region by done. cbn. case_bool_decide as Hi.
  - exists true. split; [done|]. split; [|done]. intros _. exists i. split; [by left | done].
  - exists b. rewrite Hb. split; [done|]. rewrite Hiff. unfold common in *.
    split.
    + intros (a & Ha & Hc). exists a. split; [by right | done].
    + intros (a & [->|Ha]%elem_of_cons & Hc); [done | by exists a].
Qed.

(** *** The runs collected by [intersect] *)

Definition chunk (g : MemRegion) (a : Z) : Prop :=
  start g <= a < start g + interleaveSize g.

(** State of the loop before looking at address [i]: [rs], [sz] the open
    run, [regs] the closed ones. *)
Record runs_inv (i rs sz : Z) (regs : list MemRegion) : Prop := {
  ri_range : cs <= i <= cs + L;
  ri_open : 0 <= sz /\ (sz <> 0 -> cs <= rs /\ rs + sz = i);
  ri_closed : forall g, g ∈ regs ->
    g = run_region r o L (start g) (interleaveSize g) /\
    0 < interleaveSize g /\ cs <= start g /\
    start g + interleaveSize g <= (if sz =? 0 then i else rs);
  ri_cover : forall a, cs <= a < i ->
    (common r o a <-> (exists g, g ∈ regs /\ chunk g a) \/ (sz <> 0 /\ rs <= a < rs + sz))
}.

Lemma region_insert_last g l :
  (forall h, h ∈ l -> start h < start g) -> region_insert g l = l ++ [g].
Proof.
  induction l as [|h l IH]; intros Hl; simpl; [done|].
  assert (start h < start g) by set_solver. unfold region_ltb.
  destruct (Z.eqb_spec (start g) (start h)); [lia|].
  destruct (Z.eqb_spec (start h) (start g)); [lia|]. simpl.
  destruct (Z.ltb_spec (start g) (start h)); [lia|].
  destruct (Z.ltb_spec (start h) (start g)); [|lia].
  f_equal. apply IH. set_solver.
Qed.

(** Closing the open run. *)
Lemma runs_inv_close i rs sz regs :
  runs_inv i rs sz regs -> sz <> 0 ->
  runs_inv i rs 0 (region_insert (run_region r o L rs sz) regs).
Proof.
  intros [Hi Hop Hcl Hcov] Hsz. pose proof (proj2 Hop Hsz) as [Hrs Hi'].
  assert (0 < sz) by lia. destruct (Z.eqb_spec sz 0) as [|_]; [done|].
  rewrite region_insert_last.
  2: { intros h Hh. simpl. destruct (Hcl h Hh) as (_ & ? & ? & ?). lia. }
  constructor; [done|lia| |].
  - intros g [Hg|Hg%list_elem_of_singleton]%elem_of_app.
    + destruct (Hcl g Hg) as (? & ? & ? & ?). simpl. split_and!; [done|lia..].
    + subst g. simpl. split_and!; [done|lia..].
  - intros a Ha. rewrite Hcov by done. split.
    + intros [(g & ? & ?)|[_ ?]]; left.
      * exists g. by rewrite elem_of_app; auto.
      * exists (run_region r o L rs sz). rewrite elem_of_app, list_elem_of_singleton. auto.
    + intros [(g & [Hg|Hg%list_elem_of_singleton]%elem_of_app & Hc)|[? _]]; [|subst g|done].
      * left. eauto.
      * right. done.
Qed.

Lemma intersect_loop_runs n i rs sz regs :
  i + Z.of_nat n = cs + L -> runs_inv i rs sz regs ->
  exists rs' sz' regs',
    intersect_loop r o L (seqZ i (Z.of_nat n)) rs sz regs = Ok (rs', sz', regs') /\
    runs_inv (cs + L) rs' sz' regs'.
Proof.
  revert i rs sz regs. induction n as [|n IH]; intros i rs sz regs Hn Hinv.
  { exists rs, sz, regs. split; [done|]. by replace (cs + L) with i by lia. }
  rewrite seqZ_cons by lia. replace (Z.pred (Z.of_nat (S n))) with (Z.of_nat n) by lia.
  simpl. rewrite both_contain_in_region by done. simpl.
  pose proof (ri_open _ _ _ _ Hinv) as [Hsz0 Hop].
  pose proof (ri_range _ _ _ _ Hinv). pose proof (ri_cover _ _ _ _ Hinv) as Hcov.
  destruct Hfit as (_ & _ & ?). destruct Hr, Ho.
  case_bool_decide as Hc.
  - apply IH; [lia|]. destruct (Z.eqb_spec sz 0) as [->|Hsz].
    + constructor; [lia|rewrite u64_small; lia| |].
      * intros g Hg. destruct (ri_closed _ _ _ _ Hinv g Hg) as (? & ? & ? & ?). simpl in *.
        split_and!; [done..|]. lia.
      * intros a Ha. rewrite u64_small by lia. destruct (decide (a = i)) as [->|].
        -- split; [|done]. right. lia.
        -- rewrite Hcov by lia. split; intros [?|?]; [by left|lia|by left|lia].
    + specialize (Hop Hsz). rewrite u64_small by lia. constructor; [lia|lia| |].
      * intros g Hg. destruct (ri_closed _ _ _ _ Hinv g Hg) as (? & ? & ? & ?).
        destruct (Z.eqb_spec sz 0); [done|]. destruct (Z.eqb_spec (sz + 1) 0); [lia|]. done.
      * intros a Ha. destruct (decide (a = i)) as [->|].
        -- split; [|done]. right. lia.
        -- rewrite Hcov by lia. split; (intros [?|[_ ?]]; [by left|right; lia]).
  - assert (forall rs' regs', runs_inv i rs' 0 regs' -> runs_inv (Z.succ i) rs' 0 regs') as Hstep.
    { intros rs' regs' [? ? Hcl' Hcov']. constructor; [lia|lia| |].
      - intros g Hg. destruct (Hcl' g Hg) as (? & ? & ? & ?). simpl in *.
        split_and!; [done..|]. lia.
      - intros a Ha. destruct (decide (a = i)) as [->|]; [|apply Hcov'; lia].
        split; [done|]. intros [(g & Hg & Hch)|?]; [|lia].
        destruct (Hcl' g Hg) as (? & ? & ? & ?). unfold chunk in Hch. simpl in *. lia. }
    destruct (Z.eqb_spec sz 0) as [->|Hsz]; simpl.
    + apply IH; [lia|]. by apply Hstep.
    + apply IH; [lia|]. apply Hstep. by apply runs_inv_close.
Qed.

(** Closed runs denote exactly the common addresses. *)
Lemma runs_inv_denote rs regs a :
  runs_inv (cs + L) rs 0 regs ->
  (exists g, g ∈ regs /\ in_region g a) <-> common r o a.
Proof.
  intros [_ _ Hcl Hcov]. simpl in *. pose proof lcm_pos.
  split.
  - intros (g & Hg & [Hb Hm]). destruct (Hcl g Hg) as (E & ? & ? & ?).
    assert (interleaveStep g = L) as Es by (rewrite E; done).
    assert (end_ g = Z.min (end_ r) (end_ o)) as Ee by (rewrite E; done).
    destruct Hm as [|Hm]; [lia|]. rewrite Es in Hm.
    set (a' := start g + (a - start g) mod L).
    pose proof (Z.mod_pos_bound (a - start g) L ltac:(lia)).
    assert (common r o a') as Hc.
    { apply Hcov; [lia|]. left. exists g. split; [done|]. unfold chunk, a'. lia. }
    pose proof (Z.div_mod (a - start g) L ltac:(lia)).
    assert (0 <= (a - start g) / L) by (apply Z.div_pos; lia).
    replace a with (a' + ((a - start g) / L) * L) by lia.
    apply common_shift; [done|]. nia.
  - intros Hc. pose proof (common_fold_back a Hc) as Hc'.
    pose proof (fold_back_window a) as Hw. destruct (fold_back_eq a) as (k & Ek & Hk).
    destruct Hc as [[? _] [? _]]. assert (0 <= k) by lia.
    apply Hcov in Hc' as [(g & Hg & Hch)|[? _]]; [|done|lia].
    exists g. split; [done|]. destruct (Hcl g Hg) as (E & ? & ? & ?). unfold chunk in Hch.
    assert (interleaveStep g = L) as Es by (rewrite E; done).
    assert (end_ g = Z.min (end_ r) (end_ o)) as Ee by (rewrite E; done).
    split; [rewrite Ee; nia|]. right. rewrite Es.
    replace (a - start g) with (fold_back a - start g + k * L) by lia.
    rewrite Z.mod_add by lia. rewrite Z.mod_small by lia. lia.
Qed.
End window.

Lemma region_eqb_eq r o : region_eqb r o = true <-> r = o.
Proof.
  unfold region_eqb. destruct r, o. simpl. rewrite !andb_true_iff, !Z.eqb_eq. naive_solver.
Qed.

(** Decide the guards shared by [intersect] and [doesIntersect]. *)
Lemma disjoint_no_common r o a :
  (end_ o <? start r) || (end_ r <? start o) = true -> ~ common r o a.
Proof. rewrite orb_true_iff, !Z.ltb_lt. intros ? [[? _] [? _]]. lia. Qed.

Lemma region_start_in r : interleaved r -> start r <= end_ r -> in_region r (start r).
Proof.
  intros [? ?] ?. split; [lia|]. right. rewrite Z.sub_diag, Z.mod_0_l; lia.
Qed.

(** for two interleaved regions whose combined period fits in 64 bits,
    [intersect] returns regions that together contain exactly the addresses
    both regions contain. *)
Theorem intersect_correct r o :
  region_wf r -> region_wf o -> periods_fit r o ->
  exists regs, intersect r o = Ok regs /\
    forall a, (exists g, g ∈ regs /\ in_region g a) <-> common r o a.
Proof.
  intros Hr Ho Hfit. unfold intersect.
  destruct ((end_ o <? start r) || (end_ r <? start o)) eqn:Hd.
  { exists []. split; [done|]. intros a. split.
    - intros (g & Hg & _). by apply not_elem_of_nil in Hg.
    - intros Hc. by apply disjoint_no_common in Hc. }
  destruct (region_eqb r o) eqn:He.
  { apply region_eqb_eq in He as ->. exists [o]. split; [done|]. intros a. split.
    - intros (g & ->%list_elem_of_singleton & ?). done.
    - intros [? ?]. exists o. by rewrite list_elem_of_singleton. }
  pose proof Hfit as ([Hz _] & [_ Ho'] & Hb).
  destruct (Z.eqb_spec (interleaveSize r) 0); [lia|]. simpl.
  rewrite region_lcm_fit, check_window_seq by done. simpl.
  pose proof (lcm_pos r o Hfit).
  destruct (intersect_loop_runs r o Hr Ho Hfit
    (Z.to_nat (Z.lcm (interleaveStep r) (interleaveStep o)))
    (Z.max (start r) (start o)) (Z.max (start r) (start o)) 0 [])
    as (rs & sz & regs & Hrun & Hinv); [lia| |].
  { constructor; simpl; [lia|lia| |]; [intros g Hg; by apply not_elem_of_nil in Hg|lia]. }
  rewrite Z2Nat.id in Hrun by lia. rewrite Hrun. simpl.
  destruct (Z.eqb_spec sz 0) as [->|Hsz]; simpl; (eexists; split; [done|]).
  - intros a. by apply (runs_inv_denote r o Hfit rs).
  - intros a. apply (runs_inv_denote r o Hfit rs). by apply runs_inv_close.
Qed.

Definition region_A : MemRegion := mkMemRegion 0 1000 4 12.
Definition region_B : MemRegion := mkMemRegion 6 500 3 8.

Lemma region_wf_A : region_wf region_A.
Proof. constructor; simpl; lia. Defined.
Lemma region_wf_B : region_wf region_B.
Proof. constructor; simpl; lia. Defined.
Lemma periods_fit_AB : periods_fit region_A region_B.
Proof. unfold periods_fit, interleaved. split_and!; vm_compute; reflexivity. Defined.

Lemma intersect_correct_witness :
  intersect region_A region_B
    = Ok [mkMemRegion 14 500 2 24; mkMemRegion 24 500 1 24] /\
  exists regs, intersect region_A region_B = Ok regs /\
    forall a, (exists g, g ∈ regs /\ in_region g a) <-> common region_A region_B a.
Proof.
  split; [vm_compute; reflexivity|].
  apply (intersect_correct region_A region_B region_wf_A region_wf_B periods_fit_AB).
Defined.

(** under the same conditions [doesIntersect] answers whether some address
    lies in both regions, although it only scans one combined period. *)
Theorem doesIntersect_correct r o :
  region_wf r -> region_wf o -> periods_fit r o ->
  exists b, doesIntersect r o = Ok b /\ (b = true <-> exists a, common r o a).
Proof.
  intros Hr Ho Hfit. unfold doesIntersect.
  destruct ((end_ o <? start r) || (end_ r <? start o)) eqn:Hd.
  { exists false. split; [done|]. split; [done|].
    intros [a Hc]. by apply disjoint_no_common in Hc. }
  pose proof Hfit as ([Hz Hp] & _ & _).
  destruct (region_eqb r o) eqn:He.
  { apply region_eqb_eq in He as ->. exists true. split; [done|]. split; [|done]. intros _.
    apply orb_false_iff in Hd as [Hd _]. apply Z.ltb_ge in Hd.
    exists (start o). by split; apply region_start_in. }
  destruct (Z.eqb_spec (interleaveSize r) 0); [lia|]. simpl.
  rewrite check_window_seq by done. simpl.
  destruct (scan_Exists r o Hr Ho Hfit
    (seqZ (Z.max (start r) (start o)) (Z.lcm (interleaveStep r) (interleaveStep o))))
    as (b & Hb & Hiff).
  exists b. split; [done|]. rewrite Hiff. split; intros (a & H).
  - exists a. tauto.
  - exists (fold_back r o a). split; [|by apply common_fold_back].
    apply elem_of_seqZ. by apply fold_back_window.
Qed.

Lemma doesIntersect_correct_witness :
  doesIntersect region_A region_B = Ok true /\
  exists b, doesIntersect region_A region_B = Ok b /\
    (b = true <-> exists a, common region_A region_B a).
Proof.
  split; [vm_compute; reflexivity|].
  apply (doesIntersect_correct region_A region_B region_wf_A region_wf_B periods_fit_AB).
Defined.

(** a contiguous region (no interleaving) is never reported to intersect an
    interleaved one, in either argument order, whatever addresses they share:
    the combined period computes to zero and nothing is scanned. *)
Theorem doesIntersect_mixed_false r o :
  region_wf r -> region_wf o -> contiguous r -> interleaved o ->
  doesIntersect r o = Ok false /\ doesIntersect o r = Ok false.
Proof.
  intros Hr Ho [Hrz Hrs] [Hoz Hos].
  assert (region_lcm r o = Ok 0 /\ region_lcm o r = Ok 0) as [E1 E2].
  { destruct Hr, Ho. unfold region_lcm. rewrite Hrs.
    destruct (Z.eqb_spec 0 (interleaveStep o)); [lia|].
    destruct (Z.eqb_spec (interleaveStep o) 0); [lia|].
    destruct (Z.ltb_spec (interleaveStep o) 0); [lia|].
    destruct (Z.ltb_spec 0 (interleaveStep o)); [|lia].
    rewrite gcd_Zgcd by lia. rewrite Z.gcd_0_r. rewrite Z.abs_eq by lia.
    cbn. unfold udiv. destruct (Z.eqb_spec (interleaveStep o) 0); [lia|].
    cbn. rewrite Z.mul_0_r, Z.div_0_l by lia. done. }
  assert (forall x y, region_wf x -> region_wf y -> region_lcm x y = Ok 0 ->
            check_window x y = Ok []) as Hw.
  { intros x y [] [] E. unfold check_window. rewrite E. cbn.
    rewrite u64_small by lia. by rewrite Z.add_0_r, Z.sub_diag. }
  assert (forall x y, x = r /\ y = o \/ x = o /\ y = r -> region_eqb x y = false) as Hne.
  { intros x y Hxy. apply not_true_iff_false. rewrite region_eqb_eq.
    intros ->. destruct Hxy as [[-> ->]|[-> ->]]; lia. }
  unfold doesIntersect. rewrite !Hne, !Hw by auto. split.
  - destruct (_ || _); [done|].
    destruct (Z.eqb_spec (interleaveStep o) 0); [lia|]. by rewrite andb_false_r.
  - destruct (_ || _); [done|].
    destruct (Z.eqb_spec (interleaveSize o) 0); [lia|]. done.
Qed.

Definition region_whole : MemRegion := setDefault region_A.

Lemma doesIntersect_mixed_false_witness :
  common region_whole region_B 6 /\
  doesIntersect region_whole region_B = Ok false /\ doesIntersect region_B region_whole = Ok false.
Proof.
  split.
  - apply (bool_decide_unpack (common region_whole region_B 6)). vm_compute. exact Logic.I.
  - apply (doesIntersect_mixed_false region_whole region_B);
      [constructor; simpl; unfold REGION_MAX; lia | exact region_wf_B
      | done | unfold interleaved; simpl; lia].
Defined.
