(* ===== verification/Hash.v ===== *)
(** * Hash: the set-index hash functions of memHierarchy

    Models [hash.h]: the interface [HashFunction] and its three
    implementations. Values are 64-bit unsigned; [XorHashFunction] promotes its
    bytes to [int] before shifting them, so the shift is modelled at 32 bits. *)

From S2P Require Import Prelude.

(** The interface: [uint64_t hash(uint32_t ID, uint64_t value)]. *)
Class HashFunction := hash : Z -> Z -> res Z.

Module NoHashFunction.
Definition hash : HashFunction := fun _ID value => Ok value.
End NoHashFunction.

Module LinearHashFunction.
Definition hash : HashFunction := fun _ID x => Ok (u64 (u64 (1103515245 * x) + 12345)).

(** The inverse permutation of the 64-bit words. *)
Definition unhash (y : Z) : Z := u64 (u64 (y - 12345) * 17850689345304521573).
End LinearHashFunction.

Module XorHashFunction.
(** [(x >> (i*8)) & 0xff]. *)
Definition byte_of (x : Z) (i : nat) : Z := Z.land (Z.shiftr x (Z.of_nat i * 8)) 255.

Definition split_bytes (x : Z) : list Z := byte_of x <$> seq 0 8.

(** [for i < 7: b[i] ^= b[i + 1]], in place. *)
Fixpoint mix (b : list Z) : list Z :=
  match b with
  | x :: ((y :: _) as b') => Z.lxor x y :: mix b'
  | _ => b
  end.

(** [b << n] on a promoted byte: a shift by 32 or more is undefined, and so is
    a result that does not fit 32 bits; bit 31 becomes the sign. *)
Definition shl_int (b n : Z) : res Z :=
  if (n <? 0) || (32 <=? n) then Err (Undefined "shift width")
  else let v := b * 2 ^ n in
       if 2 ^ 32 <=? v then Err (Undefined "shift overflow")
       else Ok (if 2 ^ 31 <=? v then v - 2 ^ 32 else v).

(** [for i < 8: result |= (b[i] << (i*8))]. *)
Fixpoint join (i : nat) (b : list Z) (result : Z) : res Z :=
  match b with
  | [] => Ok result
  | x :: b' => v ← shl_int x (Z.of_nat i * 8);
               join (S i) b' (Z.lor result (u64 v))
  end.

Definition hash : HashFunction := fun _ID x => join 0 (mix (split_bytes x)) 0.
End XorHashFunction.

Lemma linear_inverse : (1103515245 * 17850689345304521573) mod 2 ^ 64 = 1.
Proof. vm_compute. reflexivity. Qed.

(** Reduce nested [u64]s to one. *)
Lemma u64_mul_l a b : u64 (u64 a * b) = u64 (a * b).
Proof. unfold u64. by rewrite Z.mul_mod_idemp_l. Qed.
Lemma u64_mul_r a b : u64 (a * u64 b) = u64 (a * b).
Proof. unfold u64. by rewrite Z.mul_mod_idemp_r. Qed.
Lemma u64_add_l a b : u64 (u64 a + b) = u64 (a + b).
Proof. unfold u64. by rewrite Z.add_mod_idemp_l. Qed.
Lemma u64_sub_l a b : u64 (u64 a - b) = u64 (a - b).
Proof. unfold u64. by rewrite Zminus_mod_idemp_l. Qed.

(** the comment on [LinearHashFunction] says it "should uniquely map each
    input to an output": on 64-bit words it is a bijection, with [unhash] as
    its two-sided inverse. *)
Theorem linear_hash_bijective id x :
  0 <= x < 2 ^ 64 ->
  (exists h, LinearHashFunction.hash id x = Ok h /\ LinearHashFunction.unhash h = x) /\
  LinearHashFunction.hash id (LinearHashFunction.unhash x) = Ok x.
Proof.
  intros Hx. unfold LinearHashFunction.hash, LinearHashFunction.unhash. split.
  - eexists. split; [done|].
    rewrite u64_add_l, u64_sub_l, u64_mul_l.
    replace (1103515245 * x + 12345 - 12345) with (1103515245 * x) by lia.
    replace (1103515245 * x * 17850689345304521573)
      with (1103515245 * 17850689345304521573 * x) by lia.
    unfold u64. rewrite <- Z.mul_mod_idemp_l by lia. rewrite linear_inverse, Z.mul_1_l.
    by apply Z.mod_small.
  - f_equal. rewrite u64_mul_l, u64_mul_r, u64_add_l.
    replace (1103515245 * ((x - 12345) * 17850689345304521573) + 12345)
      with ((1103515245 * 17850689345304521573) * (x - 12345) + 12345) by lia.
    unfold u64. rewrite <- Z.add_mod_idemp_l by lia.
    rewrite <- (Z.mul_mod_idemp_l (1103515245 * _)) by lia.
    rewrite linear_inverse, Z.mul_1_l, Z.add_mod_idemp_l by lia.
    replace (x - 12345 + 12345) with x by lia. by apply Z.mod_small.
Qed.

Lemma linear_hash_bijective_witness :
  0 <= 77 < 2 ^ 64 /\
  (exists h, LinearHashFunction.hash 0 77 = Ok h /\ LinearHashFunction.unhash h = 77) /\
  LinearHashFunction.hash 0 (LinearHashFunction.unhash 77) = Ok 77.
Proof. split; [lia|]. apply (linear_hash_bijective 0 77). lia. Defined.

Lemma shl_int_undefined_or_ok b n :
  (exists why, XorHashFunction.shl_int b n = Err (Undefined why)) \/
  (exists v, n < 32 /\ XorHashFunction.shl_int b n = Ok v).
Proof.
  unfold XorHashFunction.shl_int.
  destruct (Z.ltb_spec n 0), (Z.leb_spec 32 n); simpl; eauto. destruct (_ <=? _); eauto.
Qed.

(** Once the loop reaches byte 4 the shift is too wide. *)
Lemma join_undefined b : forall i result, (i <= 4 < i + length b)%nat ->
  exists why, XorHashFunction.join i b result = Err (Undefined why).
Proof.
  induction b as [|x b IH]; intros i result Hi; simpl in *; [lia|].
  destruct (shl_int_undefined_or_ok x (Z.of_nat i * 8)) as [[why ->]|(v & Hn & ->)].
  - by exists why.
  - apply IH. lia.
Qed.

(** [XorHashFunction::hash] shifts a promoted byte by 32 or more bits for
    every input, which C++ leaves undefined: the hash has no defined value. *)
Theorem xor_hash_undefined id x :
  exists why, XorHashFunction.hash id x = Err (Undefined why).
Proof. apply join_undefined. simpl. lia. Qed.
