(* ===== verification/Replacement.v ===== *)
(** * Replacement: replacement policies of cache arrays

    Models [replacementManager.h]: the information a line shows to a policy,
    the interface [ReplacementPolicy], and its eight implementations. *)

From S2P Require Import Prelude MemTypes.

(** [ReplacementInfo], with the fields of [CoherenceReplacementInfo] when the
    object is one ([dynamic_cast] succeeds). *)
Record CoherenceFields := mkCoherenceFields { shared : bool; owned : bool }.

Record ReplacementInfo := mkReplacementInfo {
  ri_index : Z;
  ri_state : State.t;
  ri_coherence : option CoherenceFields
}.

#[export] Instance CoherenceFields_eta : Eta CoherenceFields := fun c =>
  mkCoherenceFields (shared c) (owned c).
#[export] Instance ReplacementInfo_eta : Eta ReplacementInfo := fun r =>
  mkReplacementInfo (ri_index r) (ri_state r) (ri_coherence r).

Definition isCoherenceInfo (r : ReplacementInfo) : bool := bool_decide (is_Some (ri_coherence r)).

(** [static_cast<CoherenceReplacementInfo*>]: undefined on another object. *)
Definition asCoherence (r : ReplacementInfo) : res CoherenceFields :=
  of_option (Undefined "bad static_cast") (ri_coherence r).

(** The interface of a policy with state [P]. *)
Class ReplacementPolicy (P : Type) := {
  rp_checkCompatibility : ReplacementInfo -> bool;
  rp_update : Z -> M P unit;
  rp_replaced : Z -> M P unit;
  rp_findBestCandidate : list ReplacementInfo -> M P Z;
  rp_getBestCandidate : P -> Z
}.

(** The candidate loop every ranked policy runs over the ways of a set: an
    invalid way is taken at once, otherwise a way replaces the best one so far
    when it ranks [better]. [rInfo[0]] of an empty set is undefined. *)
Section candidate_loop.
Context {K : Type} (rank : ReplacementInfo -> res K) (better : K -> K -> res bool).

Fixpoint candidate_loop (rInfo : list ReplacementInfo) (bestRank : K) (bestCandidate : Z)
    : res Z :=
  match rInfo with
  | [] => Ok bestCandidate
  | r :: rInfo' =>
      if decide (ri_state r = State.I) then Ok (ri_index r)
      else
        candRank ← rank r;
        b ← better candRank bestRank;
        if b : bool then candidate_loop rInfo' candRank (ri_index r)
        else candidate_loop rInfo' bestRank bestCandidate
  end.

Definition best_candidate (rInfo : list ReplacementInfo) : res Z :=
  match rInfo with
  | [] => Err (Undefined "rInfo[0] of an empty set")
  | r :: rInfo' =>
      bestRank ← rank r;
      if decide (ri_state r = State.I) then Ok (ri_index r)
      else candidate_loop rInfo' bestRank (ri_index r)
  end.
End candidate_loop.

(** ** LRU *)

Module LRU.
Record t := mk { timestamp : Z; bestCandidate : Z; ways : Z; array : list Z }.
#[global] Instance t_eta : Eta t := fun s =>
  mk (timestamp s) (bestCandidate s) (ways s) (array s).

Definition init (lines associativity : Z) : t :=
  mk 1 0 associativity (replicate (Z.to_nat lines) 0).

(** [array[id] = timestamp++]. *)
Definition update (id : Z) : M t unit := fun s =>
  a ← set_index (array s) id (timestamp s);
  Ok (tt, s <| array := a |> <| timestamp := u64 (timestamp s + 1) |>).

(** [array[id] = 0]. *)
Definition replaced (id : Z) : M t unit := fun s =>
  a ← set_index (array s) id 0; Ok (tt, s <| array := a |>).

Definition rank (s : t) (r : ReplacementInfo) : res Z := at_index (array s) (ri_index r).

Definition findBestCandidate (rInfo : list ReplacementInfo) : M t Z := fun s =>
  c ← best_candidate (rank s) (fun cand best => Ok (cand <? best)) rInfo;
  Ok (c, s <| bestCandidate := c |>).

#[global] Instance policy : ReplacementPolicy t := {|
  rp_checkCompatibility _ := true;
  rp_update := update;
  rp_replaced := replaced;
  rp_findBestCandidate := findBestCandidate;
  rp_getBestCandidate := bestCandidate
|}.
End LRU.

(** ** LRU with coherence state *)

Module LRUOpt.
Record t := mk { timestamp : Z; bestCandidate : Z; ways : Z; array : list Z }.
#[global] Instance t_eta : Eta t := fun s =>
  mk (timestamp s) (bestCandidate s) (ways s) (array s).

Definition init (lines associativity : Z) : t :=
  mk 1 0 associativity (replicate (Z.to_nat lines) 0).

Definition update (id : Z) : M t unit := fun s =>
  a ← set_index (array s) id (timestamp s);
  Ok (tt, s <| array := a |> <| timestamp := u64 (timestamp s + 1) |>).

Definition replaced (id : Z) : M t unit := fun s =>
  a ← set_index (array s) id 0; Ok (tt, s <| array := a |>).

Record Rank := mkRank { r_timestamp : Z; r_shared : bool; r_owned : bool; r_state : State.t }.

Definition lessThan (r other : Rank) : bool :=
  if negb (r_shared r) && r_shared other then true
  else if r_shared r && negb (r_shared other) then false
  else if negb (r_owned r) && r_owned other then true
  else if r_owned r && negb (r_owned other) then false
  else r_timestamp r <? r_timestamp other.

Definition rank (s : t) (r : ReplacementInfo) : res Rank :=
  ts ← at_index (array s) (ri_index r);
  c ← asCoherence r;
  Ok (mkRank ts (shared c) (owned c) (ri_state r)).

Definition findBestCandidate (rInfo : list ReplacementInfo) : M t Z := fun s =>
  c ← best_candidate (rank s) (fun cand best => Ok (lessThan cand best)) rInfo;
  Ok (c, s <| bestCandidate := c |>).

#[global] Instance policy : ReplacementPolicy t := {|
  rp_checkCompatibility := isCoherenceInfo;
  rp_update := update;
  rp_replaced := replaced;
  rp_findBestCandidate := findBestCandidate;
  rp_getBestCandidate := bestCandidate
|}.
End LRUOpt.

(** ** LFU *)

Module LFU.
Record LFUInfo := mkInfo { ts : Z; acc : Z }.
Record t := mk { array : list LFUInfo; ways : Z; timestamp : Z; bestCandidate : Z }.
#[global] Instance t_eta : Eta t := fun s =>
  mk (array s) (ways s) (timestamp s) (bestCandidate s).

Definition init (lines associativity : Z) : t :=
  mk (replicate (Z.to_nat lines) (mkInfo 0 0)) associativity 1 0.

(** [ts = (acc*ts + timestamp)/(acc + 1)], [acc++], [timestamp += 1000]. *)
Definition update (id : Z) : M t unit := fun s =>
  i ← at_index (array s) id;
  ts' ← udiv (u64 (u64 (acc i * ts i) + timestamp s)) (u64 (acc i + 1));
  a ← set_index (array s) id (mkInfo ts' (u64 (acc i + 1)));
  Ok (tt, s <| array := a |> <| timestamp := u64 (timestamp s + 1000) |>).

(** [array[id].acc = 0]. *)
Definition replaced (id : Z) : M t unit := fun s =>
  i ← at_index (array s) id;
  a ← set_index (array s) id (mkInfo (ts i) 0);
  Ok (tt, s <| array := a |>).

Definition lessThan (i other : LFUInfo) (curTs : Z) : res bool :=
  if acc i =? 0 then Ok true
  else if acc other =? 0 then Ok false
  else ownInvFreq ← udiv (u64 (curTs - ts i)) (acc i);
       otherInvFreq ← udiv (u64 (curTs - ts other)) (acc other);
       Ok (otherInvFreq <? ownInvFreq).

Definition rank (s : t) (r : ReplacementInfo) : res LFUInfo :=
  at_index (array s) (ri_index r).

Definition findBestCandidate (rInfo : list ReplacementInfo) : M t Z := fun s =>
  c ← best_candidate (rank s) (fun cand best => lessThan cand best (timestamp s)) rInfo;
  Ok (c, s <| bestCandidate := c |>).

#[global] Instance policy : ReplacementPolicy t := {|
  rp_checkCompatibility _ := true;
  rp_update := update;
  rp_replaced := replaced;
  rp_findBestCandidate := findBestCandidate;
  rp_getBestCandidate := bestCandidate
|}.
End LFU.

(** ** LFU with coherence state *)

Module LFUOpt.
Record LFUInfo := mkInfo { ts : Z; acc : Z }.
Record t := mk { array : list LFUInfo; ways : Z; timestamp : Z; bestCandidate : Z }.
#[global] Instance t_eta : Eta t := fun s =>
  mk (array s) (ways s) (timestamp s) (bestCandidate s).

Definition init (lines associativity : Z) : t :=
  mk (replicate (Z.to_nat lines) (mkInfo 0 0)) associativity 1 0.

Definition update (id : Z) : M t unit := fun s =>
  i ← at_index (array s) id;
  ts' ← udiv (u64 (u64 (acc i * ts i) + timestamp s)) (u64 (acc i + 1));
  a ← set_index (array s) id (mkInfo ts' (u64 (acc i + 1)));
  Ok (tt, s <| array := a |> <| timestamp := u64 (timestamp s + 1000) |>).

Definition replaced (id : Z) : M t unit := fun s =>
  i ← at_index (array s) id;
  a ← set_index (array s) id (mkInfo (ts i) 0);
  Ok (tt, s <| array := a |>).

Record Rank := mkRank { r_info : LFUInfo; r_shared : bool; r_owned : bool; r_state : State.t }.

Definition lessThan (r other : Rank) (curTs : Z) : res bool :=
  if decide (r_state r = State.I) then Ok true
  else if negb (r_shared r) && r_shared other then Ok true
  else if r_shared r && negb (r_shared other) then Ok false
  else if negb (r_owned r) && r_owned other then Ok true
  else if r_owned r && negb (r_owned other) then Ok false
  else if acc (r_info r) =? 0 then Ok true
  else if acc (r_info other) =? 0 then Ok false
  else ownInvFreq ← udiv (u64 (curTs - ts (r_info r))) (acc (r_info r));
       otherInvFreq ← udiv (u64 (curTs - ts (r_info other))) (acc (r_info other));
       Ok (otherInvFreq <? ownInvFreq).

Definition rank (s : t) (r : ReplacementInfo) : res Rank :=
  i ← at_index (array s) (ri_index r);
  c ← asCoherence r;
  Ok (mkRank i (shared c) (owned c) (ri_state r)).

Definition findBestCandidate (rInfo : list ReplacementInfo) : M t Z := fun s =>
  c ← best_candidate (rank s) (fun cand best => lessThan cand best (timestamp s)) rInfo;
  Ok (c, s <| bestCandidate := c |>).

#[global] Instance policy : ReplacementPolicy t := {|
  rp_checkCompatibility := isCoherenceInfo;
  rp_update := update;
  rp_replaced := replaced;
  rp_findBestCandidate := findBestCandidate;
  rp_getBestCandidate := bestCandidate
|}.
End LFUOpt.

(** ** MRU *)

(** [int32_t bestCandidate]: an index of 2^31 or more is stored negative, and
    returned as [uint64_t] by sign extension. *)
Definition int32_of (x : Z) : Z := if u32 x <? 2 ^ 31 then u32 x else u32 x - 2 ^ 32.

Module MRU.
Record t := mk { timestamp : Z; bestCandidate : Z; array : list Z; ways : Z }.
#[global] Instance t_eta : Eta t := fun s =>
  mk (timestamp s) (bestCandidate s) (array s) (ways s).

Definition init (lines associativity : Z) : t :=
  mk 1 0 (replicate (Z.to_nat lines) 0) associativity.

Definition update (id : Z) : M t unit := fun s =>
  a ← set_index (array s) id (timestamp s);
  Ok (tt, s <| array := a |> <| timestamp := u64 (timestamp s + 1) |>).

Definition replaced (id : Z) : M t unit := fun s =>
  a ← set_index (array s) id 0; Ok (tt, s <| array := a |>).

Record Rank := mkRank { r_timestamp : Z; r_state : State.t }.

Definition biggerThan (r other : Rank) : bool :=
  if decide (r_state r = State.I) then true else r_timestamp other <? r_timestamp r.

Definition rank (s : t) (r : ReplacementInfo) : res Rank :=
  ts ← at_index (array s) (ri_index r); Ok (mkRank ts (ri_state r)).

Definition findBestCandidate (rInfo : list ReplacementInfo) : M t Z := fun s =>
  c ← best_candidate (rank s) (fun cand best => Ok (biggerThan cand best)) rInfo;
  Ok (u64 (int32_of c), s <| bestCandidate := int32_of c |>).

#[global] Instance policy : ReplacementPolicy t := {|
  rp_checkCompatibility _ := true;
  rp_update := update;
  rp_replaced := replaced;
  rp_findBestCandidate := findBestCandidate;
  rp_getBestCandidate s := u64 (bestCandidate s)
|}.
End MRU.

(** ** MRU with coherence state *)

Module MRUOpt.
Record t := mk { timestamp : Z; bestCandidate : Z; array : list Z; ways : Z }.
#[global] Instance t_eta : Eta t := fun s =>
  mk (timestamp s) (bestCandidate s) (array s) (ways s).

Definition init (lines associativity : Z) : t :=
  mk 1 0 (replicate (Z.to_nat lines) 0) associativity.

Definition update (id : Z) : M t unit := fun s =>
  a ← set_index (array s) id (timestamp s);
  Ok (tt, s <| array := a |> <| timestamp := u64 (timestamp s + 1) |>).

Definition replaced (id : Z) : M t unit := fun s =>
  a ← set_index (array s) id 0; Ok (tt, s <| array := a |>).

Record Rank := mkRank { r_timestamp : Z; r_shared : bool; r_owned : bool; r_state : State.t }.

Definition biggerThan (r other : Rank) : bool :=
  if decide (r_state r = State.I) then true
  else if negb (r_shared r) && r_shared other then true
  else if r_shared r && negb (r_shared other) then false
  else if r_owned r && negb (r_owned other) then false
  else if negb (r_owned r) && r_owned other then true
  else r_timestamp other <? r_timestamp r.

Definition rank (s : t) (r : ReplacementInfo) : res Rank :=
  ts ← at_index (array s) (ri_index r);
  c ← asCoherence r;
  Ok (mkRank ts (shared c) (owned c) (ri_state r)).

Definition findBestCandidate (rInfo : list ReplacementInfo) : M t Z := fun s =>
  c ← best_candidate (rank s) (fun cand best => Ok (biggerThan cand best)) rInfo;
  Ok (u64 (int32_of c), s <| bestCandidate := int32_of c |>).

#[global] Instance policy : ReplacementPolicy t := {|
  rp_checkCompatibility := isCoherenceInfo;
  rp_update := update;
  rp_replaced := replaced;
  rp_findBestCandidate := findBestCandidate;
  rp_getBestCandidate s := u64 (bestCandidate s)
|}.
End MRUOpt.

(** ** Random and not-most-recently-used

    The generator ([SST::RNG::MarsagliaRNG]) is SST core code: its state [G]
    and [generateNextUInt64] are parameters. *)

(** First way holding an invalid line. *)
Fixpoint first_invalid (rInfo : list ReplacementInfo) : option Z :=
  match rInfo with
  | [] => None
  | r :: rInfo' => if decide (ri_state r = State.I) then Some (ri_index r)
                   else first_invalid rInfo'
  end.

Module Random.
Section random.
Context {G : Type} (generateNextUInt64 : G -> Z * G).

Record t := mk { bestCandidate : Z; ways : Z; gen : G }.

Definition init (associativity : Z) (g : G) : t := mk 0 associativity g.

Definition update (id : Z) : M t unit := skip.
Definition replaced (id : Z) : M t unit := skip.

Definition findBestCandidate (rInfo : list ReplacementInfo) : M t Z := fun s =>
  match first_invalid rInfo with
  | Some c => Ok (c, mk c (ways s) (gen s))
  | None =>
      let '(n, g) := generateNextUInt64 (gen s) in
      i ← umod n (ways s);
      r ← at_index rInfo i;
      Ok (ri_index r, mk (ri_index r) (ways s) g)
  end.

#[global] Instance policy : ReplacementPolicy t := {|
  rp_checkCompatibility _ := true;
  rp_update := update;
  rp_replaced := replaced;
  rp_findBestCandidate := findBestCandidate;
  rp_getBestCandidate := bestCandidate
|}.
End random.
End Random.

Module NMRU.
Section nmru.
Context {G : Type} (generateNextUInt64 : G -> Z * G).

Record t := mk { bestCandidate : Z; array : list Z; ways : Z; gen : G }.

Definition init (lines associativity : Z) (g : G) : res t :=
  sets ← udiv lines associativity;
  Ok (mk 0 (replicate (Z.to_nat sets) 0) associativity g).

(** [array[id/ways] = id % ways]. *)
Definition update (id : Z) : M t unit := fun s =>
  set ← udiv id (ways s);
  way ← umod id (ways s);
  a ← set_index (array s) set way;
  Ok (tt, mk (bestCandidate s) a (ways s) (gen s)).

Definition replaced (id : Z) : M t unit := skip.

(** [for i < ways]: reads [rInfo[i]] up to the first invalid way. *)
Definition invalid_way (rInfo : list ReplacementInfo) (n : Z) : res (option Z) :=
  match first_invalid (take (Z.to_nat n) rInfo) with
  | Some c => Ok (Some c)
  | None => if Z.of_nat (length rInfo) <? n then Err (Undefined "index out of range")
            else Ok None
  end.

Definition findBestCandidate (rInfo : list ReplacementInfo) : M t Z := fun s =>
  o ← invalid_way rInfo (ways s);
  match o with
  | Some c => Ok (c, mk c (array s) (ways s) (gen s))
  | None =>
      r0 ← at_index rInfo 0;
      let setBegin := ri_index r0 in
      let '(n, g) := generateNextUInt64 (gen s) in
      index ← umod n (u64 (ways s - 1));
      set ← udiv setBegin (ways s);
      mru ← at_index (array s) set;
      let c := if index <? mru then u64 (setBegin + index)
               else u64 (setBegin + index + 1) in
      Ok (c, mk c (array s) (ways s) g)
  end.

#[global] Instance policy : ReplacementPolicy t := {|
  rp_checkCompatibility _ := true;
  rp_update := update;
  rp_replaced := replaced;
  rp_findBestCandidate := findBestCandidate;
  rp_getBestCandidate := bestCandidate
|}.
End nmru.
End NMRU.

(** ** The candidate loop *)

Section candidate_facts.
Context {K : Type} (rank : ReplacementInfo -> res K) (better : K -> K -> res bool).

Lemma candidate_loop_in rInfo bestRank best c :
  candidate_loop rank better rInfo bestRank best = Ok c ->
  c = best \/ exists r, r ∈ rInfo /\ ri_index r = c.
Proof.
  revert bestRank best. induction rInfo as [|r rInfo IH]; intros bestRank best H; simpl in H.
  { left. congruence. }
  case_decide; [right; exists r; split; [by left|congruence]|].
  destruct (rank r) as [k|]; [|discriminate]. simpl in H.
  destruct (better k bestRank) as [b|]; [|discriminate]. simpl in H.
  destruct b; apply IH in H as [->|(r' & ? & ?)]; [right|right|by left|right];
    eexists; (split; [|done]); by constructor.
Qed.

Lemma best_candidate_in rInfo c :
  best_candidate rank better rInfo = Ok c -> exists r, r ∈ rInfo /\ ri_index r = c.
Proof.
  destruct rInfo as [|r rInfo]; [done|]. simpl. destruct (rank r) as [k|]; [|done]. simpl.
  case_decide.
  - intros [= <-]. exists r. split; [by left|done].
  - intros [->|(r' & ? & ?)]%candidate_loop_in; eexists; (split; [|done]); by constructor.
Qed.

(** With no rank and no comparison undefined, the loop has a result, and the
    result is the first invalid way when there is one. *)
Lemma candidate_loop_total rInfo bestRank best :
  (forall r, r ∈ rInfo -> exists k, rank r = Ok k) ->
  (forall k k', exists b, better k k' = Ok b) ->
  exists c, candidate_loop rank better rInfo bestRank best = Ok c /\
    (forall i, first_invalid rInfo = Some i -> c = i).
Proof.
  intros Hr Hb. revert bestRank best.
  induction rInfo as [|r rInfo IH]; intros bestRank best; simpl.
  { exists best. split; [done|]. discriminate. }
  case_decide; [exists (ri_index r); split; [done|congruence]|].
  destruct (Hr r) as [k ->]; [by left|]. simpl.
  destruct (Hb k bestRank) as [b ->]. simpl.
  destruct b; apply IH; intros r' ?; apply Hr; by right.
Qed.

Lemma best_candidate_total rInfo :
  rInfo <> [] ->
  (forall r, r ∈ rInfo -> exists k, rank r = Ok k) ->
  (forall k k', exists b, better k k' = Ok b) ->
  exists c, best_candidate rank better rInfo = Ok c /\
    (forall i, first_invalid rInfo = Some i -> c = i).
Proof.
  intros Hne Hr Hb. destruct rInfo as [|r rInfo]; [done|]. simpl.
  destruct (Hr r) as [k ->]; [by left|]. simpl. case_decide.
  - exists (ri_index r). split; [done|congruence].
  - apply candidate_loop_total; [|done]. intros r' ?. apply Hr. by right.
Qed.
End candidate_facts.

(** With every way valid and [better] a strict weak order given by [lt], the
    candidate is the first least way. *)
Section candidate_least.
Context {K : Type} (rk : ReplacementInfo -> K) (lt : K -> K -> bool).
Context (rank : ReplacementInfo -> res K) (better : K -> K -> res bool).
Hypothesis lt_trans : forall x y z, lt x y = true -> lt y z = true -> lt x z = true.
Hypothesis lt_cotrans : forall x y z, lt x z = true -> lt x y = true \/ lt y z = true.
Hypothesis better_lt : forall x y, better x y = Ok (lt x y).

Definition least_way (x : ReplacementInfo) (rInfo : list ReplacementInfo) : Prop :=
  exists pre post, rInfo = pre ++ x :: post /\
    (forall y, y ∈ pre -> lt (rk x) (rk y) = true) /\
    (forall y, y ∈ post -> lt (rk y) (rk x) = false).

Lemma candidate_loop_least rInfo pre best post :
  (forall r, r ∈ rInfo -> rank r = Ok (rk r) /\ ri_state r <> State.I) ->
  (forall y, y ∈ pre -> lt (rk best) (rk y) = true) ->
  (forall y, y ∈ post -> lt (rk y) (rk best) = false) ->
  exists x, candidate_loop rank better rInfo (rk best) (ri_index best) = Ok (ri_index x) /\
    least_way x (pre ++ best :: post ++ rInfo).
Proof.
  revert pre best post. induction rInfo as [|r rInfo IH]; intros pre best post Hr Hpre Hpost.
  { exists best. split; [done|]. exists pre, post. by rewrite app_nil_r. }
  destruct (Hr r) as [Er Es]; [by left|]. simpl. rewrite decide_False by done.
  rewrite Er. simpl. rewrite better_lt. simpl.
  destruct (lt (rk r) (rk best)) eqn:Hlt.
  - destruct (IH (pre ++ best :: post) r []) as (x & Hx & Hl).
    + intros r' ?. apply Hr. by right.
    + intros y [Hy|[->|Hy]%elem_of_cons]%elem_of_app; [eauto|done|].
      destruct (lt_cotrans _ (rk y) _ Hlt) as [?|H]; [done|]. rewrite Hpost in H by done. done.
    + intros y Hy. by apply not_elem_of_nil in Hy.
    + exists x. split; [done|]. by rewrite <- app_assoc in Hl.
  - destruct (IH pre best (post ++ [r])) as (x & Hx & Hl).
    + intros r' ?. apply Hr. by right.
    + done.
    + intros y [Hy| ->%list_elem_of_singleton]%elem_of_app; auto.
    + exists x. split; [done|]. by rewrite <- app_assoc in Hl.
Qed.

Lemma best_candidate_least rInfo :
  rInfo <> [] ->
  (forall r, r ∈ rInfo -> rank r = Ok (rk r) /\ ri_state r <> State.I) ->
  exists x, best_candidate rank better rInfo = Ok (ri_index x) /\ least_way x rInfo.
Proof.
  intros Hne Hr. destruct rInfo as [|r rInfo]; [done|]. simpl.
  destruct (Hr r) as [-> Es]; [by left|]. simpl. rewrite decide_False by done.
  apply (candidate_loop_least rInfo [] r []);
    [|intros y Hy; by apply not_elem_of_nil in Hy..].
  intros r' ?. apply Hr. by right.
Qed.
End candidate_least.

(** ** What a policy promises to a cache array *)

(** The ways of one set of a cache with [lines] lines: consecutive indices,
    the set starting at a multiple of the associativity. *)
Definition way_set (lines associativity : Z) (rInfo : list ReplacementInfo) : Prop :=
  exists k, 0 <= k /\ (k + 1) * associativity <= lines /\
    ri_index <$> rInfo = seqZ (k * associativity) associativity.

(** The laws, for a policy built for [lines] lines of the given
    associativity: an invariant kept by every operation, and a candidate that
    is always a way of the set it was asked about (seen through the
    [unsigned int] the array stores it in), an invalid one if there is one. *)
Class ReplacementLaws (P : Type) `{ReplacementPolicy P} (lines associativity : Z) := {
  rp_inv : P -> Prop;
  rp_inv_update : forall id s s',
    rp_inv s -> rp_update id s = Ok (tt, s') -> rp_inv s';
  rp_inv_replaced : forall id s s',
    rp_inv s -> rp_replaced id s = Ok (tt, s') -> rp_inv s';
  rp_find : forall rInfo s,
    rp_inv s -> way_set lines associativity rInfo ->
    (forall r, r ∈ rInfo -> rp_checkCompatibility r = true) ->
    exists c s', rp_findBestCandidate rInfo s = Ok (c, s') /\ rp_inv s' /\
      (exists r, r ∈ rInfo /\ ri_index r = u32 c) /\
      (forall i, first_invalid rInfo = Some i -> u32 c = i)
}.

Lemma way_set_index lines assoc rInfo r :
  way_set lines assoc rInfo -> r ∈ rInfo -> 0 <= ri_index r < lines.
Proof.
  intros (k & ? & ? & Hseq) Hr.
  assert (ri_index r ∈ seqZ (k * assoc) assoc) as Hi by (rewrite <- Hseq; by apply list_elem_of_fmap_2).
  apply elem_of_seqZ in Hi. nia.
Qed.

Lemma way_set_length lines assoc rInfo :
  way_set lines assoc rInfo -> length rInfo = Z.to_nat assoc.
Proof.
  intros (k & _ & _ & Hseq). apply (f_equal length) in Hseq.
  by rewrite length_fmap, length_seqZ in Hseq.
Qed.

Lemma way_set_nonempty lines assoc rInfo :
  0 < assoc -> way_set lines assoc rInfo -> rInfo <> [].
Proof. intros ? Hw%way_set_length ->. simpl in Hw. lia. Qed.

Lemma first_invalid_in rInfo i :
  first_invalid rInfo = Some i -> exists r, r ∈ rInfo /\ ri_index r = i /\ ri_state r = State.I.
Proof.
  induction rInfo as [|r rInfo IH]; simpl; [done|]. case_decide.
  - intros [= <-]. exists r. split; [by left|done].
  - intros (r' & ? & ?)%IH. exists r'. split; [by right|done].
Qed.

Lemma first_invalid_complete rInfo r :
  r ∈ rInfo -> ri_state r = State.I -> exists i, first_invalid rInfo = Some i.
Proof.
  induction rInfo as [|r0 rInfo IH]; simpl; [by intros ?%elem_of_nil|].
  intros [->|Hr]%elem_of_cons Hs; case_decide; eauto; done.
Qed.

Lemma u32_index lines x : lines <= 2 ^ 32 -> 0 <= x < lines -> u32 x = x.
Proof. intros. apply u32_small. lia. Qed.

Lemma u32_int32 x : 0 <= x < 2 ^ 32 -> u32 (u64 (int32_of x)) = x.
Proof.
  intros Hx. unfold int32_of. rewrite (u32_small x) by done.
  destruct (Z.ltb_spec x (2 ^ 31)).
  - rewrite u64_small by lia. by apply u32_small.
  - unfold u32, u64. replace (x - 2 ^ 32) with (x + (-1) * 2 ^ 32) by lia.
    rewrite Z.mod_mod_divide by (by exists (2 ^ 32)).
    rewrite Z.mod_add by lia. by apply Z.mod_small.
Qed.

(** The ranked policies share one proof. *)
Section ranked.
Context (lines assoc : Z) (Hassoc : 0 < assoc) (Hlines : lines <= 2 ^ 32).

Lemma ranked_find {K} (rank : ReplacementInfo -> res K) better rInfo :
  way_set lines assoc rInfo ->
  (forall r, r ∈ rInfo -> exists k, rank r = Ok k) ->
  (forall k k', exists b, better k k' = Ok b) ->
  exists c, best_candidate rank better rInfo = Ok c /\ 0 <= c < lines /\
    (exists r, r ∈ rInfo /\ ri_index r = c) /\
    (forall i, first_invalid rInfo = Some i -> c = i).
Proof.
  intros Hw Hr Hb.
  destruct (best_candidate_total rank better rInfo) as (c & Hc & Hi);
    [by eapply way_set_nonempty|done..|].
  destruct (best_candidate_in _ _ _ _ Hc) as (r & ? & Er).
  exists c. split_and!; [done| | |by eauto|done]; rewrite <- Er;
    by eapply way_set_index.
Qed.

Definition array_inv {A} (a : list A) : Prop := length a = Z.to_nat lines.

Lemma array_inv_index {A} (a : list A) rInfo r :
  array_inv a -> way_set lines assoc rInfo -> r ∈ rInfo ->
  exists x, at_index a (ri_index r) = Ok x.
Proof.
  intros Ha Hw Hr. apply at_index_in_range. rewrite Ha.
  pose proof (way_set_index _ _ _ _ Hw Hr). lia.
Qed.

Lemma array_inv_set {A} (a a' : list A) i x :
  array_inv a -> set_index a i x = Ok a' -> array_inv a'.
Proof. intros Ha [_ ->]%set_index_Ok. unfold array_inv. by rewrite length_insert. Qed.

Lemma set_index_inv {A St} (a : list A) i x (f : list A -> St) (p : unit) (s' : St) :
  array_inv a -> (a' ← set_index a i x; Ok (p, f a')) = Ok (tt, s') ->
  exists a', s' = f a' /\ array_inv a'.
Proof.
  intros Ha H. destruct (set_index a i x) as [a'|] eqn:E; [|done].
  injection H as _ <-. exists a'. split; [done|]. by eapply array_inv_set.
Qed.

Lemma compatible_coherence r :
  isCoherenceInfo r = true -> exists c, asCoherence r = Ok c.
Proof. intros [c Hc]%bool_decide_eq_true. exists c. unfold asCoherence. by rewrite Hc. Qed.

#[global] Program Instance LRU_laws : ReplacementLaws LRU.t lines assoc :=
  { rp_inv s := array_inv (LRU.array s) }.
Next Obligation.
  intros id s s' Hi H. unfold LRU.update in H. by apply set_index_inv in H as (? & -> & ?).
Qed.
Next Obligation.
  intros id s s' Hi H. unfold LRU.replaced in H. by apply set_index_inv in H as (? & -> & ?).
Qed.
Next Obligation.
  intros rInfo s Hi Hw Hc. cbn. unfold LRU.findBestCandidate.
  destruct (ranked_find (LRU.rank s) (fun cand best => Ok (cand <? best)) rInfo)
    as (c & -> & Hb & Hr & Hinv); [done| | |]; [intros; by eapply array_inv_index|intros; eauto|].
  cbn. eexists _, _. split; [done|]. cbn. rewrite u32_small by lia. auto.
Qed.

#[global] Program Instance LRUOpt_laws : ReplacementLaws LRUOpt.t lines assoc :=
  { rp_inv s := array_inv (LRUOpt.array s) }.
Next Obligation.
  intros id s s' Hi H. unfold LRUOpt.update in H. by apply set_index_inv in H as (? & -> & ?).
Qed.
Next Obligation.
  intros id s s' Hi H. unfold LRUOpt.replaced in H. by apply set_index_inv in H as (? & -> & ?).
Qed.
Next Obligation.
  intros rInfo s Hi Hw Hc. cbn. unfold LRUOpt.findBestCandidate.
  destruct (ranked_find (LRUOpt.rank s) (fun cand best => Ok (LRUOpt.lessThan cand best)) rInfo)
    as (c & -> & Hb & Hr & Hinv); [done| |intros; eauto|].
  { intros r Hr. unfold LRUOpt.rank.
    destruct (array_inv_index (LRUOpt.array s) rInfo r Hi Hw Hr) as [? ->].
    destruct (compatible_coherence r (Hc r Hr)) as [? ->]. cbn. eauto. }
  cbn. eexists _, _. split; [done|]. cbn. rewrite u32_small by lia. auto.
Qed.

#[global] Program Instance MRU_laws : ReplacementLaws MRU.t lines assoc :=
  { rp_inv s := array_inv (MRU.array s) }.
Next Obligation.
  intros id s s' Hi H. unfold MRU.update in H. by apply set_index_inv in H as (? & -> & ?).
Qed.
Next Obligation.
  intros id s s' Hi H. unfold MRU.replaced in H. by apply set_index_inv in H as (? & -> & ?).
Qed.
Next Obligation.
  intros rInfo s Hi Hw Hc. cbn. unfold MRU.findBestCandidate.
  destruct (ranked_find (MRU.rank s) (fun cand best => Ok (MRU.biggerThan cand best)) rInfo)
    as (c & -> & Hb & Hr & Hinv); [done| |intros; eauto|].
  { intros r Hr. unfold MRU.rank.
    destruct (array_inv_index (MRU.array s) rInfo r Hi Hw Hr) as [? ->]. cbn. eauto. }
  cbn. eexists _, _. split; [done|]. cbn. rewrite u32_int32 by lia. auto.
Qed.

#[global] Program Instance MRUOpt_laws : ReplacementLaws MRUOpt.t lines assoc :=
  { rp_inv s := array_inv (MRUOpt.array s) }.
Next Obligation.
  intros id s s' Hi H. unfold MRUOpt.update in H. by apply set_index_inv in H as (? & -> & ?).
Qed.
Next Obligation.
  intros id s s' Hi H. unfold MRUOpt.replaced in H. by apply set_index_inv in H as (? & -> & ?).
Qed.
Next Obligation.
  intros rInfo s Hi Hw Hc. cbn. unfold MRUOpt.findBestCandidate.
  destruct (ranked_find (MRUOpt.rank s) (fun cand best => Ok (MRUOpt.biggerThan cand best)) rInfo)
    as (c & -> & Hb & Hr & Hinv); [done| |intros; eauto|].
  { intros r Hr. unfold MRUOpt.rank.
    destruct (array_inv_index (MRUOpt.array s) rInfo r Hi Hw Hr) as [? ->].
    destruct (compatible_coherence r (Hc r Hr)) as [? ->]. cbn. eauto. }
  cbn. eexists _, _. split; [done|]. cbn. rewrite u32_int32 by lia. auto.
Qed.

Lemma udiv_nonzero a b : b <> 0 -> udiv a b = Ok (a / b).
Proof. intros. unfold udiv. by destruct (Z.eqb_spec b 0). Qed.

Lemma umod_nonzero a b : b <> 0 -> umod a b = Ok (a mod b).
Proof. intros. unfold umod. by destruct (Z.eqb_spec b 0). Qed.

Lemma LFU_lessThan_total i j ts : exists b, LFU.lessThan i j ts = Ok b.
Proof.
  unfold LFU.lessThan. destruct (Z.eqb_spec (LFU.acc i) 0); [eauto|].
  destruct (Z.eqb_spec (LFU.acc j) 0); [eauto|]. rewrite !udiv_nonzero by done. cbn. eauto.
Qed.

Lemma LFUOpt_lessThan_total i j ts : exists b, LFUOpt.lessThan i j ts = Ok b.
Proof.
  unfold LFUOpt.lessThan. case_decide; [eauto|]. do 4 (case_match; [eauto|]).
  destruct (Z.eqb_spec (LFUOpt.acc (LFUOpt.r_info i)) 0); [eauto|].
  destruct (Z.eqb_spec (LFUOpt.acc (LFUOpt.r_info j)) 0); [eauto|].
  rewrite !udiv_nonzero by done. cbn. eauto.
Qed.

#[global] Program Instance LFU_laws : ReplacementLaws LFU.t lines assoc :=
  { rp_inv s := array_inv (LFU.array s) }.
Next Obligation.
  intros id s s' Hi H. cbn in H. unfold LFU.update in H.
  destruct (at_index _ _); [|done]. cbn in H. destruct (udiv _ _); [|done]. cbn in H.
  by apply set_index_inv in H as (? & -> & ?).
Qed.
Next Obligation.
  intros id s s' Hi H. cbn in H. unfold LFU.replaced in H.
  destruct (at_index _ _); [|done]. cbn in H. by apply set_index_inv in H as (? & -> & ?).
Qed.
Next Obligation.
  intros rInfo s Hi Hw Hc. cbn. unfold LFU.findBestCandidate.
  destruct (ranked_find (LFU.rank s)
    (fun cand best => LFU.lessThan cand best (LFU.timestamp s)) rInfo)
    as (c & -> & Hb & Hr & Hinv); [done| | |].
  { intros. by eapply array_inv_index. }
  { intros. apply LFU_lessThan_total. }
  cbn. eexists _, _. split; [done|]. cbn. rewrite u32_small by lia. auto.
Qed.

#[global] Program Instance LFUOpt_laws : ReplacementLaws LFUOpt.t lines assoc :=
  { rp_inv s := array_inv (LFUOpt.array s) }.
Next Obligation.
  intros id s s' Hi H. cbn in H. unfold LFUOpt.update in H.
  destruct (at_index _ _); [|done]. cbn in H. destruct (udiv _ _); [|done]. cbn in H.
  by apply set_index_inv in H as (? & -> & ?).
Qed.
Next Obligation.
  intros id s s' Hi H. cbn in H. unfold LFUOpt.replaced in H.
  destruct (at_index _ _); [|done]. cbn in H. by apply set_index_inv in H as (? & -> & ?).
Qed.
Next Obligation.
  intros rInfo s Hi Hw Hc. cbn. unfold LFUOpt.findBestCandidate.
  destruct (ranked_find (LFUOpt.rank s)
    (fun cand best => LFUOpt.lessThan cand best (LFUOpt.timestamp s)) rInfo)
    as (c & -> & Hb & Hr & Hinv); [done| | |].
  { intros r Hr. unfold LFUOpt.rank.
    destruct (array_inv_index (LFUOpt.array s) rInfo r Hi Hw Hr) as [? ->].
    destruct (compatible_coherence r (Hc r Hr)) as [? ->]. cbn. eauto. }
  { intros. apply LFUOpt_lessThan_total. }
  cbn. eexists _, _. split; [done|]. cbn. rewrite u32_small by lia. auto.
Qed.

(** The random policies, for any generator. *)
Context {G : Type} (next : G -> Z * G).

Lemma first_invalid_index rInfo i :
  way_set lines assoc rInfo -> first_invalid rInfo = Some i ->
  u32 i = i /\ exists r, r ∈ rInfo /\ ri_index r = u32 i.
Proof.
  intros Hw (r & Hr & <- & _)%first_invalid_in.
  rewrite (u32_index lines) by (done || by eapply way_set_index). eauto.
Qed.

#[global] Program Instance Random_laws :
    ReplacementLaws (H := Random.policy next) (Random.t (G := G)) lines assoc :=
  { rp_inv s := Random.ways s = assoc }.
Next Obligation. intros id s s' Hi [= <-]. done. Qed.
Next Obligation. intros id s s' Hi [= <-]. done. Qed.
Next Obligation.
  intros rInfo s Hi Hw _. cbn in *. unfold Random.findBestCandidate.
  destruct (first_invalid rInfo) as [i|] eqn:Ei.
  - destruct (first_invalid_index _ _ Hw Ei) as (? & ?).
    eexists _, _. split; [done|]. split_and!; [done..|]. congruence.
  - destruct (next (Random.gen s)) as [n g]. rewrite umod_nonzero by lia. cbn.
    pose proof (Z.mod_pos_bound n (Random.ways s) ltac:(lia)).
    destruct (at_index_in_range rInfo (n mod Random.ways s)) as [r Hr].
    { rewrite (way_set_length _ _ _ Hw). lia. }
    rewrite Hr. cbn. apply at_index_Ok in Hr as [_ Hr%list_elem_of_lookup_2].
    eexists _, _. split; [done|]. split_and!; [done| |done].
    exists r. rewrite (u32_index lines); [auto|done|by eapply way_set_index].
Qed.

Record nmru_inv (s : NMRU.t (G := G)) : Prop := {
  nm_ways : NMRU.ways s = assoc;
  nm_assoc : 1 < assoc;
  nm_sets : length (NMRU.array s) = Z.to_nat (lines / assoc);
  nm_mru : Forall (fun w => 0 <= w < assoc) (NMRU.array s)
}.

Lemma first_invalid_take n rInfo :
  (length rInfo <= n)%nat -> first_invalid (take n rInfo) = first_invalid rInfo.
Proof. intros. by rewrite take_ge. Qed.

(** The way NMRU picks among valid lines: in the set, and not the most
    recently used one. *)
Lemma nmru_valid rInfo s r0 :
  nmru_inv s -> way_set lines assoc rInfo -> first_invalid rInfo = None ->
  rInfo !! 0%nat = Some r0 ->
  exists c g mru,
    NMRU.findBestCandidate next rInfo s
      = Ok (c, NMRU.mk c (NMRU.array s) (NMRU.ways s) g) /\
    NMRU.array s !! Z.to_nat (ri_index r0 / assoc) = Some mru /\
    ri_index r0 <= c < ri_index r0 + assoc /\ c <> ri_index r0 + mru /\
    (exists r, r ∈ rInfo /\ ri_index r = c).
Proof.
  intros [Hways Ha Hsets Hmru] Hw Hv H0.
  unfold NMRU.findBestCandidate, NMRU.invalid_way. rewrite Hways.
  rewrite first_invalid_take by (rewrite (way_set_length _ _ _ Hw); lia).
  rewrite Hv, (way_set_length _ _ _ Hw), Z2Nat.id, Z.ltb_irrefl by lia. cbn [mbind res_bind].
  assert (at_index rInfo 0 = Ok r0) as -> by (by apply at_index_Ok). cbn [mbind res_bind].
  destruct (next (NMRU.gen s)) as [n g]. pose proof Hw as (k & Hk & Hkl & Hseq).
  assert (ri_index r0 = k * assoc) as E0.
  { apply (f_equal (lookup 0%nat)) in Hseq. rewrite list_lookup_fmap, H0 in Hseq.
    symmetry in Hseq. apply lookup_seqZ in Hseq as [? ?]. lia. }
  rewrite (u64_small (assoc - 1)) by nia. rewrite umod_nonzero, udiv_nonzero by lia. cbn [mbind res_bind].
  rewrite E0, Z.div_mul by lia.
  assert (k + 1 <= lines / assoc) by (apply Z.div_le_lower_bound; lia).
  destruct (at_index_in_range (NMRU.array s) k) as [mru Em]; [lia|]. rewrite Em. cbn [mbind res_bind].
  apply at_index_Ok in Em as [_ Em].
  assert (0 <= mru < assoc) by (by eapply (Forall_lookup_1 _ _ _ _ Hmru)).
  pose proof (Z.mod_pos_bound n (assoc - 1) ltac:(lia)).
  set (index := n mod (assoc - 1)) in *.
  assert (forall c, k * assoc <= c < k * assoc + assoc -> exists r, r ∈ rInfo /\ ri_index r = c)
    as Hin.
  { intros c Hc. assert (c ∈ seqZ (k * assoc) assoc) as Hs by (apply elem_of_seqZ; lia).
    rewrite <- Hseq in Hs. apply list_elem_of_fmap in Hs as (r & -> & ?). eauto. }
  rewrite !u64_small by nia.
  destruct (Z.ltb_spec index mru); eexists _, g, mru; (split; [done|]);
    (split_and!; [done|lia..|apply Hin; lia]).
Qed.

#[global] Program Instance NMRU_laws :
    ReplacementLaws (H := NMRU.policy next) (NMRU.t (G := G)) lines assoc :=
  { rp_inv := nmru_inv }.
Next Obligation.
  intros id s s' [Hw Ha Hs Hm] H. cbn in H. unfold NMRU.update in H.
  rewrite udiv_nonzero, umod_nonzero in H by lia. cbn [mbind res_bind] in H.
  destruct (set_index _ _ _) as [a|] eqn:E; [|done]. injection H as <-.
  apply set_index_Ok in E as [_ ->]. constructor; simpl; [done..|by rewrite length_insert|].
  apply Forall_insert; [done|]. rewrite Hw. apply Z.mod_pos_bound. lia.
Qed.
Next Obligation. intros id s s' Hi [= <-]. done. Qed.
Next Obligation.
  intros rInfo s Hi Hw _. cbn [rp_findBestCandidate NMRU.policy].
  destruct (first_invalid rInfo) as [i|] eqn:Ei.
  - unfold NMRU.findBestCandidate, NMRU.invalid_way. rewrite (nm_ways s Hi).
    rewrite first_invalid_take by (rewrite (way_set_length _ _ _ Hw); lia).
    rewrite Ei. cbn [mbind res_bind].
    destruct (first_invalid_index _ _ Hw Ei) as (? & ?).
    eexists _, _. split; [done|]. split_and!; [|done|congruence]. by destruct Hi.
  - destruct (lookup_lt_is_Some_2 rInfo 0) as [r0 H0].
    { rewrite (way_set_length _ _ _ Hw). lia. }
    destruct (nmru_valid rInfo s r0 Hi Hw Ei H0) as (c & g & mru & -> & _ & _ & _ & r & Hr & Er).
    eexists _, _. split; [done|]. split_and!; [by destruct Hi| |done].
    exists r. split; [done|]. rewrite Er. symmetry. apply (u32_index lines); [done|].
    rewrite <- Er. by eapply way_set_index.
Qed.
End ranked.

(** ** LRU refines the recency stack *)

(** What a cache does to a policy over time. *)
Inductive policy_op := OpUpdate (id : Z) | OpReplaced (id : Z).

Definition op_id (o : policy_op) : Z :=
  match o with OpUpdate id | OpReplaced id => id end.

Definition policy_step {P} `{ReplacementPolicy P} (o : policy_op) : M P unit :=
  match o with OpUpdate id => rp_update id | OpReplaced id => rp_replaced id end.

Definition policy_run {P} `{ReplacementPolicy P} (ops : list policy_op) : M P unit :=
  forM ops policy_step.

(** The abstract state: the lines used since they were last filled, most
    recently used first. *)
Definition stack_step (stack : list Z) (o : policy_op) : list Z :=
  match o with
  | OpUpdate id => id :: filter (fun x => x <> id) stack
  | OpReplaced id => filter (fun x => x <> id) stack
  end.

(** The victim: the first way never used since it was filled, otherwise the
    way deepest in the stack. *)
Definition stack_victim (stack ids : list Z) : option Z :=
  match filter (fun x => x ∉ stack) ids with
  | x :: _ => Some x
  | [] => last (filter (fun x => x ∈ ids) stack)
  end.

Section lru_stack.
Context (lines : Z).

Abbreviation stamp s id := (default 0 (LRU.array s !! Z.to_nat id)) (only parsing).

Record lru_rel (s : LRU.t) (stack : list Z) : Prop := {
  lr_length : length (LRU.array s) = Z.to_nat lines;
  lr_sorted : StronglySorted (fun a b => stamp s b < stamp s a) stack;
  lr_in : forall id, id ∈ stack <-> 0 <= id < lines /\ 0 < stamp s id;
  lr_bound : forall id, 0 <= stamp s id < LRU.timestamp s
}.

Lemma lru_rel_init assoc : lru_rel (LRU.init lines assoc) [].
Proof.
  assert (forall id, stamp (LRU.init lines assoc) id = 0) as E.
  { intros id. simpl. destruct (replicate _ _ !! _) as [x|] eqn:Ex; [|done].
    by apply lookup_replicate in Ex as [-> _]. }
  constructor.
  - simpl. by rewrite length_replicate.
  - constructor.
  - intros id. rewrite E. split; [intros ?%not_elem_of_nil; done|lia].
  - intros id. rewrite E. simpl. lia.
Qed.

Lemma stamp_insert (l : list Z) id x j :
  0 <= id < lines -> 0 <= j -> length l = Z.to_nat lines ->
  default 0 (<[Z.to_nat id := x]> l !! Z.to_nat j) =
    if decide (j = id) then x else default 0 (l !! Z.to_nat j).
Proof.
  intros. case_decide as E.
  - subst j. rewrite list_lookup_insert_eq by lia. done.
  - rewrite list_lookup_insert_ne by lia. done.
Qed.

(** Filtering a line out keeps the order, and the remaining stamps. *)
Lemma sorted_filter_other (f g : Z -> Z) id stack :
  (forall x, x ∈ stack -> x <> id -> g x = f x) ->
  StronglySorted (fun a b => f b < f a) stack ->
  StronglySorted (fun a b => g b < g a) (filter (fun x => x <> id) stack).
Proof.
  intros Hfg. induction 1 as [|x l Hs IH Hx]; [constructor|].
  rewrite filter_cons. case_decide as E; [|apply IH; intros; apply Hfg; by try right].
  constructor; [apply IH; intros; apply Hfg; by try right|].
  apply Forall_forall. intros y [Hy1 Hy2]%list_elem_of_filter.
  rewrite (Hfg x), (Hfg y) by (done || by constructor).
  rewrite Forall_forall in Hx. by apply Hx.
Qed.

Lemma lru_rel_replaced s stack id :
  lru_rel s stack -> 0 <= id < lines ->
  exists s', LRU.replaced id s = Ok (tt, s') /\ LRU.timestamp s' = LRU.timestamp s /\
    lru_rel s' (stack_step stack (OpReplaced id)).
Proof.
  intros [Hl Hs Hin Hb] Hid. unfold LRU.replaced.
  rewrite set_index_in_range by lia. cbn [mbind res_bind].
  eexists. split; [done|]. split; [done|].
  assert (forall x, x ∈ stack -> 0 <= x) as Hpos by (intros x [? _]%Hin; lia).
  constructor; cbn -[Z.to_nat].
  - by rewrite length_insert.
  - eapply sorted_filter_other; [|exact Hs]. intros x Hx Hne.
    rewrite stamp_insert by auto. by rewrite decide_False.
  - intros x. rewrite list_elem_of_filter, Hin.
    destruct (Z.leb_spec 0 x); [|lia]. rewrite stamp_insert by auto. case_decide; lia.
  - intros x. destruct (decide (Z.to_nat x = Z.to_nat id)) as [->|].
    + rewrite list_lookup_insert_eq by lia. simpl. specialize (Hb id). lia.
    + rewrite list_lookup_insert_ne by done. apply Hb.
Qed.

Lemma lru_rel_update s stack id :
  lru_rel s stack -> 0 <= id < lines -> LRU.timestamp s + 1 < 2 ^ 64 ->
  exists s', LRU.update id s = Ok (tt, s') /\ LRU.timestamp s' = LRU.timestamp s + 1 /\
    lru_rel s' (stack_step stack (OpUpdate id)).
Proof.
  intros [Hl Hs Hin Hb] Hid Hts. unfold LRU.update.
  rewrite set_index_in_range by lia. cbn [mbind res_bind].
  assert (0 < LRU.timestamp s) by (specialize (Hb id); lia).
  eexists. split; [done|]. split; [cbn; by rewrite u64_small by lia|].
  assert (forall x, x ∈ stack -> 0 <= x) as Hpos by (intros x [? _]%Hin; lia).
  constructor; cbn -[Z.to_nat].
  - by rewrite length_insert.
  - constructor.
    + eapply sorted_filter_other; [|exact Hs]. intros x Hx Hne.
      rewrite stamp_insert by auto. by rewrite decide_False.
    + apply Forall_forall. intros y [Hne Hy]%list_elem_of_filter.
      rewrite !stamp_insert by (auto; lia). rewrite decide_False, decide_True by done.
      apply Hb.
  - intros x. rewrite elem_of_cons, list_elem_of_filter, Hin.
    destruct (Z.leb_spec 0 x); [|lia]. rewrite stamp_insert by auto. case_decide; lia.
  - intros x. rewrite u64_small by lia.
    destruct (decide (Z.to_nat x = Z.to_nat id)) as [->|].
    + rewrite list_lookup_insert_eq by lia. simpl. lia.
    + rewrite list_lookup_insert_ne by done. specialize (Hb x). lia.
Qed.

Lemma lru_run_rel ops s stack :
  lru_rel s stack -> (forall o, o ∈ ops -> 0 <= op_id o < lines) ->
  LRU.timestamp s + Z.of_nat (length ops) < 2 ^ 64 ->
  exists s', policy_run ops s = Ok (tt, s') /\ lru_rel s' (foldl stack_step stack ops).
Proof.
  revert s stack. induction ops as [|o ops IH]; intros s stack Hrel Hids Hts.
  { exists s. done. }
  assert (exists s1, policy_step o s = Ok (tt, s1) /\ LRU.timestamp s1 <= LRU.timestamp s + 1
    /\ lru_rel s1 (stack_step stack o)) as (s1 & E1 & Ht & Hrel1).
  { assert (0 <= op_id o < lines) as Hid by (apply Hids; by left).
    destruct o as [id|id]; simpl in *.
    - destruct (lru_rel_update s stack id) as (s1 & ? & ? & ?); [done..|lia|].
      exists s1. split_and!; [done|lia|done].
    - destruct (lru_rel_replaced s stack id) as (s1 & ? & ? & ?); [done..|].
      exists s1. split_and!; [done|lia|done]. }
  destruct (IH s1 (stack_step stack o)) as (s' & E & Hrel'); [done| | |].
  - intros o' ?. apply Hids. by right.
  - simpl in Hts. lia.
  - exists s'. split; [|done]. unfold policy_run in *. cbn [forM].
    by rewrite (bind_step _ _ _ _ _ E1).
Qed.

Lemma last_filter_sorted (f : Z -> Z) (ids stack : list Z) x :
  StronglySorted (fun a b => f b < f a) stack -> x ∈ stack -> x ∈ ids ->
  (forall y, y ∈ ids -> f x <= f y) -> last (filter (fun z => z ∈ ids) stack) = Some x.
Proof.
  intros Hs Hx Hxi Hmin. induction Hs as [|z l Hs IH Hz]; [by apply not_elem_of_nil in Hx|].
  rewrite Forall_forall in Hz.
  apply elem_of_cons in Hx as [->|Hx].
  - rewrite filter_cons_True by done.
    rewrite filter_none; [done|]. intros w Hw Hwi.
    specialize (Hz w Hw). specialize (Hmin w Hwi). simpl in Hz. lia.
  - specialize (IH Hx). rewrite filter_cons. case_decide; [|done].
    rewrite last_cons, IH. done.
Qed.

Lemma stack_victim_least s stack rInfo x :
  lru_rel s stack -> (forall r, r ∈ rInfo -> 0 <= ri_index r < lines) ->
  least_way (fun r => stamp s (ri_index r)) Z.ltb x rInfo ->
  stack_victim stack (ri_index <$> rInfo) = Some (ri_index x).
Proof.
  intros Hrel Hidx (pre & post & -> & Hpre & Hpost). unfold stack_victim.
  assert (forall r, r ∈ pre ++ x :: post -> ri_index r ∈ stack <-> 0 < stamp s (ri_index r)) as Hst.
  { intros r Hr. rewrite (lr_in _ _ Hrel). specialize (Hidx r Hr). lia. }
  assert (x ∈ pre ++ x :: post) as Hx by (rewrite elem_of_app; right; by left).
  pose proof (lr_bound _ _ Hrel (ri_index x)) as Hbx.
  assert (forall y, y ∈ pre -> ri_index y ∈ stack) as Hpin.
  { intros y Hy. apply Hst; [rewrite elem_of_app; by left|].
    specialize (Hpre y Hy). apply Z.ltb_lt in Hpre. lia. }
  assert (forall P, (forall y, y ∈ pre -> ~ P (ri_index y)) ->
    forall `{!forall z, Decision (P z)}, filter P (ri_index <$> pre) = []) as Hnil.
  { intros P HP ?. apply filter_none. intros z Hz%list_elem_of_fmap.
    destruct Hz as (y & -> & Hy). by apply HP. }
  rewrite fmap_app, filter_app, fmap_cons.
  rewrite (Hnil (fun z => z ∉ stack)) by (intros y Hy Hn; by apply Hn, Hpin). simpl.
  destruct (Z.eq_dec (stamp s (ri_index x)) 0) as [E|E].
  - rewrite filter_cons_True; [done|]. rewrite Hst by done. lia.
  - assert (filter (fun z => z ∉ stack) (ri_index x :: (ri_index <$> post)) = []) as ->.
    { apply filter_none. intros z Hz Hn. apply Hn.
      apply elem_of_cons in Hz as [->|Hz]; [apply Hst; [done|lia]|].
      apply list_elem_of_fmap in Hz as (y & -> & Hy).
      apply Hst; [rewrite elem_of_app; right; by right|].
      specialize (Hpost y Hy). apply Z.ltb_ge in Hpost. lia. }
    eapply (last_filter_sorted (fun i => stamp s i)); [apply Hrel|apply Hst; [done|lia]| |].
    + rewrite elem_of_app. right. by left.
    + intros z. rewrite elem_of_app, elem_of_cons.
      intros [Hz|[->|Hz]]; [|done|];
        apply list_elem_of_fmap in Hz as (y & -> & Hy).
      * specialize (Hpre y Hy). apply Z.ltb_lt in Hpre. lia.
      * specialize (Hpost y Hy). apply Z.ltb_ge in Hpost. lia.
Qed.
End lru_stack.

(** ** Properties of the policies *)

(** LRU refines the recency stack. Whatever sequence of [update] and
    [replaced] calls a cache makes (fewer than 2^64 of them), [findBestCandidate]
    on a set of valid ways evicts exactly the stack's victim: a way never used
    since it was filled, and otherwise the least recently used one. *)
Theorem lru_refines_stack lines assoc ops rInfo :
  0 < assoc ->
  (forall o, o ∈ ops -> 0 <= op_id o < lines) -> Z.of_nat (length ops) + 1 < 2 ^ 64 ->
  way_set lines assoc rInfo -> (forall r, r ∈ rInfo -> ri_state r <> State.I) ->
  exists s s' c, policy_run ops (LRU.init lines assoc) = Ok (tt, s) /\
    LRU.findBestCandidate rInfo s = Ok (c, s') /\
    stack_victim (foldl stack_step [] ops) (ri_index <$> rInfo) = Some c.
Proof.
  intros Ha Hids Hlen Hw Hvalid.
  destruct (lru_run_rel lines ops _ [] (lru_rel_init lines assoc) Hids) as (s & Hrun & Hrel).
  { simpl. lia. }
  assert (forall r, r ∈ rInfo -> 0 <= ri_index r < lines) as Hidx
    by (intros; by eapply way_set_index).
  destruct (best_candidate_least (fun r => default 0 (LRU.array s !! Z.to_nat (ri_index r)))
    Z.ltb (LRU.rank s) (fun cand best => Ok (cand <? best))) with (rInfo := rInfo)
    as (x & Hx & Hleast).
  - intros ? ? ? ?%Z.ltb_lt ?%Z.ltb_lt. apply Z.ltb_lt. lia.
  - intros ? y ? ?%Z.ltb_lt. rewrite !Z.ltb_lt. lia.
  - done.
  - by eapply way_set_nonempty.
  - intros r Hr. split; [|by apply Hvalid]. unfold LRU.rank.
    destruct (at_index_in_range (LRU.array s) (ri_index r)) as [v Hv].
    { rewrite (lr_length _ _ _ Hrel). specialize (Hidx r Hr). lia. }
    rewrite Hv. apply at_index_Ok in Hv as [_ Hv]. by rewrite Hv.
  - exists s. unfold LRU.findBestCandidate. rewrite Hx. cbn [mbind res_bind].
    eexists _, _. split; [done|]. split; [done|]. by eapply stack_victim_least.
Qed.

Definition valid_way (i : Z) : ReplacementInfo := mkReplacementInfo i State.S None.

Lemma lru_refines_stack_witness :
  let ops := [OpUpdate 4; OpUpdate 5; OpUpdate 6; OpUpdate 7; OpUpdate 4; OpReplaced 0] in
  let rInfo := valid_way <$> [4; 5; 6; 7] in
  stack_victim (foldl stack_step [] ops) (ri_index <$> rInfo) = Some 5 /\
  exists s s' c, policy_run ops (LRU.init 8 4) = Ok (tt, s) /\
    LRU.findBestCandidate rInfo s = Ok (c, s') /\
    stack_victim (foldl stack_step [] ops) (ri_index <$> rInfo) = Some c.
Proof.
  split; [vm_compute; reflexivity|].
  apply (lru_refines_stack 8 4); [lia| |simpl; lia|exists 1; simpl; split_and!; [lia|lia|reflexivity]|].
  - intros o Ho. repeat (apply elem_of_cons in Ho as [->|Ho]; [simpl; lia|]).
    by apply not_elem_of_nil in Ho.
  - intros r Hr. cbn in Hr. repeat (apply elem_of_cons in Hr as [->|Hr]; [discriminate|]).
    by apply not_elem_of_nil in Hr.
Defined.

Definition coh (r : ReplacementInfo) : CoherenceFields :=
  default (mkCoherenceFields false false) (ri_coherence r).

(** LRU with coherence state evicts, among valid ways, one with no copy in
    the caches above if it can: the victim is shared only if every way is,
    owned only if every way equally shared is, and oldest among its equals. *)
Theorem lruopt_priority lines assoc s rInfo :
  0 < assoc ->
  length (LRUOpt.array s) = Z.to_nat lines ->
  way_set lines assoc rInfo ->
  (forall r, r ∈ rInfo -> ri_state r <> State.I /\ isCoherenceInfo r = true) ->
  exists x s', x ∈ rInfo /\ LRUOpt.findBestCandidate rInfo s = Ok (ri_index x, s') /\
    forall y tx ty, y ∈ rInfo ->
      at_index (LRUOpt.array s) (ri_index x) = Ok tx ->
      at_index (LRUOpt.array s) (ri_index y) = Ok ty ->
      (shared (coh x) = true -> shared (coh y) = true) /\
      (shared (coh x) = shared (coh y) -> owned (coh x) = true -> owned (coh y) = true) /\
      (shared (coh x) = shared (coh y) -> owned (coh x) = owned (coh y) -> tx <= ty).
Proof.
  intros Ha Hlen Hw Hr.
  set (rk r := LRUOpt.mkRank (default 0 (LRUOpt.array s !! Z.to_nat (ri_index r)))
    (shared (coh r)) (owned (coh r)) (ri_state r)).
  assert (forall r, r ∈ rInfo -> exists v, at_index (LRUOpt.array s) (ri_index r) = Ok v
    /\ LRUOpt.rank s r = Ok (rk r)) as Hrank.
  { intros r Hin. destruct (at_index_in_range (LRUOpt.array s) (ri_index r)) as [v Hv].
    { rewrite Hlen. pose proof (way_set_index _ _ _ _ Hw Hin). lia. }
    exists v. split; [done|]. unfold LRUOpt.rank. rewrite Hv. cbn [mbind res_bind].
    destruct (Hr r Hin) as [_ [f Hf]%bool_decide_eq_true].
    unfold asCoherence, rk, coh. rewrite Hf. cbn [of_option mbind res_bind default].
    apply at_index_Ok in Hv as [_ ->]. done. }
  destruct (best_candidate_least rk LRUOpt.lessThan (LRUOpt.rank s)
    (fun cand best => Ok (LRUOpt.lessThan cand best))) with (rInfo := rInfo)
    as (x & Hx & pre & post & E & Hpre & Hpost).
  1-2: unfold LRUOpt.lessThan.
  - intros [? [] []] [? [] []] [? [] []]; simpl; try done; rewrite !Z.ltb_lt; lia.
  - intros [? [] []] [? [] []] [? [] []]; simpl; rewrite ?Z.ltb_lt; auto; lia.
  - done.
  - by eapply way_set_nonempty.
  - intros r Hin. destruct (Hrank r Hin) as (? & ? & ?). by destruct (Hr r Hin).
  - exists x. unfold LRUOpt.findBestCandidate. rewrite Hx. cbn [mbind res_bind].
    eexists. split; [rewrite E, elem_of_app; right; by left|]. split; [done|].
    intros y tx ty Hy Etx Ety. apply at_index_Ok in Etx as [_ Etx], Ety as [_ Ety].
    assert (LRUOpt.lessThan (rk y) (rk x) = false) as Hlt.
    { rewrite E, elem_of_app, elem_of_cons in Hy. destruct Hy as [Hy|[->|Hy]].
      - specialize (Hpre y Hy). revert Hpre. unfold LRUOpt.lessThan.
        destruct (rk x) as [? [] []], (rk y) as [? [] []]; simpl; try done;
          rewrite Z.ltb_lt, Z.ltb_ge; lia.
      - unfold LRUOpt.lessThan. destruct (rk x) as [? [] []]; simpl; apply Z.ltb_irrefl.
      - by apply Hpost. }
    revert Hlt. unfold LRUOpt.lessThan, rk. simpl. rewrite Etx, Ety. simpl.
    destruct (shared (coh x)), (shared (coh y)), (owned (coh x)), (owned (coh y)); simpl;
      rewrite ?Z.ltb_ge; intros; split_and!; intros; done.
Qed.

Definition coh_way (i : Z) (sh ow : bool) : ReplacementInfo :=
  mkReplacementInfo i State.S (Some (mkCoherenceFields sh ow)).

Lemma lruopt_priority_witness :
  let s := LRUOpt.mk 9 0 3 [3; 8; 5] in
  let rInfo := [coh_way 0 true false; coh_way 1 false true; coh_way 2 false true] in
  exists x s', x ∈ rInfo /\ LRUOpt.findBestCandidate rInfo s = Ok (ri_index x, s') /\
    forall y tx ty, y ∈ rInfo ->
      at_index (LRUOpt.array s) (ri_index x) = Ok tx ->
      at_index (LRUOpt.array s) (ri_index y) = Ok ty ->
      (shared (coh x) = true -> shared (coh y) = true) /\
      (shared (coh x) = shared (coh y) -> owned (coh x) = true -> owned (coh y) = true) /\
      (shared (coh x) = shared (coh y) -> owned (coh x) = owned (coh y) -> tx <= ty).
Proof.
  apply (lruopt_priority 3 3); [lia|reflexivity|exists 0; split_and!; [lia|lia|reflexivity]|].
  intros r Hr. repeat (apply elem_of_cons in Hr as [->|Hr]; [split; [discriminate|reflexivity]|]).
  by apply not_elem_of_nil in Hr.
Defined.

(** the not-most-recently-used policy keeps its name: after any line of a
    full set has been used, the victim is another way of that set, whatever the
    random generator returns. *)
Theorem nmru_spares_last_used {G} (next : G -> Z * G) lines assoc rInfo id s s1 :
  lines <= 2 ^ 32 -> nmru_inv lines assoc s -> way_set lines assoc rInfo ->
  (forall r, r ∈ rInfo -> ri_state r <> State.I) ->
  id ∈ ri_index <$> rInfo -> NMRU.update id s = Ok (tt, s1) ->
  exists c s2, NMRU.findBestCandidate next rInfo s1 = Ok (c, s2) /\
    c <> id /\ c ∈ ri_index <$> rInfo.
Proof.
  intros Hl Hinv Hw Hv Hid Hup. pose proof (nm_assoc _ _ _ Hinv) as Ha.
  assert (nmru_inv lines assoc s1) as Hinv1.
  { eapply (rp_inv_update (ReplacementLaws := NMRU_laws lines assoc ltac:(lia) Hl next)); done. }
  assert (first_invalid rInfo = None) as Hn.
  { destruct (first_invalid rInfo) eqn:E; [|done].
    apply first_invalid_in in E as (r & Hr & _ & ?). by destruct (Hv r Hr). }
  destruct (lookup_lt_is_Some_2 rInfo 0) as [r0 H0].
  { rewrite (way_set_length _ _ _ Hw). lia. }
  destruct (nmru_valid lines assoc ltac:(lia) Hl next rInfo s1 r0 Hinv1 Hw Hn H0)
    as (c & g & mru & Hc & Hm & Hb & Hne & r & Hr & Er).
  exists c. eexists. split; [done|]. split; [|rewrite <- Er; by apply list_elem_of_fmap_2].
  intros ->. apply Hne. pose proof Hw as (k & Hk & Hkl & Hseq).
  assert (ri_index r0 = k * assoc) as E0.
  { apply (f_equal (lookup 0%nat)) in Hseq. rewrite list_lookup_fmap, H0 in Hseq.
    symmetry in Hseq. apply lookup_seqZ in Hseq as [? ?]. lia. }
  rewrite Hseq in Hid. apply elem_of_seqZ in Hid.
  unfold NMRU.update in Hup. rewrite (nm_ways _ _ _ Hinv) in Hup.
  rewrite udiv_nonzero, umod_nonzero in Hup by lia. cbn [mbind res_bind] in Hup.
  destruct (set_index _ _ _) as [a|] eqn:Es; [|done]. injection Hup as <-.
  apply set_index_Ok in Es as [? ->]. simpl in Hm.
  assert (id / assoc = k) as Ek by (symmetry; apply Z.div_unique with (id - k * assoc); lia).
  rewrite E0, Z.div_mul in Hm by lia. rewrite Ek, list_lookup_insert_eq in Hm by lia.
  injection Hm as <-. pose proof (Z.div_mod id assoc ltac:(lia)). lia.
Qed.

Lemma nmru_spares_last_used_witness :
  let s := NMRU.mk 0 [0; 2] 4 tt in
  let rInfo := valid_way <$> [4; 5; 6; 7] in
  exists s1 c s2, NMRU.update 5 s = Ok (tt, s1) /\
    NMRU.findBestCandidate (fun g => (1, g)) rInfo s1 = Ok (c, s2) /\
    c <> 5 /\ c ∈ ri_index <$> rInfo.
Proof.
  intros s rInfo. eexists.
  destruct (nmru_spares_last_used (fun g : unit => (1, g)) 8 4 rInfo 5 s
    (NMRU.mk 0 [0; 1] 4 tt)) as (c & s2 & H).
  - lia.
  - constructor; [reflexivity|lia|reflexivity|repeat constructor; simpl; lia].
  - exists 1. split_and!; [lia|lia|reflexivity].
  - intros r Hr. cbn in Hr. repeat (apply elem_of_cons in Hr as [->|Hr]; [discriminate|]).
    by apply not_elem_of_nil in Hr.
  - cbn. right. by left.
  - reflexivity.
  - exists c, s2. split; [reflexivity|exact H].
Defined.

(** on a direct-mapped cache (one way) holding a valid line, the
    not-most-recently-used policy divides by zero: [% (ways-1)]. *)
Theorem nmru_direct_mapped_undefined {G} (next : G -> Z * G) s r :
  NMRU.ways s = 1 -> ri_state r <> State.I ->
  NMRU.findBestCandidate next [r] s = Err (Undefined "division by zero").
Proof.
  intros Hw Hr. unfold NMRU.findBestCandidate, NMRU.invalid_way. rewrite Hw. simpl.
  rewrite decide_False by done. simpl. destruct (next (NMRU.gen s)). done.
Qed.

Lemma nmru_direct_mapped_undefined_witness :
  NMRU.findBestCandidate (fun g => (5, g)) [valid_way 3] (NMRU.mk 0 [0; 0; 0; 0] 1 tt)
    = Err (Undefined "division by zero").
Proof. apply nmru_direct_mapped_undefined; [reflexivity|discriminate]. Defined.
