(* ===== verification/Lines.v ===== *)
(** * Lines: the line types of cache and directory arrays

    Models [lineTypes.h]: the base class [CacheLine] and the four line types
    built on it or beside it. Each line owns the [ReplacementInfo] object its
    replacement policy reads; the operations below update that object exactly
    where the code does. *)

From S2P Require Import Prelude MemTypes Replacement.

(** [std::copy(in.begin(), in.end(), data_.begin() + offset)]; writing past the
    end of [data_] is undefined. *)
Definition vec_copy (data input : list Z) (offset : Z) : res (list Z) :=
  let o := Z.to_nat (u32 offset) in
  if (o + length input <=? length data)%nat
  then Ok (take o data ++ input ++ drop (o + length input) data)
  else Err (Undefined "copy past the end of a line").

(** The bytes [begin + offset, begin + offset + size) of a line; reading past
    the end is undefined. *)
Definition vec_slice (data : list Z) (offset size : Z) : res (list Z) :=
  if (offset <? 0) || (Z.of_nat (length data) <? offset + size) then
    Err (Undefined "read past the end of a line")
  else Ok (take (Z.to_nat size) (drop (Z.to_nat offset) data)).

(** Operations shared by the [ReplacementInfo] objects. *)
Definition info_setState (s : State.t) (i : ReplacementInfo) : ReplacementInfo :=
  i <| ri_state := s |>.
Definition info_setShared (b : bool) (i : ReplacementInfo) : ReplacementInfo :=
  i <| ri_coherence ::= fmap (fun c => c <| shared := b |>) |>.
Definition info_setOwned (b : bool) (i : ReplacementInfo) : ReplacementInfo :=
  i <| ri_coherence ::= fmap (fun c => c <| owned := b |>) |>.

Definition new_info (index : Z) : ReplacementInfo := mkReplacementInfo index State.I None.
Definition new_coherence_info (index : Z) : ReplacementInfo :=
  mkReplacementInfo index State.I (Some (mkCoherenceFields false false)).

(** What [CacheArray] requires of a line type. *)
Class LineType (T : Type) := {
  line_new : Z -> Z -> T;
  line_reset : T -> T;
  line_getIndex : T -> Z;
  line_getAddr : T -> Z;
  line_setAddr : Z -> T -> T;
  line_getState : T -> State.t;
  line_getReplacementInfo : T -> ReplacementInfo
}.

(** ** [CacheLine] *)

Module CacheLine.
Record t := mk {
  index_ : Z;
  addr_ : Z;
  state_ : State.t;
  data_ : list Z;
  lastSendTimestamp_ : Z;
  wasPrefetch_ : bool
}.
#[global] Instance t_eta : Eta t := fun l =>
  mk (index_ l) (addr_ l) (state_ l) (data_ l) (lastSendTimestamp_ l) (wasPrefetch_ l).

Definition new (size index : Z) : t :=
  mk index 0 State.I (replicate (Z.to_nat size) 0) 0 false.

Definition reset (l : t) : t :=
  l <| state_ := State.I |> <| lastSendTimestamp_ := 0 |> <| wasPrefetch_ := false |>.

Definition setData (input : list Z) (offset : Z) (l : t) : res t :=
  d ← vec_copy (data_ l) input offset; Ok (l <| data_ := d |>).
End CacheLine.

(** ** [L1CacheLine]: lock and load-link flags *)

Module L1CacheLine.
Record t := mk {
  base : CacheLine.t;
  userLock_ : Z;
  LLSCAtomic_ : bool;
  LLSCAtomicTime_ : Z;
  eventsWaitingForLock_ : bool;
  info : ReplacementInfo
}.
#[global] Instance t_eta : Eta t := fun l =>
  mk (base l) (userLock_ l) (LLSCAtomic_ l) (LLSCAtomicTime_ l) (eventsWaitingForLock_ l) (info l).

Definition new (size index : Z) : t :=
  mk (CacheLine.new size index) 0 false 0 false (new_info index).

Definition updateReplacement (l : t) : t :=
  l <| info ::= info_setState (CacheLine.state_ (base l)) |>.

Definition reset (l : t) : t :=
  l <| base ::= CacheLine.reset |> <| userLock_ := 0 |> <| LLSCAtomic_ := false |>
    <| LLSCAtomicTime_ := 0 |> <| eventsWaitingForLock_ := false |>.

Definition getIndex (l : t) : Z := CacheLine.index_ (base l).
Definition getAddr (l : t) : Z := CacheLine.addr_ (base l).
Definition setAddr (a : Z) (l : t) : t := l <| base ::= fun b => b <| CacheLine.addr_ := a |> |>.
Definition getState (l : t) : State.t := CacheLine.state_ (base l).
Definition setState (s : State.t) (l : t) : t :=
  updateReplacement (l <| base ::= fun b => b <| CacheLine.state_ := s |> |>).
Definition getData (l : t) : list Z := CacheLine.data_ (base l).
Definition setData (input : list Z) (offset : Z) (l : t) : res t :=
  b ← CacheLine.setData input offset (base l); Ok (l <| base := b |>).
Definition getTimestamp (l : t) : Z := CacheLine.lastSendTimestamp_ (base l).
Definition setTimestamp (ts : Z) (l : t) : t :=
  l <| base ::= fun b => b <| CacheLine.lastSendTimestamp_ := ts |> |>.
Definition getPrefetch (l : t) : bool := CacheLine.wasPrefetch_ (base l).
Definition setPrefetch (p : bool) (l : t) : t :=
  l <| base ::= fun b => b <| CacheLine.wasPrefetch_ := p |> |>.

(** Load-link/store-conditional reservation. *)
Definition atomicStart (time : Z) (l : t) : t :=
  l <| LLSCAtomic_ := true |> <| LLSCAtomicTime_ := time |>.
Definition atomicEnd (l : t) : t :=
  l <| LLSCAtomic_ := false |> <| LLSCAtomicTime_ := 0 |>.
Definition isAtomic (l : t) : bool := LLSCAtomic_ l.

(** User locks. *)
Definition isLocked (currentTime : Z) (l : t) : bool :=
  if 0 <? userLock_ l then true
  else if LLSCAtomic_ l && (currentTime <? LLSCAtomicTime_ l) then true else false.
Definition incLock (l : t) : t := l <| userLock_ := u32 (userLock_ l + 1) |>.
Definition decLock (l : t) : t := l <| userLock_ := u32 (userLock_ l - 1) |>.
Definition setEventsWaitingForLock (b : bool) (l : t) : t := l <| eventsWaitingForLock_ := b |>.

#[global] Instance line_type : LineType t := {|
  line_new := new;
  line_reset := reset;
  line_getIndex := getIndex;
  line_getAddr := getAddr;
  line_setAddr := setAddr;
  line_getState := getState;
  line_getReplacementInfo := info
|}.
End L1CacheLine.

(** ** Sharers and owner of a block, as a directory or a shared cache keeps them *)

Definition other_sharers (sharers : gset string) (shr : string) : bool :=
  negb (bool_decide (sharers = ∅)
        || (bool_decide (size sharers = 1%nat) && bool_decide (shr ∈ sharers))).

Module SharedCacheLine.
Record t := mk {
  base : CacheLine.t;
  sharers_ : gset string;
  owner_ : string;
  info : ReplacementInfo
}.
#[global] Instance t_eta : Eta t := fun l =>
  mk (base l) (sharers_ l) (owner_ l) (info l).

Definition new (size index : Z) : t :=
  mk (CacheLine.new size index) ∅ "" (new_coherence_info index).

Definition setState (s : State.t) (l : t) : t :=
  l <| base ::= fun b => b <| CacheLine.state_ := s |> |> <| info ::= info_setState s |>.

(** [info] is not told that the sharers and the owner are gone. *)
Definition reset (l : t) : t :=
  l <| base ::= CacheLine.reset |> <| sharers_ := ∅ |> <| owner_ := "" |>.

Definition isSharer (shr : string) (l : t) : bool := bool_decide (shr ∈ sharers_ l).
Definition numSharers (l : t) : nat := size (sharers_ l).
Definition hasSharers (l : t) : bool := negb (bool_decide (sharers_ l = ∅)).
Definition hasOtherSharers (shr : string) (l : t) : bool := other_sharers (sharers_ l) shr.
Definition addSharer (shr : string) (l : t) : t :=
  l <| sharers_ ::= union {[shr]} |> <| info ::= info_setShared true |>.
Definition removeSharer (shr : string) (l : t) : t :=
  let s := sharers_ l ∖ {[shr]} in
  l <| sharers_ := s |> <| info ::= info_setShared (negb (bool_decide (s = ∅))) |>.
Definition hasOwner (l : t) : bool := negb (bool_decide (owner_ l = ""%string)).
Definition setOwner (owner : string) (l : t) : t :=
  l <| owner_ := owner |> <| info ::= info_setOwned true |>.
Definition removeOwner (l : t) : t :=
  l <| owner_ := "" |> <| info ::= info_setOwned false |>.

#[global] Instance line_type : LineType t := {|
  line_new := new;
  line_reset := reset;
  line_getIndex l := CacheLine.index_ (base l);
  line_getAddr l := CacheLine.addr_ (base l);
  line_setAddr a l := l <| base ::= fun b => b <| CacheLine.addr_ := a |> |>;
  line_getState l := CacheLine.state_ (base l);
  line_getReplacementInfo := info
|}.
End SharedCacheLine.

Module PrivateCacheLine.
Record t := mk { base : CacheLine.t; shared_ : bool; owned_ : bool; info : ReplacementInfo }.
#[global] Instance t_eta : Eta t := fun l =>
  mk (base l) (shared_ l) (owned_ l) (info l).

Definition new (size index : Z) : t :=
  mk (CacheLine.new size index) false false (new_coherence_info index).

Definition setState (s : State.t) (l : t) : t :=
  l <| base ::= fun b => b <| CacheLine.state_ := s |> |> <| info ::= info_setState s |>.

Definition reset (l : t) : t :=
  l <| base ::= CacheLine.reset |> <| shared_ := false |> <| owned_ := false |>.

Definition setShared (s : bool) (l : t) : t :=
  l <| shared_ := s |> <| info ::= info_setShared s |>.
Definition setOwned (o : bool) (l : t) : t :=
  l <| owned_ := o |> <| info ::= info_setOwned o |>.

#[global] Instance line_type : LineType t := {|
  line_new := new;
  line_reset := reset;
  line_getIndex l := CacheLine.index_ (base l);
  line_getAddr l := CacheLine.addr_ (base l);
  line_setAddr a l := l <| base ::= fun b => b <| CacheLine.addr_ := a |> |>;
  line_getState l := CacheLine.state_ (base l);
  line_getReplacementInfo := info
|}.
End PrivateCacheLine.

Module DirectoryLine.
Record t := mk {
  index_ : Z;
  addr_ : Z;
  state_ : State.t;
  sharers_ : gset string;
  owner_ : string;
  lastSendTimestamp_ : Z;
  info_ : ReplacementInfo;
  wasPrefetch_ : bool
}.
#[global] Instance t_eta : Eta t := fun l =>
  mk (index_ l) (addr_ l) (state_ l) (sharers_ l) (owner_ l) (lastSendTimestamp_ l)
     (info_ l) (wasPrefetch_ l).

Definition new (size index : Z) : t :=
  mk index 0 State.I ∅ "" 0 (new_coherence_info index) false.

Definition reset (l : t) : t :=
  l <| state_ := State.I |> <| sharers_ := ∅ |> <| owner_ := "" |>
    <| lastSendTimestamp_ := 0 |> <| wasPrefetch_ := false |>.

(** [info_] keeps the state it was created with. *)
Definition setState (s : State.t) (l : t) : t := l <| state_ := s |>.
Definition isSharer (shr : string) (l : t) : bool := bool_decide (shr ∈ sharers_ l).
Definition numSharers (l : t) : nat := size (sharers_ l).
Definition hasSharers (l : t) : bool := negb (bool_decide (sharers_ l = ∅)).
Definition hasOtherSharers (shr : string) (l : t) : bool := other_sharers (sharers_ l) shr.
Definition addSharer (shr : string) (l : t) : t :=
  l <| sharers_ ::= union {[shr]} |> <| info_ ::= info_setShared true |>.
Definition removeSharer (shr : string) (l : t) : t :=
  let s := sharers_ l ∖ {[shr]} in
  l <| sharers_ := s |> <| info_ ::= info_setShared (negb (bool_decide (s = ∅))) |>.
Definition hasOwner (l : t) : bool := negb (bool_decide (owner_ l = ""%string)).
Definition setOwner (owner : string) (l : t) : t :=
  l <| owner_ := owner |> <| info_ ::= info_setOwned true |>.
Definition removeOwner (l : t) : t :=
  l <| owner_ := "" |> <| info_ ::= info_setOwned false |>.

#[global] Instance line_type : LineType t := {|
  line_new := new;
  line_reset := reset;
  line_getIndex := index_;
  line_getAddr := addr_;
  line_setAddr a l := l <| addr_ := a |>;
  line_getState := state_;
  line_getReplacementInfo := info_
|}.
End DirectoryLine.

(** A data line points to the directory line it belongs to; the pointer is an
    index into the directory array it is read against. *)
Module DataLine.
Record t := mk {
  index_ : Z;
  addr_ : Z;
  data_ : list Z;
  tag_ : option nat;
  info_ : ReplacementInfo
}.
#[global] Instance t_eta : Eta t := fun l =>
  mk (index_ l) (addr_ l) (data_ l) (tag_ l) (info_ l).

(** The constructor takes the line size as a [uint8_t]. *)
Definition new (size index : Z) : t :=
  mk index 0 (replicate (Z.to_nat (size mod 256)) 0) None (new_coherence_info index).

Definition reset (l : t) : t := l <| tag_ := None |>.
Definition setTag (tag : option nat) (l : t) : t := l <| tag_ := tag |>.
Definition setData (input : list Z) (offset : Z) (l : t) : res t :=
  d ← vec_copy (data_ l) input offset; Ok (l <| data_ := d |>).

Definition tag_line (dirs : list DirectoryLine.t) (l : t) : res (option DirectoryLine.t) :=
  match tag_ l with
  | None => Ok None
  | Some i => d ← of_option (Undefined "dangling tag") (dirs !! i); Ok (Some d)
  end.
Definition getState (dirs : list DirectoryLine.t) (l : t) : res State.t :=
  o ← tag_line dirs l;
  Ok (match o with Some d => DirectoryLine.state_ d | None => State.I end).
Definition getReplacementInfo (dirs : list DirectoryLine.t) (l : t) : res ReplacementInfo :=
  o ← tag_line dirs l;
  Ok (match o with Some d => DirectoryLine.info_ d | None => info_ l end).
End DataLine.

(** ** Byte ranges of a line *)

Lemma vec_copy_length data input offset d :
  vec_copy data input offset = Ok d -> length d = length data.
Proof.
  unfold vec_copy. destruct (Nat.leb_spec (Z.to_nat (u32 offset) + length input) (length data));
    [|done].
  intros [= <-]. rewrite !length_app, length_take, length_drop. lia.
Qed.

Lemma vec_copy_in_range data input offset :
  0 <= offset < 2 ^ 32 -> offset + Z.of_nat (length input) <= Z.of_nat (length data) ->
  vec_copy data input offset =
    Ok (take (Z.to_nat offset) data ++ input ++ drop (Z.to_nat offset + length input) data).
Proof.
  intros Ho Hl. unfold vec_copy. rewrite u32_small by done.
  destruct (Nat.leb_spec (Z.to_nat offset + length input) (length data)); [done|lia].
Qed.

(** Reading back what was written, and reading elsewhere. *)
Lemma vec_copy_lookup data input offset d i :
  0 <= offset < 2 ^ 32 -> vec_copy data input offset = Ok d ->
  d !! i = if decide (Z.to_nat offset <= i < Z.to_nat offset + length input)%nat
           then input !! (i - Z.to_nat offset)%nat else data !! i.
Proof.
  intros Ho. unfold vec_copy. rewrite u32_small by done.
  destruct (Nat.leb_spec (Z.to_nat offset + length input) (length data)) as [Hl|]; [|done].
  intros [= <-]. case_decide as Hi.
  - rewrite lookup_app_r; rewrite length_take; [|lia].
    rewrite lookup_app_l by lia. f_equal. lia.
  - destruct (decide (i < Z.to_nat offset)%nat).
    + rewrite lookup_app_l by (rewrite length_take; lia). by rewrite lookup_take_lt.
    + rewrite lookup_app_r; rewrite length_take; [|lia].
      rewrite lookup_app_r by lia. rewrite lookup_drop. f_equal. lia.
Qed.

Lemma vec_slice_in_range data offset size :
  0 <= offset -> 0 <= size -> offset + size <= Z.of_nat (length data) ->
  vec_slice data offset size = Ok (take (Z.to_nat size) (drop (Z.to_nat offset) data)).
Proof.
  intros. unfold vec_slice. destruct (Z.ltb_spec offset 0); [lia|].
  destruct (Z.ltb_spec (Z.of_nat (length data)) (offset + size)); [lia|done].
Qed.

Lemma vec_slice_Ok data offset size d :
  vec_slice data offset size = Ok d ->
  0 <= offset /\ offset + size <= Z.of_nat (length data) /\
  d = take (Z.to_nat size) (drop (Z.to_nat offset) data).
Proof.
  unfold vec_slice. destruct (Z.ltb_spec offset 0); [done|].
  destruct (Z.ltb_spec (Z.of_nat (length data)) (offset + size)); [done|].
  simpl. by intros [= <-].
Qed.

(** ** The L1 line and its replacement information *)

Definition l1_synced (l : L1CacheLine.t) : Prop :=
  ri_state (L1CacheLine.info l) = L1CacheLine.getState l /\
  ri_index (L1CacheLine.info l) = L1CacheLine.getIndex l.

(** Shape of a line: data as long as a line, index in place. *)
Definition l1_shape (size index : Z) (l : L1CacheLine.t) : Prop :=
  length (L1CacheLine.getData l) = Z.to_nat size /\ L1CacheLine.getIndex l = index.

Lemma l1_new_synced size index : l1_synced (L1CacheLine.new size index).
Proof. done. Qed.

Lemma l1_new_shape size index : l1_shape size index (L1CacheLine.new size index).
Proof. split; [|done]. unfold L1CacheLine.getData. simpl. by rewrite length_replicate. Qed.

Lemma l1_setData_inv input offset l l' :
  L1CacheLine.setData input offset l = Ok l' ->
  exists d, vec_copy (L1CacheLine.getData l) input offset = Ok d /\
    l' = l <| L1CacheLine.base ::= fun b => b <| CacheLine.data_ := d |> |>.
Proof.
  unfold L1CacheLine.setData, CacheLine.setData, L1CacheLine.getData.
  destruct (vec_copy _ _ _) as [d|]; [|done]. intros [= <-]. by exists d.
Qed.

(** ** Directory lines never tell their policy that they are valid *)

Inductive dir_line_op :=
| DSetState (s : State.t) | DSetAddr (a : Z) | DAddSharer (s : string) | DRemoveSharer (s : string)
| DSetOwner (o : string) | DRemoveOwner | DReset | DSetTimestamp (ts : Z) | DSetPrefetch (p : bool).

Definition dir_line_step (o : dir_line_op) (l : DirectoryLine.t) : DirectoryLine.t :=
  match o with
  | DSetState s => DirectoryLine.setState s l
  | DSetAddr a => line_setAddr a l
  | DAddSharer s => DirectoryLine.addSharer s l
  | DRemoveSharer s => DirectoryLine.removeSharer s l
  | DSetOwner w => DirectoryLine.setOwner w l
  | DRemoveOwner => DirectoryLine.removeOwner l
  | DReset => DirectoryLine.reset l
  | DSetTimestamp ts => l <| DirectoryLine.lastSendTimestamp_ := ts |>
  | DSetPrefetch p => l <| DirectoryLine.wasPrefetch_ := p |>
  end.

Lemma dir_line_info_invalid ops size index :
  let l := foldl (fun l o => dir_line_step o l) (DirectoryLine.new size index) ops in
  ri_state (DirectoryLine.info_ l) = State.I /\ ri_index (DirectoryLine.info_ l) = index.
Proof.
  simpl. induction ops as [|o ops IH] using rev_ind; [done|].
  rewrite foldl_snoc. destruct o; simpl; done.
Qed.

(** a directory line's [setState] does not update the state its replacement
    policy sees, so after any operations on the lines of a set the policy
    still takes way 0 for invalid and evicts it, whatever the lines hold and
    however recently way 0 was used. *)
Theorem directory_victim_is_way_0 size index ops ways s ts :
  at_index (LRUOpt.array s) index = Ok ts ->
  let l := foldl (fun l o => dir_line_step o l) (DirectoryLine.new size index) ops in
  exists s', LRUOpt.findBestCandidate (line_getReplacementInfo l :: ways) s = Ok (index, s').
Proof.
  intros Hts l. unfold LRUOpt.findBestCandidate, best_candidate, LRUOpt.rank. simpl.
  destruct (dir_line_info_invalid ops size index) as [Es Ei]. fold l in Es, Ei.
  rewrite Ei, Hts. cbn [mbind res_bind].
  assert (exists c, asCoherence (DirectoryLine.info_ l) = Ok c) as [c ->].
  { subst l. clear Es Ei. induction ops as [|o ops IH] using rev_ind; [by eexists|].
    rewrite foldl_snoc. destruct IH as [c Hc]. revert Hc.
    generalize (foldl (fun l o => dir_line_step o l) (DirectoryLine.new size index) ops).
    intros l. unfold asCoherence. destruct o; simpl; eauto;
      destruct (ri_coherence (DirectoryLine.info_ l)); simpl; eauto. }
  cbn [mbind res_bind]. rewrite decide_True by done. by eexists.
Qed.

Lemma directory_victim_is_way_0_witness :
  let l := foldl (fun l o => dir_line_step o l) (DirectoryLine.new 64 0)
             [DSetAddr 4096; DSetState State.M; DSetOwner "l1_0"] in
  DirectoryLine.state_ l = State.M /\
  exists s', LRUOpt.findBestCandidate
    [line_getReplacementInfo l; new_coherence_info 1] (LRUOpt.mk 9 0 2 [8; 1]) = Ok (0, s').
Proof.
  split; [reflexivity|].
  exact (directory_victim_is_way_0 64 0 [DSetAddr 4096; DSetState State.M; DSetOwner "l1_0"]
    [new_coherence_info 1] (LRUOpt.mk 9 0 2 [8; 1]) 8 eq_refl).
Defined.

(** Other sharers: some sharer is not the one asked about. *)
Lemma other_sharers_spec sharers shr :
  other_sharers sharers shr = true <-> exists x, x ∈ sharers /\ x <> shr.
Proof.
  unfold other_sharers. rewrite negb_true_iff, orb_false_iff, andb_false_iff.
  rewrite !bool_decide_eq_false. split.
  - intros [Hne Hor].
    destruct (decide (shr ∈ sharers)) as [Hin|Hin].
    + destruct Hor as [Hs|?]; [|done].
      destruct (set_choose_or_empty (sharers ∖ {[shr]})) as [[x Hx]|He].
      * exists x. set_solver.
      * exfalso. apply Hs. assert (sharers ≡ {[shr]}) as E.
        { intros x. rewrite elem_of_singleton. destruct (decide (x = shr)); set_solver. }
        apply leibniz_equiv in E. rewrite E. apply size_singleton.
    + destruct (set_choose_or_empty sharers) as [[x Hx]|He]; [|apply leibniz_equiv in He; done].
      exists x. set_solver.
  - intros (x & Hx & Hne). split; [set_solver|].
    destruct (decide (shr ∈ sharers)); [left|by right].
    intros Hs. apply size_1_elem_of in Hs as [y Hy]. set_solver.
Qed.
