(* ===== verification/CacheArray.v ===== *)
(** * CacheArray: the set-associative array behind every cache

    Models [cacheArray.h] (and [log2Of] of [util.h]), templated like the code on
    a line type, and taking the replacement policy and the hash function through
    their interfaces. A pointer to a line is the index of the line in [lines_]. *)

From S2P Require Import Prelude MemTypes Hash Replacement Lines.

(** [log2Of]: [while (temp >>= 1) result++]; 31 shifts bring every non-negative
    [int] to zero ([log2Of_Zlog2]), a negative one never gets there. *)
Fixpoint log2Of_rec (fuel : nat) (temp result : Z) : res Z :=
  let temp := Z.shiftr temp 1 in
  if temp =? 0 then Ok result
  else match fuel with
       | O => Err (Undefined "log2Of does not terminate")
       | S n => log2Of_rec n temp (result + 1)
       end.
Definition log2Of (x : Z) : res Z := log2Of_rec 31 (int32_of x) 0.

Record CacheArray (T P : Type) := mkCacheArray {
  numSets_ : Z;
  numLines_ : Z;
  associativity_ : Z;
  lineOffset_ : Z;
  lineSize_ : Z;
  replacementMgr_ : P;
  sliceSize_ : Z;
  sliceStep_ : Z;
  banks_ : Z;
  lines_ : list T
}.
Arguments mkCacheArray {T P}.
Arguments numSets_ {T P}. Arguments numLines_ {T P}. Arguments associativity_ {T P}.
Arguments lineOffset_ {T P}. Arguments lineSize_ {T P}. Arguments replacementMgr_ {T P}.
Arguments sliceSize_ {T P}. Arguments sliceStep_ {T P}. Arguments banks_ {T P}.
Arguments lines_ {T P}.

#[export] Instance CacheArray_eta {T P} : Eta (CacheArray T P) := fun c =>
  mkCacheArray (numSets_ c) (numLines_ c) (associativity_ c) (lineOffset_ c) (lineSize_ c)
    (replacementMgr_ c) (sliceSize_ c) (sliceStep_ c) (banks_ c) (lines_ c).

Section cache_array.
Context {T P : Type} {HT : LineType T} {HP : ReplacementPolicy P} {hash_ : HashFunction}.
Abbreviation arr := (CacheArray T P).

Definition on_policy {A} (m : M P A) : M arr A :=
  zoom replacementMgr_ (fun p c => c <| replacementMgr_ := p |>) m.

(** The constructor, with its parameter checks. *)
Definition new_CacheArray (numLines associativity lineSize : Z) (mgr : P) : res arr :=
  if numLines =? 0 then Err (Fatal "CacheArray: number of lines is 0")
  else if associativity =? 0 then Err (Fatal "CacheArray: associativity is 0")
  else
    let numSets := numLines / associativity in
    if numSets =? 0 then Err (Fatal "CacheArray: number of sets is 0")
    else if negb (u32 (numSets * associativity) =? numLines) then
      Err (Fatal "CacheArray: lines not divisible by associativity")
    else
      lineOffset ← log2Of lineSize;
      let lines := (fun i => line_new lineSize i) <$> seqZ 0 numLines in
      if forallb rp_checkCompatibility (take 1 (line_getReplacementInfo <$> lines)) then
        Ok (mkCacheArray numSets numLines associativity lineOffset lineSize mgr 1 1 1 lines)
      else Err (Fatal "CacheArray: incompatible replacement policy").

Definition toLineAddr (c : arr) (addr : Z) : res Z :=
  let shift := Z.shiftr addr (lineOffset_ c) in
  step ← udiv shift (sliceStep_ c);
  offset ← umod shift (sliceSize_ c);
  Ok (u64 (u64 (step * sliceSize_ c) + offset)).

Definition getBank (c : arr) (addr : Z) : res Z :=
  laddr ← toLineAddr c addr; umod laddr (banks_ c).

(** [int set = hash_->hash(0, laddr) % numSets_]. *)
Definition set_of (c : arr) (addr : Z) : res Z :=
  laddr ← toLineAddr c addr;
  h ← hash 0 laddr;
  s ← umod h (numSets_ c);
  Ok (int32_of s).

Definition setBegin_of (c : arr) (set : Z) : Z := int32_of (set * associativity_ c).

(** The scan of the ways [i .. i+n-1] for a line holding [addr]. *)
Fixpoint find_way (lines : list T) (addr : Z) (i : Z) (n : nat) : res (option nat) :=
  match n with
  | O => Ok None
  | S n' =>
      l ← at_index lines i;
      if line_getAddr l =? addr then Ok (Some (Z.to_nat i))
      else find_way lines addr (i + 1) n'
  end.

Definition lookup_index (c : arr) (addr : Z) : res (option nat) :=
  set ← set_of c addr;
  let setBegin := setBegin_of c set in
  let setEnd := int32_of (setBegin + associativity_ c) in
  find_way (lines_ c) addr setBegin (Z.to_nat (setEnd - setBegin)).

Definition lookup (addr : Z) (updateReplacement : bool) : M arr (option nat) :=
  o ← getsR (fun c => lookup_index c addr);
  match o with
  | Some i => when updateReplacement (on_policy (rp_update (Z.of_nat i))) ;; mret (Some i)
  | None => mret None
  end.

(** [rInfo[set]]: the information objects owned by the ways of the set. *)
Definition rInfo (c : arr) (set : Z) : list ReplacementInfo :=
  line_getReplacementInfo <$>
    take (Z.to_nat (associativity_ c)) (drop (Z.to_nat (set * associativity_ c)) (lines_ c)).

Definition findReplacementCandidate (addr : Z) : M arr nat :=
  set ← getsR (fun c => set_of c addr);
  infos ← gets (fun c => rInfo c set);
  id ← on_policy (rp_findBestCandidate infos);
  _ ← getsR (fun c => at_index (lines_ c) (u32 id));
  mret (Z.to_nat (u32 id)).

Definition get_line (i : nat) : M arr T :=
  getsR (fun c => of_option (Undefined "bad line pointer") (lines_ c !! i)).

Definition set_line (i : nat) (l : T) : M arr unit :=
  modify (fun c => c <| lines_ ::= <[i := l]> |>).

(** [replace(addr, candidate)] and [deallocate(candidate)]. *)
Definition replace (addr : Z) (candidate : nat) : M arr unit :=
  l ← get_line candidate;
  let index := line_getIndex l in
  on_policy (rp_replaced index) ;;
  set_line candidate (line_setAddr addr (line_reset l)) ;;
  on_policy (rp_update index).

Definition deallocate (candidate : nat) : M arr unit :=
  l ← get_line candidate;
  on_policy (rp_replaced (line_getIndex l)) ;;
  set_line candidate (line_reset l).

Definition setSliceAware (size step : Z) : M arr unit :=
  modify (fun c =>
    let sz := Z.shiftr size (lineOffset_ c) in
    let st := Z.shiftr step (lineOffset_ c) in
    c <| sliceSize_ := if sz =? 0 then 1 else sz |>
      <| sliceStep_ := if st =? 0 then 1 else st |>).

Definition setBanked (numBanks : Z) : M arr unit :=
  modify (fun c => c <| banks_ := numBanks |>).
End cache_array.

(** ** What a line type promises *)

Class LineLaws (T : Type) `{LineType T} := {
  line_new_index size i : line_getIndex (line_new size i) = i;
  line_new_state size i : line_getState (line_new size i) = State.I;
  line_new_info size i : ri_index (line_getReplacementInfo (line_new size i)) = i;
  line_reset_index l : line_getIndex (line_reset l) = line_getIndex l;
  line_reset_addr l : line_getAddr (line_reset l) = line_getAddr l;
  line_reset_state l : line_getState (line_reset l) = State.I;
  line_reset_info l : line_getReplacementInfo (line_reset l) = line_getReplacementInfo l;
  line_setAddr_index a l : line_getIndex (line_setAddr a l) = line_getIndex l;
  line_setAddr_addr a l : line_getAddr (line_setAddr a l) = a;
  line_setAddr_state a l : line_getState (line_setAddr a l) = line_getState l;
  line_setAddr_info a l : line_getReplacementInfo (line_setAddr a l) = line_getReplacementInfo l
}.

#[export] Instance L1CacheLine_laws : LineLaws L1CacheLine.t.
Proof. by split. Qed.
#[export] Instance SharedCacheLine_laws : LineLaws SharedCacheLine.t.
Proof. by split. Qed.
#[export] Instance PrivateCacheLine_laws : LineLaws PrivateCacheLine.t.
Proof. by split. Qed.
#[export] Instance DirectoryLine_laws : LineLaws DirectoryLine.t.
Proof. by split. Qed.

(** [log2Of] terminates and is the base-2 logarithm on positive [int]s. *)
Lemma log2Of_rec_Zlog2 fuel x r :
  0 < x < 2 ^ (Z.of_nat fuel + 1) -> log2Of_rec fuel x r = Ok (r + Z.log2 x).
Proof.
  revert x r. induction fuel as [|n IH]; intros x r Hx.
  - assert (x = 1) as -> by (simpl in Hx; lia). simpl. f_equal. lia.
  - cbn [log2Of_rec]. pose proof (Z.log2_shiftr x 1 ltac:(lia)) as Hl.
    destruct (Z.eqb_spec (Z.shiftr x 1) 0) as [E|E].
    + apply Z.shiftr_eq_0_iff in E. pose proof (Z.log2_nonneg x). f_equal. lia.
    + assert (0 < Z.shiftr x 1) as Hpos.
      { pose proof (Z.shiftr_nonneg x 1) as [_ Hn]. specialize (Hn ltac:(lia)). lia. }
      rewrite IH.
      * f_equal. rewrite Hl. destruct (Z.eq_dec (Z.log2 x) 0) as [E0|]; [|pose proof (Z.log2_nonneg x); lia].
        exfalso. apply E. apply Z.shiftr_eq_0; lia.
      * split; [done|]. rewrite Nat2Z.inj_succ in Hx.
        rewrite Z.shiftr_div_pow2 by lia. apply Z.div_lt_upper_bound; [lia|].
        rewrite <- Z.pow_add_r by lia. replace (1 + (Z.of_nat n + 1)) with (Z.succ (Z.of_nat n) + 1) by lia.
        lia.
Qed.

Lemma int32_of_small x : 0 <= x < 2 ^ 31 -> int32_of x = x.
Proof.
  intros. unfold int32_of. rewrite u32_small by lia.
  destruct (Z.ltb_spec x (2 ^ 31)); lia.
Qed.

Lemma log2Of_Zlog2 x : 0 < x < 2 ^ 31 -> log2Of x = Ok (Z.log2 x).
Proof.
  intros. unfold log2Of. rewrite int32_of_small by lia.
  rewrite log2Of_rec_Zlog2; [f_equal; lia|]. simpl. lia.
Qed.

(** ** Well-formed arrays *)

Section array_facts.
Context {T P : Type} {HT : LineType T} {HLL : LineLaws T}.
Context {HP : ReplacementPolicy P} {hash_ : HashFunction}.
Context (hash_total : forall id x, exists h, hash id x = Ok h).
Abbreviation arr := (CacheArray T P).

Record array_geometry (c : arr) : Prop := {
  ag_sets : 0 < numSets_ c;
  ag_assoc : 0 < associativity_ c;
  ag_lines : numSets_ c * associativity_ c = numLines_ c;
  ag_int : numLines_ c < 2 ^ 31;
  ag_slice : sliceSize_ c <> 0 /\ sliceStep_ c <> 0;
  ag_length : length (lines_ c) = Z.to_nat (numLines_ c);
  ag_index : forall i l, lines_ c !! i = Some l ->
    line_getIndex l = Z.of_nat i /\ ri_index (line_getReplacementInfo l) = Z.of_nat i
}.

Lemma set_of_total c addr :
  array_geometry c -> exists k, set_of c addr = Ok k /\ 0 <= k < numSets_ c.
Proof.
  intros [Hs Ha Hl Hi [? ?] _ _]. unfold set_of, toLineAddr.
  rewrite !udiv_nonzero, !umod_nonzero by done. cbn [mbind res_bind].
  destruct (hash_total 0 (u64 (u64 (Z.shiftr addr (lineOffset_ c) / sliceStep_ c
    * sliceSize_ c) + Z.shiftr addr (lineOffset_ c) mod sliceSize_ c))) as [h ->].
  cbn [mbind res_bind]. rewrite umod_nonzero by lia. cbn [mbind res_bind].
  pose proof (Z.mod_pos_bound h (numSets_ c) Hs).
  eexists. split; [done|]. rewrite int32_of_small; nia.
Qed.

Lemma setBegin_of_eq c k :
  array_geometry c -> 0 <= k < numSets_ c ->
  setBegin_of c k = k * associativity_ c /\
  int32_of (setBegin_of c k + associativity_ c) = (k + 1) * associativity_ c.
Proof.
  intros [? ? ? ? _ _ _] Hk. unfold setBegin_of.
  rewrite (int32_of_small (k * _)) by nia. split; [done|]. rewrite int32_of_small; nia.
Qed.

(** The first way in [i, i+n) holding [addr]. *)
Definition first_holder (lines : list T) (addr : Z) (lo hi : Z) (o : option nat) : Prop :=
  match o with
  | Some j => lo <= Z.of_nat j < hi /\
      (exists l, lines !! j = Some l /\ line_getAddr l = addr) /\
      (forall j' l, lo <= Z.of_nat j' < Z.of_nat j -> lines !! j' = Some l -> line_getAddr l <> addr)
  | None => forall j' l, lo <= Z.of_nat j' < hi -> lines !! j' = Some l -> line_getAddr l <> addr
  end.

Lemma first_holder_inj lines addr lo hi o1 o2 :
  first_holder lines addr lo hi o1 -> first_holder lines addr lo hi o2 -> o1 = o2.
Proof.
  assert (forall j1 j2, first_holder lines addr lo hi (Some j1) ->
    first_holder lines addr lo hi (Some j2) -> (j1 <= j2)%nat) as Hle.
  { intros j1 j2 (? & _ & Hn) (? & (l & ? & ?) & _).
    destruct (Nat.le_gt_cases j1 j2); [done|]. exfalso. apply (Hn j2 l); [lia|done..]. }
  destruct o1 as [j1|], o2 as [j2|]; intros H1 H2; [|..|done].
  - f_equal. pose proof (Hle _ _ H1 H2). pose proof (Hle _ _ H2 H1). lia.
  - destruct H1 as (? & (l & ? & ?) & _). exfalso. by apply (H2 j1 l).
  - destruct H2 as (? & (l & ? & ?) & _). exfalso. by apply (H1 j2 l).
Qed.

Lemma find_way_first lines addr i n :
  0 <= i -> i + Z.of_nat n <= Z.of_nat (length lines) ->
  exists o, find_way lines addr i n = Ok o /\ first_holder lines addr i (i + Z.of_nat n) o.
Proof.
  revert i. induction n as [|n IH]; intros i Hi Hn.
  - exists None. split; [done|]. intros j' l ?. lia.
  - cbn [find_way]. destruct (at_index_in_range lines i) as [l Hl]; [lia|].
    rewrite Hl. cbn [mbind res_bind]. apply at_index_Ok in Hl as [_ Hl].
    destruct (Z.eqb_spec (line_getAddr l) addr) as [E|E].
    + eexists. split; [done|]. split; [lia|]. split; [eauto|]. intros j' l' ?. lia.
    + destruct (IH (i + 1)) as (o & -> & Ho); [lia|lia|]. exists o. split; [done|].
      assert (forall j' l', i <= Z.of_nat j' < i + 1 -> lines !! j' = Some l' ->
        line_getAddr l' <> addr) as Hi'.
      { intros j' l' ? Hl'. replace j' with (Z.to_nat i) in Hl' by lia. congruence. }
      destruct o as [j|]; simpl in *.
      * destruct Ho as (? & ? & Hn'). split; [lia|]. split; [done|].
        intros j' l' ? Hl'. destruct (Z.lt_ge_cases (Z.of_nat j') (i + 1)).
        -- apply (Hi' j'); [lia|done].
        -- apply (Hn' j'); [lia|done].
      * intros j' l' ? Hl'. destruct (Z.lt_ge_cases (Z.of_nat j') (i + 1)).
        -- apply (Hi' j'); [lia|done].
        -- apply (Ho j'); [lia|done].
Qed.

(** [lookup_index] finds the first holder among the ways of the set. *)
Lemma lookup_index_spec c addr :
  array_geometry c ->
  exists k o, set_of c addr = Ok k /\ 0 <= k < numSets_ c /\ lookup_index c addr = Ok o /\
    first_holder (lines_ c) addr (k * associativity_ c) ((k + 1) * associativity_ c) o.
Proof.
  intros Hg. destruct (set_of_total c addr Hg) as (k & Ek & Hk).
  destruct (setBegin_of_eq c k Hg Hk) as [E1 E2]. pose proof Hg as [? ? ? ? _ Hl _].
  unfold lookup_index. rewrite Ek. cbn [mbind res_bind]. rewrite E2, E1.
  destruct (find_way_first (lines_ c) addr (k * associativity_ c)
    (Z.to_nat ((k + 1) * associativity_ c - k * associativity_ c))) as (o & Eo & Ho); [nia|nia|].
  exists k, o. rewrite Eo. split_and!; [done|lia|lia|done|].
  by replace (k * associativity_ c + Z.of_nat (Z.to_nat ((k + 1) * associativity_ c
    - k * associativity_ c))) with ((k + 1) * associativity_ c) in Ho by nia.
Qed.

Lemma lookup_index_iff c addr k o :
  array_geometry c -> set_of c addr = Ok k ->
  lookup_index c addr = Ok o <->
  first_holder (lines_ c) addr (k * associativity_ c) ((k + 1) * associativity_ c) o.
Proof.
  intros Hg Hk. destruct (lookup_index_spec c addr Hg) as (k' & o' & Ek & _ & Eo & Ho).
  assert (k' = k) as -> by congruence. rewrite Eo. split.
  - intros [= <-]. done.
  - intros Ho'. f_equal. by eapply first_holder_inj.
Qed.

(** The information objects of a set are those of its ways. *)
Lemma rInfo_way_set c k :
  array_geometry c -> 0 <= k < numSets_ c ->
  way_set (numLines_ c) (associativity_ c) (rInfo c k).
Proof.
  intros [? ? ? ? _ Hl Hi] Hk. exists k. split; [lia|]. split; [nia|].
  unfold rInfo. apply list_eq. intros j. rewrite !list_lookup_fmap.
  destruct (decide (Z.of_nat j < associativity_ c)) as [Hj|Hj].
  - rewrite lookup_seqZ_lt by lia. rewrite lookup_take_lt by lia. rewrite lookup_drop.
    destruct (lookup_lt_is_Some_2 (lines_ c) (Z.to_nat (k * associativity_ c) + j)%nat)
      as [l El]; [nia|].
    rewrite El. simpl. f_equal. destruct (Hi _ _ El) as [_ ->]. nia.
  - rewrite lookup_seqZ_ge by lia. rewrite lookup_take_ge by lia. done.
Qed.
End array_facts.

(** ** Allocation *)

(** A policy whose bookkeeping cannot fail on a line of the cache; LFU's can (its
    access count wraps to zero after [2^64] accesses and is then a divisor). *)
Class TotalPolicy (P : Type) `{RL : ReplacementLaws P lines ways} := {
  rp_update_total id s :
    rp_inv s -> 0 <= id < lines -> exists s', rp_update id s = Ok (tt, s');
  rp_replaced_total id s :
    rp_inv s -> 0 <= id < lines -> exists s', rp_replaced id s = Ok (tt, s')
}.

Section total_policies.
Context (lines assoc : Z) (Hassoc : 0 < assoc) (Hlines : lines <= 2 ^ 32).

Ltac set_total :=
  intros id s Hi ?; cbn -[set_index] in *;
  rewrite set_index_in_range by (rewrite Hi; lia); cbn; eauto.

#[export] Instance LRU_total : TotalPolicy LRU.t (RL := LRU_laws lines assoc Hassoc Hlines).
Proof. split; [unfold rp_update, LRU.policy, LRU.update | unfold rp_replaced, LRU.policy, LRU.replaced]; set_total. Qed.
#[export] Instance LRUOpt_total : TotalPolicy LRUOpt.t (RL := LRUOpt_laws lines assoc Hassoc Hlines).
Proof. split; [unfold rp_update, LRUOpt.policy, LRUOpt.update | unfold rp_replaced, LRUOpt.policy, LRUOpt.replaced]; set_total. Qed.
#[export] Instance MRU_total : TotalPolicy MRU.t (RL := MRU_laws lines assoc Hassoc Hlines).
Proof. split; [unfold rp_update, MRU.policy, MRU.update | unfold rp_replaced, MRU.policy, MRU.replaced]; set_total. Qed.
#[export] Instance MRUOpt_total : TotalPolicy MRUOpt.t (RL := MRUOpt_laws lines assoc Hassoc Hlines).
Proof. split; [unfold rp_update, MRUOpt.policy, MRUOpt.update | unfold rp_replaced, MRUOpt.policy, MRUOpt.replaced]; set_total. Qed.
End total_policies.

Section allocation.
Context {T P : Type} {HT : LineType T} {HLL : LineLaws T} {hash_ : HashFunction}.
Context (hash_total : forall id x, exists h, hash id x = Ok h).
Context (lines assoc : Z) `{TP : TotalPolicy P (lines := lines) (ways := assoc)}.
Abbreviation arr := (CacheArray T P).

(** Well-formed: the geometry, the policy's invariant, lines the policy
    understands, and every valid line the one a lookup of its address finds. *)
Record array_wf (c : arr) : Prop := {
  aw_geometry : array_geometry c;
  aw_lines : numLines_ c = lines;
  aw_assoc : associativity_ c = assoc;
  aw_policy : rp_inv (replacementMgr_ c);
  aw_compat : forall l, l ∈ lines_ c -> rp_checkCompatibility (line_getReplacementInfo l) = true;
  aw_placed : forall i l, lines_ c !! i = Some l -> line_getState l <> State.I ->
    lookup_index c (line_getAddr l) = Ok (Some i)
}.

Lemma first_holder_insert_other (ls : list T) a lo hi o i l' :
  line_getAddr l' <> a -> o <> Some i ->
  first_holder ls a lo hi o -> first_holder (<[i := l']> ls) a lo hi o.
Proof.
  intros Ha Ho.
  assert (forall j l, <[i := l']> ls !! j = Some l -> line_getAddr l = a ->
    j <> i /\ ls !! j = Some l) as Hins.
  { intros j l Hj El. destruct (decide (j = i)) as [->|Hne].
    - apply list_lookup_insert_Some in Hj as [(_ & -> & _)|[? ?]]; [done|done].
    - by rewrite list_lookup_insert_ne in Hj. }
  destruct o as [j|]; simpl.
  - intros (? & (l & Hl & El) & Hn). split; [done|]. split.
    + exists l. split; [|done]. rewrite list_lookup_insert_ne by congruence. done.
    + intros j' l1 ? Hl1 El1. apply (Hins _ _ Hl1) in El1 as E. destruct E. by eapply Hn.
  - intros Hn j' l1 ? Hl1 El1. apply (Hins _ _ Hl1) in El1 as E. destruct E. by eapply Hn.
Qed.

Lemma first_holder_insert_new (ls : list T) a lo hi i l' :
  line_getAddr l' = a -> lo <= Z.of_nat i < hi -> (i < length ls)%nat ->
  first_holder ls a lo hi None -> first_holder (<[i := l']> ls) a lo hi (Some i).
Proof.
  intros Ha Hi Hlt Hn. split; [done|]. split.
  - exists l'. by rewrite list_lookup_insert_eq by done.
  - intros j l ? Hl. rewrite list_lookup_insert_ne in Hl by lia. apply (Hn j l); [lia|done].
Qed.

Lemma candidate_eq c addr k infos id m l :
  set_of c addr = Ok k -> rInfo c k = infos ->
  rp_findBestCandidate infos (replacementMgr_ c) = Ok (id, m) ->
  at_index (lines_ c) (u32 id) = Ok l ->
  findReplacementCandidate addr c = Ok (Z.to_nat (u32 id), c <| replacementMgr_ := m |>).
Proof.
  intros Hk Hi Hf Hl. unfold findReplacementCandidate, mbind, M_bind, getsR, gets, on_policy, zoom.
  rewrite Hk, Hi, Hf. cbn [lines_ update]. by rewrite Hl.
Qed.

(** The candidate of a miss: a way of the set of [addr], an invalid one if
    there is one; the array itself is untouched. *)
Lemma candidate_spec c addr k :
  array_wf c -> set_of c addr = Ok k ->
  exists i m l, findReplacementCandidate addr c = Ok (i, c <| replacementMgr_ := m |>) /\
    rp_inv m /\ lines_ c !! i = Some l /\
    k * associativity_ c <= Z.of_nat i < (k + 1) * associativity_ c /\
    ((exists j lj, lines_ c !! j = Some lj /\
        k * associativity_ c <= Z.of_nat j < (k + 1) * associativity_ c /\
        ri_state (line_getReplacementInfo lj) = State.I) ->
     ri_state (line_getReplacementInfo l) = State.I).
Proof.
  intros [Hg Hl Ha Hp Hc _] Ek.
  destruct (set_of_total hash_total c addr Hg) as (k' & Ek' & Hk').
  assert (k' = k) as -> by congruence.
  assert (way_set lines assoc (rInfo c k)) as Hw by (rewrite <- Hl, <- Ha; by apply rInfo_way_set).
  assert (forall r, r ∈ rInfo c k -> exists j lj, lines_ c !! j = Some lj /\
    r = line_getReplacementInfo lj /\ ri_index r = Z.of_nat j /\
    k * associativity_ c <= Z.of_nat j < (k + 1) * associativity_ c) as Hin.
  { intros r Hr. pose proof Hw as (k2 & Hk2 & _ & Hseq).
    apply list_elem_of_lookup in Hr as [j Hj]. unfold rInfo in Hj.
    rewrite list_lookup_fmap in Hj.
    destruct (decide (Z.of_nat j < associativity_ c)) as [Hja|Hja];
      [|rewrite lookup_take_ge in Hj by lia; done].
    rewrite lookup_take_lt in Hj by lia. rewrite lookup_drop in Hj.
    destruct (lines_ c !! _) as [lj|] eqn:El; [|done]. injection Hj as <-.
    pose proof (ag_index _ Hg _ _ El) as [_ Ei]. pose proof (ag_assoc _ Hg).
    eexists _, lj. split; [exact El|]. split; [done|]. split; [done|]. nia. }
  destruct (rp_find (rInfo c k) (replacementMgr_ c) Hp Hw) as (i & m & Ef & Hm & Hr & Hinv).
  { intros r Hr. destruct (Hin r Hr) as (j & lj & El & -> & _).
    apply Hc. by eapply list_elem_of_lookup_2. }
  destruct Hr as (r & Hr & Er). destruct (Hin r Hr) as (j & lj & El & Erl & Ei & Hj).
  assert (Z.to_nat (u32 i) = j) as Eij by lia.
  exists j, m, lj. split_and!; [|done..|lia|lia|].
  - rewrite <- Eij. eapply candidate_eq; [done|done|exact Ef|].
    replace (u32 i) with (Z.of_nat j) by lia. by apply at_index_nat.
  - intros (j' & lj' & El' & Hj' & Es).
    destruct (first_invalid_complete (rInfo c k) (line_getReplacementInfo lj')) as [i' Hi'];
      [|done|].
    { unfold rInfo. apply list_elem_of_fmap_2, list_elem_of_lookup.
      pose proof (ag_assoc _ Hg).
      exists (j' - Z.to_nat (k * associativity_ c))%nat.
      rewrite lookup_take_lt by lia. rewrite lookup_drop.
      by replace (Z.to_nat (k * associativity_ c) + (j' - Z.to_nat (k * associativity_ c)))%nat
        with j' by lia. }
    pose proof (Hinv _ Hi') as Ei'.
    apply first_invalid_in in Hi' as (r' & Hr' & Er' & Es').
    destruct (Hin r' Hr') as (j2 & lj2 & El2 & -> & Ei2 & _).
    assert (j2 = j) as -> by lia. congruence.
Qed.

Definition filled (c : arr) (i : nat) (l' : T) (m : P) : arr :=
  c <| replacementMgr_ := m |> <| lines_ := <[i := l']> (lines_ c) |>.

Lemma replace_eq c addr i l m m1 m2 :
  lines_ c !! i = Some l -> replacementMgr_ c = m ->
  rp_replaced (line_getIndex l) m = Ok (tt, m1) -> rp_update (line_getIndex l) m1 = Ok (tt, m2) ->
  replace addr i c = Ok (tt, filled c i (line_setAddr addr (line_reset l)) m2).
Proof.
  intros Hl Hm H1 H2. unfold replace, get_line, set_line, mbind, M_bind, getsR, on_policy, zoom, modify.
  rewrite Hl. cbn [of_option]. rewrite Hm, H1. cbn [replacementMgr_ update]. by rewrite H2.
Qed.

(** Rewriting line [i] to a line of the same index and information object keeps
    the geometry. *)
Lemma geometry_write c i l l' m :
  array_geometry c -> lines_ c !! i = Some l ->
  line_getIndex l' = line_getIndex l ->
  line_getReplacementInfo l' = line_getReplacementInfo l ->
  array_geometry (filled c i l' m).
Proof.
  intros [] Hl Hi Hinfo. constructor; cbn; auto; [by rewrite length_insert|].
  intros j lj. intros [(<- & <- & _)|[_ ?]]%list_lookup_insert_Some; [|auto].
  rewrite Hi, Hinfo. auto.
Qed.

(** What follows a miss on [addr]: the candidate is chosen and filled. *)
Definition allocate (addr : Z) : M arr nat :=
  i ← findReplacementCandidate addr; replace addr i ;; mret i.

(** Allocation on a miss, for every line type, hash function and (total)
    replacement policy: it succeeds, keeps the array well-formed, and
    afterwards the address is found in the way that was replaced; that way lost
    its old address (and nothing else changed): every other address is found
    exactly where it was, unless it was the one evicted. The evicted line is
    an invalid way of the set whenever the set has one. *)
Theorem allocate_correct c addr k :
  array_wf c -> lookup_index c addr = Ok None -> set_of c addr = Ok k ->
  exists i c' l, allocate addr c = Ok (i, c') /\ array_wf c' /\
    lines_ c !! i = Some l /\
    lines_ c' = <[i := line_setAddr addr (line_reset l)]> (lines_ c) /\
    lookup_index c' addr = Ok (Some i) /\
    (forall a, a <> addr -> lookup_index c a <> Ok (Some i) ->
      lookup_index c' a = lookup_index c a) /\
    (ri_state (line_getReplacementInfo l) <> State.I ->
      forall j lj, lines_ c !! j = Some lj ->
        k * associativity_ c <= Z.of_nat j < (k + 1) * associativity_ c ->
        ri_state (line_getReplacementInfo lj) <> State.I).
Proof.
  intros Hwf Hmiss Ek. pose proof Hwf as [Hg Hl Ha Hp Hc Hpl].
  destruct (candidate_spec c addr k Hwf Ek) as (i & m & l & Ef & Hm & El & Hi & Hinv).
  pose proof (ag_index _ Hg _ _ El) as [Ei _].
  assert (0 <= line_getIndex l < lines) as Hil.
  { rewrite Ei. apply lookup_lt_Some in El. rewrite (ag_length _ Hg) in El. lia. }
  destruct (rp_replaced_total _ m Hm Hil) as [m1 E1].
  pose proof (rp_inv_replaced _ _ _ Hm E1) as Hm1.
  destruct (rp_update_total _ m1 Hm1 Hil) as [m2 E2].
  pose proof (rp_inv_update _ _ _ Hm1 E2) as Hm2.
  set (l' := line_setAddr addr (line_reset l)).
  assert (line_getAddr l' = addr) as Ea by apply line_setAddr_addr.
  set (c' := filled c i l' m2).
  assert (array_geometry c') as Hg'.
  { by apply geometry_write with l; [done..|unfold l'; rewrite ?line_setAddr_index, ?line_setAddr_info,
      ?line_reset_index, ?line_reset_info|unfold l'; rewrite line_setAddr_info, line_reset_info]. }
  assert (forall a, a <> addr -> lookup_index c a <> Ok (Some i) ->
    lookup_index c' a = lookup_index c a) as Hother.
  { intros a Hne Hnot. destruct (lookup_index_spec hash_total c a Hg) as (ka & o & Eka & _ & Eo & Ho).
    rewrite Eo. apply (lookup_index_iff hash_total c' a ka); [done..|].
    apply first_holder_insert_other; [congruence|congruence|done]. }
  assert (lookup_index c' addr = Ok (Some i)) as Hnew.
  { apply (lookup_index_iff hash_total c' addr k); [done..|].
    apply first_holder_insert_new; [done..|by eapply lookup_lt_Some|].
    by apply (lookup_index_iff hash_total c addr k). }
  exists i, c', l. split_and!; [|constructor; try done|done..|].
  - unfold allocate. rewrite (bind_step _ _ _ _ _ Ef).
    erewrite bind_step; [|by eapply replace_eq]. done.
  - intros lj [j Hj]%list_elem_of_lookup.
    apply list_lookup_insert_Some in Hj as [(_ & <- & _)|[_ ?]];
      [|by eapply Hc, list_elem_of_lookup_2].
    unfold l'. rewrite line_setAddr_info, line_reset_info. apply Hc. by eapply list_elem_of_lookup_2.
  - intros j lj Hj Hv. apply list_lookup_insert_Some in Hj as [(<- & <- & _)|[Hne Hj]].
    + by rewrite Ea.
    + pose proof (Hpl _ _ Hj Hv) as Ej. rewrite Hother; [done| |congruence].
      intros E. congruence.
  - intros Hv j lj Elj Hj Es. apply Hv, Hinv. eauto.
Qed.

(** An array of freshly created lines is well-formed. *)
Lemma new_lines_wf (c : arr) size :
  0 < numSets_ c -> 0 < associativity_ c -> numSets_ c * associativity_ c = numLines_ c -> numLines_ c < 2 ^ 31 ->
  numLines_ c = lines -> associativity_ c = assoc -> rp_inv (replacementMgr_ c) ->
  (sliceSize_ c <> 0 /\ sliceStep_ c <> 0) ->
  lines_ c = (fun i => line_new size i) <$> seqZ 0 lines ->
  (forall i, rp_checkCompatibility (line_getReplacementInfo (line_new (T := T) size i)) = true) ->
  array_wf c.
Proof.
  intros Hs Ha Hl Hi El Ea Hm Hsl Els Hc.
  assert (forall i l, lines_ c !! i = Some l -> l = line_new size (Z.of_nat i)) as Hnew.
  { intros i l. rewrite Els. intros (x & -> & Hx)%list_lookup_fmap_Some.
    apply lookup_seqZ in Hx as [-> _]. f_equal. }
  split; [split|..]; try done.
  - rewrite Els, length_fmap, length_seqZ. by rewrite El.
  - intros i l ->%Hnew. by rewrite line_new_index, line_new_info.
  - intros l [i ->%Hnew]%list_elem_of_lookup. apply Hc.
  - intros i l ->%Hnew Hv. exfalso. apply Hv, line_new_state.
Qed.

(** The constructor succeeds exactly on parameters that make sense, and
    then the array is well-formed, empty, and of [lines / assoc] sets. *)
Theorem new_CacheArray_correct lineSize mgr :
  0 <= lines < 2 ^ 31 -> 0 <= assoc -> 0 < lineSize < 2 ^ 31 -> rp_inv mgr ->
  (forall i, rp_checkCompatibility (line_getReplacementInfo (line_new (T := T) lineSize i)) = true) ->
  (forall c : arr, new_CacheArray lines assoc lineSize mgr = Ok c ->
     array_wf c /\ numSets_ c = lines / assoc /\ lineOffset_ c = Z.log2 lineSize /\
     forall l, l ∈ lines_ c -> line_getState l = State.I) /\
  ((exists c : arr, new_CacheArray lines assoc lineSize mgr = Ok c) <->
   0 < lines /\ 0 < assoc /\ (assoc | lines)).
Proof.
  intros Hl Ha Hs Hm Hc. unfold new_CacheArray. rewrite log2Of_Zlog2 by done.
  destruct (Z.eqb_spec lines 0); [split; [done|]; split; [by intros [??]|lia]|].
  destruct (Z.eqb_spec assoc 0); [split; [done|]; split; [by intros [??]|lia]|].
  pose proof (Z.div_mod lines assoc ltac:(lia)) as Hdm.
  pose proof (Z.mod_pos_bound lines assoc ltac:(lia)) as Hb.
  pose proof (Z.div_pos lines assoc ltac:(lia) ltac:(lia)).
  destruct (Z.eqb_spec (lines / assoc) 0) as [E0|E0].
  { split; [done|]. split; [by intros [??]|]. intros (? & ? & [q ->]).
    rewrite Z.div_mul in E0 by lia. lia. }
  rewrite u32_small by nia. destruct (Z.eqb_spec (lines / assoc * assoc) lines) as [E|E].
  2: { split; [done|]. split; [by intros [??]|]. intros (? & ? & [q ->]).
    rewrite Z.div_mul in E by lia. done. }
  assert (forallb rp_checkCompatibility (take 1 (line_getReplacementInfo <$>
    ((fun i => line_new (T := T) lineSize i) <$> seqZ 0 lines))) = true) as Hcomp.
  { rewrite seqZ_cons by lia. simpl. by rewrite Hc. }
  cbn [negb mbind res_bind]. rewrite Hcomp. split.
  - intros c [= <-]. split_and!; [|done..|].
    + apply new_lines_wf with lineSize; cbn; [lia|lia|lia|lia|done..].
    + intros l (i & -> & _)%list_elem_of_fmap. apply line_new_state.
  - split; [|intros; eauto]. intros _. split_and!; [lia|lia|]. exists (lines / assoc). lia.
Qed.
End allocation.

(** ** Concrete arrays: four 64-byte lines, two ways, LRU, no hash *)

Definition demo_array : res (CacheArray L1CacheLine.t LRU.t) :=
  new_CacheArray 4 2 64 (LRU.init 4 2).

Definition demo_laws : ReplacementLaws LRU.t 4 2 := LRU_laws 4 2 ltac:(lia) ltac:(lia).
Definition demo_total : TotalPolicy LRU.t (RL := demo_laws) := LRU_total 4 2 ltac:(lia) ltac:(lia).

Lemma nohash_total id x : exists h, hash (HashFunction := NoHashFunction.hash) id x = Ok h.
Proof. unfold hash, NoHashFunction.hash. eauto. Qed.

Lemma new_CacheArray_correct_witness :
  exists c : CacheArray L1CacheLine.t LRU.t,
    new_CacheArray 4 2 64 (LRU.init 4 2) = Ok c /\ numSets_ c = 2.
Proof.
  destruct (new_CacheArray_correct (T := L1CacheLine.t) (P := LRU.t)
    (hash_ := NoHashFunction.hash) 4 2 (TP := demo_total) 64 (LRU.init 4 2))
    as [Hok [_ Hex]]; [lia|lia|lia|done|done|].
  destruct Hex as [c Hc]; [split_and!; [lia|lia|by exists 2]|].
  exists c. split; [done|]. by destruct (Hok c Hc) as (_ & -> & _).
Defined.

(** In the fresh array, address 0 is already "found" (every line starts with
    address 0); 64 is a miss and takes way 2, the first of set 1. *)
Lemma allocate_correct_witness :
  exists c i c', demo_array = Ok c /\
    lookup_index (hash_ := NoHashFunction.hash) c 64 = Ok None /\
    allocate (hash_ := NoHashFunction.hash) 64 c = Ok (i, c') /\ i = 2%nat /\
    lookup_index (hash_ := NoHashFunction.hash) c' 64 = Ok (Some 2%nat).
Proof.
  destruct demo_array as [c|] eqn:E; [|vm_compute in E; done].
  assert (array_wf (hash_ := NoHashFunction.hash) 4 2 (RL := demo_laws) c) as Hwf.
  { destruct (new_CacheArray_correct (T := L1CacheLine.t) (P := LRU.t)
      (hash_ := NoHashFunction.hash) 4 2 (TP := demo_total) 64 (LRU.init 4 2))
      as [Hok _]; [lia|lia|lia|done|done|]. by destruct (Hok c E). }
  assert (lookup_index (hash_ := NoHashFunction.hash) c 64 = Ok None) as Hmiss.
  { clear Hwf. vm_compute in E. injection E as <-. done. }
  destruct (allocate_correct (hash_ := NoHashFunction.hash) nohash_total 4 2 (TP := demo_total)
    c 64 1 Hwf Hmiss) as (i & c' & l & Ha & _ & _ & _ & Hi & _ & _).
  { clear Hwf Hmiss. vm_compute in E. injection E as <-. done. }
  assert (i = 2%nat) as ->.
  { clear -E Ha. vm_compute in E. injection E as <-. vm_compute in Ha. by injection Ha. }
  eauto 10.
Defined.
