(* ===== verification/MemEvent.v ===== *)
(** * MemEvent: the messages of the memory hierarchy

    Models [memEventBase.h] and [memEvent.h]: the fields of an event, its flags,
    the constructors, and the ways a response or a NACK is made from a request.
    Events are mutable objects that components pass by pointer; the objects
    themselves live in the event heap of [Coherence], and a pointer is a key of
    that heap. *)

From S2P Require Import Prelude MemTypes.

(** [SST::Event::id_type] and a pointer to an event. *)
Abbreviation id_type := (Z * Z)%type.
Abbreviation EventPtr := N.

(** What the simulator core supplies: the identifier meaning "none", and the
    n-th identifier [generateUniqueId] hands out on this rank. *)
Class SSTCore := {
  NO_ID : id_type;
  generateUniqueId : N -> id_type
}.

Definition NONE : string := "None".

Record MemEvent := mkMemEvent {
  eventID_ : id_type;
  responseToID_ : id_type;
  src_ : string;
  dst_ : string;
  rqstr_ : string;
  tid_ : Z;
  cmd_ : Command.t;
  flags_ : Z;
  memFlags_ : Z;
  size_ : Z;
  addr_ : Z;
  baseAddr_ : Z;
  addrGlobal_ : bool;
  NACKedEvent_ : option EventPtr;
  retries_ : Z;
  payload_ : list Z;
  prefetch_ : bool;
  dirty_ : bool;
  isEvict_ : bool;
  instPtr_ : Z;
  vAddr_ : Z
}.
#[export] Instance MemEvent_eta : Eta MemEvent := fun e =>
  mkMemEvent (eventID_ e) (responseToID_ e) (src_ e) (dst_ e) (rqstr_ e) (tid_ e) (cmd_ e)
    (flags_ e) (memFlags_ e) (size_ e) (addr_ e) (baseAddr_ e) (addrGlobal_ e) (NACKedEvent_ e)
    (retries_ e) (payload_ e) (prefetch_ e) (dirty_ e) (isEvict_ e) (instPtr_ e) (vAddr_ e).

(** ** Flags *)

Definition F_LOCKED : Z := 0x00000001.
Definition F_NONCACHEABLE : Z := 0x00000010.
Definition F_LLSC : Z := 0x00000100.
Definition F_FAIL : Z := 0x00001000.
Definition F_NORESPONSE : Z := 0x00010000.

Definition setFlag (flag : Z) (e : MemEvent) : MemEvent := e <| flags_ ::= fun f => Z.lor f flag |>.
Definition clearFlag (flag : Z) (e : MemEvent) : MemEvent :=
  e <| flags_ ::= fun f => Z.land f (Z.lxor flag (2 ^ 32 - 1)) |>.
Definition queryFlag (flag : Z) (e : MemEvent) : bool := negb (Z.land (flags_ e) flag =? 0).

Definition setFail (e : MemEvent) : MemEvent := setFlag F_FAIL e.
Definition setSuccess (b : bool) (e : MemEvent) : MemEvent :=
  if b then clearFlag F_FAIL e else setFlag F_FAIL e.
Definition success (e : MemEvent) : bool := negb (queryFlag F_FAIL e).

Definition isLoadLink (e : MemEvent) : bool :=
  bool_decide (cmd_ e = Command.GetS) && queryFlag F_LLSC e.
Definition isStoreConditional (e : MemEvent) : bool :=
  (bool_decide (cmd_ e = Command.GetX) || bool_decide (cmd_ e = Command.Write)) && queryFlag F_LLSC e.

(** ** Construction *)

(** [MemEvent(src, addr, baseAddr, cmd)]: the base class defaults ([setDefaults])
    and [initialize]. The identifier comes from [generateUniqueId] of SST core. *)
Definition new_MemEvent {core : SSTCore} (id : id_type) (src : string) (addr baseAddr : Z) (cmd : Command.t)
    : MemEvent :=
  mkMemEvent id NO_ID src NONE NONE 0 cmd 0 0 0 addr baseAddr true None 0 [] false false false 0 0.

(** [setResponse(event)], called on a copy of [event]. *)
Definition setResponse (event me : MemEvent) : res MemEvent :=
  c ← CommandResponse (cmd_ me);
  Ok (me <| responseToID_ := eventID_ event |> <| cmd_ := c |>
         <| dst_ := src_ event |> <| src_ := dst_ event |>
         <| rqstr_ := rqstr_ event |> <| tid_ := tid_ event |>
         <| flags_ := flags_ event |> <| memFlags_ := memFlags_ event |>).

Definition makeResponse (e : MemEvent) : res MemEvent :=
  me ← setResponse e e;
  Ok (me <| prefetch_ := prefetch_ e |> <| instPtr_ := instPtr_ e |> <| vAddr_ := vAddr_ e |>).

Definition makeResponseCmd (cmd : Command.t) (e : MemEvent) : res MemEvent :=
  me ← makeResponse e; Ok (me <| cmd_ := cmd |>).

Definition makeNACKResponse (NACKedEvent : EventPtr) (e : MemEvent) : res MemEvent :=
  me ← setResponse e e;
  Ok (me <| NACKedEvent_ := Some NACKedEvent |> <| cmd_ := Command.NACK |>
         <| instPtr_ := instPtr_ e |> <| vAddr_ := vAddr_ e |>).

Definition copyMetadata (ev e : MemEvent) : MemEvent :=
  e <| rqstr_ := rqstr_ ev |> <| tid_ := tid_ ev |> <| flags_ := flags_ ev |>
    <| memFlags_ := memFlags_ ev |> <| vAddr_ := vAddr_ ev |> <| instPtr_ := instPtr_ ev |>.

(** ** Payload *)

Definition resize (n : Z) (l : list Z) : list Z :=
  take (Z.to_nat n) l ++ replicate (Z.to_nat n - length l) 0.

Definition setSize (size : Z) (e : MemEvent) : MemEvent := e <| size_ := u32 size |>.

(** [getPayload]: lazily allocated, so reading it can grow [payload_]. *)
Definition getPayload (e : MemEvent) : list Z * MemEvent :=
  let p := if Z.of_nat (length (payload_ e)) <? size_ e then resize (size_ e) (payload_ e)
           else payload_ e in
  (p, e <| payload_ := p |>).

Definition setPayload (data : list Z) (e : MemEvent) : MemEvent :=
  setSize (Z.of_nat (length data)) e <| payload_ := data |>.

Definition setZeroPayload (size : Z) (e : MemEvent) : MemEvent :=
  setSize size e <| payload_ := replicate (Z.to_nat size) 0 |>.

Definition getPayloadSize (e : MemEvent) : Z := Z.of_nat (length (payload_ e)).

(** [retries_++] on an [int]. *)
Definition incrementRetries (e : MemEvent) : res MemEvent :=
  if retries_ e =? 2 ^ 31 - 1 then Err (Undefined "signed overflow of retries_")
  else Ok (e <| retries_ ::= Z.succ |>).

(** ** Command classes *)

Definition isDataRequest (e : MemEvent) : res bool :=
  (fun c => bool_decide (c = CommandClass.Request)) <$> CommandClassArr (cmd_ e).
Definition isResponse (e : MemEvent) : res bool :=
  (fun c => bool_decide (c = BasicCommandClass.Response)) <$> BasicCommandClassArr (cmd_ e).
Definition isWriteback (e : MemEvent) : res bool := CommandWriteback (cmd_ e).
Definition isRoutedByAddress (e : MemEvent) : res bool := CommandRouteByAddress (cmd_ e).

Definition getRoutingAddress (e : MemEvent) : Z := baseAddr_ e.

(** The initialisation message that describes a coherence participant
    ([MemEventInitCoherence]). *)
Record MemEventInitCoherence := mkInitCoherence {
  ic_src : string;
  ic_type : Endpoint.t;
  ic_inclusive : bool;
  ic_sendWBAck : bool;
  ic_recvWBAck : bool;
  ic_lineSize : Z;
  ic_tracksPresence : bool
}.

(** [MemEventInit]: the untimed messages of the init phases. [in_coherence] is
    there when the object is a [MemEventInitCoherence] (its source is the
    message's). *)
Module InitCommand.
Inductive t := Region | Data | Coherence | Endpoint.
#[global] Instance eq_dec : EqDecision t.
Proof. solve_decision. Defined.
End InitCommand.

Record MemEventInit := mkMemEventInit {
  in_src : string;
  in_cmd : Command.t;
  in_initCmd : InitCommand.t;
  in_addr : Z;
  in_payload : list Z;
  in_coherence : option MemEventInitCoherence
}.
#[export] Instance MemEventInit_eta : Eta MemEventInit := fun e =>
  mkMemEventInit (in_src e) (in_cmd e) (in_initCmd e) (in_addr e) (in_payload e) (in_coherence e).

(** [static_cast<MemEventInitCoherence*>]: undefined on another object. *)
Definition as_coherence (e : MemEventInit) : res MemEventInitCoherence :=
  match in_coherence e with
  | Some ic => Ok (mkInitCoherence (in_src e) (ic_type ic) (ic_inclusive ic) (ic_sendWBAck ic)
                     (ic_recvWBAck ic) (ic_lineSize ic) (ic_tracksPresence ic))
  | None => Err (Undefined "bad static_cast")
  end.
Definition coherence_message (ic : MemEventInitCoherence) : MemEventInit :=
  mkMemEventInit (ic_src ic) Command.NULLCMD InitCommand.Coherence 0 [] (Some ic).

(** ** Facts *)

Lemma testbit_flag_land f k : 0 <= k -> (Z.land f (2 ^ k) =? 0) = negb (Z.testbit f k).
Proof.
  intros Hk. destruct (Z.testbit f k) eqn:E; simpl.
  - apply Z.eqb_neq. intros H. apply (f_equal (fun z => Z.testbit z k)) in H.
    rewrite Z.land_spec, E, Z.pow2_bits_true, Z.bits_0 in H by done. done.
  - apply Z.eqb_eq. apply Z.bits_inj'. intros n Hn. rewrite Z.land_spec, Z.bits_0.
    destruct (decide (n = k)) as [->|]; [by rewrite E|].
    by rewrite Z.pow2_bits_false, andb_false_r by lia.
Qed.

(** Every flag is one bit, so a query reads a bit and setting it writes one. *)
Lemma queryFlag_bit e k : 0 <= k -> queryFlag (2 ^ k) e = Z.testbit (flags_ e) k.
Proof. intros. unfold queryFlag. rewrite testbit_flag_land by done. by destruct (Z.testbit _ _). Qed.

Lemma queryFlag_setFlag e k j :
  0 <= k -> 0 <= j -> queryFlag (2 ^ j) (setFlag (2 ^ k) e) = bool_decide (j = k) || queryFlag (2 ^ j) e.
Proof.
  intros. rewrite !queryFlag_bit by done. cbn. rewrite Z.lor_spec.
  destruct (decide (j = k)) as [->|].
  - rewrite Z.pow2_bits_true, orb_true_r, bool_decide_true by done. done.
  - by rewrite Z.pow2_bits_false, orb_false_r, bool_decide_false by lia.
Qed.

Lemma queryFlag_clearFlag e k j :
  0 <= k < 32 -> 0 <= j < 32 ->
  queryFlag (2 ^ j) (clearFlag (2 ^ k) e) = negb (bool_decide (j = k)) && queryFlag (2 ^ j) e.
Proof.
  intros. rewrite !queryFlag_bit by lia. cbn. rewrite Z.land_spec, Z.lxor_spec.
  assert (Z.testbit (2 ^ 32 - 1) j = true) as Hone.
  { change (2 ^ 32 - 1) with (Z.ones 32). apply Z.ones_spec_low. lia. }
  rewrite Hone. destruct (decide (j = k)) as [->|].
  - by rewrite Z.pow2_bits_true, andb_false_r, bool_decide_true by lia.
  - rewrite Z.pow2_bits_false by lia. rewrite bool_decide_false by done. simpl. by rewrite andb_true_r.
Qed.

Lemma resize_length n l : 0 <= n -> length (resize n l) = Z.to_nat n.
Proof. intros. unfold resize. rewrite length_app, length_take, length_replicate. lia. Qed.

(** ** Responses *)

(** Responses answer their requests: every request of the command table but
    [NULLCMD] and [Evict] has a response command, of the response class, routed
    the opposite way (by address if the request was routed by destination, and
    conversely); the response made from an event names it, keeps its
    identifier, flags and payload, and goes back where the event came from. *)
Theorem response_answers_request e :
  cmd_ e <> Command.LAST_CMD ->
  exists r, makeResponse e = Ok r /\
    responseToID_ r = eventID_ e /\ eventID_ r = eventID_ e /\
    dst_ r = src_ e /\ src_ r = dst_ e /\ baseAddr_ r = baseAddr_ e /\
    payload_ r = payload_ e /\ (forall f, queryFlag f r = queryFlag f e) /\
    (BasicCommandClassArr (cmd_ e) = Ok BasicCommandClass.Request ->
     cmd_ e <> Command.NULLCMD -> cmd_ e <> Command.Evict ->
     isResponse r = Ok true /\ isRoutedByAddress r = negb <$> isRoutedByAddress e).
Proof.
  intros Hc. unfold makeResponse, setResponse.
  destruct (CommandResponse (cmd_ e)) as [c|] eqn:Ec; [|by destruct (cmd_ e)].
  eexists. split; [done|]. split_and!; try done.
  intros Hr Hn He. cbn. unfold isResponse, isRoutedByAddress. cbn.
  destruct (cmd_ e) eqn:E; try done; by injection Ec as <-.
Qed.

#[local] Instance demo_core : SSTCore := {| NO_ID := (0, -1); generateUniqueId n := (Z.of_N n, 0) |}.

Lemma response_answers_request_witness :
  exists r, makeResponse (new_MemEvent (7, 0) "cpu" 68 64 Command.GetS) = Ok r /\
    responseToID_ r = (7, 0) /\ cmd_ r = Command.GetSResp.
Proof.
  destruct (response_answers_request (new_MemEvent (7, 0) "cpu" 68 64 Command.GetS))
    as (r & Hr & Hid & _); [done|].
  exists r. split_and!; [done|done|]. clear Hid. vm_compute in Hr. by injection Hr as <-.
Defined.
