(* ===== verification/Mshr.v ===== *)
(** * Mshr: miss status handling registers

    Models [mshr.h] and [mshr.cc]. An address maps to a register: a list of
    entries (requests waiting for the address, evictions waiting for it to leave,
    writebacks waiting for an acknowledgement), acknowledgement and retry
    counters, and a data buffer. Events are pointers into the event heap, which
    the operations that read an event take as an argument; [now] is the value of
    [getCurrentSimCycle]. Debug output is not modelled. *)

From S2P Require Import Prelude MemTypes MemEvent.

Module MSHREntryType.
Inductive t := Event | Evict | Writeback.
#[global] Instance eq_dec : EqDecision t.
Proof. solve_decision. Defined.
End MSHREntryType.

Record MSHREntry := mkMSHREntry {
  type : MSHREntryType.t;
  evictPtrs : option (list Z);
  event : option EventPtr;
  time : Z;
  needEvict : bool;
  inProgress : bool;
  profiled : bool;
  downgrade : bool
}.
#[export] Instance MSHREntry_eta : Eta MSHREntry := fun e =>
  mkMSHREntry (type e) (evictPtrs e) (event e) (time e) (needEvict e) (inProgress e)
    (profiled e) (downgrade e).

(** The three constructors. *)
Definition event_entry (ev : EventPtr) (stallEvict : bool) (now : Z) : MSHREntry :=
  mkMSHREntry MSHREntryType.Event None (Some ev) now stallEvict false false false.
Definition writeback_entry (downgr : bool) (now : Z) : MSHREntry :=
  mkMSHREntry MSHREntryType.Writeback None None now false false false downgr.
Definition evict_entry (addr now : Z) : MSHREntry :=
  mkMSHREntry MSHREntryType.Evict (Some [addr]) None now false false false false.

(** [swapEvent]: the old event, or [nullptr] for an entry that holds none. *)
Definition swapEvent (newEvent : EventPtr) (now : Z) (e : MSHREntry) : option EventPtr * MSHREntry :=
  if decide (type e = MSHREntryType.Event)
  then (event e, e <| time := now |> <| event := Some newEvent |>)
  else (None, e).

Record MSHRRegister := mkMSHRRegister {
  entries : list MSHREntry;
  acksNeeded : Z;
  dataBuffer : list Z;
  dataDirty : bool;
  pendingRetries : Z
}.
#[export] Instance MSHRRegister_eta : Eta MSHRRegister := fun r =>
  mkMSHRRegister (entries r) (acksNeeded r) (dataBuffer r) (dataDirty r) (pendingRetries r).

Definition new_register (es : list MSHREntry) : MSHRRegister := mkMSHRRegister es 0 [] false 0.

Record MSHR := mkMSHR {
  mshr_ : gmap Z MSHRRegister;
  size_ : Z;
  maxSize_ : Z
}.
#[export] Instance MSHR_eta : Eta MSHR := fun m => mkMSHR (mshr_ m) (size_ m) (maxSize_ m).

Definition new_MSHR (maxSize : Z) : MSHR := mkMSHR ∅ 0 maxSize.

(** ** Access to registers *)

Definition getSize (m : MSHR) : Z := size_ m.
Definition getMaxSize (m : MSHR) : Z := maxSize_ m.
Definition entries_at (m : MSHR) (addr : Z) : list MSHREntry :=
  match mshr_ m !! addr with Some r => entries r | None => [] end.
Definition getSizeAt (m : MSHR) (addr : Z) : nat := length (entries_at m addr).
Definition exists_ (m : MSHR) (addr : Z) : bool := bool_decide (is_Some (mshr_ m !! addr)).

(** [mshr_.find(addr)->second], after the check that the address exists. *)
Definition reg_at (site : string) (addr : Z) : M MSHR MSHRRegister :=
  getsR (fun m => of_option (Fatal site) (mshr_ m !! addr)).
(** The same without the check: dereferencing [end()] is undefined. *)
Definition reg_deref (addr : Z) : M MSHR MSHRRegister :=
  getsR (fun m => of_option (Undefined "mshr_.end()->second") (mshr_ m !! addr)).
Definition put_reg (addr : Z) (r : MSHRRegister) : M MSHR unit :=
  modify (fun m => m <| mshr_ ::= <[addr := r]> |>).
Definition erase_reg (addr : Z) : M MSHR unit := modify (fun m => m <| mshr_ ::= delete addr |>).

Definition nth_entry (site : string) (r : MSHRRegister) (index : Z) : res MSHREntry :=
  if Z.of_nat (length (entries r)) <=? index then Err (Fatal site)
  else at_index (entries r) index.
Definition front_entry (site : string) (r : MSHRRegister) : res MSHREntry :=
  match entries r with [] => Err (Fatal site) | e :: _ => Ok e end.

Definition getEntry (addr index : Z) : M MSHR MSHREntry :=
  r ← reg_at "MSHR::getEntry" addr; getsR (fun _ => nth_entry "MSHR::getEntry" r index).
Definition getFront (addr : Z) : M MSHR MSHREntry :=
  r ← reg_at "MSHR::getFront" addr; getsR (fun _ => front_entry "MSHR::getFront" r).
Definition getEntryType (addr index : Z) : M MSHR MSHREntryType.t :=
  r ← reg_at "MSHR::getEntryType" addr;
  e ← getsR (fun _ => nth_entry "MSHR::getEntryType" r index); mret (type e).
Definition getFrontType (addr : Z) : M MSHR MSHREntryType.t :=
  r ← reg_at "MSHR::getFrontType" addr;
  e ← getsR (fun _ => front_entry "MSHR::getFrontType" r); mret (type e).

(** [nullptr] when the address, the position or an event there is missing. *)
Definition getEntryEvent (addr index : Z) : M MSHR (option EventPtr) :=
  gets (fun m => match mshr_ m !! addr with
                 | None => None
                 | Some r => match entries r !! Z.to_nat index with
                             | Some e => if decide (type e = MSHREntryType.Event) then event e else None
                             | None => None
                             end
                 end).

Definition getFrontEvent (addr : Z) : M MSHR (option EventPtr) :=
  t ← getFrontType addr;
  if decide (t = MSHREntryType.Event) then e ← getFront addr; mret (event e) else mret None.

(** [getFirstEventEntry]: reads the command of each queued event. *)
Fixpoint first_event_with (heap : gmap N MemEvent) (cmd : Command.t) (es : list MSHREntry)
    : res (option EventPtr) :=
  match es with
  | [] => Ok None
  | e :: es' =>
      if decide (type e = MSHREntryType.Event) then
        p ← of_option (Undefined "null event in MSHR") (event e);
        ev ← of_option (Undefined "use of a deleted event") (heap !! p);
        if decide (cmd_ ev = cmd) then Ok (Some p) else first_event_with heap cmd es'
      else first_event_with heap cmd es'
  end.
Definition getFirstEventEntry (heap : gmap N MemEvent) (addr : Z) (cmd : Command.t)
    : M MSHR (option EventPtr) :=
  getsR (fun m => first_event_with heap cmd (entries_at m addr)).

(** ** Removing *)

Definition dec_size (e : MSHREntry) : M MSHR unit :=
  when (bool_decide (type e = MSHREntryType.Event)) (modify (fun m => m <| size_ ::= Z.pred |>)).

(** Write back a shortened list; an empty one erases the register. *)
Definition put_entries (addr : Z) (r : MSHRRegister) (es : list MSHREntry) : M MSHR unit :=
  match es with
  | [] => erase_reg addr
  | _ => put_reg addr (r <| entries := es |>)
  end.

Definition removeEntry (addr index : Z) : M MSHR unit :=
  r ← reg_at "MSHR::removeEntry" addr;
  e ← getsR (fun _ => nth_entry "MSHR::removeEntry" r index);
  dec_size e ;; put_entries addr r (erase_at (Z.to_nat index) (entries r)).

Definition removeFront (addr : Z) : M MSHR unit :=
  r ← reg_at "MSHR::removeFront" addr;
  e ← getsR (fun _ => front_entry "MSHR::removeFront" r);
  dec_size e ;; put_entries addr r (tail (entries r)).

(** ** Eviction pointers *)

Definition getEvictPointers (addr : Z) : M MSHR (list Z) :=
  t ← getFrontType addr;
  if decide (t = MSHREntryType.Evict) then
    e ← getFront addr; getsR (fun _ => of_option (Undefined "null pointer list") (evictPtrs e))
  else fatal "MSHR::getEvictPointers".

(** [std::list::remove]: every copy goes. *)
Definition remove_ptr (x : Z) (e : MSHREntry) : MSHREntry :=
  e <| evictPtrs ::= fmap (filter (fun y => y <> x)) |>.
Definition no_ptrs (e : MSHREntry) : bool := bool_decide (evictPtrs e = Some []).

(** Whether the caller should retry the next event at [addr]. The list pointer of
    an entry that is not an eviction is null. *)
Definition removeEvictPointer (addr addrPtr : Z) : M MSHR bool :=
  t ← getFrontType addr;
  if decide (t = MSHREntryType.Event) then fatal "MSHR::removeEvictPointer"
  else
    r ← reg_deref addr;
    if decide (t = MSHREntryType.Evict) then
      e ← getsR (fun _ => front_entry "" r);
      let e' := remove_ptr addrPtr e in
      put_reg addr (r <| entries := e' :: tail (entries r) |>) ;;
      if no_ptrs e' then removeFront addr ;; mret true else mret false
    else
      e ← getsR (fun _ => of_option (Undefined "list end()") (entries r !! 1%nat));
      if decide (type e = MSHREntryType.Evict) then
        let e' := remove_ptr addrPtr e in
        put_reg addr (r <| entries ::= <[1%nat := e']> |>) ;;
        when (no_ptrs e') (removeEntry addr 1) ;; mret false
      else fatal "MSHR::removeEvictPointer".

Definition pendingWriteback (addr : Z) : M MSHR bool :=
  b ← gets (fun m => exists_ m addr);
  if b : bool then t ← getFrontType addr; mret (bool_decide (t = MSHREntryType.Writeback))
  else mret false.

Definition pendingWritebackIsDowngrade (addr : Z) : M MSHR bool :=
  b ← pendingWriteback addr;
  if b : bool then e ← getFront addr; mret (downgrade e) else mret false.

(** ** Inserting *)

(** The entry's position, or [-1] when there is no room; a request that is not
    forwarded from below may not take the last entry. [pos] is compared with an
    unsigned size. *)
Definition insertEvent (now addr : Z) (ev : EventPtr) (pos : Z) (fwdRequest stallEvict : bool)
    : M MSHR Z := fun m =>
  if (size_ m =? maxSize_ m) || (negb fwdRequest && (size_ m =? maxSize_ m - 1)) then Ok (-1, m)
  else
    let m := m <| size_ ::= Z.succ |> in
    let e := event_entry ev stallEvict now in
    match mshr_ m !! addr with
    | None => Ok (0, m <| mshr_ ::= <[addr := new_register [e]]> |>)
    | Some r =>
        let n := Z.of_nat (length (entries r)) in
        if (pos =? -1) || (n <? u64 pos) then
          Ok (n, m <| mshr_ ::= <[addr := r <| entries ::= fun es => es ++ [e] |>]> |>)
        else
          Ok (pos, m <| mshr_ ::= <[addr := r <| entries ::= insert_before (Z.to_nat pos) e |>]> |>)
    end.

Definition insertWriteback (now addr : Z) (downgr : bool) : M MSHR bool :=
  o ← gets (fun m => mshr_ m !! addr);
  let e := writeback_entry downgr now in
  put_reg addr (match o with
                | None => new_register [e]
                | Some r => r <| entries ::= cons e |>
                end) ;;
  mret true.

Definition push_pointer (newAddr : Z) (e : MSHREntry) : MSHREntry :=
  e <| evictPtrs ::= fmap (fun ps => ps ++ [newAddr]) |>.

(** An eviction joins the last entry when that is an eviction too. *)
Definition add_eviction (now newAddr : Z) (es : list MSHREntry) : list MSHREntry :=
  match last es with
  | Some e => if decide (type e = MSHREntryType.Evict)
              then removelast es ++ [push_pointer newAddr e]
              else es ++ [evict_entry newAddr now]
  | None => [evict_entry newAddr now]
  end.

Definition insertEviction (now oldAddr newAddr : Z) : M MSHR bool :=
  o ← gets (fun m => mshr_ m !! oldAddr);
  put_reg oldAddr (match o with
                   | None => new_register [evict_entry newAddr now]
                   | Some r => r <| entries ::= add_eviction now newAddr |>
                   end) ;;
  mret true.

(** ** Rearranging *)

Definition swapFrontEvent (now addr : Z) (ev : EventPtr) : M MSHR (option EventPtr) :=
  r ← reg_deref addr;
  match entries r with
  | [] => mret None
  | e :: es => let '(old, e') := swapEvent ev now e in
               put_reg addr (r <| entries := e' :: es |>) ;; mret old
  end.

Definition moveEntryToFront (addr index : Z) : M MSHR unit :=
  r ← reg_at "MSHR::moveEntryToFront" addr;
  e ← getsR (fun _ => nth_entry "MSHR::moveEntryToFront" r index);
  put_reg addr (r <| entries := e :: erase_at (Z.to_nat index) (entries r) |>).

(** ** Entry and register fields *)

Definition addPendingRetry (addr : Z) : M MSHR unit :=
  r ← reg_at "MSHR::addPendingRetry" addr;
  put_reg addr (r <| pendingRetries ::= fun n => u32 (n + 1) |>).
Definition removePendingRetry (addr : Z) : M MSHR unit :=
  r ← reg_at "MSHR::removePendingRetry" addr;
  put_reg addr (r <| pendingRetries ::= fun n => u32 (n - 1) |>).
Definition getPendingRetries (addr : Z) : M MSHR Z :=
  gets (fun m => match mshr_ m !! addr with Some r => pendingRetries r | None => 0 end).

Definition set_front (site : string) (f : MSHREntry -> MSHREntry) (addr : Z) : M MSHR unit :=
  r ← reg_at site addr;
  match entries r with
  | [] => fatal site
  | e :: es => put_reg addr (r <| entries := f e :: es |>)
  end.
Definition get_front (default : bool) (f : MSHREntry -> bool) (addr : Z) : M MSHR bool :=
  gets (fun m => match entries_at m addr with [] => default | e :: _ => f e end).

Definition setInProgress (addr : Z) (value : bool) : M MSHR unit :=
  set_front "MSHR::setInProgress" (fun e => e <| inProgress := value |>) addr.
Definition getInProgress (addr : Z) : M MSHR bool := get_front false inProgress addr.
Definition setStalledForEvict (addr : Z) (set : bool) : M MSHR unit :=
  set_front "MSHR::setStalledForEvict" (fun e => e <| needEvict := set |>) addr.
Definition getStalledForEvict (addr : Z) : M MSHR bool := get_front false needEvict addr.
Definition setProfiled (addr : Z) : M MSHR unit :=
  set_front "MSHR::setProfiled" (fun e => e <| profiled := true |>) addr.
Definition getProfiled (addr : Z) : M MSHR bool :=
  r ← reg_at "MSHR::getProfiled" addr;
  e ← getsR (fun _ => front_entry "MSHR::getProfiled" r); mret (profiled e).

(** The position of the first queued event with the identifier. *)
Fixpoint find_event_id (heap : gmap N MemEvent) (id : id_type) (es : list MSHREntry)
    : res (option nat) :=
  match es with
  | [] => Ok None
  | e :: es' =>
      if decide (type e = MSHREntryType.Event) then
        p ← of_option (Undefined "null event in MSHR") (event e);
        ev ← of_option (Undefined "use of a deleted event") (heap !! p);
        if decide (eventID_ ev = id) then Ok (Some 0%nat) else (o ← find_event_id heap id es'; Ok (option_map S o))
      else (o ← find_event_id heap id es'; Ok (option_map S o))
  end.

Definition getProfiledId (heap : gmap N MemEvent) (addr : Z) (id : id_type) : M MSHR bool :=
  r ← reg_at "MSHR::getProfiled" addr;
  _ ← getsR (fun _ => front_entry "MSHR::getProfiled" r);
  o ← getsR (fun _ => find_event_id heap id (entries r));
  mret (match o ≫= fun i => entries r !! i with Some e => profiled e | None => true end).

Definition setProfiledId (heap : gmap N MemEvent) (addr : Z) (id : id_type) : M MSHR unit :=
  r ← reg_at "MSHR::setProfiled" addr;
  _ ← getsR (fun _ => front_entry "MSHR::setProfiled" r);
  o ← getsR (fun _ => find_event_id heap id (entries r));
  match o with
  | Some i => put_reg addr (r <| entries ::= alter (fun e => e <| profiled := true |>) i |>)
  | None => skip
  end.

(** [getOldestEntry] walks the map in address order. The flag [first] is never
    set, so every event entry replaces the one found before. *)
Definition addr_le : relation (Z * MSHRRegister) := fun x y => x.1 <= y.1.
#[export] Instance addr_le_dec x y : Decision (addr_le x y) := decide (x.1 <= y.1).
Definition registers_in_order (m : MSHR) : list (Z * MSHRRegister) :=
  merge_sort addr_le (map_to_list (mshr_ m)).
Definition all_entries (m : MSHR) : list MSHREntry :=
  mjoin ((fun x => entries x.2) <$> registers_in_order m).
Fixpoint oldest_loop (first : bool) (entry : option MSHREntry) (es : list MSHREntry)
    : option MSHREntry :=
  match es with
  | [] => entry
  | e :: es' =>
      if decide (type e = MSHREntryType.Event) then
        if negb first then oldest_loop first (Some e) es'
        else match entry with
             | Some e0 => if time e <? time e0 then oldest_loop first (Some e) es'
                          else oldest_loop first entry es'
             | None => oldest_loop first entry es'
             end
      else oldest_loop first entry es'
  end.
Definition getOldestEntry (m : MSHR) : option MSHREntry := oldest_loop false None (all_entries m).

(** ** Acknowledgements and the data buffer *)

Definition incrementAcksNeeded (addr : Z) : M MSHR unit :=
  o ← gets (fun m => mshr_ m !! addr);
  let r := match o with Some r => r | None => new_register [] end in
  put_reg addr (r <| acksNeeded ::= fun n => u32 (n + 1) |>).

(** Whether the last acknowledgement has arrived. *)
Definition decrementAcksNeeded (addr : Z) : M MSHR bool :=
  r ← reg_at "MSHR::decrementAcksNeeded" addr;
  if acksNeeded r =? 0 then fatal "MSHR::decrementAcksNeeded"
  else
    let r' := r <| acksNeeded ::= Z.pred |> in
    put_reg addr r' ;; mret (acksNeeded r' =? 0).

Definition getAcksNeeded (addr : Z) : M MSHR Z :=
  gets (fun m => match mshr_ m !! addr with Some r => acksNeeded r | None => 0 end).

Definition setData (addr : Z) (data : list Z) (dirty : bool) : M MSHR unit :=
  r ← reg_at "MSHR::setData" addr;
  put_reg addr (r <| dataBuffer := data |> <| dataDirty := dirty |>).
(** The one access to the buffer that does not check the address first. *)
Definition clearData (addr : Z) : M MSHR unit :=
  r ← reg_deref addr; put_reg addr (r <| dataBuffer := [] |> <| dataDirty := false |>).
Definition getData (addr : Z) : M MSHR (list Z) :=
  r ← reg_at "MSHR::getData" addr; mret (dataBuffer r).
Definition hasData (addr : Z) : M MSHR bool :=
  gets (fun m => match mshr_ m !! addr with
                 | Some r => negb (bool_decide (dataBuffer r = []))
                 | None => false
                 end).
Definition getDataDirty (addr : Z) : M MSHR bool :=
  r ← reg_at "MSHR::getDataDirty" addr; mret (dataDirty r).
Definition setDataDirty (addr : Z) (dirty : bool) : M MSHR unit :=
  r ← reg_at "MSHR::setDataDirty" addr; put_reg addr (r <| dataDirty := dirty |>).

(** ** Well-formed MSHRs *)

Definition is_event (e : MSHREntry) : Prop := type e = MSHREntryType.Event.
#[export] Instance is_event_dec e : Decision (is_event e) := decide (type e = MSHREntryType.Event).
Definition count_events (es : list MSHREntry) : Z := Z.of_nat (length (filter is_event es)).
Definition total_events (m : gmap Z MSHRRegister) : Z :=
  map_fold (fun _ r n => count_events (entries r) + n) 0 m.

(** An entry has exactly the fields its type calls for. *)
Definition entry_ok (e : MSHREntry) : Prop :=
  match type e with
  | MSHREntryType.Event => (exists p, event e = Some p) /\ evictPtrs e = None
  | MSHREntryType.Evict => event e = None /\ exists ps, evictPtrs e = Some ps
  | MSHREntryType.Writeback => event e = None /\ evictPtrs e = None
  end.

Definition register_ok (r : MSHRRegister) : Prop := entries r <> [] /\ Forall entry_ok (entries r).

(** The same, save for the addresses [lone], whose registers may be without entries. *)
Definition register_ok_at (lone : gset Z) (addr : Z) (r : MSHRRegister) : Prop :=
  (addr ∉ lone -> entries r <> []) /\ Forall entry_ok (entries r).

Record mshr_wf (m : MSHR) : Prop := {
  mw_size : size_ m = total_events (mshr_ m);
  mw_max : 0 <= maxSize_ m -> size_ m <= maxSize_ m;
  mw_regs : map_Forall (fun _ => register_ok) (mshr_ m)
}.
Record mshr_wf_but (lone : gset Z) (m : MSHR) : Prop := {
  mb_size : size_ m = total_events (mshr_ m);
  mb_max : 0 <= maxSize_ m -> size_ m <= maxSize_ m;
  mb_regs : map_Forall (register_ok_at lone) (mshr_ m)
}.
Lemma mshr_wf_none m : mshr_wf_but ∅ m <-> mshr_wf m.
Proof.
  split; intros [Hs Hm Hr]; (split; [done|done|]); intros addr r H; destruct (Hr addr r H) as [Hne Hok]; (split; [|done]); [|done].
  apply Hne. set_solver.
Qed.
Lemma mshr_wf_more lone lone' m : lone ⊆ lone' -> mshr_wf_but lone m -> mshr_wf_but lone' m.
Proof. intros Hl [Hs Hm Hr]. split; [done|done|]. intros addr r H. destruct (Hr addr r H) as [Hne Hok]. split; [|done]. set_solver. Qed.

Lemma count_events_app l k : count_events (l ++ k) = count_events l + count_events k.
Proof. unfold count_events. rewrite filter_app, length_app. lia. Qed.

Lemma count_events_cons e l :
  count_events (e :: l) = (if decide (is_event e) then 1 else 0) + count_events l.
Proof.
  unfold count_events. rewrite filter_cons. destruct (decide (is_event e)); simpl; lia.
Qed.

Lemma count_events_skip e l : type e <> MSHREntryType.Event -> count_events (e :: l) = count_events l.
Proof. intros H. rewrite count_events_cons. by rewrite decide_False by done. Qed.

Lemma count_events_perm l k : l ≡ₚ k -> count_events l = count_events k.
Proof. intros H. unfold count_events. by rewrite H. Qed.

Lemma count_events_nonneg l : 0 <= count_events l.
Proof. unfold count_events. lia. Qed.

Lemma total_events_insert_fresh m addr r :
  m !! addr = None -> total_events (<[addr := r]> m) = count_events (entries r) + total_events m.
Proof.
  intros H. unfold total_events. rewrite map_fold_insert_L; [done|intros; lia|done].
Qed.

Lemma total_events_delete m addr r :
  m !! addr = Some r -> total_events m = count_events (entries r) + total_events (delete addr m).
Proof.
  intros H. rewrite <- (insert_delete_id m addr r H) at 1.
  apply total_events_insert_fresh. apply lookup_delete_eq.
Qed.

Lemma total_events_insert m addr r :
  total_events (<[addr := r]> m) =
  count_events (entries r)
  + (total_events m - match m !! addr with Some r0 => count_events (entries r0) | None => 0 end).
Proof.
  destruct (m !! addr) as [r0|] eqn:E.
  - rewrite (total_events_delete m addr r0 E), <- insert_delete_eq.
    rewrite total_events_insert_fresh by apply lookup_delete_eq. lia.
  - rewrite total_events_insert_fresh by done. lia.
Qed.

Lemma total_events_nonneg m : 0 <= total_events m.
Proof.
  unfold total_events. apply (map_fold_weak_ind (fun n _ => 0 <= n)); [lia|].
  intros i r m' n _ ?. pose proof (count_events_nonneg (entries r)). lia.
Qed.

Lemma new_MSHR_wf_but lone maxSize : mshr_wf_but lone (new_MSHR maxSize).
Proof. split; cbn; [by unfold total_events; rewrite map_fold_empty|done|apply map_Forall_empty]. Qed.

Section wf_ways.
Context (lone : gset Z).

(** The two ways an operation leaves the map: a register written back, with the
    size changed by the change in its events, or a register erased. *)
Lemma wf_put m addr r size :
  mshr_wf_but lone m -> register_ok_at lone addr r ->
  size = size_ m + count_events (entries r)
         - match mshr_ m !! addr with Some r0 => count_events (entries r0) | None => 0 end ->
  (0 <= maxSize_ m -> size <= maxSize_ m) -> mshr_wf_but lone (mkMSHR (<[addr := r]> (mshr_ m)) size (maxSize_ m)).
Proof.
  intros [Hs Hm Hr] Hok -> Hle. split; cbn; [|done|by apply map_Forall_insert_2].
  rewrite total_events_insert. lia.
Qed.

Lemma wf_erase m addr r size :
  mshr_wf_but lone m -> mshr_ m !! addr = Some r -> size = size_ m - count_events (entries r) ->
  mshr_wf_but lone (mkMSHR (delete addr (mshr_ m)) size (maxSize_ m)).
Proof.
  intros [Hs Hm Hr] Hl ->. pose proof (count_events_nonneg (entries r)).
  split; cbn; [|lia|by apply map_Forall_delete].
  rewrite (total_events_delete _ _ _ Hl) in Hs. lia.
Qed.

Lemma wf_register m addr r : mshr_wf_but lone m -> mshr_ m !! addr = Some r -> register_ok_at lone addr r.
Proof. intros [_ _ H] Hl. by apply (H addr). Qed.
End wf_ways.

(** Running the register accesses. *)
Lemma reg_at_Ok site addr m r m' :
  reg_at site addr m = Ok (r, m') <-> mshr_ m !! addr = Some r /\ m' = m.
Proof.
  unfold reg_at. rewrite getsR_Ok. unfold of_option. destruct (mshr_ m !! addr); naive_solver.
Qed.

Lemma reg_deref_Ok addr m r m' :
  reg_deref addr m = Ok (r, m') <-> mshr_ m !! addr = Some r /\ m' = m.
Proof.
  unfold reg_deref. rewrite getsR_Ok. unfold of_option. destruct (mshr_ m !! addr); naive_solver.
Qed.

Lemma front_entry_Ok site r e : front_entry site r = Ok e <-> exists es, entries r = e :: es.
Proof. unfold front_entry. destruct (entries r); naive_solver. Qed.

Lemma nth_entry_Ok site r i e :
  nth_entry site r i = Ok e <-> 0 <= i /\ entries r !! Z.to_nat i = Some e.
Proof.
  unfold nth_entry. destruct (Z.leb_spec (Z.of_nat (length (entries r))) i) as [Hle|Hlt].
  - split; [done|]. intros [? H%lookup_lt_Some]. lia.
  - apply at_index_Ok.
Qed.

Ltac mshr_inv :=
  inv_bind;
  repeat match goal with
    | H : reg_at _ _ _ = Ok _ |- _ => apply reg_at_Ok in H as [? ->]
    | H : reg_deref _ _ = Ok _ |- _ => apply reg_deref_Ok in H as [? ->]
    | H : getsR _ _ = Ok _ |- _ => apply getsR_Ok in H as [? ->]
    | H : front_entry _ _ = Ok _ |- _ => apply front_entry_Ok in H as [? ?]
    | H : nth_entry _ _ _ = Ok _ |- _ => apply nth_entry_Ok in H as [? ?]
    end.

Section wf_preservation.
Context (lone : gset Z).
#[local] Abbreviation wf_put := (wf_put lone).
#[local] Abbreviation wf_erase := (wf_erase lone).
#[local] Abbreviation wf_register := (wf_register lone).
Implicit Types (m : MSHR) (r : MSHRRegister) (es : list MSHREntry).

(** Most operations rewrite one register without changing its events. *)
Lemma wf_edit m addr r r' :
  mshr_wf_but lone m -> mshr_ m !! addr = Some r ->
  (register_ok_at lone addr r -> register_ok_at lone addr r' /\ count_events (entries r') = count_events (entries r)) ->
  mshr_wf_but lone (m <| mshr_ ::= <[addr := r']> |>).
Proof.
  intros Hwf Hr Hedit. pose proof (wf_register _ _ _ Hwf Hr) as Hok.
  destruct (Hedit Hok) as [Hok' Hc]. pose proof Hwf as [Hs Hm _].
  apply (wf_put m addr r' (size_ m)); [done|done| |done]. rewrite Hr. lia.
Qed.

(** A register of which one entry is taken out. *)
Lemma wf_remove m addr r e es :
  mshr_wf_but lone m -> mshr_ m !! addr = Some r -> e :: es ≡ₚ entries r ->
  forall m', (dec_size e ;; put_entries addr r es) m = Ok (tt, m') -> mshr_wf_but lone m'.
Proof.
  intros Hwf Hr Hp m' H. pose proof (wf_register _ _ _ Hwf Hr) as [Hne Hok].
  pose proof Hwf as [Hs Hm _].
  assert (count_events (entries r) = (if decide (is_event e) then 1 else 0) + count_events es) as Hc
    by (by rewrite <- count_events_cons; apply count_events_perm).
  rewrite <- Hp in Hok. apply Forall_cons in Hok as [_ Hok].
  unfold dec_size, when in H.
  assert (exists k, k = (if decide (is_event e) then 1 else 0) /\
    put_entries addr r es (m <| size_ ::= fun z => z - k |>) = Ok (tt, m')) as (k & Hk & H').
  { destruct (decide (is_event e)) as [Hd|Hd]; eexists; (split; [done|]).
    - rewrite bool_decide_true in H by done.
      unfold modify in H. unfold mbind, M_bind in H. rewrite <- H. f_equal.
    - rewrite bool_decide_false in H by done.
      unfold skip, mret, M_ret, mbind, M_bind in H. rewrite <- H. f_equal.
      destruct m as [mm sz mx]. unfold update. f_equal. cbn. by rewrite Z.sub_0_r. }
  clear H. destruct es as [|e' es']; unfold put_entries, erase_reg, put_reg, modify in H';
    injection H' as <-.
  - apply (wf_erase m addr r); [done|done|]. rewrite Hc. unfold count_events at 1. simpl. lia.
  - apply (wf_put m addr (r <| entries := e' :: es' |>)); [done| | |].
    + split; [done|]. exact Hok.
    + cbn [entries update]. rewrite Hr, Hc, <- Hk. cbn. lia.
    + assert (0 <= k) by (rewrite Hk; destruct (decide (is_event e)); lia). cbn. lia.
Qed.

Lemma erase_at_nat_perm i es e : es !! i = Some e -> e :: erase_at i es ≡ₚ es.
Proof. apply erase_at_perm. Qed.

Abbreviation keeps := (steps (fun m m' => mshr_wf_but lone m -> mshr_wf_but lone m')).

Lemma removeEntry_wf addr i : keeps (removeEntry addr i).
Proof.
  intros m [] m' H Hwf. unfold removeEntry in H. mshr_inv.
  eapply wf_remove; [done|done| |]; [by eapply erase_at_nat_perm|].
  apply bind_Ok. eauto.
Qed.

Lemma removeFront_wf addr : keeps (removeFront addr).
Proof.
  intros m [] m' H Hwf. unfold removeFront in H. mshr_inv.
  eapply wf_remove; [done|done| |apply bind_Ok; eauto].
  match goal with E : entries _ = _ |- _ => by rewrite E end.
Qed.

Lemma count_events_singleton_new e : is_event e -> count_events [e] = 1.
Proof. intros. rewrite count_events_cons, decide_True by done. done. Qed.

Lemma insertEvent_wf now addr ev pos fwd stall : keeps (insertEvent now addr ev pos fwd stall).
Proof.
  intros m a m' H Hwf. unfold insertEvent in H.
  destruct ((size_ m =? maxSize_ m) || _) eqn:Hfull; [by injection H as _ <-|].
  apply orb_false_iff in Hfull as [Hfull%Z.eqb_neq _]. pose proof Hwf as [Hs Hm _].
  set (e := event_entry ev stall now) in *.
  assert (count_events [e] = 1) as He by (by apply count_events_singleton_new).
  assert (entry_ok e) as Hok by (cbn; eauto).
  assert (forall r', register_ok_at lone addr r' ->
    count_events (entries r') = 1 + match mshr_ m !! addr with
      Some r0 => count_events (entries r0) | None => 0 end ->
    mshr_wf_but lone (mkMSHR (<[addr := r']> (mshr_ m)) (Z.succ (size_ m)) (maxSize_ m))) as Hput.
  { intros r' Hr' Hc. apply wf_put; [done..| |lia]. rewrite Hc. lia. }
  cbn [mshr_ update] in H. destruct (mshr_ m !! addr) as [r|] eqn:Hr.
  - pose proof (wf_register _ _ _ Hwf Hr) as [Hne Hoks].
    destruct ((pos =? -1) || _); injection H as _ <-; apply Hput.
    + split; cbn; [by destruct (entries r)|]. apply Forall_app_2; [done|by apply Forall_singleton].
    + cbn. rewrite count_events_app. lia.
    + split; cbn; [intros _ E; apply (f_equal length) in E;
        unfold insert_before in E; rewrite length_app in E; simpl in E; lia|].
      by rewrite insert_before_perm, Forall_cons.
    + cbn. rewrite (count_events_perm _ _ (insert_before_perm _ _ _)).
      change (e :: entries r) with ([e] ++ entries r). rewrite count_events_app. lia.
  - injection H as _ <-. apply Hput; [|cbn; lia].
    split; cbn; [done|by apply Forall_singleton].
Qed.

Lemma wf_put_same m addr r :
  mshr_wf_but lone m -> register_ok_at lone addr r ->
  count_events (entries r)
    = match mshr_ m !! addr with Some r0 => count_events (entries r0) | None => 0 end ->
  mshr_wf_but lone (m <| mshr_ ::= <[addr := r]> |>).
Proof.
  intros Hwf Hr Hc. pose proof Hwf as [_ Hm _].
  apply (wf_put m addr r (size_ m)); [done|done|lia|done].
Qed.

Lemma insertWriteback_wf now addr d : keeps (insertWriteback now addr d).
Proof.
  intros m a m' H Hwf. unfold insertWriteback, put_reg in H. mshr_inv.
  apply wf_put_same; [done|..].
  - destruct (mshr_ _ !! addr) as [r|] eqn:Hr; split; cbn; try done.
    + apply Forall_cons. split; [done|]. by destruct (wf_register _ _ _ Hwf Hr).
    + by apply Forall_singleton.
  - by destruct (mshr_ _ !! addr) as [r|]; cbn; rewrite count_events_cons, decide_False.
Qed.

Lemma add_eviction_ok now a es :
  Forall entry_ok es ->
  add_eviction now a es <> [] /\ Forall entry_ok (add_eviction now a es) /\
  count_events (add_eviction now a es) = count_events es.
Proof.
  intros Hok. unfold add_eviction. destruct (last es) as [e|] eqn:Hl.
  - apply last_Some in Hl as [l ->]. rewrite removelast_last.
    apply Forall_app in Hok as [Hl He]. apply Forall_cons in He as [He _].
    case_decide as Ht.
    + split_and!; [by destruct l| |].
      * apply Forall_app_2; [done|]. apply Forall_singleton. unfold entry_ok in He |- *. rewrite Ht in He. simpl in He.
        destruct He as (? & ps & Hps). cbn. rewrite Ht, Hps. cbn. eauto.
      * rewrite !count_events_app, !count_events_skip by (cbn; congruence). done.
    + split_and!; [by destruct l| |].
      * apply Forall_app_2; [by apply Forall_app_2; [|apply Forall_singleton]|].
        apply Forall_singleton. cbn. eauto.
      * rewrite !count_events_app, (count_events_skip (evict_entry _ _)) by done. change (count_events []) with 0. lia.
  - apply last_None in Hl as ->. split_and!; [done| |done]. apply Forall_singleton. cbn. eauto.
Qed.

Lemma insertEviction_wf now o a : keeps (insertEviction now o a).
Proof.
  intros m b m' H Hwf. unfold insertEviction, put_reg in H. mshr_inv.
  apply wf_put_same; [done|..]; destruct (mshr_ _ !! o) as [r|] eqn:Hr; cbn; try done.
  - destruct (wf_register _ _ _ Hwf Hr) as [_ Hok].
    by destruct (add_eviction_ok now a (entries r) Hok) as (? & ? & _).
  - split; [done|]. apply Forall_singleton. cbn. eauto.
  - destruct (wf_register _ _ _ Hwf Hr) as [_ Hok].
    by destruct (add_eviction_ok now a (entries r) Hok) as (_ & _ & ?).
Qed.

(** Writing one entry of a register in place. *)
Lemma wf_entry m addr r i e e' :
  mshr_wf_but lone m -> mshr_ m !! addr = Some r -> entries r !! i = Some e ->
  type e' = type e -> (entry_ok e -> entry_ok e') ->
  mshr_wf_but lone (m <| mshr_ ::= <[addr := r <| entries ::= <[i := e']> |>]> |>).
Proof.
  intros Hwf Hr He Ht Hok. eapply wf_edit; [done..|]. intros [Hne Hall].
  split; [split|]; cbn.
  - intros Hin E. apply (f_equal length) in E. rewrite length_insert in E. apply Hne in Hin. by destruct (entries r).
  - apply Forall_insert; [done|]. apply Hok. by eapply Forall_lookup_1.
  - assert (i < length (entries r))%nat by (by eapply lookup_lt_Some).
    rewrite insert_take_drop by done. rewrite (erase_at_split _ _ _ He) at 3.
    rewrite !count_events_app, !count_events_cons. f_equal. f_equal.
    destruct (decide (is_event e')), (decide (is_event e)); unfold is_event in *; congruence.
Qed.

Lemma remove_ptr_ok x e : entry_ok e -> entry_ok (remove_ptr x e).
Proof.
  unfold entry_ok, remove_ptr. cbn. destruct (type e).
  - by intros [? ->].
  - intros (? & ps & ->). cbn. eauto.
  - by intros [? ->].
Qed.

Lemma getFrontType_keeps addr m t m' : getFrontType addr m = Ok (t, m') ->
  m' = m /\ exists r e es, mshr_ m !! addr = Some r /\ entries r = e :: es /\ type e = t.
Proof. unfold getFrontType. intros H. mshr_inv. eauto 10. Qed.

Lemma front_insert_eq r e e' es f :
  entries r = e :: es -> f (entries r) = e' :: es ->
  r <| entries := e' :: es |> = r <| entries ::= <[0%nat := e']> |>.
Proof. intros E _. unfold update. cbn. by rewrite E. Qed.

(** Rewriting the front entry in place. *)
Lemma wf_front m addr r e es e' :
  mshr_wf_but lone m -> mshr_ m !! addr = Some r -> entries r = e :: es ->
  type e' = type e -> (entry_ok e -> entry_ok e') ->
  mshr_wf_but lone (m <| mshr_ ::= <[addr := r <| entries := e' :: es |>]> |>).
Proof.
  intros Hwf Hr He Ht Hok. rewrite (front_insert_eq r e e' es (fun _ => e' :: es)) by done.
  by eapply wf_entry with (e := e); [done|done|rewrite He|..].
Qed.

Lemma removeEvictPointer_wf addr x : keeps (removeEvictPointer addr x).
Proof.
  intros m b m' H Hwf. unfold removeEvictPointer in H.
  apply bind_Ok in H as (t & m0 & Ht & H).
  apply getFrontType_keeps in Ht as (-> & r & e & es & Hr & He & Ht).
  case_decide as Hev; [mshr_inv|]. apply bind_Ok in H as (r' & m1 & Hd & H).
  apply reg_deref_Ok in Hd as [Hr' ->]. assert (r' = r) as -> by congruence.
  case_decide as Hevict.
  - apply bind_Ok in H as (e0 & m1 & He0 & H). apply getsR_Ok in He0 as [He0 ->].
    apply front_entry_Ok in He0 as [es0 He0]. assert (e0 = e /\ es0 = es) as [-> ->] by (split; congruence).
    apply bind_Ok in H as ([] & m1 & Hp & H). unfold put_reg, modify in Hp. injection Hp as <-.
    rewrite He in H. simpl tail in H.
    assert (mshr_wf_but lone (m <| mshr_ ::= <[addr := r <| entries := remove_ptr x e :: es |>]> |>)) as Hwf1
      by (eapply wf_front; [done|done|done|done|apply remove_ptr_ok]).
    destruct (no_ptrs _).
    + apply bind_Ok in H as ([] & m2 & Hrm & H). apply ret_Ok in H as [_ <-].
      by eapply removeFront_wf.
    + by apply ret_Ok in H as [_ <-].
  - apply bind_Ok in H as (e0 & m1 & He0 & H). apply getsR_Ok in He0 as [He0 ->].
    unfold of_option in He0. destruct (entries r !! 1%nat) as [e1|] eqn:He1; [|done].
    injection He0 as ->. case_decide as Ht1; [|mshr_inv].
    apply bind_Ok in H as ([] & m1 & Hp & H). unfold put_reg, modify in Hp. injection Hp as <-.
    assert (mshr_wf_but lone (m <| mshr_ ::= <[addr := r <| entries ::= <[1%nat := remove_ptr x e0]> |>]> |>))
      as Hwf1 by (eapply wf_entry; [done|done|done|done|apply remove_ptr_ok]).
    apply bind_Ok in H as ([] & m2 & Hrm & H). apply ret_Ok in H as [_ <-].
    unfold when in Hrm. destruct (no_ptrs _); [by eapply removeEntry_wf|].
    by injection Hrm as <-.
Qed.

Lemma set_front_wf site f addr :
  (forall e, type (f e) = type e) -> (forall e, entry_ok e -> entry_ok (f e)) ->
  keeps (set_front site f addr).
Proof.
  intros Ht Hok m [] m' H Hwf. unfold set_front in H. mshr_inv.
  destruct (entries _) as [|e es] eqn:He; [mshr_inv|].
  unfold put_reg, modify in Hk. injection Hk as <-. eapply wf_front; eauto.
Qed.

Lemma swapFrontEvent_wf now addr ev : keeps (swapFrontEvent now addr ev).
Proof.
  intros m a m' H Hwf. unfold swapFrontEvent in H. mshr_inv.
  destruct (entries _) as [|e es] eqn:He; [by apply ret_Ok in Hk as [_ <-]|].
  unfold swapEvent in Hk. case_decide as Ht; mshr_inv.
  - unfold put_reg, modify in Hm. injection Hm as _ <-. eapply wf_front; [done..|].
    unfold entry_ok. cbn. rewrite Ht. intros [_ ?]. eauto.
  - unfold put_reg, modify in Hm. injection Hm as _ <-. by eapply wf_front.
Qed.

Lemma moveEntryToFront_wf addr i : keeps (moveEntryToFront addr i).
Proof.
  intros m [] m' H Hwf. unfold moveEntryToFront in H.
  apply bind_Ok in H as (r & m1 & Hr & H). apply reg_at_Ok in Hr as [Hr ->].
  apply bind_Ok in H as (e & m1 & He & H). apply getsR_Ok in He as [He ->].
  apply nth_entry_Ok in He as [_ He]. unfold put_reg, modify in H. injection H as <-.
  eapply wf_edit; [done..|].
  pose proof (erase_at_perm _ _ _ He) as Hp. intros [_ Hok]. split; [split|]; cbn; [done| |].
  - by rewrite Hp.
  - by apply count_events_perm.
Qed.

(** Operations that leave the entries alone. *)
Lemma put_fields_wf addr r f m m' :
  mshr_wf_but lone m -> mshr_ m !! addr = Some r -> entries (f r) = entries r ->
  put_reg addr (f r) m = Ok (tt, m') -> mshr_wf_but lone m'.
Proof.
  intros Hwf Hr He H. unfold put_reg, modify in H. injection H as <-.
  eapply wf_edit; [done..|]. unfold register_ok_at. by rewrite He.
Qed.
End wf_preservation.

(** ** Everything a coherence manager does to an MSHR *)

Inductive mshr_op :=
| OInsertEvent (now addr : Z) (ev : EventPtr) (pos : Z) (fwd stall : bool)
| OInsertWriteback (now addr : Z) (downgr : bool)
| OInsertEviction (now old new : Z)
| ORemoveEntry (addr index : Z)
| ORemoveFront (addr : Z)
| ORemoveEvictPointer (addr ptr : Z)
| OSwapFrontEvent (now addr : Z) (ev : EventPtr)
| OMoveEntryToFront (addr index : Z)
| OAddPendingRetry (addr : Z)
| ORemovePendingRetry (addr : Z)
| OSetInProgress (addr : Z) (b : bool)
| OSetStalledForEvict (addr : Z) (b : bool)
| OSetProfiled (addr : Z)
| OIncrementAcks (addr : Z)
| ODecrementAcks (addr : Z)
| OSetData (addr : Z) (data : list Z) (dirty : bool)
| OClearData (addr : Z)
| OSetDataDirty (addr : Z) (dirty : bool).

Definition run_op (o : mshr_op) : M MSHR unit :=
  match o with
  | OInsertEvent now addr ev pos fwd stall => insertEvent now addr ev pos fwd stall ;; skip
  | OInsertWriteback now addr d => insertWriteback now addr d ;; skip
  | OInsertEviction now old new => insertEviction now old new ;; skip
  | ORemoveEntry addr i => removeEntry addr i
  | ORemoveFront addr => removeFront addr
  | ORemoveEvictPointer addr p => removeEvictPointer addr p ;; skip
  | OSwapFrontEvent now addr ev => swapFrontEvent now addr ev ;; skip
  | OMoveEntryToFront addr i => moveEntryToFront addr i
  | OAddPendingRetry addr => addPendingRetry addr
  | ORemovePendingRetry addr => removePendingRetry addr
  | OSetInProgress addr b => setInProgress addr b
  | OSetStalledForEvict addr b => setStalledForEvict addr b
  | OSetProfiled addr => setProfiled addr
  | OIncrementAcks addr => incrementAcksNeeded addr
  | ODecrementAcks addr => decrementAcksNeeded addr ;; skip
  | OSetData addr d dirty => setData addr d dirty
  | OClearData addr => clearData addr
  | OSetDataDirty addr dirty => setDataDirty addr dirty
  end.

(** [incrementAcksNeeded] on an address that has no register creates one with no
    entry: the address for which that happens. An inclusive cache does it for a line it
    evicts, before it queues the eviction; the manager of an L1 does not. *)
Definition left_alone (m : MSHR) (o : mshr_op) : gset Z :=
  match o with
  | OIncrementAcks addr => match mshr_ m !! addr with Some _ => ∅ | None => {[addr]} end
  | _ => ∅
  end.
(** What the operations can produce, with the addresses for which it happened. *)
Inductive mshr_runs (maxSize : Z) : gset Z -> MSHR -> Prop :=
| runs_new : mshr_runs maxSize ∅ (new_MSHR maxSize)
| runs_op lone m o m' :
    mshr_runs maxSize lone m -> run_op o m = Ok (tt, m') -> mshr_runs maxSize (left_alone m o ∪ lone) m'.

(** The runs in which it does not happen. *)
Definition op_ok (m : MSHR) (o : mshr_op) : Prop :=
  match o with OIncrementAcks addr => is_Some (mshr_ m !! addr) | _ => True end.

Inductive mshr_reachable (maxSize : Z) : MSHR -> Prop :=
| reach_new : mshr_reachable maxSize (new_MSHR maxSize)
| reach_op m o m' :
    mshr_reachable maxSize m -> op_ok m o -> run_op o m = Ok (tt, m') -> mshr_reachable maxSize m'.

Lemma drop_result {St A} (m : M St A) s s' :
  (m ;; skip) s = Ok (tt, s') -> exists a, m s = Ok (a, s').
Proof. intros (a & s1 & Hm & [= <-])%bind_Ok. eauto. Qed.

Lemma field_edit_wf lone site addr f m m' :
  (forall r, entries (f r) = entries r) ->
  mshr_wf_but lone m -> (r ← reg_at site addr; put_reg addr (f r)) m = Ok (tt, m') -> mshr_wf_but lone m'.
Proof.
  intros Hf Hwf (r & m1 & [Hr ->]%reg_at_Ok & H)%bind_Ok. by eapply put_fields_wf.
Qed.

Lemma incrementAcks_run addr r m :
  mshr_ m !! addr = Some r ->
  incrementAcksNeeded addr m
    = Ok (tt, m <| mshr_ ::= <[addr := r <| acksNeeded ::= fun n => u32 (n + 1) |>]> |>).
Proof.
  intros Hr. unfold incrementAcksNeeded, gets, put_reg, modify, mbind, M_bind. by rewrite Hr.
Qed.

Lemma run_op_wf lone o m m' : mshr_wf_but lone m -> run_op o m = Ok (tt, m') -> mshr_wf_but (left_alone m o ∪ lone) m'.
Proof.
  intros Hwf H. apply (mshr_wf_more lone (left_alone m o ∪ lone)) in Hwf; [|set_solver].
  set (lone' := left_alone m o ∪ lone) in *. destruct o; simpl in H;
    try (apply drop_result in H as [a H]).
  - by eapply insertEvent_wf.
  - by eapply insertWriteback_wf.
  - by eapply insertEviction_wf.
  - by eapply removeEntry_wf.
  - by eapply removeFront_wf.
  - by eapply removeEvictPointer_wf.
  - by eapply swapFrontEvent_wf.
  - by eapply moveEntryToFront_wf.
  - by eapply field_edit_wf; [| |exact H].
  - by eapply field_edit_wf; [| |exact H].
  - by eapply set_front_wf; [| |exact H|].
  - by eapply set_front_wf; [| |exact H|].
  - by eapply set_front_wf; [| |exact H|].
  - destruct (mshr_ m !! addr) as [r|] eqn:Hr.
    + rewrite (incrementAcks_run _ _ _ Hr) in H. injection H as <-. by eapply wf_edit.
    + unfold incrementAcksNeeded, gets, put_reg, modify, mbind, M_bind in H. rewrite Hr in H. injection H as <-.
      apply wf_put_same; [done| |by rewrite Hr]. split; [|by constructor]. intros Hin. exfalso. apply Hin. subst lone'. cbn. rewrite Hr. set_solver.
  - unfold decrementAcksNeeded in H. apply bind_Ok in H as (r & m1 & [Hr ->]%reg_at_Ok & H).
    destruct (acksNeeded r =? 0); [discriminate H|].
    apply bind_Ok in H as ([] & m1 & Hp & H). apply ret_Ok in H as [_ <-].
    by eapply (put_fields_wf lone' addr r (fun r => r <| acksNeeded ::= Z.pred |>)).
  - by eapply field_edit_wf; [| |exact H].
  - apply bind_Ok in H as (r & m1 & [Hr ->]%reg_deref_Ok & H).
    by eapply (put_fields_wf lone' addr r (fun r => r <| dataBuffer := [] |> <| dataDirty := false |>)).
  - by eapply field_edit_wf; [| |exact H].
Qed.

(** The capacity never changes. *)
Section capacity.
Abbreviation same_max := (steps (fun m m' => maxSize_ m' = maxSize_ m)).

Lemma put_reg_max addr r : same_max (put_reg addr r).
Proof. by apply steps_modify. Qed.
Lemma erase_reg_max addr : same_max (erase_reg addr).
Proof. by apply steps_modify. Qed.
Lemma dec_size_max e : same_max (dec_size e).
Proof. unfold dec_size. apply steps_when; [apply _|]. by apply steps_modify. Qed.
Lemma insertEvent_max now addr ev pos fwd stall :
  same_max (insertEvent now addr ev pos fwd stall).
Proof.
  intros m a m' H. unfold insertEvent in H. repeat case_match; injection H as _ <-; done.
Qed.

#[local] Hint Resolve put_reg_max erase_reg_max dec_size_max insertEvent_max : steps.

Lemma removeFront_max addr : same_max (removeFront addr).
Proof. unfold removeFront, put_entries, reg_at. steps_walk. Qed.
Lemma removeEntry_max addr i : same_max (removeEntry addr i).
Proof. unfold removeEntry, put_entries, reg_at. steps_walk. Qed.
Lemma getFrontType_max addr : same_max (getFrontType addr).
Proof. unfold getFrontType, reg_at. steps_walk. Qed.
#[local] Hint Resolve removeFront_max removeEntry_max getFrontType_max : steps.

Lemma run_op_max o : same_max (run_op o).
Proof.
  destruct o; unfold run_op, insertWriteback, insertEviction, removeEvictPointer, swapFrontEvent,
    moveEntryToFront, addPendingRetry, removePendingRetry, setInProgress, setStalledForEvict,
    setProfiled, set_front, incrementAcksNeeded, decrementAcksNeeded, setData, clearData,
    setDataDirty, reg_at, reg_deref; steps_walk.
Qed.
End capacity.

Lemma runs_wf maxSize lone m : mshr_runs maxSize lone m -> mshr_wf_but lone m /\ maxSize_ m = maxSize.
Proof.
  intros Hr. induction Hr as [|lone m o m' _ [IHwf IHmax] Hrun].
  - split; [by apply new_MSHR_wf_but|done].
  - split; [by eapply run_op_wf|]. rewrite <- IHmax. by eapply run_op_max.
Qed.
Lemma reachable_runs maxSize m : mshr_reachable maxSize m -> mshr_runs maxSize ∅ m.
Proof.
  intros Hr. induction Hr as [|m o m' _ IH Hop Hrun]; [constructor|].
  assert (left_alone m o = ∅) as E by (destruct o; try done; destruct Hop as [r Hr]; cbn; by rewrite Hr).
  apply (runs_op maxSize ∅ m o m') in IH; [|done]. rewrite E in IH. by replace (∅ ∪ ∅ : gset Z) with (∅ : gset Z) in IH by set_solver.
Qed.
Lemma reachable_wf maxSize m : mshr_reachable maxSize m -> mshr_wf m /\ maxSize_ m = maxSize.
Proof. intros Hr%reachable_runs%runs_wf. by rewrite mshr_wf_none in Hr. Qed.
Lemma new_MSHR_wf maxSize : mshr_wf (new_MSHR maxSize).
Proof. apply mshr_wf_none, new_MSHR_wf_but. Qed.

(** C37. In every state that the operations can bring an MSHR to, [size_] counts
    exactly the queued events, never exceeds the capacity (a negative capacity is
    none), every entry has the fields of its type, and every register holds at least
    one entry, save for the addresses for which an acknowledgement was expected before
    they had a register (an inclusive cache does that when it evicts a line); without
    such an address every register holds an entry. *)
Theorem mshr_reachable_wf maxSize lone m :
  mshr_runs maxSize lone m ->
  mshr_wf_but lone m /\ maxSize_ m = maxSize /\ 0 <= size_ m /\ (0 <= maxSize -> size_ m <= maxSize) /\
  (lone = ∅ -> mshr_wf m).
Proof.
  intros Hr. apply runs_wf in Hr as [Hwf <-]. pose proof Hwf as [Hs Hm _].
  split_and!; [done|done|rewrite Hs; apply total_events_nonneg|done|]. intros ->. by apply mshr_wf_none.
Qed.

(** [insertEvent] on a well-formed MSHR: it refuses exactly when the MSHR is
    full, counting the entry that only forwarded requests may take; otherwise the
    event is queued at the reported position (the last one for [-1]), the other
    entries of the address keep their order, and no other address changes. *)
Theorem insertEvent_correct now addr ev pos fwd stall m :
  mshr_wf m -> -1 <= pos < 2 ^ 31 ->
  let n := Z.of_nat (getSizeAt m addr) in
  exists i m', insertEvent now addr ev pos fwd stall m = Ok (i, m') /\
    (i = -1 <-> size_ m = maxSize_ m \/ (fwd = false /\ size_ m = maxSize_ m - 1)) /\
    (i = -1 -> m' = m) /\
    (i <> -1 ->
       size_ m' = size_ m + 1 /\
       (0 <= maxSize_ m -> size_ m' <= (if fwd then maxSize_ m else maxSize_ m - 1)) /\
       0 <= i <= n /\ (pos = -1 -> i = n) /\ (0 <= pos <= n -> i = pos) /\
       entries_at m' addr = insert_before (Z.to_nat i) (event_entry ev stall now) (entries_at m addr) /\
       forall a, a <> addr -> mshr_ m' !! a = mshr_ m !! a).
Proof.
  intros [_ Hm _] Hpos n. unfold insertEvent.
  destruct ((size_ m =? maxSize_ m) || _) eqn:Hfull.
  { eexists _, _. split; [done|]. split_and!; [|done|done]. split; [|done]. intros _.
    apply orb_true_iff in Hfull as [?%Z.eqb_eq|[?%negb_true_iff ?%Z.eqb_eq]%andb_true_iff]; auto. }
  apply orb_false_iff in Hfull as [Hne%Z.eqb_neq Hfwd].
  assert (if fwd then True else size_ m <> maxSize_ m - 1) as Hroom.
  { destruct fwd; [done|]. simpl in Hfwd. by apply Z.eqb_neq. }
  assert (forall i m', 0 <= i -> size_ m' = size_ m + 1 ->
    (i = -1 <-> size_ m = maxSize_ m \/ (fwd = false /\ size_ m = maxSize_ m - 1)) /\
    (i = -1 -> m' = m) /\
    (0 <= maxSize_ m -> size_ m' <= (if fwd then maxSize_ m else maxSize_ m - 1))) as Hsize.
  { intros i m' Hi ->. split_and!; [|lia|destruct fwd; lia]. split; [lia|].
    intros [?|[-> ?]]; done. }
  cbn [mshr_ update]. unfold n, getSizeAt, entries_at in *. clear n.
  destruct (mshr_ m !! addr) as [r|] eqn:Hr.
  - destruct ((pos =? -1) || _) eqn:Hp.
    + set (m' := m <| size_ ::= Z.succ |> <| mshr_ ::= _ |>).
      exists (Z.of_nat (length (entries r))), m'. split; [done|].
      destruct (Hsize (Z.of_nat (length (entries r))) m') as (? & ? & ?); [lia|done|].
      split; [done|]. split; [done|]. intros _. split; [done|]. split; [done|]. split; [lia|].
      split; [done|]. split.
      * intros ?. apply orb_true_iff in Hp as [?%Z.eqb_eq|Hp%Z.ltb_lt]; [lia|].
        rewrite u64_small in Hp by lia. lia.
      * unfold m'. cbn. rewrite lookup_insert_eq. split; [|intros; by rewrite lookup_insert_ne].
        cbn. unfold insert_before. rewrite Nat2Z.id, take_ge, drop_ge by lia. done.
    + apply orb_false_iff in Hp as [Hp1%Z.eqb_neq Hp2%Z.ltb_ge].
      rewrite u64_small in Hp2 by lia.
      set (m' := m <| size_ ::= Z.succ |> <| mshr_ ::= _ |>).
      exists pos, m'. split; [done|].
      destruct (Hsize pos m') as (? & ? & ?); [lia|done|].
      split; [done|]. split; [done|]. intros _. split; [done|]. split; [done|]. split; [lia|].
      split; [lia|]. split; [done|].
      unfold m'. cbn. rewrite lookup_insert_eq. split; [done|]. intros. by rewrite lookup_insert_ne.
  - set (m' := m <| size_ ::= Z.succ |> <| mshr_ ::= _ |>).
    exists 0, m'. split; [done|].
    destruct (Hsize 0 m') as (? & ? & ?); [lia|done|].
    split; [done|]. split; [done|]. intros _. split; [done|]. split; [done|]. split; [simpl; lia|].
    split; [done|]. split; [simpl; lia|].
    unfold m'. cbn. rewrite lookup_insert_eq. split; [done|]. intros. by rewrite lookup_insert_ne.
Qed.

(** Round trip: taking the inserted entry out again at the reported position
    restores the MSHR, whether the address was new or not. *)
Theorem insert_remove_roundtrip now addr ev pos fwd stall m i m1 :
  mshr_wf m -> -1 <= pos < 2 ^ 31 ->
  insertEvent now addr ev pos fwd stall m = Ok (i, m1) -> i <> -1 ->
  removeEntry addr i m1 = Ok (tt, m).
Proof.
  intros Hwf Hpos Hins Hi.
  destruct (insertEvent_correct now addr ev pos fwd stall m Hwf Hpos) as (i' & m' & Hins' & _ & _ & H).
  assert (i' = i /\ m' = m1) as [-> ->] by (split; congruence).
  destruct (H Hi) as (Hsz & _ & Hin & _ & _ & Hent & Hoth). clear H Hins'.
  assert (maxSize_ m1 = maxSize_ m) as Hmax by (by eapply insertEvent_max).
  unfold getSizeAt in Hin. set (e := event_entry ev stall now) in *.
  assert (exists r1, mshr_ m1 !! addr = Some r1 /\
    entries r1 = insert_before (Z.to_nat i) e (entries_at m addr) /\
    forall r, mshr_ m !! addr = Some r -> r1 <| entries := entries r |> = r) as (r1 & Hr1 & He1 & Hback).
  { unfold entries_at in *. unfold insertEvent in Hins.
    destruct ((size_ m =? maxSize_ m) || _); [congruence|]. cbn [mshr_ update] in Hins.
    destruct (mshr_ m !! addr) as [r|] eqn:Hr.
    - destruct ((pos =? -1) || _); injection Hins as _ <-; cbn in Hent |- *;
        rewrite lookup_insert_eq in Hent |- *; eexists; (split; [done|]; split; [exact Hent|]);
        intros r' [= <-]; by destruct r.
    - injection Hins as _ <-. cbn in Hent |- *. rewrite lookup_insert_eq in Hent |- *.
      eexists; (split; [done|]; split; [exact Hent|]); done. }
  unfold removeEntry, reg_at, getsR, mbind, M_bind. rewrite Hr1. cbn [of_option].
  assert (nth_entry "MSHR::removeEntry" r1 i = Ok e) as ->.
  { apply nth_entry_Ok. split; [lia|]. rewrite He1. apply insert_before_lookup. lia. }
  unfold dec_size, when, modify. rewrite bool_decide_true by done. rewrite He1.
  rewrite erase_insert_before by lia.
  destruct m as [mm sz mx], m1 as [mm1 sz1 mx1]. cbn in *. subst sz1 mx1.
  unfold entries_at in *. cbn in *. destruct (mm !! addr) as [r|] eqn:Hr.
  - destruct (mw_regs _ Hwf _ _ Hr) as [Hne _].
    unfold put_entries, put_reg, modify. destruct (entries r) as [|e0 es] eqn:Er; [done|].
    rewrite <- Er, (Hback r eq_refl). unfold update. cbn. do 3 f_equal; [|lia].
    apply map_eq. intros a. destruct (decide (a = addr)) as [->|].
    + by rewrite lookup_insert_eq.
    + rewrite lookup_insert_ne by done. by apply Hoth.
  - unfold put_entries, erase_reg, modify, update. cbn. do 3 f_equal; [|lia].
    apply map_eq. intros a. destruct (decide (a = addr)) as [->|].
    + by rewrite lookup_delete_eq.
    + rewrite lookup_delete_ne by done. by apply Hoth.
Qed.

(** [getOldestEntry] returns the last event entry in address order, whatever
    the start times. *)
Theorem getOldestEntry_is_last m :
  getOldestEntry m = last (filter is_event (all_entries m)).
Proof.
  unfold getOldestEntry.
  assert (forall es o, oldest_loop false o es =
    match last (filter is_event es) with Some e => Some e | None => o end) as Hloop.
  { induction es as [|e es IH]; intros o; [done|]. simpl.
    rewrite filter_cons. destruct (decide (type e = MSHREntryType.Event)) as [Ht|Ht].
    - rewrite IH. rewrite decide_True by done. rewrite last_cons.
      by destruct (last (filter is_event es)).
    - rewrite IH. by rewrite decide_False by done. }
  rewrite Hloop. by destruct (last _).
Qed.

(** Two requests to different lines, the one at the lower address older: the
    "oldest" entry is the other one, so a timeout check looks at the wrong
    request. *)
Example getOldestEntry_not_oldest :
  exists m i1 m1 i2 m2 e, m = new_MSHR 8 /\
    insertEvent 10 0 1%N (-1) false false m = Ok (i1, m1) /\
    insertEvent 500 64 2%N (-1) false false m1 = Ok (i2, m2) /\
    getOldestEntry m2 = Some e /\ time e = 500.
Proof. eexists _, _, _, _, _, _. repeat split; vm_compute; reflexivity. Qed.

(** Acknowledgement counting. *)
Fixpoint times {St} (n : nat) (m : M St unit) : M St unit :=
  match n with O => skip | S n => m ;; times n m end.

Definition with_acks (r : MSHRRegister) (n : Z) : MSHRRegister := r <| acksNeeded := n |>.

Lemma increments_acks addr r k n m :
  mshr_ m !! addr = Some (with_acks r k) -> 0 <= k -> k + Z.of_nat n < 2 ^ 32 ->
  times n (incrementAcksNeeded addr) m
    = Ok (tt, m <| mshr_ ::= <[addr := with_acks r (k + Z.of_nat n)]> |>).
Proof.
  revert k m. induction n as [|n IH]; intros k m Hr Hk Hn.
  - simpl. unfold skip, mret, M_ret. do 2 f_equal. destruct m as [mm sz mx]. unfold update. cbn in *.
    rewrite Z.add_0_r, insert_id by done. done.
  - cbn [times]. erewrite bind_step; [|by apply incrementAcks_run].
    replace ((with_acks r k) <| acksNeeded ::= fun n0 => u32 (n0 + 1) |>) with (with_acks r (k + 1)).
    2: { unfold with_acks, update. cbn. rewrite u32_small by lia. done. }
    rewrite (IH (k + 1)); [|by cbn; rewrite lookup_insert_eq|lia|lia].
    unfold update. cbn. rewrite insert_insert_eq. do 4 f_equal. f_equal. lia.
Qed.

(** After [n] acknowledgements are announced, the [n]-th arrival (and no
    earlier one) reports that all have arrived. *)
Theorem acks_balance addr r n m m1 k :
  mshr_ m !! addr = Some r -> acksNeeded r = 0 -> (0 < n)%nat -> Z.of_nat n < 2 ^ 32 -> (k < n)%nat ->
  times n (incrementAcksNeeded addr) m = Ok (tt, m1) ->
  exists m2 m3, times k (decrementAcksNeeded addr ;; skip) m1 = Ok (tt, m2) /\
    decrementAcksNeeded addr m2 = Ok (bool_decide (S k = n), m3).
Proof.
  intros Hr Ha Hn Hn32 Hk Hinc.
  assert (r = with_acks r 0) as Hr0 by (destruct r; cbn in *; by subst).
  rewrite (increments_acks addr r 0 n m) in Hinc; [|by rewrite <- Hr0|lia|lia].
  injection Hinc as <-. rewrite Z.add_0_l.
  set (m1 := m <| mshr_ ::= _ |>).
  assert (forall j m', mshr_ m' !! addr = Some (with_acks r (Z.of_nat j)) -> forall i, (i < j)%nat ->
    exists m2 m3, times i (decrementAcksNeeded addr ;; skip) m' = Ok (tt, m2) /\
      decrementAcksNeeded addr m2 = Ok (bool_decide (S i = j), m3)) as Hdec.
  { assert (forall j m', mshr_ m' !! addr = Some (with_acks r (Z.of_nat (S j))) ->
      decrementAcksNeeded addr m' = Ok (bool_decide (j = 0%nat),
        m' <| mshr_ ::= <[addr := with_acks r (Z.of_nat j)]> |>)) as Hstep.
    { intros j m' Hm'. unfold decrementAcksNeeded, reg_at, getsR, mbind, M_bind. rewrite Hm'.
      cbn [of_option]. destruct (Z.eqb_spec (acksNeeded (with_acks r (Z.of_nat (S j)))) 0) as [E|E].
      { cbn in E. lia. }
      replace ((with_acks r (Z.of_nat (S j))) <| acksNeeded ::= Z.pred |>) with (with_acks r (Z.of_nat j)).
      2: { unfold with_acks, update. cbn. f_equal. lia. }
      unfold put_reg, modify, mret, M_ret. cbn [acksNeeded with_acks update].
      f_equal. f_equal. cbn. destruct (Z.eqb_spec (Z.of_nat j) 0), (bool_decide_reflect (j = 0%nat)); lia || done. }
    intros j m' Hm' i. revert j m' Hm'. induction i as [|i IH]; intros [|j] m' Hm' Hi; try lia.
    - eexists _, _. split; [done|]. rewrite (Hstep j m' Hm'). f_equal. f_equal.
      apply bool_decide_ext. lia.
    - cbn [times]. destruct (IH j (m' <| mshr_ ::= <[addr := with_acks r (Z.of_nat j)]> |>))
        as (m2 & m3 & H2 & H3); [cbn; by rewrite lookup_insert_eq|lia|].
      exists m2, m3. split.
      + erewrite bind_step; [exact H2|]. erewrite bind_step; [done|]. by apply Hstep.
      + rewrite H3. f_equal. f_equal. apply bool_decide_ext. lia. }
  apply (Hdec n); [|done]. unfold m1. cbn. by rewrite lookup_insert_eq.
Qed.

(** ** Witnesses: an MSHR of two entries *)

(** A request and a forwarded request fill it; and an eviction whose acknowledgement
    is expected before it is queued leaves an empty register for a while. *)
Lemma mshr_reachable_wf_witness :
  (exists m1 m2, run_op (OInsertEvent 1 64 7%N (-1) false false) (new_MSHR 2) = Ok (tt, m1) /\
    run_op (OInsertEvent 2 64 8%N 0 true false) m1 = Ok (tt, m2) /\ mshr_wf m2 /\ size_ m2 = 2) /\
  (exists m1, run_op (OIncrementAcks 128) (new_MSHR 2) = Ok (tt, m1) /\ mshr_wf_but {[128]} m1 /\
    exists r, mshr_ m1 !! 128 = Some r /\ entries r = []).
Proof.
  split.
  - destruct (run_op (OInsertEvent 1 64 7%N (-1) false false) (new_MSHR 2)) as [[[] m1]|] eqn:E1;
      [|vm_compute in E1; done].
    destruct (run_op (OInsertEvent 2 64 8%N 0 true false) m1) as [[[] m2]|] eqn:E2.
    2: { vm_compute in E1. injection E1 as <-. vm_compute in E2. done. }
    exists m1, m2. split; [done|]. split; [done|]. split.
    + apply (mshr_reachable_wf 2 (∅ ∪ (∅ ∪ ∅))); [|by rewrite !union_empty_l_L]. apply (runs_op 2 (∅ ∪ ∅) m1 (OInsertEvent 2 64 8%N 0 true false)); [|exact E2].
      apply (runs_op 2 ∅ (new_MSHR 2) (OInsertEvent 1 64 7%N (-1) false false)); [apply runs_new|exact E1].
    + vm_compute in E1. injection E1 as <-. vm_compute in E2. by injection E2 as <-.
  - destruct (run_op (OIncrementAcks 128) (new_MSHR 2)) as [[[] m1]|] eqn:E1; [|vm_compute in E1; done].
    exists m1. split; [done|]. split.
    + rewrite <- (union_empty_r_L {[128]}). apply (mshr_reachable_wf 2 ({[128]} ∪ ∅)).
      apply (runs_op 2 ∅ (new_MSHR 2) (OIncrementAcks 128)); [apply runs_new|exact E1].
    + vm_compute in E1. injection E1 as <-. by eexists.
Defined.

Lemma insertEvent_correct_witness :
  exists i m', insertEvent 1 64 7%N (-1) false false (new_MSHR 2) = Ok (i, m') /\ i = 0 /\
    entries_at m' 64 = [event_entry 7%N false 1].
Proof.
  destruct (insertEvent_correct 1 64 7%N (-1) false false (new_MSHR 2)) as (i & m' & Hi & H);
    [by apply new_MSHR_wf|lia|].
  exists i, m'. split; [done|]. clear H. vm_compute in Hi. by injection Hi as <- <-.
Defined.

Lemma insert_remove_roundtrip_witness :
  exists m1, insertEvent 1 64 7%N (-1) false false (new_MSHR 2) = Ok (0, m1) /\
    removeEntry 64 0 m1 = Ok (tt, new_MSHR 2).
Proof.
  eexists. split; [vm_compute; reflexivity|].
  eapply (insert_remove_roundtrip 1 64 7%N (-1) false false (new_MSHR 2) 0);
    [by apply new_MSHR_wf|lia|vm_compute; reflexivity|lia].
Defined.

Lemma acks_balance_witness :
  exists m1 m2 m3,
    times 2 (incrementAcksNeeded 64) (mkMSHR {[64 := new_register [evict_entry 128 1]]} 0 2)
      = Ok (tt, m1) /\
    times 1 (decrementAcksNeeded 64 ;; skip) m1 = Ok (tt, m2) /\
    decrementAcksNeeded 64 m2 = Ok (true, m3).
Proof.
  destruct (acks_balance 64 (new_register [evict_entry 128 1]) 2
    (mkMSHR {[64 := new_register [evict_entry 128 1]]} 0 2)
    (mkMSHR {[64 := with_acks (new_register [evict_entry 128 1]) 2]} 0 2) 1)
    as (m2 & m3 & H2 & H3); [done|done|lia|lia|lia|vm_compute; reflexivity|].
  eexists _, m2, m3. split; [vm_compute; reflexivity|]. split; [exact H2|exact H3].
Defined.
