(* ===== verification/Coherence.v ===== *)
(** * Coherence: the base class of the coherence managers

    Models [coherencemgr/coherenceController.h/.cc]: the event heap, the outgoing
    queues towards the CPU ("up") and memory ("down") with their bandwidth
    limits, MSHR allocation with the prefetch limits, latency records, listener
    notifications and the retry buffer. Virtual functions the derived managers
    override are the fields of [Virtuals]. Links belong to other components:
    [MemLink] is what the controller asks of them; what it sends on them is
    appended to [sentUp_] and [sentDown_]. Statistics are the log [stats_];
    debug output is not modelled. *)

From S2P Require Import Prelude MemTypes MemEvent Mshr.

(** What [MemLinkBase] answers about destinations. *)
Record MemLink := mkMemLink {
  findTargetDestination : Z -> string;
  isReachable : string -> bool
}.

Module NotifyAccessType.
Inductive t := READ | WRITE | EVICT | PREFETCH.
End NotifyAccessType.
Module NotifyResultType.
Inductive t := HIT | MISS | NA.
End NotifyResultType.

(** What a cache listener (prefetcher, tracer) is told. *)
Record CacheListenerNotification := mkNotification {
  n_size : Z;
  n_targAddr : Z;
  n_physAddr : Z;
  n_virtAddr : Z;
  n_instPtr : Z;
  n_access : NotifyAccessType.t;
  n_result : NotifyResultType.t
}.

(** [LatType]: an anonymous enum used as an [int]. *)
Module LatType.
Definition HIT : Z := 0.
Definition MISS : Z := 1.
Definition INV : Z := 2.
Definition UPGRADE : Z := 3.
End LatType.

(** The statistics a manager adds to. *)
Module Stat.
Inductive t :=
| eventSent (c : Command.t)
| eventState (c : Command.t) (s : State.t)
| evict (s : State.t)
| hit (row : Z) (inMSHR : bool)
| miss (row : Z) (inMSHR : bool)
| hits | misses
| latencyGetS (type : Z) | latencyGetX (type : Z) | latencyGetSX (type : Z)
| latencyFlushLine (type : Z) | latencyFlushLineInv (type : Z)
| eventStalledForLock
| PrefetchEvict | PrefetchInv | PrefetchRedundant | PrefetchUpgradeMiss | PrefetchHit.
End Stat.

Record LatencyStat := mkLatencyStat { ls_time : Z; ls_cmd : Command.t; ls_missType : Z }.
#[export] Instance LatencyStat_eta : Eta LatencyStat := fun l =>
  mkLatencyStat (ls_time l) (ls_cmd l) (ls_missType l).

Record Response := mkResponse { r_event : EventPtr; r_deliveryTime : Z; r_size : Z }.
#[export] Instance Response_eta : Eta Response := fun r =>
  mkResponse (r_event r) (r_deliveryTime r) (r_size r).

(** A pointer pushed on the retry buffer may be null. *)
Record Ctrl := mkCtrl {
  heap_ : gmap N MemEvent;
  fresh_ : N;
  idCount_ : N;
  now_ : Z;
  mshr_ : MSHR;
  maxOutstandingPrefetch_ : Z;
  dropPrefetchLevel_ : Z;
  outstandingPrefetches_ : Z;
  cachename_ : string;
  timestamp_ : Z;
  accessLatency_ : Z;
  tagLatency_ : Z;
  mshrLatency_ : Z;
  lineSize_ : Z;
  writebackCleanBlocks_ : bool;
  silentEvictClean_ : bool;
  recvWritebackAck_ : bool;
  sendWritebackAck_ : bool;
  lastLevel_ : bool;
  retryBuffer_ : list (option EventPtr);
  startTimes_ : gmap id_type LatencyStat;
  cpus : list string;
  outgoingEventQueueDown_ : list Response;
  outgoingEventQueueUp_ : list Response;
  maxBytesUp : Z;
  maxBytesDown : Z;
  packetHeaderBytes : Z;
  sentDown_ : list MemEvent;
  sentUp_ : list MemEvent;
  notified_ : list CacheListenerNotification;
  stats_ : list (Stat.t * Z)
}.
#[export] Instance Ctrl_eta : Eta Ctrl := fun c =>
  mkCtrl (heap_ c) (fresh_ c) (idCount_ c) (now_ c) (mshr_ c) (maxOutstandingPrefetch_ c)
    (dropPrefetchLevel_ c) (outstandingPrefetches_ c) (cachename_ c) (timestamp_ c)
    (accessLatency_ c) (tagLatency_ c) (mshrLatency_ c) (lineSize_ c) (writebackCleanBlocks_ c)
    (silentEvictClean_ c) (recvWritebackAck_ c) (sendWritebackAck_ c) (lastLevel_ c)
    (retryBuffer_ c) (startTimes_ c) (cpus c) (outgoingEventQueueDown_ c)
    (outgoingEventQueueUp_ c) (maxBytesUp c) (maxBytesDown c) (packetHeaderBytes c)
    (sentDown_ c) (sentUp_ c) (notified_ c) (stats_ c).

(** ** Construction *)

(** What [UnitAlgebra] answers about a parameter: whether it is a number of
    bytes, and the rounded number. *)
Record UnitAlgebra := mkUnitAlgebra { ua_bytes : bool; ua_value : Z }.

(** The parameters the constructor reads; [None] is a parameter not given. *)
Record CtrlParams := mkCtrlParams {
  p_access_latency_cycles : option Z;
  p_tag_access_latency_cycles : option Z;
  p_mshr_latency_cycles : option Z;
  p_cache_line_size : option Z;
  p_min_packet_size : UnitAlgebra;
  p_request_link_width : UnitAlgebra;
  p_response_link_width : UnitAlgebra
}.

(** The constructor; the MSHR is given to [setMSHR] before the simulation starts. *)
Definition new_CoherenceController (name : string) (params : CtrlParams) (mshr : MSHR) : res Ctrl :=
  access ← of_option (Fatal "Param not specified: access_latency_cycles") (p_access_latency_cycles params);
  if negb (ua_bytes (p_min_packet_size params)) then Err (Fatal "Invalid param: min_packet_size")
  else if negb (ua_bytes (p_request_link_width params)) then Err (Fatal "Invalid param: request_link_width")
  else if negb (ua_bytes (p_response_link_width params)) then Err (Fatal "Invalid param: response_link_width")
  else Ok {|
    heap_ := ∅; fresh_ := 0; idCount_ := 0; now_ := 0; mshr_ := mshr;
    maxOutstandingPrefetch_ := 2 ^ 64 - 2; dropPrefetchLevel_ := 2 ^ 64 - 1; outstandingPrefetches_ := 0;
    cachename_ := name; timestamp_ := 0;
    accessLatency_ := access;
    tagLatency_ := default access (p_tag_access_latency_cycles params);
    mshrLatency_ := default 1 (p_mshr_latency_cycles params);
    lineSize_ := default 64 (p_cache_line_size params);
    writebackCleanBlocks_ := false; silentEvictClean_ := true;
    recvWritebackAck_ := false; sendWritebackAck_ := false; lastLevel_ := true;
    retryBuffer_ := []; startTimes_ := ∅; cpus := [];
    outgoingEventQueueDown_ := []; outgoingEventQueueUp_ := [];
    maxBytesUp := ua_value (p_response_link_width params);
    maxBytesDown := ua_value (p_request_link_width params);
    packetHeaderBytes := ua_value (p_min_packet_size params);
    sentDown_ := []; sentUp_ := []; notified_ := []; stats_ := []
  |}.

(** [setCacheListener]: the prefetch limits the cache controller computes. *)
Definition setCacheListener (dropLevel maxOutPref : Z) (c : Ctrl) : Ctrl :=
  c <| dropPrefetchLevel_ := dropLevel |> <| maxOutstandingPrefetch_ := maxOutPref |>.

Definition on_mshr {A} (m : M MSHR A) : M Ctrl A :=
  zoom mshr_ (fun t c => c <| mshr_ := t |>) m.

Definition getc : M Ctrl Ctrl := gets (fun c => c).

Definition addData (s : Stat.t) (v : Z) : M Ctrl unit :=
  modify (fun c => c <| stats_ ::= fun l => l ++ [(s, v)] |>).

(** ** The event heap *)

Definition deref (p : EventPtr) : M Ctrl MemEvent :=
  getsR (fun c => of_option (Undefined "use of a deleted event") (heap_ c !! p)).
Definition set_event (p : EventPtr) (e : MemEvent) : M Ctrl unit :=
  modify (fun c => c <| heap_ ::= <[p := e]> |>).
Definition new_event (e : MemEvent) : M Ctrl EventPtr :=
  p ← gets fresh_;
  modify (fun c => c <| heap_ ::= <[p := e]> |> <| fresh_ ::= N.succ |>) ;; mret p.
Definition delete_event (p : EventPtr) : M Ctrl unit :=
  _ ← deref p; modify (fun c => c <| heap_ ::= delete p |>).
Definition null_deref {St A} : M St A := undefined "null pointer dereference".
Definition the_event (o : option EventPtr) : M Ctrl EventPtr :=
  match o with Some p => mret p | None => null_deref end.

(** ** Outgoing queues *)

(** [addToOutgoingQueue]: walk from the back to the first entry that is not later
    than the new one or is for the same address, and insert behind it. The list
    is reversed, its head the back of the queue. *)
Fixpoint insert_rev (heap : gmap N MemEvent) (addr : Z) (resp : Response) (rq : list Response)
    : res (list Response) :=
  match rq with
  | [] => Ok [resp]
  | x :: rq' =>
      if r_deliveryTime x <=? r_deliveryTime resp then Ok (resp :: x :: rq')
      else
        e ← of_option (Undefined "use of a deleted event") (heap !! r_event x);
        if addr =? getRoutingAddress e then Ok (resp :: x :: rq')
        else l ← insert_rev heap addr resp rq'; Ok (x :: l)
  end.

Definition queue_insert (heap : gmap N MemEvent) (resp : Response) (q : list Response)
    : res (list Response) :=
  e ← of_option (Undefined "use of a deleted event") (heap !! r_event resp);
  l ← insert_rev heap (getRoutingAddress e) resp (reverse q); Ok (reverse l).

Definition addToOutgoingQueue (resp : Response) : M Ctrl unit :=
  q ← getsR (fun c => queue_insert (heap_ c) resp (outgoingEventQueueDown_ c));
  modify (fun c => c <| outgoingEventQueueDown_ := q |>).
Definition addToOutgoingQueueUp (resp : Response) : M Ctrl unit :=
  q ← getsR (fun c => queue_insert (heap_ c) resp (outgoingEventQueueUp_ c));
  modify (fun c => c <| outgoingEventQueueUp_ := q |>).

(** The loop of [sendOutgoingEvents]: what is sent at time [now] out of a queue
    with [bytesLeft] bytes of bandwidth (unlimited when [max] is 0), and what
    stays. A message too large for the bytes left uses them up and waits. *)
Fixpoint drain (max now bytesLeft : Z) (q : list Response) : list Response * list Response :=
  match q with
  | [] => ([], [])
  | r :: q' =>
      if negb (r_deliveryTime r <=? now) then ([], q)
      else if max =? 0 then let '(s, l) := drain max now bytesLeft q' in (r :: s, l)
      else if bytesLeft =? 0 then ([], q)
      else if r_size r <=? bytesLeft then
        let '(s, l) := drain max now (bytesLeft - r_size r) q' in (r :: s, l)
      else ([], r <| r_size ::= fun z => z - bytesLeft |> :: q')
  end.

Section controller.
Context {core : SSTCore} (linkUp_ linkDown_ : MemLink).

(** [linkDown_->send]: the receiver owns the event from here on. *)
Definition send_down (r : Response) : M Ctrl unit :=
  e ← deref (r_event r);
  modify (fun c => c <| heap_ ::= delete (r_event r) |> <| sentDown_ ::= fun l => l ++ [e] |>).
Definition send_up (r : Response) : M Ctrl unit :=
  e ← deref (r_event r);
  modify (fun c => c <| heap_ ::= delete (r_event r) |> <| sentUp_ ::= fun l => l ++ [e] |>).

(** Base-class versions of the functions managers override. *)
Definition base_forwardByAddress (p : EventPtr) (ts : Z) : M Ctrl unit :=
  e ← deref p;
  c ← getc;
  let e := e <| src_ := cachename_ c |> in
  let down := findTargetDestination linkDown_ (getRoutingAddress e) in
  let up := findTargetDestination linkUp_ (getRoutingAddress e) in
  let fwdReq := mkResponse p ts (u64 (packetHeaderBytes c + getPayloadSize e)) in
  if negb (bool_decide (down = ""%string)) then
    set_event p (e <| dst_ := down |>) ;; addToOutgoingQueue fwdReq
  else if negb (bool_decide (up = ""%string)) then
    set_event p (e <| dst_ := up |>) ;; addToOutgoingQueueUp fwdReq
  else fatal "Unable to find destination for address".

Definition base_forwardByDestination (p : EventPtr) (ts : Z) : M Ctrl unit :=
  e ← deref p;
  c ← getc;
  let e := e <| src_ := cachename_ c |> in
  set_event p e ;;
  let fwdReq := mkResponse p ts (u64 (packetHeaderBytes c + getPayloadSize e)) in
  if isReachable linkUp_ (dst_ e) then addToOutgoingQueueUp fwdReq
  else if isReachable linkDown_ (dst_ e) then addToOutgoingQueue fwdReq
  else fatal "Destination appears unreachable on both links".

Class Virtuals := {
  forwardByAddress : EventPtr -> Z -> M Ctrl unit;
  forwardByDestination : EventPtr -> Z -> M Ctrl unit;
  recordLatency : Command.t -> Z -> Z -> M Ctrl unit
}.
Context {V : Virtuals}.

(** Handlers a manager does not override stop the simulation. *)
Definition unhandled (event : EventPtr) (inMSHR : bool) : M Ctrl bool :=
  _ ← deref event; fatal "events are not handled by this coherence manager".

(** The latency of the request an outgoing response answers. *)
Definition finish_request (responseToID : id_type) : M Ctrl unit :=
  c ← getc;
  match startTimes_ c !! responseToID with
  | Some stat =>
      recordLatency (ls_cmd stat) (ls_missType stat) (u64 (timestamp_ c - ls_time stat)) ;;
      modify (fun c => c <| startTimes_ ::= delete responseToID |>)
  | None => skip
  end.

(** Whether the queues are empty afterwards. *)
Definition sendOutgoingEvents : M Ctrl bool :=
  modify (fun c => c <| timestamp_ ::= fun t => u64 (t + 1) |>) ;;
  c ← getc;
  let '(sent, rest) := drain (maxBytesDown c) (timestamp_ c) (maxBytesDown c) (outgoingEventQueueDown_ c) in
  forM sent send_down ;;
  modify (fun c => c <| outgoingEventQueueDown_ := rest |>) ;;
  let '(sent, rest) := drain (maxBytesUp c) (timestamp_ c) (maxBytesUp c) (outgoingEventQueueUp_ c) in
  forM sent (fun r => e ← deref (r_event r); finish_request (responseToID_ e) ;; send_up r) ;;
  modify (fun c => c <| outgoingEventQueueUp_ := rest |>) ;;
  gets (fun c => bool_decide (outgoingEventQueueDown_ c = []) &&
                 bool_decide (outgoingEventQueueUp_ c = [])).

Definition checkIdle (c : Ctrl) : bool :=
  bool_decide (outgoingEventQueueDown_ c = []) && bool_decide (outgoingEventQueueUp_ c = []).

(** One cycle from now, the default send time. *)
Definition forwardByAddress_next (p : EventPtr) : M Ctrl unit :=
  c ← getc; forwardByAddress p (u64 (timestamp_ c + 1)).
Definition forwardByDestination_next (p : EventPtr) : M Ctrl unit :=
  c ← getc; forwardByDestination p (u64 (timestamp_ c + 1)).

(** ** Initialisation *)

Definition insert_cpu (name : string) (l : list string) : list string :=
  if decide (name ∈ l) then l else merge_sort String.le (name :: l).

Definition processInitCoherenceEvent (event : MemEventInitCoherence) (source : bool) : M Ctrl unit :=
  modify (fun c =>
    if negb source && negb (bool_decide (ic_type event = Endpoint.Memory))
    then c <| lastLevel_ := false |> else c) ;;
  modify (fun c =>
    if negb source && (ic_tracksPresence event || lastLevel_ c)
    then c <| silentEvictClean_ := false |> else c) ;;
  modify (fun c =>
    if negb source && negb (ic_inclusive event)
    then c <| writebackCleanBlocks_ := true |> else c) ;;
  modify (fun c =>
    if negb source && ic_sendWBAck event then c <| recvWritebackAck_ := true |> else c) ;;
  modify (fun c =>
    if source && ic_recvWBAck event then c <| sendWritebackAck_ := true |> else c) ;;
  modify (fun c =>
    if source && (bool_decide (ic_type event = Endpoint.CPU) || bool_decide (ic_type event = Endpoint.MMIO))
    then c <| cpus ::= insert_cpu (ic_src event) |> else c).

(** ** Retry buffer and listeners *)

Definition clearRetryBuffer : M Ctrl unit := modify (fun c => c <| retryBuffer_ := [] |>).
Definition push_retry (o : option EventPtr) : M Ctrl unit :=
  modify (fun c => c <| retryBuffer_ ::= fun l => l ++ [o] |>).

Definition notify (n : CacheListenerNotification) : M Ctrl unit :=
  modify (fun c => c <| notified_ ::= fun l => l ++ [n] |>).

Definition notifyListenerOfAccess (event : EventPtr) (accessT : NotifyAccessType.t)
    (resultT : NotifyResultType.t) : M Ctrl unit :=
  e ← deref event;
  let accessT := if prefetch_ e then NotifyAccessType.PREFETCH else accessT in
  notify (mkNotification (MemEvent.size_ e) (addr_ e) (baseAddr_ e) (vAddr_ e) (instPtr_ e)
            accessT resultT).

Definition notifyListenerOfEvict (addr size ip : Z) : M Ctrl unit :=
  notify (mkNotification (u32 size) addr addr 0 ip NotifyAccessType.EVICT NotifyResultType.NA).

(** ** Messages *)

(** Forward a copy of a request towards memory; [LAST_CMD] keeps the command. *)
Definition forwardMessage (event : EventPtr) (requestSize baseTime : Z) (data : option (list Z))
    (fwdCmd : Command.t) : M Ctrl Z :=
  e ← deref event;
  c ← getc;
  let f := if decide (fwdCmd = Command.LAST_CMD) then e else e <| cmd_ := fwdCmd |> in
  let f := match data with None => setPayload [] f | Some _ => f end in
  let f := setSize requestSize f in
  let f := match data with None => f | Some d => setPayload d f end in
  let baseTime := if baseTime <? timestamp_ c then timestamp_ c else baseTime in
  let '(f, deliveryTime) :=
    if queryFlag F_NONCACHEABLE e
    then (setFlag F_NONCACHEABLE f, u64 (timestamp_ c + mshrLatency_ c))
    else (f, u64 (baseTime + tagLatency_ c)) in
  p ← new_event f;
  forwardByAddress p deliveryTime ;; mret deliveryTime.

Definition sendNACK (event : EventPtr) : M Ctrl unit :=
  e ← deref event;
  nack ← getsR (fun _ => makeNACKResponse event e);
  p ← new_event nack;
  c ← getc;
  forwardByDestination p (u64 (timestamp_ c + tagLatency_ c)).

(** Resend after a NACK, with an exponential backoff. *)
Definition resendEvent (event : EventPtr) (towardsCPU : bool) : M Ctrl unit :=
  e ← deref event;
  let retries := if 10 <? retries_ e then 10 else retries_ e in
  if retries <? 0 then undefined "shift by a negative amount"
  else
    let backoff := Z.shiftl 1 retries in
    e' ← getsR (fun _ => incrementRetries e);
    set_event event e' ;;
    c ← getc;
    forwardByDestination event (u64 (timestamp_ c + mshrLatency_ c + backoff)).

Definition sendResponseUp_base (event : EventPtr) (cmd : Command.t) (data : option (list Z))
    (dirty replay : bool) (baseTime : Z) (success : bool) : M Ctrl Z :=
  e ← deref event;
  r ← getsR (fun _ => makeResponseCmd cmd e);
  let r := setSize (MemEvent.size_ e) r in
  let r := match data with Some d => setPayload d r | None => r end in
  let r := r <| dirty_ := dirty |> in
  let r := if success then r else setFail r in
  p ← new_event r;
  c ← getc;
  let baseTime := if baseTime <? timestamp_ c then timestamp_ c else baseTime in
  let deliveryTime := u64 (baseTime + (if replay then mshrLatency_ c else accessLatency_ c)) in
  forwardByDestination p deliveryTime ;; mret deliveryTime.

(** [new MemEvent(cachename_, addr, baseAddr, cmd)]. *)
Definition create_event (addr baseAddr : Z) (cmd : Command.t) : M Ctrl EventPtr :=
  c ← getc;
  modify (fun c => c <| idCount_ ::= N.succ |>) ;;
  new_event (new_MemEvent (generateUniqueId (idCount_ c)) (cachename_ c) addr baseAddr cmd).

(** ** MSHR allocation *)

Definition allocateMSHR (event : EventPtr) (fwdReq : bool) (pos : Z) (stallEvict : bool)
    : M Ctrl MemEventStatus.t :=
  e ← deref event;
  c ← getc;
  let local := prefetch_ e && bool_decide (rqstr_ e = cachename_ c) in
  if local && (dropPrefetchLevel_ c <=? u64 (getSize (mshr_ c))) then mret MemEventStatus.Reject
  else if local && (maxOutstandingPrefetch_ c <=? outstandingPrefetches_ c) then
    mret MemEventStatus.Reject
  else
    end_pos ← on_mshr (insertEvent (now_ c) (baseAddr_ e) event pos fwdReq stallEvict);
    if end_pos =? -1 then mret MemEventStatus.Reject
    else
      when (prefetch_ e) (modify (fun c => c <| outstandingPrefetches_ ::= fun n => u64 (n + 1) |>)) ;;
      mret (if end_pos =? 0 then MemEventStatus.OK else MemEventStatus.Stall).

(** ** Latency records *)

(** [std::map::insert] keeps an existing record. *)
Definition recordIncomingRequest (event : EventPtr) : M Ctrl unit :=
  e ← deref event;
  modify (fun c =>
    match startTimes_ c !! eventID_ e with
    | Some _ => c
    | None => c <| startTimes_ ::= <[eventID_ e := mkLatencyStat (timestamp_ c) (cmd_ e) (-1)]> |>
    end).
Definition removeRequestRecord (id : id_type) : M Ctrl unit :=
  modify (fun c => c <| startTimes_ ::= delete id |>).
Definition recordLatencyType (id : id_type) (type : Z) : M Ctrl unit :=
  modify (fun c => c <| startTimes_ ::= alter (fun l => l <| ls_missType := type |>) id |>).
Definition recordMiss (id : id_type) : M Ctrl unit := recordLatencyType id LatType.MISS.
Definition recordPrefetchLatency (id : id_type) (type : Z) : M Ctrl unit :=
  c ← getc;
  match startTimes_ c !! id with
  | Some stat =>
      recordLatency (ls_cmd stat) type (u64 (timestamp_ c - ls_time stat)) ;;
      modify (fun c => c <| startTimes_ ::= delete id |>)
  | None => skip
  end.
End controller.

(** ** Choice of subcomponents *)

(** [createHashFunction]: which function a value of [hash_function] selects when
    no subcomponent is given. The [else] belongs to the second test only. *)
Module HashKind.
Inductive t := linear | xor | none.
#[global] Instance eq_dec : EqDecision t.
Proof. solve_decision. Defined.
End HashKind.
Definition createHashFunction (user : option HashKind.t) (hashFunc : Z) : HashKind.t :=
  match user with
  | Some ht => ht
  | None =>
      let ht := if hashFunc =? 1 then Some HashKind.linear else None in
      let ht := if hashFunc =? 2 then Some HashKind.xor else Some HashKind.none in
      default HashKind.none ht
  end.

Module PolicyKind.
Inductive t := lru | lru_opt | lfu | lfu_opt | mru | mru_opt | random | nmru.
#[global] Instance eq_dec : EqDecision t.
Proof. solve_decision. Defined.
End PolicyKind.
(** [policy] is already in lower case. *)
Definition createReplacementPolicy (user : option PolicyKind.t) (policy : string) (L1 : bool)
    : res PolicyKind.t :=
  match user with
  | Some p => Ok p
  | None =>
      if decide (policy = "lru"%string) then Ok (if L1 then PolicyKind.lru else PolicyKind.lru_opt)
      else if decide (policy = "lfu"%string) then Ok (if L1 then PolicyKind.lfu else PolicyKind.lfu_opt)
      else if decide (policy = "mru"%string) then Ok (if L1 then PolicyKind.mru else PolicyKind.mru_opt)
      else if decide (policy = "random"%string) then Ok PolicyKind.random
      else if decide (policy = "nmru"%string) then Ok PolicyKind.nmru
      else Err (Fatal "Invalid param: replacement_policy")
  end.

(** ** Order in the outgoing queues *)

Definition addr_of (heap : gmap N MemEvent) (r : Response) : option Z :=
  getRoutingAddress <$> heap !! r_event r.

Lemma insert_rev_split heap a resp rq l :
  insert_rev heap a resp rq = Ok l ->
  exists rq1 rq2, rq = rq1 ++ rq2 /\ l = rq1 ++ resp :: rq2 /\
    (forall x, x ∈ rq1 -> r_deliveryTime resp < r_deliveryTime x /\
                         exists b, addr_of heap x = Some b /\ b <> a) /\
    (forall x, head rq2 = Some x ->
       r_deliveryTime x <= r_deliveryTime resp \/ addr_of heap x = Some a).
Proof.
  revert l. induction rq as [|x rq IH]; intros l H; simpl in H.
  { injection H as <-. exists [], []. split_and!; [done|done|by intros ? ?%elem_of_nil|done]. }
  destruct (Z.leb_spec (r_deliveryTime x) (r_deliveryTime resp)).
  { injection H as <-. exists [], (x :: rq).
    split_and!; [done|done|by intros ? ?%elem_of_nil|intros y [= <-]; auto]. }
  unfold of_option in H. destruct (heap !! r_event x) as [e|] eqn:He; [|done].
  cbn [mbind res_bind] in H.
  destruct (Z.eqb_spec a (getRoutingAddress e)) as [->|Hne].
  { injection H as <-. exists [], (x :: rq).
    split_and!; [done|done|by intros ? ?%elem_of_nil|].
    intros y [= <-]. right. unfold addr_of. by rewrite He. }
  destruct (insert_rev heap a resp rq) as [l'|] eqn:El; [|done]. injection H as <-.
  destruct (IH l' eq_refl) as (rq1 & rq2 & -> & -> & H1 & H2).
  exists (x :: rq1), rq2. split_and!; [done|done| |done].
  intros y [->|Hy]%elem_of_cons; [|by apply H1]. split; [done|].
  exists (getRoutingAddress e). unfold addr_of. rewrite He. auto.
Qed.

Lemma insert_rev_total heap a resp rq :
  (forall x, x ∈ rq -> is_Some (heap !! r_event x)) -> exists l, insert_rev heap a resp rq = Ok l.
Proof.
  induction rq as [|x rq IH]; intros Hl; simpl; [eauto|].
  destruct (_ <=? _); [eauto|]. destruct (Hl x) as [e ->]; [by left|]. cbn [of_option mbind res_bind].
  destruct (_ =? _); [eauto|]. destruct IH as [l ->]; [|cbn; eauto].
  intros y Hy. apply Hl. by right.
Qed.

(** Queueing a message keeps the messages of every address in the order they
    were queued, the new one last, and does not move a message ahead of one it
    must not overtake: what it passes is strictly later and for another address. *)
Theorem queue_insert_fifo heap resp q a :
  addr_of heap resp = Some a ->
  (forall x, x ∈ q -> is_Some (heap !! r_event x)) ->
  exists q1 q2, q = q1 ++ q2 /\ queue_insert heap resp q = Ok (q1 ++ resp :: q2) /\
    (forall x, x ∈ q2 -> r_deliveryTime resp < r_deliveryTime x /\ addr_of heap x <> Some a) /\
    (forall x, last q1 = Some x ->
       r_deliveryTime x <= r_deliveryTime resp \/ addr_of heap x = Some a) /\
    forall b, filter (fun r => addr_of heap r = Some b) (q1 ++ resp :: q2)
      = filter (fun r => addr_of heap r = Some b) q ++ (if decide (a = b) then [resp] else []).
Proof.
  intros Ha Hl. unfold queue_insert.
  assert (exists e, heap !! r_event resp = Some e /\ getRoutingAddress e = a) as (e & He & <-).
  { unfold addr_of in Ha. destruct (heap !! r_event resp) as [e|]; [|done]. injection Ha as <-. eauto. }
  rewrite He. cbn [of_option mbind res_bind].
  destruct (insert_rev_total heap (getRoutingAddress e) resp (reverse q)) as [l El].
  { intros x Hx. rewrite elem_of_reverse in Hx. by apply Hl. }
  rewrite El. cbn [mbind res_bind].
  destruct (insert_rev_split _ _ _ _ _ El) as (rq1 & rq2 & Hq & -> & H1 & H2).
  apply (f_equal reverse) in Hq. rewrite reverse_involutive, reverse_app in Hq. subst q.
  exists (reverse rq2), (reverse rq1).
  assert (forall x, x ∈ reverse rq1 -> addr_of heap x <> Some (getRoutingAddress e)) as Hne.
  { intros x Hx. rewrite elem_of_reverse in Hx. destruct (H1 x Hx) as (_ & b & -> & Hb). congruence. }
  split_and!; [done| | | |].
  - by rewrite reverse_app, reverse_cons, <- app_assoc.
  - intros x Hx. split; [|by apply Hne]. rewrite elem_of_reverse in Hx. by apply H1.
  - intros x Hx. apply H2. by rewrite last_reverse in Hx.
  - intros b. rewrite !filter_app, filter_cons, Ha.
    case_decide as Hb; case_decide as Hb'; try congruence.
    + rewrite (filter_none _ (reverse rq1)); [by rewrite app_nil_r|].
      intros x Hx. injection Hb as <-. by apply Hne.
    + by rewrite app_nil_r.
Qed.

(** ** Bandwidth *)

Definition total_size (q : list Response) : Z := foldr (fun r n => r_size r + n) 0 q.

Lemma total_size_app q1 q2 : total_size (q1 ++ q2) = total_size q1 + total_size q2.
Proof. induction q1 as [|r q1 IH]; simpl; [done|]. unfold total_size in *. simpl. lia. Qed.

Lemma total_size_cons r q : total_size (r :: q) = r_size r + total_size q.
Proof. done. Qed.

(** The result of [drain], as a relation: what is sent, what stays, and the bytes
    taken off the message the loop stopped at. *)
Record drained (max now bytes : Z) (q sent rest : list Response) (used : Z) : Prop := {
  dr_order : q = sent ++ match rest with
                         | [] => []
                         | r :: rest' => r <| r_size ::= Z.add used |> :: rest'
                         end;
  dr_ready : forall r, r ∈ sent -> r_deliveryTime r <= now;
  dr_unlimited : max = 0 -> used = 0;
  dr_bandwidth : 0 < max -> 0 <= used /\ total_size sent + used <= bytes;
  dr_stop : forall r rest', rest = r :: rest' ->
    now < r_deliveryTime r \/ (0 < max /\ total_size sent + used = bytes)
}.

Lemma drained_stop max now bytes r q used :
  0 <= used <= bytes -> (max = 0 -> used = 0) ->
  now < r_deliveryTime r \/ (0 < max /\ used = bytes) ->
  drained max now bytes (r :: q) [] (r <| r_size ::= fun z => z - used |> :: q) used.
Proof.
  intros Hu H0 Hs. split; try done.
  - simpl. f_equal. destruct r. unfold update. cbn. f_equal. lia.
  - by intros ? ?%elem_of_nil.
  - intros ? ? [= <- _]. cbn. destruct Hs as [?|[? ?]]; [auto|]. right. split; [done|].
    unfold total_size. simpl. lia.
Qed.

Lemma drained_cons max now bytes r q sent rest used :
  r_deliveryTime r <= now -> 0 <= r_size r ->
  drained max now (if max =? 0 then bytes else bytes - r_size r) q sent rest used ->
  drained max now bytes (r :: q) (r :: sent) rest used.
Proof.
  intros Hr Hz [Ho Hre H0 Hb Hs].
  destruct (Z.eqb_spec max 0) as [E|E]; split; try done; try (intros; lia).
  - simpl. by f_equal.
  - intros x [->|?]%elem_of_cons; auto.
  - intros ? ? Hrest. destruct (Hs _ _ Hrest) as [?|[? ?]]; [auto|lia].
  - simpl. by f_equal.
  - intros x [->|?]%elem_of_cons; auto.
  - intros ?. rewrite total_size_cons. destruct Hb; [done|]. lia.
  - intros ? ? Hrest. rewrite total_size_cons. destruct (Hs _ _ Hrest) as [?|[? ?]]; [auto|].
    right. split; [done|lia].
Qed.

(** One cycle of a queue: what is sent is a prefix of the queue, ready, and in
    order; together with the bytes taken off the next message it stays within
    the bandwidth; and the loop stops only at an empty queue, a message that is
    not ready, or with the bandwidth used up. *)
Theorem drain_correct max now bytes q :
  0 <= bytes -> 0 <= max -> Forall (fun r => 0 <= r_size r) q ->
  exists sent rest used,
    drain max now bytes q = (sent, rest) /\ drained max now bytes q sent rest used.
Proof.
  intros Hb Hm Hsz. revert bytes Hb. induction Hsz as [|r q Hr Hsz IH]; intros bytes Hb; cbn [drain].
  { exists [], [], 0. split; [done|]. split; try done; [by intros ? ?%elem_of_nil|..];
    unfold total_size; simpl; lia. }
  assert (r <| r_size ::= fun z => z - 0 |> = r) as Hid
    by (destruct r; unfold update; cbn; f_equal; lia).
  destruct (Z.leb_spec (r_deliveryTime r) now) as [Hd|Hd]; cbn [negb].
  2: { exists [], (r :: q), 0. split; [done|]. rewrite <- Hid at 2. apply drained_stop; auto; lia. }
  destruct (Z.eqb_spec max 0) as [E|E].
  - destruct (IH bytes Hb) as (s & l & u & -> & Hq). exists (r :: s), l, u. split; [done|].
    apply drained_cons; [done|done|]. by rewrite E in *.
  - destruct (Z.eqb_spec bytes 0) as [->|Hnz].
    { exists [], (r :: q), 0. split; [done|]. rewrite <- Hid at 2. apply drained_stop; [lia|done|lia]. }
    destruct (Z.leb_spec (r_size r) bytes) as [Hle|Hle].
    + destruct (IH (bytes - r_size r)) as (s & l & u & -> & Hq); [lia|].
      exists (r :: s), l, u. split; [done|]. apply drained_cons; [done|done|].
      by destruct (Z.eqb_spec max 0).
    + eexists [], _, bytes. split; [done|]. apply drained_stop; lia.
Qed.

(** Cycles [now], [now + 1], ... of a queue nothing is added to. *)
Fixpoint drain_cycles (n : nat) (max now : Z) (q : list Response) : list Response :=
  match n with
  | O => []
  | S n => let '(sent, rest) := drain max now max q in sent ++ drain_cycles n max (now + 1) rest
  end.

(** No message waits for bandwidth for ever: a ready message at the head
    of a queue is sent within any positive number of cycles whose bandwidth covers
    its size. *)
Theorem head_is_sent n max now r q :
  0 < max -> 0 <= r_size r -> r_deliveryTime r <= now -> r_size r <= Z.of_nat n * max -> (0 < n)%nat ->
  exists r' sent, drain_cycles n max now (r :: q) = r' :: sent /\ r_event r' = r_event r.
Proof.
  intros Hm. revert now r. induction n as [|n IH]; intros now r Hz Hd Hs Hn; [lia|].
  cbn [drain_cycles drain].
  destruct (Z.leb_spec (r_deliveryTime r) now) as [_|?]; [cbn [negb]|lia].
  destruct (Z.eqb_spec max 0); [lia|].
  destruct (Z.leb_spec (r_size r) max) as [Hle|Hle].
  - destruct (drain max now (max - r_size r) q) as [s l]. simpl. eauto.
  - rewrite Nat2Z.inj_succ, Z.mul_succ_l in Hs.
    destruct (IH (now + 1) (r <| r_size ::= fun z => z - max |>)) as (r' & s & E & Er); cbn; try lia.
    exists r', s. split; [exact E|exact Er].
Qed.

(** [hash_function = 1] means to select the linear hash, but the
    second test overwrites the choice: no value selects it. *)
Theorem createHashFunction_never_linear hashFunc :
  createHashFunction None hashFunc <> HashKind.linear.
Proof. unfold createHashFunction. repeat case_match; done. Qed.

(** ** Limits on prefetches *)

(** [outstandingPrefetches_] counts prefetches up and is never counted down:
    it is a total, not the number in flight. Once it reaches the limit every
    prefetch of the cache's own prefetcher is rejected, without touching the
    MSHR. *)
Theorem prefetch_limit_rejects event e fwd pos stall c :
  heap_ c !! event = Some e -> prefetch_ e = true -> rqstr_ e = cachename_ c ->
  maxOutstandingPrefetch_ c <= outstandingPrefetches_ c ->
  allocateMSHR event fwd pos stall c = Ok (MemEventStatus.Reject, c).
Proof.
  intros He Hp Hr Hlim. unfold allocateMSHR, deref, getc, gets, getsR, mbind, M_bind.
  rewrite He. cbn [of_option]. rewrite Hp, Hr, bool_decide_true by done. cbn [andb].
  destruct (_ <=? u64 _); [done|]. destruct (Z.leb_spec (maxOutstandingPrefetch_ c) (outstandingPrefetches_ c));
    [done|lia].
Qed.

(** ** Examples *)

Definition demo_core : SSTCore := {| NO_ID := (0, 0); generateUniqueId n := (Z.of_N n + 1, 0) |}.

Definition demo_event (n addr : Z) (cmd : Command.t) : MemEvent :=
  new_MemEvent (core := demo_core) (n, 0) "cpu" addr addr cmd.

Definition demo_heap : gmap N MemEvent :=
  <[0%N := demo_event 1 64 Command.GetS]> (<[1%N := demo_event 2 128 Command.GetS]>
    (<[2%N := demo_event 3 64 Command.GetX]> ∅)).

(** A message for 64 ready at 5 passes one for 128 ready at 9, not one for 64. *)
Lemma queue_insert_fifo_witness :
  exists q1 q2, queue_insert demo_heap (mkResponse 2 5 8) [mkResponse 0 8 8; mkResponse 1 9 8]
      = Ok (q1 ++ mkResponse 2 5 8 :: q2) /\
    filter (fun r => addr_of demo_heap r = Some 64) (q1 ++ mkResponse 2 5 8 :: q2)
      = [mkResponse 0 8 8; mkResponse 2 5 8].
Proof.
  destruct (queue_insert_fifo demo_heap (mkResponse 2 5 8) [mkResponse 0 8 8; mkResponse 1 9 8] 64)
    as (q1 & q2 & _ & E & _ & _ & Hf); [by vm_compute| |].
  { intros x Hx. repeat (apply elem_of_cons in Hx as [->|Hx]; [by eexists; vm_compute|]).
    by apply elem_of_nil in Hx. }
  exists q1, q2. split; [done|]. rewrite Hf. by vm_compute.
Defined.

(** Six bytes of bandwidth: the first message goes, half of the second. *)
Lemma drain_correct_witness :
  exists rest used, drain 6 9 6 [mkResponse 0 8 4; mkResponse 1 9 8] = ([mkResponse 0 8 4], rest) /\
    drained 6 9 6 [mkResponse 0 8 4; mkResponse 1 9 8] [mkResponse 0 8 4] rest used.
Proof.
  destruct (drain_correct 6 9 6 [mkResponse 0 8 4; mkResponse 1 9 8]) as (s & l & u & E & H);
    [lia|lia|repeat constructor; cbn; lia|].
  assert (s = [mkResponse 0 8 4]) as -> by (vm_compute in E; congruence). eauto.
Defined.

Lemma head_is_sent_witness :
  exists r' sent, drain_cycles 3 4 9 [mkResponse 0 8 10; mkResponse 1 9 8] = r' :: sent /\
    r_event r' = 0%N.
Proof. apply (head_is_sent 3 4 9 (mkResponse 0 8 10) [mkResponse 1 9 8]); cbn; lia. Defined.

(** A controller with two latencies, 64-byte lines and no bandwidth limit. *)
Definition demo_ctrl (heap : gmap N MemEvent) (fresh : N) (mshr : MSHR) : Ctrl :=
  mkCtrl heap fresh 0 0 mshr 1 16 0 "l1" 10 4 2 1 64 false true false false false
    [] ∅ [] [] [] 0 0 8 [] [] [] [].

Definition demo_prefetch : MemEvent :=
  (demo_event 1 64 Command.GetS) <| prefetch_ := true |> <| rqstr_ := "l1"%string |>.

Lemma prefetch_limit_rejects_witness :
  let c := (demo_ctrl {[0%N := demo_prefetch]} 1 (new_MSHR 4)) <| outstandingPrefetches_ := 1 |> in
  allocateMSHR 0%N false (-1) false c = Ok (MemEventStatus.Reject, c).
Proof. by apply prefetch_limit_rejects with demo_prefetch. Defined.
