(* ===== verification/MesiL1.v ===== *)
(** * MesiL1: the MESI coherence manager of an L1 cache

    Models [coherencemgr/MESI_L1.h/.cc]: every event handler, the miss, eviction
    and clean-up functions they share, and the messages they send. The state is
    the base controller's ([cc]) with the cache array and the protocol
    configuration. A handler returns whether the event was accepted. A pointer to
    a line is the index of the line, null when it is [None]. *)

From S2P Require Import Prelude MemTypes MemEvent Hash Replacement Lines CacheArray Mshr Coherence.

Record L1 (P : Type) := mkL1 {
  cc : Ctrl;
  snoopL1Invs_ : bool;
  protocolState_ : State.t;
  llscBlockCycles_ : Z;
  cacheArray_ : CacheArray L1CacheLine.t P
}.
Arguments mkL1 {P}. Arguments cc {P}. Arguments snoopL1Invs_ {P}. Arguments protocolState_ {P}.
Arguments llscBlockCycles_ {P}. Arguments cacheArray_ {P}.
#[export] Instance L1_eta {P} : Eta (L1 P) := fun s =>
  mkL1 (cc s) (snoopL1Invs_ s) (protocolState_ s) (llscBlockCycles_ s) (cacheArray_ s).

(** The constructor, on a base controller and a replacement policy just created. *)
Definition new_MESIL1 {P} {HP : ReplacementPolicy P} (c : Ctrl) (snoop_l1_invalidations protocol : option bool)
    (llsc_block_cycles banks : option Z) (lines associativity : Z) (rmgr : P) : res (L1 P) :=
  a ← new_CacheArray lines associativity (lineSize_ c) rmgr;
  Ok (mkL1 c (default false snoop_l1_invalidations)
        (if default true protocol then State.E else State.S)
        (default 0 llsc_block_cycles) (a <| banks_ := default 0 banks |>)).

(** ** Functions that only touch the base controller *)

Section base_overrides.
Context {core : SSTCore} (linkUp linkDown : MemLink).

(** The latency arrays of loads and flushes have two elements, the others four. *)
Definition latency_stat (bound type : Z) (st : Stat.t) (latency : Z) : M Ctrl unit :=
  if (0 <=? type) && (type <? bound) then addData st latency
  else undefined "latency statistic index out of range".

Definition recordLatency (cmd : Command.t) (type latency : Z) : M Ctrl unit :=
  if type =? -1 then skip
  else match cmd with
       | Command.GetS => latency_stat 2 type (Stat.latencyGetS type) latency
       | Command.Write | Command.GetX => latency_stat 4 type (Stat.latencyGetX type) latency
       | Command.GetSX => latency_stat 4 type (Stat.latencyGetSX type) latency
       | Command.FlushLine => latency_stat 2 type (Stat.latencyFlushLine type) latency
       | Command.FlushLineInv => latency_stat 2 type (Stat.latencyFlushLineInv type) latency
       | _ => skip
       end.

Definition forwardByAddress (ev : EventPtr) (ts : Z) : M Ctrl unit :=
  e ← deref ev;
  addData (Stat.eventSent (cmd_ e)) 1 ;; base_forwardByAddress linkUp linkDown ev ts.
Definition forwardByDestination (ev : EventPtr) (ts : Z) : M Ctrl unit :=
  e ← deref ev;
  addData (Stat.eventSent (cmd_ e)) 1 ;; base_forwardByDestination linkUp linkDown ev ts.

Definition mesi_l1_virtuals : Virtuals := {|
  Coherence.forwardByAddress := forwardByAddress;
  Coherence.forwardByDestination := forwardByDestination;
  Coherence.recordLatency := recordLatency
|}.

(** The response to a request, sent to its source no earlier than [time], the
    time its line is free; the result is when the line is free again. *)
Definition sendResponseUp (event : EventPtr) (data : option (list Z)) (inMSHR : bool) (time : Z)
    (success : bool) : M Ctrl Z :=
  e ← deref event;
  r ← getsR (fun _ => makeResponse e);
  c ← getc;
  let '(r, latency) := match data with
    | Some d => (setSize (Z.of_nat (length d)) (setPayload d r), accessLatency_ c)
    | None => (r, if inMSHR then mshrLatency_ c else tagLatency_ c)
    end in
  let r := if success then r else setFail r in
  let deliveryTime := u64 (latency + (if time <? timestamp_ c then timestamp_ c else time)) in
  p ← new_event r;
  forwardByDestination p deliveryTime ;; mret deliveryTime.

(** Replay what waits at the front of [addr]'s register: an event, or one
    internal eviction event ([NULLCMD]) per address waiting for the line. *)
Definition push_evictions (addr : Z) (ptrs : list Z) : M Ctrl unit :=
  forM ptrs (fun a => p ← create_event addr a Command.NULLCMD; push_retry (Some p)).
Definition push_front_event (addr : Z) : M Ctrl unit :=
  o ← on_mshr (getFrontEvent addr); push_retry o ;; on_mshr (addPendingRetry addr).

Definition cleanUpAfterRequest (event : EventPtr) (inMSHR : bool) : M Ctrl unit :=
  e ← deref event;
  let addr := baseAddr_ e in
  when inMSHR (on_mshr (removeFront addr)) ;;
  delete_event event ;;
  c ← getc;
  if exists_ (mshr_ c) addr then
    t ← on_mshr (getFrontType addr);
    match t with
    | MSHREntryType.Event =>
        b ← on_mshr (getInProgress addr); when (negb b) (push_front_event addr)
    | MSHREntryType.Evict => ptrs ← on_mshr (getEvictPointers addr); push_evictions addr ptrs
    | MSHREntryType.Writeback => skip
    end
  else skip.

(** Unlike after a request, a writeback at the front is not expected here:
    [getEvictPointers] stops the simulation on it. *)
Definition cleanUpAfterResponse (event : EventPtr) (inMSHR : bool) : M Ctrl unit :=
  e ← deref event;
  let addr := baseAddr_ e in
  t ← on_mshr (getFrontType addr);
  req ← (if decide (t = MSHREntryType.Event) then on_mshr (getFrontEvent addr) else mret None);
  on_mshr (removeFront addr) ;;
  delete_event event ;;
  match req with Some r => delete_event r | None => skip end ;;
  c ← getc;
  if exists_ (mshr_ c) addr then
    t ← on_mshr (getFrontType addr);
    if decide (t = MSHREntryType.Event) then
      b ← on_mshr (getInProgress addr); when (negb b) (push_front_event addr)
    else ptrs ← on_mshr (getEvictPointers addr); push_evictions addr ptrs
  else skip.

Definition retry (addr : Z) : M Ctrl unit :=
  c ← getc;
  if exists_ (mshr_ c) addr then
    t ← on_mshr (getFrontType addr);
    if decide (t = MSHREntryType.Event) then push_front_event addr
    else
      b ← on_mshr (pendingWriteback addr);
      if b : bool then skip
      else ptrs ← on_mshr (getEvictPointers addr); push_evictions addr ptrs
  else skip.
End base_overrides.

(** ** The cache array and its lines *)

Section mesi_l1.
Context {core : SSTCore} (linkUp linkDown : MemLink).
Context {P : Type} {HP : ReplacementPolicy P} {hash_ : HashFunction}.
#[local] Instance virtuals : Virtuals := mesi_l1_virtuals linkUp linkDown.
Abbreviation St := (L1 P).
Abbreviation Line := (option nat).

Definition coh {A} (m : M Ctrl A) : M St A := zoom cc (fun c s => s <| cc := c |>) m.
Definition mshr {A} (m : M MSHR A) : M St A := coh (on_mshr m).
Definition arr {A} (m : M (CacheArray L1CacheLine.t P) A) : M St A :=
  zoom cacheArray_ (fun a s => s <| cacheArray_ := a |>) m.
Definition ctrl : M St Ctrl := gets cc.
Definition ev (p : EventPtr) : M St MemEvent := coh (deref p).

(** [line->f()], [line->g(...)]. *)
Definition line_get {A} (line : Line) (f : L1CacheLine.t -> A) : M St A :=
  match line with None => null_deref | Some i => l ← arr (get_line i); mret (f l) end.
Definition line_set (line : Line) (g : L1CacheLine.t -> L1CacheLine.t) : M St unit :=
  match line with None => null_deref | Some i => l ← arr (get_line i); arr (set_line i (g l)) end.
Definition line_setData (line : Line) (data : list Z) (offset : Z) : M St unit :=
  match line with
  | None => null_deref
  | Some i => l ← arr (get_line i);
              l' ← getsR (fun _ => L1CacheLine.setData data offset l); arr (set_line i l')
  end.
Definition line_setState (line : Line) (st : State.t) : M St unit :=
  line_set line (L1CacheLine.setState st).
Definition line_setTimestamp (line : Line) (ts : Z) : M St unit :=
  line_set line (L1CacheLine.setTimestamp ts).
(** [line ? line->getState() : I]. *)
Definition line_state (line : Line) : M St State.t :=
  match line with None => mret State.I | Some _ => line_get line L1CacheLine.getState end.
Definition line_locked (line : Line) : M St bool :=
  c ← ctrl; line_get line (L1CacheLine.isLocked (timestamp_ c)).
(** The bytes [begin + offset, begin + offset + size) of a line. *)
Definition line_bytes (line : Line) (offset size : Z) : M St (list Z) :=
  d ← line_get line L1CacheLine.getData; getsR (fun _ => vec_slice d offset size).

(** [event->getPayload()] allocates the payload of the event itself. *)
Definition event_payload (event : EventPtr) : M St (list Z) :=
  e ← ev event;
  let '(p, e') := getPayload e in coh (set_event event e') ;; mret p.

Definition recordPrefetchResult (line : Line) (stat : Stat.t) : M St unit :=
  p ← line_get line L1CacheLine.getPrefetch;
  when p (coh (addData stat 1) ;; line_set line (L1CacheLine.setPrefetch false)).

(** [!inMSHR || !mshr_->getProfiled(addr)]. *)
Definition unprofiled (addr : Z) (inMSHR : bool) : M St bool :=
  if inMSHR then p ← mshr (getProfiled addr); mret (negb p) else mret true.

(** ** Messages about a line *)

Definition sendResponseDown (event : EventPtr) (line : Line) (data : bool) : M St unit :=
  e ← ev event;
  r ← getsR (fun _ => makeResponse e);
  r ← (if data then
         d ← line_get line L1CacheLine.getData;
         st ← line_get line L1CacheLine.getState;
         mret (let r := setPayload d r in if decide (st = State.M) then r <| dirty_ := true |> else r)
       else mret r);
  c ← ctrl;
  p ← coh (new_event (setSize (lineSize_ c) r));
  coh (forwardByDestination linkUp linkDown p
         (u64 (timestamp_ c + (if data then accessLatency_ c else tagLatency_ c)))).

Definition forwardFlush (event : EventPtr) (line : Line) (evict : bool) : M St unit :=
  e ← ev event;
  c ← ctrl;
  f ← (if evict then
         d ← line_get line L1CacheLine.getData;
         st ← line_get line L1CacheLine.getState;
         mret (setPayload d (e <| isEvict_ := true |>) <| dirty_ := bool_decide (st = State.M) |>)
       else mret (setPayload [] e));
  ts ← (match line with None => mret 0 | Some _ => line_get line L1CacheLine.getTimestamp end);
  let baseTime := if timestamp_ c <? ts then ts else timestamp_ c in
  let deliveryTime := u64 (baseTime + (if evict then accessLatency_ c else tagLatency_ c)) in
  p ← coh (new_event f);
  coh (forwardByAddress linkUp linkDown p deliveryTime) ;;
  match line with None => skip | Some _ => line_setTimestamp line (u64 (deliveryTime - 1)) end.

Definition sendWriteback (cmd : Command.t) (line : Line) (dirty : bool) : M St unit :=
  a ← line_get line L1CacheLine.getAddr;
  p ← coh (create_event a a cmd);
  w ← ev p;
  c ← ctrl;
  let w := setSize (lineSize_ c) w in
  let with_data := dirty || writebackCleanBlocks_ c in
  w ← (if with_data then
         d ← line_get line L1CacheLine.getData; mret (setPayload d w <| dirty_ := dirty |>)
       else mret w);
  coh (set_event p (w <| rqstr_ := cachename_ c |>)) ;;
  ts ← line_get line L1CacheLine.getTimestamp;
  let baseTime := if ts <? timestamp_ c then timestamp_ c else ts in
  let deliveryTime := u64 (baseTime + (if with_data then accessLatency_ c else tagLatency_ c)) in
  coh (forwardByAddress linkUp linkDown p deliveryTime) ;;
  line_setTimestamp line (u64 (deliveryTime - 1)).

(** Tell every CPU that the line may be lost. *)
Definition snoopInvalidation (event : EventPtr) (line : Line) : M St unit :=
  s ← gets (fun s => s);
  if snoopL1Invs_ s && bool_decide (is_Some line) then
    forM (cpus (cc s)) (fun name =>
      e ← ev event;
      p ← coh (create_event (addr_ e) (baseAddr_ e) Command.Inv);
      c ← ctrl;
      ts ← line_get line L1CacheLine.getTimestamp;
      let baseTime := if ts <? timestamp_ c then timestamp_ c else ts in
      snoop ← ev p;
      coh (set_event p (snoop <| dst_ := name |>)) ;;
      coh (forwardByDestination linkUp linkDown p (u64 (baseTime + tagLatency_ c))))
  else skip.

(** ** Misses and evictions *)

(** [handleEviction] once the line is chosen. The second and third guard of a
    stable state fall through to the default case, since they test the same
    counter: a line with pending retries is not evicted. Returns whether the
    line may go. *)
Definition evict_line (line : Line) : M St bool :=
  state ← line_get line L1CacheLine.getState;
  locked ← line_locked line;
  if locked : bool then coh (addData Stat.eventStalledForLock 1) ;; mret false
  else
    coh (addData (Stat.evict state) 1) ;;
    la ← line_get line L1CacheLine.getAddr;
    c ← ctrl;
    let writeback cmd dirty :=
      sendWriteback cmd line dirty ;;
      when (recvWritebackAck_ c) (mshr (insertWriteback (now_ c) la false) ;; skip) in
    let evict (send : M St unit) :=
      retries ← mshr (getPendingRetries la);
      if retries =? 0 then
        send ;; line_setState line State.I ;;
        line_set line L1CacheLine.atomicEnd ;;
        recordPrefetchResult line Stat.PrefetchEvict ;; mret true
      else mret false in
    match state with
    | State.I => mret true
    | State.S => evict (when (negb (silentEvictClean_ c)) (writeback Command.PutS false))
    | State.E => evict (when (negb (silentEvictClean_ c)) (writeback Command.PutE false))
    | State.M => evict (writeback Command.PutM true)
    | _ => mret false
    end.

(** The line is passed by reference: a null one becomes the candidate. *)
Definition handleEviction (addr : Z) (line : Line) : M St (bool * Line) :=
  line ← (match line with None => i ← arr (findReplacementCandidate addr); mret (Some i)
                        | Some i => mret (Some i) end);
  evicted ← evict_line line; mret (evicted, line).

Definition allocateLine (event : EventPtr) (line : Line) : M St Line :=
  e ← ev event;
  '(evicted, line) ← handleEviction (baseAddr_ e) line;
  la ← line_get line L1CacheLine.getAddr;
  c ← ctrl;
  if evicted : bool then
    coh (notifyListenerOfEvict la (lineSize_ c) (instPtr_ e)) ;;
    match line with None => null_deref | Some i => arr (replace (baseAddr_ e) i) end ;; mret line
  else
    mshr (insertEviction (now_ c) la (baseAddr_ e)) ;; mret None.

Definition processCacheMiss (event : EventPtr) (line : Line) (inMSHR : bool) : M St MemEventStatus.t :=
  e ← ev event;
  status ← (if inMSHR then
              front ← mshr (getFrontEvent (baseAddr_ e));
              mret (if decide (front = Some event) then MemEventStatus.OK else MemEventStatus.Stall)
            else coh (allocateMSHR event false (-1) false));
  if bool_decide (status = MemEventStatus.OK) && bool_decide (line = None) then
    l ← allocateLine event line;
    mret (match l with Some _ => MemEventStatus.OK | None => MemEventStatus.Stall end)
  else mret status.

Definition accepted (status : MemEventStatus.t) : bool :=
  negb (bool_decide (status = MemEventStatus.Reject)).

(** What a request does in a transient state. *)
Definition stall (event : EventPtr) (inMSHR : bool) : M St MemEventStatus.t :=
  if inMSHR then mret MemEventStatus.OK else coh (allocateMSHR event false (-1) false).

Definition stat_request (cmd : Command.t) (state : State.t) : M St unit :=
  coh (addData (Stat.eventState cmd state) 1).
Definition notify_access (event : EventPtr) (a : NotifyAccessType.t) (r : NotifyResultType.t)
    : M St unit := coh (notifyListenerOfAccess event a r).

(** ** Requests from above *)

Definition handleGetS (event : EventPtr) (inMSHR : bool) : M St bool :=
  e ← ev event;
  let addr := baseAddr_ e in
  line ← arr (lookup addr true);
  c ← ctrl;
  let localPrefetch := prefetch_ e && bool_decide (rqstr_ e = cachename_ c) in
  state ← line_state line;
  when inMSHR (mshr (removePendingRetry addr)) ;;
  status ←
    (match state with
     | State.I =>
         status ← processCacheMiss event line inMSHR;
         (if decide (status = MemEventStatus.OK) then
            line ← arr (lookup addr false);
            p ← mshr (getProfiled addr);
            when (negb p)
              (coh (recordLatencyType (eventID_ e) LatType.MISS) ;;
               stat_request Command.GetS State.I ;;
               coh (addData (Stat.miss 0 inMSHR) 1) ;; coh (addData Stat.misses 1) ;;
               notify_access event NotifyAccessType.READ NotifyResultType.MISS ;;
               mshr (setProfiled addr)) ;;
            sendTime ← coh (forwardMessage event (lineSize_ c) 0 None Command.LAST_CMD);
            line_setState line State.IS ;;
            line_setTimestamp line sendTime ;;
            mshr (setInProgress addr true)
          else coh (recordMiss (eventID_ e))) ;;
         mret status
     | State.S | State.E | State.M =>
         u ← unprofiled addr inMSHR;
         when u
           (coh (recordLatencyType (eventID_ e) LatType.HIT) ;;
            stat_request Command.GetS state ;;
            coh (addData (Stat.hit 0 inMSHR) 1) ;; coh (addData Stat.hits 1) ;;
            notify_access event NotifyAccessType.READ NotifyResultType.HIT) ;;
         (if localPrefetch then
            coh (addData Stat.PrefetchRedundant 1) ;;
            coh (recordPrefetchLatency (eventID_ e) LatType.HIT) ;;
            coh (cleanUpAfterRequest event inMSHR)
          else
            recordPrefetchResult line Stat.PrefetchHit ;;
            s ← gets (fun s => s);
            when (isLoadLink e)
              (line_set line (L1CacheLine.atomicStart (u64 (timestamp_ c + llscBlockCycles_ s)))) ;;
            data ← line_bytes line (u64 (addr_ e - baseAddr_ e)) (MemEvent.size_ e);
            ts ← line_get line L1CacheLine.getTimestamp;
            sendTime ← coh (sendResponseUp linkUp linkDown event (Some data) inMSHR ts true);
            line_setTimestamp line (u64 (sendTime - 1)) ;;
            coh (cleanUpAfterRequest event inMSHR)) ;;
         mret MemEventStatus.OK
     | _ => stall event inMSHR
     end);
  mret (accepted status).

(** The upgrade a last-level cache does without asking: a shared line becomes
    modified at once. Returns the state the request then sees. *)
Definition upgrade_if_last_level (line : Line) (state : State.t) : M St State.t :=
  c ← ctrl;
  if bool_decide (state = State.S) && lastLevel_ c
  then line_setState line State.M ;; mret State.M
  else mret state.

(** The bookkeeping of the first time a request for ownership misses. *)
Definition profile_miss (event : EventPtr) (inMSHR : bool) (cmd : Command.t) (row : Z)
    (state : State.t) (a : NotifyAccessType.t) (lat : Z) : M St unit :=
  e ← ev event;
  p ← mshr (getProfiled (baseAddr_ e));
  when (negb p)
    (notify_access event a NotifyResultType.MISS ;;
     stat_request cmd state ;;
     coh (addData (Stat.miss row inMSHR) 1) ;; coh (addData Stat.misses 1) ;;
     coh (recordLatencyType (eventID_ e) lat) ;;
     mshr (setProfiled (baseAddr_ e))).
Definition profile_hit (event : EventPtr) (inMSHR : bool) (cmd : Command.t) (row : Z)
    (state : State.t) (a : NotifyAccessType.t) : M St unit :=
  e ← ev event;
  u ← unprofiled (baseAddr_ e) inMSHR;
  when u
    (notify_access event a NotifyResultType.HIT ;;
     coh (recordLatencyType (eventID_ e) LatType.HIT) ;;
     stat_request cmd state ;;
     coh (addData (Stat.hit row inMSHR) 1) ;; coh (addData Stat.hits 1)).

(** Ask below for the line and wait for it in state [pending]. *)
Definition request_line (event : EventPtr) (line : Line) (fwdCmd : Command.t) (pending : State.t)
    : M St unit :=
  e ← ev event;
  c ← ctrl;
  sendTime ← coh (forwardMessage event (lineSize_ c) 0 None fwdCmd);
  line_setState line pending ;;
  line_setTimestamp line sendTime ;;
  mshr (setInProgress (baseAddr_ e) true).

(** A write that has the line: a store-conditional without a reservation does
    not write. Returns whether it succeeded. *)
Definition write_line (req : EventPtr) (line : Line) (offset : Z) : M St bool :=
  r ← ev req;
  atomic ← line_get line L1CacheLine.isAtomic;
  success ← (if negb (isStoreConditional r) || atomic then
               payload ← event_payload req;
               line_setData line payload offset ;;
               line_set line L1CacheLine.atomicEnd ;; mret true
             else mret false);
  when (queryFlag F_LOCKED r) (line_set line L1CacheLine.decLock) ;;
  mret success.

Definition handleGetX (event : EventPtr) (inMSHR : bool) : M St bool :=
  e ← ev event;
  let addr := baseAddr_ e in
  line ← arr (lookup addr true);
  state ← line_state line;
  when inMSHR (mshr (removePendingRetry addr)) ;;
  state ← upgrade_if_last_level line state;
  status ←
    (match state with
     | State.I =>
         status ← processCacheMiss event line inMSHR;
         (if decide (status = MemEventStatus.OK) then
            line ← arr (lookup addr false);
            profile_miss event inMSHR Command.GetX 1 State.I NotifyAccessType.WRITE LatType.MISS ;;
            request_line event line Command.GetX State.IM
          else coh (recordMiss (eventID_ e))) ;;
         mret status
     | State.S =>
         status ← processCacheMiss event line inMSHR;
         when (bool_decide (status = MemEventStatus.OK))
           (profile_miss event inMSHR Command.GetX 1 State.S NotifyAccessType.WRITE LatType.UPGRADE ;;
            recordPrefetchResult line Stat.PrefetchUpgradeMiss ;;
            request_line event line Command.GetX State.SM) ;;
         mret status
     | State.E | State.M =>
         when (bool_decide (state = State.E)) (line_setState line State.M) ;;
         recordPrefetchResult line Stat.PrefetchHit ;;
         profile_hit event inMSHR Command.GetX 1 state NotifyAccessType.WRITE ;;
         success ← write_line event line (u64 (addr_ e - baseAddr_ e));
         ts ← line_get line L1CacheLine.getTimestamp;
         sendTime ← coh (sendResponseUp linkUp linkDown event None inMSHR ts success);
         line_setTimestamp line (u64 (sendTime - 1)) ;;
         coh (cleanUpAfterRequest event inMSHR) ;;
         mret MemEventStatus.OK
     | _ => stall event inMSHR
     end);
  mret (accepted status).

Definition handleWrite (event : EventPtr) (inMSHR : bool) : M St bool := handleGetX event inMSHR.

(** [std::copy(begin + offset, begin + offset + size, data.begin())] into an
    empty vector: writing any byte is undefined. *)
Definition copy_to_empty (bytes : list Z) : res (list Z) :=
  match bytes with [] => Ok [] | _ => Err (Undefined "copy past the end of an empty vector") end.

(** On a miss the new line is not looked up again after [processCacheMiss]
    allocates it: [line] is still null. *)
Definition handleGetSX (event : EventPtr) (inMSHR : bool) : M St bool :=
  e ← ev event;
  let addr := baseAddr_ e in
  line ← arr (lookup addr true);
  state ← line_state line;
  when inMSHR (mshr (removePendingRetry addr)) ;;
  state ← upgrade_if_last_level line state;
  status ←
    (match state with
     | State.I =>
         status ← processCacheMiss event line inMSHR;
         (if decide (status = MemEventStatus.OK) then
            profile_miss event inMSHR Command.GetSX 2 State.I NotifyAccessType.READ LatType.MISS ;;
            request_line event line Command.LAST_CMD State.IM
          else coh (recordMiss (eventID_ e))) ;;
         mret status
     | State.S =>
         status ← processCacheMiss event line inMSHR;
         when (bool_decide (status = MemEventStatus.OK))
           (profile_miss event inMSHR Command.GetSX 2 State.S NotifyAccessType.WRITE LatType.UPGRADE ;;
            recordPrefetchResult line Stat.PrefetchUpgradeMiss ;;
            request_line event line Command.LAST_CMD State.SM) ;;
         mret status
     | State.E | State.M =>
         when (bool_decide (state = State.E)) (line_setState line State.M) ;;
         recordPrefetchResult line Stat.PrefetchHit ;;
         profile_hit event inMSHR Command.GetSX 2 state NotifyAccessType.READ ;;
         line_set line L1CacheLine.incLock ;;
         bytes ← line_bytes line (u64 (addr_ e - baseAddr_ e)) (MemEvent.size_ e);
         data ← getsR (fun _ => copy_to_empty bytes);
         ts ← line_get line L1CacheLine.getTimestamp;
         sendTime ← coh (sendResponseUp linkUp linkDown event (Some data) inMSHR ts true);
         line_setTimestamp line (u64 (sendTime - 1)) ;;
         coh (cleanUpAfterRequest event inMSHR) ;;
         mret MemEventStatus.OK
     | _ => stall event inMSHR
     end);
  mret (accepted status).

(** ** Flushes *)

(** Answer a flush of a locked line: it fails. *)
Definition fail_flush (event : EventPtr) (line : Line) (inMSHR : bool) (cmd : Command.t)
    (state : State.t) : M St bool :=
  e ← ev event;
  u ← unprofiled (baseAddr_ e) inMSHR;
  when u (stat_request cmd state ;; coh (recordLatencyType (eventID_ e) LatType.MISS)) ;;
  ts ← line_get line L1CacheLine.getTimestamp;
  coh (sendResponseUp linkUp linkDown event None inMSHR ts false) ;;
  coh (cleanUpAfterRequest event inMSHR) ;;
  mret true.

Definition allocate_or_reject (event : EventPtr) : M St bool :=
  st ← coh (allocateMSHR event false (-1) false); mret (accepted st).

Definition handleFlushLine (event : EventPtr) (inMSHR : bool) : M St bool :=
  e ← ev event;
  let addr := baseAddr_ e in
  line ← arr (lookup addr false);
  state ← line_state line;
  c ← ctrl;
  if negb inMSHR && exists_ (mshr_ c) addr then allocate_or_reject event
  else
    when inMSHR (mshr (removePendingRetry addr)) ;;
    locked ← (if decide (state = State.I) then mret false else line_locked line);
    if locked : bool then fail_flush event line inMSHR Command.FlushLine state
    else
      ok ← (if inMSHR then mret true else allocate_or_reject event);
      if negb ok then mret false
      else
        p ← mshr (getProfiled addr);
        when (negb p)
          (stat_request Command.FlushLine state ;;
           coh (recordLatencyType (eventID_ e) LatType.HIT) ;;
           mshr (setProfiled addr)) ;;
        mshr (setInProgress addr true) ;;
        forwardFlush event line (bool_decide (state = State.E) || bool_decide (state = State.M)) ;;
        when (bool_decide (is_Some line) && negb (bool_decide (state = State.I)))
          (line_setState line State.S_B) ;;
        mret true.

Definition handleFlushLineInv (event : EventPtr) (inMSHR : bool) : M St bool :=
  e ← ev event;
  let addr := baseAddr_ e in
  line ← arr (lookup addr false);
  state ← line_state line;
  c ← ctrl;
  if negb inMSHR && exists_ (mshr_ c) addr then allocate_or_reject event
  else
    when inMSHR (mshr (removePendingRetry addr)) ;;
    waiting ← (if inMSHR then
                 front ← mshr (getFrontEvent addr); mret (negb (bool_decide (front = Some event)))
               else mret false);
    if waiting : bool then mret true
    else
      locked ← (if decide (state = State.I) then mret false else line_locked line);
      if locked : bool then fail_flush event line inMSHR Command.FlushLineInv state
      else
        ok ← (if inMSHR then mret true else allocate_or_reject event);
        if negb ok then mret false
        else
          mshr (setInProgress addr true) ;;
          p ← mshr (getProfiled addr);
          when (negb p)
            (stat_request Command.FlushLineInv state ;;
             when (bool_decide (is_Some line)) (recordPrefetchResult line Stat.PrefetchEvict) ;;
             mshr (setProfiled addr)) ;;
          let present := negb (bool_decide (state = State.I)) in
          forwardFlush event line present ;;
          when present (line_setState line State.I_B) ;;
          coh (recordLatencyType (eventID_ e) LatType.HIT) ;;
          mret true.

(** ** Requests from below *)

(** Give the line up (or part of the rights to it): the reservation ends, the
    answer goes down, and the line moves to [next]. *)
Definition surrender (event : EventPtr) (line : Line) (data : bool) (next : State.t) : M St unit :=
  line_set line L1CacheLine.atomicEnd ;;
  sendResponseDown event line data ;;
  line_setState line next.

Definition handleFetch (event : EventPtr) (inMSHR : bool) : M St bool :=
  e ← ev event;
  line ← arr (lookup (baseAddr_ e) false);
  state ← line_state line;
  snoopInvalidation event line ;;
  when inMSHR (mshr (removePendingRetry (baseAddr_ e))) ;;
  (match state with
   | State.S | State.SM | State.S_B => sendResponseDown event line true
   | State.I | State.IS | State.IM | State.I_B => skip
   | _ => fatal "Received Fetch in unhandled state"
   end) ;;
  stat_request Command.Fetch state ;;
  coh (delete_event event) ;; mret true.

Definition handleInv (event : EventPtr) (inMSHR : bool) : M St bool :=
  e ← ev event;
  line ← arr (lookup (baseAddr_ e) false);
  state ← line_state line;
  when inMSHR (mshr (removePendingRetry (baseAddr_ e))) ;;
  snoopInvalidation event line ;;
  stat_request Command.Inv state ;;
  when (bool_decide (is_Some line)) (recordPrefetchResult line Stat.PrefetchInv) ;;
  (match state with
   | State.S | State.S_B => surrender event line false State.I
   | State.SM => surrender event line false State.IM
   | State.I_B => line_setState line State.I
   | State.IS | State.IM | State.I => skip
   | _ => fatal "Received Inv in unhandled state"
   end) ;;
  coh (delete_event event) ;; mret true.

(** An invalidation or downgrade of a locked line waits at the front of the
    MSHR. [None] means go on, [Some b] means return [b]. *)
Definition stall_for_lock (event : EventPtr) (line : Line) (inMSHR : bool) : M St (option bool) :=
  locked ← line_locked line;
  if locked : bool then
    ok ← (if inMSHR then mret true
          else st ← coh (allocateMSHR event true 0 false); mret (accepted st));
    when ok (coh (addData Stat.eventStalledForLock 1)) ;; mret (Some ok)
  else mret None.

(** Finish a request from below: note that it was seen. *)
Definition profile_inv (cmd : Command.t) (state : State.t) (line : Line) : M St unit :=
  stat_request cmd state ;;
  when (bool_decide (is_Some line)) (recordPrefetchResult line Stat.PrefetchInv).

(** Neither deletes the event nor removes its MSHR entry when it is replayed. *)
Definition handleForceInv (event : EventPtr) (inMSHR : bool) : M St bool :=
  e ← ev event;
  line ← arr (lookup (baseAddr_ e) false);
  state ← line_state line;
  when inMSHR (mshr (removePendingRetry (baseAddr_ e))) ;;
  snoopInvalidation event line ;;
  stop ←
    (match state with
     | State.S | State.E | State.M | State.S_B =>
         r ← stall_for_lock event line inMSHR;
         match r with
         | Some b => mret (Some b)
         | None => surrender event line false State.I ;; mret None
         end
     | State.I_B => line_setState line State.I ;; mret None
     | State.I | State.IS | State.IM => mret None
     | State.SM => surrender event line false State.IM ;; mret None
     | _ => fatal "Received ForceInv in unhandled state"
     end);
  match stop with
  | Some b => mret b
  | None => profile_inv Command.ForceInv state line ;; mret true
  end.

(** Deletes the event, but does not remove its MSHR entry when it is replayed. *)
Definition handleFetchInv (event : EventPtr) (inMSHR : bool) : M St bool :=
  e ← ev event;
  line ← arr (lookup (baseAddr_ e) false);
  state ← line_state line;
  when inMSHR (mshr (removePendingRetry (baseAddr_ e))) ;;
  snoopInvalidation event line ;;
  match state with
  | State.I | State.IS | State.IM =>
      stat_request Command.FetchInv state ;; coh (delete_event event) ;; mret true
  | _ =>
      stop ←
        (match state with
         | State.M =>
             r ← stall_for_lock event line inMSHR;
             match r with
             | Some b => mret (Some b)
             | None => surrender event line true State.I ;; mret None
             end
         | State.S | State.E | State.S_B => surrender event line true State.I ;; mret None
         | State.I_B => line_setState line State.I ;; mret None
         | State.SM => surrender event line true State.IM ;; mret None
         | _ => fatal "Received FetchInv in unhandled state"
         end);
      match stop with
      | Some b => mret b
      | None =>
          profile_inv Command.FetchInv state line ;; coh (delete_event event) ;; mret true
      end
  end.

Definition handleFetchInvX (event : EventPtr) (inMSHR : bool) : M St bool :=
  e ← ev event;
  line ← arr (lookup (baseAddr_ e) false);
  state ← line_state line;
  when inMSHR (mshr (removePendingRetry (baseAddr_ e))) ;;
  snoopInvalidation event line ;;
  stop ←
    (match state with
     | State.E | State.M =>
         r ← stall_for_lock event line inMSHR;
         match r with
         | Some b => mret (Some b)
         | None => surrender event line true State.S ;; mret None
         end
     | State.I | State.IS | State.IM | State.I_B | State.S_B => mret None
     | _ => fatal "Received FetchInvX in unhandled state"
     end);
  match stop with
  | Some b => mret b
  | None =>
      stat_request Command.FetchInvX state ;;
      (if inMSHR then coh (cleanUpAfterRequest event inMSHR) else coh (delete_event event)) ;;
      mret true
  end.

(** ** Responses from below *)

Definition front_request (addr : Z) : M St EventPtr :=
  o ← mshr (getFrontEvent addr); coh (the_event o).

(** [req->setMemFlags(event->getMemFlags())]. *)
Definition copy_memFlags (req event : EventPtr) : M St unit :=
  e ← ev event; r ← ev req; coh (set_event req (r <| memFlags_ := memFlags_ e |>)).

Definition is_local_prefetch (req : EventPtr) : M St bool :=
  r ← ev req; c ← ctrl; mret (prefetch_ r && bool_decide (rqstr_ r = cachename_ c)).

(** Answer the waiting request with its bytes of the line. *)
Definition respond_with_line (req : EventPtr) (line : Line) (offset : Z) (success : bool) : M St unit :=
  r ← ev req;
  data ← line_bytes line offset (MemEvent.size_ r);
  ts ← line_get line L1CacheLine.getTimestamp;
  sendTime ← coh (sendResponseUp linkUp linkDown req (Some data) true ts success);
  line_setTimestamp line (u64 (sendTime - 1)).

Definition fill_line (event : EventPtr) (line : Line) : M St unit :=
  payload ← event_payload event; line_setData line payload 0.

Definition start_reservation (req : EventPtr) (line : Line) : M St unit :=
  r ← ev req; s ← gets (fun s => s);
  when (isLoadLink r)
    (line_set line (L1CacheLine.atomicStart (u64 (timestamp_ (cc s) + llscBlockCycles_ s)))).

Definition handleGetSResp (event : EventPtr) (inMSHR : bool) : M St bool :=
  e ← ev event;
  let addr := baseAddr_ e in
  line ← arr (lookup addr false);
  state ← line_state line;
  stat_request Command.GetSResp state ;;
  req ← front_request addr;
  localPrefetch ← is_local_prefetch req;
  copy_memFlags req event ;;
  fill_line event line ;;
  line_setState line State.S ;;
  start_reservation req line ;;
  r ← ev req;
  (if localPrefetch : bool then
     line_set line (L1CacheLine.setPrefetch true) ;;
     coh (recordPrefetchLatency (eventID_ r) LatType.MISS)
   else
     copy_memFlags req event ;;
     respond_with_line req line (u64 (addr_ r - addr)) true) ;;
  coh (cleanUpAfterResponse event inMSHR) ;; mret true.

Definition handleGetXResp (event : EventPtr) (inMSHR : bool) : M St bool :=
  e ← ev event;
  let addr := baseAddr_ e in
  line ← arr (lookup addr false);
  state ← line_state line;
  stat_request Command.GetXResp state ;;
  req ← front_request addr;
  localPrefetch ← is_local_prefetch req;
  copy_memFlags req event ;;
  r ← ev req;
  let offset := u64 (addr_ r - addr) in
  (match state with
   | State.IS =>
       s ← gets (fun s => s);
       fill_line event line ;;
       line_setState line (if dirty_ e then State.M else protocolState_ s) ;;
       start_reservation req line ;;
       (if localPrefetch : bool then
          line_set line (L1CacheLine.setPrefetch true) ;;
          coh (recordPrefetchLatency (eventID_ r) LatType.MISS)
        else respond_with_line req line offset true)
   | State.IM | State.SM =>
       when (bool_decide (state = State.IM)) (fill_line event line) ;;
       line_setState line State.M ;;
       success ← (if bool_decide (cmd_ r = Command.Write) || bool_decide (cmd_ r = Command.GetX)
                  then write_line req line offset
                  else line_set line L1CacheLine.incLock ;; mret true);
       respond_with_line req line offset success
   | _ => fatal "Received GetXResp in unhandled state"
   end) ;;
  coh (cleanUpAfterResponse event inMSHR) ;; mret true.

(** The call [sendResponseUp(req, nullptr, timestamp_, event->success())] passes
    the timestamp as [inMSHR] and the success as [time]; [success] defaults to
    true. *)
Definition handleFlushLineResp (event : EventPtr) (inMSHR : bool) : M St bool :=
  e ← ev event;
  let addr := baseAddr_ e in
  line ← arr (lookup addr false);
  state ← line_state line;
  stat_request Command.FlushLineResp state ;;
  o ← mshr (getFrontEvent addr);
  (match state with
   | State.I => skip
   | State.I_B => line_setState line State.I ;; line_set line L1CacheLine.atomicEnd
   | State.S_B => line_setState line State.S
   | _ => fatal "Received FlushLineResp in unhandled state"
   end) ;;
  req ← coh (the_event o);
  c ← ctrl;
  coh (sendResponseUp linkUp linkDown req None (negb (timestamp_ c =? 0))
         (if MemEvent.success e then 1 else 0) true) ;;
  coh (cleanUpAfterResponse event inMSHR) ;; mret true.

Definition handleAckPut (event : EventPtr) (inMSHR : bool) : M St bool :=
  e ← ev event;
  line ← arr (lookup (baseAddr_ e) false);
  state ← line_state line;
  stat_request Command.AckPut state ;;
  coh (cleanUpAfterResponse event inMSHR) ;; mret true.

(** ** Internal events *)

(** [NULLCMD]: evict [addr_] to make room for [baseAddr_]. *)
Definition handleNULLCMD (event : EventPtr) (inMSHR : bool) : M St bool :=
  e ← ev event;
  let oldAddr := addr_ e in
  let newAddr := baseAddr_ e in
  line ← arr (lookup oldAddr false);
  '(evicted, line) ← handleEviction newAddr line;
  la ← line_get line L1CacheLine.getAddr;
  c ← ctrl;
  let release :=
    b ← mshr (removeEvictPointer oldAddr newAddr);
    when b (coh (retry oldAddr)) in
  (if evicted : bool then
     coh (notifyListenerOfEvict la (lineSize_ c) (instPtr_ e)) ;;
     match line with None => null_deref | Some i => arr (deallocate i) end ;;
     o ← mshr (getFrontEvent newAddr);
     coh (push_retry o) ;;
     mshr (addPendingRetry newAddr) ;;
     release
   else if oldAddr =? la then skip
   else mshr (insertEviction (now_ c) la newAddr) ;; release) ;;
  coh (delete_event event) ;; mret true.

Definition handleNACK (event : EventPtr) (inMSHR : bool) : M St bool :=
  e ← ev event;
  line ← arr (lookup (baseAddr_ e) false);
  coh (delete_event event) ;;
  nacked ← coh (the_event (NACKedEvent_ e));
  coh (resendEvent nacked false) ;; mret true.

(** ** Configuration *)

Definition getInitCoherenceEvent (s : St) : MemEventInitCoherence :=
  mkInitCoherence (cachename_ (cc s)) Endpoint.Cache true false false (lineSize_ (cc s)) true.

Definition getValidReceiveEvents : list Command.t :=
  [Command.GetS; Command.GetX; Command.Write; Command.GetSX; Command.FlushLine;
   Command.FlushLineInv; Command.Inv; Command.ForceInv; Command.Fetch; Command.FetchInv;
   Command.FetchInvX; Command.NULLCMD; Command.GetSResp; Command.GetXResp;
   Command.FlushLineResp; Command.AckPut; Command.NACK].

Definition setSliceAware (interleaveSize interleaveStep : Z) : M St unit :=
  arr (CacheArray.setSliceAware interleaveSize interleaveStep).

Definition getBank (addr : Z) (s : St) : res Z := CacheArray.getBank (cacheArray_ s) addr.

(** Which handler an event runs: the overridden ones, and the base class's
    refusal for the rest. *)
Definition handle (cmd : Command.t) (event : EventPtr) (inMSHR : bool) : M St bool :=
  match cmd with
  | Command.GetS => handleGetS event inMSHR
  | Command.GetX => handleGetX event inMSHR
  | Command.Write => handleWrite event inMSHR
  | Command.GetSX => handleGetSX event inMSHR
  | Command.FlushLine => handleFlushLine event inMSHR
  | Command.FlushLineInv => handleFlushLineInv event inMSHR
  | Command.GetSResp => handleGetSResp event inMSHR
  | Command.GetXResp => handleGetXResp event inMSHR
  | Command.FlushLineResp => handleFlushLineResp event inMSHR
  | Command.FetchInv => handleFetchInv event inMSHR
  | Command.FetchInvX => handleFetchInvX event inMSHR
  | Command.ForceInv => handleForceInv event inMSHR
  | Command.Inv => handleInv event inMSHR
  | Command.Fetch => handleFetch event inMSHR
  | Command.AckPut => handleAckPut event inMSHR
  | Command.NACK => handleNACK event inMSHR
  | Command.NULLCMD => handleNULLCMD event inMSHR
  | _ => coh (unhandled event inMSHR)
  end.
End mesi_l1.
