(* ===== verification/CtrlRuns.v ===== *)
(** * CtrlRuns: what the operations of the base controller return

    Specifications, in total correctness, of the operations of [Coherence] that
    the functional theorems about handlers use. Statistics, notifications and
    latency records are observations: states that differ only in them are [quiet]
    equivalent. *)

From S2P Require Import Prelude MemTypes MemEvent Mshr Coherence MesiL1.

(** Forget statistics, notifications and latency records. *)
Definition hush (c : Ctrl) : Ctrl := c <| stats_ := [] |> <| notified_ := [] |> <| startTimes_ := ∅ |>.
Definition quiet (c c' : Ctrl) : Prop := hush c' = hush c.

#[export] Instance quiet_equivalence : Equivalence quiet.
Proof. split; unfold quiet; [by intros ?|by intros ? ? ->|by intros ? ? ? -> ->]. Qed.

(** The rest of the controller is the same. *)
Section quiet_fields.
Context {c c' : Ctrl} (H : quiet c c').
Ltac field f := apply (f_equal f) in H; exact H.
Lemma quiet_heap : heap_ c' = heap_ c. Proof. field heap_. Qed.
Lemma quiet_fresh : fresh_ c' = fresh_ c. Proof. field fresh_. Qed.
Lemma quiet_idCount : idCount_ c' = idCount_ c. Proof. field idCount_. Qed.
Lemma quiet_mshr : mshr_ c' = mshr_ c. Proof. field mshr_. Qed.
Lemma quiet_now : now_ c' = now_ c. Proof. field now_. Qed.
Lemma quiet_name : cachename_ c' = cachename_ c. Proof. field cachename_. Qed.
Lemma quiet_timestamp : timestamp_ c' = timestamp_ c. Proof. field timestamp_. Qed.
Lemma quiet_accessLatency : accessLatency_ c' = accessLatency_ c. Proof. field accessLatency_. Qed.
Lemma quiet_tagLatency : tagLatency_ c' = tagLatency_ c. Proof. field tagLatency_. Qed.
Lemma quiet_mshrLatency : mshrLatency_ c' = mshrLatency_ c. Proof. field mshrLatency_. Qed.
Lemma quiet_lineSize : lineSize_ c' = lineSize_ c. Proof. field lineSize_. Qed.
Lemma quiet_header : packetHeaderBytes c' = packetHeaderBytes c. Proof. field packetHeaderBytes. Qed.
Lemma quiet_up : outgoingEventQueueUp_ c' = outgoingEventQueueUp_ c.
Proof. field outgoingEventQueueUp_. Qed.
Lemma quiet_down : outgoingEventQueueDown_ c' = outgoingEventQueueDown_ c.
Proof. field outgoingEventQueueDown_. Qed.
Lemma quiet_retry : retryBuffer_ c' = retryBuffer_ c. Proof. field retryBuffer_. Qed.
Lemma quiet_writebackAck : recvWritebackAck_ c' = recvWritebackAck_ c.
Proof. field recvWritebackAck_. Qed.
End quiet_fields.

(** An update of other fields respects [quiet]. *)
Definition hushes (f : Ctrl -> Ctrl) : Prop := forall c, hush (f c) = hush (f (hush c)).
Lemma quiet_update f c c' : hushes f -> quiet c c' -> quiet (f c) (f c').
Proof. intros Hf H. unfold quiet in *. by rewrite Hf, H, <- Hf. Qed.

(** The queued messages refer to live events, and the next event is a new one. *)
Record ctrl_live (c : Ctrl) : Prop := {
  cl_up : forall x, x ∈ outgoingEventQueueUp_ c -> is_Some (heap_ c !! r_event x);
  cl_down : forall x, x ∈ outgoingEventQueueDown_ c -> is_Some (heap_ c !! r_event x);
  cl_fresh : forall p, is_Some (heap_ c !! p) -> (p < fresh_ c)%N
}.
Lemma live_fresh c : ctrl_live c -> heap_ c !! fresh_ c = None.
Proof.
  intros [_ _ Hf]. destruct (heap_ c !! fresh_ c) eqn:E; [|done].
  specialize (Hf (fresh_ c)). rewrite E in Hf. specialize (Hf ltac:(eauto)). lia.
Qed.
Lemma quiet_live c c' : quiet c c' -> ctrl_live c -> ctrl_live c'.
Proof.
  intros Hq [H1 H2 H3]. split; rewrite ?(quiet_heap Hq), ?(quiet_up Hq), ?(quiet_down Hq), ?(quiet_fresh Hq); done.
Qed.

Lemma queue_insert_total heap resp q :
  is_Some (heap !! r_event resp) -> (forall x, x ∈ q -> is_Some (heap !! r_event x)) ->
  exists q1 q2, q = q1 ++ q2 /\ queue_insert heap resp q = Ok (q1 ++ resp :: q2).
Proof.
  intros [e He] Hq. unfold queue_insert. rewrite He. cbn [of_option mbind res_bind].
  destruct (insert_rev_total heap (getRoutingAddress e) resp (reverse q)) as [l El].
  { intros x Hx. rewrite elem_of_reverse in Hx. by apply Hq. }
  rewrite El. cbn [mbind res_bind]. apply insert_rev_split in El as (q1 & q2 & E & -> & _).
  exists (reverse q2), (reverse q1). split.
  - by rewrite <- (reverse_involutive q), E, reverse_app.
  - by rewrite reverse_app, reverse_cons, <- app_assoc.
Qed.

Lemma queue_insert_replaced p e' resp heap q :
  r_event resp = p -> (forall x, x ∈ q -> is_Some (heap !! r_event x)) ->
  exists q1 q2, q = q1 ++ q2 /\ queue_insert (<[p := e']> heap) resp q = Ok (q1 ++ resp :: q2).
Proof.
  intros <- Hq. apply queue_insert_total; [rewrite lookup_insert_eq; eauto|].
  intros x Hx. destruct (decide (r_event x = r_event resp)) as [->|].
  - rewrite lookup_insert_eq. eauto.
  - rewrite lookup_insert_ne by done. by apply Hq.
Qed.

Section ctrl_runs.
Context {core : SSTCore} (linkUp linkDown : MemLink).
Implicit Types (c : Ctrl) (e : MemEvent).

Lemma runs_deref p c e (Q : MemEvent -> Ctrl -> Prop) :
  heap_ c !! p = Some e -> Q e c -> runs (deref p) c Q.
Proof. intros He H. eapply runs_getsR; [|exact H]. by rewrite He. Qed.

Lemma runs_quiet f c : hush (f c) = hush c -> runs (modify f) c (fun _ c' => quiet c c').
Proof. intros H. by apply runs_modify. Qed.
Lemma runs_addData st v c : runs (addData st v) c (fun _ c' => quiet c c').
Proof. by apply runs_quiet. Qed.
Lemma runs_recordLatencyType id ty c : runs (recordLatencyType id ty) c (fun _ c' => quiet c c').
Proof. by apply runs_quiet. Qed.
Lemma runs_notifyAccess p a r c e :
  heap_ c !! p = Some e -> runs (notifyListenerOfAccess p a r) c (fun _ c' => quiet c c').
Proof. intros He. apply runs_bind. eapply runs_deref; [done|]. by apply runs_quiet. Qed.

Lemma runs_new_event e c (Q : EventPtr -> Ctrl -> Prop) :
  Q (fresh_ c) (c <| heap_ ::= <[fresh_ c := e]> |> <| fresh_ ::= N.succ |>) ->
  runs (new_event e) c Q.
Proof. intros H. apply runs_bind, runs_gets, runs_bind, runs_modify. by apply runs_ret. Qed.

Lemma runs_delete_event p c e (Q : unit -> Ctrl -> Prop) :
  heap_ c !! p = Some e -> Q tt (c <| heap_ ::= delete p |>) -> runs (delete_event p) c Q.
Proof. intros He H. apply runs_bind. eapply runs_deref; [done|]. by apply runs_modify. Qed.

(** A message to the CPU side, by destination. *)
Definition queued_up (p : EventPtr) (e : MemEvent) (q' : list Response) (c : Ctrl) : Ctrl :=
  c <| heap_ ::= <[p := e]> |> <| outgoingEventQueueUp_ := q' |>.
Definition queued_down (p : EventPtr) (e : MemEvent) (q' : list Response) (c : Ctrl) : Ctrl :=
  c <| heap_ ::= <[p := e]> |> <| outgoingEventQueueDown_ := q' |>.

(** What an event held before it is queued does not matter. *)
Lemma queued_up_overwrites p e0 e q' c :
  queued_up p e q' (c <| heap_ ::= <[p := e0]> |>) = queued_up p e q' c.
Proof. destruct c. unfold queued_up, update. cbn. by rewrite insert_insert_eq. Qed.
Lemma queued_down_overwrites p e0 e q' c :
  queued_down p e q' (c <| heap_ ::= <[p := e0]> |>) = queued_down p e q' c.
Proof. destruct c. unfold queued_down, update. cbn. by rewrite insert_insert_eq. Qed.
Lemma fresh_after_write c p e :
  c <| heap_ ::= <[p := e]> |> <| fresh_ ::= N.succ |> = (c <| fresh_ ::= N.succ |>) <| heap_ ::= <[p := e]> |>.
Proof. by destruct c. Qed.

Definition message_of (p : EventPtr) (ts : Z) (e : MemEvent) (c : Ctrl) : Response :=
  mkResponse p ts (u64 (packetHeaderBytes c + getPayloadSize e)).

(** [forwardByDestination] of an event at [p], to the CPU side. *)
Lemma runs_forwardByDestination_up p e ts c :
  heap_ c !! p = Some e -> isReachable linkUp (dst_ e) = true ->
  (forall x, x ∈ outgoingEventQueueUp_ c -> is_Some (heap_ c !! r_event x)) ->
  exists q1 q2, outgoingEventQueueUp_ c = q1 ++ q2 /\
    runs (MesiL1.forwardByDestination linkUp linkDown p ts) c
      (fun _ c' => quiet (queued_up p (e <| src_ := cachename_ c |>) (q1 ++ message_of p ts e c :: q2) c) c').
Proof.
  intros He Hr Hlive.
  destruct (queue_insert_replaced p (e <| src_ := cachename_ c |>) (message_of p ts e c)
    (heap_ c) (outgoingEventQueueUp_ c)) as (q1 & q2 & Eq & Hq); [done|done|].
  exists q1, q2. split; [done|].
  unfold forwardByDestination, base_forwardByDestination.
  apply runs_bind. eapply runs_deref; [done|].
  eapply runs_step; [apply runs_addData|]. intros [] c1 H1.
  apply runs_bind. eapply runs_deref; [by rewrite (quiet_heap H1)|].
  apply runs_bind, runs_gets, runs_bind, runs_modify.
  replace (isReachable linkUp _) with true.
  apply runs_bind. eapply runs_getsR.
  { cbn. rewrite (quiet_name H1), (quiet_heap H1), (quiet_up H1), (quiet_header H1). exact Hq. }
  apply runs_modify. rewrite (quiet_name H1).
  by apply (quiet_update (queued_up p (e <| src_ := cachename_ c |>) _)).
Qed.

Lemma runs_forwardByDestination_down p e ts c :
  heap_ c !! p = Some e -> isReachable linkUp (dst_ e) = false -> isReachable linkDown (dst_ e) = true ->
  (forall x, x ∈ outgoingEventQueueDown_ c -> is_Some (heap_ c !! r_event x)) ->
  exists q1 q2, outgoingEventQueueDown_ c = q1 ++ q2 /\
    runs (MesiL1.forwardByDestination linkUp linkDown p ts) c
      (fun _ c' => quiet (queued_down p (e <| src_ := cachename_ c |>) (q1 ++ message_of p ts e c :: q2) c) c').
Proof.
  intros He Hu Hd Hlive.
  destruct (queue_insert_replaced p (e <| src_ := cachename_ c |>) (message_of p ts e c)
    (heap_ c) (outgoingEventQueueDown_ c)) as (q1 & q2 & Eq & Hq); [done|done|].
  exists q1, q2. split; [done|].
  unfold forwardByDestination, base_forwardByDestination.
  apply runs_bind. eapply runs_deref; [done|].
  eapply runs_step; [apply runs_addData|]. intros [] c1 H1.
  apply runs_bind. eapply runs_deref; [by rewrite (quiet_heap H1)|].
  apply runs_bind, runs_gets, runs_bind, runs_modify. cbn [dst_ update].
  rewrite Hu, Hd. apply runs_bind. eapply runs_getsR.
  { cbn. rewrite (quiet_name H1), (quiet_heap H1), (quiet_down H1), (quiet_header H1). exact Hq. }
  apply runs_modify. rewrite (quiet_name H1).
  by apply (quiet_update (queued_down p (e <| src_ := cachename_ c |>) _)).
Qed.

Lemma runs_forwardByAddress_down p e ts c d :
  heap_ c !! p = Some e -> findTargetDestination linkDown (getRoutingAddress e) = d -> d <> ""%string ->
  (forall x, x ∈ outgoingEventQueueDown_ c -> is_Some (heap_ c !! r_event x)) ->
  exists q1 q2, outgoingEventQueueDown_ c = q1 ++ q2 /\
    runs (MesiL1.forwardByAddress linkUp linkDown p ts) c
      (fun _ c' => quiet (queued_down p (e <| src_ := cachename_ c |> <| dst_ := d |>)
                            (q1 ++ message_of p ts e c :: q2) c) c').
Proof.
  intros He Hd Hne Hlive. set (e' := e <| src_ := cachename_ c |> <| dst_ := d |>).
  destruct (queue_insert_replaced p e' (message_of p ts e c)
    (heap_ c) (outgoingEventQueueDown_ c)) as (q1 & q2 & Eq & Hq); [done|done|].
  exists q1, q2. split; [done|].
  unfold forwardByAddress, base_forwardByAddress.
  apply runs_bind. eapply runs_deref; [done|].
  eapply runs_step; [apply runs_addData|]. intros [] c1 H1.
  apply runs_bind. eapply runs_deref; [by rewrite (quiet_heap H1)|].
  apply runs_bind, runs_gets. cbv zeta.
  change (getRoutingAddress (e <| src_ := _ |>)) with (getRoutingAddress e). rewrite Hd.
  rewrite bool_decide_false by done. cbn [negb].
  apply runs_bind, runs_modify, runs_bind. eapply runs_getsR.
  { cbn. rewrite (quiet_name H1), (quiet_heap H1), (quiet_down H1), (quiet_header H1). exact Hq. }
  apply runs_modify. rewrite (quiet_name H1). fold e'.
  by apply (quiet_update (queued_down p e' _)).
Qed.

(** ** Answers to the CPU *)

Definition answer (r : MemEvent) (data : option (list Z)) (success : bool) : MemEvent :=
  let r := match data with
           | Some d => setSize (Z.of_nat (length d)) (setPayload d r)
           | None => r
           end in
  if success then r else setFail r.

Definition answer_time (data : option (list Z)) (inMSHR : bool) (time : Z) (c : Ctrl) : Z :=
  u64 (match data with
       | Some _ => accessLatency_ c
       | None => if inMSHR then mshrLatency_ c else tagLatency_ c
       end + Z.max time (timestamp_ c)).

Lemma answer_dst r data b : dst_ (answer r data b) = dst_ r.
Proof. by destruct data, b. Qed.

Lemma makeResponse_eq e :
  makeResponse e = (fun rc => e <| responseToID_ := eventID_ e |> <| cmd_ := rc |>
    <| dst_ := src_ e |> <| src_ := dst_ e |>) <$> CommandResponse (cmd_ e).
Proof. unfold makeResponse, setResponse. destruct (CommandResponse (cmd_ e)); [|done]. by destruct e. Qed.

(** The event that answers [e], and the controller that has queued it. *)
Definition answered (r : MemEvent) (q' : list Response) (c : Ctrl) : Ctrl :=
  queued_up (fresh_ c) r q' (c <| fresh_ ::= N.succ |>).

Lemma runs_sendResponseUp p e r data inMSHR time success c :
  heap_ c !! p = Some e -> makeResponse e = Ok r -> isReachable linkUp (dst_ r) = true ->
  ctrl_live c ->
  exists q1 q2, outgoingEventQueueUp_ c = q1 ++ q2 /\
    let r' := (answer r data success) <| src_ := cachename_ c |> in
    let t := answer_time data inMSHR time c in
    runs (MesiL1.sendResponseUp linkUp linkDown p data inMSHR time success) c
      (fun a c' => a = t /\ quiet (answered r' (q1 ++ message_of (fresh_ c) t r' c :: q2) c) c').
Proof.
  intros He Hr Hup Hlive. pose proof (live_fresh _ Hlive) as Hfresh. destruct Hlive as [Hlu _ _].
  set (r1 := answer r data success). set (t := answer_time data inMSHR time c).
  set (c1 := c <| heap_ ::= <[fresh_ c := r1]> |> <| fresh_ ::= N.succ |>).
  assert (heap_ c1 = <[fresh_ c := r1]> (heap_ c)) as Hh by done.
  destruct (runs_forwardByDestination_up (fresh_ c) r1 t c1) as (q1 & q2 & Eq & Hrun).
  { by rewrite Hh, lookup_insert_eq. }
  { unfold r1. by rewrite answer_dst. }
  { intros x Hx. rewrite Hh. destruct (decide (r_event x = fresh_ c)) as [->|].
    - rewrite lookup_insert_eq. eauto.
    - rewrite lookup_insert_ne by done. by apply Hlu. }
  exists q1, q2. split; [exact Eq|]. cbv zeta. fold r1. fold t.
  unfold sendResponseUp. apply runs_bind. eapply runs_deref; [done|].
  apply runs_bind. eapply runs_getsR; [exact Hr|]. apply runs_bind, runs_gets.
  destruct (match data with Some d => _ | None => _ end) as [r2 lat] eqn:E.
  assert ((if success then r2 else setFail r2) = r1 /\
    u64 (lat + (if time <? timestamp_ c then timestamp_ c else time)) = t) as [-> ->].
  { unfold r1, t, answer, answer_time.
    assert ((if time <? timestamp_ c then timestamp_ c else time) = Z.max time (timestamp_ c)) as ->
      by (destruct (Z.ltb_spec time (timestamp_ c)); lia).
    by destruct data; injection E as <- <-. }
  apply runs_bind, runs_new_event. eapply runs_step; [exact Hrun|].
  intros [] c2 H2. apply runs_ret. split; [done|].
  unfold c1 in H2. rewrite fresh_after_write, queued_up_overwrites in H2. exact H2.
Qed.
End ctrl_runs.
