(* ===== verification/L1Demo.v ===== *)
(** * L1Demo: a small L1 cache

    Two lines of eight bytes, direct mapped, LRU, no hashing, between one CPU and
    one memory. The theorems about the L1 manager are applied to its runs. *)

From S2P Require Import Prelude MemTypes MemEvent Hash Replacement Lines CacheArray Mshr Coherence MesiL1.

#[export] Instance demo_sst : SSTCore := demo_core.
#[export] Instance demo_hash : HashFunction := NoHashFunction.hash.
Definition cpu_link : MemLink :=
  mkMemLink (fun _ => ""%string) (fun d => bool_decide (d = "cpu"%string)).
Definition mem_link : MemLink :=
  mkMemLink (fun _ => "mem"%string) (fun d => bool_decide (d = "mem"%string)).

(** The lines [ls] with the events [evs] at the pointers 0, 1, ... *)
Definition demo_l1_lines (ls : list L1CacheLine.t) : CacheArray L1CacheLine.t LRU.t :=
  mkCacheArray 2 2 1 3 8 (LRU.init 2 1) 1 1 1 ls.
Definition demo_l1 (ls : list L1CacheLine.t) (evs : list MemEvent) : L1 LRU.t :=
  mkL1 ((demo_ctrl (list_to_map (zip (N.of_nat <$> seq 0 (length evs)) evs)) (N.of_nat (length evs))
           (new_MSHR 4)) <| Coherence.lineSize_ := 8 |>)
    false State.E 100 (demo_l1_lines ls).

Definition empty_line (i : Z) : L1CacheLine.t := L1CacheLine.new 8 i.
Definition held_line (i addr : Z) (st : State.t) (data : list Z) : L1CacheLine.t :=
  L1CacheLine.mk (CacheLine.mk i addr st data 0 false) 0 false 0 false
    (mkReplacementInfo i st None).

(** A request of the CPU for [size] bytes at [addr], and an answer of memory to
    request [n] with a whole line. *)
Definition cpu_request (n addr size : Z) (cmd : Command.t) : MemEvent :=
  (new_MemEvent (core := demo_core) (n, 0) "cpu" addr (addr / 8 * 8) cmd)
    <| MemEvent.size_ := size |> <| dst_ := "l1"%string |> <| rqstr_ := "cpu"%string |>.
Definition mem_message (n addr : Z) (data : list Z) (cmd : Command.t) : MemEvent :=
  (new_MemEvent (core := demo_core) (n, 1) "mem" addr addr cmd)
    <| MemEvent.size_ := 8 |> <| dst_ := "l1"%string |> <| rqstr_ := "cpu"%string |>
    <| payload_ := data |>.

Definition demo_handle := handle (core := demo_sst) (P := LRU.t) cpu_link mem_link.

(** Whether a computation succeeds. *)
Definition succeeds {A} (r : res A) : bool := match r with Ok _ => true | Err _ => false end.
Lemma succeeds_Ok {A} (r : res A) : succeeds r = true -> exists a, r = Ok a.
Proof. destruct r; [eauto|done]. Qed.
Lemma succeeds_run {St A} (m : M St A) s : succeeds (m s) = true -> exists a s', m s = Ok (a, s').
Proof. intros [[a s'] ?]%succeeds_Ok. eauto. Qed.

(** A load that misses, its answer, a store and a load that hit. *)
Definition demo_run : M (L1 LRU.t) (list bool) :=
  b1 ← demo_handle Command.GetS 0%N false;
  b2 ← demo_handle Command.GetXResp 1%N false;
  b3 ← demo_handle Command.GetX 2%N false;
  b4 ← demo_handle Command.GetS 3%N false;
  mret [b1; b2; b3; b4].
Definition demo_start : L1 LRU.t :=
  demo_l1 [empty_line 0; empty_line 1]
    [cpu_request 1 18 4 Command.GetS; mem_message 1 16 [1; 2; 3; 4; 5; 6; 7; 8] Command.GetXResp;
     (cpu_request 2 18 2 Command.GetX) <| payload_ := [70; 71] |>; cpu_request 3 18 4 Command.GetS].

(** The load after the store returns the bytes stored. *)
Example demo_run_result :
  match demo_run demo_start with
  | Ok (bs, s) => bs = [true; true; true; true] /\
      (payload_ <$> last (omap (fun r => heap_ (cc s) !! r_event r) (outgoingEventQueueUp_ (cc s))))
        = Some [70; 71; 5; 6]
  | Err _ => False
  end.
Proof. vm_compute. split; reflexivity. Qed.
