(* ===== verification/L1Steps.v ===== *)
(** * L1Steps: how the handlers of the L1 manager touch lines

    A proof principle for [MesiL1]: a preorder on states that is closed under the
    few ways a handler may change a line (and under any change of the base
    controller) holds across every handler. The rules a relation must obey are
    the record [line_rules]; the relation may allow the drastic changes (a new
    coherence state, a replacement, bytes) only for lines satisfying a predicate [U],
    which a handler establishes by testing the line's state or its lock, or by looking
    up the address of its event. *)

From S2P Require Import Prelude MemTypes MemEvent Hash Replacement Lines CacheArray Mshr Coherence MesiL1.

(** Updates of a line that change neither its address, state, data nor lock. *)
Inductive benign : (L1CacheLine.t -> L1CacheLine.t) -> Prop :=
| benign_timestamp ts : benign (L1CacheLine.setTimestamp ts)
| benign_prefetch b : benign (L1CacheLine.setPrefetch b)
| benign_atomicStart t : benign (L1CacheLine.atomicStart t)
| benign_atomicEnd : benign L1CacheLine.atomicEnd.
#[export] Hint Constructors benign : steps.

(** The states a handler may move a line to; [ps] is the clean state of the
    configured protocol, which a fill without dirty data enters. *)
Definition may_enter (cmd : Command.t) (ps : State.t) : list State.t :=
  match cmd with
  | Command.GetS => [State.I; State.IS]
  | Command.GetX | Command.Write | Command.GetSX => [State.I; State.IM; State.SM; State.M]
  | Command.FlushLine => [State.S_B]
  | Command.FlushLineInv => [State.I_B]
  | Command.Inv | Command.ForceInv | Command.FetchInv => [State.I; State.IM]
  | Command.FetchInvX => [State.S]
  | Command.GetSResp => [State.S]
  | Command.GetXResp => [State.M; ps]
  | Command.FlushLineResp => [State.I; State.S]
  | Command.NULLCMD => [State.I]
  | _ => []
  end.

(** The handlers that write data into lines, or take and release locks. *)
Definition writes_lines (cmd : Command.t) : bool :=
  match cmd with
  | Command.GetX | Command.Write | Command.GetSX | Command.GetSResp | Command.GetXResp => true
  | _ => false
  end.

(** The handlers that test whether a line is in use before they change it. *)
Definition respects_use (cmd : Command.t) : bool :=
  match cmd with
  | Command.GetS | Command.GetX | Command.Write | Command.GetSX | Command.GetSResp
  | Command.GetXResp => false
  | _ => true
  end.

Create HintDb handlers discriminated.

Section l1_steps.
Context {core : SSTCore} (linkUp linkDown : MemLink).
Context {P : Type} {HP : ReplacementPolicy P} {hash_ : HashFunction}.
Abbreviation St := (L1 P).
Abbreviation Line := (option nat).

Definition lines (s : St) : list L1CacheLine.t := lines_ (cacheArray_ s).
Definition put_line (s : St) (i : nat) (l : L1CacheLine.t) : St :=
  s <| cacheArray_ ::= fun a => a <| lines_ ::= <[i := l]> |> |>.
Definition put_mgr (s : St) (m : P) : St :=
  s <| cacheArray_ ::= fun a => a <| replacementMgr_ := m |> |>.

Context (R : relation St) {HR : PreOrder R} (U : nat -> St -> Prop).
Context (st_ok : State.t -> Prop) (replace_ok : Prop).

Record line_rules : Prop := {
  lr_cc s c : R s (s <| cc := c |>);
  lr_mgr s m : R s (put_mgr s m);
  lr_stable s s' i : R s s' -> U i s -> U i s';
  lr_benign s i l f : lines s !! i = Some l -> benign f -> R s (put_line s i (f l));
  lr_state s i l st :
    lines s !! i = Some l -> U i s -> st_ok st -> R s (put_line s i (L1CacheLine.setState st l));
  lr_replace s i l a :
    replace_ok -> lines s !! i = Some l -> L1CacheLine.getState l = State.I -> U i s ->
    R s (put_line s i (L1CacheLine.setAddr a (L1CacheLine.reset l)));
  lr_deallocate s i l :
    replace_ok -> lines s !! i = Some l -> L1CacheLine.getState l = State.I -> U i s ->
    R s (put_line s i (L1CacheLine.reset l));
  lr_not_M s i l s' : lines s !! i = Some l -> L1CacheLine.getState l <> State.M -> (U i s -> R s s') -> R s s';
  lr_unlocked s i l t s' : lines s !! i = Some l -> L1CacheLine.isLocked t l = false -> (U i s -> R s s') -> R s s'
}.
Context (rules : line_rules).

(** The relation under the assumption that a line satisfies [U]. *)
Definition U_line (line : Line) (s : St) : Prop :=
  match line with Some i => U i s | None => True end.
Definition RU (line : Line) : relation St := fun s s' => U_line line s -> R s s'.

Lemma U_line_stable line s s' : R s s' -> U_line line s -> U_line line s'.
Proof. destruct line; [|done]. by apply (lr_stable rules). Qed.

#[local] Instance RU_preorder line : PreOrder (RU line).
Proof.
  split; [by intros s _|]. intros s s1 s2 H1 H2 HU.
  specialize (H1 HU). transitivity s1; [done|]. apply H2. by eapply U_line_stable.
Qed.

Lemma steps_RU {A} line (m : M St A) : steps R m -> steps (RU line) m.
Proof. intros H. eapply steps_mono; [done|]. by intros s s' ? _. Qed.

Lemma steps_coh {A} (m : M Ctrl A) : steps R (coh m).
Proof. eapply (steps_zoom R cc _ (fun _ _ => True)); [done|]. intros. apply (lr_cc rules). Qed.
Lemma steps_mshr {A} (m : M MSHR A) : steps R (MesiL1.mshr (P := P) m).
Proof. apply steps_coh. Qed.
Lemma steps_ev p : steps R (ev (P := P) p).
Proof. apply steps_coh. Qed.
Lemma steps_ctrl : steps R (ctrl (P := P)).
Proof. apply steps_gets. apply _. Qed.

Lemma steps_arr_get i : steps R (arr (get_line i)).
Proof.
  intros s l s'. unfold arr, zoom, get_line, getsR.
  destruct (of_option _ _); [|done]. intros [= _ <-]. by destruct s.
Qed.

Lemma steps_line_get {A} line (f : _ -> A) : steps R (line_get line f).
Proof.
  destruct line; [|apply steps_fail]. apply steps_bind; [apply _|apply steps_arr_get|].
  intros. apply steps_ret. apply _.
Qed.

Lemma arr_set_line i l s : arr (set_line i l) s = Ok (tt, put_line s i l).
Proof. done. Qed.

Lemma arr_get_line_Ok i s l s' :
  arr (get_line i) s = Ok (l, s') <-> lines s !! i = Some l /\ s' = s.
Proof.
  unfold arr, zoom, get_line, getsR, lines, of_option.
  destruct (lines_ (cacheArray_ s) !! i) eqn:E; [|naive_solver].
  split; [intros [= <- <-]; split; [done|by destruct s]|intros [[= <-] ->]; by destruct s].
Qed.

Lemma steps_line_set_at (Q : relation St) line g :
  (forall s i l, line = Some i -> lines s !! i = Some l -> Q s (put_line s i (g l))) ->
  steps Q (line_set line g).
Proof.
  intros Hg. destruct line as [i|]; [|apply steps_fail].
  intros s a s' (l & s1 & [Hl ->]%arr_get_line_Ok & [= _ <-])%bind_Ok. by apply Hg.
Qed.

Lemma steps_line_benign line g : benign g -> steps R (line_set line g).
Proof. intros Hg. apply steps_line_set_at. intros. by apply (lr_benign rules). Qed.
Lemma steps_line_setTimestamp line ts : steps R (line_setTimestamp line ts).
Proof. apply steps_line_benign. constructor. Qed.
Lemma steps_line_setState line st : st_ok st -> steps (RU line) (line_setState line st).
Proof. intros Hst. apply steps_line_set_at. intros s i l -> Hl HU. by apply (lr_state rules). Qed.

Lemma steps_line_state line : steps R (line_state line).
Proof. destruct line; [apply steps_line_get|apply steps_ret, _]. Qed.
Lemma steps_line_locked line : steps R (line_locked line).
Proof. apply steps_bind; [apply _|apply steps_ctrl|]. intros. apply steps_line_get. Qed.

Lemma steps_lookup addr u : steps R (arr (lookup addr u)).
Proof.
  intros s a s'. unfold arr, zoom, lookup, getsR, mbind, M_bind, when, on_policy.
  destruct (lookup_index (cacheArray_ s) addr) as [[i|]|]; [|..|done].
  - destruct u.
    + unfold zoom. destruct (rp_update _ _) as [[[] m]|]; [|done]. intros [= _ <-].
      exact (lr_mgr rules s m).
    + intros [= _ <-]. by destruct s.
  - intros [= _ <-]. by destruct s.
Qed.

Lemma steps_candidate addr : steps R (arr (findReplacementCandidate addr)).
Proof.
  intros s a s'. unfold arr, zoom, findReplacementCandidate, getsR, gets, mbind, M_bind, on_policy.
  destruct (set_of _ _); [|done]. unfold zoom.
  destruct (rp_findBestCandidate _ _) as [[id m]|]; [|done].
  destruct (at_index _ _); [|done]. intros [= _ <-]. exact (lr_mgr rules s m).
Qed.

(** What a test tells about a line. *)
Lemma line_state_Ok line s st s' :
  line_state line s = Ok (st, s') -> s' = s /\ (st <> State.M -> forall s2, (U_line line s -> R s s2) -> R s s2).
Proof.
  destruct line as [i|]; simpl; [|intros [= <- <-]; auto].
  intros (l & s1 & [Hl ->]%arr_get_line_Ok & [<- <-]%ret_Ok)%bind_Ok.
  split; [done|]. intros. by eapply (lr_not_M rules).
Qed.

Lemma line_locked_Ok line s b s' :
  line_locked line s = Ok (b, s') -> s' = s /\ (b = false -> forall s2, (U_line line s -> R s s2) -> R s s2).
Proof.
  intros (c & s1 & Hc & H)%bind_Ok. injection Hc as _ <-. destruct line as [i|]; [|done].
  apply bind_Ok in H as (l & s1 & [Hl ->]%arr_get_line_Ok & [<- <-]%ret_Ok).
  split; [done|]. intros. by eapply (lr_unlocked rules).
Qed.

Lemma steps_bind_state {A} line (k : State.t -> M St A) :
  (forall st, st <> State.M -> steps (RU line) (k st)) -> steps R (k State.M) ->
  steps R (line_state line ≫= k).
Proof.
  intros Hk HM s a s' (st & s1 & [-> HU]%line_state_Ok & H)%bind_Ok.
  destruct (decide (st = State.M)) as [->|Hne]; [by eapply HM|]. apply HU; [done|]. intros HU'. by eapply Hk.
Qed.

Lemma steps_bind_locked {A} line (k : bool -> M St A) :
  steps R (k true) -> steps (RU line) (k false) -> steps R (line_locked line ≫= k).
Proof.
  intros Ht Hf s a s' (b & s1 & [-> HU]%line_locked_Ok & H)%bind_Ok.
  destruct b; [by eapply Ht|]. apply HU; [done|]. intros HU'. by eapply Hf.
Qed.

(** The line an address is looked up in. *)
Lemma find_way_Ok (ls : list L1CacheLine.t) addr n i : forall begin,
  find_way ls addr begin n = Ok (Some i) -> exists l, ls !! i = Some l /\ L1CacheLine.getAddr l = addr.
Proof.
  induction n as [|n IH]; intros begin H; cbn [find_way] in H; [done|]. destruct (at_index ls begin) as [l|] eqn:E; [|done].
  cbn [mbind res_bind] in H. destruct (Z.eqb_spec (line_getAddr l) addr) as [Ea|]; [|by eapply IH].
  injection H as <-. apply at_index_Ok in E as [_ E]. by exists l.
Qed.
Lemma lookup_line_at addr u s line s' :
  arr (lookup addr u) s = Ok (line, s') -> lines s' = lines s /\
  forall i, line = Some i -> exists l, lines s !! i = Some l /\ L1CacheLine.getAddr l = addr.
Proof.
  unfold arr, zoom, lookup, getsR, mbind, M_bind, when, on_policy. destruct (lookup_index (cacheArray_ s) addr) as [[j|]|] eqn:E; [|..|done].
  - assert (Hi : exists l, lines s !! j = Some l /\ L1CacheLine.getAddr l = addr).
    { unfold lookup_index in E. destruct (set_of _ _); [|done]. by eapply find_way_Ok. }
    destruct u.
    + unfold zoom. destruct (rp_update _ _) as [[[] m]|]; [|done]. intros [= <- <-]. split; [done|]. by intros i [= <-].
    + intros [= <- <-]. split; [by destruct s|]. by intros i [= <-].
  - intros [= <- <-]. split; [by destruct s|done].
Qed.


#[local] Hint Resolve steps_coh steps_mshr steps_ev steps_ctrl steps_line_get steps_line_benign
  steps_line_setTimestamp steps_line_state steps_line_locked steps_lookup steps_candidate
  steps_arr_get : steps.

(** ** Messages and bookkeeping leave lines alone *)

Lemma steps_recordPrefetchResult line st : steps R (recordPrefetchResult line st).
Proof. unfold recordPrefetchResult. steps_walk. Qed.
Lemma steps_unprofiled addr b : steps R (unprofiled (P := P) addr b).
Proof. unfold unprofiled. steps_walk. Qed.
Lemma steps_sendResponseDown ev line data : steps R (sendResponseDown linkUp linkDown ev line data).
Proof. unfold sendResponseDown. steps_walk. Qed.
Lemma steps_forwardFlush ev line evict : steps R (forwardFlush linkUp linkDown ev line evict).
Proof. unfold forwardFlush. steps_walk. Qed.
Lemma steps_sendWriteback cmd line dirty : steps R (sendWriteback linkUp linkDown cmd line dirty).
Proof. unfold sendWriteback. steps_walk. Qed.
Lemma steps_snoopInvalidation ev line : steps R (snoopInvalidation linkUp linkDown ev line).
Proof. unfold snoopInvalidation. steps_walk. Qed.
Lemma steps_line_bytes line o n : steps R (line_bytes (P := P) line o n).
Proof. unfold line_bytes. steps_walk. Qed.
Lemma steps_event_payload p : steps R (event_payload (P := P) p).
Proof. unfold event_payload. steps_walk. Qed.
Lemma steps_stat_request cmd st : steps R (stat_request (P := P) cmd st).
Proof. apply steps_coh. Qed.
Lemma steps_notify_access p a r : steps R (notify_access (P := P) p a r).
Proof. apply steps_coh. Qed.
#[local] Hint Resolve steps_recordPrefetchResult steps_unprofiled steps_sendResponseDown
  steps_forwardFlush steps_sendWriteback steps_snoopInvalidation steps_line_bytes
  steps_event_payload steps_stat_request steps_notify_access : steps.

Lemma steps_allocate_or_reject p : steps R (allocate_or_reject (P := P) p).
Proof. apply steps_bind; [apply _|apply steps_coh|]. intros. apply steps_ret, _. Qed.
Lemma steps_stall p b : steps R (stall (P := P) p b).
Proof. unfold stall. steps_walk. Qed.
Lemma steps_fail_flush p line b cmd st : steps R (fail_flush linkUp linkDown p line b cmd st).
Proof. unfold fail_flush. steps_walk. Qed.
Lemma steps_profile_inv cmd st line : steps R (profile_inv (P := P) cmd st line).
Proof. unfold profile_inv. steps_walk. Qed.
Lemma steps_stall_for_lock p line b : steps R (stall_for_lock (P := P) p line b).
Proof. unfold stall_for_lock. steps_walk. Qed.
Lemma steps_profile_miss p b cmd row st a lat : steps R (profile_miss (P := P) p b cmd row st a lat).
Proof. unfold profile_miss. steps_walk. Qed.
Lemma steps_profile_hit p b cmd row st a : steps R (profile_hit (P := P) p b cmd row st a).
Proof. unfold profile_hit. steps_walk. Qed.
Lemma steps_front_request addr : steps R (front_request (P := P) addr).
Proof. unfold front_request. steps_walk. Qed.
Lemma steps_copy_memFlags p q : steps R (copy_memFlags (P := P) p q).
Proof. unfold copy_memFlags. steps_walk. Qed.
Lemma steps_is_local_prefetch p : steps R (is_local_prefetch (P := P) p).
Proof. unfold is_local_prefetch. steps_walk. Qed.
Lemma steps_respond_with_line p line o b : steps R (respond_with_line linkUp linkDown p line o b).
Proof. unfold respond_with_line. steps_walk. Qed.
Lemma steps_start_reservation p line : steps R (start_reservation (P := P) p line).
Proof. unfold start_reservation. steps_walk. Qed.
#[local] Hint Resolve steps_allocate_or_reject steps_stall steps_fail_flush steps_profile_inv
  steps_stall_for_lock steps_profile_miss steps_profile_hit steps_front_request
  steps_copy_memFlags steps_is_local_prefetch steps_respond_with_line
  steps_start_reservation : steps.

(** ** Evictions *)

(** Closing a walk under the assumption [U_line]. *)
#[local] Hint Extern 3 (steps (RU _) _) => apply steps_RU : steps.
#[local] Hint Resolve steps_line_setState : steps.

Lemma steps_evict_line line : st_ok State.I -> steps R (evict_line linkUp linkDown line).
Proof.
  intros HI. unfold evict_line. apply steps_bind; [apply _|apply steps_line_get|intros state].
  apply steps_bind_locked; [steps_walk|]. steps_walk.
Qed.

(** An eviction that succeeds has found the line out of use, and leaves it
    invalid. *)
Definition evicted (line : Line) (s : St) : Prop :=
  exists i l, line = Some i /\ lines s !! i = Some l /\ L1CacheLine.getState l = State.I /\ U i s.
Definition RE (line : Line) : relation St := fun s s' => evicted line s -> R s s'.
Abbreviation same_lines := (fun s s' : St => lines s' = lines s).

Lemma evicted_frame line s s' : R s s' -> lines s' = lines s -> evicted line s -> evicted line s'.
Proof.
  intros HR' Hl (i & l & -> & El & Es & HU). exists i, l. rewrite Hl.
  split_and!; [done..|by eapply (lr_stable rules)].
Qed.

Lemma steps_RE {A} line (m : M St A) : steps R m -> steps (RE line) m.
Proof. intros H. eapply steps_mono; [done|]. by intros s s' ? _. Qed.

Lemma steps_bind_frame {A B} line (m : M St A) (k : A -> M St B) :
  steps R m -> steps same_lines m -> (forall a, steps (RE line) (k a)) -> steps (RE line) (m ≫= k).
Proof.
  intros Hm Hl Hk s b s' (a & s1 & H1 & H2)%bind_Ok He. transitivity s1; [by eapply Hm|].
  eapply Hk; [done|]. eapply evicted_frame; [by eapply Hm|by eapply Hl|done].
Qed.

Lemma steps_bind_RE {A B} line (m : M St A) (k : A -> M St B) :
  steps (RE line) m -> (forall a, steps R (k a)) -> steps (RE line) (m ≫= k).
Proof.
  intros Hm Hk s b s' (a & s1 & H1 & H2)%bind_Ok He. transitivity s1; [by eapply Hm|by eapply Hk].
Qed.

Lemma same_lines_coh {A} (m : M Ctrl A) : steps same_lines (coh m).
Proof. by eapply (steps_zoom _ cc _ (fun _ _ => True)). Qed.
Lemma same_lines_get {A} line (f : _ -> A) : steps same_lines (line_get line f).
Proof.
  destruct line; [|apply steps_fail]. intros s a s' (l & s1 & [_ ->]%arr_get_line_Ok & [_ <-]%ret_Ok)%bind_Ok.
  done.
Qed.

Lemma line_set_Ok i g s s' :
  line_set (Some i) g s = Ok (tt, s') <-> exists l, lines s !! i = Some l /\ s' = put_line s i (g l).
Proof.
  simpl. rewrite bind_Ok. split.
  - intros (l & s1 & [Hl ->]%arr_get_line_Ok & [= <-]). eauto.
  - intros (l & Hl & ->). exists l, s. by rewrite arr_get_line_Ok.
Qed.
Lemma line_get_Ok {A} i (f : _ -> A) s a s' :
  line_get (Some i) f s = Ok (a, s') <-> exists l, lines s !! i = Some l /\ a = f l /\ s' = s.
Proof.
  simpl. rewrite bind_Ok. split.
  - intros (l & s1 & [Hl ->]%arr_get_line_Ok & [<- <-]%ret_Ok). eauto.
  - intros (l & Hl & -> & ->). exists l, s. by rewrite arr_get_line_Ok.
Qed.
Lemma lines_put s i l l0 : lines s !! i = Some l0 -> lines (put_line s i l) !! i = Some l.
Proof. intros. apply list_lookup_insert_eq. by eapply lookup_lt_Some. Qed.

Lemma recordPrefetchResult_state line st s s' i l :
  recordPrefetchResult line st s = Ok (tt, s') -> lines s !! i = Some l ->
  exists l', lines s' !! i = Some l' /\ L1CacheLine.getState l' = L1CacheLine.getState l.
Proof.
  intros (p & s1 & Hp & H)%bind_Ok Hl. destruct line as [j|]; [|done].
  apply line_get_Ok in Hp as (lj & _ & -> & ->). unfold when in H.
  destruct (L1CacheLine.getPrefetch lj); [|injection H as <-; eauto].
  apply bind_Ok in H as ([] & s1 & H1 & (l1 & Hl1 & ->)%line_set_Ok).
  apply same_lines_coh in H1. cbn beta in H1. rewrite <- H1 in Hl.
  destruct (decide (j = i)) as [->|Hne].
  - eexists. split; [by eapply lines_put|]. by replace l1 with l by congruence.
  - exists l. split; [|done]. by rewrite <- Hl; apply list_lookup_insert_ne.
Qed.

(** What ends an eviction leaves the line invalid. *)
Lemma evict_tail line st s b s' :
  (line_setState line State.I ;; line_set line L1CacheLine.atomicEnd ;;
   recordPrefetchResult line st ;; mret true) s = Ok (b, s') ->
  exists i l, line = Some i /\ lines s' !! i = Some l /\ L1CacheLine.getState l = State.I.
Proof.
  destruct line as [i|]; [|done].
  intros ([] & s1 & (l1 & Hl1 & ->)%line_set_Ok & H)%bind_Ok.
  apply bind_Ok in H as ([] & s2 & (l2 & Hl2 & ->)%line_set_Ok & H).
  apply bind_Ok in H as ([] & s3 & H & [_ <-]%ret_Ok).
  rewrite (lines_put _ _ _ _ Hl1) in Hl2. injection Hl2 as <-.
  eapply recordPrefetchResult_state in H as (l' & Hl' & Hs).
  2: { eapply lines_put, lines_put. exact Hl1. }
  exists i, l'. done.
Qed.

Lemma evict_line_U line s s' s2 :
  st_ok State.I -> evict_line linkUp linkDown line s = Ok (true, s') -> (U_line line s' -> R s s2) -> R s s2.
Proof.
  intros HI H Hgoal. pose proof (steps_evict_line line HI _ _ _ H) as HR'.
  assert (Hgoal' : U_line line s -> R s s2) by (intros HU; by apply Hgoal; eapply U_line_stable). clear Hgoal.
  destruct line as [i|]; [|by apply Hgoal'].
  apply bind_Ok in H as (state & s1 & (? & _ & _ & ->)%line_get_Ok & H).
  apply bind_Ok in H as (locked & s3 & [-> HU]%line_locked_Ok & H).
  destruct locked; [|by apply HU]. by apply bind_Ok in H as ([] & s4 & _ & [[=] _]%ret_Ok).
Qed.

Lemma evict_line_I line s s' :
  evict_line linkUp linkDown line s = Ok (true, s') ->
  exists i l, line = Some i /\ lines s' !! i = Some l /\ L1CacheLine.getState l = State.I.
Proof.
  destruct line as [i|]; [|done].
  intros (st & s1 & (l & Hl & -> & ->)%line_get_Ok & H)%bind_Ok.
  apply bind_Ok in H as (locked & s2 & [-> _]%line_locked_Ok & H).
  destruct locked; [by apply bind_Ok in H as ([] & ? & _ & [[=] _]%ret_Ok)|].
  apply bind_Ok in H as ([] & s1 & H1%same_lines_coh & H). cbn beta in H1.
  apply bind_Ok in H as (la & s2 & (? & _ & _ & ->)%line_get_Ok & H).
  apply bind_Ok in H as (c & s2 & Hc & H). injection Hc as _ <-.
  assert (forall (send : M St unit) s2, ((retries ← MesiL1.mshr (P := P) (getPendingRetries la);
    if retries =? 0 then send ;; line_setState (Some i) State.I ;;
      line_set (Some i) L1CacheLine.atomicEnd ;;
      recordPrefetchResult (Some i) Stat.PrefetchEvict ;; mret true
    else mret false) : M St bool) s1 = Ok (true, s2) ->
    exists j l, Some i = Some j /\ lines s2 !! j = Some l /\ L1CacheLine.getState l = State.I) as Hev.
  { intros send s2 (r & s3 & _ & H2)%bind_Ok. destruct (r =? 0); [|by apply ret_Ok in H2 as [[=] _]].
    apply bind_Ok in H2 as ([] & s4 & _ & H2). by eapply evict_tail. }
  destruct (L1CacheLine.getState l) eqn:Es; try (by apply ret_Ok in H as [[=] _]); try exact (Hev _ _ H).
  apply ret_Ok in H as [_ <-]. exists i, l. by rewrite H1.
Qed.

Lemma evict_line_evicted line s s' s2 :
  st_ok State.I -> evict_line linkUp linkDown line s = Ok (true, s') -> (evicted line s' -> R s s2) -> R s s2.
Proof.
  intros HI H Hgoal. apply (evict_line_U line s s' s2 HI H). intros HU. apply Hgoal.
  apply evict_line_I in H as (i & l & -> & Hl & Hs). by exists i, l.
Qed.

Lemma steps_handleEviction addr line :
  st_ok State.I -> steps R (handleEviction linkUp linkDown addr line).
Proof. intros. unfold handleEviction. pose proof steps_evict_line. steps_walk; auto. Qed.

(** Using the line an eviction freed. *)
Lemma steps_bind_eviction {A} addr line (k : bool * Line -> M St A) :
  st_ok State.I ->
  (forall line, steps (RE line) (k (true, line))) -> (forall line, steps R (k (false, line))) ->
  steps R (handleEviction linkUp linkDown addr line ≫= k).
Proof.
  intros HI Ht Hf s a s' ([b line'] & s1 & He & H)%bind_Ok.
  destruct b; [|transitivity s1; [by eapply steps_handleEviction|by eapply Hf]].
  apply bind_Ok in He as (line0 & s2 & Hc & (b & s3 & Hev & [[= -> <-] <-]%ret_Ok)%bind_Ok).
  transitivity s2.
  { destruct line; [by apply ret_Ok in Hc as [_ <-]|]. apply bind_Ok in Hc as (i & s4 & Hc & [_ <-]%ret_Ok).
    by eapply steps_candidate. }
  apply (evict_line_evicted _ _ _ _ HI Hev). intros He. transitivity s3; [by eapply steps_evict_line|].
  by eapply Ht.
Qed.

Lemma steps_replace a i : replace_ok -> steps (RE (Some i)) (arr (replace a i)).
Proof.
  intros Hr s x s' H (i' & l0 & [= <-] & El & Es & HU). unfold arr, zoom in H.
  destruct (replace a i (cacheArray_ s)) as [[[] c']|] eqn:E; [|done]. injection H as _ <-.
  unfold lines in El. apply bind_Ok in E as (l & c1 & Hl & E).
  unfold get_line in Hl.
  apply getsR_Ok in Hl as [Hl ->]. rewrite El in Hl. injection Hl as <-.
  apply bind_Ok in E as ([] & c2 & E1 & ([] & c3 & E2 & E3)%bind_Ok).
  unfold on_policy, zoom in E1, E3.
  destruct (rp_replaced _ _) as [[[] m1]|]; [|done]. injection E1 as <-.
  injection E2 as <-. destruct (rp_update _ _) as [[[] m2]|]; [|done]. injection E3 as <-.
  transitivity (put_mgr s m1); [apply (lr_mgr rules)|].
  transitivity (put_line (put_mgr s m1) i (L1CacheLine.setAddr a (L1CacheLine.reset l0))).
  - apply (lr_replace rules); [done..|]. eapply (lr_stable rules); [|exact HU]. apply (lr_mgr rules).
  - exact (lr_mgr rules (put_line (put_mgr s m1) i _) m2).
Qed.

Lemma steps_deallocate i : replace_ok -> steps (RE (Some i)) (arr (deallocate i)).
Proof.
  intros Hr s x s' H (i' & l0 & [= <-] & El & Es & HU). unfold arr, zoom in H.
  destruct (deallocate i (cacheArray_ s)) as [[[] c']|] eqn:E; [|done]. injection H as _ <-.
  unfold lines in El. apply bind_Ok in E as (l & c1 & Hl & E).
  unfold get_line in Hl.
  apply getsR_Ok in Hl as [Hl ->]. rewrite El in Hl. injection Hl as <-.
  apply bind_Ok in E as ([] & c2 & E1 & E2). unfold on_policy, zoom in E1.
  destruct (rp_replaced _ _) as [[[] m1]|]; [|done]. injection E1 as <-. injection E2 as <-.
  transitivity (put_mgr s m1); [apply (lr_mgr rules)|].
  refine (lr_deallocate rules (put_mgr s m1) i l0 Hr El Es _).
  eapply (lr_stable rules); [|exact HU]. apply (lr_mgr rules).
Qed.
#[local] Hint Resolve steps_replace steps_deallocate same_lines_coh same_lines_get : steps.

Lemma steps_allocateLine p line :
  st_ok State.I -> replace_ok -> steps R (allocateLine linkUp linkDown p line).
Proof.
  intros. unfold allocateLine. apply steps_bind; [apply _|apply steps_ev|intros e].
  apply steps_bind_eviction; [done|intros line'|intros line']; cbn; [|steps_walk].
  do 3 (apply steps_bind_frame; [steps_leaf|steps_leaf|intros ?]).
  destruct line'; [|intros ? ? ? [=]].
  apply steps_bind_RE; steps_walk.
Qed.
#[local] Hint Resolve steps_allocateLine : steps.

Lemma steps_processCacheMiss p line b :
  st_ok State.I -> replace_ok -> steps R (processCacheMiss linkUp linkDown p line b).
Proof. intros. unfold processCacheMiss. steps_walk. Qed.
#[local] Hint Resolve steps_processCacheMiss : steps.

Lemma steps_bind_stall_for_lock {A} p line b (k : option bool -> M St A) :
  (forall b, steps R (k (Some b))) -> steps (RU line) (k None) ->
  steps R (stall_for_lock p line b ≫= k).
Proof.
  intros Hs Hn s a s' (r & s1 & Hr & H)%bind_Ok.
  pose proof (steps_stall_for_lock p line b _ _ _ Hr) as HR1.
  destruct r; [transitivity s1; [done|by eapply Hs]|].
  unfold stall_for_lock in Hr.
  apply bind_Ok in Hr as (locked & s2 & [-> HU]%line_locked_Ok & Hr).
  destruct locked.
  - apply bind_Ok in Hr as (ok & s3 & _ & ([] & s4 & _ & [[=] _]%ret_Ok)%bind_Ok).
  - apply ret_Ok in Hr as [_ <-]. apply HU; [done|]. intros HU'. by eapply Hn.
Qed.

Lemma steps_surrender p line data next :
  st_ok next -> steps (RU line) (surrender linkUp linkDown p line data next).
Proof. intros. unfold surrender. steps_walk. Qed.
#[local] Hint Resolve steps_surrender : steps.

(** Walk a handler, taking note of what its tests establish. *)
Ltac handler_walk :=
  repeat first
    [ progress intros
    | progress cbn beta iota zeta
    | apply steps_bind_state
    | apply steps_bind_locked
    | apply steps_bind_stall_for_lock
    | apply steps_bind_eviction
    | steps_leaf
    | match goal with
      | |- steps _ ((if decide (State.M = State.I) then _ else _) ≫= _) =>
          destruct (decide (State.M = State.I)) as [?|_]; [discriminate|]
      end
    | apply steps_bind; [apply _ | | intros ?]
    | apply steps_when; [apply _ |]
    | match goal with
      | |- steps _ (match ?x with _ => _ end) => destruct x eqn:?; cbn beta iota
      end ];
  auto.

(** ** Flushes, requests from below, acknowledgements and internal events *)

Lemma steps_handleFlushLine p b :
  st_ok State.S_B -> steps R (handleFlushLine linkUp linkDown p b).
Proof. intros. unfold handleFlushLine. handler_walk. Qed.

Lemma steps_handleFlushLineInv p b :
  st_ok State.I_B -> steps R (handleFlushLineInv linkUp linkDown p b).
Proof. intros. unfold handleFlushLineInv. handler_walk. Qed.

Lemma steps_handleFetch p b : steps R (handleFetch linkUp linkDown p b).
Proof. unfold handleFetch. steps_walk. Qed.

Lemma steps_handleInv p b :
  st_ok State.I -> st_ok State.IM -> steps R (handleInv linkUp linkDown p b).
Proof. intros. unfold handleInv. handler_walk. Qed.

Lemma steps_handleForceInv p b :
  st_ok State.I -> st_ok State.IM -> steps R (handleForceInv linkUp linkDown p b).
Proof. intros. unfold handleForceInv. handler_walk. Qed.

Lemma steps_handleFetchInv p b :
  st_ok State.I -> st_ok State.IM -> steps R (handleFetchInv linkUp linkDown p b).
Proof.
  intros. unfold handleFetchInv.
  do 2 (apply steps_bind; [apply _|steps_leaf|intros ?]).
  apply steps_bind_state; [intros st Hst|handler_walk].
  do 2 (apply steps_bind; [apply _|steps_walk|intros _]).
  destruct st; cbn beta iota zeta; handler_walk.
Qed.

Lemma steps_handleFetchInvX p b :
  st_ok State.S -> steps R (handleFetchInvX linkUp linkDown p b).
Proof. intros. unfold handleFetchInvX. handler_walk. Qed.

Lemma steps_handleFlushLineResp p b :
  st_ok State.I -> st_ok State.S -> steps R (handleFlushLineResp linkUp linkDown p b).
Proof. intros. unfold handleFlushLineResp. handler_walk. Qed.

Lemma steps_handleAckPut p b : steps R (handleAckPut (P := P) p b).
Proof. unfold handleAckPut. steps_walk. Qed.

Lemma steps_handleNACK p b : steps R (handleNACK linkUp linkDown p b).
Proof. unfold handleNACK. steps_walk. Qed.

Lemma steps_handleNULLCMD p b :
  st_ok State.I -> replace_ok -> steps R (handleNULLCMD linkUp linkDown p b).
Proof.
  intros. unfold handleNULLCMD.
  do 2 (apply steps_bind; [apply _|steps_leaf|intros ?]). cbv zeta.
  apply steps_bind_eviction; [done|intros line|intros line]; cbn beta iota; [|steps_walk].
  do 2 (apply steps_bind_frame; [steps_leaf|apply same_lines_get || by intros ? ? ? [= _ <-]|intros ?]).
  apply steps_bind_RE; [|steps_walk].
  apply steps_bind_frame; [steps_leaf|steps_leaf|intros ?].
  destruct line; [|intros ? ? ? [=]]. apply steps_bind_RE; steps_walk.
Qed.

Lemma steps_unhandled p b : steps R (coh (unhandled p b)).
Proof. apply steps_coh. Qed.

#[local] Hint Resolve steps_unhandled steps_handleFetch steps_handleAckPut steps_handleNACK
  steps_handleNULLCMD steps_handleFlushLine steps_handleFlushLineInv steps_handleInv
  steps_handleForceInv steps_handleFetchInv steps_handleFetchInvX steps_handleFlushLineResp : handlers.
#[local] Hint Extern 1 (st_ok _) =>
  match goal with H : forall st, st ∈ _ -> _ |- _ => apply H; repeat constructor end : handlers.

(** All of them together. *)
Lemma steps_handle_guarded ps cmd p b :
  respects_use cmd = true ->
  (forall st, st ∈ may_enter cmd ps -> st_ok st) -> replace_ok ->
  steps R (handle linkUp linkDown cmd p b).
Proof.
  intros Hc Hst Hr. destruct cmd; try discriminate Hc; cbn [handle may_enter] in *;
    auto with handlers.
Qed.

(** ** Requests from above and fills

    These work on the line of the address of their event, and change it without testing
    whether it is in use: the rules must allow it for a line that holds the address [a]. *)

Definition address_rule (a : Z) : Prop := forall s i l s',
  lines s !! i = Some l -> L1CacheLine.getAddr l = a -> (U i s -> R s s') -> R s s'.
Context (a : Z) (at_a : address_rule a).

Lemma steps_bind_lookup {A} u (k : Line -> M St A) :
  (forall line, steps (RU line) (k line)) -> steps R (arr (lookup a u) ≫= k).
Proof.
  intros Hk s x s' (line & s1 & Hl & H)%bind_Ok. pose proof (steps_lookup a u _ _ _ Hl) as HR1.
  apply lookup_line_at in Hl as [_ Hl]. destruct line as [i|].
  - destruct (Hl i eq_refl) as (l & El & Ea). apply (at_a s i l); [done|done|]. intros HU. transitivity s1; [done|].
    eapply Hk; [exact H|]. by eapply (lr_stable rules).
  - transitivity s1; [done|]. by eapply Hk.
Qed.

Lemma steps_upgrade line st : st_ok State.M -> steps (RU line) (upgrade_if_last_level line st).
Proof. intros. unfold upgrade_if_last_level. steps_walk. Qed.
Lemma steps_request_line p line cmd st : st_ok st -> steps (RU line) (request_line linkUp linkDown p line cmd st).
Proof. intros. unfold request_line. steps_walk. Qed.
#[local] Hint Resolve steps_upgrade steps_request_line : steps.

(** Writing data, and taking or releasing the lock. *)
Record write_rules : Prop := {
  wr_data s i l l' d o :
    lines s !! i = Some l -> U i s -> L1CacheLine.setData d o l = Ok l' -> R s (put_line s i l');
  wr_decLock s i l : lines s !! i = Some l -> U i s -> R s (put_line s i (L1CacheLine.decLock l));
  wr_incLock s i l : lines s !! i = Some l -> U i s -> R s (put_line s i (L1CacheLine.incLock l))
}.

Lemma steps_line_setData line d o : write_rules -> steps (RU line) (line_setData line d o).
Proof.
  intros W. destruct line as [i|]; [|apply steps_fail].
  intros s x s' (l & s1 & [Hl ->]%arr_get_line_Ok & (l' & s2 & [Hd ->]%getsR_Ok & [= _ <-])%bind_Ok)%bind_Ok HU.
  by eapply (wr_data W).
Qed.
Lemma steps_decLock line : write_rules -> steps (RU line) (line_set line L1CacheLine.decLock).
Proof. intros W. apply steps_line_set_at. intros s i l -> Hl HU. by apply (wr_decLock W). Qed.
Lemma steps_incLock line : write_rules -> steps (RU line) (line_set line L1CacheLine.incLock).
Proof. intros W. apply steps_line_set_at. intros s i l -> Hl HU. by apply (wr_incLock W). Qed.
#[local] Hint Resolve steps_line_setData steps_decLock steps_incLock : steps.

Lemma steps_fill_line p line : write_rules -> steps (RU line) (fill_line p line).
Proof. intros. unfold fill_line. steps_walk. Qed.
Lemma steps_write_line p line o : write_rules -> steps (RU line) (write_line p line o).
Proof. intros. unfold write_line. steps_walk. Qed.
#[local] Hint Resolve steps_fill_line steps_write_line : steps.

(** A handler that starts with its event, whose address is [a]. *)
Definition addressed (p : EventPtr) (s : St) : Prop := forall e s1, ev p s = Ok (e, s1) -> baseAddr_ e = a.
Lemma ev_same p s e s1 : ev (P := P) p s = Ok (e, s1) -> s1 = s.
Proof.
  unfold ev, coh, zoom. destruct (deref p (cc s)) as [[e' c]|] eqn:E; [|done]. intros [= _ <-]. unfold deref in E.
  apply getsR_Ok in E as [_ ->]. by destruct s.
Qed.
Lemma steps_addressed {A} p (k : MemEvent -> M St A) s x s' :
  addressed p s -> (forall e, baseAddr_ e = a -> steps R (k e)) -> (ev p ≫= k) s = Ok (x, s') -> R s s'.
Proof. intros Ha Hk (e & s1 & He & H)%bind_Ok. pose proof (Ha _ _ He). apply ev_same in He as ->. by eapply Hk. Qed.

(** One step of a handler, then the rest. *)
Ltac next := apply steps_bind; [apply _|steps_walk|intros ?].
Ltac on_line := let e := fresh "e" in let He := fresh "He" in
  eapply steps_addressed; [eassumption| |eassumption]; intros e He; cbv beta zeta; rewrite !He; apply steps_bind_lookup; intros line.

Lemma steps_handleGetS p b s x s' :
  st_ok State.I -> st_ok State.IS -> replace_ok -> addressed p s -> handleGetS linkUp linkDown p b s = Ok (x, s') -> R s s'.
Proof.
  intros. unfold handleGetS in *. on_line. do 3 next. apply steps_bind; [apply _| |intros ?; steps_walk].
  case_match; try solve [steps_walk]. apply steps_RU. next. apply steps_bind; [apply _| |intros ?; steps_walk].
  case_match; [|steps_walk]. apply steps_bind_lookup. intros line'. steps_walk.
Qed.

Lemma steps_handleGetX p b s x s' :
  write_rules -> st_ok State.I -> st_ok State.IM -> st_ok State.SM -> st_ok State.M -> replace_ok ->
  addressed p s -> handleGetX linkUp linkDown p b s = Ok (x, s') -> R s s'.
Proof.
  intros. unfold handleGetX in *. on_line. do 3 next. apply steps_bind; [apply _| |intros ?; steps_walk].
  case_match; try solve [steps_walk]. apply steps_RU. next. apply steps_bind; [apply _| |intros ?; steps_walk].
  case_match; [|steps_walk]. apply steps_bind_lookup. intros line'. steps_walk.
Qed.

Lemma steps_handleGetSX p b s x s' :
  write_rules -> st_ok State.I -> st_ok State.IM -> st_ok State.SM -> st_ok State.M -> replace_ok ->
  addressed p s -> handleGetSX linkUp linkDown p b s = Ok (x, s') -> R s s'.
Proof. intros. unfold handleGetSX in *. on_line. steps_walk. Qed.

Lemma steps_handleGetSResp p b s x s' :
  write_rules -> st_ok State.S -> addressed p s -> handleGetSResp linkUp linkDown p b s = Ok (x, s') -> R s s'.
Proof. intros. unfold handleGetSResp in *. on_line. steps_walk. Qed.

(** A fill in state [IS] enters the configured clean state. *)
Lemma steps_fill_state (s0 : St) (e : MemEvent) line :
  st_ok State.M -> st_ok (protocolState_ s0) ->
  steps (RU line) (line_setState line (if dirty_ e then State.M else protocolState_ s0)).
Proof. intros. apply steps_line_setState. by destruct (dirty_ e). Qed.

Context (R_protocol : forall s s' : St, R s s' -> st_ok (protocolState_ s) -> st_ok (protocolState_ s')).
Definition RP (line : Line) : relation St := fun s s' : St => st_ok (protocolState_ s) -> RU line s s'.
#[local] Instance RP_preorder line : PreOrder (RP line).
Proof.
  split; [by intros s _ _|]. intros s s1 s2 H1 H2 Hs HU. specialize (H1 Hs HU).
  transitivity s1; [done|]. apply H2; [by eapply R_protocol|by eapply U_line_stable].
Qed.
Lemma steps_RP {A} line (m : M St A) : steps (RU line) m -> steps (RP line) m.
Proof. intros H. eapply steps_mono; [done|]. by intros s s' ? _. Qed.
Lemma steps_bind_protocol {A} line (k : St -> M St A) :
  (forall s0 : St, st_ok (protocolState_ s0) -> steps (RU line) (k s0)) -> steps (RP line) (gets (fun s => s) ≫= k).
Proof.
  intros Hk s x s' (s0 & s1 & Hg & H)%bind_Ok Hs. injection Hg as <- <-. by eapply Hk.
Qed.
Lemma steps_bind_lookup_protocol {A} u (k : Line -> M St A) s x s' :
  (forall line, steps (RP line) (k line)) -> st_ok (protocolState_ s) -> (arr (lookup a u) ≫= k) s = Ok (x, s') -> R s s'.
Proof.
  intros Hk Hs (line & s1 & Hl & H)%bind_Ok. pose proof (steps_lookup a u _ _ _ Hl) as HR1.
  pose proof (R_protocol _ _ HR1 Hs) as Hs1.
  apply lookup_line_at in Hl as [_ Hl]. destruct line as [i|].
  - destruct (Hl i eq_refl) as (l & El & Ea). apply (at_a s i l); [done|done|]. intros HU. transitivity s1; [done|].
    eapply Hk; [exact H|done|]. by eapply (lr_stable rules).
  - transitivity s1; [done|]. by eapply Hk.
Qed.

Lemma steps_handleGetXResp p b :
  write_rules -> st_ok State.M ->
  forall (s : St) x s', addressed p s -> st_ok (protocolState_ s) -> handleGetXResp linkUp linkDown p b s = Ok (x, s') -> R s s'.
Proof.
  intros W HM s x s' Ha Hs H. unfold handleGetXResp in H. apply bind_Ok in H as (e & s1 & He & H). pose proof (Ha _ _ He) as Hea.
  apply ev_same in He as ->. cbv zeta in H. rewrite !Hea in H. eapply steps_bind_lookup_protocol; [|done|exact H].
  clear s s' x Ha Hs H. intros line.
  do 6 (apply steps_bind; [apply _|apply steps_RP, steps_RU; eauto 2 with steps|intros ?]).
  apply steps_bind; [apply _| |intros ?].
  - match goal with |- steps _ (match ?st with _ => _ end) => destruct st eqn:? end;
      try solve [apply steps_RP; steps_walk].
    apply steps_bind_protocol. intros s0 Hps. pose proof steps_fill_state. steps_walk.
  - apply steps_RP. steps_walk.
Qed.
End l1_steps.

(** Every handler: it keeps a relation whose rules allow the changes of lines that are
    not in use and of the line of the address of the event. *)
Section handlers.
Context {core : SSTCore} (linkUp linkDown : MemLink).
Context {P : Type} {HP : ReplacementPolicy P} {hash_ : HashFunction}.
Abbreviation St := (L1 P).
Context (R : relation St) {HR : PreOrder R} (U : nat -> St -> Prop).
Context (st_ok : State.t -> Prop) (rules : line_rules R U st_ok True).
Context (R_protocol : forall s s' : St, R s s' -> st_ok (protocolState_ s) -> st_ok (protocolState_ s')).

Lemma steps_handle cmd p b s x s' :
  (respects_use cmd = false -> forall e s1, ev (P := P) p s = Ok (e, s1) -> address_rule R U (baseAddr_ e)) ->
  (writes_lines cmd = true -> write_rules R U) ->
  (forall st, st ∈ may_enter cmd (protocolState_ s) -> st_ok st) ->
  handle linkUp linkDown cmd p b s = Ok (x, s') -> R s s'.
Proof.
  intros Hat W Hst H. destruct (respects_use cmd) eqn:Hu.
  { by eapply (steps_handle_guarded linkUp linkDown R U st_ok True rules (protocolState_ s)). }
  assert (He : exists e, ev p s = Ok (e, s)).
  { destruct cmd; try discriminate Hu; cbn [handle] in H; unfold handleWrite, handleGetS, handleGetX, handleGetSX, handleGetSResp, handleGetXResp in H;
      apply bind_Ok in H as (e & s1 & He & _); exists e; by rewrite He, (ev_same _ _ _ _ He). }
  destruct He as [e He]. specialize (Hat eq_refl _ _ He).
  assert (Ha : addressed (baseAddr_ e) p s) by (intros e' s1 He'; rewrite He in He'; by injection He' as <- _).
  assert (Hs : forall st, In st (may_enter cmd (protocolState_ s)) -> st_ok st) by (intros st Hin; by apply Hst, list_elem_of_In).
  destruct cmd; try discriminate Hu; cbn [handle may_enter writes_lines In] in *;
    unfold handleWrite in H; try specialize (W eq_refl).
  - eapply (steps_handleGetS linkUp linkDown R U st_ok True rules _ Hat); [..|exact Ha|exact H]; auto 6.
  - eapply (steps_handleGetX linkUp linkDown R U st_ok True rules _ Hat); [..|exact Ha|exact H]; auto 6.
  - eapply (steps_handleGetSX linkUp linkDown R U st_ok True rules _ Hat); [..|exact Ha|exact H]; auto 6.
  - eapply (steps_handleGetX linkUp linkDown R U st_ok True rules _ Hat); [..|exact Ha|exact H]; auto 6.
  - eapply (steps_handleGetSResp linkUp linkDown R U st_ok True rules _ Hat); [..|exact Ha|exact H]; auto 6.
  - eapply (steps_handleGetXResp linkUp linkDown R U st_ok True rules _ Hat R_protocol); [..|exact Ha| |exact H]; auto 6.
Qed.
End handlers.
