(* ===== verification/L1Mshr.v ===== *)
(** * L1Mshr: the MSHR under the handlers of the L1 manager

    Everything the base controller and the handlers of [MesiL1] do to the MSHR is
    a sequence of the operations of [Mshr], so every MSHR a running cache can have
    is reachable in the sense of [mshr_reachable], and its invariant holds. The
    lemmas walk through the definitions with the [steps] automation. *)

From S2P Require Import Prelude MemTypes MemEvent Hash Replacement Lines CacheArray Mshr Coherence MesiL1.

Section l1_mshr.
Context {core : SSTCore} (linkUp linkDown : MemLink).
Context {P : Type} {HP : ReplacementPolicy P} {hash_ : HashFunction} (n : Z).

Definition keeps_mshr (m m' : MSHR) : Prop := mshr_reachable n m -> mshr_reachable n m'.
Definition keeps_ctrl (c c' : Ctrl) : Prop := keeps_mshr (mshr_ c) (mshr_ c').
Definition keeps_l1 (s s' : L1 P) : Prop := keeps_ctrl (cc s) (cc s').

#[local] Instance keeps_mshr_preorder : PreOrder keeps_mshr.
Proof. apply (invariant_preorder (mshr_reachable n)). Qed.
#[local] Instance keeps_ctrl_preorder : PreOrder keeps_ctrl.
Proof. apply (invariant_preorder (fun c => mshr_reachable n (mshr_ c))). Qed.
#[local] Instance keeps_l1_preorder : PreOrder keeps_l1.
Proof. apply (invariant_preorder (fun s => mshr_reachable n (mshr_ (cc s)))). Qed.

(** ** Operations of the MSHR *)

Lemma steps_op {A} o (m : M MSHR A) :
  (forall t, op_ok t o) -> (forall s a s', m s = Ok (a, s') -> run_op o s = Ok (tt, s')) ->
  steps keeps_mshr m.
Proof. intros Hop Hrun s a s' H Hr. eapply reach_op; [exact Hr|apply Hop|by eapply Hrun]. Qed.

(** The same for an operation [run_op] runs for its effect only. *)
Lemma steps_op_drop {A} o (m : M MSHR A) :
  (forall t, op_ok t o) -> run_op o = (m ;; skip) -> steps keeps_mshr m.
Proof. intros Hop Ho. apply (steps_op o); [done|]. intros s a s' H. rewrite Ho. by rewrite (bind_step _ _ _ _ _ H). Qed.

Lemma steps_insertEvent now addr p pos fwd st : steps keeps_mshr (insertEvent now addr p pos fwd st).
Proof. by apply (steps_op_drop (OInsertEvent now addr p pos fwd st)). Qed.
Lemma steps_insertWriteback now addr d : steps keeps_mshr (insertWriteback now addr d).
Proof. by apply (steps_op_drop (OInsertWriteback now addr d)). Qed.
Lemma steps_insertEviction now o a : steps keeps_mshr (insertEviction now o a).
Proof. by apply (steps_op_drop (OInsertEviction now o a)). Qed.
Lemma steps_removeEvictPointer a x : steps keeps_mshr (removeEvictPointer a x).
Proof. by apply (steps_op_drop (ORemoveEvictPointer a x)). Qed.
Lemma steps_removeFront a : steps keeps_mshr (removeFront a).
Proof. apply (steps_op (ORemoveFront a)); [done|by intros ? []]. Qed.
Lemma steps_addPendingRetry a : steps keeps_mshr (addPendingRetry a).
Proof. apply (steps_op (OAddPendingRetry a)); [done|by intros ? []]. Qed.
Lemma steps_removePendingRetry a : steps keeps_mshr (removePendingRetry a).
Proof. apply (steps_op (ORemovePendingRetry a)); [done|by intros ? []]. Qed.
Lemma steps_setInProgress a b : steps keeps_mshr (setInProgress a b).
Proof. apply (steps_op (OSetInProgress a b)); [done|by intros ? []]. Qed.
Lemma steps_setProfiled a : steps keeps_mshr (setProfiled a).
Proof. apply (steps_op (OSetProfiled a)); [done|by intros ? []]. Qed.

Ltac reader := unfold getFrontEvent, getEvictPointers, pendingWriteback, getPendingRetries,
  getInProgress, getProfiled, get_front, getFrontType, getFront, reg_at, reg_deref; steps_walk.
Lemma steps_getFrontType a : steps keeps_mshr (getFrontType a).
Proof. reader. Qed.
Lemma steps_getFrontEvent a : steps keeps_mshr (getFrontEvent a).
Proof. reader. Qed.
Lemma steps_getEvictPointers a : steps keeps_mshr (getEvictPointers a).
Proof. reader. Qed.
Lemma steps_pendingWriteback a : steps keeps_mshr (pendingWriteback a).
Proof. reader. Qed.
Lemma steps_getPendingRetries a : steps keeps_mshr (getPendingRetries a).
Proof. reader. Qed.
Lemma steps_getInProgress a : steps keeps_mshr (getInProgress a).
Proof. reader. Qed.
Lemma steps_getProfiled a : steps keeps_mshr (getProfiled a).
Proof. reader. Qed.
#[local] Hint Resolve steps_insertEvent steps_insertWriteback steps_insertEviction
  steps_removeEvictPointer steps_removeFront steps_addPendingRetry steps_removePendingRetry
  steps_setInProgress steps_setProfiled steps_getFrontType steps_getFrontEvent
  steps_getEvictPointers steps_pendingWriteback steps_getPendingRetries steps_getInProgress
  steps_getProfiled : steps.

(** ** The base controller *)

Lemma steps_on_mshr {A} (m : M MSHR A) : steps keeps_mshr m -> steps keeps_ctrl (on_mshr m).
Proof. intros H. by eapply steps_zoom; [exact H|]. Qed.
#[local] Hint Resolve steps_on_mshr : steps.

(** A change of the controller beside its MSHR. *)
Lemma steps_frame f : (forall c, mshr_ (f c) = mshr_ c) -> steps keeps_ctrl (modify f).
Proof. intros Hf. apply steps_modify. intros c. unfold keeps_ctrl. by rewrite Hf. Qed.
#[local] Hint Extern 2 (steps keeps_ctrl (modify _)) =>
  apply steps_frame; intros; repeat case_match; reflexivity : steps.
#[local] Hint Extern 2 (steps _ getc) => apply steps_gets; apply _ : steps.

Lemma steps_deref p : steps keeps_ctrl (deref p).
Proof. apply steps_getsR, _. Qed.
Lemma steps_the_event o : steps keeps_ctrl (the_event o).
Proof. unfold the_event, null_deref, undefined. steps_walk. Qed.
Lemma steps_delete_event p : steps keeps_ctrl (delete_event p).
Proof. pose proof steps_deref. unfold delete_event. steps_walk. Qed.
Lemma steps_new_event e : steps keeps_ctrl (new_event e).
Proof. unfold new_event. steps_walk. Qed.
Lemma steps_set_event p e : steps keeps_ctrl (set_event p e).
Proof. unfold set_event. steps_walk. Qed.
Lemma steps_addData st v : steps keeps_ctrl (addData st v).
Proof. unfold addData. steps_walk. Qed.
Lemma steps_push_retry o : steps keeps_ctrl (push_retry o).
Proof. unfold push_retry. steps_walk. Qed.
#[local] Hint Resolve steps_deref steps_the_event steps_delete_event steps_new_event
  steps_set_event steps_addData steps_push_retry : steps.

Lemma steps_create_event a b cmd : steps keeps_ctrl (create_event a b cmd).
Proof. unfold create_event. steps_walk. Qed.
Lemma steps_forwardByAddress p t : steps keeps_ctrl (forwardByAddress linkUp linkDown p t).
Proof. unfold forwardByAddress, base_forwardByAddress, addToOutgoingQueue, addToOutgoingQueueUp, fatal. steps_walk. Qed.
Lemma steps_forwardByDestination p t : steps keeps_ctrl (forwardByDestination linkUp linkDown p t).
Proof. unfold forwardByDestination, base_forwardByDestination, addToOutgoingQueue, addToOutgoingQueueUp, fatal. steps_walk. Qed.
Lemma steps_recordLatency cmd ty l : steps keeps_ctrl (recordLatency cmd ty l).
Proof. unfold recordLatency, latency_stat, undefined. steps_walk. Qed.
#[local] Hint Resolve steps_create_event steps_forwardByAddress steps_forwardByDestination
  steps_recordLatency : steps.
#[local] Instance virtuals : Virtuals := mesi_l1_virtuals linkUp linkDown.

Lemma steps_allocateMSHR p f pos st : steps keeps_ctrl (allocateMSHR p f pos st).
Proof. unfold allocateMSHR. steps_walk. Qed.
Lemma steps_forwardMessage p sz t d cmd : steps keeps_ctrl (forwardMessage p sz t d cmd).
Proof. unfold forwardMessage. steps_walk. Qed.
Lemma steps_sendResponseUp p d b t su : steps keeps_ctrl (sendResponseUp linkUp linkDown p d b t su).
Proof. unfold sendResponseUp. steps_walk. Qed.
Lemma steps_resendEvent p b : steps keeps_ctrl (resendEvent p b).
Proof. unfold resendEvent, undefined. steps_walk. Qed.
Lemma steps_notifyAccess p a r : steps keeps_ctrl (notifyListenerOfAccess p a r).
Proof. unfold notifyListenerOfAccess, notify. steps_walk. Qed.
Lemma steps_notifyEvict a sz ip : steps keeps_ctrl (notifyListenerOfEvict a sz ip).
Proof. unfold notifyListenerOfEvict, notify. steps_walk. Qed.
Lemma steps_recordLatencyType id ty : steps keeps_ctrl (recordLatencyType id ty).
Proof. unfold recordLatencyType. steps_walk. Qed.
Lemma steps_recordMiss id : steps keeps_ctrl (recordMiss id).
Proof. apply steps_recordLatencyType. Qed.
Lemma steps_recordPrefetchLatency id ty : steps keeps_ctrl (recordPrefetchLatency id ty).
Proof. unfold recordPrefetchLatency. steps_walk. Qed.
#[local] Hint Resolve steps_allocateMSHR steps_forwardMessage steps_sendResponseUp
  steps_resendEvent steps_notifyAccess steps_notifyEvict steps_recordLatencyType
  steps_recordMiss steps_recordPrefetchLatency : steps.

Lemma steps_push_evictions a ps : steps keeps_ctrl (push_evictions a ps).
Proof. unfold push_evictions. steps_walk. Qed.
Lemma steps_push_front_event a : steps keeps_ctrl (push_front_event a).
Proof. unfold push_front_event. steps_walk. Qed.
#[local] Hint Resolve steps_push_evictions steps_push_front_event : steps.
Lemma steps_cleanUpAfterRequest p b : steps keeps_ctrl (cleanUpAfterRequest p b).
Proof. unfold cleanUpAfterRequest. steps_walk. Qed.
Lemma steps_cleanUpAfterResponse p b : steps keeps_ctrl (cleanUpAfterResponse p b).
Proof. unfold cleanUpAfterResponse. steps_walk. Qed.
Lemma steps_retry a : steps keeps_ctrl (retry a).
Proof. unfold retry. steps_walk. Qed.
Lemma kept_unhandled p b : steps keeps_ctrl (unhandled p b).
Proof. unfold unhandled, fatal. steps_walk. Qed.
#[local] Hint Resolve steps_cleanUpAfterRequest steps_cleanUpAfterResponse steps_retry
  kept_unhandled : steps.

(** ** The L1 manager *)

Lemma kept_coh {A} (m : M Ctrl A) : steps keeps_ctrl m -> steps keeps_l1 (coh (P := P) m).
Proof. intros H. by eapply steps_zoom; [exact H|]. Qed.
Lemma kept_mshr {A} (m : M MSHR A) : steps keeps_mshr m -> steps keeps_l1 (MesiL1.mshr (P := P) m).
Proof. intros H. by apply kept_coh, steps_on_mshr. Qed.
Lemma kept_ev p : steps keeps_l1 (ev (P := P) p).
Proof. apply kept_coh, steps_deref. Qed.
Lemma kept_arr {A} (m : M _ A) : steps keeps_l1 (arr (P := P) m).
Proof. by eapply (steps_zoom _ _ _ (fun _ _ => True)); [|intros s a _ ?]. Qed.
Lemma kept_ctrl : steps keeps_l1 (ctrl (P := P)).
Proof. apply steps_gets, _. Qed.
#[local] Hint Resolve kept_coh kept_mshr kept_ev kept_arr kept_ctrl : steps.

Lemma kept_line_get {A} line (f : _ -> A) : steps keeps_l1 (line_get (P := P) line f).
Proof. unfold line_get, null_deref, undefined. steps_walk. Qed.
Lemma kept_line_set line g : steps keeps_l1 (line_set (P := P) line g).
Proof. unfold line_set, null_deref, undefined. steps_walk. Qed.
Lemma kept_line_setData line d o : steps keeps_l1 (line_setData (P := P) line d o).
Proof. unfold line_setData, null_deref, undefined. steps_walk. Qed.
#[local] Hint Resolve kept_line_get kept_line_set kept_line_setData : steps.

Lemma kept_line_state line : steps keeps_l1 (line_state (P := P) line).
Proof. unfold line_state. steps_walk. Qed.
Lemma kept_line_locked line : steps keeps_l1 (line_locked (P := P) line).
Proof. unfold line_locked. steps_walk. Qed.
Lemma kept_line_setState line st : steps keeps_l1 (line_setState (P := P) line st).
Proof. unfold line_setState. steps_walk. Qed.
Lemma kept_line_setTimestamp line t : steps keeps_l1 (line_setTimestamp (P := P) line t).
Proof. unfold line_setTimestamp. steps_walk. Qed.
Lemma kept_line_bytes line o sz : steps keeps_l1 (line_bytes (P := P) line o sz).
Proof. unfold line_bytes. steps_walk. Qed.
Lemma kept_event_payload p : steps keeps_l1 (event_payload (P := P) p).
Proof. unfold event_payload. steps_walk. Qed.
Lemma kept_recordPrefetchResult line st : steps keeps_l1 (recordPrefetchResult (P := P) line st).
Proof. unfold recordPrefetchResult. steps_walk. Qed.
Lemma kept_unprofiled a b : steps keeps_l1 (unprofiled (P := P) a b).
Proof. unfold unprofiled. steps_walk. Qed.
Lemma kept_stat_request cmd st : steps keeps_l1 (stat_request (P := P) cmd st).
Proof. unfold stat_request. steps_walk. Qed.
Lemma kept_notify_access p a r : steps keeps_l1 (notify_access (P := P) p a r).
Proof. unfold notify_access. steps_walk. Qed.
Lemma kept_stall p b : steps keeps_l1 (stall (P := P) p b).
Proof. unfold stall. steps_walk. Qed.
#[local] Hint Resolve kept_line_state kept_line_locked kept_line_setState kept_line_setTimestamp
  kept_line_bytes kept_event_payload kept_recordPrefetchResult kept_unprofiled
  kept_stat_request kept_notify_access kept_stall : steps.

Lemma kept_sendResponseDown p line d : steps keeps_l1 (sendResponseDown (P := P) linkUp linkDown p line d).
Proof. unfold sendResponseDown. steps_walk. Qed.
Lemma kept_forwardFlush p line b : steps keeps_l1 (forwardFlush (P := P) linkUp linkDown p line b).
Proof. unfold forwardFlush. steps_walk. Qed.
Lemma kept_sendWriteback cmd line b : steps keeps_l1 (sendWriteback (P := P) linkUp linkDown cmd line b).
Proof. unfold sendWriteback. steps_walk. Qed.
Lemma kept_snoop p line : steps keeps_l1 (snoopInvalidation (P := P) linkUp linkDown p line).
Proof. unfold snoopInvalidation. steps_walk. Qed.
#[local] Hint Resolve kept_sendResponseDown kept_forwardFlush kept_sendWriteback kept_snoop : steps.

Lemma kept_evict_line line : steps keeps_l1 (evict_line (P := P) linkUp linkDown line).
Proof. unfold evict_line. steps_walk. Qed.
#[local] Hint Resolve kept_evict_line : steps.
Lemma kept_handleEviction a line : steps keeps_l1 (handleEviction (P := P) linkUp linkDown a line).
Proof. unfold handleEviction. steps_walk. Qed.
#[local] Hint Resolve kept_handleEviction : steps.
Lemma kept_allocateLine p line : steps keeps_l1 (allocateLine (P := P) linkUp linkDown p line).
Proof. unfold allocateLine, null_deref, undefined. steps_walk. Qed.
#[local] Hint Resolve kept_allocateLine : steps.
Lemma kept_processCacheMiss p line b : steps keeps_l1 (processCacheMiss (P := P) linkUp linkDown p line b).
Proof. unfold processCacheMiss. steps_walk. Qed.
#[local] Hint Resolve kept_processCacheMiss : steps.

Lemma kept_upgrade line st : steps keeps_l1 (upgrade_if_last_level (P := P) line st).
Proof. unfold upgrade_if_last_level. steps_walk. Qed.
Lemma kept_profile_miss p b cmd r st a l : steps keeps_l1 (profile_miss (P := P) p b cmd r st a l).
Proof. unfold profile_miss. steps_walk. Qed.
Lemma kept_profile_hit p b cmd r st a : steps keeps_l1 (profile_hit (P := P) p b cmd r st a).
Proof. unfold profile_hit. steps_walk. Qed.
Lemma kept_request_line p line cmd st : steps keeps_l1 (request_line (P := P) linkUp linkDown p line cmd st).
Proof. unfold request_line. steps_walk. Qed.
Lemma kept_write_line p line o : steps keeps_l1 (write_line (P := P) p line o).
Proof. unfold write_line. steps_walk. Qed.
Lemma kept_fail_flush p line b cmd st : steps keeps_l1 (fail_flush (P := P) linkUp linkDown p line b cmd st).
Proof. unfold fail_flush. steps_walk. Qed.
Lemma kept_allocate_or_reject p : steps keeps_l1 (allocate_or_reject (P := P) p).
Proof. unfold allocate_or_reject. steps_walk. Qed.
Lemma kept_surrender p line d st : steps keeps_l1 (surrender (P := P) linkUp linkDown p line d st).
Proof. unfold surrender. steps_walk. Qed.
Lemma kept_stall_for_lock p line b : steps keeps_l1 (stall_for_lock (P := P) p line b).
Proof. unfold stall_for_lock. steps_walk. Qed.
Lemma kept_profile_inv cmd st line : steps keeps_l1 (profile_inv (P := P) cmd st line).
Proof. unfold profile_inv. steps_walk. Qed.
Lemma kept_front_request a : steps keeps_l1 (front_request (P := P) a).
Proof. unfold front_request. steps_walk. Qed.
Lemma kept_copy_memFlags p q : steps keeps_l1 (copy_memFlags (P := P) p q).
Proof. unfold copy_memFlags. steps_walk. Qed.
Lemma kept_is_local_prefetch p : steps keeps_l1 (is_local_prefetch (P := P) p).
Proof. unfold is_local_prefetch. steps_walk. Qed.
Lemma kept_respond_with_line p line o b : steps keeps_l1 (respond_with_line (P := P) linkUp linkDown p line o b).
Proof. unfold respond_with_line. steps_walk. Qed.
Lemma kept_fill_line p line : steps keeps_l1 (fill_line (P := P) p line).
Proof. unfold fill_line. steps_walk. Qed.
Lemma kept_start_reservation p line : steps keeps_l1 (start_reservation (P := P) p line).
Proof. unfold start_reservation. steps_walk. Qed.
#[local] Hint Resolve kept_upgrade kept_profile_miss kept_profile_hit kept_request_line
  kept_write_line kept_fail_flush kept_allocate_or_reject kept_surrender kept_stall_for_lock
  kept_profile_inv kept_front_request kept_copy_memFlags kept_is_local_prefetch
  kept_respond_with_line kept_fill_line kept_start_reservation : steps.

Ltac handler f := unfold f, fatal, null_deref, undefined; steps_walk.
Lemma kept_handleGetS p b : steps keeps_l1 (handleGetS linkUp linkDown p b).
Proof. handler @handleGetS. Qed.
Lemma kept_handleGetX p b : steps keeps_l1 (handleGetX linkUp linkDown p b).
Proof. handler @handleGetX. Qed.
Lemma kept_handleGetSX p b : steps keeps_l1 (handleGetSX linkUp linkDown p b).
Proof. handler @handleGetSX. Qed.
Lemma kept_handleFlushLine p b : steps keeps_l1 (handleFlushLine linkUp linkDown p b).
Proof. handler @handleFlushLine. Qed.
Lemma kept_handleFlushLineInv p b : steps keeps_l1 (handleFlushLineInv linkUp linkDown p b).
Proof. handler @handleFlushLineInv. Qed.
Lemma kept_handleFetch p b : steps keeps_l1 (handleFetch linkUp linkDown p b).
Proof. handler @handleFetch. Qed.
Lemma kept_handleInv p b : steps keeps_l1 (handleInv linkUp linkDown p b).
Proof. handler @handleInv. Qed.
Lemma kept_handleForceInv p b : steps keeps_l1 (handleForceInv linkUp linkDown p b).
Proof. handler @handleForceInv. Qed.
Lemma kept_handleFetchInv p b : steps keeps_l1 (handleFetchInv linkUp linkDown p b).
Proof. handler @handleFetchInv. Qed.
Lemma kept_handleFetchInvX p b : steps keeps_l1 (handleFetchInvX linkUp linkDown p b).
Proof. handler @handleFetchInvX. Qed.
Lemma kept_handleGetSResp p b : steps keeps_l1 (handleGetSResp linkUp linkDown p b).
Proof. handler @handleGetSResp. Qed.
Lemma kept_handleGetXResp p b : steps keeps_l1 (handleGetXResp linkUp linkDown p b).
Proof. handler @handleGetXResp. Qed.
Lemma kept_handleFlushLineResp p b : steps keeps_l1 (handleFlushLineResp linkUp linkDown p b).
Proof. handler @handleFlushLineResp. Qed.
Lemma kept_handleAckPut p b : steps keeps_l1 (handleAckPut (P := P) p b).
Proof. handler @handleAckPut. Qed.
Lemma kept_handleNULLCMD p b : steps keeps_l1 (handleNULLCMD linkUp linkDown p b).
Proof. handler @handleNULLCMD. Qed.
Lemma kept_handleNACK p b : steps keeps_l1 (handleNACK linkUp linkDown p b).
Proof. handler @handleNACK. Qed.
#[local] Hint Resolve kept_handleGetS kept_handleGetX kept_handleGetSX kept_handleFlushLine
  kept_handleFlushLineInv kept_handleFetch kept_handleInv kept_handleForceInv
  kept_handleFetchInv kept_handleFetchInvX kept_handleGetSResp kept_handleGetXResp
  kept_handleFlushLineResp kept_handleAckPut kept_handleNULLCMD kept_handleNACK : steps.

(** Every handler leaves the MSHR in a reachable state. *)
Lemma handle_keeps_mshr cmd p b : steps keeps_l1 (handle linkUp linkDown cmd p b).
Proof. destruct cmd; cbn [handle]; unfold handleWrite; auto with steps. Qed.
End l1_mshr.
