(* ===== verification/L1Safety.v ===== *)
(** * L1Safety: what no handler of the L1 manager does

    Theorems over every event handler at once, by the proof principle of
    [L1Steps] and the walk of [L1Mshr]: the states a command may put lines in,
    the well-formedness of lines, the protection of a locked line, the handlers
    that leave data alone, and the invariant of the MSHR. *)

From S2P Require Import Prelude MemTypes MemEvent Hash Replacement Lines CacheArray Mshr Coherence MesiL1.
From S2P Require Import L1Demo L1Steps L1Mshr.

Section l1_safety.
Context {core : SSTCore} (linkUp linkDown : MemLink).
Context {P : Type} {HP : ReplacementPolicy P} {hash_ : HashFunction}.
Abbreviation St := (L1 P).
Abbreviation handle := (MesiL1.handle (P := P) linkUp linkDown).

(** ** Relations between the lines before and after *)

Definition geometry (s : St) : Z * Z * Z * Z * Z * Z * Z :=
  let c := cacheArray_ s in
  (numSets_ c, numLines_ c, associativity_ c, lineOffset_ c, sliceSize_ c, sliceStep_ c, banks_ c).

Definition linewise (Q : nat -> L1CacheLine.t -> L1CacheLine.t -> Prop) (s s' : St) : Prop :=
  length (lines s') = length (lines s) /\ protocolState_ s' = protocolState_ s /\
  geometry s' = geometry s /\
  forall i l', lines s' !! i = Some l' -> exists l, lines s !! i = Some l /\ Q i l l'.

Section linewise.
Context (Q : nat -> L1CacheLine.t -> L1CacheLine.t -> Prop) {HQ : forall i, PreOrder (Q i)}.

#[export] Instance linewise_preorder : PreOrder (linewise Q).
Proof.
  split.
  - intros s. split_and!; [done..|]. intros i l Hl. by exists l.
  - intros s1 s2 s3 (L1 & P1 & G1 & H1) (L2 & P2 & G2 & H2). split_and!; [congruence..|].
    intros i l3 Hl3. destruct (H2 _ _ Hl3) as (l2 & Hl2 & Q2).
    destruct (H1 _ _ Hl2) as (l1 & Hl1 & Q1). exists l1. split; [done|by transitivity l2].
Qed.

Lemma linewise_cc s c : linewise Q s (s <| cc := c |>).
Proof. split_and!; [done..|]. intros i l Hl. by exists l. Qed.
Lemma linewise_mgr s m : linewise Q s (put_mgr s m).
Proof. split_and!; [done..|]. intros i l Hl. by exists l. Qed.

Lemma linewise_put s i l l' :
  lines s !! i = Some l -> Q i l l' -> linewise Q s (put_line s i l').
Proof.
  intros Hl Hll. split_and!; [apply length_insert|done..|]. intros j lj Hj.
  apply list_lookup_insert_Some in Hj as [(-> & -> & _)|[_ Hj]]; [eauto|by exists lj].
Qed.

(** A line-wise relation that needs no test of the line obeys the rules if it
    allows each kind of update. *)
Lemma linewise_rules (st_ok : State.t -> Prop) :
  (forall i l f, benign f -> Q i l (f l)) ->
  (forall i l st, st_ok st -> Q i l (L1CacheLine.setState st l)) ->
  (forall i l, L1CacheLine.getState l = State.I -> Q i l (L1CacheLine.reset l)) ->
  (forall i l a, Q i l (L1CacheLine.setAddr a l)) ->
  line_rules (linewise Q) (fun _ _ => True) st_ok True.
Proof.
  intros Hb Hs Hr Ha.
  split; intros; try done; auto; [apply linewise_cc|apply linewise_mgr|..];
    eapply linewise_put; eauto. transitivity (L1CacheLine.reset l); auto.
Qed.

Lemma linewise_protocol s s' : linewise Q s s' -> protocolState_ s' = protocolState_ s.
Proof. by intros (_ & ? & _). Qed.

Lemma handle_linewise st_ok cmd p b s r s' :
  line_rules (linewise Q) (fun _ _ => True) st_ok True ->
  (writes_lines cmd = true -> write_rules (linewise Q) (fun _ _ => True)) ->
  (forall st, st ∈ may_enter cmd (protocolState_ s) -> st_ok st) ->
  handle cmd p b s = Ok (r, s') -> linewise Q s s'.
Proof.
  intros Hrules W Hst H.
  eapply (steps_handle linkUp linkDown (linewise Q) (fun _ _ => True) st_ok Hrules); [| |done..|exact H].
  { intros s1 s2 Hq. by rewrite (linewise_protocol _ _ Hq). }
  intros _ e s1 _ s2 i l s3 _ _ Hs. by apply Hs.
Qed.

Lemma linewise_writes :
  (forall i l l' d o, L1CacheLine.setData d o l = Ok l' -> Q i l l') ->
  (forall i l, Q i l (L1CacheLine.decLock l)) -> (forall i l, Q i l (L1CacheLine.incLock l)) ->
  write_rules (linewise Q) (fun _ _ => True).
Proof. intros Hd H1 H2. split; intros; (eapply linewise_put; [eassumption|]); [by eapply Hd|apply H1|apply H2]. Qed.
End linewise.

(** ** States *)

Definition state_step (A : list State.t) (_ : nat) (l l' : L1CacheLine.t) : Prop :=
  L1CacheLine.getState l' = L1CacheLine.getState l \/ L1CacheLine.getState l' ∈ A.
#[local] Instance state_step_preorder A i : PreOrder (state_step A i).
Proof.
  split; [by left|]. intros l1 l2 l3 H1 [E|?]; [|by right]. unfold state_step. by rewrite E.
Qed.

Lemma setData_Ok d o l l' :
  L1CacheLine.setData d o l = Ok l' ->
  exists bytes, vec_copy (L1CacheLine.getData l) d o = Ok bytes /\
    l' = l <| L1CacheLine.base ::= fun b => b <| CacheLine.data_ := bytes |> |>.
Proof.
  unfold L1CacheLine.setData, CacheLine.setData, L1CacheLine.getData.
  destruct (vec_copy _ _ _) as [bytes|]; [|done]. intros [= <-]. eauto.
Qed.

(** The states a handler may move lines to are the ones [may_enter] lists
    for its command: no other line of the cache changes its state, and the number
    of lines does not change. In particular a line becomes modified only by a
    write, a request for ownership or an answer with ownership, and readable only
    by an answer from below or the end of a flush. *)
Theorem handle_transitions cmd p b s r s' :
  handle cmd p b s = Ok (r, s') ->
  length (lines s') = length (lines s) /\
  forall i l', lines s' !! i = Some l' ->
    exists l, lines s !! i = Some l /\
      (L1CacheLine.getState l' = L1CacheLine.getState l \/
       L1CacheLine.getState l' ∈ may_enter cmd (protocolState_ s)).
Proof.
  intros H. apply (handle_linewise (state_step (may_enter cmd (protocolState_ s)))
    (fun st => st ∈ may_enter cmd (protocolState_ s))) in H as (? & _ & _ & ?); [..|done].
  - by split.
  - apply linewise_rules; [apply _| | | |].
    + intros i l f Hf. left. by destruct Hf.
    + intros i l st ?. by right.
    + intros i l Hl. by left.
    + by left.
  - intros _. apply linewise_writes; [apply _| |intros; by left..].
    intros i l l' d o (bytes & _ & ->)%setData_Ok. by left.
Qed.

(** ** Well-formed lines *)

(** A line knows its place, the policy sees its state, and it has [sz] bytes. *)
Record line_ok (sz : nat) (i : nat) (l : L1CacheLine.t) : Prop := {
  lo_index : L1CacheLine.getIndex l = Z.of_nat i;
  lo_info : ri_index (L1CacheLine.info l) = Z.of_nat i;
  lo_state : ri_state (L1CacheLine.info l) = L1CacheLine.getState l;
  lo_data : length (L1CacheLine.getData l) = sz
}.
Definition lines_wf (sz : nat) (s : St) : Prop :=
  forall i l, lines s !! i = Some l -> line_ok sz i l.

Abbreviation keeps_ok sz := (fun i l l' => line_ok sz i l -> line_ok sz i l').
#[local] Instance keeps_ok_preorder sz i : PreOrder (fun l l' => line_ok sz i l -> line_ok sz i l').
Proof. apply invariant_preorder. Qed.

Lemma handle_lines sz cmd p b s r s' :
  lines_wf sz s -> handle cmd p b s = Ok (r, s') -> lines_wf sz s' /\ geometry s' = geometry s.
Proof.
  intros Hwf H. apply (handle_linewise (keeps_ok sz) (fun _ => True)) in H as (_ & _ & Hg & Hl); [..|done].
  - split; [|done]. intros i l' Hl'. destruct (Hl _ _ Hl') as (l & El & Hll). by apply Hll, Hwf.
  - apply linewise_rules; [apply _| | | |].
    + intros i l f Hf [? ? ? ?]. by destruct Hf.
    + intros i l st _ [? ? ? ?]. by split.
    + intros i l Es [? ? E ?]. rewrite Es in E. by split.
    + intros i l a [? ? ? ?]. by split.
  - intros _. apply linewise_writes; [apply _| |by intros i l [? ? ? ?]..].
    intros i l l' d o (bytes & Hb%vec_copy_length & ->)%setData_Ok [? ? ? Hlen].
    split; [done..|]. by rewrite <- Hlen.
Qed.

(** Every handler keeps the array's geometry and its lines well-formed:
    line [i] knows it is line [i], the state the replacement policy reads is the
    line's state, and the data keeps its length. *)
Theorem handle_keeps_lines_wf sz cmd p b s r s' :
  lines_wf sz s -> handle cmd p b s = Ok (r, s') -> lines_wf sz s' /\ geometry s' = geometry s.
Proof. apply handle_lines. Qed.

(** ** Data *)

Definition same_data (_ : nat) (l l' : L1CacheLine.t) : Prop :=
  L1CacheLine.getData l' = L1CacheLine.getData l.
#[local] Instance same_data_preorder i : PreOrder (same_data i).
Proof. apply frame_preorder. Qed.

(** Only writes and the fills of answers change the bytes held in lines. *)
Theorem handle_keeps_data cmd p b s r s' :
  writes_lines cmd = false -> handle cmd p b s = Ok (r, s') ->
  L1CacheLine.getData <$> lines s' = L1CacheLine.getData <$> lines s.
Proof.
  intros Hw H. apply (handle_linewise same_data (fun _ => True)) in H as (Hlen & _ & _ & Hl); [..|done].
  - apply list_eq. intros i. rewrite !list_lookup_fmap. destruct (lines s' !! i) as [l'|] eqn:El'.
    + destruct (Hl _ _ El') as (l & -> & E). simpl. by f_equal.
    + apply lookup_ge_None in El'. by rewrite (lookup_ge_None_2 (lines s) i) by lia.
  - by apply linewise_rules; [apply _|intros i l f []|..].
  - by rewrite Hw.
Qed.

(** ** Locked lines *)

Definition held (l : L1CacheLine.t) : Prop :=
  L1CacheLine.getState l = State.M /\ 0 < L1CacheLine.userLock_ l.
Definition same_content (l l' : L1CacheLine.t) : Prop :=
  L1CacheLine.getState l' = L1CacheLine.getState l /\
  L1CacheLine.getAddr l' = L1CacheLine.getAddr l /\
  L1CacheLine.getData l' = L1CacheLine.getData l /\
  L1CacheLine.userLock_ l' = L1CacheLine.userLock_ l.

(** The line [i0] still has the content of [l0], which is held. *)
Section protection.
Variables (i0 : nat) (l0 : L1CacheLine.t).
Hypothesis Hheld : held l0.

Definition still_there (s : St) : Prop := exists l, lines s !! i0 = Some l /\ same_content l0 l.
Definition keeps_line (s s' : St) : Prop := still_there s -> still_there s'.
#[local] Instance keeps_line_preorder : PreOrder keeps_line.
Proof. split; [by intros s|]. intros s1 s2 s3 H1 H2 Hs. auto. Qed.

Lemma keeps_lines s s' : lines s' = lines s -> keeps_line s s'.
Proof. intros E (l & Hl & Hc). exists l. by rewrite E. Qed.
Lemma keeps_elsewhere s i l : i <> i0 -> keeps_line s (put_line s i l).
Proof.
  intros Hi (l1 & Hl & Hc). exists l1. split; [|done]. unfold lines, put_line, update. cbn.
  by rewrite list_lookup_insert_ne.
Qed.
(** A line that a test shows not to be ours may be assumed to be another one. *)
Lemma keeps_tested s i l s' :
  lines s !! i = Some l -> ~ same_content l0 l -> (i <> i0 -> keeps_line s s') -> keeps_line s s'.
Proof.
  intros Hl Hn Hk Hs. destruct (decide (i = i0)) as [->|Hne]; [|by apply Hk].
  destruct Hs as (l1 & Hl1 & Hc). by assert (l1 = l) as -> by congruence.
Qed.

Lemma keeps_rules : line_rules keeps_line (fun i _ => i <> i0) (fun _ => True) True.
Proof.
  destruct Hheld as [Hst Hlock]. split.
  - intros. by apply keeps_lines.
  - intros. by apply keeps_lines.
  - done.
  - intros s i l f Hl Hf. destruct (decide (i = i0)) as [->|Hne]; [|by apply keeps_elsewhere].
    intros (l1 & Hl1 & Hc). assert (l1 = l) as -> by congruence. exists (f l). split; [by eapply lines_put|].
    destruct Hc as (C1 & C2 & C3 & C4). by destruct Hf.
  - intros. by apply keeps_elsewhere.
  - intros. by apply keeps_elsewhere.
  - intros. by apply keeps_elsewhere.
  - intros s i l s' Hl Hne. apply (keeps_tested s i l s' Hl). intros (C1 & _). congruence.
  - intros s i l t s' Hl Hun. apply (keeps_tested s i l s' Hl). intros (_ & _ & _ & C4). unfold L1CacheLine.isLocked in Hun.
    rewrite C4 in Hun. by rewrite (proj2 (Z.ltb_lt _ _)) in Hun.
Qed.
Lemma keeps_writes : write_rules keeps_line (fun i _ => i <> i0).
Proof. split; intros; by apply keeps_elsewhere. Qed.
End protection.

(** The event [p] is a request or a fill for the address [a]: those that work on the
    line of their address without testing whether it is in use. *)
Definition works_on (cmd : Command.t) (p : EventPtr) (s : St) (a : Z) : Prop :=
  respects_use cmd = false /\ exists e, ev p s = Ok (e, s) /\ baseAddr_ e = a.

(** C8. A locked line is safe: while a modified line is locked, no handler changes its
    address, its state, its bytes or the lock, be it a request from above or an answer
    for another address (which may have to evict a line), a request from below, a flush,
    an eviction, an acknowledgement or a refusal. Only a request from above or an answer
    for the address of the line itself can. *)
Theorem locked_line_protected cmd p b s r s' i l :
  handle cmd p b s = Ok (r, s') ->
  lines s !! i = Some l -> held l -> ~ works_on cmd p s (L1CacheLine.getAddr l) ->
  exists l', lines s' !! i = Some l' /\ same_content l l'.
Proof.
  intros H Hl Hh Hw. eapply (steps_handle linkUp linkDown (keeps_line i l) (fun j _ => j <> i) (fun _ => True) (keeps_rules i l Hh)).
  - done.
  - intros Hu e s1 He s2 j lj s3 Hj Ha. apply (keeps_tested i l s2 j lj s3 Hj). intros (_ & C2 & _). apply Hw. split; [done|].
    exists e. pose proof He as E%ev_same. subst s1. split; [done|congruence].
  - intros _. apply keeps_writes.
  - done.
  - exact H.
  - by exists l.
Qed.

(** ** The MSHR *)

(** Every handler leaves the MSHR in a state the operations of [Mshr] can
    reach from an empty one of the same capacity: [size_] is the number of queued
    events and within the capacity, and every register and entry is well-formed. *)
Theorem handle_keeps_mshr_wf n cmd p b s r s' :
  mshr_reachable n (mshr_ (cc s)) -> handle cmd p b s = Ok (r, s') ->
  mshr_reachable n (mshr_ (cc s')) /\ mshr_wf (mshr_ (cc s')) /\
  (0 <= n -> getSize (mshr_ (cc s')) <= n).
Proof.
  intros Hr H. pose proof (handle_keeps_mshr linkUp linkDown n _ _ _ _ _ _ H Hr) as Hr'.
  split; [exact Hr'|]. apply reachable_wf in Hr' as [Hwf <-]. split; [done|].
  exact (mw_max _ Hwf).
Qed.
End l1_safety.

(** ** Examples *)

Definition locked_line : L1CacheLine.t :=
  L1CacheLine.incLock (held_line 0 0 State.M [1; 2; 3; 4; 5; 6; 7; 8]).
Definition locked_start : L1 LRU.t :=
  demo_l1 [locked_line; empty_line 1] [mem_message 1 0 [] Command.FetchInv].
Definition shared_start : L1 LRU.t :=
  demo_l1 [held_line 0 0 State.S [1; 2; 3; 4; 5; 6; 7; 8]; empty_line 1]
    [mem_message 1 0 [] Command.Inv].

Lemma handle_transitions_witness :
  exists r s', demo_handle Command.GetS 0%N false demo_start = Ok (r, s') /\ length (lines s') = 2%nat.
Proof.
  destruct (succeeds_run (demo_handle Command.GetS 0%N false) demo_start) as (r & s' & H);
    [by vm_compute|].
  exists r, s'. split; [done|]. by apply handle_transitions in H as [-> _].
Defined.

Lemma demo_start_wf : lines_wf 8 demo_start.
Proof. intros [|[|i]] l [= <-]; by split. Qed.

Lemma handle_keeps_lines_wf_witness :
  exists r s', demo_handle Command.GetS 0%N false demo_start = Ok (r, s') /\ lines_wf 8 s'.
Proof.
  destruct (succeeds_run (demo_handle Command.GetS 0%N false) demo_start) as (r & s' & H);
    [by vm_compute|].
  exists r, s'. split; [done|]. by apply (handle_keeps_lines_wf _ _ 8) in H as [? _]; [|apply demo_start_wf].
Defined.

(** An invalidated line keeps its bytes. *)
Lemma handle_keeps_data_witness :
  exists r s', demo_handle Command.Inv 0%N false shared_start = Ok (r, s') /\
    L1CacheLine.getData <$> lines s' = [[1; 2; 3; 4; 5; 6; 7; 8]; [0; 0; 0; 0; 0; 0; 0; 0]].
Proof.
  destruct (succeeds_run (demo_handle Command.Inv 0%N false) shared_start) as (r & s' & H);
    [by vm_compute|].
  exists r, s'. split; [done|]. by apply handle_keeps_data in H as ->.
Defined.

(** A fetch-and-invalidate of a locked line waits; a read of another address of its set,
    for which it is the victim, does not take it. *)
Definition crowded_start : L1 LRU.t := demo_l1 [locked_line; empty_line 1] [mem_message 1 16 [] Command.GetS].
Lemma locked_line_protected_witness :
  (exists r s' l', demo_handle Command.FetchInv 0%N false locked_start = Ok (r, s') /\
    lines s' !! 0%nat = Some l' /\ same_content locked_line l') /\
  exists r s' l', demo_handle Command.GetS 0%N false crowded_start = Ok (r, s') /\
    lines s' !! 0%nat = Some l' /\ same_content locked_line l'.
Proof.
  split.
  - destruct (succeeds_run (demo_handle Command.FetchInv 0%N false) locked_start) as (r & s' & H);
      [by vm_compute|].
    destruct (locked_line_protected _ _ Command.FetchInv _ _ _ _ _ 0 locked_line H) as (l' & Hl' & Hc);
      [done|split; [done|by vm_compute]|by intros [[=] _]|].
    exists r, s', l'. done.
  - destruct (succeeds_run (demo_handle Command.GetS 0%N false) crowded_start) as (r & s' & H);
      [by vm_compute|].
    destruct (locked_line_protected _ _ Command.GetS _ _ _ _ _ 0 locked_line H) as (l' & Hl' & Hc);
      [done|split; [done|by vm_compute]| |exists r, s', l'; done].
    intros (_ & e & He & Ha). vm_compute in He. injection He as <-. by vm_compute in Ha.
Defined.

Lemma handle_keeps_mshr_wf_witness :
  exists r s', demo_handle Command.GetS 0%N false demo_start = Ok (r, s') /\
    getSize (mshr_ (cc s')) <= 4.
Proof.
  destruct (succeeds_run (demo_handle Command.GetS 0%N false) demo_start) as (r & s' & H);
    [by vm_compute|].
  exists r, s'. split; [done|].
  apply (handle_keeps_mshr_wf _ _ 4) in H as (_ & _ & Hn); [by apply Hn|apply reach_new].
Defined.
