(* ===== verification/L1Function.v ===== *)
(** * L1Function: what the handlers of the L1 manager compute

    Functional theorems, in total correctness: loads and stores that hit, a load
    after a store, the reservation of a store-conditional, what a request from
    below takes, and what an eviction sends; and the requests that cannot be
    served at all. *)

From S2P Require Import Prelude MemTypes MemEvent Hash Replacement Lines CacheArray Mshr Coherence MesiL1.
From S2P Require Import CtrlRuns L1Demo.

Create HintDb quiet discriminated.

Section l1_function.
Context {core : SSTCore} (linkUp linkDown : MemLink).
Context (capacity ways : Z) {P : Type} `{TP : TotalPolicy P (lines := capacity) (ways := ways)}.
Context {hash_ : HashFunction}.
Abbreviation St := (L1 P).
Abbreviation arrT := (CacheArray L1CacheLine.t P).

(** A state with its parts in view: [mkL1 c snoop ps ll a]. *)
Abbreviation st := mkL1.

Lemma runs_coh {A} (m : M Ctrl A) c sn ps ll (a : arrT) Q :
  runs m c (fun x c' => Q x (st c' sn ps ll a)) -> runs (coh m) (st c sn ps ll a) Q.
Proof. intros Hm. by apply runs_zoom. Qed.
Lemma runs_coh_step {A B} (m : M Ctrl A) (k : A -> M St B) c sn ps ll (a : arrT) Q Q1 :
  runs m c Q1 -> (forall x c', Q1 x c' -> runs (k x) (st c' sn ps ll a) Q) ->
  runs (coh m ≫= k) (st c sn ps ll a) Q.
Proof. intros Hm Hk. apply runs_bind, runs_coh. by eapply runs_mono. Qed.
Lemma runs_ev {B} p (k : MemEvent -> M St B) c sn ps ll (a : arrT) e Q :
  heap_ c !! p = Some e -> runs (k e) (st c sn ps ll a) Q ->
  runs (ev p ≫= k) (st c sn ps ll a) Q.
Proof. intros He Hk. apply runs_bind, runs_coh. by eapply runs_deref. Qed.
Lemma runs_ctrl {B} (k : Ctrl -> M St B) c sn ps ll (a : arrT) Q :
  runs (k c) (st c sn ps ll a) Q -> runs (ctrl ≫= k) (st c sn ps ll a) Q.
Proof. intros Hk. by apply runs_bind, runs_gets. Qed.

(** Computations that only make observations, given the event at [p]. *)
Definition quietly {A} (p : EventPtr) (m : M St A) : Prop :=
  forall c sn ps ll a, is_Some (heap_ c !! p) ->
    runs m (st c sn ps ll a) (fun _ s' => exists c', s' = st c' sn ps ll a /\ quiet c c').
Lemma quietly_bind {A B} p (m : M St A) (k : A -> M St B) :
  quietly p m -> (forall x, quietly p (k x)) -> quietly p (m ≫= k).
Proof.
  intros Hm Hk c sn ps ll a Hp. eapply runs_step; [by apply Hm|]. intros x s1 (c1 & -> & H1).
  eapply runs_mono; [apply Hk; by rewrite (quiet_heap H1)|].
  intros y s2 (c2 & -> & H2). exists c2. split; [done|]. by transitivity c1.
Qed.
Lemma quietly_coh {A} p (m : M Ctrl A) :
  (forall c, is_Some (heap_ c !! p) -> runs m c (fun _ c' => quiet c c')) -> quietly p (coh m).
Proof.
  intros Hm c sn ps ll a Hp. apply runs_coh. eapply runs_mono; [by apply Hm|]. eauto.
Qed.
Lemma quietly_stat p stat v : quietly p (coh (addData stat v)).
Proof. apply quietly_coh. intros. apply runs_addData. Qed.
Lemma quietly_latency p id ty : quietly p (coh (recordLatencyType id ty)).
Proof. apply quietly_coh. intros. apply runs_recordLatencyType. Qed.
Lemma quietly_notify p a r : quietly p (notify_access p a r).
Proof. apply quietly_coh. intros c [e He]. by eapply runs_notifyAccess. Qed.
Lemma quietly_request p cmd stt : quietly p (stat_request cmd stt).
Proof. apply quietly_stat. Qed.
Lemma quietly_ret {A} p (x : A) : quietly p (mret x).
Proof. intros c sn ps ll a _. apply runs_ret. by exists c. Qed.
Lemma quietly_when p b m : quietly p m -> quietly p (when b m).
Proof. destruct b; [done|]. intros _. apply (quietly_ret p tt). Qed.
Lemma quietly_ev p : quietly p (ev p).
Proof. apply quietly_coh. intros c [e He]. by eapply runs_deref. Qed.
#[local] Hint Resolve quietly_bind quietly_stat quietly_latency quietly_notify quietly_request
  quietly_ret quietly_when quietly_ev : quiet.
Lemma quietly_profile_hit p cmd row stt acc : quietly p (profile_hit p false cmd row stt acc).
Proof. unfold profile_hit, unprofiled. eauto 15 with quiet. Qed.
Lemma runs_quietly {A B} p (m : M St A) (k : A -> M St B) c sn ps ll (a : arrT) e Q :
  quietly p m -> heap_ c !! p = Some e ->
  (forall x c', quiet c c' -> runs (k x) (st c' sn ps ll a) Q) ->
  runs (m ≫= k) (st c sn ps ll a) Q.
Proof.
  intros Hm He Hk. eapply runs_step; [apply Hm; by rewrite He|].
  intros x s1 (c' & -> & H'). by apply Hk.
Qed.
Lemma runs_ok_bind {A B} (m : M St A) (b : B) s (Q : B -> St -> Prop) :
  runs m s (fun _ s' => Q b s') -> runs (m ≫= fun _ => mret b) s Q.
Proof. intros Hm. eapply runs_step; [exact Hm|]. intros. by apply runs_ret. Qed.

Lemma runs_ok_bind3 {X B} (m : M St X) (f : X -> M St unit) (g : M St unit) (b : B) s
    (Q : B -> St -> Prop) :
  runs (x ← m; f x ;; g) s (fun _ s' => Q b s') -> runs (x ← m; f x ;; g ;; mret b) s Q.
Proof.
  intros ([] & s' & (x & s1 & Hm & ([] & s2 & Hf & Hg)%bind_Ok)%bind_Ok & HQ).
  apply runs_bind. exists x, s1. split; [done|]. apply runs_bind. exists tt, s2. split; [done|].
  apply runs_bind. exists tt, s'. split; [done|]. by apply runs_ret.
Qed.

(** Reading and writing line [i] of the array. *)
Definition with_line (a : arrT) (i : nat) (l : L1CacheLine.t) : arrT := a <| lines_ ::= <[i := l]> |>.

Lemma with_line_lookup a i l l0 : lines_ a !! i = Some l0 -> lines_ (with_line a i l) !! i = Some l.
Proof. intros Hl. apply list_lookup_insert_eq. by eapply lookup_lt_Some. Qed.
Lemma with_line_twice a i l l' : with_line (with_line a i l) i l' = with_line a i l'.
Proof. unfold with_line, update. cbn. f_equal. apply list_insert_insert_eq. Qed.
Lemma with_line_same a i l : lines_ a !! i = Some l -> with_line a i l = a.
Proof. intros Hl. destruct a. unfold with_line, update. cbn in *. f_equal. by apply list_insert_id. Qed.

Lemma runs_line_get {A B} i (f : _ -> A) (k : A -> M St B) c sn ps ll (a : arrT) l Q :
  lines_ a !! i = Some l -> runs (k (f l)) (st c sn ps ll a) Q ->
  runs (line_get (Some i) f ≫= k) (st c sn ps ll a) Q.
Proof.
  intros Hl Hk. apply runs_bind, runs_bind, runs_zoom. eapply runs_getsR; [cbn; by rewrite Hl|].
  by apply runs_ret.
Qed.
Lemma runs_line_set i g c sn ps ll (a : arrT) l Q :
  lines_ a !! i = Some l -> Q tt (st c sn ps ll (with_line a i (g l))) ->
  runs (line_set (Some i) g) (st c sn ps ll a) Q.
Proof.
  intros Hl Hk. apply runs_bind, runs_zoom. eapply runs_getsR; [cbn; by rewrite Hl|].
  by apply runs_zoom, runs_modify.
Qed.
Lemma runs_line_state {B} i (k : State.t -> M St B) c sn ps ll (a : arrT) l Q :
  lines_ a !! i = Some l -> runs (k (L1CacheLine.getState l)) (st c sn ps ll a) Q ->
  runs (line_state (Some i) ≫= k) (st c sn ps ll a) Q.
Proof. apply runs_line_get. Qed.
Lemma runs_line_setData i d o c sn ps ll (a : arrT) l l' Q :
  lines_ a !! i = Some l -> L1CacheLine.setData d o l = Ok l' ->
  Q tt (st c sn ps ll (with_line a i l')) ->
  runs (line_setData (Some i) d o) (st c sn ps ll a) Q.
Proof.
  intros Hl Hd Hk. apply runs_bind, runs_zoom. eapply runs_getsR; [cbn; by rewrite Hl|].
  apply runs_bind. eapply runs_getsR; [exact Hd|]. by apply runs_zoom, runs_modify.
Qed.

(** A lookup that hits, with or without the policy's update. *)
Lemma runs_lookup {B} addr i (k : option nat -> M St B) c sn ps ll (a : arrT) m Q :
  lookup_index a addr = Ok (Some i) -> rp_update (Z.of_nat i) (replacementMgr_ a) = Ok (tt, m) ->
  runs (k (Some i)) (st c sn ps ll (a <| replacementMgr_ := m |>)) Q ->
  runs (arr (lookup addr true) ≫= k) (st c sn ps ll a) Q.
Proof.
  intros Hi Hm Hk. apply runs_bind, runs_zoom, runs_bind. eapply runs_getsR; [exact Hi|].
  apply runs_bind, runs_zoom. exists tt, m. split; [done|]. by apply runs_ret.
Qed.
Lemma runs_lookup_only {B} addr o (k : option nat -> M St B) c sn ps ll (a : arrT) Q :
  lookup_index a addr = Ok o -> runs (k o) (st c sn ps ll a) Q ->
  runs (arr (lookup addr false) ≫= k) (st c sn ps ll a) Q.
Proof.
  intros Hi Hk. apply runs_bind, runs_zoom, runs_bind. eapply runs_getsR; [exact Hi|].
  destruct a, o; [apply runs_bind, runs_ret|]; by apply runs_ret.
Qed.

Lemma runs_recordPrefetchResult i stat c sn ps ll (a : arrT) l Q :
  lines_ a !! i = Some l ->
  (forall c', quiet c c' -> Q tt (st c' sn ps ll (with_line a i (L1CacheLine.setPrefetch false l)))) ->
  runs (recordPrefetchResult (Some i) stat) (st c sn ps ll a) Q.
Proof.
  intros Hl HQ. eapply runs_line_get; [done|]. apply runs_when; intros Hp.
  - eapply runs_coh_step; [apply runs_addData|]. intros [] c' Hc. by eapply runs_line_set; [|apply HQ].
  - assert (L1CacheLine.setPrefetch false l = l) as Heq.
    { destruct l as [[]]. cbn in Hp. by subst. }
    rewrite Heq, with_line_same in HQ by done. by apply HQ.
Qed.

(** ** A request whose line is present *)

(** Event [p] holds the request [e], whose line is line [i], holding [l]; nothing
    waits for the line, and the requester can be reached. *)
Record hits (s : St) (p : EventPtr) (e : MemEvent) (i : nat) (l : L1CacheLine.t) : Prop := {
  hit_event : heap_ (cc s) !! p = Some e;
  hit_owned : forall x, x ∈ outgoingEventQueueUp_ (cc s) ++ outgoingEventQueueDown_ (cc s) ->
    r_event x <> p;
  hit_lookup : lookup_index (cacheArray_ s) (baseAddr_ e) = Ok (Some i);
  hit_line : lines_ (cacheArray_ s) !! i = Some l;
  hit_free : exists_ (mshr_ (cc s)) (baseAddr_ e) = false;
  hit_reach : isReachable linkUp (src_ e) = true
}.
(** What every request finds: live queues and a policy in order. *)
Record ready (s : St) : Prop := {
  ready_live : ctrl_live (cc s);
  ready_policy : rp_inv (replacementMgr_ (cacheArray_ s));
  ready_lines : Z.of_nat (length (lines_ (cacheArray_ s))) <= capacity
}.

Lemma hit_update s p e i l :
  hits s p e i l -> ready s ->
  exists m, rp_update (Z.of_nat i) (replacementMgr_ (cacheArray_ s)) = Ok (tt, m) /\ rp_inv m.
Proof.
  intros Hh [_ Hp Hn]. pose proof (lookup_lt_Some _ _ _ (hit_line _ _ _ _ _ Hh)).
  destruct (rp_update_total (Z.of_nat i) (replacementMgr_ (cacheArray_ s))) as [m Hm]; [done|lia|].
  exists m. split; [done|]. by eapply rp_inv_update.
Qed.

(** The request is answered and deleted. *)
Lemma runs_cleanUp_hit p e c sn ps ll (a : arrT) Q :
  heap_ c !! p = Some e -> exists_ (mshr_ c) (baseAddr_ e) = false ->
  Q tt (st (c <| heap_ ::= delete p |>) sn ps ll a) ->
  runs (coh (cleanUpAfterRequest p false)) (st c sn ps ll a) Q.
Proof.
  intros He Hx HQ. apply runs_coh, runs_bind. eapply runs_deref; [done|].
  apply runs_bind, runs_skip, runs_bind. eapply runs_delete_event; [done|].
  apply runs_bind, runs_gets. cbn [mshr_ update]. rewrite Hx. by apply runs_skip.
Qed.

(** ** What serving a request leaves *)

(** The response [r] answers [e], with the bytes [data] if any. *)
Record answers (c : Ctrl) (e : MemEvent) (data : option (list Z)) (success : bool) (r : MemEvent) : Prop := {
  an_id : responseToID_ r = eventID_ e;
  an_cmd : CommandResponse (cmd_ e) = Ok (cmd_ r);
  an_dst : dst_ r = src_ e;
  an_src : src_ r = cachename_ c;
  an_addr : baseAddr_ r = baseAddr_ e;
  an_flags : flags_ r = if success then flags_ e else Z.lor (flags_ e) F_FAIL;
  an_data : forall d, data = Some d -> payload_ r = d
}.

Lemma answers_intro c e r data success :
  makeResponse e = Ok r -> answers c e data success ((answer r data success) <| src_ := cachename_ c |>).
Proof.
  rewrite makeResponse_eq. destruct (CommandResponse (cmd_ e)) as [rc|] eqn:Hc; [|done].
  intros [= <-]. destruct data, success; split; try done; by intros ? [= <-].
Qed.

(** The event at [p] replaced by a response, queued. *)
Definition replaced_ctrl (p : EventPtr) (r : MemEvent) (q : list Response) (c : Ctrl) : Ctrl :=
  c <| heap_ := delete p (<[fresh_ c := r]> (heap_ c)) |> <| fresh_ := N.succ (fresh_ c) |>
    <| outgoingEventQueueUp_ := q |>.

(** [s'] is [s] after request [e], at [p], was served: the event is gone, its
    answer [r] waits in the queue to the CPU from [t] on, line [i] is [l'], and
    nothing else changed but the policy's bookkeeping and the observations. *)
Record served (s : St) (p : EventPtr) (e : MemEvent) (data : option (list Z)) (success : bool)
    (t : Z) (i : nat) (l' : L1CacheLine.t) (s' : St) : Prop := {
  sv_answer : exists r m q1 q2, answers (cc s) e data success r /\
    outgoingEventQueueUp_ (cc s) = q1 ++ q2 /\
    r_event m = fresh_ (cc s) /\ r_deliveryTime m = t /\
    quiet (replaced_ctrl p r (q1 ++ m :: q2) (cc s)) (cc s');
  sv_array : exists m, rp_update (Z.of_nat i) (replacementMgr_ (cacheArray_ s)) = Ok (tt, m) /\
    cacheArray_ s' = with_line ((cacheArray_ s) <| replacementMgr_ := m |>) i l';
  sv_config : snoopL1Invs_ s' = snoopL1Invs_ s /\ protocolState_ s' = protocolState_ s /\
    llscBlockCycles_ s' = llscBlockCycles_ s
}.

(** Sending the answer, updating the line's timestamp and cleaning up end every
    request that hits. *)
Lemma runs_finish_hit (s : St) p e data success time i l sn ps ll c m (a : arrT) rc :
  s = mkL1 (cc s) sn ps ll (cacheArray_ s) ->
  hits s p e i l -> ready s -> CommandResponse (cmd_ e) = Ok rc -> quiet (cc s) c ->
  rp_update (Z.of_nat i) (replacementMgr_ (cacheArray_ s)) = Ok (tt, m) -> forall l1, a = with_line ((cacheArray_ s) <| replacementMgr_ := m |>) i l1 ->
  runs (sendTime ← coh (sendResponseUp linkUp linkDown p data false time success);
        line_setTimestamp (Some i) (u64 (sendTime - 1)) ;;
        coh (cleanUpAfterRequest p false)) (mkL1 c sn ps ll a)
    (fun _ s' => let t := answer_time data false time (cc s) in
      served s p e data success t i (L1CacheLine.setTimestamp (u64 (t - 1)) l1) s').
Proof.
  intros Hs [He _ _ Hl Hx Hr] [Hlive _ _] Hc Hq Hm l1 ->.
  pose proof (quiet_heap Hq) as Hheap. pose proof (quiet_fresh Hq) as Hfr.
  pose proof (quiet_up Hq) as Hup.
  pose proof (quiet_live _ _ Hq Hlive) as Hlive'.
  assert (exists r, makeResponse e = Ok r /\ dst_ r = src_ e) as (r & Hmk & Hdst).
  { rewrite makeResponse_eq, Hc. eauto. }
  destruct (runs_sendResponseUp linkUp linkDown p e r data false time success c)
    as (q1 & q2 & Eq & Hrun); [by rewrite Hheap|done|by rewrite Hdst|done|].
  eapply runs_coh_step; [exact Hrun|]. intros t c2 [-> Hc2].
  assert (answer_time data false time c = answer_time data false time (cc s)) as Et.
  { unfold answer_time. by rewrite (quiet_accessLatency Hq), (quiet_tagLatency Hq), (quiet_timestamp Hq). }
  rewrite Et in Hc2 |- *. set (t := answer_time data false time (cc s)) in *.
  apply runs_bind. eapply runs_line_set; [by eapply with_line_lookup|].
  rewrite with_line_twice.
  assert (p <> fresh_ c) as Hp.
  { intros ->. rewrite Hfr, (live_fresh _ Hlive) in He. done. }
  eapply runs_cleanUp_hit.
  - rewrite (quiet_heap Hc2). cbn. rewrite lookup_insert_ne by done. by rewrite Hheap.
  - rewrite (quiet_mshr Hc2). cbn. by rewrite (quiet_mshr Hq).
  - cbv zeta. split; [|by exists m|by rewrite Hs].
    eexists _, _, q1, q2. split; [apply (answers_intro _ _ _ data success Hmk)|].
    split; [by rewrite <- Hup|]. split; [|split]; cycle 2.
    + cbn. etrans; [|apply (quiet_update (fun c => c <| heap_ ::= delete p |>)); [done|exact Hc2]].
      rewrite (quiet_name Hq), Hfr.
      set (q' := q1 ++ _ :: q2). set (r' := _ <| src_ := _ |>).
      transitivity (replaced_ctrl p r' q' c);
        [|unfold q'; try rewrite <- Hfr; reflexivity].
      unfold replaced_ctrl. rewrite Hfr, Hheap.
      by apply (quiet_update (fun c0 => c0 <| heap_ := delete p (<[fresh_ (cc s) := r']> (heap_ (cc s))) |>
        <| fresh_ := N.succ (fresh_ (cc s)) |> <| outgoingEventQueueUp_ := q' |>)).
    + exact Hfr.
    + done.
Qed.

(** A load-link leaves a reservation for [llscBlockCycles_] cycles. *)
Definition loaded_line (s : St) (e : MemEvent) (l : L1CacheLine.t) : L1CacheLine.t :=
  let l := L1CacheLine.setPrefetch false l in
  if isLoadLink e
  then L1CacheLine.atomicStart (u64 (timestamp_ (cc s) + llscBlockCycles_ s)) l else l.

Lemma runs_load_tail s p e i l bytes c0 sn ps ll m :
  s = mkL1 c0 sn ps ll (cacheArray_ s) -> hits s p e i l -> ready s -> cmd_ e = Command.GetS ->
  rp_update (Z.of_nat i) (replacementMgr_ (cacheArray_ s)) = Ok (tt, m) ->
  vec_slice (L1CacheLine.getData l) (u64 (addr_ e - baseAddr_ e)) (MemEvent.size_ e) = Ok bytes ->
  forall c a, quiet (cc s) c ->
  a = with_line ((cacheArray_ s) <| replacementMgr_ := m |>) i (loaded_line s e l) ->
  runs (data ← line_bytes (Some i) (u64 (addr_ e - baseAddr_ e)) (MemEvent.size_ e);
        ts ← line_get (Some i) L1CacheLine.getTimestamp;
        sendTime ← coh (sendResponseUp linkUp linkDown p (Some data) false ts true);
        line_setTimestamp (Some i) (u64 (sendTime - 1)) ;;
        coh (cleanUpAfterRequest p false)) (st c sn ps ll a)
    (fun _ s' => let t := answer_time (Some bytes) false (L1CacheLine.getTimestamp l) (cc s) in
      served s p e (Some bytes) true t i
        (L1CacheLine.setTimestamp (u64 (t - 1)) (loaded_line s e l)) s').
Proof.
  intros Hs Hh Hready Hcmd Hm Hbytes c a Hq ->. pose proof (hit_line _ _ _ _ _ Hh) as Hl.
  assert (L1CacheLine.getData (loaded_line s e l) = L1CacheLine.getData l /\
    L1CacheLine.getTimestamp (loaded_line s e l) = L1CacheLine.getTimestamp l) as [Hd Ht]
    by (unfold loaded_line; by destruct (isLoadLink e)).
  apply runs_bind. unfold line_bytes. eapply runs_line_get; [by eapply with_line_lookup|].
  rewrite Hd. eapply runs_getsR; [exact Hbytes|].
  eapply runs_line_get; [by eapply with_line_lookup|]. rewrite Ht.
  eapply (runs_finish_hit s); [by rewrite Hs|done|done|by rewrite Hcmd|done..].
Qed.

Lemma load_served s p e i l bytes :
  hits s p e i l -> ready s -> cmd_ e = Command.GetS ->
  (L1CacheLine.getState l = State.S \/ L1CacheLine.getState l = State.E \/
   L1CacheLine.getState l = State.M) ->
  (prefetch_ e = true -> rqstr_ e <> cachename_ (cc s)) ->
  vec_slice (L1CacheLine.getData l) (u64 (addr_ e - baseAddr_ e)) (MemEvent.size_ e) = Ok bytes ->
  let t := answer_time (Some bytes) false (L1CacheLine.getTimestamp l) (cc s) in
  exists s', handleGetS linkUp linkDown p false s = Ok (true, s') /\
    served s p e (Some bytes) true t i
      (L1CacheLine.setTimestamp (u64 (t - 1)) (loaded_line s e l)) s'.
Proof.
  intros Hh Hready Hcmd Hst Hpf Hbytes t.
  destruct (hit_update _ _ _ _ _ Hh Hready) as (m & Hm & _).
  pose proof Hh as [He _ Hlk Hl _ _].
  enough (runs (handleGetS linkUp linkDown p false) s (fun r s' => r = true /\
    served s p e (Some bytes) true t i (L1CacheLine.setTimestamp (u64 (t - 1)) (loaded_line s e l)) s'))
    as (r & s' & Hrun & -> & Hs) by eauto.
  destruct s as [c sn ps ll a] eqn:Es. cbn [cc cacheArray_] in *.
  unfold handleGetS. eapply runs_ev; [done|]. eapply runs_lookup; [done..|].
  set (a1 := a <| replacementMgr_ := m |>). assert (lines_ a1 !! i = Some l) as Hl1 by done.
  apply runs_ctrl. eapply runs_line_state; [done|]. apply runs_bind, runs_skip.
  assert (prefetch_ e && bool_decide (rqstr_ e = cachename_ c) = false) as ->.
  { destruct (prefetch_ e); [|done]. apply bool_decide_false. auto. }
  pose proof (runs_load_tail (st c sn ps ll a) p e i l bytes c sn ps ll m eq_refl Hh Hready Hcmd Hm Hbytes)
    as Htail.
  apply runs_bind. destruct Hst as [E|[E|E]]; rewrite E;
    (apply runs_bind, runs_ret; eapply runs_quietly with (p := p); [eauto 10 with quiet|done|];
     intros _ c1 H1; apply runs_ok_bind, runs_bind;
     eapply runs_recordPrefetchResult; [done|]; intros c2 H2;
     assert (quiet c c2) as H12 by (by transitivity c1);
     apply runs_bind, runs_gets, runs_bind, runs_when; intros Hll;
     [eapply runs_line_set; [by eapply with_line_lookup|]; rewrite with_line_twice|];
     (eapply runs_mono; [apply Htail; [done|unfold loaded_line; by rewrite Hll]|]);
     intros [] s' Hs'; by apply runs_ret).
Qed.

(** ** Stores *)

(** A store-conditional writes only if the line is still reserved. *)
Definition store_ok (e : MemEvent) (l : L1CacheLine.t) : bool :=
  negb (isStoreConditional e) || L1CacheLine.isAtomic l.
Definition splice (o : nat) (bytes data : list Z) : list Z :=
  take o data ++ bytes ++ drop (o + length bytes) data.

(** The line after a store of [bytes] at offset [o]. *)
Definition written_line (bytes : list Z) (o : nat) (l : L1CacheLine.t) : L1CacheLine.t :=
  L1CacheLine.atomicEnd
    (l <| L1CacheLine.base ::= fun b => b <| CacheLine.data_ := splice o bytes (CacheLine.data_ b) |> |>).
Definition owned_line (l : L1CacheLine.t) : L1CacheLine.t :=
  L1CacheLine.setPrefetch false
    (if decide (L1CacheLine.getState l = State.E) then L1CacheLine.setState State.M l else l).
Definition stored_line (e : MemEvent) (o : nat) (l : L1CacheLine.t) : L1CacheLine.t :=
  let l' := if store_ok e l then written_line (payload_ e) o (owned_line l) else owned_line l in
  if queryFlag F_LOCKED e then L1CacheLine.decLock l' else l'.

(** What ownership does not change. *)
Lemma owned_line_eq l :
  L1CacheLine.getAddr (owned_line l) = L1CacheLine.getAddr l /\
  L1CacheLine.getData (owned_line l) = L1CacheLine.getData l /\
  L1CacheLine.isAtomic (owned_line l) = L1CacheLine.isAtomic l /\
  L1CacheLine.getTimestamp (owned_line l) = L1CacheLine.getTimestamp l.
Proof. unfold owned_line. by destruct (decide _). Qed.

Lemma setData_written l d o :
  0 <= o < 2 ^ 32 -> (Z.to_nat o + length d <= length (L1CacheLine.getData l))%nat ->
  L1CacheLine.setData d o l
    = Ok (l <| L1CacheLine.base ::= fun b => b <| CacheLine.data_ := splice (Z.to_nat o) d (CacheLine.data_ b) |> |>).
Proof.
  intros Ho Hlen. unfold L1CacheLine.setData, CacheLine.setData, vec_copy, L1CacheLine.getData in *.
  rewrite u32_small by done. by destruct (Nat.leb_spec (Z.to_nat o + length d) (length (CacheLine.data_ (L1CacheLine.base l)))); [|lia].
Qed.

Lemma runs_write_line p e i l o c sn ps ll (a : arrT) Q :
  heap_ c !! p = Some e -> MemEvent.size_ e <= Z.of_nat (length (payload_ e)) ->
  lines_ a !! i = Some l ->
  0 <= o < 2 ^ 32 -> (Z.to_nat o + length (payload_ e) <= length (L1CacheLine.getData l))%nat ->
  (let l' := if store_ok e l then written_line (payload_ e) (Z.to_nat o) l else l in
   Q (store_ok e l) (st c sn ps ll
     (with_line a i (if queryFlag F_LOCKED e then L1CacheLine.decLock l' else l')))) ->
  runs (write_line p (Some i) o) (st c sn ps ll a) Q.
Proof.
  intros He Hsz Hl Ho Hlen HQ. unfold write_line. eapply runs_ev; [done|].
  eapply runs_line_get; [done|]. fold (store_ok e l).
  set (l' := if store_ok e l then _ else _) in HQ. cbv zeta in HQ.
  eapply (runs_step _ _ _ (fun b s => b = store_ok e l /\ s = st c sn ps ll (with_line a i l'))).
  - unfold l'. destruct (store_ok e l).
    + apply runs_bind, runs_bind. eapply runs_coh, runs_deref; [done|].
      unfold getPayload. destruct (Z.ltb_spec (Z.of_nat (length (payload_ e))) (MemEvent.size_ e)); [lia|].
      apply runs_bind, runs_coh, runs_modify, runs_ret.
      replace (e <| payload_ := payload_ e |>) with e by (by destruct e).
      assert (c <| heap_ ::= <[p := e]> |> = c) as ->.
      { destruct c. unfold update. cbn in *. f_equal. by apply insert_id. }
      apply runs_bind. eapply runs_line_setData; [done|by apply setData_written|].
      apply runs_bind. eapply runs_line_set; [by eapply with_line_lookup|].
      rewrite with_line_twice. by apply runs_ret.
    + apply runs_ret. by rewrite with_line_same.
  - intros b s [-> ->]. apply runs_bind, runs_when; intros Hf; rewrite Hf in HQ.
    + eapply runs_line_set; [by eapply with_line_lookup|]. rewrite with_line_twice. by apply runs_ret.
    + by apply runs_ret.
Qed.

Lemma stored_line_eq e o l :
  L1CacheLine.getState l = State.E \/ L1CacheLine.getState l = State.M ->
  L1CacheLine.getState (stored_line e o l) = State.M /\
  L1CacheLine.getAddr (stored_line e o l) = L1CacheLine.getAddr l /\
  L1CacheLine.getData (stored_line e o l) = (if store_ok e l
    then splice o (payload_ e) (L1CacheLine.getData l) else L1CacheLine.getData l) /\
  (store_ok e l = true -> L1CacheLine.isAtomic (stored_line e o l) = false) /\
  L1CacheLine.getTimestamp (stored_line e o l) = L1CacheLine.getTimestamp l.
Proof.
  intros Hst. destruct (owned_line_eq l) as (Ea & Ed & Eat & Ets).
  assert (L1CacheLine.getState (owned_line l) = State.M) as Es.
  { unfold owned_line. destruct (decide _); [done|]. by destruct Hst. }
  unfold stored_line. rewrite <- Ed, <- Ea, <- Ets, <- Es.
  by destruct (store_ok e l), (queryFlag F_LOCKED e).
Qed.

Lemma runs_store_tail s p e i l c0 sn ps ll m o :
  s = mkL1 c0 sn ps ll (cacheArray_ s) -> hits s p e i l -> ready s ->
  (exists rc, CommandResponse (cmd_ e) = Ok rc) ->
  rp_update (Z.of_nat i) (replacementMgr_ (cacheArray_ s)) = Ok (tt, m) ->
  L1CacheLine.getState l = State.E \/ L1CacheLine.getState l = State.M ->
  MemEvent.size_ e <= Z.of_nat (length (payload_ e)) ->
  0 <= o < 2 ^ 32 -> (Z.to_nat o + length (payload_ e) <= length (L1CacheLine.getData l))%nat ->
  forall c a, quiet (cc s) c ->
  a = with_line ((cacheArray_ s) <| replacementMgr_ := m |>) i (owned_line l) ->
  runs (success ← write_line p (Some i) o;
        ts ← line_get (Some i) L1CacheLine.getTimestamp;
        sendTime ← coh (sendResponseUp linkUp linkDown p None false ts success);
        line_setTimestamp (Some i) (u64 (sendTime - 1)) ;;
        coh (cleanUpAfterRequest p false) ;; mret MemEventStatus.OK) (st c sn ps ll a)
    (fun r s' => r = MemEventStatus.OK /\ let t := answer_time None false (L1CacheLine.getTimestamp l) (cc s) in
      served s p e None (store_ok e l) t i
        (L1CacheLine.setTimestamp (u64 (t - 1)) (stored_line e (Z.to_nat o) l)) s').
Proof.
  intros Hs Hh Hready [rc Hrc] Hm Hst Hsz Ho Hlen c a Hq ->.
  pose proof (hit_line _ _ _ _ _ Hh) as Hl. pose proof (hit_event _ _ _ _ _ Hh) as He.
  destruct (owned_line_eq l) as (_ & Ed & Eat & _).
  assert (store_ok e (owned_line l) = store_ok e l) as Eok by (unfold store_ok; by rewrite Eat).
  destruct (stored_line_eq e (Z.to_nat o) l Hst) as (_ & _ & _ & _ & Ets).
  apply runs_bind. eapply runs_write_line; [by rewrite (quiet_heap Hq)|done|by eapply with_line_lookup|done|by rewrite Ed|].
  cbv zeta. rewrite Eok, with_line_twice. fold (stored_line e (Z.to_nat o) l).
  eapply runs_line_get; [by eapply with_line_lookup|]. rewrite Ets. apply runs_ok_bind3.
  eapply runs_mono; [eapply (runs_finish_hit s); [by rewrite Hs|done..]|done].
Qed.

Lemma runs_store_rest s p e i l c0 sn ps ll m o :
  s = mkL1 c0 sn ps ll (cacheArray_ s) -> hits s p e i l -> ready s ->
  (exists rc, CommandResponse (cmd_ e) = Ok rc) ->
  rp_update (Z.of_nat i) (replacementMgr_ (cacheArray_ s)) = Ok (tt, m) ->
  L1CacheLine.getState l = State.E \/ L1CacheLine.getState l = State.M ->
  MemEvent.size_ e <= Z.of_nat (length (payload_ e)) ->
  0 <= o < 2 ^ 32 -> (Z.to_nat o + length (payload_ e) <= length (L1CacheLine.getData l))%nat ->
  forall c l1 sx, quiet (cc s) c -> L1CacheLine.setPrefetch false l1 = owned_line l ->
  runs (recordPrefetchResult (Some i) Stat.PrefetchHit ;;
        profile_hit p false Command.GetX 1 sx NotifyAccessType.WRITE ;;
        success ← write_line p (Some i) o;
        ts ← line_get (Some i) L1CacheLine.getTimestamp;
        sendTime ← coh (sendResponseUp linkUp linkDown p None false ts success);
        line_setTimestamp (Some i) (u64 (sendTime - 1)) ;;
        coh (cleanUpAfterRequest p false) ;; mret MemEventStatus.OK)
    (st c sn ps ll (with_line ((cacheArray_ s) <| replacementMgr_ := m |>) i l1))
    (fun r s' => runs (mret (accepted r)) s' (fun r s' => r = true /\
      let t := answer_time None false (L1CacheLine.getTimestamp l) (cc s) in
      served s p e None (store_ok e l) t i
        (L1CacheLine.setTimestamp (u64 (t - 1)) (stored_line e (Z.to_nat o) l)) s')).
Proof.
  intros Hs Hh Hready Hrc Hm Hst Hsz Ho Hlen c l1 sx H1 El.
  pose proof (hit_line _ _ _ _ _ Hh) as Hl. pose proof (hit_event _ _ _ _ _ Hh) as He.
  apply runs_bind. eapply runs_recordPrefetchResult; [by eapply with_line_lookup|].
  intros c2 H2. rewrite with_line_twice, El.
  assert (quiet (cc s) c2) as H12 by (by transitivity c).
  eapply runs_quietly with (p := p); [apply quietly_profile_hit|by rewrite (quiet_heap H12)|].
  intros _ c3 H3.
  eapply runs_mono; [eapply (runs_store_tail s); [done..|by transitivity c2|done]|].
  intros r s' [-> Hs']. by apply runs_ret.
Qed.

Lemma store_served s p e i l :
  hits s p e i l -> ready s -> cmd_ e = Command.GetX \/ cmd_ e = Command.Write ->
  L1CacheLine.getState l = State.E \/ L1CacheLine.getState l = State.M ->
  MemEvent.size_ e <= Z.of_nat (length (payload_ e)) ->
  let o := u64 (addr_ e - baseAddr_ e) in
  o + Z.of_nat (length (payload_ e)) <= Z.of_nat (length (L1CacheLine.getData l)) < 2 ^ 32 ->
  let t := answer_time None false (L1CacheLine.getTimestamp l) (cc s) in
  let l' := stored_line e (Z.to_nat o) l in
  (exists s', handle linkUp linkDown (cmd_ e) p false s = Ok (true, s') /\
    served s p e None (store_ok e l) t i (L1CacheLine.setTimestamp (u64 (t - 1)) l') s') /\
  L1CacheLine.getState l' = State.M /\ L1CacheLine.getAddr l' = L1CacheLine.getAddr l /\
  L1CacheLine.getData l' = (if store_ok e l
    then splice (Z.to_nat o) (payload_ e) (L1CacheLine.getData l) else L1CacheLine.getData l) /\
  (store_ok e l = true -> L1CacheLine.isAtomic l' = false).
Proof.
  intros Hh Hready Hcmd Hst Hsz o Ho t l'.
  pose proof (u64_range (addr_ e - baseAddr_ e)) as Hou. fold o in Hou.
  destruct (stored_line_eq e (Z.to_nat o) l Hst) as (E1 & E2 & E3 & E4 & _).
  split_and!; [|done..].
  destruct (hit_update _ _ _ _ _ Hh Hready) as (m & Hm & _).
  pose proof Hh as [He _ Hlk Hl _ _].
  enough (runs (handleGetX linkUp linkDown p false) s (fun r s' => r = true /\
    served s p e None (store_ok e l) t i (L1CacheLine.setTimestamp (u64 (t - 1)) l') s'))
    as (r & s' & Hrun & -> & Hs) by (exists s'; by destruct Hcmd as [-> | ->]).
  destruct s as [c sn ps ll a] eqn:Es. cbn [cc cacheArray_] in *.
  unfold handleGetX. eapply runs_ev; [done|]. eapply runs_lookup; [done..|].
  eapply runs_line_state; [done|]. apply runs_bind, runs_skip, runs_bind, runs_ctrl.
  assert (bool_decide (L1CacheLine.getState l = State.S) = false) as ->
    by (by destruct Hst as [-> | ->]).
  apply runs_ret, runs_bind.
  pose proof (runs_store_rest (st c sn ps ll a) p e i l c sn ps ll m o eq_refl Hh Hready
    ltac:(destruct Hcmd as [-> | ->]; eauto) Hm Hst Hsz ltac:(lia) ltac:(lia)) as Hrest.
  fold o. set (a1 := a <| replacementMgr_ := m |>) in *.
  destruct Hst as [E|E]; rewrite E; apply runs_bind.
  - eapply runs_line_set; [done|]. apply Hrest; [done|]. unfold owned_line. by rewrite decide_True.
  - apply runs_skip. rewrite <- (with_line_same a1 i l) by done.
    apply Hrest; [done|]. unfold owned_line. by rewrite decide_False by congruence.
Qed.

(** ** Serving one request after another *)

Lemma find_way_ext (ls ls' : list L1CacheLine.t) addr j n :
  L1CacheLine.getAddr <$> ls' = L1CacheLine.getAddr <$> ls ->
  find_way ls' addr j n = find_way ls addr j n.
Proof.
  intros E. revert j. induction n as [|n IH]; intros j; [done|]. cbn [find_way].
  assert (L1CacheLine.getAddr <$> at_index ls' j = L1CacheLine.getAddr <$> at_index ls j) as Ej.
  { unfold at_index. destruct (j <? 0); [done|].
    pose proof (f_equal (fun k => k !! Z.to_nat j) E) as Ek. cbn in Ek. rewrite !list_lookup_fmap in Ek.
    destruct (ls' !! _), (ls !! _); cbn in *; congruence. }
  destruct (at_index ls' j), (at_index ls j); cbn in Ej |- *; try congruence.
  injection Ej as Ej. cbn [line_getAddr]. change (line_getAddr ?x) with (L1CacheLine.getAddr x).
  unfold line_getAddr. cbn. rewrite Ej, IH. done.
Qed.

(** Rewriting a line to one of the same address keeps every lookup. *)
Lemma lookup_with_line (a : arrT) m i l l' addr :
  lines_ a !! i = Some l -> L1CacheLine.getAddr l' = L1CacheLine.getAddr l ->
  lookup_index (with_line (a <| replacementMgr_ := m |>) i l') addr = lookup_index a addr.
Proof.
  intros Hl Ha. unfold lookup_index. change (set_of (with_line _ _ _) addr) with (set_of a addr).
  destruct (set_of a addr) as [k|]; [|done]. cbn [mbind res_bind].
  apply find_way_ext. cbn. rewrite list_fmap_insert, Ha.
  apply list_insert_id. by rewrite list_lookup_fmap, Hl.
Qed.

Lemma served_ready s p e data ok t i l l' s' :
  served s p e data ok t i l' s' -> hits s p e i l -> ready s -> ready s'.
Proof.
  intros [(r & m & q1 & q2 & _ & Eq & Em & _ & Hq) (mg & Hmg & Ea) _] Hh [Hlive Hp Hn].
  pose proof (lookup_lt_Some _ _ _ (hit_line _ _ _ _ _ Hh)) as Hlt.
  pose proof Hlive as [Hup Hdown Hfr]. pose proof (live_fresh _ Hlive) as Hnew.
  assert (p <> fresh_ (cc s)) as Hpf.
  { intros ->. pose proof (hit_event _ _ _ _ _ Hh). congruence. }
  assert (forall x, x ∈ outgoingEventQueueUp_ (cc s) ++ outgoingEventQueueDown_ (cc s) ->
    is_Some (delete p (<[fresh_ (cc s) := r]> (heap_ (cc s))) !! r_event x)) as Hall.
  { intros x Hx. rewrite lookup_delete_ne by (intros E; by eapply hit_owned; [..|symmetry]).
    assert (is_Some (heap_ (cc s) !! r_event x)) as [ex Hex].
    { apply elem_of_app in Hx as [?|?]; auto. }
    rewrite lookup_insert_ne by congruence. eauto. }
  split; [|by rewrite Ea; cbn; eapply rp_inv_update|by rewrite Ea; cbn; rewrite length_insert].
  apply (quiet_live _ _ Hq). split; cbn.
  - intros x Hx. assert (x = m \/ x ∈ q1 ++ q2) as [->|Hx'].
    { apply elem_of_app in Hx as [?|[->|?]%elem_of_cons]; rewrite elem_of_app; auto. }
    + rewrite Em, lookup_delete_ne by done. rewrite lookup_insert_eq. eauto.
    + apply Hall. apply elem_of_app. left. by rewrite Eq.
  - intros x Hx. apply Hall. apply elem_of_app. by right.
  - intros x [ex Hx]. apply lookup_delete_Some in Hx as [_ Hx].
    apply lookup_insert_Some in Hx as [[<- _]|[_ Hx]]; [lia|]. specialize (Hfr x). rewrite Hx in Hfr.
    specialize (Hfr ltac:(eauto)). lia.
Qed.

Lemma served_hits s p e data ok t i l l' s' p2 e2 :
  served s p e data ok t i l' s' -> hits s p e i l -> hits s p2 e2 i l -> ready s ->
  p2 <> p -> L1CacheLine.getAddr l' = L1CacheLine.getAddr l -> hits s' p2 e2 i l'.
Proof.
  intros [(r & m & q1 & q2 & _ & Eq & Em & _ & Hq) (mg & Hmg & Ea) _] Hh Hh2 [Hlive _ _] Hne Haddr.
  pose proof (live_fresh _ Hlive) as Hnew. pose proof (hit_event _ _ _ _ _ Hh2) as He2.
  assert (p2 <> fresh_ (cc s)) as Hpf by congruence.
  split.
  - rewrite (quiet_heap Hq). cbn. rewrite lookup_delete_ne by done. by rewrite lookup_insert_ne.
  - intros x Hx. rewrite (quiet_up Hq), (quiet_down Hq) in Hx. cbn in Hx.
    assert (x = m \/ x ∈ outgoingEventQueueUp_ (cc s) ++ outgoingEventQueueDown_ (cc s)) as [->|Hx'].
    { rewrite Eq. apply elem_of_app in Hx as [[?|[->|?]%elem_of_cons]%elem_of_app|?];
        rewrite !elem_of_app; auto. }
    + by rewrite Em.
    + by eapply hit_owned.
  - rewrite Ea, (lookup_with_line _ _ _ l) by (done || by eapply hit_line). by eapply hit_lookup.
  - rewrite Ea. eapply with_line_lookup. exact (hit_line _ _ _ _ _ Hh).
  - rewrite (quiet_mshr Hq). by eapply hit_free.
  - by eapply hit_reach.
Qed.

Lemma vec_slice_within data o n :
  0 <= o -> 0 <= n -> o + n <= Z.of_nat (length data) -> vec_slice data o n = Ok (take (Z.to_nat n) (drop (Z.to_nat o) data)).
Proof.
  intros Ho Hn Hlen. unfold vec_slice. destruct (Z.ltb_spec o 0); [lia|]. cbn [orb].
  by destruct (Z.ltb_spec (Z.of_nat (length data)) (o + n)); [lia|].
Qed.
Lemma length_splice o d data : (o + length d <= length data)%nat -> length (splice o d data) = length data.
Proof. intros Hfit. unfold splice. rewrite !length_app, length_take, length_drop. lia. Qed.

(** A load that hits, in any readable state: the handler returns, the
    answer carries exactly the requested bytes of the line, and it is ready when
    the line is free and the access latency has passed; the line keeps its
    address, state, data and locks (a load-link reserves it). *)
Theorem load_hit s p e i l bytes :
  hits s p e i l -> ready s -> cmd_ e = Command.GetS ->
  (L1CacheLine.getState l = State.S \/ L1CacheLine.getState l = State.E \/
   L1CacheLine.getState l = State.M) ->
  (prefetch_ e = true -> rqstr_ e <> cachename_ (cc s)) ->
  vec_slice (L1CacheLine.getData l) (u64 (addr_ e - baseAddr_ e)) (MemEvent.size_ e) = Ok bytes ->
  let t := answer_time (Some bytes) false (L1CacheLine.getTimestamp l) (cc s) in
  exists s', handleGetS linkUp linkDown p false s = Ok (true, s') /\
    served s p e (Some bytes) true t i
      (L1CacheLine.setTimestamp (u64 (t - 1)) (loaded_line s e l)) s'.
Proof. intros. by apply load_served. Qed.

(** A store that hits a line held exclusively: the handler returns, and
    the answer says whether the store was done. It always is, except for a
    store-conditional on a line that is not reserved; then the line's bytes are
    exactly the old ones with the payload in place, and the reservation ends. The
    line is modified afterwards, at the same address; a store that unlocks
    releases one lock. *)
Theorem store_hit s p e i l :
  hits s p e i l -> ready s -> cmd_ e = Command.GetX \/ cmd_ e = Command.Write ->
  L1CacheLine.getState l = State.E \/ L1CacheLine.getState l = State.M ->
  MemEvent.size_ e <= Z.of_nat (length (payload_ e)) ->
  let o := u64 (addr_ e - baseAddr_ e) in
  o + Z.of_nat (length (payload_ e)) <= Z.of_nat (length (L1CacheLine.getData l)) < 2 ^ 32 ->
  let t := answer_time None false (L1CacheLine.getTimestamp l) (cc s) in
  let l' := stored_line e (Z.to_nat o) l in
  (exists s', handle linkUp linkDown (cmd_ e) p false s = Ok (true, s') /\
    served s p e None (store_ok e l) t i (L1CacheLine.setTimestamp (u64 (t - 1)) l') s') /\
  L1CacheLine.getState l' = State.M /\ L1CacheLine.getAddr l' = L1CacheLine.getAddr l /\
  L1CacheLine.getData l' = (if store_ok e l
    then splice (Z.to_nat o) (payload_ e) (L1CacheLine.getData l) else L1CacheLine.getData l) /\
  (store_ok e l = true -> L1CacheLine.isAtomic l' = false).
Proof. intros. by apply store_served. Qed.

(** C26. The cache is a memory: a store to a line held exclusively puts its bytes at their
    place in the line and changes no other byte of it and no other line, and a load of
    any bytes of the line that follows is answered with what is then there. *)
Theorem store_then_load s p e p2 e2 i l :
  hits s p e i l -> hits s p2 e2 i l -> ready s -> p2 <> p ->
  cmd_ e = Command.GetX \/ cmd_ e = Command.Write -> store_ok e l = true ->
  L1CacheLine.getState l = State.E \/ L1CacheLine.getState l = State.M ->
  MemEvent.size_ e <= Z.of_nat (length (payload_ e)) ->
  let o := u64 (addr_ e - baseAddr_ e) in
  o + Z.of_nat (length (payload_ e)) <= Z.of_nat (length (L1CacheLine.getData l)) < 2 ^ 32 ->
  cmd_ e2 = Command.GetS -> prefetch_ e2 = false ->
  let o2 := u64 (addr_ e2 - baseAddr_ e2) in
  0 <= MemEvent.size_ e2 -> o2 + MemEvent.size_ e2 <= Z.of_nat (length (L1CacheLine.getData l)) ->
  let bytes := splice (Z.to_nat o) (payload_ e) (L1CacheLine.getData l) in
  exists s1 l1 s2 q r, handle linkUp linkDown (cmd_ e) p false s = Ok (true, s1) /\
    lines_ (cacheArray_ s1) = <[i := l1]> (lines_ (cacheArray_ s)) /\ L1CacheLine.getData l1 = bytes /\
    handle linkUp linkDown Command.GetS p2 false s1 = Ok (true, s2) /\
    heap_ (cc s2) !! q = Some r /\ q ∈ r_event <$> outgoingEventQueueUp_ (cc s2) /\
    responseToID_ r = eventID_ e2 /\ dst_ r = src_ e2 /\
    payload_ r = take (Z.to_nat (MemEvent.size_ e2)) (drop (Z.to_nat o2) bytes).
Proof.
  intros Hh Hh2 Hready Hne Hcmd Hok Hst Hsz o Ho Hc2 Hp2 o2 Hs0 Ho2 bytes.
  pose proof (u64_range (addr_ e - baseAddr_ e)) as Hr. pose proof (u64_range (addr_ e2 - baseAddr_ e2)) as Hr2. fold o in Hr. fold o2 in Hr2.
  destruct (store_served s p e i l) as ((s1 & H1 & Hs1) & E1 & E2 & E3 & _); [done..|].
  rewrite Hok in E3. fold o in Hs1, E1, E2, E3. set (l' := stored_line e (Z.to_nat o) l) in *. fold bytes in E3.
  set (l1 := L1CacheLine.setTimestamp _ l') in Hs1.
  assert (hits s1 p2 e2 i l1) as Hh1 by (by eapply served_hits).
  assert (ready s1) as Hr1 by (by eapply served_ready).
  assert (Hlen : length bytes = length (L1CacheLine.getData l)) by (apply length_splice; lia).
  assert (Hd : L1CacheLine.getData l1 = bytes) by exact E3.
  destruct (load_served s1 p2 e2 i l1 (take (Z.to_nat (MemEvent.size_ e2)) (drop (Z.to_nat o2) bytes))) as (s2 & H2 & Hs2);
    [done|done|done|by right; right|by rewrite Hp2|rewrite Hd; apply vec_slice_within; fold o2; lia|].
  destruct Hs2 as [(r & m & q1 & q2 & Hans & Eq & Em & _ & Hq) _ _].
  exists s1, l1, s2, (fresh_ (cc s1)), r. split; [done|]. split; [destruct Hs1 as [_ (mg & _ & ->) _]; done|]. do 2 (split; [done|]).
  assert (p2 <> fresh_ (cc s1)) as Hpf.
  { intros ->. pose proof (hit_event _ _ _ _ _ Hh1). by rewrite (live_fresh _ (ready_live _ Hr1)) in *. }
  rewrite (quiet_heap Hq), (quiet_up Hq). cbn. rewrite lookup_delete_ne by done. rewrite lookup_insert_eq.
  split_and!; [done| |by apply Hans..|by eapply an_data].
  rewrite <- Em. apply list_elem_of_fmap_2, elem_of_app. right. by left.
Qed.
End l1_function.

(** ** Examples *)

Definition two_laws : ReplacementLaws LRU.t 2 1 := LRU_laws 2 1 ltac:(lia) ltac:(lia).
Definition two_total : TotalPolicy LRU.t (RL := two_laws) := LRU_total 2 1 ltac:(lia) ltac:(lia).

Definition demo_bytes : list Z := [1; 2; 3; 4; 5; 6; 7; 8].
Definition demo_line : L1CacheLine.t := held_line 0 0 State.M demo_bytes.
Definition demo_store : MemEvent := (cpu_request 1 2 2 Command.GetX) <| payload_ := [70; 71] |>.
Definition demo_load : MemEvent := cpu_request 2 2 2 Command.GetS.
(** The store at pointer 0, the load at pointer 1, both for line 0. *)
Definition demo_hit : L1 LRU.t := demo_l1 [demo_line; empty_line 1] [demo_store; demo_load].

(** Three bytes, the first of which is stored. *)
Definition demo_load_after : MemEvent := cpu_request 2 3 3 Command.GetS.
Definition demo_overlap : L1 LRU.t := demo_l1 [demo_line; empty_line 1] [demo_store; demo_load_after].

Lemma demo_live ld : ctrl_live (cc (demo_l1 [demo_line; empty_line 1] [demo_store; ld])).
Proof.
  split; [by intros x ?%elem_of_nil|by intros x ?%elem_of_nil|].
  intros p [e He]. change (fresh_ _) with 2%N.
  change (heap_ _) with (<[0%N := demo_store]> (<[1%N := ld]> (∅ : gmap N MemEvent))) in He.
  apply lookup_insert_Some in He as [[<- _]|[_ He]]; [lia|].
  apply lookup_insert_Some in He as [[<- _]|[_ He]]; [lia|]. by rewrite lookup_empty in He.
Qed.
Lemma demo_ready : ready 2 1 (RL := two_laws) demo_hit.
Proof. split; [apply demo_live|by vm_compute|by vm_compute]. Qed.
Lemma demo_overlap_ready : ready 2 1 (RL := two_laws) demo_overlap.
Proof. split; [apply demo_live|by vm_compute|by vm_compute]. Qed.
Lemma demo_hits_store : hits (hash_ := demo_hash) cpu_link demo_hit 0%N demo_store 0 demo_line.
Proof. by split; [..|intros x ?%elem_of_nil|by vm_compute| | |]. Qed.
Lemma demo_hits_load : hits (hash_ := demo_hash) cpu_link demo_hit 1%N demo_load 0 demo_line.
Proof. by split; [..|intros x ?%elem_of_nil|by vm_compute| | |]. Qed.
Lemma demo_overlap_store : hits (hash_ := demo_hash) cpu_link demo_overlap 0%N demo_store 0 demo_line.
Proof. by split; [..|intros x ?%elem_of_nil|by vm_compute| | |]. Qed.
Lemma demo_overlap_load : hits (hash_ := demo_hash) cpu_link demo_overlap 1%N demo_load_after 0 demo_line.
Proof. by split; [..|intros x ?%elem_of_nil|by vm_compute| | |]. Qed.

(** The load alone is answered with bytes 2 and 3. *)
Lemma load_hit_witness :
  exists s', handleGetS (core := demo_sst) cpu_link mem_link 1%N false demo_hit = Ok (true, s') /\
    exists r, heap_ (cc s') !! 2%N = Some r /\ payload_ r = [3; 4].
Proof.
  destruct (load_hit cpu_link mem_link 2 1 (TP := two_total) demo_hit 1%N demo_load 0 demo_line [3; 4]
    demo_hits_load demo_ready) as (s' & H & [(r & m & q1 & q2 & Ha & _ & _ & _ & Hq) _ _]);
    [done|by right; right|done|by vm_compute|].
  exists s'. split; [exact H|]. exists r. split; [|by eapply an_data].
  rewrite (quiet_heap Hq). change (fresh_ (cc demo_hit)) with 2%N. cbn. rewrite lookup_delete_ne by done.
  apply lookup_insert_eq.
Defined.

Lemma store_hit_witness :
  exists s' l', handle (core := demo_sst) cpu_link mem_link Command.GetX 0%N false demo_hit = Ok (true, s') /\
    L1CacheLine.getData (stored_line demo_store 2 demo_line) = l' /\ l' = [1; 2; 70; 71; 5; 6; 7; 8].
Proof.
  destruct (store_hit cpu_link mem_link 2 1 (TP := two_total) demo_hit 0%N demo_store 0 demo_line
    demo_hits_store demo_ready) as ((s' & H & _) & _ & _ & Hd & _);
    [by left|by right|done|vm_compute; split; congruence|].
  exists s', (L1CacheLine.getData (stored_line demo_store 2 demo_line)).
  split; [exact H|]. split; [done|]. exact Hd.
Defined.

Lemma store_then_load_witness :
  exists s1 l1 s2 q r,
    handle (core := demo_sst) cpu_link mem_link Command.GetX 0%N false demo_overlap = Ok (true, s1) /\
    lines_ (cacheArray_ s1) !! 0%nat = Some l1 /\ L1CacheLine.getData l1 = [1; 2; 70; 71; 5; 6; 7; 8] /\
    handle (core := demo_sst) cpu_link mem_link Command.GetS 1%N false s1 = Ok (true, s2) /\
    heap_ (cc s2) !! q = Some r /\ payload_ r = [71; 5; 6].
Proof.
  destruct (store_then_load cpu_link mem_link 2 1 (TP := two_total) demo_overlap 0%N demo_store 1%N
    demo_load_after 0 demo_line demo_overlap_store demo_overlap_load demo_overlap_ready)
    as (s1 & l1 & s2 & q & r & H1 & Hl & Hd & H2 & Hr & _ & _ & _ & Hp);
    [done|by left|done|by right|done|vm_compute; split; congruence|done|done|done|done|].
  exists s1, l1, s2, q, r. split; [exact H1|]. split; [rewrite Hl; reflexivity|]. split; [exact Hd|].
  split; [exact H2|]. split; [exact Hr|exact Hp].
Defined.
