(* ===== verification/L1Below.v ===== *)
(** * L1Below: requests from below, evictions, and requests that cannot be served

    What a fetch-and-invalidate takes from the cache, replayed from the MSHR or
    not; what the eviction of a dirty line sends; and the paths on which the code
    cannot do what it means to: a request for exclusive ownership with a lock
    ([GetSX]), and the answer to a failed flush. *)

From S2P Require Import Prelude MemTypes MemEvent Hash Replacement Lines CacheArray Mshr Coherence MesiL1.
From S2P Require Import CtrlRuns L1Demo L1Function.

Section l1_below.
Context {core : SSTCore} (linkUp linkDown : MemLink).
Context {P : Type} {HP : ReplacementPolicy P} {hash_ : HashFunction}.
Abbreviation St := (L1 P).
Abbreviation arrT := (CacheArray L1CacheLine.t P).

(** ** Answers to memory *)

(** The response to a request from below, with the bytes of line [l]. *)
Definition data_answer (r : MemEvent) (l : L1CacheLine.t) (lineSize : Z) : MemEvent :=
  let r := setPayload (L1CacheLine.getData l) r in
  setSize lineSize (if decide (L1CacheLine.getState l = State.M) then r <| dirty_ := true |> else r).

Definition answered_down (r : MemEvent) (q : list Response) (c : Ctrl) : Ctrl :=
  queued_down (fresh_ c) r q (c <| fresh_ ::= N.succ |>).

Lemma runs_sendResponseDown p e r i l c sn ps ll (a : arrT) :
  heap_ c !! p = Some e -> makeResponse e = Ok r ->
  isReachable linkUp (dst_ r) = false -> isReachable linkDown (dst_ r) = true ->
  ctrl_live c -> lines_ a !! i = Some l ->
  exists q1 q2, outgoingEventQueueDown_ c = q1 ++ q2 /\
    let r' := (data_answer r l (lineSize_ c)) <| src_ := cachename_ c |> in
    let m := message_of (fresh_ c) (u64 (timestamp_ c + accessLatency_ c)) r' c in
    runs (sendResponseDown linkUp linkDown p (Some i) true) (mkL1 c sn ps ll a)
      (fun _ s' => exists c', s' = mkL1 c' sn ps ll a /\
        quiet (answered_down r' (q1 ++ m :: q2) c) c').
Proof.
  intros He Hr Hu Hd Hlive Hl. pose proof (live_fresh _ Hlive) as Hfresh.
  set (r1 := data_answer r l (lineSize_ c)). set (ts := u64 (timestamp_ c + accessLatency_ c)).
  set (c1 := c <| heap_ ::= <[fresh_ c := r1]> |> <| fresh_ ::= N.succ |>).
  assert (dst_ r1 = dst_ r) as Edst by (unfold r1, data_answer; by destruct (decide _)).
  destruct (runs_forwardByDestination_down linkUp linkDown (fresh_ c) r1 ts c1) as (q1 & q2 & Eq & Hrun).
  { unfold c1. cbn. by rewrite lookup_insert_eq. }
  { by rewrite Edst. }
  { by rewrite Edst. }
  { intros x Hx. unfold c1. cbn. destruct (decide (r_event x = fresh_ c)) as [->|].
    - rewrite lookup_insert_eq. eauto.
    - rewrite lookup_insert_ne by done. by apply (cl_down _ Hlive). }
  exists q1, q2. split; [exact Eq|]. cbv zeta. unfold sendResponseDown.
  eapply runs_ev; [done|]. apply runs_bind. eapply runs_getsR; [exact Hr|].
  apply runs_bind. eapply runs_line_get; [done|]. eapply runs_line_get; [done|].
  apply runs_ret, runs_ctrl, runs_bind, runs_coh, runs_new_event. apply runs_coh.
  eapply runs_mono; [exact Hrun|]. intros [] c2 H2. exists c2. split; [done|].
  unfold c1 in H2. rewrite fresh_after_write, queued_down_overwrites in H2. exact H2.
Qed.

(** ** Fetch and invalidate *)

(** The request [e] from below at [p] finds line [i], holding [l]. *)
Record asked (s : St) (p : EventPtr) (e : MemEvent) (i : nat) (l : L1CacheLine.t) : Prop := {
  ask_event : heap_ (cc s) !! p = Some e;
  ask_lookup : lookup_index (cacheArray_ s) (baseAddr_ e) = Ok (Some i);
  ask_line : lines_ (cacheArray_ s) !! i = Some l;
  ask_up : isReachable linkUp (src_ e) = false;
  ask_down : isReachable linkDown (src_ e) = true;
  ask_live : ctrl_live (cc s);
  ask_quiet : snoopL1Invs_ s = false
}.

Lemma runs_removePendingRetry (b : bool) addr c sn ps ll (a : arrT) Q :
  (b = true -> is_Some (Mshr.mshr_ (mshr_ c) !! addr)) ->
  (forall m, (forall x, entries_at m x = entries_at (mshr_ c) x) -> getSize m = getSize (mshr_ c) ->
    Q tt (mkL1 (c <| mshr_ := m |>) sn ps ll a)) ->
  runs (when b (MesiL1.mshr (removePendingRetry addr))) (mkL1 c sn ps ll a) Q.
Proof.
  intros Hb HQ. apply runs_when; intros E.
  - destruct (Hb E) as [r Hr]. apply runs_coh, runs_zoom, runs_bind.
    unfold reg_at. eapply runs_getsR; [by rewrite Hr|]. apply runs_modify. apply HQ; [|done].
    intros x. unfold entries_at. cbn. destruct (decide (x = addr)) as [->|].
    + by rewrite lookup_insert_eq, Hr.
    + by rewrite lookup_insert_ne.
  - assert (c <| mshr_ := mshr_ c |> = c) as Ec by (by destruct c).
    rewrite <- Ec. by apply HQ.
Qed.

Lemma runs_surrender_data p e r i l st c sn ps ll (a : arrT) Q :
  heap_ c !! p = Some e -> makeResponse e = Ok r ->
  isReachable linkUp (dst_ r) = false -> isReachable linkDown (dst_ r) = true ->
  ctrl_live c -> lines_ a !! i = Some l ->
  (forall q1 q2 c', outgoingEventQueueDown_ c = q1 ++ q2 ->
    let r' := (data_answer r l (lineSize_ c)) <| src_ := cachename_ c |> in
    let m := message_of (fresh_ c) (u64 (timestamp_ c + accessLatency_ c)) r' c in
    quiet (answered_down r' (q1 ++ m :: q2) c) c' ->
    Q tt (mkL1 c' sn ps ll (with_line a i (L1CacheLine.setState st (L1CacheLine.atomicEnd l))))) ->
  runs (surrender linkUp linkDown p (Some i) true st) (mkL1 c sn ps ll a) Q.
Proof.
  intros He Hr Hu Hd Hlive Hl HQ. apply runs_bind. eapply runs_line_set; [done|].
  destruct (runs_sendResponseDown p e r i (L1CacheLine.atomicEnd l) c sn ps ll
    (with_line a i (L1CacheLine.atomicEnd l))) as (q1 & q2 & Eq & Hrun); try done.
  { by eapply with_line_lookup. }
  eapply runs_step; [exact Hrun|]. intros [] s' (c' & -> & Hc').
  eapply runs_line_set; [by eapply with_line_lookup|]. rewrite with_line_twice. by eapply HQ.
Qed.

(** [s'] is [s] after the request at [p] took line [i] away. *)
Record taken (s : St) (p : EventPtr) (e : MemEvent) (i : nat) (l : L1CacheLine.t) (s' : St) : Prop := {
  tk_event : heap_ (cc s') !! p = None;
  tk_answer : exists q r, heap_ (cc s') !! q = Some r /\
    q ∈ r_event <$> outgoingEventQueueDown_ (cc s') /\
    CommandResponse (cmd_ e) = Ok (cmd_ r) /\ responseToID_ r = eventID_ e /\ dst_ r = src_ e /\
    payload_ r = L1CacheLine.getData l /\
    (L1CacheLine.getState l = State.M -> dirty_ r = true);
  tk_line : exists l', lines_ (cacheArray_ s') = <[i := l']> (lines_ (cacheArray_ s)) /\
    L1CacheLine.getState l' = State.I /\ L1CacheLine.isAtomic l' = false;
  tk_mshr : forall x, entries_at (mshr_ (cc s')) x = entries_at (mshr_ (cc s)) x
}.

(** The end of every answer to a fetch-and-invalidate. *)
Lemma runs_take s p e i l r sx c a :
  asked s p e i l -> makeResponse e = Ok r -> cacheArray_ s = a ->
  (forall x, entries_at (mshr_ c) x = entries_at (mshr_ (cc s)) x) ->
  c <| mshr_ := mshr_ (cc s) |> = cc s ->
  runs ((surrender linkUp linkDown p (Some i) true State.I ;; mret None) ≫= fun stop : option bool =>
          match stop with
          | Some b => mret b
          | None => profile_inv Command.FetchInv sx (Some i) ;; coh (delete_event p) ;; mret true
          end) (mkL1 c (snoopL1Invs_ s) (protocolState_ s) (llscBlockCycles_ s) a)
    (fun r s' => r = true /\ taken s p e i l s').
Proof.
  intros [He Hlk Hl Hu Hd Hlive _] Hmk <- Hm Hc.
  assert (heap_ c = heap_ (cc s) /\ fresh_ c = fresh_ (cc s)) as [Hheap Hfr] by (by rewrite <- Hc).
  assert (ctrl_live c) as Hlive1.
  { destruct Hlive as [H1 H2 H3]. rewrite <- Hc in H1, H2, H3. by split. }
  assert (dst_ r = src_ e /\ responseToID_ r = eventID_ e /\ CommandResponse (cmd_ e) = Ok (cmd_ r))
    as (Er & Eid & Ec).
  { rewrite makeResponse_eq in Hmk. destruct (CommandResponse (cmd_ e)); [|done]. by injection Hmk as <-. }
  apply runs_bind, runs_bind.
  eapply runs_surrender_data; [by rewrite Hheap|exact Hmk|by rewrite Er|by rewrite Er|done|done|].
  intros q1 q2 c2 _. cbv zeta. set (r' := _ <| src_ := _ |>). set (m := message_of _ _ _ _). intros Hc2.
  apply runs_ret. cbn match. unfold profile_inv.
  apply runs_bind, runs_bind. eapply runs_mono; [apply (quietly_stat p); rewrite (quiet_heap Hc2)|].
  { cbn. destruct (decide (p = fresh_ c)) as [->|Hne]; [rewrite lookup_insert_eq; eauto|].
    rewrite lookup_insert_ne by done. rewrite Hheap, He. eauto. }
  intros [] s3 (c3 & -> & Hc3). rewrite bool_decide_true by eauto. eapply runs_recordPrefetchResult; [by eapply with_line_lookup|].
  intros c4 Hc4. rewrite with_line_twice.
  assert (quiet (answered_down r' (q1 ++ m :: q2) c) c4) as Hq by (transitivity c2; [done|by transitivity c3]).
  assert (p <> fresh_ c) as Hp.
  { intros ->. rewrite Hfr, (live_fresh _ Hlive) in He. done. }
  apply runs_bind, runs_coh. eapply runs_delete_event.
  { rewrite (quiet_heap Hq). cbn. rewrite lookup_insert_ne by done. by rewrite Hheap. }
  apply runs_ret. split; [done|]. split; cbn.
  - apply lookup_delete_eq.
  - exists (fresh_ c), r'. rewrite (quiet_heap Hq), (quiet_down Hq). cbn.
    rewrite lookup_delete_ne by done. rewrite lookup_insert_eq. split; [done|].
    split; [change (fresh_ c) with (r_event m); apply list_elem_of_fmap_2, elem_of_app; right; by left|].
    unfold r', data_answer. destruct (decide (L1CacheLine.getState l = State.M)); by split_and!.
  - by eexists.
  - intros x. by rewrite (quiet_mshr Hq).
Qed.

Lemma fetchInv_taken s p e i l b :
  asked s p e i l -> cmd_ e = Command.FetchInv ->
  (L1CacheLine.getState l = State.S \/ L1CacheLine.getState l = State.E \/
   (L1CacheLine.getState l = State.M /\ L1CacheLine.isLocked (timestamp_ (cc s)) l = false)) ->
  (b = true -> is_Some (Mshr.mshr_ (mshr_ (cc s)) !! baseAddr_ e)) ->
  exists s', handleFetchInv linkUp linkDown p b s = Ok (true, s') /\ taken s p e i l s'.
Proof.
  intros [He Hlk Hl Hu Hd Hlive Hsn] Hcmd Hst Hb.
  enough (runs (handleFetchInv linkUp linkDown p b) s (fun r s' => r = true /\ taken s p e i l s'))
    as (r & s' & Hrun & -> & Hs) by eauto.
  destruct s as [c sn ps ll a]. cbn [cc cacheArray_ snoopL1Invs_] in *. subst sn.
  assert (exists r, makeResponse e = Ok r /\ dst_ r = src_ e /\ responseToID_ r = eventID_ e /\
    CommandResponse (cmd_ e) = Ok (cmd_ r)) as (r & Hmk & Er & Eid & Ec).
  { rewrite makeResponse_eq, Hcmd. cbn. eauto 10. }
  unfold handleFetchInv. eapply runs_ev; [done|]. eapply runs_lookup_only; [done|].
  eapply runs_line_state; [done|]. apply runs_bind, runs_removePendingRetry; [done|].
  intros m Hm _. set (c1 := c <| mshr_ := m |>).
  assert (ctrl_live c1) as Hlive1 by (destruct Hlive; by split).
  apply runs_bind, runs_bind, runs_gets. cbn [snoopL1Invs_ andb]. apply runs_skip.
  assert (forall sx, runs ((surrender linkUp linkDown p (Some i) true State.I ;; mret None) ≫=
    fun stop : option bool =>
      match stop with
      | Some b => mret b
      | None => profile_inv Command.FetchInv sx (Some i) ;; coh (delete_event p) ;; mret true
      end) (mkL1 c1 false ps ll a)
    (fun r s' => r = true /\ taken (mkL1 c false ps ll a) p e i l s')) as Htake.
  { intros sx. eapply (runs_take (mkL1 c false ps ll a)); [by split|done..|by destruct c]. }
  destruct Hst as [E|[E|[E Hlock]]]; rewrite E; [apply Htake..|].
  apply runs_bind, runs_bind, runs_bind, runs_ctrl. apply runs_bind_inv.
  eapply runs_line_get; [done|].
  change (timestamp_ c1) with (timestamp_ c). rewrite Hlock. apply runs_ret.
  eapply runs_bind_inv, Htake.
Qed.

(** ** Evictions *)

Definition writeback_of (c : Ctrl) (cmd : Command.t) (dst : string) (l : L1CacheLine.t) : MemEvent :=
  let a := L1CacheLine.getAddr l in
  let w := new_MemEvent (generateUniqueId (idCount_ c)) (cachename_ c) a a cmd in
  (setPayload (L1CacheLine.getData l) (setSize (lineSize_ c) w)) <| dirty_ := true |>
    <| rqstr_ := cachename_ c |> <| src_ := cachename_ c |> <| dst_ := dst |>.

Definition wrote_back (r : MemEvent) (q : list Response) (c : Ctrl) : Ctrl :=
  (answered_down r q c) <| idCount_ ::= N.succ |>.

Lemma runs_insertWriteback (b : bool) now addr c sn ps ll (a : arrT) Q :
  (forall m, entries_at m addr =
     (if b then [writeback_entry false now] else []) ++ entries_at (mshr_ c) addr ->
     Q tt (mkL1 (c <| mshr_ := m |>) sn ps ll a)) ->
  runs (when b (MesiL1.mshr (insertWriteback now addr false) ;; skip)) (mkL1 c sn ps ll a) Q.
Proof.
  intros HQ. apply runs_when; intros ->.
  - apply runs_bind, runs_coh, runs_zoom. unfold insertWriteback.
    apply runs_bind, runs_gets, runs_bind, runs_modify, runs_ret, runs_skip. apply HQ.
    unfold entries_at. cbn. rewrite lookup_insert_eq. by destruct (Mshr.mshr_ (mshr_ c) !! addr).
  - assert (c <| mshr_ := mshr_ c |> = c) as Ec by (by destruct c).
    rewrite <- Ec. by apply HQ.
Qed.

Lemma wrote_back_eq r q c :
  wrote_back r q c = queued_down (fresh_ c) r q (c <| idCount_ ::= N.succ |> <| fresh_ ::= N.succ |>).
Proof. by destruct c. Qed.

Lemma runs_sendWriteback cmd i l c sn ps ll (a : arrT) d :
  lines_ a !! i = Some l -> ctrl_live c ->
  findTargetDestination linkDown (L1CacheLine.getAddr l) = d -> d <> ""%string ->
  exists q1 q2 m t, outgoingEventQueueDown_ c = q1 ++ q2 /\ r_event m = fresh_ c /\
    runs (sendWriteback linkUp linkDown cmd (Some i) true) (mkL1 c sn ps ll a)
      (fun _ s' => exists c', s' = mkL1 c' sn ps ll (with_line a i (L1CacheLine.setTimestamp t l)) /\
        quiet (wrote_back (writeback_of c cmd d l) (q1 ++ m :: q2) c) c').
Proof.
  intros Hl Hlive Hd Hne. pose proof (live_fresh _ Hlive) as Hfresh.
  set (la := L1CacheLine.getAddr l) in *.
  set (w := new_MemEvent (generateUniqueId (idCount_ c)) (cachename_ c) la la cmd).
  set (w1 := (setPayload (L1CacheLine.getData l) (setSize (lineSize_ c) w)) <| dirty_ := true |>
    <| rqstr_ := cachename_ c |>).
  set (c1 := c <| idCount_ ::= N.succ |> <| heap_ ::= <[fresh_ c := w]> |> <| fresh_ ::= N.succ |>).
  set (c2 := c1 <| heap_ ::= <[fresh_ c := w1]> |>).
  set (base := if L1CacheLine.getTimestamp l <? timestamp_ c then timestamp_ c else L1CacheLine.getTimestamp l).
  set (t := u64 (base + accessLatency_ c)).
  destruct (runs_forwardByAddress_down linkUp linkDown (fresh_ c) w1 t c2 d) as (q1 & q2 & Eq & Hrun).
  { unfold c2. cbn. by rewrite lookup_insert_eq. }
  { done. }
  { done. }
  { intros x Hx. unfold c2, c1. cbn. destruct (decide (r_event x = fresh_ c)) as [->|].
    - rewrite lookup_insert_eq. eauto.
    - rewrite !lookup_insert_ne by done. by apply (cl_down _ Hlive). }
  exists q1, q2, (message_of (fresh_ c) t w1 c2), (u64 (t - 1)). split; [exact Eq|]. split; [done|].
  unfold sendWriteback. eapply runs_line_get; [done|].
  apply runs_bind, runs_coh, runs_bind, runs_gets, runs_bind, runs_modify, runs_new_event.
  eapply runs_ev; [cbn; by rewrite lookup_insert_eq|]. apply runs_ctrl. cbn [orb].
  apply runs_bind. eapply runs_line_get; [done|]. apply runs_ret.
  apply runs_bind, runs_coh, runs_modify.
  eapply runs_line_get; [done|]. apply runs_bind, runs_coh. eapply runs_mono; [exact Hrun|].
  intros [] c3 H3. eapply runs_line_set; [done|]. exists c3. split; [done|].
  unfold c2, c1 in H3.
  rewrite fresh_after_write, !queued_down_overwrites, <- wrote_back_eq in H3. exact H3.
Qed.

(** Setting a line aside at the end of an eviction. *)
Lemma runs_retire i l stat c sn ps ll (a : arrT) :
  lines_ a !! i = Some l ->
  runs (line_setState (Some i) State.I ;; line_set (Some i) L1CacheLine.atomicEnd ;;
        recordPrefetchResult (Some i) stat ;; mret true) (mkL1 c sn ps ll a)
    (fun r s' => r = true /\ exists c', s' = mkL1 c' sn ps ll (with_line a i
       (L1CacheLine.setPrefetch false (L1CacheLine.atomicEnd (L1CacheLine.setState State.I l)))) /\ quiet c c').
Proof.
  intros Hl. apply runs_bind. eapply runs_line_set; [done|].
  apply runs_bind. eapply runs_line_set; [by eapply with_line_lookup|]. rewrite with_line_twice.
  apply runs_bind. eapply runs_recordPrefetchResult; [by eapply with_line_lookup|].
  intros c' Hc. rewrite with_line_twice. apply runs_ret. eauto.
Qed.

(** The eviction of a modified line that is not in use loses nothing: it
    succeeds, and a writeback with the whole line, marked dirty, is queued for the
    destination of its address; the line is invalid and unreserved, no other line
    changes, and if memory acknowledges writebacks the MSHR holds the address
    until it does. *)
Theorem evict_dirty_writes_back (s : St) i l d :
  lines_ (cacheArray_ s) !! i = Some l -> L1CacheLine.getState l = State.M ->
  L1CacheLine.isLocked (timestamp_ (cc s)) l = false ->
  getPendingRetries (L1CacheLine.getAddr l) (mshr_ (cc s)) = Ok (0, mshr_ (cc s)) ->
  ctrl_live (cc s) ->
  findTargetDestination linkDown (L1CacheLine.getAddr l) = d -> d <> ""%string ->
  exists s', evict_line linkUp linkDown (Some i) s = Ok (true, s') /\
    (exists q w, heap_ (cc s') !! q = Some w /\ q ∈ r_event <$> outgoingEventQueueDown_ (cc s') /\
      cmd_ w = Command.PutM /\ baseAddr_ w = L1CacheLine.getAddr l /\ dst_ w = d /\
      payload_ w = L1CacheLine.getData l /\ dirty_ w = true) /\
    (exists l', lines_ (cacheArray_ s') = <[i := l']> (lines_ (cacheArray_ s)) /\
      L1CacheLine.getState l' = State.I /\ L1CacheLine.isAtomic l' = false) /\
    entries_at (mshr_ (cc s')) (L1CacheLine.getAddr l) =
      (if recvWritebackAck_ (cc s) then [writeback_entry false (now_ (cc s))] else [])
      ++ entries_at (mshr_ (cc s)) (L1CacheLine.getAddr l).
Proof.
  intros Hl Hst Hlock Hret Hlive Hd Hne.
  match goal with |- exists s', @?A s' /\ @?Q s' =>
    enough (runs (evict_line linkUp linkDown (Some i)) s (fun r s' => r = true /\ Q s'))
      as (r & s' & Hrun & -> & HQ) by (exists s'; exact (conj Hrun HQ)) end.
  destruct s as [c sn ps ll a]. cbn [cc cacheArray_] in *.
  unfold evict_line. eapply runs_line_get; [done|]. rewrite Hst.
  apply runs_bind, runs_bind, runs_gets, runs_bind_inv. eapply runs_line_get; [done|].
  cbn [cc]. rewrite Hlock.
  eapply runs_coh_step; [apply runs_addData|]. intros [] c1 H1. cbn beta in H1.
  eapply runs_line_get; [done|]. apply runs_ctrl. cbv zeta.
  apply runs_bind, runs_coh, runs_zoom. exists 0, (mshr_ c1).
  split; [by rewrite (quiet_mshr H1)|]. rewrite Z.eqb_refl.
  assert (c1 <| mshr_ := mshr_ c1 |> = c1) as -> by (by destruct c1).
  destruct (runs_sendWriteback Command.PutM i l c1 sn ps ll a d) as (q1 & q2 & m & t & Eq & Em & Hrun);
    [done|by eapply quiet_live|done|done|].
  apply runs_bind. eapply runs_step; [exact Hrun|]. intros [] s2 (c2 & -> & H2).
  apply runs_insertWriteback. intros mm Hmm. eapply runs_mono; [by eapply runs_retire, with_line_lookup|].
  intros r s3 [-> (c3 & -> & H3)]. split; [done|]. rewrite with_line_twice. cbn.
  rewrite (quiet_heap H3), (quiet_down H3), (quiet_mshr H3). cbn.
  rewrite (quiet_heap H2), (quiet_down H2), Hmm, (quiet_mshr H2). cbn.
  rewrite (quiet_mshr H1), (quiet_writebackAck H1), (quiet_now H1).
  split; [|split; [by eexists|done]].
  exists (fresh_ c1), (writeback_of c1 Command.PutM d l). rewrite lookup_insert_eq. split; [done|].
  split; [|done]. rewrite <- Em. apply list_elem_of_fmap_2, elem_of_app. right. by left.
Qed.

(** A fetch-and-invalidate that finds a readable line not in use: the handler
    returns, the line's bytes are on their way to memory, marked dirty if the
    line was modified, the line is invalid and unreserved, and the request is
    gone. *)
Theorem fetchInv_takes_line s p e i l :
  asked s p e i l -> cmd_ e = Command.FetchInv ->
  (L1CacheLine.getState l = State.S \/ L1CacheLine.getState l = State.E \/
   (L1CacheLine.getState l = State.M /\ L1CacheLine.isLocked (timestamp_ (cc s)) l = false)) ->
  exists s', handle linkUp linkDown Command.FetchInv p false s = Ok (true, s') /\ taken s p e i l s'.
Proof. intros. by apply fetchInv_taken. Qed.

(** The same request replayed from the MSHR, where it waited for a lock,
    is deleted but stays at the front of its register: what the MSHR would replay
    next at that address is a deleted event. *)
Theorem fetchInv_replay_dangles s p e i l x es :
  asked s p e i l -> cmd_ e = Command.FetchInv ->
  (L1CacheLine.getState l = State.S \/ L1CacheLine.getState l = State.E \/
   (L1CacheLine.getState l = State.M /\ L1CacheLine.isLocked (timestamp_ (cc s)) l = false)) ->
  entries_at (mshr_ (cc s)) (baseAddr_ e) = x :: es -> event x = Some p ->
  exists s', handle linkUp linkDown Command.FetchInv p true s = Ok (true, s') /\
    head (entries_at (mshr_ (cc s')) (baseAddr_ e)) = Some x /\ heap_ (cc s') !! p = None.
Proof.
  intros Hask Hcmd Hst Hes Hx. destruct (fetchInv_taken s p e i l true) as (s' & Hrun & Ht); [done..| |].
  { intros _. unfold entries_at in Hes. destruct (Mshr.mshr_ (mshr_ (cc s)) !! baseAddr_ e); [eauto|done]. }
  exists s'. split; [done|]. rewrite (tk_mshr _ _ _ _ _ _ Ht), Hes. split; [done|].
  by eapply tk_event.
Qed.

(** ** Requests that cannot be served *)

Lemma ev_Ok p (s : St) e s' : ev p s = Ok (e, s') -> heap_ (cc s) !! p = Some e /\ s' = s.
Proof.
  unfold ev, coh, zoom, deref, getsR, of_option. destruct s as [c sn ps ll a]. cbn.
  destruct (heap_ c !! p); [|done]. by intros [= -> <-].
Qed.
Lemma lookup_Ok addr u (s : St) o s' :
  arr (lookup addr u) s = Ok (o, s') ->
  lookup_index (cacheArray_ s) addr = Ok o /\ lines_ (cacheArray_ s') = lines_ (cacheArray_ s).
Proof.
  unfold arr, zoom, lookup, getsR, mbind, M_bind, when, on_policy.
  destruct (lookup_index (cacheArray_ s) addr) as [[i|]|]; [|by intros [= <- <-]|done].
  destruct u; [|by intros [= <- <-]]. unfold zoom.
  destruct (rp_update _ _) as [[[] m]|]; [|done]. by intros [= <- <-].
Qed.
Lemma line_state_at i l (s : St) x s' :
  lines_ (cacheArray_ s) !! i = Some l -> line_state (Some i) s = Ok (x, s') -> x = L1CacheLine.getState l.
Proof.
  intros Hl (l' & s1 & H1 & [<- _]%ret_Ok)%bind_Ok. unfold arr, zoom, get_line, getsR in H1.
  rewrite Hl in H1. by injection H1 as <- _.
Qed.
Lemma line_bytes_length line o n (s : St) bytes s' :
  line_bytes line o n s = Ok (bytes, s') -> length bytes = Z.to_nat n.
Proof.
  intros (d & s1 & _ & [H _]%getsR_Ok)%bind_Ok. unfold vec_slice in H.
  destruct ((o <? 0) || (Z.of_nat (length d) <? o + n)) eqn:E; [done|]. injection H as <-.
  apply orb_false_iff in E as [?%Z.ltb_ge ?%Z.ltb_ge]. rewrite length_take, length_drop. lia.
Qed.

(** A request for exclusive ownership with a lock that hits cannot be
    answered: the code copies the bytes into a vector it never sized. Whenever the
    request asks for at least one byte, the handler does not return. *)
Theorem getSX_hit_undefined (s : St) p b e i l :
  heap_ (cc s) !! p = Some e -> lookup_index (cacheArray_ s) (baseAddr_ e) = Ok (Some i) ->
  lines_ (cacheArray_ s) !! i = Some l ->
  L1CacheLine.getState l = State.E \/ L1CacheLine.getState l = State.M -> 0 < MemEvent.size_ e ->
  ~ exists r s', handle linkUp linkDown Command.GetSX p b s = Ok (r, s').
Proof.
  intros He Hlk Hl Hst Hsz (r & s' & H). cbn [handle] in H.
  apply bind_Ok in H as (e' & s1 & [He' ->]%ev_Ok & H). assert (e' = e) as -> by congruence.
  apply bind_Ok in H as (o & s1 & [Ho Hl1]%lookup_Ok & H). rewrite Hlk in Ho. injection Ho as <-.
  rewrite <- Hl1 in Hl. apply bind_Ok in H as (x & s2 & Hx & H).
  apply (line_state_at _ _ _ _ _ Hl) in Hx as ->.
  apply bind_Ok in H as ([] & s3 & _ & H). apply bind_Ok in H as (x & s4 & Hx & H).
  assert (x = L1CacheLine.getState l) as ->.
  { apply bind_Ok in Hx as (c & s5 & _ & Hx).
    rewrite bool_decide_false in Hx by (destruct Hst; congruence). by apply ret_Ok in Hx as [-> _]. }
  apply bind_Ok in H as (status & s5 & H & _).
  assert (exists (s6 s7 : St) bytes (s8 : St) d s9, line_bytes (Some i) (u64 (addr_ e - baseAddr_ e)) (MemEvent.size_ e) s6
    = Ok (bytes, s7) /\ getsR (fun _ => copy_to_empty bytes) s8 = Ok (d, s9)) as (?&?&bytes&?&?&?&Hb&Hc).
  { destruct Hst as [E|E]; rewrite E in H;
      do 4 (apply bind_Ok in H as (? & ? & _ & H)); apply bind_Ok in H as (bytes & ? & Hb & H);
      apply bind_Ok in H as (d & ? & Hd & _); eauto 10. }
  apply line_bytes_length in Hb. apply getsR_Ok in Hc as [Hc _].
  destruct bytes; [cbn in Hb; lia|done].
Qed.

(** Nor can it get its line on a miss: the handler does not look the new
    line up after allocating it. Whenever the line is absent and the handler
    returns, the request was stalled or rejected; getting the line dereferences a
    null pointer. *)
Theorem getSX_miss_undefined (s : St) p b e r s' :
  heap_ (cc s) !! p = Some e -> lookup_index (cacheArray_ s) (baseAddr_ e) = Ok None ->
  handle linkUp linkDown Command.GetSX p b s = Ok (r, s') ->
  exists status s1 s2, processCacheMiss linkUp linkDown p None b s1 = Ok (status, s2) /\
    status <> MemEventStatus.OK /\ r = accepted status.
Proof.
  intros He Hlk H. cbn [handle] in H.
  apply bind_Ok in H as (e' & s1 & [He' ->]%ev_Ok & H). assert (e' = e) as -> by congruence.
  apply bind_Ok in H as (o & s1 & [Ho Hl1]%lookup_Ok & H). rewrite Hlk in Ho. injection Ho as <-.
  apply bind_Ok in H as (x & s2 & [<- <-]%ret_Ok & H).
  apply bind_Ok in H as ([] & s3 & _ & H). apply bind_Ok in H as (x & s4 & Hx & H).
  assert (x = State.I) as ->.
  { apply bind_Ok in Hx as (c & s5 & _ & [-> _]%ret_Ok). done. }
  apply bind_Ok in H as (status & s5 & H & [<- _]%ret_Ok).
  apply bind_Ok in H as (status' & s6 & Hmiss & H).
  apply bind_Ok in H as ([] & s7 & H & [<- _]%ret_Ok).
  exists status', s4, s6. split; [done|]. split; [|done]. intros ->.
  rewrite decide_True in H by done. apply bind_Ok in H as ([] & s8 & _ & H).
  apply bind_Ok in H as (e2 & s9 & _ & H). apply bind_Ok in H as (c & s10 & _ & H).
  apply bind_Ok in H as (t & s11 & _ & H). by apply bind_Ok in H as ([] & s12 & [=] & _).
Qed.

Lemma front_of m addr reg x es q :
  Mshr.mshr_ m !! addr = Some reg -> entries reg = x :: es ->
  type x = MSHREntryType.Event -> event x = Some q ->
  getFrontType addr m = Ok (MSHREntryType.Event, m) /\ getFrontEvent addr m = Ok (Some q, m).
Proof.
  intros Hreg Hes Hty Hev.
  assert (reg_at "MSHR::getFrontType" addr m = Ok (reg, m) /\ reg_at "MSHR::getFront" addr m = Ok (reg, m))
    as [E1 E2] by (unfold reg_at, getsR; by rewrite Hreg).
  assert (getFrontType addr m = Ok (MSHREntryType.Event, m)) as Ht.
  { unfold getFrontType. rewrite (bind_step _ _ _ _ _ E1). unfold front_entry, getsR, mbind, M_bind.
    by rewrite Hes, <- Hty. }
  split; [exact Ht|]. unfold getFrontEvent, getFront. rewrite (bind_step _ _ _ _ _ Ht), decide_True by done.
  unfold mbind, M_bind. rewrite E2. unfold front_entry, getsR. rewrite Hes, <- Hev. done.
Qed.

(** Cleaning up after a response when only its request waits at the address. *)
Lemma runs_cleanUp_response p e q req reg x (c : Ctrl) :
  heap_ c !! p = Some e -> heap_ c !! q = Some req -> p <> q ->
  Mshr.mshr_ (mshr_ c) !! baseAddr_ e = Some reg -> entries reg = [x] ->
  type x = MSHREntryType.Event -> event x = Some q ->
  runs (cleanUpAfterResponse p false) c
    (fun _ c' => heap_ c' = delete q (delete p (heap_ c)) /\
      exists_ (mshr_ c') (baseAddr_ e) = false).
Proof.
  intros Hp Hq Hne Hreg Hes Hty Hev.
  destruct (front_of (mshr_ c) (baseAddr_ e) reg x [] q) as [Hft Hfe]; [done..|].
  assert (c <| mshr_ := mshr_ c |> = c) as Ec by (by destruct c).
  unfold cleanUpAfterResponse. apply runs_bind. eapply runs_deref; [done|].
  apply runs_bind, runs_zoom. eexists _, _. split; [exact Hft|]. rewrite Ec, decide_True by done.
  apply runs_bind, runs_zoom. eexists _, _. split; [exact Hfe|]. rewrite Ec.
  apply runs_bind, runs_zoom. unfold removeFront, reg_at. apply runs_bind.
  eapply runs_getsR; [by rewrite Hreg|]. apply runs_bind.
  eapply runs_getsR; [unfold front_entry; by rewrite Hes|]. unfold dec_size.
  rewrite Hty, bool_decide_true by done. apply runs_bind, runs_modify. rewrite Hes. cbn [tail put_entries].
  apply runs_modify.
  apply runs_bind. eapply runs_delete_event; [exact Hp|].
  apply runs_bind. eapply runs_delete_event; [cbn; rewrite lookup_delete_ne by done; exact Hq|].
  apply runs_bind, runs_gets.
  assert (forall m addr, exists_ (m <| Mshr.mshr_ ::= delete addr |>) addr = false) as Hgone.
  { intros m addr. unfold exists_. cbn. rewrite lookup_delete_eq. by apply bool_decide_false; intros [? ?]. }
  cbn [mshr_ update]. rewrite Hgone. apply runs_skip. split; [done|]. apply Hgone.
Qed.

(** The answer to a flush does not say whether the flush succeeded: the
    call passes the outcome in the place of a time. Whatever the response from
    below says, the request is answered as it would be after a success. *)
Theorem flush_failure_lost (s : St) p e q req reg x i l r0 :
  heap_ (cc s) !! p = Some e -> heap_ (cc s) !! q = Some req -> p <> q ->
  lookup_index (cacheArray_ s) (baseAddr_ e) = Ok (Some i) ->
  lines_ (cacheArray_ s) !! i = Some l -> L1CacheLine.getState l = State.I_B ->
  Mshr.mshr_ (mshr_ (cc s)) !! baseAddr_ e = Some reg -> entries reg = [x] ->
  type x = MSHREntryType.Event -> event x = Some q ->
  makeResponse req = Ok r0 -> isReachable linkUp (src_ req) = true -> ctrl_live (cc s) ->
  exists s' k r, handle linkUp linkDown Command.FlushLineResp p false s = Ok (true, s') /\
    heap_ (cc s') !! k = Some r /\ responseToID_ r = eventID_ req /\ dst_ r = src_ req /\
    MemEvent.success r = MemEvent.success req.
Proof.
  intros He Hq Hne Hlk Hl Hst Hreg Hes Hty Hev Hr0 Hreach Hlive.
  assert (dst_ r0 = src_ req /\ responseToID_ r0 = eventID_ req /\ flags_ r0 = flags_ req) as (Ed & Eid & Ef).
  { rewrite makeResponse_eq in Hr0. destruct (CommandResponse (cmd_ req)); [|done]. by injection Hr0 as <-. }
  match goal with |- exists s' k r, @?A s' /\ @?Q s' k r =>
    enough (runs (handleFlushLineResp linkUp linkDown p false) s
      (fun b s' => b = true /\ exists k r, Q s' k r))
      as (b & s' & Hrun & -> & k & r & HQ) by (exists s', k, r; exact (conj Hrun HQ)) end.
  destruct s as [c sn ps ll a]. cbn [cc cacheArray_] in *. pose proof (live_fresh _ Hlive) as Hnew.
  unfold handleFlushLineResp. eapply runs_ev; [done|]. eapply runs_lookup_only; [done|].
  eapply runs_line_state; [done|]. rewrite Hst.
  eapply runs_quietly with (p := p); [apply quietly_request|done|]. intros _ c1 H1.
  assert (c1 <| mshr_ := mshr_ c1 |> = c1) as Ec1 by (by destruct c1).
  destruct (front_of (mshr_ c1) (baseAddr_ e) reg x [] q) as [_ Hfe]; [by rewrite (quiet_mshr H1)|done..|].
  apply runs_bind, runs_coh, runs_zoom. eexists _, _. split; [exact Hfe|]. rewrite Ec1.
  apply runs_bind, runs_bind. eapply runs_line_set; [done|]. eapply runs_line_set; [by eapply with_line_lookup|].
  apply runs_bind, runs_coh, runs_ret, runs_ctrl.
  destruct (runs_sendResponseUp linkUp linkDown q req r0 None (negb (timestamp_ c1 =? 0))
    (if MemEvent.success e then 1 else 0) true c1) as (q1 & q2 & _ & Hrun);
    [by rewrite (quiet_heap H1)|done|by rewrite Ed|by eapply quiet_live|].
  eapply runs_coh_step; [exact Hrun|]. intros t c2 [_ H2]. cbv beta zeta in H2.
  set (r := _ <| src_ := _ |>) in H2.
  assert (p <> fresh_ c1 /\ q <> fresh_ c1) as [Hpf Hqf] by (rewrite (quiet_fresh H1); split; congruence).
  assert (heap_ c2 = <[fresh_ c1 := r]> (heap_ c)) as Hh2.
  { rewrite (quiet_heap H2). cbn. by rewrite (quiet_heap H1). }
  assert (mshr_ c2 = mshr_ c) as Hm2 by (rewrite (quiet_mshr H2); exact (quiet_mshr H1)).
  eapply runs_coh_step.
  { eapply runs_cleanUp_response; [..|exact Hes|exact Hty|exact Hev];
      rewrite ?Hh2, ?Hm2, ?lookup_insert_ne by done; done. }
  intros [] c3 [Hh3 _]. apply runs_ret. split; [done|].
  exists (fresh_ c1), r. cbn [cc]. rewrite Hh3, Hh2, !lookup_delete_ne by done. rewrite lookup_insert_eq.
  split_and!; [done|exact Eid|exact Ed|].
  unfold MemEvent.success, queryFlag. by rewrite <- Ef.
Qed.
End l1_below.

(** ** Examples *)

(** A fetch-and-invalidate at pointer 0 of the modified line 0, and the same while
    it waits in the MSHR. *)
Definition demo_fetch : MemEvent := mem_message 1 0 [] Command.FetchInv.
Definition demo_fetched : L1 LRU.t := demo_l1 [demo_line; empty_line 1] [demo_fetch].
Definition waiting (s : L1 LRU.t) (p : EventPtr) : L1 LRU.t :=
  s <| cc ::= fun c => c <| mshr_ := mkMSHR {[0 := new_register [event_entry p false 0]]} 1 4 |> |>.

Lemma single_live c p e :
  outgoingEventQueueUp_ c = [] -> outgoingEventQueueDown_ c = [] -> heap_ c = {[p := e]} ->
  (p < fresh_ c)%N -> ctrl_live c.
Proof.
  intros Hu Hd Hh Hf. split; rewrite ?Hu, ?Hd, ?Hh; [by intros x ?%elem_of_nil..|].
  intros q [x Hx]. by apply lookup_singleton_Some in Hx as [<- _].
Qed.

Lemma demo_asked b :
  asked (hash_ := demo_hash) cpu_link mem_link (if b : bool then waiting demo_fetched 0%N else demo_fetched)
    0%N demo_fetch 0 demo_line.
Proof. destruct b; (split; [done|by vm_compute|done..|by eapply single_live|done]). Qed.

Lemma evict_dirty_writes_back_witness :
  exists s', evict_line (core := demo_sst) cpu_link mem_link (Some 0%nat) demo_fetched = Ok (true, s') /\
    exists q w, heap_ (cc s') !! q = Some w /\ cmd_ w = Command.PutM /\ payload_ w = demo_bytes.
Proof.
  destruct (evict_dirty_writes_back cpu_link mem_link demo_fetched 0 demo_line "mem")
    as (s' & H & (q & w & Hq & _ & Hc & _ & _ & Hp & _) & _); [done..|by eapply single_live|done|done|].
  exists s'. split; [exact H|]. exists q, w. exact (conj Hq (conj Hc Hp)).
Defined.

Lemma fetchInv_takes_line_witness :
  exists s', handle (core := demo_sst) cpu_link mem_link Command.FetchInv 0%N false demo_fetched
      = Ok (true, s') /\ taken demo_fetched 0%N demo_fetch 0 demo_line s'.
Proof.
  exact (fetchInv_takes_line cpu_link mem_link demo_fetched 0%N demo_fetch 0 demo_line (demo_asked false)
    eq_refl (or_intror (or_intror (conj eq_refl eq_refl)))).
Defined.

Lemma fetchInv_replay_dangles_witness :
  exists s', handle (core := demo_sst) cpu_link mem_link Command.FetchInv 0%N true
      (waiting demo_fetched 0%N) = Ok (true, s') /\
    head (entries_at (mshr_ (cc s')) 0) = Some (event_entry 0%N false 0) /\ heap_ (cc s') !! 0%N = None.
Proof.
  exact (fetchInv_replay_dangles cpu_link mem_link (waiting demo_fetched 0%N) 0%N demo_fetch 0 demo_line
    (event_entry 0%N false 0) [] (demo_asked true) eq_refl
    (or_intror (or_intror (conj eq_refl eq_refl))) eq_refl eq_refl).
Defined.

Definition demo_lock : MemEvent := cpu_request 1 2 2 Command.GetSX.
Lemma getSX_hit_undefined_witness :
  ~ exists r s', handle (core := demo_sst) cpu_link mem_link Command.GetSX 0%N false
      (demo_l1 [demo_line; empty_line 1] [demo_lock]) = Ok (r, s').
Proof.
  apply (getSX_hit_undefined cpu_link mem_link _ _ _ demo_lock 0 demo_line);
    [done|by vm_compute|done|by right|done].
Defined.

(** With the MSHR full the request is rejected. *)
Definition full_start : L1 LRU.t :=
  (demo_l1 [empty_line 0; empty_line 1] [cpu_request 1 18 2 Command.GetSX])
    <| cc ::= fun c => c <| mshr_ := mkMSHR ∅ 4 4 |> |>.
Lemma getSX_miss_undefined_witness :
  exists s' status, handle (core := demo_sst) cpu_link mem_link Command.GetSX 0%N false full_start
      = Ok (accepted status, s') /\ status <> MemEventStatus.OK.
Proof.
  destruct (succeeds_run (demo_handle Command.GetSX 0%N false) full_start) as (r & s' & H);
    [by vm_compute|].
  destruct (getSX_miss_undefined cpu_link mem_link full_start 0%N false
    (cpu_request 1 18 2 Command.GetSX) r s') as (status & _ & _ & _ & Hs & ->);
    [done|by vm_compute|exact H|].
  exists s', status. exact (conj H Hs).
Defined.

(** A flush of line 0 that failed below. *)
Definition demo_flush : MemEvent := cpu_request 1 0 8 Command.FlushLineInv.
Definition demo_failure : MemEvent := setFail (mem_message 1 0 [] Command.FlushLineResp).
Definition flush_start : L1 LRU.t :=
  waiting (demo_l1 [held_line 0 0 State.I_B demo_bytes; empty_line 1] [demo_failure; demo_flush]) 1%N.
Lemma flush_failure_lost_witness :
  exists s' k r, handle (core := demo_sst) cpu_link mem_link Command.FlushLineResp 0%N false flush_start
      = Ok (true, s') /\ heap_ (cc s') !! k = Some r /\ MemEvent.success r = true.
Proof.
  destruct (flush_failure_lost cpu_link mem_link flush_start 0%N demo_failure 1%N demo_flush
    (new_register [event_entry 1%N false 0]) (event_entry 1%N false 0) 0
    (held_line 0 0 State.I_B demo_bytes)
    (demo_flush <| responseToID_ := (1, 0) |> <| cmd_ := Command.FlushLineResp |>
       <| dst_ := "cpu"%string |> <| src_ := "l1"%string |>))
    as (s' & k & r & H & Hk & _ & _ & Hs); [done..|by vm_compute|done|done|done|done|done|done|done|done| |].
  - split; [by intros x ?%elem_of_nil|by intros x ?%elem_of_nil|].
    intros p [e He]. change (fresh_ (cc flush_start)) with 2%N.
    change (heap_ (cc flush_start)) with (<[0%N := demo_failure]> (<[1%N := demo_flush]> (∅ : gmap N MemEvent))) in He.
    apply lookup_insert_Some in He as [[<- _]|[_ He]]; [lia|].
    apply lookup_insert_Some in He as [[<- _]|[_ He]]; [lia|]. by rewrite lookup_empty in He.
  - exists s', k, r. exact (conj H (conj Hk Hs)).
Defined.
