(* ===== verification/CacheController.v ===== *)
(** * CacheController: the cache component

    Models [cacheController.h/.cc] and the parts of [cacheFactory.cc] that fix its
    limits: the event, retry and prefetch buffers, the clock handler that drains
    them, bank and line arbitration, dispatch to the coherence manager, routing of
    noncacheable events, and the initialisation messages. The manager is used
    through the interface [CoherenceManager]. What the simulator core decides
    enters as arguments: the clock cycle, the simulated time, and whether the
    clocked links are idle. *)

From S2P Require Import Prelude MemTypes MemEvent Hash Replacement Lines CacheArray Mshr Coherence MesiL1.

(** ** What the cache asks of its coherence manager *)

Class CoherenceManager (S : Type) := {
  cm_ctrl : S -> Ctrl;
  cm_set_ctrl : Ctrl -> S -> S;
  cm_handle : Command.t -> EventPtr -> bool -> M S bool;
  cm_getBank : Z -> S -> res Z;
  cm_virtuals : Virtuals;
  cm_getInitCoherenceEvent : S -> MemEventInitCoherence;
  cm_processInitCoherenceEvent : MemEventInitCoherence -> bool -> M S unit;
  cm_hasUpperLevelCacheName : string -> M S unit
}.

(** The manager of an L1 cache. *)
#[export] Instance mesi_l1_manager {core : SSTCore} (linkUp linkDown : MemLink) {P : Type}
    {HP : ReplacementPolicy P} {hash_ : HashFunction} : CoherenceManager (L1 P) := {|
  cm_ctrl := cc;
  cm_set_ctrl c s := s <| cc := c |>;
  cm_handle := handle linkUp linkDown;
  cm_getBank := MesiL1.getBank;
  cm_virtuals := mesi_l1_virtuals linkUp linkDown;
  cm_getInitCoherenceEvent := getInitCoherenceEvent;
  cm_processInitCoherenceEvent event source := coh (processInitCoherenceEvent event source);
  cm_hasUpperLevelCacheName _ := skip
|}.

Module CacheStat.
Inductive t :=
| MSHROccupancy (size : Z) | BankConflicts
| PrefetchRequest | PrefetchDrop
| RecvEvents | RetryEvents
| UncacheRecv (c : Command.t) | CacheRecv (c : Command.t).
End CacheStat.

Record Cache (S : Type) := mkCache {
  mgr : S;
  lineSize_ : Z;
  allNoncacheableRequests_ : bool;
  maxRequestsPerCycle_ : Z;
  timeout_ : Z;
  banked_ : bool;
  clockIsOn_ : bool;
  lastActiveClockCycle_ : Z;
  timestamp_ : Z;
  bankStatus_ : list bool;
  addrsThisCycle_ : gset Z;
  retryBuffer_ : list (option EventPtr);
  eventBuffer_ : list EventPtr;
  prefetchBuffer_ : list EventPtr;
  noncacheableResponseDst_ : gmap id_type string;
  name_ : string;
  cstats_ : list CacheStat.t
}.
Arguments mkCache {S}. Arguments mgr {S}. Arguments lineSize_ {S}.
Arguments allNoncacheableRequests_ {S}. Arguments maxRequestsPerCycle_ {S}. Arguments timeout_ {S}.
Arguments banked_ {S}. Arguments clockIsOn_ {S}. Arguments lastActiveClockCycle_ {S}.
Arguments timestamp_ {S}. Arguments bankStatus_ {S}. Arguments addrsThisCycle_ {S}.
Arguments retryBuffer_ {S}. Arguments eventBuffer_ {S}. Arguments prefetchBuffer_ {S}.
Arguments noncacheableResponseDst_ {S}. Arguments name_ {S}. Arguments cstats_ {S}.
#[export] Instance Cache_eta {S} : Eta (Cache S) := fun c =>
  mkCache (mgr c) (lineSize_ c) (allNoncacheableRequests_ c) (maxRequestsPerCycle_ c) (timeout_ c)
    (banked_ c) (clockIsOn_ c) (lastActiveClockCycle_ c) (timestamp_ c) (bankStatus_ c)
    (addrsThisCycle_ c) (retryBuffer_ c) (eventBuffer_ c) (prefetchBuffer_ c)
    (noncacheableResponseDst_ c) (name_ c) (cstats_ c).

(** ** Limits set at construction *)

(** [createMSHR]: the MSHR latency of a cache below the L1 when none is given,
    looked up in a table of 200 entries by the access latency. *)
Definition intrapolate_latency (idx : Z) : res Z :=
  if (idx <? 0) || (200 <=? idx) then Err (Undefined "y[accessLatency] out of range")
  else if idx =? 0 then Ok 0
  else if idx =? 1 then Ok 1
  else if idx <? 12 then Ok 2
  else if idx <? 16 then Ok 3
  else if idx <? 26 then Ok 5
  else if idx <? 46 then Ok 19
  else if idx <? 68 then Ok 26
  else Ok 32.

Definition createMSHR (mshr_num_entries : Z) (mshr_latency_cycles : option Z) (accessLatency : Z)
    (L1 : bool) : res (MSHR * Z) :=
  if (mshr_num_entries =? 1) || (mshr_num_entries =? 0) then
    Err (Fatal "MSHR requires at least 2 entries to avoid deadlock")
  else
    let m := new_MSHR mshr_num_entries in
    match mshr_latency_cycles with
    | Some l => if 0 <? l then Ok (m, l)
                else if L1 then Ok (m, 1)
                else if 200 <? accessLatency then Err (Fatal "cannot intrapolate MSHR latency")
                else y ← intrapolate_latency accessLatency; Ok (m, y)
    | None => if L1 then Ok (m, 1)
              else if 200 <? accessLatency then Err (Fatal "cannot intrapolate MSHR latency")
              else y ← intrapolate_latency accessLatency; Ok (m, y)
    end.

(** The prefetch limits of [createCoherenceManager]: (drop level, most
    outstanding). A capacity below zero is unlimited. *)
Definition prefetch_limits (mshrSize : Z) (max_outstanding drop_level : option Z) : Z * Z :=
  let maxOutstanding := match max_outstanding with
    | Some n => n
    | None => if mshrSize <? 0 then 2 ^ 64 - 2 else u64 (Z.quot mshrSize 2)
    end in
  let drop := match drop_level with
    | Some n => if u64 mshrSize <=? n then u64 (mshrSize - 1) else n
    | None => if mshrSize <? 0 then 2 ^ 64 - 2
              else if mshrSize =? 2 then u64 (mshrSize - 1) else u64 (mshrSize - 2)
    end in
  (drop, maxOutstanding).

(** A cache just constructed, with [banks] banks. *)
Definition new_Cache {S} (mgr : S) (lineSize maxRequestsPerCycle timeout banks : Z)
    (allNoncacheable : bool) (name : string) : Cache S :=
  mkCache mgr lineSize allNoncacheable
    (if maxRequestsPerCycle =? 0 then -1 else maxRequestsPerCycle) timeout
    (negb (banks =? 0)) true 0 0 (replicate (Z.to_nat banks) false) ∅ [] [] [] ∅ name [].

Section cache.
Context {S : Type} {CM : CoherenceManager S}.
Abbreviation St := (Cache S).
#[local] Instance manager_virtuals : Virtuals := cm_virtuals.

Definition on_mgr {A} (m : M S A) : M St A := zoom mgr (fun t c => c <| mgr := t |>) m.
Definition on_ctrl {A} (m : M Ctrl A) : M St A := on_mgr (zoom cm_ctrl cm_set_ctrl m).
Definition event_at (p : EventPtr) : M St MemEvent := on_ctrl (deref p).
Definition cache_stat (s : CacheStat.t) : M St unit :=
  modify (fun c => c <| cstats_ ::= fun l => l ++ [s] |>).
Definition ctrl_of (c : St) : Ctrl := cm_ctrl (mgr c).

(** [addr & ~(lineSize_ - 1)] on 64 bits. *)
Definition toBaseAddr (lineSize addr : Z) : Z := Z.land addr (Z.lxor (u64 (lineSize - 1)) (2 ^ 64 - 1)).

(** ** Clock *)

(** [time] is what [reregisterClock] returns. The occupancy statistic is
    repeated for every cycle the clock was off. *)
Definition turnClockOn (time : Z) : M St unit :=
  modify (fun c => c <| timestamp_ := u64 (time - 1) |>) ;;
  ts ← gets timestamp_;
  on_ctrl (modify (fun c => c <| Coherence.timestamp_ := ts |>)) ;;
  modify (fun c =>
    c <| cstats_ ::= fun l => l ++ replicate (Z.to_nat (timestamp_ c - lastActiveClockCycle_ c))
                                     (CacheStat.MSHROccupancy (getSize (mshr_ (ctrl_of c)))) |>
      <| clockIsOn_ := true |>).

Definition turnClockOff : M St unit :=
  modify (fun c => c <| clockIsOn_ := false |> <| lastActiveClockCycle_ := timestamp_ c |>).

(** ** Arrival of events *)

Definition handleEvent (time : Z) (p : EventPtr) : M St unit :=
  on ← gets clockIsOn_;
  when (negb on) (turnClockOn time) ;;
  e ← event_at p;
  cls ← getsR (fun _ => CommandClassArr (cmd_ e));
  wb ← getsR (fun _ => CommandWriteback (cmd_ e));
  when (bool_decide (cls = CommandClass.Request) && negb wb) (on_ctrl (recordIncomingRequest p)) ;;
  ty ← getsR (fun _ => MemEventTypeArr (cmd_ e));
  cache_stat (if negb (bool_decide (ty = MemEventType.Cache)) || queryFlag F_NONCACHEABLE e
              then CacheStat.UncacheRecv (cmd_ e) else CacheStat.CacheRecv (cmd_ e)) ;;
  modify (fun c => c <| eventBuffer_ ::= fun l => l ++ [p] |>).

Definition processPrefetchEvent (time : Z) (p : EventPtr) : M St unit :=
  e ← event_at p;
  c ← gets (fun c => c);
  on_ctrl (set_event p (e <| baseAddr_ := toBaseAddr (lineSize_ c) (addr_ e) |>
                          <| rqstr_ := name_ c |> <| src_ := name_ c |>)) ;;
  when (negb (clockIsOn_ c)) (turnClockOn time) ;;
  on_ctrl (recordIncomingRequest p) ;;
  cache_stat CacheStat.PrefetchRequest ;;
  cache_stat (CacheStat.CacheRecv (cmd_ e)) ;;
  modify (fun c => c <| prefetchBuffer_ ::= fun l => l ++ [p] |>).

(** ** Arbitration *)

(** One access per line and cycle, or per bank and cycle when there are banks. *)
Definition arbitrateAccess (addr : Z) : M St bool :=
  c ← gets (fun c => c);
  if negb (banked_ c) then mret (negb (bool_decide (addr ∈ addrsThisCycle_ c)))
  else
    bank ← getsR (fun c => cm_getBank addr (mgr c));
    busy ← getsR (fun c => at_index (bankStatus_ c) bank);
    if busy : bool then cache_stat CacheStat.BankConflicts ;; mret false else mret true.

Definition updateAccessStatus (addr : Z) : M St unit :=
  modify (fun c => c <| addrsThisCycle_ ::= union {[addr]} |>) ;;
  c ← gets (fun c => c);
  if banked_ c then
    bank ← getsR (fun c => cm_getBank addr (mgr c));
    b ← getsR (fun c => set_index (bankStatus_ c) bank true);
    modify (fun c => c <| bankStatus_ := b |>)
  else skip.

(** ** Noncacheable events *)

(** Requests remember where the response goes; responses look it up.
    [std::map::insert] keeps an existing entry. *)
Definition processNoncacheable (p : EventPtr) : M St unit :=
  e ← event_at p;
  by_addr ← getsR (fun _ => CommandRouteByAddress (cmd_ e));
  if by_addr : bool then
    when (negb (queryFlag F_NORESPONSE e))
      (modify (fun c =>
         match noncacheableResponseDst_ c !! eventID_ e with
         | Some _ => c
         | None => c <| noncacheableResponseDst_ ::= <[eventID_ e := src_ e]> |>
         end)) ;;
    on_ctrl (forwardByAddress_next p)
  else
    c ← gets (fun c => c);
    match noncacheableResponseDst_ c !! responseToID_ e with
    | None => fatal "noncacheable response received does not match a request"
    | Some dst =>
        on_ctrl (set_event p (e <| dst_ := dst |>)) ;;
        on_ctrl (forwardByDestination_next p) ;;
        modify (fun c => c <| noncacheableResponseDst_ ::= delete (responseToID_ e) |>)
    end.

(** ** Processing an event *)

Definition dispatchable (cmd : Command.t) : bool :=
  match cmd with
  | Command.FlushAll | Command.FlushAllResp | Command.Put | Command.Get | Command.AckMove
  | Command.CustomReq | Command.CustomResp | Command.CustomAck | Command.Evict
  | Command.LAST_CMD => false
  | _ => true
  end.

Definition is_noncacheable (e : MemEvent) : res bool :=
  ty ← MemEventTypeArr (cmd_ e);
  Ok (negb (bool_decide (ty = MemEventType.Cache)) || queryFlag F_NONCACHEABLE e).

(** Whether the event is done with and leaves its buffer. *)
Definition processEvent (p : EventPtr) (inMSHR : bool) : M St bool :=
  c ← gets (fun c => c);
  e ← event_at p;
  let e := if allNoncacheableRequests_ c then setFlag F_NONCACHEABLE e else e in
  on_ctrl (set_event p e) ;;
  nc ← getsR (fun _ => is_noncacheable e);
  if nc : bool then processNoncacheable p ;; mret true
  else
    let addr := baseAddr_ e in
    free ← arbitrateAccess addr;
    if negb free then mret false
    else if negb (dispatchable (cmd_ e)) then fatal "Received an unsupported command"
    else
      accepted ← on_mgr (cm_handle (cmd_ e) p inMSHR);
      when accepted (updateAccessStatus addr) ;; mret accepted.

(** ** The clock handler *)

(** Walk a buffer, taking out what is accepted, until the cycle's limit is
    reached: the number accepted so far, and what stays in the buffer. *)
Fixpoint drain_buffer {A} (process : A -> M St bool) (done : CacheStat.t) (max accepted : Z)
    (l : list A) : M St (Z * list A) :=
  match l with
  | [] => mret (accepted, [])
  | x :: l' =>
      if accepted =? max then mret (accepted, l)
      else
        b ← process x;
        if b : bool then cache_stat done ;; drain_buffer process done max (accepted + 1) l'
        else '(n, rest) ← drain_buffer process done max accepted l'; mret (n, x :: rest)
  end.

Definition process_retry (o : option EventPtr) : M St bool :=
  match o with Some p => processEvent p true | None => null_deref end.
Definition process_new (p : EventPtr) : M St bool := processEvent p false.

(** Prefetches are tried once: what is not accepted is dropped. *)
Fixpoint drain_prefetches (max accepted : Z) (l : list EventPtr) : M St Z :=
  match l with
  | [] => mret accepted
  | p :: l' =>
      b ← (if accepted =? max then mret false else processEvent p false);
      if b : bool then drain_prefetches max (accepted + 1) l'
      else
        cache_stat CacheStat.PrefetchDrop ;;
        e ← event_at p;
        on_ctrl (removeRequestRecord (eventID_ e)) ;;
        drain_prefetches max accepted l'
  end.

(** The result says whether to stop the clock; [links_idle] is the answer of
    the links that are clocked with the cache. *)
Context {core : SSTCore}.
Definition clockTick (links_idle : bool) : M St bool :=
  modify (fun c => c <| timestamp_ ::= fun t => u64 (t + 1) |>) ;;
  idle ← on_ctrl sendOutgoingEvents;
  let idle := idle && links_idle in
  c ← gets (fun c => c);
  cache_stat (CacheStat.MSHROccupancy (getSize (mshr_ (ctrl_of c)))) ;;
  modify (fun c => c <| bankStatus_ ::= fmap (fun _ => false) |> <| addrsThisCycle_ := ∅ |>) ;;
  let max := maxRequestsPerCycle_ c in
  '(accepted, rest) ← drain_buffer process_retry CacheStat.RetryEvents max 0 (retryBuffer_ c);
  modify (fun c => c <| retryBuffer_ := rest |>) ;;
  '(accepted, rest) ← drain_buffer process_new CacheStat.RecvEvents max accepted (eventBuffer_ c);
  modify (fun c => c <| eventBuffer_ := rest |>) ;;
  accepted ← drain_prefetches max accepted (prefetchBuffer_ c);
  modify (fun c => c <| prefetchBuffer_ := [] |>
    <| retryBuffer_ ::= fun l => l ++ Coherence.retryBuffer_ (ctrl_of c) |>) ;;
  on_ctrl clearRetryBuffer ;;
  c ← gets (fun c => c);
  let idle := idle && checkIdle (ctrl_of c) in
  if bool_decide (eventBuffer_ c = []) && bool_decide (retryBuffer_ c = []) && idle
  then turnClockOff ;; mret true
  else mret false.

(** ** Timeouts *)

(** [curTime] is the simulated time in ns, [to_ns] the conversion of a core
    time to it. *)
Definition checkTimeout (to_ns : Z -> Z) (curTime : Z) : M St unit :=
  c ← gets (fun c => c);
  match getOldestEntry (mshr_ (ctrl_of c)) with
  | Some entry =>
      if timeout_ c <? u64 (curTime - to_ns (time entry))
      then fatal "Maximum cache timeout reached"
      else skip
  | None => skip
  end.

(** Whether the timeout event is sent again. *)
Definition timeoutWakeup (to_ns : Z -> Z) (curTime : Z) : M St bool :=
  checkTimeout to_ns curTime ;; gets (fun c => negb (timeout_ c =? 0)).

(** ** Initialisation *)

(** [sendUntimedData]: the link a message goes out on, whether it is broadcast
    there, and the message. *)
Record InitSend := mkSend { to_up : bool; broadcast : bool; sent_msg : MemEventInit }.

(** The [while (recvUntimedData())] loops: each message received is handled and
    deleted; the result is what was sent, in order. *)
Fixpoint receive (handle : MemEventInit -> M St (list InitSend)) (inbox : list MemEventInit)
    : M St (list InitSend) :=
  match inbox with
  | [] => mret []
  | e :: inbox' => out ← handle e; out' ← receive handle inbox'; mret (out ++ out')
  end.

Definition processInit (e : MemEventInit) (source : bool) : M St unit :=
  ic ← getsR (fun _ => as_coherence e); on_mgr (cm_processInitCoherenceEvent ic source).

(** A copy of a message in this cache's name. *)
Definition relay (up bcast : bool) (e : MemEventInit) : M St (list InitSend) :=
  c ← gets (fun c => c); mret [mkSend up bcast (e <| in_src := name_ c |>)].

Definition init_one_link_event (isSource : string -> bool) (e : MemEventInit) : M St (list InitSend) :=
  if decide (in_initCmd e = InitCommand.Coherence) then processInit e (isSource (in_src e)) ;; mret []
  else if decide (in_initCmd e = InitCommand.Endpoint) then relay false true e
  else mret [].

Definition init_up_event (e : MemEventInit) : M St (list InitSend) :=
  if decide (in_cmd e = Command.NULLCMD) then
    if decide (in_initCmd e = InitCommand.Coherence) then
      on_mgr (cm_hasUpperLevelCacheName (in_src e)) ;; processInit e true ;; mret []
    else if decide (in_initCmd e = InitCommand.Endpoint) then relay false true e
    else mret []
  else relay false false e.

Definition init_down_event (isDest : string -> bool) (e : MemEventInit) : M St (list InitSend) :=
  if decide (in_cmd e = Command.NULLCMD) then
    if isDest (in_src e) && bool_decide (in_initCmd e = InitCommand.Coherence) then
      processInit e false ;; mret []
    else if decide (in_initCmd e = InitCommand.Endpoint) then relay true true e
    else mret []
  else mret [].

(** The first phase announces the cache on its links. *)
Definition announce (phase : Z) (ups : list bool) : M St (list InitSend) :=
  c ← gets (fun c => c);
  mret (if phase =? 0
        then (fun up => mkSend up true (coherence_message (cm_getInitCoherenceEvent (mgr c)))) <$> ups
        else []).

(** [init] with one link: its only link is both up and down. *)
Definition init_one_link (isSource : string -> bool) (phase : Z) (inbox : list MemEventInit)
    : M St (list InitSend) :=
  out ← announce phase [false];
  out' ← receive (init_one_link_event isSource) inbox; mret (out ++ out').

Definition init_two_links (isDest : string -> bool) (phase : Z) (from_up from_down : list MemEventInit)
    : M St (list InitSend) :=
  out ← announce phase [true; false];
  out_up ← receive init_up_event from_up;
  out_down ← receive (init_down_event isDest) from_down; mret (out ++ out_up ++ out_down).

(** The part of [finish] that corrects the statistics. *)
Definition finish (time : Z) : M St unit :=
  on ← gets clockIsOn_; when (negb on) (turnClockOn time).
End cache.
