(* ===== verification/CacheRuns.v ===== *)
(** * CacheRuns: what the cache guarantees around any coherence manager

    Theorems about [CacheController] proved against the interface of the manager
    and its laws: the bandwidth of a cycle and the order in which events are
    taken, one access per line and cycle, a clock that stops only when nothing
    waits, and the flags the initialisation derives. *)

From S2P Require Import Prelude MemTypes MemEvent Hash Replacement Lines CacheArray Mshr Coherence MesiL1.
From S2P Require Import CacheController.

(** ** The laws of a manager *)

(** The controller is a field of the manager, banks depend on neither it nor the
    handlers, and sending does not touch the MSHR. *)
Class ManagerLaws (T : Type) {CM : CoherenceManager T} := {
  cm_get_set c s : cm_ctrl (cm_set_ctrl c s) = c;
  cm_set_get s : cm_set_ctrl (cm_ctrl s) s = s;
  cm_bank_ctrl a c s : cm_getBank a (cm_set_ctrl c s) = cm_getBank a s;
  cm_bank_handle a cmd p b : steps (fun s s' => cm_getBank a s' = cm_getBank a s) (cm_handle cmd p b);
  cm_mshr_forwardByAddress p t :
    steps (fun c c' => mshr_ c' = mshr_ c) (@Coherence.forwardByAddress cm_virtuals p t);
  cm_mshr_forwardByDestination p t :
    steps (fun c c' => mshr_ c' = mshr_ c) (@Coherence.forwardByDestination cm_virtuals p t);
  cm_mshr_recordLatency cmd ty l :
    steps (fun c c' => mshr_ c' = mshr_ c) (@Coherence.recordLatency cm_virtuals cmd ty l)
}.

(** An invariant of the manager that sees the controller through its MSHR only. *)
Class ManagerInvariant {T : Type} {CM : CoherenceManager T} (I : T -> Prop) := {
  mi_ctrl s c : mshr_ c = mshr_ (cm_ctrl s) -> I s -> I (cm_set_ctrl c s);
  mi_handle cmd p b : steps (fun s s' => I s -> I s') (cm_handle cmd p b)
}.

(** ** The fields processing an event leaves alone *)

Record frame {T} (c c' : Cache T) : Prop := {
  fr_events : eventBuffer_ c' = eventBuffer_ c;
  fr_retries : retryBuffer_ c' = retryBuffer_ c;
  fr_prefetches : prefetchBuffer_ c' = prefetchBuffer_ c;
  fr_max : maxRequestsPerCycle_ c' = maxRequestsPerCycle_ c;
  fr_clock : clockIsOn_ c' = clockIsOn_ c;
  fr_banked : banked_ c' = banked_ c
}.
#[export] Instance frame_order {T} : PreOrder (frame (T := T)).
Proof. split; [by intros c; split|]. intros c1 c2 c3 [] []. split; congruence. Qed.

Section frames.
Context {T : Type} {CM : CoherenceManager T}.
Abbreviation St := (Cache T).
#[local] Instance virtuals : Virtuals := cm_virtuals.

Lemma frame_on_mgr {A} (m : M T A) : steps frame (on_mgr m).
Proof. eapply (steps_zoom _ _ _ (fun _ _ => True)); [done|by intros; split]. Qed.
Lemma frame_on_ctrl {A} (m : M Ctrl A) : steps frame (on_ctrl (S := T) m).
Proof. apply frame_on_mgr. Qed.
Lemma frame_modify (f : St -> St) : (forall c, frame c (f c)) -> steps frame (modify f).
Proof. apply steps_modify. Qed.
#[local] Hint Resolve frame_on_mgr frame_on_ctrl : steps.
#[local] Hint Extern 2 (steps frame (modify _)) =>
  apply frame_modify; intros; repeat case_match; by split : steps.

Lemma frame_stat s : steps frame (cache_stat (S := T) s).
Proof. unfold cache_stat. steps_walk. Qed.
Lemma frame_event_at p : steps frame (event_at (S := T) p).
Proof. apply frame_on_ctrl. Qed.
#[local] Hint Resolve frame_stat frame_event_at : steps.
Lemma frame_arbitrate a : steps frame (arbitrateAccess (S := T) a).
Proof. unfold arbitrateAccess. steps_walk. Qed.
Lemma frame_updateAccess a : steps frame (updateAccessStatus (S := T) a).
Proof. unfold updateAccessStatus. steps_walk. Qed.
Lemma frame_noncacheable p : steps frame (processNoncacheable (S := T) p).
Proof. unfold processNoncacheable, fatal. steps_walk. Qed.
#[local] Hint Resolve frame_arbitrate frame_updateAccess frame_noncacheable : steps.
Lemma frame_processEvent p b : steps frame (processEvent (S := T) p b).
Proof. unfold processEvent, fatal. steps_walk. Qed.
#[local] Hint Resolve frame_processEvent : steps.

Lemma frame_drain {A} (process : A -> M St bool) d max n l :
  (forall x, steps frame (process x)) -> steps frame (drain_buffer process d max n l).
Proof.
  intros H. revert n. induction l as [|x l IH]; intros n; cbn [drain_buffer]; [apply steps_ret, _|].
  destruct (n =? max); [apply steps_ret, _|]. apply steps_bind; [apply _|apply H|]. intros [].
  - apply steps_bind; [apply _|apply frame_stat|done].
  - apply steps_bind; [apply _|done|]. intros []. apply steps_ret, _.
Qed.
Lemma frame_retry o : steps frame (process_retry (S := T) o).
Proof. unfold process_retry, null_deref, undefined. steps_walk. Qed.
Lemma frame_drain_prefetches max n l : steps frame (drain_prefetches (S := T) max n l).
Proof.
  revert n. induction l as [|p l IH]; intros n; cbn [drain_prefetches]; [apply steps_ret, _|].
  pose proof IH. steps_walk.
Qed.
End frames.

(** ** Draining a buffer *)

Section drain.
Context {T : Type} {CM : CoherenceManager T} {A : Type} (process : A -> M (Cache T) bool).

Definition refused (x : A) : Prop := exists c c', process x c = Ok (false, c').

(** [accepted] events of [l] were taken, in order, and [rest] stays, in order;
    unless the limit was reached, everything in [rest] was tried and refused. *)
Record drained (max n : Z) (l : list A) (m : Z) (rest : list A) : Prop := {
  dr_order : rest `sublist_of` l;
  dr_count : m = n + (Z.of_nat (length l) - Z.of_nat (length rest));
  dr_limit : n <= max -> m <= max;
  dr_full : n = max -> m = max;
  dr_tried x : x ∈ rest -> m <> max -> refused x
}.

Lemma drain_buffer_drained d max l n c m rest c' :
  drain_buffer process d max n l c = Ok ((m, rest), c') -> drained max n l m rest.
Proof.
  revert n c m rest c'. induction l as [|x l IH]; intros n c m rest c'; cbn [drain_buffer].
  - intros [[= <- <-] _]%ret_Ok. split; [done|simpl; lia|done|done|]. by intros x ?%elem_of_nil.
  - destruct (Z.eqb_spec n max) as [->|Hne].
    { intros [[= <- <-] _]%ret_Ok. split; [done|lia|done|done|]. by intros y _ ?. }
    intros (b & c1 & Hx & H)%bind_Ok. destruct b.
    + apply bind_Ok in H as (u & c2 & _ & [Ho Hc Hl _ Ht]%IH).
      split; [by constructor|cbn [length]; lia|lia|done|done].
    + apply bind_Ok in H as ([k r] & c2 & [Ho Hc Hl _ Ht]%IH & [[= <- <-] _]%ret_Ok).
      split; [by constructor|cbn [length]; lia|lia|done|].
      intros y [->|?]%elem_of_cons ?; [by exists c, c1|by apply Ht].
Qed.
End drain.

(** ** A cycle *)

Section cycle.
Context {T : Type} {CM : CoherenceManager T} {ML : ManagerLaws T} {core : SSTCore}.
Abbreviation St := (Cache T).

(** What a cycle does to the buffers and the clock: [n] retried events are
    taken, then new ones up to [m] in all. *)
Record ticked (c : St) (b : bool) (c' : St) (n m : Z) (kept : list (option EventPtr))
    (waiting : list EventPtr) : Prop := {
  tk_retries : drained (process_retry (S := T)) (maxRequestsPerCycle_ c) 0 (retryBuffer_ c) n kept;
  tk_events : drained (process_new (S := T)) (maxRequestsPerCycle_ c) n (eventBuffer_ c) m waiting;
  tk_kept : exists fresh, retryBuffer_ c' = kept ++ fresh;
  tk_waiting : eventBuffer_ c' = waiting;
  tk_prefetches : prefetchBuffer_ c' = [];
  tk_stops : b = true -> eventBuffer_ c' = [] /\ retryBuffer_ c' = [] /\ clockIsOn_ c' = false /\
               Coherence.retryBuffer_ (ctrl_of c') = [] /\ checkIdle (ctrl_of c') = true;
  tk_runs : b = false -> clockIsOn_ c' = clockIsOn_ c
}.

Lemma frame_tick_start : steps frame (modify (fun c : St => c <| timestamp_ ::= fun t => u64 (t + 1) |>)).
Proof. apply frame_modify. by split. Qed.
Lemma frame_tick_clear : steps frame
  (modify (fun c : St => c <| bankStatus_ ::= fmap (fun _ => false) |> <| addrsThisCycle_ := ∅ |>)).
Proof. apply frame_modify. by split. Qed.

Lemma clockTick_ticked idle c b c' :
  clockTick idle c = Ok (b, c') -> exists n m kept waiting, ticked c b c' n m kept waiting.
Proof.
  unfold clockTick. intros ([] & c1 & F1%frame_tick_start & H)%bind_Ok.
  apply bind_Ok in H as (idle1 & c2 & F2%frame_on_ctrl & H).
  apply bind_Ok in H as (? & ? & [= <- <-] & H).
  apply bind_Ok in H as ([] & c3 & F3%frame_stat & H).
  apply bind_Ok in H as ([] & c4 & F4%frame_tick_clear & H).
  assert (frame c c2) as F02 by (by transitivity c1).
  assert (frame c c4) as F04 by (transitivity c3; [by transitivity c2|done]).
  apply bind_Ok in H as ([n kept] & c5 & D1 & H).
  assert (frame c c5) as F05.
  { transitivity c4; [done|]. by apply frame_drain in D1; [|apply frame_retry]. }
  apply bind_Ok in H as ([] & c6 & [= <-] & H).
  apply bind_Ok in H as ([m waiting] & c7 & D2 & H).
  pose proof D2 as F7. apply frame_drain in F7; [|intros; apply frame_processEvent].
  apply bind_Ok in H as ([] & c8 & [= <-] & H).
  apply bind_Ok in H as (k & c9 & F9%frame_drain_prefetches & H).
  apply bind_Ok in H as ([] & c10 & [= <-] & H).
  apply bind_Ok in H as ([] & c11 & H11 & H).
  apply bind_Ok in H as (? & ? & [= <- <-] & H).
  apply drain_buffer_drained in D1, D2.
  rewrite (fr_retries _ _ F02), (fr_max _ _ F02) in D1. rewrite (fr_events _ _ F02), (fr_max _ _ F02) in D2.
  change (eventBuffer_ (c5 <| retryBuffer_ := kept |>)) with (eventBuffer_ c5) in D2.
  exists n, m, kept, waiting.
  assert (frame (c9 <| prefetchBuffer_ := [] |> <| retryBuffer_ ::= fun l => l ++ Coherence.retryBuffer_ (ctrl_of c9) |>) c11)
    as F11 by (by apply frame_on_ctrl in H11).
  assert (Coherence.retryBuffer_ (ctrl_of c11) = []) as Hclear.
  { injection H11 as <-. unfold ctrl_of.
    change (Coherence.retryBuffer_ (cm_ctrl (cm_set_ctrl ((cm_ctrl (mgr c9)) <| Coherence.retryBuffer_ := [] |>) (mgr c9))) = []).
    by rewrite cm_get_set. }
  assert (exists fresh, retryBuffer_ c11 = kept ++ fresh) as Hkept.
  { exists (Coherence.retryBuffer_ (ctrl_of c9)). rewrite (fr_retries _ _ F11).
    change (retryBuffer_ c9 ++ Coherence.retryBuffer_ (ctrl_of c9) = kept ++ Coherence.retryBuffer_ (ctrl_of c9)).
    f_equal. transitivity (retryBuffer_ c7); [exact (fr_retries _ _ F9)|exact (fr_retries _ _ F7)]. }
  assert (eventBuffer_ c11 = waiting) as Hwaiting.
  { rewrite (fr_events _ _ F11). exact (fr_events _ _ F9). }
  assert (clockIsOn_ c11 = clockIsOn_ c) as Hon.
  { rewrite (fr_clock _ _ F11), <- (fr_clock _ _ F05). 
    transitivity (clockIsOn_ c7); [exact (fr_clock _ _ F9)|exact (fr_clock _ _ F7)]. }
  pose proof (fr_prefetches _ _ F11 : prefetchBuffer_ c11 = []) as Hpref.
  destruct (bool_decide_reflect (eventBuffer_ c11 = [])) as [He|];
    [destruct (bool_decide_reflect (retryBuffer_ c11 = [])) as [Hr|];
      [destruct (checkIdle (ctrl_of c11)) eqn:Hi; [destruct (idle1 && idle)|rewrite andb_false_r in H]|]|];
    cbn [andb] in H.
  2-5: apply ret_Ok in H as [<- <-]; by split.
  apply bind_Ok in H as ([] & c12 & [= <-] & [= <- <-]). by split.
Qed.

(** A cycle takes at most [max_requests_per_cycle] events out of the retry and
    event buffers together (a negative limit is none), out of order only past
    events that were refused: what stays keeps its order in front of the new
    retries, and if the limit was not reached, each event that stays was offered to
    the manager and refused. No prefetch survives its cycle. *)
Theorem clockTick_bandwidth idle c b c' :
  clockTick idle c = Ok (b, c') ->
  exists kept fresh,
    retryBuffer_ c' = kept ++ fresh /\ kept `sublist_of` retryBuffer_ c /\
    eventBuffer_ c' `sublist_of` eventBuffer_ c /\ prefetchBuffer_ c' = [] /\
    let served := Z.of_nat (length (retryBuffer_ c)) - Z.of_nat (length kept) +
                  (Z.of_nat (length (eventBuffer_ c)) - Z.of_nat (length (eventBuffer_ c'))) in
    (0 <= maxRequestsPerCycle_ c -> served <= maxRequestsPerCycle_ c) /\
    (served <> maxRequestsPerCycle_ c ->
       (forall o, o ∈ kept -> refused process_retry o) /\
       (forall p, p ∈ eventBuffer_ c' -> refused process_new p)).
Proof.
  intros (n & m & kept & waiting & [[] [] [fresh Hkept] Hwaiting Hp _ _])%clockTick_ticked.
  exists kept, fresh. rewrite Hwaiting. do 4 (split; [done|]). cbv zeta. split; [lia|].
  intros Hne. split; intros x Hx; [|apply dr_tried1; [done|lia]].
  apply dr_tried0; [done|]. intros Hn. specialize (dr_full1 Hn). lia.
Qed.

(** ** The clock *)

(** Nothing waits in the cache. *)
Record at_rest (c : St) : Prop := {
  ar_events : eventBuffer_ c = [];
  ar_retries : retryBuffer_ c = [];
  ar_prefetches : prefetchBuffer_ c = [];
  ar_fresh_retries : Coherence.retryBuffer_ (ctrl_of c) = [];
  ar_idle : checkIdle (ctrl_of c) = true
}.

(** What can happen to a cache: an event or a prefetch arrives, the clock ticks
    while it is on, the timeout is checked, or the owners of events create and
    change events. *)
Inductive cache_step (c c' : St) : Prop :=
| step_event time p : handleEvent time p c = Ok (tt, c') -> cache_step c c'
| step_prefetch time p : processPrefetchEvent time p c = Ok (tt, c') -> cache_step c c'
| step_tick idle b : clockIsOn_ c = true -> clockTick idle c = Ok (b, c') -> cache_step c c'
| step_timeout to_ns curTime b : timeoutWakeup to_ns curTime c = Ok (b, c') -> cache_step c c'
| step_owners heap fresh :
    c' = c <| mgr ::= cm_set_ctrl ((ctrl_of c) <| heap_ := heap |> <| fresh_ := fresh |>) |> ->
    cache_step c c'.

Lemma turnClockOn_on time c u c' : turnClockOn time c = Ok (u, c') -> clockIsOn_ c' = true.
Proof. unfold turnClockOn. intros ([] & c1 & _ & (ts & c2 & _ & ([] & c3 & _ & [= <- <-])%bind_Ok)%bind_Ok)%bind_Ok. done. Qed.

Lemma wake_on time c u c' :
  when (negb (clockIsOn_ c)) (turnClockOn time) c = Ok (u, c') -> clockIsOn_ c' = true.
Proof.
  destruct (clockIsOn_ c) eqn:E; cbn [negb when]; [by intros [_ <-]%ret_Ok|]. apply turnClockOn_on.
Qed.

(** Computations that leave the clock as it is. *)
Lemma clock_kept {A} (m : M St A) c x c' :
  steps (fun c c' : St => clockIsOn_ c' = clockIsOn_ c) m -> m c = Ok (x, c') -> clockIsOn_ c' = clockIsOn_ c.
Proof. intros H. apply H. Qed.
Lemma frame_clock {A} (m : M St A) :
  steps frame m -> steps (fun c c' : St => clockIsOn_ c' = clockIsOn_ c) m.
Proof. intros Hm. eapply steps_mono; [exact Hm|]. intros ? ? Hfr. exact (fr_clock _ _ Hfr). Qed.
Ltac clock_walk :=
  pose proof (fun p => frame_clock _ (frame_event_at p)); pose proof (fun s => frame_clock _ (frame_stat s));
  pose proof (fun A (m : M Ctrl A) => frame_clock _ (frame_on_ctrl m));
  repeat first
    [ apply steps_modify; reflexivity
    | apply steps_bind; [apply _| |intros ?]
    | apply steps_when; [apply _|]
    | progress steps_walk ].

Lemma handleEvent_on time p c c' : handleEvent time p c = Ok (tt, c') -> clockIsOn_ c' = true.
Proof.
  unfold handleEvent. intros (on & c0 & [= <- <-] & H)%bind_Ok.
  apply bind_Ok in H as (u & c1 & Hon%wake_on & H). rewrite <- Hon. clear Hon.
  eapply clock_kept; [|exact H]. clock_walk.
Qed.

Lemma processPrefetchEvent_on time p c c' :
  processPrefetchEvent time p c = Ok (tt, c') -> clockIsOn_ c' = true.
Proof.
  unfold processPrefetchEvent. intros (e & c0 & _ & H)%bind_Ok.
  apply bind_Ok in H as (? & ? & [= <- <-] & H).
  apply bind_Ok in H as ([] & c1 & Hc1%frame_on_ctrl & H).
  apply bind_Ok in H as (u & c2 & H2 & H). rewrite <- (fr_clock _ _ Hc1) in H2.
  apply wake_on in H2. rewrite <- H2. eapply clock_kept; [|exact H]. clock_walk.
Qed.

Lemma timeoutWakeup_same to_ns t c b c' : timeoutWakeup to_ns t c = Ok (b, c') -> c' = c.
Proof.
  unfold timeoutWakeup, checkTimeout. intros ([] & c1 & H & [= _ <-])%bind_Ok.
  apply bind_Ok in H as (? & ? & [= <- <-] & H).
  destruct (getOldestEntry _); [destruct (_ <? _)|]; try discriminate H; by apply ret_Ok in H as [_ ->].
Qed.

(** C35. No event is stranded: whatever events arrive and whenever the clock ticks,
    a cache whose clock has stopped has empty event, retry and prefetch buffers, no
    retry left with its manager, and empty outgoing queues. *)
Theorem stopped_clock_at_rest c0 c :
  clockIsOn_ c0 = true -> rtc cache_step c0 c -> clockIsOn_ c = false -> at_rest c.
Proof.
  intros H0 Hr. assert (clockIsOn_ c = false -> at_rest c) as Hi; [|done].
  assert (clockIsOn_ c0 = false -> at_rest c0) as H by (by rewrite H0). clear H0.
  induction Hr as [c|c1 c2 c3 Hs _ IH]; [done|]. apply IH. clear IH. destruct Hs as
    [time p Hs|time p Hs|idle b Hon Hs|f t b Hs|heap fr ->].
  - by rewrite (handleEvent_on _ _ _ _ Hs).
  - by rewrite (processPrefetchEvent_on _ _ _ _ Hs).
  - apply clockTick_ticked in Hs as (n & m & kept & waiting & [_ _ _ _ Hp Hstop Hrun]).
    destruct b; [|by rewrite (Hrun eq_refl), Hon]. intros _.
    destruct (Hstop eq_refl) as (? & ? & _ & ? & ?). by split.
  - by apply timeoutWakeup_same in Hs as ->.
  - intros Hoff. destruct (H Hoff) as [? ? ? Hc Hi]. split; [done..| |].
    + unfold ctrl_of. change (Coherence.retryBuffer_ (cm_ctrl (cm_set_ctrl
        ((ctrl_of c1) <| heap_ := heap |> <| fresh_ := fr |>) (mgr c1))) = []). by rewrite cm_get_set.
    + unfold ctrl_of. change (checkIdle (cm_ctrl (cm_set_ctrl
        ((ctrl_of c1) <| heap_ := heap |> <| fresh_ := fr |>) (mgr c1))) = true). by rewrite cm_get_set.
Qed.
End cycle.

(** ** One access per line and cycle *)

Section arbitration.
Context {T : Type} {CM : CoherenceManager T} {ML : ManagerLaws T}.
Abbreviation St := (Cache T).
#[local] Instance arbitration_virtuals : Virtuals := cm_virtuals.

(** The event as [processEvent] looks at it, and whether the manager serves it. *)
Definition seen (c : St) (e : MemEvent) : MemEvent :=
  if allNoncacheableRequests_ c then setFlag F_NONCACHEABLE e else e.
Definition cacheable (c : St) (p : EventPtr) (e : MemEvent) : Prop :=
  heap_ (ctrl_of c) !! p = Some e /\ is_noncacheable (seen c e) = Ok false /\ dispatchable (cmd_ e) = true.

(** The cycle's access to [a], and to its bank, is taken. *)
Definition reserved (a : Z) (c : St) : Prop :=
  a ∈ addrsThisCycle_ c /\
  (banked_ c = true -> exists bank, cm_getBank a (mgr c) = Ok bank /\ at_index (bankStatus_ c) bank = Ok true).

Definition with_heap (f : gmap N MemEvent -> gmap N MemEvent) (c : St) : St :=
  c <| mgr ::= cm_set_ctrl ((ctrl_of c) <| heap_ ::= f |>) |>.

Lemma event_at_Ok p c e c' :
  event_at p c = Ok (e, c') <-> heap_ (ctrl_of c) !! p = Some e /\ c' = c.
Proof.
  unfold event_at, on_ctrl, on_mgr, zoom, deref, getsR, ctrl_of.
  destruct (heap_ (cm_ctrl (mgr c)) !! p) as [e'|]; cbn [of_option]; [|split; [done|by intros []]].
  rewrite cm_set_get. destruct c. naive_solver.
Qed.
Lemma set_event_run p e c :
  on_ctrl (set_event p e) c = Ok (tt, with_heap <[p := e]> c).
Proof. done. Qed.
Lemma with_heap_bank a f c : cm_getBank a (mgr (with_heap f c)) = cm_getBank a (mgr c).
Proof. apply cm_bank_ctrl. Qed.

Lemma arbitrate_reserved a c :
  reserved a c -> exists l, arbitrateAccess a c = Ok (false, c <| cstats_ := l |>).
Proof.
  intros [Ha Hb]. unfold arbitrateAccess, gets, mbind, M_bind. destruct (banked_ c) eqn:E; cbn [negb].
  - destruct (Hb eq_refl) as (bank & Hbank & Hbusy). unfold getsR. rewrite Hbank, Hbusy. by eexists.
  - exists (cstats_ c). rewrite bool_decide_eq_true_2 by done. by destruct c.
Qed.

Lemma arbitrate_mgr a c b c' : arbitrateAccess a c = Ok (b, c') -> exists l, c' = c <| cstats_ := l |>.
Proof.
  unfold arbitrateAccess. intros (? & ? & [= <- <-] & H)%bind_Ok.
  destruct (negb (banked_ c)); [apply ret_Ok in H as [_ <-]; exists (cstats_ c); by destruct c|].
  apply bind_Ok in H as (bank & ? & [_ ->]%getsR_Ok & H).
  apply bind_Ok in H as (busy & ? & [_ ->]%getsR_Ok & H).
  destruct busy; [apply bind_Ok in H as ([] & ? & [= <-] & [= _ <-])|apply ret_Ok in H as [_ <-]];
    [by eexists|exists (cstats_ c); by destruct c].
Qed.

Lemma updateAccess_reserved a c u c' : updateAccessStatus a c = Ok (u, c') -> reserved a c'.
Proof.
  unfold updateAccessStatus. intros ([] & c1 & [= <-] & H)%bind_Ok.
  apply bind_Ok in H as (? & ? & [= <- <-] & H).
  set (c1 := c <| addrsThisCycle_ ::= _ |>) in H. change (banked_ c1) with (banked_ c) in H.
  destruct (banked_ c) eqn:E.
  - apply bind_Ok in H as (bank & ? & [Hb ->]%getsR_Ok & H).
    apply bind_Ok in H as (l & ? & [[Hr ->]%set_index_Ok ->]%getsR_Ok & [= _ <-]).
    split; [change (a ∈ ({[a]} ∪ addrsThisCycle_ c : gset Z)); set_solver|]. intros _. exists bank.
    split; [done|]. apply at_index_Ok. split; [lia|].
    change (bankStatus_ c1) with (bankStatus_ c). apply list_lookup_insert_eq. unfold c1 in Hr. simpl in Hr. lia.
  - apply ret_Ok in H as [_ <-]. split; [change (a ∈ ({[a]} ∪ addrsThisCycle_ c : gset Z)); set_solver|].
    change (banked_ c1) with (banked_ c). by rewrite E.
Qed.

Lemma updateAccess_keeps a b c u c' :
  updateAccessStatus b c = Ok (u, c') -> reserved a c -> reserved a c'.
Proof.
  unfold updateAccessStatus. intros ([] & c1 & [= <-] & H)%bind_Ok [Ha Hbusy].
  apply bind_Ok in H as (? & ? & [= <- <-] & H).
  set (c1 := c <| addrsThisCycle_ ::= _ |>) in H. change (banked_ c1) with (banked_ c) in H.
  destruct (banked_ c) eqn:E.
  - destruct (Hbusy eq_refl) as (x & Hx & [? Hbx]%at_index_Ok).
    apply bind_Ok in H as (bank & ? & [Hb ->]%getsR_Ok & H).
    apply bind_Ok in H as (l & ? & [[Hr ->]%set_index_Ok ->]%getsR_Ok & [= _ <-]).
    split; [change (a ∈ ({[b]} ∪ addrsThisCycle_ c : gset Z)); set_solver|]. intros _. exists x. split; [done|].
    apply at_index_Ok. split; [done|].
    change (<[Z.to_nat bank := true]> (bankStatus_ c) !! Z.to_nat x = Some true).
    destruct (decide (Z.to_nat bank = Z.to_nat x)) as [->|].
    + apply list_lookup_insert_eq. exact (lookup_lt_Some _ _ _ Hbx).
    + by rewrite list_lookup_insert_ne.
  - apply ret_Ok in H as [_ <-]. split; [change (a ∈ ({[b]} ∪ addrsThisCycle_ c : gset Z)); set_solver|].
    change (banked_ c1) with (banked_ c). by rewrite E.
Qed.

Definition keeps_reserved (a : Z) : relation St := fun c c' => reserved a c -> reserved a c'.
#[local] Instance keeps_reserved_preorder a : PreOrder (keeps_reserved a).
Proof. apply (invariant_preorder (reserved a)). Qed.

Lemma keeps_on_mgr {A} a (m : M T A) :
  steps (fun s s' => cm_getBank a s' = cm_getBank a s) m -> steps (keeps_reserved a) (on_mgr m).
Proof.
  intros H. eapply steps_zoom; [exact H|]. intros c t Ht [Ha Hb]. split; [exact Ha|].
  intros Hon. destruct (Hb Hon) as (bank & Hbank & ?). exists bank. split; [|done].
  change (cm_getBank a t = Ok bank). by rewrite Ht.
Qed.
Lemma keeps_on_ctrl {A} a (m : M Ctrl A) : steps (keeps_reserved a) (on_ctrl m).
Proof.
  apply keeps_on_mgr. eapply (steps_zoom _ _ _ (fun _ _ => True)); [done|]. intros. apply cm_bank_ctrl.
Qed.
Lemma keeps_other a (f : St -> St) :
  (forall c, addrsThisCycle_ (f c) = addrsThisCycle_ c /\ banked_ (f c) = banked_ c /\
             bankStatus_ (f c) = bankStatus_ c /\ mgr (f c) = mgr c) ->
  steps (keeps_reserved a) (modify f).
Proof.
  intros Hf. apply steps_modify. intros c [Ha Hb]. destruct (Hf c) as (E1 & E2 & E3 & E4).
  split; [by rewrite E1|]. by rewrite E2, E3, E4.
Qed.
Lemma keeps_arbitrate a b : steps (keeps_reserved a) (arbitrateAccess b).
Proof. intros c r c' [l ->]%arbitrate_mgr H. exact H. Qed.
Lemma keeps_update a b : steps (keeps_reserved a) (updateAccessStatus b).
Proof. intros c r c' H Hr. exact (updateAccess_keeps a b c r c' H Hr). Qed.
#[local] Hint Resolve keeps_on_ctrl keeps_arbitrate keeps_update : steps.
#[local] Hint Extern 2 (steps (keeps_reserved _) (modify _)) =>
  apply keeps_other; intros; repeat case_match; done : steps.

Lemma keeps_processNoncacheable a p : steps (keeps_reserved a) (processNoncacheable p).
Proof. unfold processNoncacheable, event_at, fatal. steps_walk. Qed.
Lemma keeps_processEvent a p i : steps (keeps_reserved a) (processEvent p i).
Proof.
  pose proof (keeps_processNoncacheable a). pose proof (fun cmd p i => keeps_on_mgr a _ (cm_bank_handle a cmd p i)).
  unfold processEvent, event_at, fatal. steps_walk.
Qed.

Lemma seen_fields c e :
  baseAddr_ (seen c e) = baseAddr_ e /\ cmd_ (seen c e) = cmd_ e.
Proof. unfold seen. by destruct (allNoncacheableRequests_ c). Qed.

(** [processEvent] of a cacheable event, up to the arbitration. *)
Lemma processEvent_cacheable p i c e :
  cacheable c p e ->
  processEvent p i c =
    (free ← arbitrateAccess (baseAddr_ e);
     if negb free then mret false
     else accepted ← on_mgr (cm_handle (cmd_ e) p i);
          when accepted (updateAccessStatus (baseAddr_ e)) ;; mret accepted) (with_heap <[p := seen c e]> c).
Proof.
  intros (He & Hnc & Hd). unfold processEvent.
  rewrite (bind_step (gets _) _ c c c) by done.
  rewrite (bind_step _ _ _ _ _ (proj2 (event_at_Ok p c e c) (conj He eq_refl))).
  change (if allNoncacheableRequests_ c then setFlag F_NONCACHEABLE e else e) with (seen c e).
  cbv zeta. rewrite (bind_step _ _ _ _ _ (set_event_run p (seen c e) c)).
  rewrite (bind_step _ _ _ false (with_heap <[p:=seen c e]> c)) by (unfold getsR; by rewrite Hnc).
  destruct (seen_fields c e) as [-> ->]. by rewrite Hd.
Qed.

Lemma processEvent_reserves p i c c1 e :
  cacheable c p e -> processEvent p i c = Ok (true, c1) -> reserved (baseAddr_ e) c1.
Proof.
  intros Hc. rewrite (processEvent_cacheable p i c e Hc).
  intros (free & c2 & _ & H)%bind_Ok. destruct free; cbn [negb] in H; [|by apply ret_Ok in H as [? _]].
  apply bind_Ok in H as (acc & c3 & _ & H). apply bind_Ok in H as (u & c4 & H & [-> ->]%ret_Ok).
  by eapply updateAccess_reserved.
Qed.

Definition event_step (c c' : St) : Prop := exists p i r, processEvent p i c = Ok (r, c').

(** Two addresses that compete for one access in a cycle: the lines of one bank in
    a banked cache, and only a line with itself in a cache without banks. *)
Definition same_place (c : St) (a b : Z) : Prop :=
  if banked_ c then exists bank, cm_getBank a (mgr c) = Ok bank /\ cm_getBank b (mgr c) = Ok bank
  else a = b.

Lemma same_place_reserved c a b : same_place c a b -> reserved a c ->
  exists l, arbitrateAccess b c = Ok (false, c <| cstats_ := l |>).
Proof.
  unfold same_place. intros Hp Hr. destruct (banked_ c) eqn:E; [|subst b; by apply arbitrate_reserved].
  destruct Hr as [_ Hb].
  destruct Hp as (bank & Hab & Hbb), (Hb E) as (x & Hx & Hbusy). rewrite Hx in Hab. injection Hab as ->.
  unfold arbitrateAccess, gets, getsR, mbind, M_bind. rewrite E; cbn [negb]. rewrite Hbb, Hbusy. by eexists.
Qed.

(** C36. One access per line and cycle, and with banks one access per bank and
    cycle: once a cacheable event was accepted, and whatever other events the cycle
    processes after it, a second cacheable event for the same line (in a banked
    cache: for any line of the same bank) is refused before it reaches the manager,
    which only finds the event's flag updated. *)
Theorem line_served_once p i c e c1 c2 q j e' :
  cacheable c p e -> processEvent p i c = Ok (true, c1) ->
  rtc event_step c1 c2 -> cacheable c2 q e' -> same_place c2 (baseAddr_ e) (baseAddr_ e') ->
  exists l, processEvent q j c2 = Ok (false, (with_heap <[q := seen c2 e']> c2) <| cstats_ := l |>).
Proof.
  intros Hc Hp%(processEvent_reserves _ _ _ _ _ Hc) Hr Hc' Ha.
  assert (reserved (baseAddr_ e) c2) as [Hin Hbank].
  { clear -Hp Hr ML. induction Hr as [|? ? ? (x & k & r & Hs) _ IH]; [done|].
    apply IH. by apply (keeps_processEvent _ _ _ _ _ _ Hs). }
  rewrite (processEvent_cacheable q j c2 e' Hc').
  destruct (same_place_reserved (with_heap <[q:=seen c2 e']> c2) (baseAddr_ e) (baseAddr_ e')) as [l El].
  { unfold same_place. by rewrite !with_heap_bank. }
  { split; [exact Hin|]. intros Hon. destruct (Hbank Hon) as (bank & Hb & ?). exists bank.
    split; [|done]. by rewrite with_heap_bank. }
  exists l. by rewrite (bind_step _ _ _ _ _ El).
Qed.
End arbitration.

(** ** Invariants of the manager *)

Section manager_invariant.
Context {T : Type} {CM : CoherenceManager T} {ML : ManagerLaws T} {core : SSTCore}.
Context (I : T -> Prop) {MI : ManagerInvariant I}.
Abbreviation St := (Cache T).
#[local] Instance invariant_virtuals : Virtuals := cm_virtuals.

Definition keeps_mgr : relation St := fun c c' => I (mgr c) -> I (mgr c').
#[local] Instance keeps_mgr_preorder : PreOrder keeps_mgr.
Proof. apply (invariant_preorder (fun c => I (mgr c))). Qed.
Abbreviation same_mshr := (fun c c' : Ctrl => mshr_ c' = mshr_ c).

Lemma inv_on_ctrl {A} (m : M Ctrl A) : steps same_mshr m -> steps keeps_mgr (on_ctrl m).
Proof.
  intros H. eapply (steps_zoom _ _ _ (fun s s' => I s -> I s')).
  - eapply steps_zoom; [exact H|]. intros s c. apply mi_ctrl.
  - intros c t Ht. exact Ht.
Qed.
Lemma inv_modify (f : St -> St) : (forall c, mgr (f c) = mgr c) -> steps keeps_mgr (modify f).
Proof. intros H. apply steps_modify. intros c. unfold keeps_mgr. by rewrite H. Qed.
Lemma inv_handle cmd p b : steps keeps_mgr (on_mgr (cm_handle cmd p b)).
Proof. eapply steps_zoom; [apply mi_handle|]. intros c t Ht. exact Ht. Qed.
#[local] Hint Extern 2 (steps keeps_mgr (modify _)) =>
  apply inv_modify; intros; repeat case_match; reflexivity : steps.

(** The operations of the base controller the cache calls. *)
Lemma mshr_modify (f : Ctrl -> Ctrl) : (forall c, mshr_ (f c) = mshr_ c) -> steps same_mshr (modify f).
Proof. intros H. by apply steps_modify. Qed.
#[local] Hint Extern 2 (steps (fun c c' : Ctrl => mshr_ c' = mshr_ c) (modify _)) =>
  apply mshr_modify; intros; repeat case_match; reflexivity : steps.
Lemma mshr_deref p : steps same_mshr (deref p).
Proof. apply steps_getsR, _. Qed.
#[local] Hint Resolve mshr_deref cm_mshr_forwardByAddress cm_mshr_forwardByDestination
  cm_mshr_recordLatency : steps.
#[local] Hint Extern 2 (steps _ getc) => apply steps_gets; apply _ : steps.
Lemma mshr_set_event p e : steps same_mshr (set_event p e).
Proof. unfold set_event. steps_walk. Qed.
Lemma mshr_record p : steps same_mshr (recordIncomingRequest p).
Proof. unfold recordIncomingRequest. steps_walk. Qed.
Lemma mshr_remove id : steps same_mshr (removeRequestRecord id).
Proof. unfold removeRequestRecord. steps_walk. Qed.
Lemma mshr_finish id : steps same_mshr (finish_request id).
Proof. unfold finish_request. steps_walk. Qed.
Lemma mshr_send r : steps same_mshr (send_down r) /\ steps same_mshr (send_up r).
Proof. unfold send_down, send_up. split; steps_walk. Qed.
#[local] Hint Resolve mshr_set_event mshr_record mshr_remove mshr_finish : steps.
Lemma mshr_outgoing : steps same_mshr sendOutgoingEvents.
Proof.
  unfold sendOutgoingEvents. pose proof (fun r => proj1 (mshr_send r)). pose proof (fun r => proj2 (mshr_send r)).
  steps_walk.
Qed.
Lemma mshr_by_address p : steps same_mshr (forwardByAddress_next p).
Proof. unfold forwardByAddress_next. steps_walk. Qed.
Lemma mshr_by_destination p : steps same_mshr (forwardByDestination_next p).
Proof. unfold forwardByDestination_next. steps_walk. Qed.
Lemma mshr_clear : steps same_mshr clearRetryBuffer.
Proof. unfold clearRetryBuffer. steps_walk. Qed.
Lemma mshr_timestamp ts : steps same_mshr (modify (fun c => c <| Coherence.timestamp_ := ts |>)).
Proof. steps_walk. Qed.
#[local] Hint Resolve mshr_outgoing mshr_by_address mshr_by_destination mshr_clear mshr_timestamp : steps.
#[local] Hint Resolve inv_on_ctrl inv_handle : steps.

Lemma inv_event_at p : steps keeps_mgr (event_at p).
Proof. unfold event_at. steps_walk. Qed.
Lemma inv_stat s : steps keeps_mgr (cache_stat s).
Proof. unfold cache_stat. steps_walk. Qed.
#[local] Hint Resolve inv_event_at inv_stat : steps.
Lemma inv_arbitrate a : steps keeps_mgr (arbitrateAccess a).
Proof. unfold arbitrateAccess. steps_walk. Qed.
Lemma inv_update a : steps keeps_mgr (updateAccessStatus a).
Proof. unfold updateAccessStatus. steps_walk. Qed.
Lemma inv_noncacheable p : steps keeps_mgr (processNoncacheable p).
Proof. unfold processNoncacheable, fatal. steps_walk. Qed.
Lemma inv_turnClockOn t : steps keeps_mgr (turnClockOn t).
Proof. unfold turnClockOn. steps_walk. Qed.
#[local] Hint Resolve inv_arbitrate inv_update inv_noncacheable inv_turnClockOn : steps.
Lemma inv_processEvent p b : steps keeps_mgr (processEvent p b).
Proof. unfold processEvent, fatal. steps_walk. Qed.
#[local] Hint Resolve inv_processEvent : steps.
Lemma inv_drain {A} (process : A -> M St bool) d max n l :
  (forall x, steps keeps_mgr (process x)) -> steps keeps_mgr (drain_buffer process d max n l).
Proof.
  intros H. revert n. induction l as [|x l IH]; intros n; cbn [drain_buffer]; [apply steps_ret, _|].
  pose proof IH. steps_walk.
Qed.
Lemma inv_retry o : steps keeps_mgr (process_retry o).
Proof. unfold process_retry, null_deref, undefined. steps_walk. Qed.
Lemma inv_prefetches max n l : steps keeps_mgr (drain_prefetches max n l).
Proof.
  revert n. induction l as [|p l IH]; intros n; cbn [drain_prefetches]; [apply steps_ret, _|].
  pose proof IH. steps_walk.
Qed.
Lemma inv_handleEvent t p : steps keeps_mgr (handleEvent t p).
Proof. unfold handleEvent. steps_walk. Qed.
Lemma inv_prefetch t p : steps keeps_mgr (processPrefetchEvent t p).
Proof. unfold processPrefetchEvent. steps_walk. Qed.
Lemma inv_clockTick b : steps keeps_mgr (clockTick b).
Proof.
  unfold clockTick, turnClockOff.
  pose proof (fun max n => inv_drain process_retry CacheStat.RetryEvents max n).
  pose proof (fun max n => inv_drain process_new CacheStat.RecvEvents max n).
  pose proof inv_retry. pose proof (fun p => inv_processEvent p false : steps keeps_mgr (process_new p)).
  pose proof inv_prefetches. steps_walk.
Qed.

(** An invariant of the manager holds in every state of the cache. *)
Lemma cache_keeps_invariant c0 c : rtc cache_step c0 c -> I (mgr c0) -> I (mgr c).
Proof.
  induction 1 as [|c1 c2 c3 Hs _ IH]; [done|]. intros HI. apply IH. clear IH.
  destruct Hs as [time p Hs|time p Hs|idle b _ Hs|f t b Hs|heap fr ->].
  - by apply (inv_handleEvent _ _ _ _ _ Hs).
  - by apply (inv_prefetch _ _ _ _ _ Hs).
  - by apply (inv_clockTick _ _ _ _ Hs).
  - by apply timeoutWakeup_same in Hs as ->.
  - by apply mi_ctrl.
Qed.
End manager_invariant.
