(* ===== verification/L1Cache.v ===== *)
(** * L1Cache: an L1 cache, whole

    The MESI L1 manager satisfies the laws [CacheRuns] asks of a manager, so its
    theorems hold of an L1 cache; and the invariants of [L1Safety] and [Mshr] hold
    in every state of a cache built by the constructors, whatever events arrive
    and whenever its clock ticks. *)

From S2P Require Import Prelude MemTypes MemEvent Hash Replacement Lines CacheArray Mshr Coherence MesiL1.
From S2P Require Import L1Demo L1Steps L1Mshr L1Safety CacheController CacheRuns.

Section l1_cache.
Context {core : SSTCore} (linkUp linkDown : MemLink).
Context {P : Type} {HP : ReplacementPolicy P} {hash_ : HashFunction}.
Abbreviation St := (L1 P).
#[local] Instance l1_cm : CoherenceManager St := mesi_l1_manager linkUp linkDown.
Abbreviation same_mshr := (fun c c' : Ctrl => mshr_ c' = mshr_ c).

(** ** The laws *)

#[local] Hint Extern 2 (steps (fun c c' : Ctrl => mshr_ c' = mshr_ c) (modify _)) =>
  apply mshr_modify; intros; repeat case_match; reflexivity : steps.
#[local] Hint Resolve mshr_deref : steps.
#[local] Hint Extern 2 (steps _ getc) => apply steps_gets; apply _ : steps.

Lemma l1_mshr_forwardByAddress p t : steps same_mshr (MesiL1.forwardByAddress linkUp linkDown p t).
Proof.
  unfold MesiL1.forwardByAddress, base_forwardByAddress, addToOutgoingQueue, addToOutgoingQueueUp,
    addData, set_event, fatal. steps_walk.
Qed.
Lemma l1_mshr_forwardByDestination p t :
  steps same_mshr (MesiL1.forwardByDestination linkUp linkDown p t).
Proof.
  unfold MesiL1.forwardByDestination, base_forwardByDestination, addToOutgoingQueue,
    addToOutgoingQueueUp, addData, set_event, fatal. steps_walk.
Qed.
Lemma l1_mshr_recordLatency cmd ty l : steps same_mshr (MesiL1.recordLatency cmd ty l).
Proof. unfold MesiL1.recordLatency, latency_stat, addData, undefined. steps_walk. Qed.

(** Handlers keep the geometry, and with it the banks. *)
Lemma handle_keeps_geometry cmd p b :
  steps (fun s s' : St => geometry s' = geometry s) (MesiL1.handle linkUp linkDown cmd p b).
Proof.
  set (Q := fun (_ : nat) (_ _ : L1CacheLine.t) => True).
  assert (forall i, PreOrder (Q i)) as HQ by (intros; by split).
  intros s r s' H. apply (handle_linewise linkUp linkDown Q (fun _ => True)) in H as (_ & _ & Hg & _); [done|..|done].
  - by apply linewise_rules.
  - intros _. by apply linewise_writes.
Qed.

Lemma getBank_geometry (s s' : St) a :
  geometry s' = geometry s -> MesiL1.getBank a s' = MesiL1.getBank a s.
Proof.
  unfold geometry, MesiL1.getBank, CacheArray.getBank, toLineAddr. by intros [= _ _ _ -> -> -> ->].
Qed.

#[local] Instance l1_laws : ManagerLaws St.
Proof.
  split; cbn.
  - done.
  - by intros [].
  - done.
  - intros a cmd p b. eapply steps_mono; [apply handle_keeps_geometry|].
    intros s s' Hg. by apply getBank_geometry.
  - apply l1_mshr_forwardByAddress.
  - apply l1_mshr_forwardByDestination.
  - apply l1_mshr_recordLatency.
Qed.

(** ** The invariant *)

(** Well-formed lines of [sz] bytes in an array of shape [g], and an MSHR the
    operations of [Mshr] can reach with capacity [n]. *)
Definition l1_inv (sz : nat) (n : Z) (g : Z * Z * Z * Z * Z * Z * Z) (s : St) : Prop :=
  lines_wf sz s /\ geometry s = g /\ mshr_reachable n (mshr_ (cc s)).

#[local] Instance l1_invariant sz n g : ManagerInvariant (l1_inv sz n g).
Proof.
  split; cbn.
  - intros s c Hm (Hl & Hg & Hr). split_and!; [done..|]. by rewrite <- Hm in Hr.
  - intros cmd p b s r s' H (Hl & Hg & Hr).
    destruct (handle_lines linkUp linkDown sz _ _ _ _ _ _ Hl H) as [Hl' Hg'].
    split_and!; [done|by rewrite Hg'|].
    exact (handle_keeps_mshr linkUp linkDown n _ _ _ _ _ _ H Hr).
Qed.

Lemma new_lines_ok c sn pr ll banks lines assoc rmgr (s : St) :
  0 <= lines -> 0 <= Coherence.lineSize_ c ->
  new_MESIL1 c sn pr ll banks lines assoc rmgr = Ok s ->
  lines_wf (Z.to_nat (Coherence.lineSize_ c)) s /\ cc s = c.
Proof.
  intros Hn Hsz. unfold new_MESIL1, new_CacheArray.
  repeat match goal with |- context [if ?b then _ else _] => destruct b; [done|] end.
  destruct (log2Of _) as [off|]; [|done]. cbn [mbind res_bind].
  destruct (forallb _ _); [|done]. cbn [mbind res_bind]. intros [= <-]. split; [|done].
  intros i l. unfold L1Steps.lines. cbn.
  rewrite list_lookup_fmap. destruct (seqZ 0 lines !! i) as [k|] eqn:Ek; [|done].
  apply lookup_seqZ in Ek as [-> _]. intros [= <-]. split; cbn; [lia..|done|].
  by rewrite length_replicate.
Qed.

(** C1. A cache is safe from the start: whatever events it receives and however
    its clock ticks, an L1 cache put together by the constructors keeps the shape
    of its array; every line knows its index, holds a whole line of bytes and shows
    the replacement policy its state; and its MSHR is well-formed and holds no more
    than its capacity. *)
Theorem l1_cache_safe name params n c sn pr ll banks lines assoc rmgr s
    lineSize max timeout nbanks nc (cache : Cache St) :
  0 <= lines -> 0 <= Coherence.lineSize_ c ->
  new_CoherenceController name params (new_MSHR n) = Ok c ->
  new_MESIL1 c sn pr ll banks lines assoc rmgr = Ok s ->
  rtc cache_step (new_Cache s lineSize max timeout nbanks nc name) cache ->
  geometry (mgr cache) = geometry s /\
  lines_wf (Z.to_nat (Coherence.lineSize_ c)) (mgr cache) /\
  mshr_wf (mshr_ (cc (mgr cache))) /\ (0 <= n -> getSize (mshr_ (cc (mgr cache))) <= n).
Proof.
  intros Hl Hsz Hc Hs Hr.
  destruct (new_lines_ok _ _ _ _ _ _ _ _ _ Hl Hsz Hs) as [Hwf Hcc].
  assert (mshr_ c = new_MSHR n) as Hm.
  { unfold new_CoherenceController in Hc. destruct (p_access_latency_cycles params); [|done].
    cbn [of_option mbind res_bind] in Hc. repeat case_match; try done. by injection Hc as <-. }
  destruct (cache_keeps_invariant (l1_inv (Z.to_nat (Coherence.lineSize_ c)) n (geometry s)) _ _ Hr)
    as (Hwf' & Hg & Hmr).
  { split_and!; [exact Hwf|done|]. change (mshr_reachable n (mshr_ (cc s))). rewrite Hcc, Hm. apply reach_new. }
  split_and!; [done|done|..]; apply reachable_wf in Hmr as [Hmwf <-]; [done|exact (mw_max _ Hmwf)].
Qed.

(** ** Noncacheable requests *)

Lemma on_ctrl_Ok {A} (m : M Ctrl A) (c : Cache St) x c' :
  on_ctrl m c = Ok (x, c') <->
  exists t, m (ctrl_of c) = Ok (x, t) /\ c' = c <| mgr ::= cm_set_ctrl t |>.
Proof.
  unfold on_ctrl, on_mgr, zoom, ctrl_of. destruct (m (cm_ctrl (mgr c))) as [[y t]|]; [|naive_solver].
  split; [intros [= <- <-]; eauto|]. by intros (t' & [= <- <-] & ->).
Qed.

Lemma queue_insert_in heap resp q l : queue_insert heap resp q = Ok l -> resp ∈ l.
Proof.
  unfold queue_insert. destruct (heap !! r_event resp) as [e|]; [|done]. cbn [of_option mbind res_bind].
  destruct (insert_rev heap _ resp (reverse q)) as [k|] eqn:Ek; [|done]. intros [= <-].
  apply insert_rev_split in Ek as (q1 & q2 & _ & -> & _). rewrite elem_of_reverse. set_solver.
Qed.

(** An event sent to its destination waits on the link that reaches it. *)
Lemma forwardByDestination_sent p ts (c c' : Ctrl) e :
  heap_ c !! p = Some e -> MesiL1.forwardByDestination linkUp linkDown p ts c = Ok (tt, c') ->
  heap_ c' !! p = Some (e <| src_ := cachename_ c |>) /\
  exists resp, r_event resp = p /\
    resp ∈ (if isReachable linkUp (dst_ e) then outgoingEventQueueUp_ c' else outgoingEventQueueDown_ c').
Proof.
  intros He. unfold MesiL1.forwardByDestination, base_forwardByDestination.
  rewrite (bind_step _ _ _ e c) by (unfold deref, getsR; by rewrite He).
  intros ([] & c1 & [= <-] & H)%bind_Ok.
  set (c1 := c <| stats_ ::= _ |>) in H. change (heap_ c) with (heap_ c1) in He.
  rewrite (bind_step _ _ _ e c1) in H by (unfold deref, getsR; by rewrite He).
  apply bind_Ok in H as (? & ? & [= <- <-] & H). apply bind_Ok in H as ([] & c2 & [= <-] & H).
  change (dst_ (e <| src_ := cachename_ c1 |>)) with (dst_ e) in H.
  destruct (isReachable linkUp (dst_ e)); [|destruct (isReachable linkDown (dst_ e)); [|discriminate H]];
    apply bind_Ok in H as (q & ? & [Hq ->]%getsR_Ok & [= <-]);
    (split; [apply lookup_insert_eq|]; eexists; split; [|by eapply queue_insert_in]; done).
Qed.

(** A noncacheable request that wants an answer gets it: the cache remembers
    who asked, and when the response to it arrives, whatever happened to other
    requests in between, it is readdressed to the requester, queued on the link that
    reaches it, and the record is dropped. *)
Theorem noncacheable_returns p e (c c1 c2 c3 : Cache St) q r :
  heap_ (ctrl_of c) !! p = Some e -> CommandRouteByAddress (cmd_ e) = Ok true ->
  queryFlag F_NORESPONSE e = false -> noncacheableResponseDst_ c !! eventID_ e = None ->
  processNoncacheable p c = Ok (tt, c1) ->
  noncacheableResponseDst_ c2 !! eventID_ e = noncacheableResponseDst_ c1 !! eventID_ e ->
  heap_ (ctrl_of c2) !! q = Some r -> CommandRouteByAddress (cmd_ r) = Ok false ->
  responseToID_ r = eventID_ e -> processNoncacheable q c2 = Ok (tt, c3) ->
  noncacheableResponseDst_ c1 = <[eventID_ e := src_ e]> (noncacheableResponseDst_ c) /\
  noncacheableResponseDst_ c3 = delete (eventID_ e) (noncacheableResponseDst_ c2) /\
  (exists r', heap_ (ctrl_of c3) !! q = Some r' /\ dst_ r' = src_ e) /\
  exists resp, r_event resp = q /\
    resp ∈ (if isReachable linkUp (src_ e) then outgoingEventQueueUp_ (ctrl_of c3)
            else outgoingEventQueueDown_ (ctrl_of c3)).
Proof.
  intros He Hby Hresp Hnew H1 Hsame Hr Hdst Hid H2.
  assert (noncacheableResponseDst_ c1 = <[eventID_ e := src_ e]> (noncacheableResponseDst_ c)) as Ec1.
  { unfold processNoncacheable in H1. apply bind_Ok in H1 as (e' & ? & [He' ->]%event_at_Ok & H1).
    assert (e' = e) as -> by congruence. apply bind_Ok in H1 as (b & ? & [Hb ->]%getsR_Ok & H1).
    assert (b = true) as -> by congruence. rewrite Hresp in H1.
    apply bind_Ok in H1 as ([] & c' & [= <-] & (t & _ & ->)%on_ctrl_Ok). by rewrite Hnew. }
  split; [exact Ec1|]. rewrite Ec1, lookup_insert_eq in Hsame.
  unfold processNoncacheable in H2. apply bind_Ok in H2 as (r0 & ? & [Hr0 ->]%event_at_Ok & H2).
  assert (r0 = r) as -> by congruence. apply bind_Ok in H2 as (b & ? & [Hb ->]%getsR_Ok & H2).
  assert (b = false) as -> by congruence. apply bind_Ok in H2 as (? & ? & [= <- <-] & H2).
  rewrite Hid, Hsame in H2.
  apply bind_Ok in H2 as ([] & c4 & (t & [= <-] & ->)%on_ctrl_Ok & H2).
  apply bind_Ok in H2 as ([] & c5 & (t' & Hf & ->)%on_ctrl_Ok & [= <-]).
  split; [done|]. unfold forwardByDestination_next in Hf.
  apply bind_Ok in Hf as (? & ? & [= <- <-] & Hf).
  eapply forwardByDestination_sent in Hf as [Hh Hq]; [|apply lookup_insert_eq].
  split; [eexists; split; [exact Hh|done]|exact Hq].
Qed.
End l1_cache.

(** ** Examples *)

#[export] Instance demo_manager : CoherenceManager (L1 LRU.t) := mesi_l1_manager cpu_link mem_link.
#[export] Instance demo_manager_laws : ManagerLaws (L1 LRU.t) := l1_laws cpu_link mem_link.

(** A cache built by the constructors, with two lines of eight bytes. *)
Definition demo_params : CtrlParams :=
  mkCtrlParams (Some 4) None None (Some 8) (mkUnitAlgebra true 8) (mkUnitAlgebra true 0) (mkUnitAlgebra true 0).
Definition built_ctrl : Ctrl :=
  match new_CoherenceController "l1" demo_params (new_MSHR 4) with
  | Ok c => c | Err _ => demo_ctrl ∅ 0 (new_MSHR 4) end.
Definition built_l1 : L1 LRU.t :=
  match new_MESIL1 built_ctrl None None None None 2 1 (LRU.init 2 1) with
  | Ok s => s | Err _ => demo_l1 [] [] end.
Definition built_cache (max : Z) : Cache (L1 LRU.t) := new_Cache built_l1 8 max 0 0 false "l1".

(** The objects of the events [evs] exist. *)
Definition with_events (evs : list MemEvent) (c : Cache (L1 LRU.t)) : Cache (L1 LRU.t) :=
  c <| mgr ::= cm_set_ctrl ((ctrl_of c)
    <| heap_ := list_to_map (zip (N.of_nat <$> seq 0 (length evs)) evs) |>
    <| fresh_ := N.of_nat (length evs) |>) |>.

(** The state a run ends in. *)
Definition after {St A} (m : M St A) (s : St) : St := match m s with Ok (_, s') => s' | Err _ => s end.
Lemma after_run {St A} (m : M St A) s : succeeds (m s) = true -> exists a, m s = Ok (a, after m s).
Proof. unfold after. destruct (m s) as [[a s']|]; [eauto|done]. Qed.

(** Two loads of the same line arrive at a cache that takes [max] events a
    cycle, and the clock ticks. *)
Definition two_loads : list MemEvent :=
  [cpu_request 1 18 4 Command.GetS; cpu_request 2 20 4 Command.GetS].
Definition loaded (max : Z) : Cache (L1 LRU.t) :=
  after (handleEvent 5 1%N) (after (handleEvent 5 0%N) (with_events two_loads (built_cache max))).

Lemma loaded_reachable max :
  succeeds (handleEvent 5 0%N (with_events two_loads (built_cache max))) = true ->
  succeeds (handleEvent 5 1%N (after (handleEvent 5 0%N) (with_events two_loads (built_cache max)))) = true ->
  rtc cache_step (built_cache max) (loaded max).
Proof.
  intros H1 H2. eapply rtc_l; [by eapply step_owners|].
  apply after_run in H1 as [[] H1]. eapply rtc_l; [by eapply step_event|].
  apply after_run in H2 as [[] H2]. eapply rtc_l; [by eapply step_event|]. apply rtc_refl.
Qed.

(** After a tick the first load waits in the MSHR for memory. *)
Lemma l1_cache_safe_witness :
  let cache := after (clockTick true) (loaded (-1)) in
  getSize (mshr_ (cc (mgr cache))) = 1 /\ getSize (mshr_ (cc (mgr cache))) <= 4.
Proof.
  split; [by vm_compute|].
  destruct (l1_cache_safe cpu_link mem_link (P := LRU.t) "l1" demo_params 4 built_ctrl None None None None 2 1
    (LRU.init 2 1) built_l1 8 (-1) 0 0 false (after (clockTick true) (loaded (-1)))) as (_ & _ & _ & H);
    [lia|by vm_compute|by vm_compute|by vm_compute| |by apply H].
  eapply rtc_r; [by apply loaded_reachable; vm_compute|].
  destruct (after_run (clockTick true) (loaded (-1))) as [b Hb]; [by vm_compute|].
  eapply step_tick; [by vm_compute|exact Hb].
Defined.

Lemma clockTick_bandwidth_witness :
  exists b c', clockTick true (loaded 1) = Ok (b, c') /\
    2 - Z.of_nat (length (eventBuffer_ c')) <= 1 /\ prefetchBuffer_ c' = [].
Proof.
  destruct (after_run (clockTick true) (loaded 1)) as [b Hb]; [by vm_compute|].
  exists b, (after (clockTick true) (loaded 1)). split; [exact Hb|].
  apply clockTick_bandwidth in Hb as (kept & fresh & _ & Hk & _ & Hp & Hs & _).
  split; [|exact Hp]. apply sublist_length in Hk. specialize (Hs ltac:(by vm_compute)).
  change (length (eventBuffer_ (loaded 1))) with 2%nat in Hs.
  change (maxRequestsPerCycle_ (loaded 1)) with 1 in Hs. lia.
Defined.

(** An idle cache stops its clock. *)
Lemma stopped_clock_at_rest_witness : at_rest (after (clockTick true) (built_cache 1)).
Proof.
  destruct (after_run (clockTick true) (built_cache 1)) as [b Hb]; [by vm_compute|].
  apply (stopped_clock_at_rest (built_cache 1)); [done| |by vm_compute].
  apply rtc_once. eapply step_tick; [done|exact Hb].
Defined.

(** A second load of the line is refused in the cycle of the first. In the cache
    with two banks the first of two loads of different lines of one bank is served,
    and the second refused, though nothing else holds its line. *)
Definition banked_cache : Cache (L1 LRU.t) :=
  match new_MESIL1 built_ctrl None None None (Some 2) 4 1 (LRU.init 4 1) with
  | Ok s => new_Cache s 8 (-1) 0 2 false "l1" | Err _ => built_cache (-1) end.
Definition neighbours : Cache (L1 LRU.t) :=
  with_events [cpu_request 1 16 4 Command.GetS; cpu_request 2 32 4 Command.GetS] banked_cache.
Definition accepts (p : EventPtr) (c : Cache (L1 LRU.t)) : bool :=
  match processEvent p false c with Ok (b, _) => b | Err _ => false end.
Lemma accepts_run p c : accepts p c = true -> processEvent p false c = Ok (true, after (processEvent p false) c).
Proof. unfold accepts, after. by destruct (processEvent p false c) as [[[] ?]|]. Qed.

Lemma line_served_once_witness :
  (exists c', processEvent 1%N false (after (processEvent 0%N false) (loaded (-1))) = Ok (false, c')) /\
  (exists c', processEvent 1%N false (after (processEvent 0%N false) neighbours) = Ok (false, c')).
Proof.
  split.
  - destruct (line_served_once 0%N false (loaded (-1)) (cpu_request 1 18 4 Command.GetS) _ _ 1%N false
      (cpu_request 2 20 4 Command.GetS) ltac:(by repeat split; vm_compute)
      (accepts_run 0%N (loaded (-1)) ltac:(by vm_compute)) (rtc_refl _ _)
      ltac:(by repeat split; vm_compute) ltac:(by vm_compute)) as [l H].
    eexists. exact H.
  - destruct (line_served_once 0%N false neighbours (cpu_request 1 16 4 Command.GetS) _ _ 1%N false
      (cpu_request 2 32 4 Command.GetS) ltac:(by repeat split; vm_compute)
      (accepts_run 0%N neighbours ltac:(by vm_compute)) (rtc_refl _ _)
      ltac:(by repeat split; vm_compute) ltac:(vm_compute; by exists 0)) as [l H].
    eexists. exact H.
Defined.

(** A noncacheable load and its answer. *)
Definition uncached : list MemEvent :=
  [setFlag F_NONCACHEABLE (cpu_request 1 18 4 Command.GetS);
   (setFlag F_NONCACHEABLE (mem_message 9 16 [1; 2; 3; 4] Command.GetSResp)) <| responseToID_ := (1, 0) |>].
Lemma noncacheable_returns_witness :
  let c := with_events uncached (built_cache (-1)) in
  let c3 := after (processNoncacheable 1%N) (after (processNoncacheable 0%N) c) in
  exists r, heap_ (ctrl_of c3) !! 1%N = Some r /\ dst_ r = "cpu"%string.
Proof.
  cbv zeta. set (c := with_events uncached (built_cache (-1))).
  destruct (after_run (processNoncacheable 0%N) c) as [[] H1]; [by vm_compute|].
  destruct (after_run (processNoncacheable 1%N) (after (processNoncacheable 0%N) c)) as [[] H2]; [by vm_compute|].
  destruct (noncacheable_returns cpu_link mem_link 0%N (setFlag F_NONCACHEABLE (cpu_request 1 18 4 Command.GetS))
    c _ (after (processNoncacheable 0%N) c) _ 1%N ((setFlag F_NONCACHEABLE (mem_message 9 16 [1; 2; 3; 4] Command.GetSResp)) <| responseToID_ := (1, 0) |>)
    ltac:(by vm_compute) eq_refl eq_refl ltac:(by vm_compute) H1 ltac:(reflexivity) ltac:(by vm_compute)
    ltac:(by vm_compute) ltac:(by vm_compute) H2) as (_ & _ & H & _). exact H.
Defined.
