(* ===== verification/CacheInit.v ===== *)
(** * CacheInit: what the cache learns before the simulation starts

    The initialisation messages decide whether the L1 manager is the last level,
    may drop clean lines silently, and waits for or sends acknowledgements of
    writebacks; the parameters decide the latency of the MSHR. *)

From S2P Require Import Prelude MemTypes MemEvent Hash Replacement Lines CacheArray Mshr Coherence MesiL1.
From S2P Require Import L1Demo L1Cache CacheController.

Section init.
Context {core : SSTCore} (linkUp linkDown : MemLink).
Context {P : Type} {HP : ReplacementPolicy P} {hash_ : HashFunction}.
Abbreviation St := (L1 P).
#[local] Instance init_cm : CoherenceManager St := mesi_l1_manager linkUp linkDown.
Implicit Types (c : Cache St) (ic : MemEventInitCoherence).

(** ** The flags *)

Record flags := mkFlags {
  fl_lastLevel : bool; fl_silentEvict : bool; fl_writebackClean : bool; fl_recvAck : bool; fl_sendAck : bool
}.
Definition flags_of (t : Ctrl) : flags :=
  mkFlags (lastLevel_ t) (silentEvictClean_ t) (writebackCleanBlocks_ t) (recvWritebackAck_ t) (sendWritebackAck_ t).

Definition is_memory ic : bool := bool_decide (ic_type ic = Endpoint.Memory).

(** The flags after the messages of everything below, then of everything above. *)
Definition flags_below (below : list MemEventInitCoherence) (f : flags) : flags :=
  mkFlags (fl_lastLevel f && forallb is_memory below)
    (fl_silentEvict f && negb (existsb ic_tracksPresence below) &&
       negb (fl_lastLevel f && match below with ic :: _ => is_memory ic | [] => false end))
    (fl_writebackClean f || existsb (fun ic => negb (ic_inclusive ic)) below)
    (fl_recvAck f || existsb ic_sendWBAck below) (fl_sendAck f).
Definition flags_above (above : list MemEventInitCoherence) (f : flags) : flags :=
  mkFlags (fl_lastLevel f) (fl_silentEvict f) (fl_writebackClean f) (fl_recvAck f)
    (fl_sendAck f || existsb ic_recvWBAck above).

(** One message; the conditions are read off the state the earlier tests left. *)
Lemma process_flags ic source (t : Ctrl) u t' :
  processInitCoherenceEvent ic source t = Ok (u, t') ->
  flags_of t' = if source then flags_above [ic] (flags_of t) else flags_below [ic] (flags_of t).
Proof.
  unfold processInitCoherenceEvent. intros H.
  repeat apply bind_Ok in H as ([] & ? & [= <-] & H). injection H as _ <-.
  destruct t. unfold flags_below, flags_above, is_memory, flags_of. cbn.
  destruct source; cbn.
  - destruct (_ || _), (ic_recvWBAck ic); cbn; by rewrite ?orb_true_r, ?orb_false_r.
  - destruct (bool_decide _), (ic_tracksPresence ic), (ic_inclusive ic), (ic_sendWBAck ic), lastLevel_;
      cbn; rewrite ?andb_false_r, ?andb_true_r, ?orb_true_r, ?orb_false_r; done.
Qed.

Lemma flags_below_app l ic f :
  flags_below l (flags_below [ic] f) = flags_below (ic :: l) f.
Proof.
  unfold flags_below. cbn. destruct f as [ll se wb ra sa]. cbn.
  destruct ll, (is_memory ic), (ic_tracksPresence ic), (ic_inclusive ic), (ic_sendWBAck ic); cbn;
    rewrite ?andb_false_r, ?andb_true_r, ?orb_true_r, ?orb_false_r; done.
Qed.
Lemma flags_above_app l ic f :
  flags_above l (flags_above [ic] f) = flags_above (ic :: l) f.
Proof. unfold flags_above. cbn. by rewrite orb_false_r, orb_assoc. Qed.
Lemma flags_nil f : flags_below [] f = f /\ flags_above [] f = f.
Proof.
  destruct f as [ll se wb ra sa]. unfold flags_below, flags_above. cbn.
  split; f_equal; by destruct ll, se, wb, ra, sa.
Qed.

(** ** The loops *)

(** The coherence messages among those received. *)
Definition coherence_of (relevant : MemEventInit -> bool) (inbox : list MemEventInit)
    : list MemEventInitCoherence :=
  omap (fun e => if relevant e then match as_coherence e with Ok ic => Some ic | Err _ => None end else None) inbox.
Definition from_above (e : MemEventInit) : bool :=
  bool_decide (in_cmd e = Command.NULLCMD) && bool_decide (in_initCmd e = InitCommand.Coherence).
Definition from_below (isDest : string -> bool) (e : MemEventInit) : bool :=
  bool_decide (in_cmd e = Command.NULLCMD) &&
  (isDest (in_src e) && bool_decide (in_initCmd e = InitCommand.Coherence)).

Lemma relay_same up b e c out c' : relay up b e c = Ok (out, c') -> c' = c.
Proof. by intros (? & ? & [= <- <-] & [= _ <-])%bind_Ok. Qed.

Lemma processInit_Ok e source c u c' :
  processInit e source c = Ok (u, c') ->
  exists ic, as_coherence e = Ok ic /\
    flags_of (ctrl_of c') = if source then flags_above [ic] (flags_of (ctrl_of c))
                            else flags_below [ic] (flags_of (ctrl_of c)).
Proof.
  unfold processInit. intros (ic & ? & [Hic ->]%getsR_Ok & H)%bind_Ok. exists ic. split; [done|].
  unfold on_mgr, zoom in H. cbn in H. unfold coh, zoom in H.
  destruct (processInitCoherenceEvent ic source (cc (mgr c))) as [[[] t]|] eqn:E; [|done].
  injection H as _ <-. by apply process_flags in E.
Qed.

Lemma init_up_event_flags e c out c' :
  init_up_event e c = Ok (out, c') ->
  flags_of (ctrl_of c') = flags_above (coherence_of from_above [e]) (flags_of (ctrl_of c)).
Proof.
  unfold init_up_event, coherence_of, from_above. cbn [omap list_omap].
  destruct (decide (in_cmd e = Command.NULLCMD)) as [E1|E1];
    [rewrite (bool_decide_eq_true_2 (in_cmd e = _)) by done|
     rewrite (bool_decide_eq_false_2 (in_cmd e = _)) by done].
  - destruct (decide (in_initCmd e = InitCommand.Coherence)) as [E2|E2];
      [rewrite (bool_decide_eq_true_2 (in_initCmd e = _)) by done|
       rewrite (bool_decide_eq_false_2 (in_initCmd e = _)) by done]; cbn [andb].
    + intros ([] & c1 & [= <-] & H)%bind_Ok.
      apply bind_Ok in H as ([] & c2 & (ic & Hic & Hf)%processInit_Ok & [= _ <-]). by rewrite Hic.
    + intros H. destruct (decide _); [apply relay_same in H as ->|injection H as _ <-]; by rewrite (proj2 (flags_nil _)).
  - intros ->%relay_same. by rewrite (proj2 (flags_nil _)).
Qed.

Lemma init_down_event_flags isDest e c out c' :
  init_down_event isDest e c = Ok (out, c') ->
  flags_of (ctrl_of c') = flags_below (coherence_of (from_below isDest) [e]) (flags_of (ctrl_of c)).
Proof.
  unfold init_down_event, coherence_of, from_below. cbn [omap list_omap].
  destruct (decide (in_cmd e = Command.NULLCMD)) as [E1|E1];
    [rewrite (bool_decide_eq_true_2 (in_cmd e = _)) by done|
     rewrite (bool_decide_eq_false_2 (in_cmd e = _)) by done; cbn [andb]].
  - cbn [andb]. destruct (isDest (in_src e) && bool_decide (in_initCmd e = InitCommand.Coherence)).
    + intros H. apply bind_Ok in H as ([] & c2 & (ic & Hic & Hf)%processInit_Ok & [= _ <-]). by rewrite Hic.
    + intros H. destruct (decide _); [apply relay_same in H as ->|injection H as _ <-]; by rewrite (proj1 (flags_nil _)).
  - intros [= _ <-]. by rewrite (proj1 (flags_nil _)).
Qed.

Lemma coherence_of_cons relevant e inbox :
  coherence_of relevant (e :: inbox) = coherence_of relevant [e] ++ coherence_of relevant inbox.
Proof. unfold coherence_of. cbn. by destruct (if relevant e then _ else _). Qed.

Lemma coherence_of_one relevant e :
  coherence_of relevant [e] = [] \/ exists ic, coherence_of relevant [e] = [ic].
Proof. unfold coherence_of. cbn. destruct (if relevant e then _ else _); eauto. Qed.

Lemma receive_flags relevant handle (upd : list MemEventInitCoherence -> flags -> flags) inbox c out c' :
  (forall f, upd [] f = f) -> (forall l ic f, upd l (upd [ic] f) = upd (ic :: l) f) ->
  (forall e c out c', handle e c = Ok (out, c') ->
     flags_of (ctrl_of c') = upd (coherence_of relevant [e]) (flags_of (ctrl_of c))) ->
  receive handle inbox c = Ok (out, c') ->
  flags_of (ctrl_of c') = upd (coherence_of relevant inbox) (flags_of (ctrl_of c)).
Proof.
  intros Hnil Hcons Hh. revert c out. induction inbox as [|e inbox IH]; intros c out; cbn [receive].
  { intros [= _ <-]. unfold coherence_of. cbn. by rewrite Hnil. }
  intros (o1 & c1 & H1 & H)%bind_Ok. apply bind_Ok in H as (o2 & c2 & H2 & [= _ <-]).
  rewrite (IH _ _ H2), (Hh _ _ _ _ H1), (coherence_of_cons relevant e inbox).
  destruct (coherence_of_one relevant e) as [->|[ic ->]]; [by rewrite Hnil|apply Hcons].
Qed.

(** What the init phases decide: the manager is the last level if everything
    below it is memory, writes clean lines back if something below is not
    inclusive, expects acknowledgements of writebacks if something below sends
    them, and sends them if something above expects them. It may evict clean
    lines silently only if nothing below tracks presence and the first message from
    below is not memory's: the test of [lastLevel_] runs before later messages can
    clear it. *)
Theorem init_flags isDest phase from_up from_dn c out c' :
  let below := coherence_of (from_below isDest) from_dn in
  flags_of (ctrl_of c) = mkFlags true true false false false ->
  init_two_links isDest phase from_up from_dn c = Ok (out, c') ->
  flags_of (ctrl_of c') =
    mkFlags (forallb is_memory below)
      (negb (existsb ic_tracksPresence below) &&
       negb (match below with ic :: _ => is_memory ic | [] => false end))
      (existsb (fun ic => negb (ic_inclusive ic)) below) (existsb ic_sendWBAck below)
      (existsb ic_recvWBAck (coherence_of from_above from_up)).
Proof.
  cbv zeta. intros Hf (o1 & c1 & (? & ? & [= <- <-] & [= _ <-])%bind_Ok & H)%bind_Ok.
  apply bind_Ok in H as (o2 & c2 & H2 & H). apply bind_Ok in H as (o3 & c3 & H3 & [= _ <-]).
  apply (receive_flags from_above _ flags_above) in H2;
    [|apply flags_nil|apply flags_above_app|apply init_up_event_flags].
  apply (receive_flags (from_below isDest) _ flags_below) in H3;
    [|apply flags_nil|apply flags_below_app|apply init_down_event_flags].
  by rewrite H3, H2, Hf.
Qed.
End init.

(** ** The latency of the MSHR *)

(** [createMSHR] asks for at least two entries; a given positive latency is
    used as it is, an L1 uses one cycle, and any other cache looks its access
    latency up in a table of 200 entries, which the guard against larger
    latencies lets run one past its end. *)
Theorem createMSHR_correct entries latency access L1 :
  entries <> 0 -> entries <> 1 -> 0 <= access ->
  createMSHR entries latency access L1 =
    match latency with
    | Some l => if 0 <? l then Ok (new_MSHR entries, l) else createMSHR entries None access L1
    | None =>
        if L1 then Ok (new_MSHR entries, 1)
        else if access <? 200 then
          (fun l => (new_MSHR entries, l)) <$> intrapolate_latency access
        else if access =? 200 then Err (Undefined "y[accessLatency] out of range")
        else Err (Fatal "cannot intrapolate MSHR latency")
    end /\
  (0 <= access < 200 -> exists l, intrapolate_latency access = Ok l /\ 0 <= l <= 32).
Proof.
  intros H0 H1 Ha. split.
  - unfold createMSHR. destruct (Z.eqb_spec entries 1), (Z.eqb_spec entries 0); try done. cbn [orb].
    assert (forall l : res Z, (y ← l; Ok (new_MSHR entries, y)) = (fun l => (new_MSHR entries, l)) <$> l)
      as Hmap by (by intros []).
    destruct latency as [l|]; [by destruct (0 <? l)|]. destruct L1; [done|].
    destruct (Z.ltb_spec 200 access), (Z.ltb_spec access 200), (Z.eqb_spec access 200); try lia; [done|by rewrite Hmap|].
    subst access. done.
  - intros Hr. unfold intrapolate_latency.
    destruct (Z.ltb_spec access 0), (Z.leb_spec 200 access); try lia. cbn [orb].
    repeat case_match; eexists; (split; [done|lia]).
Qed.

(** ** Examples *)

Definition memory_message : MemEventInit :=
  coherence_message (mkInitCoherence "mem" Endpoint.Memory true false false 8 false).

(** Memory alone below: the last level, and no silent eviction. *)
Lemma init_flags_witness :
  exists out c', init_two_links (fun _ => true) 0 [] [memory_message]
      (built_cache 1) = Ok (out, c') /\
    flags_of (ctrl_of c') = mkFlags true false false false false.
Proof.
  destruct (succeeds_run (init_two_links (fun _ => true) 0 []
    [memory_message]) (built_cache 1)) as (out & c' & H); [by vm_compute|].
  exists out, c'. split; [done|]. exact (init_flags cpu_link mem_link _ 0 [] _ (built_cache 1) _ _ eq_refl H).
Defined.

Lemma createMSHR_correct_witness :
  createMSHR 4 None 200 false = Err (Undefined "y[accessLatency] out of range").
Proof. destruct (createMSHR_correct 4 None 200 false) as [-> _]; [lia..|reflexivity]. Defined.
