(* ===== verification/Merlin.v ===== *)
(** * Merlin: packets inside a merlin router, and the interface of a topology

    Models the event classes of [merlin/router.h] that a router moves, and the
    interface [Topology] through which the ports of a router ask where a packet
    goes. The arithmetic of the topologies is on C++ [int]. *)

From S2P Require Import Prelude.

(** ** [int] *)

(** The value of an arithmetic operation on [int], undefined on overflow. *)
Definition int_of (z : Z) : res Z :=
  if (- 2 ^ 31 <=? z) && (z <? 2 ^ 31) then Ok z else Err (Undefined "signed overflow").
Definition int_add (a b : Z) : res Z := int_of (a + b).
Definition int_mul (a b : Z) : res Z := int_of (a * b).
Definition int_div (a b : Z) : res Z :=
  if b =? 0 then Err (Undefined "division by zero") else int_of (Z.quot a b).
Definition int_rem (a b : Z) : res Z :=
  if b =? 0 then Err (Undefined "division by zero")
  else _ ← int_of (Z.quot a b); Ok (Z.rem a b).

Lemma int_of_Ok z : - 2 ^ 31 <= z < 2 ^ 31 -> int_of z = Ok z.
Proof.
  intros H. unfold int_of. by rewrite (proj2 (Z.leb_le _ _)), (proj2 (Z.ltb_lt _ _)) by lia.
Qed.

Lemma int_add_result a b : - 2 ^ 31 <= a + b -> int_add a b = if a + b <? 2 ^ 31 then Ok (a + b) else Err (Undefined "signed overflow").
Proof. intros H. unfold int_add, int_of. by rewrite (proj2 (Z.leb_le _ _)) by lia. Qed.

Lemma int_div_Ok a b : 0 <= a < 2 ^ 31 -> 0 < b -> int_div a b = Ok (a / b).
Proof.
  intros Ha Hb. unfold int_div. rewrite (proj2 (Z.eqb_neq b 0)) by lia.
  rewrite Z.quot_div_nonneg by lia. apply int_of_Ok. split; [|eapply Z.le_lt_trans; [|apply Ha]].
  - transitivity 0; [lia|]. apply Z.div_pos; lia.
  - apply Z.div_le_upper_bound; nia.
Qed.

Lemma int_rem_Ok a b : 0 <= a < 2 ^ 31 -> 0 < b -> int_rem a b = Ok (a mod b).
Proof.
  intros Ha Hb. unfold int_rem. rewrite (proj2 (Z.eqb_neq b 0)) by lia.
  pose proof (int_div_Ok a b Ha Hb) as E. unfold int_div in E.
  rewrite (proj2 (Z.eqb_neq b 0)) in E by lia. rewrite E. simpl.
  by rewrite Z.rem_mod_nonneg by lia.
Qed.

(** ** Events *)

(** [RtrEvent]: the packet an endpoint sends. *)
Record RtrEvent := mkRtrEvent {
  re_dest : Z;
  trusted_src : Z;
  route_vn : Z;
  size_in_flits : Z
}.

(** [(size_in_bits + flit_size - 1) / flit_size]. *)
Definition computeSizeInFlits (size_in_bits flit_size : Z) : res Z :=
  int_div (size_in_bits + flit_size - 1) flit_size.

(** [internal_router_event]: the packet while routers carry it. [next_port] and
    [credit_return_vc] have no value until they are set; [route_] is what the
    topology's own event class adds. *)
Record internal_router_event (D : Type) := mkIre {
  encap_ev : RtrEvent;
  next_port : option Z;
  ire_vc : Z;
  credit_return_vc : option Z;
  route_ : D
}.
Arguments mkIre {D} _ _ _ _ _.
Arguments encap_ev {D} _.
Arguments next_port {D} _.
Arguments ire_vc {D} _.
Arguments credit_return_vc {D} _.
Arguments route_ {D} _.
#[export] Instance ire_eta D : Eta (internal_router_event D) := fun e =>
  mkIre (encap_ev e) (next_port e) (ire_vc e) (credit_return_vc e) (route_ e).

Section accessors.
Context {D : Type}.
Implicit Type e : internal_router_event D.
Definition getDest e : Z := re_dest (encap_ev e).
Definition getSrc e : Z := trusted_src (encap_ev e).
Definition getVN e : Z := route_vn (encap_ev e).
Definition getFlitCount e : Z := size_in_flits (encap_ev e).
Definition setNextPort (p : Z) e : internal_router_event D := e <| next_port := Some p |>.
Definition setVC (v : Z) e : internal_router_event D := e <| ire_vc := v |>.
Definition setCreditReturnVC (v : Z) e : internal_router_event D := e <| credit_return_vc := Some v |>.
Definition getNextPort e : res Z := of_option (Undefined "next port read before it is set") (next_port e).
Definition getCreditReturnVC e : res Z :=
  of_option (Undefined "credit return VC read before it is set") (credit_return_vc e).
End accessors.

(** ** Topologies *)

Module PortState.
Inductive t := R2R | R2N | UNCONNECTED | FAILED.
#[global] Instance eq_dec : EqDecision t.
Proof. solve_decision. Defined.
End PortState.

Definition UNTIMED_BROADCAST_ADDR : Z := -1.

(** [class Topology], as far as the ports of a router use it: [T] is the state of
    the topology object of one router, [D] its part of the event. *)
Class Topology (T D : Type) := {
  route_packet : T -> Z -> Z -> internal_router_event D -> res (internal_router_event D);
  process_input : T -> RtrEvent -> res (internal_router_event D);
  getPortState : T -> Z -> res PortState.t;
  getEndpointID : T -> Z -> res Z;
  getVCsPerVN : T -> list Z
}.

Definition isHostPort {T D} {HT : Topology T D} (t : T) (port : Z) : res bool :=
  s ← getPortState t port; Ok (bool_decide (s = PortState.R2N)).

(** What a port relies on: routing changes where a packet goes, not the packet. *)
Class TopologyLaws (T D : Type) {HT : Topology T D} := {
  route_keeps_packet t port vc ev ev' : route_packet t port vc ev = Ok ev' -> encap_ev ev' = encap_ev ev;
  route_keeps_return t port vc ev ev' : route_packet t port vc ev = Ok ev' -> credit_return_vc ev' = credit_return_vc ev;
  input_keeps_packet t ev ev' : process_input t ev = Ok ev' -> encap_ev ev' = ev
}.
