(* ===== verification/Grid.v ===== *)
(** * Grid: the torus and mesh topologies of merlin

    Models [merlin/topology/torus.h/.cc] and [mesh.h/.cc], which share everything
    but the choice of a direction, the state of a port at the border, and the
    broadcasts of the init phase: the constructor with its shape strings, the
    numbering of routers and ports, and the routing of a packet one dimension
    after the other. The links between routers are those of the builder
    [pymerlin-topo-mesh.py]. *)

From Stdlib Require Import Ascii.
From S2P Require Import Prelude Merlin.

(** ** Shape strings *)

(** [strtol(s, NULL, 0)]: blanks, a sign, a prefix that chooses the base, then
    digits up to the first character that is none; a value that does not fit in
    [long] saturates. *)
Definition is_space (c : ascii) : bool :=
  let n := nat_of_ascii c in (n =? 32)%nat || ((9 <=? n)%nat && (n <=? 13)%nat).

Definition digit_of (base : Z) (c : ascii) : option Z :=
  let n := Z.of_nat (nat_of_ascii c) in
  let v := if (48 <=? n) && (n <=? 57) then n - 48
           else if (97 <=? n) && (n <=? 122) then n - 87
           else if (65 <=? n) && (n <=? 90) then n - 55 else 99 in
  if v <? base then Some v else None.

Fixpoint digits (base acc : Z) (s : string) : Z :=
  match s with
  | EmptyString => acc
  | String c s' => match digit_of base c with Some v => digits base (acc * base + v) s' | None => acc end
  end.

Fixpoint skip_spaces (s : string) : string :=
  match s with String c s' => if is_space c then skip_spaces s' else s | EmptyString => s end.

Definition unsigned (s : string) : Z :=
  match s with
  | String "0" (String x (String d _ as s')) =>
      if (bool_decide (x = "x"%char) || bool_decide (x = "X"%char)) && bool_decide (is_Some (digit_of 16 d))
      then digits 16 0 s' else digits 8 0 s
  | String "0" _ => digits 8 0 s
  | _ => digits 10 0 s
  end.

Definition strtol (s : string) : Z :=
  let v := match skip_spaces s with
           | String "-" s' => - unsigned s'
           | String "+" s' => unsigned s'
           | s' => unsigned s'
           end in
  Z.max (- 2 ^ 63) (Z.min (2 ^ 63 - 1) v).

(** The conversion of a [long] to [int]. *)
Definition long_to_int (z : Z) : Z := (z + 2 ^ 31) mod 2 ^ 32 - 2 ^ 31.

(** [shape.find(c, start)] *)
Fixpoint find_char (c : ascii) (s : string) (pos start : nat) : option nat :=
  match s with
  | EmptyString => None
  | String d s' =>
      if (start <=? pos)%nat && bool_decide (c = d) then Some pos else find_char c s' (S pos) start
  end.

Fixpoint count_char (c : ascii) (s : string) : nat :=
  match s with
  | EmptyString => 0
  | String d s' => ((if bool_decide (c = d) then 1 else 0) + count_char c s')%nat
  end.

(** The loop of [parseDimString], [n] numbers from position [start]; [npos + 1]
    is 0. *)
Fixpoint parseDims (n : nat) (shape : string) (start : nat) : list Z :=
  match n with
  | O => []
  | S n' =>
      match find_char "x" shape 0 start with
      | Some e => long_to_int (strtol (String.substring start (e - start) shape)) :: parseDims n' shape (S e)
      | None => long_to_int (strtol (String.substring start (String.length shape - start) shape))
                :: parseDims n' shape 0
      end
  end.
Definition parseDimString (dimensions : nat) (shape : string) : list Z := parseDims dimensions shape 0.

(** ** State *)

Record Grid := mkGrid {
  router_id : Z;
  id_loc : list Z;
  dim_size : list Z;
  dim_width : list Z;
  port_start : list (Z * Z);
  num_local_ports : Z;
  local_port_start : Z;
  num_vns : Z
}.
Definition dimensions (t : Grid) : nat := length (dim_size t).

(** What [topo_torus_event] and [topo_mesh_event] add to an event. *)
Record grid_event := mkGridEvent { routing_dim : Z; dest_loc : list Z }.
#[export] Instance grid_event_eta : Eta grid_event := fun e => mkGridEvent (routing_dim e) (dest_loc e).
Abbreviation event := (internal_router_event grid_event).

(** [div *= dim_size[j]] for the dimensions before one. *)
Fixpoint dim_product (acc : Z) (sizes : list Z) : res Z :=
  match sizes with [] => Ok acc | n :: sizes' => p ← int_mul acc n; dim_product p sizes' end.

(** The loop of [idToLocation], from dimension [i] down; [location] holds the
    dimensions above. *)
Fixpoint location_loop (sizes : list Z) (i : nat) (run_id : Z) (location : list Z) : res (list Z) :=
  match i with
  | O => Ok (run_id :: location)
  | S i' =>
      div ← dim_product 1 (take i sizes);
      value ← int_div run_id div;
      location_loop sizes i' (run_id - value * div) (value :: location)
  end.
Definition idToLocation (sizes : list Z) (run_id : Z) : res (list Z) :=
  location_loop sizes (length sizes - 1) run_id [].

(** The layout of the ports: of every dimension the first in the positive and in the
    negative direction. *)
Fixpoint port_starts (next_port : Z) (widths : list Z) : list (Z * Z) :=
  match widths with
  | [] => []
  | w :: widths' => (next_port, next_port + w) :: port_starts (next_port + 2 * w) widths'
  end.
Definition needed_ports (widths : list Z) : Z := foldr (fun w n => 2 * w + n) 0 widths.

(** The loops of the constructors over [int next_port] and [int needed_ports]. *)
Fixpoint set_port_starts (next_port : Z) (widths : list Z) : res (list (Z * Z)) :=
  match widths with
  | [] => Ok []
  | w :: widths' =>
      neg ← int_add next_port w;
      next ← int_add neg w;
      starts ← set_port_starts next widths';
      Ok ((next_port, neg) :: starts)
  end.
Fixpoint count_needed_ports (needed : Z) (widths : list Z) : res Z :=
  match widths with
  | [] => Ok needed
  | w :: widths' => d ← int_mul 2 w; n ← int_add needed d; count_needed_ports n widths'
  end.

(** The constructors; the parameter [width] is empty when it is not given. *)
Definition new_grid (shape width : string) (local_ports num_ports rtr_id num_vns : Z) : res Grid :=
  let dims := S (count_char "x" shape) in
  let size := parseDimString dims shape in
  let widths := if bool_decide (width = EmptyString) then replicate dims 1 else parseDimString dims width in
  starts ← set_port_starts 0 widths;
  needed ← count_needed_ports 0 widths;
  total ← int_add needed local_ports;
  if num_ports <? total then Err (Fatal "number of ports")
  else
    loc ← idToLocation size rtr_id;
    Ok (mkGrid rtr_id loc size widths starts local_ports needed num_vns).

Section routing.
Implicit Types (t : Grid) (ev : event).

Definition get_dest_router t (dest_id : Z) : res Z := int_div dest_id (num_local_ports t).
Definition get_dest_local_port t (dest_id : Z) : res Z :=
  r ← int_rem dest_id (num_local_ports t); Ok (local_port_start t + r).
Definition choose_multipath (start_port num_ports dest_dist : Z) : res Z :=
  if num_ports =? 1 then Ok start_port
  else r ← int_rem dest_dist num_ports; Ok (start_port + r).

(** How far a packet has to go in a dimension and in which direction. *)
Definition Direction : Type := Z -> Z -> Z -> bool * Z.
Definition torus_direction : Direction := fun size here there =>
  let dist_neg := here - there in
  let dist_neg := if dist_neg <? 0 then dist_neg + size else dist_neg in
  let dist_pos := there - here in
  let dist_pos := if dist_pos <? 0 then dist_pos + size else dist_pos in
  let go_pos := dist_pos <=? dist_neg in
  (go_pos, if go_pos then dist_pos else dist_neg).
Definition mesh_direction : Direction := fun size here there => (here <? there, Z.abs (here - there)).

(** One turn of the routing loop: the packet leaves in dimension [dim]. *)
Definition route_out (dir : Direction) t (port vc dim : Z) ev : res event :=
  size ← at_index (dim_size t) dim;
  here ← at_index (id_loc t) dim;
  there ← at_index (dest_loc (route_ ev)) dim;
  starts ← at_index (port_start t) dim;
  width ← at_index (dim_width t) dim;
  let '(go_pos, dist) := dir size here there in
  p ← choose_multipath (if go_pos then starts.1 else starts.2) width dist;
  let ev := setNextPort p ev in
  Ok (if (here =? 0) && (port <? local_port_start t) then setVC (Z.lxor vc 1) ev else ev).

(** The loop over the dimensions that are left: a dimension in which the packet
    has arrived is passed, and the VC reset. *)
Fixpoint route_loop (dir : Direction) t (port vc : Z) (dims : list Z) ev : res event :=
  match dims with
  | [] => Ok ev
  | dim :: dims' =>
      there ← at_index (dest_loc (route_ ev)) dim;
      here ← at_index (id_loc t) dim;
      if there =? here then
        route_loop dir t port vc dims'
          (setVC (Z.land vc (Z.lnot 1)) (ev <| route_ ::= fun r => r <| routing_dim ::= Z.succ |> |>))
      else route_out dir t port vc dim ev
  end.

Definition dims_from t (dim : Z) : list Z := seqZ dim (Z.of_nat (dimensions t) - dim).

Definition grid_route (dir : Direction) t (port vc : Z) ev : res event :=
  dest_router ← get_dest_router t (getDest ev);
  if dest_router =? router_id t then
    p ← get_dest_local_port t (getDest ev); Ok (setNextPort p ev)
  else route_loop dir t port vc (dims_from t (routing_dim (route_ ev))) ev.

Definition grid_input t (ev : RtrEvent) : res event :=
  run_id ← get_dest_router t (re_dest ev);
  loc ← idToLocation (dim_size t) run_id;
  Ok (mkIre ev None (route_vn ev * 2) None (mkGridEvent 0 loc)).

Definition grid_endpoint (state : PortState.t) t (port : Z) : Z :=
  if bool_decide (state = PortState.R2N)
  then router_id t * num_local_ports t + (port - local_port_start t) else -1.

(** ** Torus *)

Definition torus_port_state t (port : Z) : PortState.t :=
  if local_port_start t <=? port then
    if port <? local_port_start t + num_local_ports t then PortState.R2N else PortState.UNCONNECTED
  else PortState.R2R.

(** ** Mesh *)

(** The ports of a dimension, in the order of [getPortState]'s loop. *)
Fixpoint border_state (sizes widths locs : list Z) (starts : list (Z * Z)) (port : Z) : PortState.t :=
  match sizes, widths, locs, starts with
  | n :: sizes', w :: widths', i :: locs', (pos, neg) :: starts' =>
      if (pos <=? port) && (port <? pos + w) then
        if i =? n - 1 then PortState.UNCONNECTED else PortState.R2R
      else if (neg <=? port) && (port <? neg + w) then
        if i =? 0 then PortState.UNCONNECTED else PortState.R2R
      else border_state sizes' widths' locs' starts' port
  | _, _, _, _ => PortState.R2R
  end.
Definition mesh_port_state t (port : Z) : PortState.t :=
  if local_port_start t <=? port then
    if port <? local_port_start t + num_local_ports t then PortState.R2N else PortState.UNCONNECTED
  else border_state (dim_size t) (dim_width t) (id_loc t) (port_start t) port.
End routing.

(** ** The network

    [build] of [pymerlin-topo-mesh.py]: router [id] sits at location
    [idToLoc(id)]; a link joins a port of a router in the positive direction of a
    dimension with a port of the next router in the negative one. A torus closes
    every dimension to a ring ([wrap]). *)

(** The number of the router at a location. *)
Fixpoint locationToId (sizes locs : list Z) : Z :=
  match sizes, locs with
  | n :: sizes', i :: locs' => i + n * locationToId sizes' locs'
  | _, _ => 0
  end.

(** The topology object of the router at a location. *)
Definition node (t : Grid) (loc : list Z) : Grid :=
  mkGrid (locationToId (dim_size t) loc) loc (dim_size t) (dim_width t) (port_start t)
         (num_local_ports t) (local_port_start t) (num_vns t).

(** The dimension, the direction and the number of the link behind a port. *)
Fixpoint port_link (starts : list (Z * Z)) (widths : list Z) (dim : nat) (port : Z)
    : option (nat * bool * Z) :=
  match starts, widths with
  | (pos, neg) :: starts', w :: widths' =>
      if (pos <=? port) && (port <? pos + w) then Some (dim, true, port - pos)
      else if (neg <=? port) && (port <? neg + w) then Some (dim, false, port - neg)
      else port_link starts' widths' (S dim) port
  | _, _ => None
  end.

(** Where the link of a port leads, and to which port. *)
Definition neighbour (wrap : bool) (t : Grid) (loc : list Z) (port : Z) : option (list Z * Z) :=
  '(dim, up, num) ← port_link (port_start t) (dim_width t) 0 port;
  here ← loc !! dim;
  size ← dim_size t !! dim;
  starts ← port_start t !! dim;
  if up : bool then
    if (here + 1 <? size) || wrap
    then Some (<[dim := (here + 1) mod size]> loc, starts.2 + num) else None
  else
    if (0 <? here) || wrap
    then Some (<[dim := (here - 1 + size) mod size]> loc, starts.1 + num) else None.

(** A channel is one virtual channel of the link behind an output port. *)
Record channel := mkChannel { ch_loc : list Z; ch_port : Z; ch_vc : Z }.

(** A packet's way from the router at [loc], where it came in on [port]: at every
    router the topology routes it, and the link of the port it chose takes it to
    the next one, until the port is a local one. The result is the channels it
    used, the router it ended at and the port it leaves on. *)
Fixpoint journey (fuel : nat) (dir : Direction) (wrap : bool) (t : Grid) (loc : list Z) (port : Z)
    (ev : event) : res (list channel * list Z * Z) :=
  match fuel with
  | O => Err (Fatal "out of fuel")
  | S fuel' =>
      ev ← grid_route dir (node t loc) port (ire_vc ev) ev;
      p ← getNextPort ev;
      if local_port_start t <=? p then Ok ([], loc, p)
      else
        next ← of_option (Undefined "port without a link") (neighbour wrap t loc p);
        '(chs, loc', p') ← journey fuel' dir wrap t next.1 next.2 ev;
        Ok (mkChannel loc p (ire_vc ev) :: chs, loc', p')
  end.

(** ** Topology objects *)

Definition torus_topology : Topology Grid grid_event := {|
  route_packet := grid_route torus_direction;
  process_input := grid_input;
  getPortState t port := Ok (torus_port_state t port);
  getEndpointID t port := Ok (grid_endpoint (torus_port_state t port) t port);
  getVCsPerVN t := replicate (Z.to_nat (num_vns t)) 2
|}.

Definition mesh_topology : Topology Grid grid_event := {|
  route_packet := grid_route mesh_direction;
  process_input := grid_input;
  getPortState t port := Ok (mesh_port_state t port);
  getEndpointID t port := Ok (grid_endpoint (mesh_port_state t port) t port);
  getVCsPerVN t := replicate (Z.to_nat (num_vns t)) 1
|}.

(** ** Routing leaves the packet alone *)

Lemma route_out_keeps dir t port vc dim ev ev' :
  route_out dir t port vc dim ev = Ok ev' -> encap_ev ev' = encap_ev ev /\ credit_return_vc ev' = credit_return_vc ev.
Proof.
  unfold route_out. intros H. inv_res. destruct (dir _ _ _) as [up d]. inv_res. by destruct (_ && _).
Qed.

Lemma grid_route_keeps dir t port vc ev ev' :
  grid_route dir t port vc ev = Ok ev' -> encap_ev ev' = encap_ev ev /\ credit_return_vc ev' = credit_return_vc ev.
Proof.
  assert (forall dims e e', route_loop dir t port vc dims e = Ok e' ->
    encap_ev e' = encap_ev e /\ credit_return_vc e' = credit_return_vc e) as Hloop.
  { induction dims as [|dim dims IH]; intros e e' H; cbn [route_loop] in H; inv_res; [done|].
    case_match; [|by eapply route_out_keeps].
    rename select (route_loop _ _ _ _ _ _ = _) into Hl. by apply IH in Hl. }
  unfold grid_route. intros H. inv_res. case_match; inv_res; [done|]. by eapply Hloop.
Qed.

Lemma grid_input_keeps t ev ev' : grid_input t ev = Ok ev' -> encap_ev ev' = ev.
Proof. unfold grid_input. intros H. by inv_res. Qed.

#[export] Instance torus_laws : TopologyLaws Grid grid_event (HT := torus_topology).
Proof. split; [apply grid_route_keeps|apply grid_route_keeps|apply grid_input_keeps]. Qed.
#[export] Instance mesh_laws : TopologyLaws Grid grid_event (HT := mesh_topology).
Proof. split; [apply grid_route_keeps|apply grid_route_keeps|apply grid_input_keeps]. Qed.
