(* ===== verification/GridRoute.v ===== *)
(** * GridRoute: where packets go in a torus and in a mesh

    The numbering of routers is a bijection with the locations of the grid; a
    packet reaches its destination in as many hops as the grid distance; and the
    virtual channels it uses follow one fixed order of all channels, so that no
    set of packets can wait for each other in a circle. The direction a topology
    chooses enters through the laws [DirectionLaws]. *)

From S2P Require Import Prelude Merlin Grid.

(** ** Locations *)

Definition in_box : list Z -> list Z -> Prop := Forall2 (fun n i => 0 <= i < n).
Definition routers (sizes : list Z) : Z := foldr Z.mul 1 sizes.

Lemma routers_app s1 s2 : routers (s1 ++ s2) = routers s1 * routers s2.
Proof. unfold routers. induction s1 as [|n s1 IH]; simpl; [lia|rewrite IH; ring]. Qed.

Lemma routers_cons n s : routers (n :: s) = n * routers s.
Proof. done. Qed.

Lemma routers_pos sizes : Forall (Z.lt 0) sizes -> 0 < routers sizes.
Proof. unfold routers. induction 1; simpl; nia. Qed.

Lemma routers_take_le sizes i : Forall (Z.lt 0) sizes -> routers (take i sizes) <= routers sizes.
Proof.
  intros H. rewrite <- (take_drop i sizes) at 2. rewrite routers_app.
  assert (0 < routers (take i sizes)) by by apply routers_pos, Forall_take.
  assert (0 < routers (drop i sizes)) by by apply routers_pos, Forall_drop. nia.
Qed.

Lemma dim_product_Ok sizes acc :
  Forall (Z.lt 0) sizes -> 0 < acc -> acc * routers sizes < 2 ^ 31 ->
  dim_product acc sizes = Ok (acc * routers sizes).
Proof.
  intros H. revert acc. unfold routers. induction H as [|n sizes Hn H IH]; intros acc Ha Hb; simpl.
  - by rewrite Z.mul_1_r.
  - apply routers_pos in H. unfold routers in H. simpl in Hb.
    unfold int_mul. rewrite int_of_Ok by nia. simpl. rewrite IH by nia. f_equal. ring.
Qed.

Lemma locationToId_app s1 s2 l1 l2 :
  in_box s1 l1 -> locationToId (s1 ++ s2) (l1 ++ l2) = locationToId s1 l1 + routers s1 * locationToId s2 l2.
Proof.
  unfold routers. induction 1 as [|n i s1 l1 _ _ IH]; cbn; [lia|]. rewrite IH. ring.
Qed.

Lemma locationToId_range sizes loc : in_box sizes loc -> 0 <= locationToId sizes loc < routers sizes.
Proof. unfold routers. induction 1 as [|n i s l Hi _ IH]; cbn; nia. Qed.

Lemma locationToId_inj sizes l1 l2 :
  in_box sizes l1 -> in_box sizes l2 -> locationToId sizes l1 = locationToId sizes l2 -> l1 = l2.
Proof.
  intros H1. revert l2. induction H1 as [|n i s l Hi H1 IH]; intros l2 H2 E.
  - by apply Forall2_nil_inv_l in H2 as ->.
  - apply Forall2_cons_inv_l in H2 as (j & l' & Hj & H2 & ->). cbn in E.
    destruct (Z.div_mod_unique n (locationToId s l) (locationToId s l') i j) as [E1 ->]; [lia..|].
    f_equal. by apply IH.
Qed.

Lemma in_box_at sizes loc k n i :
  in_box sizes loc -> sizes !! k = Some n -> loc !! k = Some i -> 0 <= i < n.
Proof. intros H Hn Hi. exact (Forall2_lookup_lr _ _ _ _ _ _ H Hn Hi). Qed.

Lemma in_box_insert sizes loc k n i :
  in_box sizes loc -> sizes !! k = Some n -> 0 <= i < n -> in_box sizes (<[k := i]> loc).
Proof.
  intros H Hn Hi. rewrite <- (list_insert_id _ _ _ Hn). by apply Forall2_insert.
Qed.

Lemma in_box_app s1 s2 l1 l2 : in_box s1 l1 -> in_box s2 l2 -> in_box (s1 ++ s2) (l1 ++ l2).
Proof. apply Forall2_app. Qed.

Lemma location_loop_Ok sizes i run_id acc :
  Forall (Z.lt 0) sizes -> routers sizes < 2 ^ 31 -> (i < length sizes)%nat ->
  0 <= run_id < routers (take (S i) sizes) ->
  exists l, location_loop sizes i run_id acc = Ok (l ++ acc) /\ in_box (take (S i) sizes) l /\
    locationToId (take (S i) sizes) l = run_id.
Proof.
  intros Hs Hr. revert run_id acc. induction i as [|i IH]; intros run_id acc Hi Hrun.
  - exists [run_id]. destruct sizes as [|n sizes]; simpl in *; [lia|]. rewrite firstn_O in *.
    unfold routers in Hrun. simpl in Hrun. split; [done|].
    split; [by repeat constructor; lia|cbn; lia].
  - destruct (lookup_lt_is_Some_2 sizes (S i) Hi) as [n Hn].
    rewrite (take_S_r _ _ _ Hn) in *. rewrite routers_app in Hrun. unfold routers at 2 in Hrun. simpl in Hrun.
    set (div := routers (take (S i) sizes)) in *.
    assert (0 < div) by by apply routers_pos, Forall_take.
    assert (div <= routers sizes) by by apply routers_take_le.
    assert (div * n <= routers sizes).
    { pose proof (routers_take_le sizes (S (S i)) Hs) as Hle.
      rewrite (take_S_r _ _ _ Hn), routers_app in Hle. unfold routers at 2 in Hle. simpl in Hle. lia. }
    cbn [location_loop]. rewrite dim_product_Ok; [|by apply Forall_take|lia|fold div; lia].
    rewrite Z.mul_1_l. fold div. cbn. rewrite int_div_Ok by nia. cbn.
    destruct (IH (run_id - run_id / div * div) (run_id / div :: acc)) as (l & -> & Hl & Hid); [lia| |].
    { pose proof (Z.mod_pos_bound run_id div). rewrite Z.mod_eq in * by lia. fold div. lia. }
    exists (l ++ [run_id / div]). rewrite <- app_assoc. split; [done|]. split.
    + apply in_box_app; [done|]. constructor; [|constructor].
      split; [apply Z.div_pos; lia|apply Z.div_lt_upper_bound; lia].
    + rewrite locationToId_app by done. rewrite Hid. fold div. cbn. lia.
Qed.

Lemma idToLocation_Ok sizes id :
  sizes <> [] -> Forall (Z.lt 0) sizes -> routers sizes < 2 ^ 31 -> 0 <= id < routers sizes ->
  exists loc, idToLocation sizes id = Ok loc /\ in_box sizes loc /\ locationToId sizes loc = id.
Proof.
  intros Hne Hs Hr Hid. unfold idToLocation.
  assert (length sizes <> 0%nat) by by rewrite length_zero_iff_nil.
  assert (take (S (length sizes - 1)) sizes = sizes) as Ht by (apply take_ge; lia).
  destruct (location_loop_Ok sizes (length sizes - 1) id []) as (l & E & Hl & El); rewrite ?Ht in *;
    [done..|lia|done|].
  exists l. rewrite E, app_nil_r. done.
Qed.

Lemma idToLocation_id sizes loc :
  sizes <> [] -> Forall (Z.lt 0) sizes -> routers sizes < 2 ^ 31 -> in_box sizes loc ->
  idToLocation sizes (locationToId sizes loc) = Ok loc.
Proof.
  intros Hne Hs Hr Hl.
  destruct (idToLocation_Ok sizes (locationToId sizes loc)) as (l & -> & Hb & E); [done..| |].
  - by apply locationToId_range.
  - f_equal. by eapply locationToId_inj.
Qed.

(** ** Ports *)

Lemma port_starts_lookup base widths k w :
  widths !! k = Some w ->
  port_starts base widths !! k =
    Some (base + needed_ports (take k widths), base + needed_ports (take k widths) + w).
Proof.
  revert base k. induction widths as [|v widths IH]; intros base [|k] Hk; simplify_eq/=.
  - do 2 f_equal; lia.
  - rewrite (IH _ _ Hk). unfold needed_ports. do 2 f_equal; lia.
Qed.

Lemma needed_ports_nonneg widths : Forall (Z.lt 0) widths -> 0 <= needed_ports widths.
Proof. induction 1; simpl in *; lia. Qed.

Lemma port_starts_range base widths k w s :
  Forall (Z.lt 0) widths -> widths !! k = Some w -> port_starts base widths !! k = Some s ->
  base <= s.1 /\ s.2 = s.1 + w /\ s.2 + w <= base + needed_ports widths /\ 0 < w.
Proof.
  intros Hw. revert base k. induction Hw as [|v widths Hv Hw IH]; intros base [|k] Hk Hs; simplify_eq/=.
  - apply needed_ports_nonneg in Hw. unfold needed_ports in *. simpl. lia.
  - destruct (IH _ _ Hk Hs) as (? & ? & ? & ?). unfold needed_ports in *. lia.
Qed.

Lemma port_link_at base widths dim0 k w s up num :
  Forall (Z.lt 0) widths -> widths !! k = Some w -> port_starts base widths !! k = Some s ->
  0 <= num < w ->
  port_link (port_starts base widths) widths dim0 ((if up : bool then s.1 else s.2) + num)
    = Some ((dim0 + k)%nat, up, num).
Proof.
  intros Hw. revert base dim0 k. induction Hw as [|v widths Hv Hw IH]; intros base dim0 [|k] Hk Hs Hnum;
    simplify_eq/=.
  - rewrite Nat.add_0_r. destruct up.
    + rewrite (proj2 (Z.leb_le _ _)), (proj2 (Z.ltb_lt _ _)) by lia. simpl. do 2 f_equal; lia.
    + rewrite (proj2 (Z.ltb_ge _ (base + w))), andb_false_r by lia.
      rewrite (proj2 (Z.leb_le _ _)), (proj2 (Z.ltb_lt _ _)) by lia. simpl. do 2 f_equal; lia.
  - destruct (port_starts_range _ _ _ _ _ Hw Hk Hs) as (? & ? & ? & ?).
    set (p := (if up then s.1 else s.2) + num). assert (base + 2 * v <= p) by (subst p; destruct up; lia).
    rewrite (proj2 (Z.ltb_ge p (base + v))), andb_false_r by lia.
    rewrite (proj2 (Z.ltb_ge p (base + v + v))), andb_false_r by lia.
    subst p. rewrite (IH _ _ _ Hk Hs Hnum). do 3 f_equal. lia.
Qed.

(** ** Directions *)

Definition next_place (n : Z) (up : bool) (here : Z) : Z :=
  if up then (here + 1) mod n else (here - 1 + n) mod n.

(** The laws of a choice of direction: it brings the packet one hop nearer along
    an existing link, and is kept until the packet has arrived. *)
Class DirectionLaws (dir : Direction) (wrap : bool) : Prop := {
  dir_step n here there :
    0 <= here < n -> 0 <= there < n -> here <> there ->
    exists up d, dir n here there = (up, d) /\ 0 < d < n /\
      (if up then (here + 1 <? n) || wrap else (0 <? here) || wrap) = true /\
      (d = 1 -> next_place n up here = there) /\
      (1 < d -> next_place n up here <> there /\ dir n (next_place n up here) there = (up, d - 1))
}.

Lemma next_place_cases n up here :
  0 <= here < n ->
  0 <= next_place n up here < n /\
  (if up then (here + 1 < n -> next_place n up here = here + 1) /\ (here + 1 = n -> next_place n up here = 0)
   else (0 < here -> next_place n up here = here - 1) /\ (here = 0 -> next_place n up here = n - 1)).
Proof.
  intros H. unfold next_place. split; [destruct up; apply Z.mod_pos_bound; lia|]. destruct up; split; intros.
  - by rewrite Z.mod_small by lia.
  - replace (here + 1) with n by lia. apply Z.mod_same. lia.
  - replace (here - 1 + n) with (here - 1 + 1 * n) by lia. rewrite Z.mod_add, Z.mod_small by lia. lia.
  - subst. rewrite Z.mod_small by lia. lia.
Qed.

(** The distances of a ring, without their case distinctions. *)
Lemma torus_direction_pos n here there k :
  0 <= here < n -> 0 <= there < n -> there = here + k \/ there = here + k - n -> 0 < 2 * k <= n ->
  torus_direction n here there = (true, k).
Proof.
  intros Hh Ht Hk Hk2. unfold torus_direction.
  destruct (Z.ltb_spec (here - there) 0), (Z.ltb_spec (there - here) 0); try lia;
    rewrite (proj2 (Z.leb_le _ _)) by lia; f_equal; lia.
Qed.
Lemma torus_direction_neg n here there k :
  0 <= here < n -> 0 <= there < n -> there = here - k \/ there = here - k + n -> 0 < 2 * k < n ->
  torus_direction n here there = (false, k).
Proof.
  intros Hh Ht Hk Hk2. unfold torus_direction.
  destruct (Z.ltb_spec (here - there) 0), (Z.ltb_spec (there - here) 0); try lia;
    rewrite (proj2 (Z.leb_gt _ _)) by lia; f_equal; lia.
Qed.

#[export] Instance torus_direction_laws : DirectionLaws torus_direction true.
Proof.
  constructor. intros n here there Hh Ht Hne.
  assert (exists (k : Z) (up : bool), (0 < 2 * k <= n) /\ (up = false -> 2 * k < n) /\
    (if up then there = here + k \/ there = here + k - n
     else there = here - k \/ there = here - k + n)) as (k & up & Hk & Hk2 & Hdir).
  { set (d := if decide (here < there) then there - here else there - here + n).
    assert (0 < d < n /\ (there = here + d \/ there = here + d - n)) as [Hd He]
      by (subst d; case_decide; lia).
    destruct (decide (2 * d <= n)); [exists d, true|exists (n - d), false]; split_and!; lia. }
  pose proof (next_place_cases n up here Hh) as (Hb & Hn).
  exists up, k. destruct up.
  - split; [by apply torus_direction_pos|]. split; [lia|]. split; [by rewrite orb_true_r|].
    split; [destruct (decide (here + 1 = n)); lia|]. intros. split; [destruct (decide (here + 1 = n)); lia|].
    apply torus_direction_pos; [done..|destruct (decide (here + 1 = n)); lia|lia].
  - specialize (Hk2 eq_refl). split; [apply torus_direction_neg; [done..|lia]|]. split; [lia|].
    split; [by rewrite orb_true_r|].
    split; [destruct (decide (here = 0)); lia|]. intros. split; [destruct (decide (here = 0)); lia|].
    apply torus_direction_neg; [done..|destruct (decide (here = 0)); lia|lia].
Qed.

#[export] Instance mesh_direction_laws : DirectionLaws mesh_direction false.
Proof.
  constructor. intros n here there Hh Ht Hne. unfold mesh_direction.
  pose proof (next_place_cases n true here Hh) as (? & Hu1 & Hu2).
  pose proof (next_place_cases n false here Hh) as (? & Hd1 & Hd2).
  destruct (Z.ltb_spec here there); eexists _, _; (split; [done|]); (split; [lia|]).
  - split; [rewrite orb_false_r; by apply Z.ltb_lt; lia|]. split; [lia|]. intros Hd.
    rewrite Hu1 by lia. split; [lia|]. rewrite (proj2 (Z.ltb_lt _ _)) by lia. f_equal; lia.
  - split; [rewrite orb_false_r; by apply Z.ltb_lt; lia|]. split; [lia|]. intros Hd.
    rewrite Hd1 by lia. split; [lia|]. rewrite (proj2 (Z.ltb_ge _ _)) by lia. f_equal; lia.
Qed.

(** ** Virtual channels *)

Lemma vc_reset v b : b = 0 \/ b = 1 -> Z.land (2 * v + b) (Z.lnot 1) = 2 * v.
Proof.
  intros Hb. rewrite <- Z.ldiff_land. change 1 with (Z.ones 1) at 1. rewrite Z.ldiff_ones_r by lia.
  rewrite Z.shiftl_mul_pow2, Z.shiftr_div_pow2 by lia. change (2 ^ 1) with 2.
  rewrite (Z.mul_comm 2 v), Z.div_add_l by lia. destruct Hb as [-> | ->]; [change (0 / 2) with 0|change (1 / 2) with 0]; lia.
Qed.

Lemma vc_toggle v b : b = 0 \/ b = 1 -> Z.lxor (2 * v + b) 1 = 2 * v + (1 - b).
Proof.
  intros Hb. apply Z.bits_inj'. intros n Hn. rewrite Z.lxor_spec.
  destruct (Z.eq_dec n 0) as [->|Hne].
  - destruct Hb as [-> | ->]; rewrite ?Z.add_0_r; simpl (1 - _); rewrite ?Z.add_0_r.
    + by rewrite Z.testbit_even_0, Z.testbit_odd_0.
    + by rewrite Z.testbit_even_0, Z.testbit_odd_0.
  - replace n with (Z.succ (Z.pred n)) by lia. set (m := Z.pred n). assert (0 <= m) by lia.
    assert (forall c, c = 0 \/ c = 1 -> Z.testbit (2 * v + c) (Z.succ m) = Z.testbit v m) as Hbit.
    { intros c [-> | ->]; rewrite ?Z.add_0_r; [by apply Z.testbit_even_succ|by apply Z.testbit_odd_succ]. }
    rewrite Hbit, Hbit by lia. change 1 with (2 * 0 + 1). rewrite Z.testbit_odd_succ, Z.bits_0 by done.
    by rewrite xorb_false_r.
Qed.

(** ** Well-formed grids *)

Record grid_wf (t : Grid) : Prop := {
  wf_dims : dim_size t <> [];
  wf_sizes : Forall (Z.lt 0) (dim_size t);
  wf_widths : Forall (Z.lt 0) (dim_width t);
  wf_width_count : length (dim_width t) = length (dim_size t);
  wf_starts : port_start t = port_starts 0 (dim_width t);
  wf_local_start : local_port_start t = needed_ports (dim_width t);
  wf_locals : 0 < num_local_ports t;
  wf_fits : routers (dim_size t) * num_local_ports t < 2 ^ 31
}.

(** The number of hops between two locations. *)
Definition distance (dir : Direction) (n here there : Z) : Z :=
  if here =? there then 0 else (dir n here there).2.
Fixpoint hops (dir : Direction) (sizes from to : list Z) : Z :=
  match sizes, from, to with
  | n :: sizes', i :: from', j :: to' => distance dir n i j + hops dir sizes' from' to'
  | _, _, _ => 0
  end.

(** Where a channel stands in the order in which packets use them: the
    dimension, then the place on the ring counted from the dateline in the
    channel's direction, one round per VC. *)
Definition ring_place (n : Z) (up : bool) (here : Z) : Z := if up then here else (n - here) mod n.
Definition rank (t : Grid) (ch : channel) : Z * Z :=
  match port_link (port_start t) (dim_width t) 0 (ch_port ch) with
  | Some (dim, up, _) =>
      let n := default 0 (dim_size t !! dim) in
      (Z.of_nat dim, ch_vc ch mod 2 * n + ring_place n up (default 0 (ch_loc ch !! dim)))
  | None => (-1, 0)
  end.
Definition before (a b : Z * Z) : Prop := a.1 < b.1 \/ a.1 = b.1 /\ a.2 < b.2.

(** The distance of two routers of a torus: in every dimension the shorter way around the
    ring. *)
Definition ring_distance (n here there : Z) : Z := Z.min ((there - here) mod n) ((here - there) mod n).
Fixpoint torus_distance (sizes from to : list Z) : Z :=
  match sizes, from, to with
  | n :: sizes', i :: from', j :: to' => ring_distance n i j + torus_distance sizes' from' to'
  | _, _, _ => 0
  end.
(** That of two routers of a mesh. *)
Fixpoint manhattan_distance (sizes from to : list Z) : Z :=
  match sizes, from, to with
  | _ :: sizes', i :: from', j :: to' => Z.abs (i - j) + manhattan_distance sizes' from' to'
  | _, _, _ => 0
  end.

Lemma torus_hops sizes from to :
  in_box sizes from -> in_box sizes to -> hops torus_direction sizes from to = torus_distance sizes from to.
Proof.
  intros H. revert to. induction H as [|i n from sizes Hi H IH]; intros to Hd.
  - by apply Forall2_nil_inv_l in Hd as ->.
  - apply Forall2_cons_inv_l in Hd as (j & to' & Hj & Hd & ->). cbn [hops torus_distance]. rewrite IH by done. f_equal.
    assert (Hm : forall a b, 0 <= a < i -> 0 <= b < i -> (a - b) mod i = if a - b <? 0 then a - b + i else a - b).
    { intros a b Ha Hb. destruct (Z.ltb_spec (a - b) 0); [|apply Z.mod_small; lia].
      rewrite <- (Z_mod_plus_full _ 1), Z.mul_1_l. apply Z.mod_small. lia. }
    unfold distance, ring_distance, torus_direction. rewrite !Hm by lia.
    destruct (Z.eqb_spec n j); [subst; rewrite Z.sub_diag; cbn; lia|]. cbn [snd].
    set (p := if j - n <? 0 then _ else _). set (q := if n - j <? 0 then _ else _). destruct (Z.leb_spec p q); lia.
Qed.
Lemma mesh_hops sizes from to :
  length from = length sizes -> length to = length sizes -> hops mesh_direction sizes from to = manhattan_distance sizes from to.
Proof.
  revert from to. induction sizes as [|n sizes IH]; intros [|i from] [|j to] Hf Ht; try done. injection Hf as Hf. injection Ht as Ht.
  cbn [hops manhattan_distance]. rewrite IH by done. f_equal. unfold distance, mesh_direction. cbn [snd].
  destruct (Z.eqb_spec i j); lia.
Qed.

Section walk.
Context (dir : Direction) (wrap : bool) {HD : DirectionLaws dir wrap} (t : Grid) (Hwf : grid_wf t).
Implicit Types (loc dl : list Z) (ev : event).

Lemma distance_nonneg n i j : 0 <= i < n -> 0 <= j < n -> 0 <= distance dir n i j.
Proof.
  intros Hi Hj. unfold distance. destruct (Z.eqb_spec i j); [done|].
  destruct (dir_step n i j Hi Hj) as (up & d & -> & Hd & _); simpl; [done|lia].
Qed.

Lemma hops_nonneg sizes loc dl : in_box sizes loc -> in_box sizes dl -> 0 <= hops dir sizes loc dl.
Proof.
  intros H. revert dl. induction H as [|n i s l Hi H IH]; intros dl Hd.
  - by apply Forall2_nil_inv_l in Hd as ->.
  - apply Forall2_cons_inv_l in Hd as (j & dl' & Hj & Hd & ->). simpl.
    pose proof (distance_nonneg n i j Hi Hj). specialize (IH _ Hd). lia.
Qed.

Lemma hops_zero sizes loc : hops dir sizes loc loc = 0.
Proof.
  revert loc. induction sizes as [|n s IH]; intros [|i l]; simpl; [done..|].
  unfold distance. by rewrite Z.eqb_refl, IH.
Qed.

Lemma hops_update sizes loc dl k n here there next :
  in_box sizes loc -> in_box sizes dl -> sizes !! k = Some n -> loc !! k = Some here ->
  dl !! k = Some there -> distance dir n next there + 1 = distance dir n here there ->
  hops dir sizes (<[k := next]> loc) dl + 1 = hops dir sizes loc dl.
Proof.
  intros H. revert dl k. induction H as [|m i s l Hi H IH]; intros dl k Hd Hn Hh Ht E; [done|].
  apply Forall2_cons_inv_l in Hd as (j & dl' & Hj & Hd & ->).
  destruct k as [|k]; simplify_eq/=; [lia|]. rewrite <- (IH _ _ Hd Hn Hh Ht E). lia.
Qed.

(** The dimensions up to the first in which the packet has not arrived. *)
Lemma route_loop_skip port vc loc dl ev m r :
  in_box (dim_size t) loc -> in_box (dim_size t) dl -> loc <> dl -> dest_loc (route_ ev) = dl ->
  routing_dim (route_ ev) = Z.of_nat r -> (r + m)%nat = dimensions t ->
  (forall i, (i < r)%nat -> loc !! i = dl !! i) ->
  exists k ev', (r <= k < dimensions t)%nat /\ (forall i, (i < k)%nat -> loc !! i = dl !! i) /\
    loc !! k <> dl !! k /\
    route_loop dir (node t loc) port vc (seqZ (Z.of_nat r) (Z.of_nat m)) ev
      = route_out dir (node t loc) port vc (Z.of_nat k) ev' /\
    encap_ev ev' = encap_ev ev /\ route_ ev' = mkGridEvent (Z.of_nat k) dl /\
    ire_vc ev' = (if decide (k = r) then ire_vc ev else Z.land vc (Z.lnot 1)).
Proof.
  intros Hl Hd Hne. revert r ev. induction m as [|m IH]; intros r ev Hdl Hr Hm Heq.
  { exfalso. apply Hne. apply list_eq. intros i. destruct (decide (i < r)%nat); [by apply Heq|].
    apply Forall2_length in Hl, Hd. unfold dimensions in Hm.
    rewrite !lookup_ge_None_2 by lia. done. }
  rewrite (seqZ_cons (Z.of_nat r)) by lia. cbn [route_loop].
  assert (r < dimensions t)%nat as Hlt by lia. unfold dimensions in Hlt.
  destruct (lookup_lt_is_Some_2 loc r) as [here Hh]; [rewrite <- (Forall2_length _ _ _ Hl); lia|].
  destruct (lookup_lt_is_Some_2 dl r) as [there Ht]; [rewrite <- (Forall2_length _ _ _ Hd); lia|].
  rewrite Hdl, (at_index_nat _ _ _ Ht). cbn. rewrite (at_index_nat _ _ _ Hh). cbn.
  destruct (Z.eqb_spec there here) as [->|Hn].
  - set (ev1 := setVC _ _). replace (Z.succ (Z.of_nat r)) with (Z.of_nat (S r)) by lia.
    replace (Z.pred (Z.of_nat (S m))) with (Z.of_nat m) by lia.
    destruct (IH (S r) ev1) as (k & ev' & Hk & Hki & Hkn & E & He & Hrt & Hvc); [done| |lia| |].
    + change (Z.succ (routing_dim (route_ ev)) = Z.of_nat (S r)). rewrite Hr. lia.
    + intros i Hi. destruct (decide (i = r)) as [->|]; [congruence|apply Heq; lia].
    + exists k, ev'. split; [lia|]. split_and!; try done.
      rewrite Hvc. rewrite (decide_False (P := k = r)) by lia. by case_decide.
  - exists r, ev. split; [lia|]. split; [done|]. split; [congruence|]. split; [done|].
    split; [done|]. split; [|by rewrite decide_True].
    destruct ev as [? ? ? ? [? ?]]. simpl in *. by subst.
Qed.

(** What holds of a packet between two routers: [last] is the rank of the channel
    it came in on, unless it has just been injected. *)
Record packet_ok (re : RtrEvent) (dl loc : list Z) (port : Z) ev (last : option (Z * Z)) : Prop := {
  pk_event : encap_ev ev = re;
  pk_dest : dest_loc (route_ ev) = dl;
  pk_here : in_box (dim_size t) loc;
  pk_passed : forall i, (i < Z.to_nat (routing_dim (route_ ev)))%nat -> loc !! i = dl !! i;
  pk_dim : 0 <= routing_dim (route_ ev) < Z.of_nat (dimensions t);
  pk_way : match last with
           | None => local_port_start t <= port /\ ire_vc ev = 2 * route_vn re
           | Some rk => exists b u n here there up,
               ire_vc ev = 2 * route_vn re + b /\ (b = 0 \/ b = 1) /\
               port < local_port_start t /\
               dim_size t !! Z.to_nat (routing_dim (route_ ev)) = Some n /\
               loc !! Z.to_nat (routing_dim (route_ ev)) = Some here /\
               dl !! Z.to_nat (routing_dim (route_ ev)) = Some there /\
               rk = (routing_dim (route_ ev), b * n + u) /\ 0 <= u < n /\
               ring_place n up here = (u + 1) mod n /\
               (here <> there -> exists d, dir n here there = (up, d) /\ (b = 1 -> u + 1 + d <= n))
           end
}.

Lemma ring_place_range n up here : 0 <= here < n -> 0 <= ring_place n up here < n.
Proof. intros. unfold ring_place. destruct up; [done|]. apply Z.mod_pos_bound. lia. Qed.

Lemma ring_place_zero n up here : 0 <= here < n -> ring_place n up here = 0 <-> here = 0.
Proof.
  intros H. unfold ring_place. destruct up; [done|]. destruct (decide (here = 0)) as [->|].
  - rewrite Z.sub_0_r, Z.mod_same by lia. done.
  - rewrite Z.mod_small by lia. lia.
Qed.

Lemma ring_place_next n up here :
  0 <= here < n -> ring_place n up (next_place n up here) = (ring_place n up here + 1) mod n.
Proof.
  intros H. pose proof (next_place_cases n up here H) as (Hb & Hn). unfold ring_place. destruct up; [done|].
  destruct (decide (here = 0)) as [->|].
  - rewrite (proj2 Hn) by done. rewrite Z.sub_0_r, Z.mod_same by lia. f_equal. lia.
  - rewrite (proj1 Hn) by lia. rewrite (Z.mod_small (n - here)) by lia. f_equal. lia.
Qed.

Lemma choose_multipath_range start w d :
  0 <= d < 2 ^ 31 -> 0 < w -> exists k, choose_multipath start w d = Ok (start + k) /\ 0 <= k < w.
Proof.
  intros Hd Hw. unfold choose_multipath. destruct (Z.eqb_spec w 1) as [->|].
  - exists 0. split; [by rewrite Z.add_0_r|lia].
  - rewrite int_rem_Ok by lia. exists (d mod w). split; [done|]. apply Z.mod_pos_bound. lia.
Qed.

Lemma width_at k n : dim_size t !! k = Some n ->
  exists w s, dim_width t !! k = Some w /\ port_start t !! k = Some s /\ 0 <= s.1 /\ s.2 = s.1 + w /\
    s.2 + w <= local_port_start t /\ 0 < w.
Proof.
  intros Hn. destruct (lookup_lt_is_Some_2 (dim_width t) k) as [w Hw].
  { rewrite (wf_width_count _ Hwf). by eapply lookup_lt_Some. }
  pose proof (port_starts_lookup 0 _ _ _ Hw) as Hs. rewrite <- (wf_starts _ Hwf) in Hs.
  eexists w, _. split; [done|]. split; [done|]. rewrite (wf_starts _ Hwf) in Hs.
  pose proof (port_starts_range _ _ _ _ _ (wf_widths _ Hwf) Hw Hs).
  rewrite (wf_local_start _ Hwf). lia.
Qed.

Lemma size_bound k n : dim_size t !! k = Some n -> 0 < n < 2 ^ 31.
Proof.
  intros Hn. pose proof (Forall_lookup_1 _ _ _ _ (wf_sizes _ Hwf) Hn) as Hpos. split; [done|].
  pose proof (wf_fits _ Hwf). pose proof (wf_locals _ Hwf).
  assert (n <= routers (dim_size t)); [|nia].
  rewrite <- (take_drop_middle _ _ _ Hn), routers_app, routers_cons.
  assert (0 < routers (take k (dim_size t))) by apply routers_pos, Forall_take, (wf_sizes _ Hwf).
  assert (0 < routers (drop (S k) (dim_size t))) by apply routers_pos, Forall_drop, (wf_sizes _ Hwf).
  assert (1 * n <= routers (take k (dim_size t)) * n) by (apply Z.mul_le_mono_nonneg_r; lia). nia.
Qed.

Lemma route_out_Ok k n here there up d w s loc dl port vc ev :
  dim_size t !! k = Some n -> loc !! k = Some here -> dl !! k = Some there ->
  dest_loc (route_ ev) = dl -> dir n here there = (up, d) -> 0 <= d < n ->
  dim_width t !! k = Some w -> port_start t !! k = Some s -> 0 < w ->
  exists num, 0 <= num < w /\
    route_out dir (node t loc) port vc (Z.of_nat k) ev =
      Ok (let ev := setNextPort ((if up then s.1 else s.2) + num) ev in
          if (here =? 0) && (port <? local_port_start t) then setVC (Z.lxor vc 1) ev else ev).
Proof.
  intros Hn Hh Ht Hd Hdir Hdn Hw Hs Hpos. pose proof (size_bound _ _ Hn).
  destruct (choose_multipath_range (if up then s.1 else s.2) w d) as (num & Hc & Hnum); [lia..|].
  exists num. split; [done|]. unfold route_out, node. cbn [dim_size id_loc port_start dim_width local_port_start].
  rewrite (at_index_nat _ _ _ Hn). cbn. rewrite (at_index_nat _ _ _ Hh). cbn.
  rewrite Hd, (at_index_nat _ _ _ Ht). cbn. rewrite (at_index_nat _ _ _ Hs). cbn.
  rewrite (at_index_nat _ _ _ Hw). cbn. rewrite Hdir, Hc. done.
Qed.

(** A packet on its way out of a router in dimension [k] arrives at the next. *)
Lemma leaves re dl loc k n here there up d w s num b ev :
  in_box (dim_size t) loc -> in_box (dim_size t) dl ->
  dim_size t !! k = Some n -> loc !! k = Some here -> dl !! k = Some there -> here <> there ->
  (forall i, (i < k)%nat -> loc !! i = dl !! i) ->
  dir n here there = (up, d) ->
  dim_width t !! k = Some w -> port_start t !! k = Some s -> 0 <= num < w ->
  encap_ev ev = re -> route_ ev = mkGridEvent (Z.of_nat k) dl ->
  ire_vc ev = 2 * route_vn re + b -> b = 0 \/ b = 1 -> (b = 1 -> ring_place n up here + d <= n) ->
  let p := (if up then s.1 else s.2) + num in
  let ch := mkChannel loc p (ire_vc ev) in
  exists loc' port', p < local_port_start t /\ neighbour wrap t loc p = Some (loc', port') /\
    rank t ch = (Z.of_nat k, b * n + ring_place n up here) /\
    packet_ok re dl loc' port' ev (Some (rank t ch)) /\
    hops dir (dim_size t) loc' dl + 1 = hops dir (dim_size t) loc dl.
Proof.
  intros Hl Hd Hn Hh Ht Hne Hpre Hdir Hw Hs Hnum He Hr Hvc Hb Hinv p ch.
  pose proof (in_box_at _ _ _ _ _ Hl Hn Hh) as Hhn.
  pose proof (in_box_at _ _ _ _ _ Hd Hn Ht) as Htn.
  destruct (dir_step n here there Hhn Htn Hne) as (up' & d' & Hdir' & Hdn & Hlink & Hd1 & Hd2).
  rewrite Hdir in Hdir'. injection Hdir' as <- <-.
  pose proof (next_place_cases n up here Hhn) as [Hnext _].
  assert (port_link (port_start t) (dim_width t) 0 p = Some (k, up, num)) as Hpl.
  { rewrite (wf_starts _ Hwf) in Hs |- *.
    exact (port_link_at 0 _ 0 k w s up num (wf_widths _ Hwf) Hw Hs Hnum). }
  destruct (width_at k n Hn) as (w' & s' & Hw' & Hs' & ? & ? & ? & ?).
  assert (w' = w) as -> by congruence. assert (s' = s) as -> by congruence.
  assert (rank t ch = (Z.of_nat k, b * n + ring_place n up here)) as Hrank.
  { unfold rank, ch. cbn [ch_port ch_vc ch_loc]. rewrite Hpl, Hn, Hh. simpl. rewrite Hvc.
    replace (2 * route_vn re + b) with (b + route_vn re * 2) by lia. rewrite Z.mod_add by lia.
    by destruct Hb as [-> | ->]. }
  exists (<[k := next_place n up here]> loc), ((if up then s.2 else s.1) + num).
  split; [subst p; destruct up; lia|]. split.
  { unfold neighbour. rewrite Hpl. simpl. rewrite Hh. simpl. rewrite Hn. simpl. rewrite Hs. simpl.
    unfold next_place. destruct up; cbn in Hlink |- *; by rewrite Hlink. }
  split; [done|]. split.
  - rewrite Hrank. constructor; rewrite ?Hr; cbn [routing_dim dest_loc].
    + done.
    + done.
    + by eapply in_box_insert.
    + intros i Hi. rewrite list_lookup_insert_ne by lia. apply Hpre. lia.
    + apply lookup_lt_Some in Hn. unfold dimensions. lia.
    + rewrite Nat2Z.id. exists b, (ring_place n up here), n, (next_place n up here), there, up.
      split_and!; try done; try (by apply ring_place_range); [destruct up; lia|..].
      * rewrite list_lookup_insert, decide_True by (split; [done|by eapply lookup_lt_Some]). done.
      * by apply ring_place_next.
      * intros Hn2. destruct (Z.eq_dec d 1) as [->|]; [by rewrite Hd1 in Hn2|].
        exists (d - 1). split; [apply Hd2; lia|]. intros Hb1. specialize (Hinv Hb1). lia.
  - apply hops_update with n here there; [done..|].
    unfold distance. rewrite (proj2 (Z.eqb_neq here there)), Hdir by done. cbn [snd].
    destruct (Z.eq_dec d 1) as [->|]; [by rewrite Hd1, Z.eqb_refl|].
    destruct Hd2 as [Hn2 ->]; [lia|]. rewrite (proj2 (Z.eqb_neq _ _)) by done. simpl. lia.
Qed.

(** The VC a packet leaves on, and how its channel ranks against the last. *)
Definition follows (last : option (Z * Z)) (rk : Z * Z) : Prop :=
  match last with Some l => before l rk | None => True end.

Lemma leaving_vc re dl loc port ev last k n here there up d vc' :
  packet_ok re dl loc port ev last -> in_box (dim_size t) dl ->
  (Z.to_nat (routing_dim (route_ ev)) <= k)%nat ->
  dim_size t !! k = Some n -> loc !! k = Some here -> dl !! k = Some there -> here <> there ->
  dir n here there = (up, d) -> 0 < d < n ->
  vc' = (if (here =? 0) && (port <? local_port_start t) then Z.lxor (ire_vc ev) 1
         else if decide (k = Z.to_nat (routing_dim (route_ ev))) then ire_vc ev
              else Z.land (ire_vc ev) (Z.lnot 1)) ->
  exists b, vc' = 2 * route_vn re + b /\ (b = 0 \/ b = 1) /\ (b = 1 -> ring_place n up here + d <= n) /\
    follows last (Z.of_nat k, b * n + ring_place n up here).
Proof.
  intros [He Hdl Hl Hpre Hdim Hway] Hd Hk Hn Hh Ht Hne Hdir Hdn ->.
  pose proof (in_box_at _ _ _ _ _ Hl Hn Hh) as Hhn.
  pose proof (ring_place_range n up here Hhn) as Hrp. pose proof (ring_place_zero n up here Hhn) as Hrz.
  destruct last as [rk|]; cbn [follows].
  2:{ destruct Hway as [Hport ->]. rewrite (proj2 (Z.ltb_ge port _)), andb_false_r by lia.
      exists 0. rewrite Z.add_0_r. split; [|split; [by left|split; [done|done]]].
      case_decide; [done|]. rewrite <- (Z.add_0_r (2 * route_vn re)) at 1. by rewrite vc_reset by auto. }
  destruct Hway as (b & u & n0 & here0 & there0 & up0 & -> & Hb & Hport & Hn0 & Hh0 & Ht0 & -> & Hu & Hring & Hin).
  rewrite (proj2 (Z.ltb_lt port _)), andb_true_r by lia. rewrite vc_toggle, vc_reset by done.
  unfold before. cbn [fst snd].
  destruct (decide (k = Z.to_nat (routing_dim (route_ ev)))) as [->|Hkr].
  - assert (n0 = n) as -> by congruence. assert (here0 = here) as -> by congruence.
    assert (there0 = there) as -> by congruence. destruct (Hin Hne) as (d0 & Hdir0 & Hinv). rewrite Hdir in Hdir0. injection Hdir0 as <- <-.
    rewrite Hring in *. destruct (Z.eqb_spec here 0) as [->|Hh1].
    + assert (u + 1 = n) as Hun.
      { destruct (decide (u + 1 = n)); [done|]. rewrite Z.mod_small in Hrz by lia. lia. }
      rewrite Hun, Z.mod_same in * by lia. destruct Hb as [-> | ->]; [|specialize (Hinv eq_refl); lia].
      exists 1. split_and!; [lia|by right|lia|right; lia].
    + assert (u + 1 <> n). { intros Hun. rewrite Hun, Z.mod_same in Hrz by lia. lia. }
      rewrite Z.mod_small in * by lia. exists b. split_and!; [lia|done| |right; lia].
      intros Hb1. specialize (Hinv Hb1). lia.
  - destruct (Z.eqb_spec here 0) as [->|Hh1].
    + exists (1 - b). split_and!; [done|lia|lia|left; lia].
    + exists 0. split_and!; [lia|by left|done|left; lia].
Qed.

Lemma grid_step re dl loc port ev last :
  packet_ok re dl loc port ev last -> in_box (dim_size t) dl -> loc <> dl ->
  get_dest_router t (re_dest re) = Ok (locationToId (dim_size t) dl) ->
  exists ev' p loc' port', grid_route dir (node t loc) port (ire_vc ev) ev = Ok ev' /\
    next_port ev' = Some p /\ p < local_port_start t /\ neighbour wrap t loc p = Some (loc', port') /\
    packet_ok re dl loc' port' ev' (Some (rank t (mkChannel loc p (ire_vc ev')))) /\
    follows last (rank t (mkChannel loc p (ire_vc ev'))) /\
    0 <= ire_vc ev' - 2 * route_vn re <= 1 /\
    hops dir (dim_size t) loc' dl + 1 = hops dir (dim_size t) loc dl.
Proof.
  intros Hp Hd Hne Hdest. pose proof Hp as [He Hdl Hl Hpre Hdim Hway].
  assert (getDest ev = re_dest re) as Hgd by (unfold getDest; by rewrite He).
  unfold grid_route. rewrite Hgd.
  change (get_dest_router (node t loc) (re_dest re)) with (get_dest_router t (re_dest re)). rewrite Hdest.
  cbn [mbind res_bind]. cbn [router_id node].
  rewrite (proj2 (Z.eqb_neq _ _)) by (intros E; by eapply Hne, eq_sym, locationToId_inj).
  set (r := Z.to_nat (routing_dim (route_ ev))).
  assert (routing_dim (route_ ev) = Z.of_nat r) as Hr by (subst r; lia).
  destruct (route_loop_skip port (ire_vc ev) loc dl ev (dimensions t - r) r)
    as (k & ev1 & Hk & Hkpre & Hkne & E & He1 & Hr1 & Hvc1); [done..|lia|done|].
  unfold dims_from. change (dimensions (node t loc)) with (dimensions t). rewrite Hr.
  replace (Z.of_nat (dimensions t) - Z.of_nat r) with (Z.of_nat (dimensions t - r)) by lia. rewrite E.
  unfold dimensions in Hk.
  destruct (lookup_lt_is_Some_2 (dim_size t) k) as [n Hn]; [lia|].
  destruct (lookup_lt_is_Some_2 loc k) as [here Hh]; [rewrite <- (Forall2_length _ _ _ Hl); lia|].
  destruct (lookup_lt_is_Some_2 dl k) as [there Ht]; [rewrite <- (Forall2_length _ _ _ Hd); lia|].
  assert (here <> there) as Hht by congruence.
  destruct (width_at k n Hn) as (w & s & Hw & Hs & ? & ? & ? & ?).
  destruct (dir_step n here there (in_box_at _ _ _ _ _ Hl Hn Hh) (in_box_at _ _ _ _ _ Hd Hn Ht) Hht)
    as (up & d & Hdir & Hdn & _).
  destruct (route_out_Ok k n here there up d w s loc dl port (ire_vc ev) ev1) as (num & Hnum & ->);
    [done|done|done|by rewrite Hr1|done|lia|done|done|done|].
  set (ev' := if (here =? 0) && _ then _ else _).
  assert (ire_vc ev' = if (here =? 0) && (port <? local_port_start t) then Z.lxor (ire_vc ev) 1
         else if decide (k = r) then ire_vc ev else Z.land (ire_vc ev) (Z.lnot 1)) as Hvc'.
  { subst ev'. destruct ((here =? 0) && _); [done|]. exact Hvc1. }
  destruct (leaving_vc re dl loc port ev last k n here there up d _ Hp Hd (proj1 Hk) Hn Hh Ht Hht Hdir Hdn Hvc')
    as (b & Eb & Hb & Hinv & Hfollow).
  assert (encap_ev ev' = re /\ route_ ev' = mkGridEvent (Z.of_nat k) dl /\
          next_port ev' = Some ((if up then s.1 else s.2) + num)) as (He' & Hr' & Hnp)
    by (subst ev'; destruct ((here =? 0) && _); rewrite <- He, <- He1, <- Hr1; done).
  destruct (leaves re dl loc k n here there up d w s num b ev') as (loc' & port' & Hlt & Hnb & Hrk & Hok & Hhops);
    [done..|].
  exists ev', ((if up then s.1 else s.2) + num), loc', port'. rewrite Hrk in *.
  split_and!; try done; lia.
Qed.

Lemma hops_pos loc dl :
  in_box (dim_size t) loc -> in_box (dim_size t) dl -> hops dir (dim_size t) loc dl = 0 -> loc = dl.
Proof.
  generalize (dim_size t). intros sizes H. revert dl.
  induction H as [|n i s l Hi H IH]; intros dl Hd E.
  - by apply Forall2_nil_inv_l in Hd as ->.
  - apply Forall2_cons_inv_l in Hd as (j & dl' & Hj & Hd & ->). simpl in E.
    pose proof (distance_nonneg n i j Hi Hj). pose proof (hops_nonneg _ _ _ H Hd).
    f_equal; [|apply IH; [done|lia]]. unfold distance in *. destruct (Z.eqb_spec i j); [done|].
    destruct (dir_step n i j Hi Hj) as (up & d & Hdir & ? & _); [done|]. rewrite Hdir in *. simpl in *. lia.
Qed.

(** The whole way. *)
Lemma walk_delivers h re dl lp loc port ev last :
  packet_ok re dl loc port ev last -> in_box (dim_size t) dl ->
  get_dest_router t (re_dest re) = Ok (locationToId (dim_size t) dl) ->
  get_dest_local_port t (re_dest re) = Ok lp -> local_port_start t <= lp ->
  hops dir (dim_size t) loc dl = Z.of_nat h ->
  exists chs, journey (S h) dir wrap t loc port ev = Ok (chs, dl, lp) /\ length chs = h /\
    Sorted before (option_list last ++ (rank t <$> chs)) /\
    Forall (fun ch => 0 <= ch_vc ch - 2 * route_vn re <= 1) chs.
Proof.
  intros Hp Hd Hdr Hdp Hlp. revert loc port ev last Hp.
  induction h as [|h IH]; intros loc port ev last Hp Hh.
  - apply hops_pos in Hh as ->; [|by eapply pk_here|done]. exists [].
    split; [|split; [done|split; [by destruct last; repeat constructor|constructor]]].
    cbn [journey]. unfold grid_route.
    replace (getDest ev) with (re_dest re) by (unfold getDest; by erewrite pk_event).
    change (get_dest_router (node t dl) (re_dest re)) with (get_dest_router t (re_dest re)). rewrite Hdr.
    cbn [mbind res_bind]. cbn [router_id node]. rewrite Z.eqb_refl.
    change (get_dest_local_port (node t dl) (re_dest re)) with (get_dest_local_port t (re_dest re)).
    rewrite Hdp. cbn. by rewrite (proj2 (Z.leb_le _ _)).
  - assert (loc <> dl) as Hne by (intros ->; rewrite hops_zero in Hh; lia).
    destruct (grid_step _ _ _ _ _ _ Hp Hd Hne Hdr) as (ev' & p & loc' & port' & E & Enp & Hplt & Enb & Hp' & Hf & Hvc & Hh').
    destruct (IH loc' port' ev' _ Hp') as (chs & Ej & Hlen & Hs & Hv); [lia|].
    exists (mkChannel loc p (ire_vc ev') :: chs). split; [|split; [by simpl; f_equal|split]].
    + remember (S h) as f. cbn [journey]. rewrite E. cbn [mbind res_bind]. unfold getNextPort. rewrite Enp. cbn.
      rewrite (proj2 (Z.leb_gt _ _)) by lia. rewrite Enb. cbn. by rewrite Ej.
    + destruct last as [rk|]; [|done]. simpl. constructor; [done|]. by constructor.
    + by constructor.
Qed.

Lemma injected src port re :
  in_box (dim_size t) src -> local_port_start t <= port ->
  0 <= re_dest re < routers (dim_size t) * num_local_ports t ->
  exists ev dl lp, grid_input (node t src) re = Ok ev /\ in_box (dim_size t) dl /\
    packet_ok re dl src port ev None /\
    get_dest_router t (re_dest re) = Ok (locationToId (dim_size t) dl) /\
    get_dest_local_port t (re_dest re) = Ok lp /\
    local_port_start t <= lp < local_port_start t + num_local_ports t /\
    locationToId (dim_size t) dl * num_local_ports t + (lp - local_port_start t) = re_dest re.
Proof.
  intros Hs Hport Hdest. pose proof (wf_fits _ Hwf). pose proof (wf_locals _ Hwf).
  set (q := re_dest re / num_local_ports t).
  assert (0 <= q < routers (dim_size t)) as Hq
    by (subst q; split; [apply Z.div_pos; lia|apply Z.div_lt_upper_bound; lia]).
  destruct (idToLocation_Ok (dim_size t) q) as (dl & Hdl & Hbox & Hid);
    [apply (wf_dims _ Hwf)|apply (wf_sizes _ Hwf)|nia|done|].
  assert (get_dest_router t (re_dest re) = Ok q) as Hr by (apply int_div_Ok; lia).
  pose proof (Z.mod_pos_bound (re_dest re) (num_local_ports t)).
  eexists _, dl, (local_port_start t + re_dest re mod num_local_ports t). split_and!; try done.
  - unfold grid_input. change (get_dest_router (node t src) (re_dest re)) with (get_dest_router t (re_dest re)).
    rewrite Hr. cbn [mbind res_bind]. cbn [dim_size node]. by rewrite Hdl.
  - constructor; try done; cbn.
    + intros i Hi. lia.
    + pose proof (wf_dims _ Hwf) as Hne. unfold dimensions. destruct (dim_size t); [done|simpl; lia].
    + split; [done|lia].
  - by rewrite Hid.
  - unfold get_dest_local_port. by rewrite int_rem_Ok by lia.
  - lia.
  - lia.
  - rewrite Hid. pose proof (Z.div_mod (re_dest re) (num_local_ports t)). subst q. lia.
Qed.
End walk.

Lemma journey_more dir wrap t f f' loc port ev r :
  journey f dir wrap t loc port ev = Ok r -> (f <= f')%nat -> journey f' dir wrap t loc port ev = Ok r.
Proof.
  revert f' loc port ev r. induction f as [|f IH]; intros f' loc port ev r E Hf; [done|].
  destruct f' as [|f']; [lia|]. cbn [journey] in *.
  destruct (grid_route _ _ _ _ _) as [ev'|]; [|done]. cbn [mbind res_bind] in *.
  destruct (getNextPort ev') as [p|]; [|done]. cbn [mbind res_bind] in *.
  destruct (_ <=? p); [done|]. destruct (of_option _ _) as [nx|]; [|done]. cbn [mbind res_bind] in *.
  destruct (journey f _ _ _ _ _ _) as [[[chs l] q]|] eqn:Ej; [|done].
  rewrite (IH f' _ _ _ _ Ej) by lia. done.
Qed.

(** ** Delivery *)

(** A packet that enters the network at a local port of a router. *)
Record enters (t : Grid) (re : RtrEvent) (src : list Z) (port : Z) : Prop := {
  enters_at : in_box (dim_size t) src;
  enters_port : local_port_start t <= port;
  enters_dest : 0 <= re_dest re < routers (dim_size t) * num_local_ports t
}.

Section delivery.
Context (dir : Direction) (wrap : bool) {HD : DirectionLaws dir wrap} (t : Grid) (Hwf : grid_wf t).

Lemma grid_delivers re src port :
  enters t re src port ->
  exists ev chs dst p, grid_input (node t src) re = Ok ev /\
    journey (S (length chs)) dir wrap t src port ev = Ok (chs, dst, p) /\ in_box (dim_size t) dst /\
    Z.of_nat (length chs) = hops dir (dim_size t) src dst /\
    local_port_start t <= p < local_port_start t + num_local_ports t /\
    locationToId (dim_size t) dst * num_local_ports t + (p - local_port_start t) = re_dest re.
Proof.
  intros [Hs Hport Hdest].
  destruct (injected dir t Hwf src port re Hs Hport Hdest) as (ev & dl & lp & Ein & Hdl & Hp & Hr & Hl & Hlp & Hep).
  destruct (walk_delivers dir wrap t Hwf (Z.to_nat (hops dir (dim_size t) src dl)) re dl lp src port ev None)
    as (chs & E & Hlen & _); [done..|lia| |].
  { pose proof (hops_nonneg dir wrap _ _ _ Hs Hdl). lia. }
  exists ev, chs, dl, lp. rewrite <- Hlen in E. split_and!; try done; try lia.
  pose proof (hops_nonneg dir wrap _ _ _ Hs Hdl). lia.
Qed.

Lemma grid_ordered re src port ev fuel chs dst p :
  enters t re src port -> grid_input (node t src) re = Ok ev ->
  journey fuel dir wrap t src port ev = Ok (chs, dst, p) ->
  Sorted before (rank t <$> chs) /\ Forall (fun ch => 0 <= ch_vc ch - 2 * route_vn re <= 1) chs.
Proof.
  intros [Hs Hport Hdest] Ein Ej.
  destruct (injected dir t Hwf src port re Hs Hport Hdest) as (ev' & dl & lp & Ein' & Hdl & Hp & Hr & Hl & Hlp & _).
  rewrite Ein in Ein'. injection Ein' as <-.
  destruct (walk_delivers dir wrap t Hwf (Z.to_nat (hops dir (dim_size t) src dl)) re dl lp src port ev None)
    as (chs' & E & _ & Hsort & Hvc); [done..|lia| |].
  { pose proof (hops_nonneg dir wrap _ _ _ Hs Hdl). lia. }
  set (h := S _) in E.
  apply (journey_more _ _ _ _ (fuel + h)) in E; [|lia]. apply (journey_more _ _ _ _ (fuel + h)) in Ej; [|lia].
  rewrite E in Ej. injection Ej as -> -> ->. done.
Qed.

(** Two channels a packet can hold one after the other: whoever waits for the
    second holds the first. *)
Definition depends (c1 c2 : channel) : Prop :=
  exists re src port ev fuel chs dst p, enters t re src port /\ grid_input (node t src) re = Ok ev /\
    journey fuel dir wrap t src port ev = Ok (chs, dst, p) /\
    exists before_ after_, chs = before_ ++ c1 :: c2 :: after_.

Lemma before_trans : Transitive before.
Proof. intros a b c. unfold before. lia. Qed.

Lemma sorted_consecutive (l1 l2 : list (Z * Z)) a b : Sorted before (l1 ++ a :: b :: l2) -> before a b.
Proof.
  induction l1 as [|x l1 IH]; simpl; intros H; [|apply IH; by inversion H].
  inversion H as [|? ? _ Hh]; subst. by inversion Hh.
Qed.

Lemma depends_ranked c1 c2 : tc depends c1 c2 -> before (rank t c1) (rank t c2).
Proof.
  assert (forall a b, depends a b -> before (rank t a) (rank t b)) as Hone.
  { intros a b (re & src & port & ev & fuel & chs & dst & p & Hen & Ein & Ej & l1 & l2 & ->).
    pose proof (grid_ordered _ _ _ _ _ _ _ _ Hen Ein Ej) as [Hsort _].
    rewrite fmap_app in Hsort. exact (sorted_consecutive (map (rank t) l1) (map (rank t) l2) _ _ Hsort). }
  induction 1 as [a b H|a b c H _ IH]; [by apply Hone|]. by eapply before_trans; [apply Hone|].
Qed.

Lemma depends_acyclic c : ~ tc depends c c.
Proof. intros H%depends_ranked. unfold before in H. lia. Qed.
End delivery.

(** A host port of the router the packet left the network at, with the number of
    the endpoint there. *)
Lemma local_port_state t dst p :
  local_port_start t <= p < local_port_start t + num_local_ports t ->
  torus_port_state (node t dst) p = PortState.R2N /\ mesh_port_state (node t dst) p = PortState.R2N.
Proof.
  intros Hp. unfold torus_port_state, mesh_port_state. cbn.
  by rewrite (proj2 (Z.leb_le _ _)), (proj2 (Z.ltb_lt _ _)) by lia.
Qed.

(** C6. Every packet that enters a torus leaves it at the host port of its destination,
    after exactly the least number of hops: the sum, over the dimensions, of the shorter
    way around the ring. *)
Theorem torus_delivers t re src port :
  grid_wf t -> enters t re src port ->
  exists ev chs dst p, grid_input (node t src) re = Ok ev /\
    journey (S (length chs)) torus_direction true t src port ev = Ok (chs, dst, p) /\
    Z.of_nat (length chs) = torus_distance (dim_size t) src dst /\
    torus_port_state (node t dst) p = PortState.R2N /\
    grid_endpoint (torus_port_state (node t dst) p) (node t dst) p = re_dest re.
Proof.
  intros Hwf Hen. destruct (grid_delivers torus_direction true t Hwf re src port Hen)
    as (ev & chs & dst & p & ? & ? & Hd & Hh & Hp & He).
  exists ev, chs, dst, p. pose proof (local_port_state t dst p Hp) as [-> _].
  rewrite torus_hops in Hh by (done || apply Hen).
  split_and!; done.
Qed.

(** The same of a mesh: the hops are the Manhattan distance. *)
Theorem mesh_delivers t re src port :
  grid_wf t -> enters t re src port ->
  exists ev chs dst p, grid_input (node t src) re = Ok ev /\
    journey (S (length chs)) mesh_direction false t src port ev = Ok (chs, dst, p) /\
    Z.of_nat (length chs) = manhattan_distance (dim_size t) src dst /\
    mesh_port_state (node t dst) p = PortState.R2N /\
    grid_endpoint (mesh_port_state (node t dst) p) (node t dst) p = re_dest re.
Proof.
  intros Hwf Hen. destruct (grid_delivers mesh_direction false t Hwf re src port Hen)
    as (ev & chs & dst & p & ? & ? & Hd & Hh & Hp & He).
  exists ev, chs, dst, p. pose proof (local_port_state t dst p Hp) as [_ ->].
  rewrite mesh_hops in Hh by (symmetry; eapply Forall2_length; first [exact Hd|apply Hen]).
  split_and!; done.
Qed.

(** C15. The routing of a torus cannot deadlock: no chain of packets, each holding
    a virtual channel and waiting for the next on its way, closes to a circle. *)
Theorem torus_deadlock_free t c : grid_wf t -> ~ tc (depends torus_direction true t) c c.
Proof. intros Hwf. apply (depends_acyclic _ _ _ Hwf). Qed.

(** In a torus a packet only uses the two virtual channels of its virtual
    network. *)
Theorem torus_vcs_of_vn t re src port ev fuel chs dst p :
  grid_wf t -> enters t re src port -> grid_input (node t src) re = Ok ev ->
  journey fuel torus_direction true t src port ev = Ok (chs, dst, p) ->
  Forall (fun ch => 2 * route_vn re <= ch_vc ch < 2 * route_vn re + 2) chs.
Proof.
  intros Hwf Hen Ein Ej. destruct (grid_ordered torus_direction true t Hwf _ _ _ _ _ _ _ _ Hen Ein Ej) as [_ H].
  eapply Forall_impl; [exact H|]. simpl. lia.
Qed.
