(* ===== verification/GridShape.v ===== *)
(** * GridShape: the constructors of the torus and the mesh

    A shape printed in decimal, dimension by dimension with an [x] between, is
    read back; so the constructors build the well-formed grids [GridRoute] is
    about, and refuse a router with too few ports. The theorems of [GridRoute]
    are applied to a built torus and a built mesh. *)

From Stdlib Require Import Ascii.
From stdpp Require Import pretty.
From S2P Require Import Prelude Merlin Grid GridRoute.

(** ** Decimal numbers *)

Ltac ten_cases d :=
  let H := fresh in
  assert (d = 0 \/ d = 1 \/ d = 2 \/ d = 3 \/ d = 4 \/ d = 5 \/ d = 6 \/ d = 7 \/ d = 8 \/ d = 9)%N as H by lia;
  repeat (destruct H as [->|H]); [..|subst d].

Lemma digit_of_char (d : N) : (d < 10)%N -> digit_of 10 (pretty_N_char d) = Some (Z.of_N d).
Proof.
  intros H. by ten_cases d.
Qed.

Lemma char_not_x (d : N) : (d < 10)%N -> pretty_N_char d <> "x"%char.
Proof.
  intros H. by ten_cases d.
Qed.

(** A non-empty string of digits without a leading zero. *)
Lemma pretty_go_digits (x : N) s :
  (0 < x)%N -> count_char "x" s = 0%nat ->
  exists (d : N) r, pretty_N_go x s = String (pretty_N_char d) r /\ (0 < d < 10)%N /\
    digits 10 0 (pretty_N_go x s) = digits 10 (Z.of_N x) s /\ count_char "x" (pretty_N_go x s) = 0%nat.
Proof.
  revert s. induction (N.lt_wf_0 x) as [x _ IH]; intros s Hx Hs.
  rewrite pretty_N_go_step by done.
  assert (x mod 10 < 10)%N as Hm by (apply N.mod_lt; lia).
  pose proof (char_not_x _ Hm) as Hnx. pose proof (digit_of_char _ Hm) as Hd.
  assert (count_char "x" (String (pretty_N_char (x mod 10)) s) = 0%nat) as Hs'
    by (simpl; by rewrite bool_decide_false by congruence).
  destruct (decide (x / 10 = 0)%N) as [E|E].
  - rewrite E, pretty_N_go_0. exists (x mod 10)%N, s.
    pose proof (N.div_mod x 10). split; [done|]. split; [lia|]. split; [|done].
    cbn [digits]. rewrite Hd. f_equal. lia.
  - destruct (IH (x / 10)%N) with (s := String (pretty_N_char (x mod 10)) s) as (d & r & E1 & Hd1 & E2 & E3);
      [apply N.div_lt; lia|by apply N.neq_0_lt_0|done|].
    exists d, r. split; [done|]. split; [done|]. split; [|done]. rewrite E2. cbn [digits]. rewrite Hd.
    f_equal. pose proof (N.div_mod x 10). lia.
Qed.

Definition print_dim (n : Z) : string := pretty (Z.to_N n).

Lemma strtol_print n : 0 < n < 2 ^ 31 -> strtol (print_dim n) = n /\ count_char "x" (print_dim n) = 0%nat.
Proof.
  intros Hn. unfold print_dim, pretty, pretty_N. rewrite decide_False by lia.
  destruct (pretty_go_digits (Z.to_N n) "") as (d & r & E & Hd & Hv & Hx); [lia|done|]. split; [|done].
  rewrite E in *. cbn [digits] in Hv. unfold strtol.
  assert (skip_spaces (String (pretty_N_char d) r) = String (pretty_N_char d) r /\
    (match String (pretty_N_char d) r with
     | String "-" s' => - unsigned s' | String "+" s' => unsigned s' | s' => unsigned s' end) = n) as [-> ->];
    [|lia].
  assert (digits 10 0 (String (pretty_N_char d) r) = n) as Hn2 by (cbn [digits]; rewrite Hv; simpl; lia).
  clear -Hd Hn2. ten_cases d; [lia|by split..].
Qed.

(** ** Shapes *)

Fixpoint print_shape (ns : list Z) : string :=
  match ns with
  | [] => EmptyString
  | [n] => print_dim n
  | n :: ns' => (print_dim n +:+ String "x" (print_shape ns'))%string
  end.

Lemma length_string_app a b : String.length (a +:+ b) = (String.length a + String.length b)%nat.
Proof. induction a as [|c a IH]; simpl; [done|f_equal; exact IH]. Qed.

Lemma string_app_assoc a b c : (a +:+ (b +:+ c) = (a +:+ b) +:+ c)%string.
Proof.
  induction a as [|d a IH]; [done|].
  change (String d (a +:+ (b +:+ c)) = String d ((a +:+ b) +:+ c)). by rewrite IH.
Qed.

Lemma string_app_nil a : (a +:+ "" = a)%string.
Proof. induction a as [|d a IH]; [done|]. change (String d (a +:+ "") = String d a). by rewrite IH. Qed.

Lemma count_char_app c a b : count_char c (a +:+ b) = (count_char c a + count_char c b)%nat.
Proof. induction a as [|d a IH]; simpl; [done|]. rewrite IH. by case_bool_decide. Qed.

(** A prefix that ends before the start of the search, or does not hold the
    character, is skipped. *)
Lemma find_char_skip c a s pos start :
  (pos + String.length a <= start)%nat \/ count_char c a = 0%nat ->
  find_char c (a +:+ s) pos start = find_char c s (pos + String.length a) start.
Proof.
  revert pos. induction a as [|d a IH]; intros pos H; simpl in *.
  - by rewrite Nat.add_0_r.
  - rewrite IH by (destruct H as [H|H]; [left; lia|right; case_bool_decide; done]).
    replace (S pos + String.length a)%nat with (pos + S (String.length a))%nat by lia.
    destruct H as [H|H].
    + by rewrite (proj2 (Nat.leb_gt _ _)) by lia.
    + case_bool_decide; [done|]. by rewrite andb_false_r.
Qed.

Lemma substring_prefix a b : String.substring 0 (String.length a) (a +:+ b) = a.
Proof. induction a as [|c a IH]; simpl; [by destruct b|by rewrite IH]. Qed.

Lemma substring_skip a k s : String.substring (String.length a) k (a +:+ s) = String.substring 0 k s.
Proof. induction a as [|c a IH]; simpl; [done|exact IH]. Qed.

Lemma long_to_int_small n : - 2 ^ 31 <= n < 2 ^ 31 -> long_to_int n = n.
Proof. intros H. unfold long_to_int. rewrite Z.mod_small by lia. lia. Qed.

Definition printable : list Z -> Prop := Forall (fun n => 0 < n < 2 ^ 31).

Lemma parse_print_from pre ns :
  ns <> [] -> printable ns -> parseDims (length ns) (pre +:+ print_shape ns) (String.length pre) = ns.
Proof.
  intros Hne H. revert pre Hne. induction H as [|n ns Hn H IH]; intros pre Hne; [done|].
  destruct (strtol_print n Hn) as [Hv Hx]. cbn [length parseDims].
  rewrite find_char_skip by (left; lia). cbn [Nat.add]. destruct ns as [|m ns].
  - cbn [print_shape]. rewrite <- (string_app_nil (print_dim n)), find_char_skip by by right.
    cbn [find_char]. rewrite substring_skip, length_string_app.
    replace (_ + _ - _)%nat with (String.length (print_dim n +:+ "")) by lia.
    rewrite <- (string_app_nil (print_dim n +:+ "")) at 2. rewrite substring_prefix, string_app_nil, Hv.
    by rewrite long_to_int_small by lia.
  - change (print_shape (n :: m :: ns)) with (print_dim n +:+ String "x" (print_shape (m :: ns)))%string.
    rewrite find_char_skip by by right. cbn [find_char].
    rewrite (proj2 (Nat.leb_le _ _)), bool_decide_true by (done || lia). cbn [andb].
    rewrite substring_skip.
    replace (_ + _ - _)%nat with (String.length (print_dim n)) by lia.
    rewrite substring_prefix, Hv, long_to_int_small by lia. f_equal.
    assert (pre +:+ print_dim n +:+ String "x" (print_shape (m :: ns))
            = (pre +:+ print_dim n +:+ "x") +:+ print_shape (m :: ns))%string as ->
      by by rewrite <- !string_app_assoc.
    replace (S (String.length pre + String.length (print_dim n)))
      with (String.length (pre +:+ print_dim n +:+ "x")) by (rewrite !length_string_app; simpl; lia).
    by apply IH.
Qed.

Lemma count_print ns : ns <> [] -> printable ns -> S (count_char "x" (print_shape ns)) = length ns.
Proof.
  intros Hne H. induction H as [|n ns Hn H IH]; [done|]. destruct (strtol_print n Hn) as [_ Hx].
  destruct ns as [|m ns]; [simpl; by rewrite Hx|].
  change (print_shape (n :: m :: ns)) with (print_dim n +:+ String "x" (print_shape (m :: ns)))%string.
  rewrite count_char_app, Hx. cbn [count_char]. rewrite bool_decide_true by done.
  specialize (IH ltac:(done)). cbn [length] in *. lia.
Qed.

Lemma parse_print ns : ns <> [] -> printable ns -> parseDimString (length ns) (print_shape ns) = ns.
Proof. intros. by apply (parse_print_from ""). Qed.

Lemma print_shape_nonempty ns : ns <> [] -> printable ns -> print_shape ns <> EmptyString.
Proof.
  intros Hne H E. pose proof (parse_print ns Hne H) as Hp. rewrite E in Hp.
  destruct H as [|n ns Hn H]; [done|]. destruct ns; simpl in Hp; by injection Hp as <-.
Qed.

(** ** The constructors *)

(** The loops over [int] give the layout, unless it does not fit. *)
Lemma set_port_starts_result widths : forall base, Forall (Z.lt 0) widths -> 0 <= base < 2 ^ 31 ->
  set_port_starts base widths =
    if base + needed_ports widths <? 2 ^ 31 then Ok (port_starts base widths) else Err (Undefined "signed overflow").
Proof.
  induction widths as [|w widths IH]; intros base Hw Hb; cbn [set_port_starts needed_ports foldr port_starts].
  { by rewrite (proj2 (Z.ltb_lt _ _)) by lia. }
  apply Forall_cons in Hw as [H0 Hw]. pose proof (needed_ports_nonneg _ Hw) as Hn. unfold needed_ports in *.
  rewrite int_add_result by lia. destruct (Z.ltb_spec (base + w) (2 ^ 31)) as [H1|H1]; cbn [mbind res_bind].
  2: { by rewrite (proj2 (Z.ltb_ge _ _)) by lia. }
  rewrite int_add_result by lia. destruct (Z.ltb_spec (base + w + w) (2 ^ 31)) as [H2|H2]; cbn [mbind res_bind].
  2: { by rewrite (proj2 (Z.ltb_ge _ _)) by lia. }
  rewrite IH by (done || lia).
  replace (base + w + w) with (base + 2 * w) by lia. rewrite (Z.add_assoc base (2 * w)). by destruct (_ <? _).
Qed.
Lemma count_needed_ports_result widths : forall n, Forall (Z.lt 0) widths -> 0 <= n -> n + needed_ports widths < 2 ^ 31 ->
  count_needed_ports n widths = Ok (n + needed_ports widths).
Proof.
  induction widths as [|w widths IH]; intros n Hw Hn Hfit; cbn [count_needed_ports needed_ports foldr] in *; [f_equal; lia|].
  apply Forall_cons in Hw as [H0 Hw]. pose proof (needed_ports_nonneg _ Hw) as Hn'. unfold needed_ports in *.
  unfold int_mul. rewrite int_of_Ok by lia. cbn [mbind res_bind]. rewrite int_add_result, (proj2 (Z.ltb_lt _ _)) by lia. cbn [mbind res_bind].
  rewrite IH by (done || lia). f_equal. lia.
Qed.

(** C38. The constructor reads back the printed shape and width, and builds the
    well-formed topology of the router with its number; it refuses a router with
    fewer ports than the links and endpoints need. When these do not fit in an [int],
    their sum overflows, which C++ leaves undefined. *)
Theorem new_grid_correct sizes widths locals num_ports id vns :
  sizes <> [] -> printable sizes -> printable widths -> length widths = length sizes ->
  0 < locals -> routers sizes * locals < 2 ^ 31 -> 0 <= id < routers sizes ->
  let built := new_grid (print_shape sizes) (print_shape widths) locals num_ports id vns in
  if 2 ^ 31 <=? needed_ports widths + locals then exists why, built = Err (Undefined why)
  else if num_ports <? needed_ports widths + locals then exists why, built = Err (Fatal why)
  else exists t loc, built = Ok t /\
         grid_wf t /\ dim_size t = sizes /\ dim_width t = widths /\ num_local_ports t = locals /\
         num_vns t = vns /\ in_box sizes loc /\ router_id t = id /\ t = node t loc.
Proof.
  intros Hne Hs Hw Hlen Hl Hfit Hid. unfold new_grid. cbv zeta.
  assert (widths <> []) as Hnw by (by intros ->; destruct sizes).
  rewrite (count_print sizes Hne Hs), bool_decide_false by by apply print_shape_nonempty.
  rewrite (parse_print sizes Hne Hs). rewrite <- Hlen, (parse_print widths Hnw Hw).
  assert (Forall (Z.lt 0) sizes) as Hps by (eapply Forall_impl; [exact Hs|]; simpl; lia).
  assert (Forall (Z.lt 0) widths) as Hpw by (eapply Forall_impl; [exact Hw|]; simpl; lia).
  pose proof (needed_ports_nonneg _ Hpw) as Hnn. rewrite set_port_starts_result, Z.add_0_l by (done || lia).
  destruct (Z.ltb_spec (needed_ports widths) (2 ^ 31)) as [H1|H1].
  2: { rewrite (proj2 (Z.leb_le _ _)) by lia. by eexists. }
  cbn [mbind res_bind]. rewrite count_needed_ports_result, Z.add_0_l by (done || lia). cbn [mbind res_bind].
  rewrite int_add_result by lia. destruct (Z.leb_spec (2 ^ 31) (needed_ports widths + locals)) as [H2|H2].
  { rewrite (proj2 (Z.ltb_ge (needed_ports widths + locals) _)) by lia. by eexists. }
  rewrite (proj2 (Z.ltb_lt (needed_ports widths + locals) _)) by lia. cbn [mbind res_bind].
  destruct (Z.ltb_spec num_ports (needed_ports widths + locals)); [by eexists|].
  destruct (idToLocation_Ok sizes id Hne Hps) as (loc & -> & Hbox & Eid); [nia|done|].
  eexists _, loc. split; [done|]. split; [by constructor|].
  split_and!; try done. unfold node. cbn. by rewrite Eid.
Qed.

(** The numbering of routers is a bijection between the numbers below the
    number of routers and the locations of the grid. *)
Theorem location_roundtrip t :
  grid_wf t ->
  (forall id, 0 <= id < routers (dim_size t) ->
     exists loc, idToLocation (dim_size t) id = Ok loc /\ in_box (dim_size t) loc /\
       locationToId (dim_size t) loc = id) /\
  (forall loc, in_box (dim_size t) loc ->
     0 <= locationToId (dim_size t) loc < routers (dim_size t) /\
     idToLocation (dim_size t) (locationToId (dim_size t) loc) = Ok loc).
Proof.
  intros [Hne Hs _ _ _ _ Hl Hfit].
  assert (routers (dim_size t) < 2 ^ 31) by (pose proof (routers_pos _ Hs); nia).
  split; [intros; by apply idToLocation_Ok|]. intros loc Hloc.
  split; [by apply locationToId_range|by apply idToLocation_id].
Qed.

(** ** A torus and a mesh *)

Definition torus_442 : Grid := mkGrid 0 [0; 0; 0] [4; 4; 2] [1; 2; 1] (port_starts 0 [1; 2; 1]) 2 8 2.
Definition mesh_44 : Grid := mkGrid 0 [0; 0] [4; 4] [1; 1] (port_starts 0 [1; 1]) 1 4 1.

Lemma torus_442_wf : grid_wf torus_442.
Proof. constructor; cbn; try done; repeat constructor; lia. Qed.
Lemma mesh_44_wf : grid_wf mesh_44.
Proof. constructor; cbn; try done; repeat constructor; lia. Qed.

(** To endpoint 40 from the first router of a torus, and to endpoint 6 of a mesh. *)
Definition packet_40 : RtrEvent := mkRtrEvent 40 0 1 3.
Definition packet_6 : RtrEvent := mkRtrEvent 6 0 0 1.
Lemma packet_40_enters : enters torus_442 packet_40 [3; 3; 0] 8.
Proof. constructor; cbn; [repeat constructor; lia|lia|lia]. Qed.
Lemma packet_6_enters : enters mesh_44 packet_6 [0; 3] 4.
Proof. constructor; cbn; [repeat constructor; lia|lia|lia]. Qed.

(** The number of virtual channels a topology asks for. *)
Definition all_vcs {T D} (HT : Topology T D) (t : T) : Z := foldr Z.add 0 (getVCsPerVN t).

(** A mesh asks for one virtual channel per virtual network, but routes like a
    torus with two: a packet of the last of several networks starts beyond the
    channels there are, and with one network a packet that turns at the border
    moves to a second channel. *)
Theorem mesh_vc_out_of_range :
  (forall t src re ev, 1 < num_vns t -> route_vn re = num_vns t - 1 ->
     process_input (Topology := mesh_topology) (node t src) re = Ok ev ->
     all_vcs mesh_topology t <= ire_vc ev) /\
  exists ev chs dst p, enters mesh_44 packet_6 [3; 0] 4 /\
    grid_input (node mesh_44 [3; 0]) packet_6 = Ok ev /\
    journey 10 mesh_direction false mesh_44 [3; 0] 4 ev = Ok (chs, dst, p) /\
    Exists (fun ch => all_vcs mesh_topology mesh_44 <= ch_vc ch) chs.
Proof.
  split.
  - intros t src re ev Hv Hre H. change (grid_input (node t src) re = Ok ev) in H. unfold grid_input in H.
    destruct (get_dest_router _ _) as [r|]; [|done]. cbn [mbind res_bind] in H.
    destruct (idToLocation _ _) as [loc|]; [|done]. injection H as <-.
    cbn [ire_vc]. rewrite Hre. unfold all_vcs. cbn [getVCsPerVN mesh_topology].
    assert (forall n, foldr Z.add 0 (replicate n 1) = Z.of_nat n) as -> by (induction n; simpl; lia). lia.
  - eexists _, _, _, _. split; [|split; [by vm_compute|split; [by vm_compute|]]].
    + constructor; cbn; [repeat constructor; lia|lia|lia].
    + apply Exists_cons_tl, Exists_cons_hd. vm_compute. done.
Qed.

(** ** Witnesses *)

Lemma torus_delivers_witness :
  grid_wf torus_442 /\ enters torus_442 packet_40 [3; 3; 0] 8 /\
  exists ev chs dst p, grid_input (node torus_442 [3; 3; 0]) packet_40 = Ok ev /\
    journey (S (length chs)) torus_direction true torus_442 [3; 3; 0] 8 ev = Ok (chs, dst, p) /\
    Z.of_nat (length chs) = torus_distance [4; 4; 2] [3; 3; 0] dst /\
    torus_port_state (node torus_442 dst) p = PortState.R2N /\
    grid_endpoint (torus_port_state (node torus_442 dst) p) (node torus_442 dst) p = 40.
Proof.
  split; [apply torus_442_wf|]. split; [apply packet_40_enters|].
  exact (torus_delivers torus_442 packet_40 [3; 3; 0] 8 torus_442_wf packet_40_enters).
Defined.

Lemma mesh_delivers_witness :
  grid_wf mesh_44 /\ enters mesh_44 packet_6 [0; 3] 4 /\
  exists ev chs dst p, grid_input (node mesh_44 [0; 3]) packet_6 = Ok ev /\
    journey (S (length chs)) mesh_direction false mesh_44 [0; 3] 4 ev = Ok (chs, dst, p) /\
    Z.of_nat (length chs) = manhattan_distance [4; 4] [0; 3] dst /\
    mesh_port_state (node mesh_44 dst) p = PortState.R2N /\
    grid_endpoint (mesh_port_state (node mesh_44 dst) p) (node mesh_44 dst) p = 6.
Proof.
  split; [apply mesh_44_wf|]. split; [apply packet_6_enters|].
  exact (mesh_delivers mesh_44 packet_6 [0; 3] 4 mesh_44_wf packet_6_enters).
Defined.

Lemma torus_deadlock_free_witness :
  grid_wf torus_442 /\ forall c, ~ tc (depends torus_direction true torus_442) c c.
Proof.
  split; [apply torus_442_wf|]. intros c. exact (torus_deadlock_free torus_442 c torus_442_wf).
Defined.

Lemma torus_vcs_of_vn_witness :
  exists ev chs dst p, grid_input (node torus_442 [3; 3; 0]) packet_40 = Ok ev /\
    journey 9 torus_direction true torus_442 [3; 3; 0] 8 ev = Ok (chs, dst, p) /\
    Forall (fun ch => 2 * 1 <= ch_vc ch < 2 * 1 + 2) chs.
Proof.
  eexists _, _, _, _. split; [by vm_compute|]. split; [by vm_compute|].
  apply (torus_vcs_of_vn torus_442 packet_40 [3; 3; 0] 8
    (mkIre packet_40 None 2 None (mkGridEvent 0 [0; 1; 1])) 9 _ [0; 1; 1] 8);
    [apply torus_442_wf|apply packet_40_enters|by vm_compute|by vm_compute].
Defined.

Lemma new_grid_correct_witness :
  (printable [4; 12; 3] /\ printable [1; 2; 1] /\ 0 <= 77 < routers [4; 12; 3]) /\
  exists t loc, new_grid "4x12x3" "1x2x1" 2 10 77 1 = Ok t /\
    grid_wf t /\ dim_size t = [4; 12; 3] /\ dim_width t = [1; 2; 1] /\ num_local_ports t = 2 /\
    num_vns t = 1 /\ in_box [4; 12; 3] loc /\ router_id t = 77 /\ t = node t loc.
Proof.
  assert (printable [4; 12; 3]) as H1 by (repeat constructor; lia).
  assert (printable [1; 2; 1]) as H2 by (repeat constructor; lia).
  split; [split; [done|split; [done|by cbn; lia]]|].
  exact (new_grid_correct [4; 12; 3] [1; 2; 1] 2 10 77 1 ltac:(done) H1 H2 eq_refl
           ltac:(lia) ltac:(by cbn; lia) ltac:(by cbn; lia)).
Defined.

Lemma location_roundtrip_witness :
  grid_wf torus_442 /\
  (exists loc, idToLocation [4; 4; 2] 20 = Ok loc /\ in_box [4; 4; 2] loc /\ locationToId [4; 4; 2] loc = 20).
Proof.
  split; [apply torus_442_wf|].
  apply (proj1 (location_roundtrip torus_442 torus_442_wf)). cbn. lia.
Defined.
