(* ===== verification/Arbitration.v ===== *)
(** * Arbitration: which virtual channel a port sends from

    Models [merlin/arbitration/single_arb_rr.h], [single_arb_lru.h] and
    [interfaces/output_arb_basic.h]. A [SingleArbitration] proposes candidates
    one after the other and is told when one is taken; the output arbitration of
    a port takes the first virtual channel proposed that has a packet and credits
    for it. The LRU arbitration keeps its queue as a circular linked list in an
    array, which refines a plain queue; the clients use either through the laws
    of its interface. *)

From S2P Require Import Prelude Merlin.

(** ** Single arbitrations *)

Class SingleArbitration (A : Type) := {
  arb_next : A -> res (Z * A);
  arb_satisfied : A -> res A
}.

Module RoundRobin.
Record t := mk { size : Z; current : Z }.
Definition new (size : Z) : t := mk size (-1).
Definition next (a : t) : res (Z * t) :=
  let c := current a + 1 in
  let c := if c =? size a then 0 else c in
  Ok (c, mk (size a) c).
Definition satisfied (a : t) : res t := Ok a.
End RoundRobin.
#[export] Instance rr_arbitration : SingleArbitration RoundRobin.t := {|
  arb_next := RoundRobin.next;
  arb_satisfied := RoundRobin.satisfied
|}.

Module Lru.
(** [order[0]] is the head of the queue, [order[i]] what follows entry [i]. *)
Record t := mk { order : list Z; tail : Z; current : Z; last : Z }.
#[global] Instance t_eta : Eta t := fun a => mk (order a) (tail a) (current a) (last a).

Definition new (size : Z) : t := mk (seqZ 1 size ++ [1]) size 0 size.

Definition next (a : t) : res (Z * t) :=
  c ← at_index (order a) (current a);
  Ok (c - 1, a <| last := current a |> <| current := c |>).

Definition satisfied (a : t) : res t :=
  if current a =? 0 then Ok a
  else
    head ← at_index (order a) 0;
    following ← at_index (order a) (current a);
    a ← (if current a =? head then
           o ← set_index (order a) 0 following; Ok (a <| order := o |> <| tail := current a |>)
         else if current a =? tail a then Ok a
         else
           o ← set_index (order a) (last a) following;
           head ← at_index o 0;
           o ← set_index o (current a) head;
           o ← set_index o (tail a) (current a);
           Ok (a <| order := o |> <| tail := current a |>));
    Ok (a <| current := 0 |> <| last := tail a |>).
End Lru.
#[export] Instance lru_arbitration : SingleArbitration Lru.t := {|
  arb_next := Lru.next;
  arb_satisfied := Lru.satisfied
|}.

(** ** The output arbitration of a port *)

Section output.
Context {A D : Type} {HA : SingleArbitration A}.

(** The loop of [arbitrate]: what it sends, the arbitration afterwards, and
    whether there was a packet at all. *)
Fixpoint output_loop (n : nat) (out_q : list (list (internal_router_event D))) (credits : list Z)
    (isHostPort : bool) (a : A) (have_packets : bool) : res (Z * A * bool) :=
  match n with
  | O => Ok (-1, a, have_packets)
  | S n' =>
      '(vc, a) ← arb_next a;
      q ← at_index out_q vc;
      match q with
      | [] => output_loop n' out_q credits isHostPort a have_packets
      | ev :: _ =>
          c ← at_index credits (if isHostPort then getVN ev else vc);
          if c <? getFlitCount ev then output_loop n' out_q credits isHostPort a true
          else a ← arb_satisfied a; Ok (vc, a, true)
      end
  end.
Definition output_arbitrate (num_vcs : Z) (out_q : list (list (internal_router_event D)))
    (credits : list Z) (isHostPort : bool) (a : A) : res (Z * A * bool) :=
  output_loop (Z.to_nat num_vcs) out_q credits isHostPort a false.
End output.

(** ** The order in which candidates are proposed *)

Fixpoint nexts {A} {HA : SingleArbitration A} (n : nat) (a : A) : res (list Z * A) :=
  match n with
  | O => Ok ([], a)
  | S n' => '(c, a) ← arb_next a; '(cs, a) ← nexts n' a; Ok (c :: cs, a)
  end.

(** The laws of a single arbitration over [n] candidates, at the start of a
    round: [arb_order a] is the order in which they will be proposed. A round in
    which nobody is taken leaves it alone; taking a candidate puts it last, and
    brings those behind it nearer to the front. *)
Class ArbitrationLaws (A : Type) {HA : SingleArbitration A} := {
  arb_ok : nat -> A -> Prop;
  arb_order : A -> list Z;
  arb_order_perm n a : arb_ok n a -> arb_order a ≡ₚ seqZ 0 (Z.of_nat n);
  arb_pass n a : arb_ok n a ->
    exists a', nexts n a = Ok (arb_order a, a') /\ arb_ok n a' /\ arb_order a' = arb_order a;
  arb_take n a l1 c l2 : arb_ok n a -> arb_order a = l1 ++ c :: l2 ->
    exists a1 a' l, nexts (S (length l1)) a = Ok (l1 ++ [c], a1) /\ arb_satisfied a1 = Ok a' /\
      arb_ok n a' /\ arb_order a' = l ++ [c] /\
      forall j w, l2 !! j = Some w -> exists j', (j' <= length l1 + j)%nat /\ l !! j' = Some w
}.

Lemma nexts_app {A} {HA : SingleArbitration A} n m (a : A) cs a1 :
  nexts n a = Ok (cs, a1) -> nexts (n + m) a = ('(cs', a2) ← nexts m a1; Ok (cs ++ cs', a2)).
Proof.
  revert a cs. induction n as [|n IH]; intros a cs H; cbn in *.
  - injection H as <- <-. by destruct (nexts m a) as [[? ?]|].
  - destruct (arb_next a) as [[c a']|]; [|done]. cbn in *.
    destruct (nexts n a') as [[cs' a2]|] eqn:E; [|done]. cbn in *. injection H as <- <-.
    rewrite (IH _ _ E). by destruct (nexts m a2) as [[? ?]|].
Qed.

Lemma nexts_snoc {A} {HA : SingleArbitration A} n (a : A) cs a1 :
  nexts (S n) a = Ok (cs, a1) ->
  exists cs' c a0, nexts n a = Ok (cs', a0) /\ arb_next a0 = Ok (c, a1) /\ cs = cs' ++ [c].
Proof.
  revert a cs. induction n as [|n IH]; intros a cs H.
  - cbn in H. destruct (arb_next a) as [[c a']|] eqn:E; [|done]. cbn in H. injection H as <- <-.
    by exists [], c, a.
  - remember (S n) as m. cbn [nexts] in H. destruct (arb_next a) as [[c a']|] eqn:E; [|done]. cbn [mbind res_bind] in H.
    destruct (nexts m a') as [[cs2 a2]|] eqn:E2; [|done]. cbn [mbind res_bind] in H. injection H as <- <-.
    subst m. destruct (IH _ _ E2) as (cs' & c' & a0 & E3 & E4 & ->).
    exists (c :: cs'), c', a0. cbn [nexts]. rewrite E. cbn [mbind res_bind]. by rewrite E3.
Qed.

(** ** Round robin *)

Definition rr_order (a : RoundRobin.t) : list Z :=
  seqZ (RoundRobin.current a + 1) (RoundRobin.size a - (RoundRobin.current a + 1))
    ++ seqZ 0 (RoundRobin.current a + 1).

Lemma rr_next_order a c l :
  -1 <= RoundRobin.current a < RoundRobin.size a -> rr_order a = c :: l ->
  exists a', RoundRobin.next a = Ok (c, a') /\ RoundRobin.size a' = RoundRobin.size a /\
    0 <= RoundRobin.current a' < RoundRobin.size a' /\ rr_order a' = l ++ [c].
Proof.
  destruct a as [sz cur]. unfold rr_order, RoundRobin.next. cbn. intros Hc E.
  destruct (Z.eqb_spec (cur + 1) sz) as [<-|Hne].
  - rewrite Z.sub_diag, (seqZ_nil _ 0) in E by done. cbn in E.
    assert (0 < cur + 1) by (destruct (Z.leb_spec (cur + 1) 0); [by rewrite seqZ_nil in E by lia|done]).
    rewrite seqZ_cons in E by lia. injection E as <- <-. eexists. split; [done|]. cbn. split; [done|]. split; [lia|].
    rewrite (seqZ_cons 0 (0 + 1)), (seqZ_nil _ (Z.pred _)) by lia.
    do 2 f_equal; lia.
  - rewrite seqZ_cons in E by lia. injection E as <- <-. eexists. split; [done|]. cbn. split; [done|]. split; [lia|].
    rewrite <- app_assoc. f_equal; [f_equal; lia|].
    rewrite (seqZ_app 0 (cur + 1) 1) by lia. done.
Qed.

Lemma rr_nexts l1 a l2 :
  -1 <= RoundRobin.current a < RoundRobin.size a -> rr_order a = l1 ++ l2 ->
  exists a', nexts (length l1) a = Ok (l1, a') /\ RoundRobin.size a' = RoundRobin.size a /\
    -1 <= RoundRobin.current a' < RoundRobin.size a' /\ rr_order a' = l2 ++ l1.
Proof.
  revert a l2. induction l1 as [|c l1 IH]; intros a l2 Hc E.
  - exists a. by rewrite app_nil_r.
  - destruct (rr_next_order a c (l1 ++ l2) Hc E) as (a1 & E1 & Hs & Hc1 & E2).
    destruct (IH a1 (l2 ++ [c])) as (a2 & E3 & Hs2 & Hc2 & E4); [lia|by rewrite E2, app_assoc|].
    exists a2. cbn [length nexts]. change (arb_next a) with (RoundRobin.next a).
    rewrite E1. cbn [mbind res_bind]. rewrite E3.
    split; [done|]. split; [by rewrite Hs2|]. split; [done|]. by rewrite E4, <- app_assoc.
Qed.

Lemma rr_order_length a n :
  RoundRobin.size a = Z.of_nat n -> -1 <= RoundRobin.current a < RoundRobin.size a -> length (rr_order a) = n.
Proof. intros Hs Hc. unfold rr_order. rewrite length_app, !length_seqZ. lia. Qed.

#[export] Instance rr_laws : ArbitrationLaws RoundRobin.t.
Proof.
  refine {| arb_ok := fun n a => RoundRobin.size a = Z.of_nat n /\
                        -1 <= RoundRobin.current a < RoundRobin.size a;
            arb_order := rr_order |}.
  - intros n a (Hs & Hc). unfold rr_order. rewrite Permutation_app_comm, <- Hs.
    rewrite <- (Z.add_0_l (RoundRobin.current a + 1)) at 2. rewrite <- seqZ_app by lia. f_equiv. lia.
  - intros n a (Hs & Hc). destruct (rr_nexts (rr_order a) a []) as (a' & E & Hs' & Hc' & Ho);
      [done|by rewrite app_nil_r|].
    rewrite (rr_order_length a n Hs Hc) in E. exists a'. rewrite Hs'. split; [done|]. split; [|done]. lia.
  - intros n a l1 c l2 (Hs & Hc) E. destruct (rr_nexts (l1 ++ [c]) a l2) as (a' & E' & Hs' & Hc' & Ho);
      [done|by rewrite <- app_assoc|].
    exists a', a', (l2 ++ l1). rewrite length_app, Nat.add_1_r in E'. split; [done|]. split; [done|].
    split; [split; [by rewrite Hs'|lia]|]. split; [rewrite Ho; by rewrite app_assoc|].
    intros j w Hj. exists j. split; [lia|]. by apply lookup_app_l_Some.
Defined.

(** ** Least recently used *)

Module LruQueue.
(** The array links the entries of [l] one after the other, beginning at [x]. *)
Fixpoint linked (o : list Z) (x : Z) (l : list Z) : Prop :=
  match l with [] => True | y :: l' => at_index o x = Ok y /\ linked o y l' end.

Lemma linked_app o x l1 y l2 : linked o x (l1 ++ y :: l2) <-> linked o x (l1 ++ [y]) /\ linked o y l2.
Proof. revert x. induction l1 as [|z l1 IH]; intros x; cbn; [tauto|]. rewrite IH. tauto. Qed.

Lemma at_index_update (o : list Z) i j v : 0 <= i -> 0 <= j -> i <> j -> at_index (<[Z.to_nat i := v]> o) j = at_index o j.
Proof.
  intros Hi Hj Hne. unfold at_index. destruct (Z.ltb_spec j 0); [done|].
  by rewrite list_lookup_insert_ne by lia.
Qed.

Lemma linked_update o x l y i v :
  0 <= i -> Forall (Z.le 0) (x :: l) -> i ∉ x :: l ->
  linked o x (l ++ [y]) -> linked (<[Z.to_nat i := v]> o) x (l ++ [y]).
Proof.
  intros Hi. revert x. induction l as [|z l IH]; intros x Hx Hn H; cbn in *;
    inversion Hx; subst; apply not_elem_of_cons in Hn as [Hn1 Hn2]; rewrite at_index_update by done.
  - done.
  - split; [apply H|]. apply IH; [done|done|apply H].
Qed.

(** An array of [n + 1] cells that is the circle of the queue [q]. *)
Record queue (n : nat) (a : Lru.t) (q : list Z) : Prop := {
  q_cells : length (Lru.order a) = S n;
  q_perm : q ≡ₚ seqZ 1 (Z.of_nat n);
  q_circle : exists h, head q = Some h /\ linked (Lru.order a) 0 (q ++ [h]);
  q_tail : list.last q = Some (Lru.tail a)
}.

(** The start of a round: nothing proposed yet, or everything. *)
Definition fresh (a : Lru.t) : Prop :=
  (Lru.current a = 0 /\ Lru.last a = Lru.tail a) \/ Lru.current a = Lru.tail a.

Lemma queue_range n a q x : queue n a q -> x ∈ q -> 1 <= x <= Z.of_nat n.
Proof. intros [_ Hp _ _] Hx. rewrite Hp in Hx. apply elem_of_seqZ in Hx. lia. Qed.

Lemma queue_nodup n a q : queue n a q -> NoDup q.
Proof. intros [_ Hp _ _]. rewrite Hp. apply NoDup_seqZ. Qed.

(** Proposals follow the links. *)
Lemma nexts_linked o t c la l :
  linked o c l ->
  nexts (length l) (Lru.mk o t c la)
    = Ok ((fun x => x - 1) <$> l, Lru.mk o t (default c (list.last l)) (default la (list.last (removelast (c :: l))))).
Proof.
  revert c la. induction l as [|y l IH]; intros c la H; [done|]. destruct H as [Hy H].
  cbn [length nexts]. change (arb_next (Lru.mk o t c la)) with (Lru.next (Lru.mk o t c la)).
  unfold Lru.next. cbn [Lru.order Lru.current].
  rewrite Hy. cbn [mbind res_bind].
  match goal with |- context [nexts (length l) ?a] => change a with (Lru.mk o t y c) end.
  rewrite (IH y c H). cbn [mbind res_bind]. destruct l as [|z l]; [done|].
  change (list.last (y :: z :: l)) with (list.last (z :: l)).
  change (removelast (c :: y :: z :: l)) with (c :: removelast (y :: z :: l)).
  assert (exists w, list.last (removelast (y :: z :: l)) = Some w /\ list.last (c :: removelast (y :: z :: l)) = Some w
    /\ exists v, list.last (z :: l) = Some v) as (w & -> & -> & v & ->).
  { assert (is_Some (list.last (removelast (y :: z :: l)))) as [w Hw] by (apply last_is_Some; by destruct l).
    assert (is_Some (list.last (z :: l))) as [v Hv] by by apply last_is_Some.
    exists w. split; [done|]. split; [|by exists v]. by rewrite last_cons, Hw. }
  done.
Qed.

Lemma linked_head o x l h : linked o x (l ++ [h]) -> at_index o x = Ok (default h (head l)).
Proof. destruct l; intros [H _]; done. Qed.

Lemma at_index_update_same (o : list Z) i v : 0 <= i < Z.of_nat (length o) -> at_index (<[Z.to_nat i := v]> o) i = Ok v.
Proof. intros H. apply at_index_Ok. split; [lia|]. rewrite list_lookup_insert, decide_True by lia. done. Qed.

Lemma set_index_at (o : list Z) i v : 0 <= i < Z.of_nat (length o) -> set_index o i v = Ok (<[Z.to_nat i := v]> o).
Proof. intros H. by apply set_index_Ok. Qed.

(** The head is taken: the circle turns. *)
Lemma take_head n o c l2 t la :
  queue n (Lru.mk o t c la) (c :: l2) ->
  exists a', Lru.satisfied (Lru.mk o t c la) = Ok a' /\ queue n a' (l2 ++ [c]) /\ fresh a'.
Proof.
  intros Hq. pose proof (queue_range _ _ _ c Hq ltac:(left)) as Hc.
  pose proof Hq as [Hlen Hp (h & [= <-] & Hl) Ht]. cbn [Lru.order Lru.tail] in *.
  destruct Hl as [H0 Hl]. pose proof (linked_head _ _ _ _ Hl) as Hf.
  unfold Lru.satisfied. cbn [Lru.order Lru.tail Lru.current]. rewrite (proj2 (Z.eqb_neq c 0)) by lia.
  rewrite H0. cbn [mbind res_bind]. rewrite Hf. cbn [mbind res_bind]. rewrite Z.eqb_refl.
  rewrite set_index_at by lia. cbn [mbind res_bind].
  set (o' := <[Z.to_nat 0 := _]> o).
  exists (Lru.mk o' c 0 c). split; [done|]. split; [|by left].
  assert (at_index o' c = Ok (default c (head l2))) as Hoc by (subst o'; by rewrite at_index_update by lia).
  assert (at_index o' 0 = Ok (default c (head l2))) as Ho0 by (subst o'; by apply at_index_update_same; lia).
  constructor; cbn [Lru.order Lru.tail].
  - subst o'. by rewrite length_insert.
  - by rewrite Permutation_app_comm.
  - destruct l2 as [|m r].
    + change (default c (head [])) with c in *. exists c. split; [done|]. by repeat split.
    + change (default c (head (m :: r))) with m in *. exists m. split; [done|].
      split; [done|]. rewrite <- app_assoc. apply linked_app. split; [|by split].
      destruct Hl as [_ Hl]. apply linked_update; [lia|..|done].
      * constructor; [|apply Forall_forall; intros x Hx];
          [pose proof (queue_range _ _ _ m Hq ltac:(right; left)); lia|
           pose proof (queue_range _ _ _ x Hq ltac:(by do 2 right)); lia].
      * intros H0in. pose proof (queue_range _ _ _ 0 Hq ltac:(by right)). lia.
  - by rewrite last_snoc.
Qed.

(** An entry in the middle is taken: it is unlinked, and linked in at the end. *)
Lemma take_middle n o l1 p c r e t la :
  queue n (Lru.mk o t c la) (l1 ++ p :: c :: r ++ [e]) -> la = p ->
  exists a', Lru.satisfied (Lru.mk o t c la) = Ok a' /\ queue n a' (l1 ++ p :: r ++ [e; c]) /\ fresh a'.
Proof.
  intros Hq ->.
  assert (p ∈ l1 ++ p :: c :: r ++ [e] /\ c ∈ l1 ++ p :: c :: r ++ [e] /\ e ∈ l1 ++ p :: c :: r ++ [e]) as (Ip & Ic & Ie)
    by set_solver.
  pose proof (queue_range _ _ _ _ Hq Ip). pose proof (queue_range _ _ _ _ Hq Ic). pose proof (queue_range _ _ _ _ Hq Ie).
  assert (forall x, x ∈ l1 \/ x ∈ r -> 0 <= x) as Hpos.
  { intros x Hx. assert (x ∈ l1 ++ p :: c :: r ++ [e]) as Ix by set_solver.
    pose proof (queue_range _ _ _ _ Hq Ix). lia. }
  pose proof (queue_nodup _ _ _ Hq) as Hnd.
  pose proof Hq as [Hlen Hp (h & Hh & Hl) Ht]. cbn [Lru.order Lru.tail] in *.
  assert (t = e) as ->.
  { replace (l1 ++ p :: c :: r ++ [e]) with ((l1 ++ p :: c :: r) ++ [e]) in Ht by by rewrite <- app_assoc.
    rewrite last_snoc in Ht. by injection Ht. }
  pose proof (linked_head _ _ _ _ Hl) as Hzero.
  assert (default h (head (l1 ++ p :: c :: r ++ [e])) = h) as Ehd by by rewrite Hh.
  rewrite Ehd in Hzero.
  replace ((l1 ++ p :: c :: r ++ [e]) ++ [h]) with (l1 ++ p :: c :: r ++ e :: [h]) in Hl
    by by rewrite <- app_assoc, <- !app_comm_cons, <- app_assoc.
  apply linked_app in Hl as [HA [Hpc Hl]]. apply linked_app in Hl as [HC [Heh _]].
  apply NoDup_app in Hnd as (_ & Hd1 & Hnd). apply NoDup_cons in Hnd as (Hp1 & Hnd).
  apply NoDup_cons in Hnd as (Hc1 & Hnd). apply NoDup_app in Hnd as (_ & Hd2 & _).
  assert (c <> h) as Hch.
  { intros ->. destruct l1 as [|x l1]; cbn in Hh; injection Hh as ->; [set_solver|].
    apply (Hd1 h); set_solver. }
  pose proof (linked_head _ _ _ _ HC) as Hf. set (f := default e (head r)) in *.
  unfold Lru.satisfied. cbn [Lru.order Lru.tail Lru.current Lru.last]. rewrite (proj2 (Z.eqb_neq c 0)) by lia.
  rewrite Hzero. cbn [mbind res_bind]. rewrite Hf. cbn [mbind res_bind].
  rewrite (proj2 (Z.eqb_neq c h)), (proj2 (Z.eqb_neq c e)) by (done || set_solver).
  rewrite set_index_at by lia. cbn [mbind res_bind]. rewrite at_index_update, Hzero by lia. cbn [mbind res_bind].
  rewrite set_index_at by (rewrite length_insert; lia). cbn [mbind res_bind].
  rewrite set_index_at by (rewrite !length_insert; lia). cbn [mbind res_bind].
  set (o3 := <[Z.to_nat e := c]> _).
  exists (Lru.mk o3 c 0 c). split; [done|]. split; [|by left].
  assert (forall x, 0 <= x -> x <> p -> x <> c -> x <> e -> at_index o3 x = at_index o x) as Hsame
    by (intros; subst o3; by rewrite !at_index_update by lia).
  assert (p <> e /\ c <> e /\ p <> c) as (Hpe & Hce & Hpc') by set_solver.
  assert (at_index o3 e = Ok c) as Ho3e by (subst o3; apply at_index_update_same; rewrite !length_insert; lia).
  assert (at_index o3 c = Ok h) as Ho3c
    by (subst o3; rewrite at_index_update by lia; apply at_index_update_same; rewrite length_insert; lia).
  assert (at_index o3 p = Ok f) as Ho3p
    by (subst o3; rewrite !at_index_update by lia; apply at_index_update_same; lia).
  assert (forall l x y, Forall (Z.le 0) (x :: l) -> p ∉ x :: l -> c ∉ x :: l -> e ∉ x :: l ->
            linked o x (l ++ [y]) -> linked o3 x (l ++ [y])) as Hkeep
    by (intros; subst o3; apply linked_update; [lia|done..|apply linked_update; [lia|done..|apply linked_update; [lia|done..]]]).
  constructor; cbn [Lru.order Lru.tail].
  - subst o3. by rewrite !length_insert.
  - rewrite <- Hp. apply Permutation_app_head. apply Permutation_skip.
    replace (r ++ [e; c]) with ((r ++ [e]) ++ [c]) by by rewrite <- app_assoc. by rewrite Permutation_app_comm.
  - exists h. split; [by destruct l1|].
    replace ((l1 ++ p :: r ++ [e; c]) ++ [h]) with (l1 ++ p :: r ++ e :: [c; h])
      by by rewrite <- app_assoc, <- !app_comm_cons, <- app_assoc.
    apply linked_app. split.
    + apply Hkeep; [|by rewrite not_elem_of_cons; split; [lia|intros Hx; apply (Hd1 _ Hx); set_solver]..|done].
      constructor; [lia|]. apply Forall_forall. intros x Hx. apply Hpos. by left.
    + apply linked_app. split; [|by repeat split].
      destruct r as [|m r]; [by split|]. destruct HC as [_ HC]. split; [done|].
      apply Hkeep; [|set_solver..|done].
      apply Forall_forall. intros x Hx. apply Hpos. by right.
  - replace (l1 ++ p :: r ++ [e; c]) with ((l1 ++ p :: r ++ [e]) ++ [c])
      by by rewrite <- app_assoc, <- !app_comm_cons, <- app_assoc.
    by rewrite last_snoc.
Qed.

(** The tail is taken: it stays where it is. *)
Lemma take_tail n o l1 p c t la :
  queue n (Lru.mk o t c la) (l1 ++ [p; c]) ->
  exists a', Lru.satisfied (Lru.mk o t c la) = Ok a' /\ queue n a' (l1 ++ [p; c]) /\ fresh a'.
Proof.
  intros Hq. pose proof (queue_range _ _ _ c Hq ltac:(set_solver)) as Hc.
  pose proof (queue_nodup _ _ _ Hq) as Hnd.
  pose proof Hq as [Hlen Hp (h & Hh & Hl) Ht]. cbn [Lru.order Lru.tail] in *.
  change [p; c] with ([p] ++ [c]) in Ht. rewrite app_assoc, last_snoc in Ht. injection Ht as <-.
  pose proof (linked_head _ _ _ _ Hl) as Hzero. rewrite Hh in Hzero. cbn [from_option default id] in Hzero.
  replace ((l1 ++ [p; c]) ++ [h]) with (l1 ++ p :: c :: [h]) in Hl by by rewrite <- app_assoc.
  apply linked_app in Hl as (_ & _ & Hch & _).
  assert (c <> h) as Hne.
  { apply NoDup_app in Hnd as (_ & Hd & Hnd). intros ->.
    destruct l1 as [|x l1]; cbn in Hh; injection Hh as ->; [apply NoDup_cons in Hnd as [Hnd _]; set_solver|].
    apply (Hd h); set_solver. }
  exists (Lru.mk o c 0 c). unfold Lru.satisfied. cbn [Lru.order Lru.tail Lru.current].
  rewrite (proj2 (Z.eqb_neq c 0)) by lia. rewrite Hzero. cbn [mbind res_bind]. rewrite Hch. cbn [mbind res_bind].
  rewrite (proj2 (Z.eqb_neq c h)), Z.eqb_refl by done. split; [done|]. split; [|by left].
  destruct Hq. by constructor.
Qed.

(** The order of proposals, read off the array. *)
Definition proposals (a : Lru.t) : list Z :=
  match nexts (pred (length (Lru.order a))) a with Ok (l, _) => l | Err _ => [] end.

Lemma fresh_linked n a q h : queue n a q -> fresh a -> head q = Some h -> linked (Lru.order a) (Lru.current a) (q ++ [h]).
Proof.
  intros [Hlen Hp (h' & Hh & Hl) Ht] [[-> _]| ->] Eh; rewrite Eh in Hh; injection Hh as <-; [done|].
  destruct q as [|x q]; [done|]. injection Eh as ->. destruct Hl as [Hz Hl]. split; [|done].
  destruct (exists_last (l := h :: q)) as (q' & y & E); [done|]. rewrite E, last_snoc in Ht. injection Ht as ->.
  assert (linked (Lru.order a) 0 (q' ++ Lru.tail a :: [h])) as Hl2.
  { replace (q' ++ Lru.tail a :: [h]) with ((h :: q) ++ [h]) by by rewrite E, <- app_assoc.
    by split. }
  apply linked_app in Hl2 as [_ [Hl2 _]]. done.
Qed.

Lemma linked_prefix o x l1 l2 : linked o x (l1 ++ l2) -> linked o x l1.
Proof. revert x. induction l1 as [|y l1 IH]; intros x H; [done|]. destruct H as [? H]. split; [done|by apply IH]. Qed.

Lemma queue_length n a q : queue n a q -> length q = n.
Proof. intros [_ Hp _ _]. rewrite Hp, length_seqZ. lia. Qed.

(** A number of proposals from a fresh state. *)
Lemma fresh_nexts n a q q1 q2 :
  queue n a q -> fresh a -> q = q1 ++ q2 ->
  nexts (length q1) a = Ok ((fun x => x - 1) <$> q1,
    Lru.mk (Lru.order a) (Lru.tail a) (default (Lru.current a) (list.last q1))
           (default (Lru.last a) (list.last (removelast (Lru.current a :: q1))))).
Proof.
  intros Hq Hf E. pose proof Hq as [_ _ (h & Hh & _) _].
  pose proof (fresh_linked n a q h Hq Hf Hh) as Hl. rewrite E, <- app_assoc in Hl.
  apply linked_prefix in Hl. destruct a as [o t c la]. by apply nexts_linked.
Qed.

Lemma proposals_queue n a q : queue n a q -> fresh a -> proposals a = (fun x => x - 1) <$> q.
Proof.
  intros Hq Hf. unfold proposals. rewrite (q_cells _ _ _ Hq). cbn [pred].
  pose proof (fresh_nexts n a q q [] Hq Hf ltac:(by rewrite app_nil_r)) as E.
  rewrite (queue_length _ _ _ Hq) in E. by rewrite E.
Qed.

(** Whoever is taken goes to the end of the queue; the others keep their order. *)
Lemma take_any n a q1 x q2 :
  queue n a (q1 ++ x :: q2) -> fresh a ->
  exists a1 a', nexts (S (length q1)) a = Ok ((fun x => x - 1) <$> (q1 ++ [x]), a1) /\
    Lru.satisfied a1 = Ok a' /\ queue n a' (q1 ++ q2 ++ [x]) /\ fresh a'.
Proof.
  intros Hq Hf.
  pose proof (fresh_nexts n a _ (q1 ++ [x]) q2 Hq Hf ltac:(by rewrite <- app_assoc)) as E.
  rewrite length_app, Nat.add_1_r, last_snoc in E. cbn [default from_option id] in E.
  destruct a as [o t c la0]. cbn [Lru.order Lru.tail Lru.current Lru.last] in *.
  set (la := default _ _) in E.
  assert (queue n (Lru.mk o t x la) (q1 ++ x :: q2)) as Hq' by (destruct Hq; by constructor).
  assert (exists a', Lru.satisfied (Lru.mk o t x la) = Ok a' /\ queue n a' (q1 ++ q2 ++ [x]) /\ fresh a')
    as (a' & ? & ? & ?); [|eexists _, a'; split; [exact E|done]].
  clear E. destruct q1 as [|y q1 _] using rev_ind; [by apply take_head|].
  rewrite <- app_assoc in Hq'. destruct q2 as [|z q2 _] using rev_ind.
  - rewrite <- app_assoc. by apply (take_tail n o q1 y x t la).
  - rewrite <- !app_assoc. apply (take_middle n o q1 y x q2 z t la); [done|].
    subst la. change (c :: (q1 ++ [y]) ++ [x]) with ((c :: q1 ++ [y]) ++ [x]).
    by rewrite removelast_last, app_comm_cons, last_snoc.
Qed.
End LruQueue.

#[export] Instance lru_laws : ArbitrationLaws Lru.t.
Proof.
  refine {| arb_ok := fun n a => exists q, LruQueue.queue n a q /\ LruQueue.fresh a;
            arb_order := LruQueue.proposals |}.
  - intros n a (q & Hq & Hf). rewrite (LruQueue.proposals_queue n a q Hq Hf), (LruQueue.q_perm _ _ _ Hq).
    change (fun x => x - 1) with (fun x => x + -1). rewrite (list_fmap_ext _ (Z.add (-1))) by (intros; lia).
    by rewrite fmap_add_seqZ.
  - intros n a (q & Hq & Hf). pose proof (LruQueue.proposals_queue n a q Hq Hf) as Ho.
    pose proof (LruQueue.fresh_nexts n a q q [] Hq Hf ltac:(by rewrite app_nil_r)) as E.
    rewrite (LruQueue.queue_length _ _ _ Hq) in E. rewrite (LruQueue.q_tail _ _ _ Hq) in E.
    eexists. rewrite Ho. split; [exact E|].
    assert (LruQueue.queue n (Lru.mk (Lru.order a) (Lru.tail a) (Lru.tail a) 
      (default (Lru.last a) (list.last (removelast (Lru.current a :: q))))) q) as Hq' by (destruct Hq; by constructor).
    split; [exists q; split; [done|by right]|].
    rewrite <- Ho. rewrite Ho. apply (LruQueue.proposals_queue n); [done|by right].
  - intros n a l1 c l2 (q & Hq & Hf) E. rewrite (LruQueue.proposals_queue n a q Hq Hf) in E.
    apply fmap_app_inv in E as (q1 & qr & -> & E2 & ->). symmetry in E2.
    apply fmap_cons_inv in E2 as (x & q2 & -> & -> & ->).
    destruct (LruQueue.take_any n a q1 x q2 Hq Hf) as (a1 & a' & E1 & Es & Hq' & Hf').
    exists a1, a', ((fun x => x - 1) <$> (q1 ++ q2)). rewrite length_fmap, E1, fmap_app.
    split; [done|]. split; [done|]. split; [by eexists|].
    split; [rewrite (LruQueue.proposals_queue n a' _ Hq' Hf'), app_assoc, fmap_app; done|].
    intros j w Hj. exists (length q1 + j)%nat. split; [done|].
    rewrite fmap_app, lookup_app_r by (rewrite length_fmap; lia). rewrite length_fmap.
    by replace (length q1 + j - length q1)%nat with j by lia.
Defined.

Lemma rr_new_ok n : arb_ok n (RoundRobin.new (Z.of_nat n)).
Proof. split; cbn; [done|lia]. Qed.

Lemma linked_seq (o : list Z) x m :
  0 <= x -> (forall i, x <= i < x + Z.of_nat m -> at_index o i = Ok (i + 1)) ->
  LruQueue.linked o x (seqZ (x + 1) (Z.of_nat m)).
Proof.
  revert x. induction m as [|m IH]; intros x Hx H; [done|]. rewrite seqZ_cons by lia.
  split; [apply H; lia|]. replace (Z.pred (Z.of_nat (S m))) with (Z.of_nat m) by lia.
  rewrite <- Z.add_1_r. apply IH; [lia|]. intros i Hi. apply H. lia.
Qed.

Lemma lru_new_queue n : (0 < n)%nat -> LruQueue.queue n (Lru.new (Z.of_nat n)) (seqZ 1 (Z.of_nat n)).
Proof.
  intros Hn.
  assert (seqZ 1 (Z.of_nat n) = seqZ 1 (Z.of_nat (pred n)) ++ [Z.of_nat n]) as Esnoc.
  { replace n with (S (pred n)) at 1 3 by lia. rewrite seqZ_S. do 2 f_equal. lia. }
  constructor; cbn [Lru.order Lru.tail Lru.new].
  - rewrite length_app, length_seqZ. simpl. lia.
  - done.
  - exists 1. split; [by rewrite seqZ_cons by lia|].
    assert (forall o, (forall i, 0 <= i < Z.of_nat n -> at_index o i = Ok (i + 1)) ->
      at_index o (Z.of_nat n) = Ok 1 -> LruQueue.linked o 0 (seqZ 1 (Z.of_nat n) ++ [1])) as H.
    { intros o Hi Hlast. rewrite Esnoc, <- app_assoc. cbn [app]. apply LruQueue.linked_app.
      rewrite <- Esnoc. split; [|by split]. by apply (linked_seq _ 0 n). }
    apply H; [intros i Hi|]; apply at_index_Ok; (split; [lia|]).
    + apply lookup_app_l_Some, lookup_seqZ. lia.
    + rewrite lookup_app_r by (rewrite length_seqZ; lia). rewrite length_seqZ.
      by replace (_ - _)%nat with 0%nat by lia.
  - by rewrite Esnoc, last_snoc.
Qed.

Lemma lru_new_ok n : (0 < n)%nat -> arb_ok n (Lru.new (Z.of_nat n)).
Proof. intros Hn. exists (seqZ 1 (Z.of_nat n)). split; [by apply lru_new_queue|by left]. Qed.

(** ** LRU refines a queue *)

(** Rounds of an arbitration: in each the proposal with the given number is taken,
    or nobody after all were proposed. The result is what was proposed. *)
Definition round {A} {HA : SingleArbitration A} (n : nat) (taken : option nat) (a : A) : res (list Z * A) :=
  match taken with
  | Some j => '(cs, a) ← nexts (S j) a; a ← arb_satisfied a; Ok (cs, a)
  | None => nexts n a
  end.
Fixpoint rounds {A} {HA : SingleArbitration A} (n : nat) (l : list (option nat)) (a : A)
    : res (list (list Z)) :=
  match l with
  | [] => Ok []
  | taken :: l' => '(cs, a) ← round n taken a; css ← rounds n l' a; Ok (cs :: css)
  end.

(** A queue of candidates: they are proposed from its head, and who is taken joins
    its end. *)
Fixpoint queue_rounds (l : list (option nat)) (q : list Z) : list (list Z) :=
  match l with
  | [] => []
  | Some j :: l' => take (S j) q :: queue_rounds l' (delete j q ++ option_list (q !! j))
  | None :: l' => q :: queue_rounds l' q
  end.

Definition valid_rounds (n : nat) : list (option nat) -> Prop :=
  Forall (fun o => forall j, o = Some j -> (j < n)%nat).

Lemma rounds_queue n l a q :
  LruQueue.queue n a q -> LruQueue.fresh a -> valid_rounds n l ->
  rounds n l a = Ok (queue_rounds l ((fun x => x - 1) <$> q)).
Proof.
  intros Hq Hf Hl. revert a q Hq Hf. induction Hl as [|[j|] l Hj Hl IH]; intros a q Hq Hf; [done|..]; cbn [rounds queue_rounds].
  - destruct (lookup_lt_is_Some_2 q j) as [x Hx]; [rewrite (LruQueue.queue_length _ _ _ Hq); by apply Hj|].
    pose proof (take_drop_middle _ _ _ Hx) as E. pose proof (lookup_lt_Some _ _ _ Hx) as Hlt.
    rewrite <- E in Hq. destruct (LruQueue.take_any n a _ _ _ Hq Hf) as (a1 & a' & En & Es & Hq' & Hf').
    rewrite length_take, Nat.min_l in En by lia. unfold round. rewrite En. cbn [mbind res_bind].
    change (arb_satisfied a1) with (Lru.satisfied a1). rewrite Es. cbn [mbind res_bind].
    rewrite (IH _ _ Hq' Hf'). cbn [mbind res_bind]. do 2 f_equal.
    + rewrite <- fmap_take. by rewrite (take_S_r _ _ _ Hx).
    + f_equal. rewrite list_lookup_fmap, Hx, delete_take_drop, !fmap_app, fmap_take, fmap_drop, <- app_assoc. done.
  - unfold round. pose proof (LruQueue.fresh_nexts n a q q [] Hq Hf ltac:(by rewrite app_nil_r)) as E.
    rewrite (LruQueue.queue_length _ _ _ Hq), (LruQueue.q_tail _ _ _ Hq) in E. rewrite E. cbn [mbind res_bind].
    rewrite (IH _ q); [done|destruct Hq; by constructor|by right].
Qed.

(** The linked list in an array of [single_arb_lru] behaves like a queue of
    the candidates, whoever is taken in which round. *)
Theorem lru_refines_queue n (l : list (option nat)) :
  (0 < n)%nat -> valid_rounds n l ->
  rounds n l (Lru.new (Z.of_nat n)) = Ok (queue_rounds l (seqZ 0 (Z.of_nat n))).
Proof.
  intros Hn Hl. rewrite (rounds_queue n l _ _ (lru_new_queue n Hn)); [|by left|done].
  do 2 f_equal. rewrite (list_fmap_ext _ (Z.add (-1))) by (intros; lia). by rewrite fmap_add_seqZ.
Qed.

Lemma lru_refines_queue_witness :
  ((0 < 4)%nat /\ valid_rounds 4 [Some 1%nat; None; Some 0%nat; Some 3%nat]) /\
  rounds 4 [Some 1%nat; None; Some 0%nat; Some 3%nat] (Lru.new 4)
    = Ok [[0; 1]; [0; 2; 3; 1]; [0]; [2; 3; 1; 0]].
Proof.
  assert (valid_rounds 4 [Some 1%nat; None; Some 0%nat; Some 3%nat]) as H
    by (apply Forall_forall; intros o Ho j ->; set_unfold in Ho; naive_solver lia).
  split; [split; [lia|exact H]|]. exact (lru_refines_queue 4 _ ltac:(lia) H).
Defined.

(** ** The output arbitration *)

Section output_theorems.
Context {A D : Type} {HA : SingleArbitration A} {HL : ArbitrationLaws A}.
Implicit Types (out_q : list (list (internal_router_event D))) (credits : list Z).

(** A virtual channel whose first packet has the credits it needs. *)
Definition sendable out_q credits (isHostPort : bool) (vc : Z) : bool :=
  match at_index out_q vc with
  | Ok (ev :: _) =>
      match at_index credits (if isHostPort then getVN ev else vc) with
      | Ok c => negb (c <? getFlitCount ev)
      | Err _ => false
      end
  | _ => false
  end.

(** Every queue of the port exists, and so do the credits of its first packet. *)
Definition queues_ok (n : nat) out_q credits (isHostPort : bool) : Prop :=
  length out_q = n /\
  forall vc ev q, at_index out_q vc = Ok (ev :: q) ->
    exists c, at_index credits (if isHostPort then getVN ev else vc) = Ok c.

Definition waiting_vc out_q (vc : Z) : bool :=
  match at_index out_q vc with Ok (_ :: _) => true | _ => false end.

Lemma output_skip n k out_q credits host a a1 l1 have :
  queues_ok n out_q credits host -> Forall (fun vc => 0 <= vc < Z.of_nat n) l1 ->
  nexts (length l1) a = Ok (l1, a1) -> Forall (fun vc => sendable out_q credits host vc = false) l1 ->
  output_loop (length l1 + k) out_q credits host a have
    = output_loop k out_q credits host a1 (have || existsb (waiting_vc out_q) l1).
Proof.
  intros Hok. revert a have. induction l1 as [|vc l1 IH]; intros a have Hr Hn Hs; cbn in Hn.
  - injection Hn as <-. by rewrite orb_false_r.
  - destruct (arb_next a) as [[c a']|] eqn:Ea; [|done]. cbn in Hn.
    destruct (nexts (length l1) a') as [[cs a2]|] eqn:En; [|done]. cbn in Hn. injection Hn as -> -> ->.
    inversion Hr as [|? ? Hvc Hr']; subst. inversion Hs as [|? ? Hsv Hs']; subst.
    cbn [length Nat.add output_loop]. rewrite Ea. cbn [mbind res_bind].
    destruct (at_index_in_range out_q vc) as [q Hq]; [rewrite (proj1 Hok); lia|].
    rewrite Hq. cbn [mbind res_bind existsb]. unfold waiting_vc at 1. unfold sendable in Hsv. rewrite Hq in *.
    destruct q as [|ev q]; [by rewrite (IH _ _ Hr' En Hs')|].
    destruct (proj2 Hok vc ev q Hq) as [c Hc]. rewrite Hc in *. cbn [mbind res_bind].
    destruct (c <? getFlitCount ev); [|done]. rewrite (IH _ _ Hr' En Hs'). by rewrite orb_true_r.
Qed.

(** The first proposal that can be sent is, or none can. *)
Lemma output_first n out_q credits host a :
  arb_ok n a -> queues_ok n out_q credits host ->
  (exists a', output_arbitrate (Z.of_nat n) out_q credits host a
      = Ok (-1, a', existsb (waiting_vc out_q) (arb_order a)) /\
     arb_ok n a' /\ arb_order a' = arb_order a /\
     Forall (fun vc => sendable out_q credits host vc = false) (arb_order a)) \/
  (exists l1 c l2 a' l, arb_order a = l1 ++ c :: l2 /\
     Forall (fun vc => sendable out_q credits host vc = false) l1 /\ sendable out_q credits host c = true /\
     output_arbitrate (Z.of_nat n) out_q credits host a = Ok (c, a', true) /\ arb_ok n a' /\
     arb_order a' = l ++ [c] /\
     forall j w, l2 !! j = Some w -> exists j', (j' <= length l1 + j)%nat /\ l !! j' = Some w).
Proof.
  intros Ha Hok. unfold output_arbitrate. rewrite Nat2Z.id.
  pose proof (arb_order_perm n a Ha) as Hp.
  assert (length (arb_order a) = n) as Hlen by (rewrite Hp, length_seqZ; lia).
  assert (Forall (fun vc => 0 <= vc < Z.of_nat n) (arb_order a)) as Hr.
  { rewrite Hp. apply Forall_seqZ. lia. }
  destruct (decide (Exists (fun vc => sendable out_q credits host vc = true) (arb_order a))) as [Hex|Hno].
  - right. assert (exists l1 c l2, arb_order a = l1 ++ c :: l2 /\
      Forall (fun vc => sendable out_q credits host vc = false) l1 /\ sendable out_q credits host c = true)
      as (l1 & c & l2 & E & Hl1 & Hc).
    { clear -Hex. induction (arb_order a) as [|x l IH]; [by inversion Hex|].
      destruct (sendable out_q credits host x) eqn:Ex; [by exists [], x, l|].
      destruct IH as (l1 & c & l2 & -> & ? & ?); [inversion Hex; [congruence|done]|].
      exists (x :: l1), c, l2. split; [done|]. split; [by constructor|done]. }
    destruct (arb_take n a l1 c l2 Ha E) as (a1 & a' & l & En & Es & Ha' & Ho & Hpos).
    exists l1, c, l2, a', l. split_and!; try done.
    destruct (nexts_snoc _ _ _ _ En) as (cs & c0 & a0 & En0 & Ea & Ecs). apply app_inj_tail in Ecs as [<- <-].
    assert (Forall (fun vc => 0 <= vc < Z.of_nat n) l1) as Hr1 by (rewrite E in Hr; by apply Forall_app in Hr as [? _]).
    replace n with (length l1 + S (length l2))%nat at 1
      by (rewrite <- Hlen, E, length_app; done).
    rewrite (output_skip n (S (length l2)) out_q credits host a a0 l1 false Hok Hr1 En0 Hl1).
    cbn [output_loop]. rewrite Ea. cbn [mbind res_bind]. unfold sendable in Hc.
    destruct (at_index out_q c) as [[|ev q]|] eqn:Eq; [done| |done]. cbn [mbind res_bind].
    destruct (at_index credits _) as [cr|] eqn:Ecr; [|done]. cbn [mbind res_bind].
    destruct (cr <? getFlitCount ev); [done|]. by rewrite Es.
  - left. destruct (arb_pass n a Ha) as (a' & En & Ha' & Ho).
    assert (Forall (fun vc => sendable out_q credits host vc = false) (arb_order a)) as Hf.
    { apply Forall_forall. intros vc Hvc. destruct (sendable out_q credits host vc) eqn:Es; [|done].
      exfalso. apply Hno, Exists_exists. by exists vc. }
    exists a'. rewrite <- Hlen in En.
    pose proof (output_skip n 0 out_q credits host a a' _ false Hok Hr En Hf) as E.
    rewrite Nat.add_0_r, Hlen in E. rewrite E. done.
Qed.

(** The output arbitration of a port sends whenever it can: its answer is a
    virtual channel whose first packet has its credits, or -1 when there is none;
    and it reports packets that wait. *)
Theorem output_arb_correct n out_q credits host a :
  arb_ok n a -> queues_ok n out_q credits host ->
  exists vc a' have, output_arbitrate (Z.of_nat n) out_q credits host a = Ok (vc, a', have) /\ arb_ok n a' /\
    ((0 <= vc < Z.of_nat n /\ sendable out_q credits host vc = true /\ have = true) \/
     (vc = -1 /\ (forall w, 0 <= w < Z.of_nat n -> sendable out_q credits host w = false) /\
      (have = true <-> exists w, 0 <= w < Z.of_nat n /\ waiting_vc out_q w = true))).
Proof.
  intros Ha Hok. pose proof (arb_order_perm n a Ha) as Hp.
  assert (forall w, w ∈ arb_order a <-> 0 <= w < Z.of_nat n) as Hin
    by (intros w; rewrite Hp, elem_of_seqZ; lia).
  destruct (output_first n out_q credits host a Ha Hok)
    as [(a' & E & Ha' & _ & Hf)|(l1 & c & l2 & a' & l & Eo & _ & Hc & E & Ha' & _)].
  - eexists _, a', _. split; [exact E|]. split; [done|]. right. split; [done|]. rewrite Forall_forall in Hf. split.
    + intros w Hw. by apply Hf, Hin.
    + rewrite existsb_exists. split; intros (w & Hw & Hs); exists w; (split; [|done]).
      * by apply Hin, list_elem_of_In.
      * by apply list_elem_of_In, Hin.
  - exists c, a', true. split; [done|]. split; [done|]. left. split; [|done].
    apply Hin. rewrite Eo. set_solver.
Qed.

(** What the port sends while its queues and credits change. *)
Fixpoint sends (n : nat) (envs : list (list (list (internal_router_event D)) * list Z)) (host : bool) (a : A)
    : res (list Z) :=
  match envs with
  | [] => Ok []
  | (out_q, credits) :: envs' =>
      '(vc, a, _) ← output_arbitrate (Z.of_nat n) out_q credits host a;
      vcs ← sends n envs' host a; Ok (vc :: vcs)
  end.

Definition always_sendable (n : nat) (host : bool) (w : Z) (envs : list (list (list (internal_router_event D)) * list Z)) : Prop :=
  Forall (fun e => queues_ok n e.1 e.2 host /\ sendable e.1 e.2 host w = true) envs.

Lemma sends_total n envs host a :
  arb_ok n a -> Forall (fun e => queues_ok n e.1 e.2 host) envs -> exists vcs, sends n envs host a = Ok vcs.
Proof.
  intros Ha H. revert a Ha. induction H as [|[q c] envs Hok H IH]; intros a Ha; [by eexists|]. cbn [sends].
  destruct (output_first n q c host a Ha Hok) as [(a' & -> & Ha' & _)|(? & ? & ? & a' & ? & _ & _ & _ & -> & Ha' & _)];
    cbn [mbind res_bind]; destruct (IH a' Ha') as [vcs ->]; by eexists.
Qed.

Lemma served_at n envs host a p w :
  arb_ok n a -> arb_order a !! p = Some w -> (p < length envs)%nat -> always_sendable n host w envs ->
  exists vcs, sends n envs host a = Ok vcs /\ w ∈ vcs.
Proof.
  intros Ha Hp Hlen H. revert a p Ha Hp Hlen. induction H as [|[q c] envs [Hok Hs] H IH]; intros a p Ha Hp Hlen;
    [simpl in Hlen; lia|]. cbn [sends fst snd] in Hok, Hs |- *.
  destruct (output_first n q c host a Ha Hok)
    as [(a' & _ & _ & _ & Hf)|(l1 & v & l2 & a' & l & Eo & Hf & Hv & -> & Ha' & Eo' & Hpos)].
  { rewrite Forall_forall in Hf. rewrite Hf in Hs; [done|]. by eapply list_elem_of_lookup_2. }
  cbn [mbind res_bind]. destruct (decide (v = w)) as [->|Hne].
  - destruct (sends_total n envs host a' Ha') as [vcs ->].
    { eapply Forall_impl; [exact H|]. by intros e [? _]. }
    eexists. split; [done|]. left.
  - rewrite Eo in Hp. assert (w ∉ l1) as Hw.
    { intros Hw. rewrite Forall_forall in Hf. rewrite (Hf _ Hw) in Hs. done. }
    rewrite lookup_app_r in Hp.
    2:{ destruct (decide (length l1 <= p)%nat); [done|]. exfalso. apply Hw.
        rewrite lookup_app_l in Hp by lia. by eapply list_elem_of_lookup_2. }
    destruct (p - length l1)%nat as [|j] eqn:Ej; [cbn in Hp; congruence|]. cbn in Hp.
    destruct (Hpos j w Hp) as (j' & Hj & Hw').
    destruct (IH a' j' Ha') as (vcs & -> & Hin); [rewrite Eo'; by apply lookup_app_l_Some|simpl in Hlen; lia|].
    eexists. split; [done|]. by right.
Qed.

(** No virtual channel starves: one that can be sent in each of as many
    consecutive rounds as there are virtual channels is sent in one of them, with
    either arbitration. *)
Theorem output_arb_fair n envs host a w :
  arb_ok n a -> 0 <= w < Z.of_nat n -> length envs = n -> always_sendable n host w envs ->
  exists vcs, sends n envs host a = Ok vcs /\ w ∈ vcs.
Proof.
  intros Ha Hw Hlen H. pose proof (arb_order_perm n a Ha) as Hp.
  assert (w ∈ arb_order a) as [p Hin]%list_elem_of_lookup by (rewrite Hp; apply elem_of_seqZ; lia).
  eapply served_at; [done|exact Hin| |done]. apply lookup_lt_Some in Hin.
  rewrite Hp, length_seqZ in Hin. lia.
Qed.
End output_theorems.

(** ** Witnesses *)

(** Three virtual channels: the first without credits, the second empty, the
    third with a packet of two flits. *)
Definition demo_ire (vn flits : Z) : internal_router_event unit :=
  mkIre (mkRtrEvent 5 0 vn flits) (Some 0) vn None tt.
Definition demo_out_q : list (list (internal_router_event unit)) := [[demo_ire 0 4]; []; [demo_ire 2 2; demo_ire 2 9]].
Definition demo_credits : list Z := [3; 8; 2].
Lemma demo_queues_ok : queues_ok 3 demo_out_q demo_credits false.
Proof.
  split; [done|]. intros vc ev q [Hvc H]%at_index_Ok. apply at_index_in_range.
  apply lookup_lt_Some in H. cbn in H |- *. lia.
Qed.

Lemma output_arb_correct_witness :
  (arb_ok 3 (Lru.new 3) /\ queues_ok 3 demo_out_q demo_credits false) /\
  exists vc a' have, output_arbitrate 3 demo_out_q demo_credits false (Lru.new 3) = Ok (vc, a', have) /\ arb_ok 3 a' /\
    ((0 <= vc < 3 /\ sendable demo_out_q demo_credits false vc = true /\ have = true) \/
     (vc = -1 /\ (forall w, 0 <= w < 3 -> sendable demo_out_q demo_credits false w = false) /\
      (have = true <-> exists w, 0 <= w < 3 /\ waiting_vc demo_out_q w = true))).
Proof.
  assert (arb_ok 3 (Lru.new 3)) as Ha by (apply (lru_new_ok 3); lia).
  split; [split; [exact Ha|exact demo_queues_ok]|].
  exact (output_arb_correct 3 demo_out_q demo_credits false (Lru.new 3) Ha demo_queues_ok).
Defined.

Lemma output_arb_fair_witness :
  exists vcs, sends 3 (replicate 3 (demo_out_q, demo_credits)) false (RoundRobin.new 3) = Ok vcs /\ 2 ∈ vcs.
Proof.
  apply (output_arb_fair 3 (replicate 3 (demo_out_q, demo_credits)) false (RoundRobin.new 3) 2).
  - apply (rr_new_ok 3).
  - lia.
  - done.
  - apply Forall_replicate. split; [exact demo_queues_ok|done].
Defined.
