(* ===== verification/PortControl.v ===== *)
(** * PortControl: the ports of a merlin router

    Models the data path of [merlin/interfaces/portControl.h/.cc]: the input and
    output buffers of the virtual channels, the credits that protect them, the
    heads the crossbar looks at, and the events a port exchanges with its link,
    its own output timer and its router. What a port does to others is the list
    of [actions] it has taken, in order. Congestion management (off unless a
    parameter turns it on), the adaptation of the link width, tracing, the count of
    bits sent and network inspectors are not modelled. *)

From S2P Require Import Prelude Merlin Arbitration.

(** ** Events and actions *)

Module CtrlType.
Inductive t := CONGESTION | TOPOLOGY.
#[global] Instance eq_dec : EqDecision t.
Proof. solve_decision. Defined.
End CtrlType.

(** [CtrlRtrEvent]: an event of the routers themselves. *)
Record CtrlRtrEvent := mkCtrl {
  ctrl_type : CtrlType.t;
  ctrl_flits : Z;
  ctrl_addr : Z;
  addr_is_router : bool;
  addr_for_router : bool
}.

(** The events on a link ([BaseRtrEvent::RtrEventType]). *)
Inductive link_event (D : Type) :=
| Credit (vc credits : Z)
| Packet (ev : RtrEvent)
| Internal (ev : internal_router_event D)
| Initialization
| Ctrl (ev : CtrlRtrEvent).
Arguments Credit {D} vc credits.
Arguments Packet {D} ev.
Arguments Internal {D} ev.
Arguments Initialization {D}.
Arguments Ctrl {D} ev.

Module PortStat.
Inductive t := send_packet_count | output_port_stalls | idle_time.
End PortStat.

Inductive action (D : Type) :=
| LinkSend (ev : link_event D)
| OutputTiming (delay : Z)
| IncVcs
| DecVcs
| NotifyRouter
| RouterCtrl (ev : CtrlRtrEvent)
| AddData (s : PortStat.t) (v : Z).
Arguments LinkSend {D} ev.
Arguments OutputTiming {D} delay.
Arguments IncVcs {D}.
Arguments DecVcs {D}.
Arguments NotifyRouter {D}.
Arguments RouterCtrl {D} ev.
Arguments AddData {D} s v.

(** ** State *)

Record Port (D A : Type) := mkPort {
  port_number : Z;
  host_port : bool;
  num_vcs : Z;
  input_buf : list (list (internal_router_event D));
  output_buf : list (list (internal_router_event D));
  input_buf_count : list Z;
  output_buf_count : list Z;
  vc_heads : list (option (internal_router_event D));
  xbar_in_credits : list Z;
  port_ret_credits : list Z;
  port_out_credits : list Z;
  output_queue_lengths : list Z;
  oql_track_port : bool;
  oql_track_remote : bool;
  ctrl_queue : list CtrlRtrEvent;
  waiting : bool;
  have_packets : bool;
  is_idle : bool;
  sai_port_disabled : bool;
  start_block : Z;
  idle_start : Z;
  remote_rdy_for_credits : bool;
  output_arb : A;
  actions : list (action D)
}.
Arguments mkPort {D A}.
Arguments port_number {D A}. Arguments host_port {D A}. Arguments num_vcs {D A}.
Arguments input_buf {D A}. Arguments output_buf {D A}. Arguments input_buf_count {D A}.
Arguments output_buf_count {D A}. Arguments vc_heads {D A}. Arguments xbar_in_credits {D A}.
Arguments port_ret_credits {D A}. Arguments port_out_credits {D A}. Arguments output_queue_lengths {D A}.
Arguments oql_track_port {D A}. Arguments oql_track_remote {D A}. Arguments ctrl_queue {D A}.
Arguments waiting {D A}. Arguments have_packets {D A}. Arguments is_idle {D A}.
Arguments sai_port_disabled {D A}. Arguments start_block {D A}. Arguments idle_start {D A}.
Arguments remote_rdy_for_credits {D A}. Arguments output_arb {D A}. Arguments actions {D A}.
#[export] Instance port_eta D A : Eta (Port D A) := fun p =>
  mkPort (port_number p) (host_port p) (num_vcs p) (input_buf p) (output_buf p) (input_buf_count p)
    (output_buf_count p) (vc_heads p) (xbar_in_credits p) (port_ret_credits p) (port_out_credits p)
    (output_queue_lengths p) (oql_track_port p) (oql_track_remote p) (ctrl_queue p) (waiting p)
    (have_packets p) (is_idle p) (sai_port_disabled p) (start_block p) (idle_start p)
    (remote_rdy_for_credits p) (output_arb p) (actions p).

Section port.
Context {T D A : Type} {HT : Topology T D} {HA : SingleArbitration A}.
Abbreviation St := (Port D A).
Implicit Type topo : T.

Definition act (a : action D) : M St unit := modify (fun p => p <| actions ::= fun l => l ++ [a] |>).

(** [array[i] += d] *)
Definition add_at (l : list Z) (i d : Z) : res (list Z) := v ← at_index l i; set_index l i (v + d).

(** [initVCs], the sizes of the buffers in flits. *)
Definition initVCs (number : Z) (host : bool) (vcs_per_vn : list Z) (ibs obs : Z)
    (track_port track_remote : bool) (now : Z) (arb : Z -> A) : St :=
  let num_vcs := foldr Z.add 0 vcs_per_vn in
  let n := Z.to_nat num_vcs in
  mkPort number host num_vcs (replicate n []) (replicate n []) (replicate n 0) (replicate n 0)
    (replicate n None) (replicate n obs) (replicate n ibs) (replicate n 0) (replicate n 0)
    track_port track_remote [] true false true false 0 now false (arb num_vcs) [].

(** ** The crossbar's side *)

(** [waiting]: the port is woken by its own timer. *)
Definition wake (now : Z) (count_stall : bool) : M St unit :=
  w ← gets waiting;
  when w
    (act (OutputTiming 1) ;; modify (fun p => p <| waiting := false |>) ;;
     h ← gets have_packets; s ← gets start_block;
     when (count_stall && h) (act (AddData PortStat.output_port_stalls (now - s)))).

(** [output_queue_lengths] of one virtual channel, or of all. *)
Definition track_lengths (vc d : Z) : M St unit :=
  l ← getsR (fun p => if oql_track_port p then Ok (Z.add d <$> output_queue_lengths p)
                      else add_at (output_queue_lengths p) vc d);
  modify (fun p => p <| output_queue_lengths := l |>).

Definition send (now : Z) (ev : internal_router_event D) (vc : Z) : M St unit :=
  c ← getsR (fun p => add_at (xbar_in_credits p) vc (- getFlitCount ev));
  modify (fun p => p <| xbar_in_credits := c |>) ;;
  track_lengths vc (getFlitCount ev) ;;
  q ← getsR (fun p => at_index (output_buf p) vc);
  b ← getsR (fun p => set_index (output_buf p) vc (q ++ [setVC vc ev]));
  modify (fun p => p <| output_buf := b |>) ;;
  wake now false.

Definition spaceToSend (vc flits : Z) (p : St) : res bool :=
  c ← at_index (xbar_in_credits p) vc; Ok (negb (c <? flits)).

Definition set_head (vc : Z) (h : option (internal_router_event D)) : M St unit :=
  l ← getsR (fun p => set_index (vc_heads p) vc h); modify (fun p => p <| vc_heads := l |>).
Definition set_input (vc : Z) (q : list (internal_router_event D)) : M St unit :=
  l ← getsR (fun p => set_index (input_buf p) vc q); modify (fun p => p <| input_buf := l |>).

(** What is left of the queue of a virtual channel: its first event is routed and
    becomes the head. *)
Definition next_head topo (vc : Z) (q : list (internal_router_event D)) : M St unit :=
  match q with
  | [] => set_input vc [] ;; set_head vc None ;; act DecVcs
  | next :: q' =>
      number ← gets port_number;
      next ← getsR (fun _ => route_packet topo number (ire_vc next) next);
      set_input vc (next :: q') ;; set_head vc (Some next)
  end.

(** The credits of an event that leaves the input buffer go back over the link,
    to the virtual network of an endpoint or the channel of a router. *)
Definition return_credits topo (vc : Z) (event : internal_router_event D) : M St unit :=
  number ← gets port_number;
  host ← getsR (fun _ => isHostPort topo number);
  vc_return ← getsR (fun _ => if host : bool then getCreditReturnVC event else Ok vc);
  l ← getsR (fun p => add_at (port_ret_credits p) vc_return (getFlitCount event));
  c ← getsR (fun _ => at_index l vc_return);
  act (LinkSend (Credit vc_return c)) ;;
  l ← getsR (fun _ => set_index l vc_return 0);
  modify (fun p => p <| port_ret_credits := l |>).

(** The next event of a virtual channel. *)
Definition recv topo (vc : Z) : M St (option (internal_router_event D)) :=
  q ← getsR (fun p => at_index (input_buf p) vc);
  match q with
  | [] => mret None
  | event :: q' => next_head topo vc q' ;; return_credits topo vc event ;; mret (Some event)
  end.

Definition sendCtrlEvent (now : Z) (ev : CtrlRtrEvent) : M St unit :=
  if ctrl_flits ev =? 0 then act (LinkSend (Ctrl ev))
  else modify (fun p => p <| ctrl_queue ::= fun l => l ++ [ev] |>) ;; wake now true.

(** ** The link's side *)

(** An event joins the queue of its virtual channel; with none before it, it is
    routed at once and becomes the head. *)
Definition enqueue topo (ev : internal_router_event D) : M St unit :=
  let curr_vc := ire_vc ev in
  q ← getsR (fun p => at_index (input_buf p) curr_vc);
  set_input curr_vc (q ++ [ev]) ;;
  n ← getsR (fun p => add_at (input_buf_count p) curr_vc 1);
  modify (fun p => p <| input_buf_count := n |>) ;;
  h ← getsR (fun p => at_index (vc_heads p) curr_vc);
  match h with
  | None =>
      number ← gets port_number;
      ev ← getsR (fun _ => route_packet topo number (ire_vc ev) ev);
      set_input curr_vc (q ++ [ev]) ;; set_head curr_vc (Some ev) ;; act IncVcs
  | Some _ => skip
  end ;;
  act NotifyRouter.

Definition take_credit (vc credits : Z) : M St unit :=
  l ← getsR (fun p => add_at (port_out_credits p) vc credits);
  modify (fun p => p <| port_out_credits := l |>).

(** From an endpoint. *)
Definition handle_input_n2r topo (now : Z) (e : link_event D) : M St unit :=
  match e with
  | Credit vc credits =>
      take_credit vc credits ;;
      remote ← gets oql_track_remote;
      when remote (track_lengths vc (- credits)) ;;
      wake now true
  | Packet event =>
      rtr_event ← getsR (fun _ => process_input topo event);
      enqueue topo (setCreditReturnVC (route_vn event) rtr_event)
  | Ctrl c => act (RouterCtrl c)
  | Internal _ | Initialization => skip
  end.

(** From another router. *)
Definition handle_input_r2r topo (now : Z) (e : link_event D) : M St unit :=
  match e with
  | Credit vc credits => take_credit vc credits ;; wake now true
  | Internal event => enqueue topo event
  | Ctrl c => act (RouterCtrl c)
  | Packet _ | Initialization => skip
  end.

(** The idle time of the port ends. *)
Definition end_idle (now : Z) : M St unit :=
  s ← gets idle_start;
  act (AddData PortStat.idle_time (now - s)) ;; modify (fun p => p <| is_idle := false |>).

(** The part of [handle_output] that sends the first packet of a channel. *)
Definition send_out (now vc : Z) : M St unit :=
  q ← getsR (fun p => at_index (output_buf p) vc);
  match q with
  | [] => undefined "front of an empty queue"
  | send_event :: q' =>
      b ← getsR (fun p => set_index (output_buf p) vc q');
      modify (fun p => p <| output_buf := b |>) ;;
      let size := getFlitCount send_event in
      c ← getsR (fun p => add_at (xbar_in_credits p) vc size);
      modify (fun p => p <| xbar_in_credits := c |>) ;;
      remote ← gets oql_track_remote;
      when (negb remote) (track_lengths vc (- size)) ;;
      act (OutputTiming size) ;;
      take_credit vc (- size) ;;
      n ← getsR (fun p => add_at (output_buf_count p) vc 1);
      modify (fun p => p <| output_buf_count := n |>) ;;
      idle ← gets is_idle;
      when idle (end_idle now) ;;
      act (AddData PortStat.send_packet_count 1) ;;
      host ← gets host_port;
      act (LinkSend (if host : bool then Packet (encap_ev send_event) else Internal send_event))
  end.

(** The virtual channel to send from, -1 for none. *)
Definition choose_vc : M St Z :=
  disabled ← gets sai_port_disabled;
  if disabled : bool then mret (-1)
  else
    '(vc, a, h) ← getsR (fun p =>
       output_arbitrate (num_vcs p) (output_buf p) (port_out_credits p) (host_port p) (output_arb p));
    modify (fun p => p <| output_arb := a |> <| have_packets := h |>) ;; mret vc.

(** Nothing can be sent: the port waits to be woken. *)
Definition fall_asleep (now : Z) : M St unit :=
  modify (fun p => p <| start_block := now |> <| waiting := true |>) ;;
  h ← gets have_packets; i ← gets is_idle;
  when (negb h && negb i) (modify (fun p => p <| idle_start := now |> <| is_idle := true |>)) ;;
  i ← gets is_idle;
  when (h && i) (end_idle now) ;;
  disabled ← gets sai_port_disabled;
  when disabled (act (OutputTiming 1)).

Definition handle_output (now : Z) : M St unit :=
  cq ← gets ctrl_queue;
  match cq with
  | event :: cq' =>
      modify (fun p => p <| ctrl_queue := cq' |>) ;;
      act (OutputTiming (ctrl_flits event)) ;; act (LinkSend (Ctrl event))
  | [] =>
      vc_to_send ← choose_vc;
      if negb (vc_to_send =? -1) then send_out now vc_to_send else fall_asleep now
  end.

Definition reenablePort : M St unit := modify (fun p => p <| sai_port_disabled := false |>).

(** ** Credits at the start *)

(** The part of [init] after the second phase, towards another router: the
    credits of the input buffers are sent once. *)
Definition init_credits : M St unit :=
  rdy ← gets remote_rdy_for_credits;
  when rdy
    (l ← gets port_ret_credits;
     modify (fun p => p <| actions ::= fun a => a ++ imap (fun i c => LinkSend (Credit (Z.of_nat i) c)) l |>
                        <| port_ret_credits := (fun _ => 0) <$> l |>
                        <| remote_rdy_for_credits := false |>)).

(** The credits of the other side. *)
Fixpoint init_recv (l : list (link_event D)) : M St unit :=
  match l with
  | [] => skip
  | Credit vc credits :: l' => take_credit vc credits ;; init_recv l'
  | Initialization :: l' => modify (fun p => p <| remote_rdy_for_credits := true |>) ;; init_recv l'
  | _ :: l' => init_recv l'
  end.
End port.
