(* ===== verification/FlowControl.v ===== *)
(** * FlowControl: what the ports of a link keep

    The credits of [portControl.cc], seen from the two ports of a link between
    routers. The part of a port that credits are about is its [flow]; every
    operation has a lemma that says what it does to the flow. From these follow
    the conservation of credits over the two ports and the events in flight
    between them, and that no buffer overflows. A second group of lemmas follows
    the timer of the output: a port that sleeps has nothing it could send. *)

From S2P Require Import Prelude Merlin Arbitration PortControl.

(** ** The flow of a port *)

Section flow.
Context {T D A : Type} {HT : Topology T D} {HA : SingleArbitration A}.
Abbreviation St := (Port D A).
Implicit Types (p : St) (topo : T) (vc : Z) (k : nat).

(** What the port has sent over its link, in order. *)
Definition sent p : list (link_event D) :=
  omap (fun a => match a with LinkSend e => Some e | _ => None end) (actions p).

(** Together with the constants of the port: its number, whether an endpoint is
    behind it, the number of virtual channels. *)
Record flow := mkFlow {
  f_port : Z * bool * Z;
  f_in : list (list (internal_router_event D));
  f_out : list (list (internal_router_event D));
  f_xbar : list Z;
  f_ret : list Z;
  f_credits : list Z;
  f_sent : list (link_event D)
}.
#[local] Instance flow_eta : Eta flow := fun f =>
  mkFlow (f_port f) (f_in f) (f_out f) (f_xbar f) (f_ret f) (f_credits f) (f_sent f).

Definition flow_of p : flow :=
  mkFlow (port_number p, host_port p, num_vcs p) (input_buf p) (output_buf p) (xbar_in_credits p) (port_ret_credits p) (port_out_credits p) (sent p).

(** The packets of one virtual channel on a link, and the credits for it. *)
Definition data_for k (e : link_event D) : Z :=
  match e with Internal ev => if ire_vc ev =? Z.of_nat k then getFlitCount ev else 0 | _ => 0 end.
Definition credit_for k (e : link_event D) : Z :=
  match e with Credit vc c => if vc =? Z.of_nat k then c else 0 | _ => 0 end.
Definition flits : list (internal_router_event D) -> Z := total getFlitCount.

(** The two accounts of a virtual channel: credits for the other side's buffer,
    and space of the own one; and the account of the output buffer. *)
Definition out_account k (f : flow) : Z := f_credits f !!! k + total (data_for k) (f_sent f).
Definition in_account k (f : flow) : Z :=
  flits (f_in f !!! k) + f_ret f !!! k + total (credit_for k) (f_sent f).
Definition buffer_account k (f : flow) : Z := f_xbar f !!! k + flits (f_out f !!! k).

Definition keeps_flow : relation St := fun p p' => flow_of p' = flow_of p.
#[local] Instance keeps_flow_preorder : PreOrder keeps_flow.
Proof. apply frame_preorder. Qed.

Lemma sent_app p l : sent (p <| actions ::= fun a => a ++ l |>)
  = sent p ++ omap (fun a => match a with LinkSend e => Some e | _ => None end) l.
Proof. unfold sent. cbn. apply omap_app. Qed.

Lemma act_flow (a : action D) p r p' :
  act a p = Ok (r, p') ->
  flow_of p' = match a with LinkSend e => (flow_of p) <| f_sent := sent p ++ [e] |> | _ => flow_of p end.
Proof.
  intros [= _ <-]. unfold flow_of. rewrite sent_app. cbn.
  destruct a; try done; by rewrite app_nil_r.
Qed.

Lemma wake_flow now b : steps keeps_flow (wake now b).
Proof.
  unfold wake. steps_walk; try (intros p r p' H; unfold keeps_flow; by rewrite (act_flow _ _ _ _ H)).
  apply steps_modify. by intros.
Qed.

Lemma track_lengths_flow vc d : steps keeps_flow (track_lengths vc d).
Proof. unfold track_lengths. steps_walk. apply steps_modify. by intros. Qed.

Lemma end_idle_flow now : steps keeps_flow (end_idle now).
Proof.
  unfold end_idle. steps_walk; [|apply steps_modify; by intros].
  intros p r p' H. unfold keeps_flow. by rewrite (act_flow _ _ _ _ H).
Qed.

Lemma add_at_Ok l i d l' :
  add_at l i d = Ok l' <->
  0 <= i < Z.of_nat (length l) /\ l' = <[Z.to_nat i := l !!! Z.to_nat i + d]> l.
Proof.
  unfold add_at. rewrite res_bind_Ok. split.
  - intros (v & [Hi Hv]%at_index_Ok & [Hr ->]%set_index_Ok). split; [done|].
    by rewrite (list_lookup_total_correct _ _ _ Hv).
  - intros [Hi ->]. destruct (at_index_in_range l i Hi) as [v Hv]. exists v. split; [done|].
    apply at_index_Ok in Hv as [_ Hv]. rewrite (list_lookup_total_correct _ _ _ Hv).
    by apply set_index_in_range.
Qed.

Lemma flow_set_out p b : flow_of (p <| output_buf := b |>) = (flow_of p) <| f_out := b |>.
Proof. done. Qed.

Lemma flow_set_ret p l : flow_of (p <| port_ret_credits := l |>) = (flow_of p) <| f_ret := l |>.
Proof. done. Qed.

Ltac flow_step :=
  match goal with
  | H : wake _ _ _ = Ok _ |- _ => apply wake_flow in H; unfold keeps_flow in H
  | H : track_lengths _ _ _ = Ok _ |- _ => apply track_lengths_flow in H; unfold keeps_flow in H
  | H : act _ _ = Ok _ |- _ => apply act_flow in H
  end.

Ltac in_flow s :=
  change (port_ret_credits s) with (f_ret (flow_of s)) in *;
  change (port_out_credits s) with (f_credits (flow_of s)) in *;
  change (sent s) with (f_sent (flow_of s)) in *;
  change (host_port s) with ((f_port (flow_of s)).1.2) in *.

(** *** The crossbar *)

Lemma send_flow now ev vc p r p' :
  send now ev vc p = Ok (r, p') ->
  exists q, 0 <= vc /\ output_buf p !! Z.to_nat vc = Some q /\
    (Z.to_nat vc < length (xbar_in_credits p))%nat /\
    flow_of p' = (flow_of p)
      <| f_xbar := <[Z.to_nat vc := xbar_in_credits p !!! Z.to_nat vc + - getFlitCount ev]> (xbar_in_credits p) |>
      <| f_out := <[Z.to_nat vc := q ++ [setVC vc ev]]> (output_buf p) |>.
Proof.
  unfold send. intros H. inv_run. repeat flow_step.
  match goal with H : add_at _ _ _ = Ok _ |- _ => apply add_at_Ok in H as [Hr ->] end.
  match goal with H : at_index _ _ = Ok _ |- _ => apply at_index_Ok in H as [Hvc Hq] end.
  match goal with H : set_index _ _ _ = Ok _ |- _ => apply set_index_Ok in H as [_ ->] end.
  rename select (flow_of p' = _) into Hp'. rename select (flow_of _ = flow_of (_ <| xbar_in_credits := _ |>)) into Hs.
  pose proof (f_equal f_out Hs) as Eo. cbn in Eo. rewrite flow_set_out, Hs, Eo in Hp'. rewrite Eo in Hq.
  eexists. split_and!; [done|exact Hq|lia|exact Hp'].
Qed.

(** *** The input side *)

Lemma set_input_flow vc q p r p' :
  set_input vc q p = Ok (r, p') ->
  0 <= vc /\ (Z.to_nat vc < length (input_buf p))%nat /\
  flow_of p' = (flow_of p) <| f_in := <[Z.to_nat vc := q]> (input_buf p) |>.
Proof.
  unfold set_input. intros H. inv_run.
  match goal with H : set_index _ _ _ = Ok _ |- _ => apply set_index_Ok in H as [Hr ->] end.
  split_and!; [lia|lia|done].
Qed.

Lemma set_head_flow vc h : steps keeps_flow (set_head vc h).
Proof. unfold set_head. steps_walk. apply steps_modify. by intros. Qed.

Lemma take_credit_flow vc c p r p' :
  take_credit vc c p = Ok (r, p') ->
  0 <= vc /\ (Z.to_nat vc < length (port_out_credits p))%nat /\
  flow_of p' = (flow_of p)
    <| f_credits := <[Z.to_nat vc := port_out_credits p !!! Z.to_nat vc + c]> (port_out_credits p) |>.
Proof.
  unfold take_credit. intros H. inv_run.
  match goal with H : add_at _ _ _ = Ok _ |- _ => apply add_at_Ok in H as [Hr ->] end.
  split_and!; [lia|lia|done].
Qed.
(** What a packet that waits behind others becomes when it is routed. *)
Definition same_packets (q q' : list (internal_router_event D)) : Prop := encap_ev <$> q' = encap_ev <$> q.

Context {HL : TopologyLaws T D}.

Lemma enqueue_flow topo ev p r p' :
  enqueue topo ev p = Ok (r, p') ->
  exists q ev', 0 <= ire_vc ev /\ input_buf p !! Z.to_nat (ire_vc ev) = Some q /\ encap_ev ev' = encap_ev ev /\
    flow_of p' = (flow_of p) <| f_in := <[Z.to_nat (ire_vc ev) := q ++ [ev']]> (input_buf p) |>.
Proof.
  unfold enqueue. intros H. inv_run. rename select (at_index (input_buf p) _ = _) into Hq.
  apply at_index_Ok in Hq as [Hvc Hq]. rename select (set_input _ _ p = _) into Hset.
  apply set_input_flow in Hset as (_ & Hr & Hset). rename select (act NotifyRouter _ = _) into Hn.
  apply act_flow in Hn. cbn in Hn. exists a.
  destruct a3 as [h|]; inv_run.
  - exists ev. split_and!; [done..|]. by rewrite Hn.
  - rename select (act IncVcs _ = _) into Hi. apply act_flow in Hi. cbn in Hi.
    rename select (set_head _ _ _ = _) into Hs. apply set_head_flow in Hs. unfold keeps_flow in Hs.
    rename select (set_input _ _ _ = _) into Hset2. apply set_input_flow in Hset2 as (_ & _ & Hset2).
    rename select (route_packet _ _ _ _ = _) into Hrt. apply route_keeps_packet in Hrt.
    eexists. split_and!; [done|done|exact Hrt|]. rewrite Hn, Hi, Hs, Hset2.
    change (flow_of (s0 <| input_buf_count := a1 |>)) with (flow_of s0). change (input_buf (s0 <| input_buf_count := a1 |>)) with (f_in (flow_of s0)).
    rewrite Hset. cbn. by rewrite list_insert_insert_eq.
Qed.

Lemma flow_port_number p p' : f_port (flow_of p') = f_port (flow_of p) -> port_number p' = port_number p.
Proof. by intros [= -> _ _]. Qed.

Lemma next_head_flow topo vc q p r p' :
  next_head topo vc q p = Ok (r, p') ->
  exists q', same_packets q q' /\ 0 <= vc /\
    flow_of p' = (flow_of p) <| f_in := <[Z.to_nat vc := q']> (input_buf p) |>.
Proof.
  unfold next_head. intros H. destruct q as [|next q]; inv_run.
  - rename select (set_input _ _ _ = _) into Hset. apply set_input_flow in Hset as (Hvc & _ & Hset).
    rename select (set_head _ _ _ = _) into Hh. apply set_head_flow in Hh. flow_step. cbn in *.
    exists []. split_and!; [done|done|]. unfold keeps_flow in Hh. congruence.
  - rename select (set_input _ _ _ = _) into Hset. apply set_input_flow in Hset as (Hvc & _ & Hset).
    rename select (set_head _ _ _ = _) into Hh. apply set_head_flow in Hh. unfold keeps_flow in Hh.
    rename select (route_packet _ _ _ _ = _) into Hrt. apply route_keeps_packet in Hrt.
    eexists. split_and!; [|done|by rewrite Hh, Hset]. unfold same_packets. cbn. by rewrite Hrt.
Qed.

Lemma return_credits_flow topo vc event p r p' :
  return_credits topo vc event p = Ok (r, p') ->
  exists vr, (isHostPort topo (port_number p) = Ok false -> vr = vc) /\
    0 <= vr /\ (Z.to_nat vr < length (port_ret_credits p))%nat /\
    flow_of p' = (flow_of p)
      <| f_ret := <[Z.to_nat vr := 0]> (port_ret_credits p) |>
      <| f_sent := sent p ++ [Credit vr (port_ret_credits p !!! Z.to_nat vr + getFlitCount event)] |>.
Proof.
  unfold return_credits. intros H. inv_run.
  rename select (add_at _ _ _ = _) into Ha. apply add_at_Ok in Ha as [Hr ->].
  rename select (set_index _ _ _ = _) into Hs. apply set_index_Ok in Hs as [_ ->].
  rename select (at_index _ _ = _) into Hc. apply at_index_Ok in Hc as [Hvr Hc].
  rewrite list_lookup_insert, decide_True in Hc by lia. injection Hc as <-.
  rename select (isHostPort _ _ = _) into Hh. flow_step. cbn in *.
  eexists. split_and!; [|exact Hvr|lia|].
  - rewrite Hh. intros [= ->]. by inv_res.
  - rewrite list_insert_insert_eq, flow_set_ret. rename select (flow_of _ = _) into E. by rewrite E.
Qed.

(** Taking nothing changes nothing; taking a packet returns its credits. *)
Lemma recv_flow topo vc p r p' :
  recv topo vc p = Ok (r, p') ->
  match r with
  | None => p' = p
  | Some event => exists q q' vr, 0 <= vc /\ input_buf p !! Z.to_nat vc = Some (event :: q) /\ same_packets q q' /\
      (isHostPort topo (port_number p) = Ok false -> vr = vc) /\
      0 <= vr /\ (Z.to_nat vr < length (port_ret_credits p))%nat /\
      flow_of p' = (flow_of p)
        <| f_in := <[Z.to_nat vc := q']> (input_buf p) |>
        <| f_ret := <[Z.to_nat vr := 0]> (port_ret_credits p) |>
        <| f_sent := sent p ++ [Credit vr (port_ret_credits p !!! Z.to_nat vr + getFlitCount event)] |>
  end.
Proof.
  unfold recv. intros H. inv_run. rename select (at_index _ _ = _) into Hq. apply at_index_Ok in Hq as [Hvc Hq].
  destruct a as [|event q]; inv_run; [done|].
  rename select (next_head _ _ _ _ = _) into Hn. apply next_head_flow in Hn as (q' & Hsame & _ & Hn).
  rename select (return_credits _ _ _ _ = _) into Hc. apply return_credits_flow in Hc as (vr & Hvr & Hr & Hlt & Hc).
  rewrite (flow_port_number p s) in Hvr by by rewrite Hn.
  in_flow s. rewrite Hn in *. eexists q, q', vr. split_and!; done.
Qed.

(** *** The output side *)

Lemma send_out_flow now vc p r p' :
  send_out now vc p = Ok (r, p') ->
  exists ev q, 0 <= vc /\ output_buf p !! Z.to_nat vc = Some (ev :: q) /\
    (Z.to_nat vc < length (port_out_credits p))%nat /\ (Z.to_nat vc < length (xbar_in_credits p))%nat /\
    flow_of p' = (flow_of p)
      <| f_out := <[Z.to_nat vc := q]> (output_buf p) |>
      <| f_xbar := <[Z.to_nat vc := xbar_in_credits p !!! Z.to_nat vc + getFlitCount ev]> (xbar_in_credits p) |>
      <| f_credits := <[Z.to_nat vc := port_out_credits p !!! Z.to_nat vc + - getFlitCount ev]> (port_out_credits p) |>
      <| f_sent := sent p ++ [if host_port p then Packet (encap_ev ev) else Internal ev] |>.
Proof.
  unfold send_out. intros H. inv_run. rename select (at_index _ _ = _) into Hq. apply at_index_Ok in Hq as [Hvc Hq].
  destruct a as [|event q]; inv_run. rename select (set_index _ _ _ = _) into Ho. apply set_index_Ok in Ho as [_ ->].
  rename select (add_at (xbar_in_credits _) _ _ = _) into Hx. apply add_at_Ok in Hx as [Hx ->].
  rename select (when _ (track_lengths _ _) _ = _) into Ht.
  apply (steps_when _ _ _ (track_lengths_flow _ _)) in Ht. unfold keeps_flow in Ht.
  rename select (take_credit _ _ _ = _) into Hc. apply take_credit_flow in Hc as (_ & Hlt & Hc).
  rename select (when _ (end_idle _) _ = _) into Hi.
  apply (steps_when _ _ _ (end_idle_flow _)) in Hi. unfold keeps_flow in Hi. repeat flow_step. cbn in Hx, Ht.
  change (flow_of s4 = (flow_of p)
    <| f_out := <[Z.to_nat vc := q]> (output_buf p) |>
    <| f_xbar := <[Z.to_nat vc := xbar_in_credits p !!! Z.to_nat vc + getFlitCount event]> (xbar_in_credits p) |>) in Ht.
  rename select (flow_of p' = _) into Hp'. rename select (flow_of s12 = _) into Hs12. rename select (flow_of s5 = _) into Hs5.
  change (flow_of s10 = flow_of s6) in Hi. in_flow s12. in_flow s5.
  rewrite Hs12, Hi, Hc, Hs5, Ht in Hp'. rewrite Hs5, Ht in Hlt.
  exists event, q. split_and!; [done|done|done|lia|done].
Qed.

Lemma output_loop_sendable n (out_q : list (list (internal_router_event D))) credits host (a : A) have vc a' have' :
  output_loop n out_q credits host a have = Ok (vc, a', have') -> vc = -1 \/ sendable out_q credits host vc = true.
Proof.
  revert a have. induction n as [|n IH]; intros a have H; cbn [output_loop] in H; [inv_res; by left|].
  apply res_bind_Ok in H as ([c a1] & _ & H). apply res_bind_Ok in H as (q & Hq & H).
  destruct q as [|ev q]; [by eapply IH|]. apply res_bind_Ok in H as (cr & Hcr & H).
  destruct (cr <? getFlitCount ev) eqn:E; [by eapply IH|]. inv_res. right.
  unfold sendable. by rewrite Hq, Hcr, E.
Qed.

Lemma choose_vc_flow p vc p' :
  choose_vc p = Ok (vc, p') ->
  flow_of p' = flow_of p /\
  (vc = -1 \/ sendable (output_buf p) (port_out_credits p) (host_port p) vc = true).
Proof.
  unfold choose_vc. intros H. apply bind_Ok in H as (? & ? & [= <- <-] & H). destruct (sai_port_disabled p); inv_run.
  { split; [done|by left]. }
  destruct a as [[vc' a] h]. inv_run. split; [done|]. by eapply output_loop_sendable.
Qed.

Lemma fall_asleep_flow now : steps keeps_flow (fall_asleep now).
Proof.
  unfold fall_asleep. steps_walk; first [by apply end_idle_flow | apply steps_modify; by intros | idtac].
  intros p r p' H. unfold keeps_flow. by rewrite (act_flow _ _ _ _ H).
Qed.

Lemma handle_output_flow now p r p' :
  handle_output now p = Ok (r, p') ->
  flow_of p' = flow_of p \/
  (exists ev, flow_of p' = (flow_of p) <| f_sent := sent p ++ [Ctrl ev] |>) \/
  (exists vc p1 r', flow_of p1 = flow_of p /\ sendable (output_buf p) (port_out_credits p) (host_port p) vc = true /\
     send_out now vc p1 = Ok (r', p')).
Proof.
  unfold handle_output. intros H. apply bind_Ok in H as (? & ? & [= <- <-] & H).
  destruct (ctrl_queue _) as [|event cq] in H; inv_run.
  - rename select (choose_vc _ = _) into Hc. apply choose_vc_flow in Hc as [Hc Hs].
    destruct (Z.eqb_spec a (-1)) as [->|Hne]; cbn [negb] in *.
    + left. rename select (fall_asleep _ _ = _) into Hf. apply fall_asleep_flow in Hf. by rewrite Hf.
    + right; right. destruct Hs as [?|Hs]; [done|]. by eexists _, _, _.
  - right; left. exists event. repeat flow_step.
    rename select (flow_of p' = _) into E. rename select (flow_of s0 = _) into E0.
    change (flow_of s0 = flow_of p) in E0. in_flow s0. by rewrite E, E0.
Qed.

(** *** The accounts *)

(** Every packet waiting in the output buffer carries the number of its virtual
    channel, sizes and credits are not negative, and the space of the output
    buffer is accounted for. *)
Definition sized (ev : internal_router_event D) : Prop := 0 <= getFlitCount ev.
Definition labelled k (ev : internal_router_event D) : Prop := ire_vc ev = Z.of_nat k /\ sized ev.
Definition sound (e : link_event D) : Prop :=
  match e with Credit _ c => 0 <= c | Internal ev => sized ev | _ => True end.

Record flow_ok (obs : Z) (f : flow) : Prop := {
  fo_in k q : f_in f !! k = Some q -> Forall sized q;
  fo_out k q : f_out f !! k = Some q -> Forall (labelled k) q;
  fo_credits k : 0 <= f_credits f !!! k;
  fo_ret k : 0 <= f_ret f !!! k;
  fo_sent : Forall sound (f_sent f);
  fo_space k : 0 <= f_xbar f !!! k;
  fo_buffer k : (k < length (f_out f))%nat -> buffer_account k f = obs
}.

Lemma insert_each {B} (P : nat -> B -> Prop) (l : list B) i x :
  (forall k y, l !! k = Some y -> P k y) -> P i x -> forall k y, <[i := x]> l !! k = Some y -> P k y.
Proof. intros Hl Hx k y [(<- & <- & _)|[_ H]]%list_lookup_insert_Some; [done|by apply Hl]. Qed.


Lemma flits_cons ev q : flits (ev :: q) = getFlitCount ev + flits q.
Proof. done. Qed.
Lemma flits_snoc q ev : flits (q ++ [ev]) = flits q + getFlitCount ev.
Proof. unfold flits. by rewrite total_app, total_one. Qed.

Lemma same_packets_flits q q' : same_packets q q' -> flits q' = flits q.
Proof.
  unfold same_packets. revert q'. induction q as [|ev q IH]; intros [|ev' q'] H; try discriminate; [done|].
  injection H as He Hq. unfold flits, total in *. simpl. rewrite (IH _ Hq). unfold getFlitCount. by rewrite He.
Qed.

Lemma same_packets_sized q q' : same_packets q q' -> Forall sized q -> Forall sized q'.
Proof.
  unfold same_packets. intros H Hq. revert q' H.
  induction Hq as [|ev q Hev Hq IH]; intros [|ev' q'] H; try discriminate; [done|].
  injection H as He Ht. constructor; [unfold sized, getFlitCount; by rewrite He|by apply IH].
Qed.

Lemma insert_total_each `{!Inhabited B} (P : B -> Prop) (l : list B) i x :
  (forall k, P (l !!! k)) -> P x -> (i < length l)%nat -> forall k, P (<[i := x]> l !!! k).
Proof. intros Hl Hx Hi k. rewrite insert_total by done. by case_decide. Qed.

(** The port stays the one it is, what it sent it has sent, and its accounts change
    by what arrived. *)
Definition accounts (e : option (link_event D)) (f f' : flow) : Prop :=
  f_port f' = f_port f /\ f_sent f `prefix_of` f_sent f' /\
  forall k, out_account k f' = out_account k f + from_option (credit_for k) 0 e /\
            in_account k f' = in_account k f + from_option (data_for k) 0 e.
Abbreviation same_accounts := (accounts None).

Lemma same_accounts_refl f : same_accounts f f.
Proof. split; [done|]. split; [done|]. intros k. cbn. lia. Qed.

Lemma send_ok now ev vc p p' r obs :
  spaceToSend vc (getFlitCount ev) p = Ok true -> 0 <= getFlitCount ev ->
  send now ev vc p = Ok (r, p') -> flow_ok obs (flow_of p) ->
  flow_ok obs (flow_of p') /\ same_accounts (flow_of p) (flow_of p').
Proof.
  intros Hs Hev H [Hin Hout Hcr Hret Hsent Hspace Hbuf]. apply send_flow in H as (q & Hvc & Hq & Hx & ->).
  split; [|split; [done|]; split; [done|]; intros k; unfold out_account, in_account; cbn; lia]. unfold spaceToSend in Hs. inv_res. apply at_index_Ok in H as [_ Hc].
  pose proof (list_lookup_total_correct _ _ _ Hc) as Ec. rename select (negb _ = true) into Hneg.
  apply negb_true_iff, Z.ltb_ge in Hneg. pose proof (lookup_lt_Some _ _ _ Hq) as Hlt.
  pose proof (list_lookup_total_correct _ _ _ Hq) as Eq.
  constructor; cbn; try done.
  - apply insert_each; [done|]. apply Forall_app. split; [by eapply Hout|]. constructor; [|done]. split; [|done]. cbn. lia.
  - apply (insert_total_each (Z.le 0)); [done| |done]. lia.
  - rewrite length_insert. intros k Hk. specialize (Hbuf k Hk). unfold buffer_account in *. cbn in *.
    rewrite !insert_total by done. case_decide as Hd; [|done]. rewrite <- Hd, Eq in Hbuf. rewrite flits_snoc. unfold getFlitCount in *. cbn. lia.
Qed.

Lemma credit_for_at k vc c : 0 <= vc -> credit_for k (Credit vc c) = if decide (Z.to_nat vc = k) then c else 0.
Proof. intros H. cbn. destruct (Z.eqb_spec vc (Z.of_nat k)); case_decide; lia. Qed.
Lemma data_for_at k ev : 0 <= ire_vc ev ->
  data_for k (Internal ev) = if decide (Z.to_nat (ire_vc ev) = k) then getFlitCount ev else 0.
Proof. intros H. cbn. destruct (Z.eqb_spec (ire_vc ev) (Z.of_nat k)); case_decide; lia. Qed.

Lemma recv_ok topo vc p p' r obs :
  isHostPort topo (port_number p) = Ok false -> recv topo vc p = Ok (r, p') -> flow_ok obs (flow_of p) ->
  flow_ok obs (flow_of p') /\ same_accounts (flow_of p) (flow_of p').
Proof.
  intros Hhost H Hok. apply recv_flow in H.
  destruct r as [event|]; [|subst; split; [done|apply same_accounts_refl]].
  destruct H as (q & q' & vr & Hvc & Hq & Hsame & Hvr & _ & Hr & ->). rewrite (Hvr Hhost) in *. clear Hvr.
  destruct Hok as [Hin Hout Hcr Hret Hsent Hspace Hbuf].
  pose proof (Hin _ _ Hq) as Hsz. inversion Hsz as [|? ? Hev Hqs]; subst.
  pose proof (list_lookup_total_correct _ _ _ Hq) as Eq. pose proof (lookup_lt_Some _ _ _ Hq) as Hlt.
  pose proof (Hret (Z.to_nat vc)) as Hrv. unfold sized in Hev. cbn in Hrv.
  split.
  - constructor; cbn; try done.
    + apply (insert_each (fun _ => Forall sized)); [done|]. by eapply same_packets_sized.
    + apply (insert_total_each (Z.le 0)); done.
    + apply Forall_app. split; [done|]. constructor; [cbn; lia|done].
  - split; [done|]. split; [by eexists|]. intros k. split; unfold out_account, in_account; cbn -[credit_for data_for].
    + rewrite total_app, total_one. cbn. lia.
    + rewrite total_app, total_one, !insert_total, credit_for_at by done. case_decide as Hd; [|lia].
      rewrite <- Hd, Eq, flits_cons, (same_packets_flits _ _ Hsame). lia.
Qed.

Lemma send_out_ok now vc p p' r obs :
  host_port p = false -> sendable (output_buf p) (port_out_credits p) (host_port p) vc = true ->
  send_out now vc p = Ok (r, p') -> flow_ok obs (flow_of p) ->
  flow_ok obs (flow_of p') /\ same_accounts (flow_of p) (flow_of p').
Proof.
  intros Hhost Hs H Hok. apply send_out_flow in H as (ev & q & Hvc & Hq & Hcl & Hxl & ->). rewrite Hhost in *.
  destruct Hok as [Hin Hout Hcr Hret Hsent Hspace Hbuf].
  pose proof (Hout _ _ Hq) as Hl. inversion Hl as [|? ? [Hlab Hev] Hqs]; subst.
  pose proof (list_lookup_total_correct _ _ _ Hq) as Eq. pose proof (lookup_lt_Some _ _ _ Hq) as Hlt.
  assert (getFlitCount ev <= port_out_credits p !!! Z.to_nat vc) as Hle.
  { unfold sendable in Hs. rewrite (proj2 (at_index_Ok _ _ _) (conj Hvc Hq)) in Hs.
    destruct (at_index (port_out_credits p) vc) as [c|] eqn:Ec; [|done]. apply at_index_Ok in Ec as [_ Ec].
    rewrite (list_lookup_total_correct _ _ _ Ec). apply negb_true_iff, Z.ltb_ge in Hs. lia. }
  pose proof (Hspace (Z.to_nat vc)) as Hsp. unfold sized in Hev. cbn in Hsp. rewrite Z2Nat.id in Hlab by done.
  split.
  - constructor; cbn; try done.
    + by apply insert_each.
    + apply (insert_total_each (Z.le 0)); [done|lia|done].
    + apply Forall_app. split; [done|]. by constructor.
    + apply (insert_total_each (Z.le 0)); [done|lia|done].
    + rewrite length_insert. intros k Hk. specialize (Hbuf k Hk). unfold buffer_account in *. cbn in *.
      rewrite !insert_total by done. case_decide as Hd; [|done]. rewrite <- Hd, Eq, flits_cons in Hbuf. lia.
  - split; [done|]. split; [by eexists|]. intros k. split; unfold out_account, in_account; cbn -[credit_for data_for].
    + rewrite total_app, total_one, insert_total, data_for_at by (done || lia). rewrite Hlab. case_decide as Hd; [|lia].
      rewrite <- Hd. lia.
    + rewrite total_app, total_one. cbn. lia.
Qed.

Lemma sent_control_ok f e obs :
  (forall k, data_for k e = 0 /\ credit_for k e = 0) -> sound e -> flow_ok obs f ->
  flow_ok obs (f <| f_sent := f_sent f ++ [e] |>) /\ same_accounts f (f <| f_sent := f_sent f ++ [e] |>).
Proof.
  intros He Hs [Hin Hout Hcr Hret Hsent Hspace Hbuf]. split.
  - constructor; try done. cbn. apply Forall_app. split; [done|]. by constructor.
  - split; [done|]. split; [by eexists|]. intros k. unfold out_account, in_account. cbn -[credit_for data_for]. rewrite !total_app, !total_one.
    destruct (He k) as [-> ->]. lia.
Qed.

Lemma handle_output_ok now p p' r obs :
  host_port p = false -> handle_output now p = Ok (r, p') -> flow_ok obs (flow_of p) ->
  flow_ok obs (flow_of p') /\ same_accounts (flow_of p) (flow_of p').
Proof.
  intros Hhost H Hok. apply handle_output_flow in H as [->|[[ev ->]|(vc & p1 & r' & E & Hs & H)]].
  - split; [done|apply same_accounts_refl].
  - by apply sent_control_ok.
  - rewrite <- E. assert (host_port p1 = host_port p) as Eh by (change ((f_port (flow_of p1)).1.2 = host_port p); by rewrite E).
    change (output_buf p) with (f_out (flow_of p)) in Hs. change (port_out_credits p) with (f_credits (flow_of p)) in Hs.
    rewrite <- E, <- Eh in Hs. eapply send_out_ok; [congruence|done|done|by rewrite E].
Qed.

Lemma sendCtrlEvent_ok now ev p p' r obs :
  sendCtrlEvent now ev p = Ok (r, p') -> flow_ok obs (flow_of p) ->
  flow_ok obs (flow_of p') /\ same_accounts (flow_of p) (flow_of p').
Proof.
  intros H Hok. unfold sendCtrlEvent in H. destruct (ctrl_flits ev =? 0).
  - apply act_flow in H. rewrite H. by apply sent_control_ok.
  - inv_run. apply wake_flow in Hk. unfold keeps_flow in Hk. rewrite Hk. split; [done|apply same_accounts_refl].
Qed.

(** What arrives is put to the account it belongs to. *)
Lemma handle_input_r2r_ok topo now e p p' r obs :
  sound e -> handle_input_r2r topo now e p = Ok (r, p') -> flow_ok obs (flow_of p) ->
  flow_ok obs (flow_of p') /\ accounts (Some e) (flow_of p) (flow_of p').
Proof.
  intros Hs H Hok. destruct e as [vc c|ev|ev| |ev]; cbn [handle_input_r2r] in H.
  - inv_run. rename select (take_credit _ _ _ = _) into Hc. apply take_credit_flow in Hc as (Hvc & Hlt & Hc).
    rename select (wake _ _ _ = _) into Hw. apply wake_flow in Hw. unfold keeps_flow in Hw. rewrite Hw, Hc. clear Hw Hc.
    destruct Hok as [Hin Hout Hcr Hret Hsent Hspace Hbuf]. pose proof (Hcr (Z.to_nat vc)) as Hv. cbn in Hs, Hv. split.
    + constructor; try done. cbn. apply (insert_total_each (Z.le 0)); [done|lia|done].
    + split; [done|]. split; [done|]. intros k. cbn [from_option]. unfold out_account, in_account. rewrite credit_for_at by done. cbn. rewrite insert_total by done.
      case_decide as Hd; [rewrite <- Hd|]; lia.
  - inv_run. split; [done|]. split; [done|]. split; [done|]. intros k. cbn. lia.
  - apply enqueue_flow in H as (q & ev' & Hvc & Hq & He & ->).
    pose proof (list_lookup_total_correct _ _ _ Hq) as Eq. pose proof (lookup_lt_Some _ _ _ Hq) as Hlt.
    destruct Hok as [Hin Hout Hcr Hret Hsent Hspace Hbuf]. split.
    + constructor; try done. cbn. apply (insert_each (fun _ => Forall sized)); [done|]. apply Forall_app.
      split; [by eapply Hin|]. constructor; [|done]. unfold sized, getFlitCount in *. by rewrite He.
    + split; [done|]. split; [done|]. intros k. cbn [from_option]. unfold out_account, in_account. rewrite data_for_at by done. cbn. rewrite insert_total by done.
      case_decide as Hd; [|lia]. rewrite <- Hd, Eq, flits_snoc. unfold getFlitCount. rewrite He. lia.
  - inv_run. split; [done|]. split; [done|]. split; [done|]. intros k. cbn. lia.
  - apply act_flow in H. rewrite H. split; [done|]. split; [done|]. split; [done|]. intros k. cbn. lia.
Qed.
End flow.
