(* ===== verification/Outlet.v ===== *)
(** * Outlet: the output timer of a port

    The part of a port that decides when it sends: the timer events it has asked
    for, whether it waits to be woken, what it could send and its arbitration.
    Every operation of [PortControl] has a lemma that says what it does to the
    outlet; they give the invariant that a port that waits has nothing to send and
    that at most one timer event is on its way. *)

From S2P Require Import Prelude Merlin Arbitration PortControl.

Section outlet.
Context {T D A : Type} {HT : Topology T D} {HA : SingleArbitration A}.
Abbreviation St := (Port D A).
Implicit Types (p : St) (topo : T) (vc : Z).

(** How many timer events the port has asked for. *)
Definition timers p : nat :=
  length (omap (fun a => match a with OutputTiming d => Some d | _ => None end) (actions p)).

Record outlet := mkOutlet {
  o_disabled : bool;
  o_port : bool * Z;
  o_arb : A;
  o_timers : nat;
  o_waiting : bool;
  o_ctrl : list CtrlRtrEvent;
  o_buf : list (list (internal_router_event D));
  o_credits : list Z
}.
#[local] Instance outlet_eta : Eta outlet := fun o =>
  mkOutlet (o_disabled o) (o_port o) (o_arb o) (o_timers o) (o_waiting o) (o_ctrl o) (o_buf o) (o_credits o).

Definition outlet_of p : outlet :=
  mkOutlet (sai_port_disabled p) (host_port p, num_vcs p) (output_arb p) (timers p) (waiting p) (ctrl_queue p)
    (output_buf p) (port_out_credits p).

Definition keeps_outlet : relation St := fun p p' => outlet_of p' = outlet_of p.
#[local] Instance keeps_outlet_preorder : PreOrder keeps_outlet.
Proof. apply frame_preorder. Qed.

Lemma timers_app p l : timers (p <| actions ::= fun a => a ++ l |>)
  = (timers p + length (omap (fun a => match a with OutputTiming d => Some d | _ => None end) l))%nat.
Proof. unfold timers. cbn. by rewrite omap_app, length_app. Qed.

Definition asks_timer (a : action D) : bool := match a with OutputTiming _ => true | _ => false end.

Lemma act_outlet (a : action D) p r p' :
  act a p = Ok (r, p') ->
  outlet_of p' = if asks_timer a then (outlet_of p) <| o_timers := S (timers p) |> else outlet_of p.
Proof.
  intros [= _ <-]. unfold outlet_of. rewrite timers_app. cbn.
  destruct a; cbn; rewrite ?Nat.add_0_r, ?Nat.add_1_r; done.
Qed.

Lemma act_keeps_outlet (a : action D) : asks_timer a = false -> steps keeps_outlet (act a).
Proof. intros Ha p r p' H. unfold keeps_outlet. by rewrite (act_outlet _ _ _ _ H), Ha. Qed.

Lemma modify_keeps_outlet (f : St -> St) : (forall p, outlet_of (f p) = outlet_of p) -> steps keeps_outlet (modify f).
Proof. intros H. by apply steps_modify. Qed.
#[local] Hint Extern 1 (steps keeps_outlet (modify _)) => apply modify_keeps_outlet; intros; done : steps.
#[local] Hint Extern 1 (steps keeps_outlet (act _)) => apply act_keeps_outlet; done : steps.

(** *** The input side leaves the outlet alone *)

Lemma track_lengths_outlet vc d : steps keeps_outlet (track_lengths vc d).
Proof. unfold track_lengths. steps_walk. Qed.
Lemma set_input_outlet vc q : steps keeps_outlet (set_input vc q).
Proof. unfold set_input. steps_walk. Qed.
Lemma set_head_outlet vc h : steps keeps_outlet (set_head vc h).
Proof. unfold set_head. steps_walk. Qed.
Lemma end_idle_outlet now : steps keeps_outlet (end_idle now).
Proof. unfold end_idle. steps_walk. Qed.
#[local] Hint Resolve track_lengths_outlet set_input_outlet set_head_outlet end_idle_outlet : steps.

Lemma recv_outlet topo vc : steps keeps_outlet (recv topo vc).
Proof. unfold recv, next_head, return_credits. steps_walk. Qed.
Lemma enqueue_outlet topo ev : steps keeps_outlet (enqueue topo ev).
Proof. unfold enqueue. steps_walk. Qed.

(** *** What wakes a port *)

Definition woken (o : outlet) : outlet :=
  if o_waiting o then o <| o_timers := S (o_timers o) |> <| o_waiting := false |> else o.

Lemma wake_outlet now b p r p' : wake now b p = Ok (r, p') -> outlet_of p' = woken (outlet_of p).
Proof.
  unfold wake. intros H. apply bind_Ok in H as (? & ? & [= <- <-] & H). unfold woken. cbn [o_waiting outlet_of].
  destruct (waiting p); cbn [when] in H; inv_run; [|done].
  rename select (act (OutputTiming _) _ = _) into Ht. apply act_outlet in Ht. cbn in Ht.
  rename select (when _ _ _ = _) into Hs. apply (steps_when keeps_outlet) in Hs; [|apply act_keeps_outlet; done].
  unfold keeps_outlet in Hs. rewrite Hs.
  match goal with |- outlet_of (?s <| waiting := false |>) = _ =>
    change (outlet_of (s <| waiting := false |>)) with ((outlet_of s) <| o_waiting := false |>) end.
  by rewrite Ht.
Qed.

Lemma take_credit_outlet vc c p r p' :
  take_credit vc c p = Ok (r, p') ->
  exists l, length l = length (port_out_credits p) /\ outlet_of p' = (outlet_of p) <| o_credits := l |>.
Proof.
  unfold take_credit. intros H. inv_run. rename select (add_at _ _ _ = _) into Ha. unfold add_at in Ha. inv_res.
  rename select (set_index _ _ _ = _) into Hs. apply set_index_Ok in Hs as [_ ->].
  eexists. split; [|done]. cbn. by rewrite length_insert.
Qed.

Lemma send_outlet now ev vc p r p' :
  send now ev vc p = Ok (r, p') ->
  exists b, length b = length (output_buf p) /\ outlet_of p' = woken ((outlet_of p) <| o_buf := b |>).
Proof.
  unfold send. intros H. inv_run. rename select (track_lengths _ _ _ = _) into Ht. apply track_lengths_outlet in Ht.
  rename select (set_index _ _ _ = _) into Hs. apply set_index_Ok in Hs as [_ ->].
  rename select (wake _ _ _ = _) into Hw. apply wake_outlet in Hw.
  unfold keeps_outlet in Ht. pose proof (f_equal o_buf Ht) as Eb. cbn in Eb. rewrite Eb in Hw.
  eexists. split; cycle 1.
  { rewrite Hw. f_equal. match goal with |- outlet_of (?s <| output_buf := ?b |>) = _ =>
      change (outlet_of (s <| output_buf := b |>)) with ((outlet_of s) <| o_buf := b |>) end. by rewrite Ht. }
  by rewrite length_insert.
Qed.

Lemma handle_input_r2r_outlet topo now e p r p' :
  handle_input_r2r topo now e p = Ok (r, p') ->
  outlet_of p' = outlet_of p \/
  exists l, length l = length (port_out_credits p) /\ outlet_of p' = woken ((outlet_of p) <| o_credits := l |>).
Proof.
  intros H. destruct e as [vc c|ev|ev| |ev]; cbn [handle_input_r2r] in H.
  - right. inv_run. rename select (take_credit _ _ _ = _) into Hc. apply take_credit_outlet in Hc as (l & Hl & Hc).
    rename select (wake _ _ _ = _) into Hw. apply wake_outlet in Hw. exists l. by rewrite Hw, Hc.
  - left. by inv_run.
  - left. by apply enqueue_outlet in H.
  - left. by inv_run.
  - left. by apply act_outlet in H.
Qed.

Lemma sendCtrlEvent_outlet now ev p r p' :
  sendCtrlEvent now ev p = Ok (r, p') ->
  outlet_of p' = outlet_of p \/ exists l, outlet_of p' = woken ((outlet_of p) <| o_ctrl := l |>).
Proof.
  unfold sendCtrlEvent. destruct (ctrl_flits ev =? 0); intros H.
  - left. by apply act_outlet in H.
  - right. inv_run. rename select (wake _ _ _ = _) into Hw. apply wake_outlet in Hw. eexists. exact Hw.
Qed.

(** *** The invariant *)

Context {AL : ArbitrationLaws A}.

(** One timer event is on its way unless the port waits; and the port waits only
    when it has nothing to send. *)
Record timed (n fired : nat) (o : outlet) : Prop := {
  to_disabled : o_disabled o = false;
  to_port : o_port o = (false, Z.of_nat n);
  to_buf : length (o_buf o) = n;
  to_credits : length (o_credits o) = n;
  to_arb : arb_ok n (o_arb o);
  to_timers : o_timers o = (fired + if o_waiting o then 0 else 1)%nat
}.
Definition rests (n : nat) (o : outlet) : Prop :=
  o_waiting o = true ->
  o_ctrl o = [] /\ forall w, 0 <= w < Z.of_nat n -> sendable (o_buf o) (o_credits o) false w = false.

Lemma woken_timed n fired o : timed n fired o -> timed n fired (woken o) /\ rests n (woken o).
Proof.
  intros [Hd Hp Hb Hc Ha Ht]. unfold woken, rests. destruct (o_waiting o) eqn:Hw; cbn; (split; [|congruence]).
  - constructor; cbn; try done. lia.
  - constructor; try done. by rewrite Hw.
Qed.

Lemma send_timed n fired now ev vc p r p' :
  send now ev vc p = Ok (r, p') -> timed n fired (outlet_of p) ->
  timed n fired (outlet_of p') /\ rests n (outlet_of p').
Proof.
  intros (b & Hb & ->)%send_outlet [? ? ? ? ? ?]. apply woken_timed. constructor; try done. cbn in *. congruence.
Qed.

Lemma handle_input_r2r_timed n fired topo now e p r p' :
  handle_input_r2r topo now e p = Ok (r, p') -> timed n fired (outlet_of p) -> rests n (outlet_of p) ->
  timed n fired (outlet_of p') /\ rests n (outlet_of p').
Proof.
  intros [->|(l & Hl & ->)]%handle_input_r2r_outlet Ht Hr; [done|]. apply woken_timed.
  destruct Ht. constructor; try done. cbn in *. congruence.
Qed.

Lemma sendCtrlEvent_timed n fired now ev p r p' :
  sendCtrlEvent now ev p = Ok (r, p') -> timed n fired (outlet_of p) -> rests n (outlet_of p) ->
  timed n fired (outlet_of p') /\ rests n (outlet_of p').
Proof.
  intros [->|(l & ->)]%sendCtrlEvent_outlet Ht Hr; [done|]. apply woken_timed. by destruct Ht.
Qed.

Lemma queues_in_range n (q : list (list (internal_router_event D))) c :
  length q = n -> length c = n -> queues_ok n q c false.
Proof.
  intros Hq Hc. split; [done|]. intros vc ev l [Hvc H]%at_index_Ok. apply at_index_in_range.
  apply lookup_lt_Some in H. lia.
Qed.

(** The arbitration always answers, and -1 only if nothing can be sent. *)
Lemma choose_vc_runs n fired p :
  timed n fired (outlet_of p) ->
  runs choose_vc p (fun vc p' => exists a, arb_ok n a /\ outlet_of p' = (outlet_of p) <| o_arb := a |> /\
    ((0 <= vc < Z.of_nat n /\ sendable (output_buf p) (port_out_credits p) false vc = true) \/
     (vc = -1 /\ forall w, 0 <= w < Z.of_nat n -> sendable (output_buf p) (port_out_credits p) false w = false))).
Proof.
  intros [Hd Hp Hb Hc Ha Ht]. cbn in *. injection Hp as Hh Hn. unfold choose_vc.
  eapply runs_bind, runs_gets. rewrite Hd.
  pose proof (arb_order_perm n _ Ha) as Hperm.
  assert (forall w, w ∈ arb_order (output_arb p) <-> 0 <= w < Z.of_nat n) as Hin
    by (intros w; rewrite Hperm, elem_of_seqZ; lia).
  destruct (output_first n (output_buf p) (port_out_credits p) false (output_arb p) Ha)
    as [(a' & E & Ha' & _ & Hf)|(l1 & c & l2 & a' & l & Eo & _ & Hs & E & Ha' & _)]; [by apply queues_in_range|..];
    rewrite <- Hn, <- Hh in E.
  - eapply runs_bind, runs_getsR; [exact E|]. cbn beta iota. eapply runs_bind, runs_modify, runs_ret.
    exists a'. split_and!; [done|done|]. right. split; [done|]. intros w Hw. rewrite Forall_forall in Hf. by apply Hf, Hin.
  - eapply runs_bind, runs_getsR; [exact E|]. cbn beta iota. eapply runs_bind, runs_modify, runs_ret.
    exists a'. split_and!; [done|done|]. left. split; [|done]. apply Hin. rewrite Eo. set_solver.
Qed.

Lemma send_out_outlet now vc p r p' :
  send_out now vc p = Ok (r, p') ->
  exists b l, length b = length (output_buf p) /\ length l = length (port_out_credits p) /\
    outlet_of p' = (outlet_of p) <| o_buf := b |> <| o_credits := l |> <| o_timers := S (timers p) |>.
Proof.
  unfold send_out. intros H. inv_run. rename select (list (internal_router_event D)) into q.
  destruct q as [|event q]; inv_run.
  rename select (set_index _ _ _ = _) into Ho. apply set_index_Ok in Ho as [_ ->].
  rename select (when _ (track_lengths _ _) _ = _) into Ht. apply (steps_when _ _ _ (track_lengths_outlet _ _)) in Ht.
  rename select (act (OutputTiming _) _ = _) into Ho. apply act_outlet in Ho.
  rename select (take_credit _ _ _ = _) into Hc. apply take_credit_outlet in Hc as (l & Hl & Hc).
  rename select (when _ (end_idle _) _ = _) into Hi. apply (steps_when _ _ _ (end_idle_outlet _)) in Hi.
  rename select (act (AddData _ _) _ = _) into Hd. apply act_outlet in Hd.
  rename select (act (LinkSend _) _ = _) into Hs. apply act_outlet in Hs.
  unfold keeps_outlet in *.
  replace (asks_timer (LinkSend _)) with false in Hs by by case_match.
  cbn [asks_timer] in *.
  change (outlet_of s4 = (outlet_of p) <| o_buf := <[Z.to_nat vc := q]> (output_buf p) |>) in Ht.
  change (outlet_of s10 = outlet_of s6) in Hi. change (timers s4) with (o_timers (outlet_of s4)) in Ho.
  change (port_out_credits s5) with (o_credits (outlet_of s5)) in Hl.
  rewrite Ho, Ht in Hl. rewrite Hs, Hd, Hi, Hc, Ho, Ht.
  exists (<[Z.to_nat vc := q]> (output_buf p)), l. split_and!; [by rewrite length_insert|exact Hl|done].
Qed.

Lemma fall_asleep_outlet now p r p' :
  sai_port_disabled p = false -> fall_asleep now p = Ok (r, p') ->
  outlet_of p' = (outlet_of p) <| o_waiting := true |>.
Proof.
  intros Hd H. unfold fall_asleep in H. apply bind_Ok in H as (? & p1 & [= <- <-] & H).
  change ((outlet_of p) <| o_waiting := true |>) with (outlet_of (p <| start_block := now |> <| waiting := true |>)).
  inv_run. rename select (when (negb _ && _) _ _ = _) into H1. rename select (when _ (end_idle _) _ = _) into H2.
  apply (steps_when keeps_outlet) in H1; [|apply modify_keeps_outlet; by intros].
  apply (steps_when _ _ _ (end_idle_outlet _)) in H2. unfold keeps_outlet in *.
  rename select (when (sai_port_disabled _) _ _ = _) into H3. pose proof (f_equal o_disabled H2) as E2.
  pose proof (f_equal o_disabled H1) as E1. cbn in E1, E2. rewrite E2, E1, Hd in H3. cbn in H3. inv_run. by rewrite H2.
Qed.

Lemma handle_output_timed n fired now p r p' :
  waiting p = false -> handle_output now p = Ok (r, p') -> timed n fired (outlet_of p) ->
  timed n (S fired) (outlet_of p') /\ rests n (outlet_of p').
Proof.
  intros Hw H Ht. unfold handle_output in H. apply bind_Ok in H as (? & ? & [= <- <-] & H).
  destruct (ctrl_queue p) as [|event cq] eqn:Ecq; inv_run.
  - rename select (choose_vc _ = _) into Hch.
    destruct (choose_vc_runs n fired p Ht) as (vc & p1 & Hch' & arb' & Ha & Ho & Hcase).
    rewrite Hch' in Hch. injection Hch as <- <-. destruct Ht as [Hd Hp Hb Hc _ Ht]. cbn in Hd, Hp, Hb, Hc, Ht.
    destruct Hcase as [[Hvc Hs]|[-> Hnone]].
    + replace (vc =? -1) with false in * by (symmetry; apply Z.eqb_neq; lia). cbn [negb] in *.
      rename select (send_out _ _ _ = _) into Hso. apply send_out_outlet in Hso as (b & l & Hbl & Hll & ->).
      change (output_buf p1) with (o_buf (outlet_of p1)) in Hbl.
      change (port_out_credits p1) with (o_credits (outlet_of p1)) in Hll. change (timers p1) with (o_timers (outlet_of p1)).
      rewrite Ho in *. cbn in Hbl, Hll. split; [|unfold rests; cbn; congruence].
      constructor; cbn; try done; try congruence.
    + cbn [Z.eqb Pos.eqb negb] in *. rename select (fall_asleep _ _ = _) into Hf. apply fall_asleep_outlet in Hf.
      2:{ by change (o_disabled (outlet_of p1) = false); rewrite Ho. }
      rewrite Hf, Ho. split; [|by intros _].
      constructor; cbn; try done. rewrite Ht, Hw. lia.
  - rename select (act (OutputTiming _) _ = _) into H1. rename select (act (LinkSend _) _ = _) into H2.
    apply act_outlet in H1, H2. cbn [asks_timer] in *. destruct Ht as [Hd Hp Hb Hc Ha Ht]. cbn in Hd, Hp, Hb, Hc, Ha, Ht.
    rewrite H2, H1. split; [|unfold rests; cbn; congruence]. constructor; cbn; try done.
    rewrite Hw in *. f_equal. exact Ht.
Qed.
End outlet.
