(* ===== verification/LinkSystem.v ===== *)
(** * LinkSystem: two ports and the link between them

    The transition system of the two ports of a link between routers, each with
    its router's crossbar, its output timer and the events of the other port as
    its environment. The link delivers what a port sends in order. The theorems
    hold in every state the system can reach from the credits exchanged in the
    init phase. *)

From stdpp Require Import relations.
From S2P Require Import Prelude Merlin Arbitration PortControl FlowControl Outlet Grid GridRoute GridShape.

(** ** The system *)

Section link.
Context {T D A : Type} {HT : Topology T D} {HA : SingleArbitration A}.

(** One end of the link: the topology object of its router, the port, how many of
    the events of the other end have arrived, and how many of its timer events
    have fired. *)
Record side := mkSide { s_topo : T; s_port : Port D A; taken : nat; fired : nat }.

Inductive side_step (incoming : list (link_event D)) : side -> side -> Prop :=
| crossbar_sends now ev vc s p :
    spaceToSend vc (getFlitCount ev) (s_port s) = Ok true -> 0 <= getFlitCount ev ->
    send now ev vc (s_port s) = Ok (tt, p) ->
    side_step incoming s (mkSide (s_topo s) p (taken s) (fired s))
| crossbar_takes vc s ev p :
    recv (s_topo s) vc (s_port s) = Ok (ev, p) ->
    side_step incoming s (mkSide (s_topo s) p (taken s) (fired s))
| router_controls now ev s p :
    sendCtrlEvent now ev (s_port s) = Ok (tt, p) ->
    side_step incoming s (mkSide (s_topo s) p (taken s) (fired s))
| timer_fires now s p :
    (fired s < timers (s_port s))%nat -> handle_output now (s_port s) = Ok (tt, p) ->
    side_step incoming s (mkSide (s_topo s) p (taken s) (S (fired s)))
| event_arrives now e s p :
    incoming !! taken s = Some e -> handle_input_r2r (s_topo s) now e (s_port s) = Ok (tt, p) ->
    side_step incoming s (mkSide (s_topo s) p (S (taken s)) (fired s)).

Inductive link_step : relation (side * side) :=
| left_steps l l' r : side_step (sent (s_port r)) l l' -> link_step (l, r) (l', r)
| right_steps l r r' : side_step (sent (s_port l)) r r' -> link_step (l, r) (l, r').

(** The credits of init: each side has heard that the other is there, sends its
    credits, and takes those of the other. *)
Definition link_start (t1 t2 : T) (p1 p2 : Port D A) : res (side * side) :=
  '(_, p1) ← init_credits (p1 <| remote_rdy_for_credits := true |>);
  '(_, p2) ← init_credits (p2 <| remote_rdy_for_credits := true |>);
  '(_, q1) ← init_recv (sent p2) p1;
  '(_, q2) ← init_recv (sent p1) p2;
  Ok (mkSide t1 q1 (length (sent p2)) 0, mkSide t2 q2 (length (sent p1)) 0).

(** A port fresh from [initVCs], between routers. *)
Definition router_port (vcs_per_vn : list Z) (ibs obs number now : Z) (track track_remote : bool) (arb : Z -> A) : Port D A :=
  initVCs number false vcs_per_vn ibs obs track track_remote now arb.
End link.

(** ** The invariant *)

Section invariant.
Context {T D A : Type} {HT : Topology T D} {HA : SingleArbitration A} {HL : TopologyLaws T D} {AL : ArbitrationLaws A}.
Abbreviation side := (side (T := T) (D := D) (A := A)).
Implicit Types (s : side) (inc : list (link_event D)) (n k : nat).

Record side_ok n (obs : Z) s : Prop := {
  so_flow : flow_ok obs (flow_of (s_port s));
  so_timed : timed n (fired s) (outlet_of (s_port s));
  so_rests : rests n (outlet_of (s_port s));
  so_router : isHostPort (s_topo s) (port_number (s_port s)) = Ok false
}.

(** The accounts of a side are what has arrived from the other one. *)
Record balanced n (ibs : Z) s inc : Prop := {
  ba_taken : (taken s <= length inc)%nat;
  ba_out k : (k < n)%nat -> out_account k (flow_of (s_port s)) = total (credit_for k) (take (taken s) inc);
  ba_in k : (k < n)%nat -> in_account k (flow_of (s_port s)) = ibs + total (data_for k) (take (taken s) inc)
}.

Lemma balanced_prefix n ibs s inc inc' : inc `prefix_of` inc' -> balanced n ibs s inc -> balanced n ibs s inc'.
Proof.
  intros [l ->] [Ht Ho Hi]. constructor; [rewrite length_app; lia|..]; intros k Hk; rewrite take_app_le by done; auto.
Qed.

Lemma quiet_step n obs ibs s p f inc :
  side_ok n obs s -> balanced n ibs s inc ->
  flow_ok obs (flow_of p) /\ accounts None (flow_of (s_port s)) (flow_of p) ->
  timed n f (outlet_of p) /\ rests n (outlet_of p) ->
  let s' := mkSide (s_topo s) p (taken s) f in
  side_ok n obs s' /\ balanced n ibs s' inc /\ sent (s_port s) `prefix_of` sent p.
Proof.
  intros [_ _ _ Hr] [Ht Ho Hi] [Hf [Hp [Hpre Ha]]] [Htm Hrs]. cbn. split_and!; [|..|done].
  - constructor; try done. cbn. by rewrite (flow_port_number _ _ Hp).
  - constructor; cbn; [done|..]; intros k Hk; destruct (Ha k) as [Eo Ei]; cbn in Eo, Ei;
      rewrite Z.add_0_r in Eo, Ei; rewrite ?Eo, ?Ei; auto.
Qed.

Lemma side_step_ok n obs ibs inc s s' :
  side_step inc s s' -> Forall sound inc -> side_ok n obs s -> balanced n ibs s inc ->
  side_ok n obs s' /\ balanced n ibs s' inc /\ sent (s_port s) `prefix_of` sent (s_port s').
Proof.
  intros Hst Hinc Hok Hb. pose proof Hok as [Hf Ht Hrs Hr]. pose proof (to_port _ _ _ Ht) as Hp.
  destruct Hst as [now ev vc s p Hsp Hev H|vc s ev p H|now ev s p H|now s p Hlt H|now e s p He H].
  - apply (quiet_step _ _ _ _ _ _ _ Hok Hb); [by eapply send_ok|by eapply send_timed].
  - apply (quiet_step _ _ _ _ _ _ _ Hok Hb); [by eapply recv_ok|].
    apply recv_outlet in H. unfold keeps_outlet in H. by rewrite H.
  - apply (quiet_step _ _ _ _ _ _ _ Hok Hb); [by eapply sendCtrlEvent_ok|by eapply sendCtrlEvent_timed].
  - injection Hp as Hh _. apply (quiet_step _ _ _ _ _ _ _ Hok Hb); [by eapply handle_output_ok|].
    eapply handle_output_timed; [|done|done]. pose proof (to_timers _ _ _ Ht) as E. cbn in E.
    destruct (waiting (s_port s)); [lia|done].
  - assert (sound e) as Hs by (rewrite Forall_forall in Hinc; by eapply Hinc, list_elem_of_lookup_2).
    destruct (handle_input_r2r_ok _ _ _ _ _ _ _ Hs H Hf) as [Hf' [Hp' [Hpre Ha]]].
    destruct (handle_input_r2r_timed _ _ _ _ _ _ _ _ H Ht Hrs) as [Ht' Hrs']. destruct Hb as [Htk Hbo Hbi].
    split_and!; [|..|done].
    + constructor; try done. cbn. by rewrite (flow_port_number _ _ Hp').
    + pose proof (lookup_lt_Some _ _ _ He) as Hlt. constructor; cbn [taken s_port]; [lia|..]; intros k Hk; destruct (Ha k) as [Eo Ei]; cbn [from_option] in Eo, Ei;
        rewrite ?Eo, ?Ei.
      * by rewrite Hbo, (total_take_S _ _ _ _ He).
      * rewrite Hbi, (total_take_S _ _ _ _ He) by done. lia.
Qed.

Record link_inv n (ibs1 obs1 ibs2 obs2 : Z) (st : side * side) : Prop := {
  li_left : side_ok n obs1 st.1;
  li_right : side_ok n obs2 st.2;
  li_to_left : balanced n ibs1 st.1 (sent (s_port st.2));
  li_to_right : balanced n ibs2 st.2 (sent (s_port st.1))
}.

Lemma link_step_inv n ibs1 obs1 ibs2 obs2 st st' :
  link_step st st' -> link_inv n ibs1 obs1 ibs2 obs2 st -> link_inv n ibs1 obs1 ibs2 obs2 st'.
Proof.
  intros Hst [Hl Hr Hbl Hbr]. destruct Hst as [l l' r Hs|l r r' Hs]; cbn in *.
  - destruct (side_step_ok _ _ _ _ _ _ Hs (fo_sent _ _ (so_flow _ _ _ Hr)) Hl Hbl) as (Hl' & Hb' & Hpre).
    constructor; try done. by eapply balanced_prefix.
  - destruct (side_step_ok _ _ _ _ _ _ Hs (fo_sent _ _ (so_flow _ _ _ Hl)) Hr Hbr) as (Hr' & Hb' & Hpre).
    constructor; try done. by eapply balanced_prefix.
Qed.

(** *** The start *)

(** The messages of [init_credits]. *)
Definition credits_from (i : nat) (l : list Z) : list (link_event D) :=
  imap (fun j c => Credit (Z.of_nat (i + j)) c) l.

Lemma credits_from_cons i c l : credits_from i (c :: l) = Credit (Z.of_nat i) c :: credits_from (S i) l.
Proof.
  unfold credits_from. cbn. rewrite Nat.add_0_r. f_equal. apply imap_ext. intros j x _. cbn. by rewrite Nat.add_succ_r.
Qed.

Lemma credits_from_total k i m v :
  total (credit_for k) (credits_from i (replicate m v)) = if decide (i <= k < i + m)%nat then v else 0.
Proof.
  revert i. induction m as [|m IH]; intros i; [by case_decide; [lia|]|].
  cbn [replicate]. rewrite credits_from_cons.
  rewrite total_cons, IH, credit_for_at by lia. rewrite Nat2Z.id. repeat case_decide; lia.
Qed.

Lemma credits_from_in_range i l :
  Forall (fun e => exists vc c, e = Credit vc c /\ Z.of_nat i <= vc < Z.of_nat (i + length l) /\ c ∈ l) (credits_from i l).
Proof.
  revert i. induction l as [|c l IH]; intros i; [by constructor|]. rewrite credits_from_cons. constructor.
  - eexists _, _. split_and!; [done|lia|cbn; lia|by left].
  - eapply Forall_impl; [apply IH|]. intros e (vc & c' & -> & Hr & Hc). eexists _, _. split; [done|].
    split; [cbn in *; lia|by right].
Qed.

Lemma init_recv_runs m (l : list (link_event D)) (p : Port D A) :
  Forall (fun e => exists vc c, e = Credit vc c /\ 0 <= vc < Z.of_nat m) l -> length (port_out_credits p) = m ->
  runs (init_recv l) p (fun _ p' => exists cs, p' = p <| port_out_credits := cs |> /\ length cs = m /\
    forall k, cs !!! k = port_out_credits p !!! k + total (credit_for k) l).
Proof.
  intros Hl. revert p. induction Hl as [|e l (vc & c & -> & Hvc) Hl IH]; intros p Hp; cbn [init_recv].
  - apply runs_skip. exists (port_out_credits p). split_and!; [by destruct p|done|]. intros k. change (total (credit_for k) []) with 0. lia.
  - eapply runs_bind. unfold take_credit. eapply runs_bind, runs_getsR.
    { apply add_at_Ok. split; [by rewrite Hp|reflexivity]. }
    eapply runs_modify, runs_mono; [apply IH; cbn; by rewrite length_insert|].
    intros _ p' (cs & -> & Hcs & Hk). exists cs. split_and!; [done|done|]. intros k. rewrite Hk. cbn.
    rewrite insert_total by lia. rewrite total_cons, credit_for_at by lia.
    case_decide as Hd; [rewrite Hd|]; lia.
Qed.

Lemma sum_nonneg (l : list Z) : Forall (Z.le 0) l -> 0 <= foldr Z.add 0 l.
Proof. induction 1; cbn; lia. Qed.

(** What both sides have when the other's credits have come. *)
Section start.
Context (vcs_per_vn : list Z) (arb : Z -> A).
Hypothesis Hvcs : Forall (Z.le 0) vcs_per_vn.
#[local] Abbreviation n := (Z.to_nat (foldr Z.add 0 vcs_per_vn)).
Hypothesis Harb : arb_ok n (arb (Z.of_nat n)).

Definition credited (ibs obs number now : Z) (track track_remote : bool) : Port D A :=
  let p := router_port vcs_per_vn ibs obs number now track track_remote arb in
  p <| actions := LinkSend <$> credits_from 0 (replicate n ibs) |> <| port_ret_credits := replicate n 0 |>.

Lemma init_credits_credited ibs obs number now b1 b2 :
  init_credits ((router_port vcs_per_vn ibs obs number now b1 b2 arb) <| remote_rdy_for_credits := true |>)
    = Ok (tt, credited ibs obs number now b1 b2).
Proof.
  transitivity (Ok (tt, (router_port vcs_per_vn ibs obs number now b1 b2 arb : Port D A)
    <| actions := imap (fun i c => LinkSend (Credit (Z.of_nat i) c)) (replicate n ibs) |>
    <| port_ret_credits := (fun _ => 0) <$> replicate n ibs |>)); [done|].
  unfold credited, credits_from. rewrite fmap_imap, fmap_replicate. done.
Qed.

Lemma sent_credited ibs obs number now b1 b2 :
  sent (credited ibs obs number now b1 b2) = credits_from 0 (replicate n ibs).
Proof. unfold sent, credited. cbn. induction (credits_from _ _) as [|e l IH]; [done|]. cbn. by rewrite IH. Qed.

Lemma replicate_total {B} `{!Inhabited B} m (x : B) k : (k < m)%nat -> replicate m x !!! k = x.
Proof. intros H. by apply lookup_total_replicate_2. Qed.

Lemma replicate_nonneg m x k : 0 <= x -> 0 <= replicate m x !!! k.
Proof.
  intros Hx. rewrite list_lookup_total_alt. destruct (replicate m x !! k) as [y|] eqn:E; [|done].
  by apply lookup_replicate in E as [-> _].
Qed.

Lemma data_for_credits k i l : total (data_for k) (credits_from i l) = 0.
Proof.
  revert i. induction l as [|c l IH]; intros i; [done|]. by rewrite credits_from_cons, total_cons, IH.
Qed.

Lemma credited_side_ok t ibs obs number now b1 b2 cs inc_len :
  0 <= ibs -> 0 <= obs -> isHostPort t number = Ok false ->
  length cs = n -> (forall k, 0 <= cs !!! k) ->
  side_ok n obs (mkSide t ((credited ibs obs number now b1 b2) <| port_out_credits := cs |>) inc_len 0).
Proof.
  intros Hi Ho Hr Hl Hc. pose proof (sum_nonneg _ Hvcs) as Hn.
  pose proof (credits_from_in_range 0 (replicate n ibs)) as Hin.
  constructor; [| | |done].
  - constructor; cbn.
    + intros k q [-> _]%lookup_replicate. by constructor.
    + intros k q [-> _]%lookup_replicate. by constructor.
    + done.
    + intros k. by apply replicate_nonneg.
    + change (Forall sound (sent (credited ibs obs number now b1 b2))). rewrite sent_credited.
      eapply Forall_impl; [exact Hin|]. intros e (vc & c & -> & _ & [-> _]%elem_of_replicate). done.
    + intros k. by apply replicate_nonneg.
    + rewrite length_replicate. intros k Hk. unfold buffer_account. cbn. rewrite !replicate_total by done. change (flits []) with 0. lia.
  - constructor; cbn; try done.
    + by rewrite Z2Nat.id.
    + by rewrite length_replicate.
    + pose proof Harb as H. by rewrite Z2Nat.id in H.
    + clear Hin. unfold timers. cbn. induction (credits_from _ _) as [|e l IH]; [done|]. cbn. exact IH.
  - intros _. split; [done|]. intros w Hw. unfold sendable. cbn.
    rewrite (proj2 (at_index_Ok _ _ [])); [done|]. split; [lia|]. apply lookup_replicate_2. lia.
Qed.

Lemma balanced_start t (p : Port D A) ibs cs inc i v :
  inc = credits_from i (replicate n v) -> port_out_credits p = cs ->
  (forall k, cs !!! k = (if decide (k < n)%nat then 0 else 1) + total (credit_for k) inc) ->
  (forall k, (k < n)%nat -> in_account k (flow_of p) = ibs) -> (forall k, total (data_for k) (sent p) = 0) ->
  balanced n ibs (mkSide t p (length inc) 0) inc.
Proof.
  intros -> <- Hcs Hin Hd. constructor; cbn [taken s_port]; [done|..]; intros k Hk; rewrite take_ge by done.
  - unfold out_account. cbn. rewrite Hcs, Hd, decide_True by done. lia.
  - rewrite Hin, data_for_credits by done. lia.
Qed.

Lemma credited_in_account ibs obs number now b1 b2 cs k :
  (k < n)%nat -> in_account k (flow_of ((credited ibs obs number now b1 b2) <| port_out_credits := cs |>)) = ibs.
Proof.
  intros Hk. unfold in_account.
  change (f_sent (flow_of _)) with (sent (credited ibs obs number now b1 b2)). rewrite sent_credited, credits_from_total.
  rewrite decide_True by lia. cbn. rewrite !replicate_total by done. change (flits []) with 0. lia.
Qed.

(** The credits a side has once those of the other have come. *)
Definition credits_of (v : Z) (cs : list Z) : Prop :=
  forall k, cs !!! k = (if decide (k < n)%nat then 0 else 1) + total (credit_for k) (credits_from 0 (replicate n v)).

Lemma credits_of_nonneg v cs k : 0 <= v -> credits_of v cs -> 0 <= cs !!! k.
Proof. intros Hv H. rewrite H, credits_from_total. repeat case_decide; lia. Qed.

Lemma credited_takes ibs obs number now b1 b2 v :
  0 <= v -> runs (init_recv (credits_from 0 (replicate n v))) (credited ibs obs number now b1 b2)
    (fun _ p' => exists cs, p' = (credited ibs obs number now b1 b2) <| port_out_credits := cs |> /\
       length cs = n /\ credits_of v cs).
Proof.
  intros Hv. eapply runs_mono; [apply (init_recv_runs n)|].
  - eapply Forall_impl; [apply credits_from_in_range|]. intros e (vc & c & -> & H & _).
    rewrite length_replicate in H. by eexists _, _.
  - apply length_replicate.
  - intros _ p' (cs & -> & Hl & Hk). exists cs. split_and!; [done|done|]. intros k. rewrite Hk. cbn. f_equal.
    case_decide; [by apply replicate_total|].
    rewrite list_lookup_total_alt, lookup_ge_None_2; [done|]. rewrite length_replicate. lia.
Qed.

Lemma link_start_inv t1 t2 num1 num2 ibs1 obs1 ibs2 obs2 now a1 a2 b1 b2 :
  0 <= ibs1 -> 0 <= obs1 -> 0 <= ibs2 -> 0 <= obs2 ->
  isHostPort t1 num1 = Ok false -> isHostPort t2 num2 = Ok false ->
  exists st, link_start t1 t2 (router_port vcs_per_vn ibs1 obs1 num1 now a1 b1 arb)
                              (router_port vcs_per_vn ibs2 obs2 num2 now a2 b2 arb) = Ok st /\
    link_inv n ibs1 obs1 ibs2 obs2 st.
Proof.
  intros Hi1 Ho1 Hi2 Ho2 Hr1 Hr2. unfold link_start. rewrite !init_credits_credited. cbn [mbind res_bind].
  rewrite !sent_credited.
  destruct (credited_takes ibs1 obs1 num1 now a1 b1 ibs2 Hi2) as (? & p1 & -> & cs1 & -> & Hl1 & Hk1). cbn [mbind res_bind].
  destruct (credited_takes ibs2 obs2 num2 now a2 b2 ibs1 Hi1) as (? & p2 & -> & cs2 & -> & Hl2 & Hk2). cbn [mbind res_bind].
  assert (forall ibs obs number b1 b2 cs k, total (data_for k) (sent ((credited ibs obs number now b1 b2) <| port_out_credits := cs |>)) = 0) as Hdata.
  { intros. change (sent (_ <| port_out_credits := _ |>)) with (sent (credited ibs obs number now b0 b3)).
    rewrite sent_credited. apply data_for_credits. }
  eexists. split; [done|]. constructor; cbn [fst snd s_port].
  - apply credited_side_ok; eauto using credits_of_nonneg.
  - apply credited_side_ok; eauto using credits_of_nonneg.
  - change (sent (_ <| port_out_credits := _ |>)) with (sent (credited ibs2 obs2 num2 now a2 b2)). rewrite sent_credited.
    eapply balanced_start; [done|done|done|by intros; apply credited_in_account|by intros; apply Hdata].
  - change (sent (_ <| port_out_credits := _ |>)) with (sent (credited ibs1 obs1 num1 now a1 b1)). rewrite sent_credited.
    eapply balanced_start; [done|done|done|by intros; apply credited_in_account|by intros; apply Hdata].
Qed.
End start.
End invariant.

(** ** Theorems *)

Section theorems.
Context {T D A : Type} {HT : Topology T D} {HA : SingleArbitration A} {HL : TopologyLaws T D} {AL : ArbitrationLaws A}.
Abbreviation side := (side (T := T) (D := D) (A := A)).

(** The link of two routers whose ports have [n] virtual channels. *)
Record link_setup := mkSetup {
  ls_vcs : list Z;
  ls_arb : Z -> A;
  ls_topo : T * T;
  ls_number : Z * Z;
  ls_input : Z * Z;
  ls_output : Z * Z;
  ls_now : Z;
  ls_track : bool * bool
}.
Implicit Type c : link_setup.
Definition ls_n c : nat := Z.to_nat (foldr Z.add 0 (ls_vcs c)).

Definition ls_start c : res (side * side) :=
  link_start (ls_topo c).1 (ls_topo c).2
    (router_port (ls_vcs c) (ls_input c).1 (ls_output c).1 (ls_number c).1 (ls_now c) (ls_track c).1 (ls_track c).2 (ls_arb c))
    (router_port (ls_vcs c) (ls_input c).2 (ls_output c).2 (ls_number c).2 (ls_now c) (ls_track c).1 (ls_track c).2 (ls_arb c)).

Record setup_ok c : Prop := {
  lk_vcs : Forall (Z.le 0) (ls_vcs c);
  lk_arb : arb_ok (ls_n c) (ls_arb c (Z.of_nat (ls_n c)));
  lk_input : 0 <= (ls_input c).1 /\ 0 <= (ls_input c).2;
  lk_output : 0 <= (ls_output c).1 /\ 0 <= (ls_output c).2;
  lk_routers : isHostPort (ls_topo c).1 (ls_number c).1 = Ok false /\ isHostPort (ls_topo c).2 (ls_number c).2 = Ok false
}.

Lemma reachable_inv c :
  setup_ok c -> exists st0, ls_start c = Ok st0 /\
    forall st, rtc link_step st0 st -> link_inv (ls_n c) (ls_input c).1 (ls_output c).1 (ls_input c).2 (ls_output c).2 st.
Proof.
  intros [Hv Ha [Hi1 Hi2] [Ho1 Ho2] [Hr1 Hr2]].
  destruct (link_start_inv (ls_vcs c) (ls_arb c) Hv Ha (ls_topo c).1 (ls_topo c).2 (ls_number c).1 (ls_number c).2
    (ls_input c).1 (ls_output c).1 (ls_input c).2 (ls_output c).2 (ls_now c) (ls_track c).1 (ls_track c).1
    (ls_track c).2 (ls_track c).2) as (st0 & E & H0); [done..|].
  exists st0. split; [exact E|]. intros st Hst. fold (ls_n c) in H0. clear E.
  induction Hst as [|st st1 st2 Hs _ IH]; [exact H0|]. by eapply IH, link_step_inv.
Qed.

(** The credits of one direction: held by the sender, in flight as packets,
    waiting in the receiver's buffer, owed by the receiver, in flight back. *)
Definition conserved (size : Z) (k : nat) (from to : side) : Prop :=
  port_out_credits (s_port from) !!! k
  + total (data_for k) (drop (taken to) (sent (s_port from)))
  + flits (input_buf (s_port to) !!! k)
  + port_ret_credits (s_port to) !!! k
  + total (credit_for k) (drop (taken from) (sent (s_port to))) = size.

Lemma balanced_conserved n k size from to :
  (k < n)%nat -> (exists ibs, balanced n ibs from (sent (s_port to))) -> balanced n size to (sent (s_port from)) ->
  conserved size k from to.
Proof.
  intros Hk [ibs [_ Ho _]] [_ _ Hi]. specialize (Ho k Hk). specialize (Hi k Hk). unfold conserved, out_account, in_account in *.
  cbn in Ho, Hi. rewrite (total_split (data_for k) (taken to)) in Ho. rewrite (total_split (credit_for k) (taken from)) in Hi. lia.
Qed.

(** C2. On a link between two routers no credit is lost or made: for each virtual
    channel and direction the credits of the sender, the packets in flight, the
    packets in the receiver's buffer and the credits on their way back always add
    up to the size of the receiver's buffer. *)
Theorem credits_conserved c :
  setup_ok c ->
  exists st0, ls_start c = Ok st0 /\
    forall l r k, rtc link_step st0 (l, r) -> (k < ls_n c)%nat ->
      conserved (ls_input c).2 k l r /\ conserved (ls_input c).1 k r l.
Proof.
  intros (st0 & E & H)%reachable_inv. exists st0. split; [done|]. intros l r k [Hl Hr Hbl Hbr]%H Hk. cbn in *.
  split; (eapply balanced_conserved; [done|by eexists|done]).
Qed.

Lemma nonneg_total_data k (l : list (link_event D)) : Forall sound l -> 0 <= total (data_for k) l.
Proof.
  intros H. apply total_nonneg. eapply Forall_impl; [exact H|]. intros [vc c|ev|ev| |ev] Hs; cbn in *; try lia.
  case_match; [exact Hs|lia].
Qed.
Lemma nonneg_total_credit k (l : list (link_event D)) : Forall sound l -> 0 <= total (credit_for k) l.
Proof.
  intros H. apply total_nonneg. eapply Forall_impl; [exact H|]. intros [vc c|ev|ev| |ev] Hs; cbn in *; try lia.
  case_match; [exact Hs|lia].
Qed.

Lemma never_overflows n k size obs1 obs2 from to :
  (k < n)%nat -> side_ok n obs1 from -> side_ok n obs2 to -> conserved size k from to ->
  0 <= port_out_credits (s_port from) !!! k /\ flits (input_buf (s_port to) !!! k) <= size /\
  flits (output_buf (s_port from) !!! k) <= obs1.
Proof.
  intros Hk [Hf Ht _ _] [Hf' _ _ _] Hc. unfold conserved in Hc. split_and!.
  - apply (fo_credits _ _ Hf).
  - pose proof (fo_credits _ _ Hf k) as H1. pose proof (fo_ret _ _ Hf' k) as H2. cbn in H1, H2.
    pose proof (nonneg_total_data k (drop (taken to) (sent (s_port from)))
      ltac:(apply Forall_drop; exact (fo_sent _ _ Hf))) as H3.
    pose proof (nonneg_total_credit k (drop (taken from) (sent (s_port to)))
      ltac:(apply Forall_drop; exact (fo_sent _ _ Hf'))) as H4. lia.
  - pose proof (fo_space _ _ Hf k) as H1. pose proof (fo_buffer _ _ Hf k) as H2. cbn in H1, H2.
    pose proof (to_buf _ _ _ Ht) as H3. cbn in H3. rewrite H3 in H2. specialize (H2 Hk). unfold buffer_account in H2. cbn in H2. lia.
Qed.

(** C30. Flow control works: no input or output buffer of a link between two routers
    ever holds more flits than its size, and no port sends on credit. *)
Theorem buffers_never_overflow c :
  setup_ok c ->
  exists st0, ls_start c = Ok st0 /\
    forall l r k, rtc link_step st0 (l, r) -> (k < ls_n c)%nat ->
      (0 <= port_out_credits (s_port l) !!! k /\ flits (input_buf (s_port r) !!! k) <= (ls_input c).2 /\
       flits (output_buf (s_port l) !!! k) <= (ls_output c).1) /\
      (0 <= port_out_credits (s_port r) !!! k /\ flits (input_buf (s_port l) !!! k) <= (ls_input c).1 /\
       flits (output_buf (s_port r) !!! k) <= (ls_output c).2).
Proof.
  intros (st0 & E & H)%reachable_inv. exists st0. split; [done|]. intros l r k [Hl Hr Hbl Hbr]%H Hk. cbn in *.
  split; (eapply never_overflows; [done|done|done|eapply balanced_conserved; [done|by eexists|done]]).
Qed.

Lemma side_awake n obs (s : side) :
  side_ok n obs s ->
  timers (s_port s) = (fired s + if waiting (s_port s) then 0 else 1)%nat /\
  (waiting (s_port s) = true -> ctrl_queue (s_port s) = [] /\
     forall w, 0 <= w < Z.of_nat n -> sendable (output_buf (s_port s)) (port_out_credits (s_port s)) false w = false).
Proof. intros [_ Ht Hr _]. split; [exact (to_timers _ _ _ Ht)|exact Hr]. Qed.

(** C18. No wakeup is lost and none is doubled on a link between two routers that does not
    adapt its width (no port is ever disabled): each of the two ports has exactly one
    timer event on its way when it does not wait, none when it does, and it waits only
    when it has no control event and no packet with the credits to be sent. *)
Theorem no_lost_wakeup c :
  setup_ok c ->
  exists st0, ls_start c = Ok st0 /\
    forall l r s, rtc link_step st0 (l, r) -> s = l \/ s = r ->
      timers (s_port s) = (fired s + if waiting (s_port s) then 0 else 1)%nat /\
      (waiting (s_port s) = true -> ctrl_queue (s_port s) = [] /\
         forall w, 0 <= w < Z.of_nat (ls_n c) ->
           sendable (output_buf (s_port s)) (port_out_credits (s_port s)) false w = false).
Proof.
  intros (st0 & E & H)%reachable_inv. exists st0. split; [done|]. intros l r s [Hl Hr _ _]%H [->| ->]; by eapply side_awake.
Qed.
End theorems.

(** ** Credits of an endpoint *)

Section endpoint.
Context {T D A : Type} {HT : Topology T D} {HA : SingleArbitration A}.

(** C39. A port to an endpoint sends the packet that the arbitration chose when the credits of the
    packet's virtual network cover it, but takes its flits from the credits of the
    virtual channel, and from no others: when network and channel differ, packets
    leave and the credits that are tested are not used up. *)
Theorem host_credits_not_taken (p p' : Port D A) now vc p1 ev q :
  choose_vc p = Ok (vc, p1) -> vc <> -1 -> ctrl_queue p = [] -> host_port p = true ->
  at_index (output_buf p) vc = Ok (ev :: q) -> handle_output now p = Ok (tt, p') ->
  sent p' = sent p ++ [Packet (encap_ev ev)] /\
  (exists c, at_index (port_out_credits p) (getVN ev) = Ok c /\ getFlitCount ev <= c) /\
  (exists v, at_index (port_out_credits p) vc = Ok v /\
     port_out_credits p' = <[Z.to_nat vc := v - getFlitCount ev]> (port_out_credits p)) /\
  (getVN ev <> vc -> at_index (port_out_credits p') (getVN ev) = at_index (port_out_credits p) (getVN ev)).
Proof.
  intros Hc Hvc Hctrl Hhost Hq H. unfold handle_output in H.
  apply bind_Ok in H as (? & ? & [= <- <-] & H). rewrite Hctrl, (bind_step _ _ _ _ _ Hc) in H.
  rewrite (proj2 (Z.eqb_neq vc (-1)) Hvc) in H. cbn [negb] in H.
  apply choose_vc_flow in Hc as [E [|Hs]]; [done|]. apply send_out_flow in H as (ev' & q' & Hvc' & Hq' & Hlen & _ & H).
  change (output_buf p1) with (f_out (flow_of p1)) in Hq'. change (port_out_credits p1) with (f_credits (flow_of p1)) in H, Hlen.
  change (sent p1) with (f_sent (flow_of p1)) in H. change (host_port p1) with ((f_port (flow_of p1)).1.2) in H.
  rewrite E in H, Hq', Hlen. cbn in H, Hq', Hlen. rewrite Hhost in H.
  unfold sendable in Hs. rewrite Hq, Hhost in Hs. apply at_index_Ok in Hq as [_ Hq]. rewrite Hq in Hq'. injection Hq' as <- <-.
  destruct (at_index (port_out_credits p) (getVN ev)) as [c|] eqn:Ec; [|done]. apply negb_true_iff, Z.ltb_ge in Hs.
  assert (Hcr : port_out_credits p' = <[Z.to_nat vc := port_out_credits p !!! Z.to_nat vc - getFlitCount ev]> (port_out_credits p)).
  { change (port_out_credits p') with (f_credits (flow_of p')). by rewrite H. }
  split_and!; [exact (f_equal f_sent H)|by exists c| |].
  - exists (port_out_credits p !!! Z.to_nat vc). split; [|done]. apply at_index_Ok. split; [done|]. by apply list_lookup_lookup_total_lt.
  - intros Hne. rewrite Hcr, <- Ec. apply at_index_Ok in Ec as [Hvn _]. unfold at_index. destruct (Z.ltb_spec (getVN ev) 0); [lia|].
    by rewrite list_lookup_insert_ne by lia.
Qed.
End endpoint.

(** ** Witnesses *)

(** The link between the routers at [0;0;0] and [1;0;0] of a torus, with four
    virtual channels, input buffers of 6 flits and output buffers of 4. *)
Definition demo_setup : link_setup (T := Grid) (A := Lru.t) :=
  mkSetup [2; 2] Lru.new (node torus_442 [0; 0; 0], node torus_442 [1; 0; 0]) (0, 1) (6, 6) (4, 4) 0 (false, false).

Lemma demo_setup_ok : setup_ok (HT := torus_topology) demo_setup.
Proof. constructor; [repeat constructor; lia|apply (lru_new_ok 4); lia|cbn; lia|cbn; lia|done]. Qed.

(** A packet of 3 flits for endpoint 42, behind the router at [1;1;1]. *)
Definition packet_42 : event := mkIre (mkRtrEvent 42 0 1 3) (Some 0) 2 None (mkGridEvent 0 [1; 1; 1]).

Definition state_after {St} (s : St) (r : res (unit * St)) : St := match r with Ok (_, s') => s' | Err _ => s end.
Definition demo_default : side (T := Grid) (D := grid_event) (A := Lru.t) :=
  mkSide torus_442 (initVCs 0 false [] 0 0 false false 0 Lru.new) 0 0.
Definition demo_left0 : side := Eval vm_compute in
  match ls_start (D := grid_event) demo_setup with Ok st => st.1 | Err _ => demo_default end.
Definition demo_right0 : side := Eval vm_compute in
  match ls_start (D := grid_event) demo_setup with Ok st => st.2 | Err _ => demo_default end.

(** The crossbar of the left router sends the packet, the timer fires, and the
    packet arrives. *)
Definition demo_port1 := Eval vm_compute in state_after (s_port demo_left0) (send 0 packet_42 2 (s_port demo_left0)).
Definition demo_port2 := Eval vm_compute in state_after demo_port1 (handle_output 1 demo_port1).
Definition demo_port3 := Eval vm_compute in
  state_after (s_port demo_right0)
    (handle_input_r2r (HT := torus_topology) (s_topo demo_right0) 2 (Internal packet_42) (s_port demo_right0)).
Definition demo_left : side := mkSide (s_topo demo_left0) demo_port2 4 1.
Definition demo_right : side := mkSide (s_topo demo_right0) demo_port3 5 0.

Lemma demo_start : ls_start demo_setup = Ok (demo_left0, demo_right0).
Proof. by vm_compute. Qed.

Lemma demo_reached : rtc (link_step (HT := torus_topology)) (demo_left0, demo_right0) (demo_left, demo_right).
Proof.
  transitivity (mkSide (s_topo demo_left0) demo_port1 4 0, demo_right0).
  { apply rtc_once, left_steps. apply (crossbar_sends _ 0 packet_42 2 demo_left0 demo_port1); [by vm_compute|done|by vm_compute]. }
  transitivity (demo_left, demo_right0).
  { apply rtc_once, left_steps. apply (timer_fires _ 1 (mkSide (s_topo demo_left0) demo_port1 4 0) demo_port2);
      [by apply Nat.ltb_lt; vm_compute|by vm_compute]. }
  apply rtc_once, right_steps. apply (event_arrives _ 2 (Internal packet_42) demo_right0 demo_port3); by vm_compute.
Qed.

Lemma credits_conserved_witness :
  setup_ok (HT := torus_topology) demo_setup /\
  (flits (input_buf (s_port demo_right) !!! 2%nat) = 3 /\ port_out_credits (s_port demo_left) !!! 2%nat = 3) /\
  conserved 6 2 demo_left demo_right /\ conserved 6 2 demo_right demo_left.
Proof.
  split; [apply demo_setup_ok|]. split; [by vm_compute|].
  destruct (credits_conserved (HT := torus_topology) demo_setup demo_setup_ok) as (st0 & E & H).
  rewrite demo_start in E. injection E as <-. apply (H demo_left demo_right 2%nat demo_reached).
  apply Nat.ltb_lt. by vm_compute.
Defined.

Lemma buffers_never_overflow_witness :
  setup_ok (HT := torus_topology) demo_setup /\
  (0 <= port_out_credits (s_port demo_left) !!! 2%nat /\ flits (input_buf (s_port demo_right) !!! 2%nat) <= 6 /\
   flits (output_buf (s_port demo_left) !!! 2%nat) <= 4) /\
  (0 <= port_out_credits (s_port demo_right) !!! 2%nat /\ flits (input_buf (s_port demo_left) !!! 2%nat) <= 6 /\
   flits (output_buf (s_port demo_right) !!! 2%nat) <= 4).
Proof.
  split; [apply demo_setup_ok|].
  destruct (buffers_never_overflow (HT := torus_topology) demo_setup demo_setup_ok) as (st0 & E & H).
  rewrite demo_start in E. injection E as <-. apply (H demo_left demo_right 2%nat demo_reached).
  apply Nat.ltb_lt. by vm_compute.
Defined.

Lemma no_lost_wakeup_witness :
  setup_ok (HT := torus_topology) demo_setup /\
  timers (s_port demo_left) = (1 + if waiting (s_port demo_left) then 0 else 1)%nat /\
  (waiting (s_port demo_left) = true -> ctrl_queue (s_port demo_left) = [] /\
     forall w, 0 <= w < 4 ->
       sendable (output_buf (s_port demo_left)) (port_out_credits (s_port demo_left)) false w = false).
Proof.
  split; [apply demo_setup_ok|].
  destruct (no_lost_wakeup (HT := torus_topology) demo_setup demo_setup_ok) as (st0 & E & H).
  rewrite demo_start in E. injection E as <-. exact (H demo_left demo_right demo_left demo_reached (or_introl eq_refl)).
Defined.

(** A port to an endpoint that gave 2 credits for virtual network 0; a packet of 2
    flits waits in virtual channel 1. *)
Definition endpoint_port : Port grid_event RoundRobin.t := Eval vm_compute in
  (initVCs 8 true [2; 2] 6 4 true false 0 RoundRobin.new)
    <| output_buf := [[]; [mkIre (mkRtrEvent 0 7 0 2) (Some 8) 1 None (mkGridEvent 0 [0; 0; 0])]; []; []] |>
    <| port_out_credits := [2; 2; 0; 0] |>.
Definition endpoint_chosen := Eval vm_compute in
  match choose_vc endpoint_port with Ok (_, p) => p | Err _ => endpoint_port end.
Definition endpoint_sent := Eval vm_compute in state_after endpoint_port (handle_output 1 endpoint_port).

Lemma host_credits_not_taken_witness :
  sent endpoint_sent = [Packet (mkRtrEvent 0 7 0 2)] /\ at_index (port_out_credits endpoint_sent) 0 = Ok 2.
Proof.
  destruct (host_credits_not_taken endpoint_port endpoint_sent 1 1 endpoint_chosen
    (mkIre (mkRtrEvent 0 7 0 2) (Some 8) 1 None (mkGridEvent 0 [0; 0; 0])) []
    ltac:(by vm_compute) ltac:(lia) eq_refl eq_refl eq_refl ltac:(by vm_compute)) as (Hs & _ & _ & Hc).
  split; [exact Hs|]. apply Hc. by vm_compute.
Defined.
