(* ===== verification/XbarArb.v ===== *)
(** * XbarArb: which packets cross the crossbar in a cycle

    Models [merlin/hr_router/xbar_arb_rr.h] and [xbar_arb_lru.h]. An arbitration
    looks at the heads of all ports and grants some of them the way to their next
    port. Both work by granting one head after the other; the inductive relation
    [granting] captures that, and everything about the matching they produce is
    proved of it once. *)

From stdpp Require Import relations.
From S2P Require Import Prelude Merlin Arbitration PortControl.

(** ** The arrays of the router the arbitration writes *)

Record Xbar := mkXbar {
  in_port_busy : list Z;
  out_port_busy : list Z;
  progress_vcs : list Z
}.
#[export] Instance xbar_eta : Eta Xbar := fun b => mkXbar (in_port_busy b) (out_port_busy b) (progress_vcs b).

Section arbitration.
Context {T D A : Type} {HT : Topology T D} {HA : SingleArbitration A}.
Implicit Types (ports : list (Port D A)) (b : Xbar) (ev : internal_router_event D).

Definition head_of ports (port vc : Z) : res (option (internal_router_event D)) :=
  p ← at_index ports port; at_index (vc_heads p) vc.

(** The next port is free and has the space for the packet. *)
Definition can_progress ports b ev : res bool :=
  next_port ← getNextPort ev;
  busy ← at_index (out_port_busy b) next_port;
  if 0 <? busy then Ok false
  else p ← at_index ports next_port; spaceToSend (ire_vc ev) (getFlitCount ev) p.

(** The packet may go. *)
Definition grant (port vc : Z) ev b : res Xbar :=
  next_port ← getNextPort ev;
  pv ← set_index (progress_vcs b) port vc;
  i ← set_index (in_port_busy b) port (getFlitCount ev);
  o ← set_index (out_port_busy b) next_port (getFlitCount ev);
  Ok (mkXbar i o pv).

Definition set_progress (port v : Z) b : res Xbar :=
  pv ← set_index (progress_vcs b) port v; Ok (b <| progress_vcs := pv |>).
End arbitration.

(** ** Round robin *)

Module XbarRR.
Record t := mk { num_ports : Z; num_vcs : Z; rr_vcs : list Z; rr_port : Z }.
#[global] Instance t_eta : Eta t := fun a => mk (num_ports a) (num_vcs a) (rr_vcs a) (rr_port a).

Definition setPorts (ports vcs : Z) : t := mk ports vcs (replicate (Z.to_nat ports) 0) 0.

Section rr.
Context {D A : Type}.
Implicit Types (ports : list (Port D A)) (b : Xbar) (a : t).

(** The loop over the virtual channels of a port. *)
Fixpoint vc_loop (n : nat) (num_vcs : Z) ports (port vc : Z) b : res Xbar :=
  match n with
  | O => Ok b
  | S n' =>
      let next := if negb (vc =? num_vcs - 1) then vc + 1 else 0 in
      h ← head_of ports port vc;
      match h with
      | None => vc_loop n' num_vcs ports port next b
      | Some src_event =>
          ok ← can_progress ports b src_event;
          if ok : bool then grant port vc src_event b else vc_loop n' num_vcs ports port next b
      end
  end.

(** The loop over the ports. *)
Fixpoint port_loop (n : nat) ports (port : Z) b a : res (Xbar * t) :=
  match n with
  | O => Ok (b, a)
  | S n' =>
      let next := if negb (port =? num_ports a - 1) then port + 1 else 0 in
      b ← set_progress port (-1) b;
      busy ← at_index (in_port_busy b) port;
      if 0 <? busy then port_loop n' ports next b a
      else
        vc ← at_index (rr_vcs a) port;
        b ← vc_loop (Z.to_nat (num_vcs a)) (num_vcs a) ports port vc b;
        vc' ← int_rem (vc + 1) (num_vcs a);
        r ← set_index (rr_vcs a) port vc';
        port_loop n' ports next b (a <| rr_vcs := r |>)
  end.

Definition arbitrate ports b a : res (Xbar * t) :=
  '(b, a) ← port_loop (Z.to_nat (num_ports a)) ports (rr_port a) b a;
  p ← int_rem (rr_port a + 1) (num_ports a);
  Ok (b, a <| rr_port := p |>).

Definition reportSkippedCycles (cycles : Z) a : res t :=
  p ← umod (u64 (rr_port a + cycles)) (num_ports a); Ok (a <| rr_port := p |>).
End rr.
End XbarRR.

(** ** Least recently used *)

Module XbarLru.
(** The list of (port, virtual channel) by priority, in 16 bits each; the next one
    is written into a second array of the same size. *)
Record t := mk { num_ports : Z; num_vcs : Z; cur_list : list (Z * Z); next_list : list (Z * Z) }.
#[global] Instance t_eta : Eta t := fun a => mk (num_ports a) (num_vcs a) (cur_list a) (next_list a).

Definition setPorts (ports vcs : Z) : t :=
  mk ports vcs (i ← seqZ 0 ports; j ← seqZ 0 vcs; [(i mod 2 ^ 16, j mod 2 ^ 16)]) (replicate (Z.to_nat ports * Z.to_nat vcs) (0, 0)).

Section lru.
Context {D A : Type}.
Implicit Types (ports : list (Port D A)) (b : Xbar) (a : t).

(** The walk down the priorities: who is granted goes to the end of the next
    list, from its last cell up; the others to its front. *)
Fixpoint walk (l : list (Z * Z)) ports (sat unsat : Z) (next : list (Z * Z)) b : res (Xbar * list (Z * Z)) :=
  match l with
  | [] => Ok (b, next)
  | check :: l' =>
      let '(port, vc) := check in
      h ← head_of ports port vc;
      busy ← at_index (in_port_busy b) port;
      match h with
      | Some src_event =>
          if busy <=? 0 then
            ok ← can_progress ports b src_event;
            if ok : bool then
              b ← grant port vc src_event b;
              next ← set_index next sat check;
              walk l' ports (sat - 1) unsat next b
            else
              next ← set_index next unsat check;
              b ← set_progress port (-2) b;
              walk l' ports sat (unsat + 1) next b
          else
            next ← set_index next unsat check; walk l' ports sat (unsat + 1) next b
      | None => next ← set_index next unsat check; walk l' ports sat (unsat + 1) next b
      end
  end.

(** [progress_vc[i] = -1] for all ports. *)
Fixpoint clear (n : nat) b : res Xbar :=
  match n with O => Ok b | S n' => b ← clear n' b; set_progress (Z.of_nat n') (-1) b end.

Definition arbitrate ports b a : res (Xbar * t) :=
  b ← clear (Z.to_nat (num_ports a)) b;
  '(b, next) ← walk (cur_list a) ports (Z.of_nat (length (next_list a)) - 1) 0 (next_list a) b;
  Ok (b, a <| cur_list := next |> <| next_list := cur_list a |>).
End lru.
End XbarLru.

(** ** The interface *)

Class XbarArbitration (X D A : Type) := {
  xbar_arbitrate : list (Port D A) -> Xbar -> X -> res (Xbar * X);
  isOkayToPauseClock : X -> bool;
  reportSkippedCycles : Z -> X -> res X
}.
#[export] Instance xbar_rr {D A} : XbarArbitration XbarRR.t D A := {|
  xbar_arbitrate := XbarRR.arbitrate;
  isOkayToPauseClock _ := true;
  reportSkippedCycles := XbarRR.reportSkippedCycles
|}.
#[export] Instance xbar_lru {D A} : XbarArbitration XbarLru.t D A := {|
  xbar_arbitrate := XbarLru.arbitrate;
  isOkayToPauseClock _ := true;
  reportSkippedCycles _ a := Ok a
|}.

(** ** Granting *)

(** A port of the router as the arbitration sees it: [n] ports of [m] virtual
    channels, whose heads know a port and a channel to go to and have a size. *)
Record port_ready {D A} (n m : nat) (p : Port D A) : Prop := {
  rp_heads : length (vc_heads p) = m;
  rp_space : length (xbar_in_credits p) = m;
  rp_head vc ev : vc_heads p !! vc = Some (Some ev) ->
    0 < getFlitCount ev /\ 0 <= ire_vc ev < Z.of_nat m /\
    exists np, next_port ev = Some np /\ 0 <= np < Z.of_nat n
}.
Record xbar_arrays (n : nat) (b : Xbar) : Prop := {
  xa_in : length (in_port_busy b) = n;
  xa_out : length (out_port_busy b) = n;
  xa_progress : length (progress_vcs b) = n
}.

Section granting.
Context {D A : Type}.
Implicit Types (b : Xbar) (ev : internal_router_event D) (gs : list (Z * Z * internal_router_event D)).
Variable ports : list (Port D A).

(** A grant: the port, the virtual channel and its head. *)
Definition granted_port (g : Z * Z * internal_router_event D) : Z := g.1.1.
Definition granted_target (g : Z * Z * internal_router_event D) : option Z := next_port g.2.

(** A head that may go now. *)
Definition grantable b (port vc : Z) ev : Prop :=
  head_of ports port vc = Ok (Some ev) /\ (exists i, at_index (in_port_busy b) port = Ok i /\ i <= 0) /\
  can_progress ports b ev = Ok true.

(** The arrays change from [b] to [b'] by the grants [gs], one after the other;
    in between ports without a grant are marked as idle or stalled. *)
Inductive granting b : list (Z * Z * internal_router_event D) -> Xbar -> Prop :=
| grant_none : granting b [] b
| grant_head gs b1 port vc ev b' :
    granting b gs b1 -> grantable b1 port vc ev -> grant port vc ev b1 = Ok b' ->
    granting b (gs ++ [(port, vc, ev)]) b'
| grant_mark gs b1 port v b' :
    granting b gs b1 -> port ∉ granted_port <$> gs -> v < 0 -> set_progress port v b1 = Ok b' ->
    granting b gs b'.

(** What a cycle's arbitration has to achieve: grants that exclude each other,
    to free ports with space; busy and progress arrays that say so; and nobody
    left who could still be granted. *)
Record matching (n : nat) b gs b' : Prop := {
  ma_arrays : xbar_arrays n b';
  ma_ports : NoDup (granted_port <$> gs);
  ma_targets : NoDup (granted_target <$> gs);
  ma_granted port vc ev : (port, vc, ev) ∈ gs ->
    grantable b port vc ev /\ at_index (progress_vcs b') port = Ok vc /\
    at_index (in_port_busy b') port = Ok (getFlitCount ev) /\
    exists np, next_port ev = Some np /\ at_index (out_port_busy b') np = Ok (getFlitCount ev);
  ma_idle port : 0 <= port < Z.of_nat n -> port ∉ granted_port <$> gs ->
    at_index (in_port_busy b') port = at_index (in_port_busy b) port /\
    exists v, at_index (progress_vcs b') port = Ok v /\ v < 0;
  ma_free np : Some np ∉ granted_target <$> gs -> at_index (out_port_busy b') np = at_index (out_port_busy b) np;
  ma_maximal port vc ev : port ∉ granted_port <$> gs -> ~ grantable b' port vc ev
}.
End granting.

(** The laws of a crossbar arbitration. *)
Class XbarLaws (X D A : Type) {HX : XbarArbitration X D A} := {
  xbar_ok : nat -> nat -> X -> Prop;
  xbar_matches n m ports b a :
    xbar_ok n m a -> length ports = n -> Forall (port_ready n m) ports -> xbar_arrays n b ->
    exists b' a' gs, xbar_arbitrate ports b a = Ok (b', a') /\ xbar_ok n m a' /\ matching ports n b gs b'
}.
