(* ===== verification/XbarMatch.v ===== *)
(** * XbarMatch: the matchings of the crossbar arbitrations

    Every arbitration of [XbarArb] grants a maximal matching, always returns, and
    keeps its own state in order. The facts about sequences of grants are proved
    once; each arbitration then shows that its loops are such a sequence and that
    they look at every head. *)

From S2P Require Import Prelude Merlin Arbitration PortControl XbarArb.

(** ** Sequences of grants *)

Section granting.
Context {D A : Type}.
Implicit Types (b : Xbar) (ev : internal_router_event D) (gs : list (Z * Z * internal_router_event D)).
Variables (n m : nat) (ports : list (Port D A)).
Hypothesis Hlen : length ports = n.
Hypothesis Hready : Forall (port_ready n m) ports.

Lemma head_ready port vc ev :
  head_of ports port vc = Ok (Some ev) ->
  0 <= port < Z.of_nat n /\ 0 <= vc < Z.of_nat m /\ 0 < getFlitCount ev /\ 0 <= ire_vc ev < Z.of_nat m /\
  exists np, next_port ev = Some np /\ 0 <= np < Z.of_nat n.
Proof.
  unfold head_of. intros H. inv_res. rename select (at_index ports _ = _) into Hp. rename select (at_index _ _ = _) into Hh.
  apply at_index_Ok in Hp as [Hp0 Hp], Hh as [Hv0 Hh]. rewrite Forall_forall in Hready.
  destruct (Hready _ (list_elem_of_lookup_2 _ _ _ Hp)) as [Hm _ Hhead]. destruct (Hhead _ _ Hh) as (Hs & Hvc & Hnp).
  apply lookup_lt_Some in Hp, Hh. split_and!; first [lia|done].
Qed.

(** Testing and granting never fail. *)
Lemma can_progress_Ok b port vc ev :
  xbar_arrays n b -> head_of ports port vc = Ok (Some ev) -> exists ok, can_progress ports b ev = Ok ok.
Proof.
  intros [_ Ho _] H. apply head_ready in H as (_ & _ & _ & Hvc & np & Enp & Hnp).
  unfold can_progress, getNextPort. rewrite Enp. cbn [of_option mbind res_bind].
  destruct (at_index_in_range (out_port_busy b) np) as [busy ->]; [by rewrite Ho|]. cbn [mbind res_bind].
  destruct (0 <? busy); [by eexists|]. destruct (at_index_in_range ports np) as [p Hp]; [by rewrite Hlen|].
  rewrite Hp. cbn [mbind res_bind]. unfold spaceToSend.
  apply at_index_Ok in Hp as [_ Hp]. rewrite Forall_forall in Hready.
  destruct (at_index_in_range (xbar_in_credits p) (ire_vc ev)) as [c ->]; [|by eexists].
  by rewrite (rp_space _ _ _ (Hready _ (list_elem_of_lookup_2 _ _ _ Hp))).
Qed.

Lemma grant_Ok b port vc ev :
  xbar_arrays n b -> head_of ports port vc = Ok (Some ev) ->
  exists np, next_port ev = Some np /\ 0 <= np < Z.of_nat n /\
    grant port vc ev b = Ok (mkXbar (<[Z.to_nat port := getFlitCount ev]> (in_port_busy b))
      (<[Z.to_nat np := getFlitCount ev]> (out_port_busy b)) (<[Z.to_nat port := vc]> (progress_vcs b))).
Proof.
  intros [Hi Ho Hp] H. apply head_ready in H as (Hport & _ & _ & _ & np & Enp & Hnp). exists np. split; [done|]. split; [done|].
  unfold grant, getNextPort. rewrite Enp. cbn [of_option mbind res_bind].
  by rewrite !set_index_in_range by lia.
Qed.

Lemma set_progress_Ok b port v :
  xbar_arrays n b -> 0 <= port < Z.of_nat n ->
  set_progress port v b = Ok (b <| progress_vcs := <[Z.to_nat port := v]> (progress_vcs b) |>).
Proof. intros [_ _ Hp] H. unfold set_progress. by rewrite set_index_in_range by lia. Qed.

Lemma can_progress_true b ev :
  can_progress ports b ev = Ok true ->
  exists np v p, next_port ev = Some np /\ at_index (out_port_busy b) np = Ok v /\ v <= 0 /\
    at_index ports np = Ok p /\ spaceToSend (ire_vc ev) (getFlitCount ev) p = Ok true.
Proof.
  unfold can_progress, getNextPort, of_option. intros H. destruct (next_port ev) as [np|]; [|done]. inv_res.
  rename select (at_index (out_port_busy b) _ = _) into Ho. destruct (Z.ltb_spec 0 x0); [done|].
  inv_res. by eexists _, _, _.
Qed.

(** While heads are granted, ports only become busy. *)
Definition busier b b' : Prop :=
  (forall i v, at_index (out_port_busy b') i = Ok v -> v <= 0 -> exists v0, at_index (out_port_busy b) i = Ok v0 /\ v0 <= 0) /\
  (forall i v, at_index (in_port_busy b') i = Ok v -> v <= 0 -> exists v0, at_index (in_port_busy b) i = Ok v0 /\ v0 <= 0).

#[export] Instance busier_preorder : PreOrder busier.
Proof.
  split; [intros b; split; eauto|]. intros b1 b2 b3 [Ho1 Hi1] [Ho2 Hi2].
  split; intros i v Hv Hle; [destruct (Ho2 _ _ Hv Hle) as (v' & Hv' & Hle')|destruct (Hi2 _ _ Hv Hle) as (v' & Hv' & Hle')]; eauto.
Qed.

Lemma grantable_back b b' port vc ev : busier b b' -> grantable ports b' port vc ev -> grantable ports b port vc ev.
Proof.
  intros [Ho Hi] (Hh & (i & Hib & Hle) & Hc). split; [done|]. split; [eauto|].
  apply can_progress_true in Hc as (np & v & p & Enp & Hv & Hle' & Hp & Hs). destruct (Ho _ _ Hv Hle') as (v0 & Hv0 & Hle0).
  unfold can_progress, getNextPort. rewrite Enp. cbn [of_option mbind res_bind]. rewrite Hv0. cbn [mbind res_bind].
  rewrite (proj2 (Z.ltb_ge 0 v0)) by lia. by rewrite Hp.
Qed.

(** What a sequence of grants has done. *)
Record grants_done b gs b' : Prop := {
  gd_arrays : xbar_arrays n b';
  gd_busier : busier b b';
  gd_ports : NoDup (granted_port <$> gs);
  gd_targets : NoDup (granted_target <$> gs);
  gd_granted port vc ev : (port, vc, ev) ∈ gs ->
    grantable ports b port vc ev /\ at_index (progress_vcs b') port = Ok vc /\
    at_index (in_port_busy b') port = Ok (getFlitCount ev) /\
    exists np, next_port ev = Some np /\ at_index (out_port_busy b') np = Ok (getFlitCount ev);
  gd_idle port : port ∉ granted_port <$> gs -> at_index (in_port_busy b') port = at_index (in_port_busy b) port;
  gd_free np : Some np ∉ granted_target <$> gs -> at_index (out_port_busy b') np = at_index (out_port_busy b) np
}.

(** A port or target that is still free has not been granted. *)
Lemma free_port b gs b1 port i :
  grants_done b gs b1 -> at_index (in_port_busy b1) port = Ok i -> i <= 0 -> port ∉ granted_port <$> gs.
Proof.
  intros Hd Hi Hle ([[p vc] ev] & -> & Hg)%list_elem_of_fmap. cbn in *.
  destruct (gd_granted _ _ _ Hd _ _ _ Hg) as ((Hh & _) & _ & Hf & _). apply head_ready in Hh as (_ & _ & Hs & _).
  rewrite Hi in Hf. injection Hf as ->. lia.
Qed.

Lemma free_target b gs b1 np v :
  grants_done b gs b1 -> at_index (out_port_busy b1) np = Ok v -> v <= 0 -> Some np ∉ granted_target <$> gs.
Proof.
  intros Hd Hi Hle ([[p vc] ev] & E & Hg)%list_elem_of_fmap. unfold granted_target in E. cbn in *.
  destruct (gd_granted _ _ _ Hd _ _ _ Hg) as ((Hh & _) & _ & _ & np' & Enp & Hf). apply head_ready in Hh as (_ & _ & Hs & _).
  rewrite <- E in Enp. injection Enp as <-. rewrite Hi in Hf. injection Hf as ->. lia.
Qed.

Lemma busier_insert b (i o : Z) f pv :
  0 < f -> 0 <= i -> 0 <= o ->
  busier b (mkXbar (<[Z.to_nat i := f]> (in_port_busy b)) (<[Z.to_nat o := f]> (out_port_busy b)) pv).
Proof.
  intros Hf Hi Ho. split; cbn; intros j v Hv Hle.
  - destruct (decide (o = j)) as [<-|Hne]; [|rewrite at_index_insert_ne in Hv by done; eauto].
    apply at_index_Ok in Hv as [_ Hv]. apply list_lookup_insert_Some in Hv as [(_ & <- & _)|[? _]]; [lia|done].
  - destruct (decide (i = j)) as [<-|Hne]; [|rewrite at_index_insert_ne in Hv by done; eauto].
    apply at_index_Ok in Hv as [_ Hv]. apply list_lookup_insert_Some in Hv as [(_ & <- & _)|[? _]]; [lia|done].
Qed.

Lemma fresh_snoc {B} (l : list B) x : NoDup l -> x ∉ l -> NoDup (l ++ [x]).
Proof. intros Hl Hx. apply NoDup_app. split_and!; [done|set_solver|apply NoDup_singleton]. Qed.

Lemma granting_done b gs b' : xbar_arrays n b -> granting ports b gs b' -> grants_done b gs b'.
Proof.
  intros Hb H. induction H as [|gs b1 port vc ev b' _ IH Hg Hgr|gs b1 port v b' _ IH Hni Hv Hs].
  - constructor; try done; try apply NoDup_nil_2. by intros ? ? ? ?%elem_of_nil.
  - pose proof IH as [Harr Hbus Hnp Hnt Hgs Hidle Hfree]. pose proof Hg as (Hh & (i & Hi & Hile) & Hc).
    destruct (grant_Ok b1 port vc ev Harr Hh) as (np & Enp & Hnpr & E). rewrite E in Hgr. injection Hgr as <-.
    pose proof (head_ready _ _ _ Hh) as (Hpr & _ & Hsz & _).
    apply can_progress_true in Hc as (np' & v & p & Enp' & Hov & Hvle & _). rewrite Enp in Enp'. injection Enp' as <-.
    pose proof (free_port _ _ _ _ _ IH Hi Hile) as Hfp. pose proof (free_target _ _ _ _ _ IH Hov Hvle) as Hft.
    destruct Harr as [Ha1 Ha2 Ha3]. constructor; cbn.
    + by constructor; cbn; rewrite length_insert.
    + etrans; [exact Hbus|]. by apply busier_insert; [|lia|lia].
    + rewrite fmap_app. by apply fresh_snoc.
    + rewrite fmap_app. apply fresh_snoc; [done|]. unfold granted_target at 1. cbn. by rewrite Enp.
    + intros p' vc' ev' [Hin|Hin]%elem_of_app.
      * destruct (Hgs _ _ _ Hin) as (H1 & H2 & H3 & np' & H4 & H5).
        assert (p' <> port) by (intros ->; apply Hfp, list_elem_of_fmap; by exists (port, vc', ev')).
        assert (np' <> np).
        { intros ->. apply Hft, list_elem_of_fmap. exists (p', vc', ev'). split; [by unfold granted_target|done]. }
        rewrite !(at_index_insert_ne _ port) by lia. split_and!; [done..|]. exists np'. split; [done|].
        by rewrite at_index_insert_ne by lia.
      * apply list_elem_of_singleton in Hin. injection Hin as -> -> ->.
        rewrite !at_index_insert by lia. split; [by eapply grantable_back|]. split; [done|]. split; [done|].
        exists np. split; [done|]. by rewrite at_index_insert by lia.
    + intros p'. rewrite fmap_app. intros Hn'. rewrite at_index_insert_ne; [|lia|set_solver]. apply Hidle. set_solver.
    + intros o. rewrite fmap_app. intros Ho. rewrite at_index_insert_ne; [|lia|].
      * apply Hfree. set_solver.
      * intros <-. apply Ho. apply elem_of_app. right. apply list_elem_of_singleton. unfold granted_target. by cbn.
  - pose proof IH as [Harr Hbus Hnp Hnt Hgs Hidle Hfree]. unfold set_progress in Hs. inv_res.
    rename select (set_index _ _ _ = _) into Hs. apply set_index_Ok in Hs as [Hr ->]. destruct Harr as [Ha1 Ha2 Ha3].
    constructor; cbn; try done.
    + constructor; cbn; try done. by rewrite length_insert.
    + intros p' vc' ev' Hin. destruct (Hgs _ _ _ Hin) as (H1 & H2 & H3 & H4). split; [done|]. split; [|done].
      rewrite at_index_insert_ne; [done|lia|]. intros ->. apply Hni, list_elem_of_fmap. by exists (p', vc', ev').
Qed.

(** *** Marks *)

Definition marked gs b (port : Z) : Prop :=
  port ∈ granted_port <$> gs \/ exists v, at_index (progress_vcs b) port = Ok v /\ v < 0.

Lemma marked_grant gs b b' port vc ev p :
  xbar_arrays n b -> head_of ports port vc = Ok (Some ev) -> grant port vc ev b = Ok b' ->
  marked gs b p -> marked (gs ++ [(port, vc, ev)]) b' p.
Proof.
  intros Hb Hh Hg Hm. destruct (grant_Ok b port vc ev Hb Hh) as (np & _ & _ & E). rewrite E in Hg. injection Hg as <-.
  pose proof (head_ready _ _ _ Hh) as (Hp & _). unfold marked. rewrite fmap_app. cbn.
  destruct (decide (p = port)) as [->|Hne]; [left; set_solver|]. destruct Hm as [Hm|(v & Hv & Hlt)]; [left; set_solver|].
  right. exists v. rewrite at_index_insert_ne by lia. done.
Qed.

Lemma marked_set gs b port v p :
  v < 0 -> xbar_arrays n b -> 0 <= port < Z.of_nat n -> marked gs b p \/ p = port ->
  marked gs (b <| progress_vcs := <[Z.to_nat port := v]> (progress_vcs b) |>) p.
Proof.
  intros Hv [_ _ Ha] Hp Hm. destruct (decide (p = port)) as [->|Hne].
  - right. exists v. cbn. by rewrite at_index_insert by lia.
  - destruct Hm as [[Hm|(w & Hw & Hlt)]| ->]; [by left| |done]. right. exists w. cbn. by rewrite at_index_insert_ne by lia.
Qed.

Lemma busier_set b pv : busier b (b <| progress_vcs := pv |>).
Proof. split; cbn; eauto. Qed.

Lemma grant_busier b b' port vc ev :
  xbar_arrays n b -> head_of ports port vc = Ok (Some ev) -> grant port vc ev b = Ok b' -> busier b b'.
Proof.
  intros Hb Hh Hg. destruct (grant_Ok b port vc ev Hb Hh) as (np & _ & Hnp & E). rewrite E in Hg. injection Hg as <-.
  pose proof (head_ready _ _ _ Hh) as (Hp & _ & Hs & _). apply busier_insert; lia.
Qed.

(** Nobody at this place can be granted any more. *)
Definition settled b (e : Z * Z) : Prop := forall ev, ~ grantable ports b e.1 e.2 ev.

Lemma settled_busier b b' e : busier b b' -> settled b e -> settled b' e.
Proof. intros Hb He ev H. by eapply He, grantable_back. Qed.

Lemma grant_settles b b' port vc ev vc' :
  xbar_arrays n b -> head_of ports port vc = Ok (Some ev) -> grant port vc ev b = Ok b' -> settled b' (port, vc').
Proof.
  intros Hb Hh Hg ev' (_ & (i & Hi & Hle) & _). destruct (grant_Ok b port vc ev Hb Hh) as (np & _ & Hnp & E).
  rewrite E in Hg. injection Hg as <-. pose proof (head_ready _ _ _ Hh) as (Hp & _ & Hs & _). destruct Hb as [Hb _ _].
  cbn in Hi. rewrite at_index_insert in Hi by lia. injection Hi as <-. lia.
Qed.

(** All heads looked at and all ports marked: that is a matching. *)
Lemma granting_matches b gs b' :
  xbar_arrays n b -> granting ports b gs b' -> (forall port, 0 <= port < Z.of_nat n -> marked gs b' port) ->
  (forall port vc, 0 <= port < Z.of_nat n -> 0 <= vc < Z.of_nat m -> settled b' (port, vc)) ->
  matching ports n b gs b'.
Proof.
  intros Hb H Hm Hs. destruct (granting_done b gs b' Hb H) as [Ha _ Hp Ht Hg Hi Hf]. constructor; try done.
  - intros port Hport Hn. split; [by apply Hi|]. by destruct (Hm port Hport) as [?|?].
  - intros port vc ev _ Hgr. pose proof Hgr as (Hh & _). apply head_ready in Hh as (Hport & Hvc & _).
    by eapply (Hs port vc Hport Hvc).
Qed.
(** ** Least recently used *)

Definition in_range (e : Z * Z) : Prop := 0 <= e.1 < Z.of_nat n /\ 0 <= e.2 < Z.of_nat m.

Lemma head_in_range e : in_range e -> exists h, head_of ports e.1 e.2 = Ok h.
Proof.
  intros [Hp Hv]. unfold head_of. destruct (at_index_in_range ports e.1) as [p E]; [by rewrite Hlen|].
  rewrite E. cbn [mbind res_bind]. apply at_index_Ok in E as [_ E]. rewrite Forall_forall in Hready.
  apply at_index_in_range. by rewrite (rp_heads _ _ _ (Hready _ (list_elem_of_lookup_2 _ _ _ E))).
Qed.

Lemma set_middle {B} (l1 : list B) x l2 y i :
  i = Z.of_nat (length l1) -> set_index (l1 ++ x :: l2) i y = Ok (l1 ++ y :: l2).
Proof.
  intros ->. rewrite set_index_in_range by (rewrite length_app; cbn; lia). rewrite Nat2Z.id.
  by rewrite insert_app_r_alt, Nat.sub_diag by done.
Qed.

Lemma filter_agree {B} (P1 P2 : B -> Prop) `{!forall x, Decision (P1 x)} `{!forall x, Decision (P2 x)} (l : list B) :
  (forall x, x ∈ l -> P1 x <-> P2 x) -> filter P1 l = filter P2 l.
Proof.
  induction l as [|x l IH]; intros Hag; [done|]. rewrite !filter_cons, IH by (intros; apply Hag; by right).
  pose proof (Hag x ltac:(by left)). repeat case_decide; tauto || done.
Qed.

(** Who was granted, and the list the walk leaves behind. *)
Definition entries gs : list (Z * Z) := gs.*1.
Definition walked gs (l : list (Z * Z)) : list (Z * Z) := filter (fun e => e ∉ entries gs) l ++ reverse (entries gs).

Lemma walked_skip gs e l : e ∉ l -> entries gs ⊆ l -> walked gs (e :: l) = e :: walked gs l.
Proof. intros He Hs. unfold walked. rewrite filter_cons_True; [done|]. intros H. by apply He, Hs. Qed.

Lemma walked_grant gs e ev l : e ∉ l -> walked ((e, ev) :: gs) (e :: l) = walked gs l ++ [e].
Proof.
  intros He. unfold walked, entries. rewrite fmap_cons, reverse_cons. cbn [fst].
  rewrite filter_cons_False by set_solver. rewrite <- app_assoc. f_equal.
  apply filter_agree. intros x Hx. set_solver.
Qed.

(** Who could have been granted and was not had somebody granted ahead of it. *)
Definition in_turn (l : list (Z * Z)) b gs : Prop :=
  forall l1 e l2, l = l1 ++ e :: l2 -> ~ settled b e -> e ∉ entries gs -> exists g, g ∈ l1 /\ g ∈ entries gs.

Lemma in_turn_skip e l b b2 gs :
  (forall e', settled b2 e' -> settled b e') -> settled b2 e -> in_turn l b2 gs -> in_turn (e :: l) b gs.
Proof.
  intros Hb He Ht [|x l1] e' l2 [= -> ->] Hn Hg; [by exfalso; apply Hn, Hb|].
  destruct (Ht l1 e' l2 eq_refl) as (g & Hg1 & Hg2); [by auto|done|]. exists g. split; [by right|done].
Qed.
Lemma in_turn_grant e ev l b gs : in_turn (e :: l) b ((e, ev) :: gs).
Proof.
  intros [|x l1] e' l2 [= -> ->] _ Hg; [by exfalso; apply Hg; left|]. exists x. split; left.
Qed.

Lemma walk_spec l : forall b b1 gs U M R,
  xbar_arrays n b -> granting ports b gs b1 -> (forall p, 0 <= p < Z.of_nat n -> marked gs b1 p) ->
  Forall in_range l -> NoDup l -> length M = length l ->
  exists b' gs',
    XbarLru.walk l ports (Z.of_nat (length U + length M) - 1) (Z.of_nat (length U)) (U ++ M ++ R) b1
      = Ok (b', U ++ walked gs' l ++ R) /\
    granting ports b (gs ++ gs') b' /\ busier b1 b' /\ entries gs' ⊆ l /\
    (forall p, 0 <= p < Z.of_nat n -> marked (gs ++ gs') b' p) /\ Forall (settled b') l /\ in_turn l b1 gs'.
Proof.
  induction l as [|[port vc] l IH]; intros b b1 gs U M R Hb Hg Hm Hr Hnd HM.
  { destruct M; [|done]. exists b1, []. rewrite app_nil_r. cbn. split_and!; try done. by intros []. }
  pose proof (granting_done b gs b1 Hb Hg) as Hd. pose proof (gd_arrays _ _ _ Hd) as Hb1.
  inversion Hr as [|? ? Hre Hrl]; subst. inversion Hnd as [|? ? Hni Hndl]; subst.
  destruct (head_in_range (port, vc) Hre) as [h Eh]. cbn [fst snd] in Eh.
  destruct (at_index_in_range (in_port_busy b1) port) as [busy Ebusy]; [rewrite (xa_in _ _ Hb1); apply Hre|].
  cbn [XbarLru.walk]. rewrite Eh. cbn [mbind res_bind]. rewrite Ebusy. cbn [mbind res_bind].
  assert (forall b2, granting ports b gs b2 -> (forall p, 0 <= p < Z.of_nat n -> marked gs b2 p) -> busier b1 b2 ->
    (forall e', settled b2 e' -> settled b1 e') -> settled b2 (port, vc) -> exists next b' gs',
      set_index (U ++ M ++ R) (Z.of_nat (length U)) (port, vc) = Ok next /\
      XbarLru.walk l ports (Z.of_nat (length U + length M) - 1) (Z.of_nat (length U) + 1) next b2
        = Ok (b', U ++ walked gs' ((port, vc) :: l) ++ R) /\
      granting ports b (gs ++ gs') b' /\ busier b1 b' /\ entries gs' ⊆ (port, vc) :: l /\
      (forall p, 0 <= p < Z.of_nat n -> marked (gs ++ gs') b' p) /\ Forall (settled b') ((port, vc) :: l) /\
      in_turn ((port, vc) :: l) b1 gs') as Hskip.
  { intros b2 Hg2 Hm2 Hbus Hsame Hs2. destruct M as [|x M]; [done|]. injection HM as HM.
    exists (U ++ (port, vc) :: M ++ R). destruct (IH b b2 gs (U ++ [(port, vc)]) M R Hb Hg2 Hm2 Hrl Hndl HM) as (b' & gs' & E & Hg' & Hbus' & Hsub & Hm' & Hs' & Ht').
    exists b', gs'. split; [by apply set_middle|]. rewrite length_app in E. cbn [length] in *. rewrite <- !app_assoc in E. cbn [app] in E.
    replace (Z.of_nat (length U) + 1) with (Z.of_nat (length U + 1)) by lia.
    replace (Z.of_nat (length U + S (length M)) - 1) with (Z.of_nat (length U + 1 + length M) - 1) by lia.
    rewrite walked_skip by done. split_and!; [exact E|done|by etrans|set_solver|done| |by eapply in_turn_skip].
    constructor; [by eapply settled_busier|done]. }
  destruct h as [ev|].
  2:{ destruct (Hskip b1) as (next & b' & gs' & -> & E & H); [done|done|done|done|intros ev (Hh & _); cbn in Hh; congruence|].
      cbn [mbind res_bind]. by exists b', gs'. }
  destruct (Z.leb_spec busy 0) as [Hle|Hlt].
  2:{ destruct (Hskip b1) as (next & b' & gs' & -> & E & H); [done|done|done|done|intros ev' (_ & (i & Hi & Hile) & _); cbn in Hi; rewrite Ebusy in Hi; injection Hi; lia|].
      cbn [mbind res_bind]. by exists b', gs'. }
  destruct (can_progress_Ok b1 port vc ev Hb1 Eh) as [ok Eok]. rewrite Eok. cbn [mbind res_bind].
  assert (grantable ports b1 port vc ev <-> ok = true) as Hgrant.
  { split; [intros (_ & _ & H); congruence|intros ->; split_and!; eauto]. }
  destruct ok.
  - destruct (grant_Ok b1 port vc ev Hb1 Eh) as (np & _ & _ & E2).
    destruct (grant port vc ev b1) as [b2|] eqn:Eg; [clear E2|done]. cbn [mbind res_bind].
    assert (granting ports b (gs ++ [(port, vc, ev)]) b2) as Hg2 by (eapply grant_head; [done|by apply Hgrant|done]).
    pose proof (gd_arrays _ _ _ (granting_done _ _ _ Hb Hg2)) as Hb2.
    assert (exists M' x, M = M' ++ [x]) as (M' & x & ->).
    { destruct M as [|y M'' _] using rev_ind; [done|]. by eexists _, _. }
    rewrite length_app in HM. cbn [length] in HM.
    destruct (IH b b2 (gs ++ [(port, vc, ev)]) U M' ((port, vc) :: R)) as (b' & gs' & E & Hg' & Hbus' & Hsub & Hm' & Hs' & _);
      [done|done|intros p Hp; exact (marked_grant _ b1 b2 port vc ev p Hb1 Eh Eg (Hm p Hp))|done|done|lia|].
    exists b', ((port, vc, ev) :: gs'). rewrite length_app. cbn [length]. rewrite <- !app_assoc. cbn [app].
    replace (U ++ M' ++ x :: R) with ((U ++ M') ++ x :: R) by by rewrite <- app_assoc.
    rewrite set_middle by (rewrite length_app; lia). cbn [mbind res_bind]. rewrite <- app_assoc.
    replace (Z.of_nat (length U + (length M' + 1)) - 1 - 1) with (Z.of_nat (length U + length M') - 1) by lia.
    rewrite E, (cons_middle (port, vc, ev)), app_assoc. rewrite walked_grant by done. rewrite <- !app_assoc in *. cbn [app] in *.
    assert (busier b1 b2) as Hbus by by eapply grant_busier.
    split_and!; [done|done|by etrans|set_solver|done| |apply in_turn_grant]. constructor; [|done].
    exact (settled_busier _ _ _ Hbus' (grant_settles b1 b2 port vc ev vc Hb1 Eh Eg)).
  - assert (0 <= port < Z.of_nat n) as Hp by apply Hre.
    rewrite (set_progress_Ok b1 port (-2) Hb1 Hp).
    destruct (Hskip (b1 <| progress_vcs := <[Z.to_nat port := -2]> (progress_vcs b1) |>)) as (next & b' & gs' & -> & E & H).
    + eapply (grant_mark ports b gs b1 port (-2)); [exact Hg| |lia|by eapply set_progress_Ok]. by eapply free_port.
    + intros p Hpr. apply marked_set; [lia|done|done|left; by apply Hm].
    + apply busier_set.
    + intros e' He' ev' Hgr. by apply (He' ev').
    + eapply settled_busier; [apply busier_set|]. intros ev' Hgr. pose proof Hgr as (Hh & _). cbn in Hh.
      rewrite Eh in Hh. injection Hh as <-. by apply Hgrant in Hgr.
    + cbn [mbind res_bind]. by exists b', gs'.
Qed.

Lemma clear_spec b k :
  xbar_arrays n b -> (k <= n)%nat ->
  exists b', XbarLru.clear k b = Ok b' /\ granting ports b [] b' /\ xbar_arrays n b' /\
    (forall e, settled b' e -> settled b e) /\ forall p, 0 <= p < Z.of_nat k -> marked [] b' p.
Proof.
  intros Hb. induction k as [|k IH]; intros Hk.
  - exists b. split_and!; [done|constructor|done|done|lia].
  - destruct IH as (b1 & E & Hg & Hb1 & Hset & Hm); [lia|]. cbn [XbarLru.clear]. rewrite E. cbn [mbind res_bind].
    assert (0 <= Z.of_nat k < Z.of_nat n) as Hp by lia. pose proof (set_progress_Ok b1 (Z.of_nat k) (-1) Hb1 Hp) as Es.
    rewrite Es. eexists. split; [done|]. split; [|split; [|split]].
    + eapply (grant_mark ports b [] b1 (Z.of_nat k) (-1)); [done|set_solver|lia|done].
    + destruct Hb1 as [H1 H2 H3]. constructor; cbn; [done..|]. by rewrite length_insert.
    + intros e He. apply Hset. intros ev Hgr. by apply (He ev).
    + intros p Hpr. apply marked_set; [lia|done|done|]. destruct (decide (p = Z.of_nat k)); [by right|left; apply Hm; lia].
Qed.

(** The state of the arbitration: each head has one place in the list. *)
Definition all_entries (n m : nat) : list (Z * Z) := i ← seqZ 0 (Z.of_nat n); j ← seqZ 0 (Z.of_nat m); [(i, j)].
Record lru_ok (n m : nat) (a : XbarLru.t) : Prop := {
  lo_ports : XbarLru.num_ports a = Z.of_nat n;
  lo_vcs : XbarLru.num_vcs a = Z.of_nat m;
  lo_cur : XbarLru.cur_list a ≡ₚ all_entries n m;
  lo_next : length (XbarLru.next_list a) = length (all_entries n m)
}.

Lemma elem_of_all_entries e : e ∈ all_entries n m <-> in_range e.
Proof.
  clear Hready Hlen.
  unfold all_entries, in_range. setoid_rewrite list_elem_of_bind. setoid_rewrite list_elem_of_bind.
  setoid_rewrite elem_of_seqZ. setoid_rewrite list_elem_of_singleton. destruct e as [p v]. cbn.
  split; [intros (i & (j & [= -> ->] & Hj) & Hi); lia|intros [H1 H2]; exists p; split; [|lia]; exists v; split; [done|lia]].
Qed.

Lemma NoDup_all_entries n' m' : NoDup (all_entries n' m').
Proof.
  apply NoDup_bind; [| |apply NoDup_seqZ].
  - intros i1 i2 e _ _ (j1 & He1 & _)%list_elem_of_bind (j2 & He2 & _)%list_elem_of_bind.
    apply list_elem_of_singleton in He1, He2. congruence.
  - intros i _. apply NoDup_bind; [|intros; apply NoDup_singleton|apply NoDup_seqZ].
    intros j1 j2 e _ _ He1%list_elem_of_singleton He2%list_elem_of_singleton. congruence.
Qed.

Lemma walked_perm gs l : NoDup l -> NoDup (entries gs) -> entries gs ⊆ l -> walked gs l ≡ₚ l.
Proof.
  intros Hl Hg Hs. unfold walked. rewrite reverse_Permutation. apply NoDup_Permutation; [|done|].
  - apply NoDup_app. split_and!; [by apply NoDup_filter| |done]. intros x [? _]%list_elem_of_filter. done.
  - intros x. rewrite elem_of_app, list_elem_of_filter. destruct (decide (x ∈ entries gs)); set_solver.
Qed.

(** The arbitration as a whole. *)
Lemma lru_arbitrate_spec a b :
  lru_ok n m a -> xbar_arrays n b ->
  exists b' gs, XbarLru.arbitrate ports b a
      = Ok (b', a <| XbarLru.cur_list := walked gs (XbarLru.cur_list a) |> <| XbarLru.next_list := XbarLru.cur_list a |>) /\
    entries gs ⊆ XbarLru.cur_list a /\ matching ports n b gs b' /\ in_turn (XbarLru.cur_list a) b gs.
Proof.
  intros [Hn Hm Hcur Hnext] Hb. unfold XbarLru.arbitrate. rewrite Hn, Nat2Z.id.
  destruct (clear_spec b n Hb) as (b1 & -> & Hg1 & Hb1 & Hset & Hmk); [lia|]. cbn [mbind res_bind].
  destruct (walk_spec (XbarLru.cur_list a) b b1 [] [] (XbarLru.next_list a) []) as (b' & gs & E & Hg & _ & Hsub & Hmk' & Hs & Ht).
  - done.
  - done.
  - done.
  - apply Forall_forall. intros e. by rewrite Hcur, elem_of_all_entries.
  - rewrite Hcur. apply NoDup_all_entries.
  - by rewrite Hcur.
  - cbn [length Nat.add app] in E. rewrite !app_nil_r in E. change (Z.of_nat 0) with 0 in E. rewrite E. cbn [mbind res_bind].
    eexists _, gs. split; [done|]. split; [done|]. split; [apply granting_matches; [done|done|done|]|].
    2:{ intros l1 e l2 El Hn' Hne. apply (Ht l1 e l2 El); [|done]. intros He. by apply Hn', Hset. }
    intros p v Hp Hv. rewrite Forall_forall in Hs. apply Hs. rewrite Hcur, elem_of_all_entries. done.
Qed.

Lemma matching_entries_NoDup b gs b' : matching ports n b gs b' -> NoDup (entries gs).
Proof.
  intros [_ Hp _ _ _ _ _]. unfold entries, granted_port in *. apply (NoDup_fmap_1 fst). by rewrite <- list_fmap_compose.
Qed.

Lemma lru_keeps_ok a b gs b' :
  lru_ok n m a -> entries gs ⊆ XbarLru.cur_list a -> matching ports n b gs b' ->
  lru_ok n m (a <| XbarLru.cur_list := walked gs (XbarLru.cur_list a) |> <| XbarLru.next_list := XbarLru.cur_list a |>).
Proof.
  intros [Hn Hm Hcur Hnext] Hs Hma. constructor; cbn; try done.
  - rewrite walked_perm; [done| |by eapply matching_entries_NoDup|done]. rewrite Hcur. apply NoDup_all_entries.
  - by rewrite Hcur.
Qed.
(** ** Round robin *)

(** The places a round-robin loop looks at, from one on. *)
Fixpoint cyc (size : Z) (k : nat) (i : Z) : list Z :=
  match k with O => [] | S k' => i :: cyc size k' (if negb (i =? size - 1) then i + 1 else 0) end.

Lemma cyc_up size k i : i + Z.of_nat k <= size -> cyc size k i = seqZ i (Z.of_nat k).
Proof.
  revert i. induction k as [|k IH]; intros i Hi; [done|]. cbn [cyc]. rewrite seqZ_cons by lia.
  destruct (Z.eqb_spec i (size - 1)) as [->|Hne]; cbn [negb].
  - replace k with 0%nat by lia. cbn. by rewrite seqZ_nil by lia.
  - rewrite IH by lia. do 2 f_equal; lia.
Qed.

Lemma cyc_wrap size k i : 0 <= i < size -> cyc size (Z.to_nat (size - i) + k) i = seqZ i (size - i) ++ cyc size k 0.
Proof.
  intros Hi. remember (Z.to_nat (size - i)) as d eqn:Hd. revert i Hi Hd. induction d as [|d IH]; intros i Hi Hd; [lia|].
  cbn [Nat.add cyc]. rewrite seqZ_cons by lia. cbn [app]. f_equal.
  destruct (Z.eqb_spec i (size - 1)) as [->|Hne]; cbn [negb].
  - replace d with 0%nat by lia. by rewrite seqZ_nil by lia.
  - rewrite IH by lia. do 2 f_equal; lia.
Qed.

Lemma cyc_all size i : 0 <= i < Z.of_nat size -> cyc (Z.of_nat size) size i ≡ₚ seqZ 0 (Z.of_nat size).
Proof.
  intros Hi. replace size with (Z.to_nat (Z.of_nat size - i) + Z.to_nat i)%nat at 2 by lia.
  rewrite cyc_wrap, cyc_up by lia. rewrite Z2Nat.id by lia. rewrite Permutation_app_comm.
  replace (Z.of_nat size) with (i + (Z.of_nat size - i)) at 2 by lia. rewrite seqZ_app by lia. done.
Qed.

(** The loop over the channels of a port grants the first head it can, or finds
    that there is none. *)
Lemma vc_loop_spec k vc : forall b b1 gs port,
  xbar_arrays n b -> granting ports b gs b1 -> 0 <= port < Z.of_nat n ->
  (exists i, at_index (in_port_busy b1) port = Ok i /\ i <= 0) -> Forall (fun v => 0 <= v < Z.of_nat m) (cyc (Z.of_nat m) k vc) ->
  exists b' gs', XbarRR.vc_loop k (Z.of_nat m) ports port vc b1 = Ok b' /\
    granting ports b (gs ++ gs') b' /\ busier b1 b' /\ granted_port <$> gs' ⊆ [port] /\
    (forall p, marked gs b1 p -> marked (gs ++ gs') b' p) /\
    Forall (fun v => settled b' (port, v)) (cyc (Z.of_nat m) k vc).
Proof.
  revert vc. induction k as [|k IH]; intros vc b b1 gs port Hb Hg Hp Hi Hr; cbn [cyc XbarRR.vc_loop] in *.
  { exists b1, []. rewrite app_nil_r. split_and!; try done. set_solver. }
  apply Forall_cons in Hr as [Hvc Hr']. destruct (head_in_range (port, vc)) as [h Eh]; [done|]. cbn [fst snd] in Eh.
  rewrite Eh. cbn [mbind res_bind].
  pose proof (gd_arrays _ _ _ (granting_done _ _ _ Hb Hg)) as Hb1.
  destruct (IH _ b b1 gs port Hb Hg Hp Hi Hr') as (b' & gs' & E & Hg' & Hbus & Hsub & Hmk & Hs).
  assert (settled b1 (port, vc) -> Forall (fun v => settled b' (port, v)) (vc :: cyc (Z.of_nat m) k (if negb (vc =? Z.of_nat m - 1) then vc + 1 else 0)))
    as Hskip by (intros H; constructor; [by eapply settled_busier|done]).
  destruct h as [ev|].
  2:{ exists b', gs'. split_and!; try done. apply Hskip. intros ev (Hh & _). cbn in Hh. congruence. }
  destruct (can_progress_Ok b1 port vc ev Hb1 Eh) as [ok Eok]. rewrite Eok. cbn [mbind res_bind]. destruct ok.
  - clear dependent b'. destruct (grant_Ok b1 port vc ev Hb1 Eh) as (np & _ & _ & E2).
    destruct (grant port vc ev b1) as [b2|] eqn:Eg; [clear E2|done].
    exists b2, [(port, vc, ev)]. split; [done|]. split; [eapply grant_head; [done|by split_and!|done]|].
    split; [by eapply grant_busier|]. split; [done|].
    split; [intros p Hm; by eapply marked_grant|]. apply Forall_forall. intros v _. by eapply grant_settles.
  - exists b', gs'. split_and!; try done. apply Hskip. intros ev' (Hh & _ & Hc). cbn in Hh. rewrite Eh in Hh.
    injection Hh as <-. congruence.
Qed.

Record rr_ok (n m : nat) (a : XbarRR.t) : Prop := {
  ro_size : (0 < n)%nat /\ (0 < m)%nat /\ Z.of_nat n < 2 ^ 31 /\ Z.of_nat m < 2 ^ 31;
  ro_ports : XbarRR.num_ports a = Z.of_nat n;
  ro_num : XbarRR.num_vcs a = Z.of_nat m;
  ro_vcs : length (XbarRR.rr_vcs a) = n /\ Forall (fun v => 0 <= v < Z.of_nat m) (XbarRR.rr_vcs a);
  ro_port : 0 <= XbarRR.rr_port a < Z.of_nat n
}.
Lemma rr_next_ok a p v :
  rr_ok n m a -> 0 <= p < Z.of_nat n -> at_index (XbarRR.rr_vcs a) p = Ok v ->
  0 <= v < Z.of_nat m /\ int_rem (v + 1) (XbarRR.num_vcs a) = Ok ((v + 1) mod Z.of_nat m) /\
  set_index (XbarRR.rr_vcs a) p ((v + 1) mod Z.of_nat m) = Ok (<[Z.to_nat p := (v + 1) mod Z.of_nat m]> (XbarRR.rr_vcs a)) /\
  rr_ok n m (a <| XbarRR.rr_vcs := <[Z.to_nat p := (v + 1) mod Z.of_nat m]> (XbarRR.rr_vcs a) |>).
Proof.
  intros [(H1 & H2 & H3 & H4) Hn Hm [Hl Hv] Hp] Hpr [_ E]%at_index_Ok.
  assert (0 <= v < Z.of_nat m) as Hvr by exact (Forall_lookup_1 _ _ _ _ Hv E).
  split; [done|]. split; [rewrite Hm; apply int_rem_Ok; lia|]. split; [apply set_index_in_range; lia|].
  constructor; cbn; try done. split; [by rewrite length_insert|]. apply Forall_insert; [done|]. apply Z.mod_pos_bound. lia.
Qed.

(** The loop over the ports looks at each of the places ahead of it once. *)
Lemma port_loop_spec k port : forall a b b1 gs,
  rr_ok n m a -> xbar_arrays n b -> granting ports b gs b1 -> NoDup (cyc (Z.of_nat n) k port) ->
  Forall (fun p => 0 <= p < Z.of_nat n /\ p ∉ granted_port <$> gs) (cyc (Z.of_nat n) k port) ->
  exists b' a' gs', XbarRR.port_loop k ports port b1 a = Ok (b', a') /\
    granting ports b (gs ++ gs') b' /\ busier b1 b' /\ rr_ok n m a' /\ XbarRR.rr_port a' = XbarRR.rr_port a /\
    (forall p, marked gs b1 p -> marked (gs ++ gs') b' p) /\
    Forall (fun p => marked (gs ++ gs') b' p /\ forall vc, 0 <= vc < Z.of_nat m -> settled b' (p, vc)) (cyc (Z.of_nat n) k port).
Proof.
  revert port. induction k as [|k IH]; intros port a b b1 gs Ha Hb Hg Hnd Hr; cbn [cyc XbarRR.port_loop] in *.
  { exists b1, a, []. rewrite app_nil_r. by split_and!. }
  rewrite (ro_ports _ _ _ Ha). set (next := if negb (port =? Z.of_nat n - 1) then port + 1 else 0) in *.
  apply Forall_cons in Hr as [[Hport Hfresh] Hr]. apply NoDup_cons in Hnd as [Hni Hnd].
  pose proof (gd_arrays _ _ _ (granting_done _ _ _ Hb Hg)) as Hb1.
  rewrite (set_progress_Ok b1 port (-1) Hb1 Hport). cbn [mbind res_bind].
  set (b2 := b1 <| progress_vcs := <[Z.to_nat port := -1]> (progress_vcs b1) |>).
  assert (granting ports b gs b2) as Hg2.
  { eapply (grant_mark ports b gs b1 port (-1)); [exact Hg|done|lia|by eapply set_progress_Ok]. }
  pose proof (gd_arrays _ _ _ (granting_done _ _ _ Hb Hg2)) as Hb2.
  assert (forall p, marked gs b1 p \/ p = port -> marked gs b2 p) as Hm2 by (intros; by apply marked_set).
  destruct (at_index_in_range (in_port_busy b2) port) as [busy Ebusy]; [by rewrite (xa_in _ _ Hb2)|]. rewrite Ebusy. cbn [mbind res_bind].
  assert (forall a3 b3 gs3, rr_ok n m a3 -> XbarRR.rr_port a3 = XbarRR.rr_port a -> granting ports b (gs ++ gs3) b3 ->
    busier b1 b3 -> granted_port <$> gs3 ⊆ [port] -> (forall p, marked gs b2 p -> marked (gs ++ gs3) b3 p) ->
    (forall vc, 0 <= vc < Z.of_nat m -> settled b3 (port, vc)) ->
    exists b' a' gs', XbarRR.port_loop k ports next b3 a3 = Ok (b', a') /\
      granting ports b (gs ++ gs') b' /\ busier b1 b' /\ rr_ok n m a' /\ XbarRR.rr_port a' = XbarRR.rr_port a /\
      (forall p, marked gs b1 p -> marked (gs ++ gs') b' p) /\
      Forall (fun p => marked (gs ++ gs') b' p /\ forall vc, 0 <= vc < Z.of_nat m -> settled b' (p, vc)) (port :: cyc (Z.of_nat n) k next)) as Hgo.
  { intros a3 b3 gs3 Ha3 Hp3 Hg3 Hb3 Hs3 Hm3 Hset. destruct (IH next a3 b b3 (gs ++ gs3)) as (b' & a' & gs' & E & Hg' & Hb' & Ha' & Hp' & Hm' & Hs'); try done.
    - apply Forall_forall. intros p Hp. rewrite Forall_forall in Hr. destruct (Hr p Hp) as [Hpr Hpf]. split; [done|].
      rewrite fmap_app. intros [?|Hin]%elem_of_app; [done|]. apply Hs3, list_elem_of_singleton in Hin as ->. done.
    - exists b', a', (gs3 ++ gs'). rewrite app_assoc. split_and!; try done; [by etrans|congruence|eauto|].
      constructor; [|done]. split; [eauto|]. intros vc Hvc. by eapply settled_busier; [|apply Hset]. }
  destruct (Z.ltb_spec 0 busy) as [Hlt|Hle].
  - apply (Hgo a b2 []); rewrite ?app_nil_r; try done; [apply busier_set|apply list_subseteq_nil|].
    intros vc _ ev (_ & (i & Hi & Hile) & _). cbn [fst] in Hi; rewrite Ebusy in Hi; injection Hi; lia.
  - destruct (at_index_in_range (XbarRR.rr_vcs a) port) as [vc Evc]; [rewrite (proj1 (ro_vcs _ _ _ Ha)); done|].
    rewrite Evc. cbn [mbind res_bind]. destruct (rr_next_ok a port vc Ha Hport Evc) as (Hvc & Erem & Eset & Ha3).
    rewrite (ro_num _ _ _ Ha) in *. rewrite Nat2Z.id.
    destruct (vc_loop_spec m vc b b2 gs port) as (b3 & gs3 & E3 & Hg3 & Hb3 & Hs3 & Hm3 & Hset); try done; [eauto|..].
    + apply Forall_forall. intros v. rewrite (cyc_all m vc Hvc), elem_of_seqZ. lia.
    + rewrite E3. cbn [mbind res_bind]. rewrite Erem. cbn [mbind res_bind]. rewrite Eset. cbn [mbind res_bind].
      apply (Hgo _ b3 gs3); try done. intros v Hv. rewrite Forall_forall in Hset. apply Hset. rewrite (cyc_all m vc Hvc), elem_of_seqZ. lia.
Qed.

Lemma rr_arbitrate_spec a b :
  rr_ok n m a -> xbar_arrays n b ->
  exists b' a' gs, XbarRR.arbitrate ports b a = Ok (b', a') /\ rr_ok n m a' /\
    XbarRR.rr_port a' = (XbarRR.rr_port a + 1) mod Z.of_nat n /\ matching ports n b gs b'.
Proof.
  intros Ha Hb. pose proof (ro_port _ _ _ Ha) as Hp. pose proof (cyc_all n _ Hp) as Hall.
  destruct (port_loop_spec n (XbarRR.rr_port a) a b b []) as (b' & a' & gs & E & Hg & _ & Ha' & Hp' & _ & Hs); try done.
  - constructor.
  - rewrite Hall. apply NoDup_seqZ.
  - apply Forall_forall. intros p. rewrite Hall, elem_of_seqZ. split; [lia|set_solver].
  - unfold XbarRR.arbitrate. rewrite (ro_ports _ _ _ Ha), Nat2Z.id, E. cbn [mbind res_bind].
    destruct (ro_size _ _ _ Ha) as (H1 & H2 & H3 & H4).
    rewrite (ro_ports _ _ _ Ha'), Hp', int_rem_Ok by lia. cbn [mbind res_bind]. eexists b', _, gs. split; [done|].
    pose proof (Z.mod_pos_bound (XbarRR.rr_port a + 1) (Z.of_nat n) ltac:(lia)). cbn.
    split; [destruct Ha'; by constructor|]. split; [done|]. rewrite Forall_forall in Hs.
    apply granting_matches; [done|done|..].
    + intros p Hpr. apply (Hs p). rewrite Hall, elem_of_seqZ. lia.
    + intros p v Hpr Hv. apply (Hs p); [|done]. rewrite Hall, elem_of_seqZ. lia.
Qed.
End granting.

#[export] Instance xbar_lru_laws {D A} : XbarLaws XbarLru.t D A.
Proof.
  refine {| xbar_ok := lru_ok |}. intros n m ports b a Ha Hlen Hready Hb.
  destruct (lru_arbitrate_spec n m ports Hlen Hready a b Ha Hb) as (b' & gs & E & Hs & Hm & _).
  eexists b', _, gs. split; [exact E|]. split; [by eapply lru_keeps_ok|done].
Defined.

#[export] Instance xbar_rr_laws {D A} : XbarLaws XbarRR.t D A.
Proof.
  refine {| xbar_ok := rr_ok |}. intros n m ports b a Ha Hlen Hready Hb.
  destruct (rr_arbitrate_spec n m ports Hlen Hready a b Ha Hb) as (b' & a' & gs & E & Ha' & _ & Hm). eauto 6.
Defined.
