(* ===== verification/XbarFair.v ===== *)
(** * XbarFair: what the crossbar arbitrations promise over time

    Cycle after cycle an arbitration makes a maximal matching. The
    least-recently-used arbitration never starves a packet; the round robin does,
    although it gives every port the first pick in turn. *)

From S2P Require Import Prelude Merlin Arbitration PortControl XbarArb XbarMatch.

(** ** Rounds *)

Section rounds.
Context {D A : Type}.
Abbreviation input := (list (Port D A) * Xbar)%type.
Implicit Types (inputs : list input) (b : Xbar).

(** One arbitration after the other, each with the ports and arrays of its cycle. *)
Fixpoint rounds {X} {HX : XbarArbitration X D A} inputs (a : X) : res (list Xbar * X) :=
  match inputs with
  | [] => Ok ([], a)
  | (ports, b) :: inputs' =>
      '(b', a) ← xbar_arbitrate ports b a; '(outs, a) ← rounds inputs' a; Ok (b' :: outs, a)
  end.

(** A cycle in which the head of a virtual channel of a port could go. *)
Record wants (n m : nat) (port vc : Z) (i : input) : Prop := {
  wa_count : length i.1 = n;
  wa_ready : Forall (port_ready n m) i.1;
  wa_arrays : xbar_arrays n i.2;
  wa_grantable : exists ev, grantable i.1 i.2 port vc ev
}.

Lemma bind_ext_in {B} (f g : Z -> list B) l : (forall z, z ∈ l -> f z = g z) -> l ≫= f = l ≫= g.
Proof. induction l as [|z l IH]; intros H; [done|]. cbn. rewrite H, IH; [done| |by left]. intros. apply H. by right. Qed.

Lemma length_bind_const {B} (f : Z -> list B) l k : (forall z, length (f z) = k) -> length (l ≫= f) = (length l * k)%nat.
Proof. intros H. induction l as [|z l IH]; [done|]. cbn. by rewrite length_app, H, IH. Qed.

Lemma length_all_entries n m : length (all_entries n m) = (n * m)%nat.
Proof.
  unfold all_entries. rewrite (length_bind_const _ _ m); [by rewrite length_seqZ, Nat2Z.id|].
  intros i. rewrite (length_bind_const _ _ 1%nat); [|done]. rewrite length_seqZ. lia.
Qed.

Lemma setPorts_lru_ok n m :
  Z.of_nat n < 2 ^ 16 -> Z.of_nat m < 2 ^ 16 -> lru_ok n m (XbarLru.setPorts (Z.of_nat n) (Z.of_nat m)).
Proof.
  intros Hn Hm. constructor; [done|done| |].
  - cbn. unfold all_entries. erewrite bind_ext_in; [done|]. intros i Hi%elem_of_seqZ. apply bind_ext_in. intros j Hj%elem_of_seqZ.
    rewrite !Z.mod_small by lia. done.
  - cbn. by rewrite length_replicate, length_all_entries, !Nat2Z.id.
Qed.

Lemma setPorts_rr_ok n m :
  (0 < n)%nat -> (0 < m)%nat -> Z.of_nat n < 2 ^ 31 -> Z.of_nat m < 2 ^ 31 ->
  rr_ok n m (XbarRR.setPorts (Z.of_nat n) (Z.of_nat m)).
Proof.
  intros. constructor; cbn; try done; [|lia]. rewrite Nat2Z.id, length_replicate. split; [done|].
  apply Forall_replicate. lia.
Qed.

(** C34. Both arbitrations always return. They grant a matching: each grant is to the
    first packet of its virtual channel, from a port and to a port that were free
    and with space for it, no two share a port on either side; and nobody is left
    who could still be granted. *)
Theorem xbar_matching_maximal n m (ports : list (Port D A)) b :
  length ports = n -> Forall (port_ready n m) ports -> xbar_arrays n b ->
  (forall a, lru_ok n m a -> exists b' a' gs,
     XbarLru.arbitrate ports b a = Ok (b', a') /\ lru_ok n m a' /\ matching ports n b gs b') /\
  (forall a, rr_ok n m a -> exists b' a' gs,
     XbarRR.arbitrate ports b a = Ok (b', a') /\ rr_ok n m a' /\ matching ports n b gs b').
Proof.
  intros Hl Hr Hb. split; intros a Ha.
  - exact (xbar_matches n m ports b a Ha Hl Hr Hb).
  - exact (xbar_matches n m ports b a Ha Hl Hr Hb).
Qed.

Lemma rounds_total n m (inputs : list input) (a : XbarLru.t) port vc :
  lru_ok n m a -> Forall (wants n m port vc) inputs -> exists outs a', rounds inputs a = Ok (outs, a').
Proof.
  intros Ha H. revert a Ha. induction H as [|[ports b] inputs [Hl Hr Hb _] _ IH]; intros a Ha; [by eexists _, _|].
  destruct (lru_arbitrate_spec n m ports Hl Hr a b Ha Hb) as (b' & gs & E & Hs & Hma & _). cbn [rounds].
  change (xbar_arbitrate ports b a) with (XbarLru.arbitrate ports b a). rewrite E. cbn [mbind res_bind].
  destruct (IH _ (lru_keeps_ok n m ports Hl Hr a b gs b' Ha Hs Hma)) as (outs & a2 & E2). rewrite E2. by eexists _, _.
Qed.

(** A packet with [l1] ahead of it in the list waits at most as many rounds. *)
Lemma lru_granted_in_turn n m port vc (inputs : list input) : forall a l1 l2,
  lru_ok n m a -> Forall (wants n m port vc) inputs -> XbarLru.cur_list a = l1 ++ (port, vc) :: l2 ->
  (length l1 < length inputs)%nat ->
  exists outs a', rounds inputs a = Ok (outs, a') /\ exists b', b' ∈ outs /\ at_index (progress_vcs b') port = Ok vc.
Proof.
  induction inputs as [|[ports b] inputs IH]; intros a l1 l2 Ha H El Hlt; [cbn in Hlt; lia|].
  apply Forall_cons in H as [[Hl Hr Hb (ev & Hg)] H]. cbn [fst snd] in *.
  destruct (lru_arbitrate_spec n m ports Hl Hr a b Ha Hb) as (b' & gs & E & Hs & Hma & Ht).
  pose proof (lru_keeps_ok n m ports Hl Hr a b gs b' Ha Hs Hma) as Ha'. cbn [rounds]. change (xbar_arbitrate ports b a) with (XbarLru.arbitrate ports b a).
  rewrite E. cbn [mbind res_bind]. destruct (decide ((port, vc) ∈ entries gs)) as [Hin|Hno].
  - destruct (rounds_total n m inputs _ port vc Ha' H) as (outs & a' & E2). rewrite E2. eexists _, _. split; [done|].
    exists b'. split; [by left|]. apply list_elem_of_fmap in Hin as ([e ev'] & He & Hin). cbn in He. subst e.
    by destruct (ma_granted _ _ _ _ _ Hma _ _ _ Hin) as (_ & Hp & _).
  - destruct (Ht l1 (port, vc) l2 El) as (g & Hg1 & Hg2); [intros Hset; by apply (Hset ev)|done|].
    destruct (IH _ (filter (fun e => e ∉ entries gs) l1) (filter (fun e => e ∉ entries gs) l2 ++ reverse (entries gs)) Ha' H) as (outs & a' & E2 & b2 & Hb2 & Hp).
    + cbn. rewrite El. unfold walked. rewrite filter_app, filter_cons_True by done. by rewrite <- app_assoc.
    + cbn in Hlt. assert (length (filter (fun e => e ∉ entries gs) l1) < length l1)%nat; [|lia].
      apply (length_filter_lt _ l1 g Hg1). by intros [].
    + rewrite E2. eexists _, _. split; [done|]. exists b2. split; [by right|done].
Qed.

(** C27. The least-recently-used arbitration starves nobody: a packet that could go in
    each of as many rounds as the router has virtual channels is granted in one of
    them, whatever the others do. *)
Theorem lru_never_starves n m (inputs : list input) (a : XbarLru.t) port vc :
  lru_ok n m a -> 0 <= port < Z.of_nat n -> 0 <= vc < Z.of_nat m ->
  Forall (wants n m port vc) inputs -> (n * m <= length inputs)%nat ->
  exists outs a', rounds inputs a = Ok (outs, a') /\ exists b', b' ∈ outs /\ at_index (progress_vcs b') port = Ok vc.
Proof.
  intros Ha Hp Hv H Hlen. pose proof (lo_cur _ _ _ Ha) as Hc.
  assert ((port, vc) ∈ XbarLru.cur_list a) as (l1 & l2 & El)%list_elem_of_split.
  { rewrite Hc. by apply (proj2 (elem_of_all_entries n m (port, vc))). }
  eapply lru_granted_in_turn; [done|done|exact El|].
  apply Permutation_length in Hc. rewrite El, length_all_entries, length_app in Hc. cbn in Hc. lia.
Qed.
End rounds.

(** ** The round robin starves *)

(** Four ports of two virtual channels; the heads of ports 0 and 1 are packets of
    one flit for port 2, in both channels. *)
Definition flit_to_2 (vc : Z) : internal_router_event unit := mkIre (mkRtrEvent 2 0 0 1) (Some 2) vc None tt.
Definition quiet_port (i : Z) : Port unit unit := initVCs i false [2] 4 8 false false 0 (fun _ => tt).
Definition busy_port (i : Z) : Port unit unit :=
  (quiet_port i) <| input_buf := [[flit_to_2 0]; [flit_to_2 1]] |> <| vc_heads := [Some (flit_to_2 0); Some (flit_to_2 1)] |>.
Definition contended : list (Port unit unit) := Eval vm_compute in [busy_port 0; busy_port 1; quiet_port 2; quiet_port 3].
Definition all_free : Xbar := Eval vm_compute in mkXbar (replicate 4 0) (replicate 4 0) (replicate 4 (-1)).

(** [port_ready] as a test. *)
Definition head_ready_b (n m : nat) (h : option (internal_router_event unit)) : bool :=
  match h with
  | None => true
  | Some ev =>
      (0 <? getFlitCount ev) && (0 <=? ire_vc ev) && (ire_vc ev <? Z.of_nat m) &&
      match next_port ev with Some np => (0 <=? np) && (np <? Z.of_nat n) | None => false end
  end.
Definition port_ready_b (n m : nat) (p : Port unit unit) : bool :=
  (length (vc_heads p) =? m)%nat && (length (xbar_in_credits p) =? m)%nat && forallb (head_ready_b n m) (vc_heads p).

Lemma port_ready_test n m p : port_ready_b n m p = true -> port_ready n m p.
Proof.
  unfold port_ready_b. intros [[H1%Nat.eqb_eq H2%Nat.eqb_eq]%andb_prop H3]%andb_prop. constructor; [done|done|].
  intros vc ev Hev. rewrite forallb_forall in H3. specialize (H3 (Some ev)).
  assert (head_ready_b n m (Some ev) = true) as H by (apply H3, list_elem_of_In; by eapply list_elem_of_lookup_2).
  cbn [head_ready_b] in H. destruct (next_port ev) as [np|]; [|by rewrite andb_false_r in H].
  repeat apply andb_prop in H as [H ?].
  split; [lia|]. split; [lia|]. exists np. split; [done|lia].
Qed.

Lemma contended_wants : wants 4 2 1 0 (contended, all_free).
Proof.
  constructor; [done| |done|].
  - apply List.Forall_forall. intros p Hp. apply port_ready_test.
    assert (forallb (port_ready_b 4 2) contended = true) as H by by vm_compute. rewrite forallb_forall in H. by apply H.
  - exists (flit_to_2 0). split; [done|]. split; [by exists 0|by vm_compute].
Qed.

(** The states the round robin goes through. *)
Definition rr_states : list XbarRR.t :=
  (fun i : Z => XbarRR.mk 4 2 (replicate 4 (i mod 2)) i) <$> [0; 1; 2; 3].

Lemma rr_round a :
  a ∈ rr_states -> exists b' a', XbarRR.arbitrate contended all_free a = Ok (b', a') /\ a' ∈ rr_states /\
    at_index (progress_vcs b') 1 <> Ok 0.
Proof.
  assert (forallb (fun a => match XbarRR.arbitrate contended all_free a with
    | Ok (b', a') => existsb (fun a2 => bool_decide (XbarRR.rr_vcs a' = XbarRR.rr_vcs a2 /\ XbarRR.rr_port a' = XbarRR.rr_port a2 /\
          XbarRR.num_ports a' = XbarRR.num_ports a2 /\ XbarRR.num_vcs a' = XbarRR.num_vcs a2)) rr_states &&
        match at_index (progress_vcs b') 1 with Ok v => negb (v =? 0) | Err _ => true end
    | Err _ => false end) rr_states = true) as H by by vm_compute.
  rewrite forallb_forall in H. intros Ha%list_elem_of_In. specialize (H a Ha).
  destruct (XbarRR.arbitrate contended all_free a) as [[b' a']|]; [|done]. apply andb_prop in H as [H1 H2].
  exists b', a'. split; [done|]. split.
  - apply existsb_exists in H1 as (a2 & H2a%list_elem_of_In & He%bool_decide_eq_true). destruct a', a2; cbn in He.
    by destruct He as (-> & -> & -> & ->).
  - intros E. by rewrite E in H2.
Qed.

Lemma rr_rounds k : forall a, a ∈ rr_states -> exists outs a', rounds (replicate k (contended, all_free)) a = Ok (outs, a') /\
  length outs = k /\ forall b', b' ∈ outs -> at_index (progress_vcs b') 1 <> Ok 0.
Proof.
  induction k as [|k IH]; intros a Ha; [exists [], a; split; [done|]; split; [done|set_solver]|]. cbn [replicate rounds].
  change (xbar_arbitrate contended all_free a) with (XbarRR.arbitrate contended all_free a).
  destruct (rr_round a Ha) as (b' & a1 & -> & Ha1 & Hb). cbn [mbind res_bind]. destruct (IH a1 Ha1) as (outs & a' & E & Hl & Ho).
  rewrite E. cbn [mbind res_bind]. exists (b' :: outs), a'. split; [done|]. split; [cbn; by f_equal|].
  intros b2 [->|Hin]%elem_of_cons; [done|by apply Ho].
Qed.

(** The round-robin arbitration starves a packet for ever: two ports with packets in
    both of their virtual channels, all for one free port with space, and the first
    channel of the second port is never granted, in any number of rounds from the
    start. The first pick goes round the ports and the channels in step, so the port
    has it only when its other channel is first. *)
Theorem rr_starves :
  grantable contended all_free 1 0 (flit_to_2 0) /\
  forall k, exists outs a', rounds (replicate k (contended, all_free)) (XbarRR.setPorts 4 2) = Ok (outs, a') /\
    length outs = k /\ forall b', b' ∈ outs -> at_index (progress_vcs b') 1 <> Ok 0.
Proof.
  split; [split; [done|]; split; [by exists 0|by vm_compute]|]. intros k.
  apply rr_rounds. apply list_elem_of_In. left. by vm_compute.
Qed.

(** ** Witnesses *)

Lemma xbar_matching_maximal_witness :
  (exists b' a' gs, XbarLru.arbitrate contended all_free (XbarLru.setPorts 4 2) = Ok (b', a') /\ lru_ok 4 2 a' /\
     matching contended 4 all_free gs b') /\
  (exists b' a' gs, XbarRR.arbitrate contended all_free (XbarRR.setPorts 4 2) = Ok (b', a') /\ rr_ok 4 2 a' /\
     matching contended 4 all_free gs b').
Proof.
  destruct contended_wants as [H1 H2 H3 _].
  destruct (xbar_matching_maximal 4 2 contended all_free H1 H2 H3) as [Hlru Hrr]. split.
  - apply Hlru, (setPorts_lru_ok 4 2); lia.
  - apply Hrr, (setPorts_rr_ok 4 2); lia.
Defined.

Lemma lru_never_starves_witness :
  exists outs a', rounds (replicate 8 (contended, all_free)) (XbarLru.setPorts 4 2) = Ok (outs, a') /\
    exists b', b' ∈ outs /\ at_index (progress_vcs b') 1 = Ok 0.
Proof.
  apply (lru_never_starves 4 2); [apply (setPorts_lru_ok 4 2); lia|lia|lia| |cbn; lia].
  apply Forall_replicate, contended_wants.
Defined.
