(* ===== verification/HrRouter.v ===== *)
(** * HrRouter: the router

    Models [merlin/hr_router/hr_router.cc], and what it inherits from the class
    [Router] of [merlin/router.h]: the clock that arbitrates the crossbar and moves
    the packets, its suspension while no input port has a packet, and the
    operations of the ports inside the router. The core's clocks are a parameter:
    [reregisterClock now] is the cycle the clock of the router goes on with when it is
    registered again at time [now]. Control events, the init messages and tracing
    are not modelled. *)

From S2P Require Import Prelude Merlin Arbitration PortControl XbarArb.

(** ** State *)

Record Router (T D A X : Type) := mkRouter {
  topo : T;
  ports : list (Port D A);
  xbar : Xbar;
  arb : X;
  xbar_stalls : list Z;
  vcs_with_data : Z;
  requestNotifyOnEvent : bool;
  unclocked_cycle : Z;
  (** the handler is registered with the core's clock *)
  clocked : bool
}.
Arguments mkRouter {T D A X}.
Arguments topo {T D A X}. Arguments ports {T D A X}. Arguments xbar {T D A X}. Arguments arb {T D A X}.
Arguments xbar_stalls {T D A X}. Arguments vcs_with_data {T D A X}. Arguments requestNotifyOnEvent {T D A X}.
Arguments unclocked_cycle {T D A X}. Arguments clocked {T D A X}.
#[export] Instance router_eta T D A X : Eta (Router T D A X) := fun r =>
  mkRouter (topo r) (ports r) (xbar r) (arb r) (xbar_stalls r) (vcs_with_data r) (requestNotifyOnEvent r)
    (unclocked_cycle r) (clocked r).

Section router.
Context {T D A X : Type} {HT : Topology T D} {HA : SingleArbitration A} {HX : XbarArbitration X D A}.
Abbreviation St := (Router T D A X).
Variable reregisterClock : Z -> Z.

(** The arrays of the constructor, all ports idle; the ports come from [initVCs]
    and the arbitration from [setPorts]. *)
Definition new_router (t : T) (ps : list (Port D A)) (a : X) : St :=
  let n := length ps in
  mkRouter t ps (mkXbar (replicate n 0) (replicate n 0) (replicate n (-1))) a (replicate n 0) 0 false 0 true.

(** ** Waking up *)

(** A busy time after some cycles without a clock. *)
Definition skip_busy (elapsed_cycles busy : Z) : Z :=
  let tmp := busy - elapsed_cycles in if tmp <? 0 then 0 else tmp.

Definition notifyEvent (now : Z) : M St unit :=
  modify (fun r => r <| requestNotifyOnEvent := false |> <| clocked := true |>) ;;
  elapsed_cycles ← gets (fun r => reregisterClock now - unclocked_cycle r);
  modify (fun r => r <| xbar ::= fun b =>
    mkXbar (skip_busy elapsed_cycles <$> in_port_busy b) (skip_busy elapsed_cycles <$> out_port_busy b) (progress_vcs b) |>) ;;
  a ← getsR (fun r => reportSkippedCycles elapsed_cycles (arb r));
  modify (fun r => r <| arb := a |>).

(** ** Ports inside the router *)

(** What an action of a port does to the router. *)
Definition port_effect (now : Z) (a : action D) : M St unit :=
  match a with
  | IncVcs => modify (fun r => r <| vcs_with_data ::= Z.add 1 |>)
  | DecVcs => modify (fun r => r <| vcs_with_data ::= Z.add (-1) |>)
  | NotifyRouter => n ← gets requestNotifyOnEvent; when n (notifyEvent now)
  | _ => skip
  end.

(** An operation of port [i], with its effects on the router. *)
Definition at_port {R} (now i : Z) (m : T -> M (Port D A) R) : M St R :=
  p ← getsR (fun r => at_index (ports r) i);
  '(x, p') ← getsR (fun r => m (topo r) p);
  ps ← getsR (fun r => set_index (ports r) i p');
  modify (fun r => r <| ports := ps |>) ;;
  forM (drop (length (actions p)) (actions p')) (port_effect now) ;; mret x.

(** ** The clock *)

Definition add_stall (port : Z) : M St unit :=
  l ← getsR (fun r => add_at (xbar_stalls r) port 1); modify (fun r => r <| xbar_stalls := l |>).

(** The granted packet of a port crosses. *)
Definition cross (now port vc : Z) : M St unit :=
  ev ← at_port now port (fun t => recv t vc);
  match ev with
  | None => undefined "getNextPort of a null event"
  | Some ev => next_port ← getsR (fun _ => getNextPort ev); at_port now next_port (fun _ => send now ev (ire_vc ev))
  end.

Definition count_down (port : Z) (l : list Z) : res (list Z) :=
  v ← at_index l port; if negb (v =? 0) then set_index l port (v - 1) else Ok l.

Definition move_port (now port : Z) : M St unit :=
  vc ← getsR (fun r => at_index (progress_vcs (xbar r)) port);
  (if -1 <? vc then cross now port vc else when (vc =? -2) (add_stall port)) ;;
  i ← getsR (fun r => count_down port (in_port_busy (xbar r)));
  o ← getsR (fun r => count_down port (out_port_busy (xbar r)));
  modify (fun r => r <| xbar ::= fun b => mkXbar i o (progress_vcs b) |>).

(** The arbitration of the crossbar and the moves. *)
Definition work (now : Z) : M St unit :=
  '(b, a) ← getsR (fun r => xbar_arbitrate (ports r) (xbar r) (arb r));
  modify (fun r => r <| xbar := b |> <| arb := a |>) ;;
  n ← gets (fun r => length (ports r));
  forM (seqZ 0 (Z.of_nat n)) (move_port now).

(** The result tells the core to stop the clock. *)
Definition clock_handler (now cycle : Z) : M St bool :=
  d ← gets vcs_with_data;
  if d =? 0 then
    okay ← gets (fun r => isOkayToPauseClock (arb r));
    if okay : bool then
      modify (fun r => r <| requestNotifyOnEvent := true |> <| unclocked_cycle := cycle |>) ;; mret true
    else mret false
  else work now ;; mret false.

(** The core calls the handler and stops its clock on request. *)
Definition tick (now cycle : Z) : M St unit :=
  stop ← clock_handler now cycle; modify (fun r => r <| clocked := negb stop |>).

(** ** The steps of a router *)

Inductive router_step : St -> St -> Prop :=
| clock_ticks now cycle r r' : clocked r = true -> tick now cycle r = Ok (tt, r') -> router_step r r'
| endpoint_event now i e r r' :
    at_port now i (fun t => handle_input_n2r t now e) r = Ok (tt, r') -> router_step r r'
| router_event now i e r r' :
    at_port now i (fun t => handle_input_r2r t now e) r = Ok (tt, r') -> router_step r r'
| output_timer now i r r' : at_port now i (fun _ => handle_output now) r = Ok (tt, r') -> router_step r r'
| control_event now i e r r' : at_port now i (fun _ => sendCtrlEvent now e) r = Ok (tt, r') -> router_step r r'.
End router.
