(* ===== verification/RouterWake.v ===== *)
(** * RouterWake: the clock of the router never misses a packet

    The router stops its clock when [vcs_with_data] is zero and has the ports wake
    it. The counter is kept by the ports, one unit for each virtual channel with a
    head; the invariant here says that it is right and that a router whose clock is
    stopped has nothing in any input buffer. *)

From stdpp Require Import relations.
From S2P Require Import Prelude Merlin Arbitration PortControl FlowControl XbarArb HrRouter.

(** ** The input side of a port *)

Section intake.
Context {T D A : Type} {HT : Topology T D} {HA : SingleArbitration A}.
Abbreviation St := (Port D A).
Implicit Types (p : St) (t : T).

(** What an action adds to [vcs_with_data]. *)
Definition counted (a : action D) : Z := match a with IncVcs => 1 | DecVcs => -1 | _ => 0 end.

Definition occupied (q : list (internal_router_event D)) : Z := match q with [] => 0 | _ => 1 end.
Definition load p : Z := total occupied (input_buf p).

(** The heads are the first packets of the queues. *)
Definition heads_ok p : Prop := vc_heads p = head <$> input_buf p.

(** An operation takes more actions, among them [l]. *)
Definition takes p p' (l : list (action D)) : Prop := actions p' = actions p ++ l.

(** The operations that leave the input buffers alone. *)
Definition quiet (l : list (action D)) : Prop := Forall (fun a => counted a = 0) l.
Definition keeps_intake : relation St := fun p p' =>
  input_buf p' = input_buf p /\ vc_heads p' = vc_heads p /\ exists l, takes p p' l /\ quiet l.

#[export] Instance keeps_intake_preorder : PreOrder keeps_intake.
Proof.
  split.
  - intros p. split; [done|]. split; [done|]. exists []. split; [by unfold takes; rewrite app_nil_r|constructor].
  - intros p1 p2 p3 (Hb & Hh & l & Hl & Hq) (Hb' & Hh' & l' & Hl' & Hq').
    split; [congruence|]. split; [congruence|]. exists (l ++ l'). unfold takes in *.
    split; [by rewrite Hl', Hl, app_assoc|by apply Forall_app].
Qed.

Lemma act_keeps_intake (a : action D) : counted a = 0 -> steps keeps_intake (act a).
Proof.
  intros Ha p r p' [= _ <-]. split; [done|]. split; [done|]. exists [a]. split; [done|by constructor].
Qed.
Lemma modify_keeps_intake (f : St -> St) :
  (forall p, (input_buf (f p), vc_heads (f p), actions (f p)) = (input_buf p, vc_heads p, actions p)) ->
  steps keeps_intake (modify f).
Proof.
  intros Hf. apply steps_modify. intros p. injection (Hf p) as Hb Hh Ha. split; [done|]. split; [done|].
  exists []. split; [by unfold takes; rewrite app_nil_r|constructor].
Qed.
#[local] Hint Extern 1 (steps keeps_intake (modify _)) => apply modify_keeps_intake; intros; done : steps.
#[local] Hint Extern 1 (steps keeps_intake (act _)) => apply act_keeps_intake; done : steps.

Lemma wake_intake now b : steps keeps_intake (wake now b).
Proof. unfold wake. steps_walk. Qed.
Lemma track_lengths_intake vc d : steps keeps_intake (track_lengths vc d).
Proof. unfold track_lengths. steps_walk. Qed.
Lemma take_credit_intake vc d : steps keeps_intake (take_credit vc d).
Proof. unfold take_credit. steps_walk. Qed.
Lemma end_idle_intake now : steps keeps_intake (end_idle now).
Proof. unfold end_idle. steps_walk. Qed.
#[local] Hint Resolve wake_intake track_lengths_intake take_credit_intake end_idle_intake : steps.

Lemma send_intake now ev vc : steps keeps_intake (send now ev vc).
Proof. unfold send. steps_walk. Qed.
Lemma sendCtrlEvent_intake now ev : steps keeps_intake (sendCtrlEvent now ev).
Proof. unfold sendCtrlEvent. steps_walk. Qed.
Lemma return_credits_intake t vc ev : steps keeps_intake (return_credits t vc ev).
Proof. unfold return_credits. steps_walk. Qed.
Lemma handle_output_intake now : steps keeps_intake (handle_output now).
Proof. unfold handle_output, choose_vc, send_out, fall_asleep. steps_walk. Qed.

Lemma set_input_eq vc q p r p' :
  set_input vc q p = Ok (r, p') -> p' = p <| input_buf := <[Z.to_nat vc := q]> (input_buf p) |>.
Proof. unfold set_input. intros H. inv_run. rename select (set_index _ _ _ = _) into Hs. by apply set_index_Ok in Hs as [_ ->]. Qed.
Lemma set_head_eq vc h p r p' :
  set_head vc h p = Ok (r, p') -> p' = p <| vc_heads := <[Z.to_nat vc := h]> (vc_heads p) |>.
Proof. unfold set_head. intros H. inv_run. rename select (set_index _ _ _ = _) into Hs. by apply set_index_Ok in Hs as [_ ->]. Qed.
Lemma act_eq (a : action D) p r p' : act a p = Ok (r, p') -> p' = p <| actions := actions p ++ [a] |>.
Proof. by intros [= _ <-]. Qed.


(** Queue and head of one virtual channel are written together. *)
Lemma heads_insert p k (q : list (internal_router_event D)) :
  heads_ok p -> <[k := head q]> (vc_heads p) = head <$> <[k := q]> (input_buf p).
Proof. unfold heads_ok. intros ->. by rewrite list_fmap_insert. Qed.

(** Heads stay right, and the load changes as the actions say; who adds to it wakes
    the router. *)
Definition counts p p' : Prop :=
  heads_ok p -> heads_ok p' /\ exists l, takes p p' l /\ load p' = load p + total counted l /\
    (NotifyRouter ∈ l \/ load p' <= load p).

#[export] Instance counts_preorder : PreOrder counts.
Proof.
  split.
  - intros p Hh. split; [done|]. exists []. unfold takes. rewrite app_nil_r. split; [done|].
    split; [unfold total; cbn; lia|by right].
  - intros p1 p2 p3 H1 H2 Hh. destruct (H1 Hh) as (Hh2 & l1 & Ha1 & Hl1 & Hn1). destruct (H2 Hh2) as (Hh3 & l2 & Ha2 & Hl2 & Hn2).
    split; [done|]. exists (l1 ++ l2). unfold takes in *. split; [by rewrite Ha2, Ha1, app_assoc|].
    split; [rewrite total_app; lia|]. rewrite elem_of_app. destruct Hn1, Hn2; auto. right. lia.
Qed.

Lemma quiet_total l : quiet l -> total counted l = 0.
Proof. induction 1 as [|a l Ha _ IH]; [done|]. rewrite total_cons. lia. Qed.

Lemma keeps_counts p p' : keeps_intake p p' -> counts p p'.
Proof.
  intros (Hb & Hv & l & Hl & Hq) Hh. unfold heads_ok, load in *. rewrite Hb, Hv. split; [done|]. exists l.
  rewrite quiet_total by done. split; [done|]. split; [lia|by right].
Qed.

Lemma next_head_counts t vc ev q p r p' :
  input_buf p !! Z.to_nat vc = Some (ev :: q) -> next_head t vc q p = Ok (r, p') -> counts p p'.
Proof.
  intros Hq H Hh. unfold next_head in H. destruct q as [|next q]; inv_run.
  - rename select (act DecVcs _ = _) into Ha. apply act_eq in Ha as ->. rename select (set_head _ _ _ = _) into Hs.
    apply set_head_eq in Hs as ->. rename select (set_input _ _ _ = _) into Hs. apply set_input_eq in Hs as ->.
    split; [apply (heads_insert p (Z.to_nat vc) []); done|]. exists [DecVcs]. split; [done|].
    unfold load. cbn. rewrite (total_insert _ _ _ _ _ Hq), total_one. cbn. split; [lia|right; lia].
  - rename select (set_head _ _ _ = _) into Hs. apply set_head_eq in Hs as ->.
    rename select (set_input _ _ _ = _) into Hs. apply set_input_eq in Hs as ->.
    split; [by exact (heads_insert _ (Z.to_nat vc) (_ :: q) Hh)|]. exists []. split; [unfold takes; cbn; by rewrite app_nil_r|].
    unfold load. cbn. rewrite (total_insert _ _ _ _ _ Hq). change (total counted []) with 0. cbn. split; [lia|right; lia].
Qed.

Lemma recv_counts t vc : steps counts (recv t vc).
Proof.
  intros p r p' H. unfold recv in H. inv_run. rename select (at_index _ _ = _) into Hq. apply at_index_Ok in Hq as [_ Hq].
  destruct a as [|event q]; inv_run; [reflexivity|]. rename select (next_head _ _ _ _ = _) into Hn. rename select (return_credits _ _ _ _ = _) into Hc.
  etrans; [by eapply next_head_counts|]. apply return_credits_intake in Hc; by apply keeps_counts.
Qed.

Lemma enqueue_counts t ev : steps counts (enqueue t ev).
Proof.
  intros p r p' H Hh. unfold enqueue in H. inv_run. rename select (at_index (input_buf p) _ = _) into Hq.
  apply at_index_Ok in Hq as [_ Hq]. rename select (set_input _ _ p = _) into Hs. apply set_input_eq in Hs as ->.
  rename select (act NotifyRouter _ = _) into Ha. apply act_eq in Ha as ->.
  rename select (at_index (vc_heads _) _ = _) into Hv. apply at_index_Ok in Hv as [_ Hv]. cbn in Hv.
  pose proof Hh as Hh'. unfold heads_ok in Hh'. rewrite Hh', list_lookup_fmap, Hq in Hv. injection Hv as Hv.
  destruct a3 as [h|]; inv_run.
  - destruct a as [|e q]; [done|]. injection Hv as ->. split.
    + pose proof (heads_insert p (Z.to_nat (ire_vc ev)) ((h :: q) ++ [ev]) Hh) as E. unfold heads_ok. cbn in *. rewrite <- E.
      rewrite list_insert_id; [done|]. by rewrite Hh', list_lookup_fmap, Hq.
    + exists [NotifyRouter]. split; [done|]. unfold load. cbn. rewrite (total_insert _ _ _ _ _ Hq), total_one. cbn.
      split; [lia|left; by left].
  - destruct a as [|e q]; [|done]. rename select (act IncVcs _ = _) into Ha. apply act_eq in Ha as ->.
    rename select (set_head _ _ _ = _) into Hs. apply set_head_eq in Hs as ->.
    rename select (set_input _ _ _ = _) into Hs. apply set_input_eq in Hs as ->. cbn. split.
    + unfold heads_ok. cbn. rewrite list_insert_insert_eq. exact (heads_insert p (Z.to_nat (ire_vc ev)) [_] Hh).
    + exists [IncVcs; NotifyRouter]. split; [unfold takes; cbn; by rewrite <- app_assoc|]. unfold load. cbn.
      rewrite list_insert_insert_eq, (total_insert _ _ _ _ _ Hq), total_cons, total_one. cbn. split; [lia|left; right; by left].
Qed.

Lemma handle_input_counts t now e : steps counts (handle_input_n2r t now e) /\ steps counts (handle_input_r2r t now e).
Proof.
  assert (forall St' (m : M (Port D A) St'), steps keeps_intake m -> steps counts m) as Hq
    by (intros St' m Hm; eapply steps_mono; [exact Hm|apply keeps_counts]).
  split; destruct e; cbn [handle_input_n2r handle_input_r2r];
    first [apply enqueue_counts|apply Hq; by steps_walk|steps_walk; apply enqueue_counts].
Qed.
End intake.

(** ** The router *)

Section wake.
Context {T D A X : Type} {HT : Topology T D} {HA : SingleArbitration A} {HX : XbarArbitration X D A}.
Variable reregisterClock : Z -> Z.
Abbreviation St := (Router T D A X).
Implicit Types (r : St) (p : Port D A).

(** The counter of the router is the number of virtual channels with a packet. *)
Definition counter_ok r : Prop := Forall heads_ok (ports r) /\ vcs_with_data r = total load (ports r).

Definition awake r : Prop :=
  counter_ok r /\ (clocked r = false -> requestNotifyOnEvent r = true /\ vcs_with_data r = 0).

Lemma occupied_nonneg (q : list (internal_router_event D)) : 0 <= occupied q.
Proof. by destruct q. Qed.
Lemma load_nonneg p : 0 <= load p.
Proof. apply total_nonneg, Forall_forall. intros q _. apply occupied_nonneg. Qed.

Lemma effects_run now l r x r' :
  forM l (port_effect reregisterClock now) r = Ok (x, r') ->
  ports r' = ports r /\ vcs_with_data r' = vcs_with_data r + total counted l /\
  (clocked r' = true \/
   clocked r' = clocked r /\ requestNotifyOnEvent r' = requestNotifyOnEvent r /\
   (NotifyRouter ∈ l -> requestNotifyOnEvent r = false)).
Proof.
  revert r. induction l as [|a l IH]; intros r H; cbn [forM] in H.
  { inv_run. split; [done|]. split; [unfold total; cbn; lia|]. right. split_and!; [done|done|set_solver]. }
  apply bind_Ok in H as (u & r1 & H1 & H). apply IH in H as (Hp & Hv & Hc).
  assert (ports r1 = ports r /\ vcs_with_data r1 = vcs_with_data r + counted a /\
    (clocked r1 = true \/ clocked r1 = clocked r /\ requestNotifyOnEvent r1 = requestNotifyOnEvent r /\
       (a = NotifyRouter -> requestNotifyOnEvent r = false))) as (Hp1 & Hv1 & Hc1).
  { clear IH Hp Hv Hc.
    destruct a; cbn [port_effect] in H1; try (inv_run; cbn; split_and!; [done|lia|right; by split_and!]).
    apply bind_Ok in H1 as (? & ? & [= <- <-] & H1). destruct (requestNotifyOnEvent r) eqn:En; cbn [when] in H1.
    - unfold notifyEvent in H1. inv_run. cbn. split_and!; [done|lia|by left].
    - inv_run. cbn. split_and!; [done|lia|by right]. }
  rewrite Hp, Hp1, total_cons. split; [done|]. split; [lia|]. destruct Hc as [Hc|(Hc & Hr & Hn)]; [by left|].
  destruct Hc1 as [Hc1|(Hc1 & Hr1 & Hn1)]; [left; congruence|]. right. split_and!; [congruence|congruence|].
  intros [Ea|Hin]%elem_of_cons; [by apply Hn1|]. rewrite <- Hr1. by apply Hn.
Qed.

(** An operation of a port keeps the counter, and whoever brings a packet wakes the
    router. *)
Lemma at_port_counter {R} now i (m : T -> M (Port D A) R) r x r' :
  (forall t, steps counts (m t)) -> at_port reregisterClock now i m r = Ok (x, r') -> counter_ok r ->
  counter_ok r' /\
  (clocked r' = true \/ clocked r' = clocked r /\ requestNotifyOnEvent r' = requestNotifyOnEvent r /\
     (requestNotifyOnEvent r = true -> vcs_with_data r' <= vcs_with_data r)).
Proof.
  intros Hm H [Hh Hc]. unfold at_port in H. inv_run. destruct a0 as [y p']. inv_run.
  rename select (at_index _ _ = _) into Hi. apply at_index_Ok in Hi as [_ Hi].
  rename select (set_index _ _ _ = _) into Hs. apply set_index_Ok in Hs as [_ ->].
  rename select (m _ _ = _) into Hmp. apply Hm in Hmp.
  destruct (Hmp (Forall_lookup_1 _ _ _ _ Hh Hi)) as (Hh' & l & Hl & Hld & Hn). unfold takes in Hl. rewrite Hl, drop_app_length in *.
  rename select (forM _ _ _ = _) into He. apply effects_run in He as (Hp' & Hv' & Hcl). cbn in Hp', Hv', Hcl.
  assert (vcs_with_data r' = vcs_with_data r + total counted l) as Hv by done. split.
  - split; rewrite Hp'; [by apply Forall_insert|]. rewrite (total_insert _ _ _ _ _ Hi). lia.
  - destruct Hcl as [Hcl|(Hcl & Hrq & Hnn)]; [by left|]. right. split_and!; [done|done|]. intros Hreq.
    destruct Hn as [Hn|Hn]; [apply Hnn in Hn; congruence|lia].
Qed.

Lemma at_port_awake {R} now i (m : T -> M (Port D A) R) r x r' :
  (forall t, steps counts (m t)) -> at_port reregisterClock now i m r = Ok (x, r') -> awake r -> awake r'.
Proof.
  intros Hm H [Hc Ha]. destruct (at_port_counter _ _ _ _ _ _ Hm H Hc) as [Hc' Hcl]. split; [done|]. intros Hstop.
  destruct Hcl as [Hcl|(Hcl & Hrq & Hle)]; [congruence|]. rewrite Hcl in Hstop. destruct (Ha Hstop) as [Hreq Hz].
  split; [congruence|]. specialize (Hle Hreq). destruct Hc' as [_ Hc']. pose proof (total_nonneg load (ports r')) as Hnn.
  assert (0 <= total load (ports r')); [|lia]. apply Hnn, Forall_forall. intros p _. apply load_nonneg.
Qed.

Definition keeps_counter : relation St := fun r r' => counter_ok r -> counter_ok r'.
#[local] Instance keeps_counter_preorder : PreOrder keeps_counter.
Proof. apply (invariant_preorder counter_ok). Qed.

Lemma move_port_counter now port : steps keeps_counter (move_port reregisterClock now port).
Proof.
  assert (forall St' i (m : T -> M (Port D A) St'), (forall t, steps counts (m t)) -> steps keeps_counter (at_port reregisterClock now i m)) as Hat.
  { intros St' i m Hm r x r' H Hc. by eapply at_port_counter. }
  unfold move_port, cross, add_stall. steps_walk; try (apply steps_modify; intros r Hc; exact Hc); apply Hat; intros t.
  - apply recv_counts.
  - eapply steps_mono; [apply send_intake|apply keeps_counts].
Qed.

Lemma work_counter now : steps keeps_counter (work reregisterClock now).
Proof.
  unfold work. steps_walk; try (apply steps_modify; intros r Hc; exact Hc). apply move_port_counter.
Qed.

Lemma tick_awake now cycle r r' : tick reregisterClock now cycle r = Ok (tt, r') -> awake r -> awake r'.
Proof.
  intros H [Hc _]. unfold tick in H. apply bind_Ok in H as (stop & r1 & H1 & H). injection H as <-.
  unfold clock_handler in H1. apply bind_Ok in H1 as (? & ? & [= <- <-] & H1).
  destruct (Z.eqb_spec (vcs_with_data r) 0) as [Hz|_]; inv_run.
  - case_match; inv_run; split; try exact Hc; cbn; auto. discriminate.
  - rename select (work _ _ _ = _) into Hw. apply work_counter in Hw. split; [exact (Hw Hc)|discriminate].
Qed.

Lemma router_step_awake r r' : router_step reregisterClock r r' -> awake r -> awake r'.
Proof.
  intros [now cycle r1 r2 _ H|now i e r1 r2 H|now i e r1 r2 H|now i r1 r2 H|now i e r1 r2 H].
  - by eapply tick_awake.
  - eapply at_port_awake, H. intros t. apply handle_input_counts.
  - eapply at_port_awake, H. intros t. apply handle_input_counts.
  - eapply at_port_awake, H. intros t. eapply steps_mono; [apply handle_output_intake|apply keeps_counts].
  - eapply at_port_awake, H. intros t. eapply steps_mono; [apply sendCtrlEvent_intake|apply keeps_counts].
Qed.

Lemma empty_awake (t : T) (ps : list (Port D A)) a :
  Forall heads_ok ps -> Forall (fun p => load p = 0) ps -> awake (new_router t ps a).
Proof.
  intros Hh Hl. split; [|done]. split; [done|]. cbn. induction Hl as [|p l Hp _ IH]; [done|].
  apply Forall_cons in Hh as [_ Hh]. rewrite total_cons, Hp, <- IH by done. lia.
Qed.

Lemma load_empty p q : load p <= 0 -> q ∈ input_buf p -> q = [].
Proof.
  intros Hl Hq. apply elem_of_Permutation in Hq as (l & Hp). unfold load in Hl.
  assert (total occupied (input_buf p) = occupied q + total occupied l) as E.
  { clear Hl. rewrite <- total_cons. induction Hp as [| | |]; rewrite ?total_cons in *; try done; lia. }
  pose proof (total_nonneg occupied l) as Hn. destruct q; [done|]. cbn in E.
  assert (0 <= total occupied l); [|lia]. apply Hn, Forall_forall. intros q' _. apply occupied_nonneg.
Qed.

(** C31. In every state a router can reach from the start, its counter is the number of
    virtual channels with a packet in an input buffer; and when its clock is
    stopped, all the input buffers of all its ports are empty. *)
Theorem clock_never_misses_packets (t : T) (ps : list (Port D A)) a r :
  Forall (fun p => heads_ok p /\ load p = 0) ps -> rtc (router_step reregisterClock) (new_router t ps a) r ->
  vcs_with_data r = total load (ports r) /\
  (clocked r = false -> forall p q, p ∈ ports r -> q ∈ input_buf p -> q = []).
Proof.
  intros Hps H. apply Forall_and in Hps as [Hh Hl].
  assert (awake r) as [[_ Hc] Ha].
  { pose proof (empty_awake t ps a Hh Hl) as H0. remember (new_router t ps a) as r0 eqn:E. clear E.
    induction H as [r|r r1 r2 Hs _ IH]; [done|]. by eapply IH, router_step_awake. }
  split; [done|]. intros Hstop p q Hp Hq. destruct (Ha Hstop) as [_ Hz]. eapply load_empty, Hq.
  apply elem_of_Permutation in Hp as (l & Hp). rewrite Hz in Hc.
  assert (total load (ports r) = load p + total load l) as E.
  { rewrite <- total_cons. clear Hc. induction Hp as [| | |]; rewrite ?total_cons in *; try done; lia. }
  pose proof (total_nonneg load l) as Hn. assert (0 <= total load l); [|lia].
  apply Hn, Forall_forall. intros p' _. apply load_nonneg.
Qed.
End wake.
