(* ===== verification/RouterPorts.v ===== *)
(** * RouterPorts: the ports of a router that works

    What a router's clock relies on: ports whose buffers have their sizes and whose
    queued packets the topology can route. On such ports the two operations of the
    crossbar, [recv] and [send], always return, and what they do is said here as a
    whole: which packet leaves, which becomes the head, and what stays as it is. *)

From S2P Require Import Prelude Merlin Arbitration PortControl FlowControl XbarArb HrRouter RouterWake.

Section ports.
Context {T D A : Type} {HT : Topology T D} {HA : SingleArbitration A} {HL : TopologyLaws T D}.
Implicit Types (p : Port D A) (ev : internal_router_event D) (q : list (internal_router_event D)).
(** [n] ports of [m] virtual channels; the topology object; the packets that may
    wait at a port to be routed. *)
Variables (n m : nat) (t : T) (carried : Z -> internal_router_event D -> Prop).

(** A packet that knows where it goes. *)
Definition routed ev : Prop :=
  0 <= ire_vc ev < Z.of_nat m /\ exists np, next_port ev = Some np /\ 0 <= np < Z.of_nat n.

(** The topology can route the packets at the ports of this router. *)
Definition routes_within : Prop :=
  forall port ev, carried port ev -> exists ev', route_packet t port (ire_vc ev) ev = Ok ev' /\ routed ev'.
Hypothesis Hroutes : routes_within.

(** The queue of a virtual channel: its first packet is routed, the others will be. *)
Definition queue_ok (port : Z) (host : bool) q : Prop :=
  match q with [] => True | ev :: q' => routed ev /\ Forall (carried port) q' end /\
  Forall (fun ev => 0 < getFlitCount ev /\
    (host = true -> exists v, credit_return_vc ev = Some v /\ 0 <= v < Z.of_nat m)) q.

Record port_wf p : Prop := {
  pw_heads : heads_ok p;
  pw_in : length (input_buf p) = m;
  pw_out : length (output_buf p) = m;
  pw_space : length (xbar_in_credits p) = m;
  pw_ret : length (port_ret_credits p) = m;
  pw_lengths : length (output_queue_lengths p) = m;
  pw_queues : exists host, isHostPort t (port_number p) = Ok host /\ Forall (queue_ok (port_number p) host) (input_buf p)
}.

(** The arbitrations can work with such ports. *)
Lemma port_wf_ready p : port_wf p -> port_ready n m p.
Proof.
  intros [Hh Hi _ Hs _ _ (host & _ & Hq)]. unfold heads_ok in Hh. constructor; [by rewrite Hh, length_fmap|done|].
  intros vc ev Hev. rewrite Hh, list_lookup_fmap in Hev. destruct (input_buf p !! vc) as [q|] eqn:E; [|done].
  injection Hev as Hev. pose proof (Forall_lookup_1 _ _ _ _ Hq E) as [H1 H2]. destruct q as [|e q]; [done|]. injection Hev as ->.
  destruct H1 as [[Hv Hnp] _]. apply Forall_cons in H2 as [[Hf _] _]. split; [done|]. by split.
Qed.

(** What is behind the packet that leaves: the next one has been routed. *)
Definition advances (port : Z) q q' : Prop :=
  match q with
  | [] => q' = []
  | ev :: rest => exists ev', route_packet t port (ire_vc ev) ev = Ok ev' /\ q' = ev' :: rest
  end.

Lemma advances_ok port host ev q q' : queue_ok port host (ev :: q) -> advances port q q' -> queue_ok port host q'.
Proof.
  intros [[_ Hc] Hf] Ha. apply Forall_cons in Hf as [_ Hf]. destruct q as [|e q]; cbn in Ha; [by subst|].
  destruct Ha as (e' & He & ->). apply Forall_cons in Hc as [Hce Hc], Hf as [[Hf1 Hf2] Hf].
  destruct (Hroutes _ _ Hce) as (e2 & He2 & Hr). rewrite He in He2. injection He2 as <-.
  split; [by split|]. constructor; [|done]. unfold getFlitCount in *.
  by rewrite (route_keeps_packet _ _ _ _ _ He), (route_keeps_return _ _ _ _ _ He).
Qed.

Lemma next_head_runs vc q p :
  Forall (carried (port_number p)) q -> 0 <= vc < Z.of_nat (length (input_buf p)) -> 0 <= vc < Z.of_nat (length (vc_heads p)) ->
  runs (next_head t vc q) p (fun _ p' => exists q', advances (port_number p) q q' /\
    p' = p <| input_buf := <[Z.to_nat vc := q']> (input_buf p) |> <| vc_heads := <[Z.to_nat vc := head q']> (vc_heads p) |>
           <| actions := actions p ++ match q with [] => [DecVcs] | _ => [] end |>).
Proof.
  intros Hq Hi Hh. unfold next_head, set_input, set_head. destruct q as [|ev q].
  - eapply runs_bind, runs_bind, runs_getsR; [by apply set_index_in_range|]. apply runs_modify.
    eapply runs_bind, runs_bind, runs_getsR; [by apply set_index_in_range|]. apply runs_modify.
    apply runs_modify. by exists [].
  - apply Forall_cons in Hq as [Hev Hq]. destruct (Hroutes _ _ Hev) as (ev' & He & _).
    eapply runs_bind, runs_gets, runs_bind, runs_getsR; [exact He|].
    eapply runs_bind, runs_bind, runs_getsR; [by apply set_index_in_range|]. apply runs_modify.
    eapply runs_bind, runs_getsR; [by apply set_index_in_range|]. apply runs_modify.
    exists (ev' :: q). split; [by exists ev'|]. destruct p; cbn. by rewrite app_nil_r.
Qed.

Lemma return_credits_runs vc ev host p :
  isHostPort t (port_number p) = Ok host -> 0 <= vc < Z.of_nat (length (port_ret_credits p)) ->
  (host = true -> exists v, credit_return_vc ev = Some v /\ 0 <= v < Z.of_nat (length (port_ret_credits p))) ->
  runs (return_credits t vc ev) p (fun _ p' => exists l e, length l = length (port_ret_credits p) /\
    p' = p <| port_ret_credits := l |> <| actions := actions p ++ [LinkSend e] |>).
Proof.
  intros Hh Hvc Hv. unfold return_credits. eapply runs_bind, runs_gets, runs_bind, runs_getsR; [exact Hh|].
  set (vr := if host then default 0 (credit_return_vc ev) else vc).
  assert (0 <= vr < Z.of_nat (length (port_ret_credits p)) /\ (if host then getCreditReturnVC ev else Ok vc) = Ok vr) as [Hr Er].
  { subst vr. destruct host; [|done]. destruct (Hv eq_refl) as (v & E & ?). unfold getCreditReturnVC. by rewrite E. }
  eapply runs_bind, runs_getsR; [exact Er|]. eapply runs_bind, runs_getsR; [by apply add_at_Ok|].
  destruct (at_index_in_range (<[Z.to_nat vr := port_ret_credits p !!! Z.to_nat vr + getFlitCount ev]> (port_ret_credits p)) vr)
    as [c Ec]; [by rewrite length_insert|].
  eapply runs_bind, runs_getsR; [exact Ec|]. eapply runs_bind, runs_modify, runs_bind, runs_getsR.
  { apply set_index_in_range. by rewrite length_insert. }
  apply runs_modify. exists (<[Z.to_nat vr := 0]> (<[Z.to_nat vr := port_ret_credits p !!! Z.to_nat vr + getFlitCount ev]> (port_ret_credits p))), (Credit vr c).
  split; [|done]. by rewrite !length_insert.
Qed.

(** Silent operations do not wake the router. *)
Definition silent (l : list (action D)) : Prop := NotifyRouter ∉ l.

(** [recv]: the packet leaves, the next one becomes the head. *)
Lemma recv_runs vc ev rest p :
  port_wf p -> at_index (input_buf p) vc = Ok (ev :: rest) ->
  runs (recv t vc) p (fun r p' => r = Some ev /\ port_wf p' /\ (exists l, takes p p' l /\ silent l) /\
    (exists rest', advances (port_number p) rest rest' /\ input_buf p' = <[Z.to_nat vc := rest']> (input_buf p)) /\
    output_buf p' = output_buf p /\ xbar_in_credits p' = xbar_in_credits p /\ port_number p' = port_number p).
Proof.
  intros [Hh Hi Ho Hs Hr Hl (host & Ehost & Hq)] Eq. pose proof Eq as [Hvc0 Evc]%at_index_Ok.
  pose proof (lookup_lt_Some _ _ _ Evc) as Hvc. pose proof (Forall_lookup_1 _ _ _ _ Hq Evc) as Hqv.
  pose proof Hqv as [[_ Hc] Hf]. apply Forall_cons in Hf as [[_ Hret] _].
  unfold recv. eapply runs_bind, runs_getsR; [exact Eq|]. cbn beta iota.
  eapply runs_step; [apply next_head_runs; [done|lia|unfold heads_ok in Hh; rewrite Hh, length_fmap; lia]|].
  intros _ p1 (q' & Hadv & ->).
  eapply runs_step; [apply (return_credits_runs vc ev host); cbn; [done|lia|by rewrite Hr]|].
  intros _ p2 (l & e & Hll & ->). apply runs_ret. split; [done|]. split; [|split; [|split; [by exists q'|done]]].
  - constructor; cbn in *; try done.
    + unfold heads_ok in *. cbn. rewrite Hh. by rewrite list_fmap_insert.
    + by rewrite length_insert.
    + congruence.
    + exists host. split; [done|]. apply Forall_insert; [done|]. by eapply advances_ok.
  - eexists. unfold takes. cbn. split; [by rewrite <- app_assoc|]. unfold silent. destruct rest; set_solver.
Qed.

Lemma wake_runs now b p : runs (wake now b) p (fun _ p' => exists l w, silent l /\ p' = p <| waiting := w |> <| actions := actions p ++ l |>).
Proof.
  unfold wake. eapply runs_bind, runs_gets. apply runs_when; intros Hw.
  - eapply runs_bind, runs_modify, runs_bind, runs_modify, runs_bind, runs_gets, runs_bind, runs_gets. apply runs_when; intros Hc.
    + apply runs_modify. exists [OutputTiming 1; AddData PortStat.output_port_stalls (now - start_block p)], false. split; [|unfold update; cbn; by rewrite <- app_assoc]. unfold silent. set_solver.
    + eexists [_], false. split; [|done]. unfold silent. set_solver.
  - exists [], (waiting p). split; [unfold silent; set_solver|]. destruct p; cbn. by rewrite app_nil_r.
Qed.

Lemma track_lengths_runs vc d p :
  0 <= vc < Z.of_nat (length (output_queue_lengths p)) ->
  runs (track_lengths vc d) p (fun _ p' => exists l, length l = length (output_queue_lengths p) /\ p' = p <| output_queue_lengths := l |>).
Proof.
  intros Hvc. unfold track_lengths. destruct (oql_track_port p) eqn:E.
  - eapply runs_bind, runs_getsR; [by rewrite E|]. apply runs_modify. eexists. split; [|done]. by rewrite length_fmap.
  - eapply runs_bind, runs_getsR; [rewrite E; by apply add_at_Ok|]. apply runs_modify. eexists. split; [|done]. by rewrite length_insert.
Qed.

(** [send]: the packet joins the output queue, its space is taken. *)
Lemma send_runs now ev vc p :
  port_wf p -> 0 <= vc < Z.of_nat m ->
  runs (send now ev vc) p (fun _ p' => port_wf p' /\ (exists l, takes p p' l /\ silent l) /\
    input_buf p' = input_buf p /\ port_number p' = port_number p /\
    output_buf p' = <[Z.to_nat vc := output_buf p !!! Z.to_nat vc ++ [setVC vc ev]]> (output_buf p) /\
    xbar_in_credits p' = <[Z.to_nat vc := xbar_in_credits p !!! Z.to_nat vc - getFlitCount ev]> (xbar_in_credits p)).
Proof.
  intros [Hh Hi Ho Hs Hr Hl (host & Ehost & Hq)] Hvc. unfold send.
  eapply runs_bind, runs_getsR; [apply add_at_Ok; split; [by rewrite Hs|done]|]. apply runs_bind, runs_modify.
  eapply runs_step; [apply track_lengths_runs; cbn; by rewrite Hl|]. intros _ p1 (l1 & Hl1 & ->). cbn.
  destruct (at_index_in_range (output_buf p) vc) as [oq Eoq]; [by rewrite Ho|].
  eapply runs_bind, runs_getsR; [exact Eoq|]. eapply runs_bind, runs_getsR; [apply set_index_in_range; cbn; by rewrite Ho|].
  apply runs_bind, runs_modify. eapply runs_mono; [apply wake_runs|]. intros _ p2 (l2 & w & Hsil & ->).
  apply at_index_Ok in Eoq as [_ Eoq]. rewrite (list_lookup_total_correct _ _ _ Eoq). cbn in *. split_and!; try done.
  - constructor; cbn; try done; [by rewrite length_insert|by rewrite length_insert|congruence|by exists host].
  - by exists l2.
Qed.
End ports.
