(* ===== verification/RouterClock.v ===== *)
(** * RouterClock: what a cycle of the router does

    The clock of a router whose ports are in order always returns: every packet the
    arbitration granted leaves the input buffer it was first in and joins the output
    buffer of its next port, where there is space for it, and nothing else moves. Seen
    from each port the cycle is a sequence of the steps that [LinkSystem] allows its
    crossbar. *)

From stdpp Require Import relations.
From S2P Require Import Prelude Merlin Arbitration PortControl FlowControl LinkSystem XbarArb XbarMatch.
From S2P Require Import HrRouter RouterWake RouterPorts.

(** ** Views *)

Section clock.
Context {T D A X : Type} {HT : Topology T D} {HA : SingleArbitration A} {HX : XbarArbitration X D A} {HL : TopologyLaws T D}.
Variable reregisterClock : Z -> Z.
Abbreviation St := (Router T D A X).
Implicit Types (r : St) (p : Port D A) (ev : internal_router_event D).
Variables (n m : nat) (t : T) (carried : Z -> internal_router_event D -> Prop).
Hypothesis Hroutes : routes_within n m t carried.

(** The queues and the space of a virtual channel of a port. *)
Definition in_view r (port vc : Z) := p ← at_index (ports r) port; at_index (input_buf p) vc.
Definition out_view r (port vc : Z) := p ← at_index (ports r) port; at_index (output_buf p) vc.
Definition space_view r (port vc : Z) := p ← at_index (ports r) port; at_index (xbar_in_credits p) vc.

(** The ports of the router in order, each knowing its number. *)
Record router_wf r : Prop := {
  rw_topo : topo r = t;
  rw_count : length (ports r) = n;
  rw_ports i p : at_index (ports r) i = Ok p -> port_wf n m t carried p /\ port_number p = i
}.

Lemma router_ready r : router_wf r -> Forall (port_ready n m) (ports r).
Proof.
  intros [_ _ Hp]. apply Forall_forall. intros p [i Hi]%list_elem_of_lookup. eapply port_wf_ready, Hp. by apply at_index_nat.
Qed.

(** A port goes by steps of its crossbar, whatever its link does. *)
Definition crossbar_steps (ps ps' : list (Port D A)) : Prop :=
  length ps' = length ps /\
  forall i p p', at_index ps i = Ok p -> at_index ps' i = Ok p' ->
    forall incoming taken fired, rtc (side_step incoming) (mkSide t p taken fired) (mkSide t p' taken fired).

#[export] Instance crossbar_steps_preorder : PreOrder crossbar_steps.
Proof.
  split.
  - intros ps. split; [done|]. intros i p p' Hp Hp'. rewrite Hp in Hp'. injection Hp' as ->. intros. reflexivity.
  - intros ps1 ps2 ps3 [Hl1 H1] [Hl2 H2]. split; [congruence|]. intros i p1 p3 Hp1 Hp3 inc tk f.
    destruct (at_index_in_range ps2 i) as [p2 Hp2].
    { rewrite Hl1. apply at_index_Ok in Hp1 as [Hi Hp1]. apply lookup_lt_Some in Hp1. lia. }
    etrans; eauto.
Qed.

Lemma crossbar_steps_one ps i p p' :
  at_index ps i = Ok p -> (forall inc tk f, side_step inc (mkSide t p tk f) (mkSide t p' tk f)) ->
  crossbar_steps ps (<[Z.to_nat i := p']> ps).
Proof.
  intros Hp Hs. split; [by rewrite length_insert|]. intros j q q' Hq Hq' inc tk f.
  pose proof Hp as [Hi Hlt]%at_index_Ok. apply lookup_lt_Some in Hlt. destruct (decide (i = j)) as [<-|Hne].
  - rewrite at_index_insert in Hq' by lia. rewrite Hp in Hq. injection Hq as <-. injection Hq' as <-. apply rtc_once, Hs.
  - rewrite at_index_insert_ne in Hq' by done. rewrite Hq in Hq'. injection Hq' as <-. reflexivity.
Qed.

(** *** An operation of one port *)

(** Everything but the ports and the counter stays. *)
Definition same_rest r r' : Prop :=
  topo r' = topo r /\ xbar r' = xbar r /\ arb r' = arb r /\ xbar_stalls r' = xbar_stalls r.

Lemma effects_silent now l r :
  silent l -> runs (forM l (port_effect reregisterClock now)) r (fun _ r' => same_rest r r' /\ ports r' = ports r).
Proof.
  unfold silent. revert r. induction l as [|a l IH]; intros r Hl; cbn [forM]; [by apply runs_skip|].
  assert (runs (port_effect reregisterClock now a) r (fun _ r' => same_rest r r' /\ ports r' = ports r)) as Ha.
  { destruct a; cbn [port_effect]; try by first [apply runs_skip|apply runs_modify]. set_solver. }
  eapply runs_step; [exact Ha|]. intros _ r1 [(H1 & H2 & H3 & H4) Hp]. eapply runs_mono; [apply IH; set_solver|].
  intros _ r2 [(H5 & H6 & H7 & H8) Hp']. unfold same_rest. split_and!; congruence.
Qed.

Lemma at_port_runs {R} now i (f : T -> M (Port D A) R) p r Q :
  at_index (ports r) i = Ok p -> runs (f (topo r)) p Q ->
  (forall x p', Q x p' -> exists l, takes p p' l /\ silent l) ->
  runs (at_port reregisterClock now i f) r (fun x r' => exists p', Q x p' /\ f (topo r) p = Ok (x, p') /\
    ports r' = <[Z.to_nat i := p']> (ports r) /\ same_rest r r').
Proof.
  intros Hp (x & p' & E & HQ) Hl. destruct (Hl _ _ HQ) as (l & Htk & Hsil). unfold at_port.
  eapply runs_bind, runs_getsR; [exact Hp|]. eapply runs_bind, runs_getsR; [exact E|]. cbn beta iota.
  pose proof Hp as [Hi Hlt]%at_index_Ok. apply lookup_lt_Some in Hlt.
  eapply runs_bind, runs_getsR; [apply set_index_in_range; lia|]. apply runs_bind, runs_modify.
  unfold takes in Htk. rewrite Htk, drop_app_length. eapply runs_step; [by apply effects_silent|].
  intros _ r' [Hs Hps]. apply runs_ret. exists p'. split_and!; [done|done|done|apply Hs..].
Qed.

Lemma view_insert {B} (get : Port D A -> list B) r r' i p p' j k :
  at_index (ports r) i = Ok p -> ports r' = <[Z.to_nat i := p']> (ports r) ->
  (q ← at_index (ports r') j; at_index (get q) k)
    = if decide (i = j) then at_index (get p') k else q ← at_index (ports r) j; at_index (get q) k.
Proof.
  intros Hp ->. pose proof Hp as [Hi Hlt]%at_index_Ok. apply lookup_lt_Some in Hlt. destruct (decide (i = j)) as [<-|Hne].
  - by rewrite at_index_insert by lia.
  - by rewrite at_index_insert_ne.
Qed.

Lemma router_wf_insert r r' i p p' :
  router_wf r -> at_index (ports r) i = Ok p -> ports r' = <[Z.to_nat i := p']> (ports r) -> topo r' = topo r ->
  port_wf n m t carried p' -> port_number p' = port_number p -> router_wf r'.
Proof.
  intros [Ht Hn Hw] Hp Hps Htp Hwf Hnum. constructor; [congruence|by rewrite Hps, length_insert|].
  pose proof Hp as [Hi Hlt]%at_index_Ok. apply lookup_lt_Some in Hlt.
  intros j q. rewrite Hps. destruct (decide (i = j)) as [<-|Hne].
  - rewrite at_index_insert by lia. intros [= <-]. split; [done|]. rewrite Hnum. by apply Hw.
  - rewrite at_index_insert_ne by done. apply Hw.
Qed.

(** *** A packet crosses *)

(** What the crossing of the first packet of a virtual channel does to the views. *)
Record crossed (port vc np : Z) ev r r' : Prop := {
  cr_in : exists rest rest', in_view r port vc = Ok (ev :: rest) /\ in_view r' port vc = Ok rest' /\ advances t port rest rest';
  cr_in_other j k : (j, k) <> (port, vc) -> in_view r' j k = in_view r j k;
  cr_out : exists q, out_view r np (ire_vc ev) = Ok q /\ out_view r' np (ire_vc ev) = Ok (q ++ [ev]);
  cr_out_other j k : (j, k) <> (np, ire_vc ev) -> out_view r' j k = out_view r j k;
  cr_space_other j k : (j, k) <> (np, ire_vc ev) -> space_view r' j k = space_view r j k
}.

Lemma setVC_same ev : setVC (ire_vc ev) ev = ev.
Proof. by destruct ev. Qed.

Lemma takes_packet now r port vc ev rest :
  router_wf r -> in_view r port vc = Ok (ev :: rest) ->
  runs (at_port reregisterClock now port (fun t => recv t vc)) r (fun x r1 => x = Some ev /\
    router_wf r1 /\ same_rest r r1 /\ crossbar_steps (ports r) (ports r1) /\
    (exists rest', in_view r1 port vc = Ok rest' /\ advances t port rest rest') /\
    (forall j k, (j, k) <> (port, vc) -> in_view r1 j k = in_view r j k) /\
    (forall j k, out_view r1 j k = out_view r j k) /\ (forall j k, space_view r1 j k = space_view r j k)).
Proof.
  intros Hwf Hin. pose proof Hin as (p & Hp & Hq)%res_bind_Ok. destruct (rw_ports _ Hwf _ _ Hp) as [Hpw Hnum].
  pose proof (rw_topo _ Hwf) as Ht. eapply runs_mono.
  - apply (at_port_runs now port (fun t => recv t vc) p); [done|rewrite Ht; by apply (recv_runs n m t carried Hroutes vc ev rest)|].
    intros x p' H. apply H.
  - cbn beta. rewrite Ht.
    intros x r1 (p' & (-> & Hw' & _ & (rest' & Hadv & Ein) & Eout & Esp & Enum) & Erecv & Hps & Hs).
    split; [done|]. split; [eapply router_wf_insert; [done|exact Hp|done|apply Hs|done|done]|]. split; [done|].
    split. { rewrite Hps. eapply crossbar_steps_one; [exact Hp|]. intros inc tk f. by eapply (crossbar_takes inc vc (mkSide t p tk f)). }
    pose proof (view_insert input_buf r r1 port p p') as Vin. pose proof (view_insert output_buf r r1 port p p') as Vout.
    pose proof (view_insert xbar_in_credits r r1 port p p') as Vsp. pose proof Hq as [Hvc Hlk]%at_index_Ok. apply lookup_lt_Some in Hlk.
    split_and!.
    + exists rest'. rewrite Hnum in Hadv. split; [|done]. unfold in_view. rewrite Vin, decide_True by done. rewrite Ein. apply at_index_insert. lia.
    + intros j k Hjk. unfold in_view. rewrite Vin by done. case_decide as Hd; [|done]. subst j. rewrite Hp, Ein. cbn [mbind res_bind].
      apply at_index_insert_ne; [done|congruence].
    + intros j k. unfold out_view. rewrite Vout by done. case_decide as Hd; [|done]. subst j. by rewrite Hp, Eout.
    + intros j k. unfold space_view. rewrite Vsp by done. case_decide as Hd; [|done]. subst j. by rewrite Hp, Esp.
Qed.

Lemma sends_packet now r np ev c :
  router_wf r -> 0 <= getFlitCount ev -> space_view r np (ire_vc ev) = Ok c -> getFlitCount ev <= c ->
  runs (at_port reregisterClock now np (fun _ => send now ev (ire_vc ev))) r (fun _ r1 =>
    router_wf r1 /\ same_rest r r1 /\ crossbar_steps (ports r) (ports r1) /\
    (forall j k, in_view r1 j k = in_view r j k) /\
    (exists q, out_view r np (ire_vc ev) = Ok q /\ out_view r1 np (ire_vc ev) = Ok (q ++ [ev])) /\
    (forall j k, (j, k) <> (np, ire_vc ev) -> out_view r1 j k = out_view r j k) /\
    (forall j k, (j, k) <> (np, ire_vc ev) -> space_view r1 j k = space_view r j k)).
Proof.
  intros Hwf Hsz Hsp Hc. pose proof Hsp as (p & Hp & Hcr)%res_bind_Ok. destruct (rw_ports _ Hwf _ _ Hp) as [Hpw Hnum].
  pose proof (rw_topo _ Hwf) as Ht. pose proof Hcr as [Hvc Hlk]%at_index_Ok. apply lookup_lt_Some in Hlk.
  pose proof (pw_space _ _ _ _ _ Hpw) as Hm. pose proof (pw_out _ _ _ _ _ Hpw) as Hmo. eapply runs_mono.
  - apply (at_port_runs now np (fun _ => send now ev (ire_vc ev)) p); [done|apply (send_runs n m t carried); [done|done|lia]|].
    intros x p' H. apply H.
  - cbn beta. intros [] r1 (p' & (Hw' & _ & Ein & Enum & Eout & Esp) & Esend & Hps & Hs).
    split; [eapply router_wf_insert; [done|exact Hp|done|apply Hs|done|done]|]. split; [done|].
    split. { rewrite Hps. eapply crossbar_steps_one; [exact Hp|]. intros inc tk f.
      eapply (crossbar_sends inc now ev (ire_vc ev) (mkSide t p tk f)); [|done|exact Esend].
      unfold spaceToSend. cbn. rewrite Hcr. cbn. by rewrite (proj2 (Z.ltb_ge _ _)). }
    pose proof (view_insert input_buf r r1 np p p') as Vin. pose proof (view_insert output_buf r r1 np p p') as Vout.
    pose proof (view_insert xbar_in_credits r r1 np p p') as Vsp. rewrite setVC_same in Eout.
    split_and!.
    + intros j k. unfold in_view. rewrite Vin by done. case_decide as Hd; [|done]. subst j. by rewrite Hp, Ein.
    + exists (output_buf p !!! Z.to_nat (ire_vc ev)). unfold out_view. rewrite Vout, decide_True by done. rewrite Hp, Eout. cbn [mbind res_bind].
      split; [|apply at_index_insert; lia]. apply at_index_Ok. split; [done|]. apply list_lookup_lookup_total_lt. lia.
    + intros j k Hjk. unfold out_view. rewrite Vout by done. case_decide as Hd; [|done]. subst j. rewrite Hp, Eout. cbn [mbind res_bind].
      apply at_index_insert_ne; [done|congruence].
    + intros j k Hjk. unfold space_view. rewrite Vsp by done. case_decide as Hd; [|done]. subst j. rewrite Hp, Esp. cbn [mbind res_bind].
      apply at_index_insert_ne; [done|congruence].
Qed.

Lemma cross_runs now r port vc ev rest np c :
  router_wf r -> in_view r port vc = Ok (ev :: rest) -> next_port ev = Some np -> 0 <= getFlitCount ev ->
  space_view r np (ire_vc ev) = Ok c -> getFlitCount ev <= c ->
  runs (cross reregisterClock now port vc) r (fun _ r' =>
    router_wf r' /\ same_rest r r' /\ crossbar_steps (ports r) (ports r') /\ crossed port vc np ev r r').
Proof.
  intros Hwf Hin Hnp Hsz Hsp Hc. unfold cross.
  eapply runs_step; [by apply (takes_packet now r port vc ev rest)|].
  intros x r1 (-> & Hwf1 & (H1 & H2 & H3 & H4) & Hst1 & (rest' & Hin1 & Hadv) & Hio & Ho & Hs). cbn beta iota.
  eapply runs_bind, runs_getsR; [unfold getNextPort; by rewrite Hnp|].
  eapply runs_mono; [apply (sends_packet now r1 np ev c); [done|done|by rewrite Hs|done]|].
  intros _ r2 (Hwf2 & (H5 & H6 & H7 & H8) & Hst2 & Hi2 & (q & Hq & Hq') & Ho2 & Hs2).
  split; [done|]. split; [unfold same_rest; split_and!; congruence|]. split; [by etrans|]. constructor.
  - exists rest, rest'. by rewrite Hi2.
  - intros j k Hjk. by rewrite Hi2, Hio.
  - exists q. by rewrite <- Ho.
  - intros j k Hjk. by rewrite Ho2, Ho.
  - intros j k Hjk. by rewrite Hs2, Hs.
Qed.

(** ** The moves of a cycle *)

(** One cycle of a busy time. *)
Definition count_one (v : Z) : Z := if v =? 0 then 0 else v - 1.
Definition busy_after (i : Z) (l l' : list Z) : Prop :=
  length l' = length l /\ forall j v, at_index l j = Ok v -> at_index l' j = Ok (if j <? i then count_one v else v).

Lemma count_down_step i l l' :
  0 <= i < Z.of_nat (length l) -> busy_after i l l' ->
  exists l'', count_down i l' = Ok l'' /\ busy_after (i + 1) l l''.
Proof.
  intros Hi [Hlen Hv]. destruct (at_index_in_range l i Hi) as [v Ev]. pose proof (Hv _ _ Ev) as E. rewrite Z.ltb_irrefl in E.
  assert (forall j w, j <> i -> at_index l j = Ok w -> at_index l' j = Ok (if j <? i + 1 then count_one w else w)) as Ho.
  { intros j w Hne Hw. rewrite (Hv _ _ Hw). destruct (Z.ltb_spec j i), (Z.ltb_spec j (i + 1)); done || lia. }
  unfold count_down. rewrite E. cbn [mbind res_bind]. destruct (Z.eqb_spec v 0) as [->|Hne]; cbn [negb].
  - exists l'. split; [done|]. split; [done|]. intros j w Hw. destruct (decide (j = i)) as [->|]; [|by apply Ho].
    rewrite Ev in Hw. injection Hw as <-. rewrite E. by rewrite (proj2 (Z.ltb_lt _ _)) by lia.
  - rewrite set_index_in_range by lia. eexists. split; [done|]. split; [by rewrite length_insert|]. intros j w Hw.
    destruct (decide (i = j)) as [<-|Hd]; [|rewrite at_index_insert_ne by lia; by apply Ho].
    rewrite Ev in Hw. injection Hw as <-. rewrite at_index_insert, (proj2 (Z.ltb_lt _ _)) by lia.
    unfold count_one. by rewrite (proj2 (Z.eqb_neq v 0)).
Qed.

Lemma NoDup_image {B C} (f : B -> C) (l : list B) x y : NoDup (f <$> l) -> x ∈ l -> y ∈ l -> f x = f y -> x = y.
Proof.
  intros Hn [i Hi]%list_elem_of_lookup [j Hj]%list_elem_of_lookup Hf.
  assert (i = j) as ->; [|congruence]. eapply NoDup_lookup; [exact Hn|rewrite list_lookup_fmap, Hi; done|].
  rewrite list_lookup_fmap, Hj. cbn. by rewrite Hf.
Qed.

Section moves.
(** The router after the arbitration, with its grants. *)
Context (r0 : St) (gs : list (Z * Z * internal_router_event D)) (b : Xbar).
Hypothesis Hwf0 : router_wf r0.
Hypothesis Hstalls0 : length (xbar_stalls r0) = n.
Hypothesis Hmatch : matching (ports r0) n b gs (xbar r0).

(** What a grant knows of its packet. *)
Lemma grant_facts port vc ev :
  (port, vc, ev) ∈ gs -> exists rest np c, in_view r0 port vc = Ok (ev :: rest) /\ next_port ev = Some np /\
    0 < getFlitCount ev /\ space_view r0 np (ire_vc ev) = Ok c /\ getFlitCount ev <= c /\
    0 <= port < Z.of_nat n /\ 0 <= vc /\ at_index (progress_vcs (xbar r0)) port = Ok vc.
Proof.
  intros Hg. destruct (ma_granted _ _ _ _ _ Hmatch _ _ _ Hg) as ((Hh & _ & Hc) & Hp & _).
  pose proof (head_ready n m (ports r0) (rw_count _ Hwf0) (router_ready _ Hwf0) _ _ _ Hh) as (Hport & Hvc & Hf & _).
  destruct (can_progress_true n m (ports r0) (rw_count _ Hwf0) (router_ready _ Hwf0) _ _ Hc) as (np & v & q & Enp & _ & _ & Hq & Hs). unfold spaceToSend in Hs. inv_res.
  rename select (at_index (xbar_in_credits q) _ = _) into Hcr. rename select (negb _ = true) into Hn.
  apply negb_true_iff, Z.ltb_ge in Hn. unfold head_of in Hh. inv_res. rename select (at_index (ports r0) port = _) into Hpp.
  rename select (at_index (vc_heads _) _ = _) into Hhd. destruct (rw_ports _ Hwf0 _ _ Hpp) as [Hw _].
  pose proof (pw_heads _ _ _ _ _ Hw) as Hho. unfold heads_ok in Hho. rewrite Hho in Hhd. apply at_index_Ok in Hhd as [_ Hhd].
  rewrite list_lookup_fmap in Hhd. destruct (input_buf _ !! Z.to_nat vc) as [q'|] eqn:Eq; [|done]. injection Hhd as Hhd.
  destruct q' as [|e q']; [done|]. injection Hhd as ->.
  exists q', np, x. split; [|split; [done|split; [done|split; [|split; [done|split; [done|split; [lia|done]]]]]]].
  - unfold in_view. rewrite Hpp. cbn [mbind res_bind]. apply at_index_Ok. split; [lia|done].
  - unfold space_view. by rewrite Hq.
Qed.

Lemma grant_port_unique port vc vc' ev ev' : (port, vc, ev) ∈ gs -> (port, vc', ev') ∈ gs -> vc' = vc /\ ev' = ev.
Proof.
  intros H1 H2. assert ((port, vc', ev') = (port, vc, ev)) as [= -> ->]; [|done].
  by eapply (NoDup_image granted_port); [apply (ma_ports _ _ _ _ _ Hmatch)|..].
Qed.
Lemma grant_target_unique port port' vc vc' ev ev' :
  (port, vc, ev) ∈ gs -> (port', vc', ev') ∈ gs -> next_port ev' = next_port ev -> port' = port.
Proof.
  intros H1 H2 E. assert ((port', vc', ev') = (port, vc, ev)) as [= -> _ _]; [|done].
  by eapply (NoDup_image granted_target); [apply (ma_targets _ _ _ _ _ Hmatch)|..].
Qed.

(** The ports below [i] have moved what was granted. *)
Record moved (i : Z) r : Prop := {
  mv_wf : router_wf r;
  mv_rest : arb r = arb r0 /\ progress_vcs (xbar r) = progress_vcs (xbar r0) /\ length (xbar_stalls r) = n;
  mv_in_busy : busy_after i (in_port_busy (xbar r0)) (in_port_busy (xbar r));
  mv_out_busy : busy_after i (out_port_busy (xbar r0)) (out_port_busy (xbar r));
  mv_steps : crossbar_steps (ports r0) (ports r);
  mv_in j k ev : (j, k, ev) ∈ gs -> j < i ->
    exists rest rest', in_view r0 j k = Ok (ev :: rest) /\ in_view r j k = Ok rest' /\ advances t j rest rest';
  mv_in_other j k : (forall ev, (j, k, ev) ∈ gs -> i <= j) -> in_view r j k = in_view r0 j k;
  mv_out j k ev np : (j, k, ev) ∈ gs -> j < i -> next_port ev = Some np ->
    exists q, out_view r0 np (ire_vc ev) = Ok q /\ out_view r np (ire_vc ev) = Ok (q ++ [ev]);
  mv_out_other np v : (forall j k ev, (j, k, ev) ∈ gs -> next_port ev = Some np -> ire_vc ev = v -> i <= j) ->
    out_view r np v = out_view r0 np v /\ space_view r np v = space_view r0 np v;
  mv_still : gs = [] -> ports r = ports r0
}.

Lemma moved_busy i r r' :
  0 <= i < Z.of_nat n -> moved i r ->
  (topo r' = topo r /\ xbar r' = xbar r /\ arb r' = arb r /\ length (xbar_stalls r') = length (xbar_stalls r)) ->
  router_wf r' -> crossbar_steps (ports r) (ports r') ->
  (forall j k ev, (j, k, ev) ∈ gs -> j < i + 1 ->
    exists rest rest', in_view r0 j k = Ok (ev :: rest) /\ in_view r' j k = Ok rest' /\ advances t j rest rest') ->
  (forall j k, (forall ev, (j, k, ev) ∈ gs -> i + 1 <= j) -> in_view r' j k = in_view r0 j k) ->
  (forall j k ev np, (j, k, ev) ∈ gs -> j < i + 1 -> next_port ev = Some np ->
    exists q, out_view r0 np (ire_vc ev) = Ok q /\ out_view r' np (ire_vc ev) = Ok (q ++ [ev])) ->
  (forall np v, (forall j k ev, (j, k, ev) ∈ gs -> next_port ev = Some np -> ire_vc ev = v -> i + 1 <= j) ->
    out_view r' np v = out_view r0 np v /\ space_view r' np v = space_view r0 np v) ->
  (gs = [] -> ports r' = ports r0) ->
  runs (b1 ← getsR (fun r => count_down i (in_port_busy (xbar r)));
        b2 ← getsR (fun r => count_down i (out_port_busy (xbar r)));
        modify (fun r => r <| xbar ::= fun b => mkXbar b1 b2 (progress_vcs b) |>)) r' (fun _ r'' => moved (i + 1) r'').
Proof.
  intros Hi [Hwf (Ha & Hpr & Hst) Hb1 Hb2 Hs _ _ _ _ _] (H1 & H2 & H3 & H4) Hwf' Hs' Vi Vio Vo Voo Hstill.
  destruct (ma_arrays _ _ _ _ _ Hmatch) as [L1 L2 L3].
  destruct (count_down_step i _ _ ltac:(by rewrite L1) Hb1) as (l1 & E1 & Hl1).
  destruct (count_down_step i _ _ ltac:(by rewrite L2) Hb2) as (l2 & E2 & Hl2).
  eapply runs_bind, runs_getsR; [by rewrite H2|]. eapply runs_bind, runs_getsR; [by rewrite H2|]. apply runs_modify.
  constructor; cbn; try done.
  - by destruct Hwf'.
  - split; [congruence|]. split; [congruence|]. congruence.
  - by etrans.
Qed.

Lemma move_idle now i r :
  0 <= i < Z.of_nat n -> i ∉ granted_port <$> gs -> moved i r ->
  runs (move_port reregisterClock now i) r (fun _ r' => moved (i + 1) r').
Proof.
  intros Hi Hno Hm. pose proof Hm as [Hwf (Ha & Hpr & Hst) Hb1 Hb2 Hs Vi Vio Vo Voo Hstill].
  destruct (ma_idle _ _ _ _ _ Hmatch i Hi Hno) as (_ & v & Ev & Hv).
  assert (forall j k ev, (j, k, ev) ∈ gs -> j <> i) as Hne.
  { intros j k ev Hg ->. apply Hno, list_elem_of_fmap. by exists (i, k, ev). }
  unfold move_port. eapply runs_bind, runs_getsR; [by rewrite Hpr|]. rewrite (proj2 (Z.ltb_ge _ _)) by lia.
  assert (runs (when (v =? -2) (add_stall i)) r (fun _ r' => (topo r' = topo r /\ xbar r' = xbar r /\ arb r' = arb r /\
    length (xbar_stalls r') = length (xbar_stalls r)) /\ ports r' = ports r)) as Hstall.
  { apply runs_when; [|done]. intros _. unfold add_stall. eapply runs_bind, runs_getsR.
    - apply add_at_Ok. split; [by rewrite Hst|done].
    - apply runs_modify. cbn. by rewrite length_insert. }
  eapply runs_step; [exact Hstall|]. intros _ r1 [Hr1 Hps].
  assert (forall j k, in_view r1 j k = in_view r j k /\ out_view r1 j k = out_view r j k /\ space_view r1 j k = space_view r j k) as Hv1.
  { intros j k. unfold in_view, out_view, space_view. by rewrite Hps. }
  apply (moved_busy i r r1 Hi Hm Hr1); [| |intros j k..| |].
  - destruct Hwf. constructor; rewrite ?Hps; [|done|done]. destruct Hr1 as (-> & _). done.
  - rewrite Hps. reflexivity.
  - intros ev Hg Hlt. rewrite (proj1 (Hv1 j k)). apply Vi; [done|]. pose proof (Hne _ _ _ Hg). lia.
  - intros Hg. rewrite (proj1 (Hv1 j k)). apply Vio. intros ev Hin. specialize (Hg ev Hin). lia.
  - intros ev np Hg Hlt Enp. rewrite (proj1 (proj2 (Hv1 _ _))). eapply Vo; [done| |done]. pose proof (Hne _ _ _ Hg). lia.
  - intros np w Hg. destruct (Hv1 np w) as (_ & -> & ->). apply Voo. intros j k ev Hin E1 E2. specialize (Hg j k ev Hin E1 E2). lia.
  - intros E. rewrite Hps. by apply Hstill.
Qed.

Lemma move_granted now i vc ev r :
  (i, vc, ev) ∈ gs -> moved i r -> runs (move_port reregisterClock now i) r (fun _ r' => moved (i + 1) r').
Proof.
  intros Hg Hm. pose proof Hm as [Hwf (Ha & Hpr & Hst) Hb1 Hb2 Hs Vi Vio Vo Voo Hstill].
  destruct (grant_facts _ _ _ Hg) as (rest & np & c & Hin & Enp & Hf & Hsp & Hc & Hi & Hvc & Hprog).
  unfold move_port. eapply runs_bind, runs_getsR; [by rewrite Hpr|]. rewrite (proj2 (Z.ltb_lt _ _)) by lia.
  assert (in_view r i vc = Ok (ev :: rest)) as Hin1 by (rewrite Vio; [done|lia]).
  assert (forall j k ev', (j, k, ev') ∈ gs -> next_port ev' = Some np -> j = i) as Hnp.
  { intros j k ev' Hg' E. eapply grant_target_unique; [exact Hg|exact Hg'|congruence]. }
  assert (space_view r np (ire_vc ev) = Ok c) as Hsp1.
  { rewrite (proj2 (Voo np (ire_vc ev) ltac:(intros j k ev' Hg' E _; rewrite (Hnp _ _ _ Hg' E); lia))). done. }
  eapply runs_step; [by apply (cross_runs now r i vc ev rest np c); [..|lia| |]|].
  intros _ r1 (Hwf1 & (H1 & H2 & H3 & H4) & Hst1 & [(rest1 & rest' & C1 & C2 & C3) Ci (q & Co1 & Co2) Co Cs]).
  apply (moved_busy i r r1 Hi Hm); [by rewrite H1, H2, H3, H4|done|done|intros j k..| |by intros ->; apply elem_of_nil in Hg].
  - intros ev' Hg' Hlt. destruct (decide (j = i)) as [->|Hne].
    + destruct (grant_port_unique _ _ _ _ _ Hg Hg') as [-> ->]. rewrite Hin1 in C1. injection C1 as <-. by exists rest, rest'.
    + rewrite Ci by congruence. apply Vi; [done|lia].
  - intros Hg'. destruct (decide ((j, k) = (i, vc))) as [[= -> ->]|Hne]; [specialize (Hg' ev Hg); lia|].
    rewrite Ci by done. apply Vio. intros ev' Hin'. specialize (Hg' ev' Hin'). lia.
  - intros ev' np' Hg' Hlt Enp'. destruct (decide (j = i)) as [->|Hne].
    + destruct (grant_port_unique _ _ _ _ _ Hg Hg') as [-> ->]. rewrite Enp in Enp'. injection Enp' as <-.
      exists q. split; [|done]. rewrite <- Co1. symmetry. apply (Voo np (ire_vc ev)).
      intros j' k' ev' Hg'' E _. rewrite (Hnp _ _ _ Hg'' E). lia.
    + rewrite Co; [eapply Vo; [done|lia|done]|]. intros [= -> _]. by apply Hne, (Hnp _ _ _ Hg').
  - intros np' w Hg'. assert ((np', w) <> (np, ire_vc ev)) as Hne.
    { intros [= -> ->]. specialize (Hg' i vc ev Hg Enp eq_refl). lia. }
    rewrite Co, Cs by done. apply Voo. intros j k ev' Hin' E1 E2. specialize (Hg' j k ev' Hin' E1 E2). lia.
Qed.

Lemma moves_run now k : forall i r, 0 <= i -> i + Z.of_nat k = Z.of_nat n -> moved i r ->
  runs (forM (seqZ i (Z.of_nat k)) (move_port reregisterClock now)) r (fun _ r' => moved (Z.of_nat n) r').
Proof.
  induction k as [|k IH]; intros i r Hi Hk Hm.
  - apply runs_skip. by replace (Z.of_nat n) with i by lia.
  - rewrite seqZ_cons by lia. cbn [forM]. replace (Z.pred (Z.of_nat (S k))) with (Z.of_nat k) by lia.
    assert (runs (move_port reregisterClock now i) r (fun _ r' => moved (i + 1) r')) as Hstep.
    { destruct (decide (i ∈ granted_port <$> gs)) as [([[p vc] ev] & -> & Hg)%list_elem_of_fmap|Hno].
      - by eapply move_granted.
      - apply move_idle; [lia|done|done]. }
    eapply runs_step; [exact Hstep|]. intros u r1 Hm1. apply IH; [lia|lia|by replace (Z.succ i) with (i + 1) by lia].
Qed.

Lemma moved_start : moved 0 r0.
Proof.
  assert (forall l, busy_after 0 l l) as Hb.
  { intros l. split; [done|]. intros j v Hv. pose proof Hv as [Hj _]%at_index_Ok. by rewrite (proj2 (Z.ltb_ge _ _)). }
  constructor; try done; try by apply Hb.
  - intros j k ev Hg Hlt. destruct (grant_facts _ _ _ Hg) as (? & ? & ? & _ & _ & _ & _ & _ & Hj & _). lia.
  - intros j k ev np Hg Hlt. destruct (grant_facts _ _ _ Hg) as (? & ? & ? & _ & _ & _ & _ & _ & Hj & _). lia.
Qed.
End moves.

(** *** The whole cycle *)

Context {XL : XbarLaws X D A}.

(** A router that works: its ports, its arrays and its arbitration in order. *)
Record works r : Prop := {
  wo_wf : router_wf r;
  wo_arrays : xbar_arrays n (xbar r);
  wo_stalls : length (xbar_stalls r) = n;
  wo_arb : xbar_ok n m (arb r)
}.

Lemma router_wf_same r r' : router_wf r -> topo r' = topo r -> ports r' = ports r -> router_wf r'.
Proof. intros [H1 H2 H3] E1 E2. constructor; [congruence|by rewrite E2|by rewrite E2]. Qed.

Lemma work_runs now r :
  works r -> exists r' gs b' a', work reregisterClock now r = Ok (tt, r') /\ works r' /\
    xbar_arbitrate (ports r) (xbar r) (arb r) = Ok (b', a') /\ matching (ports r) n (xbar r) gs b' /\
    moved (r <| xbar := b' |> <| arb := a' |>) gs (Z.of_nat n) r'.
Proof.
  intros [Hwf Harr Hst Harb].
  destruct (xbar_matches n m (ports r) (xbar r) (arb r) Harb (rw_count _ Hwf) (router_ready _ Hwf) Harr) as (b' & a' & gs & E & Ha' & Hm).
  set (r0 := r <| xbar := b' |> <| arb := a' |>). assert (router_wf r0) as Hwf0 by by eapply router_wf_same.
  destruct (moves_run r0 gs (xbar r) Hwf0 Hst Hm now n 0 r0) as ([] & r' & Er & Hmv); [lia|lia|by eapply moved_start|].
  exists r', gs, b', a'. split; [|split; [|done]].
  - unfold work. erewrite bind_step by (apply getsR_Ok; split; [exact E|done]). cbn beta iota.
    erewrite bind_step by reflexivity. erewrite bind_step by reflexivity. cbn beta. fold r0.
    change (length (ports r0)) with (length (ports r)). rewrite (rw_count _ Hwf). exact Er.
  - destruct Hmv as [Hwf' (Ha & Hpr & Hs) [L1 _] [L2 _] _ _ _ _ _ _]. destruct (ma_arrays _ _ _ _ _ Hm) as [M1 M2 M3].
    constructor; [done| |done|]; [|by rewrite Ha]. constructor; [by rewrite L1|by rewrite L2|by rewrite Hpr].
Qed.
End clock.
