(* ===== verification/RouterCycle.v ===== *)
(** * RouterCycle: the router and its links, its clock and its topology

    What a cycle of the router's clock means to the rest: the packets it moves, the
    steps it is for the links of its ports, and what it takes to do without it while
    nothing waits. The torus is shown to be a topology a router can work with. *)

From stdpp Require Import relations.
From S2P Require Import Prelude Merlin Arbitration PortControl FlowControl LinkSystem XbarArb XbarMatch.
From S2P Require Import HrRouter RouterWake RouterPorts RouterClock.

(** ** A cycle *)

Section cycle.
Context {T D A X : Type} {HT : Topology T D} {HA : SingleArbitration A} {HX : XbarArbitration X D A} {HL : TopologyLaws T D}.
Context {XL : XbarLaws X D A}.
Variables (reregisterClock : Z -> Z) (n m : nat) (t : T) (carried : Z -> internal_router_event D -> Prop).
Implicit Types (r : Router T D A X) (p : Port D A) (ev : internal_router_event D).

(** C5. A cycle of a router whose ports are in order always ends. The arbitration makes
    a maximal matching; each granted packet leaves the input queue it was first in,
    whose next packet is routed, and joins the output queue of its next port; all
    other queues stay as they are, and every busy time counts down by one. *)
Theorem cycle_moves_granted now r :
  routes_within n m t carried -> works n m t carried r ->
  exists r' gs b', work reregisterClock now r = Ok (tt, r') /\ works n m t carried r' /\
    matching (ports r) n (xbar r) gs b' /\
    (forall port vc ev, (port, vc, ev) ∈ gs ->
       (exists rest rest', in_view r port vc = Ok (ev :: rest) /\ in_view r' port vc = Ok rest' /\ advances t port rest rest') /\
       exists np q, next_port ev = Some np /\ out_view r np (ire_vc ev) = Ok q /\ out_view r' np (ire_vc ev) = Ok (q ++ [ev])) /\
    (forall port vc, (forall ev, (port, vc, ev) ∉ gs) -> in_view r' port vc = in_view r port vc) /\
    (forall np v, (forall port vc ev, (port, vc, ev) ∈ gs -> next_port ev = Some np -> ire_vc ev <> v) ->
       out_view r' np v = out_view r np v) /\
    (forall port v, at_index (in_port_busy b') port = Ok v -> at_index (in_port_busy (xbar r')) port = Ok (count_one v)) /\
    (forall port v, at_index (out_port_busy b') port = Ok v -> at_index (out_port_busy (xbar r')) port = Ok (count_one v)).
Proof.
  intros Hroutes Hw. destruct (work_runs reregisterClock n m t carried Hroutes now r Hw) as (r' & gs & b' & a' & E & Hw' & _ & Hm & Hmv).
  destruct Hmv as [_ _ [L1 B1] [L2 B2] _ Vi Vio Vo Voo _]. destruct (ma_arrays _ _ _ _ _ Hm) as [M1 M2 _].
  assert (forall port vc ev, (port, vc, ev) ∈ gs -> 0 <= port < Z.of_nat n /\ exists np, next_port ev = Some np) as Hr.
  { intros port vc ev Hg. destruct (ma_granted _ _ _ _ _ Hm _ _ _ Hg) as ((Hh & _) & _ & _ & np & Enp & _).
    pose proof (wo_wf _ _ _ _ _ Hw) as Hwf.
    destruct (head_ready n m (ports r) (rw_count _ _ _ _ _ Hwf) (router_ready n m t carried r Hwf) _ _ _ Hh) as (Hp & _).
    split; [done|by exists np]. }
  exists r', gs, b'. split; [done|]. split; [done|]. split; [done|]. split_and!.
  - intros port vc ev Hg. destruct (Hr _ _ _ Hg) as [Hp [np Enp]]. split; [apply Vi; [done|lia]|].
    destruct (Vo _ _ _ np Hg ltac:(lia) Enp) as (q & Hq). by exists np, q.
  - intros port vc Hno. apply Vio. intros ev Hg. by destruct (Hno ev).
  - intros np v Hno. apply Voo. intros port vc ev Hg Enp Ev. by destruct (Hno _ _ _ Hg Enp).
  - intros port v Hv. pose proof Hv as [Hp0 Hlt]%at_index_Ok. apply lookup_lt_Some in Hlt. cbn in B1. rewrite (B1 _ _ Hv).
    by rewrite (proj2 (Z.ltb_lt _ _)) by lia.
  - intros port v Hv. pose proof Hv as [Hp0 Hlt]%at_index_Ok. apply lookup_lt_Some in Hlt. cbn in B2. rewrite (B2 _ _ Hv).
    by rewrite (proj2 (Z.ltb_lt _ _)) by lia.
Qed.

Lemma side_steps_link (l l' other : side (T := T) (D := D) (A := A)) :
  rtc (side_step (sent (s_port other))) l l' -> rtc link_step (l, other) (l', other).
Proof.
  induction 1 as [l|l l1 l' Hs _ IH]; [done|]. eapply rtc_l; [by apply left_steps|done].
Qed.

(** C9. The router is a crossbar of the link system: whatever is at the other end of
    the link of one of its ports, a cycle is a sequence of steps of that link. So the
    credits of [LinkSystem] are kept by routers, and no buffer overflows. *)
Theorem cycle_refines_crossbar now r :
  routes_within n m t carried -> works n m t carried r ->
  exists r', work reregisterClock now r = Ok (tt, r') /\ works n m t carried r' /\
    forall i p p' taken fired other, at_index (ports r) i = Ok p -> at_index (ports r') i = Ok p' ->
      rtc link_step (mkSide t p taken fired, other) (mkSide t p' taken fired, other).
Proof.
  intros Hroutes Hw. destruct (work_runs reregisterClock n m t carried Hroutes now r Hw) as (r' & gs & b' & a' & E & Hw' & _ & _ & Hmv).
  exists r'. split; [done|]. split; [done|]. intros i p p' tk f other Hp Hp'. destruct (mv_steps _ _ _ _ _ _ _ _ Hmv) as [_ Hs].
  apply side_steps_link. by eapply Hs.
Qed.
End cycle.

(** ** Without a clock *)

Section idle.
Context {T D A : Type} {HT : Topology T D} {HA : SingleArbitration A} {HL : TopologyLaws T D}.
Variables (reregisterClock : Z -> Z) (n m : nat) (t : T) (carried : Z -> internal_router_event D -> Prop).
Hypothesis Hroutes : routes_within n m t carried.
Implicit Types (r : Router T D A XbarLru.t).

(** Nothing waits at any port. *)
Definition no_heads r : Prop := forall port vc ev, head_of (ports r) port vc <> Ok (Some ev).

Lemma no_heads_no_grants r b' gs : no_heads r -> matching (ports r) n (xbar r) gs b' -> gs = [].
Proof.
  intros Hno Hm. destruct gs as [|[[port vc] ev] gs]; [done|]. exfalso.
  destruct (ma_granted _ _ _ _ _ Hm port vc ev) as ((Hh & _) & _); [by left|]. by eapply Hno.
Qed.

Lemma same_lookups (l l' : list Z) :
  length l = n -> length l' = n -> (forall i, 0 <= i < Z.of_nat n -> at_index l' i = at_index l i) -> l' = l.
Proof.
  intros H1 H2 H. apply list_eq. intros i. destruct (decide (i < n)%nat) as [Hi|Hi].
  - specialize (H (Z.of_nat i) ltac:(lia)). destruct (lookup_lt_is_Some_2 l i) as [x Hx]; [lia|].
    rewrite (at_index_nat _ _ _ Hx) in H. apply at_index_Ok in H as [_ H]. rewrite Nat2Z.id in H. congruence.
  - rewrite !lookup_ge_None_2; [done|lia|lia].
Qed.

Lemma busy_after_all (l l' : list Z) : length l = n -> busy_after (Z.of_nat n) l l' -> l' = count_one <$> l.
Proof.
  intros Hl [Hl' H]. apply same_lookups; [by rewrite length_fmap|lia|]. intros i Hi.
  destruct (at_index_in_range l i ltac:(lia)) as [v Hv]. rewrite (H _ _ Hv), (proj2 (Z.ltb_lt _ _)) by lia.
  apply at_index_Ok in Hv as [H0 Hv]. symmetry. apply at_index_Ok. split; [done|]. by rewrite list_lookup_fmap, Hv.
Qed.

(** An idle cycle only counts the busy times down. *)
Lemma idle_work now r :
  works n m t carried r -> no_heads r ->
  exists r', work reregisterClock now r = Ok (tt, r') /\ works n m t carried r' /\ ports r' = ports r /\
    in_port_busy (xbar r') = count_one <$> in_port_busy (xbar r) /\
    out_port_busy (xbar r') = count_one <$> out_port_busy (xbar r) /\
    XbarLru.cur_list (arb r') = XbarLru.cur_list (arb r).
Proof.
  intros Hw Hno. destruct (work_runs reregisterClock n m t carried Hroutes now r Hw) as (r' & gs & b' & a' & E & Hw' & Ea & Hm & Hmv).
  pose proof (no_heads_no_grants r b' gs Hno Hm) as ->. exists r'. split; [done|]. split; [done|].
  destruct Hmv as [_ (Ha & _) B1 B2 _ _ _ _ _ Hstill]. cbn in *. destruct (wo_arrays _ _ _ _ _ Hw) as [L1 L2 _].
  destruct (ma_arrays _ _ _ _ _ Hm) as [M1 M2 _]. split; [by apply Hstill|]. split_and!.
  - rewrite (busy_after_all _ _ M1 B1). f_equal. apply same_lookups; [done|done|]. intros i Hi. apply (ma_idle _ _ _ _ _ Hm); [done|set_solver].
  - rewrite (busy_after_all _ _ M2 B2). f_equal. apply same_lookups; [done|done|]. intros i Hi. apply (ma_free _ _ _ _ _ Hm). set_solver.
  - rewrite Ha. pose proof (router_ready n m t carried r (wo_wf _ _ _ _ _ Hw)) as Hready.
    destruct (lru_arbitrate_spec n m (ports r) (rw_count _ _ _ _ _ (wo_wf _ _ _ _ _ Hw)) Hready (arb r) (xbar r) (wo_arb _ _ _ _ _ Hw) (wo_arrays _ _ _ _ _ Hw))
      as (b2 & gs2 & E2 & _ & Hm2 & _).
    change (XbarLru.arbitrate (ports r) (xbar r) (arb r) = Ok (b', a')) in Ea. rewrite E2 in Ea. injection Ea as _ <-. cbn.
    rewrite (no_heads_no_grants r b2 gs2 Hno Hm2). unfold walked, entries. cbn. rewrite app_nil_r.
    clear. induction (XbarLru.cur_list (arb r)) as [|e l IH]; [done|]. rewrite filter_cons_True by set_solver. by rewrite IH.
Qed.

Lemma count_down_all k (l : list Z) :
  Forall (Z.le 0) l -> skip_busy (Z.of_nat (S k)) <$> l = skip_busy (Z.of_nat k) <$> (count_one <$> l).
Proof.
  intros H. rewrite <- list_fmap_compose. apply list_fmap_ext. intros i v Hv. pose proof (Forall_lookup_1 _ _ _ _ H Hv) as Hpos.
  unfold skip_busy, count_one, compose. destruct (Z.eqb_spec v 0) as [->|];
    repeat match goal with |- context [?a <? ?b] => destruct (Z.ltb_spec a b) end; lia.
Qed.

Lemma idle_cycles nows : forall r,
  works n m t carried r -> no_heads r -> Forall (Z.le 0) (in_port_busy (xbar r)) -> Forall (Z.le 0) (out_port_busy (xbar r)) ->
  exists r', forM nows (work reregisterClock) r = Ok (tt, r') /\ ports r' = ports r /\
    in_port_busy (xbar r') = skip_busy (Z.of_nat (length nows)) <$> in_port_busy (xbar r) /\
    out_port_busy (xbar r') = skip_busy (Z.of_nat (length nows)) <$> out_port_busy (xbar r) /\
    XbarLru.cur_list (arb r') = XbarLru.cur_list (arb r).
Proof.
  assert (forall l, Forall (Z.le 0) l -> skip_busy 0 <$> l = l) as H0.
  { intros l Hl. induction Hl as [|v l Hv _ IH]; [done|]. cbn. rewrite IH. f_equal. unfold skip_busy. destruct (Z.ltb_spec (v - 0) 0); lia. }
  induction nows as [|now nows IH]; intros r Hw Hno Hi Ho; cbn [forM length].
  - exists r. split; [done|]. split; [done|]. by rewrite !H0.
  - destruct (idle_work now r Hw Hno) as (r1 & E & Hw1 & Hp1 & Hi1 & Ho1 & Hc1).
    assert (forall l, Forall (Z.le 0) l -> Forall (Z.le 0) (count_one <$> l)) as Hpos.
    { intros l Hl. apply Forall_fmap. eapply Forall_impl; [exact Hl|]. intros v Hv. unfold compose, count_one. destruct (Z.eqb_spec v 0); lia. }
    destruct (IH r1 Hw1) as (r2 & E2 & Hp2 & Hi2 & Ho2 & Hc2).
    + intros port vc ev. rewrite Hp1. apply Hno.
    + rewrite Hi1. by apply Hpos.
    + rewrite Ho1. by apply Hpos.
    + exists r2. rewrite (bind_step _ _ _ _ _ E), E2. split; [done|]. split; [congruence|].
      rewrite !count_down_all by done. rewrite Hi2, Ho2, Hi1, Ho1. split; [done|]. split; [done|congruence].
Qed.

(** C32. Stopping the clock changes nothing: a router whose clock stopped at one cycle
    and goes on at a later one has the busy times and the priorities it would have
    had with all the cycles in between, none of which moves anything. *)
Theorem stopped_clock_equivalent now nows r :
  works n m t carried r -> no_heads r -> Forall (Z.le 0) (in_port_busy (xbar r)) -> Forall (Z.le 0) (out_port_busy (xbar r)) ->
  reregisterClock now = unclocked_cycle r + Z.of_nat (length nows) ->
  exists ran woken, forM nows (work reregisterClock) r = Ok (tt, ran) /\ notifyEvent reregisterClock now r = Ok (tt, woken) /\
    ports ran = ports r /\ ports woken = ports r /\
    in_port_busy (xbar woken) = in_port_busy (xbar ran) /\ out_port_busy (xbar woken) = out_port_busy (xbar ran) /\
    XbarLru.cur_list (arb woken) = XbarLru.cur_list (arb ran).
Proof.
  intros Hw Hno Hi Ho Hclock. destruct (idle_cycles nows r Hw Hno Hi Ho) as (ran & E & Hp & Hri & Hro & Hc).
  exists ran. eexists. split; [done|]. split; [reflexivity|]. cbn. rewrite Hclock.
  replace (unclocked_cycle r + Z.of_nat (length nows) - unclocked_cycle r) with (Z.of_nat (length nows)) by lia.
  split_and!; [done|done|by rewrite Hri|by rewrite Hro|by rewrite Hc].
Qed.
End idle.
