(* ===== verification/TorusRouter.v ===== *)
(** * TorusRouter: a torus is a network routers can work in

    The packets of a torus, between their endpoint and their destination, are such
    that the router they are at can route them, to one of its ports and within its
    virtual channels; and the next router finds them so again. *)

From S2P Require Import Prelude Merlin Grid GridRoute Arbitration PortControl FlowControl XbarArb HrRouter RouterWake RouterPorts.

#[local] Existing Instance torus_topology.

(** A packet on its way that waits at a port of the router at [loc]. *)
Definition torus_carried (t : Grid) (loc : list Z) (port : Z) (ev : event) : Prop :=
  exists re dl last, packet_ok torus_direction t re dl loc port ev last /\ in_box (dim_size t) dl /\
    get_dest_router t (re_dest re) = Ok (locationToId (dim_size t) dl) /\
    0 <= re_dest re < routers (dim_size t) * num_local_ports t /\ 0 <= route_vn re < num_vns t.

Lemma port_link_from base widths k p r :
  Forall (Z.lt 0) widths -> port_link (port_starts base widths) widths k p = Some r -> base <= p.
Proof.
  intros H. revert base k. induction H as [|w widths Hw _ IH]; intros base k E; [done|]. cbn in E.
  destruct ((base <=? p) && _) eqn:E1; [apply andb_prop in E1 as [E1 _]; lia|].
  destruct ((base + w <=? p) && _) eqn:E2; [apply andb_prop in E2 as [E2 _]; lia|]. apply IH in E. lia.
Qed.

Section torus.
Context (t : Grid) (Hwf : grid_wf t).

Lemma neighbour_port wrap loc p x : neighbour wrap t loc p = Some x -> 0 <= p.
Proof.
  unfold neighbour. intros H. destruct (port_link (port_start t) (dim_width t) 0 p) as [r|] eqn:E; [|done].
  rewrite (wf_starts _ Hwf) in E. by eapply port_link_from, E; apply (wf_widths _ Hwf).
Qed.

Lemma carried_vc re dl loc port ev last :
  packet_ok torus_direction t re dl loc port ev last -> 0 <= ire_vc ev - 2 * route_vn re <= 1.
Proof.
  intros Hp. pose proof (pk_way _ _ _ _ _ _ _ _ Hp) as H. destruct last as [rk|].
  - destruct H as (b & _ & _ & _ & _ & _ & Hv & Hb & _). lia.
  - destruct H as [_ Hv]. lia.
Qed.

(** Where the router sends a packet it carries. *)
Lemma carried_hop loc port ev :
  torus_carried t loc port ev ->
  exists ev' p, grid_route torus_direction (node t loc) port (ire_vc ev) ev = Ok ev' /\ next_port ev' = Some p /\
    0 <= p < local_port_start t + num_local_ports t /\ 0 <= ire_vc ev' < 2 * num_vns t /\
    (p < local_port_start t -> exists loc' port', neighbour true t loc p = Some (loc', port') /\ torus_carried t loc' port' ev').
Proof.
  intros (re & dl & last & Hp & Hd & Hdr & Hdest & Hvn). pose proof (wf_locals _ Hwf) as Hloc.
  assert (0 <= local_port_start t) as Hlps.
  { rewrite (wf_local_start _ Hwf). apply needed_ports_nonneg, (wf_widths _ Hwf). }
  destruct (decide (loc = dl)) as [->|Hne].
  - pose proof (wf_fits _ Hwf). pose proof (Z.mod_pos_bound (re_dest re) (num_local_ports t) Hloc). pose proof (carried_vc _ _ _ _ _ _ Hp).
    exists (setNextPort (local_port_start t + re_dest re mod num_local_ports t) ev), (local_port_start t + re_dest re mod num_local_ports t).
    unfold grid_route. replace (getDest ev) with (re_dest re) by (unfold getDest; by erewrite pk_event).
    change (get_dest_router (node t dl) (re_dest re)) with (get_dest_router t (re_dest re)). rewrite Hdr. cbn [mbind res_bind router_id node].
    rewrite Z.eqb_refl. change (get_dest_local_port (node t dl) (re_dest re)) with (get_dest_local_port t (re_dest re)).
    unfold get_dest_local_port. rewrite int_rem_Ok by lia. split; [done|]. split; [done|]. split; [lia|]. cbn. split; lia.
  - destruct (grid_step torus_direction true t Hwf re dl loc port ev last Hp Hd Hne Hdr)
      as (ev' & p & loc' & port' & E & Enp & Hlt & Enb & Hp' & _ & Hvc & _).
    exists ev', p. split; [done|]. split; [done|]. pose proof (neighbour_port _ _ _ _ Enb). split; [lia|]. split; [lia|].
    intros _. exists loc', port'. split; [done|]. by exists re, dl, (Some (rank t (mkChannel loc p (ire_vc ev')))).
Qed.

(** C33. The torus keeps its packets routable: the router at any location can route
    every packet it carries, to a port and a virtual channel it has; a packet an
    endpoint sends is one its router carries; and the router behind the chosen port
    carries it then. *)
Theorem torus_packets_routable n m loc :
  Z.of_nat n = local_port_start t + num_local_ports t -> Z.of_nat m = 2 * num_vns t ->
  routes_within n m (node t loc) (torus_carried t loc) /\
  (forall re port, enters t re loc port -> 0 <= route_vn re < num_vns t ->
     exists ev, grid_input (node t loc) re = Ok ev /\ torus_carried t loc port ev) /\
  (forall port ev ev' p, torus_carried t loc port ev ->
     grid_route torus_direction (node t loc) port (ire_vc ev) ev = Ok ev' -> next_port ev' = Some p -> p < local_port_start t ->
     exists loc' port', neighbour true t loc p = Some (loc', port') /\ torus_carried t loc' port' ev').
Proof.
  intros Hn Hm. split_and!.
  - intros port ev (ev' & p & E & Enp & Hp & Hvc & _)%carried_hop. exists ev'. split; [done|]. split; [lia|]. exists p. split; [done|lia].
  - intros re port [Hs Hport Hdest] Hvn.
    destruct (injected torus_direction t Hwf loc port re Hs Hport Hdest) as (ev & dl & lp & Ein & Hdl & Hp & Hr & _).
    exists ev. split; [done|]. by exists re, dl, None.
  - intros port ev ev' p Hc E Enp Hlt. apply carried_hop in Hc as (ev2 & p2 & E2 & Enp2 & _ & _ & Hnext).
    rewrite E in E2. injection E2 as <-. rewrite Enp in Enp2. injection Enp2 as <-. by apply Hnext.
Qed.
End torus.
