(* ===== verification/RouterDemo.v ===== *)
(** * RouterDemo: a router of a torus at work

    The router at [0;0;0] of a 4x4x2 torus, with two packets of an endpoint in one of
    its input queues: the concrete inputs of the theorems on routers. *)

From stdpp Require Import relations.
From S2P Require Import Prelude Merlin Grid GridRoute GridShape Arbitration PortControl FlowControl LinkSystem.
From S2P Require Import XbarArb XbarMatch XbarFair HrRouter RouterWake RouterPorts RouterClock RouterCycle TorusRouter.

#[local] Existing Instance torus_topology.

(** ** [router_wf] as a test *)

Section test.
Context {T D A X : Type} {HT : Topology T D}.
Variables (n m : nat) (t : T) (carried : Z -> internal_router_event D -> Prop).
Implicit Types (ev : internal_router_event D) (p : Port D A) (r : Router T D A X).

Definition in_range_b (k : nat) (z : Z) : bool := (0 <=? z) && (z <? Z.of_nat k).
Definition routed_b ev : bool :=
  in_range_b m (ire_vc ev) && match next_port ev with Some np => in_range_b n np | None => false end.
Definition packet_b (host : bool) ev : bool :=
  (0 <? getFlitCount ev) && (negb host || match credit_return_vc ev with Some v => in_range_b m v | None => false end).
Definition queue_b (host : bool) (q : list (internal_router_event D)) : bool :=
  match q with [] => true | ev :: _ => routed_b ev end && forallb (packet_b host) q.
Definition port_b p : bool :=
  (length (input_buf p) =? m)%nat && (length (output_buf p) =? m)%nat && (length (xbar_in_credits p) =? m)%nat &&
  (length (port_ret_credits p) =? m)%nat && (length (output_queue_lengths p) =? m)%nat &&
  match isHostPort t (port_number p) with Ok host => forallb (queue_b host) (input_buf p) | Err _ => false end.

(** The packets behind the first ones. *)
Definition waiting_behind (ps : list (Port D A)) : list (Z * internal_router_event D) :=
  p ← ps; q ← input_buf p; ev ← tail q; [(port_number p, ev)].

Lemma in_range_test k z : in_range_b k z = true -> 0 <= z < Z.of_nat k.
Proof. unfold in_range_b. intros [? ?]%andb_prop. lia. Qed.

Lemma queue_test port host q :
  queue_b host q = true -> Forall (carried port) (tail q) -> queue_ok n m carried port host q.
Proof.
  unfold queue_b. intros [H1 H2]%andb_prop Hc. split.
  - destruct q as [|ev q]; [done|]. split; [|done]. unfold routed_b in H1. apply andb_prop in H1 as [Hv Hn].
    apply in_range_test in Hv. destruct (next_port ev) as [np|] eqn:E; [|done]. apply in_range_test in Hn. split; [done|by exists np].
  - apply List.Forall_forall. intros ev Hin. rewrite forallb_forall in H2. specialize (H2 ev Hin). unfold packet_b in H2.
    apply andb_prop in H2 as [Hf Hh]. split; [lia|]. intros ->. cbn in Hh. destruct (credit_return_vc ev) as [v|]; [|done].
    apply in_range_test in Hh. by exists v.
Qed.

Lemma port_test p :
  port_b p = true -> heads_ok p -> (forall q, q ∈ input_buf p -> Forall (carried (port_number p)) (tail q)) ->
  port_wf n m t carried p.
Proof.
  unfold port_b. intros [[[[[H1 H2]%andb_prop H3]%andb_prop H4]%andb_prop H5]%andb_prop H6]%andb_prop Hh Hc.
  apply Nat.eqb_eq in H1, H2, H3, H4, H5. constructor; try done. destruct (isHostPort t (port_number p)) as [host|]; [|done].
  exists host. split; [done|]. apply Forall_forall. intros q Hq. rewrite forallb_forall in H6.
  apply queue_test; [by apply H6, list_elem_of_In|by apply Hc].
Qed.

Lemma router_test r :
  topo r = t -> length (ports r) = n -> port_number <$> ports r = seqZ 0 (Z.of_nat n) ->
  vc_heads <$> ports r = (fun p => head <$> input_buf p) <$> ports r -> forallb port_b (ports r) = true ->
  Forall (fun e => carried e.1 e.2) (waiting_behind (ports r)) -> router_wf n m t carried r.
Proof.
  intros Ht Hn Hnum Hh Hb Hc. constructor; [done|done|]. intros i p [Hi Hp]%at_index_Ok.
  assert (p ∈ ports r) as Hin by by eapply list_elem_of_lookup_2. split.
  - apply port_test.
    + rewrite forallb_forall in Hb. by apply Hb, list_elem_of_In.
    + pose proof (f_equal (lookup (Z.to_nat i)) Hh) as E. rewrite !list_lookup_fmap, Hp in E. by injection E.
    + intros q Hq. apply Forall_forall. intros ev Hev. rewrite Forall_forall in Hc. apply (Hc (port_number p, ev)).
      unfold waiting_behind. apply list_elem_of_bind. exists p. split; [|done]. apply list_elem_of_bind. exists q. split; [|done].
      apply list_elem_of_bind. exists ev. split; [by left|done].
  - pose proof (f_equal (lookup (Z.to_nat i)) Hnum) as E. rewrite list_lookup_fmap, Hp in E. cbn in E. symmetry in E.
    apply lookup_seqZ in E as [-> _]. lia.
Qed.
End test.

(** ** The router *)

Abbreviation demo_router := (Router Grid grid_event RoundRobin.t XbarLru.t).
Definition next_cycle (now : Z) : Z := now + 1.
Definition node_000 : Grid := Eval vm_compute in node torus_442 [0; 0; 0].
Definition demo_carried : Z -> event -> Prop := torus_carried torus_442 [0; 0; 0].

(** Ten ports, the last two to endpoints; nothing has arrived. *)
Definition fresh_router : demo_router := Eval vm_compute in
  new_router node_000
    ((fun i => initVCs i (8 <=? i) [2; 2] 8 8 false false 0 RoundRobin.new) <$> seqZ 0 10) (XbarLru.setPorts 10 4).

(** Two packets of endpoint 0 for endpoint 42 arrive. *)
Definition packet_to_42 : RtrEvent := mkRtrEvent 42 0 1 3.
Definition arrival (r : demo_router) : demo_router :=
  state_after r (at_port next_cycle 0 8 (fun t => handle_input_n2r t 0 (Packet packet_to_42)) r).
Definition one_packet : demo_router := Eval vm_compute in arrival fresh_router.
Definition two_packets : demo_router := Eval vm_compute in arrival one_packet.

(** How the second one waits. *)
Definition waiting_42 : event := mkIre packet_to_42 None 2 (Some 1) (mkGridEvent 0 [1; 1; 1]).

Lemma waiting_42_carried : demo_carried 8 waiting_42.
Proof.
  exists packet_to_42, [1; 1; 1], None. split; [|split; [|split; [|split]]]; [|repeat constructor; lia|by vm_compute|by vm_compute|done].
  constructor; try done.
  - repeat constructor; lia.
  - intros i Hi. cbn in Hi. lia.
Qed.

Lemma two_packets_works : works 10 4 node_000 demo_carried two_packets.
Proof.
  constructor; [|done|done|apply (setPorts_lru_ok 10 4); lia].
  apply router_test; [done|done|by vm_compute|by vm_compute|by vm_compute|].
  assert (waiting_behind (ports two_packets) = [(8, waiting_42)]) as -> by by vm_compute.
  constructor; [apply waiting_42_carried|done].
Qed.

Lemma fresh_works : works 10 4 node_000 demo_carried fresh_router.
Proof.
  constructor; [|done|done|apply (setPorts_lru_ok 10 4); lia].
  apply router_test; [done|done|by vm_compute|by vm_compute|by vm_compute|].
  assert (waiting_behind (ports fresh_router) = []) as -> by by vm_compute. constructor.
Qed.

Lemma demo_routes : routes_within 10 4 node_000 demo_carried.
Proof.
  intros port ev (ev' & p & E & Enp & Hp & Hvc & _)%(carried_hop torus_442 torus_442_wf).
  exists ev'. split; [exact E|]. cbn in Hp, Hvc. split; [lia|]. exists p. split; [done|lia].
Qed.

(** ** Witnesses *)

(** The first packet crosses to port 0 and the second one is routed. *)
Lemma cycle_moves_granted_witness :
  (exists r' gs b', work next_cycle 5 two_packets = Ok (tt, r') /\ matching (ports two_packets) 10 (xbar two_packets) gs b' /\
     granted_port <$> gs ⊆ seqZ 0 10) /\
  (exists r', work next_cycle 5 two_packets = Ok (tt, r') /\ out_view r' 0 2 = Ok [mkIre packet_to_42 (Some 0) 2 (Some 1) (mkGridEvent 0 [1; 1; 1])]).
Proof.
  destruct (cycle_moves_granted next_cycle 10 4 node_000 demo_carried 5 two_packets demo_routes two_packets_works)
    as (r' & gs & b' & E & _ & Hm & _).
  split.
  - exists r', gs, b'. split; [exact E|]. split; [exact Hm|]. intros port ([[p vc] ev] & -> & Hg)%list_elem_of_fmap.
    destruct (ma_granted _ _ _ _ _ Hm _ _ _ Hg) as (_ & Hp & _). apply at_index_Ok in Hp as [H0 Hlt].
    apply lookup_lt_Some in Hlt. rewrite (xa_progress _ _ (ma_arrays _ _ _ _ _ Hm)) in Hlt. apply elem_of_seqZ. cbn. lia.
  - exists r'. split; [exact E|]. assert (r' = state_after two_packets (work next_cycle 5 two_packets)) as -> by by rewrite E.
    by vm_compute.
Defined.

Lemma cycle_refines_crossbar_witness :
  exists r', work next_cycle 5 two_packets = Ok (tt, r') /\
    forall i p p' taken fired other, at_index (ports two_packets) i = Ok p -> at_index (ports r') i = Ok p' ->
      rtc link_step (mkSide node_000 p taken fired, other) (mkSide node_000 p' taken fired, other).
Proof.
  destruct (cycle_refines_crossbar next_cycle 10 4 node_000 demo_carried 5 two_packets demo_routes two_packets_works)
    as (r' & E & _ & H). exists r'. split; [exact E|exact H].
Defined.

(** Ports 8 and 0 are still busy with the end of a packet. *)
Definition resting : demo_router := Eval vm_compute in
  fresh_router <| xbar := mkXbar (<[8%nat := 4]> (replicate 10 0)) (<[0%nat := 4]> (replicate 10 0)) (replicate 10 (-1)) |>.

Lemma resting_works : works 10 4 node_000 demo_carried resting.
Proof. destruct fresh_works as [H1 H2 H3 H4]. constructor; [by destruct H1|done|done|exact H4]. Qed.

Lemma stopped_clock_equivalent_witness :
  exists ran woken, forM [1; 2; 3] (work next_cycle) resting = Ok (tt, ran) /\ notifyEvent next_cycle 2 resting = Ok (tt, woken) /\
    in_port_busy (xbar woken) = in_port_busy (xbar ran) /\ at_index (in_port_busy (xbar ran)) 8 = Ok 1.
Proof.
  destruct (stopped_clock_equivalent next_cycle 10 4 node_000 demo_carried demo_routes 2 [1; 2; 3] resting resting_works)
    as (ran & woken & E1 & E2 & _ & _ & H & _).
  - intros port vc ev. unfold head_of. intros H. inv_res. apply at_index_Ok in H as [_ H], H0 as [_ H0].
    assert (Forall (fun p => Forall (fun h => h = None) (vc_heads p)) (ports resting)) as Hn by (repeat constructor).
    apply (Forall_lookup_1 _ _ _ _ Hn) in H. by apply (Forall_lookup_1 _ _ _ _ H) in H0.
  - apply List.Forall_forall. intros v Hv. assert (forallb (Z.leb 0) (in_port_busy (xbar resting)) = true) as Hb by by vm_compute.
    rewrite forallb_forall in Hb. apply Z.leb_le, Hb, Hv.
  - apply List.Forall_forall. intros v Hv. assert (forallb (Z.leb 0) (out_port_busy (xbar resting)) = true) as Hb by by vm_compute.
    rewrite forallb_forall in Hb. apply Z.leb_le, Hb, Hv.
  - done.
  - exists ran, woken. split; [exact E1|]. split; [exact E2|]. split; [exact H|].
    assert (ran = state_after resting (forM [1; 2; 3] (work next_cycle) resting)) as -> by by rewrite E1.
    by vm_compute.
Defined.

(** The clock stops at once in a fresh router. *)
Definition asleep : demo_router := Eval vm_compute in state_after fresh_router (tick next_cycle 0 0 fresh_router).

Lemma clock_never_misses_packets_witness :
  clocked asleep = false /\ vcs_with_data asleep = 0 /\ forall p q, p ∈ ports asleep -> q ∈ input_buf p -> q = [].
Proof.
  destruct (clock_never_misses_packets next_cycle node_000 (ports fresh_router) (XbarLru.setPorts 10 4) asleep) as [H1 H2].
  - repeat constructor.
  - apply rtc_once. apply (clock_ticks next_cycle 0 0); by vm_compute.
  - split; [done|]. split; [done|]. by apply H2.
Defined.

Lemma torus_packets_routable_witness :
  routes_within 10 4 node_000 demo_carried /\
  exists ev, grid_input node_000 packet_to_42 = Ok ev /\ demo_carried 8 ev.
Proof.
  destruct (torus_packets_routable torus_442 torus_442_wf 10 4 [0; 0; 0]) as (H1 & H2 & _); [by vm_compute|by vm_compute|].
  split; [exact H1|]. apply (H2 packet_to_42 8); [|done]. constructor; [repeat constructor; lia|done|by vm_compute].
Defined.

(** The round robin after an idle cycle with the clock, and after one without. *)
Definition idle_ports : list (Port unit unit) := Eval vm_compute in quiet_port <$> [0; 1; 2; 3].
Definition rr_ran : Xbar * XbarRR.t := Eval vm_compute in
  match XbarRR.arbitrate idle_ports all_free (XbarRR.setPorts 4 2) with Ok r => r | Err _ => (all_free, XbarRR.setPorts 4 2) end.
Definition rr_skipped : XbarRR.t := Eval vm_compute in
  match XbarRR.reportSkippedCycles 1 (XbarRR.setPorts 4 2) with Ok a => a | Err _ => XbarRR.setPorts 4 2 end.
Definition rr_next (a : XbarRR.t) : res Z := '(b, _) ← XbarRR.arbitrate contended all_free a; at_index (progress_vcs b) 1.

(** Stopping the clock changes what the round robin grants: after a skipped idle
    cycle its channels are where they were, after one with the clock they have moved
    on, and the next packet granted is another one. *)
Theorem rr_skipping_differs :
  XbarRR.arbitrate idle_ports all_free (XbarRR.setPorts 4 2) = Ok rr_ran /\ rr_ran.1 = all_free /\
  XbarRR.reportSkippedCycles 1 (XbarRR.setPorts 4 2) = Ok rr_skipped /\
  rr_next rr_ran.2 = Ok 1 /\ rr_next rr_skipped = Ok 0.
Proof. split_and!; by vm_compute. Qed.
