(* ===== verification/FatTree.v ===== *)
(** * FatTree: the fat-tree topology of merlin

    Models [merlin/topology/fattree.h/.cc]: the shape string, the constructor that
    finds the place of a router in the tree, deterministic and adaptive routing, the
    untimed data of the init phase, and the links the builder
    [pymerlin-topo-fattree.py] makes. The arrays of credits that the router shares
    with the topology object are part of its state; the product of a number of
    credits and the parameter [adaptive_threshold] is a function the state is built
    with. *)

From Stdlib Require Import Ascii.
From S2P Require Import Prelude Merlin Grid.

(** ** State *)

Record vn_info := mkVnInfo { start_vc : Z; vn_num_vcs : Z; allow_adaptive : bool }.

Record FatTree := mkFatTree {
  rtr_level : nat;
  level_id : Z;
  level_group : Z;
  high_host : Z;
  low_host : Z;
  down_route_factor : Z;
  id : Z;
  up_ports : Z;
  down_ports : Z;
  num_ports : Z;
  num_vns : Z;
  num_vcs : Z;
  outputCredits : list Z;
  thresholds : list Z;
  vns : list vn_info
}.
#[export] Instance fattree_eta : Eta FatTree := fun t =>
  mkFatTree (rtr_level t) (level_id t) (level_group t) (high_host t) (low_host t) (down_route_factor t) (id t)
    (up_ports t) (down_ports t) (num_ports t) (num_vns t) (num_vcs t) (outputCredits t) (thresholds t) (vns t).

(** Packets carry nothing for this topology. *)
Abbreviation packet := (internal_router_event unit).

(** ** Construction *)

(** The downs and ups of one level, ["4,2"] or ["8"]. *)
Definition parse_level (sub : string) : Z * Z :=
  match find_char "," sub 0 0 with
  | None => (long_to_int (strtol sub), 0)
  | Some comma =>
      (long_to_int (strtol (String.substring 0 comma sub)),
       long_to_int (strtol (String.substring (S comma) (String.length sub - S comma) sub)))
  end.

Fixpoint parse_levels (n : nat) (shape : string) (start : nat) : list (Z * Z) :=
  match n with
  | O => []
  | S n' =>
      match find_char ":" shape 0 start with
      | Some e => parse_level (String.substring start (e - start) shape) :: parse_levels n' shape (S e)
      | None => parse_level (String.substring start (String.length shape - start) shape) :: parse_levels n' shape 0
      end
  end.
Definition parseShape (shape : string) : list (Z * Z) := parse_levels (S (count_char ":" shape)) shape 0.

(** The virtual channels of the virtual networks, each with its algorithm. *)
Fixpoint make_vns (curr_vc : Z) (algos : list string) : res (list vn_info) :=
  match algos with
  | [] => Ok []
  | a :: algos' =>
      adaptive ← (if bool_decide (a = "adaptive"%string) then Ok true
                  else if bool_decide (a = "deterministic"%string) then Ok false
                  else Err (Fatal "Unknown routing mode"));
      l ← make_vns (curr_vc + 1) algos'; Ok (mkVnInfo curr_vc 1 adaptive :: l)
  end.

(** The number of routers on each level, from the one before. *)
Fixpoint make_levels (before ups_before : Z) (shape : list (Z * Z)) : res (list Z) :=
  match shape with
  | [] => Ok []
  | (down, up) :: shape' =>
      n ← int_mul before ups_before; n ← int_div n down; l ← make_levels n up shape'; Ok (n :: l)
  end.
Definition routers_per_level (shape : list (Z * Z)) (total_hosts : Z) : res (list Z) :=
  match shape with
  | [] => Ok []
  | (down, up) :: shape' => n ← int_div total_hosts down; l ← make_levels n up shape'; Ok (n :: l)
  end.

(** The level of a router, its number on the level and its group. *)
Fixpoint find_level (i : nat) (id count routers_per_level_group : Z) (shape : list (Z * Z)) (rpl : list Z)
    : res (nat * Z * Z) :=
  match shape, rpl with
  | (_, up) :: shape', n :: rpl' =>
      let lid := id - count in
      let count := count + n in
      if id <? count then g ← int_div lid routers_per_level_group; Ok (i, lid, g)
      else rplg ← int_mul routers_per_level_group up; find_level (S i) id count rplg shape' rpl'
  | _, _ => Err (Undefined "index out of range")
  end.

Definition build_fattree (shape : list (Z * Z)) (num_ports id num_vns : Z) (vns : list vn_info) : res FatTree :=
  total_hosts ← dim_product 1 shape.*1;
  rpl ← routers_per_level shape total_hosts;
  '(rtr_level, level_id, level_group) ← find_level 0 id 0 1 shape rpl;
  down_ports ← at_index shape.*1 (Z.of_nat rtr_level);
  up_ports ← at_index shape.*2 (Z.of_nat rtr_level);
  rid ← dim_product 1 (take (S rtr_level) shape.*1);
  down_route_factor ← int_div rid down_ports;
  low_host ← int_mul level_group rid;
  Ok (mkFatTree rtr_level level_id level_group (low_host + rid - 1) low_host down_route_factor id up_ports down_ports
        num_ports num_vns (-1) [] [] vns).

(** [routing_alg] is one algorithm for all virtual networks, or a list. *)
Definition new_fattree (shape : string) (routing_alg : string + list string) (num_ports rtr_id num_vns : Z) : res FatTree :=
  algos ← match routing_alg with
          | inl a => Ok (replicate (Z.to_nat num_vns) a)
          | inr l => if Z.of_nat (length l) =? num_vns then Ok l else Err (Fatal "algorithm list length")
          end;
  vns ← make_vns 0 algos;
  build_fattree (parseShape shape) num_ports rtr_id num_vns vns.

(** The arrays of the router; [scale] is the product with [adaptive_threshold]. *)
Definition setOutputBufferCreditArray (scale : Z -> Z) (array : list Z) (vcs : Z) (t : FatTree) : FatTree :=
  t <| num_vcs := vcs |> <| outputCredits := array |> <| thresholds := scale <$> array |>.

(** ** Routing *)

Section routing.
Implicit Types (t : FatTree) (ev : packet).

Definition is_below t (dest : Z) : bool := (low_host t <=? dest) && (dest <=? high_host t).

Definition route_deterministic t ev : res packet :=
  let dest := getDest ev in
  if is_below t dest then p ← int_div (dest - low_host t) (down_route_factor t); Ok (setNextPort p ev)
  else q ← int_div dest (down_route_factor t); r ← int_rem q (up_ports t); Ok (setNextPort (down_ports t + r) ev).

(** The loop over the ports that are not down ports: index [i] of the arrays. *)
Fixpoint best_port (fuel : nat) t (i max port : Z) : res Z :=
  match fuel with
  | O => Err (Fatal "out of fuel")
  | S fuel' =>
      if i <? num_ports t * num_vcs t then
        c ← at_index (outputCredits t) i;
        if max <? c then p ← int_div i (num_vcs t); best_port fuel' t (i + num_vcs t) c p
        else best_port fuel' t (i + num_vcs t) max port
      else Ok port
  end.

Definition fattree_route t (port vc : Z) ev : res packet :=
  ev ← route_deterministic t ev;
  if is_below t (getDest ev) then Ok ev
  else
    vn ← at_index (vns t) (getVN ev);
    if negb (allow_adaptive vn) then Ok ev
    else
      next_port ← getNextPort ev;
      let index := next_port * num_vcs t + ire_vc ev in
      c ← at_index (outputCredits t) index;
      th ← at_index (thresholds t) index;
      if th <=? c then Ok ev
      else
        port ← best_port (S (Z.to_nat (num_ports t))) t (down_ports t * num_vcs t + ire_vc ev) c next_port;
        Ok (setNextPort port ev).

Definition fattree_input (ev : RtrEvent) : packet := mkIre ev None (route_vn ev) None tt.

(** [routeUntimedData]: the ports an init message goes to. *)
Definition routeUntimedData t (inPort : Z) ev : res (list Z) :=
  if getDest ev =? UNTIMED_BROADCAST_ADDR then
    let downs := filter (fun i => i <> inPort) (seqZ 0 (down_ports t)) in
    if negb (up_ports t =? 0) && (inPort <? down_ports t)
    then r ← int_rem inPort (up_ports t); Ok (downs ++ [down_ports t + r]) else Ok downs
  else ev ← route_deterministic t ev; p ← getNextPort ev; Ok [p].

Definition fattree_endpoint t (port : Z) : Z := low_host t + port.
Definition fattree_port_state t (port : Z) : PortState.t :=
  if (rtr_level t =? 0)%nat then
    if port <? down_ports t then PortState.R2N else if down_ports t <=? port then PortState.R2R else PortState.UNCONNECTED
  else PortState.R2R.
End routing.

Definition fattree_topology : Topology FatTree unit := {|
  route_packet := fattree_route;
  process_input _ ev := Ok (fattree_input ev);
  getPortState t port := Ok (fattree_port_state t port);
  getEndpointID t port := Ok (fattree_endpoint t port);
  getVCsPerVN t := vn_num_vcs <$> vns t
|}.

(** ** The tree

    [fattree_rb] of [pymerlin-topo-fattree.py]. A router is known by its level, its
    group and its number in the group. [span k] is the number of hosts below a
    router of level [k - 1], [width k] the number of routers in a group of level
    [k]. *)

Record place := mkPlace { p_level : nat; p_group : Z; p_index : Z }.

Definition product (l : list Z) : Z := foldr Z.mul 1 l.
Definition span (shape : list (Z * Z)) (k : nat) : Z := product (take k shape.*1).
Definition width (shape : list (Z * Z)) (k : nat) : Z := product (take k shape.*2).

(** Where the link of a port leads, and to which port: [None] behind the ports of
    hosts. *)
Definition ft_neighbour (shape : list (Z * Z)) (p : place) (port : Z) : option (place * Z) :=
  '(down, up) ← shape !! p_level p;
  if port <? down then
    match p_level p with
    | O => None
    | S k =>
        '(down', _) ← shape !! k;
        Some (mkPlace k (p_group p * down + port) (p_index p mod width shape k), down' + p_index p / width shape k)
    end
  else
    '(down', _) ← shape !! S (p_level p);
    if port - down <? up then
      Some (mkPlace (S (p_level p)) (p_group p / down') (p_index p + (port - down) * width shape (p_level p)), p_group p mod down')
    else None.

(** A packet's way: every router routes it with its own topology object. The result
    is the places it passed with the ports it left on, and where it ended. *)
Fixpoint ft_journey (fuel : nat) (shape : list (Z * Z)) (at_place : place -> FatTree) (p : place) (port : Z) (ev : packet)
    : res (list (place * Z) * place * Z) :=
  match fuel with
  | O => Err (Fatal "out of fuel")
  | S fuel' =>
      ev ← fattree_route (at_place p) port (ire_vc ev) ev;
      next_port ← getNextPort ev;
      match ft_neighbour shape p next_port with
      | None => Ok ([], p, next_port)
      | Some (p', port') =>
          '(way, q, out) ← ft_journey fuel' shape at_place p' port' ev; Ok ((p, next_port) :: way, q, out)
      end
  end.
