(* ===== verification/FatTreeRoute.v ===== *)
(** * FatTreeRoute: where packets go in a fat tree

    A packet climbs until its destination is below it and then descends to it,
    whichever of the up ports each router chooses; it passes at most two links per
    level, and the channels it holds are ordered, so that packets cannot wait for
    each other in a circle. *)

From S2P Require Import Prelude Merlin Grid GridRoute FatTree.

(** ** The shape of a tree *)

Record ft_wf (shape : list (Z * Z)) : Prop := {
  fw_levels : shape <> [];
  fw_downs : Forall (Z.lt 0) shape.*1;
  fw_ups k d u : shape !! k = Some (d, u) -> if (S k =? length shape)%nat then u = 0 else 0 < u;
  fw_hosts : product shape.*1 < 2 ^ 31
}.

Section tree.
Context (shape : list (Z * Z)) (Hwf : ft_wf shape).
#[local] Abbreviation levels := (length shape).
#[local] Abbreviation span := (span shape).
#[local] Abbreviation width := (width shape).

(** The groups of a level. *)
Definition groups (k : nat) : Z := product (drop (S k) shape.*1).

Record place_ok (p : place) : Prop := {
  po_level : (p_level p < levels)%nat;
  po_group : 0 <= p_group p < groups (p_level p);
  po_index : 0 <= p_index p < width (p_level p)
}.

Lemma product_routers l : product l = routers l.
Proof. done. Qed.

Lemma span_S k d u : shape !! k = Some (d, u) -> span (S k) = span k * d.
Proof.
  intros H. unfold FatTree.span. rewrite (take_S_r _ _ d) by by rewrite list_lookup_fmap, H.
  change product with routers. rewrite routers_app. rewrite routers_cons. change (routers []) with 1. ring.
Qed.
Lemma width_S k d u : shape !! k = Some (d, u) -> width (S k) = width k * u.
Proof.
  intros H. unfold FatTree.width. rewrite (take_S_r _ _ u) by by rewrite list_lookup_fmap, H.
  change product with routers. rewrite routers_app. rewrite routers_cons. change (routers []) with 1. ring.
Qed.
Lemma groups_down k d u : shape !! S k = Some (d, u) -> groups k = d * groups (S k).
Proof.
  intros H. unfold groups. assert (shape.*1 !! S k = Some d) as Hd by by rewrite list_lookup_fmap, H.
  rewrite (drop_S _ d (S k)) by done. done.
Qed.

Lemma span_pos k : 0 < span k.
Proof. apply routers_pos, Forall_take, (fw_downs _ Hwf). Qed.
Lemma groups_pos k : 0 < groups k.
Proof. apply routers_pos, Forall_drop, (fw_downs _ Hwf). Qed.
Lemma span_total k : span (S k) * groups k = product shape.*1.
Proof. unfold FatTree.span, groups. change product with routers. rewrite <- routers_app. by rewrite take_drop. Qed.

Lemma level_at k : (k < levels)%nat -> exists d u, shape !! k = Some (d, u) /\ 0 < d.
Proof.
  intros Hk. destruct (lookup_lt_is_Some_2 shape k Hk) as [[d u] H]. exists d, u. split; [done|].
  apply (Forall_lookup_1 (Z.lt 0) shape.*1 k d (fw_downs _ Hwf)). by rewrite list_lookup_fmap, H.
Qed.

Lemma width_pos k : (k < levels)%nat -> 0 < width k.
Proof.
  induction k as [|k IH]; intros Hk; [done|]. destruct (level_at k ltac:(lia)) as (d & u & E & _).
  rewrite (width_S k d u E). pose proof (fw_ups _ Hwf k d u E) as Hu. rewrite (proj2 (Nat.eqb_neq _ _)) in Hu by lia.
  specialize (IH ltac:(lia)). nia.
Qed.

(** The host of a number is below the routers of one group of each level. *)
Definition above (k : nat) (dest : Z) : Z := dest / span (S k).

Lemma above_range k dest : 0 <= dest < product shape.*1 -> 0 <= above k dest < groups k.
Proof.
  intros H. pose proof (span_pos (S k)). split; [apply Z.div_pos; lia|]. apply Z.div_lt_upper_bound; [done|].
  rewrite span_total. lia.
Qed.

Lemma above_S k d u dest : shape !! S k = Some (d, u) -> above (S k) dest = above k dest / d.
Proof.
  intros H. unfold above. rewrite (span_S _ _ _ H). pose proof (span_pos (S k)).
  destruct (level_at (S k) (lookup_lt_Some _ _ _ H)) as (d' & u' & E & Hd). rewrite H in E. injection E as <- <-.
  by rewrite Z.div_div by lia.
Qed.

(** ** Topology objects *)

(** [t] is the object of the router at [p], with [m] virtual channels; the credits
    are whatever they are. *)
Record object_at (m : Z) (p : place) (t : FatTree) : Prop := {
  oa_low : low_host t = p_group p * span (S (p_level p));
  oa_high : high_host t = p_group p * span (S (p_level p)) + span (S (p_level p)) - 1;
  oa_factor : down_route_factor t = span (p_level p);
  oa_level : rtr_level t = p_level p;
  oa_ports : shape !! p_level p = Some (down_ports t, up_ports t);
  oa_count : num_ports t = down_ports t + up_ports t;
  oa_vcs : num_vcs t = m;
  oa_credits : Z.of_nat (length (outputCredits t)) = num_ports t * m;
  oa_thresholds : Z.of_nat (length (thresholds t)) = num_ports t * m;
  oa_vns : Z.of_nat (length (vns t)) = m;
  oa_small : 0 < m /\ num_ports t * m < 2 ^ 31
}.

Lemma is_below_above m p t dest :
  object_at m p t -> is_below t dest = bool_decide (above (p_level p) dest = p_group p).
Proof.
  intros [Hl Hh _ _ _ _ _ _ _ _ _]. unfold is_below, above. rewrite Hl, Hh. pose proof (span_pos (S (p_level p))) as Hp.
  pose proof (Z.div_mod dest (span (S (p_level p))) ltac:(lia)) as E. pose proof (Z.mod_pos_bound dest (span (S (p_level p))) Hp) as Hm.
  set (s := span (S (p_level p))) in *. set (q := dest / s) in *. set (g := p_group p) in *.
  case_bool_decide as Hq.
  - rewrite Hq in E. apply andb_true_iff. nia.
  - apply andb_false_iff. destruct (Z.leb_spec (g * s) dest); [right|by left]. apply Z.leb_gt. nia.
Qed.

(** A packet on its way: for a host of the tree, with a virtual channel. *)
Record on_way (m dest : Z) (ev : packet) : Prop := {
  ow_dest : getDest ev = dest;
  ow_range : 0 <= dest < product shape.*1;
  ow_vn : 0 <= getVN ev < m;
  ow_vc : 0 <= ire_vc ev < m
}.

Lemma best_port_range m p t vc fuel : forall q max port,
  object_at m p t -> 0 <= vc < m -> 0 <= q <= num_ports t -> num_ports t - q < Z.of_nat fuel ->
  exists r, best_port fuel t (q * m + vc) max port = Ok r /\ (r = port \/ q <= r < num_ports t).
Proof.
  induction fuel as [|fuel IH]; intros q max port Ho Hvc Hq Hf; cbn [best_port].
  - lia.
  - rewrite (oa_vcs _ _ _ Ho). pose proof (oa_small _ _ _ Ho) as [Hm Hsm]. destruct (Z.ltb_spec (q * m + vc) (num_ports t * m)) as [Hlt|Hge].
    + assert (q < num_ports t) as Hqn by nia.
      destruct (at_index_in_range (outputCredits t) (q * m + vc)) as [c ->]; [rewrite (oa_credits _ _ _ Ho); nia|]. cbn [mbind res_bind].
      replace (q * m + vc + m) with ((q + 1) * m + vc) by ring. destruct (max <? c).
      * rewrite int_div_Ok by nia. cbn [mbind res_bind]. rewrite Z.div_add_l, Z.div_small, Z.add_0_r by lia.
        destruct (IH (q + 1) c q Ho Hvc) as (r & E & Hr); [lia|lia|]. exists r. split; [done|]. lia.
      * destruct (IH (q + 1) max port Ho Hvc) as (r & E & Hr); [lia|lia|]. exists r. split; [done|]. lia.
    + exists port. split; [done|by left].
Qed.

Lemma object_down m p t : object_at m p t -> 0 < down_ports t.
Proof.
  intros Ho. pose proof (oa_ports _ _ _ Ho) as E. destruct (level_at _ (lookup_lt_Some _ _ _ E)) as (d & u & E' & Hd).
  rewrite E in E'. by injection E' as -> _.
Qed.

(** Below the top a router has up ports; at the top everything is below it. *)
Lemma not_below_up m p t dest :
  object_at m p t -> place_ok p -> 0 <= dest < product shape.*1 -> above (p_level p) dest <> p_group p ->
  0 < up_ports t /\ (S (p_level p) < levels)%nat.
Proof.
  intros Ho [Hl Hg _] Hd Hne. pose proof (fw_ups _ Hwf _ _ _ (oa_ports _ _ _ Ho)) as Hu.
  destruct (Nat.eqb_spec (S (p_level p)) levels) as [E|E]; [|split; [done|lia]].
  exfalso. apply Hne. pose proof (above_range (p_level p) dest Hd) as Ha.
  assert (groups (p_level p) = 1) as Eg; [|lia]. unfold groups. rewrite drop_ge; [done|]. rewrite length_fmap. lia.
Qed.

(** Where a router sends a packet: down towards its host, or up, by any port. *)
Definition goes (p : place) (dest np : Z) : Prop :=
  exists d u, shape !! p_level p = Some (d, u) /\
    if bool_decide (above (p_level p) dest = p_group p)
    then np = dest / span (p_level p) - p_group p * d /\ 0 <= np < d else d <= np < d + u.

Lemma route_Ok m p t dest port ev :
  object_at m p t -> place_ok p -> on_way m dest ev ->
  exists ev' np, fattree_route t port (ire_vc ev) ev = Ok ev' /\ next_port ev' = Some np /\ goes p dest np /\
    on_way m dest ev' /\ ire_vc ev' = ire_vc ev.
Proof.
  intros Ho Hp [Hdest Hr Hvn Hvc]. pose proof (fw_hosts _ Hwf) as Hmax. pose proof (span_pos (p_level p)) as Hsp.
  assert (forall np, on_way m dest (setNextPort np ev)) as Hset by (intros np; by constructor).
  unfold fattree_route, route_deterministic. rewrite Hdest, (is_below_above m p t dest Ho), (oa_factor _ _ _ Ho), (oa_low _ _ _ Ho).
  pose proof (span_S _ _ _ (oa_ports _ _ _ Ho)) as HS. pose proof (object_down _ _ _ Ho) as Hdp. case_bool_decide as Hb.
  - unfold above in Hb. rewrite HS in Hb. rewrite HS.
    assert (dest / span (p_level p) / down_ports t = p_group p) as Hq by (by rewrite Z.div_div by lia).
    pose proof (Z.div_mod (dest / span (p_level p)) (down_ports t) ltac:(lia)) as Em.
    pose proof (Z.mod_pos_bound (dest / span (p_level p)) (down_ports t) Hdp) as Hm. rewrite Hq in Em.
    assert ((dest - p_group p * (span (p_level p) * down_ports t)) / span (p_level p) = dest / span (p_level p) - p_group p * down_ports t) as Hnp.
    { replace (dest - p_group p * (span (p_level p) * down_ports t)) with (dest + - (p_group p * down_ports t) * span (p_level p)) by ring.
      rewrite Z.div_add by lia. lia. }
    assert (0 <= p_group p * (span (p_level p) * down_ports t) <= dest) as Hlow.
    { rewrite <- Hb. pose proof (Z.mul_div_le dest (span (p_level p) * down_ports t) ltac:(nia)).
      pose proof (Z.div_pos dest (span (p_level p) * down_ports t) ltac:(lia) ltac:(nia)). nia. }
    rewrite int_div_Ok by lia. cbn [mbind res_bind].
    change (getDest (setNextPort ?x ev)) with (getDest ev). rewrite Hdest, (is_below_above m p t dest Ho), bool_decide_true
      by (unfold above; by rewrite HS). eexists _, _. split; [done|]. split; [done|]. split; [|split; [apply Hset|done]].
    exists (down_ports t), (up_ports t). split; [apply (oa_ports _ _ _ Ho)|]. rewrite bool_decide_true by (unfold above; by rewrite HS).
    rewrite Hnp. split; [done|lia].
  - destruct (not_below_up m p t dest Ho Hp Hr Hb) as [Hup Hlev].
    pose proof (Z.div_pos dest (span (p_level p)) ltac:(lia) Hsp) as Hd0.
    assert (dest / span (p_level p) <= dest) as Hd1 by (apply Z.div_le_upper_bound; nia).
    rewrite int_div_Ok by lia. cbn [mbind res_bind]. rewrite int_rem_Ok by lia. cbn [mbind res_bind].
    set (k := (dest / span (p_level p)) mod up_ports t).
    pose proof (Z.mod_pos_bound (dest / span (p_level p)) (up_ports t) Hup) as Hk. fold k in Hk.
    change (getDest (setNextPort ?x ev)) with (getDest ev). rewrite Hdest, (is_below_above m p t dest Ho), bool_decide_false by done.
    assert (forall np, down_ports t <= np < down_ports t + up_ports t -> goes p dest np) as Hgo.
    { intros np Hnp. exists (down_ports t), (up_ports t). split; [apply (oa_ports _ _ _ Ho)|]. by rewrite bool_decide_false. }
    change (getVN (setNextPort ?x ev)) with (getVN ev). change (ire_vc (setNextPort ?x ev)) with (ire_vc ev).
    pose proof (oa_small _ _ _ Ho) as [Hm0 Hsm]. pose proof (oa_count _ _ _ Ho) as Hc.
    destruct (at_index_in_range (vns t) (getVN ev)) as [vn ->]; [rewrite (oa_vns _ _ _ Ho); lia|]. cbn [mbind res_bind].
    destruct (negb (allow_adaptive vn)).
    { eexists _, _. split; [done|]. split; [done|]. split; [apply Hgo; lia|]. split; [apply Hset|done]. }
    unfold getNextPort. cbn [next_port setNextPort of_option mbind res_bind update]. rewrite (oa_vcs _ _ _ Ho).
    destruct (at_index_in_range (outputCredits t) ((down_ports t + k) * m + ire_vc ev)) as [c ->]; [rewrite (oa_credits _ _ _ Ho); nia|].
    cbn [mbind res_bind].
    destruct (at_index_in_range (thresholds t) ((down_ports t + k) * m + ire_vc ev)) as [th ->]; [rewrite (oa_thresholds _ _ _ Ho); nia|].
    cbn [mbind res_bind]. destruct (th <=? c).
    { eexists _, _. split; [done|]. split; [done|]. split; [apply Hgo; lia|]. split; [apply Hset|done]. }
    destruct (best_port_range m p t (ire_vc ev) (S (Z.to_nat (num_ports t))) (down_ports t) c (down_ports t + k) Ho Hvc)
      as (r & -> & Hrr); [lia|lia|]. cbn [mbind res_bind].
    eexists _, _. split; [done|]. split; [done|]. split; [apply Hgo; lia|]. split; [by constructor|done].
Qed.

(** ** Hops *)

(** The level above [l] at which the groups [g] and [h] meet, counted from [l]; the
    list holds the downs of the levels above. *)
Fixpoint apart (ds : list Z) (g h : Z) : nat :=
  if bool_decide (g = h) then O
  else match ds with [] => O | d :: ds' => S (apart ds' (g / d) (h / d)) end.
Definition climb (p : place) (dest : Z) : nat := apart (drop (S (p_level p)) shape.*1) (p_group p) (above (p_level p) dest).
Definition hops_left (p : place) (dest : Z) : nat := p_level p + 2 * climb p dest.

(** The rank of a channel: the channels up come before those down, and each is used
    in the order of the levels. *)
Definition rank (c : place * Z) : Z :=
  match shape !! p_level c.1 with
  | Some (d, _) => if c.2 <? d then 2 * Z.of_nat levels - Z.of_nat (p_level c.1) else Z.of_nat (p_level c.1)
  | None => 0
  end.
Definition rank_here (p : place) (dest : Z) : Z :=
  if bool_decide (above (p_level p) dest = p_group p) then 2 * Z.of_nat levels - Z.of_nat (p_level p) else Z.of_nat (p_level p).

(** Where a packet is after a router that sent it to [np]: at its host, or closer to
    it, with the ranks of the channels ahead greater than the one just used. *)
Inductive hop (p : place) (dest np : Z) : Prop :=
  | hop_host : p_level p = O -> p_group p = above 0 dest -> ft_neighbour shape p np = None -> p_group p * span 1 + np = dest ->
      np < span 1 -> hops_left p dest = O -> hop p dest np
  | hop_link q port' : ft_neighbour shape p np = Some (q, port') -> place_ok q -> hops_left p dest = S (hops_left q dest) ->
      rank (p, np) = rank_here p dest -> rank_here p dest < rank_here q dest -> hop p dest np.

Lemma climb_below p dest : above (p_level p) dest = p_group p -> climb p dest = O.
Proof. intros H. unfold climb. destruct (drop _ _); cbn; by rewrite bool_decide_true by done. Qed.
Lemma climb_above p dest d u i :
  shape !! S (p_level p) = Some (d, u) -> above (p_level p) dest <> p_group p ->
  climb p dest = S (climb (mkPlace (S (p_level p)) (p_group p / d) i) dest).
Proof.
  intros E Hne. unfold climb. cbn [p_level p_group]. rewrite (drop_S shape.*1 d (S (p_level p))) by by rewrite list_lookup_fmap, E.
  cbn [apart]. rewrite bool_decide_false by done. by rewrite (above_S _ _ _ _ E).
Qed.

Lemma hop_down p dest np d u :
  place_ok p -> 0 <= dest < product shape.*1 -> shape !! p_level p = Some (d, u) -> above (p_level p) dest = p_group p ->
  np = dest / span (p_level p) - p_group p * d -> 0 <= np < d -> hop p dest np.
Proof.
  intros Hp Hr E Hb Hnp Hnd. destruct Hp as [Hl Hg Hi]. destruct p as [[|k] g i]; cbn [p_level p_group p_index] in *.
  - assert (span 1 = d) as Hs1. { rewrite (span_S 0 d u E). unfold FatTree.span. rewrite take_0. unfold product. cbn. ring. }
    apply hop_host; cbn [p_level p_group]; rewrite ?Hs1; try done.
    + unfold ft_neighbour. cbn [p_level p_group]. rewrite E. cbn [mbind option_bind]. by rewrite (proj2 (Z.ltb_lt _ _)) by lia.
    + unfold FatTree.span in Hnp. rewrite take_0, Z.div_1_r in Hnp. lia.
    + lia.
    + unfold hops_left. by rewrite climb_below.
  - destruct (level_at k ltac:(lia)) as (d' & u' & E' & Hd'). pose proof (width_pos k ltac:(lia)) as Hw.
    assert (above k dest = g * d + np) as Ha by (unfold above; lia).
    apply (hop_link _ _ _ (mkPlace k (g * d + np) (i mod width k)) (d' + i / width k)).
    + unfold ft_neighbour. cbn [p_level p_group p_index]. rewrite E. cbn [mbind option_bind]. rewrite (proj2 (Z.ltb_lt _ _)) by lia.
      rewrite E'. done.
    + split; cbn [p_level p_group p_index]; [lia| |by apply Z.mod_pos_bound]. rewrite <- Ha. by apply above_range.
    + unfold hops_left. rewrite !climb_below by done. cbn [p_level]. lia.
    + unfold rank, rank_here. cbn [fst snd p_level p_group]. rewrite E, (proj2 (Z.ltb_lt _ _)), bool_decide_true by (done || lia). done.
    + unfold rank_here. cbn [p_level p_group]. rewrite !bool_decide_true by done. lia.
Qed.

Lemma hop_up p dest np d u :
  place_ok p -> 0 <= dest < product shape.*1 -> shape !! p_level p = Some (d, u) -> above (p_level p) dest <> p_group p ->
  (S (p_level p) < levels)%nat -> d <= np < d + u -> hop p dest np.
Proof.
  intros Hp Hr E Hb Hlv Hnp. destruct Hp as [Hl Hg Hi]. destruct (level_at _ Hlv) as (d' & u' & E' & Hd').
  destruct p as [l g i]; cbn [p_level p_group p_index] in *.
  pose proof (width_pos l Hl) as Hw. pose proof (width_S l d u E) as HwS. rewrite (groups_down l d' u' E') in Hg.
  apply (hop_link _ _ _ (mkPlace (S l) (g / d') (i + (np - d) * width l)) (g mod d')).
  - unfold ft_neighbour. cbn [p_level p_group p_index]. rewrite E. cbn [mbind option_bind]. rewrite (proj2 (Z.ltb_ge _ _)) by lia.
    rewrite E'. cbn [mbind option_bind]. by rewrite (proj2 (Z.ltb_lt _ _)) by lia.
  - split; cbn [p_level p_group p_index]; [lia| |rewrite HwS; nia].
    split; [apply Z.div_pos; lia|apply Z.div_lt_upper_bound; lia].
  - unfold hops_left. rewrite (climb_above (mkPlace l g i) dest d' u' (i + (np - d) * width l) E' Hb). cbn [p_level p_group]. lia.
  - unfold rank, rank_here. cbn [fst snd p_level p_group]. rewrite E, (proj2 (Z.ltb_ge _ _)), bool_decide_false by (done || lia). done.
  - unfold rank_here. cbn [p_level p_group]. rewrite (bool_decide_false _ Hb). case_bool_decide; lia.
Qed.

Lemma goes_hop p dest np : place_ok p -> 0 <= dest < product shape.*1 -> (above (p_level p) dest <> p_group p -> (S (p_level p) < levels)%nat) ->
  goes p dest np -> hop p dest np.
Proof.
  intros Hp Hr Hlv (d & u & E & H). case_bool_decide as Hb.
  - destruct H as [H1 H2]. by eapply hop_down.
  - eapply hop_up; try done. by apply Hlv.
Qed.

Lemma ft_journey_S h at_place p port ev :
  ft_journey (S h) shape at_place p port ev =
    (ev ← fattree_route (at_place p) port (ire_vc ev) ev;
     next_port ← getNextPort ev;
     match ft_neighbour shape p next_port with
     | None => Ok ([], p, next_port)
     | Some (p', port') => '(way, q, out) ← ft_journey h shape at_place p' port' ev; Ok ((p, next_port) :: way, q, out)
     end).
Proof. done. Qed.

Lemma walk_tree m dest at_place h : forall p port ev,
  (forall q, place_ok q -> object_at m q (at_place q)) -> place_ok p -> on_way m dest ev -> hops_left p dest = h ->
  exists way q out, ft_journey (S h) shape at_place p port ev = Ok (way, q, out) /\ length way = h /\
    place_ok q /\ p_level q = O /\ p_group q * span 1 + out = dest /\ out < span 1 /\
    Sorted Z.lt (rank <$> way) /\ HdRel Z.le (rank_here p dest) (rank <$> way).
Proof.
  induction h as [|h IH]; intros p port ev Hat Hp Hw Hh.
  all: destruct (route_Ok m p (at_place p) dest port ev (Hat p Hp) Hp Hw) as (ev' & np & Er & En & Hgo & Hw' & _);
    pose proof (ow_range _ _ _ Hw) as Hr;
    destruct (goes_hop p dest np Hp Hr) as [H0 Hg HN Hd Hlt Hz|q port' HN Hq Hhl Hrk Hlt];
    [intros Hne; apply (not_below_up m p (at_place p) dest (Hat p Hp) Hp Hr Hne)|done|..]; try lia;
    rewrite ft_journey_S, Er; cbn [mbind res_bind]; unfold getNextPort; rewrite En; cbn [of_option mbind res_bind]; rewrite HN.
  - exists [], p, np. split_and!; try done; constructor.
  - destruct (IH q port' ev' Hat Hq Hw' ltac:(lia)) as (way & q' & out & Ej & Hlen & Hok & Hl & Hd & Ho & Hs & Hhd).
    rewrite Ej. cbn [mbind res_bind]. exists ((p, np) :: way), q', out.
    split_and!; try done; cbn [length fmap list_fmap]; [by rewrite Hlen| |].
    + constructor; [done|]. rewrite Hrk. destruct way as [|c way]; [constructor|]. inversion Hhd; subst. constructor. cbn in *. lia.
    + constructor. by rewrite Hrk.
Qed.
End tree.

Lemma apart_le ds g h : (apart ds g h <= length ds)%nat.
Proof. revert g h. induction ds as [|d ds IH]; intros g h; cbn [apart]; case_bool_decide; cbn [length]; [lia..|]. specialize (IH (g / d) (h / d)). lia. Qed.

Lemma climb_le shape p dest : p_level p = O -> shape <> [] -> (climb shape p dest < length shape)%nat.
Proof.
  intros Hl Hs. unfold climb. rewrite Hl. pose proof (apart_le (drop 1 shape.*1) (p_group p) (above shape 0 dest)) as H.
  rewrite length_drop, length_fmap in H. destruct shape; cbn [length] in *; [done|lia].
Qed.

(** ** Delivery *)

(** A network of this shape: every router has its object, whatever its credits. *)
Record ft_network (shape : list (Z * Z)) (m : Z) (at_place : place -> FatTree) : Prop := {
  fn_wf : ft_wf shape;
  fn_objects q : place_ok shape q -> object_at shape m q (at_place q)
}.

(** A packet that a host gives to its router. *)
Record ft_enters (shape : list (Z * Z)) (m : Z) (re : RtrEvent) (src : place) : Prop := {
  fe_src : place_ok shape src;
  fe_edge : p_level src = O;
  fe_dest : 0 <= re_dest re < product shape.*1;
  fe_vn : 0 <= route_vn re < m
}.

Lemma enters_on_way shape m re src : ft_enters shape m re src -> on_way shape m (re_dest re) (fattree_input re).
Proof. intros [_ _ Hd Hv]. by split. Qed.

Lemma host_port shape m q t out dest :
  object_at shape m q t -> p_level q = O -> p_group q * FatTree.span shape 1 + out = dest -> out < FatTree.span shape 1 ->
  fattree_port_state t out = PortState.R2N /\ fattree_endpoint t out = dest.
Proof.
  intros Ho Hl Hd Hlt. pose proof (oa_ports _ _ _ _ Ho) as E. pose proof (oa_low _ _ _ _ Ho) as Elow. rewrite Hl in E, Elow.
  unfold fattree_port_state, fattree_endpoint. rewrite (oa_level _ _ _ _ Ho), Hl, Elow. cbn [Nat.eqb]. split; [|done].
  assert (FatTree.span shape 1 = down_ports t) as Hs.
  { rewrite (span_S shape 0 _ _ E). unfold FatTree.span. rewrite take_0. unfold product. cbn [foldr]. ring. }
  by rewrite (proj2 (Z.ltb_lt _ _)) by lia.
Qed.

(** C7. In a fat tree every packet is delivered at the port of its destination,
    after climbing to the lowest level where a router is above both hosts and
    descending again: two links for each level climbed, at most all levels, whichever
    of the up ports the adaptive routing takes. *)
Theorem fattree_delivers shape m at_place re src port :
  ft_network shape m at_place -> ft_enters shape m re src ->
  exists way q out, ft_journey (S (length way)) shape at_place src port (fattree_input re) = Ok (way, q, out) /\
    length way = (2 * climb shape src (re_dest re))%nat /\ (length way <= 2 * (length shape - 1))%nat /\
    fattree_port_state (at_place q) out = PortState.R2N /\ fattree_endpoint (at_place q) out = re_dest re.
Proof.
  intros [Hwf Hobj] Hen. pose proof (enters_on_way _ _ _ _ Hen) as Hw. destruct Hen as [Hs Hl Hd Hv].
  destruct (walk_tree shape Hwf m (re_dest re) at_place _ src port (fattree_input re) Hobj Hs Hw eq_refl)
    as (way & q & out & Ej & Hlen & Hq & Hq0 & Hout & Hlt & _).
  destruct (host_port shape m q (at_place q) out (re_dest re) (Hobj q Hq) Hq0 Hout Hlt) as [Hp He].
  exists way, q, out. rewrite Hlen. pose proof (climb_le shape src (re_dest re) Hl (fw_levels _ Hwf)).
  split; [done|]. unfold hops_left. rewrite Hl. split_and!; [lia|lia|done|done].
Qed.

(** Two channels a packet holds one after the other, in a network of this shape with
    whatever credits. *)
Definition ft_depends (shape : list (Z * Z)) (c1 c2 : place * Z) : Prop :=
  exists m at_place re src port way q out l1 l2, ft_network shape m at_place /\ ft_enters shape m re src /\
    ft_journey (S (length way)) shape at_place src port (fattree_input re) = Ok (way, q, out) /\ way = l1 ++ c1 :: c2 :: l2.

Lemma journey_stays shape at_place f1 : forall f2 p port ev r1 r2,
  ft_journey f1 shape at_place p port ev = Ok r1 -> ft_journey f2 shape at_place p port ev = Ok r2 -> r1 = r2.
Proof.
  induction f1 as [|f1 IH]; intros f2 p port ev r1 r2 H1 H2; [done|]. destruct f2 as [|f2]; [done|]. cbn [ft_journey] in H1, H2.
  destruct (fattree_route _ _ _ _) as [ev'|]; cbn [mbind res_bind] in *; [|done].
  destruct (getNextPort ev') as [np|]; cbn [mbind res_bind] in *; [|done]. destruct (ft_neighbour shape p np) as [[p' port']|]; [|congruence].
  destruct (ft_journey f1 _ _ _ _ _) as [[[w1 q1] o1]|] eqn:E1; cbn [mbind res_bind] in H1; [|done].
  destruct (ft_journey f2 _ _ _ _ _) as [[[w2 q2] o2]|] eqn:E2; cbn [mbind res_bind] in H2; [|done].
  pose proof (IH _ _ _ _ _ _ E1 E2). congruence.
Qed.

Lemma sorted_next {A} (R : relation A) l1 a b l2 : Sorted R (l1 ++ a :: b :: l2) -> R a b.
Proof.
  induction l1 as [|x l1 IH]; cbn [app]; intros H; [|apply IH; by inversion H].
  inversion H as [|? ? _ Hh]; subst. by inversion Hh.
Qed.

Lemma ft_depends_ranked shape c1 c2 : tc (ft_depends shape) c1 c2 -> rank shape c1 < rank shape c2.
Proof.
  assert (forall a b, ft_depends shape a b -> rank shape a < rank shape b) as Hone.
  { intros a b (m & at_place & re & src & port & way & q & out & l1 & l2 & [Hwf Hobj] & Hen & Ej & ->).
    pose proof (enters_on_way _ _ _ _ Hen) as Hw. destruct Hen as [Hs _ _ _].
    destruct (walk_tree shape Hwf m (re_dest re) at_place _ src port (fattree_input re) Hobj Hs Hw eq_refl)
      as (way & q' & out' & Ej' & _ & _ & _ & _ & _ & Hsort & _).
    pose proof (journey_stays _ _ _ _ _ _ _ _ _ Ej Ej') as Heq. injection Heq as <- _ _.
    rewrite fmap_app in Hsort. exact (sorted_next _ _ _ _ _ Hsort). }
  induction 1 as [a b H|a b c H _ IH]; [by apply Hone|]. by eapply Z.lt_trans; [apply Hone|].
Qed.

(** C19. The channels of a fat tree cannot wait for each other in a circle, although
    it uses a single virtual channel and the routing is adaptive. *)
Theorem fattree_deadlock_free shape c : ~ tc (ft_depends shape) c c.
Proof. intros H%ft_depends_ranked. lia. Qed.
