(* ===== verification/FatTreeShape.v ===== *)
(** * FatTreeShape: the fat tree that is built

    The routers of the tree are numbered level by level, group by group, and every
    router finds its place from its number with the arithmetic of its own constructor:
    the objects are those [FatTreeRoute] asks for. The links join the ports both ways. *)

From S2P Require Import Prelude Merlin Grid GridRoute FatTree FatTreeRoute.

(** ** Numbers of routers *)

Definition level_size (shape : list (Z * Z)) (k : nat) : Z := groups shape k * width shape k.
Definition start_id (shape : list (Z * Z)) (k : nat) : Z := foldr Z.add 0 (level_size shape <$> seq 0 k).

(** The number the builder gives the router at a place. *)
Definition router_number (shape : list (Z * Z)) (p : place) : Z :=
  start_id shape (p_level p) + p_group p * width shape (p_level p) + p_index p.

(** The numbers the constructors compute fit an [int]. *)
Record ft_fits (shape : list (Z * Z)) : Prop := {
  ff_wf : ft_wf shape;
  ff_links k : (S k < length shape)%nat -> groups shape k * width shape (S k) < 2 ^ 31
}.

Lemma drop_tail {A} (x : A) suf k l : x :: suf = drop k l -> suf = drop (S k) l.
Proof. intros H. rewrite <- Nat.add_1_r, <- drop_drop, <- H. done. Qed.

Section build.
Context (shape : list (Z * Z)) (Hf : ft_fits shape).
#[local] Abbreviation levels := (length shape).
#[local] Abbreviation Hwf := (ff_wf _ Hf).

Lemma start_id_S k : start_id shape (S k) = start_id shape k + level_size shape k.
Proof.
  unfold start_id. rewrite seq_S, fmap_app. cbn [fmap list_fmap Nat.add]. generalize (level_size shape <$> seq 0 k). intros l.
  induction l as [|x l IH]; cbn [app foldr]; [lia|]. rewrite IH. lia.
Qed.

Lemma level_size_pos k : (k < levels)%nat -> 0 < level_size shape k.
Proof. intros Hk. unfold level_size. pose proof (groups_pos shape Hwf k). pose proof (width_pos shape Hwf k Hk). nia. Qed.

Lemma start_id_mono i j : (i <= j)%nat -> (j <= levels)%nat -> start_id shape i <= start_id shape j.
Proof. induction 1 as [|j H IH]; intros Hj; [lia|]. rewrite start_id_S. pose proof (level_size_pos j ltac:(lia)). lia. Qed.

Lemma make_levels_Ok suf : forall k d u,
  shape !! k = Some (d, u) -> suf = drop (S k) shape ->
  make_levels (level_size shape k) u suf = Ok (level_size shape <$> seq (S k) (length suf)).
Proof.
  induction suf as [|[d' u'] suf IH]; intros k d u E Hs; [done|]. cbn [make_levels length seq fmap list_fmap].
  assert (shape !! S k = Some (d', u')) as E' by (rewrite <- (Nat.add_0_r (S k)), <- lookup_drop, <- Hs; done).
  destruct (level_at shape Hwf (S k) (lookup_lt_Some _ _ _ E')) as (d0 & u0 & E0 & Hd0). rewrite E' in E0. injection E0 as <- <-.
  pose proof (lookup_lt_Some _ _ _ E') as Hlt. pose proof (ff_links _ Hf k Hlt) as Hfit. pose proof (groups_down shape k d' u' E') as Hg.
  pose proof (groups_pos shape Hwf (S k)) as Hgp. pose proof (width_S shape k d u E) as Hw. pose proof (width_pos shape Hwf (S k) Hlt) as Hwp.
  assert (level_size shape k * u = groups shape k * width shape (S k)) as Em by (unfold level_size; rewrite Hw; ring).
  unfold int_mul. rewrite Em, int_of_Ok by nia. cbn [mbind res_bind]. rewrite int_div_Ok by nia. cbn [mbind res_bind].
  replace (groups shape k * width shape (S k) / d') with (level_size shape (S k)).
  - rewrite (IH (S k) d' u' E'); [done|]. by apply drop_tail in Hs.
  - unfold level_size. rewrite Hg. apply Z.div_unique_exact; [lia|]. ring.
Qed.

Lemma routers_per_level_Ok : routers_per_level shape (product shape.*1) = Ok (level_size shape <$> seq 0 levels).
Proof.
  pose proof (make_levels_Ok (drop 1 shape) 0) as Hm. pose proof (fw_levels _ Hwf) as Hne. destruct (level_at shape Hwf 0) as (d & u & E & Hd).
  { destruct shape; [done|cbn; lia]. }
  specialize (Hm d u E eq_refl). unfold routers_per_level. pose proof (routers_pos _ (fw_downs _ Hwf)) as Hpos. pose proof (fw_hosts _ Hwf) as Hmax.
  change product with routers in *. destruct shape as [|[d' u'] shape'] eqn:Esh; [done|]. cbn in E. injection E as -> ->. rewrite <- Esh in *.
  rewrite int_div_Ok by lia. cbn [mbind res_bind]. replace (routers shape.*1 / d) with (level_size shape 0).
  - assert (drop 1 shape = shape') as Edrop by by rewrite Esh. rewrite Edrop in Hm. rewrite Hm. cbn [mbind res_bind].
    replace levels with (S (length shape')) by by rewrite Esh. done.
  - symmetry. replace (routers shape.*1) with (d * level_size shape 0); [rewrite Z.mul_comm; apply Z.div_mul; lia|].
    unfold level_size, width, groups. rewrite take_0, Esh. cbn [fmap list_fmap fst skipn foldr product]. change product with routers.
    rewrite drop_0, routers_cons. fold (routers shape'.*1). ring.
Qed.

Lemma find_level_Ok p suf : forall k,
  place_ok shape p -> suf = drop k shape -> (k <= p_level p)%nat ->
  find_level k (router_number shape p) (start_id shape k) (width shape k) suf (level_size shape <$> seq k (length suf)) =
    Ok (p_level p, p_group p * width shape (p_level p) + p_index p, p_group p).
Proof.
  induction suf as [|[d u] suf IH]; intros k Hp Hs Hk.
  { apply (f_equal length) in Hs. rewrite length_drop in Hs. destruct Hp as [Hl _ _]. cbn in Hs. lia. }
  cbn [length seq fmap list_fmap find_level]. destruct Hp as [Hl Hg Hi] eqn:EHp. clear EHp.
  assert (shape !! k = Some (d, u)) as E by (rewrite <- (Nat.add_0_r k), <- lookup_drop, <- Hs; done).
  pose proof (width_pos shape Hwf (p_level p) Hl) as Hw. rewrite <- start_id_S.
  assert (0 <= p_group p * width shape (p_level p) + p_index p < level_size shape (p_level p)) as Hin by (unfold level_size; nia).
  destruct (decide (k = p_level p)) as [->|Hne].
  - pose proof (start_id_S (p_level p)) as HS. unfold router_number. rewrite (proj2 (Z.ltb_lt _ _)) by lia.
    replace (start_id shape (p_level p) + p_group p * width shape (p_level p) + p_index p - start_id shape (p_level p))
      with (p_group p * width shape (p_level p) + p_index p) by ring.
    assert (level_size shape (p_level p) < 2 ^ 31) as Hmax.
    { destruct (decide (S (p_level p) < levels)%nat) as [Hlt|Hlt].
      - pose proof (ff_links _ Hf _ Hlt) as H. pose proof (width_S shape _ _ _ E) as HwS. pose proof (width_pos shape Hwf _ Hlt).
        assert (0 < u) by nia. pose proof (groups_pos shape Hwf (p_level p)). unfold level_size. nia.
      - unfold level_size. assert (groups shape (p_level p) = 1) as Eg by (unfold groups; rewrite drop_ge; [done|rewrite length_fmap; lia]).
        rewrite Eg. destruct (p_level p) as [|l] eqn:El; [unfold width; rewrite take_0; cbn; lia|].
        pose proof (ff_links _ Hf l Hl) as H. pose proof (groups_pos shape Hwf l). nia. }
    rewrite int_div_Ok by lia. cbn [mbind res_bind]. do 2 f_equal. symmetry. apply Z.div_unique with (p_index p); lia.
  - assert (S k <= p_level p)%nat as Hk' by lia. pose proof (start_id_mono (S k) (p_level p) Hk' ltac:(lia)) as Hmono.
    unfold router_number at 1. rewrite (proj2 (Z.ltb_ge _ _)) by lia. pose proof (width_S shape k d u E) as HwS.
    pose proof (ff_links _ Hf k ltac:(lia)) as Hfit. pose proof (width_pos shape Hwf (S k) ltac:(lia)). pose proof (groups_pos shape Hwf k).
    unfold int_mul. rewrite <- HwS, int_of_Ok by nia. cbn [mbind res_bind]. apply IH; [done| |done]. by apply drop_tail in Hs.
Qed.
End build.

(** ** The constructor *)

Lemma make_vns_Ok algos : forall v,
  Forall (fun a => a = "adaptive"%string \/ a = "deterministic"%string) algos ->
  exists l, make_vns v algos = Ok l /\ length l = length algos.
Proof.
  induction algos as [|a algos IH]; intros v H; [by exists []|]. apply Forall_cons in H as [Ha H].
  destruct (IH (v + 1) H) as (l & E & Hl). cbn [make_vns]. rewrite E.
  destruct Ha as [-> | ->]; (eexists; split; [done|cbn; lia]).
Qed.

Lemma build_Ok shape p d u n l :
  ft_fits shape -> place_ok shape p -> shape !! p_level p = Some (d, u) ->
  build_fattree shape (d + u) (router_number shape p) n l =
    Ok (mkFatTree (p_level p) (p_group p * width shape (p_level p) + p_index p) (p_group p)
          (p_group p * span shape (S (p_level p)) + span shape (S (p_level p)) - 1) (p_group p * span shape (S (p_level p)))
          (span shape (p_level p)) (router_number shape p) u d (d + u) n (-1) [] [] l).
Proof.
  intros Hf Hp E. pose proof (ff_wf _ Hf) as Hwf. pose proof (fw_hosts _ Hwf) as Hmax. pose proof (routers_pos _ (fw_downs _ Hwf)) as Hpos.
  pose proof (level_at shape Hwf _ (po_level _ _ Hp)) as (d0 & u0 & E0 & Hd). rewrite E in E0. injection E0 as <- <-.
  pose proof (span_total shape (p_level p)) as Htot. pose proof (groups_pos shape Hwf (p_level p)) as Hg.
  pose proof (span_pos shape Hwf (S (p_level p))) as HS. pose proof (span_S shape _ _ _ E) as HSS. pose proof (span_pos shape Hwf (p_level p)).
  unfold build_fattree. rewrite dim_product_Ok, Z.mul_1_l by (try apply (fw_downs _ Hwf); change product with routers in Hmax; lia).
  cbn [mbind res_bind]. change (routers shape.*1) with (product shape.*1). rewrite (routers_per_level_Ok shape Hf). cbn [mbind res_bind].
  pose proof (find_level_Ok shape Hf p shape 0 Hp eq_refl ltac:(lia)) as Hfind. change (start_id shape 0) with 0 in Hfind.
  replace (width shape 0) with 1 in Hfind by (unfold width; by rewrite take_0). rewrite Hfind. cbn [mbind res_bind].
  rewrite (at_index_nat shape.*1 _ d) by by rewrite list_lookup_fmap, E. rewrite (at_index_nat shape.*2 _ u) by by rewrite list_lookup_fmap, E.
  cbn [mbind res_bind].
  rewrite dim_product_Ok, Z.mul_1_l.
  2: apply Forall_take, (fw_downs _ Hwf). 2: lia.
  2: { change routers with product. change (product (take (S (p_level p)) shape.*1)) with (span shape (S (p_level p))). nia. }
  change (routers (take (S (p_level p)) shape.*1)) with (span shape (S (p_level p))). cbn [mbind res_bind].
  rewrite int_div_Ok by nia. cbn [mbind res_bind]. unfold int_mul. pose proof (po_group _ _ Hp). rewrite int_of_Ok by nia. cbn [mbind res_bind].
  rewrite HSS, Z.div_mul by lia. done.
Qed.

Lemma constructed s shape p d u algos m credits scale :
  parseShape s = shape -> ft_fits shape -> place_ok shape p -> shape !! p_level p = Some (d, u) ->
  Forall (fun a => a = "adaptive"%string \/ a = "deterministic"%string) algos ->
  m = Z.of_nat (length algos) -> 0 < m -> (d + u) * m < 2 ^ 31 -> Z.of_nat (length credits) = (d + u) * m ->
  exists t, new_fattree s (inr algos) (d + u) (router_number shape p) m = Ok t /\
    object_at shape m p (setOutputBufferCreditArray scale credits m t) /\
    level_id t = p_group p * width shape (p_level p) + p_index p /\ level_group t = p_group p.
Proof.
  intros <- Hf Hp E Ha -> Hm Hmax Hc. destruct (make_vns_Ok algos 0 Ha) as (l & El & Hl).
  eexists. split.
  - unfold new_fattree. rewrite Z.eqb_refl. cbn [mbind res_bind]. rewrite El. cbn [mbind res_bind]. by apply build_Ok.
  - split; [|done]. split; try done; cbn; by rewrite ?length_fmap, ?Hl.
Qed.

(** Every router of a fat tree finds its place from its number: its level and
    group, the hosts below it, the division that selects the down port. *)
Theorem fattree_finds_place s shape p d u algos m credits scale :
  parseShape s = shape -> ft_fits shape -> place_ok shape p -> shape !! p_level p = Some (d, u) ->
  Forall (fun a => a = "adaptive"%string \/ a = "deterministic"%string) algos ->
  m = Z.of_nat (length algos) -> 0 < m -> (d + u) * m < 2 ^ 31 -> Z.of_nat (length credits) = (d + u) * m ->
  exists t, new_fattree s (inr algos) (d + u) (router_number shape p) m = Ok t /\
    object_at shape m p (setOutputBufferCreditArray scale credits m t) /\
    level_id t = p_group p * width shape (p_level p) + p_index p /\ level_group t = p_group p.
Proof. exact (constructed s shape p d u algos m credits scale). Qed.

(** ** Links *)

Lemma links_back shape p port q port' :
  ft_wf shape -> place_ok shape p -> 0 <= port -> ft_neighbour shape p port = Some (q, port') ->
  place_ok shape q /\ 0 <= port' /\ ft_neighbour shape q port' = Some (p, port).
Proof.
  intros Hwf Hp Hport H. unfold ft_neighbour in H. destruct p as [l g i]. destruct Hp as [Hl Hg Hi]. cbn [p_level p_group p_index] in *.
  destruct (level_at shape Hwf l Hl) as (d & u & E & Hd). rewrite E in H. cbn [mbind option_bind] in H. pose proof (width_pos shape Hwf l Hl) as Hw.
  destruct (Z.ltb_spec port d) as [Hdn|Hup].
  - destruct l as [|k]; [done|]. destruct (level_at shape Hwf k ltac:(lia)) as (d' & u' & E' & Hd'). rewrite E' in H. cbn [mbind option_bind] in H.
    pose proof (width_S shape k d' u' E') as HwS. pose proof (width_pos shape Hwf k ltac:(lia)) as Hwk.
    pose proof (groups_down shape k d u E) as Hgd.
    pose proof (Z.div_mod i (width shape k) ltac:(lia)) as Em. pose proof (Z.mod_pos_bound i (width shape k) Hwk) as Hm.
    assert (0 <= i / width shape k < u') as Hq by (split; [apply Z.div_pos; lia|apply Z.div_lt_upper_bound; lia]).
    injection H as <- <-. split; [|split; [lia|]].
    + split; cbn [p_level p_group p_index]; [lia| |done]. rewrite Hgd. nia.
    + unfold ft_neighbour. cbn [p_level p_group p_index]. rewrite E'. cbn [mbind option_bind]. rewrite (proj2 (Z.ltb_ge _ _)) by lia.
      rewrite E. cbn [mbind option_bind]. replace (d' + i / width shape k - d') with (i / width shape k) by ring.
      rewrite (proj2 (Z.ltb_lt _ _)) by lia. rewrite Z.div_add_l, Z.div_small, Z.add_0_r by lia.
      rewrite (Z.add_comm (g * d)), Z.mod_add, (Z.mod_small port) by lia. do 3 f_equal. lia.
  - destruct (shape !! S l) as [[d' u']|] eqn:E'; cbn [mbind option_bind] in H; [|done]. destruct (Z.ltb_spec (port - d) u) as [Hu|Hu]; [|done].
    destruct (level_at shape Hwf (S l) (lookup_lt_Some _ _ _ E')) as (d0 & u0 & E0 & Hd'). rewrite E' in E0. injection E0 as <- <-.
    pose proof (width_S shape l d u E) as HwS. pose proof (groups_down shape l d' u' E') as Hgd.
    pose proof (Z.div_mod g d' ltac:(lia)) as Em. pose proof (Z.mod_pos_bound g d' Hd') as Hm.
    injection H as <- <-. split; [|split; [lia|]].
    + split; cbn [p_level p_group p_index]; [by apply lookup_lt_Some in E'| |rewrite HwS; nia].
      split; [apply Z.div_pos; lia|apply Z.div_lt_upper_bound; lia].
    + unfold ft_neighbour. cbn [p_level p_group p_index]. rewrite E'. cbn [mbind option_bind]. rewrite (proj2 (Z.ltb_lt _ _)) by lia.
      rewrite E. cbn [mbind option_bind]. rewrite Z.mod_add, (Z.mod_small i), Z.div_add, (Z.div_small i) by lia.
      f_equal. f_equal; [f_equal; lia|lia].
Qed.

(** A link leads back: the port at its far end is connected to the port it
    comes from. *)
Theorem links_symmetric shape p port q port' :
  ft_wf shape -> place_ok shape p -> 0 <= port -> ft_neighbour shape p port = Some (q, port') ->
  place_ok shape q /\ 0 <= port' /\ ft_neighbour shape q port' = Some (p, port).
Proof. exact (links_back shape p port q port'). Qed.
