(* ===== verification/FatTreeCast.v ===== *)
(** * FatTreeCast: broadcasts in a fat tree

    The messages of the init phase that are for every host go down every port of every
    router on one path to the top ([routeUntimedData]); each host gets exactly one
    copy, and the host that sent the message none. *)

From S2P Require Import Prelude Merlin Grid GridRoute FatTree FatTreeRoute FatTreeShape.

(** The hosts that get a copy of a message that a router receives on a port. *)
Definition concatM {A B} (f : A -> res (list B)) : list A -> res (list B) :=
  fix go l := match l with [] => Ok [] | x :: l' => a ← f x; b ← go l'; Ok (a ++ b) end.

Fixpoint flood (fuel : nat) (shape : list (Z * Z)) (at_place : place -> FatTree) (p : place) (inPort : Z) (ev : packet)
    : res (list Z) :=
  match fuel with
  | O => Err (Fatal "out of fuel")
  | S fuel' =>
      outPorts ← routeUntimedData (at_place p) inPort ev;
      concatM (fun port => match ft_neighbour shape p port with
                           | None => Ok [fattree_endpoint (at_place p) port]
                           | Some (p', port') => flood fuel' shape at_place p' port' ev
                           end) outPorts
  end.

(** ** Blocks of hosts *)

Lemma concatM_Ok {A B} (f : A -> res (list B)) (g : A -> list B) l :
  (forall x, x ∈ l -> f x = Ok (g x)) -> concatM f l = Ok (l ≫= g).
Proof.
  induction l as [|x l IH]; intros H; [done|]. cbn [concatM]. rewrite (H x) by by left. cbn [mbind res_bind].
  rewrite IH; [done|]. intros y Hy. apply H. by right.
Qed.
Lemma concatM_app {A B} (f : A -> res (list B)) l1 l2 a b :
  concatM f l1 = Ok a -> concatM f l2 = Ok b -> concatM f (l1 ++ l2) = Ok (a ++ b).
Proof.
  revert a. induction l1 as [|x l1 IH]; intros a H1 H2; cbn [app concatM] in *; [by injection H1 as <-|].
  destruct (f x) as [a1|]; cbn [mbind res_bind] in *; [|done]. destruct (concatM f l1) as [a2|]; cbn [mbind res_bind] in *; [|done].
  injection H1 as <-. rewrite (IH a2 eq_refl H2). cbn [mbind res_bind]. by rewrite app_assoc.
Qed.

Lemma blocks_seqZ a s first n :
  0 <= s -> 0 <= n -> seqZ first n ≫= (fun k => seqZ (a + k * s) s) = seqZ (a + first * s) (n * s).
Proof.
  intros Hs Hn. revert first. pattern n. apply natlike_ind; [by intros| |done]. clear n Hn. intros n Hn IH first.
  rewrite seqZ_cons by lia. cbn [mbind list_bind]. change (list_bind Z Z) with (@mbind list _ Z Z). rewrite Z.pred_succ, IH.
  replace (Z.succ n * s) with (s + n * s) by ring. rewrite seqZ_app by nia. f_equal. f_equal. lia.
Qed.

Lemma filter_all (P : Z -> Prop) `{!forall x, Decision (P x)} (l : list Z) : (forall x, x ∈ l -> P x) -> filter P l = l.
Proof.
  induction l as [|x l IH]; intros Hall; [done|]. rewrite filter_cons_True by (apply Hall; by left). f_equal. apply IH.
  intros y Hy. apply Hall. by right.
Qed.

Lemma seqZ_without j d :
  0 <= j < d -> filter (fun i => i <> j) (seqZ 0 d) = seqZ 0 j ++ seqZ (j + 1) (d - j - 1).
Proof.
  intros Hj. replace d with (j + (1 + (d - j - 1))) at 1 by lia. rewrite seqZ_app by lia. rewrite (seqZ_app _ 1) by lia.
  rewrite !filter_app. rewrite (seqZ_cons (0 + j) 1), filter_cons_False by lia. change (seqZ _ (Z.pred 1)) with (@nil Z).
  rewrite (filter_all _ (seqZ 0 j)), (filter_all _ (seqZ (0 + j + 1) _)) by (intros x Hx%elem_of_seqZ; lia). rewrite filter_nil. done.
Qed.

(** ** Floods *)

Section broadcast.
Context (shape : list (Z * Z)) (m : Z) (at_place : place -> FatTree) (Hn : ft_network shape m at_place) (ev : packet).
Context (Hev : getDest ev = UNTIMED_BROADCAST_ADDR).
#[local] Abbreviation levels := (length shape).
#[local] Abbreviation span := (FatTree.span shape).
#[local] Abbreviation Hwf := (fn_wf _ _ _ Hn).

(** The hosts below a place, and those below one of its ports. *)
Definition hosts_below (p : place) : list Z := seqZ (p_group p * span (S (p_level p))) (span (S (p_level p))).
Definition hosts_at (p : place) (port : Z) : list Z :=
  seqZ (p_group p * span (S (p_level p)) + port * span (p_level p)) (span (p_level p)).

Lemma hosts_at_next p port q port' d u :
  shape !! p_level p = Some (d, u) -> port < d -> ft_neighbour shape p port = Some (q, port') ->
  p_level p = S (p_level q) /\ hosts_at p port = hosts_below q /\
    exists d' u', shape !! p_level q = Some (d', u') /\ port' = d' + p_index p / width shape (p_level q).
Proof.
  intros E Hd H. unfold ft_neighbour in H. rewrite E in H. cbn [mbind option_bind] in H. rewrite (proj2 (Z.ltb_lt _ _)) in H by done.
  destruct (p_level p) as [|k] eqn:El; [done|]. destruct (shape !! k) as [[d' u']|] eqn:E'; cbn [mbind option_bind] in H; [|done].
  injection H as <- <-. cbn [p_level]. split; [done|]. split; [|by exists d', u'].
  unfold hosts_at, hosts_below. cbn [p_level p_group]. rewrite El, (span_S shape (S k) d u E). f_equal. ring.
Qed.

Lemma ports_of p : place_ok shape p ->
  shape !! p_level p = Some (down_ports (at_place p), up_ports (at_place p)) /\ 0 < down_ports (at_place p).
Proof.
  intros Hp. pose proof (fn_objects _ _ _ Hn p Hp) as Ho. split; [apply (oa_ports _ _ _ _ Ho)|apply (object_down _ Hwf _ _ _ Ho)].
Qed.

(** What the copy sent to a down port reaches, when the routers below do so. *)
Lemma copy_down fuel p k :
  (forall q inPort, place_ok shape q -> (p_level q < fuel)%nat -> (forall d u, shape !! p_level q = Some (d, u) -> d <= inPort) ->
    flood fuel shape at_place q inPort ev = Ok (hosts_below q)) ->
  place_ok shape p -> (p_level p <= fuel)%nat -> 0 <= k < down_ports (at_place p) ->
  match ft_neighbour shape p k with
  | None => Ok [fattree_endpoint (at_place p) k]
  | Some (p', port') => flood fuel shape at_place p' port' ev
  end = Ok (hosts_at p k).
Proof.
  intros IH Hp Hl [Hk0 Hk]. pose proof (ports_of p Hp) as [E _]. destruct (ft_neighbour shape p k) as [[q port']|] eqn:En.
  - destruct (hosts_at_next _ _ _ _ _ _ E Hk En) as (Hlv & -> & d' & u' & E' & ->).
    destruct (links_back shape p k q _ Hwf Hp ltac:(lia) En) as (Hq & _ & _). apply IH; [done|lia|].
    intros d'' u'' E''. rewrite E' in E''. injection E'' as -> ->. pose proof (po_index _ _ Hp) as Hi.
    pose proof (width_pos shape Hwf (p_level q) (po_level _ _ Hq)).
    pose proof (Z.div_pos (p_index p) (width shape (p_level q)) ltac:(lia) ltac:(lia)). lia.
  - unfold ft_neighbour in En. rewrite E in En. cbn [mbind option_bind] in En. rewrite (proj2 (Z.ltb_lt _ _)) in En by lia.
    unfold hosts_at, fattree_endpoint. rewrite (oa_low _ _ _ _ (fn_objects _ _ _ Hn p Hp)).
    destruct (p_level p) as [|l] eqn:El.
    + unfold FatTree.span at 3 4. rewrite take_0. change (product []) with 1. rewrite (seqZ_cons _ 1), Z.mul_1_r by lia. done.
    + destruct (level_at shape Hwf l) as (d' & u' & E' & _); [pose proof (po_level _ _ Hp); lia|]. by rewrite E' in En.
Qed.

(** The hosts of consecutive ports. *)
Lemma hosts_blocks p first n : 0 <= n ->
  seqZ first n ≫= hosts_at p = seqZ (p_group p * span (S (p_level p)) + first * span (p_level p)) (n * span (p_level p)).
Proof. intros Hnn. unfold hosts_at. apply blocks_seqZ; [|done]. pose proof (span_pos shape Hwf (p_level p)). lia. Qed.

(** A message from above reaches every host below, in order. *)
Lemma flood_down fuel : forall p inPort,
  place_ok shape p -> (p_level p < fuel)%nat -> (forall d u, shape !! p_level p = Some (d, u) -> d <= inPort) ->
  flood fuel shape at_place p inPort ev = Ok (hosts_below p).
Proof.
  induction fuel as [|fuel IH]; intros p inPort Hp Hl Hin; [lia|]. cbn [flood].
  pose proof (ports_of p Hp) as [E Hdp]. pose proof (Hin _ _ E) as Hge. unfold routeUntimedData. rewrite Hev, Z.eqb_refl.
  rewrite (filter_all (fun i => i <> inPort)) by (intros x Hx%elem_of_seqZ; lia).
  rewrite (proj2 (Z.ltb_ge inPort _)) by lia. rewrite andb_false_r. cbn [mbind res_bind].
  rewrite (concatM_Ok _ (hosts_at p)).
  - rewrite hosts_blocks by lia. unfold hosts_below. rewrite (span_S shape _ _ _ E). do 2 f_equal; ring.
  - intros k Hk%elem_of_seqZ. apply copy_down; [done..|lia|lia].
Qed.

Lemma own_hosts p j d u :
  shape !! p_level p = Some (d, u) -> 0 <= j < d ->
  ((seqZ 0 j ++ seqZ (j + 1) (d - j - 1)) ≫= hosts_at p) ++ hosts_at p j ≡ₚ hosts_below p.
Proof.
  intros E Hj. pose proof (span_pos shape Hwf (p_level p)) as Hs. rewrite bind_app, !hosts_blocks by lia. unfold hosts_below, hosts_at.
  rewrite (span_S shape _ _ _ E). set (s := span (p_level p)) in *. set (a := p_group p * (s * d)).
  replace (s * d) with (j * s + (s + (d - j - 1) * s)) by ring. rewrite (seqZ_app (a)), (seqZ_app (a + j * s)) by nia.
  rewrite <- app_assoc. replace (a + (j + 1) * s) with (a + j * s + s) by ring. replace (a + 0 * s) with a by ring.
  apply Permutation_app_head. apply Permutation_app_comm.
Qed.

(** A message from below reaches every host but those it came from. *)
Lemma flood_up h : forall p j fuel,
  place_ok shape p -> 0 <= j < down_ports (at_place p) -> (p_level p + S h = levels)%nat -> (levels + h < fuel)%nat ->
  exists hosts, flood fuel shape at_place p j ev = Ok hosts /\ hosts ++ hosts_at p j ≡ₚ seqZ 0 (product shape.*1).
Proof.
  induction h as [|h IH]; intros p j fuel Hp Hj Hlv Hfuel; (destruct fuel as [|fuel]; [lia|]); cbn [flood];
    pose proof (ports_of p Hp) as [E Hdp]; pose proof (fw_ups _ Hwf _ _ _ E) as Hu; pose proof (own_hosts p j _ _ E Hj) as Hown;
    unfold routeUntimedData; rewrite Hev, Z.eqb_refl, seqZ_without by done;
    (assert (concatM (fun port => match ft_neighbour shape p port with
        | None => Ok [fattree_endpoint (at_place p) port] | Some (p', port') => flood fuel shape at_place p' port' ev end)
        (seqZ 0 j ++ seqZ (j + 1) (down_ports (at_place p) - j - 1)) = Ok ((seqZ 0 j ++ seqZ (j + 1) (down_ports (at_place p) - j - 1)) ≫= hosts_at p)) as Hdn;
      [apply concatM_Ok; intros k [Hk%elem_of_seqZ|Hk%elem_of_seqZ]%elem_of_app; (apply copy_down; [apply flood_down|done|lia|lia])|]).
  - rewrite (proj2 (Nat.eqb_eq _ _)) in Hu by lia. rewrite Hu. cbn [Z.eqb negb andb mbind res_bind]. eexists. split; [exact Hdn|].
    rewrite Hown. unfold hosts_below. assert (groups shape (p_level p) = 1) as Eg.
    { unfold groups. rewrite drop_ge; [done|]. rewrite length_fmap. lia. }
    pose proof (po_group _ _ Hp) as Hg. replace (p_group p) with 0 by lia. pose proof (span_total shape (p_level p)) as Ht.
    rewrite Eg, Z.mul_1_r in Ht. by rewrite Ht, Z.mul_0_l.
  - rewrite (proj2 (Nat.eqb_neq _ _)) in Hu by lia. rewrite (proj2 (Z.eqb_neq (up_ports _) 0)), (proj2 (Z.ltb_lt _ _)) by lia. cbn [negb andb].
    set (t := at_place p) in *. pose proof (oa_small _ _ _ _ (fn_objects _ _ _ Hn p Hp)) as [Hm0 Hsm]. fold t in Hsm.
    pose proof (oa_count _ _ _ _ (fn_objects _ _ _ Hn p Hp)) as Hc. fold t in Hc. rewrite int_rem_Ok by nia. cbn [mbind res_bind].
    set (r := j `mod` up_ports t). pose proof (Z.mod_pos_bound j (up_ports t) Hu) as Hr. fold r in Hr.
    destruct (level_at shape Hwf (S (p_level p))) as (d' & u' & E' & Hd'); [lia|].
    assert (ft_neighbour shape p (down_ports t + r) = Some (mkPlace (S (p_level p)) (p_group p / d')
      (p_index p + r * width shape (p_level p)), p_group p `mod` d')) as En.
    { unfold ft_neighbour. rewrite E. cbn [mbind option_bind]. rewrite (proj2 (Z.ltb_ge _ _)) by lia. rewrite E'. cbn [mbind option_bind].
      replace (down_ports t + r - down_ports t) with r by ring. by rewrite (proj2 (Z.ltb_lt _ _)) by lia. }
    assert (0 <= down_ports t + r) as Hrp by lia. destruct (links_back shape p _ _ _ Hwf Hp Hrp En) as (Hq & _ & _).
    set (q := mkPlace _ _ _) in *. pose proof (ports_of q Hq) as [Eq Hdq]. cbn [p_level q] in Eq. rewrite E' in Eq. injection Eq as Ed _.
    destruct (IH q (p_group p `mod` d') fuel Hq) as (rest & Er & Hrest); [rewrite <- Ed; by apply Z.mod_pos_bound|cbn; lia|lia|].
    assert (hosts_at q (p_group p `mod` d') = hosts_below p) as Ehb.
    { unfold hosts_at, hosts_below. cbn [p_level p_group q]. rewrite (span_S shape (S (p_level p)) _ _ E'). f_equal.
      pose proof (Z.div_mod (p_group p) d' ltac:(lia)). nia. }
    rewrite Ehb in Hrest. eexists. split.
    + apply concatM_app; [exact Hdn|]. cbn [concatM]. rewrite En, Er. cbn [mbind res_bind]. rewrite app_nil_r. done.
    + rewrite <- Hrest, <- Hown, <- app_assoc. rewrite (Permutation_app_comm rest (hosts_at p j)). rewrite app_assoc. apply Permutation_app_comm.
Qed.
End broadcast.

(** C20. A message that is broadcast while the simulation starts reaches every host of
    the tree exactly once, the sender excepted. *)
Theorem broadcast_reaches_all shape m at_place ev src port :
  ft_network shape m at_place -> getDest ev = UNTIMED_BROADCAST_ADDR -> place_ok shape src -> p_level src = O ->
  0 <= port < down_ports (at_place src) ->
  exists hosts, flood (2 * length shape) shape at_place src port ev = Ok hosts /\
    fattree_endpoint (at_place src) port :: hosts ≡ₚ seqZ 0 (product shape.*1).
Proof.
  intros Hn Hev Hs Hl Hport. pose proof (po_level _ _ Hs) as Hlt.
  destruct (flood_up shape m at_place Hn ev Hev (length shape - 1) src port (2 * length shape)) as (hosts & E & Hp); [done|done|lia|lia|].
  exists hosts. split; [done|]. rewrite <- Hp. unfold fattree_endpoint, hosts_at.
  rewrite (oa_low _ _ _ _ (fn_objects _ _ _ Hn src Hs)), Hl. unfold span at 3 4. rewrite take_0. change (product []) with 1.
  rewrite (seqZ_cons _ 1), Z.mul_1_r by lia. apply Permutation_cons_append.
Qed.
