(* ===== verification/FatTreeRouter.v ===== *)
(** * FatTreeRouter: a fat tree is a network routers can work in

    The laws routers ask of a topology object, and that a router of a fat tree can
    route every packet on its way, to one of its ports, and hands it over to the next
    router as such a packet: with [RouterCycle] its packets move. *)

From S2P Require Import Prelude Merlin Grid GridRoute HrRouter RouterWake RouterPorts FatTree FatTreeRoute.

#[local] Existing Instance fattree_topology.

Lemma route_deterministic_keeps t (ev ev' : packet) :
  route_deterministic t ev = Ok ev' -> exists p, ev' = setNextPort p ev.
Proof. unfold route_deterministic. intros H. case_match; inv_res; by eexists. Qed.

Lemma fattree_route_keeps t port vc (ev ev' : packet) :
  fattree_route t port vc ev = Ok ev' -> exists p, ev' = setNextPort p ev.
Proof.
  unfold fattree_route. intros H. inv_res. rename select (route_deterministic _ _ = _) into Hd. apply route_deterministic_keeps in Hd as [p ->].
  repeat (case_match; inv_res); try (by exists p); by eexists.
Qed.

#[export] Instance fattree_laws : TopologyLaws FatTree unit (HT := fattree_topology).
Proof.
  split; [| |by intros t ev ev' [= <-]]; intros t port vc ev ev' H; by apply (fattree_route_keeps t port vc) in H as [p ->].
Qed.

(** A router of a fat tree can route every packet that is on its way through the
    tree, to a port and a virtual channel it has; a host's packet is on its way, and
    so is the packet that reaches the next router. *)
Theorem fattree_packets_routable shape m at_place p :
  ft_network shape (Z.of_nat m) at_place -> place_ok shape p ->
  let carried (_ : Z) (ev : packet) := on_way shape (Z.of_nat m) (getDest ev) ev in
  routes_within (Z.to_nat (num_ports (at_place p))) m (at_place p) carried /\
  (forall re src, ft_enters shape (Z.of_nat m) re src -> carried 0 (fattree_input re)) /\
  (forall port ev ev' np, carried port ev -> fattree_route (at_place p) port (ire_vc ev) ev = Ok ev' -> next_port ev' = Some np ->
     fattree_port_state (at_place p) np = PortState.R2N /\ ft_neighbour shape p np = None \/
     exists q port', ft_neighbour shape p np = Some (q, port') /\ place_ok shape q /\ carried port' ev').
Proof.
  intros Hn Hp carried. pose proof (fn_wf _ _ _ Hn) as Hwf. pose proof (fn_objects _ _ _ Hn p Hp) as Ho.
  assert (forall port ev, carried port ev -> exists ev' np, fattree_route (at_place p) port (ire_vc ev) ev = Ok ev' /\
    next_port ev' = Some np /\ goes shape p (getDest ev) np /\ carried port ev' /\ ire_vc ev' = ire_vc ev) as Hroute.
  { intros port ev Hc. destruct (route_Ok shape Hwf _ p _ (getDest ev) port ev Ho Hp Hc) as (ev' & np & E & En & Hg & Hw & Hvc).
    exists ev', np. split_and!; try done. unfold carried. by rewrite (ow_dest _ _ _ _ Hw). }
  split_and!.
  - intros port ev Hc. destruct (Hroute port ev Hc) as (ev' & np & E & En & (d & u & Eu & Hg) & Hc' & Hvc). exists ev'. split; [done|].
    rewrite (oa_ports _ _ _ _ Ho) in Eu. injection Eu as <- <-. pose proof (oa_count _ _ _ _ Ho). pose proof (object_down _ Hwf _ _ _ Ho).
    pose proof (fw_ups _ Hwf _ _ _ (oa_ports _ _ _ _ Ho)) as Hu.
    assert (0 <= up_ports (at_place p)) by (destruct (_ =? _)%nat; lia).
    split; [pose proof (ow_vc _ _ _ _ Hc'); lia|]. exists np. split; [done|]. case_bool_decide; lia.
  - intros re src Hen. exact (enters_on_way _ _ _ _ Hen).
  - intros port ev ev' np Hc E En. destruct (Hroute port ev Hc) as (ev2 & np2 & E2 & En2 & Hg & Hc' & _). rewrite E in E2. injection E2 as <-.
    rewrite En in En2. injection En2 as <-. pose proof (ow_range _ _ _ _ Hc) as Hr.
    destruct (goes_hop shape Hwf p (getDest ev) np Hp Hr) as [Hl H0 HN Hd Hlt _|q port' HN Hq _ _ _]; [|done|left|right].
    + intros Hne. apply (not_below_up shape Hwf _ p _ _ Ho Hp Hr Hne).
    + split; [|done]. apply (host_port shape _ p _ np (getDest ev) Ho Hl Hd Hlt).
    + by exists q, port'.
Qed.
