(* ===== verification/FatTreeDemo.v ===== *)
(** * FatTreeDemo: a small fat tree

    Three levels, 24 hosts: [4,2:2,2:3]. The credits of the first up port of every
    router are used up, so that adaptive packets take the second. *)

From S2P Require Import Prelude Merlin Grid GridRoute FatTree FatTreeRoute FatTreeShape FatTreeCast RouterPorts FatTreeRouter.

Definition demo_shape : list (Z * Z) := [(4, 2); (2, 2); (3, 0)].
Definition half (c : Z) : Z := c / 2.
Definition all_credits (d u : Z) : list Z := replicate (Z.to_nat (d + u)) 8.
Definition demo_credits (d u : Z) : list Z := <[Z.to_nat d := 1]> (all_credits d u).

Definition unbuilt : FatTree := mkFatTree 0 0 0 0 0 0 0 0 0 0 0 0 [] [] [].
Definition demo_at (p : place) : FatTree :=
  match demo_shape !! p_level p with
  | Some (d, u) =>
      match new_fattree "4,2:2,2:3" (inr ["adaptive"%string]) (d + u) (router_number demo_shape p) 1 with
      | Ok t => (setOutputBufferCreditArray half (all_credits d u) 1 t) <| outputCredits := demo_credits d u |>
      | Err _ => unbuilt
      end
  | None => unbuilt
  end.

Lemma demo_fits : ft_fits demo_shape.
Proof.
  split.
  - split; [done|by repeat constructor| |done]. intros k d u H. destruct k as [|[|[|k]]]; cbn in H; (try done); by injection H as <- <-.
  - intros k Hk. destruct k as [|[|k]]; [done|done|cbn in Hk; lia].
Qed.

Lemma demo_network : ft_network demo_shape 1 demo_at.
Proof.
  split; [apply (ff_wf _ demo_fits)|]. intros q Hq. unfold demo_at. destruct (lookup_lt_is_Some_2 demo_shape (p_level q) (po_level _ _ Hq)) as [[d u] E].
  rewrite E. destruct (constructed "4,2:2,2:3" demo_shape q d u ["adaptive"%string] 1 (all_credits d u) half) as (t & -> & Ho & _); try done.
  5: { destruct Ho. split; try done. cbn. unfold demo_credits, all_credits. rewrite length_insert, length_replicate.
    destruct (p_level q) as [|[|[|l]]]; cbn in E; (try done); by injection E as <- <-. }
  - apply demo_fits.
  - repeat constructor.
  - destruct (p_level q) as [|[|[|l]]]; cbn in E; (try done); by injection E as <- <-.
  - destruct (p_level q) as [|[|[|l]]]; cbn in E; (try done); by injection E as <- <-.
Qed.

(** Host 1 of the first router sends a packet to host 22. *)
Definition demo_src : place := mkPlace 0 0 0.
Definition to_22 : RtrEvent := mkRtrEvent 22 1 0 2.
Lemma demo_src_ok : place_ok demo_shape demo_src.
Proof. split; vm_compute; [lia|done|done]. Qed.
Lemma to_22_enters : ft_enters demo_shape 1 to_22 demo_src.
Proof. split; [apply demo_src_ok|done|done|done]. Qed.

(** The packet avoids the ports without credits, and goes by both levels above. *)
Example adaptive_way : ft_journey 5 demo_shape demo_at demo_src 1 (fattree_input to_22) =
  Ok ([(mkPlace 0 0 0, 5); (mkPlace 1 0 1, 3); (mkPlace 2 0 3, 2); (mkPlace 1 2 1, 1)], mkPlace 0 5 0, 2).
Proof. vm_compute. done. Qed.

Lemma fattree_delivers_witness :
  exists way q out, ft_journey (S (length way)) demo_shape demo_at demo_src 1 (fattree_input to_22) = Ok (way, q, out) /\
    length way = (2 * climb demo_shape demo_src 22)%nat /\ (length way <= 2 * (length demo_shape - 1))%nat /\
    fattree_port_state (demo_at q) out = PortState.R2N /\ fattree_endpoint (demo_at q) out = 22.
Proof. exact (fattree_delivers demo_shape 1 demo_at to_22 demo_src 1 demo_network to_22_enters). Defined.

Lemma fattree_finds_place_witness :
  exists t, new_fattree "4,2:2,2:3" (inr ["adaptive"%string]) 4 (router_number demo_shape (mkPlace 1 2 1)) 1 = Ok t /\
    object_at demo_shape 1 (mkPlace 1 2 1) (setOutputBufferCreditArray half (all_credits 2 2) 1 t) /\ level_id t = 5 /\ level_group t = 2.
Proof.
  apply (fattree_finds_place "4,2:2,2:3" demo_shape (mkPlace 1 2 1) 2 2 ["adaptive"%string] 1 (all_credits 2 2) half); try done.
  - apply demo_fits.
  - split; vm_compute; [lia|done|done].
  - repeat constructor.
Defined.

Lemma links_symmetric_witness :
  place_ok demo_shape (mkPlace 2 0 3) /\ 0 <= 2 /\ ft_neighbour demo_shape (mkPlace 2 0 3) 2 = Some (mkPlace 1 2 1, 3).
Proof.
  apply (links_symmetric demo_shape (mkPlace 1 2 1) 3); [apply (ff_wf _ demo_fits)|split; vm_compute; [lia|done|done]|done|done].
Defined.

Definition greeting : packet := fattree_input (mkRtrEvent (-1) 1 0 1).
Lemma broadcast_reaches_all_witness :
  exists hosts, flood 6 demo_shape demo_at demo_src 1 greeting = Ok hosts /\ fattree_endpoint (demo_at demo_src) 1 :: hosts ≡ₚ seqZ 0 24.
Proof. apply (broadcast_reaches_all demo_shape 1 demo_at greeting demo_src 1 demo_network); [done|apply demo_src_ok|done|done]. Defined.

Lemma fattree_packets_routable_witness :
  let carried (_ : Z) (ev : packet) := on_way demo_shape (Z.of_nat 1) (getDest ev) ev in
  routes_within (HT := fattree_topology) (Z.to_nat (num_ports (demo_at demo_src))) 1 (demo_at demo_src) carried /\
  (forall re src, ft_enters demo_shape (Z.of_nat 1) re src -> carried 0 (fattree_input re)) /\
  (forall port ev ev' np, carried port ev -> fattree_route (demo_at demo_src) port (ire_vc ev) ev = Ok ev' -> next_port ev' = Some np ->
     fattree_port_state (demo_at demo_src) np = PortState.R2N /\ ft_neighbour demo_shape demo_src np = None \/
     exists q port', ft_neighbour demo_shape demo_src np = Some (q, port') /\ place_ok demo_shape q /\ carried port' ev').
Proof. exact (fattree_packets_routable demo_shape 1 demo_at demo_src demo_network demo_src_ok). Defined.
