(* ===== verification/LinkControl.v ===== *)
(** * LinkControl: the network interface of an endpoint

    Models [merlin/interfaces/linkControl.h/.cc]: the queues between an endpoint and
    its router, their credits, the round robin over virtual networks, the congestion
    state, and the phases in which the two ends of the link negotiate. Requests are
    objects the endpoint shares with [send], which returns what it made of them.
    Everything sent, every timer and every call of the endpoint is recorded in
    [actions]. Not modelled: the reading of parameters, tracing, statistics other
    than those of idle and stalled time. *)

From S2P Require Import Prelude Merlin PortControl.

(** ** Data *)

(** [SimpleNetwork::Request]: [payload] stands for the fields the network carries
    without reading them. *)
Record Request := mkRequest { dest : Z; vn : Z; size_in_bits : Z; payload : Z }.
#[export] Instance request_eta : Eta Request := fun r => mkRequest (dest r) (vn r) (size_in_bits r) (payload r).

(** [RtrEvent] with the request it carries. *)
Record NetEvent := mkNetEvent { request : Request; src : Z; net_vn : Z; flits : Z; injectionTime : Z }.
#[export] Instance netevent_eta : Eta NetEvent := fun e =>
  mkNetEvent (request e) (src e) (net_vn e) (flits e) (injectionTime e).
Definition target (ev : NetEvent) : Z := dest (request ev).

(** What the routers see of it. *)
Definition router_view (ev : NetEvent) : RtrEvent := mkRtrEvent (target ev) (src ev) (net_vn ev) (flits ev).

Module Init.
Inductive command := REQUEST_VNS | SET_VNS | REPORT_ID | REPORT_BW | REPORT_FLIT_SIZE | REPORT_PORT.
#[global] Instance eq_dec : EqDecision command.
Proof. solve_decision. Defined.
End Init.

(** What the link carries. A [CongestionEvent] that an endpoint sends is for the
    router of another endpoint. *)
Inductive net_event :=
| NetCredit (vc credits : Z)
| NetPacket (ev : NetEvent)
| NetInit (command : Init.command) (value : Z)
| Congestion (target backoff throttle_time : Z) (router_of : option Z)
| OtherCtrl.

Record CongestionState := mkCongestion { backoff : Z; throttle_time : Z; count : Z }.
#[export] Instance congestion_eta : Eta CongestionState := fun c => mkCongestion (backoff c) (throttle_time c) (count c).

Record output_queue_bundle_t := mkBundle { queue : list NetEvent; b_vn : Z; b_credits : Z }.
#[export] Instance bundle_eta : Eta output_queue_bundle_t := fun b => mkBundle (queue b) (b_vn b) (b_credits b).
#[export] Instance bundle_inhabited : Inhabited output_queue_bundle_t := populate (mkBundle [] (-1) 0).

Inductive lc_action :=
| RtrSend (ev : net_event)
| RtrUntimed (ev : net_event)
| Timer (delay : Z)
| CongestionTimer (delay : Z)
| Received (vn : Z)
| Sent (vn : Z)
| IdleTime (t : Z)
| StallTime (t : Z).

Record LinkControl := mkLinkControl {
  link_bw : Z;
  inbuf_flits : Z;
  outbuf_flits : Z;
  flit_size : Z;
  time_factor : Z;
  init_events : list NetEvent;
  req_vns : Z;
  total_vns : Z;
  vn_out_map : option (list Z);
  vn_remap_out : list (option Z);
  output_queues : list output_queue_bundle_t;
  router_credits : list Z;
  router_return_credits : list Z;
  input_queues : list (list NetEvent);
  id : Z;
  logical_nid : Z;
  nid_map : option (list Z);
  curr_out_vn : Z;
  lc_waiting : bool;
  lc_have_packets : bool;
  lc_start_block : Z;
  lc_is_idle : bool;
  lc_idle_start : Z;
  congestion_state : gmap Z CongestionState;
  receiveFunctor : bool;
  sendFunctor : bool;
  network_initialized : bool;
  performed : list lc_action
}.
#[export] Instance linkcontrol_eta : Eta LinkControl := fun s =>
  mkLinkControl (link_bw s) (inbuf_flits s) (outbuf_flits s) (flit_size s) (time_factor s) (init_events s) (req_vns s) (total_vns s)
    (vn_out_map s) (vn_remap_out s) (output_queues s) (router_credits s) (router_return_credits s) (input_queues s) (id s)
    (logical_nid s) (nid_map s) (curr_out_vn s) (lc_waiting s) (lc_have_packets s) (lc_start_block s) (lc_is_idle s) (lc_idle_start s)
    (congestion_state s) (receiveFunctor s) (sendFunctor s) (network_initialized s) (performed s).

Abbreviation LC := (M LinkControl).
Definition used_vns (s : LinkControl) : Z := Z.of_nat (length (output_queues s)).
Definition perform (a : lc_action) : LC unit := modify (fun s => s <| performed ::= fun l => l ++ [a] |>).

(** [output_timing->send(..); waiting = false] *)
Definition wake_output (delay : Z) : LC unit := perform (Timer delay) ;; modify (fun s => s <| lc_waiting := false |>).

Definition end_idle_lc (now : Z) : LC unit :=
  b ← gets lc_is_idle; t ← gets lc_idle_start;
  when b (perform (IdleTime (now - t)) ;; modify (fun s => s <| lc_is_idle := false |>)).

(** ** Sending *)

Definition spaceToSend (v bits : Z) : LC bool :=
  r ← getsR (fun s => at_index (vn_remap_out s) v);
  i ← getsR (fun _ => of_option (Undefined "virtual network without an output queue") r);
  q ← getsR (fun s => at_index (output_queues s) i);
  f ← gets flit_size;
  mret (negb (b_credits q * f <? bits)).

(** The logical identifiers of a job. *)
Definition translate (nids : option (list Z)) (dest : Z) : res Z :=
  match nids with Some m => at_index m dest | None => Ok dest end.

(** [send]: the answer, and what became of the request. *)
Definition send (now v : Z) (req : Request) : LC (bool * Request) :=
  n ← gets req_vns;
  if n <=? v then mret (false, req)
  else
    nids ← gets nid_map;
    d ← getsR (fun _ => translate nids (dest req));
    let req := req <| vn := v |> <| dest := d |> in
    r ← getsR (fun s => at_index (vn_remap_out s) v);
    i ← getsR (fun _ => of_option (Undefined "virtual network without an output queue") r);
    q ← getsR (fun s => at_index (output_queues s) i);
    me ← gets id; f ← gets flit_size;
    n ← getsR (fun _ => computeSizeInFlits (size_in_bits req) f);
    if b_credits q <? n then mret (false, req)
    else
      let ev := mkNetEvent req me (b_vn q) n now in
      l ← getsR (fun s => set_index (output_queues s) i (q <| b_credits := b_credits q - n |> <| queue := queue q ++ [ev] |>));
      modify (fun s => s <| output_queues := l |>) ;;
      w ← gets lc_waiting; h ← gets lc_have_packets;
      when (w && negb h) (wake_output 1) ;;
      modify (fun s => s <| congestion_state ::= alter (fun c => c <| count := count c + 1 |>) d |>) ;;
      mret (true, req).

(** ** Receiving *)

Definition recv (v : Z) : LC (option Request) :=
  l ← getsR (fun s => at_index (input_queues s) v);
  match l with
  | [] => mret None
  | ev :: l' =>
      q ← getsR (fun s => set_index (input_queues s) v l');
      modify (fun s => s <| input_queues := q |>) ;;
      c ← getsR (fun s => at_index (router_return_credits s) v);
      r ← getsR (fun s => set_index (router_return_credits s) v (c + flits ev));
      modify (fun s => s <| router_return_credits := r |>) ;;
      perform (RtrSend (NetCredit (net_vn ev) (c + flits ev))) ;;
      r ← getsR (fun s => set_index (router_return_credits s) v 0);
      modify (fun s => s <| router_return_credits := r |>) ;;
      nids ← gets nid_map; nid ← gets logical_nid;
      mret (Some (match nids with Some _ => (request ev) <| dest := nid |> | None => request ev end))
  end.

Definition requestToReceive (v : Z) : LC bool :=
  l ← getsR (fun s => at_index (input_queues s) v); mret (bool_decide (l <> [])).

(** ** Events of the link *)

(** The loop that counts the packets for a target turns each queue once around. *)
Fixpoint count_turning (size : nat) (t : Z) (q : list NetEvent) (count : Z) : list NetEvent * Z :=
  match size, q with
  | S size', item :: q' => count_turning size' t (q' ++ [item]) (if target item =? t then count + 1 else count)
  | _, _ => (q, count)
  end.
Fixpoint count_queues (t : Z) (l : list output_queue_bundle_t) (count : Z) : list output_queue_bundle_t * Z :=
  match l with
  | [] => ([], count)
  | b :: l' =>
      let (q, c) := count_turning (length (queue b)) t (queue b) count in
      let (l', c) := count_queues t l' c in (b <| queue := q |> :: l', c)
  end.

Definition handle_congestion_event (now t back throttle : Z) : LC unit :=
  if back <=? 1 then modify (fun s => s <| congestion_state ::= delete t |>)
  else
    cs ← gets congestion_state;
    c ← match cs !! t with
        | Some c => mret c
        | None =>
            l ← gets output_queues;
            let (l, n) := count_queues t l 0 in
            modify (fun s => s <| output_queues := l |>) ;;
            mret (mkCongestion back 0 n)
        end;
    let c := c <| backoff := back |> in
    let c := if throttle_time c <? now + throttle then c <| throttle_time := now + throttle |> else c in
    modify (fun s => s <| congestion_state ::= insert t c |>).

(** [keep] is what the endpoint's functor answers. *)
Definition handle_input (now : Z) (keep : bool) (ev : net_event) : LC unit :=
  match ev with
  | NetCredit vc n =>
      c ← getsR (fun s => at_index (router_credits s) vc);
      l ← getsR (fun s => set_index (router_credits s) vc (c + n));
      modify (fun s => s <| router_credits := l |>) ;;
      w ← gets lc_waiting;
      when w (wake_output 1 ;;
              h ← gets lc_have_packets; t ← gets lc_start_block; when h (perform (StallTime (now - t))))
  | Congestion t back throttle _ => handle_congestion_event now t back throttle
  | OtherCtrl => skip
  | NetPacket ev =>
      let v := vn (request ev) in
      l ← getsR (fun s => at_index (input_queues s) v);
      q ← getsR (fun s => set_index (input_queues s) v (l ++ [ev]));
      modify (fun s => s <| input_queues := q |>) ;;
      end_idle_lc now ;;
      f ← gets receiveFunctor;
      when f (perform (Received v) ;; modify (fun s => s <| receiveFunctor := keep |>))
  | NetInit _ _ => undefined "an initialization event cast to a packet"
  end.

(** ** The output timer *)

(** One pass over output queues: the first whose packet has credits and is not
    throttled, whether its target is congested, and the latest throttle time met. *)
Fixpoint find_vn (now : Z) (l : list Z) (block : Z) : LC (option (Z * NetEvent * bool) * Z) :=
  match l with
  | [] => mret (None, block)
  | i :: l' =>
      q ← getsR (fun s => at_index (output_queues s) i);
      match queue q with
      | [] => find_vn now l' block
      | ev :: rest =>
          modify (fun s => s <| lc_have_packets := true |>) ;;
          c ← getsR (fun s => at_index (router_credits s) (b_vn q));
          if c <? flits ev then find_vn now l' block
          else
            cs ← gets congestion_state;
            let take throttled :=
              l ← getsR (fun s => set_index (output_queues s) i (q <| queue := rest |>));
              modify (fun s => s <| output_queues := l |>) ;;
              mret (Some (i, ev, throttled), block) in
            match cs !! target ev with
            | None => take false
            | Some c =>
                if now <? throttle_time c then
                  find_vn now l' (if block <? throttle_time c then throttle_time c else block)
                else take true
            end
      end
  end.

(** A packet for a congested target: the next has to wait, and after the last one
    the router is told that the stream is over. *)
Definition throttle_next (now : Z) (ev : NetEvent) : LC unit :=
  cs ← gets congestion_state; me ← gets id; f ← gets time_factor;
  let c := default (mkCongestion 1 0 0) (cs !! target ev) in
  let c := c <| throttle_time := now + flits ev * f * (2 + backoff c) |> <| count := count c - 1 |> in
  modify (fun s => s <| congestion_state ::= insert (target ev) c |>) ;;
  when (count c =? 0) (perform (RtrSend (Congestion me 0 0 (Some (target ev))))).

Definition send_packet (now : Z) (keep : bool) (i : Z) (ev : NetEvent) (throttled : bool) : LC unit :=
  q ← getsR (fun s => at_index (output_queues s) i);
  l ← getsR (fun s => set_index (output_queues s) i (q <| b_credits := b_credits q + flits ev |>));
  modify (fun s => s <| output_queues := l |>) ;;
  perform (Timer (flits ev)) ;;
  when throttled (throttle_next now ev) ;;
  n ← gets used_vns;
  modify (fun s => s <| curr_out_vn := if i + 1 =? n then 0 else i + 1 |>) ;;
  c ← getsR (fun s => at_index (router_credits s) (b_vn q));
  r ← getsR (fun s => set_index (router_credits s) (b_vn q) (c - flits ev));
  modify (fun s => s <| router_credits := r |>) ;;
  end_idle_lc now ;;
  perform (RtrSend (NetPacket (ev <| injectionTime := now |>))) ;;
  f ← gets sendFunctor;
  when f (perform (Sent (vn (request ev))) ;; modify (fun s => s <| sendFunctor := keep |>)).

Definition nothing_to_send (now block : Z) : LC unit :=
  modify (fun s => s <| lc_start_block := now |> <| lc_waiting := true |>) ;;
  h ← gets lc_have_packets; idle ← gets lc_is_idle;
  when (negb h && negb idle) (modify (fun s => s <| lc_idle_start := now |> <| lc_is_idle := true |>)) ;;
  when h (end_idle_lc now) ;;
  when (negb (block =? 0)) (perform (CongestionTimer (block - now))).

Definition handle_output (now : Z) (keep : bool) : LC unit :=
  modify (fun s => s <| lc_have_packets := false |>) ;;
  cur ← gets curr_out_vn; n ← gets used_vns;
  '(found, block) ← find_vn now (seqZ cur (n - cur)) 0;
  '(found, block) ← match found with None => find_vn now (seqZ 0 cur) block | Some _ => mret (found, block) end;
  match found with
  | Some (i, ev, throttled) => send_packet now keep i ev throttled
  | None => nothing_to_send now block
  end.

Definition handle_congestion : LC unit :=
  w ← gets lc_waiting; when w (perform (Timer 0)) ;; modify (fun s => s <| lc_waiting := false |>).

(** ** The init phases *)

(** The messages that have come over the link, oldest first. *)
Definition recvUntimed (inbox : list net_event) : option net_event * list net_event :=
  match inbox with [] => (None, []) | ev :: l => (Some ev, l) end.

(** [checkInitProtocol] with the next message. *)
Definition expect (cmd : Init.command) (inbox : list net_event) : res (Z * list net_event) :=
  match recvUntimed inbox with
  | (Some (NetInit c v), l) => if decide (c = cmd) then Ok (v, l) else Err (Fatal "LinkControl protocol initialization")
  | _ => Err (Fatal "LinkControl protocol initialization")
  end.

Definition init_phase0 : LC unit :=
  bw ← gets link_bw; n ← gets req_vns;
  perform (RtrUntimed (NetInit Init.REPORT_BW bw)) ;; perform (RtrUntimed (NetInit Init.REQUEST_VNS n)).

(** [factor] is the time base of the output timer for a bandwidth and a flit size. *)
Definition init_phase1 (factor : Z -> Z -> Z) (inbox : list net_event) : LC (list net_event) :=
  '(bw, l) ← getsR (fun _ => expect Init.REPORT_BW inbox);
  modify (fun s => s <| link_bw := Z.min (link_bw s) bw |>) ;;
  '(f, l) ← getsR (fun _ => expect Init.REPORT_FLIT_SIZE l);
  modify (fun s => s <| flit_size := f |> <| time_factor := factor (link_bw s) f |>) ;;
  '(nid, l) ← getsR (fun _ => expect Init.REPORT_ID l);
  modify (fun s => s <| id := nid |> <| logical_nid := if logical_nid s =? -1 then nid else logical_nid s |>) ;;
  nids ← gets nid_map;
  match nids with
  | None => mret l
  | Some m => k ← gets logical_nid; m ← getsR (fun _ => set_index m k nid); modify (fun s => s <| nid_map := Some m |>) ;; mret l
  end.

(** The virtual networks the router gives, one for each that was requested. *)
Fixpoint receive_vns (n : nat) (inbox : list net_event) : res (list Z * list net_event) :=
  match n with
  | O => Ok ([], inbox)
  | S n' => '(v, l) ← expect Init.REQUEST_VNS inbox; '(vs, l) ← receive_vns n' l; Ok (v :: vs, l)
  end.

(** How often each network is used, and the credits of my input buffers. *)
Fixpoint count_vns (vmap : list Z) (inbuf : Z) (vn_count return_credits : list Z) : res (list Z * list Z) :=
  match vmap with
  | [] => Ok (vn_count, return_credits)
  | v :: vmap' =>
      if v =? -1 then count_vns vmap' inbuf vn_count return_credits
      else
        c ← at_index vn_count v;
        r ← (if c =? 0 then set_index return_credits v inbuf else Ok return_credits);
        n ← set_index vn_count v (c + 1);
        count_vns vmap' inbuf n r
  end.

(** An output queue for each network used, from network [i] on. *)
Fixpoint instance_queues (vmap : list Z) (outbuf : Z) (vn_count : list Z) (i : Z)
    (queues : list output_queue_bundle_t) (remap : list (option Z)) : list output_queue_bundle_t * list (option Z) :=
  match vn_count with
  | [] => (queues, remap)
  | c :: vn_count' =>
      if 0 <? c then
        instance_queues vmap outbuf vn_count' (i + 1) (queues ++ [mkBundle [] i outbuf])
          (zip_with (fun v (r : option Z) => if v =? i then Some (Z.of_nat (length queues)) else r) vmap remap)
      else instance_queues vmap outbuf vn_count' (i + 1) queues remap
  end.

(** The credits of the input buffers go to the router, network by network. *)
Fixpoint send_credits (i : Z) (credits : list Z) : LC unit :=
  match credits with
  | [] => skip
  | c :: credits' =>
      when (0 <? c) (
        perform (RtrUntimed (NetCredit i c)) ;;
        l ← getsR (fun s => set_index (router_return_credits s) i 0);
        modify (fun s => s <| router_return_credits := l |>)) ;;
      send_credits (i + 1) credits'
  end.

Definition init_phase2 (inbox : list net_event) : LC (list net_event) :=
  '(total, l) ← getsR (fun _ => expect Init.REQUEST_VNS inbox);
  req ← gets req_vns; given ← gets vn_out_map; inbuf ← gets inbuf_flits; outbuf ← gets outbuf_flits;
  '(vs, l) ← getsR (fun _ => receive_vns (Z.to_nat req) l);
  let vmap := default vs given in
  let zeros := replicate (Z.to_nat total) 0 in
  '(vn_count, credits) ← getsR (fun _ => count_vns vmap inbuf zeros zeros);
  let (queues, remap) := instance_queues vmap outbuf vn_count 0 [] (replicate (Z.to_nat req) None) in
  modify (fun s => s <| total_vns := total |> <| router_credits := zeros |> <| router_return_credits := credits |>
    <| output_queues := queues |> <| vn_remap_out := remap |> <| vn_out_map := None |> <| network_initialized := true |>) ;;
  send_credits 0 credits ;;
  mret l.

(** The later phases, and [complete]: packets wait for the endpoint, and in [init]
    credits are taken. *)
Fixpoint receive_untimed (completing : bool) (inbox : list net_event) : LC unit :=
  match inbox with
  | [] => skip
  | ev :: inbox' =>
      match ev with
      | NetCredit vc n =>
          if completing then fatal "non-RtrEvent not handled"
          else
            c ← getsR (fun s => at_index (router_credits s) vc);
            l ← getsR (fun s => set_index (router_credits s) vc (c + n));
            modify (fun s => s <| router_credits := l |>)
      | NetPacket p => modify (fun s => s <| init_events ::= fun l => l ++ [p] |>)
      | _ => fatal "non-RtrEvent not handled"
      end ;;
      receive_untimed completing inbox'
  end.

Definition init (factor : Z -> Z -> Z) (now : Z) (phase : nat) (inbox : list net_event) : LC (list net_event) :=
  l ← match phase with
      | 0%nat => init_phase0 ;; mret inbox
      | 1%nat => init_phase1 factor inbox
      | 2%nat => init_phase2 inbox
      | _ => receive_untimed false inbox ;; mret []
      end;
  modify (fun s => s <| lc_idle_start := now |> <| lc_is_idle := true |>) ;; mret l.

Definition complete (inbox : list net_event) : LC unit := receive_untimed true inbox.

Definition sendUntimedData (req : Request) : LC unit :=
  nids ← gets nid_map;
  d ← getsR (fun _ => translate nids (dest req));
  me ← gets id;
  perform (RtrUntimed (NetPacket (mkNetEvent (req <| dest := d |>) me 0 0 0))).

Definition recvUntimedData : LC (option Request) :=
  l ← gets init_events;
  match l with
  | [] => mret None
  | ev :: l' => modify (fun s => s <| init_events := l' |>) ;; mret (Some (request ev))
  end.

(** [setup] and [finish] drop what is left. *)
Definition setup : LC unit := modify (fun s => s <| init_events := [] |>).
Definition finish (now : Z) : LC unit :=
  end_idle_lc now ;;
  modify (fun s => s <| input_queues ::= fmap (fun _ => []) |> <| output_queues ::= fmap (fun b => b <| queue := [] |>) |>).

(** The constructor: [nids] is the map of a job of the given size, if there is one. *)
Definition new_LinkControl (bw inbuf outbuf vns : Z) (vmap : list Z) (nids : option (list Z)) (nid : Z) (recv_set send_set : bool)
    : res LinkControl :=
  vmap ← (if bool_decide (vmap = []) then Ok None
          else if Z.of_nat (length vmap) =? vns then Ok (Some vmap) else Err (Fatal "length of vn_map"));
  Ok (mkLinkControl bw inbuf outbuf 0 0 [] vns 0 vmap [] [] [] [] (replicate (Z.to_nat vns) []) (-1) nid nids 0
        true false 0 true 0 ∅ recv_set send_set false []).
