(* ===== verification/LinkControlRuns.v ===== *)
(** * LinkControlRuns: what every operation of a network interface does

    The invariant of [LinkControl] and one theorem for all operations: in a state that
    satisfies it they return, keep it, and change the queues, the credits and the
    timers as the accounts of [LinkControlSafe] say. *)

From S2P Require Import Prelude Merlin LinkControl.

(** ** Invariant *)

(** Packets for a target in output queues. *)
Definition queued (t : Z) (l : list output_queue_bundle_t) : Z :=
  total (fun b => total (fun ev => if target ev =? t then 1 else 0) (queue b)) l.

(** An output queue: its credits are the space its packets leave. *)
Record bundle_ok (outbuf vns : Z) (b : output_queue_bundle_t) : Prop := {
  bk_vn : 0 <= b_vn b < vns;
  bk_credits : 0 <= b_credits b;
  bk_space : b_credits b + total flits (queue b) = outbuf;
  bk_events : Forall (fun ev => 0 <= flits ev /\ net_vn ev = b_vn b) (queue b)
}.

Record lc_wf (s : LinkControl) : Prop := {
  lw_flit : 0 < flit_size s < 2 ^ 30;
  lw_remap : Z.of_nat (length (vn_remap_out s)) = req_vns s;
  lw_mapped v i : vn_remap_out s !! v = Some (Some i) -> 0 <= i < used_vns s;
  lw_bundles k b : output_queues s !! k = Some b -> bundle_ok (outbuf_flits s) (total_vns s) b;
  lw_distinct : NoDup (b_vn <$> output_queues s);
  lw_credits : Z.of_nat (length (router_credits s)) = total_vns s;
  lw_credits_pos v : 0 <= router_credits s !!! v;
  lw_return : router_return_credits s = replicate (Z.to_nat (total_vns s)) 0;
  lw_input : Z.of_nat (length (input_queues s)) = req_vns s;
  lw_cur : 0 <= curr_out_vn s /\ (curr_out_vn s < used_vns s \/ curr_out_vn s = 0);
  lw_congestion t c : congestion_state s !! t = Some c -> count c = queued t (output_queues s);
  lw_empty : lc_waiting s = true -> lc_have_packets s = false -> Forall (fun b => queue b = []) (output_queues s)
}.

(** ** Operations *)

Inductive lc_op :=
| OpSend (now vn : Z) (req : Request)
| OpRecv (vn : Z)
| OpInput (now : Z) (keep : bool) (ev : net_event)
| OpOutput (now : Z) (keep : bool)
| OpCongestion.

Inductive lc_result :=
| RSend (accepted : bool) (req : Request)
| RRecv (req : option Request)
| RNone.

Definition lc_run (op : lc_op) : LC lc_result :=
  match op with
  | OpSend now vn req => r ← send now vn req; mret (RSend r.1 r.2)
  | OpRecv vn => r ← recv vn; mret (RRecv r)
  | OpInput now keep ev => handle_input now keep ev ;; mret RNone
  | OpOutput now keep => handle_output now keep ;; mret RNone
  | OpCongestion => handle_congestion ;; mret RNone
  end.

(** What the endpoint and the router may ask for: networks they agreed on, requests
    whose destination is in the job, credits that are not negative; the output timer
    fires only when it was started. *)
Definition op_ok (s : LinkControl) (op : lc_op) : Prop :=
  match op with
  | OpSend now v req =>
      0 <= v /\ 0 <= size_in_bits req < 2 ^ 30 /\
      (v < req_vns s -> (exists i, vn_remap_out s !! Z.to_nat v = Some (Some i)) /\ exists d, translate (nid_map s) (dest req) = Ok d)
  | OpRecv v => 0 <= v < req_vns s /\ v < total_vns s
  | OpInput now keep ev =>
      match ev with
      | NetCredit vc n => 0 <= vc < total_vns s /\ 0 <= n
      | NetPacket ev => 0 <= vn (request ev) < req_vns s
      | NetInit _ _ => False
      | _ => True
      end
  | OpOutput _ _ => lc_waiting s = false
  | OpCongestion => True
  end.

(** ** Accounts *)

(** The requests of the packets sent on a network, and their flits. *)
Definition sent_on (v : Z) (l : list lc_action) : list Request :=
  omap (fun a => match a with RtrSend (NetPacket ev) => if net_vn ev =? v then Some (request ev) else None | _ => None end) l.
Definition flits_on (v : Z) (l : list lc_action) : Z :=
  total (fun a => match a with RtrSend (NetPacket ev) => if net_vn ev =? v then flits ev else 0 | _ => 0 end) l.
Definition timers_in (l : list lc_action) : Z := total (fun a => match a with Timer _ => 1 | _ => 0 end) l.

Definition accepted_by (s : LinkControl) (op : lc_op) (r : lc_result) (k : nat) : list Request :=
  match op, r with
  | OpSend _ v _, RSend true req => if decide (vn_remap_out s !! Z.to_nat v = Some (Some (Z.of_nat k))) then [req] else []
  | _, _ => []
  end.
Definition credited_by (op : lc_op) (v : Z) : Z :=
  match op with OpInput _ _ (NetCredit vc n) => if vc =? v then n else 0 | _ => 0 end.
Definition fired_by (op : lc_op) : Z := match op with OpOutput _ _ => 1 | _ => 0 end.

Definition running (s : LinkControl) : Z := if lc_waiting s then 0 else 1.

(** What an operation leaves as it is. *)
Record same_setup (s s' : LinkControl) : Prop := {
  su_remap : vn_remap_out s' = vn_remap_out s;
  su_req : req_vns s' = req_vns s;
  su_total : total_vns s' = total_vns s;
  su_outbuf : outbuf_flits s' = outbuf_flits s;
  su_nids : nid_map s' = nid_map s;
  su_vns : b_vn <$> output_queues s' = b_vn <$> output_queues s
}.

Record effect (s : LinkControl) (op : lc_op) (r : lc_result) (s' : LinkControl) : Prop := {
  ef_wf : lc_wf s';
  ef_setup : same_setup s s';
  ef_actions : exists acts, performed s' = performed s ++ acts /\
    (forall k b, output_queues s !! k = Some b -> exists b', output_queues s' !! k = Some b' /\
       (request <$> queue b) ++ accepted_by s op r k = sent_on (b_vn b) acts ++ (request <$> queue b')) /\
    (forall v : nat, router_credits s' !!! v = router_credits s !!! v + credited_by op (Z.of_nat v) - flits_on (Z.of_nat v) acts) /\
    running s' = running s - fired_by op + timers_in acts
}.

(** ** Lemmas *)

Lemma queued_insert t (l : list output_queue_bundle_t) (k : nat) b b' :
  l !! k = Some b -> queued t (<[k := b']> l) = queued t l -
    total (fun ev => if target ev =? t then 1 else 0) (queue b) + total (fun ev => if target ev =? t then 1 else 0) (queue b').
Proof. intros H. unfold queued. by rewrite (total_insert _ _ _ _ b' H). Qed.

Lemma same_vns (l : list output_queue_bundle_t) (k : nat) (b b' : output_queue_bundle_t) : l !! k = Some b -> b_vn b' = b_vn b -> b_vn <$> <[k := b']> l = b_vn <$> l.
Proof. intros H E. rewrite list_fmap_insert, E. apply list_insert_id. by rewrite list_lookup_fmap, H. Qed.

(** Turning a queue around leaves it as it was. *)
Lemma count_turning_eq t : forall front back c,
  count_turning (length front) t (front ++ back) c =
    (back ++ front, c + total (fun ev => if target ev =? t then 1 else 0) front).
Proof.
  induction front as [|ev front IH]; intros back c; cbn [length count_turning app].
  - rewrite app_nil_r. unfold total. cbn [foldr]. by rewrite Z.add_0_r.
  - rewrite <- app_assoc, IH, <- app_assoc, total_cons. f_equal. destruct (target ev =? t); lia.
Qed.
Lemma count_queues_eq t l c : count_queues t l c = (l, c + queued t l).
Proof.
  revert c. induction l as [|b l IH]; intros c; cbn [count_queues].
  - unfold queued, total. cbn [foldr]. by rewrite Z.add_0_r.
  - pose proof (count_turning_eq t (queue b) [] c) as E. rewrite app_nil_r in E. rewrite E, IH. unfold queued. rewrite total_cons.
    cbn [app]. f_equal; [by destruct b|lia].
Qed.

(** The invariant and the accounts when one output queue changes. *)
Lemma wf_bundle s k b b' :
  lc_wf s -> output_queues s !! k = Some b -> bundle_ok (outbuf_flits s) (total_vns s) b' -> b_vn b' = b_vn b ->
  forall j c, <[k := b']> (output_queues s) !! j = Some c -> bundle_ok (outbuf_flits s) (total_vns s) c.
Proof.
  intros Hwf Hk Hb Ev j c [(<- & <- & _)|[_ H]]%list_lookup_insert_Some; [done|]. by apply (lw_bundles _ Hwf j).
Qed.

Lemma mapped_bundle s v i : lc_wf s -> vn_remap_out s !! v = Some (Some i) ->
  exists b, output_queues s !! Z.to_nat i = Some b /\ at_index (output_queues s) i = Ok b.
Proof.
  intros Hwf H. apply (lw_mapped _ Hwf) in H as Hi. unfold used_vns in Hi.
  destruct (lookup_lt_is_Some_2 (output_queues s) (Z.to_nat i)) as [b Hb]; [lia|]. exists b. split; [done|].
  apply at_index_Ok. split; [lia|done].
Qed.

Ltac lc_walk :=
  repeat first
    [ apply runs_bind | apply runs_gets | apply runs_modify | apply runs_ret | apply runs_skip
    | eapply runs_getsR; [eassumption|] | progress cbn beta iota ].

(** ** send *)

Definition accepted_state (now : Z) (ev : NetEvent) (i : Z) (b : output_queue_bundle_t) (s : LinkControl) : LinkControl :=
  let s1 := s <| output_queues ::= insert (Z.to_nat i) (b <| b_credits := b_credits b - flits ev |> <| queue := queue b ++ [ev] |>) |>
              <| congestion_state ::= alter (fun c => c <| count := count c + 1 |>) (target ev) |> in
  if lc_waiting s && negb (lc_have_packets s) then s1 <| performed ::= fun l => l ++ [Timer 1] |> <| lc_waiting := false |> else s1.

Lemma send_returns s now v req i d b n (Q : bool * Request -> LinkControl -> Prop) :
  0 <= v < req_vns s -> vn_remap_out s !! Z.to_nat v = Some (Some i) -> translate (nid_map s) (dest req) = Ok d ->
  at_index (output_queues s) i = Ok b -> computeSizeInFlits (size_in_bits req) (flit_size s) = Ok n ->
  let req' := req <| vn := v |> <| dest := d |> in
  (b_credits b < n -> Q (false, req') s) ->
  (n <= b_credits b -> Q (true, req') (accepted_state now (mkNetEvent req' (id s) (b_vn b) n now) i b s)) ->
  runs (send now v req) s Q.
Proof.
  intros Hv Hr Hd Hb Hn req' Hno Hyes. unfold send. lc_walk. rewrite (proj2 (Z.leb_gt _ _)) by lia. lc_walk.
  eapply runs_getsR; [apply at_index_Ok; split; [lia|exact Hr]|]. lc_walk.
  destruct (Z.ltb_spec (b_credits b) n) as [Hlt|Hge].
  - lc_walk. by apply Hno.
  - apply at_index_Ok in Hb as [Hi Hb]. apply runs_bind. eapply runs_getsR.
    { apply set_index_in_range. split; [done|]. apply lookup_lt_Some in Hb. lia. }
    lc_walk. specialize (Hyes Hge). unfold accepted_state in Hyes. cbn in Hyes |- *.
    destruct (lc_waiting s && negb (lc_have_packets s)); cbn [when]; unfold wake_output, perform; lc_walk; exact Hyes.
Qed.

Lemma total_snoc {A} (f : A -> Z) l x : total f (l ++ [x]) = total f l + f x.
Proof. by rewrite total_app, total_one. Qed.

(** An operation that changes nothing. *)
Lemma effect_none s op r :
  lc_wf s -> (forall k, accepted_by s op r k = []) -> (forall v, credited_by op v = 0) -> fired_by op = 0 -> effect s op r s.
Proof.
  intros Hwf Ha Hc Hf. split; [done|done|]. exists []. rewrite app_nil_r. split; [done|]. rewrite Hf. split_and!.
  - intros k b Hb. exists b. rewrite Ha, app_nil_r. done.
  - intros v. rewrite Hc. unfold flits_on, total. cbn [foldr]. lia.
  - unfold timers_in, total. cbn [foldr]. lia.
Qed.

Lemma accepted_wf s now ev i b :
  lc_wf s -> output_queues s !! Z.to_nat i = Some b -> 0 <= flits ev <= b_credits b -> net_vn ev = b_vn b ->
  lc_wf (accepted_state now ev i b s).
Proof.
  intros Hwf Hb Hn Ev. set (b' := b <| b_credits := b_credits b - flits ev |> <| queue := queue b ++ [ev] |>).
  assert (bundle_ok (outbuf_flits s) (total_vns s) b') as Hb'.
  { destruct (lw_bundles _ Hwf _ _ Hb) as [H1 H2 H3 H4]. split; cbn; [done|lia|rewrite total_snoc; lia|].
    apply Forall_app. split; [done|]. constructor; [|done]. split; [lia|done]. }
  assert (lc_wf (s <| output_queues ::= insert (Z.to_nat i) b' |> <| congestion_state ::= alter (fun c => c <| count := count c + 1 |>) (target ev) |>
            <| lc_waiting := lc_waiting s && lc_have_packets s |>)) as H.
  { destruct Hwf. split; cbn; try done.
    - unfold used_vns in *. cbn. by rewrite length_insert.
    - intros j c [(<- & <- & _)|[_ H]]%list_lookup_insert_Some; [done|by eapply lw_bundles0].
    - by rewrite (same_vns _ _ _ b' Hb).
    - unfold used_vns in *. cbn. by rewrite length_insert.
    - intros t c Hc. rewrite (queued_insert _ _ _ _ b' Hb). cbn. rewrite total_snoc.
      apply lookup_alter_Some in Hc as [(<- & c0 & Hc & ->)|[Hne Hc]]; rewrite (lw_congestion0 _ _ Hc); cbn.
      + rewrite Z.eqb_refl. lia.
      + rewrite (proj2 (Z.eqb_neq _ _)) by done. lia.
    - intros Hw Hh. rewrite Hh, andb_false_r in Hw. done. }
  unfold accepted_state. cbv zeta. destruct (lc_waiting s) eqn:Ew, (lc_have_packets s) eqn:Eh; cbn [andb negb] in *; destruct H; split; cbn in *; try done; try congruence.
Qed.

Lemma send_effect s now v req :
  lc_wf s -> op_ok s (OpSend now v req) ->
  runs (send now v req) s (fun r s' => effect s (OpSend now v req) (RSend r.1 r.2) s').
Proof.
  intros Hwf (Hv & Hbits & Hmap). destruct (Z.leb_spec (req_vns s) v) as [Hout|Hin].
  { unfold send. lc_walk. rewrite (proj2 (Z.leb_le _ _)) by done. lc_walk. by apply effect_none. }
  destruct (Hmap Hin) as [[i Hi] [d Hd]]. destruct (mapped_bundle s _ _ Hwf Hi) as (b & Hb & Hbi).
  pose proof (lw_flit _ Hwf) as Hf. assert (computeSizeInFlits (size_in_bits req) (flit_size s) =
    Ok ((size_in_bits req + flit_size s - 1) / flit_size s)) as Hn.
  { unfold computeSizeInFlits. apply int_div_Ok; lia. }
  assert (0 <= (size_in_bits req + flit_size s - 1) / flit_size s) as Hpos by (apply Z.div_pos; lia).
  eapply send_returns; [done..| |]; intros Hc.
  - by apply effect_none.
  - pose proof (lw_mapped _ Hwf _ _ Hi) as Hir. set (ev := mkNetEvent _ _ _ _ _).
    split.
    + by apply accepted_wf.
    + unfold accepted_state. destruct (lc_waiting s && _); split; try done; cbn; by apply (same_vns _ _ b).
    + exists (if lc_waiting s && negb (lc_have_packets s) then [Timer 1] else []). split; [|split_and!].
      * unfold accepted_state. destruct (lc_waiting s && _); cbn; [done|by rewrite app_nil_r].
      * intros k b0 Hk. exists (if decide (Z.to_nat i = k) then b <| b_credits := b_credits b - flits ev |> <| queue := queue b ++ [ev] |> else b0).
        assert (sent_on (b_vn b0) (if lc_waiting s && negb (lc_have_packets s) then [Timer 1] else []) = []) as -> by by destruct (_ && _).
        split.
        -- unfold accepted_state. assert (<[Z.to_nat i := b <| b_credits := b_credits b - flits ev |> <| queue := queue b ++ [ev] |>]> (output_queues s) !! k =
             Some (if decide (Z.to_nat i = k) then b <| b_credits := b_credits b - flits ev |> <| queue := queue b ++ [ev] |> else b0)) as E.
           { rewrite list_lookup_insert. apply lookup_lt_Some in Hb. destruct (decide (Z.to_nat i = k)) as [Ek|Ek]; [rewrite decide_True by done|rewrite decide_False by naive_solver]; done. }
           destruct (lc_waiting s && _); exact E.
        -- cbn [accepted_by fst snd app]. rewrite Hi. destruct (decide (Z.to_nat i = k)) as [Ek|Ek].
           ++ subst k. rewrite Hb in Hk. injection Hk as <-. rewrite decide_True by (do 2 f_equal; lia). cbn. by rewrite fmap_app.
           ++ rewrite decide_False, app_nil_r; [done|]. intros [= ->]. apply Ek. lia.
      * intros v'. unfold accepted_state, flits_on. cbn [credited_by]. destruct (lc_waiting s && _); unfold total; cbn; lia.
      * unfold accepted_state, running, timers_in. cbn [fired_by]. destruct (lc_waiting s) eqn:Ew, (lc_have_packets s) eqn:Eh; unfold total; cbn; rewrite ?Ew; lia.
Qed.

(** ** recv and handle_input *)

(** Operations that touch neither the output queues nor the credits. *)
Record aside (s s' : LinkControl) (acts : list lc_action) : Prop := {
  as_wf : lc_wf s';
  as_setup : same_setup s s';
  as_queues : output_queues s' = output_queues s;
  as_credits : router_credits s' = router_credits s;
  as_acts : performed s' = performed s ++ acts;
  as_quiet : forall v, sent_on v acts = [] /\ flits_on v acts = 0;
  as_timers : running s' = running s + timers_in acts
}.

Lemma aside_effect s s' acts op r :
  aside s s' acts -> (forall k, accepted_by s op r k = []) -> (forall v, credited_by op v = 0) -> fired_by op = 0 -> effect s op r s'.
Proof.
  intros [Hw Hs Hq Hc Ha Hquiet Ht] H1 H2 H3. split; [done|done|]. exists acts. split; [done|]. split_and!.
  - intros k b Hb. exists b. rewrite Hq, H1, app_nil_r. destruct (Hquiet (b_vn b)) as [-> _]. done.
  - intros v. rewrite Hc, H2. destruct (Hquiet (Z.of_nat v)) as [_ ->]. lia.
  - lia.
Qed.

Lemma recv_effect s v : lc_wf s -> op_ok s (OpRecv v) -> runs (recv v) s (fun r s' => effect s (OpRecv v) (RRecv r) s').
Proof.
  intros Hwf [Hv Ht]. destruct (at_index_in_range (input_queues s) v) as [q Hq]; [rewrite (lw_input _ Hwf); lia|].
  unfold recv. lc_walk. destruct q as [|ev q].
  { lc_walk. by apply effect_none. }
  pose proof (lw_return _ Hwf) as Hret.
  assert (at_index (router_return_credits s) v = Ok 0) as Hc by (apply at_index_Ok; rewrite Hret; split; [lia|]; apply lookup_replicate; split; [done|lia]).
  assert (Z.of_nat (length (router_return_credits s)) = total_vns s) as Hlen by (rewrite Hret, length_replicate; lia).
  apply runs_bind. eapply runs_getsR; [apply set_index_in_range; rewrite (lw_input _ Hwf); lia|]. lc_walk.
  eapply runs_getsR; [apply set_index_in_range; cbn; lia|]. unfold perform. lc_walk.
  eapply runs_getsR; [apply set_index_in_range; cbn; rewrite length_insert; lia|]. lc_walk. cbn.
  apply (aside_effect _ _ [RtrSend (NetCredit (net_vn ev) (0 + flits ev))]); [|done..]. split; try done.
  - destruct Hwf. split; try done; cbn; [|by rewrite length_insert]. rewrite list_insert_insert, lw_return0.
    rewrite decide_True by done. apply list_insert_id, lookup_replicate. split; [done|lia].
  - cbn. unfold running, timers_in, total. cbn. lia.
Qed.

Lemma end_idle_aside s now : lc_wf s -> runs (end_idle_lc now) s (fun _ s' => exists acts, aside s s' acts).
Proof.
  intros Hwf. unfold end_idle_lc. lc_walk. apply runs_when; intros Hb; unfold perform.
  - lc_walk. exists [IdleTime (now - lc_idle_start s)]. destruct Hwf. split; try done. unfold running, timers_in, total; cbn. lia.
  - exists []. split; try done; [by rewrite app_nil_r|]. unfold timers_in, total. cbn. lia.
Qed.

Lemma aside_refl s : lc_wf s -> aside s s [].
Proof. intros H. split; try done; [by rewrite app_nil_r|]. unfold timers_in, total. cbn. lia. Qed.

Lemma aside_trans s1 s2 s3 a1 a2 : aside s1 s2 a1 -> aside s2 s3 a2 -> aside s1 s3 (a1 ++ a2).
Proof.
  intros [Hw1 [] Hq1 Hc1 Ha1 Hz1 Ht1] [Hw2 [] Hq2 Hc2 Ha2 Hz2 Ht2]. split; try done; try congruence.
  - split; congruence.
  - by rewrite Ha2, Ha1, app_assoc.
  - intros v. destruct (Hz1 v) as [E1 F1], (Hz2 v) as [E2 F2]. unfold sent_on, flits_on in *. rewrite omap_app, E1, E2, total_app. split; [done|lia].
  - unfold timers_in in *. rewrite total_app. lia.
Qed.

Lemma congestion_event_aside s now t back throttle : lc_wf s ->
  runs (handle_congestion_event now t back throttle) s (fun _ s' => aside s s' []).
Proof.
  intros Hwf. unfold handle_congestion_event. destruct (back <=? 1).
  - lc_walk. apply (aside_refl s) in Hwf as Ha. destruct Ha, Hwf. split; try done. split; try done. cbn.
    intros t' c [_ H]%lookup_delete_Some. by apply lw_congestion0.
  - assert (forall c, count c = queued t (output_queues s) -> aside s (s <| congestion_state ::= insert t c |>) []) as Hins.
    { intros c Hc. apply (aside_refl s) in Hwf as Ha. destruct Ha, Hwf. split; try done. split; try done. cbn.
      intros t' c' [[<- <-]|[_ H]]%lookup_insert_Some; [done|by apply lw_congestion0]. }
    lc_walk. destruct (congestion_state s !! t) as [c|] eqn:Ec.
    + lc_walk. apply Hins. pose proof (lw_congestion _ Hwf _ _ Ec). case_match; done.
    + lc_walk. rewrite count_queues_eq. lc_walk. rewrite Z.add_0_l.
      assert (s <| output_queues := output_queues s |> = s) as -> by by destruct s. apply Hins. case_match; done.
Qed.

(** Credits that arrive, and the output they may wake. *)
Lemma credited_effect s s1 s' now keep vc n acts :
  (forall v : nat, router_credits s1 !!! v = router_credits s !!! v + credited_by (OpInput now keep (NetCredit vc n)) (Z.of_nat v)) ->
  same_setup s s1 -> output_queues s1 = output_queues s -> performed s1 = performed s -> running s1 = running s ->
  aside s1 s' acts -> effect s (OpInput now keep (NetCredit vc n)) RNone s'.
Proof.
  intros Hcr [] Hq Hp Hr [Hw [] Hq' Hc' Ha Hquiet Ht]. split; [done|split; congruence|]. exists acts. split; [congruence|]. split_and!.
  - intros k b Hb. exists b. rewrite Hq', Hq, app_nil_r. destruct (Hquiet (b_vn b)) as [-> _]. done.
  - intros v. rewrite Hc'. destruct (Hquiet (Z.of_nat v)) as [_ ->]. rewrite (Hcr v). lia.
  - rewrite Ht, Hr. cbn [fired_by]. lia.
Qed.

Lemma input_effect s now keep ev : lc_wf s -> op_ok s (OpInput now keep ev) ->
  runs (handle_input now keep ev) s (fun _ s' => effect s (OpInput now keep ev) RNone s').
Proof.
  intros Hwf Hok. destruct ev as [vc n|ev| |t back throttle o|]; cbn [op_ok] in Hok; cbn [handle_input]; [| |done| |].
  - destruct (at_index_in_range (router_credits s) vc) as [c Hc]; [rewrite (lw_credits _ Hwf); lia|]. lc_walk.
    eapply runs_getsR; [apply set_index_in_range; rewrite (lw_credits _ Hwf); lia|]. lc_walk. destruct Hok as [Hvc Hn].
    set (s1 := update _ s). apply at_index_Ok in Hc as [_ Hc]. assert (router_credits s !!! Z.to_nat vc = c) as Hct by by apply list_lookup_total_correct.
    assert (lc_wf s1) as Hw1.
    { pose proof (lw_credits_pos _ Hwf (Z.to_nat vc)) as Hp. pose proof (lookup_lt_Some _ _ _ Hc) as Hl. destruct Hwf. split; try done; cbn.
      - by rewrite length_insert.
      - intros v. rewrite insert_total by done. case_decide; [lia|done]. }
    assert (forall v : nat, router_credits s1 !!! v = router_credits s !!! v + credited_by (OpInput now keep (NetCredit vc n)) (Z.of_nat v)) as Hcr.
    { intros v. cbn. rewrite insert_total by by eapply lookup_lt_Some. destruct (Z.eqb_spec vc (Z.of_nat v)) as [->|Hne].
      - rewrite Nat2Z.id in *. rewrite decide_True by done. lia.
      - rewrite decide_False by lia. lia. }
    change (lc_waiting s1) with (lc_waiting s). apply runs_when; intros Hw.
    + unfold wake_output, perform. lc_walk. cbn.
      apply runs_when; intros Hh; lc_walk; eapply (credited_effect s s1); try done.
      all: destruct Hw1; split; try done; try (cbn; by rewrite <- ?app_assoc).
      all: unfold running; change (lc_waiting s1) with (lc_waiting s); rewrite Hw; done.
    + eapply (credited_effect s s1); try done. by apply aside_refl.
  - destruct (at_index_in_range (input_queues s) (vn (request ev))) as [q Hq]; [rewrite (lw_input _ Hwf); lia|]. lc_walk.
    eapply runs_getsR; [apply set_index_in_range; rewrite (lw_input _ Hwf); lia|]. lc_walk.
    set (s1 := update _ s). assert (aside s s1 []) as H1.
    { apply (aside_refl s) in Hwf as Ha. destruct Ha, Hwf. split; try done. split; try done. cbn. by rewrite length_insert. }
    eapply runs_mono; [apply end_idle_aside, H1|]. intros _ s2 [acts H2]. lc_walk. apply runs_when; intros Hf; unfold perform.
    + lc_walk. eapply (aside_effect _ _ (([] ++ acts) ++ [Received (vn (request ev))])); [|done..]. eapply aside_trans; [by eapply aside_trans|].
      destruct H2 as [Hw2 _ _ _ _ _ _], Hw2. split; try done. unfold running, timers_in, total; cbn. lia.
    + eapply (aside_effect _ _ ([] ++ acts)); [|done..]. by eapply aside_trans.
  - lc_walk. eapply runs_mono; [by apply congestion_event_aside|]. intros u s' H. eapply (aside_effect s s' []); [exact H|done..].
  - lc_walk. by apply effect_none.
Qed.

(** ** handle_output *)

Definition nonempty (s : LinkControl) (i : Z) : bool :=
  match output_queues s !! Z.to_nat i with Some b => bool_decide (queue b <> []) | None => false end.

(** An output queue has a packet that may go: with credits, and not throttled. *)
Definition sendable (now : Z) (s : LinkControl) (i : Z) : bool :=
  match output_queues s !! Z.to_nat i with
  | Some b =>
      match queue b with
      | [] => false
      | ev :: _ => (flits ev <=? router_credits s !!! Z.to_nat (b_vn b)) &&
                   match congestion_state s !! target ev with Some c => throttle_time c <=? now | None => true end
      end
  | None => false
  end.

(** The outcome of a pass. *)
Definition passed (now : Z) (s : LinkControl) (l : list Z) (r : option (Z * NetEvent * bool)) (s' : LinkControl) : Prop :=
  match r with
  | None => s' = s <| lc_have_packets := lc_have_packets s || existsb (nonempty s) l |> /\ Forall (fun i => sendable now s i = false) l
  | Some (i, ev, throttled) => exists l1 l2 b rest, l = l1 ++ i :: l2 /\ Forall (fun i => sendable now s i = false) l1 /\
      sendable now s i = true /\ output_queues s !! Z.to_nat i = Some b /\ queue b = ev :: rest /\
      throttled = bool_decide (is_Some (congestion_state s !! target ev)) /\
      s' = s <| lc_have_packets := true |> <| output_queues := <[Z.to_nat i := b <| queue := rest |>]> (output_queues s) |>
  end.

Lemma wf_have s : lc_wf s -> lc_wf (s <| lc_have_packets := true |>).
Proof. intros []. by split. Qed.

Lemma find_vn_runs now l : forall s block,
  lc_wf s -> (forall i, i ∈ l -> 0 <= i < used_vns s) -> runs (find_vn now l block) s (fun r s' => passed now s l r.1 s').
Proof.
  induction l as [|i l IH]; intros s block Hwf Hin; cbn [find_vn].
  - lc_walk. split; [|done]. cbn. rewrite orb_false_r. by destruct s.
  - assert (0 <= i < used_vns s) as Hi by (apply Hin; by left).
    destruct (at_index_in_range (output_queues s) i) as [b Hb]; [done|]. apply at_index_Ok in Hb as Hb'. destruct Hb' as [_ Hb'].
    lc_walk. destruct (queue b) as [|ev rest] eqn:Eq.
    { eapply runs_mono; [apply (IH s block Hwf)|]. { intros j Hj. apply Hin. by right. }
      intros [[[[j e] th]|] blk] s' H; cbn in H |- *.
      - destruct H as (l1 & l2 & b2 & rest2 & -> & Hl1 & H). exists (i :: l1), l2, b2, rest2. split; [done|]. split; [|done].
        constructor; [|done]. unfold sendable. by rewrite Hb', Eq.
      - destruct H as [-> H]. split.
        + assert (nonempty s i = false) as -> by (unfold nonempty; by rewrite Hb', Eq). done.
        + constructor; [|done]. unfold sendable. by rewrite Hb', Eq. }
    lc_walk. set (s1 := s <| lc_have_packets := true |>). pose proof (wf_have s Hwf) as Hwf1. fold s1 in Hwf1.
    pose proof (lw_bundles _ Hwf _ _ Hb') as [Hvn _ _ _]. assert (at_index (router_credits s) (b_vn b) = Ok (router_credits s !!! Z.to_nat (b_vn b))) as Hc.
    { apply at_index_Ok. split; [lia|]. apply list_lookup_lookup_total_lt. pose proof (lw_credits _ Hwf). lia. }
    eapply runs_getsR; [exact Hc|]. lc_walk.
    assert (sendable now s i = false -> forall blk, runs (find_vn now l blk) s1 (fun r s' => passed now s (i :: l) r.1 s')) as Hskip.
    { intros Hno blk. eapply runs_mono; [apply (IH s1 blk Hwf1)|]. { intros j Hj. apply Hin. by right. }
      intros [[[[j e] th]|] blk'] s' H; cbn in H |- *.
      - destruct H as (l1 & l2 & b2 & rest2 & -> & Hl1 & H). exists (i :: l1), l2, b2, rest2. split; [done|]. split; [by constructor|done].
      - destruct H as [-> H]. split; [|by constructor]. assert (nonempty s i = true) as -> by (unfold nonempty; by rewrite Hb', Eq).
        cbn. by rewrite orb_true_r. }
    unfold sendable in Hskip at 1. rewrite Hb', Eq in Hskip.
    assert (sendable now s i = (flits ev <=? router_credits s !!! Z.to_nat (b_vn b)) &&
      match congestion_state s !! target ev with Some c => throttle_time c <=? now | None => true end) as Hs by (unfold sendable; by rewrite Hb', Eq).
    destruct (Z.ltb_spec (router_credits s !!! Z.to_nat (b_vn b)) (flits ev)) as [Hlt|Hge].
    { apply Hskip. by rewrite (proj2 (Z.leb_gt _ _)). }
    rewrite (proj2 (Z.leb_le _ _)) in Hs, Hskip by done. cbn [andb] in Hs, Hskip. lc_walk. change (congestion_state s1) with (congestion_state s).
    assert (forall th blk, th = bool_decide (is_Some (congestion_state s !! target ev)) -> sendable now s i = true ->
      runs (getsR (fun s0 => set_index (output_queues s0) i (b <| queue := rest |>)) ≫= fun l0 =>
        modify (fun s0 => s0 <| output_queues := l0 |>) ≫= fun _ => mret (Some (i, ev, th), blk)) s1 (fun (r : option (Z * NetEvent * bool) * Z) s' => passed now s (i :: l) r.1 s')) as Htake.
    { intros th blk Hth Hyes. apply runs_bind. eapply runs_getsR; [apply set_index_in_range; exact Hi|]. lc_walk.
      exists [], l, b, rest. split_and!; done. }
    destruct (congestion_state s !! target ev) as [c|]; [destruct (Z.ltb_spec now (throttle_time c)) as [Hth|Hth]|].
    + apply Hskip. by apply Z.leb_gt.
    + apply Htake; [by rewrite bool_decide_true by eauto|]. rewrite Hs. by apply Z.leb_le.
    + apply Htake; [by rewrite bool_decide_false by (by intros [])|done].
Qed.

(** The fields the sending of a packet leaves alone. *)
Record unsent (s s' : LinkControl) : Prop := {
  un_setup : flit_size s' = flit_size s /\ vn_remap_out s' = vn_remap_out s /\ req_vns s' = req_vns s /\ total_vns s' = total_vns s /\
    outbuf_flits s' = outbuf_flits s /\ nid_map s' = nid_map s;
  un_inputs : router_return_credits s' = router_return_credits s /\ input_queues s' = input_queues s;
  un_flags : lc_waiting s' = lc_waiting s /\ lc_have_packets s' = lc_have_packets s
}.

(** Actions that are neither packets nor timers. *)
Definition noise (acts : list lc_action) : Prop := (forall v, sent_on v acts = [] /\ flits_on v acts = 0) /\ timers_in acts = 0.
Lemma noise_app a1 a2 : noise a1 -> noise a2 -> noise (a1 ++ a2).
Proof.
  intros [H1 T1] [H2 T2]. split.
  - intros v. destruct (H1 v) as [E1 F1], (H2 v) as [E2 F2]. unfold sent_on, flits_on in *. rewrite omap_app, E1, E2, total_app. split; [done|lia].
  - unfold timers_in in *. rewrite total_app. lia.
Qed.

Lemma end_idle_noise s now : runs (end_idle_lc now) s (fun _ s' => exists acts b, noise acts /\
  s' = s <| performed ::= fun l => l ++ acts |> <| lc_is_idle := b |>).
Proof.
  unfold end_idle_lc. lc_walk. apply runs_when; intros Hb; unfold perform.
  - lc_walk. by exists [IdleTime (now - lc_idle_start s)], false.
  - exists [], (lc_is_idle s). split; [done|]. destruct s. unfold update; cbn. by rewrite app_nil_r.
Qed.

Lemma throttle_next_runs s now ev : runs (throttle_next now ev) s (fun _ s' => exists acts c, noise acts /\
  count c = count (default (mkCongestion 1 0 0) (congestion_state s !! target ev)) - 1 /\
  (count c = 0 -> RtrSend (Congestion (id s) 0 0 (Some (target ev))) ∈ acts) /\ (count c <> 0 -> acts = []) /\
  s' = s <| performed ::= fun l => l ++ acts |> <| congestion_state ::= insert (target ev) c |>).
Proof.
  unfold throttle_next. lc_walk. set (c := update _ (update _ _)). apply runs_when; intros Hc; unfold perform.
  - lc_walk. exists [RtrSend (Congestion (id s) 0 0 (Some (target ev)))], c. split; [done|]. split; [done|]. apply Z.eqb_eq in Hc.
    split; [by left|]. done.
  - exists [], c. apply Z.eqb_neq in Hc. split_and!; try done. destruct s. unfold update; cbn. by rewrite app_nil_r.
Qed.

(** What [send_packet] makes of the state in which the packet has left its queue. *)
Record packet_sent (s : LinkControl) (i : Z) (b : output_queue_bundle_t) (ev : NetEvent) (throttled : bool) (s' : LinkControl) : Prop := {
  ps_frame : unsent s s';
  ps_queues : output_queues s' = <[Z.to_nat i := b <| b_credits := b_credits b + flits ev |>]> (output_queues s);
  ps_credits : router_credits s' = <[Z.to_nat (b_vn b) := router_credits s !!! Z.to_nat (b_vn b) - flits ev]> (router_credits s);
  ps_cur : curr_out_vn s' = if i + 1 =? used_vns s then 0 else i + 1;
  ps_congestion : if throttled then exists c, congestion_state s' = <[target ev := c]> (congestion_state s) /\
                    count c = count (default (mkCongestion 1 0 0) (congestion_state s !! target ev)) - 1
                  else congestion_state s' = congestion_state s;
  ps_acts : exists a1 a2 now, noise a1 /\ noise a2 /\
    performed s' = performed s ++ Timer (flits ev) :: a1 ++ RtrSend (NetPacket (ev <| injectionTime := now |>)) :: a2 /\
    (forall c, throttled = true -> congestion_state s' !! target ev = Some c -> count c = 0 -> RtrSend (Congestion (id s) 0 0 (Some (target ev))) ∈ a1)
}.

Lemma send_packet_runs s now keep i b ev throttled :
  at_index (output_queues s) i = Ok b -> 0 <= b_vn b < Z.of_nat (length (router_credits s)) ->
  runs (send_packet now keep i ev throttled) s (fun _ s' => packet_sent s i b ev throttled s').
Proof.
  intros Hb Hvn. unfold send_packet. lc_walk. apply at_index_Ok in Hb as Hb'. destruct Hb' as [Hi Hb']. pose proof (lookup_lt_Some _ _ _ Hb') as Hlt.
  eapply runs_getsR; [apply set_index_in_range; lia|]. unfold perform. lc_walk.
  set (s1 := update _ (update _ s)).
  apply (runs_mono _ _ (fun _ s2 => exists a1 cs, noise a1 /\ s2 = s1 <| performed ::= fun l => l ++ a1 |> <| congestion_state := cs |> /\
    (if throttled then exists c, cs = <[target ev := c]> (congestion_state s) /\
       count c = count (default (mkCongestion 1 0 0) (congestion_state s !! target ev)) - 1 else cs = congestion_state s) /\
    (forall c, throttled = true -> cs !! target ev = Some c -> count c = 0 -> RtrSend (Congestion (id s) 0 0 (Some (target ev))) ∈ a1))).
  { apply runs_when; intros ->.
    - eapply runs_mono; [apply throttle_next_runs|]. intros u s2 (a1 & c & Hn & Hc & Hover & _ & ->). exists a1, (<[target ev := c]> (congestion_state s)).
      split_and!; [done|done|by exists c|]. intros c' _ E. rewrite lookup_insert_eq in E. injection E as <-. exact Hover.
    - exists [], (congestion_state s). split_and!; try done. destruct s. unfold update; cbn. by rewrite app_nil_r. }
  intros u s2 (a1 & cs & Hn1 & -> & Hcs & Hover). lc_walk.
  assert (at_index (router_credits s) (b_vn b) = Ok (router_credits s !!! Z.to_nat (b_vn b))) as Hc.
  { apply at_index_Ok. split; [lia|]. apply list_lookup_lookup_total_lt. lia. }
  eapply runs_getsR; [exact Hc|]. lc_walk. eapply runs_getsR; [apply set_index_in_range; exact Hvn|]. lc_walk.
  eapply runs_mono; [apply end_idle_noise|]. intros u' s3 (a2 & bi & Hn2 & ->). lc_walk. apply runs_when; intros Hf; lc_walk.
  all: split; try done; [by subst s1; unfold used_vns; cbn; rewrite length_insert|].
  - exists (a1 ++ a2), [Sent (vn (request ev))], now. split; [by apply noise_app|]. split; [done|]. split.
    + cbn. rewrite <- !app_assoc. done.
    + intros c H1 H2 H3. apply elem_of_app. left. by apply (Hover c).
  - exists (a1 ++ a2), [], now. split; [by apply noise_app|]. split; [done|]. split.
    + cbn. rewrite <- !app_assoc. done.
    + intros c H1 H2 H3. apply elem_of_app. left. by apply (Hover c).
Qed.

(** The order in which the output queues are looked at. *)
Definition round (s : LinkControl) : list Z := seqZ (curr_out_vn s) (used_vns s - curr_out_vn s) ++ seqZ 0 (curr_out_vn s).

Lemma in_round s i : lc_wf s -> i ∈ round s <-> 0 <= i < used_vns s.
Proof.
  intros Hwf. pose proof (lw_cur _ Hwf) as Hc. unfold used_vns in *. unfold round. rewrite elem_of_app, !elem_of_seqZ. unfold used_vns. lia.
Qed.

Definition two_passes (now : Z) (s : LinkControl) : LC (option (Z * NetEvent * bool) * Z) :=
  '(found, block) ← find_vn now (seqZ (curr_out_vn s) (used_vns s - curr_out_vn s)) 0;
  match found with None => find_vn now (seqZ 0 (curr_out_vn s)) block | Some _ => mret (found, block) end.

Lemma two_passes_runs s now : lc_wf s -> runs (two_passes now s) s (fun r s' => passed now s (round s) r.1 s').
Proof.
  intros Hwf. unfold two_passes. apply runs_bind. pose proof (in_round s) as Hin. unfold round in Hin.
  eapply runs_mono; [apply find_vn_runs; [done|intros i Hi; apply (Hin i Hwf), elem_of_app; by left]|].
  intros [[[[i ev] th]|] block] s1 H; cbn in H |- *.
  - lc_walk. destruct H as (l1 & l2 & b & rest & E & H). exists l1, (l2 ++ seqZ 0 (curr_out_vn s)), b, rest. split; [|done].
    unfold round. rewrite E. by rewrite <- app_assoc.
  - destruct H as [-> Hno]. set (h := _ || _). assert (lc_wf (s <| lc_have_packets := h |>)) as Hwf1.
    { destruct Hwf. split; try done. cbn. subst h. intros Hw [Hh _]%orb_false_iff. by apply lw_empty0. }
    eapply runs_mono; [apply find_vn_runs; [done|intros i Hi; apply (Hin i Hwf), elem_of_app; by right]|].
    intros [[[[i ev] th]|] block'] s2 H; cbn in H |- *.
    + destruct H as (l1 & l2 & b & rest & E & Hl1 & Hi & Hb & Hq & Hth & ->). exists (seqZ (curr_out_vn s) (used_vns s - curr_out_vn s) ++ l1), l2, b, rest.
      split; [unfold round; by rewrite E, <- app_assoc|]. split; [by apply Forall_app|]. done.
    + destruct H as [-> Hno2]. split; [|by apply Forall_app]. unfold round. rewrite existsb_app. subst h.
      unfold update; cbn. f_equal. by rewrite orb_assoc.
Qed.

Lemma nothing_to_send_runs s now block : runs (nothing_to_send now block) s (fun _ s' => exists acts t b, noise acts /\
  s' = s <| lc_start_block := now |> <| lc_waiting := true |> <| lc_idle_start := t |> <| lc_is_idle := b |> <| performed ::= fun l => l ++ acts |>).
Proof.
  unfold nothing_to_send. lc_walk. set (s1 := update _ (update _ s)).
  apply (runs_mono _ _ (fun _ s2 => exists t b, s2 = s1 <| lc_idle_start := t |> <| lc_is_idle := b |>)).
  { apply runs_when; intros _; [lc_walk; by exists now, true|]. exists (lc_idle_start s1), (lc_is_idle s1). done. }
  intros u s2 (t & b & ->). lc_walk. set (s2 := update _ (update _ s1)).
  apply (runs_mono _ _ (fun _ s3 => exists a b', noise a /\ s3 = s2 <| performed ::= fun l => l ++ a |> <| lc_is_idle := b' |>)).
  { apply runs_when; intros _; [apply end_idle_noise|]. exists [], b. split; [done|]. unfold update; cbn. by rewrite app_nil_r. }
  intros u' s3 (a & b' & Hn & ->). apply runs_when; intros _; unfold perform.
  - lc_walk. exists (a ++ [CongestionTimer (block - now)]), t, b'. split; [by apply noise_app|]. unfold update; cbn. by rewrite app_assoc.
  - exists a, t, b'. done.
Qed.

Lemma lookup_of_index {A} `{!Inhabited A} (l : list A) k x : l !! k = Some x -> l !!! k = x.
Proof. apply list_lookup_total_correct. Qed.

(** The state after a packet was sent satisfies the invariant again. *)
Lemma sent_wf s i b ev rest th s' :
  lc_wf s -> lc_waiting s = false -> output_queues s !! Z.to_nat i = Some b -> queue b = ev :: rest -> 0 <= i < used_vns s ->
  flits ev <= router_credits s !!! Z.to_nat (b_vn b) -> th = bool_decide (is_Some (congestion_state s !! target ev)) ->
  packet_sent (s <| lc_have_packets := true |> <| output_queues := <[Z.to_nat i := b <| queue := rest |>]> (output_queues s) |>)
    i (b <| queue := rest |>) ev th s' ->
  lc_wf s' /\ output_queues s' = <[Z.to_nat i := b <| queue := rest |> <| b_credits := b_credits b + flits ev |>]> (output_queues s).
Proof.
  intros Hwf Hw Hb Hq Hi Hc Hth [[(F1 & F2 & F3 & F4 & F5 & F6) (F7 & F8) (F9 & F10)] Hoq Hrc Hcur Hcs _]. cbn in *.
  rewrite list_insert_insert, decide_True in Hoq by done. split; [|exact Hoq]. set (b' := update _ (update _ b)) in *.
  destruct (lw_bundles _ Hwf _ _ Hb) as [B1 B2 B3 B4]. rewrite Hq in B3, B4. rewrite total_cons in B3. apply Forall_cons in B4 as [[B4 B5] B6].
  pose proof (lookup_lt_Some _ _ _ Hb) as Hlt. pose proof (lw_credits _ Hwf) as Hlen. assert (Z.to_nat (b_vn b) < length (router_credits s))%nat as Hvl by lia.
  split; rewrite ?F1, ?F2, ?F3, ?F4, ?F5, ?F6, ?F7, ?F8, ?F9, ?F10; try (by destruct Hwf).
  - intros v j Hj. unfold used_vns. rewrite Hoq, length_insert. by apply (lw_mapped _ Hwf v).
  - rewrite Hoq. apply (wf_bundle s _ b); [done|done| |done]. split; cbn; [done|lia|lia|done].
  - rewrite Hoq. rewrite (same_vns _ _ b b'); [apply (lw_distinct _ Hwf)|done|done].
  - rewrite Hrc, length_insert. apply Hlen.
  - intros v. rewrite Hrc, insert_total by done. case_decide; [lia|apply (lw_credits_pos _ Hwf)].
  - rewrite Hcur. unfold used_vns in *. cbn. rewrite Hoq, !length_insert. destruct (Z.eqb_spec (i + 1) (Z.of_nat (length (output_queues s)))); lia.
  - intros t c Hc'. rewrite Hoq, (queued_insert _ _ _ b b' Hb). cbn. rewrite Hq, total_cons. case_bool_decide as Hs; subst th.
    + destruct Hcs as (c0 & Ecs & Hc0). rewrite Ecs in Hc'. destruct Hs as [c1 Hc1]. rewrite Hc1 in Hc0. cbn in Hc0.
      apply lookup_insert_Some in Hc' as [[<- <-]|[Hne Hc']].
      * rewrite Z.eqb_refl, Hc0, (lw_congestion _ Hwf _ _ Hc1). lia.
      * rewrite (proj2 (Z.eqb_neq _ _)) by done. rewrite (lw_congestion _ Hwf _ _ Hc'). lia.
    + rewrite Hcs in Hc'. destruct (Z.eqb_spec (target ev) t) as [<-|Hne]; [by rewrite Hc' in Hs; destruct Hs|].
      rewrite (lw_congestion _ Hwf _ _ Hc'). lia.
Qed.

Lemma sent_on_app v a b : sent_on v (a ++ b) = sent_on v a ++ sent_on v b.
Proof. apply omap_app. Qed.
Lemma flits_on_app v a b : flits_on v (a ++ b) = flits_on v a + flits_on v b.
Proof. apply total_app. Qed.
Lemma timers_in_app a b : timers_in (a ++ b) = timers_in a + timers_in b.
Proof. apply total_app. Qed.

(** The accounts of the actions of one packet. *)
Lemma packet_acts ev now a1 a2 : noise a1 -> noise a2 ->
  let acts := Timer (flits ev) :: a1 ++ RtrSend (NetPacket (ev <| injectionTime := now |>)) :: a2 in
  (forall v, sent_on v acts = (if net_vn ev =? v then [request ev] else []) /\ flits_on v acts = if net_vn ev =? v then flits ev else 0) /\
  timers_in acts = 1.
Proof.
  intros [H1 T1] [H2 T2] acts. subst acts. split.
  - intros v. destruct (H1 v) as [S1 F1], (H2 v) as [S2 F2]. rewrite (app_comm_cons a1), (cons_middle _ _ a2), !sent_on_app, !flits_on_app.
    change (sent_on v (Timer _ :: a1)) with (sent_on v a1). rewrite S1, S2, F2, app_nil_r. unfold flits_on at 1. rewrite total_cons.
    change (total _ a1) with (flits_on v a1). rewrite F1. unfold sent_on, flits_on. cbn. unfold total. cbn. destruct (net_vn ev =? v); cbn; split; (done || lia).
  - unfold timers_in in *. rewrite total_cons, total_app, T1, total_cons, T2. lia.
Qed.

(** A packet was found, the first in the round that may go, or there is none. *)
Definition output_sent (now : Z) (s s' : LinkControl) : Prop :=
  exists i ev th l1 l2 b rest, round s = l1 ++ i :: l2 /\ Forall (fun i => sendable now s i = false) l1 /\ sendable now s i = true /\
    output_queues s !! Z.to_nat i = Some b /\ queue b = ev :: rest /\ th = bool_decide (is_Some (congestion_state s !! target ev)) /\
    packet_sent (s <| lc_have_packets := true |> <| output_queues := <[Z.to_nat i := b <| queue := rest |>]> (output_queues s) |>)
      i (b <| queue := rest |>) ev th s'.
Definition output_idle (now : Z) (s s' : LinkControl) : Prop :=
  Forall (fun i => sendable now s i = false) (round s) /\ exists acts t b, noise acts /\
    s' = s <| lc_have_packets := existsb (nonempty s) (round s) |> <| lc_start_block := now |> <| lc_waiting := true |> <| lc_idle_start := t |>
           <| lc_is_idle := b |> <| performed ::= fun l => l ++ acts |>.

Lemma output_cases s now keep : lc_wf s -> lc_waiting s = false ->
  runs (handle_output now keep) s (fun _ s' => output_sent now s s' \/ output_idle now s s').
Proof.
  intros Hwf Hw. set (s0 := s <| lc_have_packets := false |>). assert (lc_wf s0) as Hwf0.
  { destruct Hwf. split; try done. cbn. by rewrite Hw. }
  pose proof (two_passes_runs s0 now Hwf0) as H. unfold two_passes in H. apply runs_bind_inv in H.
  unfold handle_output. lc_walk. fold s0. change (curr_out_vn s) with (curr_out_vn s0). change (used_vns s) with (used_vns s0).
  eapply runs_mono; [exact H|]. intros [f0 bl0] s1 H1. cbn beta iota in H1 |- *. eapply runs_step; [exact H1|].
  intros [[[[i ev] th]|] block] s2 H2; cbn beta iota; cbn [fst passed] in H2.
  - destruct H2 as (l1 & l2 & b & rest & Er & Hno & Hsend & Hb & Hq & Hth & ->). change (output_queues s0) with (output_queues s) in Hb.
    pose proof (lookup_lt_Some _ _ _ Hb) as Hlt. pose proof (lw_bundles _ Hwf _ _ Hb) as [Hvn _ _ _].
    assert (0 <= i < used_vns s) as Hi by (apply (in_round s0 i Hwf0); rewrite Er; apply elem_of_app; right; by left).
    set (s2 := update _ (update _ s0)). eapply runs_mono; [apply (send_packet_runs s2 now keep i (b <| queue := rest |>) ev th)|].
    + apply at_index_Ok. split; [lia|]. cbn. rewrite list_lookup_insert, decide_True by done. done.
    + cbn. rewrite (lw_credits _ Hwf). done.
    + intros u s' Hps. left. exists i, ev, th, l1, l2, b, rest. done.
  - destruct H2 as [-> Hno]. eapply runs_mono; [apply nothing_to_send_runs|]. intros u s' (acts & t & bi & Hn & ->).
    right. split; [done|]. by exists acts, t, bi.
Qed.

(** The network of an output queue is its own. *)
Lemma same_network s k j b c : lc_wf s -> output_queues s !! k = Some b -> output_queues s !! j = Some c -> b_vn b = b_vn c -> k = j.
Proof.
  intros Hwf Hb Hc E. eapply (NoDup_lookup _ _ _ (b_vn b) (lw_distinct _ Hwf)); rewrite list_lookup_fmap; [by rewrite Hb|by rewrite Hc, E].
Qed.

Lemma output_sent_effect s now keep s' :
  lc_wf s -> lc_waiting s = false -> output_sent now s s' -> effect s (OpOutput now keep) RNone s'.
Proof.
  intros Hwf Hw (i & ev & th & l1 & l2 & b & rest & Er & _ & Hsend & Hb & Hq & Hth & Hps).
  assert (0 <= i < used_vns s) as Hi by (apply (in_round s i Hwf); rewrite Er; apply elem_of_app; right; by left).
  pose proof (lookup_lt_Some _ _ _ Hb) as Hlt. pose proof (lw_bundles _ Hwf _ _ Hb) as [Hvn _ _ Hev]. rewrite Hq in Hev. apply Forall_cons in Hev as [[_ Hnv] _].
  unfold sendable in Hsend. rewrite Hb, Hq in Hsend. apply andb_true_iff in Hsend as [Hc%Z.leb_le _].
  destruct (sent_wf s i b ev rest th s' Hwf Hw Hb Hq Hi Hc Hth Hps) as [Hwf' Hoq].
  destruct Hps as [[(F1 & F2 & F3 & F4 & F5 & F6) _ (F9 & F10)] _ Hrc _ _ (a1 & a2 & t & N1 & N2 & Ha & _)]. cbn in F2, F3, F4, F5, F6, F9, Hrc.
  destruct (packet_acts ev t a1 a2 N1 N2) as [Hacts Htim].
  split; [done|split; try done; rewrite Hoq; by apply (same_vns _ _ b)|]. eexists. split; [exact Ha|]. split_and!.
  - intros k b0 Hk. destruct (Hacts (b_vn b0)) as [-> _]. rewrite Hoq, list_lookup_insert. cbn [accepted_by]. rewrite app_nil_r.
    destruct (decide (Z.to_nat i = k)) as [Ek|Ek].
    + subst k. rewrite decide_True by done. rewrite Hb in Hk. injection Hk as <-. eexists. split; [done|]. cbn.
      rewrite Hnv, Z.eqb_refl, Hq. done.
    + rewrite decide_False by naive_solver. exists b0. split; [done|]. rewrite (proj2 (Z.eqb_neq _ _)); [done|].
      rewrite Hnv. intros E. apply Ek. by apply (same_network s _ _ b b0).
  - intros v. destruct (Hacts (Z.of_nat v)) as [_ ->]. rewrite Hrc. pose proof (lw_credits _ Hwf). rewrite insert_total by lia. cbn [credited_by].
    rewrite Hnv. destruct (Z.eqb_spec (b_vn b) (Z.of_nat v)) as [->|Hne]; [rewrite Nat2Z.id, decide_True by done; lia|].
    rewrite decide_False by lia. lia.
  - unfold running. rewrite F9, Hw, Htim. done.
Qed.

Lemma output_idle_effect s now keep s' :
  lc_wf s -> lc_waiting s = false -> output_idle now s s' -> effect s (OpOutput now keep) RNone s'.
Proof.
  intros Hwf Hw (_ & acts & t & bi & Hn & ->). split.
  - destruct Hwf. split; try done. cbn. intros _ Hh. apply Forall_lookup. intros k b Hb.
    destruct (decide (queue b = [])) as [|Hne]; [done|]. exfalso.
    assert (existsb (nonempty s) (round s) = true) as Ht; [|congruence]. apply existsb_exists. exists (Z.of_nat k). split.
    + apply list_elem_of_In, (in_round s); [done|]. apply lookup_lt_Some in Hb. unfold used_vns. lia.
    + unfold nonempty. rewrite Nat2Z.id. rewrite Hb. by apply bool_decide_eq_true.
  - done.
  - exists acts. split; [done|]. destruct Hn as [Hn Ht]. split_and!.
    + intros k b Hb. exists b. split; [done|]. destruct (Hn (b_vn b)) as [-> _]. cbn [accepted_by]. by rewrite app_nil_r.
    + intros v. destruct (Hn (Z.of_nat v)) as [_ ->]. cbn. lia.
    + unfold running. cbn. rewrite Hw, Ht. done.
Qed.

Lemma output_effect s now keep : lc_wf s -> op_ok s (OpOutput now keep) ->
  runs (handle_output now keep) s (fun _ s' => effect s (OpOutput now keep) RNone s').
Proof.
  cbn [op_ok]. intros Hwf Hw. eapply runs_mono; [by apply output_cases|]. intros u s' [H|H]; [by apply output_sent_effect|by eapply output_idle_effect].
Qed.

Lemma congestion_effect s : lc_wf s -> runs handle_congestion s (fun _ s' => effect s OpCongestion RNone s').
Proof.
  intros Hwf. unfold handle_congestion. lc_walk.
  apply (runs_mono _ _ (fun _ s' => s' = s <| performed ::= fun l => l ++ (if lc_waiting s then [Timer 0] else []) |>)).
  { apply runs_when; intros ->; unfold perform; [by lc_walk|]. destruct s. unfold update; cbn. by rewrite app_nil_r. }
  intros u s1 ->. lc_walk. apply (aside_effect _ _ (if lc_waiting s then [Timer 0] else [])); [|done..].
  destruct Hwf. split; try done.
  - intros v. by destruct (lc_waiting s).
  - unfold running. cbn. by destruct (lc_waiting s).
Qed.

(** Every operation that is allowed returns, with its effect. *)
Lemma lc_run_effect s op : lc_wf s -> op_ok s op -> runs (lc_run op) s (fun r s' => effect s op r s').
Proof.
  intros Hwf Hok. destruct op as [now v req|v|now keep ev|now keep|]; cbn [lc_run]; apply runs_bind.
  - eapply runs_mono; [by apply send_effect|]. intros r s' H. by apply runs_ret.
  - eapply runs_mono; [by apply recv_effect|]. intros r s' H. by apply runs_ret.
  - eapply runs_mono; [by apply input_effect|]. intros u s' H. by apply runs_ret.
  - eapply runs_mono; [by apply output_effect|]. intros u s' H. by apply runs_ret.
  - eapply runs_mono; [by apply congestion_effect|]. intros u s' H. by apply runs_ret.
Qed.
