(* ===== verification/LinkControlSafe.v ===== *)
(** * LinkControlSafe: the runs of a network interface

    An endpoint, a router and the timers drive a [LinkControl] in any order. Whatever
    they do, packets leave each virtual network in the order their requests were
    accepted, credits are accounted for, the output timer is started exactly when
    the interface does not wait, and every operation returns with the answer and the
    state that [does] gives for it. *)

From S2P Require Import Prelude Merlin LinkControl LinkControlRuns.

(** ** Runs *)

(** A run, with the requests accepted for each output queue, the credits that came
    for each network, and how often the output timer fired. *)
Record history := mkHistory {
  h_state : LinkControl;
  h_accepted : nat -> list Request;
  h_credited : nat -> Z;
  h_fired : Z
}.

Inductive lc_step : history -> history -> Prop :=
| lc_op_step h op r s' :
    op_ok (h_state h) op -> lc_run op (h_state h) = Ok (r, s') ->
    lc_step h (mkHistory s' (fun k => h_accepted h k ++ accepted_by (h_state h) op r k)
                (fun v => h_credited h v + credited_by op (Z.of_nat v)) (h_fired h + fired_by op)).

Definition lc_start (s : LinkControl) : history := mkHistory s (fun _ => []) (fun v => router_credits s !!! v) 0.

(** An interface after the init phases: nothing queued, nothing sent, waiting. *)
Record lc_ready (s : LinkControl) : Prop := {
  rd_wf : lc_wf s;
  rd_empty : Forall (fun b => queue b = []) (output_queues s);
  rd_waiting : lc_waiting s = true;
  rd_unsent v : sent_on v (performed s) = [] /\ flits_on v (performed s) = 0;
  rd_timers : timers_in (performed s) = 0
}.

(** The accounts of a run. *)
Record lc_accounts (s0 : LinkControl) (h : history) : Prop := {
  ac_wf : lc_wf (h_state h);
  ac_setup : same_setup s0 (h_state h);
  ac_fifo k b : output_queues (h_state h) !! k = Some b ->
    h_accepted h k = sent_on (b_vn b) (performed (h_state h)) ++ (request <$> queue b);
  ac_credits v : router_credits (h_state h) !!! v = h_credited h v - flits_on (Z.of_nat v) (performed (h_state h));
  ac_timers : timers_in (performed (h_state h)) = h_fired h + running (h_state h)
}.

Lemma start_accounts s : lc_ready s -> lc_accounts s (lc_start s).
Proof.
  intros [Hwf He Hw Hs Ht]. split; cbn; [done|done|..].
  - intros k b Hb. destruct (Hs (b_vn b)) as [-> _]. by rewrite (Forall_lookup_1 _ _ _ _ He Hb).
  - intros v. destruct (Hs (Z.of_nat v)) as [_ ->]. lia.
  - rewrite Ht. unfold running. by rewrite Hw.
Qed.

Lemma same_setup_trans s1 s2 s3 : same_setup s1 s2 -> same_setup s2 s3 -> same_setup s1 s3.
Proof. intros [] []. split; congruence. Qed.

Lemma step_accounts s0 h h' : lc_accounts s0 h -> lc_step h h' -> lc_accounts s0 h'.
Proof.
  intros [Hwf Hset Hf Hc Ht] Hstep. destruct Hstep as [h op r s' Hok Hrun]. destruct (lc_run_effect _ _ Hwf Hok) as (r' & s2 & Hrun' & He).
  rewrite Hrun in Hrun'. injection Hrun' as <- <-. destruct He as [Hwf' Hsetup (acts & Ha & Hq & Hcr & Htm)].
  split; cbn; [done|by eapply same_setup_trans|..].
  - intros k b' Hb'. pose proof (su_vns _ _ Hsetup) as Hv. assert (exists b, output_queues (h_state h) !! k = Some b) as [b Hb].
    { apply lookup_lt_is_Some. apply (f_equal length) in Hv. rewrite !length_fmap in Hv. rewrite <- Hv. by eapply lookup_lt_Some. }
    destruct (Hq k b Hb) as (b2 & Hb2 & E). rewrite Hb' in Hb2. injection Hb2 as <-.
    assert (b_vn b' = b_vn b) as Hvn.
    { apply (f_equal (fun l => l !! k)) in Hv. rewrite !list_lookup_fmap, Hb, Hb' in Hv. by injection Hv. }
    rewrite Ha, sent_on_app, (Hf k b Hb), Hvn, <- !app_assoc. by rewrite E.
  - intros v. rewrite Ha, flits_on_app, Hcr, Hc. lia.
  - rewrite Ha, timers_in_app, Ht, Htm. lia.
Qed.

Lemma reachable_accounts s0 h : lc_ready s0 -> rtc lc_step (lc_start s0) h -> lc_accounts s0 h.
Proof.
  intros Hr Hs. pose proof (start_accounts _ Hr) as Ha. revert Ha. generalize (lc_start s0) Hs. clear. intros h0 Hs.
  induction Hs as [|h1 h2 h3 Hstep _ IH]; [done|]. intros Ha. apply IH. by eapply step_accounts.
Qed.

(** C21. The requests an endpoint gets accepted for a virtual network leave in the
    order they were accepted, each once: what was sent is always a prefix of what was
    accepted, the rest waits in the output queue, which never holds more than its size
    and whose credits are the space left. *)
Theorem packets_leave_in_order s0 h k b :
  lc_ready s0 -> rtc lc_step (lc_start s0) h -> output_queues (h_state h) !! k = Some b ->
  h_accepted h k = sent_on (b_vn b) (performed (h_state h)) ++ (request <$> queue b) /\
  b_credits b + total flits (queue b) = outbuf_flits s0 /\ 0 <= b_credits b.
Proof.
  intros Hr Hs Hb. destruct (reachable_accounts _ _ Hr Hs) as [Hwf Hset Hf _ _]. split; [by apply Hf|].
  destruct (lw_bundles _ Hwf _ _ Hb) as [_ B2 B3 _]. by rewrite <- (su_outbuf _ _ Hset).
Qed.

(** The flits sent on a virtual network never exceed the credits the router gave
    for it, and what is left of them is what the interface takes to be left. *)
Theorem router_credits_respected s0 h v :
  lc_ready s0 -> rtc lc_step (lc_start s0) h ->
  router_credits (h_state h) !!! v = h_credited h v - flits_on (Z.of_nat v) (performed (h_state h)) /\
  flits_on (Z.of_nat v) (performed (h_state h)) <= h_credited h v.
Proof.
  intros Hr Hs. destruct (reachable_accounts _ _ Hr Hs) as [Hwf _ _ Hc _]. pose proof (lw_credits_pos _ Hwf v) as Hp. rewrite (Hc v) in *. lia.
Qed.

(** C23. In every run the output timer is running exactly when the interface does not
    wait, and the congestion state of a target counts the packets queued for it. *)
Theorem timer_and_congestion_counts s0 h :
  lc_ready s0 -> rtc lc_step (lc_start s0) h ->
  timers_in (performed (h_state h)) - h_fired h = running (h_state h) /\
  forall t c, congestion_state (h_state h) !! t = Some c -> count c = queued t (output_queues (h_state h)).
Proof.
  intros Hr Hs. destruct (reachable_accounts _ _ Hr Hs) as [Hwf _ _ _ Ht]. split; [lia|]. apply (lw_congestion _ Hwf).
Qed.

(** What an operation answers and does. [delivered] is the request the endpoint gets. *)
Definition delivered (s : LinkControl) (ev : NetEvent) : Request :=
  match nid_map s with Some _ => (request ev) <| dest := logical_nid s |> | None => request ev end.
Definition does (s : LinkControl) (op : lc_op) (r : lc_result) (s' : LinkControl) : Prop :=
  match op with
  | OpSend now v req =>
      (req_vns s <= v /\ r = RSend false req /\ s' = s) \/
      (v < req_vns s /\ exists i d b n, vn_remap_out s !! Z.to_nat v = Some (Some i) /\ translate (nid_map s) (dest req) = Ok d /\
         output_queues s !! Z.to_nat i = Some b /\ n = (size_in_bits req + flit_size s - 1) / flit_size s /\
         let req' := req <| vn := v |> <| dest := d |> in
         r = RSend (n <=? b_credits b) req' /\
         s' = if n <=? b_credits b then accepted_state now (mkNetEvent req' (id s) (b_vn b) n now) i b s else s)
  | OpRecv v =>
      exists q, input_queues s !! Z.to_nat v = Some q /\
        match q with
        | [] => r = RRecv None /\ s' = s
        | ev :: q' => r = RRecv (Some (delivered s ev)) /\
            s' = s <| input_queues := <[Z.to_nat v := q']> (input_queues s) |>
                   <| performed := performed s ++ [RtrSend (NetCredit (net_vn ev) (flits ev))] |>
        end
  | OpInput now keep (NetPacket ev) =>
      let v := vn (request ev) in
      r = RNone /\ exists q, input_queues s !! Z.to_nat v = Some q /\ input_queues s' = <[Z.to_nat v := q ++ [ev]]> (input_queues s) /\
        router_credits s' = router_credits s /\ output_queues s' = output_queues s /\
        (if receiveFunctor s then Received v ∈ performed s' /\ receiveFunctor s' = keep else receiveFunctor s' = false)
  | OpInput now keep (NetCredit vc n) =>
      r = RNone /\ exists c, router_credits s !! Z.to_nat vc = Some c /\ router_credits s' = <[Z.to_nat vc := c + n]> (router_credits s) /\
        lc_waiting s' = false /\ input_queues s' = input_queues s /\ output_queues s' = output_queues s
  | OpInput now keep _ => r = RNone /\ performed s' = performed s /\ router_credits s' = router_credits s /\
      input_queues s' = input_queues s /\ output_queues s' = output_queues s
  | OpOutput now keep => r = RNone /\ (output_sent now s s' \/ output_idle now s s')
  | OpCongestion => r = RNone /\ s' = s <| lc_waiting := false |> <| performed := performed s ++ if lc_waiting s then [Timer 0] else [] |>
  end.

Lemma send_does s now v req : lc_wf s -> op_ok s (OpSend now v req) ->
  runs (send now v req) s (fun r s' => does s (OpSend now v req) (RSend r.1 r.2) s').
Proof.
  intros Hwf (Hv & Hbits & Hmap). destruct (Z.leb_spec (req_vns s) v) as [Hout|Hin].
  { unfold send. lc_walk. rewrite (proj2 (Z.leb_le _ _)) by done. lc_walk. by left. }
  destruct (Hmap Hin) as [[i Hi] [d Hd]]. destruct (mapped_bundle s _ _ Hwf Hi) as (b & Hb & Hbi). pose proof (lw_flit _ Hwf) as Hf.
  assert (computeSizeInFlits (size_in_bits req) (flit_size s) = Ok ((size_in_bits req + flit_size s - 1) / flit_size s)) as Hn.
  { unfold computeSizeInFlits. apply int_div_Ok; lia. }
  eapply send_returns; [done..| |]; intros Hc; right; (split; [done|]); exists i, d, b, ((size_in_bits req + flit_size s - 1) / flit_size s);
    (split_and!; [done..| |]); cbn [fst snd]; (destruct (Z.leb_spec ((size_in_bits req + flit_size s - 1) / flit_size s) (b_credits b)); [|]); done || lia.
Qed.

Lemma recv_does s v : lc_wf s -> op_ok s (OpRecv v) -> runs (recv v) s (fun r s' => does s (OpRecv v) (RRecv r) s').
Proof.
  intros Hwf [Hv Ht]. destruct (at_index_in_range (input_queues s) v) as [q Hq]; [rewrite (lw_input _ Hwf); lia|].
  pose proof (proj2 (proj1 (at_index_Ok _ _ _) Hq)) as Hl. unfold recv. lc_walk. destruct q as [|ev q]; [lc_walk; by exists []|].
  pose proof (lw_return _ Hwf) as Hret.
  assert (at_index (router_return_credits s) v = Ok 0) as Hc by (apply at_index_Ok; rewrite Hret; split; [lia|]; apply lookup_replicate; split; [done|lia]).
  assert (Z.of_nat (length (router_return_credits s)) = total_vns s) as Hlen by (rewrite Hret, length_replicate; lia).
  apply runs_bind. eapply runs_getsR; [apply set_index_in_range; rewrite (lw_input _ Hwf); lia|]. lc_walk.
  eapply runs_getsR; [apply set_index_in_range; cbn; lia|]. unfold perform. lc_walk.
  eapply runs_getsR; [apply set_index_in_range; cbn; rewrite length_insert; lia|]. lc_walk. exists (ev :: q). split; [done|]. split; [done|].
  cbn. rewrite list_insert_insert_eq, list_insert_id; [by destruct s|]. apply at_index_Ok in Hc as [_ Hc]. exact Hc.
Qed.

Lemma input_does s now keep ev : lc_wf s -> op_ok s (OpInput now keep ev) ->
  runs (handle_input now keep ev) s (fun _ s' => does s (OpInput now keep ev) RNone s').
Proof.
  intros Hwf Hok. destruct ev as [vc n|ev| |t back throttle o|]; cbn [op_ok] in Hok; cbn [handle_input does]; [| |done| |].
  - destruct (at_index_in_range (router_credits s) vc) as [c Hc]; [rewrite (lw_credits _ Hwf); lia|]. lc_walk.
    eapply runs_getsR; [apply set_index_in_range; rewrite (lw_credits _ Hwf); lia|]. lc_walk. apply at_index_Ok in Hc as [_ Hc].
    apply runs_when; intros Hw; [|split; [done|]; by exists c].
    unfold wake_output, perform. lc_walk. apply runs_when; intros Hh; lc_walk; (split; [done|]); by exists c.
  - destruct (at_index_in_range (input_queues s) (vn (request ev))) as [q Hq]; [rewrite (lw_input _ Hwf); lia|]. lc_walk.
    eapply runs_getsR; [apply set_index_in_range; rewrite (lw_input _ Hwf); lia|]. lc_walk. apply at_index_Ok in Hq as [_ Hq].
    set (s1 := update _ s). eapply runs_mono; [apply (runs_mono _ _ (fun _ s2 => exists acts t b, s2 = s1 <| performed := performed s1 ++ acts |>
      <| lc_idle_start := t |> <| lc_is_idle := b |>)); [|intros u s2 H; exact H]|].
    + unfold end_idle_lc. lc_walk. apply runs_when; intros Hb; unfold perform; lc_walk.
      * by eexists _, _, _.
      * exists [], (lc_idle_start s1), (lc_is_idle s1). rewrite app_nil_r. by destruct s.
    + intros _ s2 (acts & t & b & ->). lc_walk. change (receiveFunctor _) with (receiveFunctor s) at 1.
      apply runs_when; intros Hf; unfold perform; lc_walk; (split; [done|]); exists q; (split_and!; [done..|]); rewrite ?Hf; [|done].
      split; [|done]. cbn. apply elem_of_app. right. by left.
  - unfold handle_congestion_event. destruct (back <=? 1); lc_walk; [done|]. destruct (congestion_state s !! t) as [c|]; lc_walk; [done|].
    rewrite count_queues_eq. lc_walk. done.
  - by lc_walk.
Qed.

Lemma congestion_does s : runs handle_congestion s (fun _ s' => does s OpCongestion RNone s').
Proof.
  unfold handle_congestion. lc_walk. apply runs_when; intros Hw; unfold perform; lc_walk; (split; [done|]); rewrite Hw; [done|].
  rewrite app_nil_r. by destruct s.
Qed.

Lemma lc_run_does s op : lc_wf s -> op_ok s op -> runs (lc_run op) s (fun r s' => does s op r s').
Proof.
  intros Hwf Hok. destruct op as [now v req|v|now keep ev|now keep|]; cbn [lc_run]; apply runs_bind.
  - eapply runs_mono; [by apply send_does|]. intros r s' H. by apply runs_ret.
  - eapply runs_mono; [by apply recv_does|]. intros r s' H. by apply runs_ret.
  - eapply runs_mono; [by apply input_does|]. intros u s' H. by apply runs_ret.
  - eapply runs_mono; [by apply output_cases|]. intros u s' H. by apply runs_ret.
  - eapply runs_mono; [by apply congestion_does|]. intros u s' H. by apply runs_ret.
Qed.

(** C24. The interface is never stuck, and stays well formed: in every state a run reaches,
    each operation that an endpoint or the router may ask for returns, with the answer and
    the state that [does] gives for it (a send is accepted exactly when its network exists
    and the packet's flits fit the queue's credits, and is refused without a trace otherwise; a receive
    takes the oldest packet and returns its credits; a packet, a credit and a
    congestion message are taken in; the output timer sends the first packet in the
    round that may go, or waits), and the state it leaves is again well formed, with
    the same networks. *)
Theorem interface_never_stuck s0 h op :
  lc_ready s0 -> rtc lc_step (lc_start s0) h -> op_ok (h_state h) op ->
  exists r s', lc_run op (h_state h) = Ok (r, s') /\ does (h_state h) op r s' /\ lc_wf s' /\ same_setup s0 s'.
Proof.
  intros Hr Hs Hok. destruct (reachable_accounts _ _ Hr Hs) as [Hwf Hset _ _ _].
  destruct (lc_run_effect _ _ Hwf Hok) as (r & s' & E & He), (lc_run_does _ _ Hwf Hok) as (r1 & s1 & E1 & Hd).
  rewrite E in E1. injection E1 as <- <-. exists r, s'. split_and!; [done|done|apply He|]. eapply same_setup_trans; [done|apply He].
Qed.
