(* ===== verification/LinkControlFair.v ===== *)
(** * LinkControlFair: who is served, and who is forgotten

    The round robin of the output serves a virtual network that could send in each of
    as many turns as there are output queues. But the interface does not look at a
    packet that arrives while it is blocked, whatever its network: with one output
    queue that is harmless, with two the packet waits for credits it does not need. *)

From S2P Require Import Prelude Merlin LinkControl LinkControlRuns LinkControlSafe.

(** ** Round robin *)

(** The turns until an output queue is looked at first. *)
Definition turns (s : LinkControl) (i : Z) : Z := if curr_out_vn s <=? i then i - curr_out_vn s else i + used_vns s - curr_out_vn s.

Lemma round_turns s i k : lc_wf s -> round s !! k = Some i -> turns s i = Z.of_nat k.
Proof.
  intros Hwf H. pose proof (lw_cur _ Hwf) as Hc. unfold round in H. unfold turns, used_vns in *. set (n := length (output_queues s)) in *.
  apply lookup_app_Some in H as [H|[Hk H]]; apply lookup_seqZ in H as [-> Hi].
  - rewrite (proj2 (Z.leb_le _ _)) by lia. lia.
  - rewrite length_seqZ in *. rewrite (proj2 (Z.leb_gt _ _)) by lia. lia.
Qed.

(** The operations of a run with the states they start from. *)
Inductive trace : LinkControl -> list (LinkControl * lc_op) -> LinkControl -> Prop :=
| trace_nil s : trace s [] s
| trace_cons s op r s' tr s'' : op_ok s op -> lc_run op s = Ok (r, s') -> trace s' tr s'' -> trace s ((s, op) :: tr) s''.

Definition outputs (tr : list (LinkControl * lc_op)) : Z := total (fun x => fired_by x.2) tr.

(** How many packets a network has sent. *)
Definition packets_sent (v : Z) (s : LinkControl) : nat := length (sent_on v (performed s)).

Lemma run_effect s op r s' : lc_wf s -> op_ok s op -> lc_run op s = Ok (r, s') -> effect s op r s'.
Proof.
  intros Hwf Hok H. destruct (lc_run_effect _ _ Hwf Hok) as (r' & s2 & H' & He). rewrite H in H'. by injection H' as <- <-.
Qed.

Lemma trace_sent s tr s' v : lc_wf s -> trace s tr s' -> (packets_sent v s <= packets_sent v s')%nat.
Proof.
  intros Hwf Htr. induction Htr as [s|s op r s1 tr s2 Hok Hrun _ IH]; [done|].
  destruct (run_effect _ _ _ _ Hwf Hok Hrun) as [Hwf' _ (acts & Ha & _)]. specialize (IH Hwf').
  unfold packets_sent in *. rewrite Ha, sent_on_app, length_app in IH. lia.
Qed.

(** Only the output moves the turn. *)
Lemma keeps_cur_send now v req : steps (fun s s' => curr_out_vn s' = curr_out_vn s) (send now v req).
Proof. unfold send, wake_output, perform. steps_walk; apply steps_modify; done. Qed.
Lemma keeps_cur_recv v : steps (fun s s' => curr_out_vn s' = curr_out_vn s) (recv v).
Proof. unfold recv, perform. steps_walk; apply steps_modify; done. Qed.
Lemma keeps_cur_input now keep ev : steps (fun s s' => curr_out_vn s' = curr_out_vn s) (handle_input now keep ev).
Proof.
  unfold handle_input, handle_congestion_event, end_idle_lc, wake_output, perform. steps_walk; try (apply steps_modify; done).
Qed.
Lemma keeps_cur_congestion : steps (fun s s' => curr_out_vn s' = curr_out_vn s) handle_congestion.
Proof. unfold handle_congestion, perform. steps_walk; apply steps_modify; done. Qed.

Lemma keeps_cur op s r s' : fired_by op = 0 -> lc_run op s = Ok (r, s') -> curr_out_vn s' = curr_out_vn s.
Proof.
  intros Hf H. destruct op; cbn [lc_run] in H; try done; inv_bind.
  - by eapply keeps_cur_send.
  - by eapply keeps_cur_recv.
  - by eapply keeps_cur_input.
  - by eapply keeps_cur_congestion.
Qed.

(** One output: the queue sends its packet, or its turn comes closer. *)
Lemma output_turn s now keep s' i b :
  lc_wf s -> op_ok s (OpOutput now keep) -> handle_output now keep s = Ok (tt, s') -> 0 <= i < used_vns s ->
  output_queues s !! Z.to_nat i = Some b -> sendable now s i = true ->
  (packets_sent (b_vn b) s < packets_sent (b_vn b) s')%nat \/ (0 <= turns s' i < turns s i /\ used_vns s' = used_vns s).
Proof.
  intros Hwf Hw Hrun Hi Hb Hs. destruct (output_cases s now keep Hwf Hw) as (u & s2 & E & Hc). rewrite Hrun in E. injection E as _ <-.
  destruct Hc as [(j & ev & th & l1 & l2 & bj & rest & Er & Hno & _ & Hbj & Hq & Hth & Hps)|[Hno _]].
  2: { rewrite Forall_forall in Hno. rewrite (Hno i) in Hs; [done|]. by apply in_round. }
  pose proof (lookup_lt_Some _ _ _ Hbj) as Hlt. pose proof (lw_bundles _ Hwf _ _ Hbj) as [_ _ _ Hev]. rewrite Hq in Hev. apply Forall_cons in Hev as [[_ Hnv] _].
  assert (0 <= j < used_vns s) as Hj by (apply (in_round s j Hwf); rewrite Er; apply elem_of_app; right; by left).
  destruct Hps as [_ Hoq _ Hcur _ (a1 & a2 & t & N1 & N2 & Ha & _)]. cbn in Hcur, Hoq, Ha. unfold used_vns in Hcur; cbn in Hcur.
  rewrite list_insert_insert, decide_True in Hoq by done. rewrite length_insert in Hcur.
  destruct (decide (i = j)) as [->|Hne].
  - left. rewrite Hbj in Hb. injection Hb as <-. destruct (packet_acts ev t a1 a2 N1 N2) as [Hacts _]. destruct (Hacts (b_vn bj)) as [E _].
    rewrite Hnv, Z.eqb_refl in E. unfold packets_sent. rewrite Ha, sent_on_app, E, length_app. cbn. lia.
  - right. assert (used_vns s' = used_vns s) as Hu by (unfold used_vns; by rewrite Hoq, length_insert). split; [|done].
    assert (i ∈ l2) as Hi2.
    { apply (in_round s i Hwf) in Hi. rewrite Er in Hi. apply elem_of_app in Hi as [Hi|Hi].
      - rewrite Forall_forall in Hno. by rewrite (Hno i Hi) in Hs.
      - apply elem_of_cons in Hi as [->|Hi]; done. }
    apply list_elem_of_lookup in Hi2 as [m Hm].
    assert (turns s j = Z.of_nat (length l1)) as Tj by (apply round_turns; [done|]; by rewrite Er, list_lookup_middle by done).
    assert (turns s i = Z.of_nat (length l1 + S m)) as Ti.
    { apply round_turns; [done|]. rewrite Er, lookup_app_r by lia. replace (length l1 + S m - length l1)%nat with (S m) by lia. done. }
    pose proof (lw_cur _ Hwf) as Hcw. unfold turns in *. rewrite Hu, Hcur. fold (used_vns s).
    destruct (Z.eqb_spec (j + 1) (used_vns s)) as [Ej|Ej]; repeat match goal with |- context [if ?a <=? ?b then _ else _] => destruct (Z.leb_spec a b)
      | H : context [if ?a <=? ?b then _ else _] |- _ => destruct (Z.leb_spec a b) end; lia.
Qed.

Lemma setup_bundle s s' k b : same_setup s s' -> output_queues s !! k = Some b -> exists b', output_queues s' !! k = Some b' /\ b_vn b' = b_vn b.
Proof.
  intros H Hb. pose proof (su_vns _ _ H) as Hv. apply (f_equal (fun l => l !! k)) in Hv. rewrite !list_lookup_fmap, Hb in Hv.
  destruct (output_queues s' !! k) as [b'|]; [|done]. exists b'. split; [done|]. by injection Hv.
Qed.

Lemma trace_serves s tr s' i b : lc_wf s -> trace s tr s' -> 0 <= i < used_vns s -> output_queues s !! Z.to_nat i = Some b ->
  (forall s1 now keep, (s1, OpOutput now keep) ∈ tr -> sendable now s1 i = true) -> turns s i < outputs tr ->
  (packets_sent (b_vn b) s < packets_sent (b_vn b) s')%nat.
Proof.
  intros Hwf Htr. revert b Hwf. induction Htr as [s|s op r s1 tr s2 Hok Hrun Htr IH]; intros b Hwf Hi Hb Hsend Ht.
  { unfold outputs, total, turns in Ht. cbn in Ht. pose proof (lw_cur _ Hwf). destruct (Z.leb_spec (curr_out_vn s) i); lia. }
  destruct (run_effect _ _ _ _ Hwf Hok Hrun) as [Hwf1 Hset (acts & Ha & _)]. destruct (setup_bundle _ _ _ _ Hset Hb) as (b1 & Hb1 & Hv).
  assert (used_vns s1 = used_vns s) as Hu.
  { pose proof (su_vns _ _ Hset) as E. apply (f_equal length) in E. rewrite !length_fmap in E. unfold used_vns. lia. }
  assert (packets_sent (b_vn b) s <= packets_sent (b_vn b) s1)%nat as Hmono.
  { unfold packets_sent. rewrite Ha, sent_on_app, length_app. lia. }
  assert (forall s3 now keep, (s3, OpOutput now keep) ∈ tr -> sendable now s3 i = true) as Hsend1 by (intros s3 now keep H; eapply Hsend; by right).
  unfold outputs in Ht. rewrite total_cons in Ht. cbn [snd] in Ht. fold (outputs tr) in Ht. rewrite <- Hv in *.
  destruct (decide (fired_by op = 0)) as [Hf|Hf].
  - assert (turns s1 i = turns s i) as Et by (unfold turns; by rewrite Hu, (keeps_cur op s r s1 Hf Hrun)).
    eapply Nat.le_lt_trans; [exact Hmono|]. apply IH; [done|lia|done|done|lia].
  - destruct op as [| | |now keep|]; try done. cbn [lc_run fired_by] in Hrun, Ht. inv_bind.
    rename select unit into u. destruct u. rename select (handle_output _ _ _ = _) into Hout.
    assert (sendable now s i = true) as Hs by (eapply (Hsend s now keep); by left).
    destruct (output_turn s now keep s1 i b Hwf Hok Hout Hi Hb Hs) as [H|[H _]]; try rewrite <- Hv in H.
    + eapply Nat.lt_le_trans; [exact H|]. by eapply trace_sent.
    + eapply Nat.le_lt_trans; [exact Hmono|]. apply IH; [done|lia|done|done|lia].
Qed.

(** C22. No virtual network is starved by the others: one that has a packet it could
    send at each of as many turns of the output as there are output queues sends one
    of them. *)
Theorem round_robin_serves s tr s' i b :
  lc_wf s -> trace s tr s' -> 0 <= i < used_vns s -> output_queues s !! Z.to_nat i = Some b ->
  (forall s1 now keep, (s1, OpOutput now keep) ∈ tr -> sendable now s1 i = true) -> used_vns s <= outputs tr ->
  (length (sent_on (b_vn b) (performed s)) < length (sent_on (b_vn b) (performed s')))%nat.
Proof.
  intros Hwf Htr Hi Hb Hs Ho. apply (trace_serves s tr s' i b); try done. pose proof (lw_cur _ Hwf). unfold turns.
  destruct (Z.leb_spec (curr_out_vn s) i); lia.
Qed.

(** ** Waiting *)

(** While the interface is blocked, a request it accepts does not start the
    output timer, whatever its virtual network: the packet is not looked at until
    credits arrive, even when it needs none of those that are missing. *)
Theorem blocked_send_wakes_nobody s now v req req' s' :
  lc_waiting s = true -> lc_have_packets s = true -> send now v req s = Ok ((true, req'), s') ->
  lc_waiting s' = true /\ performed s' = performed s.
Proof.
  intros Hw Hh H. unfold send in H. inv_run. case_match; inv_run; [done|]. case_match; inv_run; [done|].
  rename select (when _ _ _ = _) into Hwh. cbn in Hwh. rewrite Hw, Hh in Hwh. cbn in Hwh. injection Hwh as _ <-. done.
Qed.

Lemma send_translates s now v req nids d ok req' s' :
  nid_map s = Some nids -> v < req_vns s -> at_index nids (dest req) = Ok d -> send now v req s = Ok ((ok, req'), s') -> dest req' = d.
Proof.
  intros Hn Hv Hd H. unfold send in H. inv_run. rewrite (proj2 (Z.leb_gt _ _)) in * by done. inv_run.
  rename select (translate _ _ = _) into Ht. rewrite Hn in Ht. cbn [translate] in Ht. rewrite Hd in Ht. injection Ht as <-.
  case_match; inv_run; simplify_eq; done.
Qed.

(** A request that is refused for want of space has had its destination
    translated already: when it is offered again and accepted, the packet goes to the
    translation of the translation. *)
Theorem refused_request_translated_twice s1 s2 now1 now2 v req nids d d' req1 req2 s1' s2' :
  nid_map s1 = Some nids -> nid_map s2 = Some nids -> v < req_vns s1 -> v < req_vns s2 ->
  at_index nids (dest req) = Ok d -> at_index nids d = Ok d' ->
  send now1 v req s1 = Ok ((false, req1), s1') -> send now2 v req1 s2 = Ok ((true, req2), s2') ->
  dest req1 = d /\ dest req2 = d'.
Proof.
  intros Hn1 Hn2 Hv1 Hv2 Hd Hd' H1 H2.
  pose proof (send_translates s1 now1 v req nids d false req1 s1' Hn1 Hv1 Hd H1) as E1. split; [done|]. rewrite <- E1 in Hd'.
  exact (send_translates s2 now2 v req1 nids d' true req2 s2' Hn2 Hv2 Hd' H2).
Qed.
