(* ===== verification/LinkControlInit.v ===== *)
(** * LinkControlInit: the init phases make an interface ready

    Three rounds of messages with the router give the interface its bandwidth, flit
    size, identifier and virtual networks; it allots its output queues, sends the
    credits of its input buffers, and takes those of the router. *)

From S2P Require Import Prelude Merlin LinkControl LinkControlRuns LinkControlSafe.

Section networks.
Context (vmap : list Z) (total : Z) (inbuf outbuf : Z).

(** ** Networks in use *)

Lemma count_vns_Ok l : forall cnt ret,
  Forall (fun v => v = -1 \/ 0 <= v < total) l -> Z.of_nat (length cnt) = total -> length ret = length cnt -> (forall v, 0 <= cnt !!! v) ->
  exists cnt' ret', count_vns l inbuf cnt ret = Ok (cnt', ret') /\ length cnt' = length cnt /\ length ret' = length cnt /\
    (forall v : nat, (v < length cnt)%nat -> 0 <= cnt' !!! v /\ (0 < cnt' !!! v <-> 0 < cnt !!! v \/ Z.of_nat v ∈ l) /\
      ret' !!! v = if decide (cnt !!! v = 0 /\ Z.of_nat v ∈ l) then inbuf else ret !!! v).
Proof.
  induction l as [|w l IH]; intros cnt ret Hl Hc Hr Hpos; cbn [count_vns].
  - exists cnt, ret. split_and!; try done. intros v Hv. split; [done|]. split; [|by rewrite decide_False by (intros [_ H]; inversion H)].
    split; [by left|intros [H|H]; [done|inversion H]].
  - apply Forall_cons in Hl as [Hw Hl]. destruct (Z.eqb_spec w (-1)) as [->|Hne].
    + destruct (IH cnt ret Hl Hc Hr Hpos) as (cnt' & ret' & E & L1 & L2 & H). exists cnt', ret'. split_and!; try done.
      intros v Hv. destruct (H v Hv) as (H1 & H2 & H3). rewrite H2, H3. split; [done|]. split.
      * rewrite elem_of_cons. split; [intros [?|?]; auto|intros [?|[?|?]]; [auto|lia|auto]].
      * assert (Z.of_nat v ∈ -1 :: l <-> Z.of_nat v ∈ l) as Hel by (rewrite elem_of_cons; split; [intros [?|?]; [lia|done]|auto]).
        by rewrite (decide_ext (cnt !!! v = 0 /\ Z.of_nat v ∈ -1 :: l) (cnt !!! v = 0 /\ Z.of_nat v ∈ l)) by by rewrite Hel.
    + destruct Hw as [|Hw]; [done|]. assert (at_index cnt w = Ok (cnt !!! Z.to_nat w)) as ->.
      { apply at_index_Ok. split; [lia|]. apply list_lookup_lookup_total_lt. lia. }
      cbn [mbind res_bind]. set (c := cnt !!! Z.to_nat w). set (ret1 := if c =? 0 then <[Z.to_nat w := inbuf]> ret else ret).
      assert ((if c =? 0 then set_index ret w inbuf else Ok ret) = Ok ret1) as ->.
      { subst ret1. destruct (c =? 0); [|done]. apply set_index_in_range. lia. }
      cbn [mbind res_bind]. rewrite set_index_in_range by lia. cbn [mbind res_bind]. pose proof (Hpos (Z.to_nat w)) as Hcp. fold c in Hcp.
      assert (length ret1 = length cnt) as Hr1 by (subst ret1; destruct (c =? 0); by rewrite ?length_insert).
      destruct (IH (<[Z.to_nat w := c + 1]> cnt) ret1) as (cnt' & ret' & E & L1 & L2 & H); [done|by rewrite length_insert|by rewrite length_insert| |].
      { intros v. rewrite insert_total by lia. case_decide; [lia|done]. }
      rewrite length_insert in *. exists cnt', ret'. split_and!; try done. intros v Hv. destruct (H v Hv) as (H1 & H2 & H3). split; [done|].
      rewrite insert_total in H2, H3 by lia. rewrite H2, H3. destruct (decide (Z.to_nat w = v)) as [<-|Hnv].
      * rewrite Z2Nat.id by lia. split; [split; [intros _; right; by left|intros _; left; lia]|].
        rewrite decide_False by (fold c; lia). fold c. subst ret1. destruct (Z.eqb_spec c 0) as [Ec|Ec].
        -- rewrite decide_True by (split; [done|by left]). rewrite insert_total, decide_True by (done || lia). done.
        -- rewrite decide_False by (by intros [? _]). done.
      * assert (Z.of_nat v ∈ w :: l <-> Z.of_nat v ∈ l) as Hel by (rewrite elem_of_cons; split; [intros [?|?]; [lia|done]|auto]).
        split; [by rewrite Hel|]. rewrite (decide_ext (cnt !!! v = 0 /\ Z.of_nat v ∈ w :: l) (cnt !!! v = 0 /\ Z.of_nat v ∈ l)) by by rewrite Hel.
        subst ret1. destruct (c =? 0); [|done]. by rewrite insert_total, (decide_False (P := Z.to_nat w = v)) by (done || lia).
Qed.

(** ** Output queues *)

(** What has been allotted when the networks below [i] are done. *)
Record allotted (i : Z) (queues : list output_queue_bundle_t) (remap : list (option Z)) : Prop := {
  al_queues : Forall (fun b => queue b = [] /\ b_credits b = outbuf /\ 0 <= b_vn b < i) queues;
  al_distinct : NoDup (b_vn <$> queues);
  al_length : length remap = length vmap;
  al_range v r : remap !! v = Some (Some r) -> 0 <= r < Z.of_nat (length queues);
  al_mapped v w : vmap !! v = Some w -> 0 <= w < i -> exists k b, remap !! v = Some (Some (Z.of_nat k)) /\ queues !! k = Some b /\ b_vn b = w
}.

Lemma instance_queues_allots cnt : forall i queues remap,
  (forall j c, cnt !! j = Some c -> (0 < c <-> i + Z.of_nat j ∈ vmap)) -> 0 <= i -> allotted i queues remap ->
  forall q r, instance_queues vmap outbuf cnt i queues remap = (q, r) -> allotted (i + Z.of_nat (length cnt)) q r.
Proof.
  induction cnt as [|c cnt IH]; intros i queues remap Hc Hi Ha q r E; cbn [instance_queues] in E.
  { injection E as <- <-. cbn. by rewrite Z.add_0_r. }
  replace (i + Z.of_nat (length (c :: cnt))) with (i + 1 + Z.of_nat (length cnt)) by (cbn [length]; lia).
  assert (forall j c', cnt !! j = Some c' -> (0 < c' <-> i + 1 + Z.of_nat j ∈ vmap)) as Hc'.
  { intros j c' Hj. rewrite (Hc (S j) c' Hj). by replace (i + Z.of_nat (S j)) with (i + 1 + Z.of_nat j) by lia. }
  pose proof (Hc 0%nat c eq_refl) as Hc0. rewrite Z.add_0_r in Hc0. destruct Ha as [Hq Hd Hlen Hr Hm]. destruct (Z.ltb_spec 0 c) as [Hpos|Hz].
  - apply (IH _ _ _ Hc' ltac:(lia)) in E; [done|]. split.
    + apply Forall_app. split; [eapply Forall_impl; [exact Hq|]; intros b (? & ? & ?); split_and!; (done || lia)|]. repeat constructor; cbn; lia.
    + rewrite fmap_app. apply NoDup_app. split; [done|]. split; [|by apply NoDup_singleton]. intros x Hx Hx2. apply list_elem_of_singleton in Hx2 as ->.
      apply list_elem_of_fmap in Hx as (b & Eb & Hb). rewrite Forall_forall in Hq. destruct (Hq b Hb) as (_ & _ & ?). cbn in Eb. lia.
    + rewrite length_zip_with, Hlen. lia.
    + intros v x Hx. rewrite length_app. cbn [length]. apply lookup_zip_with_Some in Hx as (w & y & E' & Hw & Hy).
      destruct (w =? i); [injection E' as ->; lia|]. subst y. pose proof (Hr v x Hy). lia.
    + intros v w Hw Hwi. destruct (lookup_lt_is_Some_2 remap v) as [y Hy]; [rewrite Hlen; by eapply lookup_lt_Some|].
      destruct (decide (w = i)) as [->|Hne].
      * exists (length queues), (mkBundle [] i outbuf). split_and!; [|by apply list_lookup_middle|done].
        apply lookup_zip_with_Some. exists i, y. by rewrite Z.eqb_refl.
      * destruct (Hm v w Hw ltac:(lia)) as (k & b & Hk & Hb & Hv). exists k, b. split_and!; [|by apply lookup_app_l_Some|done].
        apply lookup_zip_with_Some. exists w, (Some (Z.of_nat k)). by rewrite (proj2 (Z.eqb_neq _ _)).
  - apply (IH _ _ _ Hc' ltac:(lia)) in E; [done|]. split; try done.
    + eapply Forall_impl; [exact Hq|]. intros b (? & ? & ?). split_and!; (done || lia).
    + intros v w Hw Hwi. destruct (decide (w = i)) as [->|Hne]; [|apply Hm; [done|lia]].
      exfalso. assert (0 < c); [|lia]. apply Hc0. by eapply list_elem_of_lookup_2.
Qed.

(** ** Credits *)

(** The credits an interface has told the router of, message by message. *)
Definition told (l : list lc_action) : list (Z * Z) :=
  omap (fun a => match a with RtrUntimed (NetCredit v n) => Some (v, n) | _ => None end) l.
Lemma told_app l1 l2 : told (l1 ++ l2) = told l1 ++ told l2.
Proof. apply omap_app. Qed.
Fixpoint messages (i : Z) (credits : list Z) : list (Z * Z) :=
  match credits with [] => [] | c :: l => (if 0 <? c then [(i, c)] else []) ++ messages (i + 1) l end.

(** The messages about the input buffers: one for each network of [vmap]. *)
Definition buffer_messages (vmap : list Z) (inbuf tot : Z) : list (Z * Z) :=
  if 0 <? inbuf then (fun v => (v, inbuf)) <$> filter (fun v => v ∈ vmap) (seqZ 0 tot) else [].
Lemma messages_buffers (vm : list Z) (n : Z) credits : forall i,
  (forall v : nat, (v < length credits)%nat -> credits !!! v = if decide (i + Z.of_nat v ∈ vm) then n else 0) ->
  messages i credits = if 0 <? n then (fun v => (v, n)) <$> filter (fun v => v ∈ vm) (seqZ i (Z.of_nat (length credits))) else [].
Proof.
  induction credits as [|c credits IH]; intros i Hc; cbn [messages]; [by destruct (0 <? n)|].
  rewrite (IH (i + 1)).
  2: { intros v Hv. pose proof (Hc (S v) ltac:(cbn; lia)) as E. change ((c :: credits) !!! S v) with (credits !!! v) in E. rewrite E. by replace (i + Z.of_nat (S v)) with (i + 1 + Z.of_nat v) by lia. }
  pose proof (Hc 0%nat ltac:(cbn; lia)) as E. change ((c :: credits) !!! 0%nat) with c in E. cbn [Z.of_nat] in E. rewrite Z.add_0_r in E. subst c.
  rewrite (seqZ_cons i) by (cbn [length]; lia). replace (Z.succ i) with (i + 1) by lia. replace (Z.pred (Z.of_nat (length _))) with (Z.of_nat (length credits)) by (cbn [length]; lia).
  rewrite filter_cons. destruct (decide (i ∈ vm)); destruct (0 <? n) eqn:E; by rewrite ?E.
Qed.

Lemma send_credits_runs credits : forall i s,
  0 <= i -> router_return_credits s = replicate (Z.to_nat i) 0 ++ credits -> Forall (Z.le 0) credits ->
  runs (send_credits i credits) s (fun _ s' => exists acts,
    s' = s <| router_return_credits := replicate (Z.to_nat i + length credits) 0 |> <| performed ::= fun l => l ++ acts |> /\
    told acts = messages i credits /\ noise acts).
Proof.
  induction credits as [|c credits IH]; intros i s Hi Hret Hpos; cbn [send_credits].
  - lc_walk. exists []. split_and!.
    + rewrite app_nil_r in Hret. cbn [length]. rewrite Nat.add_0_r, <- Hret. destruct s. unfold update; cbn. by rewrite app_nil_r.
    + done.
    + done.
  - apply Forall_cons in Hpos as [Hc Hpos]. apply runs_bind.
    assert (forall (s1 : LinkControl) acts1, s1 = s <| router_return_credits := replicate (Z.to_nat (i + 1)) 0 ++ credits |> <| performed ::= fun l => l ++ acts1 |> ->
      acts1 = (if 0 <? c then [RtrUntimed (NetCredit i c)] else []) ->
      runs (send_credits (i + 1) credits) s1 (fun _ s' => exists acts,
        s' = s <| router_return_credits := replicate (Z.to_nat i + length (c :: credits)) 0 |> <| performed ::= fun l => l ++ acts |> /\
        told acts = messages i (c :: credits) /\ noise acts)) as Hgo.
    { intros s1 acts1 -> Ha1. eapply runs_mono; [apply IH; [lia|done|done]|]. intros u s' (acts & -> & Hacts & Hn).
      exists (acts1 ++ acts). split_and!.
      - cbn [length]. unfold update; cbn. replace (Z.to_nat (i + 1) + length credits)%nat with (Z.to_nat i + S (length credits))%nat by lia.
        by rewrite app_assoc.
      - rewrite told_app, Hacts, Ha1. cbn [messages]. by destruct (0 <? c).
      - apply noise_app; [|done]. subst acts1. by destruct (0 <? c). }
    assert (replicate (Z.to_nat (i + 1)) 0 = replicate (Z.to_nat i) 0 ++ [0]) as Erep.
    { replace (Z.to_nat (i + 1)) with (Z.to_nat i + 1)%nat by lia. by rewrite replicate_add. }
    apply runs_when; intros Hlt; unfold perform.
    + lc_walk. eapply runs_getsR; [apply set_index_in_range; cbn; rewrite Hret, length_app, length_replicate; cbn; lia|]. lc_walk.
      eapply Hgo; [|by rewrite Hlt]. unfold update; cbn. rewrite Hret. rewrite insert_app_r_alt by (rewrite length_replicate; lia).
      rewrite length_replicate, Nat.sub_diag, Erep, <- app_assoc. done.
    + eapply Hgo; [|by rewrite Hlt]. apply Z.ltb_ge in Hlt. assert (c = 0) as -> by lia. rewrite Erep, <- app_assoc. cbn [app].
      rewrite <- Hret. destruct s. unfold update; cbn. by rewrite app_nil_r.
Qed.
End networks.

(** The credits of the router, network by network. *)
Definition credits_for (v : Z) (l : list (Z * Z)) : Z := total (fun x => if x.1 =? v then x.2 else 0) l.

Lemma receive_credits (l : list (Z * Z)) : forall s,
  Forall (fun x => 0 <= x.1 < Z.of_nat (length (router_credits s)) /\ 0 <= x.2) l ->
  runs (receive_untimed false ((fun x => NetCredit x.1 x.2) <$> l)) s (fun _ s' => exists rc, s' = s <| router_credits := rc |> /\
    length rc = length (router_credits s) /\ forall v, rc !!! v = router_credits s !!! v + credits_for (Z.of_nat v) l).
Proof.
  induction l as [|[v n] l IH]; intros s Hl; cbn [fmap list_fmap receive_untimed fst snd].
  - lc_walk. exists (router_credits s). split_and!; [by destruct s|done|]. intros v. unfold credits_for, total. cbn. lia.
  - apply Forall_cons in Hl as [[Hv Hn] Hl]. cbn in Hv, Hn. lc_walk.
    assert (at_index (router_credits s) v = Ok (router_credits s !!! Z.to_nat v)) as Hc.
    { apply at_index_Ok. split; [lia|]. apply list_lookup_lookup_total_lt. lia. }
    eapply runs_getsR; [exact Hc|]. lc_walk. eapply runs_getsR; [apply set_index_in_range; done|]. lc_walk.
    eapply runs_mono; [apply IH; cbn; by rewrite length_insert|]. intros u s' (rc & -> & Hlen & Hrc). exists rc. cbn in Hlen, Hrc. rewrite length_insert in Hlen.
    split_and!; [done|done|]. intros w. rewrite Hrc, insert_total by lia. unfold credits_for. rewrite total_cons. cbn [fst snd].
    destruct (Z.eqb_spec v (Z.of_nat w)) as [->|Hne]; [rewrite Nat2Z.id, decide_True by done; lia|]. rewrite decide_False by lia. lia.
Qed.

Lemma expect_next c v l : expect c (NetInit c v :: l) = Ok (v, l).
Proof. unfold expect. cbn [recvUntimed]. destruct (decide (c = c)); done. Qed.

Lemma receive_vns_Ok given : forall n, n = length given ->
  receive_vns n ((fun v => NetInit Init.REQUEST_VNS v) <$> given) = Ok (given, []).
Proof.
  induction given as [|v given IH]; intros n ->; [done|]. cbn [length receive_vns fmap list_fmap].
  rewrite expect_next. cbn [mbind res_bind]. by rewrite (IH _ eq_refl).
Qed.

(** The state phase 2 starts from. *)
Record fresh (s : LinkControl) : Prop := {
  fr_flit : 0 < flit_size s < 2 ^ 30;
  fr_input : Z.of_nat (length (input_queues s)) = req_vns s;
  fr_cur : curr_out_vn s = 0;
  fr_congestion : congestion_state s = ∅;
  fr_waiting : lc_waiting s = true;
  fr_buffers : 0 <= inbuf_flits s /\ 0 <= outbuf_flits s;
  fr_noise : noise (performed s);
  fr_unsent : told (performed s) = []
}.

Lemma phase2_ready s tot given :
  fresh s -> 0 <= tot -> length given = Z.to_nat (req_vns s) ->
  let vmap := default given (vn_out_map s) in
  Z.of_nat (length vmap) = req_vns s -> Forall (fun v => v = -1 \/ 0 <= v < tot) vmap ->
  runs (init_phase2 (NetInit Init.REQUEST_VNS tot :: ((fun v => NetInit Init.REQUEST_VNS v) <$> given))) s (fun _ s' =>
    lc_ready s' /\ total_vns s' = tot /\ router_credits s' = replicate (Z.to_nat tot) 0 /\ nid_map s' = nid_map s /\
    told (performed s') = buffer_messages vmap (inbuf_flits s) tot /\
    (forall v w, vmap !! v = Some w -> w <> -1 ->
       exists k b, vn_remap_out s' !! v = Some (Some (Z.of_nat k)) /\ output_queues s' !! k = Some b /\ b_vn b = w)).
Proof.
  intros [Hflit Hin Hcur Hcs Hw [Hib Hob] Hnoise Hun] Htot Hg vmap Hlen Hvmap. unfold init_phase2. apply runs_bind. eapply runs_getsR; [apply expect_next|]. lc_walk. eapply runs_getsR; [by apply receive_vns_Ok|]. lc_walk. fold vmap.
  set (zeros := replicate (Z.to_nat tot) 0). assert (Z.of_nat (length zeros) = tot) as Hz by (subst zeros; rewrite length_replicate; lia).
  assert (forall v, (v < length zeros)%nat -> zeros !!! v = 0) as Hz0.
  { intros v Hv. subst zeros. rewrite length_replicate in Hv. by apply lookup_total_replicate_2. }
  assert (forall v, 0 <= zeros !!! v) as Hzp.
  { intros v. destruct (lt_dec v (length zeros)) as [Hv|Hv]; [by rewrite Hz0|].
    rewrite list_lookup_total_alt, lookup_ge_None_2 by lia. done. }
  destruct (count_vns_Ok tot (inbuf_flits s) vmap zeros zeros Hvmap Hz eq_refl) as (cnt & ret & E & L1 & L2 & Hcnt).
  { done. }
  eapply runs_getsR; [exact E|]. lc_walk.
  destruct (instance_queues vmap (outbuf_flits s) cnt 0 [] (replicate (Z.to_nat (req_vns s)) None)) as [queues remap] eqn:Eq.
  apply (instance_queues_allots vmap (outbuf_flits s)) in Eq as [Hq Hd Hrl Hrr Hm]; [|..].
  2: { intros j c Hj. apply lookup_lt_Some in Hj as Hjl. rewrite L1 in Hjl. destruct (Hcnt j Hjl) as (_ & H & _). apply lookup_of_index in Hj. rewrite Hj in H.
       rewrite H, Hz0, Z.add_0_l by done. split; [intros [?|?]; [lia|done]|auto]. }
  2: done.
  2: { split; try done; [constructor|by rewrite length_replicate; lia| |]; [|lia].
       intros v r [H _]%lookup_replicate. done. }
  rewrite L1 in *. cbn [Z.add] in Hq, Hm. rewrite Hz in *. lc_walk. set (s1 := update _ _).
  assert (forall v : nat, (v < length zeros)%nat -> ret !!! v = if decide (Z.of_nat v ∈ vmap) then inbuf_flits s else 0) as Hret.
  { intros v Hv. destruct (Hcnt v Hv) as (_ & _ & ->). rewrite Hz0 by done. apply decide_ext. naive_solver. }
  assert (Forall (Z.le 0) ret) as Hpos.
  { apply Forall_lookup. intros v x Hx. apply lookup_lt_Some in Hx as Hl. apply lookup_of_index in Hx. rewrite <- Hx, Hret by lia. by case_decide. }
  eapply runs_mono; [apply (send_credits_runs ret 0 s1); [done|done|done]|]. intros u s' (acts & -> & Hacts & Hn). lc_walk. cbn [Z.to_nat Nat.add].
  assert (forall k b, queues !! k = Some b -> bundle_ok (outbuf_flits s) tot b) as Hbs.
  { intros k b Hb. rewrite Forall_lookup in Hq. destruct (Hq k b Hb) as (E1 & E2 & E3). split; [done|lia|rewrite E1, E2; unfold total; cbn; lia|by rewrite E1]. }
  assert (noise (performed s ++ acts)) as [Hn1 Hn2] by by apply noise_app.
  split_and!; try done.
  - split; cbn; try done; [split; cbn; try done|].
    + by rewrite Hrl.
    + f_equal. cbn [Z.to_nat Nat.add]. lia.
    + unfold used_vns. cbn. rewrite Hcur. lia.
    + rewrite Hcs. intros t c H. by rewrite lookup_empty in H.
    + intros _ _. eapply Forall_impl; [exact Hq|]. by intros b [? _].
    + eapply Forall_impl; [exact Hq|]. by intros b [? _].
  - cbn. rewrite told_app, Hun, Hacts. cbn [app]. unfold buffer_messages.
    assert (Z.of_nat (length ret) = tot) as Hrt by lia. rewrite <- Hrt. apply messages_buffers. intros v Hv. apply Hret. lia.
  - intros v w Hv Hw1. apply Hm; [done|]. rewrite Forall_lookup in Hvmap. destruct (Hvmap v w Hv); [done|lia].
Qed.

(** What the router tells an endpoint before the networks. *)
Definition phase1_messages (bw f me : Z) : list net_event :=
  [NetInit Init.REPORT_BW bw; NetInit Init.REPORT_FLIT_SIZE f; NetInit Init.REPORT_ID me].
Definition phase2_messages (tot : Z) (given : list Z) : list net_event :=
  NetInit Init.REQUEST_VNS tot :: ((fun v => NetInit Init.REQUEST_VNS v) <$> given).
Definition credit_messages (credits : list (Z * Z)) : list net_event := (fun x => NetCredit x.1 x.2) <$> credits.

Definition init_phases (factor : Z -> Z -> Z) (now : Z) (bw f me tot : Z) (given : list Z) (credits : list (Z * Z)) : LC unit :=
  init factor now 0 [] ;; init factor now 1 (phase1_messages bw f me) ;; init factor now 2 (phase2_messages tot given) ;;
  init factor now 3 (credit_messages credits) ;; skip.

Lemma phase1_fresh factor now s bw f me :
  0 < f < 2 ^ 30 -> Z.of_nat (length (input_queues s)) = req_vns s -> curr_out_vn s = 0 -> congestion_state s = ∅ -> lc_waiting s = true ->
  0 <= inbuf_flits s /\ 0 <= outbuf_flits s -> performed s = [] ->
  (forall m, nid_map s = Some m -> 0 <= (if logical_nid s =? -1 then me else logical_nid s) < Z.of_nat (length m)) ->
  runs (init factor now 0 [] ;; init factor now 1 (phase1_messages bw f me)) s (fun _ s' =>
    fresh s' /\ inbuf_flits s' = inbuf_flits s /\ req_vns s' = req_vns s /\ vn_out_map s' = vn_out_map s /\
    nid_map s' = (fun m => <[Z.to_nat (if logical_nid s =? -1 then me else logical_nid s) := me]> m) <$> nid_map s).
Proof.
  intros Hf Hin Hcur Hcs Hw Hb Hp Hn. unfold init, init_phase0, init_phase1, perform. lc_walk.
  do 3 try (eapply runs_getsR; [apply expect_next|]; lc_walk). cbn. destruct (nid_map s) as [m|] eqn:Em.
  - lc_walk. eapply runs_getsR; [cbn; apply set_index_in_range, Hn; done|]. lc_walk. cbn. split_and!; try done.
    split; cbn; rewrite ?Hp; done.
  - lc_walk. cbn. split_and!; try done.
    split; cbn; rewrite ?Hp; done.
Qed.

Lemma ready_credits s rc now :
  lc_ready s -> length rc = length (router_credits s) -> (forall v, 0 <= rc !!! v) ->
  lc_ready (s <| router_credits := rc |> <| lc_idle_start := now |> <| lc_is_idle := true |>).
Proof. intros [[] He Hw Hu Ht] Hlen Hpos. split; try done. split; try done. cbn. by rewrite Hlen. Qed.

Lemma init_ready bw inbuf outbuf vns vmap0 nids nid rs ss factor now bw' f me tot given credits s0 :
  new_LinkControl bw inbuf outbuf vns vmap0 nids nid rs ss = Ok s0 ->
  0 <= vns -> 0 <= inbuf -> 0 <= outbuf -> 0 < f < 2 ^ 30 -> 0 <= tot -> length given = Z.to_nat vns ->
  let vmap := if bool_decide (vmap0 = []) then given else vmap0 in
  Forall (fun v => v = -1 \/ 0 <= v < tot) vmap ->
  (forall m, nids = Some m -> 0 <= (if nid =? -1 then me else nid) < Z.of_nat (length m)) ->
  Forall (fun x => 0 <= x.1 < tot /\ 0 <= x.2) credits ->
  runs (init_phases factor now bw' f me tot given credits) s0 (fun _ s =>
    lc_ready s /\ total_vns s = tot /\
    (forall v, (v < Z.to_nat tot)%nat -> router_credits s !!! v = credits_for (Z.of_nat v) credits) /\
    told (performed s) = buffer_messages vmap inbuf tot /\
    (forall v w, vmap !! v = Some w -> w <> -1 ->
       exists k b, vn_remap_out s !! v = Some (Some (Z.of_nat k)) /\ output_queues s !! k = Some b /\ b_vn b = w)).
Proof.
  intros Hnew Hvns Hib Hob Hf Htot Hg vmap Hvmap Hnids Hcr. unfold new_LinkControl in Hnew.
  assert (exists om, default given om = vmap /\ s0 = mkLinkControl bw inbuf outbuf 0 0 [] vns 0 om [] [] [] [] (replicate (Z.to_nat vns) []) (-1) nid nids 0
    true false 0 true 0 ∅ rs ss false [] /\ Z.of_nat (length vmap) = vns) as (om & Hom & -> & Hlen).
  { subst vmap. case_bool_decide as He.
    - cbn in Hnew. injection Hnew as <-. exists None. split_and!; (done || lia).
    - destruct (Z.eqb_spec (Z.of_nat (length vmap0)) vns) as [E|]; [|done]. cbn in Hnew. injection Hnew as <-. by exists (Some vmap0). }
  set (s0 := mkLinkControl _ _ _ _ _ _ _ _ _ _ _ _ _ _ _ _ _ _ _ _ _ _ _ _ _ _ _ _). unfold init_phases.
  pose proof (phase1_fresh factor now s0 bw' f me Hf) as H1. cbn in H1. rewrite length_replicate in H1.
  specialize (H1 ltac:(lia) eq_refl eq_refl eq_refl ltac:(lia) eq_refl Hnids). apply runs_bind_inv in H1. apply runs_bind.
  eapply runs_mono; [exact H1|]. intros l1 s1 H2. cbn beta in H2. apply runs_bind. eapply runs_mono; [exact H2|].
  intros l2 s2 (Hfr & Ei & Er & Ev & _). cbn in Ei, Er, Ev. apply runs_bind.
  change (init factor now 2 (phase2_messages tot given)) with (l ← init_phase2 (phase2_messages tot given);
    modify (fun s => s <| lc_idle_start := now |> <| lc_is_idle := true |>) ;; mret l). apply runs_bind.
  eapply runs_mono; [apply (phase2_ready s2 tot given Hfr Htot)|]; [by rewrite Er|rewrite Ev, Er, Hom; lia|by rewrite Ev, Hom|].
  intros l3 s3 (Hready & Ht3 & Hrc & _ & Hsent & Hmap). rewrite Ev, Hom, Ei in *. lc_walk.
  set (s4 := update _ (update _ s3)). assert (length (router_credits s4) = Z.to_nat tot) as Hl4 by (cbn; by rewrite Hrc, length_replicate).
  eapply runs_mono; [apply receive_credits|].
  { eapply Forall_impl; [exact Hcr|]. intros x [? ?]. rewrite Hl4. lia. }
  intros u s5 (rc & -> & Hlr & Hrc5). lc_walk.
  assert (forall v, 0 <= rc !!! v) as Hpos.
  { intros v. rewrite Hrc5. pose proof (lw_credits_pos _ (rd_wf _ Hready) v). cbn. assert (0 <= credits_for (Z.of_nat v) credits); [|lia].
    apply total_nonneg. eapply Forall_impl; [exact Hcr|]. intros x [? ?]. cbn. destruct (x.1 =? Z.of_nat v); lia. }
  split_and!; [apply (ready_credits s4 rc now); [|done|done]|done| |exact Hsent|exact Hmap].
  - destruct Hready as [[] ? ? ? ?]. split; done.
  - intros v Hv. cbn. rewrite Hrc5. cbn. rewrite Hrc. rewrite lookup_total_replicate_2 by done. lia.
Qed.

(** C25. After the init phases with its router an interface is ready: its output
    queues are empty with all their space, every virtual network of the endpoint that
    has a network has the queue of that network, the router has been told of the
    input buffers in exactly one message for each network in use, and the credits of the interface are
    those the router gave. *)
Theorem init_makes_ready bw inbuf outbuf vns vmap0 nids nid rs ss factor now bw' f me tot given credits s0 :
  new_LinkControl bw inbuf outbuf vns vmap0 nids nid rs ss = Ok s0 ->
  0 <= vns -> 0 <= inbuf -> 0 <= outbuf -> 0 < f < 2 ^ 30 -> 0 <= tot -> length given = Z.to_nat vns ->
  let vmap := if bool_decide (vmap0 = []) then given else vmap0 in
  Forall (fun v => v = -1 \/ 0 <= v < tot) vmap ->
  (forall m, nids = Some m -> 0 <= (if nid =? -1 then me else nid) < Z.of_nat (length m)) ->
  Forall (fun x => 0 <= x.1 < tot /\ 0 <= x.2) credits ->
  runs (init_phases factor now bw' f me tot given credits) s0 (fun _ s =>
    lc_ready s /\ total_vns s = tot /\
    (forall v, (v < Z.to_nat tot)%nat -> router_credits s !!! v = credits_for (Z.of_nat v) credits) /\
    told (performed s) = buffer_messages vmap inbuf tot /\
    (forall v w, vmap !! v = Some w -> w <> -1 ->
       exists k b, vn_remap_out s !! v = Some (Some (Z.of_nat k)) /\ output_queues s !! k = Some b /\ b_vn b = w)).
Proof. exact (init_ready bw inbuf outbuf vns vmap0 nids nid rs ss factor now bw' f me tot given credits s0). Qed.
