(* ===== verification/LinkControlDemo.v ===== *)
(** * LinkControlDemo: an interface at work

    An endpoint with two virtual networks. In the first runs its router has given
    credits for both; in the second none for network 0, so that a packet for network 1
    stays behind. *)

From S2P Require Import Prelude Merlin LinkControl LinkControlRuns LinkControlSafe LinkControlFair LinkControlInit.

Definition clock (bw f : Z) : Z := bw / f.
Definition built (nids : option (list Z)) : res LinkControl := new_LinkControl 100 16 8 2 [] nids 1 true true.
Definition after_run {A} (s : LinkControl) (r : res (A * LinkControl)) : LinkControl := match r with Ok (_, s') => s' | Err _ => s end.
Definition blank : LinkControl :=
  mkLinkControl 0 0 0 0 0 [] 0 0 None [] [] [] [] [] 0 0 None 0 true false 0 true 0 ∅ false false false [].
Definition built_state (nids : option (list Z)) : LinkControl := match built nids with Ok s => s | Err _ => blank end.

Definition demo_start : LinkControl := Eval vm_compute in
  after_run blank (init_phases clock 0 80 8 5 2 [0; 1] [(0, 8); (1, 8)] (built_state None)).
Definition poor_start : LinkControl := Eval vm_compute in
  after_run blank (init_phases clock 0 80 8 5 2 [0; 1] [(1, 8)] (built_state None)).
Definition mapped_start : LinkControl := Eval vm_compute in
  after_run blank (init_phases clock 0 80 8 5 2 [0; 1] [(0, 8); (1, 8)] (built_state (Some [1; 0; 7]))).

Lemma built_ready nids credits s (Q : LinkControl -> Prop) :
  (forall m, nids = Some m -> length m = 3%nat) -> Forall (fun x => 0 <= x.1 < 2 /\ 0 <= x.2) credits ->
  init_phases clock 0 80 8 5 2 [0; 1] credits (built_state nids) = Ok (tt, s) -> lc_ready s.
Proof.
  intros Hn Hc Hrun. assert (built nids = Ok (built_state nids)) as Hb by done.
  destruct (init_ready 100 16 8 2 [] nids 1 true true clock 0 80 8 5 2 [0; 1] credits (built_state nids) Hb) as (u & s' & E & Hr & _); try done.
  - repeat constructor; lia.
  - intros m Hm. rewrite (Hn m Hm). done.
  - rewrite Hrun in E. by injection E as _ <-.
Qed.

Lemma demo_interface_ready : lc_ready demo_start.
Proof. apply (built_ready None [(0, 8); (1, 8)] _ (fun _ => True)); [done|repeat constructor; cbn; lia|vm_compute; done]. Qed.
Lemma poor_ready : lc_ready poor_start.
Proof. apply (built_ready None [(1, 8)] _ (fun _ => True)); [done|repeat constructor; cbn; lia|vm_compute; done]. Qed.

(** ** A run *)

Definition next (h : history) (op : lc_op) : history :=
  match lc_run op (h_state h) with
  | Ok (r, s') => mkHistory s' (fun k => h_accepted h k ++ accepted_by (h_state h) op r k)
                    (fun v => h_credited h v + credited_by op (Z.of_nat v)) (h_fired h + fired_by op)
  | Err _ => h
  end.
(** Whether an operation is allowed, and returns. *)
Definition op_test (s : LinkControl) (op : lc_op) : bool :=
  match op with
  | OpSend now v req =>
      (0 <=? v) && (0 <=? size_in_bits req) && (size_in_bits req <? 2 ^ 30) && (v <? req_vns s) &&
      match vn_remap_out s !! Z.to_nat v, translate (nid_map s) (dest req) with Some (Some _), Ok _ => true | _, _ => false end
  | OpRecv v => (0 <=? v) && (v <? req_vns s) && (v <? total_vns s)
  | OpInput now keep (NetCredit vc n) => (0 <=? vc) && (vc <? total_vns s) && (0 <=? n)
  | OpInput now keep (NetPacket ev) => (0 <=? vn (request ev)) && (vn (request ev) <? req_vns s)
  | OpInput now keep (NetInit _ _) => false
  | OpInput now keep _ => true
  | OpOutput _ _ => negb (lc_waiting s)
  | OpCongestion => true
  end.
Lemma op_test_ok s op : op_test s op = true -> op_ok s op.
Proof.
  destruct op as [now v req|v|now keep [| | | |]|now keep|]; cbn; intros H; rewrite ?andb_true_iff, ?Z.leb_le, ?Z.ltb_lt, ?negb_true_iff in H; try done; try tauto.
  destruct H as [[[[H1 H2] H3] H4] H5]. split; [done|]. split; [done|]. intros _.
  destruct (vn_remap_out s !! Z.to_nat v) as [[i|]|]; [|done..]. destruct (translate _ _) as [d|]; [|done]. split; by eexists.
Qed.
Definition succeeded {A} (r : res A) : bool := match r with Ok _ => true | Err _ => false end.
Lemma next_step h op : op_test (h_state h) op && succeeded (lc_run op (h_state h)) = true -> lc_step h (next h op).
Proof.
  intros [Hok%op_test_ok E]%andb_true_iff. unfold next. destruct (lc_run op (h_state h)) as [[r s']|] eqn:Er; [by apply lc_op_step|done].
Qed.
Fixpoint all_run (h : history) (ops : list lc_op) : bool :=
  match ops with [] => true | op :: ops' => op_test (h_state h) op && succeeded (lc_run op (h_state h)) && all_run (next h op) ops' end.
Lemma run_reached ops : forall h, all_run h ops = true -> rtc lc_step h (foldl next h ops).
Proof.
  induction ops as [|op ops IH]; intros h H; cbn [foldl]; [apply rtc_refl|]. cbn [all_run] in H. apply andb_true_iff in H as [H1 H2].
  eapply rtc_l; [by apply next_step|by apply IH].
Qed.

Definition letter (to n : Z) : Request := mkRequest to (-1) (8 * n) n.
Definition demo_ops : list lc_op :=
  [OpSend 1 0 (letter 9 3); OpSend 1 1 (letter 9 2); OpSend 1 0 (letter 4 1); OpOutput 2 true; OpOutput 5 true].
Definition demo_history : history := foldl next (lc_start demo_start) demo_ops.

Lemma demo_interface_reached : rtc lc_step (lc_start demo_start) demo_history.
Proof. apply run_reached. vm_compute. done. Qed.

Example demo_sent : (sent_on 0 (performed (h_state demo_history)), sent_on 1 (performed (h_state demo_history))) =
  ([mkRequest 9 0 24 3], [mkRequest 9 1 16 2]).
Proof. vm_compute. done. Qed.

Definition demo_queue : output_queue_bundle_t := Eval vm_compute in output_queues (h_state demo_history) !!! 0%nat.

Lemma packets_leave_in_order_witness :
  h_accepted demo_history 0 = sent_on (b_vn demo_queue) (performed (h_state demo_history)) ++ (request <$> queue demo_queue) /\
  b_credits demo_queue + total flits (queue demo_queue) = outbuf_flits demo_start /\ 0 <= b_credits demo_queue.
Proof. apply (packets_leave_in_order demo_start demo_history 0 demo_queue demo_interface_ready demo_interface_reached). vm_compute. reflexivity. Defined.

Lemma router_credits_respected_witness :
  router_credits (h_state demo_history) !!! 0%nat = h_credited demo_history 0 - flits_on (Z.of_nat 0) (performed (h_state demo_history)) /\
  flits_on (Z.of_nat 0) (performed (h_state demo_history)) <= h_credited demo_history 0.
Proof. exact (router_credits_respected demo_start demo_history 0 demo_interface_ready demo_interface_reached). Defined.

(** The router reports congestion of endpoint 9, for which two packets wait. *)
Definition congested : history := foldl next (lc_start demo_start)
  [OpSend 1 0 (letter 9 3); OpSend 1 1 (letter 9 2); OpInput 2 true (Congestion 9 4 100 None); OpOutput 200 true].
Lemma congested_reached : rtc lc_step (lc_start demo_start) congested.
Proof. apply run_reached. vm_compute. done. Qed.
Example congested_count : (count <$> (congestion_state (h_state congested) !! 9)) = Some 1.
Proof. vm_compute. done. Qed.

Lemma timer_and_congestion_counts_witness :
  timers_in (performed (h_state congested)) - h_fired congested = running (h_state congested) /\
  forall t c, congestion_state (h_state congested) !! t = Some c -> count c = queued t (output_queues (h_state congested)).
Proof. exact (timer_and_congestion_counts demo_start congested demo_interface_ready congested_reached). Defined.

(** A send that fits is accepted, and the output timer sends a packet. *)
Lemma interface_never_stuck_witness :
  (exists req s', lc_run (OpSend 7 0 (letter 4 1)) (h_state demo_history) = Ok (RSend true req, s') /\ lc_wf s') /\
  (exists s', lc_run (OpOutput 7 true) (h_state demo_history) = Ok (RNone, s') /\
     (output_sent 7 (h_state demo_history) s' \/ output_idle 7 (h_state demo_history) s')).
Proof.
  split.
  - destruct (interface_never_stuck demo_start demo_history (OpSend 7 0 (letter 4 1)) demo_interface_ready demo_interface_reached)
      as (r & s' & E & _ & Hwf & _); [apply op_test_ok; vm_compute; done|].
    assert (exists req, r = RSend true req) as [req ->].
    { eexists. assert (fst <$> lc_run (OpSend 7 0 (letter 4 1)) (h_state demo_history) = Ok r) as H by (rewrite E; done).
      vm_compute in H. injection H as <-. done. }
    exists req, s'. split; [exact E|exact Hwf].
  - destruct (interface_never_stuck demo_start demo_history (OpOutput 7 true) demo_interface_ready demo_interface_reached)
      as (r & s' & E & [-> Hd] & _ & _); [apply op_test_ok; vm_compute; done|]. exists s'. split; [exact E|exact Hd].
Defined.

(** ** Two networks take turns *)

Definition turn0 : LinkControl := Eval vm_compute in
  h_state (foldl next (lc_start demo_start) [OpSend 1 0 (letter 9 3); OpSend 1 1 (letter 9 2); OpSend 1 0 (letter 4 1)]).
Definition turn1 : LinkControl := Eval vm_compute in after_run turn0 (lc_run (OpOutput 2 true) turn0).
Definition turn2 : LinkControl := Eval vm_compute in after_run turn1 (lc_run (OpOutput 5 true) turn1).

Definition second_queue : output_queue_bundle_t := Eval vm_compute in output_queues turn0 !!! 1%nat.

Lemma round_robin_serves_witness :
  (length (sent_on 1 (performed turn0)) < length (sent_on 1 (performed turn2)))%nat.
Proof.
  assert (lc_wf turn0) as Hwf.
  { assert (lc_accounts demo_start (foldl next (lc_start demo_start) [OpSend 1 0 (letter 9 3); OpSend 1 1 (letter 9 2); OpSend 1 0 (letter 4 1)])) as H.
    { apply (reachable_accounts _ _ demo_interface_ready), run_reached. vm_compute. done. }
    apply ac_wf in H. replace turn0 with (h_state (foldl next (lc_start demo_start) [OpSend 1 0 (letter 9 3); OpSend 1 1 (letter 9 2); OpSend 1 0 (letter 4 1)]));
      [exact H|vm_compute; done]. }
  apply (round_robin_serves turn0 [(turn0, OpOutput 2 true); (turn1, OpOutput 5 true)] turn2 1 second_queue Hwf).
  - apply (trace_cons turn0 _ RNone turn1); [done|vm_compute; done|]. apply (trace_cons turn1 _ RNone turn2); [done|vm_compute; done|]. constructor.
  - done.
  - vm_compute. done.
  - intros s1 now keep [[= -> -> ->]|[[= -> -> ->]|H]%elem_of_cons]%elem_of_cons; [vm_compute; done..|inversion H].
  - vm_compute. done.
Defined.

(** ** The packet that is not looked at *)

Definition blocked : LinkControl := Eval vm_compute in h_state (foldl next (lc_start poor_start) [OpSend 1 0 (letter 9 3); OpOutput 2 true]).
Definition ignored : LinkControl := Eval vm_compute in after_run blocked (send 3 1 (letter 9 2) blocked).

Lemma blocked_send_wakes_nobody_witness : lc_waiting ignored = true /\ performed ignored = performed blocked.
Proof. apply (blocked_send_wakes_nobody blocked 3 1 (letter 9 2) (mkRequest 9 1 16 2) ignored); vm_compute; reflexivity. Defined.
(** It has all the credits it needs. *)
Example ignored_sendable : sendable 3 ignored 1 = true.
Proof. vm_compute. done. Qed.

(** ** A refused request *)

Definition filled : LinkControl := Eval vm_compute in h_state (next (lc_start mapped_start) (OpSend 1 0 (letter 0 8))).
Definition emptied : LinkControl := Eval vm_compute in h_state (next (lc_start filled) (OpOutput 2 true)).

Lemma refused_request_translated_twice_witness : dest (mkRequest 1 0 16 2) = 1 /\ dest (mkRequest 5 0 16 2) = 5.
Proof.
  apply (refused_request_translated_twice filled emptied 2 3 0 (letter 0 2) [1; 5; 7] 1 5 (mkRequest 1 0 16 2) (mkRequest 5 0 16 2)
    filled (after_run emptied (send 3 0 (mkRequest 1 0 16 2) emptied))); try done; vm_compute; reflexivity.
Defined.

Lemma init_makes_ready_witness :
  runs (init_phases clock 0 80 8 5 2 [0; 1] [(0, 8); (1, 8)]) (built_state None) (fun _ s =>
    lc_ready s /\ total_vns s = 2 /\
    (forall v, (v < Z.to_nat 2)%nat -> router_credits s !!! v = credits_for (Z.of_nat v) [(0, 8); (1, 8)]) /\
    told (performed s) = [(0, 16); (1, 16)] /\
    (forall v w, [0; 1] !! v = Some w -> w <> -1 ->
       exists k b, vn_remap_out s !! v = Some (Some (Z.of_nat k)) /\ output_queues s !! k = Some b /\ b_vn b = w)).
Proof.
  apply (init_makes_ready 100 16 8 2 [] None 1 true true clock 0 80 8 5 2 [0; 1] [(0, 8); (1, 8)] (built_state None)); try done; repeat constructor; cbn; lia.
Defined.
