(* ===== verification/VanadisRegs.v ===== *)
(** * VanadisRegs: the register file of a hardware thread

    Models [vanadis/inst/regfile.h], [vanadis/decoder/visaopts.h] and the integer
    formats the instruction templates are instantiated with. The two register
    arrays are byte arrays, read and written at every width; the host is
    little-endian. [value] is what a client sees: one 64-bit word for each register,
    and [reads_and_writes_refine_words] that the bytes implement it. *)

From S2P Require Import Prelude.
From stdpp Require Import list_numbers.
#[local] Open Scope Z_scope.

(** ** Integer formats *)

Inductive format := int32_t | uint32_t | int64_t | uint64_t.

Definition sizeof (T : format) : Z :=
  match T with int32_t | uint32_t => 4 | int64_t | uint64_t => 8 end.
Definition is_signed (T : format) : bool :=
  match T with int32_t | int64_t => true | uint32_t | uint64_t => false end.
Definition width (T : format) : Z := 8 * sizeof T.

(** The [n]-bit two's complement reading of a word. *)
Definition signed (n x : Z) : Z :=
  let u := x mod 2 ^ n in if u <? 2 ^ (n - 1) then u else u - 2 ^ n.

(** [static_cast<T>]. *)
Definition cast (T : format) (x : Z) : Z :=
  if is_signed T then signed (width T) x else x mod 2 ^ width T.

(** ** State *)

Inductive VanadisFPRegisterMode := VANADIS_REGISTER_MODE_FP32 | VANADIS_REGISTER_MODE_FP64.

Record VanadisDecoderOptions := mkOptions {
  reg_ignore_writes : Z;
  isa_int_reg_count : Z;
  isa_fp_reg_count : Z;
  isa_syscall_code_reg : Z;
  fp_reg_mode : VanadisFPRegisterMode }.

Record VanadisRegisterFile := mkRegFile {
  decoder_opts : VanadisDecoderOptions;
  count_int_regs : Z;
  count_fp_regs : Z;
  int_reg_width : Z;
  fp_reg_width : Z;
  int_reg_storage : list Z;
  fp_reg_storage : list Z }.
#[export] Instance regfile_eta : Eta VanadisRegisterFile := fun r =>
  mkRegFile (decoder_opts r) (count_int_regs r) (count_fp_regs r) (int_reg_width r) (fp_reg_width r)
    (int_reg_storage r) (fp_reg_storage r).

Definition new_VanadisRegisterFile (opts : VanadisDecoderOptions) (int_regs fp_regs : Z)
    (mode : VanadisFPRegisterMode) : VanadisRegisterFile :=
  let fw := match mode with VANADIS_REGISTER_MODE_FP32 => 4 | VANADIS_REGISTER_MODE_FP64 => 8 end in
  mkRegFile opts int_regs fp_regs 8 fw
    (replicate (Z.to_nat (8 * int_regs)) 0) (replicate (Z.to_nat (fw * fp_regs)) 0).

(** ** Operations *)

(** Bytes of an array: [len] of them from index [i], and an array with some of its
    bytes replaced. *)
Definition bytes_at (i len : Z) (l : list Z) : list Z := take (Z.to_nat len) (drop (Z.to_nat i) l).
Definition put_bytes (i : Z) (bs l : list Z) : list Z :=
  take (Z.to_nat i) l ++ bs ++ drop (Z.to_nat i + length bs) l.

Definition assert {A} (b : bool) (a : A) : res A := if b then Ok a else Err (Fatal "assert").

Definition ignores (rf : VanadisRegisterFile) (reg : Z) : bool :=
  reg =? reg_ignore_writes (decoder_opts rf).

Definition getIntReg (T : format) (reg : Z) (rf : VanadisRegisterFile) : res Z :=
  assert ((reg <? count_int_regs rf) && (sizeof T <=? int_reg_width rf))
    (if negb (ignores rf reg)
     then cast T (little_endian_to_Z 8 (bytes_at (reg * int_reg_width rf) (sizeof T) (int_reg_storage rf)))
     else 0).

Definition setIntReg (T : format) (reg val : Z) (sign_extend : bool) (rf : VanadisRegisterFile) :
    res VanadisRegisterFile :=
  assert (reg <? count_int_regs rf)
    (if negb (ignores rf reg) then
       let msb := Z.land val (Z.shiftl 1 (sizeof T * 8 - 1)) in
       let fill := if sign_extend then if msb =? 0 then 0 else 255 else 0 in
       let bs := Z_to_little_endian (sizeof T) 8 val ++
                 replicate (Z.to_nat (int_reg_width rf - sizeof T)) fill in
       rf <| int_reg_storage ::= put_bytes (int_reg_width rf * reg) bs |>
     else rf).

(** Floating-point registers hold bit patterns of [size] bytes; the rest of the
    register is zero. *)
Definition getFPReg (size reg : Z) (rf : VanadisRegisterFile) : res Z :=
  assert ((reg <? count_fp_regs rf) && (size <=? fp_reg_width rf))
    (little_endian_to_Z 8 (bytes_at (reg * fp_reg_width rf) size (fp_reg_storage rf))).
Definition setFPReg (size reg val : Z) (rf : VanadisRegisterFile) : res VanadisRegisterFile :=
  assert ((reg <? count_fp_regs rf) && (size <=? fp_reg_width rf))
    (let bs := Z_to_little_endian size 8 val ++ replicate (Z.to_nat (fp_reg_width rf - size)) 0 in
     rf <| fp_reg_storage ::= put_bytes (fp_reg_width rf * reg) bs |>).

Definition copyFromIntRegister (reg offset len : Z) (rf : VanadisRegisterFile) : res (list Z) :=
  assert ((reg <? count_int_regs rf) && (offset + len <=? int_reg_width rf))
    (bytes_at (reg * int_reg_width rf + offset) len (int_reg_storage rf)).
Definition copyFromFPRegister (reg offset len : Z) (rf : VanadisRegisterFile) : res (list Z) :=
  assert ((reg <? count_fp_regs rf) && (offset + len <=? fp_reg_width rf))
    (bytes_at (reg * fp_reg_width rf + offset) len (fp_reg_storage rf)).
Definition copyFromRegister (reg offset len : Z) (is_fp : bool) (rf : VanadisRegisterFile) : res (list Z) :=
  if is_fp then copyFromFPRegister reg offset len rf else copyFromIntRegister reg offset len rf.

Definition copyToIntRegister (reg offset : Z) (values : list Z) (rf : VanadisRegisterFile) :
    res VanadisRegisterFile :=
  assert ((offset + Z.of_nat (length values) <=? int_reg_width rf) && (reg <? count_int_regs rf))
    (rf <| int_reg_storage ::= put_bytes (reg * int_reg_width rf + offset) values |>).
Definition copyToFPRegister (reg offset : Z) (values : list Z) (rf : VanadisRegisterFile) :
    res VanadisRegisterFile :=
  assert ((offset + Z.of_nat (length values) <=? fp_reg_width rf) && (reg <? count_fp_regs rf))
    (rf <| fp_reg_storage ::= put_bytes (reg * fp_reg_width rf + offset) values |>).
Definition copyToRegister (reg offset : Z) (values : list Z) (is_fp : bool) (rf : VanadisRegisterFile) :
    res VanadisRegisterFile :=
  if is_fp then copyToFPRegister reg offset values rf else copyToIntRegister reg offset values rf.

(** ** What a client sees *)

(** The 64-bit word of an integer register; the ignored register is zero. *)
Definition word (rf : VanadisRegisterFile) (reg : Z) : Z :=
  little_endian_to_Z 8 (bytes_at (8 * reg) 8 (int_reg_storage rf)).
Definition value (rf : VanadisRegisterFile) (reg : Z) : Z :=
  if ignores rf reg then 0 else word rf reg.

Definition in_range (rf : VanadisRegisterFile) (reg : Z) : Prop := 0 <= reg < count_int_regs rf.

Record regfile_wf (rf : VanadisRegisterFile) : Prop := {
  wf_width : int_reg_width rf = 8;
  wf_size : Z.of_nat (length (int_reg_storage rf)) = 8 * count_int_regs rf;
  wf_bytes : Forall (fun b => 0 <= b < 2 ^ 8) (int_reg_storage rf) }.

(** ** Words and casts *)

Lemma signed_range n x : 0 < n -> - 2 ^ (n - 1) <= signed n x < 2 ^ (n - 1).
Proof.
  intros Hn. unfold signed.
  assert (H2 : 2 ^ n = 2 * 2 ^ (n - 1)) by (rewrite <- Z.pow_succ_r by lia; f_equal; lia).
  pose proof (Z.mod_pos_bound x (2 ^ n) ltac:(lia)).
  destruct (Z.ltb_spec (x mod 2 ^ n) (2 ^ (n - 1))); lia.
Qed.

Lemma signed_small n x : 0 < n -> - 2 ^ (n - 1) <= x < 2 ^ (n - 1) -> signed n x = x.
Proof.
  intros Hn Hx. unfold signed.
  assert (H2 : 2 ^ n = 2 * 2 ^ (n - 1)) by (rewrite <- Z.pow_succ_r by lia; f_equal; lia).
  destruct (Z.ltb_spec x 0) as [Hneg|Hpos].
  - replace (x mod 2 ^ n) with (x + 2 ^ n) by (apply Z.mod_unique with (-1); lia).
    destruct (Z.ltb_spec (x + 2 ^ n) (2 ^ (n - 1))); lia.
  - rewrite Z.mod_small by lia. destruct (Z.ltb_spec x (2 ^ (n - 1))); lia.
Qed.

Lemma signed_mod n x : 0 <= n -> signed n x mod 2 ^ n = x mod 2 ^ n.
Proof.
  intros Hn. unfold signed. pose proof (Z.pow_pos_nonneg 2 n ltac:(lia) Hn) as Hp.
  destruct (_ <? _); [apply Z.mod_mod; lia|].
  replace (x mod 2 ^ n - 2 ^ n) with (x mod 2 ^ n + (-1) * 2 ^ n) by ring.
  rewrite Z_mod_plus_full. apply Z.mod_mod. lia.
Qed.

Lemma signed_mod_arg n x y : x mod 2 ^ n = y mod 2 ^ n -> signed n x = signed n y.
Proof. unfold signed. now intros ->. Qed.

Lemma mod_of_mod (m n x : Z) : 0 <= m <= n -> (x mod 2 ^ n) mod 2 ^ m = x mod 2 ^ m.
Proof.
  intros H. apply Z.mod_mod_divide.
  exists (2 ^ (n - m)). rewrite <- Z.pow_add_r by lia. f_equal. lia.
Qed.

Lemma cast_of_mod T x : cast T (x mod 2 ^ 64) = cast T x.
Proof.
  destruct T; unfold cast, width, sizeof; simpl;
    rewrite ?mod_of_mod by lia; try reflexivity; apply signed_mod_arg; rewrite mod_of_mod; lia.
Qed.

Lemma width_cases T : width T = 32 \/ width T = 64.
Proof. destruct T; cbv; auto. Qed.

(** The sign fill of [setIntReg]: the stored word is the sign extension of the low
    bytes, whatever the format. *)
Definition extend (T : format) (sign_extend : bool) (val : Z) : Z :=
  if sign_extend then u64 (signed (width T) val) else val mod 2 ^ width T.

Lemma msb_signed n x : 0 < n -> (Z.land x (Z.shiftl 1 (n - 1)) =? 0) = (x mod 2 ^ n <? 2 ^ (n - 1)).
Proof.
  intros Hn. rewrite Z.shiftl_1_l.
  assert (Hb : Z.land x (2 ^ (n - 1)) = 2 ^ (n - 1) * Z.b2z (Z.testbit x (n - 1))).
  { apply Z.bits_inj_iff'. intros k Hk. rewrite Z.land_spec, Z.pow2_bits_eqb by lia.
    rewrite Z.mul_comm, <- Z.shiftl_mul_pow2, Z.shiftl_spec by lia.
    destruct (Z.eqb_spec (n - 1) k) as [->|Hne].
    - rewrite andb_true_r, Z.sub_diag. now destruct (Z.testbit x k).
    - rewrite andb_false_r. destruct (Z.ltb_spec k (n - 1)) as [Hlt|Hge].
      + now rewrite Z.testbit_neg_r by lia.
      + destruct (Z.testbit x (n - 1)); simpl; [|now rewrite Z.testbit_0_l].
        symmetry. apply (Z.bits_above_log2 1); simpl; lia. }
  rewrite Hb. rewrite (Z.testbit_spec' x (n - 1)) by lia.
  assert (H2 : 2 ^ n = 2 ^ (n - 1) * 2) by (rewrite Z.mul_comm, <- Z.pow_succ_r by lia; f_equal; lia).
  pose proof (Z.pow_pos_nonneg 2 (n - 1) ltac:(lia) ltac:(lia)).
  rewrite H2, Z.rem_mul_r by lia.
  pose proof (Z.mod_pos_bound x (2 ^ (n - 1)) ltac:(lia)).
  pose proof (Z.mod_pos_bound (x / 2 ^ (n - 1)) 2 ltac:(lia)).
  generalize dependent ((x / 2 ^ (n - 1)) mod 2). intros q Hq.
  assert (q = 0 \/ q = 1) as [-> | ->] by lia.
  - rewrite Z.mul_0_r. simpl. symmetry. apply Z.ltb_lt. lia.
  - rewrite (proj2 (Z.eqb_neq _ _)) by lia. symmetry. apply Z.ltb_ge. lia.
Qed.

(** ** Byte arrays *)

Lemma length_put_bytes i bs l :
  0 <= i -> i + Z.of_nat (length bs) <= Z.of_nat (length l) -> length (put_bytes i bs l) = length l.
Proof. intros. unfold put_bytes. rewrite !length_app, length_take, length_drop. lia. Qed.

Lemma bytes_at_put i bs l :
  0 <= i -> i + Z.of_nat (length bs) <= Z.of_nat (length l) ->
  bytes_at i (Z.of_nat (length bs)) (put_bytes i bs l) = bs.
Proof.
  intros. unfold bytes_at, put_bytes.
  rewrite drop_app_length' by (rewrite length_take; lia).
  rewrite Nat2Z.id. now apply take_app_length'.
Qed.

Lemma lookup_put_bytes i bs l (k : nat) :
  0 <= i -> i + Z.of_nat (length bs) <= Z.of_nat (length l) ->
  Z.of_nat k < i \/ i + Z.of_nat (length bs) <= Z.of_nat k ->
  put_bytes i bs l !! k = l !! k.
Proof.
  intros Hi Hl [Hk|Hk]; unfold put_bytes.
  - rewrite lookup_app_l by (rewrite length_take; lia). apply lookup_take_lt. lia.
  - rewrite lookup_app_r by (rewrite length_take; lia).
    rewrite lookup_app_r by (rewrite length_take; lia).
    rewrite lookup_drop, length_take. f_equal. lia.
Qed.

Lemma lookup_bytes_at i len (l : list Z) k :
  0 <= i -> bytes_at i len l !! k = if (Z.of_nat k <? len) then l !! (Z.to_nat i + k)%nat else None.
Proof.
  intros Hi. unfold bytes_at. rewrite lookup_take, lookup_drop.
  destruct (Z.ltb_spec (Z.of_nat k) len); case_decide; try reflexivity; lia.
Qed.

Lemma bytes_at_put_other i bs j len l :
  0 <= i -> 0 <= j -> i + Z.of_nat (length bs) <= Z.of_nat (length l) ->
  j + len <= i \/ i + Z.of_nat (length bs) <= j ->
  bytes_at j len (put_bytes i bs l) = bytes_at j len l.
Proof.
  intros. apply list_eq. intros k. rewrite !lookup_bytes_at by lia.
  destruct (Z.ltb_spec (Z.of_nat k) len); [|reflexivity].
  apply lookup_put_bytes; lia.
Qed.

Lemma Forall_put_bytes (P : Z -> Prop) i bs l :
  Forall P bs -> Forall P l -> Forall P (put_bytes i bs l).
Proof.
  intros. unfold put_bytes. rewrite !Forall_app. auto using Forall_take, Forall_drop.
Qed.

Lemma little_endian_app bs bs' :
  Forall (fun b => 0 <= b < 2 ^ 8) bs -> Forall (fun b => 0 <= b < 2 ^ 8) bs' ->
  little_endian_to_Z 8 (bs ++ bs') =
  little_endian_to_Z 8 bs + 2 ^ (8 * Z.of_nat (length bs)) * little_endian_to_Z 8 bs'.
Proof.
  intros Hbs Hbs'. induction Hbs as [|b bs Hb Hbs IH]; [simpl; lia|].
  cbn [app little_endian_to_Z]. rewrite IH.
  pose proof (little_endian_to_Z_bound 8 bs ltac:(lia) Hbs).
  pose proof (little_endian_to_Z_bound 8 bs' ltac:(lia) Hbs').
  assert (Hlor : forall v, 0 <= v -> Z.lor b (v ≪ 8) = b + 2 ^ 8 * v).
  { intros v Hv. rewrite Z.shiftl_mul_pow2 by lia.
    pose proof (Z.add_lor_land b (v * 2 ^ 8)). enough (Z.land b (v * 2 ^ 8) = 0) by lia.
    apply Z.bits_inj_iff'. intros k Hk. rewrite Z.land_spec, Z.testbit_0_l.
    rewrite <- Z.shiftl_mul_pow2, Z.shiftl_spec by lia.
    destruct (Z.ltb_spec k 8).
    - rewrite (Z.testbit_neg_r v) by lia. apply andb_false_r.
    - replace (Z.testbit b k) with false; [reflexivity|].
      symmetry. destruct (Z.eq_dec b 0) as [->|]; [apply Z.testbit_0_l|].
      apply Z.bits_above_log2; [lia|]. apply Z.log2_lt_pow2; [lia|].
      assert (2 ^ 8 <= 2 ^ k) by (apply Z.pow_le_mono_r; lia). lia. }
  pose proof (Z.pow_pos_nonneg 2 (8 * Z.of_nat (length bs)) ltac:(lia) ltac:(lia)).
  rewrite !Hlor by nia. rewrite length_cons, Nat2Z.inj_succ.
  replace (8 * Z.succ (Z.of_nat (length bs))) with (8 + 8 * Z.of_nat (length bs)) by lia.
  rewrite Z.pow_add_r by lia. ring.
Qed.

Lemma little_endian_take k bs :
  Forall (fun b => 0 <= b < 2 ^ 8) bs -> 0 <= k <= Z.of_nat (length bs) ->
  little_endian_to_Z 8 (take (Z.to_nat k) bs) = little_endian_to_Z 8 bs mod 2 ^ (8 * k).
Proof.
  intros Hbs Hk. rewrite <- (take_drop (Z.to_nat k) bs) at 2.
  rewrite little_endian_app by auto using Forall_take, Forall_drop.
  rewrite length_take, Nat.min_l, Z2Nat.id by lia.
  rewrite Z.mul_comm, Z_mod_plus_full, Z.mod_small; [reflexivity|].
  pose proof (little_endian_to_Z_bound 8 (take (Z.to_nat k) bs) ltac:(lia) ltac:(auto using Forall_take)) as H.
  rewrite length_take, Nat.min_l, Z2Nat.id in H by lia. now rewrite Z.mul_comm.
Qed.

Lemma little_endian_repeat (n : nat) fill :
  fill = 0 \/ fill = 255 ->
  little_endian_to_Z 8 (replicate n fill) = if fill =? 0 then 0 else 2 ^ (8 * Z.of_nat n) - 1.
Proof.
  intros Hf. induction n as [|n IH]; [now destruct (fill =? 0)|].
  change (replicate (S n) fill) with ([fill] ++ replicate n fill).
  rewrite little_endian_app, IH.
  - cbn [little_endian_to_Z length]. rewrite Z.shiftl_0_l, Z.lor_0_r.
    replace (8 * Z.of_nat (S n)) with (8 + 8 * Z.of_nat n) by lia.
    rewrite Z.pow_add_r by lia. change (8 * Z.of_nat 1) with 8.
    destruct Hf as [-> | ->]; simpl (_ =? 0); lia.
  - repeat constructor; lia.
  - apply Forall_replicate. lia.
Qed.

(** ** The bytes implement words *)

Lemma value_range rf r : regfile_wf rf -> 0 <= value rf r < 2 ^ 64.
Proof.
  intros [_ _ Hb]. unfold value, word, bytes_at. destruct (ignores rf r); [lia|].
  pose proof (little_endian_to_Z_bound 8 (take (Z.to_nat 8) (drop (Z.to_nat (8 * r)) (int_reg_storage rf)))
    ltac:(lia) ltac:(auto using Forall_take, Forall_drop)) as H.
  split; [apply H|]. eapply Z.lt_le_trans; [apply H|]. apply Z.pow_le_mono_r; [lia|].
  rewrite length_take. lia.
Qed.

Lemma getIntReg_value T rf r :
  regfile_wf rf -> in_range rf r -> getIntReg T r rf = Ok (cast T (value rf r)).
Proof.
  intros [Hw Hs Hb] Hr. unfold getIntReg, value, word. rewrite Hw.
  rewrite (proj2 (Z.ltb_lt _ _)) by apply Hr.
  replace (sizeof T <=? 8) with true by (now destruct T). cbn [andb assert].
  destruct (ignores rf r); cbn [negb]; [now destruct T|]. apply (f_equal Ok).
  rewrite (Z.mul_comm r). set (bs := drop (Z.to_nat (8 * r)) (int_reg_storage rf)).
  assert (Hbs : Forall (fun b => 0 <= b < 2 ^ 8) bs) by (unfold bs; auto using Forall_drop).
  assert (Hlen : 8 <= Z.of_nat (length bs)).
  { unfold bs. rewrite length_drop. unfold in_range in Hr. lia. }
  unfold bytes_at. fold bs.
  rewrite !little_endian_take by (destruct T; simpl; auto; lia).
  change (8 * 8) with 64. rewrite cast_of_mod. destruct T; unfold cast, width, sizeof; simpl;
    try (apply signed_mod_arg); rewrite ?mod_of_mod by lia; reflexivity.
Qed.

Lemma extended_bytes T se val :
  little_endian_to_Z 8 (Z_to_little_endian (sizeof T) 8 val ++
    replicate (Z.to_nat (8 - sizeof T))
      (if se : bool then if Z.land val (Z.shiftl 1 (sizeof T * 8 - 1)) =? 0 then 0 else 255 else 0)) =
  extend T se val.
Proof.
  rewrite little_endian_app; [|apply Z_to_little_endian_bound; destruct T; simpl; lia|].
  2: { apply Forall_replicate. destruct se; [|lia]. destruct (_ =? 0); lia. }
  rewrite little_endian_to_Z_to_little_endian by (destruct T; simpl; lia).
  rewrite little_endian_repeat by (destruct se; [|lia]; destruct (_ =? 0); lia).
  rewrite length_Z_to_little_endian, Z2Nat.id by (destruct T; simpl; lia).
  rewrite (Z.mul_comm (sizeof T)). change (8 * sizeof T) with (width T).
  rewrite msb_signed by (destruct T; cbv; auto). unfold extend, signed.
  pose proof (Z.mod_pos_bound val (2 ^ width T) ltac:(destruct (width_cases T) as [-> | ->]; lia)) as Hv.
  destruct se; cbn [Z.eqb]; [|lia].
  destruct (Z.ltb_spec (val mod 2 ^ width T) (2 ^ (width T - 1))) as [Hlt|Hge]; cbn [Z.eqb].
  - rewrite Z.mul_0_r, Z.add_0_r. symmetry. apply u64_small.
    destruct (width_cases T) as [HT|HT]; rewrite HT in *; lia.
  - unfold u64.
    replace (val mod 2 ^ width T - 2 ^ width T) with (val mod 2 ^ width T - 2 ^ width T + 2 ^ 64 + (-1) * 2 ^ 64)
      by ring.
    rewrite Z_mod_plus_full, (Z.mod_small (_ - _ + _));
      destruct T; unfold width, sizeof in *; simpl in *; lia.
Qed.

Lemma extended_length T (bs : list Z) fill :
  length bs = Z.to_nat (sizeof T) -> Z.of_nat (length (bs ++ replicate (Z.to_nat (8 - sizeof T)) fill)) = 8.
Proof. intros H. rewrite length_app, H, length_replicate. destruct T; reflexivity. Qed.

(** Replacing the eight bytes of a register replaces its word and no other. *)
Lemma put_register_word rf r bs :
  regfile_wf rf -> in_range rf r -> Z.of_nat (length bs) = 8 -> Forall (fun b => 0 <= b < 2 ^ 8) bs ->
  let rf' := rf <| int_reg_storage ::= put_bytes (8 * r) bs |> in
  regfile_wf rf' /\ word rf' r = little_endian_to_Z 8 bs /\
  forall q, 0 <= q -> q <> r -> word rf' q = word rf q.
Proof.
  intros [Hw Hs Hb] Hr Hlen Hbs rf'. unfold in_range in Hr. destruct rf as [o ci cf wi wf si sf].
  cbn in *. unfold rf', update; cbn. split; [|split].
  - split; cbn; [exact Hw| |now apply Forall_put_bytes]. rewrite length_put_bytes by lia. exact Hs.
  - unfold word; cbn. pose proof (bytes_at_put (8 * r) bs si) as Hp. rewrite Hlen in Hp.
    now rewrite Hp by lia.
  - intros q Hq Hne. unfold word; cbn. rewrite bytes_at_put_other by lia. reflexivity.
Qed.

Lemma setIntReg_words T r v se rf :
  regfile_wf rf -> in_range rf r ->
  exists rf', setIntReg T r v se rf = Ok rf' /\ regfile_wf rf' /\
    if ignores rf r then rf' = rf
    else word rf' r = extend T se v /\ (forall q, 0 <= q -> q <> r -> word rf' q = word rf q) /\
      decoder_opts rf' = decoder_opts rf /\ count_int_regs rf' = count_int_regs rf /\ fp_reg_storage rf' = fp_reg_storage rf.
Proof.
  intros Hwf Hr. unfold setIntReg. rewrite (proj2 (Z.ltb_lt _ _)) by apply Hr. cbn [assert].
  destruct (ignores rf r) eqn:Hi; cbn [negb]; [now exists rf|].
  rewrite (wf_width _ Hwf). set (bs := _ ++ _).
  destruct (put_register_word rf r bs) as (Hwf' & Hr' & Hq); auto.
  { unfold bs. apply extended_length. apply Nat2Z.inj.
    rewrite length_Z_to_little_endian by (destruct T; simpl; lia). now destruct T. }
  { unfold bs. rewrite Forall_app. split; [apply Z_to_little_endian_bound; destruct T; simpl; lia|].
    apply Forall_replicate. destruct se; [|lia]. destruct (_ =? 0); lia. }
  eexists. split; [reflexivity|]. split; [exact Hwf'|]. rewrite Hr'. split_and!; [apply extended_bytes|exact Hq|now destruct rf..].
Qed.
Lemma setIntReg_value T r v se rf :
  regfile_wf rf -> in_range rf r ->
  exists rf', setIntReg T r v se rf = Ok rf' /\ regfile_wf rf' /\
    decoder_opts rf' = decoder_opts rf /\ count_int_regs rf' = count_int_regs rf /\
    (value rf' r = if ignores rf r then 0 else extend T se v) /\
    forall q, 0 <= q -> q <> r -> value rf' q = value rf q.
Proof.
  intros Hwf Hr. destruct (setIntReg_words T r v se rf Hwf Hr) as (rf' & E & Hwf' & Hs). exists rf'. unfold value.
  destruct (ignores rf r) eqn:Hi; [subst rf'; rewrite Hi; now auto|]. destruct Hs as (Hw & Hq & Ho & Hc & _).
  assert (Hig : forall q, ignores rf' q = ignores rf q) by (intros q; unfold ignores; now rewrite Ho).
  split_and!; auto; [now rewrite Hig, Hi|]. intros q H0 Hne. rewrite Hig, Hq by assumption. reflexivity.
Qed.

(** ** Properties *)

(** C29. The register file implements one 64-bit word for each register: reading at any
    format gives the word converted to it, or zero for the ignored register; writing
    replaces the stored word by the value extended as asked, leaves the bytes of every
    other register alone, and of a write to the ignored register nothing is stored. *)
Theorem reads_and_writes_refine_words T r v se rf :
  regfile_wf rf -> in_range rf r ->
  getIntReg T r rf = Ok (if ignores rf r then 0 else cast T (word rf r)) /\
  exists rf', setIntReg T r v se rf = Ok rf' /\ regfile_wf rf' /\
    (if ignores rf r then rf' = rf
     else word rf' r = extend T se v /\ (forall q, 0 <= q -> q <> r -> word rf' q = word rf q) /\
       decoder_opts rf' = decoder_opts rf /\ count_int_regs rf' = count_int_regs rf /\ fp_reg_storage rf' = fp_reg_storage rf).
Proof.
  intros Hwf Hr. split.
  - rewrite getIntReg_value by assumption. unfold value. destruct (ignores rf r); [now destruct T|reflexivity].
  - destruct (setIntReg_words T r v se rf Hwf Hr) as (rf' & Hset & Hwf' & H). exists rf'. split; [exact Hset|].
    split; [exact Hwf'|exact H].
Qed.

Lemma new_register_file_wf opts ni nf mode :
  0 <= ni -> let rf := new_VanadisRegisterFile opts ni nf mode in
  regfile_wf rf /\ forall r, value rf r = 0.
Proof.
  intros Hn rf. split.
  - split; cbn; [reflexivity|rewrite length_replicate; lia|apply Forall_replicate; lia].
  - intros r. unfold value, word, bytes_at. destruct (ignores rf r); [reflexivity|]. cbn.
    rewrite drop_replicate, take_replicate, little_endian_repeat by auto. reflexivity.
Qed.
