(* ===== verification/VanadisInst.v ===== *)
(** * VanadisInst: the micro-operations of the processor

    Models the instruction classes of [vanadis/inst/] that the RISC-V decoder makes:
    the fields every instruction has ([vinst.h], [vspeculate.h], [vfpinst.h]), the
    constructor of each class (which registers it names, what it converts its
    immediate to) and its [execute]. A class template is a constructor with the
    format it is instantiated with. Arithmetic on a signed format that overflows is
    undefined unless the program is built with [-fwrapv] ([wrapv]); an over-wide
    shift and the division of the least integer by -1 are undefined either way.
    Floating-point arithmetic itself is the host's, and an argument ([host]): the
    classes that use it are kept apart ([HostFP]). *)

From S2P Require Import Prelude VanadisRegs.

(** ** Enumerations *)

Inductive VanadisFunctionalUnitType :=
| INST_INT_ARITH | INST_INT_DIV | INST_FP_ARITH | INST_FP_DIV | INST_LOAD | INST_STORE
| INST_BRANCH | INST_SPECIAL | INST_SYSCALL | INST_FENCE | INST_NOOP | INST_FAULT.
#[export] Instance unit_type_eq_dec : EqDecision VanadisFunctionalUnitType.
Proof. solve_decision. Defined.

Inductive VanadisRegisterCompareType :=
| REG_COMPARE_EQ | REG_COMPARE_ULT | REG_COMPARE_LT | REG_COMPARE_LTE | REG_COMPARE_GT
| REG_COMPARE_GTE | REG_COMPARE_NEQ.

Inductive VanadisRegisterFormat :=
| VANADIS_FORMAT_FP32 | VANADIS_FORMAT_FP64 | VANADIS_FORMAT_INT32 | VANADIS_FORMAT_INT64.

Inductive VanadisDelaySlotRequirement :=
| VANADIS_CONDITIONAL_SINGLE_DELAY_SLOT | VANADIS_SINGLE_DELAY_SLOT | VANADIS_NO_DELAY_SLOT.

Inductive VanadisMemoryTransaction :=
| MEM_TRANSACTION_NONE | MEM_TRANSACTION_LLSC_LOAD | MEM_TRANSACTION_LLSC_STORE | MEM_TRANSACTION_LOCK.

Inductive VanadisLoadRegisterType := LOAD_INT_REGISTER | LOAD_FP_REGISTER.
Inductive VanadisStoreRegisterType := STORE_INT_REGISTER | STORE_FP_REGISTER.
Inductive VanadisFenceType := VANADIS_LOAD_FENCE | VANADIS_STORE_FENCE | VANADIS_LOAD_STORE_FENCE.
Inductive VanadisFPSignLogicOperation := SIGN_COPY | SIGN_XOR | SIGN_NEG.

(** The formats of the floating-point templates; [bits] are the integer formats they
    are instantiated with to move bit patterns. *)
Inductive fp_format := float | double | bits (T : format).
Definition sizeof_fp (F : fp_format) : Z :=
  match F with float => 4 | double => 8 | bits T => sizeof T end.

(** ** Instructions *)

(** The classes, with the members that are not registers. *)
Inductive operation :=
| AddImm (T : format) (imm_value : Z)
| Add (T : format)
| Sub (T : format) (trapOverflow : bool)
| And | Or | Xor
| AndImm (imm_value : Z) | OrImm (imm_value : Z) | XorImm (imm_value : Z)
| Multiply (T : format)
| MultiplyHigh (T1 T2 : format)
| Divide (T : format)
| Modulo (T : format)
| SetRegCompare (compare_type : VanadisRegisterCompareType) (T : format)
| SetRegCompareImm (compare_type : VanadisRegisterCompareType) (T : format) (imm_value : Z)
| SetRegister (T : format) (imm_value : Z)
| SetRegisterByCall (T : format)
| PCAddImm (T : format) (imm_value : Z)
| ShiftLeftLogical (F : VanadisRegisterFormat)
| ShiftLeftLogicalImm (T : format) (imm_value : Z)
| ShiftRightLogical (F : VanadisRegisterFormat)
| ShiftRightLogicalImm (F : VanadisRegisterFormat) (imm_value : Z)
| ShiftRightArithmetic (F : VanadisRegisterFormat)
| ShiftRightArithmeticImm (F : VanadisRegisterFormat) (imm_value : Z)
| ConditionalMoveImm (C T : format) (compare_op : VanadisRegisterCompareType) (imm : Z)
| BranchRegCompare (T : format) (compare_type : VanadisRegisterCompareType) (offset : Z)
| BranchRegCompareImm (T : format) (compare_type : VanadisRegisterCompareType) (imm_value offset : Z)
| JumpLink
| JumpRegLink (imm : Z)
| JumpReg
| Jump
| Load (offset load_width : Z) (signed_extend : bool) (memAccessType : VanadisMemoryTransaction)
    (regType : VanadisLoadRegisterType)
| Store (offset store_width : Z) (memAccessType : VanadisMemoryTransaction)
    (regType : VanadisStoreRegisterType)
| StoreConditional (offset store_width : Z) (regType : VanadisStoreRegisterType)
    (value_success value_failure : Z)
| Fence (fence : VanadisFenceType)
| SysCall
| Fault (msg : string)
| DecodeFault
| DecodeAlignmentFault
| FPFlagsSet
| FPFlagsRead (copy_round_mode shift_round_mode copy_fp_flags : bool)
| FPFlagsSetImm (imm_value : Z)
| FPSignLogic (F : fp_format) (sign_op : VanadisFPSignLogicOperation)
| GPR2FPBits (T : format)
| FP2GPRBits (T : format).

(** Evaluated by the host's floating-point arithmetic. *)
Inductive fp_operation :=
| FPAdd (F : fp_format) | FPSub (F : fp_format) | FPMultiply (F : fp_format) | FPDivide (F : fp_format)
| FPSquareRoot (F : fp_format) | FPMinimum (F : fp_format)
| FPConvert (F1 F2 : fp_format)
| GPR2FP (T : format) (F : fp_format)
| FP2GPR (F : fp_format) (T : format)
| FPSetRegCompare (compare_type : VanadisRegisterCompareType) (F : fp_format)
| FPFusedMultiplyAdd (F : fp_format)
| FPFusedMultiplySub (F : fp_format) (rs1_is_neg : bool).

Inductive instruction_class :=
| Op (o : operation)
| HostFP (f : fp_operation).

Inductive VanadisFPRoundingMode :=
| ROUND_NEAREST | ROUND_TO_ZERO | ROUND_DOWN | ROUND_UP | ROUND_NEAREST_TO_MAX.
Definition convertRoundingToInteger (mode : VanadisFPRoundingMode) : Z :=
  match mode with
  | ROUND_NEAREST => 0 | ROUND_TO_ZERO => 1 | ROUND_DOWN => 2 | ROUND_UP => 3
  | ROUND_NEAREST_TO_MAX => 4
  end.

Record VanadisFloatingPointFlags := mkFlags {
  f_invalidop : bool; f_divzero : bool; f_overflow : bool; f_underflow : bool; f_inexact : bool;
  round_mode : VanadisFPRoundingMode }.
#[export] Instance flags_eta : Eta VanadisFloatingPointFlags := fun f =>
  mkFlags (f_invalidop f) (f_divzero f) (f_overflow f) (f_underflow f) (f_inexact f) (round_mode f).
Definition no_flags : VanadisFloatingPointFlags := mkFlags false false false false false ROUND_NEAREST.

(** [VanadisFloatingPointFlags::update] and [set] of the flags of the pipeline. *)
Definition update_flags (pipeline new_flags : VanadisFloatingPointFlags) : VanadisFloatingPointFlags :=
  mkFlags (f_invalidop pipeline || f_invalidop new_flags) (f_divzero pipeline || f_divzero new_flags)
    (f_overflow pipeline || f_overflow new_flags) (f_underflow pipeline || f_underflow new_flags)
    (f_inexact pipeline || f_inexact new_flags) (round_mode new_flags).
Definition set_flags (pipeline new_flags : VanadisFloatingPointFlags) : VanadisFloatingPointFlags :=
  new_flags.

(** The members of [VanadisSpeculatedInstruction]. *)
Record speculation := mkSpeculation {
  delayType : VanadisDelaySlotRequirement;
  speculatedAddress : Z;
  takenAddress : Z;
  ins_width : Z }.
#[export] Instance speculation_eta : Eta speculation := fun s =>
  mkSpeculation (delayType s) (speculatedAddress s) (takenAddress s) (ins_width s).

Record VanadisInstruction := mkInstruction {
  ins_address : Z;
  hw_thread : Z;
  isa_options : VanadisDecoderOptions;
  isa_int_regs_in : list Z; isa_int_regs_out : list Z;
  isa_fp_regs_in : list Z; isa_fp_regs_out : list Z;
  phys_int_regs_in : list Z; phys_int_regs_out : list Z;
  phys_fp_regs_in : list Z; phys_fp_regs_out : list Z;
  trapError : bool; hasExecuted : bool; hasIssued : bool; enduOpGroup : bool;
  isFrontOfROB : bool; hasROBSlot : bool;
  speculated : option speculation;
  update_fp_flags : bool; set_fp_flags : bool; fpflags : VanadisFloatingPointFlags;
  class : instruction_class }.
#[export] Instance instruction_eta : Eta VanadisInstruction := fun i =>
  mkInstruction (ins_address i) (hw_thread i) (isa_options i) (isa_int_regs_in i) (isa_int_regs_out i)
    (isa_fp_regs_in i) (isa_fp_regs_out i) (phys_int_regs_in i) (phys_int_regs_out i)
    (phys_fp_regs_in i) (phys_fp_regs_out i) (trapError i) (hasExecuted i) (hasIssued i)
    (enduOpGroup i) (isFrontOfROB i) (hasROBSlot i) (speculated i) (update_fp_flags i)
    (set_fp_flags i) (fpflags i) (class i).

(** ** Constructors *)

Section constructors.
Variables (addr hw_thr : Z) (isa_opts : VanadisDecoderOptions).

(** [VanadisInstruction::VanadisInstruction]: the physical registers are not assigned yet. *)
Definition new_instruction (int_in int_out fp_in fp_out : list Z) (c : instruction_class) : VanadisInstruction :=
  let zeros := fmap (fun _ : Z => 0) in
  mkInstruction addr hw_thr isa_opts int_in int_out fp_in fp_out
    (zeros int_in) (zeros int_out) (zeros fp_in) (zeros fp_out)
    false false false false false false None false false no_flags c.

(** [VanadisSpeculatedInstruction::VanadisSpeculatedInstruction]: not taken until executed. *)
Definition new_speculated (ins_w : Z) (int_in int_out : list Z) (delayT : VanadisDelaySlotRequirement)
    (o : operation) : VanadisInstruction :=
  (new_instruction int_in int_out [] [] (Op o))
    <| speculated := Some (mkSpeculation delayT (u64 (addr + ins_w)) (2 ^ 64 - 1) ins_w) |>.

Definition VanadisAddImmInstruction (T : format) (dest src_1 immediate : Z) :=
  new_instruction [src_1] [dest] [] [] (Op (AddImm T (cast T immediate))).
Definition VanadisAddInstruction (T : format) (dest src_1 src_2 : Z) :=
  new_instruction [src_1; src_2] [dest] [] [] (Op (Add T)).
Definition VanadisSubInstruction (T : format) (dest src_1 src_2 : Z) (trapOverflw : bool) :=
  new_instruction [src_1; src_2] [dest] [] [] (Op (Sub T trapOverflw)).
Definition VanadisAndInstruction (dest src_1 src_2 : Z) :=
  new_instruction [src_1; src_2] [dest] [] [] (Op And).
Definition VanadisOrInstruction (dest src_1 src_2 : Z) :=
  new_instruction [src_1; src_2] [dest] [] [] (Op Or).
Definition VanadisXorInstruction (dest src_1 src_2 : Z) :=
  new_instruction [src_1; src_2] [dest] [] [] (Op Xor).
Definition VanadisAndImmInstruction (dest src_1 immediate : Z) :=
  new_instruction [src_1] [dest] [] [] (Op (AndImm (cast uint64_t immediate))).
Definition VanadisOrImmInstruction (dest src_1 immediate : Z) :=
  new_instruction [src_1] [dest] [] [] (Op (OrImm (cast uint64_t immediate))).
Definition VanadisXorImmInstruction (dest src_1 immediate : Z) :=
  new_instruction [src_1] [dest] [] [] (Op (XorImm (cast uint64_t immediate))).
Definition VanadisMultiplyInstruction (T : format) (dest src_1 src_2 : Z) :=
  new_instruction [src_1; src_2] [dest] [] [] (Op (Multiply T)).
Definition VanadisMultiplyHighInstruction (T1 T2 : format) (dest src_1 src_2 : Z) :=
  new_instruction [src_1; src_2] [dest] [] [] (Op (MultiplyHigh T1 T2)).
Definition VanadisDivideInstruction (T : format) (dest src_1 src_2 : Z) :=
  new_instruction [src_1; src_2] [dest] [] [] (Op (Divide T)).
Definition VanadisModuloInstruction (T : format) (dest src_1 src_2 : Z) :=
  new_instruction [src_1; src_2] [dest] [] [] (Op (Modulo T)).
Definition VanadisSetRegCompareInstruction (cmp : VanadisRegisterCompareType) (T : format) (dest src_1 src_2 : Z) :=
  new_instruction [src_1; src_2] [dest] [] [] (Op (SetRegCompare cmp T)).
Definition VanadisSetRegCompareImmInstruction (cmp : VanadisRegisterCompareType) (T : format) (dest src_1 imm : Z) :=
  new_instruction [src_1] [dest] [] [] (Op (SetRegCompareImm cmp T (cast T imm))).
Definition VanadisSetRegisterInstruction (T : format) (dest immediate : Z) :=
  new_instruction [] [dest] [] [] (Op (SetRegister T (cast T immediate))).
Definition VanadisSetRegisterByCallInstruction (T : format) (dest : Z) :=
  new_instruction [] [dest] [] [] (Op (SetRegisterByCall T)).
Definition VanadisPCAddImmInstruction (T : format) (dest immediate : Z) :=
  new_instruction [] [dest] [] [] (Op (PCAddImm T (cast T immediate))).

Definition VanadisShiftLeftLogicalInstruction (F : VanadisRegisterFormat) (dest src_1 src_2 : Z) :=
  new_instruction [src_1; src_2] [dest] [] [] (Op (ShiftLeftLogical F)).
Definition VanadisShiftLeftLogicalImmInstruction (T : format) (dest src_1 immediate : Z) :=
  new_instruction [src_1] [dest] [] [] (Op (ShiftLeftLogicalImm T (cast T immediate))).
Definition VanadisShiftRightLogicalInstruction (F : VanadisRegisterFormat) (dest src_1 src_2 : Z) :=
  new_instruction [src_1; src_2] [dest] [] [] (Op (ShiftRightLogical F)).
Definition VanadisShiftRightLogicalImmInstruction (F : VanadisRegisterFormat) (dest src_1 immediate : Z) :=
  new_instruction [src_1] [dest] [] [] (Op (ShiftRightLogicalImm F (cast uint64_t immediate))).
Definition VanadisShiftRightArithmeticInstruction (F : VanadisRegisterFormat) (dest src_1 src_2 : Z) :=
  new_instruction [src_1; src_2] [dest] [] [] (Op (ShiftRightArithmetic F)).
Definition VanadisShiftRightArithmeticImmInstruction (F : VanadisRegisterFormat) (dest src_1 immediate : Z) :=
  new_instruction [src_1] [dest] [] [] (Op (ShiftRightArithmeticImm F (cast int64_t immediate))).
Definition VanadisConditionalMoveImmInstruction (C T : format) (op : VanadisRegisterCompareType)
    (dest src_1 src_2 imm_value : Z) :=
  new_instruction [src_1; src_2] [dest] [] [] (Op (ConditionalMoveImm C T op (cast C imm_value))).

Definition VanadisBranchRegCompareInstruction (T : format) (cmp : VanadisRegisterCompareType)
    (ins_width src_1 src_2 offst : Z) (delayT : VanadisDelaySlotRequirement) :=
  new_speculated ins_width [src_1; src_2] [] delayT (BranchRegCompare T cmp (cast int64_t offst)).
Definition VanadisBranchRegCompareImmInstruction (T : format) (cmp : VanadisRegisterCompareType)
    (ins_width src_1 imm offst : Z) (delayT : VanadisDelaySlotRequirement) :=
  new_speculated ins_width [src_1] [] delayT (BranchRegCompareImm T cmp (cast T imm) (cast int64_t offst)).

Definition takes (pc : Z) (i : VanadisInstruction) : VanadisInstruction :=
  i <| speculated ::= fmap (fun s => s <| takenAddress := u64 pc |>) |>.
Definition VanadisJumpLinkInstruction (ins_width link_reg pc : Z) (delayT : VanadisDelaySlotRequirement) :=
  takes pc (new_speculated ins_width [] [link_reg] delayT JumpLink).
Definition VanadisJumpRegLinkInstruction (ins_width returnAddrReg jumpToAddrReg imm_jump : Z)
    (delayT : VanadisDelaySlotRequirement) :=
  new_speculated ins_width [jumpToAddrReg] [returnAddrReg] delayT (JumpRegLink (cast int64_t imm_jump)).
Definition VanadisJumpRegInstruction (ins_width jump_to_reg : Z) (delayT : VanadisDelaySlotRequirement) :=
  new_speculated ins_width [jump_to_reg] [] delayT JumpReg.
Definition VanadisJumpInstruction (ins_width pc : Z) (delayT : VanadisDelaySlotRequirement) :=
  takes pc (new_speculated ins_width [] [] delayT Jump).

Definition VanadisLoadInstruction (memAddrReg offst tgtReg load_bytes : Z) (extend_sign : bool)
    (accessT : VanadisMemoryTransaction) (regT : VanadisLoadRegisterType) :=
  let o := Op (Load (cast int64_t offst) load_bytes extend_sign accessT regT) in
  match regT with
  | LOAD_INT_REGISTER => new_instruction [memAddrReg] [tgtReg] [] [] o
  | LOAD_FP_REGISTER => new_instruction [memAddrReg] [] [] [tgtReg] o
  end.

(** A store that is not conditional never has an output register (the decoder makes
    no conditional store of a floating-point register). *)
Definition VanadisStoreInstruction (memoryAddr offst valueReg store_bytes : Z)
    (accessT : VanadisMemoryTransaction) (regT : VanadisStoreRegisterType) :=
  let o := Op (Store (cast int64_t offst) store_bytes accessT regT) in
  match regT with
  | STORE_INT_REGISTER =>
      new_instruction [memoryAddr; valueReg]
        (match accessT with MEM_TRANSACTION_LLSC_STORE => [valueReg] | _ => [] end) [] [] o
  | STORE_FP_REGISTER =>
      new_instruction [memoryAddr]
        (match accessT with MEM_TRANSACTION_LLSC_STORE => [0] | _ => [] end) [valueReg] [] o
  end.
Definition VanadisStoreConditionalInstruction (memAddrReg offset valueReg condResultReg store_width : Z)
    (reg_type : VanadisStoreRegisterType) (successValue failureValue : Z) :=
  let i := VanadisStoreInstruction memAddrReg offset valueReg store_width MEM_TRANSACTION_LLSC_STORE reg_type in
  i <| isa_int_regs_out := [condResultReg] |>
    <| class := Op (StoreConditional (cast int64_t offset) store_width reg_type
                      (cast int64_t successValue) (cast int64_t failureValue)) |>.

Definition VanadisFenceInstruction (fenceT : VanadisFenceType) := new_instruction [] [] [] [] (Op (Fence fenceT)).
(** A system call names every register, in and out. *)
Definition VanadisSysCallInstruction :=
  let ints := seqZ 0 (isa_int_reg_count isa_opts) in
  let fps := seqZ 0 (isa_fp_reg_count isa_opts) in
  new_instruction ints ints fps fps (Op SysCall).
Definition VanadisInstructionFault (msg : string) :=
  (new_instruction [] [] [] [] (Op (Fault msg))) <| trapError := true |>.
Definition VanadisInstructionDecodeFault := (new_instruction [] [] [] [] (Op DecodeFault)) <| trapError := true |>.
Definition VanadisInstructionDecodeAlignmentFault :=
  (new_instruction [] [] [] [] (Op DecodeAlignmentFault)) <| trapError := true |>.

(** Floating-point classes. A [double] takes a pair of 32-bit registers. *)
Definition fp_regs (F : fp_format) (r : Z) : list Z :=
  match fp_reg_mode isa_opts with
  | VANADIS_REGISTER_MODE_FP32 => if sizeof_fp F =? 8 then [r; r + 1] else [r]
  | VANADIS_REGISTER_MODE_FP64 => [r]
  end.
Definition VanadisFPFlagsSetInstruction (src_1 : Z) := new_instruction [src_1] [] [] [] (Op FPFlagsSet).
Definition VanadisFPFlagsReadInstruction (copy_round shift_round copy_flags : bool) (dest : Z) :=
  new_instruction [] [dest] [] [] (Op (FPFlagsRead copy_round shift_round copy_flags)).
Definition VanadisFPFlagsSetImmInstruction (imm : Z) := new_instruction [] [] [] [] (Op (FPFlagsSetImm (cast uint64_t imm))).
Definition fp_binary (F : fp_format) (c : instruction_class) (dest src_1 src_2 : Z) :=
  new_instruction [] [] (fp_regs F src_1 ++ fp_regs F src_2) (fp_regs F dest) c.
Definition VanadisFPAddInstruction F := fp_binary F (HostFP (FPAdd F)).
Definition VanadisFPSubInstruction F := fp_binary F (HostFP (FPSub F)).
Definition VanadisFPMultiplyInstruction F := fp_binary F (HostFP (FPMultiply F)).
Definition VanadisFPDivideInstruction F := fp_binary F (HostFP (FPDivide F)).
Definition VanadisFPMinimumInstruction F := fp_binary F (HostFP (FPMinimum F)).
Definition VanadisFPSignLogicInstruction F (sign_op : VanadisFPSignLogicOperation) :=
  fp_binary F (Op (FPSignLogic F sign_op)).
Definition VanadisFPSquareRootInstruction F (dest src_1 : Z) :=
  new_instruction [] [] (fp_regs F src_1) (fp_regs F dest) (HostFP (FPSquareRoot F)).
Definition VanadisFPConvertInstruction F1 F2 (fp_dest fp_src : Z) :=
  new_instruction [] [] (fp_regs F1 fp_src) (fp_regs F2 fp_dest) (HostFP (FPConvert F1 F2)).
Definition VanadisGPR2FPInstruction (T : format) F (fp_dest int_src : Z) :=
  new_instruction [int_src] [] [] (fp_regs F fp_dest)
    match F with bits _ => Op (GPR2FPBits T) | _ => HostFP (GPR2FP T F) end.
Definition VanadisFP2GPRInstruction F (T : format) (int_dest fp_src : Z) :=
  new_instruction [] [int_dest] (fp_regs F fp_src) []
    match F with bits _ => Op (FP2GPRBits T) | _ => HostFP (FP2GPR F T) end.
Definition VanadisFPSetRegCompareInstruction (cmp : VanadisRegisterCompareType) F (dest src_1 src_2 : Z) :=
  new_instruction [] [dest] (fp_regs F src_1 ++ fp_regs F src_2) [] (HostFP (FPSetRegCompare cmp F)).
Definition fp_fused (F : fp_format) (f : fp_operation) (dest src_1 src_2 src_3 : Z) :=
  new_instruction [] [] (fp_regs F src_1 ++ fp_regs F src_2 ++ fp_regs F src_3) (fp_regs F dest) (HostFP f).
Definition VanadisFPFusedMultiplyAddInstruction F := fp_fused F (FPFusedMultiplyAdd F).
Definition VanadisFPFusedMultiplySubInstruction F (rs1_is_neg : bool) := fp_fused F (FPFusedMultiplySub F rs1_is_neg).
End constructors.

(** [clone]: a copy that has no place in the reorder buffer; a fault is made anew, and
    loses its message. *)
Definition clone (i : VanadisInstruction) : VanadisInstruction :=
  match class i with
  | Op (Fault _) => VanadisInstructionFault (ins_address i) (hw_thread i) (isa_options i) EmptyString
  | Op DecodeFault => VanadisInstructionDecodeFault (ins_address i) (hw_thread i) (isa_options i)
  | Op DecodeAlignmentFault => VanadisInstructionDecodeAlignmentFault (ins_address i) (hw_thread i) (isa_options i)
  | _ => i <| isFrontOfROB := false |> <| hasROBSlot := false |>
  end.

(** ** Execution *)

(** The instruction being executed and the register file of its thread. *)
Record exec := mkExec { ins : VanadisInstruction; regFile : VanadisRegisterFile }.
#[export] Instance exec_eta : Eta exec := fun s => mkExec (ins s) (regFile s).

Definition getInt (T : format) (k : Z) : M exec Z :=
  getsR (fun s => r ← at_index (phys_int_regs_in (ins s)) k; getIntReg T r (regFile s)).
Definition modify_regs (f : exec -> res VanadisRegisterFile) : M exec unit := fun s =>
  match f s with Ok rf => Ok (tt, s <| regFile := rf |>) | Err e => Err e end.
Definition setIntAs (T : format) (k v : Z) (sign_extend : bool) : M exec unit :=
  modify_regs (fun s => r ← at_index (phys_int_regs_out (ins s)) k; setIntReg T r v sign_extend (regFile s)).
Definition setInt (T : format) (k v : Z) : M exec unit := setIntAs T k v true.
Definition getFP (size k : Z) : M exec Z :=
  getsR (fun s => r ← at_index (phys_fp_regs_in (ins s)) k; getFPReg size r (regFile s)).
Definition setFP (size k v : Z) : M exec unit :=
  modify_regs (fun s => r ← at_index (phys_fp_regs_out (ins s)) k; setFPReg size r v (regFile s)).

Definition flagError : M exec unit := modify (fun s => s <| ins ::= fun i => i <| trapError := true |> |>).
Definition markExecuted : M exec unit := modify (fun s => s <| ins ::= fun i => i <| hasExecuted := true |> |>).
Definition setTaken (pc : Z) : M exec unit :=
  modify (fun s => s <| ins ::= fun i => i <| speculated ::= fmap (fun b => b <| takenAddress := u64 pc |>) |> |>).

Definition getSpeculation : M exec speculation :=
  getsR (fun s => of_option (Undefined "not a speculated instruction") (speculated (ins s))).
Definition calculateStandardNotTakenAddress : M exec Z :=
  s ← getSpeculation;
  addr ← gets (fun e => ins_address (ins e));
  mret (u64 (addr + match delayType s with
                    | VANADIS_CONDITIONAL_SINGLE_DELAY_SLOT | VANADIS_SINGLE_DELAY_SLOT => ins_width s * 2
                    | VANADIS_NO_DELAY_SLOT => ins_width s
                    end)).

(** [registerCompareValues]: whether the comparison holds; the unsigned comparison
    type is not one it knows. *)
Definition registerCompareValues (compareType : VanadisRegisterCompareType) (left_value right_value : Z) :
    M exec bool :=
  match compareType with
  | REG_COMPARE_EQ => mret (left_value =? right_value)
  | REG_COMPARE_NEQ => mret (negb (left_value =? right_value))
  | REG_COMPARE_LT => mret (left_value <? right_value)
  | REG_COMPARE_LTE => mret (left_value <=? right_value)
  | REG_COMPARE_GT => mret (right_value <? left_value)
  | REG_COMPARE_GTE => mret (right_value <=? left_value)
  | REG_COMPARE_ULT => flagError ;; mret false
  end.
Definition registerCompare (compareType : VanadisRegisterCompareType) (T : format) (left right : Z) : M exec bool :=
  left_value ← getInt T left; right_value ← getInt T right;
  registerCompareValues compareType left_value right_value.
Definition registerCompareImm (compareType : VanadisRegisterCompareType) (T : format) (left right_value : Z) :
    M exec bool :=
  left_value ← getInt T left; registerCompareValues compareType left_value right_value.

Section execute.
Variables (wrapv : bool) (cycle_count : Z).

Definition in_format (T : format) (z : Z) : bool :=
  if is_signed T then (- 2 ^ (width T - 1) <=? z) && (z <? 2 ^ (width T - 1)) else true.

(** The value of a sum, difference or product of two operands of format [T]. *)
Definition arith (T : format) (z : Z) : M exec Z :=
  if in_format T z || wrapv then mret (cast T z) else undefined "signed overflow".

Definition shift_left (T : format) (x n : Z) : M exec Z :=
  if (0 <=? n) && (n <? width T) then mret (cast T (Z.shiftl x n)) else undefined "shift too wide".
Definition shift_right (T : format) (x n : Z) : M exec Z :=
  if (0 <=? n) && (n <? width T) then mret (Z.shiftr x n) else undefined "shift too wide".
Definition quotient (T : format) (op : Z -> Z -> Z) (a b : Z) : M exec Z :=
  if b =? 0 then undefined "division by zero"
  else if in_format T (Z.quot a b) then mret (op a b) else undefined "quotient overflows".

Definition assert_positive (z : Z) : M exec unit := if 0 <? z then skip else fatal "assert".

Definition exec_AddImm (T : format) (imm_value : Z) : M exec unit :=
  src_1 ← getInt T 0; result ← arith T (src_1 + imm_value); setInt T 0 result ;; markExecuted.
Definition exec_Add (T : format) : M exec unit :=
  src_1 ← getInt T 0; src_2 ← getInt T 1; result ← arith T (src_1 + src_2); setInt T 0 result ;; markExecuted.
Definition exec_Sub (T : format) : M exec unit :=
  src_1 ← getInt T 0; src_2 ← getInt T 1; result ← arith T (src_1 - src_2); setInt T 0 result ;; markExecuted.
Definition exec_And : M exec unit :=
  src_1 ← getInt uint64_t 0; src_2 ← getInt uint64_t 1; setInt uint64_t 0 (Z.land src_1 src_2) ;; markExecuted.
Definition exec_Or : M exec unit :=
  src_1 ← getInt uint64_t 0; src_2 ← getInt uint64_t 1; setInt uint64_t 0 (Z.lor src_1 src_2) ;; markExecuted.
Definition exec_Xor : M exec unit :=
  src_1 ← getInt uint64_t 0; src_2 ← getInt uint64_t 1; setInt uint64_t 0 (Z.lxor src_1 src_2) ;; markExecuted.
Definition exec_AndImm (imm_value : Z) : M exec unit :=
  src_1 ← getInt uint64_t 0; setInt uint64_t 0 (Z.land src_1 imm_value) ;; markExecuted.
Definition exec_OrImm (imm_value : Z) : M exec unit :=
  src_1 ← getInt uint64_t 0; setInt uint64_t 0 (Z.lor src_1 imm_value) ;; markExecuted.
Definition exec_XorImm (imm_value : Z) : M exec unit :=
  src_1 ← getInt uint64_t 0; setInt uint64_t 0 (Z.lxor src_1 imm_value) ;; markExecuted.
Definition exec_Multiply (T : format) : M exec unit :=
  src_1 ← getInt T 0; src_2 ← getInt T 1; result ← arith T (src_1 * src_2); setInt T 0 result ;; markExecuted.

(** The products are of 128-bit integers; of a signed and an unsigned operand, unsigned. *)
Definition exec_MultiplyHigh (T1 T2 : format) : M exec unit :=
  src_1 ← getInt T1 0; src_2 ← getInt T2 1;
  match is_signed T1, is_signed T2 with
  | true, true => setInt uint64_t 0 (u64 (Z.shiftr (src_1 * src_2) (8 * sizeof T1)))
  | false, false | true, false =>
      setInt uint64_t 0 (u64 (Z.shiftr ((src_1 * src_2) mod 2 ^ 128) (8 * sizeof T1)))
  | false, true => fatal "assert"
  end ;; markExecuted.

Definition exec_Divide (T : format) : M exec unit :=
  src_1 ← getInt T 0; src_2 ← getInt T 1;
  (if 0 =? src_2 then flagError
   else result ← quotient T Z.quot src_1 src_2; setInt T 0 result) ;; markExecuted.

(** The operands are read at 64 bits and converted; the result of an unsigned
    remainder is not sign-extended. *)
Definition exec_Modulo (T : format) : M exec unit :=
  a ← getInt int64_t 0; b ← getInt int64_t 1;
  let src_1 := cast T a in let src_2 := cast T b in
  (if 0 =? src_2 then setIntAs T 0 src_1 (is_signed T)
   else result ← quotient T Z.rem src_1 src_2; setIntAs T 0 result (is_signed T)) ;; markExecuted.

Definition exec_SetRegCompare (cmp : VanadisRegisterCompareType) (T : format) : M exec unit :=
  compare_result ← registerCompare cmp T 0 1; setInt uint64_t 0 (if compare_result : bool then 1 else 0) ;; markExecuted.
Definition exec_SetRegCompareImm (cmp : VanadisRegisterCompareType) (T : format) (imm_value : Z) : M exec unit :=
  compare_result ← registerCompareImm cmp T 0 imm_value;
  setInt uint64_t 0 (if compare_result : bool then 1 else 0) ;; markExecuted.
Definition exec_SetRegister (T : format) (imm_value : Z) : M exec unit := setInt T 0 imm_value ;; markExecuted.
Definition exec_SetRegisterByCall (T : format) : M exec unit := setInt T 0 (cast T cycle_count) ;; markExecuted.
Definition exec_PCAddImm (T : format) (imm_value : Z) : M exec unit :=
  addr ← gets (fun s => ins_address (ins s));
  sum ← arith T (cast T addr + imm_value);
  setInt T 0 (Z.land sum (2 ^ 32 - 1)) ;; markExecuted.

(** A shift by a register whose value is zero copies 32 bits of its source. *)
Definition exec_ShiftLeftLogical (F : VanadisRegisterFormat) : M exec unit :=
  match F with
  | VANADIS_FORMAT_INT64 =>
      src_1 ← getInt uint64_t 0; src_2 ← getInt uint64_t 1;
      if 0 =? src_2 then src_1_32 ← getInt uint32_t 0; setInt uint32_t 0 src_1_32
      else result ← shift_left uint64_t src_1 src_2; setInt uint64_t 0 result
  | VANADIS_FORMAT_INT32 =>
      src_1 ← getInt uint32_t 0; b ← getInt uint32_t 1;
      let src_2 := Z.land b 31 in
      if 0 =? src_2 then setInt uint32_t 0 src_1
      else result ← shift_left uint32_t src_1 src_2; setInt uint32_t 0 result
  | _ => flagError
  end ;; markExecuted.
Definition exec_ShiftLeftLogicalImm (T : format) (imm_value : Z) : M exec unit :=
  assert_positive imm_value ;;
  src_1 ← getInt T 0; result ← shift_left T src_1 imm_value; setInt T 0 result ;; markExecuted.
Definition exec_ShiftRightLogical (F : VanadisRegisterFormat) : M exec unit :=
  match F with
  | VANADIS_FORMAT_INT64 =>
      src_1 ← getInt uint64_t 0; src_2 ← getInt uint64_t 1;
      if 0 =? src_2 then src_1_32 ← getInt uint32_t 0; setInt uint32_t 0 src_1_32
      else result ← shift_right uint64_t src_1 src_2; setInt uint64_t 0 result
  | VANADIS_FORMAT_INT32 =>
      src_1 ← getInt uint32_t 0; b ← getInt uint32_t 1;
      let src_2 := Z.land b 31 in
      if 0 =? src_2 then setInt uint32_t 0 src_1
      else result ← shift_right uint32_t src_1 src_2; setInt uint32_t 0 result
  | _ => flagError
  end ;; markExecuted.
Definition exec_ShiftRightLogicalImm (F : VanadisRegisterFormat) (imm_value : Z) : M exec unit :=
  assert_positive imm_value ;;
  match F with
  | VANADIS_FORMAT_INT64 =>
      src_1 ← getInt uint64_t 0; result ← shift_right uint64_t src_1 imm_value; setInt uint64_t 0 result
  | VANADIS_FORMAT_INT32 =>
      src_1 ← getInt uint32_t 0; result ← shift_right uint32_t src_1 (cast uint32_t imm_value); setInt uint32_t 0 result
  | _ => flagError
  end ;; markExecuted.
Definition exec_ShiftRightArithmetic (F : VanadisRegisterFormat) : M exec unit :=
  match F with
  | VANADIS_FORMAT_INT64 =>
      src_1 ← getInt int64_t 0; src_2 ← getInt int64_t 1;
      if 0 =? src_2 then src_1_32 ← getInt int32_t 0; setInt int32_t 0 src_1_32
      else result ← shift_right int64_t src_1 src_2; setInt int64_t 0 result
  | VANADIS_FORMAT_INT32 =>
      src_1 ← getInt int32_t 0; b ← getInt uint32_t 1;
      let src_2 := Z.land b 31 in
      if 0 =? src_2 then setInt int32_t 0 src_1
      else result ← shift_right int32_t src_1 src_2; setInt int32_t 0 result
  | _ => flagError
  end ;; markExecuted.
Definition exec_ShiftRightArithmeticImm (F : VanadisRegisterFormat) (imm_value : Z) : M exec unit :=
  (if 0 <? imm_value then
     match F with
     | VANADIS_FORMAT_INT64 =>
         src_1 ← getInt int64_t 0; result ← shift_right int64_t src_1 imm_value; setInt int64_t 0 result
     | VANADIS_FORMAT_INT32 =>
         src_1 ← getInt int32_t 0; result ← shift_right int32_t src_1 (cast int32_t imm_value); setInt int32_t 0 result
     | _ => flagError
     end
   else flagError) ;; markExecuted.
Definition exec_ConditionalMoveImm (C T : format) (op : VanadisRegisterCompareType) (imm : Z) : M exec unit :=
  src_1 ← getInt T 0; compare_result ← registerCompareImm op C 1 imm;
  when compare_result (setInt T 0 src_1) ;; markExecuted.

(** Branches and jumps: the address execution goes on at. *)
Definition branch_to (compare_result : bool) (offset : Z) : M exec unit :=
  (if compare_result then
     addr ← gets (fun s => ins_address (ins s)); target ← arith int64_t (cast int64_t addr + offset); setTaken target
   else pc ← calculateStandardNotTakenAddress; setTaken pc) ;; markExecuted.
Definition exec_BranchRegCompare (T : format) (cmp : VanadisRegisterCompareType) (offset : Z) : M exec unit :=
  compare_result ← registerCompare cmp T 0 1; branch_to compare_result offset.
Definition exec_BranchRegCompareImm (T : format) (cmp : VanadisRegisterCompareType) (imm_value offset : Z) :
    M exec unit :=
  compare_result ← registerCompareImm cmp T 0 imm_value; branch_to compare_result offset.
Definition exec_JumpLink : M exec unit :=
  link_value ← calculateStandardNotTakenAddress; setInt uint64_t 0 link_value ;; markExecuted.

(** The target is stored in the register the jump reads, and read back from there. *)
Definition exec_JumpRegLink (imm : Z) : M exec unit :=
  a ← getInt int64_t 0; jump ← arith int64_t (a + imm);
  let jump_to := cast uint64_t jump in
  link_value ← calculateStandardNotTakenAddress;
  setInt uint64_t 0 link_value ;;
  modify_regs (fun s => r ← at_index (phys_int_regs_in (ins s)) 0; setIntReg uint64_t r jump_to true (regFile s)) ;;
  taken ← getInt uint64_t 0;
  setTaken taken ;; markExecuted.
Definition exec_JumpReg : M exec unit := taken ← getInt uint64_t 0; setTaken taken ;; markExecuted.

(** Loads and stores are performed by the load-store queue, which asks them for the
    address. *)
Definition computeLoadAddress (offset load_width : Z) : M exec (Z * Z) :=
  tmp ← getInt int64_t 0; a ← arith int64_t (tmp + offset); mret (cast uint64_t a, load_width).
Definition computeStoreAddress (offset store_width : Z) : M exec (Z * Z) :=
  tmp ← getInt int64_t 0; a ← arith int64_t (tmp + offset); mret (cast uint64_t a, store_width).
Definition exec_Store (memAccessType : VanadisMemoryTransaction) : M exec unit :=
  match memAccessType with MEM_TRANSACTION_LLSC_STORE => skip | _ => markExecuted end.
Definition exec_SysCall : M exec unit :=
  gets (fun s => isa_syscall_code_reg (isa_options (ins s))) ≫= (fun r => getsR (fun s => getIntReg uint64_t r (regFile s))) ;;
  markExecuted.

(** The flags of the instruction itself, which [updateFPFlags] merges into those of
    the pipeline when it retires. *)
Definition when_front (m : M exec unit) : M exec unit :=
  front ← gets (fun s => isFrontOfROB (ins s)); when front m.
Definition flags_of_mask (mask : Z) (f : VanadisFloatingPointFlags) : VanadisFloatingPointFlags :=
  mkFlags (f_invalidop f || Z.testbit mask 4) (f_divzero f || Z.testbit mask 3) (f_overflow f || Z.testbit mask 2)
    (f_underflow f || Z.testbit mask 1) (f_inexact f || Z.testbit mask 0) (round_mode f).
Definition set_from_mask (mask : Z) : M exec unit :=
  modify (fun s => s <| ins ::= fun i => i <| fpflags ::= flags_of_mask mask |> <| set_fp_flags := true |> |>).
Definition exec_FPFlagsSet : M exec unit :=
  when_front (mask_in ← getInt uint64_t 0; set_from_mask mask_in ;; markExecuted).
Definition exec_FPFlagsSetImm (imm_value : Z) : M exec unit :=
  when_front (set_from_mask imm_value ;; markExecuted).
Definition exec_FPFlagsRead (copy_round_mode shift_round_mode copy_fp_flags : bool) : M exec unit :=
  when_front (
    f ← gets (fun s => fpflags (ins s));
    let round := if copy_round_mode then convertRoundingToInteger (round_mode f) else 0 in
    let round := if copy_round_mode && shift_round_mode then Z.shiftl round 5 else round in
    let flag (b : bool) (bit : Z) := if b then bit else 0 in
    let flags := Z.lor (flag (f_inexact f) 1) (Z.lor (flag (f_underflow f) 2) (Z.lor (flag (f_overflow f) 4)
                   (Z.lor (flag (f_divzero f) 8) (flag (f_invalidop f) 16)))) in
    setInt uint64_t 0 (if copy_fp_flags then Z.lor round flags else round) ;; markExecuted).

(** Bit patterns of the two IEEE formats: sign, and the classes the flags look for. *)
Definition sign_bit (size : Z) : Z := 2 ^ (8 * size - 1).
Definition negative (size b : Z) : bool := Z.testbit b (8 * size - 1).
Definition fraction_bits (size : Z) : Z := if size =? 8 then 52 else 23.
Definition fraction (size b : Z) : Z := b mod 2 ^ fraction_bits size.
Definition exponent (size b : Z) : Z := (b / 2 ^ fraction_bits size) mod 2 ^ (8 * size - 1 - fraction_bits size).
Definition special (size b : Z) : bool := exponent size b =? 2 ^ (8 * size - 1 - fraction_bits size) - 1.
Definition infinite (size b : Z) : bool := special size b && (fraction size b =? 0).
Definition not_a_number (size b : Z) : bool := special size b && negb (fraction size b =? 0).
Definition subnormal (size b : Z) : bool := (exponent size b =? 0) && negb (fraction size b =? 0).
Definition zero (size b : Z) : bool := (exponent size b =? 0) && (fraction size b =? 0).
Definition negate (size b : Z) : Z := Z.lxor b (sign_bit size).
Definition copysign (size a b : Z) : Z := if Bool.eqb (negative size a) (negative size b) then a else negate size a.

Definition on_fpflags (f : VanadisFloatingPointFlags -> VanadisFloatingPointFlags) : M exec unit :=
  modify (fun s => s <| ins ::= fun i => i <| fpflags ::= f |> <| update_fp_flags := true |> |>).
Definition performFlagChecks (size b : Z) : M exec unit :=
  when (infinite size b) (on_fpflags (fun f => f <| f_overflow := true |>)) ;;
  when (subnormal size b) (on_fpflags (fun f => f <| f_underflow := true |>)).
(** An integer is neither infinite nor subnormal. *)
Definition check_format (F : fp_format) (b : Z) : M exec unit :=
  match F with bits _ => skip | _ => performFlagChecks (sizeof_fp F) b end.

(** An operand of eight bytes takes a pair of the registers when they have four. *)
Definition paired (size : Z) : M exec bool :=
  gets (fun s => (size =? 8) &&
    match fp_reg_mode (isa_options (ins s)) with VANADIS_REGISTER_MODE_FP32 => true | VANADIS_REGISTER_MODE_FP64 => false end).
Definition combineFromRegisters (k : Z) : M exec Z :=
  left_32 ← getFP 4 k; right_32 ← getFP 4 (k + 1); mret (left_32 + 2 ^ 32 * right_32).
Definition fractureToRegisters (v : Z) : M exec unit := setFP 4 0 (v mod 2 ^ 32) ;; setFP 4 1 (v / 2 ^ 32).
Definition readFP (size k : Z) : M exec Z :=
  p ← paired size; if p : bool then combineFromRegisters (2 * k) else getFP size k.
Definition writeFP (size v : Z) : M exec unit :=
  p ← paired size; if p : bool then fractureToRegisters v else setFP size 0 v.

Definition exec_FPSignLogic (F : fp_format) (sign_op : VanadisFPSignLogicOperation) : M exec unit :=
  let n := sizeof_fp F in
  src_1 ← readFP n 0; src_2 ← readFP n 1;
  let result :=
    match sign_op with
    | SIGN_COPY => copysign n src_1 src_2
    | SIGN_XOR => if negative n src_2 then (if negative n src_1 then negate n src_1 else src_1)
                  else (if negative n src_1 then src_1 else negate n src_1)
    | SIGN_NEG => negate n (copysign n src_1 src_2)
    end in
  performFlagChecks n result ;; writeFP n result ;; markExecuted.

(** Moves of a bit pattern between the files. *)
Definition exec_GPR2FPBits (T : format) : M exec unit :=
  v ← getInt T 0; writeFP (sizeof T) v ;; markExecuted.
Definition exec_FP2GPRBits (T : format) : M exec unit :=
  v ← readFP (sizeof T) 0; setInt T 0 (cast T v) ;; markExecuted.

(** The host's arithmetic, on bit patterns; a comparison that holds is not 0. *)
Variable host : fp_operation -> list Z -> Z.

Definition exec_FPBinary (F : fp_format) (f : fp_operation) : M exec unit :=
  let n := sizeof_fp F in
  src_1 ← readFP n 0; src_2 ← readFP n 1;
  let result := host f [src_1; src_2] in
  check_format F result ;; writeFP n result ;; markExecuted.
Definition performDivFlagChecks (size b : Z) : M exec unit :=
  when (zero size b) (on_fpflags (fun f => f <| f_divzero := true |>)).
Definition exec_FPDivide (F : fp_format) : M exec unit :=
  let n := sizeof_fp F in
  src_1 ← readFP n 0; src_2 ← readFP n 1;
  let result := host (FPDivide F) [src_1; src_2] in
  performDivFlagChecks n src_2 ;; check_format F result ;; writeFP n result ;; markExecuted.
Definition exec_FPSquareRoot (F : fp_format) : M exec unit :=
  let n := sizeof_fp F in
  src_1 ← readFP n 0;
  let result := host (FPSquareRoot F) [src_1] in
  check_format F result ;; writeFP n result ;; markExecuted.
Definition exec_FPConvert (F1 F2 : fp_format) : M exec unit :=
  fp_v ← readFP (sizeof_fp F1) 0;
  let result := host (FPConvert F1 F2) [fp_v] in
  writeFP (sizeof_fp F2) result ;; check_format F2 result ;; markExecuted.
Definition exec_GPR2FP (T : format) (F : fp_format) : M exec unit :=
  v ← getInt T 0;
  let v_fp := host (GPR2FP T F) [v] in
  writeFP (sizeof_fp F) v_fp ;;
  r ← getsR (fun s => at_index (isa_int_regs_in (ins s)) 0);
  i ← gets (fun s => r =? reg_ignore_writes (isa_options (ins s)));
  when (negb i) (check_format F v_fp) ;; markExecuted.
Definition exec_FP2GPR (F : fp_format) (T : format) : M exec unit :=
  fp_v ← readFP (sizeof_fp F) 0;
  setInt T 0 (cast T (host (FP2GPR F T) [fp_v])) ;; check_format F fp_v ;; markExecuted.
Definition exec_FPSetRegCompare (cmp : VanadisRegisterCompareType) (F : fp_format) : M exec unit :=
  let n := sizeof_fp F in
  left_value ← readFP n 0; right_value ← readFP n 1;
  check_format F left_value ;; check_format F right_value ;;
  match cmp with REG_COMPARE_ULT => fatal "Unknown compare type." | _ => skip end ;;
  setInt uint64_t 0 (if host (FPSetRegCompare cmp F) [left_value; right_value] =? 0 then 0 else 1) ;; markExecuted.

(** The third operand is compared with the numbers of the classes [FP_NAN] and
    [FP_INFINITE], 0 and 1. *)
Definition equals_class_number (size b : Z) : bool := zero size b || (b =? (if size =? 8 then 0x3ff0000000000000 else 0x3f800000)).
Definition performFusedFlagChecks (size src_1 src_2 src_3 : Z) : M exec unit :=
  let odd b := zero size b || infinite size b || not_a_number size b in
  when (odd src_1 || odd src_2 || equals_class_number size src_3) (on_fpflags (fun f => f <| f_invalidop := true |>)).
Definition exec_FPFused (F : fp_format) (f : fp_operation) (read_first : M exec Z) : M exec unit :=
  let n := sizeof_fp F in
  src_1 ← read_first; src_2 ← readFP n 1; src_3 ← readFP n 2;
  let result := host f [src_1; src_2; src_3] in
  performFusedFlagChecks n src_1 src_2 src_3 ;; check_format F result ;; writeFP n result ;; markExecuted.

(** The fused subtraction never combines the pair of its first operand. *)
Definition execute_host (f : fp_operation) : M exec unit :=
  match f with
  | FPAdd F | FPSub F | FPMultiply F | FPMinimum F => exec_FPBinary F f
  | FPDivide F => exec_FPDivide F
  | FPSquareRoot F => exec_FPSquareRoot F
  | FPConvert F1 F2 => exec_FPConvert F1 F2
  | GPR2FP T F => exec_GPR2FP T F
  | FP2GPR F T => exec_FP2GPR F T
  | FPSetRegCompare cmp F => exec_FPSetRegCompare cmp F
  | FPFusedMultiplyAdd F => exec_FPFused F f (readFP (sizeof_fp F) 0)
  | FPFusedMultiplySub F _ => exec_FPFused F f (getFP (sizeof_fp F) 0)
  end.

(** [VanadisInstruction::execute], by class. *)
Definition execute (o : operation) : M exec unit :=
  match o with
  | AddImm T imm => exec_AddImm T imm | Add T => exec_Add T | Sub T _ => exec_Sub T
  | And => exec_And | Or => exec_Or | Xor => exec_Xor
  | AndImm imm => exec_AndImm imm | OrImm imm => exec_OrImm imm | XorImm imm => exec_XorImm imm
  | Multiply T => exec_Multiply T | MultiplyHigh T1 T2 => exec_MultiplyHigh T1 T2
  | Divide T => exec_Divide T | Modulo T => exec_Modulo T
  | SetRegCompare cmp T => exec_SetRegCompare cmp T
  | SetRegCompareImm cmp T imm => exec_SetRegCompareImm cmp T imm
  | SetRegister T imm => exec_SetRegister T imm | SetRegisterByCall T => exec_SetRegisterByCall T
  | PCAddImm T imm => exec_PCAddImm T imm
  | ShiftLeftLogical F => exec_ShiftLeftLogical F | ShiftLeftLogicalImm T imm => exec_ShiftLeftLogicalImm T imm
  | ShiftRightLogical F => exec_ShiftRightLogical F | ShiftRightLogicalImm F imm => exec_ShiftRightLogicalImm F imm
  | ShiftRightArithmetic F => exec_ShiftRightArithmetic F
  | ShiftRightArithmeticImm F imm => exec_ShiftRightArithmeticImm F imm
  | ConditionalMoveImm C T op imm => exec_ConditionalMoveImm C T op imm
  | BranchRegCompare T cmp offset => exec_BranchRegCompare T cmp offset
  | BranchRegCompareImm T cmp imm offset => exec_BranchRegCompareImm T cmp imm offset
  | JumpLink => exec_JumpLink | JumpRegLink imm => exec_JumpRegLink imm | JumpReg => exec_JumpReg
  | Jump | Load _ _ _ _ _ => markExecuted
  | Store _ _ t _ => exec_Store t | StoreConditional _ _ _ _ _ => exec_Store MEM_TRANSACTION_LLSC_STORE
  | Fence _ | Fault _ | DecodeFault | DecodeAlignmentFault => skip
  | SysCall => exec_SysCall
  | FPFlagsSet => exec_FPFlagsSet | FPFlagsRead r s f => exec_FPFlagsRead r s f
  | FPFlagsSetImm imm => exec_FPFlagsSetImm imm
  | FPSignLogic F op => exec_FPSignLogic F op
  | GPR2FPBits T => exec_GPR2FPBits T | FP2GPRBits T => exec_FP2GPRBits T
  end.
Definition execution (i : VanadisInstruction) : M exec unit :=
  match class i with Op o => execute o | HostFP f => execute_host f end.
End execute.

(** [getInstFuncType], by class. *)
Definition getInstFuncType (c : instruction_class) : VanadisFunctionalUnitType :=
  match c with
  | Op o =>
      match o with
      | Divide _ | Modulo _ => INST_INT_DIV
      | BranchRegCompare _ _ _ | BranchRegCompareImm _ _ _ _ | JumpLink | JumpRegLink _ | JumpReg | Jump => INST_BRANCH
      | Load _ _ _ _ _ => INST_LOAD
      | Store _ _ _ _ | StoreConditional _ _ _ _ _ => INST_STORE
      | Fence _ => INST_FENCE
      | SysCall => INST_SYSCALL
      | Fault _ | DecodeFault | DecodeAlignmentFault => INST_FAULT
      | FPFlagsSet | FPFlagsRead _ _ _ | FPFlagsSetImm _ | FPSignLogic _ _ => INST_FP_ARITH
      | _ => INST_INT_ARITH
      end
  | HostFP f =>
      match f with
      | GPR2FP _ _ | FP2GPR _ _ => INST_INT_ARITH
      | FPDivide _ => INST_FP_DIV
      | _ => INST_FP_ARITH
      end
  end.
