(* ===== verification/RiscvIsa.v ===== *)
(** * RiscvIsa: the instruction set the decoder is compared with

    A reference for RV64I and M, without fences and system instructions, written from
    the instruction set manual and independent of the decoder: the instructions, their
    encoding as a sum of fields, and their effect on the registers and the program
    counter. A register holds a word in [0, 2^64). *)

From S2P Require Import Prelude VanadisRegs.

(** ** Instructions *)

Inductive alu_op := ADD | SUB | SLL | SLT | SLTU | XOR | SRL | SRA | OR | AND
                  | MUL | MULH | MULHSU | MULHU | DIV | DIVU | REM | REMU.
Inductive alu_w_op := ADDW | SUBW | SLLW | SRLW | SRAW | MULW | DIVW | DIVUW | REMW | REMUW.
Inductive imm_op := ADDI | SLTI | SLTIU | XORI | ORI | ANDI | ADDIW.
Inductive shift_op := SLLI | SRLI | SRAI | SLLIW | SRLIW | SRAIW.
Inductive branch_op := BEQ | BNE | BLT | BGE | BLTU | BGEU.
Inductive load_op := LB | LH | LW | LD | LBU | LHU | LWU.
Inductive store_op := SB | SH | SW | SD.

Inductive instr :=
| RegReg (op : alu_op) (rd rs1 rs2 : Z)
| RegRegW (op : alu_w_op) (rd rs1 rs2 : Z)
| RegImm (op : imm_op) (rd rs1 imm : Z)
| ShiftImm (op : shift_op) (rd rs1 shamt : Z)
| LUI (rd imm : Z)
| AUIPC (rd imm : Z)
| JAL (rd offset : Z)
| JALR (rd rs1 imm : Z)
| Branch (op : branch_op) (rs1 rs2 offset : Z)
| LoadInt (op : load_op) (rd rs1 imm : Z)
| StoreInt (op : store_op) (rs1 rs2 imm : Z).

Definition is_reg (r : Z) : Prop := 0 <= r < 32.
Definition fits (n imm : Z) : Prop := - 2 ^ (n - 1) <= imm < 2 ^ (n - 1).
Definition shift_width (op : shift_op) : Z :=
  match op with SLLI | SRLI | SRAI => 64 | SLLIW | SRLIW | SRAIW => 32 end.

(** The operands each format can hold. [LUI] and [AUIPC] have a signed 20-bit
    immediate; the offsets of jumps and branches are even. *)
Definition valid (i : instr) : Prop :=
  match i with
  | RegReg _ rd rs1 rs2 | RegRegW _ rd rs1 rs2 => is_reg rd /\ is_reg rs1 /\ is_reg rs2
  | RegImm _ rd rs1 imm | JALR rd rs1 imm | LoadInt _ rd rs1 imm => is_reg rd /\ is_reg rs1 /\ fits 12 imm
  | ShiftImm op rd rs1 shamt => is_reg rd /\ is_reg rs1 /\ 0 <= shamt < shift_width op
  | LUI rd imm | AUIPC rd imm => is_reg rd /\ fits 20 imm
  | JAL rd offset => is_reg rd /\ fits 21 offset /\ (2 | offset)
  | Branch _ rs1 rs2 offset => is_reg rs1 /\ is_reg rs2 /\ fits 13 offset /\ (2 | offset)
  | StoreInt _ rs1 rs2 imm => is_reg rs1 /\ is_reg rs2 /\ fits 12 imm
  end.

(** ** Encoding *)

(** Bits [k] to [k + n - 1] of an immediate. *)
Definition slice (imm k n : Z) : Z := imm / 2 ^ k mod 2 ^ n.

Definition fields_R (opcode rd f3 rs1 rs2 f7 : Z) : Z :=
  opcode + 2 ^ 7 * rd + 2 ^ 12 * f3 + 2 ^ 15 * rs1 + 2 ^ 20 * rs2 + 2 ^ 25 * f7.
Definition encode_I (opcode rd f3 rs1 imm : Z) : Z :=
  opcode + 2 ^ 7 * rd + 2 ^ 12 * f3 + 2 ^ 15 * rs1 + 2 ^ 20 * slice imm 0 12.
Definition encode_S (opcode f3 rs1 rs2 imm : Z) : Z :=
  fields_R opcode (slice imm 0 5) f3 rs1 rs2 (slice imm 5 7).
Definition encode_B (opcode f3 rs1 rs2 imm : Z) : Z :=
  fields_R opcode (slice imm 11 1 + 2 * slice imm 1 4) f3 rs1 rs2 (slice imm 5 6 + 2 ^ 6 * slice imm 12 1).
Definition encode_U (opcode rd imm : Z) : Z := opcode + 2 ^ 7 * rd + 2 ^ 12 * (imm mod 2 ^ 20).
Definition encode_J (opcode rd imm : Z) : Z :=
  opcode + 2 ^ 7 * rd + 2 ^ 12 * slice imm 12 8 + 2 ^ 20 * slice imm 11 1 + 2 ^ 21 * slice imm 1 10
  + 2 ^ 31 * slice imm 20 1.

Definition alu_code (op : alu_op) : Z * Z :=   (* funct3, funct7 *)
  match op with
  | ADD => (0, 0) | SUB => (0, 32) | SLL => (1, 0) | SLT => (2, 0) | SLTU => (3, 0) | XOR => (4, 0)
  | SRL => (5, 0) | SRA => (5, 32) | OR => (6, 0) | AND => (7, 0)
  | MUL => (0, 1) | MULH => (1, 1) | MULHSU => (2, 1) | MULHU => (3, 1) | DIV => (4, 1) | DIVU => (5, 1) | REM => (6, 1) | REMU => (7, 1)
  end.
Definition alu_w_code (op : alu_w_op) : Z * Z :=
  match op with
  | ADDW => (0, 0) | SUBW => (0, 32) | SLLW => (1, 0) | SRLW => (5, 0) | SRAW => (5, 32)
  | MULW => (0, 1) | DIVW => (4, 1) | DIVUW => (5, 1) | REMW => (6, 1) | REMUW => (7, 1)
  end.
Definition imm_code (op : imm_op) : Z * Z :=   (* opcode, funct3 *)
  match op with
  | ADDI => (0x13, 0) | SLTI => (0x13, 2) | SLTIU => (0x13, 3) | XORI => (0x13, 4) | ORI => (0x13, 6)
  | ANDI => (0x13, 7) | ADDIW => (0x1B, 0)
  end.
Definition shift_code (op : shift_op) : Z * Z * Z :=   (* opcode, funct3, the bits above the amount *)
  match op with
  | SLLI => (0x13, 1, 0) | SRLI => (0x13, 5, 0) | SRAI => (0x13, 5, 0x400)
  | SLLIW => (0x1B, 1, 0) | SRLIW => (0x1B, 5, 0) | SRAIW => (0x1B, 5, 0x400)
  end.
Definition branch_code (op : branch_op) : Z :=
  match op with BEQ => 0 | BNE => 1 | BLT => 4 | BGE => 5 | BLTU => 6 | BGEU => 7 end.
Definition load_code (op : load_op) : Z :=
  match op with LB => 0 | LH => 1 | LW => 2 | LD => 3 | LBU => 4 | LHU => 5 | LWU => 6 end.
Definition store_code (op : store_op) : Z := match op with SB => 0 | SH => 1 | SW => 2 | SD => 3 end.

Definition encode (i : instr) : Z :=
  match i with
  | RegReg op rd rs1 rs2 => let '(f3, f7) := alu_code op in fields_R 0x33 rd f3 rs1 rs2 f7
  | RegRegW op rd rs1 rs2 => let '(f3, f7) := alu_w_code op in fields_R 0x3B rd f3 rs1 rs2 f7
  | RegImm op rd rs1 imm => let '(o, f3) := imm_code op in encode_I o rd f3 rs1 imm
  | ShiftImm op rd rs1 shamt => let '(o, f3, high) := shift_code op in encode_I o rd f3 rs1 (high + shamt)
  | LUI rd imm => encode_U 0x37 rd imm
  | AUIPC rd imm => encode_U 0x17 rd imm
  | JAL rd offset => encode_J 0x6F rd offset
  | JALR rd rs1 imm => encode_I 0x67 rd 0 rs1 imm
  | Branch op rs1 rs2 offset => encode_B 0x63 (branch_code op) rs1 rs2 offset
  | LoadInt op rd rs1 imm => encode_I 0x3 rd (load_code op) rs1 imm
  | StoreInt op rs1 rs2 imm => encode_S 0x23 (store_code op) rs1 rs2 imm
  end.

(** ** Effect *)

Definition sgn (a : Z) : Z := signed 64 a.
(** A 32-bit result fills the register with its sign. *)
Definition sext32 (a : Z) : Z := u64 (signed 32 a).
Definition bool_word (b : bool) : Z := if b then 1 else 0.

Definition alu (op : alu_op) (a b : Z) : Z :=
  match op with
  | ADD => u64 (a + b)
  | SUB => u64 (a - b)
  | SLL => u64 (a * 2 ^ (b mod 64))
  | SLT => bool_word (sgn a <? sgn b)
  | SLTU => bool_word (a <? b)
  | XOR => Z.lxor a b
  | SRL => a / 2 ^ (b mod 64)
  | SRA => u64 (sgn a / 2 ^ (b mod 64))
  | OR => Z.lor a b
  | AND => Z.land a b
  | MUL => u64 (a * b)
  | MULH => u64 (sgn a * sgn b / 2 ^ 64)
  | MULHSU => u64 (sgn a * b / 2 ^ 64)
  | MULHU => a * b / 2 ^ 64
  | DIV => if b =? 0 then 2 ^ 64 - 1 else u64 (Z.quot (sgn a) (sgn b))
  | DIVU => if b =? 0 then 2 ^ 64 - 1 else a / b
  | REM => if b =? 0 then a else u64 (Z.rem (sgn a) (sgn b))
  | REMU => if b =? 0 then a else a mod b
  end.

Definition alu_w (op : alu_w_op) (a b : Z) : Z :=
  let la := u32 a in let lb := u32 b in let sa := signed 32 a in let sb := signed 32 b in
  match op with
  | ADDW => sext32 (a + b)
  | SUBW => sext32 (a - b)
  | SLLW => sext32 (la * 2 ^ (b mod 32))
  | SRLW => sext32 (la / 2 ^ (b mod 32))
  | SRAW => sext32 (sa / 2 ^ (b mod 32))
  | MULW => sext32 (a * b)
  | DIVW => if lb =? 0 then 2 ^ 64 - 1 else sext32 (Z.quot sa sb)
  | DIVUW => if lb =? 0 then 2 ^ 64 - 1 else sext32 (la / lb)
  | REMW => if lb =? 0 then sext32 a else sext32 (Z.rem sa sb)
  | REMUW => if lb =? 0 then sext32 a else sext32 (la mod lb)
  end.

Definition alu_imm (op : imm_op) (a imm : Z) : Z :=
  let b := u64 imm in
  match op with
  | ADDI => alu ADD a b
  | SLTI => alu SLT a b
  | SLTIU => alu SLTU a b
  | XORI => alu XOR a b
  | ORI => alu OR a b
  | ANDI => alu AND a b
  | ADDIW => alu_w ADDW a b
  end.

Definition alu_shift (op : shift_op) (a shamt : Z) : Z :=
  match op with
  | SLLI => alu SLL a shamt | SRLI => alu SRL a shamt | SRAI => alu SRA a shamt
  | SLLIW => alu_w SLLW a shamt | SRLIW => alu_w SRLW a shamt | SRAIW => alu_w SRAW a shamt
  end.

Definition branch_taken (op : branch_op) (a b : Z) : bool :=
  match op with
  | BEQ => a =? b | BNE => negb (a =? b)
  | BLT => sgn a <? sgn b | BGE => sgn b <=? sgn a
  | BLTU => a <? b | BGEU => b <=? a
  end.

(** What an instruction of [len] bytes at [pc] writes to a register, if anything, and
    where it goes on. Loads and stores are left to the memory. *)
Definition isa_result (i : instr) (pc len : Z) (x : Z -> Z) : option (Z * Z) :=
  match i with
  | RegReg op rd rs1 rs2 => Some (rd, alu op (x rs1) (x rs2))
  | RegRegW op rd rs1 rs2 => Some (rd, alu_w op (x rs1) (x rs2))
  | RegImm op rd rs1 imm => Some (rd, alu_imm op (x rs1) imm)
  | ShiftImm op rd rs1 shamt => Some (rd, alu_shift op (x rs1) shamt)
  | LUI rd imm => Some (rd, u64 (imm * 2 ^ 12))
  | AUIPC rd imm => Some (rd, u64 (pc + imm * 2 ^ 12))
  | JAL rd _ | JALR rd _ _ => Some (rd, u64 (pc + len))
  | Branch _ _ _ _ | LoadInt _ _ _ _ | StoreInt _ _ _ _ => None
  end.
Definition isa_next (i : instr) (pc len : Z) (x : Z -> Z) : Z :=
  match i with
  | JAL _ offset => u64 (pc + offset)
  | JALR _ rs1 imm => u64 (x rs1 + imm) - u64 (x rs1 + imm) mod 2
  | Branch op rs1 rs2 offset => u64 (pc + (if branch_taken op (x rs1) (x rs2) then offset else len))
  | _ => u64 (pc + len)
  end.
