(* ===== verification/RiscvDecode.v ===== *)
(** * RiscvDecode: the RISC-V decoder

    Models [vanadis/decoder/vriscv64decoder.h]: the extraction of fields and
    immediates, and [decode], which turns the 32 bits at an address into a bundle of
    micro-operations, or into one that faults. A case of the switch is a definition
    here that returns the instructions the case adds to the bundle, or [None] where
    it leaves [decode_fault] set (no case does both). The bits are a 32-bit word; the
    C conversions of the source are written out. Not modelled: printing. *)

From S2P Require Import Prelude VanadisRegs VanadisInst.

(** ** Fields *)

Definition extract_opcode (ins : Z) : Z := Z.land ins 0x7F.
Definition extract_rd (ins : Z) : Z := Z.shiftr (Z.land ins 0xF80) 7.
Definition extract_rs1 (ins : Z) : Z := Z.shiftr (Z.land ins 0xF8000) 15.
Definition extract_rs2 (ins : Z) : Z := Z.shiftr (Z.land ins 0x1F00000) 20.
Definition extract_func3 (ins : Z) : Z := Z.shiftr (Z.land ins 0x7000) 12.
Definition extract_func7 (ins : Z) : Z := Z.shiftr (Z.land ins 0xFE000000) 25.

(** [sign_extend12] of a [uint32_t]. *)
Definition sign_extend12 (value : Z) : Z :=
  if Z.land value 0x800 =? 0 then cast int32_t value else cast int32_t (Z.lor value 0xFFFFF000).
Definition extract_imm12 (ins : Z) : Z := sign_extend12 (Z.shiftr (Z.land ins 0xFFF00000) 20).

(** The immediates of the instruction formats, at the type the caller asks for. *)
Definition imm_I (T : format) (ins : Z) : Z := cast T (extract_imm12 ins).
Definition imm_S (T : format) (ins : Z) : Z :=
  cast T (sign_extend12 (Z.lor (Z.shiftr (Z.land ins 0xF80) 7) (Z.shiftr (Z.land ins 0xFE000000) 20))).
(** The mask makes the word unsigned before it is converted. *)
Definition imm_U (T : format) (ins : Z) : Z := cast T (Z.land ins 0xFFFFF000).
Definition imm_J (T : format) (ins : Z) : Z :=
  let imm20 := Z.shiftr (Z.land ins 0x80000000) 11 in
  let imm19_12 := Z.land ins 0xFF000 in
  let imm_10_1 := Z.shiftr (Z.land ins 0x7FE00000) 20 in
  let imm11 := Z.shiftr (Z.land ins 0x100000) 9 in
  let imm_tmp := Z.lor (Z.lor (Z.lor imm20 imm19_12) imm11) imm_10_1 in
  cast T (cast int32_t (if 0 =? imm20 then imm_tmp else Z.lor imm_tmp 0xFFF00000)).
Definition imm_B (T : format) (ins : Z) : Z :=
  let imm_12 := Z.shiftr (Z.land ins 0x80000000) 19 in
  let imm_11 := Z.shiftl (Z.land ins 0x80) 4 in
  let imm_105 := Z.shiftr (Z.land ins 0x7E000000) 20 in
  let imm_41 := Z.shiftr (Z.land ins 0xF00) 7 in
  let imm_tmp := Z.lor (Z.lor (Z.lor imm_12 imm_11) imm_105) imm_41 in
  cast T (cast int32_t (if negb (imm_12 =? 0) then Z.lor imm_tmp 0xFFFFF000 else imm_tmp)).

(** Fields of the 16-bit formats. *)
Definition expand_rvc_int_register (reg_in : Z) : Z := reg_in + 8.
Definition extract_rs2_rvc (ins : Z) : Z := Z.shiftr (Z.land ins 0x1C) 2.
Definition extract_rs1_rvc (ins : Z) : Z := Z.shiftr (Z.land ins 0x380) 7.
Definition extract_uimm_rvc_t1 (ins : Z) : Z :=
  let uimm_76 := Z.shiftl (Z.land ins 0x60) 1 in
  let uimm_53 := Z.shiftr (Z.land ins 0x1C00) 7 in
  Z.lor uimm_76 uimm_53.
Definition extract_uimm_rcv_t2 (ins : Z) : Z :=
  let uimm_6 := Z.shiftl (Z.land ins 0x20) 1 in
  let uimm_2 := Z.shiftr (Z.land ins 0x40) 4 in
  let uimm_53 := Z.shiftr (Z.land ins 0x1C00) 7 in
  Z.lor (Z.lor uimm_6 uimm_53) uimm_2.
Definition extract_uimm_rcv_t3 (ins : Z) : Z :=
  let uimm_76 := Z.shiftl (Z.land ins 0x60) 1 in
  let uimm_54 := Z.shiftr (Z.land ins 0x1800) 6 in
  let uimm_8 := Z.shiftr (Z.land ins 0x400) 2 in
  Z.lor (Z.lor uimm_76 uimm_54) uimm_8.
Definition extract_nzuimm_rcv (ins : Z) : Z :=
  let imm_3 := Z.shiftr (Z.land ins 0x20) 2 in
  let imm_2 := Z.shiftr (Z.land ins 0x40) 4 in
  let imm_96 := Z.shiftr (Z.land ins 0x780) 1 in
  let imm_54 := Z.shiftr (Z.land ins 0x1800) 6 in
  Z.lor (Z.lor (Z.lor imm_96 imm_54) imm_3) imm_2.

(** ** Bundles *)

(** [vinsbundle.h]: a bundle keeps clones. *)
Record VanadisInstructionBundle := mkBundle {
  ins_addr : Z;
  pc_inc : Z;
  inst_bundle : list VanadisInstruction }.
#[export] Instance bundle_eta : Eta VanadisInstructionBundle := fun b =>
  mkBundle (ins_addr b) (pc_inc b) (inst_bundle b).
Definition new_VanadisInstructionBundle (addr : Z) : VanadisInstructionBundle := mkBundle addr 4 [].
Definition addInstruction (i : VanadisInstruction) (b : VanadisInstructionBundle) : VanadisInstructionBundle :=
  b <| inst_bundle ::= fun l => l ++ [clone i] |>.
Definition setPCIncrement (newPCInc : Z) (b : VanadisInstructionBundle) : VanadisInstructionBundle :=
  b <| pc_inc := newPCInc |>.

(** ** 32-bit instructions *)

Section decode.
Variables (ins_address hw_thr : Z) (options : VanadisDecoderOptions).

#[local] Notation "'new' f" := (f ins_address hw_thr options) (at level 9, f at level 8, only parsing).
#[local] Abbreviation decoded := (option (list VanadisInstruction)).

Definition decode_load (ins : Z) : decoded :=
  let rd := extract_rd ins in let rs1 := extract_rs1 ins in let simm64 := imm_I int64_t ins in
  let load n sign := Some [new VanadisLoadInstruction rs1 simm64 rd n sign MEM_TRANSACTION_NONE LOAD_INT_REGISTER] in
  match extract_func3 ins with
  | 0 => load 1 true    (* LB *)
  | 1 => load 2 true    (* LH *)
  | 2 => load 4 true    (* LW *)
  | 3 => load 8 true    (* LD *)
  | 4 => load 1 false   (* LBU *)
  | 5 => load 2 false   (* LHU *)
  | 6 => load 4 false   (* LWU *)
  | _ => None
  end.

Definition decode_fp_load (ins : Z) : decoded :=
  let rd := extract_rd ins in let rs1 := extract_rs1 ins in let simm64 := imm_I int64_t ins in
  let load n := Some [new VanadisLoadInstruction rs1 simm64 rd n true MEM_TRANSACTION_NONE LOAD_FP_REGISTER] in
  match extract_func3 ins with
  | 2 => load 4   (* FLW *)
  | 3 => load 8   (* FLD *)
  | _ => None
  end.

(** The guard reads [func_code], which this case never sets: it is still zero. *)
Definition decode_store (ins : Z) : decoded :=
  let rs1 := extract_rs1 ins in let rs2 := extract_rs2 ins in
  let func_code3 := extract_func3 ins in let simm64 := imm_S int64_t ins in
  let func_code := 0 in
  if func_code <? 4 then
    let store_bytes := Z.shiftl 1 func_code3 in
    Some [new VanadisStoreInstruction rs1 simm64 rs2 store_bytes MEM_TRANSACTION_NONE STORE_INT_REGISTER]
  else None.

Definition decode_imm_arith (ins : Z) : decoded :=
  let rd := extract_rd ins in let rs1 := extract_rs1 ins in let simm64 := imm_I int64_t ins in
  let func_code6 := Z.land ins 0xFC000000 in
  let shift_by := Z.shiftr (Z.land ins 0x3F00000) 20 in
  match extract_func3 ins with
  | 0 => Some [new VanadisAddImmInstruction int64_t rd rs1 simm64]
  | 1 => if func_code6 =? 0
         then Some [new VanadisShiftLeftLogicalImmInstruction uint64_t rd rs1 shift_by] else None
  | 2 => Some [new VanadisSetRegCompareImmInstruction REG_COMPARE_LT int64_t rd rs1 simm64]
  | 3 => Some [new VanadisSetRegCompareImmInstruction REG_COMPARE_LT uint64_t rd rs1 simm64]
  | 4 => Some [new VanadisXorImmInstruction rd rs1 simm64]
  | 5 => if func_code6 =? 0
         then Some [new VanadisShiftRightLogicalImmInstruction VANADIS_FORMAT_INT64 rd rs1 shift_by]
         else if func_code6 =? 0x40000000
         then Some [new VanadisShiftRightArithmeticImmInstruction VANADIS_FORMAT_INT64 rd rs1 shift_by]
         else None
  | 6 => Some [new VanadisOrImmInstruction rd rs1 simm64]
  | 7 => Some [new VanadisAndImmInstruction rd rs1 simm64]
  | _ => None
  end.

Definition arith_case (rd rs1 rs2 func_code3 func_code7 : Z) : decoded :=
  match func_code3, func_code7 with
  | 0, 0 => Some [new VanadisAddInstruction int64_t rd rs1 rs2]
  | 0, 1 => Some [new VanadisMultiplyInstruction int64_t rd rs1 rs2]
  | 0, 0x20 => Some [new VanadisSubInstruction int64_t rd rs1 rs2 false]
  | 1, 0 => Some [new VanadisShiftLeftLogicalInstruction VANADIS_FORMAT_INT64 rd rs1 rs2]
  | 2, 0 => Some [new VanadisSetRegCompareInstruction REG_COMPARE_LT int64_t rd rs1 rs2]
  | 3, 0 => Some [new VanadisSetRegCompareInstruction REG_COMPARE_LT uint64_t rd rs1 rs2]
  | 3, 1 => Some [new VanadisMultiplyHighInstruction uint64_t uint64_t rd rs1 rs2]
  | 4, 0 => Some [new VanadisXorInstruction rd rs1 rs2]
  | 4, 1 => Some [new VanadisDivideInstruction int64_t rd rs1 rs2]
  | 5, 0 => Some [new VanadisShiftRightLogicalInstruction VANADIS_FORMAT_INT64 rd rs1 rs2]
  | 5, 1 => Some [new VanadisDivideInstruction uint64_t rd rs1 rs2]
  | 5, 32 => Some [new VanadisShiftRightArithmeticInstruction VANADIS_FORMAT_INT64 rd rs1 rs2]
  | 6, 0 => Some [new VanadisOrInstruction rd rs1 rs2]
  | 6, 1 => Some [new VanadisModuloInstruction int64_t rd rs1 rs2]
  | 7, 0 => Some [new VanadisAndInstruction rd rs1 rs2]
  | 7, 1 => Some [new VanadisModuloInstruction uint64_t rd rs1 rs2]
  | _, _ => None
  end.
Definition decode_arith (ins : Z) : decoded :=
  arith_case (extract_rd ins) (extract_rs1 ins) (extract_rs2 ins) (extract_func3 ins) (extract_func7 ins).

Definition decode_LUI (ins : Z) : decoded :=
  Some [new VanadisSetRegisterInstruction int32_t (extract_rd ins) (imm_U int32_t ins)].
Definition decode_AUIPC (ins : Z) : decoded :=
  Some [new VanadisPCAddImmInstruction int64_t (extract_rd ins) (imm_U int64_t ins)].

(** The second source field is the shift amount. *)
Definition decode_imm_arith_W (ins : Z) : decoded :=
  let rd := extract_rd ins in let rs1 := extract_rs1 ins in let rs2 := extract_rs2 ins in
  match extract_func3 ins, extract_func7 ins with
  | 0, _ => Some [new VanadisAddImmInstruction int32_t rd rs1 (cast int32_t (imm_I int64_t ins))]
  | 1, 0 => Some [new VanadisShiftLeftLogicalImmInstruction uint32_t rd rs1 rs2]
  | 5, 0 => Some [new VanadisShiftRightLogicalImmInstruction VANADIS_FORMAT_INT32 rd rs1 rs2]
  | 5, 32 => Some [new VanadisShiftRightArithmeticImmInstruction VANADIS_FORMAT_INT32 rd rs1 rs2]
  | _, _ => None
  end.

Definition decode_JAL (ins : Z) : decoded :=
  let simm64 := imm_J int64_t ins in
  let jump_to := cast int64_t (cast int64_t ins_address + simm64) in
  Some [new VanadisJumpLinkInstruction 4 (extract_rd ins) jump_to VANADIS_NO_DELAY_SLOT].
Definition decode_JALR (ins : Z) : decoded :=
  match extract_func3 ins with
  | 0 => Some [new VanadisJumpRegLinkInstruction 4 (extract_rd ins) (extract_rs1 ins) (imm_I int64_t ins)
                 VANADIS_NO_DELAY_SLOT]
  | _ => None
  end.

Definition decode_branch (ins : Z) : decoded :=
  let rs1 := extract_rs1 ins in let rs2 := extract_rs2 ins in let simm64 := imm_B int64_t ins in
  let branch T cmp := Some [new VanadisBranchRegCompareInstruction T cmp 4 rs1 rs2 simm64 VANADIS_NO_DELAY_SLOT] in
  match extract_func3 ins with
  | 0 => branch int64_t REG_COMPARE_EQ     (* BEQ *)
  | 1 => branch int64_t REG_COMPARE_NEQ    (* BNE *)
  | 4 => branch int64_t REG_COMPARE_LT     (* BLT *)
  | 5 => branch int64_t REG_COMPARE_GTE    (* BGE *)
  | 6 => branch uint64_t REG_COMPARE_LT    (* BLTU *)
  | 7 => branch uint64_t REG_COMPARE_GTE   (* BGEU *)
  | _ => None
  end.

(** System calls and the control registers. A write of another register than the
    floating-point flags stops the simulation. *)
Definition decode_system (ins : Z) : res decoded :=
  let rd := extract_rd ins in let rs1 := extract_rs1 ins in
  let func_code := extract_func3 ins in let uimm64 := imm_I uint64_t ins in
  if (0 =? rd) && (0 =? rs1) && (0 =? func_code) then
    Ok (if Z.land ins 0xFFF00000 =? 0 then
          Some [new VanadisFenceInstruction VANADIS_LOAD_STORE_FENCE; new VanadisSysCallInstruction]
        else None)
  else match func_code with
  | 1 => (* CSRRW *)
      if uimm64 =? 1 then
        Ok (Some [new VanadisFPFlagsSetInstruction rd; new VanadisFPFlagsSetInstruction rs1])
      else Err (Fatal "assert")
  | 2 => (* CSRRS *)
      Ok (if uimm64 =? 1 then
            Some [new VanadisFPFlagsReadInstruction true true true rd; new VanadisFPFlagsSetInstruction rs1]
          else if uimm64 =? 2 then Some [new VanadisFPFlagsReadInstruction true false false rd]
          else if uimm64 =? 0xfffffffffffffc00 then Some [new VanadisSetRegisterByCallInstruction int64_t rd]
          else None)
  | 6 => (* CSRRSI *)
      Ok (if (0 =? rd) && (uimm64 =? 1) then Some [new VanadisFPFlagsSetImmInstruction rs1] else None)
  | _ => Ok None
  end.

Definition arith_W_case (rd rs1 rs2 func_code3 func_code7 : Z) : decoded :=
  match func_code3, func_code7 with
  | 0, 0 => Some [new VanadisAddInstruction int32_t rd rs1 rs2]
  | 0, 1 => Some [new VanadisMultiplyInstruction int32_t rd rs1 rs2]
  | 0, 0x20 => Some [new VanadisSubInstruction int32_t rd rs1 rs2 true]
  | 1, 0 => Some [new VanadisShiftLeftLogicalInstruction VANADIS_FORMAT_INT32 rd rs1 rs2]
  | 4, 1 => Some [new VanadisDivideInstruction int32_t rd rs1 rs2]
  | 5, 0 => Some [new VanadisShiftRightLogicalInstruction VANADIS_FORMAT_INT32 rd rs1 rs2]
  | 5, 1 => Some [new VanadisDivideInstruction uint32_t rd rs1 rs2]
  | 5, 0x20 => Some [new VanadisShiftRightArithmeticInstruction VANADIS_FORMAT_INT32 rd rs1 rs2]
  | 6, 1 => Some [new VanadisModuloInstruction int32_t rd rs1 rs2]
  | 7, 1 => Some [new VanadisModuloInstruction uint32_t rd rs1 rs2]
  | _, _ => None
  end.
Definition decode_arith_W (ins : Z) : decoded :=
  arith_W_case (extract_rd ins) (extract_rs1 ins) (extract_rs2 ins) (extract_func3 ins) (extract_func7 ins).

Definition decode_fence (ins : Z) : decoded := Some [new VanadisFenceInstruction VANADIS_LOAD_STORE_FENCE].

(** Atomic operations: registers 32 and 33 are those of the micro-code. *)
Definition full_fence (b : bool) : list VanadisInstruction :=
  if b then [new VanadisFenceInstruction VANADIS_LOAD_STORE_FENCE] else [].
Definition amo_add (rd rs1 rs2 op_width : Z) : list VanadisInstruction :=
  [new VanadisLoadInstruction rs1 0 32 op_width true MEM_TRANSACTION_LLSC_LOAD LOAD_INT_REGISTER;
   new VanadisAddInstruction int64_t 32 32 rs2;
   new VanadisStoreConditionalInstruction rs1 0 32 33 op_width STORE_INT_REGISTER 0 1;
   new VanadisSubInstruction int64_t 32 32 rs2 true;
   new VanadisConditionalMoveImmInstruction int64_t int64_t REG_COMPARE_EQ rd 32 33 0;
   new VanadisBranchRegCompareImmInstruction int64_t REG_COMPARE_EQ 4 33 1 0 VANADIS_NO_DELAY_SLOT].
Definition amo_swap (rd rs1 rs2 op_width : Z) : list VanadisInstruction :=
  [new VanadisLoadInstruction rs1 0 32 op_width true MEM_TRANSACTION_LLSC_LOAD LOAD_INT_REGISTER;
   new VanadisStoreConditionalInstruction rs1 0 rs2 33 op_width STORE_INT_REGISTER 0 1;
   new VanadisConditionalMoveImmInstruction int64_t int64_t REG_COMPARE_EQ rd 32 33 0;
   new VanadisBranchRegCompareImmInstruction int64_t REG_COMPARE_EQ 4 33 1 0 VANADIS_NO_DELAY_SLOT].
Definition load_reserved (rd rs1 op_width : Z) : list VanadisInstruction :=
  [new VanadisLoadInstruction rs1 0 rd op_width true MEM_TRANSACTION_LLSC_LOAD LOAD_INT_REGISTER].
Definition store_conditional (rd rs1 rs2 op_width : Z) : list VanadisInstruction :=
  [new VanadisStoreConditionalInstruction rs1 0 rs2 rd op_width STORE_INT_REGISTER 0 1].

Definition decode_atomic (ins : Z) : decoded :=
  let rd := extract_rd ins in let rs1 := extract_rs1 ins in let rs2 := extract_rs2 ins in
  let func_code7 := extract_func7 ins in
  let perform_aq := negb (Z.land func_code7 0x2 =? 0) in
  let perform_rl := negb (Z.land func_code7 0x1 =? 0) in
  let op_width := match extract_func3 ins with 2 => 4 | 3 => 8 | _ => 0 end in
  let fenced ops := if op_width =? 0 then None else Some (full_fence perform_aq ++ ops ++ full_fence perform_rl) in
  match Z.land func_code7 0x7C with
  | 0x0 => fenced (amo_add rd rs1 rs2 op_width)
  | 0x4 => fenced (amo_swap rd rs1 rs2 op_width)
  | 0x8 => if rs2 =? 0 then fenced (load_reserved rd rs1 op_width) else None
  | 0xC => fenced (store_conditional rd rs1 rs2 op_width)
  | _ => None
  end.

(** Floating-point instructions. *)
Definition decode_fp_store (ins : Z) : decoded :=
  let rs1 := extract_rs1 ins in let rs2 := extract_rs2 ins in let simm64 := imm_S int64_t ins in
  match extract_func3 ins with
  | 2 => Some [new VanadisStoreInstruction rs1 simm64 rs2 4 MEM_TRANSACTION_NONE STORE_FP_REGISTER]
  | 3 => Some [new VanadisStoreInstruction rs1 simm64 rs2 8 MEM_TRANSACTION_NONE STORE_FP_REGISTER]
  | _ => None
  end.

Definition decode_sign_logic (F : fp_format) (rd rs1 rs2 func_code3 : Z) : decoded :=
  match func_code3 with
  | 0 => Some [new VanadisFPSignLogicInstruction F SIGN_COPY rd rs1 rs2]
  | 1 => Some [new VanadisFPSignLogicInstruction F SIGN_NEG rd rs1 rs2]
  | 2 => Some [new VanadisFPSignLogicInstruction F SIGN_XOR rd rs1 rs2]
  | _ => None
  end.

(** Conversions between [double] and the integer types: the 64-bit signed case runs
    on into the unsigned one. *)
Definition double_to_int (rd rs1 rs2 : Z) : decoded :=
  match rs2 with
  | 0 => Some [new VanadisFP2GPRInstruction double int32_t rd rs1]
  | 1 => Some [new VanadisFP2GPRInstruction double uint32_t rd rs1]
  | 2 => Some [new VanadisFP2GPRInstruction double int64_t rd rs1; new VanadisFP2GPRInstruction double uint64_t rd rs1]
  | 3 => Some [new VanadisFP2GPRInstruction double uint64_t rd rs1]
  | _ => None
  end.
Definition int_to_double (rd rs1 rs2 : Z) : decoded :=
  match rs2 with
  | 0 => Some [new VanadisGPR2FPInstruction int32_t double rd rs1]
  | 1 => Some [new VanadisGPR2FPInstruction uint32_t double rd rs1]
  | 2 => Some [new VanadisGPR2FPInstruction int64_t double rd rs1; new VanadisGPR2FPInstruction uint64_t double rd rs1]
  | 3 => Some [new VanadisGPR2FPInstruction uint64_t double rd rs1]
  | _ => None
  end.

Definition decode_fp_arith (ins : Z) : decoded :=
  let rd := extract_rd ins in let rs1 := extract_rs1 ins in let rs2 := extract_rs2 ins in
  let func_code3 := extract_func3 ins in
  match extract_func7 ins with
  | 44 => None
  | 45 => Some [new VanadisFPSquareRootInstruction double rd rs1]
  | 0 => Some [new VanadisFPAddInstruction float rd rs1 rs2]
  | 0x1 => Some [new VanadisFPAddInstruction double rd rs1 rs2]
  | 4 => Some [new VanadisFPSubInstruction float rd rs1 rs2]
  | 5 => Some [new VanadisFPSubInstruction double rd rs1 rs2]
  | 8 => Some [new VanadisFPMultiplyInstruction float rd rs1 rs2]
  | 9 => Some [new VanadisFPMultiplyInstruction double rd rs1 rs2]
  | 16 => decode_sign_logic float rd rs1 rs2 func_code3
  | 17 => decode_sign_logic double rd rs1 rs2 func_code3
  | 12 => Some [new VanadisFPDivideInstruction float rd rs1 rs2]
  | 0xD => Some [new VanadisFPDivideInstruction double rd rs1 rs2]
  | 21 => Some [new VanadisFPMinimumInstruction double rd rs1 rs2]
  | 33 => match rs2 with
          | 0 => Some [new VanadisFPConvertInstruction float double rd rs1]
          | 1 => Some [new VanadisFPConvertInstruction double float rd rs1]
          | _ => None
          end
  | 104 => match rs2 with
           | 0 => Some [new VanadisGPR2FPInstruction int32_t float rd rs1]
           | 1 => Some [new VanadisGPR2FPInstruction uint32_t float rd rs1]
           | _ => None
           end
  | 97 => double_to_int rd rs1 rs2
  | 105 => int_to_double rd rs1 rs2
  | 112 => match rs2, func_code3 with
           | 0, 0 => Some [new VanadisFP2GPRInstruction (bits int32_t) int32_t rd rs1] | _, _ => None end
  | 120 => match rs2, func_code3 with
           | 0, 0 => Some [new VanadisGPR2FPInstruction int32_t (bits int32_t) rd rs1] | _, _ => None end
  | 0x50 => match func_code3 with
            | 0 => Some [new VanadisFPSetRegCompareInstruction REG_COMPARE_LTE float rd rs1 rs2]
            | 1 => Some [new VanadisFPSetRegCompareInstruction REG_COMPARE_LT float rd rs1 rs2]
            | _ => None
            end
  | 0x51 => match func_code3 with
            | 0 => Some [new VanadisFPSetRegCompareInstruction REG_COMPARE_LTE double rd rs1 rs2]
            | 1 => Some [new VanadisFPSetRegCompareInstruction REG_COMPARE_LT double rd rs1 rs2]
            | 2 => Some [new VanadisFPSetRegCompareInstruction REG_COMPARE_EQ double rd rs1 rs2]
            | _ => None
            end
  | 0x71 => if (0 =? rs2) && (0 =? func_code3)
            then Some [new VanadisFP2GPRInstruction (bits int64_t) int64_t rd rs1] else None
  | 0x79 => if (0 =? rs2) && (0 =? func_code3)
            then Some [new VanadisGPR2FPInstruction int64_t (bits int64_t) rd rs1] else None
  | _ => None
  end.

(** The fused operations exist at [double] only; the negated addition not at all. *)
Definition decode_fused (ins : Z) (f : Z -> Z -> Z -> Z -> VanadisInstruction) : decoded :=
  let func_code7 := extract_func7 ins in
  let fmt := Z.land func_code7 0x3 in
  let rs3 := Z.shiftr func_code7 2 in
  if fmt =? 1 then Some [f (extract_rd ins) (extract_rs1 ins) (extract_rs2 ins) rs3] else None.

Definition decode_32 (ins : Z) : res decoded :=
  match extract_opcode ins with
  | 0x3 => Ok (decode_load ins)
  | 0x7 => Ok (decode_fp_load ins)
  | 0x23 => Ok (decode_store ins)
  | 0x13 => Ok (decode_imm_arith ins)
  | 0x33 => Ok (decode_arith ins)
  | 0x37 => Ok (decode_LUI ins)
  | 0x17 => Ok (decode_AUIPC ins)
  | 0x1B => Ok (decode_imm_arith_W ins)
  | 0x6F => Ok (decode_JAL ins)
  | 0x67 => Ok (decode_JALR ins)
  | 0x63 => Ok (decode_branch ins)
  | 0x73 => decode_system ins
  | 0x3B => Ok (decode_arith_W ins)
  | 0xF => Ok (decode_fence ins)
  | 0x2F => Ok (decode_atomic ins)
  | 0x27 => Ok (decode_fp_store ins)
  | 0x53 => Ok (decode_fp_arith ins)
  | 0x43 => Ok (decode_fused ins (new VanadisFPFusedMultiplyAddInstruction double))
  | 0x47 => Ok (decode_fused ins (new VanadisFPFusedMultiplySubInstruction double false))
  | 0x4B => Ok (decode_fused ins (new VanadisFPFusedMultiplySubInstruction double true))
  | _ => Ok None
  end.

(** ** 16-bit instructions *)

Definition c_reg_rs2 (ins : Z) : Z := expand_rvc_int_register (extract_rs2_rvc ins).
Definition c_reg_rs1 (ins : Z) : Z := expand_rvc_int_register (extract_rs1_rvc ins).

Definition decode_c_quadrant0 (ins : Z) : decoded :=
  match Z.land ins 0xE000 with
  | 0x0 => (* ADDI4SPN *)
      if Z.land ins 0xFFFF =? 0 then None
      else
        let imm_3 := Z.shiftr (Z.land ins 0x20) 2 in
        let imm_2 := Z.shiftr (Z.land ins 0x40) 4 in
        let imm_96 := Z.shiftr (Z.land ins 0x780) 1 in
        let imm_54 := Z.shiftr (Z.land ins 0x1800) 7 in
        let imm := Z.lor (Z.lor (Z.lor imm_2 imm_3) imm_54) imm_96 in
        Some [new VanadisAddImmInstruction int64_t (c_reg_rs2 ins) 2 imm]
  | 0x2000 => (* FLD *)
      let imm_53 := Z.shiftr (Z.land ins 0x1C00) 7 in
      let imm_76 := Z.shiftl (Z.land ins 0x60) 1 in
      Some [new VanadisLoadInstruction (c_reg_rs1 ins) (Z.lor imm_53 imm_76) (c_reg_rs2 ins) 8 true
              MEM_TRANSACTION_NONE LOAD_FP_REGISTER]
  | 0x4000 => (* LW *)
      Some [new VanadisLoadInstruction (c_reg_rs1 ins) (extract_uimm_rcv_t2 ins) (c_reg_rs2 ins) 4 true
              MEM_TRANSACTION_NONE LOAD_INT_REGISTER]
  | 0x6000 => (* LD *)
      Some [new VanadisLoadInstruction (c_reg_rs1 ins) (extract_uimm_rvc_t1 ins) (c_reg_rs2 ins) 8 true
              MEM_TRANSACTION_NONE LOAD_INT_REGISTER]
  | 0x8000 => None
  | 0xA000 => (* FSD *)
      let imm_53 := Z.shiftr (Z.land ins 0x1C00) 7 in
      let imm_76 := Z.shiftl (Z.land ins 0x60) 1 in
      Some [new VanadisStoreInstruction (c_reg_rs1 ins) (Z.lor imm_53 imm_76) (c_reg_rs2 ins) 8
              MEM_TRANSACTION_NONE STORE_FP_REGISTER]
  | 0xC000 => (* SW *)
      let offset_53 := Z.shiftr (Z.land ins 0x1C00) 7 in
      let offset_6 := Z.shiftl (Z.land ins 0x20) 1 in
      let offset_2 := Z.shiftr (Z.land ins 0x40) 4 in
      Some [new VanadisStoreInstruction (c_reg_rs1 ins) (Z.lor (Z.lor offset_2 offset_6) offset_53) (c_reg_rs2 ins) 4
              MEM_TRANSACTION_NONE STORE_INT_REGISTER]
  | 0xE000 => (* SD *)
      let offset_53 := Z.shiftr (Z.land ins 0x1C00) 7 in
      let offset_6 := Z.shiftl (Z.land ins 0x20) 1 in
      let offset_7 := Z.shiftl (Z.land ins 0x40) 1 in
      Some [new VanadisStoreInstruction (c_reg_rs1 ins) (Z.lor (Z.lor offset_7 offset_6) offset_53) (c_reg_rs2 ins) 8
              MEM_TRANSACTION_NONE STORE_INT_REGISTER]
  | _ => None
  end.

(** The 6-bit signed immediate, and the one of the two branches on zero. *)
Definition c_imm6 (T : format) (ins : Z) : Z :=
  let imm_40 := Z.shiftr (Z.land ins 0x7C) 2 in
  let imm_5 := Z.shiftr (Z.land ins 0x1000) 7 in
  let imm := Z.lor imm_40 imm_5 in
  cast T (if negb (imm_5 =? 0) then Z.lor imm 0xFFFFFFFFFFFFFFC0 else imm).
Definition c_shamt (ins : Z) : Z :=
  let shamt_5 := Z.shiftr (Z.land ins 0x1000) 7 in
  let shamt_40 := Z.shiftr (Z.land ins 0x7C) 2 in
  Z.lor shamt_5 shamt_40.
Definition c_branch_offset (ins : Z) : Z :=
  let imm_8 := Z.shiftr (Z.land ins 0x1000) 4 in
  let imm_43 := Z.shiftr (Z.land ins 0xC00) 7 in
  let imm_76 := Z.shiftl (Z.land ins 0x60) 1 in
  let imm_21 := Z.shiftr (Z.land ins 0x18) 2 in
  let imm_5 := Z.shiftl (Z.land ins 0x4) 3 in
  let imm_final := Z.lor (Z.lor (Z.lor (Z.lor imm_8 imm_76) imm_5) imm_43) imm_21 in
  cast int64_t (if negb (imm_8 =? 0) then Z.lor imm_final 0xFFFFFFFFFFFFFE00 else imm_final).
Definition c_jump_offset (ins : Z) : Z :=
  let imm_11 := Z.shiftr (Z.land ins 0x1000) 1 in
  let imm_4 := Z.shiftr (Z.land ins 0x800) 7 in
  let imm_98 := Z.shiftr (Z.land ins 0x600) 1 in
  let imm_10 := Z.shiftl (Z.land ins 0x100) 2 in
  let imm_6 := Z.shiftr (Z.land ins 0x80) 1 in
  let imm_7 := Z.shiftl (Z.land ins 0x40) 1 in
  let imm_31 := Z.shiftr (Z.land ins 0x38) 2 in
  let imm_5 := Z.shiftl (Z.land ins 0x4) 3 in
  let imm_final :=
    Z.lor (Z.lor (Z.lor (Z.lor (Z.lor (Z.lor (Z.lor imm_11 imm_4) imm_98) imm_10) imm_6) imm_7) imm_31) imm_5 in
  cast int64_t (if negb (imm_11 =? 0) then Z.lor imm_final 0xFFFFFFFFFFFFF800 else imm_final).

Definition c_rd (ins : Z) : Z := Z.shiftr (Z.land ins 0xF80) 7.

(** [ADDI16SP] adjusts the stack pointer; any other destination loads an upper
    immediate. *)
Definition decode_c_upper (ins : Z) : decoded :=
  let rd := c_rd ins in
  if negb (rd =? 2) then
    let imm_1612 := Z.shiftl (Z.land ins 0x7C) 10 in
    let imm_17 := Z.shiftl (Z.land ins 0x1000) 5 in
    let imm := Z.lor imm_17 imm_1612 in
    let imm := cast int32_t (if negb (imm_17 =? 0) then Z.lor imm 0xFFFC0000 else imm) in
    Some [new VanadisSetRegisterInstruction int32_t rd imm]
  else
    let imm_5 := Z.shiftl (Z.land ins 0x4) 3 in
    let imm_87 := Z.shiftl (Z.land ins 0x18) 4 in
    let imm_6 := Z.shiftl (Z.land ins 0x20) 1 in
    let imm_4 := Z.shiftr (Z.land ins 0x40) 2 in
    let imm_9 := Z.shiftr (Z.land ins 0x1000) 3 in
    let imm := Z.lor (Z.lor (Z.lor (Z.lor imm_5 imm_87) imm_6) imm_4) imm_9 in
    let imm := cast int64_t (if negb (imm_9 =? 0) then Z.lor imm 0xFFFFFFFFFFFFFC00 else imm) in
    Some [new VanadisAddImmInstruction int64_t 2 2 imm].

Definition decode_c_arith (ins : Z) : decoded :=
  let rvc_rs1 := c_reg_rs1 ins in let rvc_rs2 := c_reg_rs2 ins in
  match Z.land ins 0xC00 with
  | 0x0 => Some [new VanadisShiftRightLogicalImmInstruction VANADIS_FORMAT_INT64 rvc_rs1 rvc_rs1 (c_shamt ins)]
  | 0x400 => Some [new VanadisShiftRightArithmeticImmInstruction VANADIS_FORMAT_INT64 rvc_rs1 rvc_rs1 (c_shamt ins)]
  | 0x800 => Some [new VanadisAndImmInstruction rvc_rs1 rvc_rs1 (c_imm6 uint64_t ins)]
  | 0xC00 =>
      match Z.land ins 0x1000, Z.land ins 0x60 with
      | 0x0, 0x0 => Some [new VanadisSubInstruction int64_t rvc_rs1 rvc_rs1 rvc_rs2 true]
      | 0x0, 0x20 => Some [new VanadisXorInstruction rvc_rs1 rvc_rs1 rvc_rs2]
      | 0x0, 0x40 => Some [new VanadisOrInstruction rvc_rs1 rvc_rs1 rvc_rs2]
      | 0x0, 0x60 => Some [new VanadisAndInstruction rvc_rs1 rvc_rs1 rvc_rs2]
      | 0x1000, 0x0 => Some [new VanadisSubInstruction int32_t rvc_rs1 rvc_rs1 rvc_rs2 false]
      | 0x1000, 0x20 => Some [new VanadisAddInstruction int32_t rvc_rs1 rvc_rs1 rvc_rs2]
      | _, _ => None
      end
  | _ => None
  end.

Definition decode_c_quadrant1 (ins : Z) : decoded :=
  match Z.land ins 0xE000 with
  | 0x0 =>
      let rvc_rs1 := c_rd ins in
      if 0 =? rvc_rs1 then Some [new VanadisAddImmInstruction int64_t 0 0 0]
      else Some [new VanadisAddImmInstruction int64_t rvc_rs1 rvc_rs1 (c_imm6 int64_t ins)]
  | 0x2000 => Some [new VanadisAddImmInstruction int32_t (c_rd ins) (c_rd ins) (c_imm6 int32_t ins)]
  | 0x4000 => Some [new VanadisSetRegisterInstruction int64_t (c_rd ins) (c_imm6 int64_t ins)]
  | 0x6000 => decode_c_upper ins
  | 0x8000 => decode_c_arith ins
  | 0xA000 => Some [new VanadisJumpInstruction 2 (u64 (cast int64_t ins_address + c_jump_offset ins)) VANADIS_NO_DELAY_SLOT]
  | 0xC000 => Some [new VanadisBranchRegCompareImmInstruction int64_t REG_COMPARE_EQ 2 (c_reg_rs1 ins) 0
                      (c_branch_offset ins) VANADIS_NO_DELAY_SLOT]
  | 0xE000 => Some [new VanadisBranchRegCompareImmInstruction int64_t REG_COMPARE_NEQ 2 (c_reg_rs1 ins) 0
                      (c_branch_offset ins) VANADIS_NO_DELAY_SLOT]
  | _ => None
  end.

(** Jumps through a register, moves and additions, by bit 12 and the two register
    fields. *)
Definition decode_c_jumps (ins : Z) : decoded :=
  let c_func_12 := Z.land ins 0x1000 in
  let c_func_12_rs2 := Z.shiftr (Z.land ins 0x7C) 2 in
  let c_func_12_rs1 := Z.shiftr (Z.land ins 0xF80) 7 in
  if c_func_12 =? 0 then
    if c_func_12_rs2 =? 0 then Some [new VanadisJumpRegInstruction 2 c_func_12_rs1 VANADIS_NO_DELAY_SLOT]
    else if c_func_12_rs1 =? 0 then None
    else Some [new VanadisAddInstruction int64_t c_func_12_rs1 c_func_12_rs2 (reg_ignore_writes options)]
  else if c_func_12_rs2 =? 0 then
    if negb (c_func_12_rs1 =? 0)
    then Some [new VanadisJumpRegLinkInstruction 2 1 c_func_12_rs1 0 VANADIS_NO_DELAY_SLOT]
    else Some [new VanadisInstructionFault "EBREAK executed, pipeline halt/stop."]
  else if c_func_12_rs1 =? 0 then Some [new VanadisAddInstruction int64_t 0 0 0]
  else Some [new VanadisAddInstruction int64_t c_func_12_rs1 c_func_12_rs1 c_func_12_rs2].

Definition decode_c_quadrant2 (ins : Z) : decoded :=
  let src := Z.shiftr (Z.land ins 0x7C) 2 in
  let load offset n sign regT := Some [new VanadisLoadInstruction 2 offset (c_rd ins) n sign MEM_TRANSACTION_NONE regT] in
  let store offset n regT := Some [new VanadisStoreInstruction 2 offset src n MEM_TRANSACTION_NONE regT] in
  let offset_86_43_5 := Z.lor (Z.lor (Z.shiftr (Z.land ins 0x1000) 7) (Z.shiftr (Z.land ins 0x60) 2))
                              (Z.shiftl (Z.land ins 0x1C) 4) in
  let offset_76_42_5 := Z.lor (Z.lor (Z.shiftr (Z.land ins 0x1000) 7) (Z.shiftr (Z.land ins 0x70) 2))
                              (Z.shiftl (Z.land ins 0xC) 4) in
  let offset_86_53 := Z.lor (Z.shiftr (Z.land ins 0x380) 1) (Z.shiftr (Z.land ins 0x1C00) 7) in
  let offset_76_52 := Z.lor (Z.shiftr (Z.land ins 0x180) 1) (Z.shiftr (Z.land ins 0x1E00) 7) in
  match Z.land ins 0xE000 with
  | 0x0 => Some [new VanadisShiftLeftLogicalImmInstruction uint64_t (c_rd ins) (c_rd ins) (c_shamt ins)]
  | 0x2000 => load offset_86_43_5 8 false LOAD_FP_REGISTER     (* FLDSP *)
  | 0x4000 => load offset_76_42_5 4 true LOAD_INT_REGISTER     (* LWSP *)
  | 0x6000 => if 0 =? c_rd ins then None
              else load offset_86_43_5 8 true LOAD_INT_REGISTER (* LDSP *)
  | 0x8000 => decode_c_jumps ins
  | 0xA000 => store offset_86_53 8 STORE_FP_REGISTER           (* FSDSP *)
  | 0xC000 => store offset_76_52 4 STORE_INT_REGISTER          (* SWSP *)
  | 0xE000 => store offset_86_53 8 STORE_INT_REGISTER          (* SDSP *)
  | _ => None
  end.

Definition decode_16 (ins : Z) : decoded :=
  match Z.land ins 0x3 with
  | 0x0 => decode_c_quadrant0 ins
  | 0x1 => decode_c_quadrant1 ins
  | 0x2 => decode_c_quadrant2 ins
  | _ => None
  end.

(** ** The decoder *)

(** [decode]: the bundle of the instruction at [ins_address]. *)
Definition decode (fatal_decode_fault : bool) (ins : Z) (bundle : VanadisInstructionBundle) :
    res VanadisInstructionBundle :=
  if negb (Z.land ins_address 0x1 =? 0)
  then Ok (addInstruction (new VanadisInstructionDecodeAlignmentFault) bundle)
  else
    let long := Z.land ins 0x3 =? 0x3 in
    let bundle := if long then bundle else setPCIncrement 2 bundle in
    r ← (if long then decode_32 ins else Ok (decode_16 ins));
    match r with
    | Some l => Ok (foldl (fun b i => addInstruction i b) bundle l)
    | None => if fatal_decode_fault then Err (Fatal "[decode] -> decode fault detected")
              else Ok (addInstruction (new VanadisInstructionDecodeFault) bundle)
    end.
End decode.

(** The options of the RISC-V decoder: two registers more than the 32 of the ISA, for
    the micro-code of atomic operations. *)
Definition riscv_options : VanadisDecoderOptions := mkOptions 0 34 32 2 VANADIS_REGISTER_MODE_FP64.
