(* ===== verification/RiscvFields.v ===== *)
(** * RiscvFields: fields and immediates as arithmetic

    What the masks and shifts of the decoder extract from an instruction word, as
    quotients and remainders, and the immediates as the two's complement numbers the
    instruction set defines. *)

From S2P Require Import Prelude VanadisRegs VanadisInst RiscvDecode.

(** Constant powers of two as numerals, for [lia]. *)
Ltac numerals :=
  repeat match goal with
  | |- context [2 ^ Zpos ?p] => let v := eval compute in (2 ^ Zpos p) in change (2 ^ Zpos p) with v
  | H : context [2 ^ Zpos ?p] |- _ => let v := eval compute in (2 ^ Zpos p) in change (2 ^ Zpos p) with v in H
  end.
Ltac zlia := numerals; Z.div_mod_to_equations; lia.

(** ** Bit operations *)

Lemma land_mask n k x : 0 <= n -> 0 <= k -> Z.land x (Z.ones n * 2 ^ k) = x / 2 ^ k mod 2 ^ n * 2 ^ k.
Proof.
  intros Hn Hk. rewrite <- !Z.shiftl_mul_pow2, <- Z.land_ones, <- Z.shiftr_div_pow2 by lia.
  apply Z.bits_inj_iff'. intros i Hi. rewrite Z.land_spec, !Z.shiftl_spec by lia.
  destruct (Z.ltb_spec i k).
  - rewrite !(Z.testbit_neg_r _ (i - k)) by lia. apply andb_false_r.
  - rewrite Z.land_spec, Z.shiftr_spec by lia. do 2 f_equal. lia.
Qed.

Lemma lor_high_low k a b : 0 <= k -> 0 <= b < 2 ^ k -> Z.lor (a * 2 ^ k) b = a * 2 ^ k + b.
Proof.
  intros Hk Hb. pose proof (Z.add_lor_land (a * 2 ^ k) b) as H.
  enough (Z.land (a * 2 ^ k) b = 0) by lia.
  apply Z.bits_inj_iff'. intros i Hi. rewrite Z.land_spec, Z.testbit_0_l.
  rewrite <- Z.shiftl_mul_pow2, Z.shiftl_spec by lia.
  destruct (Z.ltb_spec i k).
  - now rewrite Z.testbit_neg_r by lia.
  - replace (Z.testbit b i) with false; [apply andb_false_r|].
    symmetry. destruct (Z.eq_dec b 0) as [->|]; [apply Z.testbit_0_l|].
    apply Z.bits_above_log2; [lia|]. apply Z.log2_lt_pow2; [lia|].
    assert (2 ^ k <= 2 ^ i) by (apply Z.pow_le_mono_r; lia). lia.
Qed.

Lemma lor_low_high k a b : 0 <= k -> 0 <= b < 2 ^ k -> Z.lor b (a * 2 ^ k) = b + a * 2 ^ k.
Proof. intros. rewrite Z.lor_comm, lor_high_low by lia. lia. Qed.

(** A mask of ones above a bit that is set already: the number becomes negative. *)
Lemma lor_sign k n b :
  0 <= k < n -> 0 <= b < 2 ^ k -> signed n (Z.lor (2 ^ k + b) (2 ^ n - 2 ^ k)) = b - 2 ^ k.
Proof.
  intros Hk Hb.
  assert (Hp : 2 ^ n = 2 ^ (n - k) * 2 ^ k) by (rewrite <- Z.pow_add_r by lia; f_equal; lia).
  assert (Hones : 2 ^ n - 2 ^ k = Z.ones (n - k) * 2 ^ k) by (rewrite Z.ones_equiv; lia).
  assert (Hlor : Z.lor (2 ^ k + b) (2 ^ n - 2 ^ k) = 2 ^ n - 2 ^ k + b).
  { rewrite Hones. replace (2 ^ k + b) with (Z.lor (1 * 2 ^ k) b) by (rewrite lor_high_low; zlia).
    rewrite <- Z.lor_assoc, (Z.lor_comm b), Z.lor_assoc.
    replace (Z.lor (1 * 2 ^ k) (Z.ones (n - k) * 2 ^ k)) with (Z.ones (n - k) * 2 ^ k).
    { rewrite lor_high_low by lia. lia. }
    rewrite <- !Z.shiftl_mul_pow2, <- Z.shiftl_lor by lia. f_equal.
    apply Z.bits_inj_iff'. intros i Hi. rewrite Z.lor_spec, Z.ones_spec by lia.
    destruct (Z.eq_dec i 0) as [->|]; [rewrite Z.bit0_odd; case_bool_decide; simpl; [easy|lia]|].
    replace (Z.testbit 1 i) with false by (symmetry; apply (Z.bits_above_log2 1); simpl; lia).
    reflexivity. }
  rewrite Hlor. transitivity (signed n (b - 2 ^ k)).
  - apply signed_mod_arg. replace (2 ^ n - 2 ^ k + b) with (b - 2 ^ k + 1 * 2 ^ n) by ring. apply Z_mod_plus_full.
  - apply signed_small; [lia|].
    assert (2 ^ k <= 2 ^ (n - 1)) by (apply Z.pow_le_mono_r; lia). lia.
Qed.

Ltac mask m n k := change m with (Z.ones n * 2 ^ k); rewrite land_mask by lia.
Ltac field m n k := mask m n k; rewrite ?Z.shiftr_div_pow2, ?Z.div_mul, ?Z.div_1_r, ?Z.mul_1_r by lia.

Lemma scale_down a k j : 0 <= j <= k -> a * 2 ^ k / 2 ^ j = a * 2 ^ (k - j).
Proof.
  intros H. replace (2 ^ k) with (2 ^ (k - j) * 2 ^ j) by (rewrite <- Z.pow_add_r by lia; f_equal; lia).
  rewrite Z.mul_assoc, Z.div_mul by lia. reflexivity.
Qed.
Lemma scale_up a k j : 0 <= j -> 0 <= k -> a * 2 ^ k * 2 ^ j = a * 2 ^ (k + j).
Proof. intros. rewrite <- Z.mul_assoc, <- Z.pow_add_r by lia. reflexivity. Qed.

(** ** Fields *)

Section fields.
Variable ins : Z.

Lemma opcode_field : extract_opcode ins = ins mod 2 ^ 7.
Proof. unfold extract_opcode. mask 0x7F 7 0. change (2 ^ 0) with 1. now rewrite Z.div_1_r, Z.mul_1_r. Qed.
Lemma rd_field : extract_rd ins = ins / 2 ^ 7 mod 2 ^ 5.
Proof. unfold extract_rd. field 0xF80 5 7. reflexivity. Qed.
Lemma rs1_field : extract_rs1 ins = ins / 2 ^ 15 mod 2 ^ 5.
Proof. unfold extract_rs1. field 0xF8000 5 15. reflexivity. Qed.
Lemma rs2_field : extract_rs2 ins = ins / 2 ^ 20 mod 2 ^ 5.
Proof. unfold extract_rs2. field 0x1F00000 5 20. reflexivity. Qed.
Lemma func3_field : extract_func3 ins = ins / 2 ^ 12 mod 2 ^ 3.
Proof. unfold extract_func3. field 0x7000 3 12. reflexivity. Qed.
Lemma func7_field : extract_func7 ins = ins / 2 ^ 25 mod 2 ^ 7.
Proof. unfold extract_func7. field 0xFE000000 7 25. reflexivity. Qed.

(** ** Immediates *)

Lemma cast_signed_small T n x :
  is_signed T = true -> 0 < n <= width T -> cast T (signed n x) = signed n x.
Proof.
  intros HT Hn. unfold cast. rewrite HT. apply signed_small; [lia|].
  pose proof (signed_range n x ltac:(lia)).
  assert (2 ^ (n - 1) <= 2 ^ (width T - 1)) by (apply Z.pow_le_mono_r; lia). lia.
Qed.

Lemma cast_int64 n x : 0 < n <= 64 -> cast int64_t (signed n x) = signed n x.
Proof. intros. now apply cast_signed_small. Qed.

Lemma sign_extend12_spec x : 0 <= x < 2 ^ 12 -> sign_extend12 x = signed 12 x.
Proof.
  intros Hx. unfold sign_extend12. mask 0x800 1 11.
  assert (Hb : x / 2 ^ 11 mod 2 ^ 1 = x / 2 ^ 11) by (apply Z.mod_small; zlia).
  rewrite Hb. unfold cast, is_signed, width, sizeof.
  destruct (Z.eqb_spec (x / 2 ^ 11 * 2 ^ 11) 0) as [H0|H1].
  - assert (x < 2 ^ 11) by zlia. rewrite !signed_small by zlia. reflexivity.
  - assert (H2 : 2 ^ 11 <= x) by zlia.
    transitivity (x - 2 ^ 11 - 2 ^ 11).
    + pose proof (lor_sign 11 32 (x - 2 ^ 11) ltac:(lia) ltac:(zlia)) as H.
      replace (2 ^ 11 + (x - 2 ^ 11)) with x in H by ring. rewrite <- H. f_equal.
      change (2 ^ 32 - 2 ^ 11) with (Z.lor 0xFFFFF000 (1 * 2 ^ 11)).
      rewrite (Z.lor_comm 0xFFFFF000), Z.lor_assoc. f_equal.
      replace x with (Z.lor (1 * 2 ^ 11) (x - 2 ^ 11)) at 2 by (rewrite lor_high_low; zlia).
      replace x with (Z.lor (1 * 2 ^ 11) (x - 2 ^ 11)) at 1 by (rewrite lor_high_low; zlia).
      rewrite (Z.lor_comm (1 * 2 ^ 11)), <- Z.lor_assoc, Z.lor_diag. reflexivity.
    + symmetry. transitivity (signed 12 (x - 2 ^ 12)); [|rewrite signed_small; zlia].
      apply signed_mod_arg. replace x with (x - 2 ^ 12 + 1 * 2 ^ 12) at 1 by ring. apply Z_mod_plus_full.
Qed.

Lemma imm_I_field T :
  imm_I T ins = cast T (signed 12 (ins / 2 ^ 20 mod 2 ^ 12)).
Proof.
  unfold imm_I, extract_imm12. field 0xFFF00000 12 20.
  rewrite sign_extend12_spec; [reflexivity|]. apply Z.mod_pos_bound. lia.
Qed.

Lemma imm_S_field T :
  imm_S T ins = cast T (signed 12 (ins / 2 ^ 7 mod 2 ^ 5 + 2 ^ 5 * (ins / 2 ^ 25 mod 2 ^ 7))).
Proof.
  unfold imm_S. field 0xF80 5 7. mask 0xFE000000 7 25.
  rewrite scale_down by lia. change (25 - 20) with 5.
  pose proof (Z.mod_pos_bound (ins / 2 ^ 7) (2 ^ 5) ltac:(lia)).
  pose proof (Z.mod_pos_bound (ins / 2 ^ 25) (2 ^ 7) ltac:(lia)).
  rewrite lor_low_high, sign_extend12_spec by zlia. do 2 f_equal. ring.
Qed.

Lemma imm_U_field T : imm_U T ins = cast T (2 ^ 12 * (ins / 2 ^ 12 mod 2 ^ 20)).
Proof. unfold imm_U. mask 0xFFFFF000 20 12. f_equal. ring. Qed.

(** A word of [n + 1] bits whose top bit decides its sign, as the decoder extends it. *)
Lemma sign_extended n b low :
  0 < n < 32 -> b = 0 \/ b = 1 -> 0 <= low < 2 ^ n ->
  cast int32_t (if negb (b * 2 ^ n =? 0) then Z.lor (b * 2 ^ n + low) (2 ^ 32 - 2 ^ n) else b * 2 ^ n + low)
  = signed (n + 1) (b * 2 ^ n + low).
Proof.
  intros Hn Hb Hl.
  assert (Hle : 2 ^ n <= 2 ^ 31) by (apply Z.pow_le_mono_r; lia).
  assert (Hs : signed (n + 1) (b * 2 ^ n + low) = low - b * 2 ^ n).
  { transitivity (signed (n + 1) (low - b * 2 ^ n)).
    - apply signed_mod_arg. rewrite Z.pow_add_r by lia.
      replace (b * 2 ^ n + low) with (low - b * 2 ^ n + b * (2 ^ n * 2 ^ 1)) by (change (2 ^ 1) with 2; ring).
      apply Z_mod_plus_full.
    - apply signed_small; [lia|]. replace (n + 1 - 1) with n by lia. destruct Hb; subst; lia. }
  rewrite Hs. unfold cast, is_signed, width, sizeof. destruct Hb; subst b.
  - rewrite Z.mul_0_l, Z.eqb_refl. cbn [negb]. rewrite signed_small; simpl; lia.
  - rewrite Z.mul_1_l. rewrite (proj2 (Z.eqb_neq (2 ^ n) 0)) by lia. cbn [negb].
    apply (lor_sign n 32); lia.
Qed.

Lemma bit_cases x : x mod 2 ^ 1 = 0 \/ x mod 2 ^ 1 = 1.
Proof. pose proof (Z.mod_pos_bound x (2 ^ 1) ltac:(lia)). change (2 ^ 1) with 2 in *. lia. Qed.

Definition offset_J : Z :=
  2 ^ 20 * (ins / 2 ^ 31 mod 2 ^ 1) + 2 ^ 12 * (ins / 2 ^ 12 mod 2 ^ 8) + 2 ^ 11 * (ins / 2 ^ 20 mod 2 ^ 1)
  + 2 * (ins / 2 ^ 21 mod 2 ^ 10).
Definition offset_B : Z :=
  2 ^ 12 * (ins / 2 ^ 31 mod 2 ^ 1) + 2 ^ 11 * (ins / 2 ^ 7 mod 2 ^ 1) + 2 ^ 5 * (ins / 2 ^ 25 mod 2 ^ 6)
  + 2 * (ins / 2 ^ 8 mod 2 ^ 4).

Ltac bounds x k := pose proof (Z.mod_pos_bound x (2 ^ k) ltac:(lia)).

Lemma imm_J_field : imm_J int64_t ins = signed 21 offset_J.
Proof.
  unfold imm_J, offset_J. mask 0x80000000 1 31. mask 0xFF000 8 12. mask 0x7FE00000 10 21. mask 0x100000 1 20.
  rewrite !Z.shiftr_div_pow2, !scale_down by lia. cbn [Z.sub Z.add Z.opp Z.pos_sub Pos.pred_double Pos.sub].
  change (31 - 11) with 20. change (21 - 20) with 1. change (20 - 9) with 11.
  pose proof (bit_cases (ins / 2 ^ 31)) as Hb.
  bounds (ins / 2 ^ 12) 8. bounds (ins / 2 ^ 20) 1. bounds (ins / 2 ^ 21) 10.
  set (b := ins / 2 ^ 31 mod 2 ^ 1) in *. set (m := ins / 2 ^ 12 mod 2 ^ 8) in *.
  set (c := ins / 2 ^ 20 mod 2 ^ 1) in *. set (d := ins / 2 ^ 21 mod 2 ^ 10) in *.
  rewrite (lor_high_low 20 b) by zlia.
  replace (b * 2 ^ 20 + m * 2 ^ 12) with ((b * 2 ^ 8 + m) * 2 ^ 12) by zlia.
  rewrite (lor_high_low 12) by zlia.
  replace ((b * 2 ^ 8 + m) * 2 ^ 12 + c * 2 ^ 11) with ((b * 2 ^ 9 + m * 2 + c) * 2 ^ 11) by zlia.
  rewrite (lor_high_low 11) by zlia.
  replace ((b * 2 ^ 9 + m * 2 + c) * 2 ^ 11 + d * 2 ^ 1) with (b * 2 ^ 20 + (m * 2 ^ 12 + c * 2 ^ 11 + d * 2)) by zlia.
  rewrite (Z.eqb_sym 0). pose proof (sign_extended 20 b (m * 2 ^ 12 + c * 2 ^ 11 + d * 2)) as Hse.
  change (2 ^ 32 - 2 ^ 20) with 0xFFF00000 in Hse.
  replace (if b * 2 ^ 20 =? 0 then _ else _) with
    (if negb (b * 2 ^ 20 =? 0) then Z.lor (b * 2 ^ 20 + (m * 2 ^ 12 + c * 2 ^ 11 + d * 2)) 0xFFF00000
     else b * 2 ^ 20 + (m * 2 ^ 12 + c * 2 ^ 11 + d * 2)) by now destruct (b * 2 ^ 20 =? 0).
  rewrite Hse by (auto; zlia). rewrite cast_int64 by lia. f_equal. zlia.
Qed.

Lemma imm_B_field : imm_B int64_t ins = signed 13 offset_B.
Proof.
  unfold imm_B, offset_B. mask 0x80000000 1 31. mask 0x80 1 7. mask 0x7E000000 6 25. mask 0xF00 4 8.
  rewrite !Z.shiftr_div_pow2, !Z.shiftl_mul_pow2, !scale_down, scale_up by lia.
  change (31 - 19) with 12. change (25 - 20) with 5. change (8 - 7) with 1. change (7 + 4) with 11.
  pose proof (bit_cases (ins / 2 ^ 31)) as Hb.
  bounds (ins / 2 ^ 7) 1. bounds (ins / 2 ^ 25) 6. bounds (ins / 2 ^ 8) 4.
  set (b := ins / 2 ^ 31 mod 2 ^ 1) in *. set (m := ins / 2 ^ 7 mod 2 ^ 1) in *.
  set (c := ins / 2 ^ 25 mod 2 ^ 6) in *. set (d := ins / 2 ^ 8 mod 2 ^ 4) in *.
  rewrite (lor_high_low 12 b) by zlia.
  replace (b * 2 ^ 12 + m * 2 ^ 11) with ((b * 2 + m) * 2 ^ 11) by zlia.
  rewrite (lor_high_low 11) by zlia.
  replace ((b * 2 + m) * 2 ^ 11 + c * 2 ^ 5) with ((b * 2 ^ 7 + m * 2 ^ 6 + c) * 2 ^ 5) by zlia.
  rewrite (lor_high_low 5) by zlia.
  replace ((b * 2 ^ 7 + m * 2 ^ 6 + c) * 2 ^ 5 + d * 2 ^ 1) with (b * 2 ^ 12 + (m * 2 ^ 11 + c * 2 ^ 5 + d * 2)) by zlia.
  pose proof (sign_extended 12 b (m * 2 ^ 11 + c * 2 ^ 5 + d * 2)) as Hse.
  change (2 ^ 32 - 2 ^ 12) with 0xFFFFF000 in Hse.
  rewrite Hse by (auto; zlia). rewrite cast_int64 by lia. f_equal. zlia.
Qed.
End fields.
