(* ===== verification/RiscvCode.v ===== *)
(** * RiscvCode: the decoder is the inverse of the encoding

    [uop] is the micro-operation that stands for an instruction of the set; decoding
    the encoding of an instruction gives it ([decode_encode]), but for MULH and MULHSU,
    which the decoder leaves faulting ([decode_left_out]). *)

From S2P Require Import Prelude VanadisRegs VanadisInst RiscvIsa RiscvDecode RiscvFields.

Section code.
Variables (addr hw_thr : Z) (options : VanadisDecoderOptions).
#[local] Notation "'new' f" := (f addr hw_thr options) (at level 9, f at level 8, only parsing).

(** ** The micro-operation of an instruction *)

Definition uop_alu (op : alu_op) (rd rs1 rs2 : Z) : VanadisInstruction :=
  match op with
  | ADD => new VanadisAddInstruction int64_t rd rs1 rs2
  | SUB => new VanadisSubInstruction int64_t rd rs1 rs2 false
  | SLL => new VanadisShiftLeftLogicalInstruction VANADIS_FORMAT_INT64 rd rs1 rs2
  | SLT => new VanadisSetRegCompareInstruction REG_COMPARE_LT int64_t rd rs1 rs2
  | SLTU => new VanadisSetRegCompareInstruction REG_COMPARE_LT uint64_t rd rs1 rs2
  | XOR => new VanadisXorInstruction rd rs1 rs2
  | SRL => new VanadisShiftRightLogicalInstruction VANADIS_FORMAT_INT64 rd rs1 rs2
  | SRA => new VanadisShiftRightArithmeticInstruction VANADIS_FORMAT_INT64 rd rs1 rs2
  | OR => new VanadisOrInstruction rd rs1 rs2
  | AND => new VanadisAndInstruction rd rs1 rs2
  | MUL => new VanadisMultiplyInstruction int64_t rd rs1 rs2
  | MULH | MULHSU => new VanadisInstructionDecodeFault
  | MULHU => new VanadisMultiplyHighInstruction uint64_t uint64_t rd rs1 rs2
  | DIV => new VanadisDivideInstruction int64_t rd rs1 rs2
  | DIVU => new VanadisDivideInstruction uint64_t rd rs1 rs2
  | REM => new VanadisModuloInstruction int64_t rd rs1 rs2
  | REMU => new VanadisModuloInstruction uint64_t rd rs1 rs2
  end.

Definition uop_alu_w (op : alu_w_op) (rd rs1 rs2 : Z) : VanadisInstruction :=
  match op with
  | ADDW => new VanadisAddInstruction int32_t rd rs1 rs2
  | SUBW => new VanadisSubInstruction int32_t rd rs1 rs2 true
  | SLLW => new VanadisShiftLeftLogicalInstruction VANADIS_FORMAT_INT32 rd rs1 rs2
  | SRLW => new VanadisShiftRightLogicalInstruction VANADIS_FORMAT_INT32 rd rs1 rs2
  | SRAW => new VanadisShiftRightArithmeticInstruction VANADIS_FORMAT_INT32 rd rs1 rs2
  | MULW => new VanadisMultiplyInstruction int32_t rd rs1 rs2
  | DIVW => new VanadisDivideInstruction int32_t rd rs1 rs2
  | DIVUW => new VanadisDivideInstruction uint32_t rd rs1 rs2
  | REMW => new VanadisModuloInstruction int32_t rd rs1 rs2
  | REMUW => new VanadisModuloInstruction uint32_t rd rs1 rs2
  end.

Definition uop_imm (op : imm_op) (rd rs1 imm : Z) : VanadisInstruction :=
  match op with
  | ADDI => new VanadisAddImmInstruction int64_t rd rs1 imm
  | SLTI => new VanadisSetRegCompareImmInstruction REG_COMPARE_LT int64_t rd rs1 imm
  | SLTIU => new VanadisSetRegCompareImmInstruction REG_COMPARE_LT uint64_t rd rs1 imm
  | XORI => new VanadisXorImmInstruction rd rs1 imm
  | ORI => new VanadisOrImmInstruction rd rs1 imm
  | ANDI => new VanadisAndImmInstruction rd rs1 imm
  | ADDIW => new VanadisAddImmInstruction int32_t rd rs1 (cast int32_t imm)
  end.

Definition uop_shift (op : shift_op) (rd rs1 shamt : Z) : VanadisInstruction :=
  match op with
  | SLLI => new VanadisShiftLeftLogicalImmInstruction uint64_t rd rs1 shamt
  | SRLI => new VanadisShiftRightLogicalImmInstruction VANADIS_FORMAT_INT64 rd rs1 shamt
  | SRAI => new VanadisShiftRightArithmeticImmInstruction VANADIS_FORMAT_INT64 rd rs1 shamt
  | SLLIW => new VanadisShiftLeftLogicalImmInstruction uint32_t rd rs1 shamt
  | SRLIW => new VanadisShiftRightLogicalImmInstruction VANADIS_FORMAT_INT32 rd rs1 shamt
  | SRAIW => new VanadisShiftRightArithmeticImmInstruction VANADIS_FORMAT_INT32 rd rs1 shamt
  end.

Definition uop_branch (op : branch_op) (rs1 rs2 offset : Z) : VanadisInstruction :=
  let branch T cmp := new VanadisBranchRegCompareInstruction T cmp 4 rs1 rs2 offset VANADIS_NO_DELAY_SLOT in
  match op with
  | BEQ => branch int64_t REG_COMPARE_EQ | BNE => branch int64_t REG_COMPARE_NEQ
  | BLT => branch int64_t REG_COMPARE_LT | BGE => branch int64_t REG_COMPARE_GTE
  | BLTU => branch uint64_t REG_COMPARE_LT | BGEU => branch uint64_t REG_COMPARE_GTE
  end.

(** Bytes of an access, and whether a load extends the sign. *)
Definition load_size (op : load_op) : Z * bool :=
  match op with
  | LB => (1, true) | LH => (2, true) | LW => (4, true) | LD => (8, true)
  | LBU => (1, false) | LHU => (2, false) | LWU => (4, false)
  end.
Definition store_size (op : store_op) : Z := match op with SB => 1 | SH => 2 | SW => 4 | SD => 8 end.

(** The instructions of M that the decoder names and does not decode. *)
Definition left_out_alu (op : alu_op) : bool := match op with MULH | MULHSU => true | _ => false end.
Definition left_out (i : instr) : bool := match i with RegReg op _ _ _ => left_out_alu op | _ => false end.

Definition uop (i : instr) : VanadisInstruction :=
  match i with
  | RegReg op rd rs1 rs2 => uop_alu op rd rs1 rs2
  | RegRegW op rd rs1 rs2 => uop_alu_w op rd rs1 rs2
  | RegImm op rd rs1 imm => uop_imm op rd rs1 imm
  | ShiftImm op rd rs1 shamt => uop_shift op rd rs1 shamt
  | LUI rd imm => new VanadisSetRegisterInstruction int32_t rd (signed 32 (imm * 2 ^ 12))
  | AUIPC rd imm => new VanadisPCAddImmInstruction int64_t rd (u32 (imm * 2 ^ 12))
  | JAL rd offset =>
      new VanadisJumpLinkInstruction 4 rd (cast int64_t (cast int64_t addr + offset)) VANADIS_NO_DELAY_SLOT
  | JALR rd rs1 imm => new VanadisJumpRegLinkInstruction 4 rd rs1 imm VANADIS_NO_DELAY_SLOT
  | Branch op rs1 rs2 offset => uop_branch op rs1 rs2 offset
  | LoadInt op rd rs1 imm =>
      new VanadisLoadInstruction rs1 imm rd (fst (load_size op)) (snd (load_size op)) MEM_TRANSACTION_NONE LOAD_INT_REGISTER
  | StoreInt op rs1 rs2 imm =>
      new VanadisStoreInstruction rs1 imm rs2 (store_size op) MEM_TRANSACTION_NONE STORE_INT_REGISTER
  end.

(** ** Fields of an encoding *)

#[local] Ltac range := unfold is_reg in *; first [apply Z.mod_pos_bound; lia | numerals; lia].

Lemma fields_R_extract opcode rd f3 rs1 rs2 f7 :
  0 <= opcode < 2 ^ 7 -> 0 <= rd < 2 ^ 5 -> 0 <= f3 < 2 ^ 3 -> 0 <= rs1 < 2 ^ 5 -> 0 <= rs2 < 2 ^ 5 ->
  0 <= f7 < 2 ^ 7 ->
  let ins := fields_R opcode rd f3 rs1 rs2 f7 in
  extract_opcode ins = opcode /\ extract_rd ins = rd /\ extract_func3 ins = f3 /\
  extract_rs1 ins = rs1 /\ extract_rs2 ins = rs2 /\ extract_func7 ins = f7.
Proof.
  intros ? ? ? ? ? ? ins. rewrite opcode_field, rd_field, func3_field, rs1_field, rs2_field, func7_field.
  unfold ins, fields_R. repeat split; zlia.
Qed.

(** An I-format word is an R-format word whose upper fields hold the immediate. *)
Lemma encode_I_fields opcode rd f3 rs1 imm :
  encode_I opcode rd f3 rs1 imm = fields_R opcode rd f3 rs1 (slice imm 0 5) (slice imm 5 7).
Proof. unfold encode_I, fields_R, slice. zlia. Qed.

Lemma slice_range imm k n : 0 <= n -> 0 <= slice imm k n < 2 ^ n.
Proof. intros. apply Z.mod_pos_bound. apply Z.pow_pos_nonneg; lia. Qed.

Lemma upper_fields opcode rd f3 rs1 rs2 f7 :
  0 <= opcode < 2 ^ 7 -> 0 <= rd < 2 ^ 5 -> 0 <= f3 < 2 ^ 3 -> 0 <= rs1 < 2 ^ 5 -> 0 <= rs2 < 2 ^ 5 ->
  0 <= f7 < 2 ^ 7 ->
  fields_R opcode rd f3 rs1 rs2 f7 / 2 ^ 20 mod 2 ^ 12 = rs2 + 2 ^ 5 * f7.
Proof. intros. unfold fields_R. zlia. Qed.

Lemma fits_signed n imm : 0 < n -> fits n imm -> signed n (imm mod 2 ^ n) = imm.
Proof.
  intros Hn H. transitivity (signed n imm); [|now apply signed_small].
  apply signed_mod_arg. apply Z.mod_mod. pose proof (Z.pow_pos_nonneg 2 n). lia.
Qed.

Lemma slice_join imm : slice imm 0 5 + 2 ^ 5 * slice imm 5 7 = imm mod 2 ^ 12.
Proof. unfold slice. zlia. Qed.

(** The immediate of a valid I-format, S-format, B-format, U-format and J-format word. *)
Lemma imm_I_encode opcode rd f3 rs1 imm :
  0 <= opcode < 2 ^ 7 -> is_reg rd -> 0 <= f3 < 2 ^ 3 -> is_reg rs1 -> fits 12 imm ->
  imm_I int64_t (encode_I opcode rd f3 rs1 imm) = imm.
Proof.
  unfold is_reg. intros. rewrite encode_I_fields, imm_I_field, upper_fields by range.
  rewrite slice_join, fits_signed by (auto; lia). rewrite <- (fits_signed 12 imm) by (auto; lia).
  apply cast_int64. lia.
Qed.

Lemma imm_S_encode opcode f3 rs1 rs2 imm :
  0 <= opcode < 2 ^ 7 -> 0 <= f3 < 2 ^ 3 -> is_reg rs1 -> is_reg rs2 -> fits 12 imm ->
  imm_S int64_t (encode_S opcode f3 rs1 rs2 imm) = imm.
Proof.
  unfold is_reg. intros ? ? ? ? Himm. rewrite imm_S_field.
  transitivity (cast int64_t (signed 12 (imm mod 2 ^ 12))).
  2: { rewrite cast_int64 by lia. apply fits_signed; auto; lia. }
  do 2 f_equal. rewrite <- slice_join.
  pose proof (slice_range imm 0 5 ltac:(lia)). pose proof (slice_range imm 5 7 ltac:(lia)).
  unfold encode_S, fields_R. generalize dependent (slice imm 0 5). generalize dependent (slice imm 5 7).
  intros. zlia.
Qed.

Lemma offset_B_fields ins :
  offset_B ins = 2 ^ 12 * ((ins / 2 ^ 25 mod 2 ^ 7) / 2 ^ 6) + 2 ^ 11 * ((ins / 2 ^ 7 mod 2 ^ 5) mod 2)
    + 2 ^ 5 * ((ins / 2 ^ 25 mod 2 ^ 7) mod 2 ^ 6) + 2 * ((ins / 2 ^ 7 mod 2 ^ 5) / 2).
Proof. unfold offset_B. zlia. Qed.

Lemma offset_J_upper ins :
  offset_J ins = let w := ins / 2 ^ 12 in
    2 ^ 20 * (w / 2 ^ 19 mod 2 ^ 1) + 2 ^ 12 * (w mod 2 ^ 8) + 2 ^ 11 * (w / 2 ^ 8 mod 2 ^ 1) + 2 * (w / 2 ^ 9 mod 2 ^ 10).
Proof. unfold offset_J. cbv zeta. zlia. Qed.

Lemma imm_B_encode opcode f3 rs1 rs2 imm :
  0 <= opcode < 2 ^ 7 -> 0 <= f3 < 2 ^ 3 -> is_reg rs1 -> is_reg rs2 -> fits 13 imm -> (2 | imm) ->
  imm_B int64_t (encode_B opcode f3 rs1 rs2 imm) = imm.
Proof.
  unfold is_reg. intros ? ? ? ? Himm [h ->]. rewrite imm_B_field.
  rewrite <- (fits_signed 13 (h * 2)) at 2 by (auto; lia). f_equal.
  assert (Hj : h * 2 mod 2 ^ 13 = 2 ^ 12 * slice (h * 2) 12 1 + 2 ^ 11 * slice (h * 2) 11 1
                 + 2 ^ 5 * slice (h * 2) 5 6 + 2 * slice (h * 2) 1 4) by (unfold slice; zlia).
  rewrite Hj. unfold encode_B. clear Hj.
  pose proof (slice_range (h * 2) 12 1 ltac:(lia)). pose proof (slice_range (h * 2) 11 1 ltac:(lia)).
  pose proof (slice_range (h * 2) 5 6 ltac:(lia)). pose proof (slice_range (h * 2) 1 4 ltac:(lia)).
  generalize dependent (slice (h * 2) 12 1). generalize dependent (slice (h * 2) 11 1).
  generalize dependent (slice (h * 2) 5 6). generalize dependent (slice (h * 2) 1 4). intros a Ha b Hb c Hc d Hd.
  destruct (fields_R_extract opcode (c + 2 * a) f3 rs1 rs2 (b + 2 ^ 6 * d)) as (_ & Hrd & _ & _ & _ & Hf7);
    try (numerals; lia).
  set (ins := fields_R _ _ _ _ _ _) in *. clearbody ins.
  rewrite rd_field in Hrd. rewrite func7_field in Hf7.
  rewrite (offset_B_fields ins), Hrd, Hf7. zlia.
Qed.

Lemma imm_J_encode opcode rd imm :
  0 <= opcode < 2 ^ 7 -> is_reg rd -> fits 21 imm -> (2 | imm) ->
  imm_J int64_t (encode_J opcode rd imm) = imm.
Proof.
  unfold is_reg. intros ? ? Himm [h ->]. rewrite imm_J_field.
  rewrite <- (fits_signed 21 (h * 2)) at 2 by (auto; lia). f_equal.
  assert (Hj : h * 2 mod 2 ^ 21 = 2 ^ 20 * slice (h * 2) 20 1 + 2 ^ 12 * slice (h * 2) 12 8
                 + 2 ^ 11 * slice (h * 2) 11 1 + 2 * slice (h * 2) 1 10) by (unfold slice; zlia).
  rewrite Hj. unfold encode_J. clear Hj.
  pose proof (slice_range (h * 2) 20 1 ltac:(lia)). pose proof (slice_range (h * 2) 12 8 ltac:(lia)).
  pose proof (slice_range (h * 2) 11 1 ltac:(lia)). pose proof (slice_range (h * 2) 1 10 ltac:(lia)).
  generalize dependent (slice (h * 2) 20 1). generalize dependent (slice (h * 2) 12 8).
  generalize dependent (slice (h * 2) 11 1). generalize dependent (slice (h * 2) 1 10). intros a Ha b Hb c Hc d Hd.
  rewrite offset_J_upper.
  replace (_ / 2 ^ 12) with (c + 2 ^ 8 * (b + 2 ^ 1 * (a + 2 ^ 10 * d)))
    by (apply Z.div_unique with (opcode + 2 ^ 7 * rd); numerals; lia).
  cbv zeta. numerals. Z.div_mod_to_equations. lia.
Qed.

Lemma upper_field_encode opcode rd imm :
  0 <= opcode < 2 ^ 7 -> is_reg rd -> encode_U opcode rd imm / 2 ^ 12 mod 2 ^ 20 = imm mod 2 ^ 20.
Proof.
  unfold is_reg, encode_U. intros. pose proof (Z.mod_pos_bound imm (2 ^ 20) ltac:(lia)).
  generalize dependent (imm mod 2 ^ 20). intros u ?.
  replace (_ / 2 ^ 12) with u by (apply Z.div_unique with (opcode + 2 ^ 7 * rd); numerals; lia).
  apply Z.mod_small. lia.
Qed.

Lemma imm_U_encode T opcode rd imm :
  0 <= opcode < 2 ^ 7 -> is_reg rd -> imm_U T (encode_U opcode rd imm) = cast T (u32 (imm * 2 ^ 12)).
Proof.
  intros. rewrite imm_U_field, upper_field_encode by auto. f_equal. unfold u32. zlia.
Qed.

(** ** Decoding an encoding *)

Lemma encode_U_fields opcode rd imm :
  0 <= opcode < 2 ^ 7 -> is_reg rd ->
  extract_opcode (encode_U opcode rd imm) = opcode /\ extract_rd (encode_U opcode rd imm) = rd.
Proof.
  unfold is_reg. intros. rewrite opcode_field, rd_field. unfold encode_U.
  generalize (imm mod 2 ^ 20). intros u. split; zlia.
Qed.

Lemma encode_J_fields opcode rd imm :
  0 <= opcode < 2 ^ 7 -> is_reg rd ->
  extract_opcode (encode_J opcode rd imm) = opcode /\ extract_rd (encode_J opcode rd imm) = rd.
Proof.
  unfold is_reg. intros. rewrite opcode_field, rd_field. unfold encode_J.
  generalize (slice imm 12 8) (slice imm 11 1) (slice imm 1 10) (slice imm 20 1). intros a b c d.
  replace (opcode + _ + _ + _ + _ + _) with (opcode + 2 ^ 7 * (rd + 2 ^ 5 * (a + 2 ^ 8 * b + 2 ^ 9 * c + 2 ^ 19 * d)))
    by zlia.
  generalize (a + 2 ^ 8 * b + 2 ^ 9 * c + 2 ^ 19 * d). intros u. split; zlia.
Qed.

(** The fields of a word of each format, for rewriting. *)
Ltac R_fields o rd f3 rs1 rs2 f7 :=
  let H := fresh in
  assert (H := fields_R_extract o rd f3 rs1 rs2 f7); cbv zeta in H;
  destruct H as (Ho & Hrd & Hf3 & Hrs1 & Hrs2 & Hf7); [range..|].

Lemma encode_I_extract opcode rd f3 rs1 imm :
  0 <= opcode < 2 ^ 7 -> is_reg rd -> 0 <= f3 < 2 ^ 3 -> is_reg rs1 ->
  let ins := encode_I opcode rd f3 rs1 imm in
  extract_opcode ins = opcode /\ extract_rd ins = rd /\ extract_func3 ins = f3 /\ extract_rs1 ins = rs1.
Proof.
  unfold is_reg. intros ? ? ? ?. cbv zeta. rewrite encode_I_fields.
  pose proof (slice_range imm 0 5 ltac:(lia)). pose proof (slice_range imm 5 7 ltac:(lia)).
  R_fields opcode rd f3 rs1 (slice imm 0 5) (slice imm 5 7). auto.
Qed.

Lemma decode_RegReg op rd rs1 rs2 :
  is_reg rd -> is_reg rs1 -> is_reg rs2 ->
  decode_32 addr hw_thr options (encode (RegReg op rd rs1 rs2)) =
  Ok (if left_out_alu op then None else Some [uop_alu op rd rs1 rs2]).
Proof.
  intros. cbn [encode]. destruct (alu_code op) as [f3 f7] eqn:Hc.
  assert (0 <= f3 < 2 ^ 3 /\ 0 <= f7 < 2 ^ 7) as [? ?] by (destruct op; inversion Hc; subst; cbv; intuition easy).
  R_fields 0x33 rd f3 rs1 rs2 f7. unfold decode_32. rewrite Ho. unfold decode_arith.
  rewrite Hrd, Hf3, Hrs1, Hrs2, Hf7. destruct op; inversion Hc; subst; reflexivity.
Qed.

Lemma decode_RegRegW op rd rs1 rs2 :
  is_reg rd -> is_reg rs1 -> is_reg rs2 ->
  decode_32 addr hw_thr options (encode (RegRegW op rd rs1 rs2)) = Ok (Some [uop_alu_w op rd rs1 rs2]).
Proof.
  intros. cbn [encode]. destruct (alu_w_code op) as [f3 f7] eqn:Hc.
  assert (0 <= f3 < 2 ^ 3 /\ 0 <= f7 < 2 ^ 7) as [? ?] by (destruct op; inversion Hc; subst; cbv; intuition easy).
  R_fields 0x3B rd f3 rs1 rs2 f7. unfold decode_32. rewrite Ho. unfold decode_arith_W.
  rewrite Hrd, Hf3, Hrs1, Hrs2, Hf7. destruct op; inversion Hc; subst; reflexivity.
Qed.
Lemma decode_RegImm op rd rs1 imm :
  is_reg rd -> is_reg rs1 -> fits 12 imm ->
  decode_32 addr hw_thr options (encode (RegImm op rd rs1 imm)) = Ok (Some [uop_imm op rd rs1 imm]).
Proof.
  intros. cbn [encode]. destruct (imm_code op) as [o f3] eqn:Hc.
  assert (0 <= o < 2 ^ 7 /\ 0 <= f3 < 2 ^ 3) as [? ?] by (destruct op; inversion Hc; subst; cbv; intuition easy).
  destruct (encode_I_extract o rd f3 rs1 imm) as (Ho & Hrd & Hf3 & Hrs1); auto.
  pose proof (imm_I_encode o rd f3 rs1 imm) as Himm.
  unfold decode_32. rewrite Ho. unfold decode_imm_arith, decode_imm_arith_W.
  rewrite Hrd, Hf3, Hrs1, Himm by auto. destruct op; inversion Hc; subst; reflexivity.
Qed.

(** The bits above the shift amount, and the amount itself, at 64 and at 32 bits. *)
Lemma shift_fields op rd rs1 shamt :
  is_reg rd -> is_reg rs1 -> 0 <= shamt < shift_width op ->
  let '(o, f3, high) := shift_code op in
  let ins := encode_I o rd f3 rs1 (high + shamt) in
  Z.land ins 0xFC000000 = high * 2 ^ 20 /\ Z.shiftr (Z.land ins 0x3F00000) 20 = shamt /\
  (shamt < 32 -> extract_rs2 ins = shamt /\ extract_func7 ins = high / 2 ^ 5).
Proof.
  intros Hrd Hrs1 Hs. destruct (shift_code op) as [[o f3] high] eqn:Hc. cbv zeta.
  assert (Hv : 0 <= o < 2 ^ 7 /\ 0 <= f3 < 2 ^ 3 /\ (high = 0 \/ high = 2 ^ 10) /\ shift_width op <= 64)
    by (destruct op; inversion Hc; subst; cbv; intuition easy).
  destruct Hv as (Ho & Hf3 & Hhigh & Hw). set (ins := encode_I _ _ _ _ _).
  mask 0xFC000000 6 26. field 0x3F00000 6 20. rewrite rs2_field, func7_field.
  assert (Hu : ins / 2 ^ 20 = high + shamt).
  { unfold ins, encode_I, slice, is_reg in *. symmetry.
    apply Z.div_unique with (o + 2 ^ 7 * rd + 2 ^ 12 * f3 + 2 ^ 15 * rs1); destruct Hhigh; subst high; zlia. }
  replace (ins / 2 ^ 26) with (ins / 2 ^ 20 / 2 ^ 6) by (rewrite Z.div_div by lia; reflexivity).
  replace (ins / 2 ^ 25) with (ins / 2 ^ 20 / 2 ^ 5) by (rewrite Z.div_div by lia; reflexivity).
  rewrite Hu. destruct Hhigh; subst high; zlia.
Qed.

Lemma decode_ShiftImm op rd rs1 shamt :
  is_reg rd -> is_reg rs1 -> 0 <= shamt < shift_width op ->
  decode_32 addr hw_thr options (encode (ShiftImm op rd rs1 shamt)) = Ok (Some [uop_shift op rd rs1 shamt]).
Proof.
  intros ? ? Hs. pose proof (shift_fields op rd rs1 shamt) as Hfields. cbn [encode].
  destruct (shift_code op) as [[o f3] high] eqn:Hc. cbv zeta in Hfields.
  destruct Hfields as (Hhigh & Hsh & Hw); auto.
  assert (0 <= o < 2 ^ 7 /\ 0 <= f3 < 2 ^ 3) as [? ?] by (destruct op; inversion Hc; subst; cbv; intuition easy).
  destruct (encode_I_extract o rd f3 rs1 (high + shamt)) as (Ho & Hrd & Hf3 & Hrs1); auto.
  unfold decode_32. rewrite Ho. unfold decode_imm_arith, decode_imm_arith_W. cbv zeta.
  rewrite Hrd, Hf3, Hrs1, Hhigh, Hsh.
  destruct op; inversion Hc; subst; try reflexivity;
    destruct (Hw (proj2 Hs)) as [Hs2 Hs7]; rewrite Hs2, Hs7; reflexivity.
Qed.

Lemma decode_upper rd imm :
  is_reg rd ->
  decode_32 addr hw_thr options (encode (LUI rd imm)) = Ok (Some [uop (LUI rd imm)]) /\
  decode_32 addr hw_thr options (encode (AUIPC rd imm)) = Ok (Some [uop (AUIPC rd imm)]).
Proof.
  intros Hrd. cbn [encode]. unfold decode_32.
  destruct (encode_U_fields 0x37 rd imm) as [Ho Hr]; [lia|auto|].
  destruct (encode_U_fields 0x17 rd imm) as [Ho' Hr']; [lia|auto|]. rewrite Ho, Ho'.
  unfold decode_LUI, decode_AUIPC. rewrite Hr, Hr', !imm_U_encode by (auto; lia). cbn [uop]. split.
  - apply (f_equal (fun v => Ok (Some [new VanadisSetRegisterInstruction int32_t rd v]))).
    unfold cast, is_signed, width, sizeof. apply signed_mod_arg. unfold u32. now apply Z.mod_mod.
  - apply (f_equal (fun v => Ok (Some [new VanadisPCAddImmInstruction int64_t rd v]))).
    unfold cast, is_signed, width, sizeof. apply signed_small; [lia|].
    pose proof (Z.mod_pos_bound (imm * 2 ^ 12) (2 ^ 32) ltac:(lia)). unfold u32. simpl in *. lia.
Qed.

Lemma decode_jumps rd rs1 imm offset :
  is_reg rd -> is_reg rs1 -> fits 12 imm -> fits 21 offset -> (2 | offset) ->
  decode_32 addr hw_thr options (encode (JAL rd offset)) = Ok (Some [uop (JAL rd offset)]) /\
  decode_32 addr hw_thr options (encode (JALR rd rs1 imm)) = Ok (Some [uop (JALR rd rs1 imm)]).
Proof.
  intros. cbn [encode]. unfold decode_32. destruct (encode_J_fields 0x6F rd offset) as [Ho Hr]; [lia|auto|].
  destruct (encode_I_extract 0x67 rd 0 rs1 imm) as (Ho' & Hr' & Hf3 & Hrs1); [lia|auto|lia|auto|].
  rewrite Ho, Ho'. unfold decode_JAL, decode_JALR.
  rewrite Hr, Hr', Hf3, Hrs1, imm_J_encode, imm_I_encode by (auto; lia). split; reflexivity.
Qed.

Lemma decode_Branch op rs1 rs2 offset :
  is_reg rs1 -> is_reg rs2 -> fits 13 offset -> (2 | offset) ->
  decode_32 addr hw_thr options (encode (Branch op rs1 rs2 offset)) = Ok (Some [uop_branch op rs1 rs2 offset]).
Proof.
  intros. cbn [encode].
  assert (0 <= branch_code op < 2 ^ 3) by (destruct op; cbv; intuition easy).
  pose proof (imm_B_encode 0x63 (branch_code op) rs1 rs2 offset) as Himm. unfold encode_B in *.
  pose proof (slice_range offset 11 1 ltac:(lia)). pose proof (slice_range offset 1 4 ltac:(lia)).
  pose proof (slice_range offset 5 6 ltac:(lia)). pose proof (slice_range offset 12 1 ltac:(lia)).
  R_fields 0x63 (slice offset 11 1 + 2 * slice offset 1 4) (branch_code op) rs1 rs2
    (slice offset 5 6 + 2 ^ 6 * slice offset 12 1).
  unfold decode_32. rewrite Ho. unfold decode_branch. rewrite Hf3, Hrs1, Hrs2, Himm by (auto; lia).
  destruct op; reflexivity.
Qed.

Lemma decode_memory op op' rd rs1 rs2 imm :
  is_reg rd -> is_reg rs1 -> is_reg rs2 -> fits 12 imm ->
  decode_32 addr hw_thr options (encode (LoadInt op rd rs1 imm)) = Ok (Some [uop (LoadInt op rd rs1 imm)]) /\
  decode_32 addr hw_thr options (encode (StoreInt op' rs1 rs2 imm)) = Ok (Some [uop (StoreInt op' rs1 rs2 imm)]).
Proof.
  intros. cbn [encode]. unfold decode_32.
  assert (0 <= load_code op < 2 ^ 3) by (destruct op; cbv; intuition easy).
  assert (0 <= store_code op' < 2 ^ 3) by (destruct op'; cbv; intuition easy). split.
  - destruct (encode_I_extract 0x3 rd (load_code op) rs1 imm) as (Ho & Hr & Hf3 & Hrs1); [lia|auto..|].
    rewrite Ho. unfold decode_load. rewrite Hr, Hf3, Hrs1, imm_I_encode by (auto; lia). destruct op; reflexivity.
  - pose proof (imm_S_encode 0x23 (store_code op') rs1 rs2 imm) as Himm. unfold encode_S in *.
    pose proof (slice_range imm 0 5 ltac:(lia)). pose proof (slice_range imm 5 7 ltac:(lia)).
    R_fields 0x23 (slice imm 0 5) (store_code op') rs1 rs2 (slice imm 5 7).
    rewrite Ho. unfold decode_store. rewrite Hf3, Hrs1, Hrs2, Himm by (auto; lia). destruct op'; reflexivity.
Qed.

(** Decoding is a left inverse of encoding: every instruction of the set, those two
    aside, becomes the one micro-operation of the table, with its registers and its
    immediate. *)
Theorem decode_encode i :
  valid i -> left_out i = false -> decode_32 addr hw_thr options (encode i) = Ok (Some [uop i]).
Proof.
  destruct i; cbn [valid left_out]; intros ? Hl; destruct_and?;
    eauto using decode_RegRegW, decode_RegImm, decode_ShiftImm, decode_Branch.
  - now rewrite decode_RegReg, Hl by auto.
  - now apply decode_upper.
  - now apply decode_upper.
  - now apply (decode_jumps rd 0 0).
  - now apply (decode_jumps rd rs1 imm 0); [..|exists 0].
  - now apply (decode_memory op SB rd rs1 0).
  - now apply (decode_memory LB op 0 rs1 rs2).
Qed.
Lemma decode_left_out i : valid i -> left_out i = true -> decode_32 addr hw_thr options (encode i) = Ok None.
Proof.
  destruct i; cbn [valid left_out]; intros ? Hl; try discriminate Hl. destruct_and?. now rewrite decode_RegReg, Hl by auto.
Qed.
End code.
