(* ===== verification/RiscvSound.v ===== *)
(** * RiscvSound: what the decoder accepts

    Under the integer opcodes, stores aside, the words the decoder accepts are the
    encodings of the instructions of the set, without MULH and MULHSU, which it leaves
    faulting ([decode_accepts]). *)

From S2P Require Import Prelude VanadisRegs VanadisInst RiscvIsa RiscvDecode RiscvFields RiscvCode.

(** ** A word from its fields *)

Lemma word_fields w :
  0 <= w < 2 ^ 32 ->
  w = fields_R (extract_opcode w) (extract_rd w) (extract_func3 w) (extract_rs1 w) (extract_rs2 w) (extract_func7 w).
Proof.
  intros Hw. rewrite opcode_field, rd_field, func3_field, rs1_field, rs2_field, func7_field. unfold fields_R.
  replace (w / 2 ^ 25) with (w / 2 ^ 7 / 2 ^ 5 / 2 ^ 3 / 2 ^ 5 / 2 ^ 5) by (rewrite !Z.div_div by lia; reflexivity).
  replace (w / 2 ^ 20) with (w / 2 ^ 7 / 2 ^ 5 / 2 ^ 3 / 2 ^ 5) by (rewrite !Z.div_div by lia; reflexivity).
  replace (w / 2 ^ 15) with (w / 2 ^ 7 / 2 ^ 5 / 2 ^ 3) by (rewrite !Z.div_div by lia; reflexivity).
  replace (w / 2 ^ 12) with (w / 2 ^ 7 / 2 ^ 5) by (rewrite !Z.div_div by lia; reflexivity).
  zlia.
Qed.

Lemma fields_range w :
  is_reg (extract_rd w) /\ is_reg (extract_rs1 w) /\ is_reg (extract_rs2 w) /\
  0 <= extract_func3 w < 2 ^ 3 /\ 0 <= extract_func7 w < 2 ^ 7.
Proof.
  rewrite rd_field, rs1_field, rs2_field, func3_field, func7_field.
  unfold is_reg. repeat split; apply Z.mod_pos_bound; lia.
Qed.

(** Bits of a sign-extended number. *)
Lemma slice_signed n x k m : 0 <= k -> 0 <= m -> k + m <= n -> slice (signed n x) k m = slice x k m.
Proof.
  intros Hk Hm Hn.
  assert (Hs : forall y, slice y k m = slice (y mod 2 ^ n) k m).
  { intros y. unfold slice. apply Z.bits_inj_iff'. intros i Hi.
    rewrite <- !Z.land_ones, <- !Z.shiftr_div_pow2, !Z.land_spec, !Z.shiftr_spec, Z.land_spec by lia.
    destruct (Z.ltb_spec i m).
    - rewrite (Z.ones_spec_low n) by lia. now rewrite andb_true_r.
    - rewrite (Z.ones_spec_high m) by lia. now rewrite !andb_false_r. }
  rewrite (Hs (signed n x)), signed_mod, <- Hs by lia. reflexivity.
Qed.

Lemma signed_fits n x : 0 < n -> fits n (signed n x).
Proof. intros. now apply signed_range. Qed.

Lemma signed_even n x : 0 < n -> (2 | x) -> (2 | signed n x).
Proof.
  intros Hn Hx. rewrite <- Z.mod_divide in * by lia.
  transitivity (x mod 2); [|exact Hx].
  pose proof (mod_of_mod 1 n (signed n x) ltac:(lia)) as H1. pose proof (mod_of_mod 1 n x ltac:(lia)) as H2.
  rewrite signed_mod in H1 by lia. change (2 ^ 1) with 2 in *. congruence.
Qed.

(** Every word of a format is an encoding of its fields and its immediate. *)
Lemma encode_I_word w :
  0 <= w < 2 ^ 32 ->
  encode_I (extract_opcode w) (extract_rd w) (extract_func3 w) (extract_rs1 w) (imm_I int64_t w) = w.
Proof.
  intros Hw. rewrite encode_I_fields, imm_I_field, cast_int64, !slice_signed by lia.
  rewrite (word_fields w Hw) at 7. rewrite rs2_field, func7_field. f_equal; unfold slice; zlia.
Qed.

Lemma encode_B_word w :
  0 <= w < 2 ^ 32 ->
  encode_B (extract_opcode w) (extract_func3 w) (extract_rs1 w) (extract_rs2 w) (imm_B int64_t w) = w.
Proof.
  intros Hw. unfold encode_B. rewrite imm_B_field, !slice_signed by lia.
  rewrite (word_fields w Hw) at 9.
  assert (Hrd : extract_rd w = slice (offset_B w) 11 1 + 2 * slice (offset_B w) 1 4).
  { rewrite rd_field, offset_B_fields. generalize (w / 2 ^ 25 mod 2 ^ 7). intros u.
    pose proof (Z.mod_pos_bound (w / 2 ^ 7) (2 ^ 5) ltac:(lia)) as H. generalize dependent (w / 2 ^ 7 mod 2 ^ 5).
    intros v ?. unfold slice. zlia. }
  assert (Hf7 : extract_func7 w = slice (offset_B w) 5 6 + 2 ^ 6 * slice (offset_B w) 12 1).
  { rewrite func7_field, offset_B_fields. pose proof (Z.mod_pos_bound (w / 2 ^ 25) (2 ^ 7) ltac:(lia)) as H.
    generalize dependent (w / 2 ^ 25 mod 2 ^ 7).
    pose proof (Z.mod_pos_bound (w / 2 ^ 7) (2 ^ 5) ltac:(lia)) as H'. generalize dependent (w / 2 ^ 7 mod 2 ^ 5).
    intros v ? u ?. unfold slice. zlia. }
  now rewrite <- Hrd, <- Hf7.
Qed.

Lemma encode_U_word w :
  0 <= w < 2 ^ 32 -> encode_U (extract_opcode w) (extract_rd w) (w / 2 ^ 12 mod 2 ^ 20) = w.
Proof.
  intros Hw. rewrite opcode_field, rd_field. unfold encode_U.
  replace (w / 2 ^ 12) with (w / 2 ^ 7 / 2 ^ 5) by (rewrite !Z.div_div by lia; reflexivity). zlia.
Qed.

Lemma encode_J_word w :
  0 <= w < 2 ^ 32 -> encode_J (extract_opcode w) (extract_rd w) (imm_J int64_t w) = w.
Proof.
  intros Hw. rewrite opcode_field, rd_field, imm_J_field. unfold encode_J.
  rewrite !slice_signed, offset_J_upper by lia.
  assert (Hq : exists q, w / 2 ^ 12 = q) by eauto. destruct Hq as [q Hq]. rewrite Hq. cbv zeta.
  assert (Hr : 0 <= q < 2 ^ 20) by zlia.
  replace w with (w mod 2 ^ 7 + 2 ^ 7 * (w / 2 ^ 7 mod 2 ^ 5) + 2 ^ 12 * q) at 3
    by (rewrite <- Hq; replace (w / 2 ^ 12) with (w / 2 ^ 7 / 2 ^ 5) by (rewrite !Z.div_div by lia; reflexivity); zlia).
  set (o := 2 ^ 20 * _ + _ + _ + _).
  assert (H8 : slice o 12 8 = q mod 2 ^ 8) by (unfold o, slice; zlia).
  assert (H1 : slice o 11 1 = q / 2 ^ 8 mod 2 ^ 1) by (unfold o, slice; zlia).
  assert (H10 : slice o 1 10 = q / 2 ^ 9 mod 2 ^ 10) by (unfold o, slice; zlia).
  assert (H20 : slice o 20 1 = q / 2 ^ 19 mod 2 ^ 1) by (unfold o, slice; zlia).
  rewrite H8, H1, H10, H20. zlia.
Qed.

(** ** Acceptance *)

Section sound.
Variables (addr hw_thr : Z) (options : VanadisDecoderOptions).
#[local] Abbreviation decode_32 := (decode_32 addr hw_thr options).

Ltac cases H := repeat match type of H with context [match ?x with _ => _ end] => destruct x; try discriminate H end.

Lemma arith_accepted rd rs1 rs2 f3 f7 l :
  arith_case addr hw_thr options rd rs1 rs2 f3 f7 = Some l -> exists op, alu_code op = (f3, f7) /\ left_out_alu op = false.
Proof.
  unfold arith_case. intros H. cases H;
    first [now exists ADD | now exists SUB | now exists SLL | now exists SLT | now exists SLTU | now exists XOR
          | now exists SRL | now exists SRA | now exists OR | now exists AND | now exists MUL | now exists MULHU
          | now exists DIV | now exists DIVU | now exists REM | now exists REMU].
Qed.

Lemma arith_W_accepted rd rs1 rs2 f3 f7 l :
  arith_W_case addr hw_thr options rd rs1 rs2 f3 f7 = Some l -> exists op, alu_w_code op = (f3, f7).
Proof.
  unfold arith_W_case. intros H. cases H;
    first [now exists ADDW | now exists SUBW | now exists SLLW | now exists SRLW | now exists SRAW | now exists MULW
          | now exists DIVW | now exists DIVUW | now exists REMW | now exists REMUW].
Qed.

Variable w : Z.
Hypothesis Hw : 0 <= w < 2 ^ 32.

#[local] Abbreviation found := (exists i, valid i /\ encode i = w /\ left_out i = false).

Lemma accepted_RegReg l : extract_opcode w = 0x33 -> decode_arith addr hw_thr options w = Some l -> found.
Proof.
  intros Ho H. destruct (arith_accepted _ _ _ _ _ _ H) as (op & Hop & Hl).
  exists (RegReg op (extract_rd w) (extract_rs1 w) (extract_rs2 w)). destruct (fields_range w) as (? & ? & ? & _).
  split; [now cbn|]. split; [|exact Hl]. cbn [encode]. rewrite Hop, <- Ho. symmetry. now apply word_fields.
Qed.

Lemma accepted_RegRegW l : extract_opcode w = 0x3B -> decode_arith_W addr hw_thr options w = Some l -> found.
Proof.
  intros Ho H. destruct (arith_W_accepted _ _ _ _ _ _ H) as [op Hop].
  exists (RegRegW op (extract_rd w) (extract_rs1 w) (extract_rs2 w)). destruct (fields_range w) as (? & ? & ? & _).
  split; [now cbn|]. split; [|reflexivity]. cbn [encode]. rewrite Hop, <- Ho. symmetry. now apply word_fields.
Qed.

(** An I-format word of a known opcode and function. *)
Lemma accepted_I (i : Z -> Z -> Z -> instr) o f3 :
  extract_opcode w = o -> extract_func3 w = f3 ->
  (forall rd rs1 imm, encode (i rd rs1 imm) = encode_I o rd f3 rs1 imm /\ left_out (i rd rs1 imm) = false) ->
  (forall rd rs1 imm, is_reg rd -> is_reg rs1 -> fits 12 imm -> valid (i rd rs1 imm)) -> found.
Proof.
  intros <- <- He Hv. exists (i (extract_rd w) (extract_rs1 w) (imm_I int64_t w)).
  destruct (fields_range w) as (? & ? & _). split.
  - apply Hv; auto. rewrite imm_I_field, cast_int64 by lia. apply signed_fits. lia.
  - destruct (He (extract_rd w) (extract_rs1 w) (imm_I int64_t w)) as [-> ?]. split; [now apply encode_I_word|assumption].
Qed.

#[local] Ltac I_format Ho Hf c := now apply (accepted_I c _ _ Ho Hf).

(** A shift by an immediate: what is above the amount is fixed. *)
Lemma accepted_shift op :
  extract_opcode w = fst (fst (shift_code op)) -> extract_func3 w = snd (fst (shift_code op)) ->
  w / 2 ^ 20 - snd (shift_code op) = w / 2 ^ 20 mod shift_width op -> found.
Proof.
  intros Ho Hf Hh. exists (ShiftImm op (extract_rd w) (extract_rs1 w) (w / 2 ^ 20 mod shift_width op)).
  destruct (fields_range w) as (? & ? & _). split.
  - cbn [valid]. split_and!; auto; apply Z.mod_pos_bound; destruct op; cbv; reflexivity.
  - split; [|reflexivity]. cbn [encode]. destruct (shift_code op) as [[o f3] high]. cbn [fst snd] in *. rewrite <- Hh, <- Ho, <- Hf.
    replace (high + (w / 2 ^ 20 - high)) with (w / 2 ^ 20) by ring.
    transitivity (encode_I (extract_opcode w) (extract_rd w) (extract_func3 w) (extract_rs1 w) (imm_I int64_t w));
      [|now apply encode_I_word].
    unfold encode_I. rewrite imm_I_field, cast_int64, slice_signed by lia. do 2 f_equal. unfold slice.
    rewrite !Z.div_1_r. symmetry. now apply Z.mod_mod.
Qed.

Lemma high_bits : Z.land w 0xFC000000 = w / 2 ^ 20 / 2 ^ 6 * 2 ^ 26.
Proof. mask 0xFC000000 6 26. f_equal. rewrite Z.div_div by lia. apply Z.mod_small. zlia. Qed.

Lemma accepted_imm_arith l : extract_opcode w = 0x13 -> decode_imm_arith addr hw_thr options w = Some l -> found.
Proof.
  intros Ho H. unfold decode_imm_arith in H. cbv zeta in H. rewrite high_bits in H.
  destruct (extract_func3 w) as [|p|p] eqn:Hf; [|repeat (destruct p as [p|p|]; try discriminate H)|discriminate H];
    first [I_format Ho Hf (RegImm ADDI) | I_format Ho Hf (RegImm SLTI) | I_format Ho Hf (RegImm SLTIU)
          | I_format Ho Hf (RegImm XORI) | I_format Ho Hf (RegImm ORI) | I_format Ho Hf (RegImm ANDI) | idtac].
  - destruct (Z.eqb_spec (w / 2 ^ 20 / 2 ^ 6 * 2 ^ 26) 0) as [E|]; [|destruct (Z.eqb_spec (w / 2 ^ 20 / 2 ^ 6 * 2 ^ 26) 0x40000000) as [E|]; [|discriminate H]].
    + apply (accepted_shift SRLI); [exact Ho|exact Hf|]. cbn. zlia.
    + apply (accepted_shift SRAI); [exact Ho|exact Hf|]. cbn. zlia.
  - destruct (Z.eqb_spec (w / 2 ^ 20 / 2 ^ 6 * 2 ^ 26) 0) as [E|]; [|discriminate H].
    apply (accepted_shift SLLI); [exact Ho|exact Hf|]. cbn. zlia.
Qed.

Lemma accepted_imm_arith_W l : extract_opcode w = 0x1B -> decode_imm_arith_W addr hw_thr options w = Some l -> found.
Proof.
  intros Ho H. unfold decode_imm_arith_W in H. cbv zeta in H. rewrite func7_field in H.

  destruct (extract_func3 w) as [|p|p] eqn:Hf; [I_format Ho Hf (RegImm ADDIW)| |discriminate H].
  assert (Hu : w / 2 ^ 25 mod 2 ^ 7 = w / 2 ^ 20 / 2 ^ 5) by (rewrite Z.div_div by lia; apply Z.mod_small; zlia).
  rewrite Hu in H. destruct (w / 2 ^ 20 / 2 ^ 5) as [|q|q] eqn:E; cases H.
  - apply (accepted_shift SRLIW); [exact Ho|exact Hf|]. cbn. zlia.
  - apply (accepted_shift SLLIW); [exact Ho|exact Hf|]. cbn. zlia.
  - apply (accepted_shift SRAIW); [exact Ho|exact Hf|]. cbn. zlia.
Qed.

Lemma accepted_load l : extract_opcode w = 0x3 -> decode_load addr hw_thr options w = Some l -> found.
Proof.
  intros Ho H. unfold decode_load in H. destruct (extract_func3 w) as [|p|p] eqn:Hf; cases H;
    first [I_format Ho Hf (LoadInt LB) | I_format Ho Hf (LoadInt LH) | I_format Ho Hf (LoadInt LW)
          | I_format Ho Hf (LoadInt LD) | I_format Ho Hf (LoadInt LBU) | I_format Ho Hf (LoadInt LHU)
          | I_format Ho Hf (LoadInt LWU)].
Qed.

Lemma accepted_upper : extract_opcode w = 0x37 \/ extract_opcode w = 0x17 -> found.
Proof.
  intros Ho. destruct (fields_range w) as (Hrd & _).
  assert (Hw' : encode_U (extract_opcode w) (extract_rd w) (signed 20 (w / 2 ^ 12)) = w).
  { rewrite <- (encode_U_word w Hw) at 4. unfold encode_U. now rewrite signed_mod, Z.mod_mod by lia. }
  destruct Ho as [Ho|Ho]; rewrite Ho in Hw';
    [exists (LUI (extract_rd w) (signed 20 (w / 2 ^ 12))) | exists (AUIPC (extract_rd w) (signed 20 (w / 2 ^ 12)))];
    (split; [split; [exact Hrd|now apply signed_fits] | split; [exact Hw'|reflexivity]]).
Qed.

Lemma accepted_JAL : extract_opcode w = 0x6F -> found.
Proof.
  intros Ho. exists (JAL (extract_rd w) (imm_J int64_t w)). destruct (fields_range w) as (Hrd & _). split.
  - rewrite imm_J_field. split_and!; [exact Hrd|now apply signed_fits|]. apply signed_even; [lia|].
    unfold offset_J. exists (2 ^ 19 * (w / 2 ^ 31 mod 2 ^ 1) + 2 ^ 11 * (w / 2 ^ 12 mod 2 ^ 8)
      + 2 ^ 10 * (w / 2 ^ 20 mod 2 ^ 1) + w / 2 ^ 21 mod 2 ^ 10). numerals. ring.
  - split; [|reflexivity]. cbn [encode]. rewrite <- Ho. now apply encode_J_word.
Qed.

Lemma accepted_branch l : extract_opcode w = 0x63 -> decode_branch addr hw_thr options w = Some l -> found.
Proof.
  intros Ho H. assert (exists op, branch_code op = extract_func3 w) as [op Hop].
  { unfold decode_branch in H. destruct (extract_func3 w) as [|p|p]; cases H;
      first [now exists BEQ | now exists BNE | now exists BLT | now exists BGE | now exists BLTU | now exists BGEU]. }
  exists (Branch op (extract_rs1 w) (extract_rs2 w) (imm_B int64_t w)).
  destruct (fields_range w) as (_ & ? & ? & _). split.
  - rewrite imm_B_field. split_and!; [auto..|now apply signed_fits|]. apply signed_even; [lia|].
    unfold offset_B. exists (2 ^ 11 * (w / 2 ^ 31 mod 2 ^ 1) + 2 ^ 10 * (w / 2 ^ 7 mod 2 ^ 1)
      + 2 ^ 4 * (w / 2 ^ 25 mod 2 ^ 6) + w / 2 ^ 8 mod 2 ^ 4). numerals. ring.
  - split; [|reflexivity]. cbn [encode]. rewrite Hop, <- Ho. now apply encode_B_word.
Qed.

Lemma accepted_JALR l : extract_opcode w = 0x67 -> decode_JALR addr hw_thr options w = Some l -> found.
Proof.
  intros Ho H. unfold decode_JALR in H. destruct (extract_func3 w) eqn:Hf; try discriminate H. I_format Ho Hf JALR.
Qed.

Definition integer_opcode (o : Z) : Prop :=
  o ∈ [0x3; 0x13; 0x33; 0x37; 0x17; 0x1B; 0x6F; 0x67; 0x63; 0x3B].

Lemma accepted l : integer_opcode (extract_opcode w) -> decode_32 w = Ok (Some l) -> found.
Proof.
  unfold integer_opcode. intros Ho H. unfold RiscvDecode.decode_32 in H.
  repeat (apply elem_of_cons in Ho as [Ho|Ho]; [rewrite Ho in H; try (injection H as H)|]); [..|set_solver];
    eauto using accepted_load, accepted_imm_arith, accepted_RegReg, accepted_imm_arith_W, accepted_JAL,
      accepted_JALR, accepted_branch, accepted_RegRegW, accepted_upper.
Qed.

(** C13. Under the integer opcodes of RV64I and M, the stores aside, the decoder accepts the
    encodings of the instructions of the set other than MULH and MULHSU, each as its
    micro-operation, and no other word; the encodings of these two it leaves faulting. *)
Theorem decode_accepts l :
  integer_opcode (extract_opcode w) ->
  (decode_32 w = Ok (Some l) <-> exists i, valid i /\ encode i = w /\ left_out i = false /\ l = [uop addr hw_thr options i]) /\
  ((exists i, valid i /\ encode i = w /\ left_out i = true) -> decode_32 w = Ok None).
Proof.
  intros Ho. split; [split|].
  - intros H. destruct (accepted l Ho H) as (i & Hi & <- & Hl). exists i. split_and!; auto.
    rewrite decode_encode in H by assumption. congruence.
  - intros (i & Hi & <- & Hl & ->). now apply decode_encode.
  - intros (i & Hi & <- & Hl). now apply decode_left_out.
Qed.
End sound.
