(* ===== verification/RiscvExec.v ===== *)
(** * RiscvExec: executing a micro-operation

    [execute_computes]: executed with any assignment of physical registers, the
    micro-operation of an instruction writes the result the instruction set asks for
    and nothing else, for the instructions that compute into a register ([computing]) in
    the cases [computes] lists; [branch_goes] that branches and jumps record the address
    execution goes on at. What [computes] leaves out is where the code does something
    else.

    [decode_execute] composes the decoder with the micro-operations: the bundle of an
    encoded instruction has one micro-operation, and executing it writes what the
    instruction set asks for. The other theorems say what happens where it does not:
    shifts by zero, divisions by zero, addresses above 4 GiB. *)

From S2P Require Import Prelude VanadisRegs VanadisInst RiscvIsa RiscvDecode RiscvFields RiscvCode.

(** Physical registers for the registers an instruction names. *)
Definition with_registers (im om : Z -> Z) (i : VanadisInstruction) : VanadisInstruction :=
  i <| phys_int_regs_in := im <$> isa_int_regs_in i |> <| phys_int_regs_out := om <$> isa_int_regs_out i |>.

(** [rf'] is [rf] with word [v] in register [r]. *)
Record stores (rf : VanadisRegisterFile) (r v : Z) (rf' : VanadisRegisterFile) : Prop := {
  stores_wf : regfile_wf rf';
  stores_opts : decoder_opts rf' = decoder_opts rf;
  stores_count : count_int_regs rf' = count_int_regs rf;
  stores_value q : 0 <= q ->
    value rf' q = if decide (q = r) then (if ignores rf r then 0 else v) else value rf q }.

(** The instruction is executed, raises no error and stores [v] in [r]. *)
Definition executed (s : exec) (r v : Z) (s' : exec) : Prop :=
  ins s' = (ins s) <| hasExecuted := true |> /\ stores (regFile s) r v (regFile s').

(** The instruction is executed and records that execution goes on at [pc]. *)
Definition goes_to (s : exec) (pc : Z) (s' : exec) : Prop :=
  ins s' = (ins s) <| hasExecuted := true |> <| speculated ::= fmap (fun b => b <| takenAddress := pc |>) |> /\
  regFile s' = regFile s.

(** ** Reading and writing registers *)

Section steps.
Variable s : exec.
Hypothesis Hwf : regfile_wf (regFile s).

Lemma runs_getInt T k r Q :
  at_index (phys_int_regs_in (ins s)) k = Ok r -> in_range (regFile s) r ->
  Q (cast T (value (regFile s) r)) s -> runs (getInt T k) s Q.
Proof.
  intros Hr Hin HQ. unfold getInt. eapply runs_getsR; [|exact HQ].
  rewrite Hr. cbn. now apply getIntReg_value.
Qed.

Lemma runs_setInt T k r v se Q :
  at_index (phys_int_regs_out (ins s)) k = Ok r -> in_range (regFile s) r ->
  (forall rf', stores (regFile s) r (extend T se v) rf' -> Q tt (s <| regFile := rf' |>)) ->
  runs (setIntAs T k v se) s Q.
Proof.
  intros Hr Hin HQ. destruct (setIntReg_value T r v se (regFile s) Hwf Hin) as (rf' & Hset & Hwf' & Ho & Hc & Hv & Hq).
  exists tt, (s <| regFile := rf' |>). split.
  - unfold setIntAs, modify_regs. rewrite Hr. cbn. now rewrite Hset.
  - apply HQ. split; auto. intros q H0. case_decide; subst; auto.
Qed.

(** Writing the result is the last thing an instruction does. *)
Lemma runs_finish T r v w se :
  at_index (phys_int_regs_out (ins s)) 0 = Ok r -> in_range (regFile s) r -> extend T se v = w ->
  runs (setIntAs T 0 v se) s (fun _ s1 => runs markExecuted s1 (fun _ s' => executed s r w s')).
Proof.
  intros Hr Hin <-. eapply runs_setInt; [exact Hr|exact Hin|]. intros rf' Hst.
  apply runs_modify. destruct s as [i rf]. split; [reflexivity|exact Hst].
Qed.
End steps.

Lemma runs_modify_regs f s rf' (Q : unit -> exec -> Prop) :
  f s = Ok rf' -> Q tt (s <| regFile := rf' |>) -> runs (modify_regs f) s Q.
Proof. intros Hf HQ. exists tt, (s <| regFile := rf' |>). unfold modify_regs. now rewrite Hf. Qed.

Lemma runs_arith wrapv T z s Q :
  in_format T z || wrapv = true -> Q (cast T z) s -> runs (arith wrapv T z) s Q.
Proof. intros H HQ. unfold arith. rewrite H. now apply runs_ret. Qed.

Lemma runs_shift_left T x n s Q :
  0 <= n < width T -> Q (cast T (x * 2 ^ n)) s -> runs (shift_left T x n) s Q.
Proof.
  intros H HQ. unfold shift_left. replace ((0 <=? n) && (n <? width T)) with true by (symmetry; lia).
  apply runs_ret. now rewrite Z.shiftl_mul_pow2 by lia.
Qed.
Lemma runs_shift_right T x n s Q :
  0 <= n < width T -> Q (x / 2 ^ n) s -> runs (shift_right T x n) s Q.
Proof.
  intros H HQ. unfold shift_right. replace ((0 <=? n) && (n <? width T)) with true by (symmetry; lia).
  apply runs_ret. now rewrite Z.shiftr_div_pow2 by lia.
Qed.
Lemma runs_quotient T op a b s Q :
  b <> 0 -> in_format T (Z.quot a b) = true -> Q (op a b) s -> runs (quotient T op a b) s Q.
Proof.
  intros Hb H HQ. unfold quotient. rewrite (proj2 (Z.eqb_neq b 0)), H by exact Hb. now apply runs_ret.
Qed.

(** ** Words modulo a power of two *)

Lemma cast_mod T v : cast T v mod 2 ^ width T = v mod 2 ^ width T.
Proof.
  unfold cast. destruct (is_signed T); [apply signed_mod|apply Z.mod_mod]; destruct (width_cases T) as [-> | ->]; lia.
Qed.
Lemma cast_eq T v v' : v mod 2 ^ width T = v' mod 2 ^ width T -> cast T v = cast T v'.
Proof. intros H. unfold cast. destruct (is_signed T); [now apply signed_mod_arg|exact H]. Qed.
Lemma extend_eq T v v' : v mod 2 ^ width T = v' mod 2 ^ width T -> extend T true v = extend T true v'.
Proof. intros H. unfold extend. f_equal. now apply signed_mod_arg. Qed.

(** Sums, differences and products of converted operands. *)
Inductive ring_op := RAdd | RSub | RMul.
Definition ring_fun (o : ring_op) : Z -> Z -> Z :=
  match o with RAdd => Z.add | RSub => Z.sub | RMul => Z.mul end.
Lemma ring_mod o n a b a' b' :
  a mod n = a' mod n -> b mod n = b' mod n -> ring_fun o a b mod n = ring_fun o a' b' mod n.
Proof.
  intros Ha Hb. destruct o; cbn [ring_fun].
  - now rewrite Zplus_mod, Ha, Hb, <- Zplus_mod.
  - now rewrite Zminus_mod, Ha, Hb, <- Zminus_mod.
  - now rewrite Zmult_mod, Ha, Hb, <- Zmult_mod.
Qed.
Lemma extend_ring o T a b :
  extend T true (cast T (ring_fun o (cast T a) (cast T b))) = extend T true (ring_fun o a b).
Proof.
  apply extend_eq. rewrite cast_mod. apply ring_mod; apply cast_mod.
Qed.

Lemma extend_64 T v : width T = 64 -> extend T true v = u64 v.
Proof. intros H. unfold extend, u64. rewrite H. apply signed_mod. lia. Qed.
Lemma extend_32 T v : width T = 32 -> extend T true v = sext32 v.
Proof. intros H. unfold extend, sext32. now rewrite H. Qed.
Lemma u64_sgn a : u64 (sgn a) = u64 a.
Proof. unfold u64, sgn. apply signed_mod. lia. Qed.
Lemma sgn_u64 a : sgn (u64 a) = sgn a.
Proof. unfold sgn, u64. apply signed_mod_arg. apply Z.mod_mod. lia. Qed.
Lemma u64_idem a : u64 (u64 a) = u64 a.
Proof. unfold u64. apply Z.mod_mod. lia. Qed.
Lemma signed_zero n a : 0 < n -> signed n a = 0 <-> a mod 2 ^ n = 0.
Proof.
  intros Hn. split; intros H.
  - rewrite <- signed_mod, H by lia. apply Z.mod_0_l. lia.
  - rewrite <- (signed_small n 0) by lia. apply signed_mod_arg. rewrite H. symmetry. apply Z.mod_0_l. lia.
Qed.

Lemma bits_u64 (f : Z -> Z -> Z) (g : bool -> bool -> bool) a b :
  (forall x y i, 0 <= i -> Z.testbit (f x y) i = g (Z.testbit x i) (Z.testbit y i)) -> g false false = false ->
  u64 (f (u64 a) (u64 b)) = f (u64 a) (u64 b).
Proof.
  intros Hf Hg. unfold u64. apply Z.bits_inj_iff'. intros i Hi.
  rewrite <- !Z.land_ones by lia. rewrite Z.land_spec, Hf, !Z.land_spec by lia.
  destruct (Z.ltb_spec i 64).
  - rewrite Z.ones_spec_low by lia. now rewrite !andb_true_r.
  - rewrite Z.ones_spec_high by lia. now rewrite !andb_false_r.
Qed.
Lemma u64_land a b : u64 (Z.land (u64 a) (u64 b)) = Z.land (u64 a) (u64 b).
Proof. apply (bits_u64 Z.land andb); auto using Z.land_spec. Qed.
Lemma u64_lor a b : u64 (Z.lor (u64 a) (u64 b)) = Z.lor (u64 a) (u64 b).
Proof. apply (bits_u64 Z.lor orb); auto using Z.lor_spec. Qed.
Lemma u64_lxor a b : u64 (Z.lxor (u64 a) (u64 b)) = Z.lxor (u64 a) (u64 b).
Proof. apply (bits_u64 Z.lxor xorb); auto using Z.lxor_spec. Qed.

Lemma div_range a d n : 0 <= a < 2 ^ n -> 0 <= d -> 0 <= a / 2 ^ d < 2 ^ n.
Proof.
  intros Ha Hd. pose proof (Z.pow_pos_nonneg 2 d ltac:(lia) Hd). split; [apply Z.div_pos; lia|].
  apply Z.div_lt_upper_bound; nia.
Qed.
Lemma div_range' a b : 0 <= a < 2 ^ 64 -> 0 <= b -> 0 <= a / b < 2 ^ 64.
Proof.
  intros Ha Hb. destruct (Z.eq_dec b 0) as [->|]; [rewrite Z.div_0_r; lia|].
  split; [apply Z.div_pos; lia|]. apply Z.div_lt_upper_bound; nia.
Qed.

(** ** What is computed *)

Section execute.
Context (addr hw_thr : Z) (options : VanadisDecoderOptions).
Context (wrapv : bool) (cycle_count : Z) (host : fp_operation -> list Z -> Z) (im om : Z -> Z) (rf : VanadisRegisterFile).

(** The registers of the instruction set, through the assignment. *)
Definition x (r : Z) : Z := value rf (im r).
#[local] Arguments x : simpl never.

#[local] Abbreviation execution := (execution wrapv cycle_count host).
Definition start (i : VanadisInstruction) : exec := mkExec (with_registers im om i) rf.

(** Signed arithmetic wraps, or does not overflow. *)
Definition fine (T : format) (z : Z) : Prop := in_format T z || wrapv = true.
Definition no_overflow (n a b : Z) : Prop := ~ (signed n a = - 2 ^ (n - 1) /\ signed n b = -1).

Definition computes_alu (op : alu_op) (a b : Z) : Prop :=
  match op with
  | ADD => fine int64_t (sgn a + sgn b)
  | SUB => fine int64_t (sgn a - sgn b)
  | MUL => fine int64_t (sgn a * sgn b)
  | SLL | SRL | SRA => 0 < b < 64
  | DIV => b <> 0 /\ no_overflow 64 a b
  | DIVU => b <> 0
  | REM => b <> 0 -> no_overflow 64 a b
  | SLT | SLTU | XOR | OR | AND | MULH | MULHSU | MULHU | REMU => True
  end.
Definition computes_alu_w (op : alu_w_op) (a b : Z) : Prop :=
  let sa := signed 32 a in let sb := signed 32 b in
  match op with
  | ADDW => fine int32_t (sa + sb)
  | SUBW => fine int32_t (sa - sb)
  | MULW => fine int32_t (sa * sb)
  | SLLW | SRLW | SRAW => True
  | DIVW => u32 b <> 0 /\ no_overflow 32 a b
  | DIVUW => u32 b <> 0
  | REMW => u32 b <> 0 -> no_overflow 32 a b
  | REMUW => (if u32 b =? 0 then u32 a else u32 a mod u32 b) < 2 ^ 31
  end.
Definition computes (i : instr) : Prop :=
  match i with
  | RegReg op _ rs1 rs2 => computes_alu op (x rs1) (x rs2)
  | RegRegW op _ rs1 rs2 => computes_alu_w op (x rs1) (x rs2)
  | RegImm ADDI _ rs1 imm => fine int64_t (sgn (x rs1) + imm)
  | RegImm ADDIW _ rs1 imm => fine int32_t (signed 32 (x rs1) + imm)
  | ShiftImm _ _ _ shamt => shamt <> 0
  | AUIPC _ imm => u64 (addr + imm * 2 ^ 12) < 2 ^ 32 /\ fine int64_t (sgn addr + u32 (imm * 2 ^ 12))
  | RegImm _ _ _ _ | LUI _ _ | JAL _ _ => True
  | JALR _ _ _ | Branch _ _ _ _ | LoadInt _ _ _ _ | StoreInt _ _ _ _ => True
  end.
(** The instructions that write a register from registers and immediates: all of the set
    but branches, loads, stores, JALR ([JALR_clobbers]) and those the decoder has not. *)
Definition computing (i : instr) : bool :=
  match i with
  | RegReg _ _ _ _ | RegRegW _ _ _ _ | RegImm _ _ _ _ | ShiftImm _ _ _ _ | LUI _ _ | AUIPC _ _ | JAL _ _ => negb (left_out i)
  | JALR _ _ _ | Branch _ _ _ _ | LoadInt _ _ _ _ | StoreInt _ _ _ _ => false
  end.

Hypothesis Hwf : regfile_wf rf.
Hypothesis Him : forall r, is_reg r -> in_range rf (im r).
Hypothesis Hom : forall r, is_reg r -> in_range rf (om r).

Lemma u64_x r : u64 (x r) = x r.
Proof. apply u64_small. now apply value_range. Qed.

Lemma runs_read T k r i Q :
  at_index (phys_int_regs_in (with_registers im om i)) k = Ok (im r) -> is_reg r ->
  Q (cast T (x r)) (start i) -> runs (getInt T k) (start i) Q.
Proof. intros Hk Hr HQ. eapply runs_getInt; [exact Hwf|exact Hk|now apply Him|exact HQ]. Qed.

(** Run an instruction: read its operands, compute, write the result. *)
Ltac reads := apply runs_bind; eapply runs_read; [reflexivity|assumption|]; cbn beta.
Ltac widths := change (width int64_t) with 64; change (width uint64_t) with 64;
  change (width int32_t) with 32; change (width uint32_t) with 32.
Ltac finish := try apply runs_bind; eapply runs_finish; [exact Hwf|reflexivity|now auto|].
Ltac ring_op o := apply runs_bind, runs_arith; [assumption|]; finish; rewrite (extend_ring o);
  rewrite ?extend_64, ?extend_32 by reflexivity; reflexivity.
Ltac begin i := cbv zeta;
  match goal with |- runs ?m ?s ?Q =>
    let m' := eval lazy [execution class i VanadisAddImmInstruction VanadisAddInstruction VanadisSubInstruction
      VanadisAndInstruction VanadisOrInstruction VanadisXorInstruction VanadisAndImmInstruction VanadisOrImmInstruction
      VanadisXorImmInstruction VanadisMultiplyInstruction VanadisMultiplyHighInstruction VanadisDivideInstruction
      VanadisModuloInstruction VanadisSetRegCompareInstruction VanadisSetRegCompareImmInstruction
      VanadisSetRegisterInstruction VanadisPCAddImmInstruction VanadisShiftLeftLogicalInstruction
      VanadisShiftLeftLogicalImmInstruction VanadisShiftRightLogicalInstruction VanadisShiftRightLogicalImmInstruction
      VanadisShiftRightArithmeticInstruction VanadisShiftRightArithmeticImmInstruction
      VanadisBranchRegCompareInstruction VanadisJumpLinkInstruction VanadisJumpRegLinkInstruction
      new_instruction new_speculated takes execute] in m in
    change (runs m' s Q) end.

Lemma cast_uint64 r : cast uint64_t (x r) = x r.
Proof. apply u64_x. Qed.
Lemma extend_bool (b : bool) : extend uint64_t true (if b then 1 else 0) = bool_word b.
Proof. now destruct b. Qed.

(** The shift distances of the instruction set, where the code uses the register itself. *)
Lemma small_shift b : 0 < b < 64 -> cast uint64_t b = b /\ cast int64_t b = b /\ b mod 64 = b.
Proof.
  intros H. split; [|split].
  - apply Z.mod_small. change (2 ^ width uint64_t) with (2 ^ 64). lia.
  - apply (signed_small 64); simpl; lia.
  - apply Z.mod_small. lia.
Qed.

Lemma alu_shifts op rd rs1 rs2 :
  (op = SLL \/ op = SRL \/ op = SRA) ->
  is_reg rd -> is_reg rs1 -> is_reg rs2 -> 0 < x rs2 < 64 ->
  let i := uop_alu addr hw_thr options op rd rs1 rs2 in
  runs (execution i) (start i) (fun _ s' => executed (start i) (om rd) (alu op (x rs1) (x rs2)) s').
Proof.
  intros Hop Hrd Hrs1 Hrs2 Hb. cbv zeta. destruct (small_shift _ Hb) as (Hu & Hs & Hm).
  assert (Hz : (0 =? x rs2) = false) by lia.
  destruct Hop as [-> | [-> | ->]]; unfold execution; cbn [class uop_alu alu]; unfold execute; rewrite Hm.
  - unfold exec_ShiftLeftLogical. apply runs_bind. reads. reads. rewrite Hu, Hz, cast_uint64.
    apply runs_bind, runs_shift_left; [widths; lia|]. finish. rewrite extend_64 by reflexivity. apply u64_idem.
  - unfold exec_ShiftRightLogical. apply runs_bind. reads. reads. rewrite Hu, Hz, cast_uint64.
    apply runs_bind, runs_shift_right; [widths; lia|]. finish. rewrite extend_64 by reflexivity.
    apply u64_small, div_range; [now apply value_range|lia].
  - unfold exec_ShiftRightArithmetic. apply runs_bind. reads. reads. rewrite Hs, Hz.
    apply runs_bind, runs_shift_right; [widths; lia|]. finish. now rewrite extend_64.
Qed.

Lemma in_format_quot T a b :
  (is_signed T = true -> 0 < width T /\ - 2 ^ (width T - 1) <= a < 2 ^ (width T - 1) /\ ~ (a = - 2 ^ (width T - 1) /\ b = -1)) ->
  in_format T (Z.quot a b) = true.
Proof.
  unfold in_format. destruct (is_signed T); [|reflexivity]. intros H. destruct (H eq_refl) as (Hw & Ha & Hn).
  set (m := 2 ^ (width T - 1)) in *. enough (- m <= Z.quot a b < m) by lia.
  destruct (Z.eq_dec b 0) as [->|Hb]; [rewrite Z.quot_0_r_ext by reflexivity; lia|].
  pose proof (Z.quot_abs a b Hb) as Habs. pose proof (Z.quot_le_upper_bound (Z.abs a) (Z.abs b) (Z.abs a)).
  destruct (Z.eq_dec (Z.abs b) 1) as [H1|H1].
  - assert (b = 1 \/ b = -1) as [-> | ->] by lia; [rewrite Z.quot_1_r; lia|].
    change (-1) with (- (1)) in *. rewrite Z.quot_opp_r, Z.quot_1_r by lia. lia.
  - assert (Z.quot (Z.abs a) (Z.abs b) < m); [|lia].
    assert (2 * Z.quot (Z.abs a) (Z.abs b) <= Z.abs a); [|lia].
    pose proof (Z.mul_quot_le (Z.abs a) (Z.abs b) ltac:(lia) ltac:(lia)). nia.
Qed.

Lemma alu_divides op rd rs1 rs2 :
  (op = DIV \/ op = DIVU \/ op = REM \/ op = REMU) ->
  is_reg rd -> is_reg rs1 -> is_reg rs2 -> computes_alu op (x rs1) (x rs2) ->
  let i := uop_alu addr hw_thr options op rd rs1 rs2 in
  runs (execution i) (start i) (fun _ s' => executed (start i) (om rd) (alu op (x rs1) (x rs2)) s').
Proof.
  intros Hop Hrd Hrs1 Hrs2 Hc. pose proof (value_range rf (im rs1) Hwf : 0 <= x rs1 < 2 ^ 64) as H1.
  pose proof (value_range rf (im rs2) Hwf : 0 <= x rs2 < 2 ^ 64) as H2.
  assert (Hz : cast int64_t (x rs2) = 0 <-> x rs2 = 0).
  { unfold cast, is_signed, width, sizeof. rewrite signed_zero by lia. now rewrite Z.mod_small by lia. }
  pose proof (signed_range 64 (x rs1) ltac:(lia)) as Hsr.
  destruct Hop as [-> | [-> | [-> | ->]]]; begin uop_alu; cbn [computes_alu alu] in *.
  - destruct Hc as [Hb Hov]. unfold exec_Divide. reads. reads. apply runs_bind.
    rewrite (proj2 (Z.eqb_neq 0 _)), (proj2 (Z.eqb_neq (x rs2) 0)) by lia.
    apply runs_bind, runs_quotient; [tauto|apply in_format_quot; intros _; split; [widths; lia|split; [exact Hsr|exact Hov]]|].
    finish. now rewrite extend_64.
  - unfold exec_Divide. reads. reads. apply runs_bind. rewrite !cast_uint64.
    rewrite (proj2 (Z.eqb_neq 0 _)), (proj2 (Z.eqb_neq (x rs2) 0)) by lia.
    apply runs_bind, runs_quotient; [lia|now apply in_format_quot|].
    finish. rewrite extend_64 by reflexivity. rewrite Z.quot_div_nonneg by lia. apply u64_small, div_range'; lia.
  - unfold exec_Modulo. reads. reads. rewrite (cast_eq int64_t (cast int64_t (x rs1)) (x rs1)) by apply cast_mod.
    rewrite (cast_eq int64_t (cast int64_t (x rs2)) (x rs2)) by apply cast_mod. apply runs_bind.
    destruct (Z.eqb_spec 0 (cast int64_t (x rs2))) as [E|E].
    + rewrite (proj2 (Z.eqb_eq (x rs2) 0)) by (apply Hz; congruence). finish.
      change (is_signed int64_t) with true. rewrite extend_64 by reflexivity. transitivity (u64 (x rs1)); [apply u64_sgn|apply u64_x].
    + assert (x rs2 <> 0) by (intros H; apply E; symmetry; now apply Hz).
      rewrite (proj2 (Z.eqb_neq (x rs2) 0)) by assumption.
      apply runs_bind, runs_quotient; [congruence|apply in_format_quot; intros _; split; [widths; lia|split; [exact Hsr|now apply Hc]]|].
      finish. change (is_signed int64_t) with true. now rewrite extend_64.
  - unfold exec_Modulo. reads. reads.
    rewrite (cast_eq uint64_t (cast int64_t (x rs1)) (x rs1)) by apply (cast_mod int64_t).
    rewrite (cast_eq uint64_t (cast int64_t (x rs2)) (x rs2)) by apply (cast_mod int64_t).
    rewrite !cast_uint64. apply runs_bind. rewrite (Z.eqb_sym 0). destruct (Z.eqb_spec (x rs2) 0) as [E|E].
    + finish. apply Z.mod_small. exact H1.
    + apply runs_bind, runs_quotient; [exact E|now apply in_format_quot|]. finish.
      rewrite Z.rem_mod_nonneg by lia. pose proof (Z.mod_pos_bound (x rs1) (x rs2) ltac:(lia)).
      apply Z.mod_small. widths. lia.
Qed.

Lemma alu_computes op rd rs1 rs2 :
  is_reg rd -> is_reg rs1 -> is_reg rs2 -> left_out_alu op = false -> computes_alu op (x rs1) (x rs2) ->
  let i := uop_alu addr hw_thr options op rd rs1 rs2 in
  runs (execution i) (start i) (fun _ s' => executed (start i) (om rd) (alu op (x rs1) (x rs2)) s').
Proof.
  intros Hrd Hrs1 Hrs2 Hl Hc. pose proof (value_range rf (im rs1) Hwf : 0 <= x rs1 < 2 ^ 64) as H1.
  pose proof (value_range rf (im rs2) Hwf : 0 <= x rs2 < 2 ^ 64) as H2.
  destruct op; try discriminate Hl; try (apply alu_shifts; auto; fail); try (apply alu_divides; auto; fail);
    begin uop_alu; cbn [computes_alu alu] in *.
  - unfold exec_Add. reads. reads. ring_op RAdd.
  - unfold exec_Sub. reads. reads. ring_op RSub.
  - unfold exec_SetRegCompare. apply runs_bind. unfold registerCompare. reads. reads. apply runs_ret.
    finish. apply extend_bool.
  - unfold exec_SetRegCompare. apply runs_bind. unfold registerCompare. reads. reads. apply runs_ret.
    finish. rewrite !cast_uint64. apply extend_bool.
  - unfold exec_Xor. reads. reads. rewrite !cast_uint64. finish. rewrite extend_64 by reflexivity.
    rewrite <- (u64_x rs1), <- (u64_x rs2). apply u64_lxor.
  - unfold exec_Or. reads. reads. rewrite !cast_uint64. finish. rewrite extend_64 by reflexivity.
    rewrite <- (u64_x rs1), <- (u64_x rs2). apply u64_lor.
  - unfold exec_And. reads. reads. rewrite !cast_uint64. finish. rewrite extend_64 by reflexivity.
    rewrite <- (u64_x rs1), <- (u64_x rs2). apply u64_land.
  - unfold exec_Multiply. reads. reads. ring_op RMul.
  - unfold exec_MultiplyHigh. reads. reads. rewrite !cast_uint64. cbn [is_signed]. apply runs_bind. finish.
    rewrite extend_64, u64_idem by reflexivity. rewrite Z.mod_small by nia. change (8 * sizeof uint64_t) with 64.
    rewrite Z.shiftr_div_pow2 by lia. apply u64_small. split; [apply Z.div_pos; nia|].
    apply Z.div_lt_upper_bound; nia.
Qed.

(** 32-bit operations. *)
Lemma low_five a : Z.land (cast uint32_t a) 31 = a mod 32.
Proof.
  change 31 with (Z.ones 5). rewrite Z.land_ones by lia. change (2 ^ 5) with 32.
  unfold cast. cbn [is_signed]. change (2 ^ width uint32_t) with (2 ^ 32). apply (mod_of_mod 5 32). lia.
Qed.
Lemma sext32_cast T v : width T = 32 -> extend T true (cast T v) = sext32 v.
Proof. intros H. rewrite (extend_eq T (cast T v) v) by apply cast_mod. now apply extend_32. Qed.

Lemma alu_w_shifts op rd rs1 rs2 :
  (op = SLLW \/ op = SRLW \/ op = SRAW) ->
  is_reg rd -> is_reg rs1 -> is_reg rs2 ->
  let i := uop_alu_w addr hw_thr options op rd rs1 rs2 in
  runs (execution i) (start i) (fun _ s' => executed (start i) (om rd) (alu_w op (x rs1) (x rs2)) s').
Proof.
  intros Hop Hrd Hrs1 Hrs2. pose proof (Z.mod_pos_bound (x rs2) 32 ltac:(lia)) as Hm.
  destruct Hop as [-> | [-> | ->]]; begin uop_alu_w; cbn [alu_w];
    [unfold exec_ShiftLeftLogical|unfold exec_ShiftRightLogical|unfold exec_ShiftRightArithmetic];
    apply runs_bind; reads; reads; rewrite low_five; destruct (Z.eqb_spec 0 (x rs2 mod 32)) as [E|E].
  - rewrite <- E. finish. rewrite Z.mul_1_r. rewrite extend_32 by reflexivity. reflexivity.
  - apply runs_bind, runs_shift_left; [widths; lia|]. finish. now apply sext32_cast.
  - rewrite <- E. finish. rewrite Z.div_1_r. rewrite extend_32 by reflexivity. reflexivity.
  - apply runs_bind, runs_shift_right; [widths; lia|]. finish. now apply extend_32.
  - rewrite <- E. finish. rewrite Z.div_1_r. rewrite extend_32 by reflexivity. reflexivity.
  - apply runs_bind, runs_shift_right; [widths; lia|]. finish. now apply extend_32.
Qed.

Lemma low_word v : cast int64_t v mod 2 ^ 32 = v mod 2 ^ 32.
Proof.
  pose proof (cast_mod int64_t v) as H. change (width int64_t) with 64 in H.
  rewrite <- (mod_of_mod 32 64 (cast int64_t v)), H by lia. apply mod_of_mod. lia.
Qed.
Lemma cast_int32 r : cast int32_t (cast int64_t (x r)) = signed 32 (x r).
Proof. apply (signed_mod_arg 32), low_word. Qed.
Lemma cast_uint32 r : cast uint32_t (cast int64_t (x r)) = u32 (x r).
Proof. apply low_word. Qed.

Lemma alu_w_divides op rd rs1 rs2 :
  (op = DIVW \/ op = DIVUW \/ op = REMW \/ op = REMUW) ->
  is_reg rd -> is_reg rs1 -> is_reg rs2 -> computes_alu_w op (x rs1) (x rs2) ->
  let i := uop_alu_w addr hw_thr options op rd rs1 rs2 in
  runs (execution i) (start i) (fun _ s' => executed (start i) (om rd) (alu_w op (x rs1) (x rs2)) s').
Proof.
  intros Hop Hrd Hrs1 Hrs2 Hc.
  assert (Hz : signed 32 (x rs2) = 0 <-> u32 (x rs2) = 0) by now apply signed_zero.
  pose proof (signed_range 32 (x rs1) ltac:(lia)) as Hsr.
  pose proof (u32_range (x rs1)) as H1. pose proof (u32_range (x rs2)) as H2.
  destruct Hop as [-> | [-> | [-> | ->]]]; begin uop_alu_w; cbn [computes_alu_w alu_w] in *.
  - destruct Hc as [Hb Hov]. unfold exec_Divide. reads. reads. apply runs_bind.
    change (cast int32_t) with (signed 32).
    rewrite (proj2 (Z.eqb_neq 0 _)), (proj2 (Z.eqb_neq (u32 (x rs2)) 0)) by lia.
    apply runs_bind, runs_quotient; [tauto|apply in_format_quot; intros _; split; [widths; lia|split; [exact Hsr|exact Hov]]|].
    finish. now apply extend_32.
  - unfold exec_Divide. reads. reads. apply runs_bind. change (cast uint32_t) with u32.
    rewrite (proj2 (Z.eqb_neq 0 _)), (proj2 (Z.eqb_neq (u32 (x rs2)) 0)) by lia.
    apply runs_bind, runs_quotient; [lia|now apply in_format_quot|].
    finish. rewrite Z.quot_div_nonneg by lia. now apply extend_32.
  - unfold exec_Modulo. reads. reads. rewrite !cast_int32. apply runs_bind.
    destruct (Z.eqb_spec 0 (signed 32 (x rs2))) as [E|E].
    + rewrite (proj2 (Z.eqb_eq (u32 (x rs2)) 0)) by (apply Hz; congruence). finish.
      now apply (sext32_cast int32_t).
    + assert (u32 (x rs2) <> 0) by (intros H; apply E; symmetry; now apply Hz).
      rewrite (proj2 (Z.eqb_neq (u32 (x rs2)) 0)) by assumption.
      apply runs_bind, runs_quotient; [congruence|apply in_format_quot; intros _; split; [widths; lia|split; [exact Hsr|now apply Hc]]|].
      finish. now apply (extend_32 int32_t).
  - assert (Hsext : forall v, 0 <= v < 2 ^ 31 -> extend uint32_t false v = sext32 v).
    { intros v Hv. unfold extend, sext32. widths. rewrite signed_small, u64_small by (simpl in *; lia).
      apply Z.mod_small. lia. }
    unfold exec_Modulo. reads. reads. rewrite !cast_uint32. apply runs_bind. rewrite (Z.eqb_sym 0).
    change (is_signed uint32_t) with false. destruct (Z.eqb_spec (u32 (x rs2)) 0) as [E|E].
    + finish. rewrite Hsext by lia. unfold sext32. f_equal. apply signed_mod_arg. now apply Z.mod_mod.
    + apply runs_bind, runs_quotient; [exact E|now apply in_format_quot|]. finish.
      rewrite Z.rem_mod_nonneg by lia. apply Hsext. pose proof (Z.mod_pos_bound (u32 (x rs1)) (u32 (x rs2)) ltac:(lia)). lia.
Qed.

Lemma alu_w_computes op rd rs1 rs2 :
  is_reg rd -> is_reg rs1 -> is_reg rs2 -> computes_alu_w op (x rs1) (x rs2) ->
  let i := uop_alu_w addr hw_thr options op rd rs1 rs2 in
  runs (execution i) (start i) (fun _ s' => executed (start i) (om rd) (alu_w op (x rs1) (x rs2)) s').
Proof.
  intros Hrd Hrs1 Hrs2 Hc.
  destruct op; try (apply alu_w_shifts; auto; fail); try (apply alu_w_divides; auto; fail);
    begin uop_alu_w; cbn [computes_alu_w alu_w] in *.
  - unfold exec_Add. reads. reads. ring_op RAdd.
  - unfold exec_Sub. reads. reads. ring_op RSub.
  - unfold exec_Multiply. reads. reads. ring_op RMul.
Qed.

(** Immediates. *)
Lemma cast_imm T n imm : fits n imm -> 0 < n <= width T -> is_signed T = true -> cast T imm = imm.
Proof.
  intros Hf Hn HT. unfold cast. rewrite HT. apply signed_small; [lia|]. unfold fits in Hf.
  assert (2 ^ (n - 1) <= 2 ^ (width T - 1)) by (apply Z.pow_le_mono_r; lia). lia.
Qed.

Lemma imm_computes op rd rs1 imm :
  is_reg rd -> is_reg rs1 -> fits 12 imm -> computes (RegImm op rd rs1 imm) ->
  let i := uop_imm addr hw_thr options op rd rs1 imm in
  runs (execution i) (start i) (fun _ s' => executed (start i) (om rd) (alu_imm op (x rs1) imm) s').
Proof.
  intros Hrd Hrs1 Hf Hc.
  assert (H64 : cast int64_t imm = imm) by (eapply cast_imm; [exact Hf|widths; lia|reflexivity]).
  assert (H32 : cast int32_t imm = imm) by (eapply cast_imm; [exact Hf|widths; lia|reflexivity]).
  pose proof (u64_x rs1) as Hx. destruct op; begin uop_imm; cbn [computes alu_imm alu alu_w] in *.
  - unfold exec_AddImm. reads. apply runs_bind, runs_arith; [now rewrite H64|]. finish.
    rewrite (extend_ring RAdd), extend_64 by reflexivity. symmetry. apply Z.add_mod_idemp_r. lia.
  - unfold exec_SetRegCompareImm. apply runs_bind. unfold registerCompareImm. reads. apply runs_ret.
    finish. rewrite extend_bool, H64, sgn_u64. do 2 f_equal. unfold sgn. symmetry. exact H64.
  - unfold exec_SetRegCompareImm. apply runs_bind. unfold registerCompareImm. reads. apply runs_ret.
    finish. rewrite cast_uint64. apply extend_bool.
  - unfold exec_XorImm. reads. rewrite cast_uint64. finish. rewrite extend_64 by reflexivity.
    rewrite <- Hx. apply u64_lxor.
  - unfold exec_OrImm. reads. rewrite cast_uint64. finish. rewrite extend_64 by reflexivity.
    rewrite <- Hx. apply u64_lor.
  - unfold exec_AndImm. reads. rewrite cast_uint64. finish. rewrite extend_64 by reflexivity.
    rewrite <- Hx. apply u64_land.
  - unfold exec_AddImm. reads. apply runs_bind, runs_arith; [now rewrite !H32|]. finish.
    rewrite (extend_ring RAdd), extend_32 by reflexivity. rewrite H32. unfold sext32. f_equal. apply signed_mod_arg.
    symmetry. cbn [ring_fun]. rewrite <- (Z.add_mod_idemp_r _ (u64 imm)) by lia.
    unfold u64. rewrite mod_of_mod by lia. now rewrite Z.add_mod_idemp_r by lia.
Qed.

Lemma shift_imm_computes op rd rs1 shamt :
  is_reg rd -> is_reg rs1 -> 0 < shamt < shift_width op ->
  let i := uop_shift addr hw_thr options op rd rs1 shamt in
  runs (execution i) (start i) (fun _ s' => executed (start i) (om rd) (alu_shift op (x rs1) shamt) s').
Proof.
  intros Hrd Hrs1 Hs. pose proof (u64_x rs1) as Hx.
  pose proof (value_range rf (im rs1) Hwf : 0 <= x rs1 < 2 ^ 64) as H1.
  assert (Hcast : forall T, cast T shamt = shamt).
  { intros T. unfold cast. destruct op; cbn [shift_width] in Hs;
      destruct T; cbn [is_signed]; widths; try (apply signed_small; [lia|simpl; lia]); apply Z.mod_small; simpl; lia. }
  assert (Hp : (0 <? shamt) = true) by lia.
  destruct op; begin uop_shift; cbn [alu_shift alu alu_w shift_width] in *; rewrite (Z.mod_small shamt) by lia.
  - unfold exec_ShiftLeftLogicalImm, assert_positive. rewrite !Hcast, Hp. apply runs_bind, runs_skip. reads.
    apply runs_bind, runs_shift_left; [widths; lia|]. finish.
    rewrite (extend_eq _ _ (cast uint64_t (x rs1) * 2 ^ shamt)) by apply cast_mod.
    rewrite extend_64, cast_uint64 by reflexivity. reflexivity.
  - unfold exec_ShiftRightLogicalImm, assert_positive. rewrite !Hcast, Hp. apply runs_bind, runs_skip.
    apply runs_bind. reads. apply runs_bind, runs_shift_right; [widths; lia|]. finish.
    rewrite extend_64, cast_uint64 by reflexivity. apply u64_small, div_range; lia.
  - unfold exec_ShiftRightArithmeticImm. rewrite !Hcast, Hp. apply runs_bind. reads.
    apply runs_bind, runs_shift_right; [widths; lia|]. finish. now apply extend_64.
  - unfold exec_ShiftLeftLogicalImm, assert_positive. rewrite !Hcast, Hp. apply runs_bind, runs_skip. reads.
    apply runs_bind, runs_shift_left; [widths; lia|]. finish. now apply sext32_cast.
  - unfold exec_ShiftRightLogicalImm, assert_positive. rewrite !Hcast, Hp. apply runs_bind, runs_skip.
    apply runs_bind. reads. apply runs_bind, runs_shift_right; [widths; lia|]. finish. now apply extend_32.
  - unfold exec_ShiftRightArithmeticImm. rewrite !Hcast, Hp. apply runs_bind. reads.
    apply runs_bind, runs_shift_right; [widths; lia|]. finish. now apply extend_32.
Qed.

(** The upper immediates. *)
Lemma upper_word imm : fits 20 imm -> signed 32 (imm * 2 ^ 12) = imm * 2 ^ 12.
Proof. unfold fits. intros H. apply signed_small; [lia|]. simpl in *. lia. Qed.

Lemma LUI_computes rd imm :
  is_reg rd -> fits 20 imm ->
  let i := uop addr hw_thr options (LUI rd imm) in
  runs (execution i) (start i) (fun _ s' => executed (start i) (om rd) (u64 (imm * 2 ^ 12)) s').
Proof.
  intros Hrd Hf. begin uop. unfold exec_SetRegister. finish. rewrite sext32_cast by reflexivity.
  unfold sext32. now rewrite upper_word, upper_word by exact Hf.
Qed.

(** The sum is cut to 32 bits: that is the address the instruction set asks for when it
    lies below 4 GiB. *)
Lemma AUIPC_computes rd imm :
  is_reg rd -> fits 20 imm -> computes (AUIPC rd imm) ->
  let i := uop addr hw_thr options (AUIPC rd imm) in
  runs (execution i) (start i) (fun _ s' => executed (start i) (om rd) (u64 (addr + imm * 2 ^ 12)) s').
Proof.
  intros Hrd Hf [Hlow Hc].
  assert (Hi : cast int64_t (u32 (imm * 2 ^ 12)) = u32 (imm * 2 ^ 12)).
  { pose proof (u32_range (imm * 2 ^ 12)). apply (signed_small 64); simpl in *; lia. }
  begin uop. unfold exec_PCAddImm. apply runs_bind, runs_gets. cbn [ins start].
  apply runs_bind, runs_arith; [rewrite Hi; exact Hc|]. finish. rewrite Hi.
  change (2 ^ 32 - 1) with (Z.ones 32). rewrite Z.land_ones, extend_64 by (lia || reflexivity).
  set (t := cast int64_t _). assert (Ht : t mod 2 ^ 32 = u64 (addr + imm * 2 ^ 12)).
  { rewrite <- (Z.mod_small (u64 _) (2 ^ 32)) by (pose proof (u64_range (addr + imm * 2 ^ 12)); lia).
    unfold u64. rewrite (mod_of_mod 32 64) by lia. unfold t. rewrite low_word.
    apply (ring_mod RAdd); [apply low_word|]. unfold u32. now apply Z.mod_mod. }
  rewrite Ht. apply u64_idem.
Qed.

(** ** Where execution goes on *)

Lemma compare_equal a b : 0 <= a < 2 ^ 64 -> 0 <= b < 2 ^ 64 -> (cast int64_t a =? cast int64_t b) = (a =? b).
Proof.
  intros Ha Hb. destruct (Z.eqb_spec a b) as [->|Hne]; [apply Z.eqb_refl|].
  apply Z.eqb_neq. intros H. apply Hne. rewrite <- (Z.mod_small a (2 ^ 64)), <- (Z.mod_small b (2 ^ 64)) by lia.
  pose proof (cast_mod int64_t a) as H1. pose proof (cast_mod int64_t b) as H2.
  change (width int64_t) with 64 in *. congruence.
Qed.

Lemma u64_target a b : u64 (cast int64_t (cast int64_t a + b)) = u64 (a + b).
Proof.
  transitivity (u64 (cast int64_t a + b)); [apply (cast_mod int64_t)|].
  apply (ring_mod RAdd); [apply (cast_mod int64_t)|reflexivity].
Qed.

Lemma runs_branch_to (taken : bool) offset i :
  ins_address i = addr -> speculated i = Some (mkSpeculation VANADIS_NO_DELAY_SLOT (u64 (addr + 4)) (2 ^ 64 - 1) 4) ->
  (taken = true -> fine int64_t (sgn addr + offset)) ->
  runs (branch_to wrapv taken offset) (mkExec i rf)
    (fun _ s' => goes_to (mkExec i rf) (u64 (addr + (if taken then offset else 4))) s').
Proof.
  intros Ha Hs Hf. unfold branch_to. apply runs_bind. destruct taken.
  - apply runs_bind, runs_gets. cbn [ins]. rewrite Ha.
    apply runs_bind, runs_arith; [now apply Hf|]. apply runs_modify, runs_modify. split; [|reflexivity].
    rewrite <- u64_target. generalize (cast int64_t (cast int64_t addr + offset)). intros t.
    destruct i; cbn in *; subst; reflexivity.
  - apply runs_bind. unfold calculateStandardNotTakenAddress, getSpeculation.
    apply runs_bind. eapply runs_getsR; [cbn [ins]; now rewrite Hs|]. apply runs_bind, runs_gets. cbn [ins]. rewrite Ha.
    apply runs_ret. apply runs_modify, runs_modify. split; [|reflexivity].
    destruct i; cbn in *; subst. unfold update; cbn. now rewrite u64_idem.
Qed.

Lemma branch_computes op rs1 rs2 offset :
  is_reg rs1 -> is_reg rs2 -> fits 13 offset ->
  (branch_taken op (x rs1) (x rs2) = true -> fine int64_t (sgn addr + offset)) ->
  let i := uop_branch addr hw_thr options op rs1 rs2 offset in
  runs (execution i) (start i) (fun _ s' =>
    goes_to (start i) (u64 (addr + (if branch_taken op (x rs1) (x rs2) then offset else 4))) s').
Proof.
  intros Hrs1 Hrs2 Hf Hc.
  assert (Hoff : cast int64_t offset = offset) by (eapply cast_imm; [exact Hf|widths; lia|reflexivity]).
  pose proof (value_range rf (im rs1) Hwf : 0 <= x rs1 < 2 ^ 64) as H1.
  pose proof (value_range rf (im rs2) Hwf : 0 <= x rs2 < 2 ^ 64) as H2.
  destruct op; begin uop_branch; unfold exec_BranchRegCompare; rewrite Hoff; apply runs_bind;
    unfold registerCompare; reads; reads; apply runs_ret;
    rewrite ?compare_equal, ?cast_uint64 by assumption; now apply runs_branch_to.
Qed.

Lemma JAL_computes rd offset :
  is_reg rd ->
  let i := uop addr hw_thr options (JAL rd offset) in
  runs (execution i) (start i) (fun _ s' => executed (start i) (om rd) (u64 (addr + 4)) s').
Proof.
  intros Hrd. begin uop. unfold exec_JumpLink. apply runs_bind.
  unfold calculateStandardNotTakenAddress, getSpeculation. apply runs_bind. eapply runs_getsR; [reflexivity|].
  apply runs_bind, runs_gets, runs_ret. finish. rewrite extend_64 by reflexivity. apply u64_idem.
Qed.

(** ** Properties *)

(** Every instruction of the set that computes into a register, outside [computes]'s
    exceptions: its micro-operation returns, without an error, having written the
    result the set asks for into the register assigned to its destination, and no
    other register. *)
Theorem execute_computes i :
  valid i -> computing i = true -> computes i ->
  exists rd v, isa_result i addr 4 x = Some (rd, v) /\
    let u := uop addr hw_thr options i in
    runs (execution u) (start u) (fun _ s' => executed (start u) (om rd) v s').
Proof.
  intros Hv Hl Hc. destruct i; cbn [valid computing left_out computes isa_result] in *; try discriminate Hl; destruct_and?;
    (eexists _, _; split; [reflexivity|]).
  - apply alu_computes; auto. now apply negb_true_iff.
  - now apply alu_w_computes.
  - now apply imm_computes.
  - apply shift_imm_computes; auto. lia.
  - now apply LUI_computes.
  - now apply AUIPC_computes.
  - now apply JAL_computes.
Qed.

(** C14. A branch or a direct jump leaves the address the instruction set goes on at, whether
    the branch is taken or not. *)
Theorem branch_goes op rs1 rs2 offset :
  valid (Branch op rs1 rs2 offset) -> fine int64_t (sgn addr + offset) ->
  let i := Branch op rs1 rs2 offset in
  let u := uop addr hw_thr options i in
  runs (execution u) (start u) (fun _ s' => goes_to (start u) (isa_next i addr 4 x) s').
Proof. intros (? & ? & ? & _) Hc. apply branch_computes; auto. Qed.

Lemma JAL_goes rd offset :
  takenAddress <$> speculated (uop addr hw_thr options (JAL rd offset)) = Some (isa_next (JAL rd offset) addr 4 x).
Proof. exact (f_equal Some (u64_target addr offset)). Qed.

(** C40. A jump through a register writes the target into the register it read it from: the
    register holds the target afterwards, not what the instruction set leaves in it,
    unless the immediate is zero. *)
Theorem JALR_clobbers rd rs1 imm :
  valid (JALR rd rs1 imm) -> fine int64_t (sgn (x rs1) + imm) ->
  ignores rf (im rs1) = false -> om rd <> im rs1 ->
  let u := uop addr hw_thr options (JALR rd rs1 imm) in
  runs (execution u) (start u) (fun _ s' =>
    takenAddress <$> speculated (ins s') = Some (u64 (x rs1 + imm)) /\
    value (regFile s') (im rs1) = u64 (x rs1 + imm) /\
    value (regFile s') (om rd) = (if ignores rf (om rd) then 0 else u64 (addr + 4)) /\
    forall q, 0 <= q -> q <> im rs1 -> q <> om rd -> value (regFile s') q = value rf q).
Proof.
  intros (Hrd & Hrs1 & Hf) Hc Hig Hne.
  assert (Himm : cast int64_t imm = imm) by (eapply cast_imm; [exact Hf|widths; lia|reflexivity]).
  begin uop. unfold exec_JumpRegLink. rewrite Himm. reads. apply runs_bind, runs_arith; [exact Hc|].
  apply runs_bind. unfold calculateStandardNotTakenAddress, getSpeculation. apply runs_bind.
  eapply runs_getsR; [reflexivity|]. apply runs_bind, runs_gets, runs_ret.
  apply runs_bind. eapply runs_setInt; [exact Hwf|reflexivity|now apply Hom|]. intros rf1 H1.
  pose proof (Him rs1 Hrs1) as Hr. pose proof (Hom rd Hrd) as Hr'. unfold in_range in Hr, Hr'.
  assert (Hin1 : in_range rf1 (im rs1)) by (unfold in_range; rewrite (stores_count _ _ _ _ H1); exact Hr).
  destruct (setIntReg_value uint64_t (im rs1) (cast uint64_t (cast int64_t (cast int64_t (x rs1) + imm))) true rf1
              (stores_wf _ _ _ _ H1) Hin1) as (rf2 & Hset & Hwf2 & Ho2 & Hc2 & Hv2 & Hq2).
  apply runs_bind. eapply runs_modify_regs; [exact Hset|].
  assert (Hig1 : ignores rf1 (im rs1) = false) by (unfold ignores; rewrite (stores_opts _ _ _ _ H1); exact Hig).
  assert (Hin2 : in_range rf2 (im rs1)) by (unfold in_range in *; now rewrite Hc2).
  assert (Ht : extend uint64_t true (cast uint64_t (cast int64_t (cast int64_t (x rs1) + imm))) = u64 (x rs1 + imm)).
  { rewrite extend_64 by reflexivity. rewrite <- u64_target. apply (cast_mod uint64_t). }
  rewrite Hig1, Ht in Hv2.
  apply runs_bind. eapply runs_getInt; [exact Hwf2|reflexivity|exact Hin2|].
  match goal with |- context [cast uint64_t (value ?r ?k)] => change (value r k) with (value rf2 (im rs1)) end. rewrite Hv2.
  apply runs_bind, runs_modify, runs_modify. cbn [ins regFile].
  repeat split.
  - transitivity (Some (u64 (cast uint64_t (u64 (x rs1 + imm))))); [reflexivity|]. f_equal.
    transitivity (u64 (u64 (x rs1 + imm))); [apply (cast_mod uint64_t)|apply u64_idem].
  - exact Hv2.
  - transitivity (value rf2 (om rd)); [reflexivity|].
    rewrite Hq2, (stores_value _ _ _ _ H1), decide_True, extend_64 by (lia || reflexivity).
    cbn [regFile start]. destruct (ignores rf (om rd)); [reflexivity|apply u64_idem].
  - intros q Hq Hq1 Hq3. transitivity (value rf2 q); [reflexivity|]. rewrite Hq2 by auto. rewrite (stores_value _ _ _ _ H1) by lia. now rewrite decide_False.
Qed.

(** ** Where the code does something else *)

(** A 64-bit shift by a register that holds zero copies the low word of its source,
    with its sign, instead of the source. *)
Theorem shift_by_zero op rd rs1 rs2 :
  (op = SLL \/ op = SRL \/ op = SRA) ->
  is_reg rd -> is_reg rs1 -> is_reg rs2 -> x rs2 = 0 ->
  let u := uop_alu addr hw_thr options op rd rs1 rs2 in
  alu op (x rs1) (x rs2) = x rs1 /\
  runs (execution u) (start u) (fun _ s' => executed (start u) (om rd) (sext32 (x rs1)) s').
Proof.
  intros Hop Hrd Hrs1 Hrs2 Hz. split.
  - rewrite Hz. destruct Hop as [-> | [-> | ->]]; cbn [alu]; change (2 ^ (0 mod 64)) with 1;
      rewrite ?Z.mul_1_r, ?Z.div_1_r, ?u64_sgn; auto using u64_x.
  - destruct Hop as [-> | [-> | ->]]; begin uop_alu;
      [unfold exec_ShiftLeftLogical|unfold exec_ShiftRightLogical|unfold exec_ShiftRightArithmetic];
      apply runs_bind; reads; reads; rewrite Hz; (apply runs_bind; eapply runs_read; [reflexivity|assumption|]);
      finish; now apply sext32_cast.
Qed.

(** A division by zero raises an error, which stops the simulation when the instruction
    retires; the instruction set defines a result. *)
Theorem divide_by_zero op rd rs1 rs2 :
  (op = DIV \/ op = DIVU) ->
  is_reg rs1 -> is_reg rs2 -> x rs2 = 0 ->
  let u := uop_alu addr hw_thr options op rd rs1 rs2 in
  runs (execution u) (start u) (fun _ s' => trapError (ins s') = true /\ regFile s' = rf).
Proof.
  intros Hop Hrs1 Hrs2 Hz. destruct Hop as [-> | ->]; begin uop_alu; unfold exec_Divide;
    reads; reads; rewrite Hz; apply runs_bind, runs_modify, runs_modify; auto.
Qed.

(** ** Addresses of loads and stores *)

(** The load-store queue asks a load or a store for its address: the base register and
    the immediate, modulo 2^64, with the number of bytes of the operation. *)
Theorem memory_address op op' rd rs1 rs2 imm :
  is_reg rs1 -> fine int64_t (sgn (x rs1) + imm) ->
  let l := uop addr hw_thr options (LoadInt op rd rs1 imm) in
  let st := uop addr hw_thr options (StoreInt op' rs1 rs2 imm) in
  computeLoadAddress wrapv imm (fst (load_size op)) (start l) = Ok ((u64 (x rs1 + imm), fst (load_size op)), start l) /\
  computeStoreAddress wrapv imm (store_size op') (start st) = Ok ((u64 (x rs1 + imm), store_size op'), start st).
Proof.
  intros Hrs1 Hf l st.
  assert (Ht : cast uint64_t (cast int64_t (cast int64_t (x rs1) + imm)) = u64 (x rs1 + imm)).
  { rewrite <- u64_target. reflexivity. }
  assert (H : forall n i, at_index (phys_int_regs_in (with_registers im om i)) 0 = Ok (im rs1) ->
    runs (computeLoadAddress wrapv imm n) (start i) (fun r s' => r = (u64 (x rs1 + imm), n) /\ s' = start i)).
  { intros n i Hi. unfold computeLoadAddress. apply runs_bind. eapply runs_read; [exact Hi|exact Hrs1|].
    apply runs_bind, runs_arith; [exact Hf|]. apply runs_ret. now rewrite Ht. }
  split.
  - destruct (H (fst (load_size op)) l) as (r & s' & Hr & -> & ->); [reflexivity|exact Hr].
  - destruct (H (store_size op') st) as (r & s' & Hr & -> & ->); [reflexivity|exact Hr].
Qed.
End execute.

(** ** From the instruction word to its effect *)

(** The clone in the bundle is the micro-operation. *)
Lemma clone_uop addr hw_thr options i : clone (uop addr hw_thr options i) = uop addr hw_thr options i.
Proof. destruct i as [[]|[]|[]|[]| | | | |[]| |]; reflexivity. Qed.

(** An encoding is a 32-bit word with the length bits of the 32-bit formats. *)
Lemma fields_R_length opcode rd f3 rs1 rs2 f7 :
  opcode mod 4 = 3 -> Z.land (fields_R opcode rd f3 rs1 rs2 f7) 0x3 = 0x3.
Proof.
  intros H. change 0x3 with (Z.ones 2). rewrite Z.land_ones by lia. change (Z.ones 2) with 3. unfold fields_R. zlia.
Qed.

Lemma encode_length i : Z.land (encode i) 0x3 = 0x3.
Proof.
  destruct i as [op|op|op|op| | | | |op|op|op]; cbn [encode]; unfold encode_S, encode_B;
    try (destruct op; cbn); rewrite ?encode_I_fields; try (apply fields_R_length; reflexivity);
    change 0x3 with (Z.ones 2); rewrite Z.land_ones by lia; unfold encode_U, encode_J; change (Z.ones 2) with 3.
  - generalize (imm mod 2 ^ 20). intros. zlia.
  - generalize (imm mod 2 ^ 20). intros. zlia.
  - generalize (slice offset 12 8) (slice offset 11 1) (slice offset 1 10) (slice offset 20 1). intros. zlia.
Qed.

(** The bundle the decoder makes of an encoding. *)
Lemma decode_bundle addr hw_thr options fatal_fault i :
  Z.land addr 1 = 0 -> valid i -> left_out i = false ->
  decode addr hw_thr options fatal_fault (encode i) (new_VanadisInstructionBundle addr)
  = Ok (mkBundle addr 4 [uop addr hw_thr options i]).
Proof.
  intros Ha Hv Hl. unfold decode. rewrite Ha, encode_length. cbn [negb Z.eqb Pos.eqb].
  rewrite decode_encode by assumption. cbn. unfold addInstruction, update. cbn. now rewrite clone_uop.
Qed.

Section run.
Context (addr hw_thr : Z) (options : VanadisDecoderOptions).
Context (wrapv : bool) (cycle_count : Z) (host : fp_operation -> list Z -> Z) (im om : Z -> Z) (rf : VanadisRegisterFile).
Hypothesis Hwf : regfile_wf rf.
Hypothesis Him : forall r, is_reg r -> in_range rf (im r).
Hypothesis Hom : forall r, is_reg r -> in_range rf (om r).
#[local] Abbreviation x := (x im rf).
#[local] Abbreviation execution := (execution wrapv cycle_count host).
#[local] Abbreviation start := (start im om rf).

(** C3. The decoder and the micro-operations together implement the instructions of RV64I
    and M that compute into a register ([computing]: not branches, loads, stores, JALR,
    MULH and MULHSU): the word of such an instruction at an even address decodes into one
    micro-operation and an increment of four bytes; executing it with any assignment of
    physical registers returns, and writes the result the set defines into the register
    of the destination and nothing elsewhere. This is so under [computes]: shifts by 1 to
    63 where a register gives the distance at 64 bits, by an immediate that is not zero;
    a divisor that is not zero, and a quotient and remainder that do not overflow; an
    AUIPC below 4 GiB; a REMUW result below 2^31; and signed sums, differences and
    products that do not overflow, unless they wrap ([wrapv]). *)
Theorem decode_execute fatal_fault i :
  Z.land addr 1 = 0 -> valid i -> computing i = true -> computes addr wrapv im rf i ->
  exists u rd v,
    decode addr hw_thr options fatal_fault (encode i) (new_VanadisInstructionBundle addr) = Ok (mkBundle addr 4 [u]) /\
    isa_result i addr 4 x = Some (rd, v) /\
    runs (execution u) (start u) (fun _ s' => executed (start u) (om rd) v s').
Proof.
  intros Ha Hv Hl Hc.
  destruct (execute_computes addr hw_thr options wrapv cycle_count host im om rf Hwf Him Hom i Hv Hl Hc) as (rd & v & Hr & Hx).
  exists (uop addr hw_thr options i), rd, v. split; [apply decode_bundle; auto|].
  { destruct i; try reflexivity. now apply negb_true_iff. } split; [exact Hr|exact Hx].
Qed.
End run.
