(* ===== verification/RiscvDemo.v ===== *)
(** * RiscvDemo: the RISC-V theorems at concrete words and register files *)

From S2P Require Import Prelude VanadisRegs VanadisInst RiscvIsa RiscvDecode RiscvFields RiscvCode RiscvSound RiscvExec.

(** A register file of 64 registers: the instruction set's registers are the first 32,
    results go to the others. *)
Definition demo_file : VanadisRegisterFile :=
  let set r v rf := match setIntReg uint64_t r v true rf with Ok rf' => rf' | Err _ => rf end in
  set 1 (2 ^ 64 - 5) (set 2 7 (new_VanadisRegisterFile riscv_options 64 64 VANADIS_REGISTER_MODE_FP64)).
(** No instruction here uses the host's floating point. *)
Definition no_host (f : fp_operation) (l : list Z) : Z := 0.
Definition demo_in (r : Z) : Z := r.
Definition demo_out (r : Z) : Z := 32 + r.

Lemma demo_wf : regfile_wf demo_file.
Proof.
  assert (H : regfile_wf (new_VanadisRegisterFile riscv_options 64 64 VANADIS_REGISTER_MODE_FP64))
    by (apply new_register_file_wf; lia).
  unfold demo_file.
  destruct (setIntReg_value uint64_t 2 7 true _ H) as (rf1 & E1 & H1 & _ & C1 & _); [cbv; split; easy|].
  rewrite E1. destruct (setIntReg_value uint64_t 1 (2 ^ 64 - 5) true _ H1) as (rf2 & E2 & H2 & _).
  { unfold in_range. rewrite C1. cbv. split; easy. }
  now rewrite E2.
Qed.
Lemma demo_in_range r : is_reg r -> in_range demo_file (demo_in r).
Proof. unfold is_reg, in_range, demo_in. change (count_int_regs demo_file) with 64. lia. Qed.
Lemma demo_out_range r : is_reg r -> in_range demo_file (demo_out r).
Proof. unfold is_reg, in_range, demo_out. change (count_int_regs demo_file) with 64. lia. Qed.

(** MULHU x3, x1, x2: the high word of (2^64 - 5) * 7. *)
Lemma decode_execute_witness :
  exists u rd v,
    decode 0x1000 0 riscv_options false (encode (RegReg MULHU 3 1 2)) (new_VanadisInstructionBundle 0x1000)
      = Ok (mkBundle 0x1000 4 [u]) /\
    isa_result (RegReg MULHU 3 1 2) 0x1000 4 (x demo_in demo_file) = Some (rd, v) /\
    runs (execution false 0 no_host u) (start demo_in demo_out demo_file u)
      (fun _ s' => executed (start demo_in demo_out demo_file u) (demo_out rd) v s').
Proof.
  apply decode_execute; [exact demo_wf|exact demo_in_range|exact demo_out_range|reflexivity| |reflexivity|exact I].
  cbv; repeat split; easy.
Defined.

(** SRAI x5, x6, 40 is accepted; MULH x5, x6, x7 faults. *)
Lemma decode_accepts_witness :
  decode_32 0x1000 0 riscv_options 0x42835293 = Ok (Some [uop 0x1000 0 riscv_options (ShiftImm SRAI 5 6 40)]) /\
  decode_32 0x1000 0 riscv_options 0x027312b3 = Ok None.
Proof.
  assert (Ho : forall w o, extract_opcode w = o -> o ∈ [0x13; 0x33] -> integer_opcode (extract_opcode w)).
  { intros w o -> H. unfold integer_opcode. set_solver. }
  split.
  - apply decode_accepts; [lia|apply (Ho _ 0x13); [reflexivity|set_solver]|]. exists (ShiftImm SRAI 5 6 40).
    split; [cbv; repeat split; easy|repeat split; reflexivity].
  - apply (decode_accepts 0x1000 0 riscv_options 0x027312b3 ltac:(lia) []); [apply (Ho _ 0x33); [reflexivity|set_solver]|].
    exists (RegReg MULH 5 6 7). split; [cbv; repeat split; easy|split; reflexivity].
Defined.

(** BLTU x2, x1, -16: taken, 7 < 2^64 - 5. *)
Lemma branch_goes_witness :
  let u := uop 0x1000 0 riscv_options (Branch BLTU 2 1 (-16)) in
  runs (execution false 0 no_host u) (start demo_in demo_out demo_file u)
    (fun _ s' => goes_to (start demo_in demo_out demo_file u)
       (isa_next (Branch BLTU 2 1 (-16)) 0x1000 4 (x demo_in demo_file)) s').
Proof.
  apply branch_goes; [exact demo_wf|exact demo_in_range| |reflexivity].
  cbn [valid]. unfold is_reg, fits. repeat split; try lia. now exists (-8).
Defined.

(** JALR x1, 8(x2): x2 holds 15 afterwards. *)
Lemma JALR_clobbers_witness :
  let u := uop 0x1000 0 riscv_options (JALR 1 2 8) in
  runs (execution false 0 no_host u) (start demo_in demo_out demo_file u) (fun _ s' =>
    takenAddress <$> speculated (ins s') = Some (u64 (x demo_in demo_file 2 + 8)) /\
    value (regFile s') (demo_in 2) = u64 (x demo_in demo_file 2 + 8) /\
    value (regFile s') (demo_out 1) = (if ignores demo_file (demo_out 1) then 0 else u64 (0x1000 + 4)) /\
    forall q, 0 <= q -> q <> demo_in 2 -> q <> demo_out 1 -> value (regFile s') q = value demo_file q).
Proof.
  apply JALR_clobbers; [exact demo_wf|exact demo_in_range|exact demo_out_range| |reflexivity|reflexivity|easy].
  cbn [valid]. unfold is_reg, fits. repeat split; lia.
Defined.

Lemma shift_by_zero_witness :
  let u := uop_alu 0x1000 0 riscv_options SLL 3 1 9 in
  alu SLL (x demo_in demo_file 1) (x demo_in demo_file 9) = x demo_in demo_file 1 /\
  runs (execution false 0 no_host u) (start demo_in demo_out demo_file u)
    (fun _ s' => executed (start demo_in demo_out demo_file u) (demo_out 3) (sext32 (x demo_in demo_file 1)) s').
Proof.
  apply shift_by_zero; [exact demo_wf|exact demo_in_range|exact demo_out_range|auto|..|reflexivity];
    unfold is_reg; lia.
Defined.

Lemma divide_by_zero_witness :
  let u := uop_alu 0x1000 0 riscv_options DIVU 3 1 9 in
  runs (execution false 0 no_host u) (start demo_in demo_out demo_file u)
    (fun _ s' => trapError (ins s') = true /\ regFile s' = demo_file).
Proof. apply divide_by_zero; [exact demo_wf|exact demo_in_range|auto|..|reflexivity]; unfold is_reg; lia. Defined.

Lemma reads_and_writes_refine_words_witness :
  getIntReg int32_t 1 demo_file = Ok (cast int32_t (word demo_file 1)) /\
  (exists rf', setIntReg uint32_t 1 0x80000000 true demo_file = Ok rf' /\ word rf' 1 = 0xFFFFFFFF80000000 /\
    forall q, 0 <= q -> q <> 1 -> word rf' q = word demo_file q) /\
  setIntReg uint64_t 0 7 true demo_file = Ok demo_file.
Proof.
  assert (H1 : in_range demo_file 1) by (apply (demo_in_range 1); unfold is_reg; lia).
  pose proof (reads_and_writes_refine_words int32_t 1 0 true demo_file demo_wf H1) as [H _].
  split; [exact H|]. split.
  - destruct (reads_and_writes_refine_words uint32_t 1 0x80000000 true demo_file demo_wf H1) as (_ & rf' & E & _ & Hw & Hq & _).
    exists rf'. split; [exact E|]. split; [exact Hw|exact Hq].
  - destruct (reads_and_writes_refine_words uint64_t 0 7 true demo_file demo_wf) as (_ & rf' & E & _ & Hw); [split; vm_compute; easy|].
    cbn in Hw. rewrite E, Hw. reflexivity.
Defined.

(** ** Where the decoder and the micro-operations part from the instruction set *)

(** The guard on the width of a store never holds one back: function code 7 stores
    128 bytes. *)
Example store_of_128_bytes :
  decode_32 0x1000 0 riscv_options (encode_S 0x23 7 1 2 0) =
  Ok (Some [VanadisStoreInstruction 0x1000 0 riscv_options 1 0 2 128 MEM_TRANSACTION_NONE STORE_INT_REGISTER]).
Proof. reflexivity. Qed.

(** FCVT.L.D makes the signed and the unsigned conversion, one after the other. *)
Example convert_twice :
  decode_32 0x1000 0 riscv_options (fields_R 0x53 3 0 1 2 97) =
  Ok (Some [VanadisFP2GPRInstruction 0x1000 0 riscv_options double int64_t 3 1;
            VanadisFP2GPRInstruction 0x1000 0 riscv_options double uint64_t 3 1]).
Proof. reflexivity. Qed.

(** FMAX.D decodes as FMIN.D: the function code is not looked at. *)
Example maximum_is_minimum :
  decode_32 0x1000 0 riscv_options (fields_R 0x53 3 1 1 2 21) =
  decode_32 0x1000 0 riscv_options (fields_R 0x53 3 0 1 2 21).
Proof. reflexivity. Qed.

(** The absolute value of 1.0, FSGNJX.D x, x, is -1.0. *)
Example absolute_value_negative :
  let rf := match setFPReg 8 1 0x3FF0000000000000 demo_file with Ok rf => rf | Err _ => demo_file end in
  let i := (VanadisFPSignLogicInstruction 0x1000 0 riscv_options double SIGN_XOR 3 1 1)
             <| phys_fp_regs_in := [1; 1] |> <| phys_fp_regs_out := [3] |> in
  match execution false 0 no_host i (mkExec i rf) with
  | Ok (_, s) => getFPReg 8 3 (regFile s) = Ok 0xBFF0000000000000
  | Err _ => False
  end.
Proof. vm_compute. reflexivity. Qed.

(** AUIPC x3, 0 at 4 GiB gives 0; the instruction set gives the address. *)
Example auipc_above_4GiB :
  let u := uop 0x100000000 0 riscv_options (AUIPC 3 0) in
  match execution false 0 no_host u (start demo_in demo_out demo_file u) with
  | Ok (_, s) => value (regFile s) (demo_out 3) = 0 /\
      isa_result (AUIPC 3 0) 0x100000000 4 (x demo_in demo_file) = Some (3, 0x100000000)
  | Err _ => False
  end.
Proof. vm_compute. split; reflexivity. Qed.

(** REMUW x3, x1, x9 with x9 zero gives 2^32 - 5, not extended with its sign. *)
Example remuw_not_extended :
  let u := uop 0x1000 0 riscv_options (RegRegW REMUW 3 1 9) in
  match execution false 0 no_host u (start demo_in demo_out demo_file u) with
  | Ok (_, s) => value (regFile s) (demo_out 3) = 2 ^ 32 - 5 /\
      isa_result (RegRegW REMUW 3 1 9) 0x1000 4 (x demo_in demo_file) = Some (3, 2 ^ 64 - 5)
  | Err _ => False
  end.
Proof. vm_compute. split; reflexivity. Qed.
