(* ===== verification/VanadisQueue.v ===== *)
(** * VanadisQueue: the circular queue of the reorder buffer

    Models [vanadis/datastruct/cqueue.h]: a fixed array, the indices of the two ends
    and the number of entries; an index wraps by a mask when the capacity is a power
    of two and by a remainder otherwise. [queue_refines_list] says that the operations
    are those of a bounded list, whatever the capacity. *)

From S2P Require Import Prelude.

Section queue.
Context {A : Type}.

(** An entry that has never been written is [None]. *)
Record VanadisCircularQueue := mkQueue {
  max_capacity : Z;
  head : Z;
  tail : Z;
  count : Z;
  data : list (option A) }.
#[export] Instance queue_eta : Eta VanadisCircularQueue := fun q =>
  mkQueue (max_capacity q) (head q) (tail q) (count q) (data q).

Definition new_queue (size : Z) : VanadisCircularQueue := mkQueue size 0 0 0 (replicate (Z.to_nat size) None).

(** One bit of the size is set. *)
Definition max_power_two (q : VanadisCircularQueue) : bool := 2 ^ Z.log2 (max_capacity q) =? max_capacity q.
Definition bit_mask (q : VanadisCircularQueue) : Z := if max_power_two q then max_capacity q - 1 else 0.

Definition calculateIndex (index : Z) (q : VanadisCircularQueue) : Z :=
  if max_power_two q then Z.land (head q + index) (bit_mask q) else (head q + index) mod max_capacity q.
Definition incrementIndex (index : Z) (q : VanadisCircularQueue) : Z :=
  if max_power_two q then Z.land (index + 1) (bit_mask q) else (index + 1) mod max_capacity q.

Definition empty_queue (q : VanadisCircularQueue) : bool := 0 =? count q.
Definition full (q : VanadisCircularQueue) : bool := max_capacity q =? count q.
Definition size (q : VanadisCircularQueue) : Z := count q.
Definition queue_assert (b : bool) : M VanadisCircularQueue unit := if b then skip else fatal "assert".

Definition read_entry (i : Z) : M VanadisCircularQueue A :=
  getsR (fun q => e ← at_index (data q) i; of_option (Undefined "uninitialised entry") e).

Definition push (item : A) : M VanadisCircularQueue unit :=
  c ← gets (fun q => count q <? max_capacity q); queue_assert c ;;
  q ← gets id;
  d ← getsR (fun q => set_index (data q) (tail q) (Some item));
  modify (fun q => q <| data := d |> <| tail := incrementIndex (tail q) q |> <| count := count q + 1 |>).
Definition peek : M VanadisCircularQueue A :=
  c ← gets (fun q => 0 <? count q); queue_assert c ;; h ← gets head; read_entry h.
Definition peekAt (index : Z) : M VanadisCircularQueue A :=
  c ← gets (fun q => index <? count q); queue_assert c ;; i ← gets (calculateIndex index); read_entry i.
Definition pop : M VanadisCircularQueue A :=
  c ← gets (fun q => 0 <? count q); queue_assert c ;;
  h ← gets head; pop_me ← read_entry h;
  modify (fun q => q <| head := incrementIndex (head q) q |> <| count := count q - 1 |>) ;; mret pop_me.
Definition clear : M VanadisCircularQueue unit := modify (fun q => q <| head := 0 |> <| tail := 0 |> <| count := 0 |>).

(** ** The list a queue holds *)

Record holds (q : VanadisCircularQueue) (l : list A) : Prop := {
  holds_capacity : 0 < max_capacity q;
  holds_head : 0 <= head q < max_capacity q;
  holds_count : count q = Z.of_nat (length l);
  holds_bound : count q <= max_capacity q;
  holds_tail : tail q = (head q + count q) mod max_capacity q;
  holds_size : Z.of_nat (length (data q)) = max_capacity q;
  holds_entry (k : nat) x : l !! k = Some x ->
    data q !! Z.to_nat ((head q + Z.of_nat k) mod max_capacity q) = Some (Some x) }.

Lemma masked_index n q : 0 < max_capacity q ->
  (if max_power_two q then Z.land n (bit_mask q) else n mod max_capacity q) = n mod max_capacity q.
Proof.
  intros Hc. unfold bit_mask. destruct (max_power_two q) eqn:Hp; [|done].
  unfold max_power_two in Hp. apply Z.eqb_eq in Hp. rewrite <- Hp.
  rewrite Z.sub_1_r, <- Z.ones_equiv. apply Z.land_ones. apply Z.log2_nonneg.
Qed.
Lemma calculateIndex_mod i q : 0 < max_capacity q -> calculateIndex i q = (head q + i) mod max_capacity q.
Proof. apply masked_index. Qed.
Lemma incrementIndex_mod i q : 0 < max_capacity q -> incrementIndex i q = (i + 1) mod max_capacity q.
Proof. apply masked_index. Qed.

(** Two entries of the queue have different places. *)
Lemma places_differ h c j k : 0 <= j < c -> 0 <= k < c -> (h + j) mod c = (h + k) mod c -> j = k.
Proof.
  intros Hj Hk E. pose proof (Z.div_mod (h + j) c ltac:(lia)). pose proof (Z.div_mod (h + k) c ltac:(lia)).
  assert (E' : j - k = c * ((h + j) / c - (h + k) / c)) by lia. clear - Hj Hk E'.
  generalize dependent ((h + j) / c - (h + k) / c). intros d E'.
  assert (d <= 0 \/ 1 <= d) as [|] by lia; [|nia]. assert (d = 0 \/ d <= -1) as [->|] by lia; nia.
Qed.

Lemma new_queue_holds size : 0 < size -> holds (new_queue size) [].
Proof.
  intros Hs. split; cbn; try lia; [rewrite Z.mod_small; lia|rewrite length_replicate; lia|done].
Qed.

Section operations.
Variables (q : VanadisCircularQueue) (l : list A).
Hypothesis Hq : holds q l.

Lemma place_in_range i : 0 <= i mod max_capacity q < Z.of_nat (length (data q)).
Proof. rewrite (holds_size _ _ Hq). apply Z.mod_pos_bound, (holds_capacity _ _ Hq). Qed.

Lemma runs_read_entry k x (Q : A -> VanadisCircularQueue -> Prop) :
  l !! k = Some x -> Q x q -> runs (read_entry ((head q + Z.of_nat k) mod max_capacity q)) q Q.
Proof.
  intros Hx HQ. eapply runs_getsR; [|exact HQ]. pose proof (holds_entry _ _ Hq k x Hx) as He.
  pose proof (place_in_range (head q + Z.of_nat k)).
  assert (Ha : at_index (data q) ((head q + Z.of_nat k) mod max_capacity q) = Ok (Some x))
    by (apply at_index_Ok; split; [lia|exact He]).
  by rewrite Ha.
Qed.

Lemma runs_queue_assert (b : bool) (Q : unit -> VanadisCircularQueue -> Prop) :
  b = true -> Q tt q -> runs (queue_assert b) q Q.
Proof. intros -> HQ. by apply runs_skip. Qed.

Lemma runs_peekAt k x : l !! k = Some x -> runs (peekAt (Z.of_nat k)) q (fun y q' => y = x /\ q' = q).
Proof.
  intros Hx. apply runs_bind, runs_gets, runs_bind. apply runs_queue_assert.
  { rewrite (holds_count _ _ Hq). apply lookup_lt_Some in Hx. apply Z.ltb_lt. lia. }
  apply runs_bind, runs_gets. rewrite calculateIndex_mod by apply (holds_capacity _ _ Hq).
  by apply (runs_read_entry k x).
Qed.

Lemma head_place : head q = (head q + Z.of_nat 0) mod max_capacity q.
Proof. rewrite Z.add_0_r. symmetry. apply Z.mod_small, (holds_head _ _ Hq). Qed.

Lemma runs_peek x l' : l = x :: l' -> runs peek q (fun y q' => y = x /\ q' = q).
Proof.
  intros E. apply runs_bind, runs_gets, runs_bind. apply runs_queue_assert.
  { rewrite (holds_count _ _ Hq), E, length_cons. apply Z.ltb_lt. lia. }
  apply runs_bind, runs_gets. rewrite head_place. apply (runs_read_entry 0 x); [by rewrite E|done].
Qed.

Lemma runs_pop x l' : l = x :: l' -> runs pop q (fun y q' => y = x /\ holds q' l').
Proof.
  intros E. pose proof (holds_count _ _ Hq) as Hn. rewrite E, length_cons in Hn.
  pose proof (holds_capacity _ _ Hq) as Hc.
  apply runs_bind, runs_gets, runs_bind. apply runs_queue_assert; [apply Z.ltb_lt; lia|].
  apply runs_bind, runs_gets, runs_bind. rewrite head_place at 1. apply (runs_read_entry 0 x); [by rewrite E|].
  apply runs_bind, runs_modify, runs_ret. split; [done|].
  pose proof (Z.mod_pos_bound (head q + 1) (max_capacity q) Hc) as Hm.
  split; unfold update; cbn; rewrite ?incrementIndex_mod by done; try lia.
  - pose proof (holds_bound _ _ Hq). lia.
  - rewrite (holds_tail _ _ Hq), Z.add_mod_idemp_l by lia. f_equal. lia.
  - apply (holds_size _ _ Hq).
  - intros k y Hk. rewrite Z.add_mod_idemp_l by lia.
    replace (head q + 1 + Z.of_nat k) with (head q + Z.of_nat (S k)) by lia. apply (holds_entry _ _ Hq). by rewrite E.
Qed.

Lemma runs_push x : Z.of_nat (length l) < max_capacity q -> runs (push x) q (fun _ q' => holds q' (l ++ [x])).
Proof.
  intros Hroom. pose proof (holds_count _ _ Hq) as Hn. pose proof (holds_capacity _ _ Hq) as Hc.
  apply runs_bind, runs_gets, runs_bind. apply runs_queue_assert; [apply Z.ltb_lt; lia|].
  apply runs_bind, runs_gets, runs_bind. cbn [id].
  pose proof (place_in_range (head q + count q)) as Ht. rewrite <- (holds_tail _ _ Hq) in Ht.
  eapply runs_getsR; [by apply set_index_in_range|]. apply runs_modify. split; unfold update; cbn; try done; try lia.
  - apply (holds_head _ _ Hq).
  - rewrite length_app, Hn. cbn. lia.
  - rewrite incrementIndex_mod, (holds_tail _ _ Hq), Z.add_mod_idemp_l by lia. f_equal. lia.
  - rewrite length_insert. apply (holds_size _ _ Hq).
  - intros k y Hk. rewrite (holds_tail _ _ Hq) in *. destruct (Nat.lt_ge_cases k (length l)) as [Hlt|Hge].
    + rewrite lookup_app_l in Hk by done. pose proof (holds_entry _ _ Hq k y Hk) as He.
      rewrite list_lookup_insert_ne; [exact He|]. intros E.
      assert (E' : (head q + count q) mod max_capacity q = (head q + Z.of_nat k) mod max_capacity q).
      { pose proof (Z.mod_pos_bound (head q + Z.of_nat k) (max_capacity q) Hc). lia. }
      pose proof (places_differ (head q) (max_capacity q) (count q) (Z.of_nat k)). lia.
    + assert (k = length l) as -> by (apply lookup_lt_Some in Hk; rewrite length_app in Hk; cbn in Hk; lia).
      rewrite list_lookup_middle in Hk by done. injection Hk as ->. rewrite Hn.
      apply list_lookup_insert_eq. rewrite Hn in Ht. lia.
Qed.

Lemma runs_clear : runs clear q (fun _ q' => holds q' []).
Proof.
  pose proof (holds_capacity _ _ Hq). apply runs_modify. split; unfold update; cbn; try lia; try done.
  apply (holds_size _ _ Hq).
Qed.
End operations.

(** C28. The queue is a bounded list: it says it is empty or full as the list is, [push]
    appends while there is room, [peek], [peekAt] and [pop] give the entries in the
    order they came, and [clear] empties it; the mask and the remainder find the same
    places. *)
Theorem queue_refines_list q l :
  holds q l ->
  empty_queue q = bool_decide (l = []) /\ full q = (max_capacity q =? Z.of_nat (length l)) /\
  size q = Z.of_nat (length l) /\
  (forall x, full q = false -> runs (push x) q (fun _ q' => holds q' (l ++ [x]))) /\
  (forall k x, l !! k = Some x -> runs (peekAt (Z.of_nat k)) q (fun y q' => y = x /\ q' = q)) /\
  (forall x l', l = x :: l' -> runs peek q (fun y q' => y = x /\ q' = q) /\
                               runs pop q (fun y q' => y = x /\ holds q' l')) /\
  runs clear q (fun _ q' => holds q' []).
Proof.
  intros Hq. pose proof (holds_count _ _ Hq) as Hn. pose proof (holds_bound _ _ Hq).
  split_and!; [| | | | | |by apply (runs_clear q l)].
  - unfold empty_queue. rewrite Hn. destruct l; [done|]. rewrite bool_decide_false by done. apply Z.eqb_neq. cbn. lia.
  - unfold full. by rewrite Hn.
  - exact Hn.
  - intros x Hf. apply runs_push; [done|]. unfold full in Hf. apply Z.eqb_neq in Hf. lia.
  - intros. by apply (runs_peekAt q l).
  - intros x l' E. split; [by eapply runs_peek|by eapply runs_pop].
Qed.
End queue.
Arguments VanadisCircularQueue : clear implicits.
