(* ===== verification/VanadisRename.v ===== *)
(** * VanadisRename: register renaming

    Models [vanadis/inst/regstack.h], [vanadis/inst/isatable.h] and the functions of
    [vanadis.cc] that hand out physical registers and take them back:
    [checkInstructionResources], [assignRegistersToInstruction],
    [recoverRetiredRegisters], and [returnOutRegs] of [vinst.h]. Every one of them
    treats the integer and the floating-point registers alike; [kind] says which are
    meant. The registers of a kind that an instruction names are its four lists. *)

From S2P Require Import Prelude VanadisRegs VanadisInst.

Inductive kind := INT | FP.
#[export] Instance kind_eq_dec : EqDecision kind.
Proof. solve_decision. Defined.

(** ** The registers of an instruction *)

Definition isa_in (k : kind) (i : VanadisInstruction) : list Z :=
  match k with INT => isa_int_regs_in i | FP => isa_fp_regs_in i end.
Definition isa_out (k : kind) (i : VanadisInstruction) : list Z :=
  match k with INT => isa_int_regs_out i | FP => isa_fp_regs_out i end.
Definition phys_in (k : kind) (i : VanadisInstruction) : list Z :=
  match k with INT => phys_int_regs_in i | FP => phys_fp_regs_in i end.
Definition phys_out (k : kind) (i : VanadisInstruction) : list Z :=
  match k with INT => phys_int_regs_out i | FP => phys_fp_regs_out i end.
Definition put_phys_in (k : kind) (l : list Z) (i : VanadisInstruction) : VanadisInstruction :=
  match k with INT => i <| phys_int_regs_in := l |> | FP => i <| phys_fp_regs_in := l |> end.
Definition put_phys_out (k : kind) (l : list Z) (i : VanadisInstruction) : VanadisInstruction :=
  match k with INT => i <| phys_int_regs_out := l |> | FP => i <| phys_fp_regs_out := l |> end.

(** [performIntRegisterRecovery] and [performFPRegisterRecovery]: only a system call
    keeps the registers it was given. *)
Definition is_syscall (i : VanadisInstruction) : bool :=
  bool_decide (getInstFuncType (class i) = INST_SYSCALL).
Definition performRegisterRecovery (i : VanadisInstruction) : bool := negb (is_syscall i).

(** ** Free registers *)

Record VanadisRegisterStack := mkStack {
  stack_capacity : Z;
  stack_top : Z;
  regs : list Z }.
#[export] Instance stack_eta : Eta VanadisRegisterStack := fun s =>
  mkStack (stack_capacity s) (stack_top s) (regs s).

Definition new_VanadisRegisterStack (count : Z) : VanadisRegisterStack := mkStack count (count - 1) (seqZ 0 count).
Definition pop_register : M VanadisRegisterStack Z :=
  temp ← getsR (fun s => at_index (regs s) (stack_top s));
  modify (fun s => s <| stack_top := stack_top s - 1 |>) ;; mret temp.
Definition push_register (v : Z) : M VanadisRegisterStack unit :=
  modify (fun s => s <| stack_top := stack_top s + 1 |>) ;;
  l ← getsR (fun s => set_index (regs s) (stack_top s) v);
  modify (fun s => s <| regs := l |>).
Definition unused (s : VanadisRegisterStack) : Z := if 0 <? stack_top s then stack_top s else 0.

(** ** Tables *)

(** What a table has for each kind of register. *)
Record isa_registers := mkRegisters {
  reg_ptr : list Z;
  reg_pending_read : list Z;
  reg_pending_write : list Z }.
#[export] Instance registers_eta : Eta isa_registers := fun r =>
  mkRegisters (reg_ptr r) (reg_pending_read r) (reg_pending_write r).

Record VanadisISATable := mkTable {
  table_opts : VanadisDecoderOptions;
  int_registers : isa_registers;
  fp_registers : isa_registers }.
#[export] Instance table_eta : Eta VanadisISATable := fun t => mkTable (table_opts t) (int_registers t) (fp_registers t).

Definition registers (k : kind) (t : VanadisISATable) : isa_registers :=
  match k with INT => int_registers t | FP => fp_registers t end.
Definition put_registers (k : kind) (r : isa_registers) (t : VanadisISATable) : VanadisISATable :=
  match k with INT => t <| int_registers := r |> | FP => t <| fp_registers := r |> end.

Definition new_registers (n : Z) : isa_registers :=
  let zeros := replicate (Z.to_nat n) 0 in mkRegisters zeros zeros zeros.
Definition new_VanadisISATable (opts : VanadisDecoderOptions) (int_reg fp_reg : Z) : VanadisISATable :=
  mkTable opts (new_registers int_reg) (new_registers fp_reg).

(** [getIntPhysReg], [setIntPhysReg] and the counters; the ignored integer register is
    not counted. *)
Definition getPhysReg (k : kind) (reg : Z) (t : VanadisISATable) : res Z :=
  if reg <? Z.of_nat (length (reg_ptr (registers k t))) then at_index (reg_ptr (registers k t)) reg
  else Err (Fatal "assert").
Definition setPhysReg (k : kind) (reg phys : Z) (t : VanadisISATable) : res VanadisISATable :=
  l ← set_index (reg_ptr (registers k t)) reg phys;
  Ok (put_registers k ((registers k t) <| reg_ptr := l |>) t).
Definition counted (k : kind) (reg : Z) (t : VanadisISATable) : bool :=
  match k with INT => negb (reg =? reg_ignore_writes (table_opts t)) | FP => true end.
Definition add_read (k : kind) (reg d : Z) (t : VanadisISATable) : res VanadisISATable :=
  if counted k reg t then
    n ← at_index (reg_pending_read (registers k t)) reg;
    l ← set_index (reg_pending_read (registers k t)) reg (u32 (n + d));
    Ok (put_registers k ((registers k t) <| reg_pending_read := l |>) t)
  else Ok t.
Definition add_write (k : kind) (reg d : Z) (t : VanadisISATable) : res VanadisISATable :=
  if counted k reg t then
    n ← at_index (reg_pending_write (registers k t)) reg;
    l ← set_index (reg_pending_write (registers k t)) reg (u32 (n + d));
    Ok (put_registers k ((registers k t) <| reg_pending_write := l |>) t)
  else Ok t.
Definition incRead (k : kind) (reg : Z) := add_read k reg 1.
Definition decRead (k : kind) (reg : Z) := add_read k reg (-1).
Definition incWrite (k : kind) (reg : Z) := add_write k reg 1.
Definition decWrite (k : kind) (reg : Z) := add_write k reg (-1).
Definition pendingWrites (k : kind) (reg : Z) (t : VanadisISATable) : res bool :=
  n ← at_index (reg_pending_write (registers k t)) reg; Ok (0 <? n).
Definition reset_table (tbl t : VanadisISATable) : VanadisISATable :=
  t <| int_registers := int_registers tbl |> <| fp_registers := fp_registers tbl |>.

(** ** Renaming *)

(** What the functions below work on: an instruction, the free registers and the two
    tables of its thread. *)
Record rename := mkRename {
  r_ins : VanadisInstruction;
  int_register_stack : VanadisRegisterStack;
  fp_register_stack : VanadisRegisterStack;
  issue_isa_table : VanadisISATable;
  retire_isa_table : VanadisISATable }.
#[export] Instance rename_eta : Eta rename := fun s =>
  mkRename (r_ins s) (int_register_stack s) (fp_register_stack s) (issue_isa_table s) (retire_isa_table s).

Definition on_stack {A} (k : kind) (m : M VanadisRegisterStack A) : M rename A :=
  match k with
  | INT => zoom int_register_stack (fun t s => s <| int_register_stack := t |>) m
  | FP => zoom fp_register_stack (fun t s => s <| fp_register_stack := t |>) m
  end.
Definition on_issue (f : VanadisISATable -> res VanadisISATable) : M rename unit :=
  t ← getsR (fun s => f (issue_isa_table s)); modify (fun s => s <| issue_isa_table := t |>).
Definition on_retire (f : VanadisISATable -> res VanadisISATable) : M rename unit :=
  t ← getsR (fun s => f (retire_isa_table s)); modify (fun s => s <| retire_isa_table := t |>).

Definition indexed (l : list Z) : list (Z * Z) := imap (fun i r => (Z.of_nat i, r)) l.

(** [setPhysIntRegIn] and its like. *)
Definition setPhysRegIn (k : kind) (index reg : Z) : M rename unit :=
  l ← getsR (fun s => set_index (phys_in k (r_ins s)) index reg);
  modify (fun s => s <| r_ins ::= put_phys_in k l |>).
Definition setPhysRegOut (k : kind) (index reg : Z) : M rename unit :=
  l ← getsR (fun s => set_index (phys_out k (r_ins s)) index reg);
  modify (fun s => s <| r_ins ::= put_phys_out k l |>).

Definition assign_input (k : kind) (reg_count : Z) (p : Z * Z) : M rename unit :=
  let '(i, isa_reg_in) := p in
  when (reg_count <=? isa_reg_in) (fatal "ins request in-reg but ISA has only") ;;
  phys_reg_in ← getsR (fun s => getPhysReg k isa_reg_in (issue_isa_table s));
  setPhysRegIn k i phys_reg_in ;;
  on_issue (incRead k isa_reg_in).
(** A system call is given the registers of the table, every other instruction free
    ones. *)
Definition assign_output (k : kind) (reg_count : Z) (p : Z * Z) : M rename unit :=
  let '(i, ins_isa_reg) := p in
  when (reg_count <=? ins_isa_reg) (fatal "ins request out-reg but ISA has only") ;;
  ins ← gets r_ins;
  if is_syscall ins then
    out_reg ← getsR (fun s => getPhysReg k ins_isa_reg (issue_isa_table s));
    setPhysRegOut k i out_reg ;;
    on_issue (incWrite k ins_isa_reg)
  else
    out_reg ← on_stack k pop_register;
    on_issue (setPhysReg k ins_isa_reg out_reg) ;;
    on_issue (incWrite k ins_isa_reg) ;;
    setPhysRegOut k i out_reg.

Definition assignRegistersToInstruction (int_reg_count fp_reg_count : Z) : M rename unit :=
  ins ← gets r_ins;
  forM (indexed (isa_in INT ins)) (assign_input INT int_reg_count) ;;
  forM (indexed (isa_in FP ins)) (assign_input FP fp_reg_count) ;;
  forM (indexed (isa_out INT ins)) (assign_output INT int_reg_count) ;;
  forM (indexed (isa_out FP ins)) (assign_output FP fp_reg_count).

(** The registers that held the values an instruction replaces. *)
Fixpoint recover_outputs (k : kind) (l : list (Z * Z)) : M rename (list Z) :=
  match l with
  | [] => mret []
  | (i, isa_reg) :: l' =>
      cur_phys_reg ← getsR (fun s => getPhysReg k isa_reg (retire_isa_table s));
      on_issue (decWrite k isa_reg) ;;
      ins ← gets r_ins;
      (if performRegisterRecovery ins then
         out ← getsR (fun s => at_index (phys_out k (r_ins s)) i);
         on_retire (setPhysReg k isa_reg out)
       else skip) ;;
      rest ← recover_outputs k l';
      mret (if performRegisterRecovery ins then cur_phys_reg :: rest else rest)
  end.

Definition recoverRetiredRegisters : M rename unit :=
  ins ← gets r_ins;
  forM (isa_in INT ins) (fun isa_reg => on_issue (decRead INT isa_reg)) ;;
  forM (isa_in FP ins) (fun isa_reg => on_issue (decRead FP isa_reg)) ;;
  recovered_phys_reg_int ← recover_outputs INT (indexed (isa_out INT ins));
  recovered_phys_reg_fp ← recover_outputs FP (indexed (isa_out FP ins));
  forM recovered_phys_reg_int (fun next_reg => on_stack INT (push_register next_reg)) ;;
  forM recovered_phys_reg_fp (fun next_reg => on_stack FP (push_register next_reg)).

(** [returnOutRegs]: of any instruction, a system call as well. *)
Definition returnOutRegs : M rename unit :=
  ins ← gets r_ins;
  forM (phys_out INT ins) (fun r => on_stack INT (push_register r)) ;;
  forM (phys_out FP ins) (fun r => on_stack FP (push_register r)).

(** ** Whether an instruction can issue *)

(** Registers of the instructions before it in the reorder buffer: read by those that
    have not issued, and written by any. *)
Record reg_temps := mkTemps {
  tmp_not_issued_int_reg_read : list bool;
  tmp_int_reg_write : list bool;
  tmp_not_issued_fp_reg_read : list bool;
  tmp_fp_reg_write : list bool }.
#[export] Instance temps_eta : Eta reg_temps := fun t =>
  mkTemps (tmp_not_issued_int_reg_read t) (tmp_int_reg_write t) (tmp_not_issued_fp_reg_read t) (tmp_fp_reg_write t).
Definition not_issued_reg_read (k : kind) (t : reg_temps) : list bool :=
  match k with INT => tmp_not_issued_int_reg_read t | FP => tmp_not_issued_fp_reg_read t end.
Definition reg_write (k : kind) (t : reg_temps) : list bool :=
  match k with INT => tmp_int_reg_write t | FP => tmp_fp_reg_write t end.

Fixpoint all_good (l : list Z) (f : Z -> res bool) : res bool :=
  match l with
  | [] => Ok true
  | r :: l' => b ← f r; b' ← all_good l' f; Ok (b && b')
  end.

Definition check_inputs (k : kind) (ins : VanadisInstruction) (t : VanadisISATable) (tmp : reg_temps) : res bool :=
  all_good (isa_in k ins) (fun ins_isa_reg =>
    p ← pendingWrites k ins_isa_reg t; w ← at_index (reg_write k tmp) ins_isa_reg; Ok (negb p && negb w)).
Definition check_outputs (k : kind) (ins : VanadisInstruction) (tmp : reg_temps) : res bool :=
  all_good (isa_out k ins) (fun ins_isa_reg =>
    r ← at_index (not_issued_reg_read k tmp) ins_isa_reg; w ← at_index (reg_write k tmp) ins_isa_reg;
    Ok (negb r && negb w)).

(** The reason an instruction cannot issue, or 0. *)
Definition checkInstructionResources (ins : VanadisInstruction) (int_regs fp_regs : VanadisRegisterStack)
    (isa_table : VanadisISATable) (tmp : reg_temps) : res Z :=
  if negb ((Z.of_nat (length (isa_out INT ins)) <=? unused int_regs) &&
           (Z.of_nat (length (isa_out FP ins)) <=? unused fp_regs)) then Ok 1
  else
    b2 ← check_inputs INT ins isa_table tmp;
    if negb b2 then Ok 2 else
    b3 ← check_inputs FP ins isa_table tmp;
    if negb b3 then Ok 3 else
    b4 ← check_outputs INT ins tmp;
    if negb b4 then Ok 4 else
    b5 ← check_outputs FP ins tmp;
    Ok (if negb b5 then 5 else 0).
