(* ===== verification/VanadisFrame.v ===== *)
(** * VanadisFrame: what an execution can change

    [execution_frame]: executing a micro-operation of one of the functional units
    returns or stops with an arithmetic failure or a fatal error; it changes the flags
    and the branch target of the instruction, and no register but those the
    instruction was given for its outputs. The jump through a register whose offset is
    not zero is the exception ([quiet]). *)

From S2P Require Import Prelude VanadisRegs VanadisInst VanadisRename.

(** ** The value of a physical register *)

Definition cell (k : kind) (rf : VanadisRegisterFile) (r : Z) : Z :=
  match k with
  | INT => value rf r
  | FP => little_endian_to_Z 8 (bytes_at (fp_reg_width rf * r) (fp_reg_width rf) (fp_reg_storage rf))
  end.

Record file_wf (rf : VanadisRegisterFile) : Prop := {
  file_int : regfile_wf rf;
  file_fp_width : 0 < fp_reg_width rf;
  file_fp_size : Z.of_nat (length (fp_reg_storage rf)) = fp_reg_width rf * count_fp_regs rf }.

(** Files of the same dimensions. *)
Record file_like (rf rf' : VanadisRegisterFile) : Prop := {
  like_opts : decoder_opts rf' = decoder_opts rf;
  like_ints : count_int_regs rf' = count_int_regs rf;
  like_fps : count_fp_regs rf' = count_fp_regs rf;
  like_wf : file_wf rf -> file_wf rf' }.
#[export] Instance file_like_preorder : PreOrder file_like.
Proof.
  split; [by split|]. intros x y z [] []. split; [congruence..|auto].
Qed.

Lemma setIntReg_frame T r v se rf rf' q :
  file_wf rf -> 0 <= r -> setIntReg T r v se rf = Ok rf' ->
  file_like rf rf' /\ (0 <= q -> q <> r -> value rf' q = value rf q) /\ forall p, cell FP rf' p = cell FP rf p.
Proof.
  intros Hwf Hr Hs.
  assert (Hlt : in_range rf r).
  { split; [done|]. revert Hs. unfold setIntReg. destruct (Z.ltb_spec r (count_int_regs rf)); done. }
  destruct (setIntReg_value T r v se rf (file_int _ Hwf) Hlt) as (rf1 & E & Hwf' & Ho & Hc & _ & Hq).
  rewrite E in Hs. injection Hs as <-.
  assert (Hfp : fp_reg_width rf1 = fp_reg_width rf /\ count_fp_regs rf1 = count_fp_regs rf /\ fp_reg_storage rf1 = fp_reg_storage rf).
  { revert E. unfold setIntReg, assert. destruct (r <? _); [|done]. destruct (negb _); intros [= <-]; by destruct rf. }
  destruct Hfp as (Hw & Hn & Hst). split_and!.
  - split; [done..|]. intros _. split; [done|rewrite Hw; apply Hwf|rewrite Hst, Hw, Hn; apply Hwf].
  - apply Hq.
  - intros p. unfold cell. by rewrite Hw, Hst.
Qed.

Lemma setFPReg_frame n r v rf rf' :
  file_wf rf -> 0 <= r -> 0 <= n -> setFPReg n r v rf = Ok rf' ->
  file_like rf rf' /\ (forall q, 0 <= q -> q <> r -> cell FP rf' q = cell FP rf q) /\ forall p, value rf' p = value rf p.
Proof.
  intros Hwf Hr Hn. unfold setFPReg, assert.
  destruct (Z.ltb_spec r (count_fp_regs rf)) as [Hlt|]; [|done].
  destruct (Z.leb_spec n (fp_reg_width rf)) as [Hle|]; [|done]. cbn [andb]. intros [= <-].
  pose proof (file_fp_size _ Hwf) as Hsz. pose proof (file_fp_width _ Hwf) as Hw.
  set (bs := _ ++ _).
  assert (Hbs : Z.of_nat (length bs) = fp_reg_width rf).
  { unfold bs. rewrite length_app, length_replicate. pose proof (length_Z_to_little_endian n 8 v Hn). lia. }
  assert (Hin : fp_reg_width rf * r + Z.of_nat (length bs) <= Z.of_nat (length (fp_reg_storage rf))) by nia.
  split_and!.
  - split; [by destruct rf..|]. intros [[? ? ?] ? ?]. destruct rf as [o ci cf wi wf si sf]. cbn in *.
    split; [by split|done|]. unfold update; cbn. rewrite length_put_bytes by nia. done.
  - intros q Hq Hne. unfold cell. destruct rf as [o ci cf wi wf si sf]. unfold update; cbn in *.
    rewrite bytes_at_put_other by nia. done.
  - by destruct rf.
Qed.

(** ** Instructions up to what happens to them after they have issued *)

Definition erase (i : VanadisInstruction) : VanadisInstruction :=
  i <| trapError := false |> <| hasExecuted := false |> <| isFrontOfROB := false |> <| update_fp_flags := false |>
    <| set_fp_flags := false |> <| fpflags := no_flags |> <| speculated ::= fmap (fun s => s <| takenAddress := 0 |>) |>.

Section erase.
Variables i i' : VanadisInstruction.
Hypothesis H : erase i' = erase i.
Lemma erase_field {A} (f : VanadisInstruction -> A) : (forall j, f (erase j) = f j) -> f i' = f i.
Proof. intros Hf. by rewrite <- (Hf i'), H, Hf. Qed.
Lemma erase_phys_in k : phys_in k i' = phys_in k i.
Proof. apply (erase_field (phys_in k)). by destruct k. Qed.
Lemma erase_phys_out k : phys_out k i' = phys_out k i.
Proof. apply (erase_field (phys_out k)). by destruct k. Qed.
Lemma erase_isa_in k : isa_in k i' = isa_in k i.
Proof. apply (erase_field (isa_in k)). by destruct k. Qed.
Lemma erase_isa_out k : isa_out k i' = isa_out k i.
Proof. apply (erase_field (isa_out k)). by destruct k. Qed.
Lemma erase_class : class i' = class i.
Proof. by apply (erase_field class). Qed.
Lemma erase_thread : hw_thread i' = hw_thread i.
Proof. by apply (erase_field hw_thread). Qed.
Lemma erase_options : isa_options i' = isa_options i.
Proof. by apply (erase_field isa_options). Qed.
Lemma erase_issued : hasIssued i' = hasIssued i.
Proof. by apply (erase_field hasIssued). Qed.
Lemma erase_speculated : speculated i' <> None <-> speculated i <> None.
Proof.
  pose proof (f_equal speculated H) as E. cbn in E.
  destruct (speculated i'), (speculated i); done.
Qed.
End erase.

(** ** Operands *)

Definition fp_width (m : VanadisFPRegisterMode) (size : Z) : nat :=
  if (size =? 8) && match m with VANADIS_REGISTER_MODE_FP32 => true | VANADIS_REGISTER_MODE_FP64 => false end then 2 else 1.

(** How many registers a class reads and writes, of each kind. *)
Definition reads (m : VanadisFPRegisterMode) (c : instruction_class) (k : kind) : nat :=
  let w F := fp_width m (sizeof_fp F) in
  match k, c with
  | INT, Op o =>
      match o with
      | AddImm _ _ | AndImm _ | OrImm _ | XorImm _ | SetRegCompareImm _ _ _ | ShiftLeftLogicalImm _ _
      | ShiftRightLogicalImm _ _ | ShiftRightArithmeticImm _ _ | BranchRegCompareImm _ _ _ _ | JumpRegLink _ | JumpReg
      | Load _ _ _ _ _ | Store _ _ _ STORE_FP_REGISTER | StoreConditional _ _ STORE_FP_REGISTER _ _
      | FPFlagsSet | GPR2FPBits _ => 1
      | Add _ | Sub _ _ | And | Or | Xor | Multiply _ | MultiplyHigh _ _ | Divide _ | Modulo _ | SetRegCompare _ _
      | ShiftLeftLogical _ | ShiftRightLogical _ | ShiftRightArithmetic _ | ConditionalMoveImm _ _ _ _
      | BranchRegCompare _ _ _ | Store _ _ _ STORE_INT_REGISTER | StoreConditional _ _ STORE_INT_REGISTER _ _ => 2
      | _ => 0
      end
  | INT, HostFP (GPR2FP _ _) => 1
  | INT, HostFP _ => 0
  | FP, Op o =>
      match o with
      | FPSignLogic F _ => 2 * w F
      | FP2GPRBits T => w (bits T)
      | Store _ _ _ STORE_FP_REGISTER | StoreConditional _ _ STORE_FP_REGISTER _ _ => 1
      | _ => 0
      end
  | FP, HostFP f =>
      match f with
      | FPAdd F | FPSub F | FPMultiply F | FPDivide F | FPMinimum F | FPSetRegCompare _ F => 2 * w F
      | FPSquareRoot F | FPConvert F _ | FP2GPR F _ => w F
      | GPR2FP _ _ => 0
      | FPFusedMultiplyAdd F | FPFusedMultiplySub F _ => 3 * w F
      end
  end%nat.
Definition writes (m : VanadisFPRegisterMode) (c : instruction_class) (k : kind) : nat :=
  let w F := fp_width m (sizeof_fp F) in
  match k, c with
  | INT, Op o =>
      match o with
      | BranchRegCompare _ _ _ | BranchRegCompareImm _ _ _ _ | JumpReg | Jump | Load _ _ _ _ LOAD_FP_REGISTER
      | Fence _ | SysCall | Fault _ | DecodeFault | DecodeAlignmentFault | FPFlagsSet | FPFlagsSetImm _ | FPSignLogic _ _
      | GPR2FPBits _ => 0
      | Store _ _ t _ => match t with MEM_TRANSACTION_LLSC_STORE => 1 | _ => 0 end
      | _ => 1
      end
  | INT, HostFP (FP2GPR _ _ | FPSetRegCompare _ _) => 1
  | INT, HostFP _ => 0
  | FP, Op o =>
      match o with
      | FPSignLogic F _ => w F
      | GPR2FPBits T => w (bits T)
      | Load _ _ _ _ LOAD_FP_REGISTER => 1
      | _ => 0
      end
  | FP, HostFP f =>
      match f with
      | FPAdd F | FPSub F | FPMultiply F | FPDivide F | FPMinimum F | FPSquareRoot F | FPConvert _ F | GPR2FP _ F
      | FPFusedMultiplyAdd F | FPFusedMultiplySub F _ => w F
      | FP2GPR _ _ | FPSetRegCompare _ _ => 0
      end
  end%nat.

(** A branch, a jump or a link address is of a speculated instruction. *)
Definition branches (c : instruction_class) : bool := bool_decide (getInstFuncType c = INST_BRANCH).

(** The operand lists of an instruction are those of its class. *)
Record operands_ok (i : VanadisInstruction) : Prop := {
  op_reads k : length (isa_in k i) = reads (fp_reg_mode (isa_options i)) (class i) k;
  op_writes k : length (isa_out k i) = writes (fp_reg_mode (isa_options i)) (class i) k;
  op_phys_in k : length (phys_in k i) = length (isa_in k i);
  op_phys_out k : length (phys_out k i) = length (isa_out k i);
  op_branch : branches (class i) = true -> speculated i <> None }.

(** The classes that change only their output registers. *)
Definition quiet (c : instruction_class) : bool := match c with Op (JumpRegLink imm) => imm =? 0 | _ => true end.

(** Those the functional units execute. *)
Definition unit_type (t : VanadisFunctionalUnitType) : bool :=
  match t with
  | INST_INT_ARITH | INST_INT_DIV | INST_FP_ARITH | INST_FP_DIV | INST_BRANCH => true
  | _ => false
  end.

(** ** The frame *)

(** Arithmetic that C++ leaves undefined, and the calls that end the simulation. *)
Definition execution_failure (e : failure) : Prop :=
  match e with
  | Fatal _ => True
  | Undefined why => why ∈ ["signed overflow"; "shift too wide"; "quotient overflows"; "division by zero"]%string
  end.

Definition phys_nonneg (i : VanadisInstruction) : Prop :=
  forall k, Forall (Z.le 0) (phys_in k i) /\ Forall (Z.le 0) (phys_out k i).

Record frame (s s' : exec) : Prop := {
  frame_ins : erase (ins s') = erase (ins s);
  frame_file : file_like (regFile s) (regFile s');
  frame_cell k r : 0 <= r -> r ∉ phys_out k (ins s) -> cell k (regFile s') r = cell k (regFile s) r }.
#[export] Instance frame_preorder' : PreOrder frame.
Proof.
  split; [intros s; by split|]. intros x y z [Hi Hf Hc] [Hi' Hf' Hc']. split.
  - congruence.
  - by transitivity (regFile y).
  - intros k r Hr Hn. rewrite Hc'; [by apply Hc|done|]. by rewrite (erase_phys_out _ _ Hi).
Qed.

Section keeps.
Variables (m : VanadisFPRegisterMode) (c : instruction_class).

Record good (s : exec) : Prop := {
  good_ops : operands_ok (ins s);
  good_class : class (ins s) = c;
  good_mode : fp_reg_mode (isa_options (ins s)) = m;
  good_nonneg : phys_nonneg (ins s);
  good_file : file_wf (regFile s) }.

Lemma good_frame s s' : good s -> frame s s' -> good s'.
Proof.
  intros [[Hr Hw Hpi Hpo Hb] Hc Hm Hn Hf] [Hi Hl _]. split.
  - split; intros; rewrite ?(erase_isa_in _ _ Hi), ?(erase_isa_out _ _ Hi), ?(erase_phys_in _ _ Hi),
      ?(erase_phys_out _ _ Hi), ?(erase_class _ _ Hi), ?(erase_options _ _ Hi) by done; auto.
    rewrite (erase_class _ _ Hi) in *. apply (erase_speculated _ _ Hi). auto.
  - by rewrite (erase_class _ _ Hi).
  - by rewrite (erase_options _ _ Hi).
  - intros k. rewrite (erase_phys_in _ _ Hi), (erase_phys_out _ _ Hi). apply Hn.
  - by apply (like_wf _ _ Hl).
Qed.

Definition keeps {A} (op : M exec A) : Prop := forall s, good s -> meets execution_failure op s (fun _ s' => frame s s').

Lemma keeps_bind {A B} (op : M exec A) (f : A -> M exec B) : keeps op -> (forall a, keeps (f a)) -> keeps (op ≫= f).
Proof.
  intros Ho Hf s Hs. eapply meets_step; [by apply Ho|]. intros a s1 H1.
  eapply meets_mono; [apply Hf; by eapply good_frame|]. intros b s2 H2. by transitivity s1.
Qed.
Lemma keeps_ret {A} (a : A) : keeps (mret a).
Proof. intros s Hs. apply meets_ret. done. Qed.
Lemma keeps_gets {A} (f : exec -> A) : keeps (gets f).
Proof. intros s Hs. apply meets_gets. done. Qed.
Lemma keeps_fail {A} e : execution_failure e -> keeps (fail e : M exec A).
Proof. intros He s Hs. by apply meets_fail. Qed.
Lemma keeps_ins f : (forall i, erase (f i) = erase i) -> keeps (modify (fun s => s <| ins ::= f |>)).
Proof. intros Hf s Hs. apply meets_modify. split; [apply Hf|done|done]. Qed.
Lemma keeps_when b op : keeps op -> keeps (when b op).
Proof. destruct b; [done|intros _; apply keeps_ret]. Qed.

Lemma read_operand (l : list Z) j n : length l = n -> 0 <= j < Z.of_nat n -> exists r, at_index l j = Ok r /\ r ∈ l.
Proof.
  intros Hl Hj. destruct (at_index_in_range l j) as [r Hr]; [lia|]. exists r. split; [done|].
  apply at_index_Ok in Hr as [_ Hr]. by eapply list_elem_of_lookup_2.
Qed.

Lemma keeps_getInt T j : 0 <= j < Z.of_nat (reads m c INT) -> keeps (getInt T j).
Proof.
  intros Hj s [Ho Hc Hm Hn Hf]. apply meets_getsR.
  destruct (read_operand (phys_int_regs_in (ins s)) j (reads m c INT)) as (r & Hr & _); [|done|].
  { change (phys_int_regs_in (ins s)) with (phys_in INT (ins s)). rewrite (op_phys_in _ Ho), (op_reads _ Ho). congruence. }
  rewrite Hr. cbn. unfold getIntReg, assert. by destruct (_ && _).
Qed.
Lemma keeps_getFP n j : 0 <= j < Z.of_nat (reads m c FP) -> keeps (getFP n j).
Proof.
  intros Hj s [Ho Hc Hm Hn Hf]. apply meets_getsR.
  destruct (read_operand (phys_fp_regs_in (ins s)) j (reads m c FP)) as (r & Hr & _); [|done|].
  { change (phys_fp_regs_in (ins s)) with (phys_in FP (ins s)). rewrite (op_phys_in _ Ho), (op_reads _ Ho). congruence. }
  rewrite Hr. cbn. unfold getFPReg, assert. by destruct (_ && _).
Qed.

Lemma frame_write s rf' k r : good s -> r ∈ phys_out k (ins s) ->
  file_like (regFile s) rf' ->
  (forall k' q, 0 <= q -> (k' = k -> q <> r) -> cell k' rf' q = cell k' (regFile s) q) ->
  frame s (s <| regFile := rf' |>).
Proof.
  intros Hs Hr Hl Hc. split; [done|done|]. intros k' q Hq Hn. apply Hc; [done|]. by intros -> ->.
Qed.

Lemma keeps_setIntAs T j v se : 0 <= j < Z.of_nat (writes m c INT) -> keeps (setIntAs T j v se).
Proof.
  intros Hj s Hs. pose proof Hs as [Ho Hc Hm Hn Hf]. unfold meets, setIntAs, modify_regs.
  destruct (read_operand (phys_int_regs_out (ins s)) j (writes m c INT)) as (r & Hr & Hin); [|done|].
  { change (phys_int_regs_out (ins s)) with (phys_out INT (ins s)). rewrite (op_phys_out _ Ho), (op_writes _ Ho). congruence. }
  assert (0 <= r) by (destruct (Hn INT) as [_ Hp]; rewrite Forall_forall in Hp; auto).
  rewrite Hr. cbn. destruct (setIntReg T r v se (regFile s)) as [rf'|e] eqn:E.
  - destruct (setIntReg_frame T r v se (regFile s) rf' 0 Hf) as (Hl & _ & Hfp); [done..|].
    apply (frame_write s rf' INT r); [done..|]. intros [] q Hq Hne; [|apply Hfp].
    by apply (setIntReg_frame T r v se (regFile s) rf' q Hf); auto.
  - revert E. unfold setIntReg, assert. by destruct (r <? _); intros [= <-].
Qed.
Lemma keeps_setInt T j v : 0 <= j < Z.of_nat (writes m c INT) -> keeps (setInt T j v).
Proof. apply keeps_setIntAs. Qed.
Lemma keeps_setFP n j v : 0 <= n -> 0 <= j < Z.of_nat (writes m c FP) -> keeps (setFP n j v).
Proof.
  intros Hn0 Hj s Hs. pose proof Hs as [Ho Hc Hm Hn Hf]. unfold meets, setFP, modify_regs.
  destruct (read_operand (phys_fp_regs_out (ins s)) j (writes m c FP)) as (r & Hr & Hin); [|done|].
  { change (phys_fp_regs_out (ins s)) with (phys_out FP (ins s)). rewrite (op_phys_out _ Ho), (op_writes _ Ho). congruence. }
  assert (0 <= r) by (destruct (Hn FP) as [_ Hp]; rewrite Forall_forall in Hp; auto).
  rewrite Hr. cbn. destruct (setFPReg n r v (regFile s)) as [rf'|e] eqn:E.
  - destruct (setFPReg_frame n r v (regFile s) rf' Hf) as (Hl & Hfp & Hi); [done..|].
    apply (frame_write s rf' FP r); [done..|]. intros [] q Hq Hne; [apply Hi|apply Hfp; auto].
  - revert E. unfold setFPReg, assert. by destruct (_ && _); intros [= <-].
Qed.

Lemma keeps_paired {A} size (a b : M exec A) :
  (fp_width m size = 2%nat -> keeps a) -> (fp_width m size = 1%nat -> keeps b) ->
  keeps (p ← paired size; if p : bool then a else b).
Proof.
  intros Ha Hb s Hs. unfold paired. apply meets_bind, meets_gets. rewrite (good_mode s Hs).
  unfold fp_width in *. by destruct (_ && _); [apply Ha|apply Hb].
Qed.
Lemma keeps_readFP size j :
  0 <= j -> ((Z.to_nat j + 1) * fp_width m size <= reads m c FP)%nat -> keeps (readFP size j).
Proof.
  intros Hj Hn. apply keeps_paired; intros Hw; rewrite Hw in Hn.
  - apply keeps_bind; [apply keeps_getFP; lia|intros left_32].
    apply keeps_bind; [apply keeps_getFP; lia|intros right_32]. apply keeps_ret.
  - apply keeps_getFP. lia.
Qed.
Lemma keeps_writeFP size v : 0 <= size -> (fp_width m size <= writes m c FP)%nat -> keeps (writeFP size v).
Proof.
  intros Hs Hn. apply keeps_paired; intros Hw; rewrite Hw in Hn.
  - apply keeps_bind; [apply keeps_setFP; lia|intros u]. apply keeps_setFP; lia.
  - apply keeps_setFP; lia.
Qed.

Lemma keeps_isa_int j : 0 <= j < Z.of_nat (reads m c INT) -> keeps (getsR (fun s => at_index (isa_int_regs_in (ins s)) j)).
Proof.
  intros Hj s [Ho Hc Hm Hn Hf]. apply meets_getsR.
  destruct (read_operand (isa_int_regs_in (ins s)) j (reads m c INT)) as (r & Hr & _); [|done|by rewrite Hr].
  change (isa_int_regs_in (ins s)) with (isa_in INT (ins s)). rewrite (op_reads _ Ho). congruence.
Qed.
Lemma keeps_getSpeculation : branches c = true -> keeps getSpeculation.
Proof.
  intros Hb s Hs. apply meets_getsR. pose proof (op_branch _ (good_ops s Hs)) as Hsp.
  rewrite (good_class s Hs) in Hsp. destruct (speculated (ins s)); [done|]. by destruct Hsp.
Qed.
Lemma keeps_not_taken : branches c = true -> keeps calculateStandardNotTakenAddress.
Proof.
  intros Hb. apply keeps_bind; [by apply keeps_getSpeculation|intros sp].
  apply keeps_bind; [apply keeps_gets|intros a; apply keeps_ret].
Qed.

Lemma keeps_arith wrapv T z : keeps (arith wrapv T z).
Proof. unfold arith. destruct (_ || _); [apply keeps_ret|apply keeps_fail; cbn; set_solver]. Qed.
Lemma keeps_shift_left T x n : keeps (shift_left T x n).
Proof. unfold shift_left. destruct (_ && _); [apply keeps_ret|apply keeps_fail; cbn; set_solver]. Qed.
Lemma keeps_shift_right T x n : keeps (shift_right T x n).
Proof. unfold shift_right. destruct (_ && _); [apply keeps_ret|apply keeps_fail; cbn; set_solver]. Qed.
Lemma keeps_quotient T op a b : keeps (quotient T op a b).
Proof.
  unfold quotient. destruct (b =? 0); [apply keeps_fail; cbn; set_solver|].
  destruct (in_format _ _); [apply keeps_ret|apply keeps_fail; cbn; set_solver].
Qed.

Lemma keeps_compare cmp a b : keeps (registerCompareValues cmp a b).
Proof.
  destruct cmp; try apply keeps_ret.
  apply keeps_bind; [apply (keeps_ins (fun i => i <| trapError := true |>)); intros []; reflexivity|intros u; apply keeps_ret].
Qed.
Lemma keeps_flags f : keeps (on_fpflags f).
Proof. apply (keeps_ins (fun i => i <| fpflags ::= f |> <| update_fp_flags := true |>)). intros []; reflexivity. Qed.
Lemma keeps_flag_checks size b : keeps (performFlagChecks size b).
Proof. apply keeps_bind; [|intros u]; apply keeps_when, keeps_flags. Qed.
Lemma keeps_check_format F b : keeps (check_format F b).
Proof. destruct F; [apply keeps_flag_checks..|apply keeps_ret]. Qed.
Lemma keeps_markExecuted : keeps markExecuted.
Proof. apply (keeps_ins (fun i => i <| hasExecuted := true |>)). intros []; reflexivity. Qed.
Lemma keeps_flagError : keeps flagError.
Proof. apply (keeps_ins (fun i => i <| trapError := true |>)). intros []; reflexivity. Qed.
Lemma keeps_set_from_mask mask : keeps (set_from_mask mask).
Proof.
  apply (keeps_ins (fun i => i <| fpflags ::= flags_of_mask mask |> <| set_fp_flags := true |>)). intros []; reflexivity.
Qed.
Lemma keeps_assert_positive z : keeps (assert_positive z).
Proof. unfold assert_positive. destruct (0 <? z); [apply keeps_ret|by apply keeps_fail]. Qed.
Lemma keeps_setTaken pc : keeps (setTaken pc).
Proof.
  apply (keeps_ins (fun i => i <| speculated ::= fmap (fun b => b <| takenAddress := u64 pc |>) |>)).
  intros [? ? ? ? ? ? ? ? ? ? ? ? ? ? ? ? ? [?|] ? ? ? ?]; reflexivity.
Qed.
End keeps.

Create HintDb keeps discriminated.
#[export] Hint Resolve keeps_ret keeps_gets keeps_when keeps_arith keeps_shift_left keeps_shift_right keeps_quotient
  keeps_compare keeps_flags keeps_flag_checks keeps_check_format keeps_markExecuted keeps_flagError
  keeps_set_from_mask keeps_assert_positive keeps_setTaken : keeps.

Lemma sizeof_nonneg T : 0 <= sizeof T.
Proof. by destruct T. Qed.
Lemma sizeof_fp_nonneg F : 0 <= sizeof_fp F.
Proof. destruct F as [| |T]; [done..|apply sizeof_nonneg]. Qed.

(** Walk through the body of an execution. *)
Ltac operand := cbn [reads writes sizeof_fp]; lia.
Ltac keeps_walk :=
  intros;
  repeat first
    [ progress cbv zeta
    | solve [eauto 2 with keeps]
    | apply keeps_readFP; operand | apply keeps_writeFP; [first [apply sizeof_fp_nonneg|apply sizeof_nonneg]|operand]
    | apply keeps_not_taken; reflexivity
    | apply keeps_bind; [|intros ?]
    | match goal with
      | |- keeps _ _ (match ?x with _ => _ end) => destruct x
      end
    | apply keeps_getInt; operand | apply keeps_setInt; operand | apply keeps_setIntAs; operand
    | apply keeps_getFP; operand
    | apply keeps_isa_int; operand
    | apply keeps_when
    | apply keeps_fail; exact I ].

Ltac head_of t := match t with ?f _ => head_of f | _ => t end.
Ltac keeps_class := match goal with |- keeps _ _ ?t => let f := head_of t in unfold f; keeps_walk end.

Section classes.
Variables (m : VanadisFPRegisterMode) (wrapv : bool) (cycle_count : Z) (host : fp_operation -> list Z -> Z).

Lemma operation_keeps o :
  unit_type (getInstFuncType (Op o)) = true -> (forall imm, o <> JumpRegLink imm) ->
  keeps m (Op o) (execute wrapv cycle_count o).
Proof.
  intros Hu Hj.
  destruct o; try done; try (exfalso; by eapply Hj); cbn [execute]; clear Hu Hj; try solve [keeps_class].
Qed.

Lemma fp_width_pos n : (1 <= fp_width m n)%nat.
Proof. unfold fp_width. destruct (_ && _); lia. Qed.
Lemma host_keeps f : keeps m (HostFP f) (execute_host host f).
Proof.
  destruct f; cbn [execute_host]; try solve [keeps_class].
  unfold exec_FPFused. apply keeps_bind; [|intros src_1; keeps_walk].
  apply keeps_getFP. pose proof (fp_width_pos (sizeof_fp F)). operand.
Qed.

(** A jump through a register without an offset stores in the register what is in it. *)
Lemma jump_keeps s :
  good m (Op (JumpRegLink 0)) s -> (forall r, r ∈ phys_in INT (ins s) -> r ∉ phys_out INT (ins s)) ->
  meets execution_failure (exec_JumpRegLink wrapv 0) s (fun _ s' => frame s s').
Proof.
  intros Hs Hd. pose proof Hs as [Ho Hc Hm Hn Hf].
  destruct (read_operand (phys_int_regs_in (ins s)) 0 1) as (r & Hr & Hin); [|done|].
  { change (phys_int_regs_in (ins s)) with (phys_in INT (ins s)). by rewrite (op_phys_in _ Ho), (op_reads _ Ho), Hc. }
  assert (Hr0 : 0 <= r) by (destruct (Hn INT) as [Hp _]; rewrite Forall_forall in Hp; auto).
  unfold exec_JumpRegLink.
  eapply meets_step with (Q1 := fun a s1 => s1 = s /\ a = cast int64_t (value (regFile s) r) /\ in_range (regFile s) r).
  { apply meets_getsR. rewrite Hr. cbn. destruct (decide (in_range (regFile s) r)) as [Hi|Hi].
    - rewrite getIntReg_value by (done || apply Hf). done.
    - unfold getIntReg, assert. destruct (Z.ltb_spec r (count_int_regs (regFile s))); [by destruct Hi|done]. }
  intros a s1 (-> & -> & Hi).
  eapply meets_step with (Q1 := fun z s1 => s1 = s /\ z = cast int64_t (cast int64_t (value (regFile s) r) + 0)).
  { unfold arith. destruct (_ || _); [done|]. cbn. set_solver. }
  intros jump s1 [-> ->].
  eapply meets_step with (Q1 := fun _ s1 => s1 = s).
  { pose proof (op_branch _ Ho) as Hb. rewrite Hc in Hb. specialize (Hb eq_refl).
    unfold calculateStandardNotTakenAddress, getSpeculation. apply meets_bind, meets_getsR.
    by destruct (speculated (ins s)). }
  intros link s1 ->.
  eapply meets_step; [by apply (keeps_setInt m (Op (JumpRegLink 0)))|]. intros u s1 H1.
  pose proof (good_frame _ _ _ _ Hs H1) as Hs1.
  eapply meets_step with (Q1 := fun _ s2 => frame s1 s2).
  { pose proof (erase_phys_in _ _ (frame_ins _ _ H1) INT) as Ei. cbn in Ei.
    unfold meets, modify_regs. rewrite Ei, Hr. cbn [mbind res_bind].
    assert (Hv : value (regFile s1) r = value (regFile s) r) by (apply (frame_cell _ _ H1 INT); auto).
    destruct (frame_file _ _ H1) as [Hop Hct _ Hwf].
    destruct (setIntReg_value uint64_t r (cast uint64_t (cast int64_t (cast int64_t (value (regFile s) r) + 0))) true (regFile s1))
      as (rf' & E & Hwf' & _ & _ & Hnew & Hother); [apply Hwf, Hf|unfold in_range; by rewrite Hct|].
    rewrite E. destruct (setIntReg_frame _ _ _ _ _ _ r (Hwf Hf) Hr0 E) as (Hl & _ & Hfp).
    split; [done|done|]. intros [] q Hq Hnq; [|apply Hfp]. cbn [cell]. cbn.
    destruct (decide (q = r)) as [->|Hne]; [|by apply Hother].
    rewrite Hnew, Hv, Z.add_0_r. unfold ignores. rewrite Hop. fold (ignores (regFile s) r).
    destruct (ignores (regFile s) r) eqn:Hig; [unfold value; by rewrite Hig|].
    unfold extend. change (width uint64_t) with 64. unfold cast at 1. change (is_signed uint64_t) with false. cbn [negb].
    change (width uint64_t) with 64. unfold cast. change (is_signed int64_t) with true. cbn [negb]. change (width int64_t) with 64.
    pose proof (value_range (regFile s) r (file_int _ Hf)).
    unfold u64. rewrite signed_mod by lia. rewrite Z.mod_mod by lia. rewrite !signed_mod by lia. by rewrite Z.mod_small. }
  intros u' s2 H2. pose proof (good_frame _ _ _ _ Hs1 H2) as Hs2.
  eapply meets_mono with (Q := fun _ s' => frame s2 s').
  - revert s2 Hs2 H2. intros s2 Hs2 _. revert s2 Hs2. change (keeps m (Op (JumpRegLink 0)) (taken ← getInt uint64_t 0; setTaken taken;; markExecuted)).
    keeps_walk.
  - intros u'' s' H'. transitivity s1; [done|]. by transitivity s2.
Qed.
End classes.

(** Executing a micro-operation of a functional unit changes nothing but its flags and
    its output registers. *)
Lemma execution_frame wrapv cycle_count host i rf :
  operands_ok i -> phys_nonneg i -> file_wf rf -> unit_type (getInstFuncType (class i)) = true ->
  quiet (class i) = true -> (forall r, r ∈ phys_in INT i -> r ∉ phys_out INT i) ->
  meets execution_failure (execution wrapv cycle_count host i) (mkExec i rf) (fun _ s' => frame (mkExec i rf) s').
Proof.
  intros Ho Hn Hf Hu Hq Hd.
  assert (Hs : good (fp_reg_mode (isa_options i)) (class i) (mkExec i rf)) by done.
  unfold execution. destruct (class i) as [o|f] eqn:Hc; [|exact (host_keeps (fp_reg_mode (isa_options i)) host f _ Hs)].
  destruct o; try exact (operation_keeps (fp_reg_mode (isa_options i)) wrapv cycle_count _ Hu ltac:(discriminate) _ Hs).
  cbn in Hq. apply Z.eqb_eq in Hq as ->. by eapply (jump_keeps (fp_reg_mode (isa_options i))).
Qed.
