(* ===== verification/VanadisMem.v ===== *)
(** * VanadisMem: what the pipeline expects of a load-store queue

    [vanadis/lsq/vlsq.h]: the operations of [VanadisLoadStoreQueue], which work on the
    instructions of the core (shared, so named by their address in [e_heap]) and on its
    register files. The requests and responses of the memory system
    ([Interfaces::StandardMem], not part of the repository) are values.

    [LoadStoreQueueLaws] states the laws of these operations: which instructions a queue has
    ([lsq_ids]), and that a tick or a response changes only the flags and the output
    registers of those, and lets go of an instruction when it has executed. The
    pipeline is verified against these laws; [VanadisLsqSafe] proves them for the basic
    queue. *)

From S2P Require Import Prelude VanadisRegs VanadisInst VanadisRename VanadisFrame.

(** ** Messages of the memory system *)

Inductive request_kind := Read | Write | LoadLink | StoreConditionalRequest | ReadLock | WriteUnlock.
Record memory_request := mkRequest {
  req_kind : request_kind;
  req_id : Z;
  pAddr : Z;
  req_size : Z;
  req_data : list Z;
  vAddr : Z;
  instPtr : Z;
  req_thread : Z }.

(** A response to a read, with the bytes, or to a write. *)
Inductive memory_response :=
| ReadResp (id virtual size : Z) (bytes : list Z) (failed : bool)
| WriteResp (id : Z) (success : bool).

(** ** The state an operation works on *)

Record memory (Q : Type) := mkMemory {
  e_heap : gmap Z VanadisInstruction;
  registerFiles : list VanadisRegisterFile;
  queue : Q }.
Arguments mkMemory {Q} _ _ _.
Arguments e_heap {Q} _.
Arguments registerFiles {Q} _.
Arguments queue {Q} _.
#[export] Instance memory_eta {Q} : Eta (memory Q) := fun m => mkMemory (e_heap m) (registerFiles m) (queue m).

Section memory.
Context {Q : Type}.

(** A pointer to a deleted instruction is not one to read. *)
Definition the_ins (id : Z) : M (memory Q) VanadisInstruction :=
  getsR (fun m => of_option (Undefined "dangling instruction") (e_heap m !! id)).
Definition on_the_ins (id : Z) (f : VanadisInstruction -> VanadisInstruction) : M (memory Q) unit :=
  i ← the_ins id; modify (fun m => m <| e_heap ::= <[id := f i]> |>).
Definition the_file (thr : Z) : M (memory Q) VanadisRegisterFile := getsR (fun m => at_index (registerFiles m) thr).
Definition set_file (thr : Z) (rf : VanadisRegisterFile) : M (memory Q) unit :=
  l ← getsR (fun m => set_index (registerFiles m) thr rf); modify (fun m => m <| registerFiles := l |>).
Definition trap (id : Z) : M (memory Q) unit := on_the_ins id (fun i => i <| trapError := true |>).
Definition mark_executed (id : Z) : M (memory Q) unit := on_the_ins id (fun i => i <| hasExecuted := true |>).
End memory.

(** The operations a load-store queue performs. *)
Definition is_memory (i : VanadisInstruction) : bool :=
  match getInstFuncType (class i) with INST_LOAD | INST_STORE | INST_FENCE => true | _ => false end.

(** ** The interface *)

Class LoadStoreQueue (Q : Type) := {
  loadFull : Q -> bool;
  storeFull : Q -> bool;
  loadSize : Q -> Z;
  storeBufferSize : Q -> Z;
  lsq_push : Z -> VanadisInstruction -> Q -> Q;
  clearLSQByThreadID : Z -> M (memory Q) unit;
  lsq_tick : M (memory Q) unit;
  (** A response of the memory system reaches the queue. *)
  lsq_receive : memory_response -> M (memory Q) unit }.

(** ** What a load-store queue promises to the pipeline *)

(** ** Progress of some instructions *)

Lemma submseteq_NoDup {A} (l l' : list A) : l ⊆+ l' -> NoDup l' -> NoDup l.
Proof. intros [r Hr]%submseteq_Permutation Hn. rewrite Hr in Hn. by apply NoDup_app in Hn as (Hn & _). Qed.

Record progressed (ids : list Z) (h h' : gmap Z VanadisInstruction) (fs fs' : list VanadisRegisterFile) : Prop := {
  pg_ins id i : h !! id = Some i -> exists i', h' !! id = Some i' /\ erase i' = erase i /\ (id ∉ ids -> i' = i);
  pg_none id : h !! id = None -> h' !! id = None;
  pg_length : length fs' = length fs;
  pg_file t rf : fs !! t = Some rf -> exists rf', fs' !! t = Some rf' /\ file_like rf rf' /\
    forall k p, 0 <= p ->
      (forall id i, id ∈ ids -> h !! id = Some i -> Z.to_nat (hw_thread i) = t -> p ∉ phys_out k i) ->
      cell k rf' p = cell k rf p }.

Lemma progressed_refl ids h fs : progressed ids h h fs fs.
Proof. split; [intros id i Hi; by exists i|done|done|intros t rf Ht; by exists rf]. Qed.
Lemma progressed_trans ids ids' h h1 h2 fs fs1 fs2 :
  progressed ids h h1 fs fs1 -> progressed ids' h1 h2 fs1 fs2 -> ids' ⊆ ids -> progressed ids h h2 fs fs2.
Proof.
  intros [A1 A2 A3 A4] [B1 B2 B3 B4] Hsub. split; [|auto|congruence|].
  - intros id i Hi. destruct (A1 id i Hi) as (i1 & H1 & E1 & N1). destruct (B1 id i1 H1) as (i2 & H2 & E2 & N2).
    exists i2. split_and!; [done|congruence|]. intros Hn. rewrite N2 by set_solver. auto.
  - intros t rf Ht. destruct (A4 t rf Ht) as (rf1 & H1 & L1 & C1). destruct (B4 t rf1 H1) as (rf2 & H2 & L2 & C2).
    exists rf2. split_and!; [done|by transitivity rf1|]. intros k p Hp Hn. rewrite C2; [by apply C1|done|].
    intros id i1 Hid Hi1 Ht1 Hout. destruct (h !! id) as [i|] eqn:Hi; [|by rewrite (A2 id Hi) in Hi1].
    destruct (A1 id i Hi) as (i1' & Hi1' & E & _). rewrite Hi1 in Hi1'. injection Hi1' as <-.
    apply (Hn id i); [set_solver|done|by rewrite <- (erase_thread _ _ E)|by rewrite <- (erase_phys_out _ _ E)].
Qed.

(** ** The laws *)

(** An operation that waits in a queue. *)
Record pending (m : list VanadisRegisterFile) (i : VanadisInstruction) : Prop := {
  pn_memory : is_memory i = true;
  pn_unexecuted : hasExecuted i = false;
  pn_operands : operands_ok i;
  pn_nonneg : phys_nonneg i;
  pn_thread : 0 <= hw_thread i;
  pn_file : exists rf, m !! Z.to_nat (hw_thread i) = Some rf /\ file_wf rf }.

(** The bytes a response to a read must have. *)
Definition response_ok (r : memory_response) : Prop :=
  match r with
  | ReadResp _ virtual size bytes _ => 0 <= virtual < 2 ^ 64 /\ 0 <= size < 2 ^ 64 /\ size <= Z.of_nat (length bytes) /\
      Forall (fun b => 0 <= b < 2 ^ 8) bytes
  | WriteResp _ _ => True
  end.

Section laws.
Context {Q : Type} (ids : Q -> list Z) (inv : memory Q -> Prop).

Record ready (m : memory Q) : Prop := {
  rd_inv : inv m;
  rd_nodup : NoDup (ids (queue m));
  rd_pending id : id ∈ ids (queue m) -> exists i, e_heap m !! id = Some i /\ pending (registerFiles m) i }.

(** What a tick or a response does. *)
Record served (m m' : memory Q) : Prop := {
  sv_inv : inv m';
  sv_ids : ids (queue m') ⊆+ ids (queue m);
  sv_unexecuted id i : id ∈ ids (queue m') -> e_heap m' !! id = Some i -> hasExecuted i = false;
  sv_progress : progressed (ids (queue m)) (e_heap m) (e_heap m') (registerFiles m) (registerFiles m') }.
End laws.

Class LoadStoreQueueLaws (Q : Type) `{!LoadStoreQueue Q} := {
  lsq_ids : Q -> list Z;
  lsq_inv : memory Q -> Prop;
  lsq_inv_frame m m' :
    lsq_inv m -> queue m' = queue m ->
    (forall id i, id ∈ lsq_ids (queue m) -> e_heap m !! id = Some i -> exists i', e_heap m' !! id = Some i' /\ class i' = class i) ->
    lsq_inv m';
  lsq_push_ids id i q : lsq_ids (lsq_push id i q) ≡ₚ id :: lsq_ids q;
  lsq_push_inv id i m : lsq_inv m -> e_heap m !! id = Some i -> is_memory i = true -> lsq_inv (m <| queue ::= lsq_push id i |>);
  lsq_clear_ok thr m : ready lsq_ids lsq_inv m ->
    runs (clearLSQByThreadID thr) m (fun _ m' =>
      e_heap m' = e_heap m /\ registerFiles m' = registerFiles m /\ lsq_inv m' /\ lsq_ids (queue m') ⊆+ lsq_ids (queue m) /\
      forall id i, id ∈ lsq_ids (queue m') -> e_heap m !! id = Some i -> hw_thread i <> thr);
  lsq_tick_ok m : ready lsq_ids lsq_inv m ->
    meets execution_failure lsq_tick m (fun _ m' => served lsq_ids lsq_inv m m');
  lsq_receive_ok r m : ready lsq_ids lsq_inv m -> response_ok r ->
    meets execution_failure (lsq_receive r) m (fun _ m' => served lsq_ids lsq_inv m m') }.
