(* ===== verification/VanadisLsq.v ===== *)
(** * VanadisLsq: the basic load-store queue

    Models [vanadis/lsq/vbasiclsq.h] and [vbasiclsqentry.h]: the queue of operations in
    program order ([op_q]), the loads whose data is awaited, the stores that wait for
    the front of the reorder buffer, and the requests of plain stores in flight.
    Requests are recorded in [sent]; their identifiers are consecutive. Instructions
    have no register offset (only the partial loads and stores of MIPS do). Not
    modelled: printing and statistics. *)

From S2P Require Import Prelude VanadisRegs VanadisInst VanadisMem.

(** ** State *)

Inductive VanadisBasicLoadStoreEntryOp := LOAD | STORE | FENCE.
#[export] Instance entry_op_eq_dec : EqDecision VanadisBasicLoadStoreEntryOp.
Proof. solve_decision. Defined.
Record VanadisBasicLoadStoreEntry := mkEntry { getEntryOp : VanadisBasicLoadStoreEntryOp; entry_ins : Z }.

Record VanadisBasicStorePendingEntry := mkStorePending {
  sp_ins : Z;
  storeAddress : Z;
  storeWidth : Z;
  valueRegister : Z;
  valueRegisterType : VanadisStoreRegisterType;
  dispatched : bool;
  sp_requests : list Z }.
#[export] Instance store_pending_eta : Eta VanadisBasicStorePendingEntry := fun e =>
  mkStorePending (sp_ins e) (storeAddress e) (storeWidth e) (valueRegister e) (valueRegisterType e) (dispatched e) (sp_requests e).

Record VanadisBasicLoadPendingEntry := mkLoadPending {
  lp_ins : Z;
  load_address : Z;
  load_width : Z;
  lp_requests : list Z }.
#[export] Instance load_pending_eta : Eta VanadisBasicLoadPendingEntry := fun e =>
  mkLoadPending (lp_ins e) (load_address e) (load_width e) (lp_requests e).

Record VanadisBasicLoadStoreQueue := mkLsq {
  op_q : list VanadisBasicLoadStoreEntry;
  stores_pending : list VanadisBasicStorePendingEntry;
  loads_pending : list VanadisBasicLoadPendingEntry;
  std_stores_in_flight : gset Z;
  max_stores : Z;
  max_loads : Z;
  max_issue_attempts_per_cycle : Z;
  cache_line_width : Z;
  address_mask : Z;
  next_request : Z;
  sent : list memory_request }.
#[export] Instance lsq_eta : Eta VanadisBasicLoadStoreQueue := fun q =>
  mkLsq (op_q q) (stores_pending q) (loads_pending q) (std_stores_in_flight q) (max_stores q) (max_loads q)
    (max_issue_attempts_per_cycle q) (cache_line_width q) (address_mask q) (next_request q) (sent q).
Definition new_VanadisBasicLoadStoreQueue (stores loads attempts line mask : Z) : VanadisBasicLoadStoreQueue :=
  mkLsq [] [] [] ∅ stores loads attempts line mask 0 [].

Definition lsq_storeFull (q : VanadisBasicLoadStoreQueue) : bool := max_stores q <=? Z.of_nat (length (op_q q)).
Definition lsq_loadFull (q : VanadisBasicLoadStoreQueue) : bool := max_loads q <=? Z.of_nat (length (op_q q)).
Definition lsq_loadSize (q : VanadisBasicLoadStoreQueue) : Z := Z.of_nat (length (op_q q)).
Definition lsq_storeBufferSize (q : VanadisBasicLoadStoreQueue) : Z := Z.of_nat (size (std_stores_in_flight q)).

(** The three overloads of [push]. *)
Definition entry_of (id : Z) (i : VanadisInstruction) : VanadisBasicLoadStoreEntry :=
  mkEntry match getInstFuncType (class i) with INST_LOAD => LOAD | INST_STORE => STORE | _ => FENCE end id.
Definition push_entry (id : Z) (i : VanadisInstruction) (q : VanadisBasicLoadStoreQueue) : VanadisBasicLoadStoreQueue :=
  q <| op_q ::= fun l => l ++ [entry_of id i] |>.

(** ** Operations *)

#[local] Abbreviation L := (M (memory VanadisBasicLoadStoreQueue)).
Definition on_queue (f : VanadisBasicLoadStoreQueue -> VanadisBasicLoadStoreQueue) : L unit :=
  modify (fun m => m <| queue ::= f |>).
Definition lsq_assert (b : bool) : L unit := if b then skip else fatal "assert".

Definition request (kind : request_kind) (addr width : Z) (data : list Z) (i : VanadisInstruction) : L memory_request :=
  q ← gets queue;
  on_queue (fun q => q <| next_request ::= Z.add 1 |>) ;;
  mret (mkRequest kind (next_request q) (Z.land addr (address_mask q)) width data addr (ins_address i) (hw_thread i)).
Definition send (r : memory_request) : L unit := on_queue (fun q => q <| sent ::= fun l => l ++ [r] |>).

(** The entries of other threads, by the thread of their instruction. *)
Fixpoint keep_others {E} (pointer : E -> Z) (thread : Z) (l : list E) : L (list E) :=
  match l with
  | [] => mret []
  | e :: l' =>
      i ← the_ins (pointer e);
      rest ← keep_others pointer thread l';
      mret (if hw_thread i =? thread then rest else e :: rest)
  end.
Definition clear_thread (thread : Z) : L unit :=
  q ← gets queue;
  ops ← keep_others entry_ins thread (op_q q);
  loads ← keep_others lp_ins thread (loads_pending q);
  stores ← keep_others sp_ins thread (stores_pending q);
  on_queue (fun q => q <| op_q := ops |> <| loads_pending := loads |> <| stores_pending := stores |>).

Definition operationStraddlesCacheLine (address width : Z) (q : VanadisBasicLoadStoreQueue) : res bool :=
  cache_line_left ← udiv address (cache_line_width q);
  cache_line_right ← udiv (u64 (address + width - 1)) (cache_line_width q);
  Ok (negb (cache_line_left =? cache_line_right)).

Definition storeAddressOverlaps (loadAddress loadWidth : Z) (e : VanadisBasicStorePendingEntry) : bool :=
  let store_end := u64 (storeAddress e + storeWidth e - 1) in
  let load_end := u64 (loadAddress + loadWidth - 1) in
  ((storeAddress e <=? loadAddress) && (loadAddress <=? store_end)) ||
  ((loadAddress <=? storeAddress e) && (storeAddress e <=? load_end)).

(** The threads of the pending operations. *)
Fixpoint any_of_thread {E} (pointer : E -> Z) (thread : Z) (P : E -> bool) (l : list E) : L bool :=
  match l with
  | [] => mret false
  | e :: l' =>
      i ← the_ins (pointer e);
      if (hw_thread i =? thread) && P e then mret true else any_of_thread pointer thread P l'
  end.
Definition pendingStores (thr : Z) : L bool :=
  l ← gets (fun m => stores_pending (queue m)); any_of_thread sp_ins thr (fun _ => true) l.
Definition pendingLoads (thr : Z) : L bool :=
  l ← gets (fun m => loads_pending (queue m)); any_of_thread lp_ins thr (fun _ => true) l.
Definition checkStoreConflict (thread address width : Z) : L bool :=
  l ← gets (fun m => stores_pending (queue m)); any_of_thread sp_ins thread (storeAddressOverlaps address width) l.

(** What the class of an instruction adds to it. *)
Definition load_fields (i : VanadisInstruction) : res (Z * Z * bool * VanadisMemoryTransaction * VanadisLoadRegisterType) :=
  match class i with
  | Op (Load offset width signed_extend t r) => Ok (offset, width, signed_extend, t, r)
  | _ => Err (Fatal "not a load instruction")
  end.
Definition store_fields (i : VanadisInstruction) : res (Z * Z * VanadisMemoryTransaction * VanadisStoreRegisterType) :=
  match class i with
  | Op (Store offset width t r) => Ok (offset, width, t, r)
  | Op (StoreConditional offset width r _ _) => Ok (offset, width, MEM_TRANSACTION_LLSC_STORE, r)
  | _ => Err (Fatal "not a store instruction")
  end.

(** ** Loads *)

(** The two halves of an access that crosses a line: what is left of the boundary, and
    what is right of it. *)
Definition split_widths (address width : Z) : L (Z * Z) :=
  right_width ← getsR (fun m => umod (u64 (address + width)) (cache_line_width (queue m)));
  lsq_assert (0 <? right_width) ;;
  let left_width := u64 (width - right_width) in
  lsq_assert (0 <? left_width) ;;
  mret (left_width, right_width).

(** A load whose request is linked or locked. *)
Definition special_load (id : Z) (kind : request_kind) (i : VanadisInstruction) (address width : Z) (needs_split : bool) :
    L (option memory_request) :=
  if needs_split then trap id ;; mret None
  else r ← request kind address width [] i; mret (Some r).

Definition issueLoad (id address width : Z) : L unit :=
  i ← the_ins id;
  needs_split ← getsR (fun m => operationStraddlesCacheLine address width (queue m));
  fields ← getsR (fun _ => load_fields i);
  let '(_, _, _, transaction, _) := fields in
  made ← (match transaction with
    | MEM_TRANSACTION_NONE =>
        if needs_split : bool then
          w ← split_widths address width;
          let '(load_width_left, load_width_right) := w in
          let load_right_start := u64 (address + load_width_left) in
          c ← getsR (fun m => umod load_right_start (cache_line_width (queue m)));
          lsq_assert (c =? 0) ;;
          r1 ← request Read address load_width_left [] i;
          send r1 ;;
          r2 ← request Read load_right_start load_width_right [] i;
          mret ([req_id r1], Some r2)
        else
          lsq_assert (width <=? 8) ;;
          mask ← gets (fun m => address_mask (queue m));
          if Z.land address mask =? 0 then trap id ;; mret ([], None)
          else r ← request Read address width [] i; mret ([], Some r)
    | MEM_TRANSACTION_LLSC_LOAD => r ← special_load id LoadLink i address width needs_split; mret ([], r)
    | MEM_TRANSACTION_LLSC_STORE => fatal "LOAD instruction is marked with an LLSC STORE transaction class"
    | MEM_TRANSACTION_LOCK => r ← special_load id ReadLock i address width needs_split; mret ([], r)
    end);
  i' ← the_ins id;
  when (negb (trapError i'))
    (r ← getsR (fun _ => of_option (Fatal "assert") (snd made));
     send r ;;
     on_queue (fun q => q <| loads_pending ::= fun l => l ++ [mkLoadPending id address width (fst made ++ [req_id r])] |>)).

(** The index of the first entry that waits for a request. *)
Fixpoint find_index {E} (P : E -> bool) (l : list E) : option nat :=
  match l with [] => None | e :: l' => if P e then Some 0%nat else option_map S (find_index P l') end.
Fixpoint remove_first (x : Z) (l : list Z) : list Z :=
  match l with [] => [] | y :: l' => if y =? x then l' else y :: remove_first x l' end.
Definition waits_for (r : Z) (l : list Z) : bool := existsb (Z.eqb r) l.

(** [register_value.at(i) = b]: a vector checks its bounds. *)
Definition put_at (i b : Z) (l : list Z) : res (list Z) :=
  match set_index l i b with Ok l' => Ok l' | Err _ => Err (Fatal "std::out_of_range") end.
Definition get_at (i : Z) (l : list Z) : res Z :=
  match at_index l i with Ok b => Ok b | Err _ => Err (Fatal "std::out_of_range") end.
(** [for (i = from; i < to; ++i) value.at(shift + i) = byte i]. *)
Fixpoint put_each (n : nat) (i shift : Z) (byte : Z -> res Z) (l : list Z) : res (list Z) :=
  match n with
  | O => Ok l
  | S n' => b ← byte i; l' ← put_at (shift + i) b l; put_each n' (i + 1) shift byte l'
  end.
Definition put_range (from to shift : Z) (byte : Z -> res Z) (l : list Z) : res (list Z) :=
  put_each (Z.to_nat (to - from)) from shift byte l.

(** The value of an integer register after a response with the bytes at [offset]; the
    last response extends it. *)
Definition merge_int (signed_extend last : bool) (offset size : Z) (bytes value : list Z) : res (list Z) :=
  value ← put_range 0 size offset (at_index bytes) value;
  if last then
    fill ← (if signed_extend then top ← get_at (offset + size - 1) value; Ok (if Z.testbit top 7 then 255 else 0)
            else Ok 0);
    put_range (offset + size) (Z.of_nat (length value)) 0 (fun _ => Ok fill) value
  else Ok value.
(** The same for a floating-point register, whose loop begins at the offset. *)
Definition merge_fp (last : bool) (offset size : Z) (bytes value : list Z) : res (list Z) :=
  value ← put_range offset size offset (at_index bytes) value;
  if last then put_range (offset + size) (Z.of_nat (length value)) 0 (fun _ => Ok 0) value else Ok value.

(** What a response does to the register of the load; [offset] is [addr_offset]. *)
Definition write_load (load_entry : VanadisBasicLoadPendingEntry) (i : VanadisInstruction) (virtual size : Z) (bytes : list Z) : L unit :=
  let offset := u64 (virtual - load_address load_entry) in
  let last := (length (lp_requests load_entry) =? 1)%nat in
  fields ← getsR (fun _ => load_fields i);
  let '(_, _, signed_extend, _, regType) := fields in
  rf ← the_file (hw_thread i);
  match regType with
  | LOAD_INT_REGISTER =>
      target_isa_reg ← getsR (fun _ => at_index (isa_int_regs_out i) 0);
      target_reg ← getsR (fun _ => at_index (phys_int_regs_out i) 0);
      lsq_assert (target_isa_reg <? isa_int_reg_count (isa_options i)) ;;
      when (negb (target_reg =? reg_ignore_writes (isa_options i)))
        (value ← getsR (fun _ => copyFromIntRegister target_reg 0 (int_reg_width rf) rf);
         lsq_assert (u64 (offset + size) <=? int_reg_width rf) ;;
         value ← getsR (fun _ => merge_int signed_extend last offset size bytes value);
         rf' ← getsR (fun _ => copyToIntRegister target_reg 0 value rf);
         set_file (hw_thread i) rf')
  | LOAD_FP_REGISTER =>
      target_reg ← getsR (fun _ => at_index (phys_fp_regs_out i) 0);
      value ← getsR (fun _ => copyFromFPRegister target_reg 0 (fp_reg_width rf) rf);
      lsq_assert (u64 (offset + size) <=? fp_reg_width rf) ;;
      value ← getsR (fun _ => merge_fp last offset size bytes value);
      rf' ← getsR (fun _ => copyToFPRegister target_reg 0 value rf);
      set_file (hw_thread i) rf'
  end.

(** [handle(ReadResp)]. *)
Definition handle_read (id virtual size : Z) (bytes : list Z) (failed : bool) : L unit :=
  loads ← gets (fun m => loads_pending (queue m));
  match find_index (fun e => waits_for id (lp_requests e)) loads with
  | None => skip
  | Some k =>
      e ← getsR (fun _ => of_option (Undefined "index out of range") (loads !! k));
      let p := lp_ins e in
      when failed (trap p) ;;
      i ← the_ins p;
      write_load e i virtual size bytes ;;
      when (virtual <? 64) (trap p) ;;
      let e' := e <| lp_requests ::= remove_first id |> in
      match lp_requests e' with
      | [] => mark_executed p ;; on_queue (fun q => q <| loads_pending ::= erase_at k |>)
      | _ => on_queue (fun q => q <| loads_pending ::= <[k := e']> |>)
      end
  end.

(** ** Stores *)

(** The bytes of the value register of a store. *)
Definition payload (i : VanadisInstruction) (regType : VanadisStoreRegisterType) (offset width : Z) : L (list Z) :=
  rf ← the_file (hw_thread i);
  match regType with
  | STORE_FP_REGISTER => r ← getsR (fun _ => at_index (phys_fp_regs_in i) 0); getsR (fun _ => copyFromRegister r offset width true rf)
  | STORE_INT_REGISTER => r ← getsR (fun _ => at_index (phys_int_regs_in i) 1); getsR (fun _ => copyFromRegister r offset width false rf)
  end.
Definition in_flight (r : memory_request) : L unit :=
  on_queue (fun q => q <| std_stores_in_flight ::= fun s => {[req_id r]} ∪ s |>).
Definition standard_write (i : VanadisInstruction) (address width : Z) (data : list Z) : L unit :=
  r ← request Write address width data i; in_flight r ;; send r.
Definition on_store_front (f : VanadisBasicStorePendingEntry -> VanadisBasicStorePendingEntry) : L unit :=
  on_queue (fun q => q <| stores_pending ::= fun l => match l with e :: l' => f e :: l' | [] => [] end |>).
(** A conditional or unlocking store, whose entry waits for the response. *)
Definition special_store (id : Z) (i : VanadisInstruction) (kind : request_kind) (address width : Z) (data : list Z) : L unit :=
  r ← request kind address width data i;
  when (address <? 4096) (trap id) ;;
  send r ;;
  on_store_front (fun e => e <| sp_requests ::= fun l => l ++ [req_id r] |> <| dispatched := true |>).

(** Whether the store is done with; [e] is the front of the pending stores. *)
Definition issueStore (e : VanadisBasicStorePendingEntry) : L bool :=
  let id := sp_ins e in let address := storeAddress e in let width := storeWidth e in
  i ← the_ins id;
  needs_split ← getsR (fun m => operationStraddlesCacheLine address width (queue m));
  fields ← getsR (fun _ => store_fields i);
  let '(_, _, transaction, regType) := fields in
  match transaction with
  | MEM_TRANSACTION_NONE =>
      if needs_split : bool then
        w ← split_widths address width;
        let '(store_width_left, store_width_right) := w in
        data ← payload i regType 0 store_width_left;
        standard_write i address store_width_left data ;;
        data ← payload i regType store_width_left store_width_right;
        standard_write i (u64 (address + store_width_left)) store_width_right data ;;
        mret true
      else
        data ← payload i regType 0 width;
        standard_write i address width data ;; mret true
  | MEM_TRANSACTION_LLSC_LOAD => fatal "attempted to issue a LLSC-load via store instruction"
  | MEM_TRANSACTION_LLSC_STORE =>
      if needs_split then fatal "LLSC-store over a split-cache line"
      else data ← payload i regType 0 width; special_store id i StoreConditionalRequest address width data ;; mret false
  | MEM_TRANSACTION_LOCK =>
      if needs_split then fatal "LOCK-store over a split-cache line"
      else data ← payload i regType 0 width; special_store id i WriteUnlock address width data ;; mret false
  end.

Definition issueStoreFront : L unit :=
  stores ← gets (fun m => stores_pending (queue m));
  match stores with
  | [] => skip
  | current_store :: _ =>
      store_ins ← the_ins (sp_ins current_store);
      if negb (dispatched current_store) && (isFrontOfROB store_ins && hasIssued store_ins) then
        issue_result ← issueStore current_store;
        if issue_result : bool then
          on_queue (fun q => q <| stores_pending ::= fun l => tail l |>) ;; mark_executed (sp_ins current_store)
        else on_store_front (fun e => e <| dispatched := true |>)
      else skip
  end.

(** The store at the front has been answered. *)
Definition finish_store (id : Z) : L unit :=
  mark_executed id ;; on_queue (fun q => q <| stores_pending ::= fun l => tail l |>).
(** [handle(WriteResp)]. *)
Definition handle_write (id : Z) (success : bool) : L unit :=
  q ← gets queue;
  if decide (id ∈ std_stores_in_flight q) then
    on_queue (fun q => q <| std_stores_in_flight ::= fun s => s ∖ {[id]} |>)
  else
    match stores_pending q with
    | [] => skip
    | e :: _ =>
        if waits_for id (sp_requests e) then
          i ← the_ins (sp_ins e);
          fields ← getsR (fun _ => store_fields i);
          let '(_, _, transaction, _) := fields in
          match transaction with
          | MEM_TRANSACTION_LLSC_STORE =>
              value_reg ← getsR (fun _ => at_index (phys_int_regs_out i) 0);
              match class i with
              | Op (StoreConditional _ _ _ value_success value_failure) =>
                  rf ← the_file (hw_thread i);
                  rf' ← getsR (fun _ => if success then setIntReg int64_t value_reg value_success true rf
                                        else setIntReg uint64_t value_reg value_failure true rf);
                  set_file (hw_thread i) rf'
              | _ => fatal "Unable to cast an LLSC_STORE into a store-conditional, logic failure."
              end ;;
              finish_store (sp_ins e)
          | MEM_TRANSACTION_LOCK => finish_store (sp_ins e)
          | _ => fatal "reached a transaction NONE or LLSC_LOAD in a store return"
          end
        else skip
    end.

(** ** The clock *)

Definition pop_front : L unit := on_queue (fun q => q <| op_q ::= fun l => tail l |>).

Section clock.
Variable wrapv : bool.

(** [computeLoadAddress] and [computeStoreAddress] only read the registers. *)
Definition address_of (i : VanadisInstruction) (compute : M exec (Z * Z)) : L (Z * Z) :=
  rf ← the_file (hw_thread i);
  getsR (fun _ => r ← compute (mkExec i rf); Ok (fst r)).

Definition attempt_load (id : Z) : L bool :=
  q ← gets queue;
  if max_loads q <=? Z.of_nat (length (loads_pending q)) then mret false else
  i ← the_ins id;
  fields ← getsR (fun _ => load_fields i);
  let '(offset, width, _, _, _) := fields in
  a ← address_of i (computeLoadAddress wrapv offset width);
  let '(address, width) := a in
  if trapError i then pop_front ;; mret true else
  conflict ← checkStoreConflict (hw_thread i) address width;
  if conflict : bool then mret false
  else issueLoad id address width ;; pop_front ;; mret true.

Definition attempt_store (id : Z) : L bool :=
  q ← gets queue;
  if max_stores q <=? Z.of_nat (length (stores_pending q)) then mret false else
  i ← the_ins id;
  fields ← getsR (fun _ => store_fields i);
  let '(offset, width, _, regType) := fields in
  a ← address_of i (computeStoreAddress wrapv offset width);
  let '(address, width) := a in
  (if trapError i then mark_executed id
   else
     r ← getsR (fun _ => match regType with
                         | STORE_INT_REGISTER => at_index (phys_int_regs_in i) 1
                         | STORE_FP_REGISTER => at_index (phys_fp_regs_in i) 0
                         end);
     on_queue (fun q => q <| stores_pending ::= fun l => l ++ [mkStorePending id address width r regType false []] |>)) ;;
  pop_front ;; mret true.

Definition attempt_fence (id : Z) : L bool :=
  i ← the_ins id;
  fence ← getsR (fun _ => match class i with Op (Fence f) => Ok f | _ => Err (Undefined "not a fence") end);
  let createsLoadFence := match fence with VANADIS_STORE_FENCE => false | _ => true end in
  let createsStoreFence := match fence with VANADIS_LOAD_FENCE => false | _ => true end in
  loads ← (if createsLoadFence then pendingLoads (hw_thread i) else mret false);
  stores ← (if createsStoreFence && negb loads then pendingStores (hw_thread i) else mret false);
  q ← gets queue;
  let flying := createsStoreFence && negb (size (std_stores_in_flight q) =? 0)%nat in
  if loads || stores || flying then mret false
  else mark_executed id ;; pop_front ;; mret true.

Definition attempt_to_issue : L bool :=
  q ← gets queue;
  match op_q q with
  | [] => mret false
  | e :: _ =>
      i ← the_ins (entry_ins e);
      if negb (hasIssued i) then mret false else
      match getEntryOp e with
      | LOAD => attempt_load (entry_ins e)
      | STORE => attempt_store (entry_ins e)
      | FENCE => attempt_fence (entry_ins e)
      end
  end.

(** As many attempts as a cycle allows, until one fails. *)
Fixpoint attempts (n : nat) : L unit :=
  match n with
  | O => skip
  | S n' => attempt_result ← attempt_to_issue; if attempt_result : bool then attempts n' else skip
  end.
Definition tick_lsq : L unit :=
  q ← gets queue;
  attempts (Z.to_nat (max_issue_attempts_per_cycle q)) ;;
  issueStoreFront.

Definition receive (r : memory_response) : L unit :=
  match r with
  | ReadResp id virtual size bytes failed => handle_read id virtual size bytes failed
  | WriteResp id success => handle_write id success
  end.

#[export] Instance basic_lsq : LoadStoreQueue VanadisBasicLoadStoreQueue := {|
  loadFull := lsq_loadFull; storeFull := lsq_storeFull; loadSize := lsq_loadSize;
  storeBufferSize := lsq_storeBufferSize; lsq_push := push_entry;
  clearLSQByThreadID := clear_thread; lsq_tick := tick_lsq; lsq_receive := receive |}.
End clock.
