(* ===== verification/VanadisFree.v ===== *)
(** * VanadisFree: what renaming does to the registers

    The functions of [VanadisRename] as operations on two lists: the free registers of
    a stack ([free]) and the registers a table points to ([ptr]). Registers are moved
    between them and the outputs of instructions, never copied. *)

From S2P Require Import Prelude VanadisRegs VanadisInst VanadisRename.

(** ** The stack of free registers *)

Definition free (s : VanadisRegisterStack) : list Z := take (Z.to_nat (stack_top s + 1)) (regs s).
Record stack_ok (n : Z) (s : VanadisRegisterStack) : Prop := {
  stack_size : Z.of_nat (length (regs s)) = n;
  stack_bounds : -1 <= stack_top s < n }.

Lemma length_free n s : stack_ok n s -> Z.of_nat (length (free s)) = stack_top s + 1.
Proof. intros [Hs Hb]. unfold free. rewrite length_take. lia. Qed.

Lemma unused_free n s (k : Z) : stack_ok n s -> 0 <= k <= unused s -> k <= Z.of_nat (length (free s)).
Proof.
  intros Hs Hk. rewrite (length_free n s Hs). unfold unused in Hk. pose proof (stack_bounds _ _ Hs).
  destruct (Z.ltb_spec 0 (stack_top s)); lia.
Qed.

Lemma runs_pop_register n s l x :
  stack_ok n s -> free s = l ++ [x] -> runs pop_register s (fun y s' => y = x /\ free s' = l /\ stack_ok n s').
Proof.
  intros Hs Hf. pose proof (length_free n s Hs) as Hl. rewrite Hf, length_app in Hl. cbn in Hl.
  destruct Hs as [Hn Hb]. unfold pop_register. apply runs_bind. eapply runs_getsR.
  { apply at_index_Ok. split; [lia|]. instantiate (1 := x).
    rewrite <- (lookup_take_lt (regs s) (Z.to_nat (stack_top s + 1))) by lia. fold (free s). rewrite Hf.
    apply list_lookup_middle. lia. }
  apply runs_bind, runs_modify, runs_ret. split; [done|]. split; [|split; cbn; lia].
  unfold free; cbn. replace (stack_top s - 1 + 1) with (stack_top s) by lia.
  replace (take (Z.to_nat (stack_top s)) (regs s)) with (take (Z.to_nat (stack_top s)) (free s))
    by (unfold free; rewrite take_take; f_equal; lia).
  rewrite Hf. apply take_app_length'. lia.
Qed.

Lemma runs_push_register n s v :
  stack_ok n s -> Z.of_nat (length (free s)) < n ->
  runs (push_register v) s (fun _ s' => free s' = free s ++ [v] /\ stack_ok n s').
Proof.
  intros Hs Hlt. pose proof (length_free n s Hs) as Hl. destruct Hs as [Hn Hb]. unfold push_register.
  apply runs_bind, runs_modify, runs_bind. eapply runs_getsR; [apply set_index_in_range; cbn; lia|].
  apply runs_modify. unfold free, update; cbn. split; [|split; cbn; rewrite ?length_insert; lia].
  replace (Z.to_nat (stack_top s + 1 + 1)) with (S (Z.to_nat (stack_top s + 1))) by lia.
  rewrite (take_S_r _ _ v) by (apply list_lookup_insert_eq; lia). f_equal. apply take_insert_ge. lia.
Qed.

(** ** Tables *)

Definition ptr (k : kind) (t : VanadisISATable) : list Z := reg_ptr (registers k t).

(** The tables of a thread have a row for each of its registers. *)
Record table_ok (n : kind -> nat) (t : VanadisISATable) : Prop := {
  table_ptr k : length (ptr k t) = n k;
  table_read k : length (reg_pending_read (registers k t)) = n k;
  table_write k : length (reg_pending_write (registers k t)) = n k }.

Definition reg_ok (n : kind -> nat) (k : kind) (r : Z) : Prop := 0 <= r < Z.of_nat (n k).

(** Assignments of physical registers, in order. *)
Fixpoint assign (l : list (Z * Z)) (p : list Z) : list Z :=
  match l with [] => p | (r, v) :: l' => assign l' (<[Z.to_nat r := v]> p) end.

Section tables.
Variable n : kind -> nat.

Lemma getPhysReg_ok k r t : table_ok n t -> reg_ok n k r ->
  exists p, getPhysReg k r t = Ok p /\ ptr k t !! Z.to_nat r = Some p.
Proof.
  intros Ht Hr. unfold getPhysReg, reg_ok in *. pose proof (table_ptr _ _ Ht k) as Hl. unfold ptr in *.
  rewrite (proj2 (Z.ltb_lt _ _)) by lia.
  destruct (lookup_lt_is_Some_2 (reg_ptr (registers k t)) (Z.to_nat r)) as [p Hp]; [lia|].
  exists p. split; [|done]. apply at_index_Ok. split; [lia|done].
Qed.

Lemma setPhysReg_ok k r p t : table_ok n t -> reg_ok n k r ->
  exists t', setPhysReg k r p t = Ok t' /\ table_ok n t' /\ ptr k t' = <[Z.to_nat r := p]> (ptr k t) /\
    forall k', k' <> k -> ptr k' t' = ptr k' t.
Proof.
  intros Ht Hr. unfold setPhysReg, reg_ok in *. pose proof (table_ptr _ _ Ht k) as Hl. unfold ptr in Hl.
  rewrite set_index_in_range by lia. eexists. split; [reflexivity|]. split_and!; [| |intros []; by destruct k].
  - destruct Ht as [Hp Hrd Hwr]. split; intros k'; destruct k, k'; cbn; rewrite ?length_insert;
      solve [apply (Hp INT)|apply (Hp FP)|apply (Hrd INT)|apply (Hrd FP)|apply (Hwr INT)|apply (Hwr FP)].
  - by destruct k.
Qed.

Definition same_ptrs (t t' : VanadisISATable) : Prop := forall k, ptr k t' = ptr k t.

Lemma add_read_ok k r d t : table_ok n t -> reg_ok n k r ->
  exists t', add_read k r d t = Ok t' /\ table_ok n t' /\ same_ptrs t t'.
Proof.
  intros Ht Hr. unfold add_read, reg_ok in *. pose proof (table_read _ _ Ht k) as Hl.
  destruct (counted k r t); [|by exists t].
  destruct (at_index_in_range (reg_pending_read (registers k t)) r) as [v Hv]; [lia|]. rewrite Hv. cbn [mbind res_bind].
  rewrite set_index_in_range by lia. eexists. split; [reflexivity|]. split; [|intros []; by destruct k].
  destruct Ht as [Hp Hrd Hwr]. split; intros k'; destruct k, k'; cbn; rewrite ?length_insert;
      solve [apply (Hp INT)|apply (Hp FP)|apply (Hrd INT)|apply (Hrd FP)|apply (Hwr INT)|apply (Hwr FP)].
Qed.
Lemma add_write_ok k r d t : table_ok n t -> reg_ok n k r ->
  exists t', add_write k r d t = Ok t' /\ table_ok n t' /\ same_ptrs t t'.
Proof.
  intros Ht Hr. unfold add_write, reg_ok in *. pose proof (table_write _ _ Ht k) as Hl.
  destruct (counted k r t); [|by exists t].
  destruct (at_index_in_range (reg_pending_write (registers k t)) r) as [v Hv]; [lia|]. rewrite Hv. cbn [mbind res_bind].
  rewrite set_index_in_range by lia. eexists. split; [reflexivity|]. split; [|intros []; by destruct k].
  destruct Ht as [Hp Hrd Hwr]. split; intros k'; destruct k, k'; cbn; rewrite ?length_insert;
      solve [apply (Hp INT)|apply (Hp FP)|apply (Hrd INT)|apply (Hrd FP)|apply (Hwr INT)|apply (Hwr FP)].
Qed.
End tables.

(** ** Assignments *)

Lemma assign_app l l' p : assign (l ++ l') p = assign l' (assign l p).
Proof. revert p. induction l as [|[r v] l IH]; intros p; [done|]. apply IH. Qed.
Lemma length_assign l p : length (assign l p) = length p.
Proof. revert p. induction l as [|[r v] l IH]; intros p; [done|]. cbn. by rewrite IH, length_insert. Qed.

Lemma assign_other l p j : (forall r, r ∈ l.*1 -> Z.to_nat r <> j) -> assign l p !! j = p !! j.
Proof.
  revert p. induction l as [|[r v] l IH]; intros p Hn; [done|]. cbn in *. rewrite IH by set_solver.
  apply list_lookup_insert_ne. apply Hn. set_solver.
Qed.

(** Assignments to different registers can be made in any order. *)
Lemma assign_insert l p j v : (forall r, r ∈ l.*1 -> Z.to_nat r <> j) -> assign l (<[j := v]> p) = <[j := v]> (assign l p).
Proof.
  revert p. induction l as [|[r w] l IH]; intros p Hn; [done|]. cbn in *.
  rewrite list_insert_insert_ne by (apply Hn; set_solver). apply IH. set_solver.
Qed.
Lemma assign_swap l l' p :
  (forall r r', r ∈ l.*1 -> r' ∈ l'.*1 -> Z.to_nat r <> Z.to_nat r') -> assign l (assign l' p) = assign l' (assign l p).
Proof.
  revert p. induction l' as [|[r v] l' IH]; intros p Hn; [done|]. cbn in *. rewrite IH by set_solver.
  f_equal. apply assign_insert. intros r' Hr'. apply Hn; set_solver.
Qed.

(** The register an assignment replaces takes the place of the one it assigns. *)
Lemma replaced_perm (p : list Z) j old v : p !! j = Some old -> old :: <[j := v]> p ≡ₚ v :: p.
Proof.
  intros Hj. rewrite insert_take_drop by (by eapply lookup_lt_Some).
  rewrite <- (take_drop_middle p j old Hj) at 3. rewrite <- !Permutation_middle. apply perm_swap.
Qed.

(** ** The state of a renaming *)

Definition stack_of (k : kind) (s : rename) : VanadisRegisterStack :=
  match k with INT => int_register_stack s | FP => fp_register_stack s end.

(** All but the physical registers of an instruction. *)
Definition unphys (i : VanadisInstruction) : VanadisInstruction :=
  i <| phys_int_regs_in := [] |> <| phys_int_regs_out := [] |> <| phys_fp_regs_in := [] |> <| phys_fp_regs_out := [] |>.

Lemma unphys_put_in k l i : unphys (put_phys_in k l i) = unphys i.
Proof. by destruct k. Qed.
Lemma unphys_put_out k l i : unphys (put_phys_out k l i) = unphys i.
Proof. by destruct k. Qed.
Lemma unphys_isa_in k i i' : unphys i' = unphys i -> isa_in k i' = isa_in k i.
Proof. intros H. destruct k; [exact (f_equal isa_int_regs_in H)|exact (f_equal isa_fp_regs_in H)]. Qed.
Lemma unphys_isa_out k i i' : unphys i' = unphys i -> isa_out k i' = isa_out k i.
Proof. intros H. destruct k; [exact (f_equal isa_int_regs_out H)|exact (f_equal isa_fp_regs_out H)]. Qed.
Lemma unphys_class i i' : unphys i' = unphys i -> class i' = class i.
Proof. intros H. exact (f_equal class H). Qed.

Record rename_ok (n : kind -> nat) (size : kind -> Z) (s : rename) : Prop := {
  rename_stack k : stack_ok (size k) (stack_of k s);
  rename_issue : table_ok n (issue_isa_table s);
  rename_retire : table_ok n (retire_isa_table s) }.

(** A loop over the registers of an instruction, by what it has dealt with. *)
Lemma runs_indexed {St} (l : list Z) (body : Z * Z -> M St unit) (I : list Z -> St -> Prop) s :
  I [] s ->
  (forall before r after s1, l = before ++ r :: after -> I before s1 ->
     runs (body (Z.of_nat (length before), r)) s1 (fun _ s2 => I (before ++ [r]) s2)) ->
  runs (forM (indexed l) body) s (fun _ s' => I l s').
Proof.
  intros H0 Hb.
  enough (Hgen : forall todo before s1, l = before ++ todo -> I before s1 ->
    runs (forM (imap (fun i r => (Z.of_nat (length before + i), r)) todo) body) s1 (fun _ s' => I l s')).
  { exact (Hgen l [] s eq_refl H0). }
  induction todo as [|r todo IH]; intros before s1 E HI.
  - apply runs_skip. by rewrite E, app_nil_r.
  - cbn [imap forM]. rewrite Nat.add_0_r. eapply runs_step; [by eapply Hb|]. intros u s2 H2.
    assert (E' : l = (before ++ [r]) ++ todo) by (by rewrite E, <- (assoc_L (++))).
    specialize (IH (before ++ [r]) s2 E' H2). rewrite length_app in IH. cbn [length] in IH.
    erewrite imap_ext; [exact IH|]. intros j y _. cbn. do 2 f_equal. lia.
Qed.

Lemma phys_in_put k k' l i : phys_in k' (put_phys_in k l i) = if decide (k' = k) then l else phys_in k' i.
Proof. by destruct k, k'. Qed.
Lemma phys_out_put_in k k' l i : phys_out k' (put_phys_in k l i) = phys_out k' i.
Proof. by destruct k, k'. Qed.
Lemma phys_out_put k k' l i : phys_out k' (put_phys_out k l i) = if decide (k' = k) then l else phys_out k' i.
Proof. by destruct k, k'. Qed.
Lemma phys_in_put_out k k' l i : phys_in k' (put_phys_out k l i) = phys_in k' i.
Proof. by destruct k, k'. Qed.

Section renaming.
Variables (n : kind -> nat) (size : kind -> Z).

Lemma runs_on_issue f s t' (Q : unit -> rename -> Prop) :
  f (issue_isa_table s) = Ok t' -> Q tt (s <| issue_isa_table := t' |>) -> runs (on_issue f) s Q.
Proof. intros Hf HQ. unfold on_issue. apply runs_bind. eapply runs_getsR; [exact Hf|]. by apply runs_modify. Qed.
Lemma runs_on_retire f s t' (Q : unit -> rename -> Prop) :
  f (retire_isa_table s) = Ok t' -> Q tt (s <| retire_isa_table := t' |>) -> runs (on_retire f) s Q.
Proof. intros Hf HQ. unfold on_retire. apply runs_bind. eapply runs_getsR; [exact Hf|]. by apply runs_modify. Qed.
Lemma runs_on_stack {A} k (m : M VanadisRegisterStack A) s Q :
  runs m (stack_of k s) (fun a st => forall s', stack_of k s' = st ->
     (forall k', k' <> k -> stack_of k' s' = stack_of k' s) -> r_ins s' = r_ins s ->
     issue_isa_table s' = issue_isa_table s -> retire_isa_table s' = retire_isa_table s -> Q a s') ->
  runs (on_stack k m) s Q.
Proof.
  intros H. destruct k; apply runs_zoom; (eapply runs_mono; [exact H|]); intros a st Hq; apply Hq; try done; by intros [].
Qed.

(** The instruction a thread is about to issue or has issued. *)
Record names_ok (i : VanadisInstruction) : Prop := {
  names_in k : Forall (reg_ok n k) (isa_in k i);
  names_out k : Forall (reg_ok n k) (isa_out k i);
  names_phys_in k : length (phys_in k i) = length (isa_in k i);
  names_phys_out k : length (phys_out k i) = length (isa_out k i) }.

Lemma names_kept i i' :
  names_ok i -> unphys i' = unphys i -> (forall k, length (phys_in k i') = length (phys_in k i)) ->
  (forall k, length (phys_out k i') = length (phys_out k i)) -> names_ok i'.
Proof.
  intros [H1 H2 H3 H4] Hu Hi Ho. split; intros k; rewrite ?Hi, ?Ho, ?(unphys_isa_in k _ _ Hu), ?(unphys_isa_out k _ _ Hu); auto.
Qed.

(** ** Issue *)

Section issue.
Variables (k : kind) (s : rename).
Hypothesis Hs : rename_ok n size s.
Hypothesis Hn : names_ok (r_ins s).

(** The inputs are the registers of the issue table. *)
Record inputs_assigned (before : list Z) (s' : rename) : Prop := {
  ia_ok : rename_ok n size s';
  ia_ins : unphys (r_ins s') = unphys (r_ins s);
  ia_regs : Forall2 (fun r p => ptr k (issue_isa_table s) !! Z.to_nat r = Some p) before
              (take (length before) (phys_in k (r_ins s')));
  ia_length : length (phys_in k (r_ins s')) = length (phys_in k (r_ins s));
  ia_other k' : k' <> k -> phys_in k' (r_ins s') = phys_in k' (r_ins s);
  ia_out k' : phys_out k' (r_ins s') = phys_out k' (r_ins s);
  ia_ptrs : same_ptrs (issue_isa_table s) (issue_isa_table s');
  ia_stack k' : stack_of k' s' = stack_of k' s;
  ia_retire : retire_isa_table s' = retire_isa_table s }.

Lemma runs_inputs : runs (forM (indexed (isa_in k (r_ins s))) (assign_input k (Z.of_nat (n k)))) s
  (fun _ s' => inputs_assigned (isa_in k (r_ins s)) s').
Proof.
  apply (runs_indexed _ _ inputs_assigned).
  { split; done. }
  intros before r after s1 E [H1 H2 H3 H4 H5 H6 H7 H8 H9].
  assert (Hr : reg_ok n k r) by (pose proof (names_in _ Hn k) as Hin; rewrite Forall_forall in Hin; apply Hin; rewrite E; set_solver).
  assert (Hlen : (length before < length (phys_in k (r_ins s1)))%nat).
  { rewrite H4, (names_phys_in _ Hn), E, length_app. cbn. lia. }
  unfold assign_input. apply runs_bind, runs_when.
  { unfold reg_ok in Hr. destruct (Z.leb_spec (Z.of_nat (n k)) r); [lia|done]. }
  intros _. destruct (getPhysReg_ok n k r (issue_isa_table s1) (rename_issue _ _ _ H1) Hr) as (p & Hp & Hpp).
  apply runs_bind. eapply runs_getsR; [exact Hp|].
  unfold setPhysRegIn. apply runs_bind, runs_bind. eapply runs_getsR.
  { apply set_index_in_range. lia. }
  apply runs_modify.
  destruct (add_read_ok n k r 1 (issue_isa_table s1) (rename_issue _ _ _ H1) Hr) as (t' & Ht & Htok & Hsame).
  eapply runs_on_issue; [exact Ht|]. unfold update; cbn [r_ins issue_isa_table retire_isa_table]. rewrite Nat2Z.id.
  split; cbn [r_ins issue_isa_table retire_isa_table]; rewrite ?unphys_put_in.
  - destruct H1 as [A B C]. split; [intros []; [apply (A INT)|apply (A FP)]|done|done].
  - done.
  - rewrite phys_in_put, decide_True by done. rewrite length_app. cbn [length]. rewrite Nat.add_1_r.
    rewrite (take_S_r _ _ p) by (by apply list_lookup_insert_eq). rewrite take_insert_ge by lia.
    apply Forall2_app; [done|]. constructor; [|constructor]. by rewrite <- (H7 k).
  - by rewrite phys_in_put, decide_True, length_insert by done.
  - intros k' Hk. rewrite phys_in_put, decide_False by done. by apply H5.
  - intros k'. by rewrite phys_out_put_in.
  - intros k'. by rewrite Hsame, H7.
  - intros []; apply (H8 INT) || apply (H8 FP).
  - done.
Qed.

(** The outputs are taken from the free registers, and the table points to them. *)
Record outputs_assigned (before : list Z) (s' : rename) : Prop := {
  oa_ok : rename_ok n size s';
  oa_ins : unphys (r_ins s') = unphys (r_ins s);
  oa_free : free (stack_of k s) = free (stack_of k s') ++ rev (take (length before) (phys_out k (r_ins s')));
  oa_length : length (phys_out k (r_ins s')) = length (phys_out k (r_ins s));
  oa_in k' : phys_in k' (r_ins s') = phys_in k' (r_ins s);
  oa_other k' : k' <> k -> phys_out k' (r_ins s') = phys_out k' (r_ins s);
  oa_ptr : ptr k (issue_isa_table s') =
           assign (zip before (take (length before) (phys_out k (r_ins s')))) (ptr k (issue_isa_table s));
  oa_ptr_other k' : k' <> k -> ptr k' (issue_isa_table s') = ptr k' (issue_isa_table s);
  oa_stack k' : k' <> k -> stack_of k' s' = stack_of k' s;
  oa_retire : retire_isa_table s' = retire_isa_table s }.

Lemma runs_outputs :
  is_syscall (r_ins s) = false -> (length (isa_out k (r_ins s)) <= length (free (stack_of k s)))%nat ->
  runs (forM (indexed (isa_out k (r_ins s))) (assign_output k (Z.of_nat (n k)))) s
    (fun _ s' => outputs_assigned (isa_out k (r_ins s)) s').
Proof.
  intros Hsys Hfree. apply (runs_indexed _ _ outputs_assigned).
  { split; try done. by rewrite app_nil_r. }
  intros before r after s1 E [H1 H2 H3 H4 H5 H6 H7 H8 H9 H10].
  assert (Hr : reg_ok n k r) by (pose proof (names_out _ Hn k) as Hout; rewrite Forall_forall in Hout; apply Hout; rewrite E; set_solver).
  assert (Hlen : (length before < length (phys_out k (r_ins s1)))%nat).
  { rewrite H4, (names_phys_out _ Hn), E, length_app. cbn. lia. }
  unfold assign_output. apply runs_bind, runs_when.
  { unfold reg_ok in Hr. destruct (Z.leb_spec (Z.of_nat (n k)) r); [lia|done]. }
  intros _. apply runs_bind, runs_gets.
  replace (is_syscall (r_ins s1)) with false by (unfold is_syscall; by rewrite (unphys_class _ _ H2)).
  destruct (exists_last (l := free (stack_of k s1))) as (l & x & Hl).
  { intros E0. rewrite E0 in H3. apply (f_equal length) in H3. rewrite length_app, length_rev, length_take in H3.
    cbn in H3. rewrite E, length_app in Hfree. cbn in Hfree. lia. }
  apply runs_bind, runs_on_stack. eapply runs_mono; [eapply runs_pop_register; [apply (rename_stack _ _ _ H1 k)|exact Hl]|].
  intros y st (-> & Hf & Hst) s2 E1 E2 E3 E4 E5.
  destruct (setPhysReg_ok n k r x (issue_isa_table s2)) as (t1 & Ht1 & Hok1 & Hp1 & Ho1); [rewrite E4; apply H1|done|].
  apply runs_bind. eapply runs_on_issue; [exact Ht1|].
  destruct (add_write_ok n k r 1 t1 Hok1 Hr) as (t2 & Ht2 & Hok2 & Hs2).
  apply runs_bind. eapply runs_on_issue; [exact Ht2|].
  unfold setPhysRegOut. apply runs_bind. eapply runs_getsR.
  { apply set_index_in_range. unfold update; cbn. rewrite E3. lia. }
  apply runs_modify. unfold update; cbn [r_ins issue_isa_table retire_isa_table int_register_stack fp_register_stack].
  rewrite E3, Nat2Z.id.
  assert (Htake : take (length (before ++ [r])) (<[length before := x]> (phys_out k (r_ins s1))) =
                  take (length before) (phys_out k (r_ins s1)) ++ [x]).
  { rewrite length_app. cbn [length]. rewrite Nat.add_1_r.
    rewrite (take_S_r _ _ x) by (by apply list_lookup_insert_eq). by rewrite take_insert_ge by lia. }
  set (s3 := mkRename _ _ _ _ _).
  assert (Hstk : forall k', stack_of k' s3 = stack_of k' s2) by (by intros []).
  split; cbn [r_ins issue_isa_table retire_isa_table s3]; rewrite ?unphys_put_out.
  - split; [|done|unfold s3; cbn; rewrite E5; apply H1]. intros k'. rewrite Hstk. destruct (decide (k' = k)) as [->|Hne]; [by rewrite E1|].
    rewrite E2 by done. apply H1.
  - done.
  - rewrite phys_out_put, decide_True, Htake, Hstk, E1, Hf by done. rewrite rev_app_distr. cbn [rev app].
    rewrite H3, Hl. by rewrite <- (assoc_L (++)).
  - by rewrite phys_out_put, decide_True, length_insert by done.
  - intros k'. by rewrite phys_in_put_out.
  - intros k' Hk. rewrite phys_out_put, decide_False by done. by apply H6.
  - rewrite phys_out_put, decide_True, Htake, Hs2, Hp1, E4, H7 by done.
    rewrite zip_with_app by (rewrite length_take; lia). rewrite assign_app. reflexivity.
  - intros k' Hk. by rewrite Hs2, Ho1, E4, H8.
  - intros k' Hk. by rewrite Hstk, E2, H9.
  - by rewrite E5.
Qed.
End issue.

Record assigned (s s' : rename) : Prop := {
  as_ok : rename_ok n size s';
  as_ins : unphys (r_ins s') = unphys (r_ins s);
  as_in k : Forall2 (fun r p => ptr k (issue_isa_table s) !! Z.to_nat r = Some p) (isa_in k (r_ins s)) (phys_in k (r_ins s'));
  as_out k : length (phys_out k (r_ins s')) = length (isa_out k (r_ins s));
  as_free k : free (stack_of k s) = free (stack_of k s') ++ rev (phys_out k (r_ins s'));
  as_ptr k : ptr k (issue_isa_table s') = assign (zip (isa_out k (r_ins s)) (phys_out k (r_ins s'))) (ptr k (issue_isa_table s));
  as_retire : retire_isa_table s' = retire_isa_table s }.

Lemma take_all {A B} (l : list A) (l' : list B) : length l' = length l -> take (length l) l' = l'.
Proof. intros H. rewrite <- H. apply firstn_all. Qed.

Lemma runs_assign s :
  rename_ok n size s -> names_ok (r_ins s) -> is_syscall (r_ins s) = false ->
  (forall k, (length (isa_out k (r_ins s)) <= length (free (stack_of k s)))%nat) ->
  runs (assignRegistersToInstruction (Z.of_nat (n INT)) (Z.of_nat (n FP))) s (fun _ s' => assigned s s').
Proof.
  intros Hs Hn Hsys Hfree. pose proof (names_phys_in _ Hn) as Hpi. pose proof (names_phys_out _ Hn) as Hpo.
  unfold assignRegistersToInstruction. apply runs_bind, runs_gets.
  eapply runs_step; [by apply (runs_inputs INT)|]. intros u1 s1 [A1 A2 A3 A4 A5 A6 A7 A8 A9].
  assert (N1 : names_ok (r_ins s1)).
  { apply (names_kept (r_ins s)); [done..| |intros k; by rewrite A6]. intros []; [done|by rewrite A5]. }
  rewrite <- (unphys_isa_in FP _ _ A2).
  eapply runs_step; [by apply (runs_inputs FP)|].
  intros u2 s2 [B1 B2 B3 B4 B5 B6 B7 B8 B9].
  assert (N2 : names_ok (r_ins s2)).
  { apply (names_kept (r_ins s1)); [done..| |intros k; by rewrite B6]. intros []; [by rewrite B5|done]. }
  rewrite A2 in B2. rewrite (unphys_isa_in FP _ _ A2) in *.
  rewrite <- (unphys_isa_out INT _ _ B2).
  eapply runs_step; [apply (runs_outputs INT); [done..| |]|].
  { unfold is_syscall. rewrite (unphys_class _ _ B2). apply Hsys. }
  { rewrite (unphys_isa_out INT _ _ B2), B8, A8. apply Hfree. }
  intros u3 s3 [C1 C2 C3 C4 C5 C6 C7 C8 C9 C10].
  assert (N3 : names_ok (r_ins s3)).
  { apply (names_kept (r_ins s2)); [done..|intros k; by rewrite C5|]. intros []; [done|by rewrite C6]. }
  rewrite B2 in C2. rewrite (unphys_isa_out INT _ _ B2) in *.
  rewrite <- (unphys_isa_out FP _ _ C2).
  eapply runs_mono; [apply (runs_outputs FP); [done..| |]|].
  { unfold is_syscall. rewrite (unphys_class _ _ C2). apply Hsys. }
  { rewrite (unphys_isa_out FP _ _ C2), C9, B8, A8 by done. apply Hfree. }
  intros u4 s4 [D1 D2 D3 D4 D5 D6 D7 D8 D9 D10]. rewrite C2 in D2. rewrite (unphys_isa_out FP _ _ C2) in *.
  rewrite take_all in A3 by (rewrite A4; apply Hpi).
  rewrite take_all in B3 by (rewrite B4, A5; [apply Hpi|done]).
  rewrite take_all in C3, C7 by (rewrite C4, B6, A6; apply Hpo).
  rewrite take_all in D3, D7 by (rewrite D4, C6, B6, A6; [apply Hpo|done]).
  split.
  - done.
  - done.
  - intros []; [rewrite D5, C5, B5 by done; exact A3|]. rewrite D5, C5. by rewrite <- (A7 FP).
  - intros []; [rewrite D6, C4, B6, A6 by done; apply Hpo|]. rewrite D4, C6, B6, A6 by done. apply Hpo.
  - intros []; [rewrite D9, D6, <- A8, <- B8 by done; exact C3|]. rewrite <- A8, <- B8, <- (C9 FP) by done. exact D3.
  - intros []; [rewrite D8, C7, D6, B7, A7 by done; done|]. rewrite D7, C8, B7, A7 by done. done.
  - congruence.
Qed.

(** ** Retirement *)

Lemma runs_reads k l s :
  rename_ok n size s -> Forall (reg_ok n k) l ->
  runs (forM l (fun r => on_issue (decRead k r))) s (fun _ s' =>
    rename_ok n size s' /\ r_ins s' = r_ins s /\ same_ptrs (issue_isa_table s) (issue_isa_table s') /\
    (forall k', stack_of k' s' = stack_of k' s) /\ retire_isa_table s' = retire_isa_table s).
Proof.
  intros Hs Hl. revert s Hs. induction Hl as [|r l Hr Hl IH]; intros s Hs; [by apply runs_skip|]. cbn [forM].
  destruct (add_read_ok n k r (-1) (issue_isa_table s) (rename_issue _ _ _ Hs) Hr) as (t & Ht & Htok & Hsame).
  apply runs_bind. eapply runs_on_issue; [exact Ht|].
  eapply runs_mono; [apply IH; destruct Hs as [A B C]; split; [intros []; [apply (A INT)|apply (A FP)]|done..]|].
  intros u s' (H1 & H2 & H3 & H4 & H5). split_and!; [done..| | |done].
  - intros k'. rewrite H3. apply Hsame.
  - intros []; [apply (H4 INT)|apply (H4 FP)].
Qed.

Record recovered (k : kind) (l : list Z) (phys olds : list Z) (s s' : rename) : Prop := {
  rv_ok : rename_ok n size s';
  rv_ins : r_ins s' = r_ins s;
  rv_stack k' : stack_of k' s' = stack_of k' s;
  rv_issue : same_ptrs (issue_isa_table s) (issue_isa_table s');
  rv_ptr : ptr k (retire_isa_table s') = assign (zip l phys) (ptr k (retire_isa_table s));
  rv_other k' : k' <> k -> ptr k' (retire_isa_table s') = ptr k' (retire_isa_table s);
  rv_length : length olds = length l;
  rv_perm : olds ++ ptr k (retire_isa_table s') ≡ₚ phys ++ ptr k (retire_isa_table s) }.

Lemma runs_recover_outputs k s :
  rename_ok n size s -> names_ok (r_ins s) -> is_syscall (r_ins s) = false ->
  runs (recover_outputs k (indexed (isa_out k (r_ins s)))) s (fun olds s' =>
    recovered k (isa_out k (r_ins s)) (phys_out k (r_ins s)) olds s s').
Proof.
  intros Hs [_ Hout _ Hl] Hsys. specialize (Hout k). specialize (Hl k).
  enough (Hgen : forall todo before s1, isa_out k (r_ins s) = before ++ todo -> rename_ok n size s1 -> r_ins s1 = r_ins s ->
    runs (recover_outputs k (imap (fun i r => (Z.of_nat (length before + i), r)) todo)) s1 (fun olds s' =>
      recovered k todo (drop (length before) (phys_out k (r_ins s))) olds s1 s')).
  { specialize (Hgen (isa_out k (r_ins s)) [] s eq_refl Hs eq_refl). exact Hgen. }
  induction todo as [|r todo IH]; intros before s1 E H1 Hi.
  { apply runs_ret. rewrite drop_ge by (rewrite Hl, E, app_nil_r; done). by split. }
  cbn [imap recover_outputs]. rewrite Nat.add_0_r.
  assert (Hr : reg_ok n k r) by (rewrite Forall_forall in Hout; apply Hout; rewrite E; set_solver).
  destruct (lookup_lt_is_Some_2 (phys_out k (r_ins s)) (length before)) as [p Hp].
  { rewrite Hl, E, length_app. cbn. lia. }
  destruct (getPhysReg_ok n k r (retire_isa_table s1) (rename_retire _ _ _ H1) Hr) as (old & Hold & Hlook).
  apply runs_bind. eapply runs_getsR; [exact Hold|].
  destruct (add_write_ok n k r (-1) (issue_isa_table s1) (rename_issue _ _ _ H1) Hr) as (t & Ht & Htok & Hsame).
  apply runs_bind. eapply runs_on_issue; [exact Ht|]. apply runs_bind, runs_gets. cbn [r_ins].
  change (r_ins (s1 <| issue_isa_table := t |>)) with (r_ins s1). rewrite Hi.
  replace (performRegisterRecovery (r_ins s)) with true by (unfold performRegisterRecovery; by rewrite Hsys).
  destruct (setPhysReg_ok n k r p (retire_isa_table s1) (rename_retire _ _ _ H1) Hr) as (t' & Ht' & Htok' & Hp' & Ho').
  apply runs_bind, runs_bind. eapply runs_getsR.
  { change (r_ins (s1 <| issue_isa_table := t |>)) with (r_ins s1). rewrite Hi. apply at_index_nat. exact Hp. }
  eapply runs_on_retire; [exact Ht'|].
  assert (E' : isa_out k (r_ins s) = (before ++ [r]) ++ todo) by (by rewrite E, <- (assoc_L (++))).
  set (s2 := (s1 <| issue_isa_table := t |>) <| retire_isa_table := t' |>).
  assert (H2 : rename_ok n size s2).
  { destruct H1 as [A B C]. split; [intros []; [apply (A INT)|apply (A FP)]|done|done]. }
  apply runs_bind. specialize (IH (before ++ [r]) s2 E' H2 Hi). rewrite length_app in IH. cbn [length] in IH.
  erewrite imap_ext; [eapply runs_mono; [exact IH|]|]; [|intros j y _; cbn; do 2 f_equal; lia].
  intros olds s' [B1 B2 B3 B4 B5 B6 B7 B8]. apply runs_ret.
  rewrite (drop_S _ p _ Hp). rewrite Nat.add_1_r in *. split; [done|done| |..].
  - intros []; [apply (B3 INT)|apply (B3 FP)].
  - intros k'. rewrite B4. apply Hsame.
  - cbn [zip zip_with assign]. rewrite B5. unfold s2, update; cbn. by rewrite Hp'.
  - intros k' Hk. rewrite B6 by done. unfold s2, update; cbn. by apply Ho'.
  - cbn. by rewrite B7.
  - cbn [app]. rewrite B8. unfold s2, update; cbn [retire_isa_table]. rewrite Hp'.
    rewrite Permutation_middle. rewrite (replaced_perm _ _ _ p Hlook). by rewrite <- Permutation_middle.
Qed.

Lemma runs_pushes k l s :
  rename_ok n size s -> Z.of_nat (length (free (stack_of k s)) + length l) <= size k ->
  runs (forM l (fun r => on_stack k (push_register r))) s (fun _ s' =>
    rename_ok n size s' /\ free (stack_of k s') = free (stack_of k s) ++ l /\
    (forall k', k' <> k -> stack_of k' s' = stack_of k' s) /\ r_ins s' = r_ins s /\
    issue_isa_table s' = issue_isa_table s /\ retire_isa_table s' = retire_isa_table s).
Proof.
  revert s. induction l as [|r l IH]; intros s Hs Hlen; [apply runs_skip; by rewrite app_nil_r|]. cbn [forM length] in *.
  apply runs_bind, runs_on_stack.
  eapply runs_mono; [apply runs_push_register; [apply (rename_stack _ _ _ Hs k)|lia]|].
  intros u st [Hf Hst] s1 E1 E2 E3 E4 E5.
  assert (H1 : rename_ok n size s1).
  { split; [|rewrite E4; apply Hs|rewrite E5; apply Hs]. intros k'.
    destruct (decide (k' = k)) as [->|Hne]; [by rewrite E1|]. rewrite E2 by done. apply Hs. }
  eapply runs_mono; [apply IH; [done|rewrite E1, Hf, length_app; cbn; lia]|].
  intros u' s' (H2 & H3 & H4 & H5 & H6 & H7). split_and!; [done| | |congruence..].
  - rewrite H3, E1, Hf. by rewrite <- (assoc_L (++)).
  - intros k' Hk. by rewrite H4, E2.
Qed.

Record retired (s s' : rename) : Prop := {
  rt_ok : rename_ok n size s';
  rt_ins : r_ins s' = r_ins s;
  rt_issue : same_ptrs (issue_isa_table s) (issue_isa_table s');
  rt_ptr k : ptr k (retire_isa_table s') = assign (zip (isa_out k (r_ins s)) (phys_out k (r_ins s))) (ptr k (retire_isa_table s));
  rt_free k : free (stack_of k s') ++ ptr k (retire_isa_table s') ≡ₚ
              free (stack_of k s) ++ phys_out k (r_ins s) ++ ptr k (retire_isa_table s);
  rt_grow k : free (stack_of k s) `prefix_of` free (stack_of k s') }.

Lemma runs_recover s :
  rename_ok n size s -> names_ok (r_ins s) -> is_syscall (r_ins s) = false ->
  (forall k, Z.of_nat (length (free (stack_of k s)) + length (phys_out k (r_ins s))) <= size k) ->
  runs recoverRetiredRegisters s (fun _ s' => retired s s').
Proof.
  intros Hs Hn Hsys Hroom. pose proof (names_phys_out _ Hn) as Hl. unfold recoverRetiredRegisters. apply runs_bind, runs_gets.
  eapply runs_step; [apply runs_reads; [done|apply (names_in _ Hn)]|]. intros u1 s1 (A1 & A2 & A3 & A4 & A5).
  eapply runs_step; [apply runs_reads; [done|apply (names_in _ Hn)]|]. intros u2 s2 (B1 & B2 & B3 & B4 & B5).
  rewrite A2 in B2. rewrite <- B2.
  eapply runs_step; [apply (runs_recover_outputs INT); [done|by rewrite B2..]|].
  intros olds s3 [C1 C2 C3 C4 C5 C6 C7 C8]. rewrite B2 in *. rewrite <- C2.
  eapply runs_step; [apply (runs_recover_outputs FP); [done|by rewrite C2..]|].
  intros olds' s4 [D1 D2 D3 D4 D5 D6 D7 D8]. rewrite C2 in *.
  eapply runs_step; [apply (runs_pushes INT); [done|]|].
  { rewrite D3, C3, B4, A4, C7, <- Hl. apply Hroom. }
  intros u5 s5 (E1 & E2 & E3 & E4 & E5 & E6).
  eapply runs_mono; [apply (runs_pushes FP); [done|]|].
  { rewrite E3, D3, C3, B4, A4, D7, <- Hl by done. apply Hroom. }
  intros u6 s6 (F1 & F2 & F3 & F4 & F5 & F6). split.
  - done.
  - congruence.
  - intros k. by rewrite F5, E5, D4, C4, B3, A3.
  - intros []; rewrite F6, E6; [rewrite D6 by done; by rewrite C5, B5, A5|]. rewrite D5, C6 by done. by rewrite B5, A5.
  - intros []; rewrite F6, E6.
    + rewrite F3, E2, D3, C3, B4, A4, D6 by done. rewrite <- (assoc_L (++)), C8, B5, A5. done.
    + rewrite F2, E3, D3, C3, B4, A4 by done. rewrite <- (assoc_L (++)), D8, C6, B5, A5 by done. done.
  - intros []; [rewrite F3, E2, D3, C3, B4, A4 by done|rewrite F2, E3, D3, C3, B4, A4 by done]; by apply prefix_app_r.
Qed.

(** Misspeculated instructions give back the registers they were given. *)
Lemma runs_return s :
  rename_ok n size s ->
  (forall k, Z.of_nat (length (free (stack_of k s)) + length (phys_out k (r_ins s))) <= size k) ->
  runs returnOutRegs s (fun _ s' =>
    rename_ok n size s' /\ r_ins s' = r_ins s /\ issue_isa_table s' = issue_isa_table s /\
    retire_isa_table s' = retire_isa_table s /\
    forall k, free (stack_of k s') = free (stack_of k s) ++ phys_out k (r_ins s)).
Proof.
  intros Hs Hroom. unfold returnOutRegs. apply runs_bind, runs_gets.
  eapply runs_step; [apply (runs_pushes INT); [done|apply Hroom]|]. intros u5 s5 (E1 & E2 & E3 & E4 & E5 & E6).
  eapply runs_mono; [apply (runs_pushes FP); [done|rewrite E3 by done; apply Hroom]|].
  intros u6 s6 (F1 & F2 & F3 & F4 & F5 & F6). split_and!; [done|congruence..|].
  intros []; [rewrite F3 by done; exact E2|]. rewrite F2, E3 by done. done.
Qed.
End renaming.

(** ** Whether an instruction can issue *)

Definition marked (l : list bool) (r : Z) : bool := l !!! Z.to_nat r.

Record temps_ok (n : kind -> nat) (t : reg_temps) : Prop := {
  temps_read k : (n k <= length (not_issued_reg_read k t))%nat;
  temps_write k : (n k <= length (reg_write k t))%nat }.

Section resources.
Variables (n : kind -> nat).

Lemma all_good_ok (l : list Z) f :
  (forall r, r ∈ l -> exists b, f r = Ok b) ->
  exists b, all_good l f = Ok b /\ (b = true -> forall r, r ∈ l -> f r = Ok true).
Proof.
  induction l as [|r l IH]; intros Hf; [exists true; split; [done|set_solver]|]. cbn.
  destruct (Hf r) as [b Hb]; [by left|]. destruct IH as (b' & -> & Hb'); [intros; apply Hf; by right|].
  rewrite Hb. cbn. exists (b && b'). split; [done|]. intros [-> ->]%andb_prop r' [->|Hr']%elem_of_cons; auto.
Qed.

Lemma marked_index (l : list bool) r : 0 <= r < Z.of_nat (length l) -> at_index l r = Ok (marked l r).
Proof. intros Hr. apply at_index_Ok. split; [lia|]. apply list_lookup_lookup_total_lt. lia. Qed.

Lemma pendingWrites_ok k r t : table_ok n t -> reg_ok n k r -> exists b, pendingWrites k r t = Ok b.
Proof.
  intros Ht Hr. unfold pendingWrites, reg_ok in *. pose proof (table_write _ _ Ht k).
  destruct (at_index_in_range (reg_pending_write (registers k t)) r) as [v ->]; [lia|]. by eexists.
Qed.

Lemma check_inputs_ok k i t tmp : names_ok n i -> table_ok n t -> temps_ok n tmp ->
  exists b, check_inputs k i t tmp = Ok b /\ (b = true -> forall r, r ∈ isa_in k i -> marked (reg_write k tmp) r = false).
Proof.
  intros Hn Ht Hm. pose proof (names_in _ _ Hn k) as Hr. rewrite Forall_forall in Hr.
  unfold check_inputs. destruct (all_good_ok (isa_in k i)
    (fun r => p ← pendingWrites k r t; w ← at_index (reg_write k tmp) r; Ok (negb p && negb w))) as (b & Hb & Hall).
  - intros r Hin. destruct (pendingWrites_ok k r t Ht (Hr r Hin)) as [p ->]. cbn.
    rewrite marked_index; [by eexists|]. pose proof (temps_write _ _ Hm k). specialize (Hr r Hin). unfold reg_ok in Hr. lia.
  - exists b. split; [done|]. intros Hbt r Hin. specialize (Hall Hbt r Hin).
    destruct (pendingWrites_ok k r t Ht (Hr r Hin)) as [p Hp]. rewrite Hp in Hall. cbn in Hall.
    rewrite marked_index in Hall by (pose proof (temps_write _ _ Hm k); specialize (Hr r Hin); unfold reg_ok in Hr; lia).
    cbn in Hall. injection Hall as Hall. by destruct (marked _ _), p.
Qed.
Lemma check_outputs_ok k i tmp : names_ok n i -> temps_ok n tmp ->
  exists b, check_outputs k i tmp = Ok b /\
    (b = true -> forall r, r ∈ isa_out k i -> marked (not_issued_reg_read k tmp) r = false /\ marked (reg_write k tmp) r = false).
Proof.
  intros Hn Hm. pose proof (names_out _ _ Hn k) as Hr. rewrite Forall_forall in Hr.
  pose proof (temps_write _ _ Hm k). pose proof (temps_read _ _ Hm k). unfold reg_ok in Hr.
  unfold check_outputs. destruct (all_good_ok (isa_out k i)
    (fun r => a ← at_index (not_issued_reg_read k tmp) r; w ← at_index (reg_write k tmp) r; Ok (negb a && negb w))) as (b & Hb & Hall).
  - intros r Hin. specialize (Hr r Hin). rewrite !marked_index by lia. by eexists.
  - exists b. split; [done|]. intros Hbt r Hin. specialize (Hall Hbt r Hin). specialize (Hr r Hin).
    rewrite !marked_index in Hall by lia. cbn in Hall. injection Hall as Hall. by destruct (marked _ _), (marked _ _).
Qed.

(** An instruction that can issue finds free registers, and meets no earlier
    instruction that writes what it names or still has to read what it writes. *)
Lemma resources_ok i int_regs fp_regs t tmp : names_ok n i -> table_ok n t -> temps_ok n tmp ->
  exists code, checkInstructionResources i int_regs fp_regs t tmp = Ok code /\
    (code = 0 ->
     (forall k, Z.of_nat (length (isa_out k i)) <= unused match k with INT => int_regs | FP => fp_regs end) /\
     (forall k r, r ∈ isa_in k i -> marked (reg_write k tmp) r = false) /\
     (forall k r, r ∈ isa_out k i -> marked (not_issued_reg_read k tmp) r = false /\ marked (reg_write k tmp) r = false)).
Proof.
  intros Hn Ht Hm. unfold checkInstructionResources.
  destruct (Z.leb_spec (Z.of_nat (length (isa_out INT i))) (unused int_regs)); [|by exists 1].
  destruct (Z.leb_spec (Z.of_nat (length (isa_out FP i))) (unused fp_regs)); [|by exists 1]. cbn [andb negb].
  destruct (check_inputs_ok INT i t tmp Hn Ht Hm) as ([] & -> & H2); [|by exists 2]. cbn [mbind res_bind negb].
  destruct (check_inputs_ok FP i t tmp Hn Ht Hm) as ([] & -> & H3); [|by exists 3]. cbn [mbind res_bind negb].
  destruct (check_outputs_ok INT i tmp Hn Hm) as ([] & -> & H4); [|by exists 4]. cbn [mbind res_bind negb].
  destruct (check_outputs_ok FP i tmp Hn Hm) as ([] & -> & H5); [|by exists 5]. cbn [mbind res_bind negb].
  exists 0. split; [done|]. intros _. split_and!; intros []; auto.
Qed.
End resources.
