(* ===== verification/VanadisPipeline.v ===== *)
(** * VanadisPipeline: issue, execution and retirement

    Models [vanadis.cc] and [vfuncunit.h]: the reorder buffers of the hardware threads,
    the functional units, and the stages of a cycle ([tick]). Instructions are shared
    between a reorder buffer, a functional unit and the load-store queue, which hold
    pointers to them: they live in [heap] and are named by an address that is never used
    again. The load-store queue is an interface ([LoadStoreQueue]); what the decoders
    fetch, what the operating system answers and the host's floating point are
    arguments. What the decoders and their branch predictors are told is recorded in
    [told]. Not modelled: printing, statistics, tracing, verbosity, the constructor's
    parameters and threads that are cloned or forked. *)

From S2P Require Import Prelude VanadisRegs VanadisInst VanadisQueue VanadisRename VanadisMem.

(** ** Functional units *)

Record VanadisFunctionalUnitInsRecord := mkInsRecord { fu_ins : Z; cycles_left : Z }.
Record VanadisFunctionalUnit := mkUnit {
  pending_execute : list VanadisFunctionalUnitInsRecord;
  latency : Z;
  accept_this_cycle : bool }.
#[export] Instance unit_eta : Eta VanadisFunctionalUnit := fun u =>
  mkUnit (pending_execute u) (latency u) (accept_this_cycle u).
Definition new_VanadisFunctionalUnit (lat : Z) : VanadisFunctionalUnit := mkUnit [] lat true.
Definition insertInstruction (ins : Z) (u : VanadisFunctionalUnit) : VanadisFunctionalUnit :=
  u <| pending_execute ::= fun l => l ++ [mkInsRecord ins (latency u)] |> <| accept_this_cycle := false |>.

(** The five vectors of units. *)
Inductive unit_class := INT_ARITH | INT_DIV | FP_ARITH | FP_DIV | BRANCH.
#[export] Instance unit_class_eq_dec : EqDecision unit_class.
Proof. solve_decision. Defined.

(** ** State *)

Record thread := mkThread {
  t_rob : VanadisCircularQueue Z;
  t_options : VanadisDecoderOptions;
  t_issue : VanadisISATable;
  t_retire : VanadisISATable;
  t_temps : reg_temps;
  t_fp_flags : VanadisFloatingPointFlags;
  t_halted : bool }.
#[export] Instance thread_eta : Eta thread := fun t =>
  mkThread (t_rob t) (t_options t) (t_issue t) (t_retire t) (t_temps t) (t_fp_flags t) (t_halted t).

Inductive telling :=
| PushPrediction (thr address target : Z)
| SetInstructionPointer (thr new_ip : Z)
| HandleSysCall (thr ins : Z).

Section pipeline.
Context {Q : Type} `{!LoadStoreQueue Q}.

Record core := mkCore {
  heap : gmap Z VanadisInstruction;
  next_ins : Z;
  threads : list thread;
  register_files : list VanadisRegisterFile;
  int_stack : VanadisRegisterStack;
  fp_stack : VanadisRegisterStack;
  units : unit_class -> list VanadisFunctionalUnit;
  lsq : Q;
  m_curIssueHwThread : Z;
  m_curRetireHwThread : Z;
  current_cycle : Z;
  max_cycle : Z;
  issues_per_cycle : Z;
  retires_per_cycle : Z;
  pause_on_retire_address : Z;
  told : list telling }.
#[export] Instance core_eta : Eta core := fun c =>
  mkCore (heap c) (next_ins c) (threads c) (register_files c) (int_stack c) (fp_stack c) (units c) (lsq c)
    (m_curIssueHwThread c) (m_curRetireHwThread c) (current_cycle c) (max_cycle c) (issues_per_cycle c)
    (retires_per_cycle c) (pause_on_retire_address c) (told c).

Definition get_thread (thr : Z) : M core thread := getsR (fun c => at_index (threads c) thr).
Definition put_thread (thr : Z) (t : thread) : M core unit :=
  l ← getsR (fun c => set_index (threads c) thr t); modify (fun c => c <| threads := l |>).
Definition on_thread (thr : Z) (f : thread -> thread) : M core unit :=
  t ← get_thread thr; put_thread thr (f t).
Definition on_rob {A} (thr : Z) (m : M (VanadisCircularQueue Z) A) : M core A :=
  t ← get_thread thr;
  r ← getsR (fun _ => m (t_rob t));
  put_thread thr (t <| t_rob := snd r |>) ;; mret (fst r).

Definition get_ins (id : Z) : M core VanadisInstruction :=
  getsR (fun c => of_option (Undefined "dangling instruction") (heap c !! id)).
Definition put_ins (id : Z) (i : VanadisInstruction) : M core unit := modify (fun c => c <| heap ::= <[id := i]> |>).
Definition on_ins (id : Z) (f : VanadisInstruction -> VanadisInstruction) : M core unit :=
  i ← get_ins id; put_ins id (f i).
Definition delete_ins (id : Z) : M core unit := modify (fun c => c <| heap ::= delete id |>).
Definition tell (e : telling) : M core unit := modify (fun c => c <| told ::= fun l => l ++ [e] |>).
Definition on_memory {A} (m : M (memory Q) A) : M core A :=
  zoom (fun c => mkMemory (heap c) (register_files c) (lsq c))
       (fun m c => c <| heap := e_heap m |> <| register_files := registerFiles m |> <| lsq := queue m |>) m.
Definition on_lsq (f : Q -> Q) : M core unit := modify (fun c => c <| lsq ::= f |>).
Definition on_units (k : unit_class) (l : list VanadisFunctionalUnit) : M core unit :=
  modify (fun c => c <| units ::= fun f k' => if decide (k' = k) then l else f k' |>).

(** Run one of the functions on renaming for an instruction of a thread. *)
Definition with_rename {A} (thr id : Z) (m : M rename A) : M core A :=
  t ← get_thread thr; i ← get_ins id;
  r ← getsR (fun c => m (mkRename i (int_stack c) (fp_stack c) (t_issue t) (t_retire t)));
  let s := snd r in
  put_ins id (r_ins s) ;;
  modify (fun c => c <| int_stack := int_register_stack s |> <| fp_stack := fp_register_stack s |>) ;;
  put_thread thr (t <| t_issue := issue_isa_table s |> <| t_retire := retire_isa_table s |>) ;;
  mret (fst r).

(** ** Allocation *)

Fixpoint first_free (l : list VanadisFunctionalUnit) (ins : Z) : option (list VanadisFunctionalUnit) :=
  match l with
  | [] => None
  | u :: l' => if accept_this_cycle u then Some (insertInstruction ins u :: l')
               else option_map (cons u) (first_free l' ins)
  end.
Definition mapInstructiontoFunctionalUnit (ins : Z) (k : unit_class) : M core bool :=
  l ← gets (fun c => units c k);
  match first_free l ins with
  | Some l' => on_units k l' ;; mret true
  | None => mret false
  end.

Definition allocateFunctionalUnit (id : Z) : M core bool :=
  ins ← get_ins id;
  let push := on_lsq (lsq_push id ins) ;; mret true in
  match getInstFuncType (class ins) with
  | INST_INT_ARITH => mapInstructiontoFunctionalUnit id INT_ARITH
  | INST_LOAD => f ← gets (fun c => loadFull (lsq c)); if f : bool then mret false else push
  | INST_STORE => f ← gets (fun c => storeFull (lsq c)); if f : bool then mret false else push
  | INST_BRANCH => mapInstructiontoFunctionalUnit id BRANCH
  | INST_NOOP => on_ins id (fun i => i <| hasExecuted := true |>) ;; mret true
  | INST_FP_ARITH => mapInstructiontoFunctionalUnit id FP_ARITH
  | INST_INT_DIV => mapInstructiontoFunctionalUnit id INT_DIV
  | INST_FP_DIV => mapInstructiontoFunctionalUnit id FP_DIV
  | INST_FENCE => push
  | INST_SYSCALL => gets (fun c => (storeBufferSize (lsq c) =? 0) && (loadSize (lsq c) =? 0))
  | INST_FAULT => on_ins id (fun i => i <| hasExecuted := true |>) ;; mret true
  | INST_SPECIAL => fatal "no processing for instruction class"
  end.

(** ** Issue *)

Fixpoint mark_all (rs : list Z) (l : list bool) : res (list bool) :=
  match rs with [] => Ok l | r :: rs' => l' ← set_index l r true; mark_all rs' l' end.
Definition collect_reads (i : VanadisInstruction) (t : reg_temps) : res reg_temps :=
  ri ← mark_all (isa_in INT i) (tmp_not_issued_int_reg_read t);
  rf ← mark_all (isa_in FP i) (tmp_not_issued_fp_reg_read t);
  Ok (t <| tmp_not_issued_int_reg_read := ri |> <| tmp_not_issued_fp_reg_read := rf |>).
Definition collect_writes (i : VanadisInstruction) (t : reg_temps) : res reg_temps :=
  wi ← mark_all (isa_out INT i) (tmp_int_reg_write t);
  wf ← mark_all (isa_out FP i) (tmp_fp_reg_write t);
  Ok (t <| tmp_int_reg_write := wi |> <| tmp_fp_reg_write := wf |>).
Definition on_temps (thr : Z) (f : reg_temps -> res reg_temps) : M core unit :=
  t ← get_thread thr; r ← getsR (fun _ => f (t_temps t)); put_thread thr (t <| t_temps := r |>).

Definition countISAIntReg (t : thread) : Z := isa_int_reg_count (t_options t).
Definition countISAFPReg (t : thread) : Z := isa_fp_reg_count (t_options t).

Definition resetRegisterUseTemps (int_reg_count fp_reg_count : Z) (t : reg_temps) : reg_temps :=
  let reset (n : Z) (l : list bool) := replicate (Z.to_nat n) false ++ drop (Z.to_nat n) l in
  mkTemps (reset int_reg_count (tmp_not_issued_int_reg_read t)) (reset int_reg_count (tmp_int_reg_write t))
    (reset fp_reg_count (tmp_not_issued_fp_reg_read t)) (reset fp_reg_count (tmp_fp_reg_write t)).

(** The attempt to issue one instruction; the result says whether it was issued. *)
Definition try_issue (thr id : Z) (seen : bool) : M core (bool * bool) :=
  ins ← get_ins id;
  t ← get_thread thr;
  resource_check ← getsR (fun c => checkInstructionResources ins (int_stack c) (fp_stack c) (t_issue t) (t_temps t));
  if resource_check =? 0 then
    allocate_fu ← (if is_memory ins && seen then mret false else allocateFunctionalUnit id);
    if allocate_fu : bool then
      with_rename thr id (assignRegistersToInstruction (countISAIntReg t) (countISAFPReg t)) ;;
      on_ins id (fun i => i <| hasIssued := true |>) ;; mret (true, seen)
    else mret (false, seen || is_memory ins)
  else mret (false, seen || is_memory ins).

(** The scan of the reorder buffer from [j]: it ends when an instruction is issued, and
    gives its place. *)
Fixpoint scan_rob (n : nat) (thr j : Z) (seen : bool) : M core (option Z * bool) :=
  match n with
  | O => mret (None, seen)
  | S n' =>
      id ← on_rob thr (peekAt j);
      ins ← get_ins id;
      r ← (if hasIssued ins then mret (false, seen)
           else r ← try_issue thr id seen; on_temps thr (collect_reads ins) ;; mret r);
      on_temps thr (collect_writes ins) ;;
      if fst r : bool then mret (Some j, snd r) else scan_rob n' thr (j + 1) (snd r)
  end.
(** Whether an instruction was issued, where, and whether a memory operation waits. *)
Definition performIssue (thr rob_start : Z) (seen : bool) : M core (bool * Z * bool) :=
  t ← get_thread thr;
  if t_halted t then mret (false, rob_start, seen)
  else
    let rob_size := size (t_rob t) in
    r ← scan_rob (Z.to_nat (rob_size - rob_start)) thr rob_start seen;
    mret (match fst r with Some j => (true, j, snd r) | None => (false, rob_start, snd r) end).

(** ** Execution *)

Section execution.
Variables (wrapv : bool) (cycle_count : Z) (host : fp_operation -> list Z -> Z).

(** [execute] of an instruction on the registers of its thread. *)
Definition run_instruction (id : Z) : M core unit :=
  i ← get_ins id;
  rf ← getsR (fun c => at_index (register_files c) (hw_thread i));
  r ← getsR (fun _ => execution wrapv cycle_count host i (mkExec i rf));
  let s := snd r in
  put_ins id (ins s) ;;
  l ← getsR (fun c => set_index (register_files c) (hw_thread i) (regFile s));
  modify (fun c => c <| register_files := l |>).

Fixpoint tick_records (l : list VanadisFunctionalUnitInsRecord) : M core (list VanadisFunctionalUnitInsRecord) :=
  match l with
  | [] => mret []
  | q_item :: l' =>
      kept ← (if cycles_left q_item =? 0 then
                run_instruction (fu_ins q_item) ;;
                inner_ins ← get_ins (fu_ins q_item);
                mret (if hasExecuted inner_ins then [] else [q_item])
              else mret [mkInsRecord (fu_ins q_item) (cycles_left q_item - 1)]);
      rest ← tick_records l';
      mret (kept ++ rest)
  end.
Definition tick_unit (u : VanadisFunctionalUnit) : M core VanadisFunctionalUnit :=
  l ← tick_records (pending_execute u);
  mret (u <| pending_execute := l |> <| accept_this_cycle := true |>).
Fixpoint tick_units (l : list VanadisFunctionalUnit) : M core (list VanadisFunctionalUnit) :=
  match l with [] => mret [] | u :: l' => u' ← tick_unit u; rest ← tick_units l'; mret (u' :: rest) end.
Definition tick_class (k : unit_class) : M core unit :=
  l ← gets (fun c => units c k); l' ← tick_units l; on_units k l'.
Definition performExecute : M core unit :=
  tick_class INT_ARITH ;; tick_class INT_DIV ;; tick_class FP_ARITH ;; tick_class FP_DIV ;; tick_class BRANCH ;;
  on_memory lsq_tick.
End execution.

(** ** Clearing a thread *)

Fixpoint clear_records (hw_thr : Z) (l : list VanadisFunctionalUnitInsRecord) : M core (list VanadisFunctionalUnitInsRecord) :=
  match l with
  | [] => mret []
  | r :: l' =>
      i ← get_ins (fu_ins r);
      rest ← clear_records hw_thr l';
      mret (if hw_thread i =? hw_thr then rest else r :: rest)
  end.
Definition clearByHWThreadID (hw_thr : Z) (u : VanadisFunctionalUnit) : M core VanadisFunctionalUnit :=
  l ← clear_records hw_thr (pending_execute u); mret (u <| pending_execute := l |>).
Fixpoint clear_units (hw_thr : Z) (l : list VanadisFunctionalUnit) : M core (list VanadisFunctionalUnit) :=
  match l with
  | [] => mret []
  | u :: l' => u' ← clearByHWThreadID hw_thr u; rest ← clear_units hw_thr l'; mret (u' :: rest)
  end.
Definition clearFuncUnit (hw_thr : Z) (k : unit_class) : M core unit :=
  l ← gets (fun c => units c k); l' ← clear_units hw_thr l; on_units k l'.

(** The instructions from place [i] give back their registers and are deleted. *)
Fixpoint delete_from (n : nat) (hw_thr i : Z) : M core unit :=
  match n with
  | O => skip
  | S n' =>
      id ← on_rob hw_thr (peekAt i);
      next_ins ← get_ins id;
      when (hasIssued next_ins) (with_rename hw_thr id returnOutRegs) ;;
      delete_ins id ;;
      delete_from n' hw_thr (i + 1)
  end.
Definition clearROBMisspeculate (hw_thr : Z) : M core unit :=
  t ← get_thread hw_thr;
  delete_from (Z.to_nat (size (t_rob t))) hw_thr 0 ;;
  on_rob hw_thr clear.

Definition handleMisspeculate (hw_thr new_ip : Z) : M core unit :=
  clearFuncUnit hw_thr INT_ARITH ;; clearFuncUnit hw_thr INT_DIV ;; clearFuncUnit hw_thr FP_ARITH ;;
  clearFuncUnit hw_thr FP_DIV ;; clearFuncUnit hw_thr BRANCH ;;
  on_memory (clearLSQByThreadID hw_thr) ;;
  clearROBMisspeculate hw_thr ;;
  on_thread hw_thr (fun t => t <| t_issue ::= reset_table (t_retire t) |>) ;;
  tell (SetInstructionPointer hw_thr new_ip).

(** ** Retirement *)

Definition is_speculated (i : VanadisInstruction) : bool := match speculated i with Some _ => true | None => false end.
Definition updatesFPFlags (i : VanadisInstruction) : bool := update_fp_flags i || set_fp_flags i.
Definition updateFPFlags (i : VanadisInstruction) (pipeline : VanadisFloatingPointFlags) : VanadisFloatingPointFlags :=
  if update_fp_flags i then update_flags pipeline (fpflags i)
  else if set_fp_flags i then set_flags pipeline (fpflags i) else pipeline.
Definition update_thread_flags (thr : Z) (i : VanadisInstruction) : M core unit :=
  when (updatesFPFlags i) (on_thread thr (fun t => t <| t_fp_flags ::= updateFPFlags i |>)).

(** [syscallReturn]. *)
Definition syscallReturn (thr : Z) : M core unit :=
  t ← get_thread thr;
  when (empty_queue (t_rob t)) (fatal "syscall return but ROB is empty") ;;
  id ← on_rob thr peek;
  rob_front ← get_ins id;
  when (negb (is_syscall rob_front)) (fatal "unable to obtain a syscall from the ROB front") ;;
  on_ins id (fun i => i <| hasExecuted := true |>).

(** What the operating system does with a system call: the register file of the
    thread, whether the call has returned, and whether the load-store queue is to be
    flushed. *)
Variable handleSysCall : VanadisInstruction -> VanadisISATable -> VanadisRegisterFile -> VanadisRegisterFile * bool * bool.

Definition call_os (thr id : Z) : M core unit :=
  ins ← get_ins id;
  t ← get_thread thr;
  rf ← getsR (fun c => at_index (register_files c) thr);
  let '(rf', ret, flushLSQ) := handleSysCall ins (t_retire t) rf in
  l ← getsR (fun c => set_index (register_files c) thr rf');
  modify (fun c => c <| register_files := l |>) ;;
  tell (HandleSysCall thr id) ;;
  on_ins id (fun i => i <| isFrontOfROB := true |>) ;;
  when ret (syscallReturn thr) ;;
  when flushLSQ (on_memory (clearLSQByThreadID thr)).

(** Whether the instruction at the front can be cleaned up, and the one in its delay
    slot with it. *)
Definition check_delay_slot (rob_num : Z) (s : speculation) : M core (bool * bool) :=
  match delayType s with
  | VANADIS_NO_DELAY_SLOT => mret (true, false)
  | VANADIS_SINGLE_DELAY_SLOT | VANADIS_CONDITIONAL_SINGLE_DELAY_SLOT =>
      t ← get_thread rob_num;
      if 2 <=? size (t_rob t) then
        d ← on_rob rob_num (peekAt 1);
        delay_ins ← get_ins d;
        if hasExecuted delay_ins then
          if trapError delay_ins then fatal "Instruction (delay-slot) flags an error" else mret (true, true)
        else
          when (negb (isFrontOfROB delay_ins)) (on_ins d (fun i => i <| isFrontOfROB := true |>)) ;;
          mret (false, false)
      else mret (false, false)
  end.

Definition pause (i : VanadisInstruction) : M core unit :=
  p ← gets pause_on_retire_address;
  when ((0 <? p) && (ins_address i =? p)) (fatal "requested terminate on retire this address").

(** The instruction in the delay slot, after its branch. It is the flags of the branch
    that are looked at again. *)
Definition retire_delay (rob_num thr : Z) (rob_front : VanadisInstruction) : M core unit :=
  d ← on_rob rob_num pop;
  update_thread_flags thr rob_front ;;
  delay_ins ← get_ins d;
  with_rename (hw_thread delay_ins) d recoverRetiredRegisters ;;
  delete_ins d.

Definition clean_up (rob_num thr id : Z) (rob_front : VanadisInstruction) (delay : bool) (reset_to : option Z) :
    M core unit :=
  on_rob rob_num pop ;;
  update_thread_flags thr rob_front ;;
  with_rename thr id recoverRetiredRegisters ;;
  when delay (retire_delay rob_num thr rob_front) ;;
  pause rob_front ;;
  match reset_to with Some pipeline_reset_addr => handleMisspeculate thr pipeline_reset_addr | None => skip end ;;
  delete_ins id.

(** The front has been issued and executed. *)
Definition retire_front (rob_num thr id : Z) (rob_front : VanadisInstruction) : M core unit :=
  match speculated rob_front with
  | None => clean_up rob_num thr id rob_front false None
  | Some spec_ins =>
      c ← check_delay_slot rob_num spec_ins;
      if fst c : bool then
        tell (PushPrediction thr (ins_address rob_front) (takenAddress spec_ins)) ;;
        pause rob_front ;;
        clean_up rob_num thr id rob_front (snd c)
          (if takenAddress spec_ins =? speculatedAddress spec_ins then None else Some (takenAddress spec_ins))
      else skip
  end.

(** The code of what happened: 1 when there is nothing to retire, 2 and 3 when the
    front waits. *)
Definition performRetire (rob_num : Z) : M core Z :=
  t ← get_thread rob_num;
  if empty_queue (t_rob t) then mret 1 else
  id ← on_rob rob_num peek;
  rob_front ← get_ins id;
  let ins_thread := hw_thread rob_front in
  when (trapError rob_front) (fatal "Instruction flags an error") ;;
  if hasIssued rob_front && hasExecuted rob_front then retire_front rob_num ins_thread id rob_front ;; mret 0
  else if is_syscall rob_front then
    if hasIssued rob_front then
      when (negb (isFrontOfROB rob_front)) (call_os ins_thread id) ;; mret 3
    else mret 0
  else if isFrontOfROB rob_front then mret 2
  else on_ins id (fun i => i <| isFrontOfROB := true |>) ;; mret 0.

(** ** A cycle *)

Definition hw_threads (c : core) : Z := Z.of_nat (length (threads c)).

(** The register that ignores writes is zeroed where the issue table has it. *)
Definition reset_zero_register (thr : Z) : M core unit :=
  t ← get_thread thr;
  let zero_reg := reg_ignore_writes (t_options t) in
  when (zero_reg <? isa_int_reg_count (t_options t))
    (zero_phys_reg ← getsR (fun _ => getPhysReg INT zero_reg (t_issue t));
     rf ← getsR (fun c => at_index (register_files c) thr);
     rf' ← getsR (fun _ => setIntReg uint64_t zero_phys_reg 0 true rf);
     l ← getsR (fun c => set_index (register_files c) thr rf');
     modify (fun c => c <| register_files := l |>)).

(** A decoder puts the instructions it has made at the end of the reorder buffer. *)
Definition arrive (thr : Z) (i : VanadisInstruction) : M core unit :=
  id ← gets next_ins;
  modify (fun c => c <| next_ins := id + 1 |>) ;;
  put_ins id i ;;
  on_rob thr (push id).
Definition performDecode (fetched : Z -> list VanadisInstruction) : M core unit :=
  n ← gets hw_threads;
  forM (seqZ 0 n) (fun i =>
    t ← get_thread i; when (negb (t_halted t)) (forM (fetched i) (arrive i))).

(** The next thread that is not blocked, from [cur], and where the search ends. *)
Fixpoint next_thread (cnt : nat) (blocked : Z -> bool) (cur n : Z) : option Z * Z :=
  match cnt with
  | O => (None, cur)
  | S cnt' => if blocked cur then next_thread cnt' blocked ((cur + 1) mod n) n else (Some cur, cur)
  end.

(** What the loop over the issues of a cycle keeps for each thread. *)
Record issue_state := mkIssue { rc_issue : list Z; rob_start : list Z; unallocated_memory_op_seen : list bool }.

Fixpoint issue_loop (i : nat) (s : issue_state) : M core unit :=
  match i with
  | O => skip
  | S i' =>
      n ← gets hw_threads; cur ← gets m_curIssueHwThread;
      let '(found, cur') := next_thread (Z.to_nat n) (fun t => negb (rc_issue s !!! Z.to_nat t =? 0)) cur n in
      match found with
      | None => modify (fun c => c <| m_curIssueHwThread := cur' |>)
      | Some thr =>
          let k := Z.to_nat thr in
          r ← performIssue thr (rob_start s !!! k) (unallocated_memory_op_seen s !!! k);
          let '(issued, start, seen) := r in
          modify (fun c => c <| m_curIssueHwThread := (thr + 1) mod n |>) ;;
          issue_loop i' (mkIssue (<[k := if issued : bool then 0 else 1]> (rc_issue s))
                           (<[k := start]> (rob_start s)) (<[k := seen]> (unallocated_memory_op_seen s)))
      end
  end.
Fixpoint retire_loop (i : nat) (rc : list Z) : M core unit :=
  match i with
  | O => skip
  | S i' =>
      n ← gets hw_threads; cur ← gets m_curRetireHwThread;
      let '(found, cur') := next_thread (Z.to_nat n) (fun t => rc !!! Z.to_nat t =? 1) cur n in
      match found with
      | None => modify (fun c => c <| m_curRetireHwThread := cur' |>)
      | Some thr =>
          r ← performRetire thr;
          modify (fun c => c <| m_curRetireHwThread := (thr + 1) mod n |>) ;;
          retire_loop i' (<[Z.to_nat thr := r]> rc)
      end
  end.

Definition reset_temps : M core unit :=
  ts ← gets threads;
  forM ts (fun u => modify (fun c =>
    c <| threads ::= fmap (fun t => t <| t_temps ::= resetRegisterUseTemps (countISAIntReg u) (countISAFPReg u) |>) |>)).

Section tick.
Variables (wrapv : bool) (host : fp_operation -> list Z -> Z) (decodes_per_cycle : nat).

(** [fetched d i]: what the decoder of thread [i] makes in the [d]-th decode of the
    cycle. The result says whether the core stops. *)
Definition tick (fetched : nat -> Z -> list VanadisInstruction) : M core bool :=
  stop ← gets (fun c => max_cycle c <=? current_cycle c);
  if stop : bool then mret true else
  n ← gets hw_threads;
  cycle ← gets current_cycle;
  forM (seqZ 0 n) reset_zero_register ;;
  forM (seq 0 decodes_per_cycle) (fun d => performDecode (fetched d)) ;;
  reset_temps ;;
  issues ← gets issues_per_cycle;
  let zeros := replicate (Z.to_nat n) 0 in
  issue_loop (Z.to_nat issues) (mkIssue zeros zeros (replicate (Z.to_nat n) false)) ;;
  performExecute wrapv cycle host ;;
  retires ← gets retires_per_cycle;
  retire_loop (Z.to_nat retires) zeros ;;
  modify (fun c => c <| current_cycle := u64 (current_cycle c + 1) |>) ;;
  gets (fun c => max_cycle c <=? current_cycle c).

(** [setHalt]. *)
Definition setHalt (thr : Z) : M core unit :=
  n ← gets hw_threads;
  when (thr <? n)
    (on_thread thr (fun t => t <| t_halted := true |>) ;; handleMisspeculate thr 0).
End tick.

(** [startThread], with the decoder's [setStackPointer] (register 2 is the stack pointer
    of RISC-V) and the instruction pointer the configuration gives, 0 for none. *)
Definition setStackPointer (start_stack_address : Z) (isa_tbl : VanadisISATable) (rf : VanadisRegisterFile) :
    res VanadisRegisterFile :=
  sp_phys_reg ← getPhysReg INT 2 isa_tbl;
  setIntReg uint64_t sp_phys_reg start_stack_address true rf.
Definition startThread (initial_config_ip thr stackStart instructionPointer : Z) : M core unit :=
  on_thread thr (fun t => t <| t_halted := false |>) ;;
  tell (SetInstructionPointer thr instructionPointer) ;;
  t ← get_thread thr;
  rf ← getsR (fun c => at_index (register_files c) thr);
  rf' ← getsR (fun _ => setStackPointer stackStart (t_issue t) rf);
  l ← getsR (fun c => set_index (register_files c) thr rf');
  modify (fun c => c <| register_files := l |>) ;;
  put_thread thr (t <| t_retire ::= reset_table (t_issue t) |>) ;;
  when (0 <? initial_config_ip) (tell (SetInstructionPointer thr initial_config_ip)).

(** ** Construction *)

(** The threads are made one after the other; each takes a physical register for every
    register of its instruction set from the common stacks. *)
Fixpoint take_registers (k : kind) (n : nat) (j : Z) (t : VanadisISATable) (s : VanadisRegisterStack) :
    res (VanadisISATable * VanadisRegisterStack) :=
  match n with
  | O => Ok (t, s)
  | S n' => r ← pop_register s; t' ← setPhysReg k j (fst r) t; take_registers k n' (j + 1) t' (snd r)
  end.
Definition new_thread (rob_count : Z) (o : VanadisDecoderOptions) (int_s fp_s : VanadisRegisterStack) :
    res (thread * VanadisRegisterStack * VanadisRegisterStack) :=
  let table := new_VanadisISATable o (isa_int_reg_count o) (isa_fp_reg_count o) in
  r1 ← take_registers INT (Z.to_nat (isa_int_reg_count o)) 0 table int_s;
  r2 ← take_registers FP (Z.to_nat (isa_fp_reg_count o)) 0 (fst r1) fp_s;
  let issue := fst r2 in
  Ok (mkThread (new_queue rob_count) o issue (reset_table issue table) (mkTemps [] [] [] []) no_flags true, snd r1, snd r2).
Fixpoint new_threads (rob_count : Z) (os : list VanadisDecoderOptions) (int_s fp_s : VanadisRegisterStack) :
    res (list thread * VanadisRegisterStack * VanadisRegisterStack) :=
  match os with
  | [] => Ok ([], int_s, fp_s)
  | o :: os' =>
      r ← new_thread rob_count o int_s fp_s;
      let '(t, int_s', fp_s') := r in
      r' ← new_threads rob_count os' int_s' fp_s';
      let '(ts, int_s'', fp_s'') := r' in
      Ok (t :: ts, int_s'', fp_s'')
  end.
Definition new_core (rob_count int_reg_count fp_reg_count : Z) (os : list VanadisDecoderOptions)
    (new_units : unit_class -> list VanadisFunctionalUnit) (q : Q) (max issues retires pause_at : Z) : res core :=
  r ← new_threads rob_count os (new_VanadisRegisterStack int_reg_count) (new_VanadisRegisterStack fp_reg_count);
  let '(ts, int_s, fp_s) := r in
  let max_int_regs := foldr Z.max 0 (isa_int_reg_count <$> os) in
  let max_fp_regs := foldr Z.max 0 (isa_fp_reg_count <$> os) in
  let none n := replicate (Z.to_nat n) false in
  let temps := mkTemps (none max_int_regs) (none max_int_regs) (none max_fp_regs) (none max_fp_regs) in
  Ok (mkCore ∅ 0 ((fun t => t <| t_temps := temps |>) <$> ts)
        (fmap (fun o => new_VanadisRegisterFile o int_reg_count fp_reg_count (fp_reg_mode o)) os)
        int_s fp_s new_units q 0 0 0 max issues retires pause_at []).
End pipeline.
Arguments core : clear implicits.
