(* ===== verification/VanadisOrder.v ===== *)
(** * VanadisOrder: the instructions of a thread between issue and retirement

    The instructions of a reorder buffer issue in any order that keeps their data
    dependences ([ordered]). [thread_ok] is what holds of them whatever that order
    was: the issue table is the retirement table with the renamings of the issued
    instructions made on top of it; the inputs of an issued instruction are registers
    of the retirement table; and an executed instruction has in its output registers
    what its execution computes from its inputs. The lemmas say that each step keeps
    it: [thread_arrive], [thread_issue], [thread_advance] (execution), [thread_retire],
    [thread_zero].

    The architectural registers of a thread are the values its retirement table points
    to ([arch]); the register that ignores writes is zero. [sequential] is what one
    instruction does to them when the instructions of a thread are executed one after
    the other. [commit_sequential]: an executed instruction at the front of the
    reorder buffer does that when it retires. *)

From S2P Require Import Prelude VanadisRegs VanadisInst VanadisRename VanadisFrame VanadisMem VanadisFree.

(** ** Lists *)

Definition apart (l l' : list Z) : Prop := forall x, x ∈ l -> x ∈ l' -> False.

Lemma nodup_bind {A B} (f : A -> list B) l a b x :
  NoDup (l ≫= f) -> a ∈ l -> b ∈ l -> x ∈ f a -> x ∈ f b -> a = b.
Proof.
  induction l as [|c l IH]; [set_solver|]. rewrite bind_cons, NoDup_app. intros (_ & Hd & Hl) Ha Hb Hxa Hxb.
  assert (Hin : forall y, y ∈ l -> x ∈ f y -> x ∈ l ≫= f) by (intros y Hy Hx; apply list_elem_of_bind; by exists y).
  apply elem_of_cons in Ha as [->|Ha], Hb as [->|Hb]; [done| | |by apply IH]; exfalso; eapply Hd; eauto.
Qed.

Lemma Forall2_impl_l {A B} (P Q : A -> B -> Prop) l l' :
  Forall2 P l l' -> (forall x y, x ∈ l -> P x y -> Q x y) -> Forall2 Q l l'.
Proof.
  intros Hf. induction Hf as [|x y l l' Hxy Hf IH]; intros Hi; constructor; [apply Hi; [by left|done]|].
  apply IH. intros x' y' Hx. apply Hi. by right.
Qed.

Lemma nodup_bind_one {A B} (f : A -> list B) l a : NoDup (l ≫= f) -> a ∈ l -> NoDup (f a).
Proof.
  induction l as [|c l IH]; [set_solver|]. rewrite bind_cons, NoDup_app. intros (Hc & _ & Hl) [->|Ha]%elem_of_cons; auto.
Qed.
Lemma zip_once {A B} (l : list A) (l' : list B) a b y : NoDup l' -> (a, y) ∈ zip l l' -> (b, y) ∈ zip l l' -> a = b.
Proof.
  intros Hn [i Hi]%list_elem_of_lookup [j Hj]%list_elem_of_lookup.
  apply lookup_zip_Some in Hi as [Ha Hy], Hj as [Hb Hy']. pose proof (NoDup_lookup _ _ _ _ Hn Hy Hy'). congruence.
Qed.
(** Where an entry of a table comes from. *)
Lemma assign_lookup l t j p :
  assign l t !! j = Some p -> t !! j = Some p \/ exists r, (r, p) ∈ l /\ Z.to_nat r = j.
Proof.
  revert t. induction l as [|[r v] l IH]; intros t; [by left|]. cbn. intros [Ht|(s & Hs & E)]%IH.
  - apply list_lookup_insert_Some in Ht as [(<- & -> & _)|[_ Ht]]; [|by left]. right. exists r. split; [by left|done].
  - right. exists s. split; [by right|done].
Qed.

(** ** What an issued instruction does to the tables *)

Definition issued_out (k : kind) (i : VanadisInstruction) : list Z := if hasIssued i then phys_out k i else [].
Definition renaming (k : kind) (i : VanadisInstruction) : list (Z * Z) :=
  if hasIssued i then zip (isa_out k i) (phys_out k i) else [].
Definition in_flight (k : kind) (L : list VanadisInstruction) : list Z := L ≫= issued_out k.
Definition renamings (k : kind) (L : list VanadisInstruction) : list (Z * Z) := L ≫= renaming k.

Lemma renaming_keys k i r : r ∈ (renaming k i).*1 -> hasIssued i = true /\ r ∈ isa_out k i.
Proof.
  unfold renaming. destruct (hasIssued i); [|set_solver]. intros ([r' p] & -> & Hp)%list_elem_of_fmap.
  split; [done|]. by eapply elem_of_zip_l.
Qed.
Lemma renamings_keys k L r : r ∈ (renamings k L).*1 -> exists i, i ∈ L /\ hasIssued i = true /\ r ∈ isa_out k i.
Proof.
  unfold renamings. intros (y & -> & (i & Hy & Hi)%list_elem_of_bind)%list_elem_of_fmap.
  exists i. split; [done|]. apply renaming_keys. by apply list_elem_of_fmap_2.
Qed.

(** ** Dependences *)

(** [a] is older than [b]. *)
Record ordered (a b : VanadisInstruction) : Prop := {
  read_after_write k : hasIssued b = true -> apart (isa_out k a) (isa_in k b);
  write_after_write k : hasIssued b = true -> apart (isa_out k a) (isa_out k b);
  write_after_read k : hasIssued b = true -> hasIssued a = false -> apart (isa_in k a) (isa_out k b);
  memory_order : hasIssued b = true -> is_memory a = true -> is_memory b = true -> hasIssued a = true }.

(** ** The invariant of a thread *)

Section thread.
Variables (wrapv : bool) (host : fp_operation -> list Z -> Z) (n : kind -> nat).

Definition ignored (rf : VanadisRegisterFile) (k : kind) (r : Z) : Prop :=
  k = INT /\ r = reg_ignore_writes (decoder_opts rf).

(** An execution of the instruction, from a file with the same operands, left these
    flags and these results. *)
Definition computed (rf : VanadisRegisterFile) (i : VanadisInstruction) : Prop :=
  exists cycle i0 rf0 rf1,
    erase i0 = erase i /\ execution wrapv cycle host i0 (mkExec i0 rf0) = Ok (tt, mkExec i rf1) /\
    file_like rf0 rf /\
    (forall k p, p ∈ phys_in k i -> cell k rf0 p = cell k rf p) /\
    (forall k r p, (r, p) ∈ zip (isa_out k i) (phys_out k i) -> ~ ignored rf k r -> cell k rf1 p = cell k rf p).
Definition finished (rf : VanadisRegisterFile) (i : VanadisInstruction) : Prop :=
  unit_type (getInstFuncType (class i)) = true -> computed rf i.

Record thread_ok (rf : VanadisRegisterFile) (ti tr : kind -> list Z) (L : list VanadisInstruction) : Prop := {
  th_order : StronglySorted ordered L;
  th_executed i : i ∈ L -> hasExecuted i = true -> hasIssued i = true /\ finished rf i;
  th_issue k : ti k = assign (renamings k L) (tr k);
  th_names i : i ∈ L -> names_ok n i;
  th_inputs i k : i ∈ L -> hasIssued i = true ->
    Forall2 (fun r p => tr k !! Z.to_nat r = Some p) (isa_in k i) (phys_in k i);
  th_zero i p : i ∈ L -> hasIssued i = true ->
    (reg_ignore_writes (decoder_opts rf), p) ∈ zip (isa_in INT i) (phys_in INT i) -> value rf p = 0 }.

Lemma thread_ok_ext rf ti ti' tr tr' L :
  (forall k, ti' k = ti k) -> (forall k, tr' k = tr k) -> thread_ok rf ti tr L -> thread_ok rf ti' tr' L.
Proof.
  intros Hi Hr [H1 H2 H3 H4 H5 H6]. split; try done.
  - intros k. by rewrite Hi, Hr.
  - intros i k Hin Hs. rewrite Hr. auto.
Qed.

(** Registers are in the table or given to one instruction. *)
Definition separate (tr : kind -> list Z) (L : list VanadisInstruction) : Prop :=
  forall k, NoDup (tr k ++ in_flight k L) /\ Forall (Z.le 0) (tr k ++ in_flight k L).

(** The register that ignores writes is zero for those that can read it. *)
Definition zero_ready (rf : VanadisRegisterFile) (ti : kind -> list Z) (L : list VanadisInstruction) : Prop :=
  let z := reg_ignore_writes (decoder_opts rf) in
  (forall i, i ∈ L -> hasIssued i = true -> z ∉ isa_out INT i) -> forall p, ti INT !! Z.to_nat z = Some p -> value rf p = 0.

Section facts.
Variables (rf : VanadisRegisterFile) (ti tr : kind -> list Z) (L : list VanadisInstruction).
Hypothesis H : thread_ok rf ti tr L.
Hypothesis Hsep : separate tr L.

Lemma input_in_table i k p : i ∈ L -> hasIssued i = true -> p ∈ phys_in k i -> p ∈ tr k.
Proof.
  intros Hi Hs Hp. pose proof (th_inputs _ _ _ _ H i k Hi Hs) as Hf.
  apply list_elem_of_lookup in Hp as [j Hj]. destruct (Forall2_lookup_r _ _ _ _ _ Hf Hj) as (r & _ & Hr).
  by eapply list_elem_of_lookup_2.
Qed.
Lemma output_in_flight i k p : i ∈ L -> hasIssued i = true -> p ∈ phys_out k i -> p ∈ in_flight k L.
Proof. intros Hi Hs Hp. apply list_elem_of_bind. exists i. split; [|done]. unfold issued_out. by rewrite Hs. Qed.
Lemma table_not_in_flight k p : p ∈ tr k -> p ∉ in_flight k L.
Proof. intros Ht Hf. destruct (Hsep k) as [(_ & Hd & _)%NoDup_app _]. by eapply Hd. Qed.
Lemma output_once i j k p :
  i ∈ L -> j ∈ L -> hasIssued i = true -> hasIssued j = true -> p ∈ phys_out k i -> p ∈ phys_out k j -> i = j.
Proof.
  intros Hi Hj Si Sj Pi Pj. destruct (Hsep k) as [(_ & _ & Hn)%NoDup_app _].
  eapply (nodup_bind (issued_out k)); [exact Hn|done..| |]; unfold issued_out; [by rewrite Si|by rewrite Sj].
Qed.
Lemma input_nonneg i k p : i ∈ L -> hasIssued i = true -> p ∈ phys_in k i -> 0 <= p.
Proof.
  intros Hi Hs Hp. destruct (Hsep k) as [_ Hn]. rewrite Forall_forall in Hn. apply Hn, elem_of_app. left.
  by eapply input_in_table.
Qed.
Lemma output_nonneg i k p : i ∈ L -> hasIssued i = true -> p ∈ phys_out k i -> 0 <= p.
Proof.
  intros Hi Hs Hp. destruct (Hsep k) as [_ Hn]. rewrite Forall_forall in Hn. apply Hn, elem_of_app. right.
  by eapply output_in_flight.
Qed.

(** Only the outputs of instructions that have not been executed are written. *)
Definition touched (k : kind) (p : Z) : Prop :=
  exists i, i ∈ L /\ hasIssued i = true /\ hasExecuted i = false /\ p ∈ phys_out k i.
Lemma input_untouched i k p : i ∈ L -> hasIssued i = true -> p ∈ phys_in k i -> ~ touched k p.
Proof.
  intros Hi Hs Hp (j & Hj & Sj & _ & Pj). apply (table_not_in_flight k p); [by apply (input_in_table i)|].
  by apply (output_in_flight j).
Qed.
Lemma output_untouched i k p : i ∈ L -> hasExecuted i = true -> p ∈ phys_out k i -> ~ touched k p.
Proof.
  intros Hi He Hp (j & Hj & Sj & Ej & Pj). destruct (th_executed _ _ _ _ H i Hi He) as [Si _].
  assert (i = j) as <- by by eapply output_once. congruence.
Qed.
End facts.

(** ** Decoding *)

Lemma renamings_app k L L' : renamings k (L ++ L') = renamings k L ++ renamings k L'.
Proof. apply bind_app. Qed.
Lemma in_flight_app k L L' : in_flight k (L ++ L') = in_flight k L ++ in_flight k L'.
Proof. apply bind_app. Qed.
Lemma renamings_cons k i L : renamings k (i :: L) = renaming k i ++ renamings k L.
Proof. apply bind_cons. Qed.
Lemma in_flight_cons k i L : in_flight k (i :: L) = issued_out k i ++ in_flight k L.
Proof. apply bind_cons. Qed.

Lemma thread_arrive rf ti tr L i :
  thread_ok rf ti tr L -> hasIssued i = false -> hasExecuted i = false ->
  names_ok n i -> thread_ok rf ti tr (L ++ [i]).
Proof.
  intros [H1 H2 H3 H4 H5 H6] Hi He Hl.
  assert (Hnew : forall j, j ∈ L ++ [i] -> j ∈ L \/ j = i) by set_solver.
  split.
  - apply StronglySorted_app. split_and!; [|done|repeat constructor]. intros a b Ha ->%list_elem_of_singleton.
    split; intros; congruence.
  - intros j [Hj| ->]%Hnew; [by apply H2|congruence].
  - intros k. rewrite renamings_app, renamings_cons. unfold renaming. rewrite Hi. cbn. by rewrite app_nil_r.
  - intros j [Hj| ->]%Hnew; auto.
  - intros j k [Hj| ->]%Hnew Hs; [by apply H5|congruence].
  - intros j p [Hj| ->]%Hnew Hs; [by apply (H6 j)|congruence].
Qed.

(** ** Execution *)

Record advanced (rf' : VanadisRegisterFile) (i i' : VanadisInstruction) : Prop := {
  av_erase : erase i' = erase i;
  av_done : hasExecuted i = true -> i' = i;
  av_new : hasExecuted i = false -> hasExecuted i' = true -> hasIssued i = true /\ finished rf' i' }.

Lemma names_erase i i' : erase i' = erase i -> names_ok n i -> names_ok n i'.
Proof.
  intros E [N1 N2 N3 N4].
  split; intros k; rewrite ?(erase_isa_in _ _ E), ?(erase_isa_out _ _ E), ?(erase_phys_in _ _ E), ?(erase_phys_out _ _ E); auto.
Qed.
Lemma ordered_erase a b a' b' : erase a' = erase a -> erase b' = erase b -> ordered a b -> ordered a' b'.
Proof.
  intros Ea Eb [H1 H2 H3 H4]. unfold is_memory in *.
  split; intros; unfold is_memory in *;
    rewrite ?(erase_isa_in _ _ Ea), ?(erase_isa_out _ _ Ea), ?(erase_isa_in _ _ Eb), ?(erase_isa_out _ _ Eb),
      ?(erase_issued _ _ Ea), ?(erase_issued _ _ Eb), ?(erase_class _ _ Ea), ?(erase_class _ _ Eb) in *; auto.
Qed.

Section advance.
Variables (rf' : VanadisRegisterFile) (L L' : list VanadisInstruction).
Hypothesis Hadv : Forall2 (advanced rf') L L'.

Lemma advanced_from i' : i' ∈ L' -> exists i, i ∈ L /\ advanced rf' i i'.
Proof.
  intros [j Hj]%list_elem_of_lookup. destruct (Forall2_lookup_r _ _ _ _ _ Hadv Hj) as (i & Hi & Ha).
  exists i. split; [by eapply list_elem_of_lookup_2|done].
Qed.
Lemma advanced_renamings k : renamings k L' = renamings k L.
Proof.
  revert Hadv. induction 1 as [|i i' l l' [E _ _] _ IH]; [done|]. rewrite !renamings_cons, IH. f_equal. unfold renaming.
  by rewrite (erase_issued _ _ E), (erase_isa_out _ _ E), (erase_phys_out _ _ E).
Qed.
Lemma advanced_in_flight k : in_flight k L' = in_flight k L.
Proof.
  revert Hadv. induction 1 as [|i i' l l' [E _ _] _ IH]; [done|]. rewrite !in_flight_cons, IH. f_equal. unfold issued_out.
  by rewrite (erase_issued _ _ E), (erase_phys_out _ _ E).
Qed.
Lemma advanced_ordered : StronglySorted ordered L -> StronglySorted ordered L'.
Proof.
  revert Hadv. induction 1 as [|i i' l l' [E _ _] Hf IH]; [done|]. rewrite !StronglySorted_cons. intros [Hi Hl].
  split; [|by apply IH]. clear IH Hl. revert Hi. induction Hf as [|b b' l l' [E' _ _] _ IH]; [done|].
  intros [Hb Hl]%Forall_cons. apply Forall_cons. split; [by eapply ordered_erase|by apply IH].
Qed.
End advance.

Lemma computed_kept rf rf' i :
  computed rf i -> file_like rf rf' -> (forall k p, p ∈ phys_in k i -> cell k rf' p = cell k rf p) ->
  (forall k r p, (r, p) ∈ zip (isa_out k i) (phys_out k i) -> ~ ignored rf k r -> cell k rf' p = cell k rf p) -> computed rf' i.
Proof.
  intros (cycle & i0 & rf0 & rf1 & He & Hx & Hl & Hin & Hout) Hlike Hi Ho.
  exists cycle, i0, rf0, rf1. split_and!; [done|done|by transitivity rf| |].
  - intros k p Hp. rewrite Hi by done. by apply Hin.
  - intros k r p Hp Hn. unfold ignored in *. rewrite (like_opts _ _ Hlike) in Hn. rewrite (Ho k r p Hp Hn). by apply (Hout k r).
Qed.

Lemma thread_advance rf rf' ti tr L L' :
  thread_ok rf ti tr L -> separate tr L -> file_like rf rf' -> Forall2 (advanced rf') L L' ->
  (forall k p, 0 <= p -> ~ touched L k p -> cell k rf' p = cell k rf p) -> thread_ok rf' ti tr L'.
Proof.
  intros H Hsep Hlike Hadv Hcell. pose proof H as [H1 H2 H3 H4 H5 H6]. split.
  - by eapply advanced_ordered.
  - intros i' Hi' He'. destruct (advanced_from _ _ _ Hadv i' Hi') as (i & Hi & [E Hdone Hnew]).
    destruct (hasExecuted i) eqn:He.
    + specialize (Hdone eq_refl) as ->. destruct (H2 i Hi He) as [Hs Hf]. split; [done|]. intros Hu.
      apply (computed_kept rf); [by apply Hf|done| |].
      * intros k p Hp. apply Hcell; [by eapply input_nonneg|by eapply input_untouched].
      * intros k r p Hp%elem_of_zip_r _. apply Hcell; [by eapply output_nonneg|by eapply output_untouched].
    + rewrite (erase_issued _ _ E). by apply Hnew.
  - intros k. by rewrite (advanced_renamings _ _ _ Hadv).
  - intros i' Hi'. destruct (advanced_from _ _ _ Hadv i' Hi') as (i & Hi & [E _ _]). by eapply names_erase, H4.
  - intros i' k Hi'. destruct (advanced_from _ _ _ Hadv i' Hi') as (i & Hi & [E _ _]).
    rewrite (erase_issued _ _ E), (erase_phys_in _ _ E), (erase_isa_in _ _ E). auto.
  - intros i' p Hi'. destruct (advanced_from _ _ _ Hadv i' Hi') as (i & Hi & [E _ _]).
    rewrite (erase_issued _ _ E), (erase_phys_in _ _ E INT), (erase_isa_in _ _ E INT), (like_opts _ _ Hlike).
    intros Hs Hp. pose proof (H6 i p Hi Hs Hp) as Hz. apply elem_of_zip_r in Hp.
    rewrite <- Hz. apply (Hcell INT); [by eapply input_nonneg|by eapply input_untouched].
Qed.

(** ** Issue *)

Section issue.
Variables (rf : VanadisRegisterFile) (ti tr : kind -> list Z) (A B : list VanadisInstruction) (i i' : VanadisInstruction).
Hypothesis H : thread_ok rf ti tr (A ++ i :: B).
Hypothesis Hzero : zero_ready rf ti (A ++ i :: B).
Hypothesis Hi : hasIssued i = false.

(** What the scan of the reorder buffer has found. *)
Record clearance : Prop := {
  cl_raw a k : a ∈ A -> apart (isa_out k a) (isa_in k i);
  cl_waw a k : a ∈ A -> apart (isa_out k a) (isa_out k i);
  cl_war a k : a ∈ A -> hasIssued a = false -> apart (isa_in k a) (isa_out k i);
  cl_memory a : is_memory i = true -> a ∈ A -> is_memory a = true -> hasIssued a = true }.
(** What renaming made of the instruction. *)
Record renamed : Prop := {
  rn_in k : isa_in k i' = isa_in k i;
  rn_out k : isa_out k i' = isa_out k i;
  rn_class : class i' = class i;
  rn_issued : hasIssued i' = true;
  rn_executed : hasExecuted i' = true -> unit_type (getInstFuncType (class i')) = false;
  rn_names : names_ok n i';
  rn_inputs k : Forall2 (fun r p => ti k !! Z.to_nat r = Some p) (isa_in k i) (phys_in k i') }.
Hypothesis Hclear : clearance.
Hypothesis Hren : renamed.

Lemma younger_order b : b ∈ B -> ordered i b.
Proof.
  intros Hb. pose proof (th_order _ _ _ _ H) as (_ & _ & (Hf & _)%StronglySorted_cons)%StronglySorted_app.
  rewrite Forall_forall in Hf. auto.
Qed.
Lemma apart_places k r r' a b :
  a ∈ A ++ i :: B -> b ∈ A ++ i :: B -> r ∈ isa_out k a -> r' ∈ isa_in k b \/ r' ∈ isa_out k b -> r <> r' ->
  Z.to_nat r <> Z.to_nat r'.
Proof.
  intros Ha Hb Hr Hr' Hne. pose proof (names_out _ _ (th_names _ _ _ _ H a Ha) k) as H1.
  pose proof (names_in _ _ (th_names _ _ _ _ H b Hb) k) as H2. pose proof (names_out _ _ (th_names _ _ _ _ H b Hb) k) as H3.
  rewrite Forall_forall in *. apply H1 in Hr. unfold reg_ok in *. destruct Hr' as [Hr'|Hr']; [apply H2 in Hr'|apply H3 in Hr']; lia.
Qed.

Lemma renamings_middle k : renamings k (A ++ i :: B) = renamings k (A ++ B).
Proof. rewrite !renamings_app, renamings_cons. unfold renaming. by rewrite Hi. Qed.

(** No renaming of the others is of a register the instruction reads. *)
Lemma inputs_unrenamed k r s : r ∈ isa_in k i -> s ∈ (renamings k (A ++ B)).*1 -> Z.to_nat s <> Z.to_nat r.
Proof.
  intros Hr (j & Hj & Hs & Hk)%renamings_keys.
  apply (apart_places k s r j i); [set_solver|set_solver|done|by left|]. intros ->.
  apply elem_of_app in Hj as [Hj|Hj]; [by eapply (cl_raw Hclear j k)|].
  by eapply (write_after_read _ _ (younger_order j Hj) k).
Qed.
Lemma inputs_retired k : Forall2 (fun r p => tr k !! Z.to_nat r = Some p) (isa_in k i) (phys_in k i').
Proof.
  apply (Forall2_impl_l _ _ _ _ (rn_inputs Hren k)). intros r p Hr Hp.
  rewrite (th_issue _ _ _ _ H), renamings_middle in Hp. rewrite assign_other in Hp; [done|].
  intros s Hs. by apply (inputs_unrenamed k).
Qed.

Lemma thread_issue : thread_ok rf (fun k => assign (zip (isa_out k i) (phys_out k i')) (ti k)) tr (A ++ i' :: B).
Proof.
  pose proof H as [H1 H2 H3 H4 H5 H6]. pose proof inputs_retired as Hin.
  assert (Hrm : forall k, renaming k i' = zip (isa_out k i) (phys_out k i')).
  { intros k. unfold renaming. by rewrite (rn_issued Hren), (rn_out Hren). }
  assert (Hother : forall j, j ∈ A ++ i' :: B -> j = i' \/ j ∈ A ++ i :: B) by set_solver.
  split.
  - apply StronglySorted_app in H1 as (Hab & HA & [HB HBs]%StronglySorted_cons).
    apply StronglySorted_app. split_and!; [|done|apply StronglySorted_cons; split; [|done]].
    + intros a b Ha [->|Hb]%elem_of_cons; [|apply Hab; set_solver].
      split; intros; unfold is_memory in *; rewrite ?(rn_in Hren), ?(rn_out Hren), ?(rn_class Hren) in *;
        [by apply (cl_raw Hclear)|by apply (cl_waw Hclear)|by apply (cl_war Hclear)|by apply (cl_memory Hclear)].
    + apply Forall_forall. intros b Hb. destruct (younger_order b Hb) as [O1 O2 O3 O4].
      split; intros; rewrite ?(rn_in Hren), ?(rn_out Hren); auto. apply (rn_issued Hren).
  - intros j [->|Hj]%Hother; [|by apply H2]. intros He. split; [apply (rn_issued Hren)|].
    intros Hu. rewrite (rn_executed Hren He) in Hu. done.
  - intros k. rewrite H3, renamings_middle, !renamings_app, renamings_cons, Hrm, !assign_app. apply assign_swap.
    intros r s Hr Hs. apply renamings_keys in Hs as (b & Hb & Sb & Hs).
    apply list_elem_of_fmap in Hr as ([r' p] & -> & Hr%elem_of_zip_l). cbn.
    apply (apart_places k r' s i b); [set_solver|set_solver|done|by right|].
    intros ->. by eapply (write_after_write _ _ (younger_order b Hb) k).
  - intros j [->|Hj]%Hother; [apply (rn_names Hren)|by apply H4].
  - intros j k [->|Hj]%Hother; [|by apply H5]. intros _. rewrite (rn_in Hren). apply Hin.
  - intros j p [->|Hj]%Hother; [|by apply H6]. intros _. rewrite (rn_in Hren). intros Hp.
    pose proof (elem_of_zip_l _ _ _ _ Hp) as Hz. apply Hzero.
    + intros j Hj Sj Hw. apply elem_of_app in Hj as [Hj|Hj]; [by eapply (cl_raw Hclear j INT)|].
      apply elem_of_cons in Hj as [->|Hj]; [congruence|]. by eapply (write_after_read _ _ (younger_order j Hj) INT).
    + pose proof (rn_inputs Hren INT) as Hf. apply list_elem_of_lookup in Hp as [m Hm].
      apply lookup_zip_Some in Hm as [Hm1 Hm2]. by apply (Forall2_lookup_lr _ _ _ _ _ _ Hf Hm1 Hm2).
Qed.
End issue.

(** ** Retirement *)

(** The oldest instruction has executed: its renamings are made in the retirement
    table. *)
Lemma thread_retire rf ti tr i L :
  thread_ok rf ti tr (i :: L) -> hasIssued i = true -> thread_ok rf ti (fun k => assign (renaming k i) (tr k)) L.
Proof.
  intros H Hi. pose proof H as [H1 H2 H3 H4 H5 H6]. pose proof H1 as [HO HS]%StronglySorted_cons.
  assert (Hin : forall j, j ∈ L -> j ∈ i :: L) by set_solver. split; auto.
  - intros k. by rewrite H3, renamings_cons, assign_app.
  - intros j k Hj Sj. apply (Forall2_impl_l _ _ _ _ (H5 j k (Hin j Hj) Sj)). intros r p Hr Hp.
    rewrite assign_other; [done|]. intros s [_ Hs]%renaming_keys.
    pose proof (names_out _ _ (H4 i ltac:(by left)) k) as Hs0. pose proof (names_in _ _ (H4 j (Hin j Hj)) k) as Hr0.
    rewrite Forall_forall in HO. rewrite Forall_forall in Hs0. rewrite Forall_forall in Hr0. apply Hs0 in Hs as Hs1. apply Hr0 in Hr as Hr1. unfold reg_ok in *.
    assert (s <> r); [|lia]. intros ->. by eapply (read_after_write _ _ (HO j Hj) k).
  - intros j p Hj. apply H6. auto.
Qed.

(** ** The register that ignores writes *)

(** Zero is written where the issue table has it. *)
Lemma thread_zero rf rf' ti tr L p :
  thread_ok rf ti tr L -> separate tr L -> file_like rf rf' ->
  0 <= reg_ignore_writes (decoder_opts rf) -> ti INT !! Z.to_nat (reg_ignore_writes (decoder_opts rf)) = Some p ->
  value rf' p = 0 -> (forall k q, 0 <= q -> (k = INT -> q <> p) -> cell k rf' q = cell k rf q) ->
  thread_ok rf' ti tr L /\ zero_ready rf' ti L.
Proof.
  intros H Hsep Hlike Hz Hp Hnew Hcell. pose proof H as [H1 H2 H3 H4 H5 H6].
  set (z := reg_ignore_writes (decoder_opts rf)) in *.
  assert (Hins : forall i k q, i ∈ L -> hasIssued i = true -> q ∈ phys_in k i -> cell k rf' q = cell k rf q).
  { intros i k q Hi Si Hq. pose proof (input_nonneg _ _ _ _ H Hsep i k q Hi Si Hq) as Hq0.
    destruct (decide (k = INT /\ q = p)) as [[-> ->]|Hne]; [|apply Hcell; [done|tauto]].
    cbn. rewrite Hnew. symmetry. apply (H6 i p Hi Si). fold z.
    apply list_elem_of_lookup in Hq as [m Hm]. destruct (Forall2_lookup_r _ _ _ _ _ (H5 i INT Hi Si) Hm) as (r & Hr & Ht).
    pose proof (table_not_in_flight _ _ Hsep INT p (list_elem_of_lookup_2 _ _ _ Ht)) as Hnf.
    rewrite H3 in Hp. apply assign_lookup in Hp as [Hp|(s & Hs & _)].
    - destruct (Hsep INT) as [(Hn & _ & _)%NoDup_app _]. pose proof (NoDup_lookup _ _ _ _ Hn Hp Ht) as E.
      pose proof (names_in _ _ (H4 i Hi) INT) as Hr0. rewrite Forall_forall in Hr0.
      specialize (Hr0 r (list_elem_of_lookup_2 _ _ _ Hr)). unfold reg_ok in Hr0. assert (r = z) as -> by lia.
      apply list_elem_of_lookup. exists m. by apply lookup_zip_Some.
    - exfalso. apply Hnf. apply list_elem_of_bind in Hs as (j & Hs & Hj). apply list_elem_of_bind. exists j. split; [|done].
      unfold renaming, issued_out in *. destruct (hasIssued j); [by eapply elem_of_zip_r|set_solver]. }
  assert (Houts : forall i k r q, i ∈ L -> hasIssued i = true -> (r, q) ∈ zip (isa_out k i) (phys_out k i) ->
    ~ ignored rf k r -> cell k rf' q = cell k rf q).
  { intros i k r q Hi Si Hq Hign. pose proof (elem_of_zip_r _ _ _ _ Hq) as Hqo.
    apply Hcell; [by eapply output_nonneg|]. intros -> ->. apply Hign. split; [done|]. fold z.
    rewrite H3 in Hp. apply assign_lookup in Hp as [Hp|(s & Hs & E)].
    { exfalso. eapply table_not_in_flight; [done|by eapply list_elem_of_lookup_2|by eapply output_in_flight]. }
    apply list_elem_of_bind in Hs as (j & Hs & Hj). unfold renaming in Hs. destruct (hasIssued j) eqn:Sj; [|set_solver].
    assert (i = j) as <- by (eapply output_once; [done|exact Hi|exact Hj|done|done|exact Hqo|by eapply elem_of_zip_r]).
    destruct (Hsep INT) as [(_ & _ & Hn)%NoDup_app _]. apply (nodup_bind_one _ _ i) in Hn; [|done].
    unfold issued_out in Hn. rewrite Si in Hn. pose proof (zip_once _ _ _ _ _ Hn Hq Hs) as ->.
    pose proof (names_out _ _ (H4 i Hi) INT) as Hr0. rewrite Forall_forall in Hr0.
    specialize (Hr0 s (elem_of_zip_l _ _ _ _ Hs)). unfold reg_ok in Hr0. lia. }
  split; [split|]; auto.
  - intros i Hi He. destruct (H2 i Hi He) as [Si Hf]. split; [done|]. intros Hu.
    apply (computed_kept rf); [by apply Hf|done|intros; by apply (Hins i)|intros k r q Hq Hign; by apply (Houts i k r q)].
  - intros i q Hi Si Hq. rewrite (like_opts _ _ Hlike) in Hq. pose proof (H6 i q Hi Si Hq) as Hv.
    destruct (decide (q = p)) as [->|Hne]; [done|]. rewrite <- Hv. apply (Hins i INT); [done|done|by eapply elem_of_zip_r].
  - intros _ q. rewrite (like_opts _ _ Hlike). fold z. rewrite Hp. by intros [= <-].
Qed.

(** ** Misspeculation *)

Lemma thread_clear rf ti tr L : thread_ok rf ti tr L -> thread_ok rf tr tr [].
Proof. split; [constructor|set_solver..]. Qed.
End thread.

(** ** The state a program sees *)

(** ** Tables that agree but for one entry *)

Definition agree (z : nat) (p p' : list Z) : Prop := length p = length p' /\ forall j, j <> z -> p !! j = p' !! j.

Lemma assign_agree z l l' p p' :
  Forall2 (fun a b : Z * Z => fst a = fst b /\ (snd a = snd b \/ Z.to_nat (fst a) = z)) l l' -> agree z p p' ->
  agree z (assign l p) (assign l' p').
Proof.
  intros Hl. revert p p'. induction Hl as [|[r v] [r' v'] l l' [Hr Hv] Hl IH]; intros p p' [Hp Hj]; [done|]. cbn in *. subst r'.
  apply IH. split; [by rewrite !length_insert|]. intros j Hne. destruct (decide (Z.to_nat r = j)) as [<-|Hrj].
  - destruct Hv as [<-|Hz]; [|done]. destruct (decide (Z.to_nat r < length p)%nat) as [Hlt|Hge].
    + by rewrite !list_lookup_insert_eq by lia.
    + by rewrite !list_insert_ge by lia; apply Hj.
  - rewrite !list_lookup_insert_ne by done. by apply Hj.
Qed.
Lemma agree_hidden z p p' v : agree z p p' -> <[z := v]> p = <[z := v]> p'.
Proof.
  intros [Hl Hj]. apply list_eq. intros j. destruct (decide (j = z)) as [->|Hne].
  - destruct (decide (z < length p)%nat) as [Hlt|Hge]; [by rewrite !list_lookup_insert_eq by lia|].
    rewrite !lookup_ge_None_2 by (rewrite length_insert; lia). done.
  - rewrite !list_lookup_insert_ne by done. auto.
Qed.
Lemma fmap_assign (f : Z -> Z) l p l' :
  f <$> assign (zip l p) l' = assign (zip l (f <$> p)) (f <$> l').
Proof.
  revert p l'. induction l as [|r l IH]; intros [|v p] l'; cbn; [done..|]. by rewrite IH, list_fmap_insert.
Qed.

(** ** Architectural registers *)

(** The zero register as a program sees it. *)
Definition hide (o : VanadisDecoderOptions) (k : kind) (l : list Z) : list Z :=
  match k with INT => <[Z.to_nat (reg_ignore_writes o) := 0]> l | FP => l end.
Definition arch (o : VanadisDecoderOptions) (tr : kind -> list Z) (rf : VanadisRegisterFile) (k : kind) : list Z :=
  hide o k (cell k rf <$> tr k).

Section sequential.
Variables (wrapv : bool) (host : fp_operation -> list Z -> Z).

(** The results [outs] of the operands [ins], by an execution of the instruction. *)
Definition computes (i : VanadisInstruction) (ins outs : kind -> list Z) : Prop :=
  exists cycle i0 rf0 rf1,
    erase i0 = erase i /\ execution wrapv cycle host i0 (mkExec i0 rf0) = Ok (tt, mkExec i rf1) /\
    (forall k, ins k = cell k rf0 <$> phys_in k i) /\ (forall k, outs k = cell k rf1 <$> phys_out k i).

(** What an instruction does to the architectural registers [V]. The results of the
    operations of the load-store queue are those of the memory. *)
Definition sequential (o : VanadisDecoderOptions) (i : VanadisInstruction) (V V' : kind -> list Z) : Prop :=
  exists ins outs : kind -> list Z,
    (forall k, Forall2 (fun r v => V k !! Z.to_nat r = Some v) (isa_in k i) (ins k)) /\
    (forall k, length (outs k) = length (isa_out k i)) /\
    (forall k, V' k = hide o k (assign (zip (isa_out k i) (outs k)) (V k))) /\
    (unit_type (getInstFuncType (class i)) = true -> computes i ins outs).

Lemma sequential_ext o i V V1 V' : (forall k, V1 k = V k) -> sequential o i V1 V' -> sequential o i V V'.
Proof.
  intros E (ins & outs & H1 & H2 & H3 & H4). exists ins, outs. split_and!; [|done| |done]; intros k; rewrite <- E; auto.
Qed.

(** The instructions [ran] have retired one after the other. *)
Inductive executes (o : VanadisDecoderOptions) : list VanadisInstruction -> (kind -> list Z) -> (kind -> list Z) -> Prop :=
| executes_nil V V' : (forall k, V' k = V k) -> executes o [] V V'
| executes_cons i ran V V1 V' : sequential o i V V1 -> executes o ran V1 V' -> executes o (i :: ran) V V'.

Lemma executes_ext o ran V V1 V' : (forall k, V1 k = V k) -> executes o ran V1 V' -> executes o ran V V'.
Proof.
  intros E He. destruct He as [V1 V' E'|i ran V1 V2 V' Hs He]; [constructor; intros k; by rewrite E', E|].
  eapply executes_cons; [by eapply sequential_ext|done].
Qed.
Lemma executes_app o ran ran' V V1 V' : executes o ran V V1 -> executes o ran' V1 V' -> executes o (ran ++ ran') V V'.
Proof.
  intros He Hi. induction He as [V V1 E|i0 ran V V2 V1 Hs He IH]; [by eapply executes_ext|].
  eapply executes_cons; [done|by apply IH].
Qed.
Lemma executes_one o i V V' : sequential o i V V' -> executes o [i] V V'.
Proof. intros Hs. by eapply executes_cons; [|constructor]. Qed.

Section commit.
Variables (n : kind -> nat) (rf : VanadisRegisterFile) (ti tr : kind -> list Z).
Variables (i : VanadisInstruction) (L : list VanadisInstruction).
Hypothesis H : thread_ok wrapv host n rf ti tr (i :: L).
Hypothesis Hs : hasIssued i = true.
Hypothesis Hz : 0 <= reg_ignore_writes (decoder_opts rf).
#[local] Abbreviation o := (decoder_opts rf).

Lemma arch_inputs k : Forall2 (fun r v => arch o tr rf k !! Z.to_nat r = Some v) (isa_in k i) (cell k rf <$> phys_in k i).
Proof.
  pose proof (th_inputs _ _ _ _ _ _ _ H i k ltac:(by left) Hs) as Hin. apply Forall2_fmap_r.
  apply Forall2_same_length_lookup. split; [by eapply Forall2_length|]. intros m r p Hr Hp.
  pose proof (Forall2_lookup_lr _ _ _ _ _ _ Hin Hr Hp) as Ht. cbn in Ht. unfold arch, hide. destruct k; cbn.
  - destruct (decide (Z.to_nat r = Z.to_nat (reg_ignore_writes o))) as [E|Hne].
    + assert (r = reg_ignore_writes o) as ->.
      { pose proof (names_in _ _ (th_names _ _ _ _ _ _ _ H i ltac:(by left)) INT) as Hn. rewrite Forall_forall in Hn.
        specialize (Hn r (list_elem_of_lookup_2 _ _ _ Hr)). unfold reg_ok in Hn. lia. }
      rewrite list_lookup_insert_eq by (rewrite length_fmap; by eapply lookup_lt_Some).
      pose proof (th_zero _ _ _ _ _ _ _ H i p ltac:(by left) Hs) as Hv. cbn. rewrite Hv; [done|].
      apply list_elem_of_lookup. exists m. by apply lookup_zip_Some.
    + rewrite list_lookup_insert_ne by done. by rewrite list_lookup_fmap, Ht.
  - by rewrite list_lookup_fmap, Ht.
Qed.

Lemma arch_outputs k tr' (outs : list Z) :
  tr' k = assign (zip (isa_out k i) (phys_out k i)) (tr k) -> length outs = length (isa_out k i) ->
  (forall m r p v, isa_out k i !! m = Some r -> phys_out k i !! m = Some p -> outs !! m = Some v ->
     ~ ignored rf k r -> v = cell k rf p) ->
  arch o tr' rf k = hide o k (assign (zip (isa_out k i) outs) (arch o tr rf k)).
Proof.
  intros Et Hlen Hv. unfold arch. rewrite Et, fmap_assign.
  pose proof (names_phys_out _ _ (th_names _ _ _ _ _ _ _ H i ltac:(by left)) k) as Hl.
  destruct k; cbn.
  - apply agree_hidden, assign_agree; [|split; [by rewrite length_insert|intros j Hne; by rewrite list_lookup_insert_ne]].
    apply Forall2_same_length_lookup. split; [rewrite !length_zip_with, length_fmap; cbn in *; lia|].
    intros m [r v] [r' v'] (Ha & Hb)%lookup_zip_Some (Hc & Hd)%lookup_zip_Some. cbn in *. simplify_eq. split; [done|].
    rewrite list_lookup_fmap in Hb. destruct (phys_int_regs_out i !! m) as [p|] eqn:Hp; [|done]. injection Hb as <-.
    destruct (decide (r = reg_ignore_writes o)) as [->|Hne]; [by right|left].
    symmetry. apply (Hv m r p v' Ha Hp Hd). intros [_ E]. done.
  - f_equal. f_equal. apply list_eq_same_length with (length outs); [done|cbn in *; rewrite ?length_fmap; lia|].
    intros m v v' Hm Ha Hb. rewrite list_lookup_fmap in Ha. destruct (phys_fp_regs_out i !! m) as [p|] eqn:Hp; [|done].
    injection Ha as <-. destruct (lookup_lt_is_Some_2 (isa_fp_regs_out i) m) as [r Hr]; [cbn in *; lia|].
    symmetry. apply (Hv m r p v' Hr Hp Hb). by intros [E _].
Qed.

Lemma commit_sequential tr' :
  hasExecuted i = true -> (forall k, tr' k = assign (zip (isa_out k i) (phys_out k i)) (tr k)) ->
  sequential o i (arch o tr rf) (arch o tr' rf).
Proof.
  intros Hx Ht. pose proof (names_phys_out _ _ (th_names _ _ _ _ _ _ _ H i ltac:(by left))) as Hl.
  destruct (th_executed _ _ _ _ _ _ _ H i ltac:(by left) Hx) as [_ Hf].
  destruct (unit_type (getInstFuncType (class i))) eqn:Hu.
  - destruct (Hf Hu) as (cycle & i0 & rf0 & rf1 & He & Hex & Hlike & Hin & Hout).
    exists (fun k => cell k rf0 <$> phys_in k i), (fun k => cell k rf1 <$> phys_out k i). split_and!.
    + intros k. replace (cell k rf0 <$> phys_in k i) with (cell k rf <$> phys_in k i); [apply arch_inputs|].
      apply list_fmap_ext. intros m p Hm. symmetry. apply Hin. by eapply list_elem_of_lookup_2.
    + intros k. by rewrite length_fmap.
    + intros k. apply arch_outputs; [done|by rewrite length_fmap|]. intros m r p v Hr Hp Hv Hn.
      rewrite list_lookup_fmap, Hp in Hv. injection Hv as <-. apply (Hout k r); [|done].
      apply list_elem_of_lookup. exists m. by apply lookup_zip_Some.
    + intros _. exists cycle, i0, rf0, rf1. done.
  - exists (fun k => cell k rf <$> phys_in k i), (fun k => cell k rf <$> phys_out k i). split_and!.
    + intros k. apply arch_inputs.
    + intros k. by rewrite length_fmap.
    + intros k. apply arch_outputs; [done|by rewrite length_fmap|]. intros m r p v Hr Hp Hv Hn.
      rewrite list_lookup_fmap, Hp in Hv. by injection Hv as <-.
    + by rewrite Hu.
Qed.
End commit.
End sequential.
