(* ===== verification/VanadisCore.v ===== *)
(** * VanadisCore: the invariant of the pipeline

    [core_ok G P c]: the reorder buffers of the core [c] hold the instructions [G] and
    its functional units the instructions [P]. Every physical register is free, in the
    retirement table of one thread, or an output of one issued instruction ([co_regs]),
    and every thread is as [VanadisOrder] says. [core_change] and [core_progress] say
    what keeps it: a step of one thread, and an execution.

    The last part has the contracts of the functions of [VanadisPipeline] that read and
    write one part of the core: threads, reorder buffers, instructions and the state of a
    renaming; and what the functions tell the decoders ([tells], [silent]). *)

From S2P Require Import Prelude VanadisRegs VanadisInst VanadisQueue VanadisRename VanadisFrame VanadisMem VanadisFree VanadisPipeline VanadisOrder.

(** ** Lists *)

Lemma join_cons {A} (x : list A) l : mjoin (x :: l) = x ++ mjoin l.
Proof. done. Qed.
Lemma join_insert_perm {A} (l : list (list A)) j x y :
  l !! j = Some x -> mjoin (<[j := y]> l) ++ x ≡ₚ mjoin l ++ y.
Proof.
  intros Hj. rewrite insert_take_drop by (by eapply lookup_lt_Some). rewrite <- (take_drop_middle l j x Hj) at 3.
  rewrite !join_app, !join_cons. solve_Permutation.
Qed.
Lemma join_lookup {A} (l : list (list A)) j x : l !! j = Some x -> exists r, mjoin l ≡ₚ x ++ r.
Proof.
  intros Hj. exists (mjoin (take j l) ++ mjoin (drop (S j) l)). rewrite <- (take_drop_middle l j x Hj) at 1.
  rewrite !join_app, !join_cons. solve_Permutation.
Qed.

(** ** What the reorder buffers hold *)

Abbreviation entry := (Z * VanadisInstruction)%type.
Definition nregs (o : VanadisDecoderOptions) (k : kind) : nat :=
  Z.to_nat match k with INT => isa_int_reg_count o | FP => isa_fp_reg_count o end.

(** The physical registers of a thread. *)
Definition retained (k : kind) (t : thread) (l : list entry) : list Z := ptr k (t_retire t) ++ in_flight k l.*2.
Definition kept (k : kind) (ts : list thread) (G : list (list entry)) : list Z := mjoin (zip_with (retained k) ts G).

(** Instructions as they were decoded: without what issue and execution add to them. *)
Definition skeleton (i : VanadisInstruction) : VanadisInstruction := (unphys (erase i)) <| hasIssued := false |>.
Definition code_of (l : list entry) : list VanadisInstruction := skeleton <$> l.*2.
Definition code (G : list (list entry)) : list (list VanadisInstruction) := code_of <$> G.
Lemma skeleton_erase i i' : erase i' = erase i -> skeleton i' = skeleton i.
Proof. unfold skeleton. by intros ->. Qed.
Lemma code_length G G' : code G' = code G -> length G' = length G.
Proof. intros E. apply (f_equal length) in E. unfold code in E. by rewrite !length_fmap in E. Qed.
Lemma code_insert G j l l' : G !! j = Some l -> code_of l' = code_of l -> code (<[j := l']> G) = code G.
Proof. intros Hl E. unfold code. rewrite list_fmap_insert, E. apply list_insert_id. by rewrite list_lookup_fmap, Hl. Qed.
Lemma code_replaced la lb id i i' : skeleton i' = skeleton i -> code_of (la ++ (id, i') :: lb) = code_of (la ++ (id, i) :: lb).
Proof. intros E. unfold code_of. rewrite !fmap_app. cbn. by rewrite E. Qed.

(** An instruction has issued and not been executed. *)
Definition waiting (G : list (list entry)) (what : VanadisInstruction -> Prop) (id : Z) : Prop :=
  exists l i, l ∈ G /\ (id, i) ∈ l /\ hasIssued i = true /\ hasExecuted i = false /\ what i.
Definition of_unit (i : VanadisInstruction) : Prop := unit_type (getInstFuncType (class i)) = true.
Definition of_memory (i : VanadisInstruction) : Prop := is_memory i = true.

(** What a decoder may make. *)
Record ins_ok (j : nat) (i : VanadisInstruction) : Prop := {
  io_thread : hw_thread i = Z.of_nat j;
  io_syscall : is_syscall i = false;
  io_operands : of_unit i \/ of_memory i -> operands_ok i;
  io_quiet : of_unit i -> quiet (class i) = true }.

Lemma entry_replaced (la lb : list entry) id i i' id0 i0 :
  NoDup (la ++ (id, i) :: lb).*1 -> (id0, i0) ∈ la ++ (id, i') :: lb ->
  (id0 = id /\ i0 = i') \/ ((id0, i0) ∈ la ++ (id, i) :: lb /\ id0 <> id).
Proof.
  intros Hn Hin. assert (Hin' : (id0, i0) = (id, i') \/ (id0, i0) ∈ la ++ lb) by set_solver.
  destruct Hin' as [[= -> ->]|Hin']; [by left|right]. split; [set_solver|]. intros ->.
  rewrite fmap_app, fmap_cons, <- Permutation_middle in Hn. apply NoDup_cons in Hn as [Hn _]. apply Hn.
  rewrite <- fmap_app. apply (list_elem_of_fmap_2 fst _ _ Hin').
Qed.

Section core.
Context {Q : Type} `{LoadStoreQueueLaws Q}.
Variables (wrapv : bool) (host : fp_operation -> list Z -> Z) (nphys : kind -> Z).

Definition the_stack (k : kind) (c : core Q) : VanadisRegisterStack :=
  match k with INT => int_stack c | FP => fp_stack c end.
Definition the_memory (c : core Q) : memory Q := mkMemory (heap c) (register_files c) (lsq c).

Definition issue_ptr (t : thread) (k : kind) : list Z := ptr k (t_issue t).
Definition retire_ptr (t : thread) (k : kind) : list Z := ptr k (t_retire t).

Record view_ok (h : gmap Z VanadisInstruction) (next : Z) (j : nat) (t : thread) (rf : VanadisRegisterFile)
    (l : list entry) : Prop := {
  vw_rob : holds (t_rob t) l.*1;
  vw_issue : table_ok (nregs (t_options t)) (t_issue t);
  vw_retire : table_ok (nregs (t_options t)) (t_retire t);
  vw_temps : temps_ok (nregs (t_options t)) (t_temps t);
  vw_counts : 0 <= isa_int_reg_count (t_options t) /\ 0 <= isa_fp_reg_count (t_options t);
  vw_zero : 0 <= reg_ignore_writes (t_options t);
  vw_file : file_wf rf;
  vw_opts : decoder_opts rf = t_options t;
  vw_thread : thread_ok wrapv host (nregs (t_options t)) rf (issue_ptr t) (retire_ptr t) l.*2;
  vw_ins : Forall (ins_ok j) l.*2;
  vw_heap id i : (id, i) ∈ l -> h !! id = Some i /\ id < next }.

Definition turn_ok (c : core Q) : Prop :=
  0 <= m_curIssueHwThread c < hw_threads c /\ 0 <= m_curRetireHwThread c < hw_threads c.
Definition same_turn (c c' : core Q) : Prop :=
  m_curIssueHwThread c' = m_curIssueHwThread c /\ m_curRetireHwThread c' = m_curRetireHwThread c.

Record core_ok (G : list (list entry)) (P : list Z) (c : core Q) : Prop := {
  co_threads : length (threads c) = length G;
  co_files : length (register_files c) = length G;
  co_view j t rf l : threads c !! j = Some t -> register_files c !! j = Some rf -> G !! j = Some l ->
    view_ok (heap c) (next_ins c) j t rf l;
  co_ids : NoDup (mjoin G).*1;
  co_stack k : stack_ok (nphys k) (the_stack k c);
  co_bottom k : hd_error (free (the_stack k c)) = Some 0;
  co_regs k : free (the_stack k c) ++ kept k (threads c) G ≡ₚ seqZ 0 (nphys k);
  co_units : NoDup P;
  co_unit id : id ∈ P -> waiting G of_unit id;
  co_queued : NoDup (lsq_ids (lsq c));
  co_queue id : id ∈ lsq_ids (lsq c) -> waiting G of_memory id;
  co_inv : lsq_inv (the_memory c);
  co_turn : turn_ok c }.

(** The data of one thread. *)
Record at_thread (G : list (list entry)) (c : core Q) (j : nat) (t : thread) (rf : VanadisRegisterFile) (l : list entry) : Prop := {
  ath_thread : threads c !! j = Some t;
  ath_file : register_files c !! j = Some rf;
  ath_rob : G !! j = Some l }.

Section facts.
Variables (G : list (list entry)) (P : list Z) (c : core Q).
Hypothesis Hc : core_ok G P c.

Lemma view_at j t rf l : at_thread G c j t rf l -> view_ok (heap c) (next_ins c) j t rf l.
Proof. intros [H1 H2 H3]. by apply (co_view _ _ _ Hc). Qed.

Lemma thread_exists j : (j < length G)%nat -> exists t rf l, at_thread G c j t rf l.
Proof.
  intros Hj. destruct (lookup_lt_is_Some_2 (threads c) j) as [t Ht]; [by rewrite (co_threads _ _ _ Hc)|].
  destruct (lookup_lt_is_Some_2 (register_files c) j) as [rf Hf]; [by rewrite (co_files _ _ _ Hc)|].
  destruct (lookup_lt_is_Some_2 G j) as [l Hl]; [done|]. by exists t, rf, l.
Qed.
Lemma thread_of_ids l : l ∈ G -> exists j t rf, at_thread G c j t rf l.
Proof.
  intros [j Hj]%list_elem_of_lookup. destruct (thread_exists j) as (t & rf & l' & [H1 H2 H3]); [by eapply lookup_lt_Some|].
  exists j, t, rf. simplify_eq. by split.
Qed.

(** An identifier names one instruction of one thread. *)
Lemma id_once l l' id i i' : l ∈ G -> l' ∈ G -> (id, i) ∈ l -> (id, i') ∈ l' -> i = i' .
Proof.
  intros Hl Hl' Hi Hi'. destruct (thread_of_ids l Hl) as (j & t & rf & V%view_at), (thread_of_ids l' Hl') as (j' & t' & rf' & V'%view_at).
  destruct (vw_heap _ _ _ _ _ _ V id i Hi) as [E _], (vw_heap _ _ _ _ _ _ V' id i' Hi') as [E' _]. congruence.
Qed.
Lemma id_thread j j' l l' id : G !! j = Some l -> G !! j' = Some l' -> id ∈ l.*1 -> id ∈ l'.*1 -> j = j'.
Proof.
  intros Hl Hl' Hi Hi'. destruct (decide (j = j')) as [|Hne]; [done|]. exfalso.
  pose proof (co_ids _ _ _ Hc) as Hn. destruct (join_lookup (<[j := []]> G) j' l') as [r Hr].
  { by rewrite list_lookup_insert_ne. }
  pose proof (join_insert_perm G j l [] Hl) as Hp. rewrite app_nil_r in Hp. rewrite <- Hp in Hn.
  rewrite fmap_app, Hr, fmap_app in Hn. apply NoDup_app in Hn as (_ & Hd & _). apply (Hd id); [|done]. set_solver.
Qed.
Lemma ids_nodup j l : G !! j = Some l -> NoDup l.*1.
Proof.
  intros Hl. pose proof (co_ids _ _ _ Hc) as Hn. destruct (join_lookup G j l Hl) as [r Hr]. rewrite Hr, fmap_app in Hn.
  by apply NoDup_app in Hn as (Hn & _).
Qed.

Lemma retained_perm k j t l :
  threads c !! j = Some t -> G !! j = Some l -> exists r, free (the_stack k c) ++ retained k t l ++ r ≡ₚ seqZ 0 (nphys k).
Proof.
  intros Ht Hl. destruct (join_lookup (zip_with (retained k) (threads c) G) j (retained k t l)) as [r Hr].
  { rewrite lookup_zip_with, Ht. cbn. by rewrite Hl. }
  exists r. rewrite <- (co_regs _ _ _ Hc k). unfold kept. by rewrite Hr.
Qed.
Lemma thread_separate j t l : threads c !! j = Some t -> G !! j = Some l -> separate (retire_ptr t) l.*2.
Proof.
  intros Ht Hl k. destruct (retained_perm k j t l Ht Hl) as [r Hr]. split.
  - assert (Hn : NoDup (free (the_stack k c) ++ retained k t l ++ r)) by (rewrite Hr; apply NoDup_seqZ).
    apply NoDup_app in Hn as (_ & _ & Hn). by apply NoDup_app in Hn as (Hn & _).
  - apply Forall_forall. intros p Hp. assert (Hin : p ∈ seqZ 0 (nphys k)) by (rewrite <- Hr; unfold retained; set_solver).
    apply elem_of_seqZ in Hin. lia.
Qed.
Lemma free_room k j t l : threads c !! j = Some t -> G !! j = Some l ->
  Z.of_nat (length (free (the_stack k c)) + length (retained k t l)) <= nphys k.
Proof.
  intros Ht Hl. destruct (retained_perm k j t l Ht Hl) as [r Hr]. apply Permutation_length in Hr.
  rewrite !length_app, length_seqZ in Hr. pose proof (co_stack _ _ _ Hc k) as [_ Hb]. lia.
Qed.
End facts.

(** ** A step of one thread *)

(** An instruction of a list that has issued and not been executed. *)
Definition waits_in (l : list entry) (what : VanadisInstruction -> Prop) (id : Z) : Prop :=
  exists i, (id, i) ∈ l /\ hasIssued i = true /\ hasExecuted i = false /\ what i.

Lemma waiting_where G P c j t rf l what id :
  core_ok G P c -> at_thread G c j t rf l -> waiting G what id -> id ∉ l.*1 \/ waits_in l what id.
Proof.
  intros Hc [Ht Hf Hl] (l0 & i & Hl0 & Hi & Hw). destruct (decide (id ∈ l.*1)) as [Hin|]; [right|by left].
  apply list_elem_of_lookup in Hl0 as [j0 Hj0]. exists i. split; [|done].
  assert (j = j0) as <- by (apply (id_thread _ _ _ Hc j j0 l l0 id); [done..|exact (list_elem_of_fmap_2 fst _ _ Hi)]).
  by simplify_eq.
Qed.

Record thread_step (P : list Z) (c : core Q) (j : nat) (t : thread) (l : list entry)
    (P' : list Z) (c' : core Q) (t' : thread) (rf' : VanadisRegisterFile) (l' : list entry) : Prop := {
  ts_threads : threads c' = <[j := t']> (threads c);
  ts_files : register_files c' = <[j := rf']> (register_files c);
  ts_next : next_ins c <= next_ins c';
  ts_heap id : id < next_ins c -> id ∉ l.*1 -> heap c' !! id = heap c !! id;
  ts_view : view_ok (heap c') (next_ins c') j t' rf' l';
  ts_nodup : NoDup l'.*1;
  ts_ids id : id ∈ l'.*1 -> id ∈ l.*1 \/ next_ins c <= id;
  ts_stack k : stack_ok (nphys k) (the_stack k c');
  ts_bottom k : hd_error (free (the_stack k c')) = Some 0;
  ts_regs k : free (the_stack k c') ++ retained k t' l' ≡ₚ free (the_stack k c) ++ retained k t l;
  ts_units : NoDup P';
  ts_unit id : id ∈ P' -> (id ∈ P /\ id ∉ l.*1) \/ waits_in l' of_unit id;
  ts_queued : NoDup (lsq_ids (lsq c'));
  ts_queue id : id ∈ lsq_ids (lsq c') -> (id ∈ lsq_ids (lsq c) /\ id ∉ l.*1) \/ waits_in l' of_memory id;
  ts_inv : lsq_inv (the_memory c');
  ts_turn : same_turn c c' }.

Lemma waiting_change G j l l' what id :
  G !! j = Some l -> (waiting G what id /\ id ∉ l.*1) \/ waits_in l' what id -> waiting (<[j := l']> G) what id.
Proof.
  intros Hl [[(l0 & i & Hl0 & Hi & Hw) Hn]|(i & Hi & Hw)].
  - apply list_elem_of_lookup in Hl0 as [j0 Hj0]. exists l0, i. split_and!; [|done|apply Hw..].
    apply list_elem_of_lookup. exists j0. rewrite list_lookup_insert_ne; [done|]. intros <-. simplify_eq.
    apply Hn. apply list_elem_of_fmap. by exists (id, i).
  - exists l', i. split_and!; [|done|apply Hw..]. apply list_elem_of_lookup. exists j.
    apply list_lookup_insert_eq. by eapply lookup_lt_Some.
Qed.

Lemma core_change G P c j t rf l P' c' t' rf' l' :
  core_ok G P c -> at_thread G c j t rf l -> thread_step P c j t l P' c' t' rf' l' -> core_ok (<[j := l']> G) P' c'.
Proof.
  intros Hc [Ht Hf Hl] [T1 T2 T3 T4 T5 T6 T7 T8 T9 T10 T11 T12 T13 T14 T15 [T16 T17]]. pose proof (lookup_lt_Some _ _ _ Hl) as Hj. split.
  - by rewrite T1, !length_insert, (co_threads _ _ _ Hc).
  - by rewrite T2, !length_insert, (co_files _ _ _ Hc).
  - intros j0 t0 rf0 l0. rewrite T1, T2.
    destruct (decide (j0 = j)) as [->|Hne].
    + rewrite !list_lookup_insert_eq by (rewrite ?(co_threads _ _ _ Hc), ?(co_files _ _ _ Hc); done).
      intros [= <-] [= <-] [= <-]. apply T5.
    + rewrite !list_lookup_insert_ne by done. intros Ht0 Hf0 Hl0.
      pose proof (co_view _ _ _ Hc j0 t0 rf0 l0 Ht0 Hf0 Hl0) as [V1 V2 V3 V4 V5 V6 V7 V8 V9 V10 V11]. split; try done.
      intros id i Hi. destruct (V11 id i Hi) as [E Hlt]. pose proof T3. split; [|lia].
      rewrite T4; [done|done|]. intros Hin. apply Hne.
      apply (id_thread _ _ _ Hc j0 j l0 l id); [done|done| |done]. apply list_elem_of_fmap. by exists (id, i).
  - pose proof (co_ids _ _ _ Hc) as Hn. pose proof (join_insert_perm G j l l' Hl) as Hp.
    destruct (join_lookup G j l Hl) as [r Hr].
    assert (Hp' : mjoin (<[j := l']> G) ≡ₚ l' ++ r).
    { apply (Permutation_app_inv_r l). rewrite Hp, Hr. solve_Permutation. }
    rewrite Hp', fmap_app. rewrite Hr, fmap_app in Hn. apply NoDup_app in Hn as (_ & Hd & Hn).
    apply NoDup_app. split_and!; [apply T6| |done].
    intros id Hid Hidr. destruct (T7 id Hid) as [Hin|Hge]; [by eapply Hd|].
    apply list_elem_of_fmap in Hidr as ([id' i] & -> & Hi). cbn in *.
    assert (Hi' : (id', i) ∈ mjoin G) by (rewrite Hr; set_solver).
    apply list_elem_of_join in Hi' as (l0 & Hi' & Hl0).
    destruct (thread_of_ids _ _ _ Hc l0 Hl0) as (j0 & t0 & rf0 & V%(view_at _ _ _ Hc)).
    destruct (vw_heap _ _ _ _ _ _ V id' i Hi') as [_ Hlt]. lia.
  - apply T8.
  - apply T9.
  - intros k. rewrite <- (co_regs _ _ _ Hc k). unfold kept. rewrite T1.
    rewrite <- insert_zip_with.
    assert (Hz : zip_with (retained k) (threads c) G !! j = Some (retained k t l)).
    { rewrite lookup_zip_with, Ht. cbn. by rewrite Hl. }
    pose proof (join_insert_perm _ j _ (retained k t' l') Hz) as Hp.
    apply (Permutation_app_inv_r (retained k t l)). rewrite <- (assoc_L (++)), Hp.
    pose proof (T10 k) as Hr.
    transitivity (mjoin (zip_with (retained k) (threads c) G) ++ (free (the_stack k c') ++ retained k t' l')); [solve_Permutation|].
    rewrite Hr. solve_Permutation.
  - apply T11.
  - intros id Hid. apply (waiting_change _ _ _ _ _ _ Hl).
    destruct (T12 id Hid) as [[Hin Hn]|Hw]; [left|by right]. split; [by apply (co_unit _ _ _ Hc)|done].
  - apply T13.
  - intros id Hid. apply (waiting_change _ _ _ _ _ _ Hl).
    destruct (T14 id Hid) as [[Hin Hn]|Hw]; [left|by right]. split; [by apply (co_queue _ _ _ Hc)|done].
  - apply T15.
  - pose proof (co_turn _ _ _ Hc) as Hturn. unfold turn_ok, hw_threads in *. by rewrite T1, length_insert, T16, T17.
Qed.

Lemma at_thread_once G c j t rf l t0 rf0 l0 :
  at_thread G c j t rf l -> at_thread G c j t0 rf0 l0 -> t0 = t /\ rf0 = rf /\ l0 = l.
Proof. intros [H1 H2 H3] [E1 E2 E3]. rewrite H1 in E1. rewrite H2 in E2. rewrite H3 in E3. by simplify_eq. Qed.

(** The fields the invariant says nothing about, and the turns. *)
Lemma core_turns G P c c' :
  core_ok G P c -> heap c' = heap c -> next_ins c' = next_ins c -> threads c' = threads c ->
  register_files c' = register_files c -> int_stack c' = int_stack c -> fp_stack c' = fp_stack c -> lsq c' = lsq c ->
  turn_ok c' -> core_ok G P c'.
Proof.
  intros [C1 C2 C3 C4 C5 C6 C7 C8 C9 C10 C11 C12 C13] E1 E2 E3 E4 E5 E6 E7 Ht.
  assert (Hs : forall k, the_stack k c' = the_stack k c) by (intros []; done).
  split; unfold the_memory in *; rewrite ?E1, ?E2, ?E3, ?E4, ?E7; try done; intros k; rewrite ?Hs; auto.
Qed.

Lemma core_perm G P P' c : P ≡ₚ P' -> core_ok G P c -> core_ok G P' c.
Proof.
  intros Hp [C1 C2 C3 C4 C5 C6 C7 C8 C9 C10 C11 C12 C13]. split; try done; [by rewrite <- Hp|].
  intros id. rewrite <- Hp. apply C9.
Qed.

(** The instructions [G] of a step that changes none of them. *)
Lemma step_units G P c j t rf l : core_ok G P c -> at_thread G c j t rf l ->
  forall id, id ∈ P -> (id ∈ P /\ id ∉ l.*1) \/ waits_in l of_unit id.
Proof.
  intros Hc Hat id Hid. destruct (waiting_where _ _ _ _ _ _ _ _ _ Hc Hat (co_unit _ _ _ Hc id Hid)) as [|]; auto.
Qed.
Lemma step_queue G P c j t rf l : core_ok G P c -> at_thread G c j t rf l ->
  forall id, id ∈ lsq_ids (lsq c) -> (id ∈ lsq_ids (lsq c) /\ id ∉ l.*1) \/ waits_in l of_memory id.
Proof.
  intros Hc Hat id Hid. destruct (waiting_where _ _ _ _ _ _ _ _ _ Hc Hat (co_queue _ _ _ Hc id Hid)) as [|]; auto.
Qed.

(** A change of the other fields of a thread. *)
Lemma core_same_thread G P c j t rf l t' :
  core_ok G P c -> at_thread G c j t rf l ->
  t_rob t' = t_rob t -> t_options t' = t_options t -> t_issue t' = t_issue t -> t_retire t' = t_retire t ->
  temps_ok (nregs (t_options t)) (t_temps t') ->
  core_ok G P (c <| threads := <[j := t']> (threads c) |>) /\
  at_thread G (c <| threads := <[j := t']> (threads c) |>) j t' rf l.
Proof.
  intros Hc Hat E1 E2 E3 E4 Ht. pose proof Hat as [H1 H2 H3]. pose proof (view_at _ _ _ Hc _ _ _ _ Hat) as [].
  split; [|split; [by apply list_lookup_insert_eq, lookup_lt_Some with t|done|done]].
  rewrite <- (list_insert_id G j l) by done. eapply core_change; [exact Hc|exact Hat|]. split; cbn.
  - reflexivity.
  - symmetry. by apply list_insert_id.
  - lia.
  - done.
  - split; unfold issue_ptr, retire_ptr; rewrite ?E1, ?E2, ?E3, ?E4; try done.
  - eapply ids_nodup; [exact Hc|exact H3].
  - by left.
  - intros k. pose proof (co_stack _ _ _ Hc k). by destruct k.
  - intros k. pose proof (co_bottom _ _ _ Hc k). by destruct k.
  - intros k. unfold retained. rewrite E4. by destruct k.
  - apply (co_units _ _ _ Hc).
  - by eapply step_units.
  - apply (co_queued _ _ _ Hc).
  - by eapply step_queue.
  - apply (co_inv _ _ _ Hc).
  - done.
Qed.

(** ** What a program sees *)

(** The architectural registers of every thread are what they were. *)
Definition still (c c' : core Q) : Prop := forall j t rf,
  threads c !! j = Some t -> register_files c !! j = Some rf -> exists t' rf',
    threads c' !! j = Some t' /\ register_files c' !! j = Some rf' /\ decoder_opts rf' = decoder_opts rf /\
    forall k, arch (decoder_opts rf) (retire_ptr t') rf' k = arch (decoder_opts rf) (retire_ptr t) rf k.
#[export] Instance still_preorder : PreOrder still.
Proof.
  split; [intros c j t rf Ht Hf; by exists t, rf|]. intros c c1 c' H1 H2 j t rf Ht Hf.
  destruct (H1 j t rf Ht Hf) as (t1 & rf1 & Ht1 & Hf1 & Ho1 & E1). destruct (H2 j t1 rf1 Ht1 Hf1) as (t2 & rf2 & Ht2 & Hf2 & Ho2 & E2).
  exists t2, rf2. split_and!; [done|done|congruence|]. intros k. by rewrite <- E1, <- Ho1, E2.
Qed.

Lemma still_same c c' : threads c' = threads c -> register_files c' = register_files c -> still c c'.
Proof. intros Et Ef j t rf Ht Hf. exists t, rf. by rewrite Et, Ef. Qed.
Lemma still_thread c c' j t t' :
  threads c !! j = Some t -> threads c' = <[j := t']> (threads c) -> register_files c' = register_files c -> t_retire t' = t_retire t ->
  still c c'.
Proof.
  intros Hj Et Ef Er j0 t0 rf Ht Hf. rewrite Et, Ef. destruct (decide (j0 = j)) as [->|Hne].
  - simplify_eq. exists t', rf. rewrite list_lookup_insert_eq by (by eapply lookup_lt_Some). split_and!; [done..|].
    intros k. unfold retire_ptr. by rewrite Er.
  - exists t0, rf. by rewrite list_lookup_insert_ne.
Qed.

(** ** Progress of the instructions *)

(** The same buffers, with the instructions of a later heap. *)
Definition advance_entry (h : gmap Z VanadisInstruction) (e : entry) : entry := (e.1, default e.2 (h !! e.1)).
Definition advance (h : gmap Z VanadisInstruction) (G : list (list entry)) : list (list entry) :=
  (fun l : list entry => advance_entry h <$> l) <$> G.

Lemma advance_ids h l : (advance_entry h <$> l).*1 = l.*1.
Proof. rewrite <- list_fmap_compose. by apply list_fmap_ext. Qed.
Lemma zip_with_mapped {A B C} (f : A -> B -> C) (g : B -> B) l l' :
  (forall x y, y ∈ l' -> f x (g y) = f x y) -> zip_with f l (g <$> l') = zip_with f l l'.
Proof.
  revert l. induction l' as [|y l' IH]; intros [|x l] Hg; [done..|]. cbn. rewrite Hg by (by left). f_equal.
  apply IH. intros x' y' Hy. apply Hg. by right.
Qed.

Section progress.
Variables (G : list (list entry)) (P : list Z) (c c' : core Q) (ids P' : list Z).
Hypothesis Hc : core_ok G P c.
Hypothesis Hids : forall id, id ∈ ids -> waiting G (fun _ => True) id.
Hypothesis Hp : progressed ids (heap c) (heap c') (register_files c) (register_files c').
Hypothesis Hdone : forall id i' rf', id ∈ ids -> heap c' !! id = Some i' -> hasExecuted i' = true -> of_unit i' ->
  register_files c' !! Z.to_nat (hw_thread i') = Some rf' -> computed wrapv host rf' i'.

Lemma entry_advance j t rf l id i : at_thread G c j t rf l -> (id, i) ∈ l ->
  exists i', heap c' !! id = Some i' /\ advance_entry (heap c') (id, i) = (id, i') /\ erase i' = erase i /\
    (id ∉ ids -> i' = i) /\ (hasExecuted i = true -> i' = i) /\ (id ∈ ids -> hasIssued i = true /\ hasExecuted i = false).
Proof.
  intros Hat Hi. pose proof (view_at _ _ _ Hc _ _ _ _ Hat) as V. destruct (vw_heap _ _ _ _ _ _ V id i Hi) as [E _].
  destruct (pg_ins _ _ _ _ _ Hp id i E) as (i' & E' & He & Hn). exists i'.
  assert (Hw : id ∈ ids -> hasIssued i = true /\ hasExecuted i = false).
  { intros (l0 & i0 & Hl0 & Hi0 & Hs0 & Hx0 & _)%Hids.
    pose proof (id_once _ _ _ Hc l l0 id i i0 (list_elem_of_lookup_2 _ _ _ (ath_rob _ _ _ _ _ _ Hat)) Hl0 Hi Hi0) as <-. done. }
  split_and!; [done| |done|done| |done].
  - unfold advance_entry. cbn. by rewrite E'.
  - intros Hx. apply Hn. intros Hin. destruct (Hw Hin). congruence.
Qed.

Lemma advanced_entries j t rf l rf' : at_thread G c j t rf l -> register_files c' !! j = Some rf' ->
  Forall2 (advanced wrapv host rf') l.*2 (advance_entry (heap c') <$> l).*2.
Proof.
  intros Hat Hf. pose proof (view_at _ _ _ Hc _ _ _ _ Hat) as V. rewrite <- list_fmap_compose.
  apply Forall2_fmap, Forall_Forall2_diag, Forall_forall. intros [id i] Hi. cbn [snd compose].
  destruct (entry_advance j t rf l id i Hat Hi) as (i' & E' & Ea & He & Hn & Hx & Hw). rewrite Ea. cbn [snd].
  split; [done|done|]. intros Hx0 Hx1.
  assert (Hin : id ∈ ids) by (destruct (decide (id ∈ ids)) as [|Hni]; [done|]; rewrite (Hn Hni) in Hx1; congruence).
  split; [by apply Hw|]. intros Hu. apply (Hdone id); [done..|].
  pose proof (vw_ins _ _ _ _ _ _ V) as Hio. rewrite Forall_forall in Hio.
  rewrite (erase_thread _ _ He), (io_thread _ _ (Hio i (list_elem_of_fmap_2 snd _ _ Hi))). by rewrite Nat2Z.id.
Qed.

Lemma untouched_kept j t rf l rf' : at_thread G c j t rf l -> register_files c' !! j = Some rf' ->
  file_like rf rf' /\ forall k p, 0 <= p -> ~ touched l.*2 k p -> cell k rf' p = cell k rf p.
Proof.
  intros Hat Hf. destruct (pg_file _ _ _ _ _ Hp j rf (ath_file _ _ _ _ _ _ Hat)) as (rf1 & E & Hl & Hcell).
  rewrite Hf in E. injection E as <-. split; [done|]. intros k p Hp0 Hn. apply Hcell; [done|].
  intros id i Hid Hi Hj Ho. destruct (Hids id Hid) as (l0 & i0 & Hl0 & Hi0 & Hs0 & Hx0 & _).
  destruct (thread_of_ids _ _ _ Hc l0 Hl0) as (j0 & t0 & rf0 & Hat0). pose proof (view_at _ _ _ Hc _ _ _ _ Hat0) as V.
  destruct (vw_heap _ _ _ _ _ _ V id i0 Hi0) as [E0 _]. rewrite Hi in E0. injection E0 as <-.
  pose proof (vw_ins _ _ _ _ _ _ V) as Hio. rewrite Forall_forall in Hio.
  rewrite (io_thread _ _ (Hio i (list_elem_of_fmap_2 snd _ _ Hi0))), Nat2Z.id in Hj. subst j0.
  pose proof (ath_rob _ _ _ _ _ _ Hat) as Hl1. rewrite (ath_rob _ _ _ _ _ _ Hat0) in Hl1. injection Hl1 as <-.
  apply Hn. exists i. split; [|done]. exact (list_elem_of_fmap_2 snd _ _ Hi0).
Qed.

Lemma ins_ok_erase j i i' : erase i' = erase i -> ins_ok j i -> ins_ok j i'.
Proof.
  intros E [I1 I2 I3 I4]. unfold of_unit, of_memory, is_memory, is_syscall in *.
  split; unfold of_unit, of_memory, is_memory, is_syscall; rewrite ?(erase_thread _ _ E), ?(erase_class _ _ E); try done.
  intros Hu. destruct (I3 Hu) as [O1 O2 O3 O4 O5].
  split; intros; rewrite ?(erase_isa_in _ _ E), ?(erase_isa_out _ _ E), ?(erase_phys_in _ _ E), ?(erase_phys_out _ _ E),
    ?(erase_class _ _ E), ?(erase_options _ _ E) in *; auto. apply (erase_speculated _ _ E). auto.
Qed.

Lemma view_progress j t rf l rf' : at_thread G c j t rf l -> register_files c' !! j = Some rf' ->
  view_ok (heap c') (next_ins c) j t rf' (advance_entry (heap c') <$> l).
Proof.
  intros Hat Hf. pose proof (view_at _ _ _ Hc _ _ _ _ Hat) as [V1 V2 V3 V4 V5 V6 V7 V8 V9 V10 V11].
  destruct (untouched_kept _ _ _ _ _ Hat Hf) as [Hlike Hcell]. pose proof (advanced_entries _ _ _ _ _ Hat Hf) as Hadv.
  split; [by rewrite advance_ids|done..| | | | |].
  - by apply (like_wf _ _ Hlike).
  - by rewrite (like_opts _ _ Hlike).
  - eapply thread_advance; [exact V9|eapply thread_separate; [exact Hc|apply Hat..]|done..].
  - apply Forall_forall. intros i' Hi'. destruct (advanced_from _ _ _ _ _ Hadv i' Hi') as (i & Hi & [E _ _]).
    rewrite Forall_forall in V10. by eapply ins_ok_erase, V10.
  - intros id i' Hi'. apply list_elem_of_fmap in Hi' as ([id0 i] & Ei & Hi).
    destruct (entry_advance j t rf l id0 i Hat Hi) as (i1 & E1 & Ea & _). rewrite Ea in Ei. injection Ei as -> ->.
    split; [done|]. apply (V11 id0 i Hi).
Qed.

Lemma waiting_progress what id :
  (forall i i', erase i' = erase i -> what i -> what i') -> waiting G what id ->
  (forall i', heap c' !! id = Some i' -> hasExecuted i' = false) -> waiting (advance (heap c') G) what id.
Proof.
  intros Hw (l & i & Hl & Hi & Hs & Hx & Hwi) Hu. destruct (thread_of_ids _ _ _ Hc l Hl) as (j & t & rf & Hat).
  destruct (entry_advance j t rf l id i Hat Hi) as (i' & E' & Ea & He & _).
  exists (advance_entry (heap c') <$> l), i'. split_and!.
  - by apply (list_elem_of_fmap_2 (fun l : list entry => advance_entry (heap c') <$> l)).
  - rewrite <- Ea. by apply list_elem_of_fmap_2.
  - by rewrite (erase_issued _ _ He).
  - by apply Hu.
  - by eapply Hw.
Qed.

Lemma advance_kept k ts : length ts = length G -> threads c = ts -> kept k ts (advance (heap c') G) = kept k ts G.
Proof.
  intros _ <-. unfold kept, advance. f_equal. apply zip_with_mapped. intros t l Hl. unfold retained. f_equal.
  destruct (thread_of_ids _ _ _ Hc l Hl) as (j & t0 & rf & Hat).
  destruct (lookup_lt_is_Some_2 (register_files c') j) as [rf' Hf].
  { rewrite (pg_length _ _ _ _ _ Hp). eapply lookup_lt_Some, (ath_file _ _ _ _ _ _ Hat). }
  by apply (advanced_in_flight _ _ _ _ _ (advanced_entries _ _ _ _ _ Hat Hf)).
Qed.
Lemma advance_mjoin_ids : (mjoin (advance (heap c') G)).*1 = (mjoin G).*1.
Proof.
  clear. induction G as [|l G' IH]; [done|]. unfold advance in *. cbn [fmap list_fmap]. rewrite !join_cons, !fmap_app, IH.
  f_equal. apply advance_ids.
Qed.

Lemma advance_code : code (advance (heap c') G) = code G.
Proof.
  clear Hdone. unfold code, advance. rewrite <- list_fmap_compose. apply list_fmap_ext. intros j l Hl.
  destruct (thread_of_ids _ _ _ Hc l) as (j0 & t & rf & Hat); [by eapply list_elem_of_lookup_2|].
  unfold code_of, compose. rewrite <- !list_fmap_compose. apply list_fmap_ext. intros m [id i] Hm. cbn.
  destruct (entry_advance j0 t rf l id i Hat) as (i' & _ & Ea & E & _); [by eapply list_elem_of_lookup_2|].
  unfold advance_entry in Ea. cbn in Ea. injection Ea as ->. by apply skeleton_erase.
Qed.

Lemma core_progress :
  threads c' = threads c -> next_ins c' = next_ins c -> (forall k, the_stack k c' = the_stack k c) ->
  NoDup P' -> (forall id, id ∈ P' -> id ∈ P /\ forall i, heap c' !! id = Some i -> hasExecuted i = false) ->
  NoDup (lsq_ids (lsq c')) ->
  (forall id, id ∈ lsq_ids (lsq c') -> id ∈ lsq_ids (lsq c) /\ forall i, heap c' !! id = Some i -> hasExecuted i = false) ->
  lsq_inv (the_memory c') -> same_turn c c' -> core_ok (advance (heap c') G) P' c'.
Proof.
  intros Ht Hnx Hst HP HP' HL HL' Hinv [Hu1 Hu2]. pose proof Hc as [C1 C2 C3 C4 C5 C6 C7 C8 C9 C10 C11 C12 C13].
  assert (Hlen : length (advance (heap c') G) = length G) by apply length_fmap. split.
  - by rewrite Ht, Hlen.
  - by rewrite Hlen, (pg_length _ _ _ _ _ Hp).
  - intros j t rf' l'. rewrite Ht, Hnx. intros Hj Hf Hl. unfold advance in Hl. rewrite list_lookup_fmap in Hl.
    destruct (G !! j) as [l|] eqn:Hl0; [|done]. injection Hl as <-.
    destruct (lookup_lt_is_Some_2 (register_files c) j) as [rf Hf0].
    { rewrite C2. by eapply lookup_lt_Some. }
    apply (view_progress j t rf l rf'); [by split|done].
  - by rewrite advance_mjoin_ids.
  - intros k. by rewrite Hst.
  - intros k. by rewrite Hst.
  - intros k. rewrite Hst, Ht, advance_kept; [apply C7|done|done].
  - done.
  - intros id [Hid Hu]%HP'. apply waiting_progress; [|by apply C9|done].
    intros i i' E. unfold of_unit. by rewrite (erase_class _ _ E).
  - done.
  - intros id [Hid Hu]%HL'. apply waiting_progress; [|by apply C11|done].
    intros i i' E. unfold of_memory, is_memory. by rewrite (erase_class _ _ E).
  - done.
  - unfold turn_ok, hw_threads in *. by rewrite Ht, Hu1, Hu2.
Qed.

Lemma progress_still : threads c' = threads c -> still c c'.
Proof.
  clear Hdone. intros Et j t rf Ht Hf. destruct (thread_exists _ _ _ Hc j) as (t0 & rf0 & l & Hat).
  { rewrite <- (co_threads _ _ _ Hc). by eapply lookup_lt_Some. }
  assert (t0 = t /\ rf0 = rf) as [-> ->] by (destruct Hat; by simplify_eq).
  destruct (lookup_lt_is_Some_2 (register_files c') j) as [rf' Hf'].
  { rewrite (pg_length _ _ _ _ _ Hp). by eapply lookup_lt_Some. }
  destruct (untouched_kept _ _ _ _ _ Hat Hf') as [Hl Hcell].
  exists t, rf'. split_and!; [by rewrite Et|done|apply (like_opts _ _ Hl)|].
  intros k. unfold arch. f_equal. apply list_fmap_ext. intros m p Hm. apply list_elem_of_lookup_2 in Hm.
  pose proof (thread_separate _ _ _ Hc _ _ _ (ath_thread _ _ _ _ _ _ Hat) (ath_rob _ _ _ _ _ _ Hat)) as Hsep.
  apply Hcell.
  - destruct (Hsep k) as [_ Hn]. rewrite Forall_forall in Hn. apply Hn. set_solver.
  - intros (i & Hi & Hs & _ & Ho). eapply table_not_in_flight; [exact Hsep|exact Hm|by eapply output_in_flight].
Qed.
End progress.
End core.

(** ** The accesses of the pipeline to its state *)

Lemma meets_ok {St A} ok (m : M St A) s a s' (Q : A -> St -> Prop) : m s = Ok (a, s') -> Q a s' -> meets ok m s Q.
Proof. intros E HQ. unfold meets. by rewrite E. Qed.

Section steps.
Context {Q : Type} `{!LoadStoreQueue Q} (ok : failure -> Prop).
Implicit Types (c : core Q) (thr id : Z).

Lemma meets_get_thread thr t c (R : thread -> core Q -> Prop) :
  0 <= thr -> threads c !! Z.to_nat thr = Some t -> R t c -> meets ok (get_thread thr) c R.
Proof. intros H0 Ht HR. apply meets_getsR. by eapply yields_index. Qed.

Lemma meets_put_thread thr t t' c (R : unit -> core Q -> Prop) :
  0 <= thr -> threads c !! Z.to_nat thr = Some t' -> R tt (c <| threads := <[Z.to_nat thr := t]> (threads c) |>) ->
  meets ok (put_thread thr t) c R.
Proof.
  intros H0 Ht HR. unfold put_thread. apply meets_bind, meets_getsR. apply lookup_lt_Some in Ht.
  rewrite set_index_in_range by lia. exact HR.
Qed.

Lemma meets_on_thread thr f t c (R : unit -> core Q -> Prop) :
  0 <= thr -> threads c !! Z.to_nat thr = Some t -> R tt (c <| threads := <[Z.to_nat thr := f t]> (threads c) |>) ->
  meets ok (on_thread thr f) c R.
Proof. intros H0 Ht HR. unfold on_thread. apply meets_bind. eapply meets_get_thread; [done..|]. by eapply meets_put_thread. Qed.

Lemma meets_on_rob {A} thr (m : M (VanadisCircularQueue Z) A) t c (R : A -> core Q -> Prop) :
  0 <= thr -> threads c !! Z.to_nat thr = Some t ->
  runs m (t_rob t) (fun a q => R a (c <| threads := <[Z.to_nat thr := t <| t_rob := q |>]> (threads c) |>)) ->
  meets ok (on_rob thr m) c R.
Proof.
  intros H0 Ht (a & q & E & HR). unfold on_rob. apply meets_bind. eapply meets_get_thread; [done..|].
  apply meets_bind, meets_getsR. rewrite E. cbn. apply meets_bind. by eapply meets_put_thread.
Qed.

Lemma same_thread thr t c :
  threads c !! Z.to_nat thr = Some t -> c <| threads := <[Z.to_nat thr := t <| t_rob := t_rob t |>]> (threads c) |> = c.
Proof.
  intros Ht. replace (t <| t_rob := t_rob t |>) with t by (by destruct t). rewrite list_insert_id by done. by destruct c.
Qed.

Lemma meets_peekAt thr (m : nat) t l id c (R : Z -> core Q -> Prop) :
  0 <= thr -> threads c !! Z.to_nat thr = Some t -> holds (t_rob t) l -> l !! m = Some id -> R id c ->
  meets ok (on_rob thr (peekAt (Z.of_nat m))) c R.
Proof.
  intros H0 Ht Hh Hl HR. eapply meets_on_rob; [done..|]. eapply runs_mono; [by eapply runs_peekAt|].
  intros a q [-> ->]. by rewrite same_thread.
Qed.
Lemma meets_peek thr t l id c (R : Z -> core Q -> Prop) :
  0 <= thr -> threads c !! Z.to_nat thr = Some t -> holds (t_rob t) (id :: l) -> R id c -> meets ok (on_rob thr peek) c R.
Proof.
  intros H0 Ht Hh HR. eapply meets_on_rob; [done..|]. eapply runs_mono; [by eapply runs_peek|].
  intros a q [-> ->]. by rewrite same_thread.
Qed.

Lemma meets_get_ins id i c (R : VanadisInstruction -> core Q -> Prop) :
  heap c !! id = Some i -> R i c -> meets ok (get_ins id) c R.
Proof. intros Hi HR. apply meets_getsR. by rewrite Hi. Qed.
Lemma meets_on_ins id f i c (R : unit -> core Q -> Prop) :
  heap c !! id = Some i -> R tt (c <| heap ::= <[id := f i]> |>) -> meets ok (on_ins id f) c R.
Proof. intros Hi HR. apply meets_bind. by eapply meets_get_ins. Qed.

(** The state a renaming works on, and where its result goes. *)
Definition rename_of (c : core Q) (t : thread) (i : VanadisInstruction) : rename :=
  mkRename i (int_stack c) (fp_stack c) (t_issue t) (t_retire t).
Definition after_rename (c : core Q) (thr id : Z) (t : thread) (s : rename) : core Q :=
  c <| heap ::= <[id := r_ins s]> |> <| int_stack := int_register_stack s |> <| fp_stack := fp_register_stack s |>
    <| threads := <[Z.to_nat thr := t <| t_issue := issue_isa_table s |> <| t_retire := retire_isa_table s |>]> (threads c) |>.

Lemma meets_with_rename {A} thr id (m : M rename A) t i c (R : A -> core Q -> Prop) :
  0 <= thr -> threads c !! Z.to_nat thr = Some t -> heap c !! id = Some i ->
  runs m (rename_of c t i) (fun a s => R a (after_rename c thr id t s)) -> meets ok (with_rename thr id m) c R.
Proof.
  intros H0 Ht Hi (a & s & E & HR). unfold with_rename. apply meets_bind. eapply meets_get_thread; [done..|].
  apply meets_bind. eapply meets_get_ins; [done|]. apply meets_bind, meets_getsR. fold (rename_of c t i). rewrite E. cbn [yields fst snd].
  apply meets_bind, meets_modify, meets_bind, meets_modify, meets_bind. eapply meets_put_thread; [done|exact Ht|].
  exact HR.
Qed.
End steps.

(** ** What the decoders are told, and which threads are halted *)
Section silent.
Context {Q : Type} `{LoadStoreQueue Q}.
Definition halts (c : core Q) : list bool := t_halted <$> threads c.
Definition silent (c c' : core Q) : Prop := (told c', halts c') = (told c, halts c).
#[export] Instance silent_preorder : PreOrder silent := frame_preorder (fun c : core Q => (told c, halts c)).

Lemma silent_get_thread thr : steps silent (get_thread thr).
Proof. apply steps_getsR. apply _. Qed.
Lemma silent_get_ins id : steps silent (get_ins (Q := Q) id).
Proof. apply steps_getsR. apply _. Qed.
Lemma silent_put_ins id i : steps silent (put_ins (Q := Q) id i).
Proof. by apply steps_modify. Qed.
Lemma silent_on_ins id f : steps silent (on_ins (Q := Q) id f).
Proof. unfold on_ins. steps_walk; by apply steps_modify. Qed.
Lemma silent_delete_ins id : steps silent (delete_ins (Q := Q) id).
Proof. by apply steps_modify. Qed.
Lemma silent_on_units k l : steps silent (on_units (Q := Q) k l).
Proof. by apply steps_modify. Qed.
Lemma silent_on_memory {A} (m : M (memory Q) A) : steps silent (on_memory m).
Proof. eapply (steps_zoom _ _ _ (fun _ _ => True)); [done|]. by intros. Qed.

(** A thread that is put back with its flag. *)
Lemma put_thread_silent thr (t t' : thread) c u c' :
  at_index (threads c) thr = Ok t -> t_halted t' = t_halted t -> put_thread thr t' c = Ok (u, c') -> silent c c'.
Proof.
  intros Ht Hh E. unfold put_thread in E. apply bind_Ok in E as (l & c1 & El & E). apply getsR_Ok in El as [El ->].
  injection E as _ <-. unfold silent. cbn. f_equal. unfold halts. cbn. apply at_index_Ok in Ht as [H0 Ht].
  pose proof (lookup_lt_Some _ _ _ Ht).
 rewrite set_index_in_range in El by lia. injection El as <-.
  rewrite list_fmap_insert, Hh. apply list_insert_id. by rewrite list_lookup_fmap, Ht.
Qed.
Lemma silent_on_thread thr f : (forall t, t_halted (f t) = t_halted t) -> steps silent (on_thread (Q := Q) thr f).
Proof.
  intros Hf c a c' E. unfold on_thread in E. apply bind_Ok in E as (t & c1 & Et & E). unfold get_thread in Et.
  apply getsR_Ok in Et as [Et ->]. eapply put_thread_silent; [exact Et|apply Hf|exact E].
Qed.
Lemma silent_on_rob {A} thr (m : M (VanadisCircularQueue Z) A) : steps silent (on_rob (Q := Q) thr m).
Proof.
  intros c a c' E. unfold on_rob in E. apply bind_Ok in E as (t & c1 & Et & E). unfold get_thread in Et.
  apply getsR_Ok in Et as [Et ->]. apply bind_Ok in E as (r & c1 & Er & E). apply getsR_Ok in Er as [_ ->].
  apply bind_Ok in E as (u & c1 & Ep & E). apply ret_Ok in E as [_ <-]. by eapply put_thread_silent; [exact Et| |exact Ep].
Qed.
Lemma silent_with_rename {A} thr id (m : M rename A) : steps silent (with_rename (Q := Q) thr id m).
Proof.
  intros c a c' E. unfold with_rename in E. apply bind_Ok in E as (t & c1 & Et & E). unfold get_thread in Et.
  apply getsR_Ok in Et as [Et ->]. apply bind_Ok in E as (i & c1 & Ei & E). unfold get_ins in Ei. apply getsR_Ok in Ei as [_ ->].
  apply bind_Ok in E as (r & c1 & Er & E). apply getsR_Ok in Er as [_ ->].
  apply bind_Ok in E as (u1 & c1 & E1 & E). injection E1 as _ <-. apply bind_Ok in E as (u2 & c2 & E2 & E). injection E2 as _ <-.
  apply bind_Ok in E as (u3 & c3 & E3 & E). apply ret_Ok in E as [_ <-]. apply (put_thread_silent _ t) in E3; [exact E3|exact Et|done].
Qed.
Lemma silent_on_temps thr f : steps silent (on_temps (Q := Q) thr f).
Proof.
  intros c a c' E. unfold on_temps in E. apply bind_Ok in E as (t & c1 & Et & E). unfold get_thread in Et.
  apply getsR_Ok in Et as [Et ->]. apply bind_Ok in E as (r & c1 & Er & E). apply getsR_Ok in Er as [_ ->]. by eapply put_thread_silent; [exact Et| |exact E].
Qed.
#[local] Hint Resolve silent_get_thread silent_get_ins silent_put_ins silent_on_ins silent_delete_ins silent_on_units
  @silent_on_memory silent_on_thread @silent_on_rob @silent_with_rename silent_on_temps : steps.
#[local] Ltac silently := steps_walk; try (by apply steps_modify).

Lemma silent_map id k : steps silent (mapInstructiontoFunctionalUnit (Q := Q) id k).
Proof. unfold mapInstructiontoFunctionalUnit. silently. Qed.
#[local] Hint Resolve silent_map : steps.
Lemma silent_allocate id : steps silent (allocateFunctionalUnit (Q := Q) id).
Proof. unfold allocateFunctionalUnit, on_lsq. silently. Qed.
#[local] Hint Resolve silent_allocate : steps.
Lemma silent_try_issue thr id seen : steps silent (try_issue (Q := Q) thr id seen).
Proof. unfold try_issue. silently. Qed.
#[local] Hint Resolve silent_try_issue : steps.
Lemma silent_scan_rob n thr j seen : steps silent (scan_rob (Q := Q) n thr j seen).
Proof. revert j seen. induction n as [|n IH]; intros j seen; cbn [scan_rob]; silently. Qed.
#[local] Hint Resolve silent_scan_rob : steps.
Lemma silent_performIssue thr start seen : steps silent (performIssue (Q := Q) thr start seen).
Proof. unfold performIssue. silently. Qed.
#[local] Hint Resolve silent_performIssue : steps.
Lemma silent_issue_loop i s : steps silent (issue_loop (Q := Q) i s).
Proof. revert s. induction i as [|i IH]; intros s; cbn [issue_loop]; silently. Qed.

Lemma silent_run_instruction wrapv cycle host id : steps silent (run_instruction (Q := Q) wrapv cycle host id).
Proof. unfold run_instruction. silently. Qed.
#[local] Hint Resolve silent_run_instruction : steps.
Lemma silent_tick_records wrapv cycle host l : steps silent (tick_records (Q := Q) wrapv cycle host l).
Proof. induction l as [|q l IH]; cbn [tick_records]; silently. Qed.
#[local] Hint Resolve silent_tick_records : steps.
Lemma silent_tick_units wrapv cycle host l : steps silent (tick_units (Q := Q) wrapv cycle host l).
Proof. induction l as [|u l IH]; cbn [tick_units]; unfold tick_unit; silently. Qed.
#[local] Hint Resolve silent_tick_units : steps.
Lemma silent_performExecute wrapv cycle host : steps silent (performExecute (Q := Q) wrapv cycle host).
Proof. unfold performExecute, tick_class. silently. Qed.

Lemma silent_reset_zero_register thr : steps silent (reset_zero_register (Q := Q) thr).
Proof. unfold reset_zero_register. silently. Qed.
Lemma silent_reset_zero_registers n : steps silent (forM (seqZ 0 n) (reset_zero_register (Q := Q))).
Proof. apply steps_forM; [apply _..|]. apply silent_reset_zero_register. Qed.
Lemma silent_arrive thr i : steps silent (arrive (Q := Q) thr i).
Proof. unfold arrive. silently. Qed.
Lemma silent_threads (f : thread -> thread) c : (forall t, t_halted (f t) = t_halted t) -> silent c (c <| threads ::= fmap f |>).
Proof. intros Hf. unfold silent, halts. cbn. f_equal. rewrite <- list_fmap_compose. apply list_fmap_ext. intros k t _. apply Hf. Qed.
Lemma silent_reset_temps : steps silent (reset_temps (Q := Q)).
Proof. unfold reset_temps. silently. apply steps_modify. intros c. by apply silent_threads. Qed.

Lemma silent_clear_records thr l : steps silent (clear_records (Q := Q) thr l).
Proof. induction l as [|q l IH]; cbn [clear_records]; silently. Qed.
#[local] Hint Resolve silent_clear_records : steps.
Lemma silent_clear_units thr l : steps silent (clear_units (Q := Q) thr l).
Proof. induction l as [|u l IH]; cbn [clear_units]; unfold clearByHWThreadID; silently. Qed.
#[local] Hint Resolve silent_clear_units : steps.
Lemma silent_clearFuncUnit thr k : steps silent (clearFuncUnit (Q := Q) thr k).
Proof. unfold clearFuncUnit. silently. Qed.
Lemma silent_delete_from n thr i : steps silent (delete_from (Q := Q) n thr i).
Proof. revert i. induction n as [|n IH]; intros i; cbn [delete_from]; silently. Qed.
#[local] Hint Resolve silent_delete_from silent_clearFuncUnit : steps.
Lemma silent_clearROBMisspeculate thr : steps silent (clearROBMisspeculate (Q := Q) thr).
Proof. unfold clearROBMisspeculate. silently. Qed.
#[local] Hint Resolve silent_clearROBMisspeculate : steps.

(** What an operation tells the decoders. *)
Definition tells {A} (m : M (core Q) A) (l : list telling) : Prop :=
  forall c a c', m c = Ok (a, c') -> told c' = told c ++ l /\ halts c' = halts c.
Lemma tells_silent {A} (m : M (core Q) A) : steps silent m -> tells m [].
Proof. intros Hm c a c' E. rewrite app_nil_r. by injection (Hm _ _ _ E). Qed.
Lemma tells_bind {A B} (m : M (core Q) A) (k : A -> M (core Q) B) l l' : tells m l -> (forall a, tells (k a) l') -> tells (m ≫= k) (l ++ l').
Proof.
  intros Hm Hk c b c' (a & c1 & E1 & E2)%bind_Ok. destruct (Hm _ _ _ E1) as [T1 H1]. destruct (Hk _ _ _ _ E2) as [T2 H2].
  by rewrite T2, T1, (assoc_L (++)), H2.
Qed.
Lemma tells_after {A B} (m : M (core Q) A) (k : A -> M (core Q) B) l : steps silent m -> (forall a, tells (k a) l) -> tells (m ≫= k) l.
Proof. intros Hm Hk. apply (tells_bind _ _ []); [by apply tells_silent|done]. Qed.
Lemma tells_before {A B} (m : M (core Q) A) (k : A -> M (core Q) B) l : tells m l -> (forall a, steps silent (k a)) -> tells (m ≫= k) l.
Proof. intros Hm Hk. rewrite <- (app_nil_r l). apply tells_bind; [done|]. intros a. by apply tells_silent. Qed.
Lemma tells_tell e : tells (tell e) [e].
Proof. by intros c a c' [= _ <-]. Qed.

Lemma meets_steps {A} ok (R : relation (core Q)) (m : M (core Q) A) c (P : A -> core Q -> Prop) :
  steps R m -> meets ok m c P -> meets ok m c (fun a c' => R c c' /\ P a c').
Proof. intros Hm HP. unfold meets in *. destruct (m c) as [[a c']|e] eqn:E; [|done]. split; [by eapply Hm|done]. Qed.
Lemma meets_result {A} ok (m : M (core Q) A) c (P : A -> core Q -> Prop) :
  meets ok m c P -> meets ok m c (fun a c' => m c = Ok (a, c') /\ P a c').
Proof. unfold meets. by destruct (m c) as [[a c']|e]. Qed.
Lemma meets_tells {A} ok (m : M (core Q) A) l c (R : A -> core Q -> Prop) :
  tells m l -> meets ok m c R -> meets ok m c (fun a c' => told c' = told c ++ l /\ R a c').
Proof.
  intros Hm HR. unfold meets in *. destruct (m c) as [[a c']|e] eqn:E; [|done]. split; [by apply (Hm _ _ _ E)|done].
Qed.

(** A misspeculation tells the decoder where to go on, and nothing else. *)
Lemma handleMisspeculate_tells thr a : tells (handleMisspeculate thr a) [SetInstructionPointer thr a].
Proof.
  unfold handleMisspeculate. repeat (apply tells_after; [solve [auto with steps|by apply silent_on_thread]|intros ?]). apply tells_tell.
Qed.
Definition resets (thr : Z) (reset_to : option Z) : list telling :=
  match reset_to with Some a => [SetInstructionPointer thr a] | None => [] end.
Lemma clean_up_tells rob_num thr id i delay reset_to :
  tells (clean_up rob_num thr id i delay reset_to) (resets thr reset_to).
Proof.
  unfold clean_up, retire_delay, update_thread_flags, pause.
  repeat (apply tells_after; [silently; by apply silent_on_thread|intros ?]).
  apply tells_before; [|intros []; auto with steps].
  destruct reset_to; [apply handleMisspeculate_tells|apply tells_silent, steps_skip, _].
Qed.
End silent.
