(* ===== verification/VanadisIssue.v ===== *)
(** * VanadisIssue: the issue stage keeps the invariant

    The scan of a reorder buffer marks the registers of the instructions it passes
    ([covers]); an instruction whose registers are not marked can issue before them
    ([thread_issue] of [VanadisOrder]).

    An instruction runs in a functional unit when its cycles have passed, and stays
    there until it says it has been executed; the load-store queue is ticked after the
    units. *)

From stdpp Require Import functions.
From S2P Require Import Prelude VanadisRegs VanadisInst VanadisQueue VanadisRename VanadisFrame VanadisMem VanadisFree VanadisPipeline VanadisOrder VanadisCore.

(** ** Marks *)

Lemma mark_all_ok (rs : list Z) (l : list bool) :
  Forall (fun r => 0 <= r < Z.of_nat (length l)) rs ->
  exists l', mark_all rs l = Ok l' /\ length l' = length l /\
    forall r, (marked l r = true -> marked l' r = true) /\ (r ∈ rs -> marked l' r = true).
Proof.
  intros Hr. revert l Hr. induction rs as [|r rs IH]; intros l Hr; [by exists l; split_and!; [| |set_solver]|].
  apply Forall_cons in Hr as [Hr Hrs]. cbn [mark_all]. rewrite set_index_in_range by done.
  destruct (IH (<[Z.to_nat r := true]> l)) as (l' & E & Hl & Hm); [by rewrite length_insert|].
  exists l'. split_and!; [done|by rewrite Hl, length_insert|]. intros s. destruct (Hm s) as [Hm1 Hm2]. split.
  - intros Hs. apply Hm1. unfold marked in *. rewrite insert_total by lia. by destruct (decide _).
  - intros [->|Hs]%elem_of_cons; [|auto]. apply Hm1. unfold marked. rewrite insert_total, decide_True by lia. done.
Qed.

Section marks.
Variables (n : kind -> nat).

Definition read_mark (t : reg_temps) (k : kind) (r : Z) : Prop := marked (not_issued_reg_read k t) r = true.
Definition write_mark (t : reg_temps) (k : kind) (r : Z) : Prop := marked (reg_write k t) r = true.
Record more_marks (t t' : reg_temps) : Prop := {
  mm_ok : temps_ok n t';
  mm_read k r : read_mark t k r -> read_mark t' k r;
  mm_write k r : write_mark t k r -> write_mark t' k r }.

Lemma in_bounds k (rs : list Z) (l : list bool) :
  Forall (reg_ok n k) rs -> (n k <= length l)%nat -> Forall (fun r => 0 <= r < Z.of_nat (length l)) rs.
Proof. intros Hr Hl. eapply Forall_impl; [exact Hr|]. unfold reg_ok. intros r. lia. Qed.

Lemma collect_reads_ok i t : names_ok n i -> temps_ok n t ->
  exists t', collect_reads i t = Ok t' /\ more_marks t t' /\ forall k r, r ∈ isa_in k i -> read_mark t' k r.
Proof.
  intros Hn [Hr Hw]. unfold collect_reads.
  destruct (mark_all_ok (isa_in INT i) (tmp_not_issued_int_reg_read t)) as (li & -> & Hli & Hmi).
  { eapply in_bounds; [apply (names_in _ _ Hn)|apply (Hr INT)]. }
  destruct (mark_all_ok (isa_in FP i) (tmp_not_issued_fp_reg_read t)) as (lf & -> & Hlf & Hmf).
  { eapply in_bounds; [apply (names_in _ _ Hn)|apply (Hr FP)]. }
  eexists. split; [reflexivity|]. destruct t as [ri wi rf wf]; cbn in *. split; [split|].
  - split; intros []; [pose proof (Hr INT)|pose proof (Hr FP)|apply (Hw INT)|apply (Hw FP)]; unfold update in *; cbn in *; lia.
  - intros [] r; [apply Hmi|apply Hmf].
  - intros [] r; done.
  - intros [] r; [apply Hmi|apply Hmf].
Qed.
Lemma collect_writes_ok i t : names_ok n i -> temps_ok n t ->
  exists t', collect_writes i t = Ok t' /\ more_marks t t' /\ forall k r, r ∈ isa_out k i -> write_mark t' k r.
Proof.
  intros Hn [Hr Hw]. unfold collect_writes.
  destruct (mark_all_ok (isa_out INT i) (tmp_int_reg_write t)) as (li & -> & Hli & Hmi).
  { eapply in_bounds; [apply (names_out _ _ Hn)|apply (Hw INT)]. }
  destruct (mark_all_ok (isa_out FP i) (tmp_fp_reg_write t)) as (lf & -> & Hlf & Hmf).
  { eapply in_bounds; [apply (names_out _ _ Hn)|apply (Hw FP)]. }
  eexists. split; [reflexivity|]. destruct t as [ri wi rf wf]; cbn in *. split; [split|].
  - split; intros []; [apply (Hr INT)|apply (Hr FP)|pose proof (Hw INT)|pose proof (Hw FP)]; unfold update in *; cbn in *; lia.
  - intros [] r; done.
  - intros [] r; [apply Hmi|apply Hmf].
  - intros [] r; [apply Hmi|apply Hmf].
Qed.

(** The marks of a thread cover the first instructions of its reorder buffer. *)
Record covers (t : reg_temps) (L : list VanadisInstruction) (seen : bool) : Prop := {
  cv_write a k r : a ∈ L -> r ∈ isa_out k a -> write_mark t k r;
  cv_read a k r : a ∈ L -> hasIssued a = false -> r ∈ isa_in k a -> read_mark t k r;
  cv_memory a : a ∈ L -> is_memory a = true -> hasIssued a = false -> seen = true }.

Lemma covers_more t t' L L' seen seen' :
  covers t L seen -> more_marks t t' -> (forall a, a ∈ L' -> a ∈ L) -> (seen = true -> seen' = true) -> covers t' L' seen'.
Proof. intros [H1 H2 H3] [_ M1 M2] Hin Hs. split; eauto 10. Qed.
Lemma covers_next t L seen i :
  covers t L seen -> (forall k r, r ∈ isa_out k i -> write_mark t k r) ->
  (hasIssued i = false -> (forall k r, r ∈ isa_in k i -> read_mark t k r) /\ (is_memory i = true -> seen = true)) ->
  covers t (L ++ [i]) seen.
Proof.
  intros [H1 H2 H3] Hw Hr. split.
  - intros a k r [Ha| ->%list_elem_of_singleton]%elem_of_app; eauto.
  - intros a k r [Ha| ->%list_elem_of_singleton]%elem_of_app Hs; [eauto|by apply Hr].
  - intros a [Ha| ->%list_elem_of_singleton]%elem_of_app Hm Hs; [eauto|by apply Hr].
Qed.
Lemma covers_clearance t A i seen :
  covers t A seen -> (is_memory i = true -> seen = false) ->
  (forall k r, r ∈ isa_in k i -> marked (reg_write k t) r = false) ->
  (forall k r, r ∈ isa_out k i -> marked (not_issued_reg_read k t) r = false /\ marked (reg_write k t) r = false) ->
  clearance A i.
Proof.
  intros [H1 H2 H3] Hm Hin Hout. split.
  - intros a k Ha r Hr Hr'. pose proof (H1 a k r Ha Hr) as Hw. unfold write_mark in Hw. by rewrite (Hin k r Hr') in Hw.
  - intros a k Ha r Hr Hr'. pose proof (H1 a k r Ha Hr) as Hw. unfold write_mark in Hw. by rewrite (proj2 (Hout k r Hr')) in Hw.
  - intros a k Ha Hs r Hr Hr'. pose proof (H2 a k r Ha Hs Hr) as Hw. unfold read_mark in Hw. by rewrite (proj1 (Hout k r Hr')) in Hw.
  - intros a Hmi Ha Hma. destruct (hasIssued a) eqn:Hs; [done|]. pose proof (H3 a Ha Hma Hs). rewrite (Hm Hmi) in *. done.
Qed.
End marks.

(** ** The functional units *)

Section issue.
Context {Q : Type} `{LoadStoreQueueLaws Q}.
Variables (wrapv : bool) (host : fp_operation -> list Z -> Z) (nphys : kind -> Z).
#[local] Abbreviation core_ok := (core_ok wrapv host nphys).
#[local] Abbreviation meets := (meets execution_failure).

Definition records_of (l : list VanadisFunctionalUnit) : list Z := l ≫= fun u => fu_ins <$> pending_execute u.
Definition unit_ids (c : core Q) : list Z :=
  records_of (units c INT_ARITH) ++ records_of (units c INT_DIV) ++ records_of (units c FP_ARITH) ++
  records_of (units c FP_DIV) ++ records_of (units c BRANCH).

Lemma first_free_ok l id l' : first_free l id = Some l' -> records_of l' ≡ₚ id :: records_of l.
Proof.
  revert l'. induction l as [|u l IH]; intros l'; [done|]. cbn [first_free]. destruct (accept_this_cycle u).
  - intros [= <-]. unfold records_of. rewrite !bind_cons. destruct u as [r lt a]. unfold insertInstruction, update; cbn.
    rewrite fmap_app. cbn. solve_Permutation.
  - destruct (first_free l id) as [l1|]; [|done]. cbn. intros [= <-]. unfold records_of in *. rewrite !bind_cons, (IH l1 eq_refl).
    solve_Permutation.
Qed.

Definition with_units (c : core Q) (k : unit_class) (l : list VanadisFunctionalUnit) : core Q :=
  c <| units ::= fun f k' => if decide (k' = k) then l else f k' |>.
Lemma with_units_ids c k l id : records_of l ≡ₚ id :: records_of (units c k) -> unit_ids (with_units c k l) ≡ₚ id :: unit_ids c.
Proof. intros Hp. unfold unit_ids, with_units, update; cbn. destruct k; cbn; rewrite Hp; solve_Permutation. Qed.

(** What allocation does to the core when it succeeds. *)
Record allocated (id : Z) (i : VanadisInstruction) (c c' : core Q) : Prop := {
  al_threads : threads c' = threads c;
  al_files : register_files c' = register_files c;
  al_next : next_ins c' = next_ins c;
  al_stack k : the_stack k c' = the_stack k c;
  al_heap id' : id' <> id -> heap c' !! id' = heap c !! id';
  al_ins : exists x, heap c' !! id = Some (i <| hasExecuted := x |>) /\ (x = true -> ~ of_unit i);
  al_queue : (of_unit i /\ unit_ids c' ≡ₚ id :: unit_ids c /\ lsq c' = lsq c) \/
             (of_memory i /\ unit_ids c' = unit_ids c /\ lsq c' = lsq_push id i (lsq c)) \/
             (unit_ids c' = unit_ids c /\ lsq c' = lsq c);
  al_unexecuted : heap c' !! id = Some i \/ lsq c' = lsq c /\ unit_ids c' = unit_ids c;
  al_turn : same_turn c c' }.

Lemma map_unit_ok id i k c :
  heap c !! id = Some i -> hasExecuted i = false -> of_unit i ->
  meets (mapInstructiontoFunctionalUnit id k) c (fun b c' => if b then allocated id i c c' else c' = c).
Proof.
  intros Hi He Hu. unfold mapInstructiontoFunctionalUnit. apply meets_bind, meets_gets.
  destruct (first_free (units c k) id) as [l'|] eqn:E; [|by apply meets_ret].
  apply meets_bind, meets_modify, meets_ret. fold (with_units c k l'). split; try done.
  - exists false. split; [|done]. cbn. rewrite Hi. f_equal. destruct i; cbn in *; by subst.
  - left. split_and!; [done| |done]. by apply with_units_ids, first_free_ok.
  - by left.
Qed.

Lemma marked_executed_ok id i c :
  heap c !! id = Some i -> ~ of_unit i ->
  meets (on_ins id (fun i => i <| hasExecuted := true |>) ;; mret true) c
    (fun b c' => if b : bool then allocated id i c c' else c' = c).
Proof.
  intros Hi Hu. apply meets_bind. eapply meets_on_ins; [done|]. apply meets_ret. split; try done.
  - intros id' Hne. cbn. by rewrite lookup_insert_ne.
  - exists true. split; [|done]. cbn. by rewrite lookup_insert_eq.
  - right. right. done.
  - by right.
Qed.
Lemma pushed_ok id i c :
  heap c !! id = Some i -> hasExecuted i = false -> of_memory i -> ~ of_unit i ->
  meets (on_lsq (lsq_push id i) ;; mret true) c (fun b c' => if b : bool then allocated id i c c' else c' = c).
Proof.
  intros Hi He Hm Hu. apply meets_bind, meets_modify, meets_ret. split; try done.
  - exists false. split; [|done]. cbn. rewrite Hi. f_equal. destruct i; cbn in *; by subst.
  - right. left. done.
  - by left.
Qed.

Lemma allocate_ok id i c :
  heap c !! id = Some i -> hasExecuted i = false -> is_syscall i = false ->
  meets (allocateFunctionalUnit id) c (fun b c' => if b then allocated id i c c' else c' = c).
Proof.
  intros Hi He Hsys. unfold allocateFunctionalUnit. apply meets_bind. eapply meets_get_ins; [done|].
  unfold is_syscall in Hsys. apply bool_decide_eq_false in Hsys.
  destruct (getInstFuncType (class i)) eqn:Ht; try done.
  all: try (apply map_unit_ok; [done..|]; unfold of_unit; by rewrite Ht).
  all: try (apply marked_executed_ok; [done|]; unfold of_unit; by rewrite Ht).
  all: try (apply meets_bind, meets_gets; case_match; [by apply meets_ret|]).
  all: try (apply pushed_ok; [done..| |]; unfold of_memory, of_unit, is_memory; by rewrite Ht).
Qed.

(** ** One instruction issues *)

Section one.
Variables (G : list (list entry)) (c c1 : core Q) (j : nat) (t : thread) (rf : VanadisRegisterFile).
Variables (la lb : list entry) (id : Z) (i i1 : VanadisInstruction) (s' : rename).
#[local] Abbreviation n := (nregs (t_options t)).
Hypothesis Hc : core_ok G (unit_ids c) c.
Hypothesis Hat : at_thread G c j t rf (la ++ (id, i) :: lb).
Hypothesis Hi : hasIssued i = false.
Hypothesis Hzero : zero_ready rf (issue_ptr t) (la ++ (id, i) :: lb).*2.
Hypothesis Hclear : clearance la.*2 i.
Hypothesis Hal : allocated id i c c1.
Hypothesis Hi1 : heap c1 !! id = Some i1.
Hypothesis Has : assigned n nphys (rename_of c1 t i1) s'.
Hypothesis Hfree : forall k, Z.of_nat (length (isa_out k i)) <= unused (the_stack k c).

Definition issued_ins : VanadisInstruction := (r_ins s') <| hasIssued := true |>.
Definition issued_thread : thread := t <| t_issue := issue_isa_table s' |> <| t_retire := retire_isa_table s' |>.
Definition issued_core : core Q := (after_rename c1 (Z.of_nat j) id t s') <| heap ::= <[id := issued_ins]> |>.

Lemma the_view : view_ok wrapv host (heap c) (next_ins c) j t rf (la ++ (id, i) :: lb).
Proof. exact (view_at _ _ _ _ _ _ Hc _ _ _ _ Hat). Qed.
Lemma the_entry : heap c !! id = Some i /\ id < next_ins c.
Proof. apply (vw_heap _ _ _ _ _ _ _ _ the_view). clear. set_solver. Qed.
Lemma the_ins_in : i ∈ (la ++ (id, i) :: lb).*2.
Proof. rewrite fmap_app. clear. set_solver. Qed.
Lemma the_names : names_ok n i.
Proof. apply (th_names _ _ _ _ _ _ _ (vw_thread _ _ _ _ _ _ _ _ the_view)), the_ins_in. Qed.
Lemma allocated_ins : exists x, i1 = i <| hasExecuted := x |> /\ (x = true -> ~ of_unit i).
Proof. destruct (al_ins _ _ _ _ Hal) as (x & E & Hx). exists x. rewrite Hi1 in E. by injection E as ->. Qed.

Lemma issued_renamed : renamed n (issue_ptr t) i issued_ins.
Proof.
  destruct allocated_ins as (x & -> & Hx). pose proof (as_ins _ _ _ _ Has) as Hu. cbn [r_ins rename_of] in Hu.
  assert (Hin : forall k, isa_in k issued_ins = isa_in k i).
  { intros k. transitivity (isa_in k (r_ins s')); [by destruct k|]. rewrite (unphys_isa_in k _ _ Hu). by destruct k. }
  assert (Hout : forall k, isa_out k issued_ins = isa_out k i).
  { intros k. transitivity (isa_out k (r_ins s')); [by destruct k|]. rewrite (unphys_isa_out k _ _ Hu). by destruct k. }
  assert (Hpi : forall k, phys_in k issued_ins = phys_in k (r_ins s')) by (intros []; done).
  assert (Hpo : forall k, phys_out k issued_ins = phys_out k (r_ins s')) by (intros []; done).
  assert (Hins : forall k, Forall2 (fun r p => issue_ptr t k !! Z.to_nat r = Some p) (isa_in k i) (phys_in k issued_ins)).
  { intros k. rewrite Hpi. pose proof (as_in _ _ _ _ Has k) as Hf. by destruct k. }
  split; try done.
  - exact (f_equal class Hu).
  - intros He. pose proof (f_equal hasExecuted Hu) as Hex. pose proof (f_equal class Hu) as Hcl. cbn in Hex, Hcl, He.
    rewrite Hex in He. specialize (Hx He). unfold of_unit in Hx. cbn. rewrite Hcl. by destruct (unit_type _).
  - pose proof the_names as [N1 N2 N3 N4]. split; intros k; rewrite ?Hin, ?Hout, ?Hpo; [apply N1|apply N2| |].
    + symmetry. by eapply Forall2_length.
    + rewrite (as_out _ _ _ _ Has k). by destruct k.
Qed.

#[local] Abbreviation l := (la ++ (id, i) :: lb).
#[local] Abbreviation l' := (la ++ (id, issued_ins) :: lb).
Lemma issued_keys : l'.*1 = l.*1.
Proof. by rewrite !fmap_app. Qed.
Lemma issued_names i0 : i0 ∈ l'.*2 -> i0 = issued_ins \/ i0 ∈ l.*2.
Proof. rewrite !fmap_app. clear. set_solver. Qed.

Lemma issued_is_ok : ins_ok j issued_ins.
Proof.
  pose proof (vw_ins _ _ _ _ _ _ _ _ the_view) as Hio. rewrite Forall_forall in Hio.
  destruct (Hio i the_ins_in) as [I1 I2 I3 I4]. pose proof issued_renamed as [R1 R2 R3 R4 R5 R6 R7].
  destruct allocated_ins as (x & E1 & _). pose proof (as_ins _ _ _ _ Has) as Hu. cbn [r_ins rename_of] in Hu. rewrite E1 in Hu.
  pose proof (f_equal isa_options Hu) as Ho. pose proof (f_equal speculated Hu) as Hsp. cbn in Ho, Hsp.
  split; unfold of_unit, of_memory, is_memory, is_syscall in *; rewrite ?R3; try done.
  - pose proof (f_equal hw_thread Hu) as Ht. cbn in Ht. rewrite <- I1. exact Ht.
  - intros [O1 O2 O3 O4 O5]%I3. split.
    + intros k. rewrite R1, R3. change (isa_options issued_ins) with (isa_options (r_ins s')). rewrite Ho. apply O1.
    + intros k. rewrite R2, R3. change (isa_options issued_ins) with (isa_options (r_ins s')). rewrite Ho. apply O2.
    + intros k. apply (names_phys_in _ _ R6).
    + intros k. apply (names_phys_out _ _ R6).
    + rewrite R3. change (speculated issued_ins) with (speculated (r_ins s')). by rewrite Hsp.
Qed.

Lemma issued_heap id' : id' <> id -> heap issued_core !! id' = heap c !! id'.
Proof.
  intros Hne. unfold issued_core, after_rename, update; cbn. rewrite !lookup_insert_ne by done.
  by apply (al_heap _ _ _ _ Hal).
Qed.
Lemma issued_entry : heap issued_core !! id = Some issued_ins.
Proof. unfold issued_core, update; cbn. by rewrite lookup_insert_eq. Qed.

Lemma issued_table k : issue_ptr issued_thread k = assign (zip (isa_out k i) (phys_out k issued_ins)) (issue_ptr t k).
Proof.
  destruct allocated_ins as (x & E1 & _). pose proof (as_ptr _ _ _ _ Has k) as Hp. rewrite E1 in Hp. by destruct k.
Qed.
Lemma issued_free k : free (the_stack k c) = free (the_stack k issued_core) ++ rev (phys_out k issued_ins).
Proof.
  pose proof (as_free _ _ _ _ Has k) as Hf. rewrite <- (al_stack _ _ _ _ Hal k). by destruct k.
Qed.

Lemma issued_view : view_ok wrapv host (heap issued_core) (next_ins issued_core) j issued_thread rf l'.
Proof.
  pose proof the_view as [V1 V2 V3 V4 V5 V6 V7 V8 V9 V10 V11].
  split; [by rewrite issued_keys| | |done..| | |].
  - exact (rename_issue _ _ _ (as_ok _ _ _ _ Has)).
  - exact (rename_retire _ _ _ (as_ok _ _ _ _ Has)).
  - rewrite fmap_app in *. apply (thread_ok_ext _ _ _ _ (fun k => assign (zip (isa_out k i) (phys_out k issued_ins)) (issue_ptr t k)) _ (retire_ptr t)).
    + apply issued_table.
    + intros k. pose proof (as_retire _ _ _ _ Has) as Hr. unfold retire_ptr. cbn. by rewrite Hr.
    + apply thread_issue; [exact V9|exact Hzero|exact Hi|exact Hclear|apply issued_renamed].
  - apply Forall_forall. intros i0 [->|Hi0]%issued_names; [apply issued_is_ok|]. rewrite Forall_forall in V10. auto.
  - intros id' i0 Hin. change (next_ins issued_core) with (next_ins c1). rewrite (al_next _ _ _ _ Hal).
    pose proof (ids_nodup _ _ _ _ _ _ Hc j l (ath_rob _ _ _ _ _ _ Hat)) as Hn.
    destruct (entry_replaced _ _ _ _ _ _ _ Hn Hin) as [[-> ->]|[Hin' Hne]].
    + rewrite issued_entry. split; [done|apply the_entry].
    + rewrite issued_heap by done. by apply V11.
Qed.

Lemma issued_unknown : (id ∉ unit_ids c) /\ (id ∉ lsq_ids (lsq c)).
Proof.
  assert (Hno : forall what, waiting G what id -> False).
  { intros what (l0 & i0 & Hl0 & Hi0 & Hs0 & _).
    pose proof (id_once _ _ _ _ _ _ Hc l l0 id i i0 (list_elem_of_lookup_2 _ _ _ (ath_rob _ _ _ _ _ _ Hat)) Hl0) as E.
    rewrite <- E in Hs0; [congruence|clear; set_solver|done]. }
  split; intros Hin; eapply Hno; [by eapply (co_unit _ _ _ _ _ _ Hc)|by eapply (co_queue _ _ _ _ _ _ Hc)].
Qed.
Lemma issued_waits what id' : waiting G what id' -> id' <> id -> id' ∉ l.*1 \/ waits_in l' what id'.
Proof.
  intros Hw Hne. destruct (waiting_where _ _ _ _ _ _ _ _ _ _ _ _ Hc Hat Hw) as [Hn|(i0 & Hi0 & Hr)]; [by left|right].
  exists i0. split; [|done]. clear - Hi0 Hne. set_solver.
Qed.
Lemma issued_new what : heap c1 !! id = Some i -> what i -> (forall i', class i' = class i -> what i -> what i') -> waits_in l' what id.
Proof.
  intros E Hw Hm. exists issued_ins. pose proof issued_renamed as [_ _ R3 R4 _ _ _].
  split_and!; [clear; set_solver|done| |by apply Hm].
  rewrite Hi1 in E. injection E as E. pose proof (as_ins _ _ _ _ Has) as Hu. apply (f_equal hasExecuted) in Hu. cbn in Hu.
  change (hasExecuted issued_ins) with (hasExecuted (r_ins s')). rewrite Hu, E.
  destruct (hasExecuted i) eqn:He; [|done].
  destruct (th_executed _ _ _ _ _ _ _ (vw_thread _ _ _ _ _ _ _ _ the_view) i the_ins_in He). congruence.
Qed.

Lemma issued_inv : lsq_inv (the_memory issued_core).
Proof.
  pose proof issued_renamed as [_ _ R3 _ _ _ _]. pose proof the_entry as [He _].
  assert (Hcls : forall id' i0, heap c !! id' = Some i0 -> exists i', heap issued_core !! id' = Some i' /\ class i' = class i0).
  { intros id' i0 E. destruct (decide (id' = id)) as [->|Hne].
    - exists issued_ins. split; [apply issued_entry|]. rewrite He in E. by injection E as <-.
    - exists i0. by rewrite issued_heap. }
  assert (Hm : lsq_inv (mkMemory (heap c) (register_files c) (lsq c1))).
  { destruct (al_queue _ _ _ _ Hal) as [(_ & _ & E)|[(Hmem & _ & E)|[_ E]]]; rewrite E; try apply (co_inv _ _ _ _ _ _ Hc).
    apply (lsq_push_inv id i (the_memory c)); [apply (co_inv _ _ _ _ _ _ Hc)|done|done]. }
  eapply lsq_inv_frame; [exact Hm|done|]. intros id' i0 _ E. by apply Hcls.
Qed.

Lemma issued_regs k : free (the_stack k issued_core) ++ retained k issued_thread l' ≡ₚ free (the_stack k c) ++ retained k t l.
Proof.
  unfold retained. rewrite issued_free. change (t_retire issued_thread) with (retire_isa_table s').
  rewrite (as_retire _ _ _ _ Has). change (retire_isa_table (rename_of c1 t i1)) with (t_retire t).
  rewrite !fmap_app, !in_flight_app, !fmap_cons, !in_flight_cons. cbn [snd].
  replace (issued_out k issued_ins) with (phys_out k issued_ins) by done.
  replace (issued_out k i) with (@nil Z) by (unfold issued_out; by rewrite Hi). rewrite app_nil_l.
  rewrite rev_alt, <- (reverse_Permutation (phys_out k issued_ins)) at 1. solve_Permutation.
Qed.

Lemma issued_bottom k : hd_error (free (the_stack k issued_core)) = Some 0.
Proof.
  pose proof (co_bottom _ _ _ _ _ _ Hc k) as Hb. pose proof (length_free _ _ (co_stack _ _ _ _ _ _ Hc k)) as Hf.
  assert (Hlt : (length (isa_out k i) < length (free (the_stack k c)))%nat).
  { specialize (Hfree k). unfold unused in Hfree. destruct (free (the_stack k c)); [done|]. cbn [length] in *.
    destruct (Z.ltb_spec 0 (stack_top (the_stack k c))); lia. }
  rewrite issued_free in Hb, Hlt. rewrite length_app, length_rev, (names_phys_out _ _ (rn_names _ _ _ _ issued_renamed)),
    (rn_out _ _ _ _ issued_renamed) in Hlt.
  destruct (free (the_stack k issued_core)); [cbn in Hlt; lia|done].
Qed.

Lemma issued_step : thread_step wrapv host nphys (unit_ids c) c j t l (unit_ids issued_core) issued_core issued_thread rf l'.
Proof.
  pose proof issued_unknown as [Hun Hln]. pose proof (al_queue _ _ _ _ Hal) as Hq.
  assert (Hu : unit_ids issued_core = unit_ids c1) by done. assert (Hl : lsq issued_core = lsq c1) by done.
  split.
  - unfold issued_core, after_rename, update; cbn. by rewrite Nat2Z.id, (al_threads _ _ _ _ Hal).
  - change (register_files issued_core) with (register_files c1). rewrite (al_files _ _ _ _ Hal).
    symmetry. apply list_insert_id, (ath_file _ _ _ _ _ _ Hat).
  - change (next_ins issued_core) with (next_ins c1). rewrite (al_next _ _ _ _ Hal). lia.
  - intros id' _ Hn. apply issued_heap. intros ->. apply Hn. rewrite fmap_app. clear. set_solver.
  - apply issued_view.
  - rewrite issued_keys. eapply ids_nodup; [exact Hc|apply Hat].
  - intros id'. rewrite issued_keys. by left.
  - intros k. pose proof (rename_stack _ _ _ (as_ok _ _ _ _ Has) k) as Hs. by destruct k.
  - apply issued_bottom.
  - apply issued_regs.
  - rewrite Hu. pose proof (co_units _ _ _ _ _ _ Hc) as Hn.
    destruct Hq as [(_ & E & _)|[(_ & E & _)|[E _]]]; rewrite E; try done. by apply NoDup_cons.
  - intros id'. rewrite Hu. assert (Hold : id' ∈ unit_ids c -> (id' ∈ unit_ids c /\ id' ∉ l.*1) \/ waits_in l' of_unit id').
    { intros Hin. assert (Hne : id' <> id) by (by intros ->).
      destruct (issued_waits of_unit id' (co_unit _ _ _ _ _ _ Hc id' Hin) Hne) as [|]; auto. }
    destruct Hq as [(Hof & E & _)|[(_ & E & _)|[E _]]]; rewrite E; try done.
    intros [->|Hin]%elem_of_cons; [right|by apply Hold]. apply issued_new; [|done|intros i' Ec; unfold of_unit; by rewrite Ec].
    destruct (al_unexecuted _ _ _ _ Hal) as [|[_ E']]; [done|]. rewrite E' in E. exfalso. apply Hun. rewrite E. by left.
  - rewrite Hl. pose proof (co_queued _ _ _ _ _ _ Hc) as Hn.
    destruct Hq as [(_ & _ & E)|[(_ & _ & E)|[_ E]]]; rewrite E; try done. rewrite lsq_push_ids. by apply NoDup_cons.
  - intros id'. rewrite Hl. assert (Hold : id' ∈ lsq_ids (lsq c) -> (id' ∈ lsq_ids (lsq c) /\ id' ∉ l.*1) \/ waits_in l' of_memory id').
    { intros Hin. assert (Hne : id' <> id) by (by intros ->).
      destruct (issued_waits of_memory id' (co_queue _ _ _ _ _ _ Hc id' Hin) Hne) as [|]; auto. }
    destruct Hq as [(_ & _ & E)|[(Hof & _ & E)|[_ E]]]; rewrite E; try done. rewrite lsq_push_ids.
    intros [->|Hin]%elem_of_cons; [right|by apply Hold].
    apply issued_new; [|done|intros i' Ec; unfold of_memory, is_memory; by rewrite Ec].
    destruct (al_unexecuted _ _ _ _ Hal) as [|[E' _]]; [done|]. exfalso. apply Hln. rewrite <- E', E, lsq_push_ids. by left.
  - apply issued_inv.
  - exact (al_turn _ _ _ _ Hal).
Qed.

Lemma issued_ok : core_ok (<[j := l']> G) (unit_ids issued_core) issued_core.
Proof. eapply core_change; [exact Hc|exact Hat|apply issued_step]. Qed.

Lemma issued_zero : zero_ready rf (issue_ptr issued_thread) l'.*2.
Proof.
  intros Hw p. rewrite issued_table. set (z := reg_ignore_writes (decoder_opts rf)) in *.
  pose proof issued_renamed as [_ R2 _ R4 _ _ _].
  assert (Hz : z ∉ isa_out INT i).
  { rewrite <- R2. apply Hw; [|done]. rewrite fmap_app. clear. set_solver. }
  rewrite assign_other.
  - apply Hzero. intros i0 Hi0 Hs0. apply Hw; [|done]. rewrite fmap_app, fmap_cons in *.
    assert (Hne : i0 <> i) by congruence. clear - Hi0 Hne. set_solver.
  - intros r ([r' q] & -> & Hr%elem_of_zip_l)%list_elem_of_fmap E. cbn in E.
    pose proof (names_out _ _ the_names INT) as Hn. rewrite Forall_forall in Hn. specialize (Hn r' Hr). unfold reg_ok in Hn.
    pose proof (vw_zero _ _ _ _ _ _ _ _ the_view) as Hz0. rewrite <- (vw_opts _ _ _ _ _ _ _ _ the_view) in Hz0. fold z in Hz0.
    assert (r' = z) as -> by lia. done.
Qed.
End one.

(** ** The scan *)

(** Between the issues of a cycle: where the scan of each thread goes on ([st]), and
    whether it has passed a memory operation that has not issued ([sn]). *)
Record issue_ok (G : list (list entry)) (c : core Q) (st : nat -> nat) (sn : nat -> bool) : Prop := {
  is_core : core_ok G (unit_ids c) c;
  is_zero j t rf l : at_thread G c j t rf l -> zero_ready rf (issue_ptr t) l.*2;
  is_covers j t rf l : at_thread G c j t rf l -> covers (t_temps t) (take (st j) l.*2) (sn j) }.

Lemma issue_marks G c st sn j t rf l x :
  issue_ok G c st sn -> at_thread G c j t rf l -> more_marks (nregs (t_options t)) (t_temps t) x ->
  let c' := c <| threads := <[j := t <| t_temps := x |>]> (threads c) |> in
  issue_ok G c' st sn /\ at_thread G c' j (t <| t_temps := x |>) rf l.
Proof.
  intros [Hc Hz Hv] Hat Hm c'.
  destruct (core_same_thread _ _ _ _ _ _ _ _ _ _ (t <| t_temps := x |>) Hc Hat) as [Hc' Hat']; [done..|apply Hm|].
  split; [split|done].
  - done.
  - intros j0 t0 rf0 l0 Hat0. destruct (decide (j0 = j)) as [->|Hne].
    + destruct (at_thread_once _ _ _ _ _ _ _ _ _ Hat' Hat0) as (-> & -> & ->). exact (Hz j t rf l Hat).
    + apply (Hz j0). destruct Hat0 as [A1 A2 A3]. split; [|done|done]. unfold c', update in A1; cbn in A1.
      by rewrite list_lookup_insert_ne in A1.
  - intros j0 t0 rf0 l0 Hat0. destruct (decide (j0 = j)) as [->|Hne].
    + destruct (at_thread_once _ _ _ _ _ _ _ _ _ Hat' Hat0) as (-> & -> & ->).
      eapply covers_more; [exact (Hv j t rf l Hat)|exact Hm|auto|auto].
    + apply (Hv j0 _ rf0). destruct Hat0 as [A1 A2 A3]. split; [|done|done]. unfold c', update in A1; cbn in A1.
      by rewrite list_lookup_insert_ne in A1.
Qed.

Lemma issue_go_on G c st sn j t rf l m seen :
  issue_ok G c st sn -> at_thread G c j t rf l -> covers (t_temps t) (take m l.*2) seen ->
  issue_ok G c (<[j := m]> st) (<[j := seen]> sn).
Proof.
  intros [Hc Hz Hv] Hat Hm. split; [done|done|]. intros j0 t0 rf0 l0 Hat0. destruct (decide (j0 = j)) as [->|Hne].
  - destruct (at_thread_once _ _ _ _ _ _ _ _ _ Hat Hat0) as (-> & -> & ->). by rewrite !fn_lookup_insert.
  - rewrite !fn_lookup_insert_ne by done. by apply (Hv j0 t0 rf0).
Qed.

Lemma issue_ok_ext G c st st' sn sn' :
  (forall j, st' j = st j) -> (forall j, sn' j = sn j) -> issue_ok G c st sn -> issue_ok G c st' sn'.
Proof. intros E1 E2 [Hc Hz Hv]. split; [done|done|]. intros j t rf l Hat. rewrite E1, E2. by eapply Hv. Qed.

Lemma meets_on_temps j t f x c (R : unit -> core Q -> Prop) :
  threads c !! j = Some t -> f (t_temps t) = Ok x ->
  R tt (c <| threads := <[j := t <| t_temps := x |>]> (threads c) |>) -> meets (on_temps (Z.of_nat j) f) c R.
Proof.
  intros Ht Hf HR. unfold on_temps. apply meets_bind. eapply meets_get_thread; [lia|rewrite Nat2Z.id; done|].
  apply meets_bind, meets_getsR. rewrite Hf. cbn. eapply meets_put_thread; [lia|rewrite Nat2Z.id; done|]. by rewrite Nat2Z.id.
Qed.

Lemma unissued_unexecuted G P c j t rf l id i :
  core_ok G P c -> at_thread G c j t rf l -> (id, i) ∈ l -> hasIssued i = false -> hasExecuted i = false.
Proof.
  intros Hc Hat Hi Hs. pose proof (view_at _ _ _ _ _ _ Hc _ _ _ _ Hat) as V. destruct (hasExecuted i) eqn:He; [|done].
  destruct (th_executed _ _ _ _ _ _ _ (vw_thread _ _ _ _ _ _ _ _ V) i (list_elem_of_fmap_2 snd _ _ Hi) He). congruence.
Qed.

(** What an attempt to issue the instruction at place [m] leaves. *)
Record tried (G : list (list entry)) (c : core Q) (st : nat -> nat) (sn : nat -> bool) (j m : nat) (t : thread)
    (rf : VanadisRegisterFile) (l : list entry) (id : Z) (i : VanadisInstruction) (r : bool * bool)
    (G' : list (list entry)) (c' : core Q) (t' : thread) (i' : VanadisInstruction) : Prop := {
  tr_at : at_thread G' c' j t' rf (<[m := (id, i')]> l);
  tr_ok : issue_ok G' c' st sn;
  tr_temps : t_temps t' = t_temps t;
  tr_options : t_options t' = t_options t;
  tr_issued : hasIssued i' = fst r;
  tr_same : fst r = false -> i' = i /\ snd r = sn j || is_memory i;
  tr_seen : fst r = true -> snd r = sn j;
  tr_code : code G' = code G;
  tr_still : still c c' }.

Lemma rename_ready G P (c : core Q) j t rf l (c1 : core Q) i1 :
  core_ok G P c -> at_thread G c j t rf l -> (forall k, the_stack k c1 = the_stack k c) ->
  rename_ok (nregs (t_options t)) nphys (rename_of c1 t i1).
Proof.
  intros Hc Hat Hst. pose proof (view_at _ _ _ _ _ _ Hc _ _ _ _ Hat) as V. split.
  - intros k. pose proof (co_stack _ _ _ _ _ _ Hc k) as Hs. rewrite <- Hst in Hs. by destruct k.
  - apply (vw_issue _ _ _ _ _ _ _ _ V).
  - apply (vw_retire _ _ _ _ _ _ _ _ V).
Qed.

Lemma issue_update G c st sn j t rf la lb id i G' c' t' i' :
  issue_ok G c st sn -> at_thread G c j t rf (la ++ (id, i) :: lb) -> st j = length la ->
  core_ok (<[j := la ++ (id, i') :: lb]> G) (unit_ids c') c' -> G' = <[j := la ++ (id, i') :: lb]> G ->
  threads c' = <[j := t']> (threads c) -> register_files c' = register_files c -> t_temps t' = t_temps t ->
  zero_ready rf (issue_ptr t') (la ++ (id, i') :: lb).*2 ->
  issue_ok G' c' st sn /\ at_thread G' c' j t' rf (la ++ (id, i') :: lb).
Proof.
  intros [Hc Hz Hv] Hat Hst Hc' -> Ht Hf Htm Hzero. pose proof Hat as [H1 H2 H3].
  assert (Hat' : at_thread (<[j := la ++ (id, i') :: lb]> G) c' j t' rf (la ++ (id, i') :: lb)).
  { split; [rewrite Ht; by eapply list_lookup_insert_eq, lookup_lt_Some|by rewrite Hf|by eapply list_lookup_insert_eq, lookup_lt_Some]. }
  assert (Hother : forall j0 t0 rf0 l0, j0 <> j -> at_thread (<[j := la ++ (id, i') :: lb]> G) c' j0 t0 rf0 l0 -> at_thread G c j0 t0 rf0 l0).
  { intros j0 t0 rf0 l0 Hne [A1 A2 A3]. rewrite Ht, list_lookup_insert_ne in A1 by done. rewrite Hf in A2.
    rewrite list_lookup_insert_ne in A3 by done. by split. }
  split; [split|done].
  - done.
  - intros j0 t0 rf0 l0 Hat0. destruct (decide (j0 = j)) as [->|Hne]; [|by eapply Hz, Hother].
    by destruct (at_thread_once _ _ _ _ _ _ _ _ _ Hat' Hat0) as (-> & -> & ->).
  - intros j0 t0 rf0 l0 Hat0. destruct (decide (j0 = j)) as [->|Hne]; [|by eapply Hv, Hother].
    destruct (at_thread_once _ _ _ _ _ _ _ _ _ Hat' Hat0) as (-> & -> & ->). specialize (Hv j t rf _ Hat).
    rewrite Htm, Hst, !fmap_app, !take_app_le, <- (length_fmap snd la), !firstn_all in * by (by rewrite length_fmap). done.
Qed.

(** Renaming after an allocation. *)
Lemma rename_issued G c st sn j t rf la lb id i c1 :
  issue_ok G c st sn -> at_thread G c j t rf (la ++ (id, i) :: lb) -> hasIssued i = false -> st j = length la ->
  clearance la.*2 i -> (forall k, Z.of_nat (length (isa_out k i)) <= unused (the_stack k c)) -> allocated id i c c1 ->
  meets (with_rename (Z.of_nat j) id (assignRegistersToInstruction (countISAIntReg t) (countISAFPReg t)) ;;
         on_ins id (fun i => i <| hasIssued := true |>) ;; mret (true, sn j)) c1
    (fun r c' => exists G' t' i', tried G c st sn j (length la) t rf (la ++ (id, i) :: lb) id i r G' c' t' i').
Proof.
  intros Hok Hat Hi Hst Hclear Hfree Hal. pose proof Hok as [Hc Hz Hv]. pose proof (view_at _ _ _ _ _ _ Hc _ _ _ _ Hat) as V.
  destruct (al_ins _ _ _ _ Hal) as (x & Hi1 & _). set (i1 := i <| hasExecuted := x |>) in *.
  assert (Hin : i ∈ (la ++ (id, i) :: lb).*2) by (rewrite fmap_app; clear; set_solver).
  pose proof (th_names _ _ _ _ _ _ _ (vw_thread _ _ _ _ _ _ _ _ V) i Hin) as Hn.
  assert (Hn1 : names_ok (nregs (t_options t)) i1) by (apply (names_erase _ i); [by destruct i|done]).
  pose proof (vw_ins _ _ _ _ _ _ _ _ V) as Hio. rewrite Forall_forall in Hio.
  apply meets_bind. eapply meets_with_rename; [lia|rewrite Nat2Z.id, (al_threads _ _ _ _ Hal); apply Hat|exact Hi1|].
  assert (Hcount : countISAIntReg t = Z.of_nat (nregs (t_options t) INT) /\ countISAFPReg t = Z.of_nat (nregs (t_options t) FP)).
  { pose proof (vw_counts _ _ _ _ _ _ _ _ V). unfold countISAIntReg, countISAFPReg, nregs. lia. }
  destruct Hcount as [-> ->]. eapply runs_mono.
  { apply (runs_assign _ nphys).
    - eapply rename_ready; [exact Hc|exact Hat|apply (al_stack _ _ _ _ Hal)].
    - exact Hn1.
    - apply (io_syscall _ _ (Hio i Hin)).
    - intros k. cbn [r_ins rename_of]. replace (stack_of k (rename_of c1 t i1)) with (the_stack k c1) by (by destruct k).
      rewrite (al_stack _ _ _ _ Hal). replace (isa_out k i1) with (isa_out k i) by (by destruct k). specialize (Hfree k).
      pose proof (unused_free _ _ (Z.of_nat (length (isa_out k i))) (co_stack _ _ _ _ _ _ Hc k)). lia. }
  intros u s' Has. apply meets_bind. eapply meets_on_ins.
  { unfold after_rename, update; cbn. apply lookup_insert_eq. }
  fold (issued_ins s'). fold (issued_core c1 j t id s'). apply meets_ret.
  pose proof (issued_ok G c c1 j t rf la lb id i i1 s' Hc Hat Hi (Hz _ _ _ _ Hat) Hclear Hal Hi1 Has Hfree) as Hc'.
  pose proof (issued_zero G c c1 j t rf la lb id i i1 s' Hc Hat Hi (Hz _ _ _ _ Hat) Hal Hi1 Has) as Hz'.
  destruct (issue_update G c st sn j t rf la lb id i (<[j := la ++ (id, issued_ins s') :: lb]> G) (issued_core c1 j t id s')
    (issued_thread t s') (issued_ins s')) as [Hok' Hat']; try done.
  { unfold issued_core, after_rename, update; cbn. by rewrite Nat2Z.id, (al_threads _ _ _ _ Hal). }
  { apply (al_files _ _ _ _ Hal). }
  exists (<[j := la ++ (id, issued_ins s') :: lb]> G), (issued_thread t s'), (issued_ins s'). split; try done.
  - rewrite insert_app_r_alt, Nat.sub_diag by done. exact Hat'.
  - apply (code_insert _ _ (la ++ (id, i) :: lb)); [apply Hat|]. apply code_replaced. unfold skeleton, issued_ins.
    exact (f_equal (fun x => (erase x) <| hasIssued := false |>) (as_ins _ _ _ _ Has)).
  - apply (still_thread _ _ j t (issued_thread t s')); [apply Hat| |by apply (al_files _ _ _ _ Hal)|exact (as_retire _ _ _ _ Has)].
    unfold issued_core, after_rename, update; cbn. by rewrite Nat2Z.id, (al_threads _ _ _ _ Hal).
Qed.

Lemma try_issue_ok G c st sn j t rf l m id i :
  issue_ok G c st sn -> at_thread G c j t rf l -> st j = m -> l !! m = Some (id, i) -> hasIssued i = false ->
  meets (try_issue (Z.of_nat j) id (sn j)) c (fun r c' => exists G' t' i', tried G c st sn j m t rf l id i r G' c' t' i').
Proof.
  intros Hok Hat Hst Hm Hi. pose proof Hok as [Hc Hz Hv]. pose proof (view_at _ _ _ _ _ _ Hc _ _ _ _ Hat) as V.
  pose proof (list_elem_of_lookup_2 _ _ _ Hm) as Hin. destruct (vw_heap _ _ _ _ _ _ _ _ V id i Hin) as [Hh _].
  assert (Hno : tried G c st sn j m t rf l id i (false, sn j || is_memory i) G c t i).
  { split; try done. by rewrite list_insert_id. }
  pose proof (th_names _ _ _ _ _ _ _ (vw_thread _ _ _ _ _ _ _ _ V) i (list_elem_of_fmap_2 snd _ _ Hin)) as Hn.
  destruct (resources_ok _ i (int_stack c) (fp_stack c) (t_issue t) (t_temps t) Hn (vw_issue _ _ _ _ _ _ _ _ V)
    (vw_temps _ _ _ _ _ _ _ _ V)) as (code & Ecode & Hcode).
  unfold try_issue. apply meets_bind. eapply meets_get_ins; [done|]. apply meets_bind.
  eapply meets_get_thread; [lia|rewrite Nat2Z.id; apply Hat|].
  apply meets_bind, meets_getsR. rewrite Ecode. cbn [yields].
  destruct (Z.eqb_spec code 0) as [->|_]; [|apply meets_ret; by exists G, t, i].
  destruct (Hcode eq_refl) as (Hfree & Hcin & Hcout).
  destruct (is_memory i && sn j) eqn:Hmem.
  { apply andb_prop in Hmem as [Hm1 Hm2]. apply meets_bind, meets_ret, meets_ret. exists G, t, i.
    by rewrite Hm1, orb_true_r in *. }
  apply meets_bind. eapply meets_mono.
  { apply (allocate_ok id i c Hh); [by eapply unissued_unexecuted|].
    pose proof (vw_ins _ _ _ _ _ _ _ _ V) as Hio. rewrite Forall_forall in Hio. apply (io_syscall j), Hio. exact (list_elem_of_fmap_2 snd _ _ Hin). }
  intros [|] c1; [|intros ->; apply meets_ret; by exists G, t, i]. intros Hal.
  rewrite <- (take_drop_middle l m (id, i) Hm) in Hat |- *. set (la := take m l) in *.
  assert (Hla : length la = m) by (unfold la; rewrite length_take; apply lookup_lt_Some in Hm; lia).
  rewrite <- Hla. eapply rename_issued; try done; [by rewrite Hla..|].
  specialize (Hv j t rf _ Hat). rewrite Hst, fmap_app, take_app_le, <- Hla, <- (length_fmap snd la), firstn_all in Hv
    by (by rewrite length_fmap, Hla).
  apply (covers_clearance _ _ _ _ Hv); [|done|done]. intros Hm1. by rewrite Hm1 in Hmem.
Qed.

(** The marks of an instruction are made. *)
Lemma issue_collect G c st sn j t rf l f (P : reg_temps -> Prop) :
  issue_ok G c st sn -> at_thread G c j t rf l ->
  (exists x, f (t_temps t) = Ok x /\ more_marks (nregs (t_options t)) (t_temps t) x /\ P x) ->
  meets (on_temps (Z.of_nat j) f) c (fun _ c' => exists t', issue_ok G c' st sn /\ at_thread G c' j t' rf l /\
    t_options t' = t_options t /\ more_marks (nregs (t_options t)) (t_temps t) (t_temps t') /\ P (t_temps t') /\ still c c').
Proof.
  intros Hok Hat (x & Hx & Hm & HP). eapply meets_on_temps; [apply Hat|exact Hx|].
  destruct (issue_marks G c st sn j t rf l x Hok Hat Hm) as [Hok' Hat'].
  exists (t <| t_temps := x |>). split_and!; try done. by eapply still_thread; [apply Hat|..].
Qed.

Lemma entry_at G c st sn j t rf l m id i :
  issue_ok G c st sn -> at_thread G c j t rf l -> l !! m = Some (id, i) ->
  heap c !! id = Some i /\ names_ok (nregs (t_options t)) i /\ temps_ok (nregs (t_options t)) (t_temps t) /\
  holds (t_rob t) l.*1 /\ l.*1 !! m = Some id.
Proof.
  intros [Hc _ _] Hat Hm. pose proof (view_at _ _ _ _ _ _ Hc _ _ _ _ Hat) as V. pose proof (list_elem_of_lookup_2 _ _ _ Hm) as Hin.
  split_and!; [apply (vw_heap _ _ _ _ _ _ _ _ V id i Hin)| |apply V|apply V|by rewrite list_lookup_fmap, Hm].
  apply (th_names _ _ _ _ _ _ _ (vw_thread _ _ _ _ _ _ _ _ V) i (list_elem_of_fmap_2 snd _ _ Hin)).
Qed.

(** The scan passes an instruction that does not issue. *)
Lemma scan_pass G c st sn j t rf l m id i seen :
  issue_ok G c st sn -> at_thread G c j t rf l -> l !! m = Some (id, i) -> covers (t_temps t) (take m l.*2) seen ->
  (hasIssued i = false -> (forall k r, r ∈ isa_in k i -> read_mark (t_temps t) k r) /\ (is_memory i = true -> seen = true)) ->
  meets (on_temps (Z.of_nat j) (collect_writes i)) c (fun _ c' => exists t',
    issue_ok G c' (<[j := S m]> st) (<[j := seen]> sn) /\ at_thread G c' j t' rf l /\ still c c').
Proof.
  intros Hok Hat Hm Hv Hr. destruct (entry_at _ _ _ _ _ _ _ _ _ _ _ Hok Hat Hm) as (_ & Hn & Ht & _).
  eapply meets_mono.
  { apply (issue_collect G c st sn j t rf l (collect_writes i) (fun x => forall k r, r ∈ isa_out k i -> write_mark x k r) Hok Hat).
    by apply collect_writes_ok. }
  intros u c' (t' & Hok' & Hat' & Ho & Hmore & Hw & Hst). exists t'. split; [|done]. eapply issue_go_on; [done..|].
  rewrite (take_S_r _ _ i) by (by rewrite list_lookup_fmap, Hm). apply covers_next; [|done|].
  - eapply covers_more; [exact Hv|exact Hmore|auto|auto].
  - intros Hs. destruct (Hr Hs) as [Hr1 Hr2]. split; [|done]. intros k r Hin. apply (mm_read _ _ _ Hmore). auto.
Qed.

(** What a scan from place [m] leaves: the place it stopped at. *)
Definition scanned (G : list (list entry)) (c : core Q) (st : nat -> nat) (sn : nat -> bool) (j m : nat)
    (r : option Z * bool) (c' : core Q) : Prop :=
  exists G' m', code G' = code G /\ (m <= m')%nat /\ (forall p, fst r = Some p -> p = Z.of_nat m') /\
    issue_ok G' c' (<[j := m']> st) (<[j := snd r]> sn) /\ still c c'.

Lemma scanned_next G c st sn j m G1 c1 seen r c' :
  code G1 = code G -> still c c1 -> scanned G1 c1 (<[j := S m]> st) (<[j := seen]> sn) j (S m) r c' -> scanned G c st sn j m r c'.
Proof.
  intros Hl Hs (G' & m' & L & Hle & Hp & Hok' & Hs'). exists G', m'.
  split_and!; [congruence|lia|done| |by transitivity c1]. eapply issue_ok_ext; [| |exact Hok']; intros j0;
    (destruct (decide (j0 = j)) as [->|Hne]; [by rewrite !fn_lookup_insert|by rewrite !fn_lookup_insert_ne]).
Qed.
Lemma scanned_here G c st sn j m G' c' r :
  issue_ok G' c' st sn -> st j = m -> snd r = sn j -> code G' = code G -> still c c' -> fst r = Some (Z.of_nat m) ->
  scanned G c st sn j m r c'.
Proof.
  intros Hok Hst Hsn Hl Hs Hr. exists G', m. rewrite Hr, Hsn. split_and!; [done|lia|by intros p [= <-]| |done].
  eapply issue_ok_ext; [| |exact Hok]; intros j0;
    (destruct (decide (j0 = j)) as [->|Hne]; [by rewrite fn_lookup_insert|by rewrite fn_lookup_insert_ne]).
Qed.

Lemma scan_ok n : forall G c st sn j t rf l m,
  issue_ok G c st sn -> at_thread G c j t rf l -> st j = m -> n = (length l - m)%nat ->
  meets (scan_rob n (Z.of_nat j) (Z.of_nat m) (sn j)) c (fun r c' => scanned G c st sn j m r c').
Proof.
  induction n as [|n IH]; intros G c st sn j t rf l m Hok Hat Hst Hl.
  { apply meets_ret. exists G, m. split_and!; [done|lia|done| |done]. eapply issue_go_on; [done..|].
    rewrite <- Hst. exact (is_covers _ _ _ _ Hok _ _ _ _ Hat). }
  destruct (lookup_lt_is_Some_2 l m) as [[id i] Hm]; [lia|].
  destruct (entry_at _ _ _ _ _ _ _ _ _ _ _ Hok Hat Hm) as (Hh & Hn & Ht & Hrob & Hkey).
  pose proof (is_covers _ _ _ _ Hok _ _ _ _ Hat) as Hv. rewrite Hst in Hv.
  assert (Hgo : forall G1 c1 seen t1, code G1 = code G -> still c c1 -> issue_ok G1 c1 (<[j := S m]> st) (<[j := seen]> sn) ->
    at_thread G1 c1 j t1 rf l -> meets (scan_rob n (Z.of_nat j) (Z.of_nat m + 1) seen) c1 (fun r c' => scanned G c st sn j m r c')).
  { intros G1 c1 seen t1 Hlen Hs1 Hok1 Hat1. specialize (IH G1 c1 _ _ j t1 rf l (S m) Hok1 Hat1).
    rewrite !fn_lookup_insert in IH. replace (Z.of_nat m + 1) with (Z.of_nat (S m)) by lia.
    eapply meets_mono; [apply IH; [done|lia]|]. intros r c'. by apply scanned_next. }
  cbn [scan_rob]. apply meets_bind. eapply meets_peekAt; [lia|rewrite Nat2Z.id; apply Hat|exact Hrob|exact Hkey|].
  apply meets_bind. eapply meets_get_ins; [done|]. apply meets_bind.
  destruct (hasIssued i) eqn:Hi.
  - apply meets_ret, meets_bind. eapply meets_mono; [eapply scan_pass; [done..|congruence]|].
    intros u c1 (t1 & Hok1 & Hat1 & Hs1). cbn [fst snd]. by eapply Hgo.
  - apply meets_bind. eapply meets_mono; [eapply try_issue_ok; done|].
    intros r c1 (G1 & t1 & i1 & [T1 T2 T3 T4 T5 T6 T7 T8 T9]). apply meets_bind. eapply meets_mono.
    { apply (issue_collect G1 c1 st sn j t1 rf _ (collect_reads i) (fun x => forall k r, r ∈ isa_in k i -> read_mark x k r) T2 T1).
      apply collect_reads_ok; [by rewrite T4|by rewrite T3, T4]. }
    intros u c2 (t2 & Hok2 & Hat2 & Ho2 & Hm2 & Hr2 & Hs2). apply meets_ret, meets_bind. destruct (fst r) eqn:Hr.
    + eapply meets_mono.
      { apply (issue_collect G1 c2 st sn j t2 rf _ (collect_writes i) (fun _ => True) Hok2 Hat2).
        destruct (collect_writes_ok (nregs (t_options t2)) i (t_temps t2)) as (x & Ex & Hx & _); [by rewrite Ho2, T4|rewrite Ho2; apply Hm2|].
        by exists x. }
      intros u' c3 (t3 & Hok3 & Hat3 & _ & _ & _ & Hs3). apply meets_ret.
      eapply scanned_here; [exact Hok3|done|exact (T7 eq_refl)|done| |done]. transitivity c1; [done|by transitivity c2].
    + destruct (T6 eq_refl) as [-> Hs]. rewrite list_insert_id in Hat2 by done.
      eapply meets_mono; [eapply (scan_pass _ _ _ _ _ _ _ _ _ _ _ (snd r) Hok2 Hat2 Hm)|].
      * eapply covers_more; [exact Hv|rewrite <- T3; exact Hm2|auto|]. rewrite Hs. by intros ->.
      * intros _. split; [done|]. intros Hmi. by rewrite Hs, Hmi, orb_true_r.
      * intros u' c3 (t3 & Hok3 & Hat3 & Hs3). cbn [fst snd]. eapply Hgo; [done| |done|done].
        transitivity c1; [done|by transitivity c2].
Qed.

(** ** The issue stage *)

Lemma issue_back G c st sn j m m' :
  issue_ok G c (<[j := m']> st) sn -> (m <= m')%nat -> issue_ok G c (<[j := m]> st) sn.
Proof.
  intros [Hc Hz Hv] Hle. split; [done|done|]. intros j0 t0 rf0 l0 Hat0. specialize (Hv j0 t0 rf0 l0 Hat0).
  destruct (decide (j0 = j)) as [->|Hne]; [|by rewrite !fn_lookup_insert_ne in * by done].
  rewrite !fn_lookup_insert in *. destruct Hv as [H1 H2 H3].
  assert (Hin : forall a, a ∈ take m l0.*2 -> a ∈ take m' l0.*2).
  { intros a (p & Hp & Hlt)%elem_of_take. apply elem_of_take. exists p. split; [done|lia]. }
  split; eauto.
Qed.

Lemma performIssue_ok G c st sn j :
  issue_ok G c st sn -> (j < length G)%nat ->
  meets (performIssue (Z.of_nat j) (Z.of_nat (st j)) (sn j)) c (fun r c' => exists G' m',
    code G' = code G /\ snd (fst r) = Z.of_nat m' /\ issue_ok G' c' (<[j := m']> st) (<[j := snd r]> sn) /\ still c c').
Proof.
  intros Hok Hj. pose proof (is_core _ _ _ _ Hok) as Hc. destruct (thread_exists _ _ _ _ _ _ Hc j Hj) as (t & rf & l & Hat).
  pose proof (view_at _ _ _ _ _ _ Hc _ _ _ _ Hat) as V.
  assert (Hst : covers (t_temps t) (take (st j) l.*2) (sn j)) by exact (is_covers _ _ _ _ Hok _ _ _ _ Hat).
  unfold performIssue. apply meets_bind. eapply meets_get_thread; [lia|rewrite Nat2Z.id; apply Hat|].
  destruct (t_halted t).
  { apply meets_ret. exists G, (st j). split_and!; [done|done| |done]. by eapply issue_go_on. }
  apply meets_bind. eapply meets_mono; [eapply scan_ok; [done|done|done|]|].
  { unfold size. rewrite (holds_count _ _ (vw_rob _ _ _ _ _ _ _ _ V)), length_fmap. lia. }
  intros r c' (G' & m' & Hlen & Hle & Hp & Hok' & Hs'). apply meets_ret. destruct (fst r) as [p|] eqn:Hr; cbn [fst snd].
  - exists G', m'. rewrite (Hp p eq_refl). done.
  - exists G', (st j). split_and!; [done|done| |done]. by eapply issue_back.
Qed.

Lemma next_thread_range cnt blocked cur n :
  0 <= cur < n -> let '(found, cur') := next_thread cnt blocked cur n in
  0 <= cur' < n /\ forall thr, found = Some thr -> 0 <= thr < n.
Proof.
  revert cur. induction cnt as [|cnt IH]; intros cur Hc; cbn [next_thread]; [done|].
  destruct (blocked cur); [|split; [done|by intros thr [= <-]]]. apply IH, Z.mod_pos_bound. lia.
Qed.

Lemma issue_turn G c st sn x :
  issue_ok G c st sn -> 0 <= x < hw_threads c -> issue_ok G (c <| m_curIssueHwThread := x |>) st sn.
Proof.
  intros [Hc Hz Hv] Hx. split.
  - apply (core_turns _ _ _ _ _ c); try done. split; [done|apply (co_turn _ _ _ _ _ _ Hc)].
  - intros j t rf l [A1 A2 A3]. by eapply Hz.
  - intros j t rf l [A1 A2 A3]. by eapply Hv.
Qed.

Definition starts_of (s : issue_state) (j : nat) : nat := Z.to_nat (rob_start s !!! j).
Definition seen_of (s : issue_state) (j : nat) : bool := unallocated_memory_op_seen s !!! j.

Lemma issue_loop_ok i : forall G c s,
  issue_ok G c (starts_of s) (seen_of s) -> length (rob_start s) = length G ->
  length (unallocated_memory_op_seen s) = length G -> Forall (Z.le 0) (rob_start s) ->
  meets (issue_loop i s) c (fun _ c' => exists G' st sn, issue_ok G' c' st sn /\ code G' = code G /\ still c c').
Proof.
  induction i as [|i IH]; intros G c s Hok L1 L2 L3; cbn [issue_loop].
  { apply meets_ret. by exists G, (starts_of s), (seen_of s). }
  pose proof (is_core _ _ _ _ Hok) as Hc. pose proof (co_turn _ _ _ _ _ _ Hc) as [Ht1 Ht2].
  apply meets_bind, meets_gets, meets_bind, meets_gets.
  pose proof (next_thread_range (Z.to_nat (hw_threads c)) (fun t => negb (rc_issue s !!! Z.to_nat t =? 0)) _ _ Ht1) as Hn.
  destruct (next_thread _ _ _ _) as [[thr|] cur']; destruct Hn as [Hcur Hthr].
  2: { apply meets_modify. exists G, (starts_of s), (seen_of s). split_and!; [by apply issue_turn|done|by apply still_same]. }
  specialize (Hthr thr eq_refl). unfold hw_threads in Hthr. rewrite (co_threads _ _ _ _ _ _ Hc) in Hthr.
  assert (Hlt : (Z.to_nat thr < length G)%nat) by lia.
  assert (Hst : rob_start s !!! Z.to_nat thr = Z.of_nat (starts_of s (Z.to_nat thr))).
  { unfold starts_of. rewrite Z2Nat.id; [done|]. rewrite Forall_forall in L3. apply L3.
    apply list_elem_of_lookup_total_2. lia. }
  apply meets_bind. rewrite Hst. rewrite <- (Z2Nat.id thr) at 1 by lia. change (unallocated_memory_op_seen s !!! Z.to_nat thr) with (seen_of s (Z.to_nat thr)).
  eapply meets_mono; [by apply performIssue_ok|]. intros [[issued start] seen] c1 (G1 & m' & Hcode & Es & Hok1 & Hs1). cbn in Es, Hok1. subst start.
  pose proof (code_length _ _ Hcode) as Hlen.
  pose proof (is_core _ _ _ _ Hok1) as Hc1.
  apply meets_bind, meets_modify. eapply meets_mono.
  - apply (IH G1); cbn; [|by rewrite length_insert, Hlen..|].
    + apply issue_turn.
      * eapply issue_ok_ext; [| |exact Hok1]; intros j; unfold starts_of, seen_of; cbn;
          (destruct (decide (j = Z.to_nat thr)) as [->|Hne];
             [rewrite fn_lookup_insert, list_lookup_total_insert_eq by lia|rewrite fn_lookup_insert_ne, list_lookup_total_insert_ne by done]);
          rewrite ?Nat2Z.id; done.
      * unfold hw_threads. rewrite (co_threads _ _ _ _ _ _ Hc1), (co_threads _ _ _ _ _ _ Hc), Hlen. apply Z.mod_pos_bound. lia.
    + apply Forall_insert; [done|lia].
  - intros u c' (G' & st & sn & Hok' & L & Hs'). exists G', st, sn. split_and!; [done|congruence|].
    transitivity c1; [done|]. eapply (transitivity (R := still)); [|exact Hs']. by apply still_same.
Qed.
End issue.

(** ** The execution stage keeps the invariant *)

Section execute.
Context {Q : Type} `{LoadStoreQueueLaws Q}.
Variables (wrapv : bool) (host : fp_operation -> list Z -> Z) (nphys : kind -> Z) (cycle : Z).
#[local] Abbreviation core_ok := (core_ok wrapv host nphys).
#[local] Abbreviation meets := (meets execution_failure).

Lemma unit_not_memory i : of_unit i -> of_memory i -> False.
Proof. unfold of_unit, of_memory, is_memory. by destruct (getInstFuncType (class i)). Qed.

Section run.
Variables (G : list (list entry)) (c : core Q) (P : list Z) (id : Z).
Hypothesis Hc : core_ok G (id :: P) c.

Lemma waiting_entry what : waiting G what id -> exists j t rf l i, at_thread G c j t rf l /\ (id, i) ∈ l /\
  heap c !! id = Some i /\ hasIssued i = true /\ hasExecuted i = false /\ what i /\ ins_ok j i /\ names_ok (nregs (t_options t)) i.
Proof.
  intros (l & i & Hl & Hi & Hs & Hx & Hw). destruct (thread_of_ids _ _ _ _ _ _ Hc l Hl) as (j & t & rf & Hat).
  pose proof (view_at _ _ _ _ _ _ Hc _ _ _ _ Hat) as V. exists j, t, rf, l, i. pose proof (list_elem_of_fmap_2 snd _ _ Hi) as Hi'.
  pose proof (vw_ins _ _ _ _ _ _ _ _ V) as Hio. rewrite Forall_forall in Hio.
  split_and!; try done; [apply (vw_heap _ _ _ _ _ _ _ _ V id i Hi)|by apply Hio|].
  apply (th_names _ _ _ _ _ _ _ (vw_thread _ _ _ _ _ _ _ _ V) i Hi').
Qed.

(** An instruction that has run. *)
Lemma run_progress j t rf l i s :
  at_thread G c j t rf l -> (id, i) ∈ l -> heap c !! id = Some i -> hasIssued i = true -> hasExecuted i = false -> of_unit i ->
  execution wrapv cycle host i (mkExec i rf) = Ok (tt, s) -> frame (mkExec i rf) s ->
  let c' := c <| heap ::= <[id := ins s]> |> <| register_files := <[j := regFile s]> (register_files c) |> in
  core_ok (advance (heap c') G) (if hasExecuted (ins s) then P else id :: P) c' /\ code (advance (heap c') G) = code G /\ still c c'.
Proof.
  intros Hat Hi Hh Hs Hx Hu Hex [He Hl Hcell] c'. pose proof (view_at _ _ _ _ _ _ Hc _ _ _ _ Hat) as V.
  pose proof (list_elem_of_fmap_2 snd _ _ Hi) as Hi'. cbn [ins regFile] in *.
  pose proof (vw_ins _ _ _ _ _ _ _ _ V) as Hio. rewrite Forall_forall in Hio. pose proof (io_thread _ _ (Hio i Hi')) as Hthr.
  assert (Hh' : heap c' = <[id := ins s]> (heap c)) by done.
  assert (Hf' : register_files c' = <[j := regFile s]> (register_files c)) by done.
  assert (Hp : progressed [id] (heap c) (heap c') (register_files c) (register_files c')).
  { rewrite Hh', Hf'. split.
    - intros id0 i0 Hi0. destruct (decide (id0 = id)) as [->|Hne].
      + rewrite Hh in Hi0. injection Hi0 as <-. exists (ins s). rewrite lookup_insert_eq. split_and!; [done|done|set_solver].
      + exists i0. by rewrite lookup_insert_ne.
    - intros id0 Hn. rewrite lookup_insert_ne by (intros ->; congruence). done.
    - by rewrite length_insert.
    - intros j0 rf0 Hrf0. destruct (decide (j0 = j)) as [->|Hne].
      + rewrite (ath_file _ _ _ _ _ _ Hat) in Hrf0. injection Hrf0 as <-. exists (regFile s).
        rewrite list_lookup_insert_eq by (eapply lookup_lt_Some, Hat). split_and!; [done|done|].
        intros k p Hp0 Hn. apply Hcell; [done|]. apply (Hn id); [set_solver|done|]. rewrite Hthr. apply Nat2Z.id.
      + exists rf0. by rewrite list_lookup_insert_ne. }
  assert (Hids : forall id0, id0 ∈ [id] -> waiting G (fun _ => True) id0).
  { intros id0 ->%list_elem_of_singleton. exists l, i. split_and!; try done. exact (list_elem_of_lookup_2 _ _ _ (ath_rob _ _ _ _ _ _ Hat)). }
  pose proof (co_units _ _ _ _ _ _ Hc) as Hnd. apply NoDup_cons in Hnd as [Hnid HndP].
  assert (Hunx : forall what id0, waiting G what id0 -> id0 <> id -> forall i0, heap c' !! id0 = Some i0 -> hasExecuted i0 = false).
  { intros what id0 (l0 & i1 & Hl0 & Hi1 & _ & Hx1 & _) Hne i0. rewrite Hh', lookup_insert_ne by done.
    destruct (thread_of_ids _ _ _ _ _ _ Hc l0 Hl0) as (j0 & t0 & rf0 & V0%(view_at _ _ _ _ _ _ Hc)).
    destruct (vw_heap _ _ _ _ _ _ _ _ V0 id0 i1 Hi1) as [-> _]. by intros [= <-]. }
  split_and!; [|by eapply advance_code|eapply progress_still; [exact Hc|exact Hids|exact Hp|done]].
  eapply core_progress; [exact Hc|exact Hids|exact Hp| |done|done|by intros []| | |apply (co_queued _ _ _ _ _ _ Hc)| | |done].
  - intros id0 i' rf' ->%list_elem_of_singleton. rewrite Hh', lookup_insert_eq. intros [= <-] _ _.
    rewrite Hf', (erase_thread _ _ He), Hthr, Nat2Z.id, list_lookup_insert_eq by (eapply lookup_lt_Some, Hat). intros [= <-].
    exists cycle, i, rf, (regFile s). split_and!; [done| |done| |done].
    + rewrite Hex. by destruct s.
    + intros k p. rewrite (erase_phys_in _ _ He). intros Hpin. symmetry.
      pose proof (thread_separate _ _ _ _ _ _ Hc _ _ _ (ath_thread _ _ _ _ _ _ Hat) (ath_rob _ _ _ _ _ _ Hat)) as Hsep.
      pose proof (vw_thread _ _ _ _ _ _ _ _ V) as Hth. apply Hcell; [eapply input_nonneg; [exact Hth|exact Hsep|exact Hi'|done|done]|].
      intros Hpo. eapply input_untouched; [exact Hth|exact Hsep|exact Hi'|exact Hs|exact Hpin|]. by exists i.
  - destruct (hasExecuted (ins s)); [done|apply (co_units _ _ _ _ _ _ Hc)].
  - assert (Hold : forall id0, id0 ∈ P -> id0 ∈ id :: P /\ forall i0, heap c' !! id0 = Some i0 -> hasExecuted i0 = false).
    { intros id0 Hin. split; [by right|]. eapply Hunx; [apply (co_unit _ _ _ _ _ _ Hc); by right|]. by intros ->. }
    destruct (hasExecuted (ins s)) eqn:Hx'; [done|]. intros id0 [->|Hin]%elem_of_cons; [|by apply Hold].
    split; [by left|]. intros i0. rewrite Hh', lookup_insert_eq. by intros [= <-].
  - intros id0 Hin. split; [done|]. pose proof (co_queue _ _ _ _ _ _ Hc id0 Hin) as Hw. eapply Hunx; [exact Hw|]. intros ->.
    destruct Hw as (l0 & i0 & Hl0 & Hi0 & _ & _ & Hm).
    rewrite (id_once _ _ _ _ _ _ Hc l0 l id i0 i Hl0 (list_elem_of_lookup_2 _ _ _ (ath_rob _ _ _ _ _ _ Hat)) Hi0 Hi) in Hm.
    by apply (unit_not_memory i).
  - eapply lsq_inv_frame; [apply (co_inv _ _ _ _ _ _ Hc)|done|]. intros id0 i0 _ Hi0.
    destruct (pg_ins _ _ _ _ _ Hp id0 i0 Hi0) as (i' & E & Ee & _). exists i'. split; [done|by apply erase_class].
Qed.

Lemma run_instruction_ok :
  meets (run_instruction wrapv cycle host id) c (fun _ c' => exists G' i',
    core_ok G' (if hasExecuted i' then P else id :: P) c' /\ heap c' !! id = Some i' /\ code G' = code G /\ units c' = units c /\ still c c').
Proof.
  destruct (waiting_entry of_unit) as (j & t & rf & l & i & Hat & Hi & Hh & Hs & Hx & Hu & [I1 I2 I3 I4] & Hn).
  { apply (co_unit _ _ _ _ _ _ Hc). by left. }
  pose proof (view_at _ _ _ _ _ _ Hc _ _ _ _ Hat) as V. pose proof (vw_thread _ _ _ _ _ _ _ _ V) as Hth.
  pose proof (thread_separate _ _ _ _ _ _ Hc _ _ _ (ath_thread _ _ _ _ _ _ Hat) (ath_rob _ _ _ _ _ _ Hat)) as Hsep.
  pose proof (list_elem_of_fmap_2 snd _ _ Hi) as Hi'. cbn [snd] in Hi'.
  assert (Hnn : phys_nonneg i).
  { intros k. split; apply Forall_forall; intros p Hp; [eapply input_nonneg|eapply output_nonneg]; try done; exact Hth. }
  assert (Hd : forall r, r ∈ phys_in INT i -> r ∉ phys_out INT i).
  { intros r Hr Hro. eapply input_untouched; [exact Hth|exact Hsep|exact Hi'|exact Hs|exact Hr|]. by exists i. }
  unfold run_instruction. apply meets_bind. eapply meets_get_ins; [done|]. rewrite I1.
  apply meets_bind, meets_getsR. eapply yields_index; [lia|rewrite Nat2Z.id; apply Hat|].
  apply meets_bind, meets_getsR.
  pose proof (execution_frame wrapv cycle host i rf (I3 (or_introl Hu)) Hnn (vw_file _ _ _ _ _ _ _ _ V) Hu (I4 Hu) Hd) as Hf.
  unfold VanadisFrame.execution_failure, Prelude.meets in Hf. unfold yields.
  destruct (execution wrapv cycle host i (mkExec i rf)) as [[[] s]|e] eqn:Hex; [|exact Hf]. cbn [fst snd].
  apply meets_bind, meets_modify, meets_bind, meets_getsR. cbn [register_files].
  rewrite set_index_in_range; [|cbn; pose proof (lookup_lt_Some _ _ _ (ath_file _ _ _ _ _ _ Hat)); lia].
  cbn [yields]. apply meets_modify. rewrite Nat2Z.id.
  pose proof (run_progress j t rf l i s Hat Hi Hh Hs Hx Hu Hex Hf) as (Hc' & Hcode & Hst). cbv zeta in Hc', Hcode, Hst.
  eexists _, (ins s). split_and!; [exact Hc'|by apply lookup_insert_eq|exact Hcode|done|exact Hst].
Qed.
End run.

Lemma tick_records_ok l : forall G c rest,
  core_ok G (fmap fu_ins l ++ rest) c ->
  meets (tick_records wrapv cycle host l) c (fun kept c' => exists G',
    core_ok G' (fmap fu_ins kept ++ rest) c' /\ code G' = code G /\ units c' = units c /\ still c c').
Proof.
  induction l as [|r l IH]; intros G c rest Hc; cbn [tick_records]; [apply meets_ret; by exists G|]. cbn [fmap list_fmap app] in Hc.
  assert (Hrest : forall kept G1 c1, core_ok G1 (fmap fu_ins l ++ fmap fu_ins kept ++ rest) c1 -> code G1 = code G -> units c1 = units c -> still c c1 ->
    meets (rest ← tick_records wrapv cycle host l; mret (kept ++ rest)) c1 (fun kept c' => exists G',
      core_ok G' (fmap fu_ins kept ++ rest) c' /\ code G' = code G /\ units c' = units c /\ still c c')).
  { intros kept G1 c1 Hc1 Hl1 Hu1 Hs1. apply meets_bind. eapply meets_mono; [by apply IH|].
    intros l' c' (G' & Hc' & Hl' & Hu' & Hs'). apply meets_ret. exists G'. split_and!; [|congruence|congruence|by transitivity c1].
    eapply core_perm; [|exact Hc']. rewrite fmap_app. solve_Permutation. }
  apply meets_bind. destruct (cycles_left r =? 0).
  - apply meets_bind. eapply meets_mono; [by eapply run_instruction_ok|]. intros u c1 (G1 & i' & Hc1 & Hh & Hl1 & Hu1 & Hs1).
    apply meets_bind. eapply meets_get_ins; [done|]. apply meets_ret. apply (Hrest _ G1); [|done|done|done].
    destruct (hasExecuted i'); [exact Hc1|]. eapply core_perm; [|exact Hc1]. cbn. solve_Permutation.
  - apply meets_ret. apply (Hrest _ G); [|done|done|done]. eapply core_perm; [|exact Hc]. cbn. solve_Permutation.
Qed.

Lemma tick_units_ok us : forall G c rest,
  core_ok G (records_of us ++ rest) c ->
  meets (tick_units wrapv cycle host us) c (fun us' c' => exists G',
    core_ok G' (records_of us' ++ rest) c' /\ code G' = code G /\ units c' = units c /\ still c c').
Proof.
  induction us as [|u us IH]; intros G c rest Hc; cbn [tick_units]; [apply meets_ret; by exists G|].
  unfold records_of in *. rewrite bind_cons, <- (assoc_L (++)) in Hc.
  apply meets_bind. unfold tick_unit. apply meets_bind. eapply meets_mono; [by apply tick_records_ok|].
  intros l c1 (G1 & Hc1 & Hl1 & Hu1 & Hs1). apply meets_ret, meets_bind. eapply meets_mono.
  { apply (IH G1 c1 (fmap fu_ins l ++ rest)). eapply core_perm; [|exact Hc1]. solve_Permutation. }
  intros us' c' (G' & Hc' & Hl' & Hu' & Hs'). apply meets_ret. exists G'. split_and!; [|congruence|congruence|by transitivity c1].
  rewrite bind_cons. eapply core_perm; [|exact Hc']. destruct u; cbn. solve_Permutation.
Qed.

Definition other_ids (us : unit_class -> list VanadisFunctionalUnit) (k : unit_class) : list Z :=
  [INT_ARITH; INT_DIV; FP_ARITH; FP_DIV; BRANCH] ≫= fun k' => if decide (k' = k) then [] else records_of (us k').
Lemma unit_ids_split (c : core Q) k : unit_ids c ≡ₚ records_of (units c k) ++ other_ids (units c) k.
Proof. unfold unit_ids, other_ids. destruct k; cbn; solve_Permutation. Qed.
Lemma with_units_split (c : core Q) k us : unit_ids (with_units c k us) ≡ₚ records_of us ++ other_ids (units c) k.
Proof. unfold unit_ids, other_ids, with_units, update. destruct k; cbn; solve_Permutation. Qed.

Lemma core_units G P c k us : core_ok G P c -> core_ok G P (with_units c k us).
Proof. intros Hc. apply (core_turns _ _ _ _ _ c); try done. apply (co_turn _ _ _ _ _ _ Hc). Qed.

Lemma tick_class_ok G c k :
  core_ok G (unit_ids c) c ->
  meets (tick_class wrapv cycle host k) c (fun _ c' => exists G', core_ok G' (unit_ids c') c' /\ code G' = code G /\ still c c').
Proof.
  intros Hc. unfold tick_class. apply meets_bind, meets_gets, meets_bind. eapply meets_mono.
  { apply (tick_units_ok _ G c (other_ids (units c) k)). eapply core_perm; [apply unit_ids_split|exact Hc]. }
  intros us c1 (G1 & Hc1 & Hl & Hu & Hs). apply meets_modify. fold (with_units c1 k us). exists G1. split_and!; [|done|done].
  eapply core_perm; [|apply core_units, Hc1]. by rewrite with_units_split, Hu.
Qed.

(** ** The load-store queue *)


Lemma queue_ready G P c : core_ok G P c -> ready lsq_ids lsq_inv (the_memory c).
Proof.
  intros Hc. split; [apply (co_inv _ _ _ _ _ _ Hc)|apply (co_queued _ _ _ _ _ _ Hc)|].
  intros id Hid. destruct (co_queue _ _ _ _ _ _ Hc id Hid) as (l & i & Hl & Hi & Hs & Hx & Hm).
  destruct (thread_of_ids _ _ _ _ _ _ Hc l Hl) as (j & t & rf & Hat). pose proof (view_at _ _ _ _ _ _ Hc _ _ _ _ Hat) as V.
  pose proof (vw_thread _ _ _ _ _ _ _ _ V) as Hth.
  pose proof (thread_separate _ _ _ _ _ _ Hc _ _ _ (ath_thread _ _ _ _ _ _ Hat) (ath_rob _ _ _ _ _ _ Hat)) as Hsep.
  pose proof (list_elem_of_fmap_2 snd _ _ Hi) as Hi'. cbn [snd] in Hi'.
  pose proof (vw_ins _ _ _ _ _ _ _ _ V) as Hio. rewrite Forall_forall in Hio. destruct (Hio i Hi') as [I1 I2 I3 I4].
  exists i. split; [apply (vw_heap _ _ _ _ _ _ _ _ V id i Hi)|]. split; [done|done|by apply I3; right| |lia|].
  - intros k. split; apply Forall_forall; intros p Hp; [eapply input_nonneg|eapply output_nonneg]; try done; exact Hth.
  - exists rf. rewrite I1, Nat2Z.id. split; [apply Hat|apply V].
Qed.

Lemma served_ok G c m' :
  core_ok G (unit_ids c) c -> served lsq_ids lsq_inv (the_memory c) m' ->
  let c' := c <| heap := e_heap m' |> <| register_files := registerFiles m' |> <| lsq := queue m' |> in
  core_ok (advance (heap c') G) (unit_ids c') c' /\ code (advance (heap c') G) = code G /\ still c c'.
Proof.
  intros Hc [S1 S2 S3 S4] c'.
  assert (Hw : forall id, id ∈ lsq_ids (lsq c) -> waiting G (fun _ => True) id).
  { intros id Hid. destruct (co_queue _ _ _ _ _ _ Hc id Hid) as (l & i & Hl & Hi & Hs & Hx & Hm). by exists l, i. }
  split_and!; [|by eapply advance_code|eapply progress_still; [exact Hc|exact Hw|exact S4|done]].
  eapply core_progress; [exact Hc|exact Hw|exact S4| |done|done|by intros []|apply (co_units _ _ _ _ _ _ Hc)| | | |by destruct m'|done].
  - intros id i' rf' Hid Hi' _ Hu _. exfalso.
    destruct (co_queue _ _ _ _ _ _ Hc id Hid) as (l & i & Hl & Hi & Hs & Hx & Hm).
    destruct (thread_of_ids _ _ _ _ _ _ Hc l Hl) as (j & t & rf & V%(view_at _ _ _ _ _ _ Hc)).
    destruct (vw_heap _ _ _ _ _ _ _ _ V id i Hi) as [Eh _]. destruct (pg_ins _ _ _ _ _ S4 id i Eh) as (i1 & E1 & Ee & _).
    cbn in Hi'. rewrite E1 in Hi'. injection Hi' as ->. apply (unit_not_memory i); [|done].
    unfold of_unit in *. by rewrite <- (erase_class _ _ Ee).
  - intros id Hid. split; [done|]. intros i' Hi'. destruct (co_unit _ _ _ _ _ _ Hc id Hid) as (l & i & Hl & Hi & Hs & Hx & Hu).
    destruct (thread_of_ids _ _ _ _ _ _ Hc l Hl) as (j & t & rf & V%(view_at _ _ _ _ _ _ Hc)).
    destruct (vw_heap _ _ _ _ _ _ _ _ V id i Hi) as [Eh _]. destruct (pg_ins _ _ _ _ _ S4 id i Eh) as (i1 & E1 & Ee & En).
    cbn in Hi'. rewrite E1 in Hi'. injection Hi' as ->. rewrite En; [done|]. intros Hq.
    destruct (co_queue _ _ _ _ _ _ Hc id Hq) as (l0 & i0 & Hl0 & Hi0 & _ & _ & Hm).
    rewrite (id_once _ _ _ _ _ _ Hc l0 l id i0 i Hl0 Hl Hi0 Hi) in Hm. by apply (unit_not_memory i).
  - eapply submseteq_NoDup; [exact S2|apply (co_queued _ _ _ _ _ _ Hc)].
  - intros id Hid. split; [by eapply elem_of_submseteq|]. intros i Hi. by eapply S3.
Qed.

(** A tick of the queue, or a response that reaches it. *)
Lemma on_memory_ok {A} G c (op : M (memory Q) A) :
  core_ok G (unit_ids c) c -> meets op (the_memory c) (fun _ m' => served lsq_ids lsq_inv (the_memory c) m') ->
  meets (on_memory op) c (fun _ c' => exists G', core_ok G' (unit_ids c') c' /\ code G' = code G /\ still c c').
Proof.
  intros Hc Hop. apply meets_zoom. eapply meets_mono; [exact Hop|]. intros a m' Hs. destruct (served_ok G c m' Hc Hs) as (Hc' & Hcode & Hst).
  eexists. split_and!; [exact Hc'|exact Hcode|exact Hst].
Qed.

Lemma performExecute_ok G c :
  core_ok G (unit_ids c) c ->
  meets (performExecute wrapv cycle host) c (fun _ c' => exists G', core_ok G' (unit_ids c') c' /\ code G' = code G /\ still c c').
Proof.
  intros Hc. unfold performExecute.
  assert (Hrest : forall G0 c0 (m : M (core Q) unit), (forall G1 c1, core_ok G1 (unit_ids c1) c1 ->
      meets m c1 (fun _ c' => exists G', core_ok G' (unit_ids c') c' /\ code G' = code G1 /\ still c1 c')) ->
    forall k, core_ok G0 (unit_ids c0) c0 -> meets (tick_class wrapv cycle host k ;; m) c0
      (fun _ c' => exists G', core_ok G' (unit_ids c') c' /\ code G' = code G0 /\ still c0 c')).
  { intros G0 c0 m Hm k Hc0. apply meets_bind. eapply meets_mono; [by apply tick_class_ok|]. intros u c1 (G1 & Hc1 & Hl1 & Hs1).
    eapply meets_mono; [by apply Hm|]. intros u' c' (G' & Hc' & Hl' & Hs'). exists G'. split_and!; [done|congruence|by transitivity c1]. }
  revert G c Hc. do 5 (intros G c Hc; apply Hrest; [clear G c Hc|exact Hc]).
  intros G c Hc. apply on_memory_ok; [exact Hc|]. apply lsq_tick_ok. by eapply queue_ready.
Qed.
End execute.
