(* ===== verification/VanadisRetire.v ===== *)
(** * VanadisRetire: misspeculation and retirement keep the invariant

    [handleMisspeculate_ok]: the instructions of a thread give back their registers,
    and the issue table is the retirement table again. [performRetire_ok]: the retirement
    stage keeps the invariant, and what it makes part of the architectural state are the
    results of the instructions at the front of the reorder buffer, in their order; those
    after a branch that was predicted wrongly are thrown away ([retires]). *)

From S2P Require Import Prelude VanadisRegs VanadisInst VanadisQueue VanadisRename VanadisFrame VanadisMem VanadisFree VanadisPipeline VanadisOrder VanadisCore VanadisIssue.

Section retire.
Context {Q : Type} `{LoadStoreQueueLaws Q}.
Variables (wrapv : bool) (host : fp_operation -> list Z -> Z) (nphys : kind -> Z).
#[local] Abbreviation core_ok := (core_ok wrapv host nphys).
#[local] Abbreviation meets := (meets execution_failure).

(** ** The units and the queue of a thread *)

Section clear.
Variables (G : list (list entry)) (c : core Q) (j : nat) (t : thread) (rf : VanadisRegisterFile) (l : list entry).
Hypothesis Hat : at_thread G c j t rf l.

Lemma not_of_thread P id : core_ok G P c -> (exists what, waiting G what id) ->
  exists i, heap c !! id = Some i /\ (hw_thread i <> Z.of_nat j -> id ∉ l.*1).
Proof.
  intros Hc (what & l0 & i & Hl0 & Hi & _). destruct (thread_of_ids _ _ _ _ _ _ Hc l0 Hl0) as (j0 & t0 & rf0 & Hat0).
  pose proof (view_at _ _ _ _ _ _ Hc _ _ _ _ Hat0) as V. exists i. split; [apply (vw_heap _ _ _ _ _ _ _ _ V id i Hi)|].
  intros Hne Hin. apply Hne. pose proof (vw_ins _ _ _ _ _ _ _ _ V) as Hio. rewrite Forall_forall in Hio.
  rewrite (io_thread _ _ (Hio i (list_elem_of_fmap_2 snd _ _ Hi))). f_equal.
  eapply id_thread; [exact Hc|apply Hat0|apply Hat|exact (list_elem_of_fmap_2 fst _ _ Hi)|done].
Qed.

Lemma clear_records_ok rs P : core_ok G P c -> (forall id, id ∈ fu_ins <$> rs -> id ∈ P) ->
  meets (clear_records (Z.of_nat j) rs) c (fun rs' c' => c' = c /\ fu_ins <$> rs' ⊆+ fu_ins <$> rs /\
    forall id, id ∈ fu_ins <$> rs' -> id ∉ l.*1).
Proof.
  intros Hc. induction rs as [|r rs IH]; intros Hin; cbn [clear_records].
  { apply meets_ret. split_and!; [done|done|set_solver]. }
  destruct (not_of_thread P (fu_ins r) Hc) as (i & Hi & Hn).
  { exists of_unit. apply (co_unit _ _ _ _ _ _ Hc), Hin. by left. }
  apply meets_bind. eapply meets_get_ins; [done|]. apply meets_bind. eapply meets_mono; [apply IH; intros; apply Hin; by right|].
  intros rs' c' (-> & Hs & Hd). apply meets_ret. destruct (Z.eqb_spec (hw_thread i) (Z.of_nat j)) as [E|Hne].
  - split_and!; [done|cbn; by apply submseteq_cons|done].
  - split_and!; [done|cbn; by apply submseteq_skip|]. cbn. intros id [->|Hid]%elem_of_cons; auto.
Qed.
Lemma clear_units_ok us P : core_ok G P c -> (forall id, id ∈ records_of us -> id ∈ P) ->
  meets (clear_units (Z.of_nat j) us) c (fun us' c' => c' = c /\ records_of us' ⊆+ records_of us /\
    forall id, id ∈ records_of us' -> id ∉ l.*1).
Proof.
  intros Hc. induction us as [|u us IH]; intros Hin; cbn [clear_units].
  { apply meets_ret. split_and!; [done|done|set_solver]. }
  unfold records_of in *. rewrite bind_cons in Hin.
  apply meets_bind. unfold clearByHWThreadID. apply meets_bind. eapply meets_mono.
  { apply (clear_records_ok _ P Hc). intros id Hid. apply Hin. set_solver. }
  intros rs c1 (-> & Hs1 & Hd1). apply meets_ret, meets_bind. eapply meets_mono; [apply IH; intros; apply Hin; set_solver|].
  intros us' c' (-> & Hs & Hd). apply meets_ret. rewrite !bind_cons. destruct u as [rs0 lt a]; unfold update; cbn.
  split_and!; [done|by apply submseteq_app|]. intros id [Hid|Hid]%elem_of_app; auto.
Qed.
End clear.

(** What clearing leaves as it is. *)
Record untouched (c c' : core Q) : Prop := {
  un_heap : heap c' = heap c;
  un_threads : threads c' = threads c;
  un_files : register_files c' = register_files c }.
Lemma untouched_trans c c1 c' : untouched c c1 -> untouched c1 c' -> untouched c c'.
Proof. intros [] []. split; congruence. Qed.
Lemma at_untouched G c c' j t rf l : untouched c c' -> at_thread G c j t rf l -> at_thread G c' j t rf l.
Proof. intros [U1 U2 U3] [A1 A2 A3]. split; [by rewrite U2|by rewrite U3|done]. Qed.

(** The units of a thread are cleared, class by class. *)
Definition clean (c : core Q) (l : list entry) (ks : list unit_class) : Prop :=
  forall k id, k ∈ ks -> id ∈ records_of (units c k) -> id ∉ l.*1.

Lemma core_fewer G P P' c : core_ok G P c -> P' ⊆+ P -> core_ok G P' c.
Proof.
  intros [C1 C2 C3 C4 C5 C6 C7 C8 C9 C10 C11 C12 C13] Hs. split; try done; [by eapply submseteq_NoDup|].
  intros id Hid. by eapply C9, elem_of_submseteq.
Qed.

Lemma clearFuncUnit_ok G c j t rf l k ks :
  core_ok G (unit_ids c) c -> at_thread G c j t rf l -> clean c l ks ->
  meets (clearFuncUnit (Z.of_nat j) k) c (fun _ c' => core_ok G (unit_ids c') c' /\ untouched c c' /\ clean c' l (k :: ks)).
Proof.
  intros Hc Hat Hcl. unfold clearFuncUnit. apply meets_bind, meets_gets, meets_bind. eapply meets_mono.
  { apply (clear_units_ok G c j t rf l Hat (units c k) (unit_ids c) Hc). intros id Hid. rewrite (unit_ids_split c k). set_solver. }
  intros us c' (-> & Hs & Hd). apply meets_modify. fold (with_units c k us). split_and!; [|done|].
  - eapply core_fewer; [apply core_units, Hc|]. rewrite with_units_split, (unit_ids_split c k). by apply submseteq_app.
  - intros k' id Hk Hid. unfold with_units, update in Hid; cbn in Hid. destruct (decide (k' = k)) as [->|Hne]; [by apply Hd|].
    apply (Hcl k' id); [set_solver|done].
Qed.

Definition forgotten (c : core Q) (l : list entry) : Prop :=
  (forall id, id ∈ unit_ids c -> id ∉ l.*1) /\ (forall id, id ∈ lsq_ids (lsq c) -> id ∉ l.*1).

Lemma clear_queue_ok G c j t rf l :
  core_ok G (unit_ids c) c -> at_thread G c j t rf l ->
  meets (on_memory (clearLSQByThreadID (Z.of_nat j))) c (fun _ c' => core_ok G (unit_ids c') c' /\ untouched c c' /\
    units c' = units c /\ forall id, id ∈ lsq_ids (lsq c') -> id ∉ l.*1).
Proof.
  intros Hc Hat. apply meets_zoom, meets_runs. eapply runs_mono; [apply lsq_clear_ok; by eapply queue_ready|].
  intros u m' (E1 & E2 & Hi & Hs & Hn). cbn in E1, E2.
  set (c' := c <| heap := e_heap m' |> <| register_files := registerFiles m' |> <| lsq := queue m' |>).
  assert (Hh : heap c' = heap c) by done. assert (Hf : register_files c' = register_files c) by done.
  split_and!; [| |done|].
  - pose proof Hc as [C1 C2 C3 C4 C5 C6 C7 C8 C9 C10 C11 C12 C13].
    split; rewrite ?Hh, ?Hf; try done.
    + by eapply submseteq_NoDup.
    + intros id Hid. by eapply C11, elem_of_submseteq.
    + unfold the_memory. cbn. by destruct m'.
  - by split.
  - intros id Hid. destruct (not_of_thread G c j t rf l Hat _ id Hc) as (i & Hii & Hnn).
    { exists of_memory. apply (co_queue _ _ _ _ _ _ Hc). by eapply elem_of_submseteq. }
    apply Hnn. by eapply Hn.
Qed.

(** The units and the queue forget the instructions of a thread. *)
Lemma forget_ok G c j t rf l (R : unit -> core Q -> Prop) (rest : M (core Q) unit) :
  core_ok G (unit_ids c) c -> at_thread G c j t rf l ->
  (forall c', core_ok G (unit_ids c') c' -> untouched c c' -> forgotten c' l -> meets rest c' R) ->
  meets (clearFuncUnit (Z.of_nat j) INT_ARITH ;; clearFuncUnit (Z.of_nat j) INT_DIV ;; clearFuncUnit (Z.of_nat j) FP_ARITH ;;
         clearFuncUnit (Z.of_nat j) FP_DIV ;; clearFuncUnit (Z.of_nat j) BRANCH ;;
         on_memory (clearLSQByThreadID (Z.of_nat j)) ;; rest) c R.
Proof.
  intros Hc Hat Hrest. assert (Hcl : clean c l []) by (intros k id; set_solver).
  assert (Hun : untouched c c) by done. revert Hc Hcl Hun. generalize c at 1 2 3 5 6. intros c0 Hc Hcl Hun.
  do 5 (apply meets_bind; eapply meets_mono; [eapply clearFuncUnit_ok; [exact Hc|by eapply at_untouched|exact Hcl]|]; clear Hc Hcl;
    let u := fresh "u" in let c1 := fresh "c" in let E := fresh "E" in intros u c1 (Hc & E & Hcl);
    apply (untouched_trans _ _ _ Hun) in E; clear Hun; rename E into Hun).
  apply meets_bind. eapply meets_mono; [eapply clear_queue_ok; [exact Hc|by eapply at_untouched]|]. intros u' c' (Hc' & Hat' & Eu & Hq).
  apply Hrest; [done|by eapply untouched_trans|]. split; [|done]. intros id. unfold unit_ids. rewrite Eu, !elem_of_app.
  intros [Hid|[Hid|[Hid|[Hid|Hid]]]]; (eapply Hcl; [|exact Hid]); set_solver.
Qed.

(** ** The reorder buffer is emptied *)

(** The first instructions, [la], have been deleted. *)
Record emptying (c : core Q) (la : list entry) (c' : core Q) : Prop := {
  em_threads : threads c' = threads c;
  em_files : register_files c' = register_files c;
  em_next : next_ins c' = next_ins c;
  em_lsq : lsq c' = lsq c;
  em_units : units c' = units c;
  em_turn : same_turn c c';
  em_heap id : id ∉ la.*1 -> heap c' !! id = heap c !! id;
  em_stack k : stack_ok (nphys k) (the_stack k c');
  em_free k : free (the_stack k c') = free (the_stack k c) ++ in_flight k la.*2 }.

Section empty.
Variables (G : list (list entry)) (c : core Q) (j : nat) (t : thread) (rf : VanadisRegisterFile) (l : list entry).
Hypothesis Hc : core_ok G (unit_ids c) c.
Hypothesis Hat : at_thread G c j t rf l.

Definition with_stacks (c1 : core Q) (si sf : VanadisRegisterStack) : core Q :=
  (c1 <| int_stack := si |>) <| fp_stack := sf |>.
Lemma after_same c1 id i (s : rename) :
  threads c1 = threads c -> heap c1 !! id = Some i -> r_ins s = i -> issue_isa_table s = t_issue t -> retire_isa_table s = t_retire t ->
  after_rename c1 (Z.of_nat j) id t s = with_stacks c1 (int_register_stack s) (fp_register_stack s).
Proof.
  intros Ht Hi E1 E2 E3. unfold after_rename. rewrite E1, E2, E3, Nat2Z.id.
  replace (t <| t_issue := t_issue t |> <| t_retire := t_retire t |>) with t by (by destruct t).
  rewrite Ht, list_insert_id by apply Hat. unfold update; cbn. rewrite insert_id by done. destruct c1; cbn in *. by rewrite Ht.
Qed.

Lemma return_ok c1 la id i :
  emptying c la c1 -> heap c1 !! id = Some i ->
  (forall k, Z.of_nat (length (free (the_stack k c1)) + length (issued_out k i)) <= nphys k) ->
  meets (when (hasIssued i) (with_rename (Z.of_nat j) id returnOutRegs)) c1 (fun _ c' => emptying c (la ++ [(id, i)]) c' ).
Proof.
  intros Hem Hi Hroom. pose proof Hem as [M1 M2 M3 M4 M5 M6 M7 M8 M9].
  assert (Hsnoc : forall k, in_flight k (la ++ [(id, i)]).*2 = in_flight k la.*2 ++ issued_out k i).
  { intros k. rewrite fmap_app, in_flight_app. cbn [fmap list_fmap snd]. rewrite in_flight_cons. cbn. by rewrite app_nil_r. }
  assert (Hheap : forall id', id' ∉ (la ++ [(id, i)]).*1 -> id' ∉ la.*1) by (intros id'; rewrite fmap_app; set_solver).
  apply meets_when; intros Hs.
  - pose proof (view_at _ _ _ _ _ _ Hc _ _ _ _ Hat) as V.
    eapply meets_with_rename; [lia|rewrite Nat2Z.id, M1; apply Hat|done|]. eapply runs_mono.
    { apply (runs_return (nregs (t_options t)) nphys).
      - split; [intros []; [apply (M8 INT)|apply (M8 FP)]|apply V|apply V].
      - intros k. specialize (Hroom k). unfold issued_out in Hroom. rewrite Hs in Hroom. by destruct k. }
    intros u s (A1 & A2 & A3 & A4 & A5). rewrite (after_same c1 id i s M1 Hi A2 A3 A4). split; try done.
    + intros id' Hn. apply M7, Hheap, Hn.
    + intros k. pose proof (rename_stack _ _ _ A1 k) as Hst. by destruct k.
    + intros k. rewrite Hsnoc, (assoc_L (++)), <- M9. pose proof (A5 k) as Hf. unfold issued_out. rewrite Hs. by destruct k.
  - split; try done.
    + intros id' Hn. apply M7, Hheap, Hn.
    + intros k. rewrite Hsnoc. unfold issued_out. rewrite Hs, app_nil_r. apply M9.
Qed.

Lemma delete_from_ok n : forall la c1,
  (exists lb, l = la ++ lb /\ length lb = n) -> emptying c la c1 ->
  meets (delete_from n (Z.of_nat j) (Z.of_nat (length la))) c1 (fun _ c' => emptying c l c').
Proof.
  pose proof (view_at _ _ _ _ _ _ Hc _ _ _ _ Hat) as V.
  induction n as [|n IH]; intros la c1 (lb & El & Hn) Hem; cbn [delete_from].
  { destruct lb; [|done]. rewrite app_nil_r in El. apply meets_ret. by rewrite El. }
  destruct lb as [|[id i] lb]; [done|]. injection Hn as Hn.
  assert (Hl : l = (la ++ [(id, i)]) ++ lb) by (by rewrite El, <- (assoc_L (++))).
  pose proof (ids_nodup _ _ _ _ _ _ Hc j l (ath_rob _ _ _ _ _ _ Hat)) as Hnd.
  assert (Hid : id ∉ la.*1).
  { rewrite El, fmap_app in Hnd. apply NoDup_app in Hnd as (_ & Hd & _). intros Hin. apply (Hd id Hin). by left. }
  assert (Hhi : heap c1 !! id = Some i).
  { rewrite (em_heap _ _ _ Hem) by done. apply (vw_heap _ _ _ _ _ _ _ _ V). rewrite El. set_solver. }
  apply meets_bind. eapply (meets_peekAt _ _ (length la) t l.*1 id); [lia|rewrite Nat2Z.id, (em_threads _ _ _ Hem); apply Hat|apply V| |].
  { rewrite El, fmap_app. apply list_lookup_middle. by rewrite length_fmap. }
  apply meets_bind. eapply meets_get_ins; [done|]. apply meets_bind. eapply meets_mono.
  { apply (return_ok c1 la id i Hem Hhi). intros k. pose proof (free_room _ _ _ _ _ _ Hc k j t l (ath_thread _ _ _ _ _ _ Hat) (ath_rob _ _ _ _ _ _ Hat)) as Hr.
    rewrite (em_free _ _ _ Hem), length_app. unfold retained in Hr.
    rewrite El, fmap_app, in_flight_app, fmap_cons, in_flight_cons, !length_app in Hr. cbn [snd] in Hr. lia. }
  intros u c2 [M1 M2 M3 M4 M5 M6 M7 M8 M9]. apply meets_bind, meets_modify.
  replace (Z.of_nat (length la) + 1) with (Z.of_nat (length (la ++ [(id, i)]))) by (rewrite length_app; cbn; lia).
  apply IH; [by exists lb|]. split; try done.
  intros id' Hn'. cbn. rewrite lookup_delete_ne; [by apply M7|]. rewrite fmap_app in Hn'. set_solver.
Qed.

(** ** Misspeculation *)

Definition restarted (q : VanadisCircularQueue Z) : thread :=
  (t <| t_rob := q |>) <| t_issue ::= reset_table (t_retire t) |>.

Lemma restarted_view h next q : holds q [] -> view_ok wrapv host h next j (restarted q) rf [].
Proof.
  intros Hq. pose proof (view_at _ _ _ _ _ _ Hc _ _ _ _ Hat) as V. pose proof (vw_retire _ _ _ _ _ _ _ _ V) as Hr.
  split; try apply V; [exact Hq| | |constructor|set_solver].
  - destruct Hr as [R1 R2 R3]. split; intros []; [apply (R1 INT)|apply (R1 FP)|apply (R2 INT)|apply (R2 FP)|apply (R3 INT)|apply (R3 FP)].
  - eapply thread_ok_ext; [|reflexivity|eapply thread_clear, V]. by intros [].
Qed.

Lemma restarted_step c1 c' q :
  forgotten c l -> emptying c l c1 -> holds q [] ->
  threads c' = <[j := restarted q]> (threads c) -> register_files c' = register_files c1 -> next_ins c' = next_ins c1 ->
  heap c' = heap c1 -> (forall k, the_stack k c' = the_stack k c1) -> units c' = units c1 -> lsq c' = lsq c1 -> same_turn c1 c' ->
  core_ok (<[j := []]> G) (unit_ids c') c'.
Proof.
  intros [Hfu Hfq] [M1 M2 M3 M4 M5 M6 M7 M8 M9] Hq E1 E2 E3 E4 E5 E6 E7 E8.
  assert (Hun : unit_ids c' = unit_ids c) by (unfold unit_ids; by rewrite E6, M5).
  eapply core_change; [exact Hc|exact Hat|]. split.
  - exact E1.
  - rewrite E2, M2. symmetry. apply list_insert_id, Hat.
  - rewrite E3, M3. lia.
  - intros id _ Hn. rewrite E4. by apply M7.
  - by apply restarted_view.
  - constructor.
  - intros id Hid. by apply not_elem_of_nil in Hid.
  - intros k. rewrite E5. apply M8.
  - intros k. rewrite E5, M9. pose proof (co_bottom _ _ _ _ _ _ Hc k) as Hb. by destruct (free (the_stack k c)).
  - intros k. rewrite E5, M9. unfold retained. cbn. rewrite app_nil_r. change (t_retire (restarted q)) with (t_retire t). solve_Permutation.
  - rewrite Hun. apply (co_units _ _ _ _ _ _ Hc).
  - intros id. rewrite Hun. intros Hid. left. split; [done|by apply Hfu].
  - rewrite E7, M4. apply (co_queued _ _ _ _ _ _ Hc).
  - intros id. rewrite E7, M4. intros Hid. left. split; [done|by apply Hfq].
  - eapply lsq_inv_frame; [apply (co_inv _ _ _ _ _ _ Hc)|cbn; congruence|]. cbn. intros id i Hid Hi. exists i.
    rewrite E4, M7; [done|by apply Hfq].
  - unfold same_turn in *. destruct E8, M6. split; congruence.
Qed.
End empty.

(** All that a misspeculation changes of the state a program sees is where it goes on. *)
Lemma handleMisspeculate_ok G c j t rf l new_ip :
  core_ok G (unit_ids c) c -> at_thread G c j t rf l ->
  meets (handleMisspeculate (Z.of_nat j) new_ip) c (fun _ c' => exists q,
    core_ok (<[j := []]> G) (unit_ids c') c' /\ threads c' = <[j := restarted t q]> (threads c) /\ register_files c' = register_files c /\
    (forall id, id ∉ l.*1 -> heap c' !! id = heap c !! id) /\ holds q []).
Proof.
  intros Hc Hat. unfold handleMisspeculate. eapply forget_ok; [exact Hc|exact Hat|].
  intros c1 Hc1 Hun Hfg. pose proof (at_untouched _ _ _ _ _ _ _ Hun Hat) as Hat1.
  pose proof (view_at _ _ _ _ _ _ Hc1 _ _ _ _ Hat1) as V. pose proof (vw_rob _ _ _ _ _ _ _ _ V) as Hrob.
  apply meets_bind. unfold clearROBMisspeculate. apply meets_bind. eapply meets_get_thread; [lia|rewrite Nat2Z.id; apply Hat1|].
  apply meets_bind. eapply meets_mono.
  { apply (delete_from_ok G c1 j t rf l Hc1 Hat1 (Z.to_nat (size (t_rob t))) [] c1).
    - exists l. split; [done|]. unfold size. rewrite (holds_count _ _ Hrob), length_fmap. lia.
    - split; try done; intros k; [apply (co_stack _ _ _ _ _ _ Hc1)|cbn; by rewrite app_nil_r]. }
  intros u c2 Hem. eapply meets_on_rob; [lia|rewrite Nat2Z.id, (em_threads _ _ _ Hem); apply Hat1|].
  eapply runs_mono; [by apply (runs_clear (t_rob t) l.*1)|]. intros u' q Hq.
  apply meets_bind. rewrite Nat2Z.id. eapply meets_on_thread; [lia| |].
  { rewrite Nat2Z.id. cbn. apply list_lookup_insert_eq. rewrite (em_threads _ _ _ Hem). eapply lookup_lt_Some, Hat1. }
  apply meets_modify. cbv beta. match goal with |- exists q, VanadisCore.core_ok _ _ _ _ (unit_ids ?x) _ /\ _ => set (c' := x) end.
  assert (Ht : threads c' = <[j := restarted t q]> (threads c1)).
  { unfold c', update; cbn. by rewrite Nat2Z.id, list_insert_insert_eq, (em_threads _ _ _ Hem). }
  exists q. split_and!.
  - eapply (restarted_step G c1 j t rf l Hc1 Hat1 c2 c' q Hfg Hem Hq Ht); done.
  - by rewrite Ht, (un_threads _ _ Hun).
  - change (register_files c') with (register_files c2). by rewrite (em_files _ _ _ Hem), (un_files _ _ Hun).
  - intros id Hn. change (heap c') with (heap c2). by rewrite (em_heap _ _ _ Hem), (un_heap _ _ Hun).
  - done.
Qed.
End retire.

(** ** The instructions that leave a reorder buffer *)

(** Where a branch goes that was predicted to go elsewhere. *)
Definition mispredicted (i : VanadisInstruction) : option Z :=
  match speculated i with
  | Some s => if takenAddress s =? speculatedAddress s then None else Some (takenAddress s)
  | None => None
  end.
(** The instructions that retire with an instruction: that of its delay slot. *)
Definition waits_for_delay (s : speculation) : bool :=
  match delayType s with VANADIS_NO_DELAY_SLOT => false | _ => true end.
Definition delays (i : VanadisInstruction) : bool :=
  match speculated i with Some s => waits_for_delay s | None => false end.
Definition delay_slot (i : VanadisInstruction) (ds : list VanadisInstruction) : Prop :=
  length ds = if delays i then 1%nat else 0%nat.
(** Where the decoder of a thread has been told to go on. *)
Definition restarts_of (j : nat) (new : list telling) : list Z :=
  omap (fun e => match e with SetInstructionPointer thr a => if decide (thr = Z.of_nat j) then Some a else None | _ => None end) new.

(** The instructions [ran] leave the buffer, from its front. When a branch leaves that was
    predicted wrongly, all that follows it is thrown away, and the decoder restarts where
    the branch goes. *)
Inductive retires : list VanadisInstruction -> list VanadisInstruction -> list Z -> list VanadisInstruction -> Prop :=
| retires_none l : retires l [] [] l
| retires_next i ds l ran rs l' : mispredicted i = None -> delay_slot i ds -> retires l ran rs l' ->
    retires (skeleton i :: (skeleton <$> ds) ++ l) (i :: ds ++ ran) rs l'
| retires_branch i ds gone a : mispredicted i = Some a -> delay_slot i ds ->
    retires (skeleton i :: (skeleton <$> ds) ++ gone) (i :: ds) [a] [].

Lemma retires_trans l ran rs l1 ran' rs' l' : retires l ran rs l1 -> retires l1 ran' rs' l' -> retires l (ran ++ ran') (rs ++ rs') l'.
Proof.
  induction 1 as [l|i ds l ran rs l1 Hm Hd _ IH|i ds gone a Hm Hd]; intros H'; [done|cbn; rewrite <- (assoc_L (++)); constructor; auto|].
  inversion H'; subst; try done. rewrite !app_nil_r. by constructor.
Qed.

(** ** Retirement in program order *)

Section commit.
Context {Q : Type} `{LoadStoreQueueLaws Q}.
Variables (wrapv : bool) (host : fp_operation -> list Z -> Z) (nphys : kind -> Z).
#[local] Abbreviation core_ok := (core_ok wrapv host nphys).
#[local] Abbreviation meets := (meets execution_failure).

(** ** The oldest instruction *)

(** The fields of a thread that retirement leaves until the registers are recovered. *)
Record popped (t t1 : thread) (l : list entry) : Prop := {
  pp_rob : holds (t_rob t1) l.*1;
  pp_options : t_options t1 = t_options t;
  pp_issue : t_issue t1 = t_issue t;
  pp_retire : t_retire t1 = t_retire t;
  pp_temps : t_temps t1 = t_temps t }.
Definition with_thread (c : core Q) (j : nat) (t : thread) : core Q := c <| threads := <[j := t]> (threads c) |>.

(** The instruction [i] has left the reorder buffer. *)
Record committed (c : core Q) (j : nat) (t : thread) (i : VanadisInstruction) (c' : core Q) (t' : thread) : Prop := {
  cm_threads : threads c' = <[j := t']> (threads c);
  cm_files : register_files c' = register_files c;
  cm_heap : heap c' = heap c;
  cm_options : t_options t' = t_options t;
  cm_retire k : retire_ptr t' k = assign (zip (isa_out k i) (phys_out k i)) (retire_ptr t k) }.

Section one.
Variables (G : list (list entry)) (c : core Q) (j : nat) (t : thread) (rf : VanadisRegisterFile).
Variables (id : Z) (i : VanadisInstruction) (l : list entry).
Hypothesis Hc : core_ok G (unit_ids c) c.
Hypothesis Hat : at_thread G c j t rf ((id, i) :: l).
Hypothesis Hs : hasIssued i = true.
Hypothesis Hx : hasExecuted i = true.

Lemma front_view : view_ok wrapv host (heap c) (next_ins c) j t rf ((id, i) :: l).
Proof. exact (view_at _ _ _ _ _ _ Hc _ _ _ _ Hat). Qed.
Lemma front_entry : heap c !! id = Some i /\ id < next_ins c.
Proof. apply (vw_heap _ _ _ _ _ _ _ _ front_view). by left. Qed.
Lemma front_ok : ins_ok j i /\ names_ok (nregs (t_options t)) i.
Proof.
  pose proof (vw_ins _ _ _ _ _ _ _ _ front_view) as Hio. rewrite Forall_forall in Hio.
  split; [apply Hio; by left|]. apply (th_names _ _ _ _ _ _ _ (vw_thread _ _ _ _ _ _ _ _ front_view)). by left.
Qed.
Lemma front_waits what id' : waiting G what id' -> id' ∉ ((id, i) :: l).*1 \/ waits_in l what id'.
Proof.
  intros Hw. destruct (waiting_where _ _ _ _ _ _ _ _ _ _ _ _ Hc Hat Hw) as [|(i0 & Hi0 & Hs0 & Hx0 & Hw0)]; [by left|right].
  exists i0. split; [|done]. apply elem_of_cons in Hi0 as [[= -> ->]|]; [congruence|done].
Qed.

Lemma commit_step t1 s' :
  popped t t1 l -> retired (nregs (t_options t)) nphys (rename_of c t1 i) s' ->
  let t' := (t1 <| t_issue := issue_isa_table s' |>) <| t_retire := retire_isa_table s' |> in
  let c' := after_rename (with_thread c j t1) (Z.of_nat j) id t1 s' in
  core_ok (<[j := l]> G) (unit_ids c') c' /\ committed c j t i c' t'.
Proof.
  intros [P1 P2 P3 P4 P5] [R1 R2 R3 R4 R5 R6] t' c'. pose proof front_view as V. destruct front_entry as [Hh Hlt].
  destruct front_ok as [Hio Hn]. cbn [r_ins rename_of] in *. pose proof (vw_thread _ _ _ _ _ _ _ _ V) as Hth.
  assert (Hthr : threads c' = <[j := t']> (threads c)).
  { unfold c', after_rename, with_thread, update; cbn. by rewrite Nat2Z.id, list_insert_insert_eq. }
  assert (Hhp : heap c' = heap c) by (unfold c', after_rename, update; cbn; rewrite R2; by apply insert_id).
  assert (Hret : forall k, retire_ptr t' k = assign (zip (isa_out k i) (phys_out k i)) (retire_ptr t k)).
  { intros k. unfold retire_ptr. rewrite <- P4. apply R4. }
  assert (Ho : t_options t' = t_options t) by exact P2.
  split; [|by split].
  eapply core_change; [exact Hc|exact Hat|]. split.
  - exact Hthr.
  - symmetry. apply list_insert_id, Hat.
  - done.
  - intros id' _ _. by rewrite Hhp.
  - rewrite Hhp. destruct V as [V1 V2 V3 V4 V5 V6 V7 V8 V9 V10 V11]. rewrite <- P5 in V4.
    split; rewrite ?Ho; try done.
    + exact (rename_issue _ _ _ R1).
    + exact (rename_retire _ _ _ R1).
    + eapply thread_ok_ext; [| |eapply (thread_retire _ _ _ _ _ _ i); [exact Hth|exact Hs]].
      * intros k. unfold issue_ptr. rewrite <- P3. apply R3.
      * intros k. unfold renaming. rewrite Hs. apply Hret.
    + by apply Forall_cons in V10 as [_ V10].
    + intros id' i' Hin. apply V11. by right.
  - pose proof (ids_nodup _ _ _ _ _ _ Hc j _ (ath_rob _ _ _ _ _ _ Hat)) as Hnd. by apply NoDup_cons in Hnd as [_ Hnd].
  - intros id' Hin. left. by right.
  - intros k. pose proof (rename_stack _ _ _ R1 k) as Hst. by destruct k.
  - intros k. destruct (R6 k) as [x Hpre]. pose proof (co_bottom _ _ _ _ _ _ Hc k) as Hb.
    replace (free (the_stack k c')) with (free (the_stack k c) ++ x) by (by destruct k). by destruct (free (the_stack k c)).
  - intros k. pose proof (R5 k) as Hp. unfold retained. cbn [fmap list_fmap snd]. rewrite in_flight_cons.
    replace (issued_out k i) with (phys_out k i) by (unfold issued_out; by rewrite Hs).
    replace (free (the_stack k c')) with (free (stack_of k s')) by (by destruct k).
    replace (free (the_stack k c)) with (free (stack_of k (rename_of c t1 i))) by (by destruct k).
    change (ptr k (t_retire t')) with (ptr k (retire_isa_table s')). rewrite (assoc_L (++)), Hp. cbn [retire_isa_table rename_of]. rewrite P4.
    solve_Permutation.
  - apply (co_units _ _ _ _ _ _ Hc).
  - intros id' Hid. destruct (front_waits of_unit id' (co_unit _ _ _ _ _ _ Hc id' Hid)); auto.
  - apply (co_queued _ _ _ _ _ _ Hc).
  - intros id' Hid. destruct (front_waits of_memory id' (co_queue _ _ _ _ _ _ Hc id' Hid)); auto.
  - eapply lsq_inv_frame; [apply (co_inv _ _ _ _ _ _ Hc)|done|]. intros id' i' _ Hi'. exists i'. split; [|done]. cbn in *. by rewrite Hhp.
  - done.
Qed.

Lemma pop_ok : meets (on_rob (Z.of_nat j) pop) c (fun y c' => y = id /\ exists t1, popped t t1 l /\ c' = with_thread c j t1).
Proof.
  eapply meets_on_rob; [lia|rewrite Nat2Z.id; apply Hat|]. rewrite Nat2Z.id.
  eapply runs_mono; [eapply (runs_pop _ _ (vw_rob _ _ _ _ _ _ _ _ front_view)); reflexivity|].
  intros y q [-> Hq]. split; [done|]. by exists (t <| t_rob := q |>).
Qed.
Lemma flags_ok f t1 : popped t t1 l ->
  meets (update_thread_flags (Z.of_nat j) f) (with_thread c j t1) (fun _ c' => exists t2, popped t t2 l /\ c' = with_thread c j t2).
Proof.
  intros Hp. apply meets_when; intros _; [|by exists t1].
  eapply (meets_on_thread _ _ _ t1); [lia|rewrite Nat2Z.id; cbn; by eapply list_lookup_insert_eq, lookup_lt_Some, Hat|].
  rewrite Nat2Z.id. destruct Hp as [P1 P2 P3 P4 P5]. exists (t1 <| t_fp_flags ::= updateFPFlags f |>). split; [done|].
  unfold with_thread, update; cbn. by rewrite list_insert_insert_eq.
Qed.
Lemma recover_ok t1 : popped t t1 l ->
  meets (with_rename (Z.of_nat j) id recoverRetiredRegisters) (with_thread c j t1) (fun _ c' => exists t',
    core_ok (<[j := l]> G) (unit_ids c') c' /\ committed c j t i c' t' /\
    sequential wrapv host (decoder_opts rf) i (arch (decoder_opts rf) (retire_ptr t) rf) (arch (decoder_opts rf) (retire_ptr t') rf)).
Proof.
  intros Hp. destruct front_ok as [Hio Hn]. pose proof front_view as V. destruct front_entry as [Hh _].
  eapply (meets_with_rename _ _ _ _ t1 i); [lia| |exact Hh|].
  { rewrite Nat2Z.id. cbn. by eapply list_lookup_insert_eq, lookup_lt_Some, Hat. }
  eapply runs_mono; [apply (runs_recover (nregs (t_options t)) nphys)|].
  - destruct (rename_ready _ _ _ _ _ _ _ _ _ _ (with_thread c j t1) i Hc Hat) as [A B C]; [by intros []|].
    split; [exact A|cbn; rewrite (pp_issue _ _ _ Hp); apply V|cbn; rewrite (pp_retire _ _ _ Hp); apply V].
  - exact Hn.
  - apply (io_syscall _ _ Hio).
  - intros k. pose proof (free_room _ _ _ _ _ _ Hc k _ _ _ (ath_thread _ _ _ _ _ _ Hat) (ath_rob _ _ _ _ _ _ Hat)) as Hr.
    unfold retained in Hr. cbn [fmap list_fmap snd] in Hr. rewrite in_flight_cons, !length_app in Hr.
    unfold issued_out in Hr. rewrite Hs in Hr. destruct k; cbn in *; lia.
  - intros u s' Hr. destruct (commit_step t1 s' Hp Hr) as [Hc' Hcm]. eexists. split_and!; [exact Hc'|exact Hcm|].
    apply (commit_sequential wrapv host (nregs (t_options t)) rf (issue_ptr t) (retire_ptr t) i l.*2).
    + apply (vw_thread _ _ _ _ _ _ _ _ V).
    + exact Hs.
    + rewrite (vw_opts _ _ _ _ _ _ _ _ V). apply (vw_zero _ _ _ _ _ _ _ _ V).
    + exact Hx.
    + apply (cm_retire _ _ _ _ _ _ Hcm).
Qed.
End one.

Lemma core_delete G P c id : core_ok G P c -> id ∉ (mjoin G).*1 -> core_ok G P (c <| heap ::= delete id |>).
Proof.
  intros Hc Hn. pose proof Hc as [C1 C2 C3 C4 C5 C6 C7 C8 C9 C10 C11 C12 C13].
  assert (Hne : forall l id' i, l ∈ G -> (id', i) ∈ l -> id' <> id).
  { intros l id' i Hl Hi ->. apply Hn. apply (list_elem_of_fmap_2 fst _ (id, i)). apply list_elem_of_join. by exists l. }
  split; try done.
  - intros j t rf l Ht Hf Hl. destruct (C3 j t rf l Ht Hf Hl) as [V1 V2 V3 V4 V5 V6 V7 V8 V9 V10 V11]. split; try done.
    intros id' i Hi. destruct (V11 id' i Hi) as [E Hlt]. split; [|done]. cbn. rewrite lookup_delete_ne; [done|].
    intros <-. by apply (Hne l id i (list_elem_of_lookup_2 _ _ _ Hl) Hi).
  - eapply lsq_inv_frame; [exact C12|done|]. intros id' i Hid Hi. exists i. split; [|done]. cbn in *.
    rewrite lookup_delete_ne; [done|]. intros <-. destruct (C11 id Hid) as (l & i0 & Hl & Hi0 & _). by apply (Hne l id i0 Hl Hi0).
Qed.

Lemma front_gone G P c j id i l : core_ok G P c -> G !! j = Some ((id, i) :: l) -> id ∉ (mjoin (<[j := l]> G)).*1.
Proof.
  intros Hc Hl. pose proof (co_ids _ _ _ _ _ _ Hc) as Hn. pose proof (join_insert_perm G j _ l Hl) as Hp.
  assert (Hp' : mjoin G ≡ₚ (id, i) :: mjoin (<[j := l]> G)).
  { apply (Permutation_app_inv_r l). rewrite <- Hp. solve_Permutation. }
  rewrite Hp' in Hn. by apply NoDup_cons in Hn as [Hn _].
Qed.

(** What a part of the retirement of a thread leaves: [l'] is in the reorder buffer. *)
Record retiring (G : list (list entry)) (c : core Q) (j : nat) (t : thread) (rf : VanadisRegisterFile)
    (ran : list VanadisInstruction) (l' : list entry) (c' : core Q) (t' : thread) : Prop := {
  rg_core : core_ok (<[j := l']> G) (unit_ids c') c';
  rg_threads : threads c' = <[j := t']> (threads c);
  rg_files : register_files c' = register_files c;
  rg_executes : executes wrapv host (decoder_opts rf) ran (arch (decoder_opts rf) (retire_ptr t) rf) (arch (decoder_opts rf) (retire_ptr t') rf) }.

Lemma retiring_at G c j t rf l0 ran l' c' t' :
  at_thread G c j t rf l0 -> retiring G c j t rf ran l' c' t' -> at_thread (<[j := l']> G) c' j t' rf l'.
Proof.
  intros [A1 A2 A3] [_ R2 R3 _]. split; [rewrite R2; by eapply list_lookup_insert_eq, lookup_lt_Some|by rewrite R3|by eapply list_lookup_insert_eq, lookup_lt_Some].
Qed.

(** The front of the buffer leaves it; what follows deletes the instruction. *)
Lemma retire_next G c j t rf l0 ran id i l c1 t1 f :
  at_thread G c j t rf l0 -> retiring G c j t rf ran ((id, i) :: l) c1 t1 -> hasExecuted i = true ->
  meets (y ← on_rob (Z.of_nat j) pop; update_thread_flags (Z.of_nat j) f ;; mret y) c1 (fun y c2 => y = id /\ heap c2 = heap c1 /\
    heap c1 !! id = Some i /\ hw_thread i = Z.of_nat j /\ (id ∉ (mjoin (<[j := l]> G)).*1) /\
    meets (with_rename (Z.of_nat j) id recoverRetiredRegisters) c2 (fun _ c' => exists t', retiring G c j t rf (ran ++ [i]) l c' t')).
Proof.
  intros Hat0 Hr Hx. pose proof (retiring_at _ _ _ _ _ _ _ _ _ _ Hat0 Hr) as Hat. destruct Hr as [Hc R2 R3 R4].
  set (G1 := <[j := (id, i) :: l]> G) in *. pose proof (view_at _ _ _ _ _ _ Hc _ _ _ _ Hat) as V.
  destruct (th_executed _ _ _ _ _ _ _ (vw_thread _ _ _ _ _ _ _ _ V) i ltac:(by left) Hx) as [Hs _].
  destruct (front_ok _ _ _ _ _ _ _ _ Hc Hat) as [[Hio _ _ _] _]. destruct (front_entry _ _ _ _ _ _ _ _ Hc Hat) as [Hh _].
  assert (Hg : <[j := l]> G1 = <[j := l]> G) by apply list_insert_insert_eq.
  apply meets_bind. eapply meets_mono; [by eapply (pop_ok G1 c1 j t1 rf)|]. intros y c2 (-> & t2 & Hp & ->).
  apply meets_bind. eapply meets_mono; [by eapply (flags_ok G1 c1 j t1 rf id i l)|]. intros u c3 (t3 & Hp3 & ->). apply meets_ret.
  split_and!; [done|done|done|done|rewrite <- Hg; eapply front_gone; [exact Hc|apply Hat]|].
  eapply meets_mono; [by eapply (recover_ok G1 c1 j t1 rf id i l)|]. intros u' c' (t' & Hc' & Hcm & Hseq). exists t'. split.
  - by rewrite <- Hg.
  - by rewrite (cm_threads _ _ _ _ _ _ Hcm), R2, list_insert_insert_eq.
  - by rewrite (cm_files _ _ _ _ _ _ Hcm).
  - eapply executes_app; [exact R4|by apply executes_one].
Qed.

Lemma meets_then {St A B} ok (m : M St A) (k : M St unit) (h : A -> M St B) s R :
  Prelude.meets ok (y ← m; k ;; mret y) s (fun y s' => Prelude.meets ok (h y) s' R) -> Prelude.meets ok (y ← m; k ;; h y) s R.
Proof.
  unfold Prelude.meets, mbind, M_bind, mret, M_ret. destruct (m s) as [[y s1]|e]; [|done]. by destruct (k s1) as [[[] s2]|e].
Qed.

Lemma pause_ok i (c : core Q) : meets (pause i) c (fun _ c' => c' = c).
Proof. unfold pause. apply meets_bind, meets_gets, meets_when; intros _; done. Qed.

Lemma retiring_delete G c j t rf ran l c1 t1 id :
  retiring G c j t rf ran l c1 t1 -> id ∉ (mjoin (<[j := l]> G)).*1 ->
  retiring G c j t rf ran l (c1 <| heap ::= delete id |>) t1.
Proof. intros [R1 R2 R3 R4] Hn. split; try done. by eapply core_delete. Qed.

Lemma retire_delay_ok G c j t rf l0 ran id i l c1 t1 f :
  at_thread G c j t rf l0 -> retiring G c j t rf ran ((id, i) :: l) c1 t1 -> hasExecuted i = true ->
  meets (retire_delay (Z.of_nat j) (Z.of_nat j) f) c1 (fun _ c' => exists t', retiring G c j t rf (ran ++ [i]) l c' t').
Proof.
  intros Hat0 Hr Hx. unfold retire_delay. apply meets_then.
  eapply meets_mono; [by eapply retire_next|]. intros y c2 (-> & Eh & Hh & Ht & Hn & Hm).
  apply meets_bind. eapply meets_get_ins; [by rewrite Eh|]. rewrite Ht. apply meets_bind.
  eapply meets_mono; [exact Hm|]. intros u c' (t' & Hr'). apply meets_modify. exists t'. by apply retiring_delete.
Qed.

(** What the retirement of the instructions [ran] leaves of a thread: the rest of its
    reorder buffer, or nothing when execution goes on elsewhere. *)
Record left (G : list (list entry)) (c : core Q) (j : nat) (t : thread) (rf : VanadisRegisterFile) (l : list entry)
    (ran : list VanadisInstruction) (reset_to : option Z) (c' : core Q) : Prop := {
  lf_core : exists G' l' gone, core_ok G' (unit_ids c') c' /\ code G' = <[j := code_of l']> (code G) /\
    code_of l = (skeleton <$> ran) ++ gone /\ code_of l' = match reset_to with Some _ => [] | None => gone end;
  lf_thread : exists t', threads c' = <[j := t']> (threads c) /\
    executes wrapv host (decoder_opts rf) ran (arch (decoder_opts rf) (retire_ptr t) rf) (arch (decoder_opts rf) (retire_ptr t') rf);
  lf_files : register_files c' = register_files c }.

Lemma restarted_arch o rf t q : arch o (retire_ptr (restarted t q)) rf = arch o (retire_ptr t) rf.
Proof. done. Qed.

(** The end of [clean_up]: execution goes on elsewhere when the branch was predicted
    wrongly. *)
Lemma finish_ok G c j t rf l0 ran id i l c1 t1 (reset_to : option Z) :
  at_thread G c j t rf l0 -> retiring G c j t rf ran l c1 t1 -> id ∉ (mjoin (<[j := l]> G)).*1 ->
  l0.*2 = ran ++ l.*2 ->
  meets (pause i ;; match reset_to with Some a => handleMisspeculate (Z.of_nat j) a | None => skip end ;; delete_ins id) c1
    (fun _ c' => left G c j t rf l0 ran reset_to c').
Proof.
  intros Hat0 Hr Hn Hp. assert (Hcode : code_of l0 = (skeleton <$> ran) ++ code_of l) by (unfold code_of; by rewrite Hp, fmap_app).
  apply meets_bind. eapply meets_mono; [apply pause_ok|]. intros u c2 ->. apply meets_bind.
  pose proof (retiring_at _ _ _ _ _ _ _ _ _ _ Hat0 Hr) as Hat1. pose proof Hr as [R1 R2 R3 R4]. destruct reset_to as [a|].
  - eapply meets_mono; [by eapply handleMisspeculate_ok|]. intros u' c' (q & Hc' & Ht' & Hf' & _ & _). apply meets_modify. split; try done.
    + exists (<[j := []]> (<[j := l]> G)), [], (code_of l). split_and!; [|unfold code; by rewrite list_insert_insert_eq, list_fmap_insert|done|done].
      apply core_delete; [exact Hc'|]. rewrite list_insert_insert_eq.
      intros Hin. apply Hn. pose proof (join_insert_perm (<[j := l]> G) j l [] (ath_rob _ _ _ _ _ _ Hat1)) as Hperm.
      rewrite list_insert_insert_eq, app_nil_r in Hperm. rewrite <- Hperm, fmap_app. set_solver.
    + exists (restarted t1 q). split; [cbn; by rewrite Ht', R2, list_insert_insert_eq|]. by rewrite restarted_arch.
    + cbn. by rewrite Hf'.
  - apply meets_ret, meets_modify. destruct (retiring_delete _ _ _ _ _ _ _ _ _ _ Hr Hn) as [R1' R2' R3' R4']. split; try done.
    + exists (<[j := l]> G), l, (code_of l). split_and!; [exact R1'|unfold code; by rewrite list_fmap_insert|done|done].
    + by exists t1.
Qed.

Lemma retiring_start G c j t rf l : core_ok G (unit_ids c) c -> at_thread G c j t rf l -> retiring G c j t rf [] l c t.
Proof.
  intros Hc [A1 A2 A3]. split; [by rewrite list_insert_id|by rewrite list_insert_id|done|by constructor].
Qed.

Lemma clean_up_ok G c j t rf id i l delay reset_to :
  core_ok G (unit_ids c) c -> at_thread G c j t rf ((id, i) :: l) -> hasExecuted i = true ->
  (delay = true -> exists d di l', l = (d, di) :: l' /\ hasExecuted di = true) ->
  meets (clean_up (Z.of_nat j) (Z.of_nat j) id i delay reset_to) c (fun _ c' => exists ds,
    left G c j t rf ((id, i) :: l) (i :: ds) reset_to c' /\ length ds = if delay then 1%nat else 0%nat).
Proof.
  intros Hc Hat Hx Hd. unfold clean_up. apply (meets_then _ _ _ (fun _ => _)).
  eapply meets_mono; [eapply retire_next; [exact Hat|by apply retiring_start|exact Hx]|].
  intros y c1 (-> & _ & _ & _ & Hn & Hm). apply meets_bind. eapply meets_mono; [exact Hm|]. intros u c2 (t2 & Hr2).
  apply meets_bind. destruct delay.
  - destruct (Hd eq_refl) as (d & di & l' & -> & Hdx). eapply meets_mono; [by eapply retire_delay_ok|]. intros u' c3 (t3 & Hr3).
    eapply meets_mono; [eapply finish_ok; [exact Hat|exact Hr3| |]|].
    + pose proof (join_insert_perm (<[j := (d, di) :: l']> G) j _ l' (list_lookup_insert_eq _ _ _ (lookup_lt_Some _ _ _ (ath_rob _ _ _ _ _ _ Hat)))) as Hp.
      rewrite list_insert_insert_eq in Hp. intros Hin. apply Hn.
      assert (Hp' : mjoin (<[j := (d, di) :: l']> G) ≡ₚ (d, di) :: mjoin (<[j := l']> G)).
      { apply (Permutation_app_inv_r l'). rewrite <- Hp. solve_Permutation. }
      rewrite Hp'. by right.
    + done.
    + intros a c' Hc'. by exists [di].
  - apply meets_ret. eapply meets_mono; [eapply finish_ok; [exact Hat|exact Hr2|done|done]|].
    intros a c' Hc'. by exists [].
Qed.

(** An instruction learns that it is at the front. *)
Section mark.
Variables (G : list (list entry)) (P : list Z) (c : core Q) (j : nat) (t : thread) (rf : VanadisRegisterFile).
Variables (la lb : list entry) (id : Z) (i : VanadisInstruction).
Hypothesis Hc : core_ok G P c.
Hypothesis Hat : at_thread G c j t rf (la ++ (id, i) :: lb).
Hypothesis Hx : hasExecuted i = false.
#[local] Abbreviation i' := (i <| isFrontOfROB := true |>).
#[local] Abbreviation l' := (la ++ (id, i') :: lb).

Lemma marked_advanced : Forall2 (advanced wrapv host rf) (la ++ (id, i) :: lb).*2 l'.*2.
Proof.
  assert (Hrefl : forall L, Forall2 (advanced wrapv host rf) L L).
  { intros L. apply Forall_Forall2_diag, Forall_forall. intros i0 _. split; [done|done|congruence]. }
  rewrite !fmap_app. apply Forall2_app; [apply Hrefl|]. constructor; [|apply Hrefl].
  split; [by destruct i|cbn; congruence|cbn; intros _; rewrite Hx; done].
Qed.
Lemma marked_waits what id' :
  (forall a, what a -> what (a <| isFrontOfROB := true |>)) -> waiting G what id' -> id' ∉ (la ++ (id, i) :: lb).*1 \/ waits_in l' what id'.
Proof.
  intros Hw Hid. destruct (waiting_where _ _ _ _ _ _ _ _ _ _ _ _ Hc Hat Hid) as [|(i0 & Hi0 & Hs0 & Hx0 & Hw0)]; [by left|right].
  apply elem_of_app in Hi0 as [Hi0|[[= -> ->]|Hi0]%elem_of_cons].
  - exists i0. split; [|done]. clear - Hi0. set_solver.
  - exists i'. split_and!; [clear; set_solver|done|done|by apply Hw].
  - exists i0. split; [|done]. clear - Hi0. set_solver.
Qed.

Lemma core_mark : core_ok (<[j := l']> G) P (c <| heap ::= <[id := i']> |>).
Proof.
  pose proof (view_at _ _ _ _ _ _ Hc _ _ _ _ Hat) as V. pose proof Hat as [A1 A2 A3].
  pose proof (thread_separate _ _ _ _ _ _ Hc _ _ _ A1 A3) as Hsep. pose proof marked_advanced as Hadv.
  assert (Hk : l'.*1 = (la ++ (id, i) :: lb).*1) by (by rewrite !fmap_app).
  pose proof (ids_nodup _ _ _ _ _ _ Hc j _ A3) as Hnd.
  eapply core_change; [exact Hc|exact Hat|]. split; try (rewrite Hk); try done.
  - symmetry. by apply list_insert_id.
  - symmetry. by apply list_insert_id.
  - intros id' _ Hn. cbn. apply lookup_insert_ne. intros <-. apply Hn. rewrite fmap_app. clear. set_solver.
  - destruct V as [V1 V2 V3 V4 V5 V6 V7 V8 V9 V10 V11]. split; rewrite ?Hk; try done.
    + eapply thread_advance; [exact V9|exact Hsep|done|exact Hadv|done].
    + apply Forall_forall. intros i0 Hi0. destruct (advanced_from _ _ _ _ _ Hadv i0 Hi0) as (i1 & Hi1 & [E _ _]).
      rewrite Forall_forall in V10. by eapply ins_ok_erase, V10.
    + intros id0 i0 Hin. destruct (entry_replaced _ _ _ _ _ _ _ Hnd Hin) as [[-> ->]|[Hin' Hne]].
      * split; [by apply lookup_insert_eq|]. destruct (V11 id i); [clear; set_solver|done].
      * cbn. rewrite lookup_insert_ne by done. by apply V11.
  - intros id' Hin. by left.
  - apply (co_stack _ _ _ _ _ _ Hc).
  - apply (co_bottom _ _ _ _ _ _ Hc).
  - intros k. unfold retained. by rewrite (advanced_in_flight _ _ _ _ _ Hadv).
  - apply (co_units _ _ _ _ _ _ Hc).
  - intros id' Hid. destruct (marked_waits of_unit id') as [|]; [done|by apply (co_unit _ _ _ _ _ _ Hc)|auto|auto].
  - apply (co_queued _ _ _ _ _ _ Hc).
  - intros id' Hid. destruct (marked_waits of_memory id') as [|]; [done|by apply (co_queue _ _ _ _ _ _ Hc)|auto|auto].
  - eapply lsq_inv_frame; [apply (co_inv _ _ _ _ _ _ Hc)|done|]. intros id' i0 _ Hi0. cbn in *.
    destruct (decide (id' = id)) as [->|Hne]; [|exists i0; by rewrite lookup_insert_ne].
    exists i'. rewrite lookup_insert_eq. split; [done|]. destruct (vw_heap _ _ _ _ _ _ _ _ V id i) as [E _]; [clear; set_solver|].
    rewrite E in Hi0. by injection Hi0 as <-.
Qed.
End mark.

(** ** The retirement stage *)

(** What a step of the retirement stage leaves of a thread: [ran] has left its reorder
    buffer, and the decoder has been told where to go on. *)
Record retirement (G : list (list entry)) (c : core Q) (j : nat) (t : thread) (rf : VanadisRegisterFile) (l : list entry)
    (ran : list VanadisInstruction) (c' : core Q) : Prop := {
  rt_core : exists G' l' new, core_ok G' (unit_ids c') c' /\ code G' = <[j := code_of l']> (code G) /\
    told c' = told c ++ new /\ (forall j', j' <> j -> restarts_of j' new = []) /\
    retires (code_of l) ran (restarts_of j new) (code_of l');
  rt_thread : exists t', threads c' = <[j := t']> (threads c) /\
    executes wrapv host (decoder_opts rf) ran (arch (decoder_opts rf) (retire_ptr t) rf) (arch (decoder_opts rf) (retire_ptr t') rf);
  rt_files : register_files c' = register_files c }.

Lemma retirement_none G G' c c' j t rf l :
  at_thread G c j t rf l -> core_ok G' (unit_ids c') c' -> code G' = code G -> threads c' = threads c ->
  register_files c' = register_files c -> told c' = told c -> exists ran, retirement G c j t rf l ran c'.
Proof.
  intros [A1 A2 A3] Hc' Hl Ht Hf He. exists []. split; [| |done].
  { exists G', l, []. rewrite app_nil_r. split_and!; [done| |done|done|constructor]. rewrite Hl. symmetry. apply list_insert_id.
    unfold code. by rewrite list_lookup_fmap, A3. }
  exists t. rewrite Ht, list_insert_id by done. split; [done|by constructor].
Qed.

Lemma check_delay_slot_ok G c j t rf id i l s :
  core_ok G (unit_ids c) c -> at_thread G c j t rf ((id, i) :: l) ->
  meets (check_delay_slot (Z.of_nat j) s) c (fun r c' =>
    if fst r then c' = c /\ snd r = waits_for_delay s /\ (snd r = true -> exists d di l', l = (d, di) :: l' /\ hasExecuted di = true)
    else exists ran, retirement G c j t rf ((id, i) :: l) ran c').
Proof.
  intros Hc Hat. pose proof (view_at _ _ _ _ _ _ Hc _ _ _ _ Hat) as V. pose proof (vw_rob _ _ _ _ _ _ _ _ V) as Hrob.
  assert (Hsame : exists ran, retirement G c j t rf ((id, i) :: l) ran c) by (by eapply retirement_none).
  unfold check_delay_slot, waits_for_delay. destruct (delayType s); [| |apply meets_ret; split_and!; [done|done|by intros]].
  all: apply meets_bind; eapply meets_get_thread; [lia|rewrite Nat2Z.id; apply Hat|].
  all: destruct (Z.leb_spec 2 (size (t_rob t))) as [H2|]; [|by apply meets_ret].
  all: unfold size in H2; rewrite (holds_count _ _ Hrob), length_fmap in H2; destruct l as [|[d di] l']; [cbn in H2; lia|].
  all: destruct (vw_heap _ _ _ _ _ _ _ _ V d di) as [Hd _]; [by right; left|].
  all: apply meets_bind; eapply (meets_peekAt _ _ 1 t); [lia|rewrite Nat2Z.id; apply Hat|exact Hrob|done|].
  all: apply meets_bind; eapply meets_get_ins; [done|]; destruct (hasExecuted di) eqn:Hx.
  all: try (destruct (trapError di); [done|apply meets_ret; split_and!; [done|done|intros _; by exists d, di, l']]).
  all: apply meets_bind, meets_when; intros Hf; [eapply meets_on_ins; [done|]|]; apply meets_ret; [cbn [fst]|done].
  all: pose proof (core_mark G (unit_ids c) c j t rf [(id, i)] l' d di Hc Hat Hx) as Hm.
  all: eapply retirement_none; [exact Hat|exact Hm|apply (code_insert _ _ _ _ (ath_rob _ _ _ _ _ _ Hat)); reflexivity|done..].
Qed.

(** The end of a retirement; the decoder has been told of the branch, [said]. *)
Lemma left_retirement G c c0 j t rf l i ds c' said :
  threads c0 = threads c -> register_files c0 = register_files c -> told c0 = told c ++ said -> (forall j', restarts_of j' said = []) ->
  told c' = told c0 ++ resets (Z.of_nat j) (mispredicted i) ->
  left G c0 j t rf l (i :: ds) (mispredicted i) c' -> delay_slot i ds ->
  retirement G c j t rf l (i :: ds) c'.
Proof.
  intros Et Ef Es Hs En [(G' & l' & gone & Hc' & HG & El & El') (t' & Ht' & He) Hf] Hd. split.
  - exists G', l', (said ++ resets (Z.of_nat j) (mispredicted i)). split_and!; [done|done|by rewrite En, Es, (assoc_L (++))| |].
    + intros j' Hj. unfold restarts_of. rewrite omap_app. fold (restarts_of j' said). rewrite Hs. destruct (mispredicted i); [|done]. cbn.
      by rewrite decide_False by lia.
    + unfold restarts_of. rewrite omap_app. fold (restarts_of j said). rewrite Hs, El, El'. cbn [app fmap list_fmap].
      destruct (mispredicted i) as [a|] eqn:Hm; cbn.
      * rewrite decide_True by done. by constructor.
      * rewrite <- (app_nil_r ds) at 2. constructor; [done|done|constructor].
  - exists t'. by rewrite <- Et.
  - by rewrite <- Ef.
Qed.

Lemma retire_front_ok G c j t rf id i l :
  core_ok G (unit_ids c) c -> at_thread G c j t rf ((id, i) :: l) -> hasExecuted i = true ->
  meets (retire_front (Z.of_nat j) (Z.of_nat j) id i) c (fun _ c' => exists ran, retirement G c j t rf ((id, i) :: l) ran c').
Proof.
  intros Hc Hat Hx. unfold retire_front. destruct (speculated i) as [s|] eqn:Hsp.
  2: { eapply meets_mono; [eapply meets_tells; [apply clean_up_tells|by apply clean_up_ok]|]. intros u c' (E & ds & Hl & Hn). exists (i :: ds).
    assert (Hm : mispredicted i = None) by (unfold mispredicted; by rewrite Hsp).
    eapply (left_retirement G c c _ _ _ _ _ _ _ []); rewrite ?Hm; [done|done|by rewrite app_nil_r|done|done|exact Hl|].
    unfold delay_slot, delays. by rewrite Hsp. }
  apply meets_bind. eapply meets_mono; [by apply check_delay_slot_ok|]. intros [[] d] c1; cbn [fst snd]; [|intros Hr; by apply meets_ret].
  intros (-> & Hw & Hd). apply meets_bind, meets_modify, meets_bind. eapply meets_mono; [apply pause_ok|]. intros u c2 ->.
  match goal with |- Prelude.meets _ _ ?x _ => set (c2 := x) end.
  assert (Hc2 : core_ok G (unit_ids c2) c2) by (apply (core_turns _ _ _ _ _ c); try done; apply (co_turn _ _ _ _ _ _ Hc)).
  eapply meets_mono; [eapply meets_tells; [apply clean_up_tells|]; apply (clean_up_ok G c2 j t rf id i l); [done|by destruct Hat|done|done]|].
  intros u' c' (E & ds & Hl & Hn). exists (i :: ds).
  assert (Hm : mispredicted i = if takenAddress s =? speculatedAddress s then None else Some (takenAddress s)) by (unfold mispredicted; by rewrite Hsp).
  rewrite <- Hm in *. eapply (left_retirement G c c2); [done|done|done|done|exact E|exact Hl|].
  unfold delay_slot, delays. by rewrite Hsp, <- Hw.
Qed.

Variable os : VanadisInstruction -> VanadisISATable -> VanadisRegisterFile -> VanadisRegisterFile * bool * bool.

Lemma performRetire_ok G c j t rf l :
  core_ok G (unit_ids c) c -> at_thread G c j t rf l ->
  meets (performRetire os (Z.of_nat j)) c (fun _ c' => exists ran, retirement G c j t rf l ran c').
Proof.
  intros Hc Hat. pose proof (view_at _ _ _ _ _ _ Hc _ _ _ _ Hat) as V. pose proof (vw_rob _ _ _ _ _ _ _ _ V) as Hrob.
  assert (Hsame : exists ran, retirement G c j t rf l ran c) by (by eapply retirement_none).
  unfold performRetire. apply meets_bind. eapply meets_get_thread; [lia|rewrite Nat2Z.id; apply Hat|].
  destruct (empty_queue (t_rob t)) eqn:He; [by apply meets_ret|].
  unfold empty_queue in He. apply Z.eqb_neq in He. rewrite (holds_count _ _ Hrob), length_fmap in He.
  destruct l as [|[id i] l]; [done|].
  destruct (vw_heap _ _ _ _ _ _ _ _ V id i) as [Hi _]; [by left|].
  pose proof (vw_ins _ _ _ _ _ _ _ _ V) as Hio. apply Forall_cons in Hio as [[I1 I2 _ _] _]. cbn [snd] in I1, I2.
  apply meets_bind. eapply (meets_peek _ _ t); [lia|rewrite Nat2Z.id; apply Hat|exact Hrob|].
  apply meets_bind. eapply meets_get_ins; [done|]. rewrite I1, I2. apply meets_bind, meets_when; intros _; [done|].
  destruct (hasIssued i && hasExecuted i) eqn:Hd.
  - apply andb_prop in Hd as [_ Hx]. apply meets_bind. eapply meets_mono; [by apply retire_front_ok|].
    intros u c' Hr. by apply meets_ret.
  - destruct (isFrontOfROB i); [by apply meets_ret|]. apply meets_bind. eapply meets_on_ins; [done|]. apply meets_ret.
    assert (Hx : hasExecuted i = false).
    { destruct (hasExecuted i) eqn:Hx; [|done].
      destruct (th_executed _ _ _ _ _ _ _ (vw_thread _ _ _ _ _ _ _ _ V) i ltac:(by left) Hx) as [Hs _]. by rewrite Hs in Hd. }
    pose proof (core_mark G (unit_ids c) c j t rf [] l id i Hc Hat Hx) as Hm.
    eapply retirement_none; [exact Hat|exact Hm|apply (code_insert _ _ _ _ (ath_rob _ _ _ _ _ _ Hat)); reflexivity|done..].
Qed.

End commit.
