(* ===== verification/VanadisCycle.v ===== *)
(** * VanadisCycle: a cycle of the processor

    [events_steps]: whatever happens to a core, cycles, responses and halts, the
    invariant of the pipeline is kept, nothing fails but with a fatal error or with
    arithmetic that C++ leaves undefined, and the architectural state of every thread is
    what the instructions that retire, in their order, make of it; these are what was
    decoded without what a misspeculation threw away ([life]).

    [new_core_ok]: with a physical register to spare in both files, the constructor
    gives every thread its own registers and the invariant of the pipeline holds. *)

From S2P Require Import Prelude VanadisRegs VanadisInst VanadisQueue VanadisRename VanadisFrame VanadisMem VanadisFree VanadisPipeline VanadisOrder VanadisCore VanadisIssue VanadisRetire.

Section cycle.
Context {Q : Type} `{LoadStoreQueueLaws Q}.
Variables (wrapv : bool) (host : fp_operation -> list Z -> Z) (nphys : kind -> Z).
#[local] Abbreviation core_ok := (core_ok wrapv host nphys).
#[local] Abbreviation meets := (meets execution_failure).

(** ** What a program sees of a cycle *)

(** The instructions a decoder gives to each thread. *)
Abbreviation program := (nat -> list VanadisInstruction).
Definition nothing : program := fun _ => [].

(** Each thread has retired instructions of its reorder buffer, at the end of which what
    was decoded since, [F], has come, and the decoders have been told where to go on. *)
Definition goes_on (F : program) (G : list (list entry)) (c : core Q) (G' : list (list entry)) (c' : core Q) : Prop :=
  exists new, told c' = told c ++ new /\ forall j t rf l, at_thread G c j t rf l -> exists t' rf' l' ran,
    at_thread G' c' j t' rf' l' /\ decoder_opts rf' = decoder_opts rf /\
    executes wrapv host (decoder_opts rf) ran (arch (decoder_opts rf) (retire_ptr t) rf) (arch (decoder_opts rf) (retire_ptr t') rf') /\
    retires (code_of l ++ (skeleton <$> F j)) ran (restarts_of j new) (code_of l').

Lemma code_lookup G G' j l : code G' = code G -> G !! j = Some l -> exists l', G' !! j = Some l' /\ code_of l' = code_of l.
Proof.
  intros E Hl. assert (E' : code G' !! j = Some (code_of l)) by (rewrite E; unfold code; by rewrite list_lookup_fmap, Hl).
  unfold code in E'. rewrite list_lookup_fmap in E'. destruct (G' !! j) as [l'|]; [|done]. exists l'. by injection E'.
Qed.
Lemma still_goes_on G G' c c' : code G' = code G -> still c c' -> told c' = told c -> goes_on nothing G c G' c'.
Proof.
  intros E Hs Hn. exists []. rewrite app_nil_r. split; [done|]. intros j t rf l [H1 H2 H3].
  destruct (Hs j t rf H1 H2) as (t' & rf' & H1' & H2' & Ho & Ea).
  destruct (code_lookup _ _ _ _ E H3) as (l' & H3' & El). exists t', rf', l', []. split_and!; [by split|done|by constructor|].
  cbn. rewrite El, app_nil_r. constructor.
Qed.
Lemma goes_on_refl G c : goes_on nothing G c G c.
Proof. by apply still_goes_on. Qed.
Lemma goes_on_again F G c G1 c1 G' c' : goes_on F G c G1 c1 -> goes_on nothing G1 c1 G' c' -> goes_on F G c G' c'.
Proof.
  intros (n1 & N1 & H1) (n2 & N2 & H2). exists (n1 ++ n2). split; [by rewrite N2, N1, (assoc_L (++))|].
  intros j t rf l Hat. destruct (H1 j t rf l Hat) as (t1 & rf1 & l1 & ran1 & Hat1 & Ho1 & E1 & S1).
  destruct (H2 j t1 rf1 l1 Hat1) as (t2 & rf2 & l2 & ran2 & Hat2 & Ho2 & E2 & S2). rewrite Ho1 in *.
  exists t2, rf2, l2, (ran1 ++ ran2). split_and!; [done|done|by eapply executes_app|].
  unfold restarts_of in *. rewrite omap_app. eapply retires_trans; [exact S1|]. cbn in S2. by rewrite app_nil_r in S2.
Qed.
Lemma goes_on_still F G c G1 c1 G' c' : goes_on F G c G1 c1 -> code G' = code G1 -> still c1 c' -> told c' = told c1 -> goes_on F G c G' c'.
Proof. intros H1 E Hs Hn. eapply goes_on_again; [exact H1|by apply still_goes_on]. Qed.

Lemma retirement_goes_on G c j t rf l ran c' :
  core_ok G (unit_ids c) c -> at_thread G c j t rf l -> retirement wrapv host nphys G c j t rf l ran c' ->
  exists G', core_ok G' (unit_ids c') c' /\ length G' = length G /\ goes_on nothing G c G' c'.
Proof.
  intros Hc [A1 A2 A3] [(G' & l' & new & Hc' & Ecode & En & Ho & Hr) (t' & Ht' & He) Hf']. exists G'.
  assert (Hlen : length G' = length G).
  { pose proof (f_equal length Ecode) as E. unfold code in E. by rewrite length_insert, !length_fmap in E. }
  split_and!; [done|done|]. exists new. split; [done|]. intros j0 t0 rf0 l0 [B1 B2 B3]. unfold nothing.
  destruct (lookup_lt_is_Some_2 G' j0) as [l1 Hl1]; [rewrite Hlen; by eapply lookup_lt_Some|].
  pose proof (f_equal (fun x => x !! j0) Ecode) as El. cbn in El. unfold code in El. rewrite list_lookup_fmap, Hl1 in El.
  cbn [fmap list_fmap]. rewrite app_nil_r. destruct (decide (j0 = j)) as [->|Hne].
  - rewrite A1 in B1. rewrite A2 in B2. rewrite A3 in B3. injection B1 as <-. injection B2 as <-. injection B3 as <-.
    rewrite list_lookup_insert_eq in El by (rewrite length_fmap; by eapply lookup_lt_Some). injection El as El.
    exists t', rf, l1, ran. rewrite El. split_and!; [split; [rewrite Ht'; by eapply list_lookup_insert_eq, lookup_lt_Some|by rewrite Hf'|done]|done..].
  - rewrite list_lookup_insert_ne, list_lookup_fmap, B3 in El by done. injection El as El.
    exists t0, rf0, l1, []. rewrite El, Ho by done.
    split_and!; [split; [by rewrite Ht', list_lookup_insert_ne|by rewrite Hf'|done]|done|by constructor|constructor].
Qed.

(** ** Retirement *)

Variable os : VanadisInstruction -> VanadisISATable -> VanadisRegisterFile -> VanadisRegisterFile * bool * bool.

Lemma retire_loop_ok i : forall G c rc,
  core_ok G (unit_ids c) c ->
  meets (retire_loop os i rc) c (fun _ c' => exists G', core_ok G' (unit_ids c') c' /\ length G' = length G /\ goes_on nothing G c G' c').
Proof.
  induction i as [|i IH]; intros G c rc Hc; cbn [retire_loop]; [apply meets_ret; exists G; split_and!; [done|done|apply goes_on_refl]|].
  pose proof (co_turn _ _ _ _ _ _ Hc) as [Ht1 Ht2]. apply meets_bind, meets_gets, meets_bind, meets_gets.
  pose proof (next_thread_range (Z.to_nat (hw_threads c)) (fun t => rc !!! Z.to_nat t =? 1) _ _ Ht2) as Hn.
  assert (Hturn : forall G0 c0 x, core_ok G0 (unit_ids c0) c0 -> 0 <= x < hw_threads c0 ->
    core_ok G0 (unit_ids (c0 <| m_curRetireHwThread := x |>)) (c0 <| m_curRetireHwThread := x |>)).
  { intros G0 c0 x Hc0 Hx. apply (core_turns _ _ _ _ _ c0); try done. split; [apply (co_turn _ _ _ _ _ _ Hc0)|done]. }
  destruct (next_thread _ _ _ _) as [[thr|] cur']; destruct Hn as [Hcur Hthr].
  2: { apply meets_modify. exists G. split_and!; [by apply Hturn|done|apply still_goes_on; [done|by apply still_same|done]]. }
  specialize (Hthr thr eq_refl). unfold hw_threads in Hthr. rewrite (co_threads _ _ _ _ _ _ Hc) in Hthr.
  destruct (thread_exists _ _ _ _ _ _ Hc (Z.to_nat thr)) as (t & rf & l & Hat); [lia|].
  apply meets_bind. rewrite <- (Z2Nat.id thr) at 1 by lia. eapply meets_mono; [by eapply performRetire_ok|].
  intros r c1 (ran & Hr). destruct (retirement_goes_on _ _ _ _ _ _ _ _ Hc Hat Hr) as (G1 & Hc1 & Hl1 & Hg).
  apply meets_bind, meets_modify. eapply meets_mono.
  - apply (IH G1). apply Hturn; [done|]. unfold hw_threads. rewrite (co_threads _ _ _ _ _ _ Hc1), (co_threads _ _ _ _ _ _ Hc), Hl1.
    apply Z.mod_pos_bound. lia.
  - intros u c' (G' & Hc' & Hl' & Hg'). exists G'. split_and!; [done|congruence|].
    eapply goes_on_again; [|exact Hg']. eapply goes_on_still; [exact Hg|done|by apply still_same|done].
Qed.

(** ** The register that is zero *)

Lemma zero_written G P c j t rf l p rf' :
  core_ok G P c -> at_thread G c j t rf l ->
  issue_ptr t INT !! Z.to_nat (reg_ignore_writes (t_options t)) = Some p ->
  setIntReg uint64_t p 0 true rf = Ok rf' ->
  let c' := c <| register_files := <[j := rf']> (register_files c) |> in
  core_ok G P c' /\ at_thread G c' j t rf' l /\ zero_ready rf' (issue_ptr t) l.*2 /\ still c c'.
Proof.
  intros Hc Hat Hp Hset c'. pose proof (view_at _ _ _ _ _ _ Hc _ _ _ _ Hat) as V.
  pose proof Hat as [H1 H2 H3]. pose proof (vw_thread _ _ _ _ _ _ _ _ V) as Hth. pose proof (vw_opts _ _ _ _ _ _ _ _ V) as Ho.
  pose proof (thread_separate _ _ _ _ _ _ Hc _ _ _ H1 H3) as Hsep.
  assert (Hplace : retire_ptr t INT !! Z.to_nat (reg_ignore_writes (t_options t)) = Some p \/ p ∈ in_flight INT l.*2).
  { rewrite (th_issue _ _ _ _ _ _ _ Hth INT) in Hp. apply assign_lookup in Hp as [Hp|(s & Hs & _)]; [by left|right].
    apply list_elem_of_bind in Hs as (i & Hs & Hi). apply list_elem_of_bind. exists i. split; [|done].
    unfold renaming, issued_out in *. destruct (hasIssued i); [by eapply elem_of_zip_r|set_solver]. }
  assert (Hp0 : 0 <= p).
  { destruct (Hsep INT) as [_ Hn]. rewrite Forall_forall in Hn. apply Hn.
    destruct Hplace as [E%list_elem_of_lookup_2|]; set_solver. }
  pose proof (vw_file _ _ _ _ _ _ _ _ V) as Hwf.
  assert (Hframe : forall q, file_like rf rf' /\ (0 <= q -> q <> p -> value rf' q = value rf q) /\ forall p, cell FP rf' p = cell FP rf p).
  { intros q. by eapply setIntReg_frame. }
  destruct (Hframe 0) as (Hlike & _ & Hfp).
  assert (Hv : value rf' p = 0).
  { destruct (setIntReg_value uint64_t p 0 true rf (file_int _ Hwf)) as (rf1 & E & _ & _ & _ & Hv & _).
    { split; [done|]. revert Hset. unfold setIntReg. by destruct (Z.ltb_spec p (count_int_regs rf)). }
    rewrite E in Hset. injection Hset as <-. rewrite Hv. by destruct (ignores rf p). }
  assert (Hcell : forall k q, 0 <= q -> (k = INT -> q <> p) -> cell k rf' q = cell k rf q).
  { intros [] q Hq Hne; [apply Hframe; auto|apply Hfp]. }
  destruct (thread_zero wrapv host _ rf rf' (issue_ptr t) (retire_ptr t) l.*2 p Hth Hsep Hlike) as [Hth' Hz];
    [rewrite Ho; apply V|by rewrite Ho|done|done|].
  split_and!; [|split; [done|by apply list_lookup_insert_eq, lookup_lt_Some with rf|done]|done|].
  - rewrite <- (list_insert_id G j l) by done. eapply core_change; [exact Hc|exact Hat|]. subst c'. split; cbn.
    + symmetry. by apply list_insert_id.
    + done.
    + lia.
    + done.
    + destruct V. split; try done; [by apply (like_wf _ _ Hlike)|by rewrite (like_opts _ _ Hlike)].
    + eapply ids_nodup; [exact Hc|exact H3].
    + by left.
    + intros k. pose proof (co_stack _ _ _ _ _ _ Hc k). by destruct k.
    + intros k. pose proof (co_bottom _ _ _ _ _ _ Hc k). by destruct k.
    + by intros [].
    + apply (co_units _ _ _ _ _ _ Hc).
    + by eapply step_units.
    + apply (co_queued _ _ _ _ _ _ Hc).
    + by eapply step_queue.
    + eapply lsq_inv_frame; [apply (co_inv _ _ _ _ _ _ Hc)|done|]. intros id i _ Hi. by exists i.
    + done.
  - intros j0 t0 rf0 Ht0 Hf0. subst c'. cbn. destruct (decide (j0 = j)) as [->|Hne].
    + rewrite H1 in Ht0. rewrite H2 in Hf0. injection Ht0 as <-. injection Hf0 as <-. exists t, rf'.
      split_and!; [done|by apply list_lookup_insert_eq, lookup_lt_Some with rf|apply (like_opts _ _ Hlike)|].
      intros k. rewrite Ho. unfold arch. destruct k; cbn [hide]; [|by apply list_fmap_ext; intros; apply Hfp].
      apply agree_hidden. split; [by rewrite !length_fmap|]. intros m Hm. rewrite !list_lookup_fmap.
      destruct (retire_ptr t INT !! m) as [q|] eqn:Hq; [|done]. cbn [option_map fmap option_fmap]. f_equal.
      apply (Hcell INT).
      * destruct (Hsep INT) as [_ Hn]. rewrite Forall_forall in Hn. apply Hn. apply list_elem_of_lookup_2 in Hq. set_solver.
      * intros _ ->. destruct Hplace as [Hz'|Hfl].
        -- destruct (Hsep INT) as [(Hn & _ & _)%NoDup_app _]. by rewrite (NoDup_lookup _ _ _ _ Hn Hz' Hq) in Hm.
        -- by eapply table_not_in_flight, Hfl; [|eapply list_elem_of_lookup_2].
    + exists t0, rf0. by rewrite list_lookup_insert_ne.
Qed.

(** Every thread below [m] has its zero. *)
Definition zeroed (G : list (list entry)) (c : core Q) (m : nat) : Prop := forall j t rf l,
  at_thread G c j t rf l -> (j < m)%nat -> zero_ready rf (issue_ptr t) l.*2.

Lemma reset_zero_register_ok G c j :
  core_ok G (unit_ids c) c -> zeroed G c j -> (j < length G)%nat ->
  meets (reset_zero_register (Z.of_nat j)) c (fun _ c' => core_ok G (unit_ids c') c' /\ zeroed G c' (S j) /\ still c c').
Proof.
  intros Hc Hz Hj. destruct (thread_exists _ _ _ _ _ _ Hc j Hj) as (t & rf & l & Hat).
  pose proof (view_at _ _ _ _ _ _ Hc _ _ _ _ Hat) as V. pose proof Hat as [H1 H2 H3]. pose proof (vw_counts _ _ _ _ _ _ _ _ V) as [Hn _].
  pose proof (vw_zero _ _ _ _ _ _ _ _ V) as Hz0. pose proof (vw_issue _ _ _ _ _ _ _ _ V) as Hti.
  unfold reset_zero_register. apply meets_bind. eapply meets_get_thread; [lia|by rewrite Nat2Z.id|].
  apply meets_when; intros Hlt.
  2: { apply Z.ltb_ge in Hlt. split_and!; [done| |done]. intros j0 t0 rf0 l0 Hat0 Hj0. destruct (decide (j0 = j)) as [->|]; [|apply (Hz j0 t0 rf0 l0 Hat0); lia].
    destruct (at_thread_once _ _ _ _ _ _ _ _ _ Hat Hat0) as (-> & -> & ->). intros _ p. rewrite (vw_opts _ _ _ _ _ _ _ _ V).
    rewrite lookup_ge_None_2; [done|]. unfold issue_ptr. rewrite (table_ptr _ _ Hti INT). unfold nregs. lia. }
  apply Z.ltb_lt in Hlt. apply meets_bind, meets_getsR.
  destruct (getPhysReg_ok (nregs (t_options t)) INT (reg_ignore_writes (t_options t)) (t_issue t) Hti) as (p & Hg & Hp); [unfold reg_ok, nregs; lia|].
  rewrite Hg. apply meets_bind, meets_getsR. eapply yields_index; [lia|by rewrite Nat2Z.id|].
  apply meets_bind, meets_getsR. destruct (setIntReg uint64_t p 0 true rf) as [rf'|e] eqn:Hset.
  2: { revert Hset. unfold setIntReg, assert. by destruct (p <? _); intros [= <-]. }
  apply meets_bind, meets_getsR. rewrite set_index_in_range by (apply lookup_lt_Some in H2; lia). cbn [yields]. rewrite Nat2Z.id.
  apply meets_modify. destruct (zero_written _ _ _ _ _ _ _ _ _ Hc Hat Hp Hset) as (Hc' & Hat' & Hz' & Hs). split_and!; [exact Hc'| |exact Hs].
  intros j0 t0 rf0 l0 Hat0 Hj0. destruct (decide (j0 = j)) as [->|Hne].
  - by destruct (at_thread_once _ _ _ _ _ _ _ _ _ Hat' Hat0) as (-> & -> & ->).
  - apply (Hz j0 t0 rf0 l0); [|lia]. destruct Hat0 as [A1 A2 A3]. cbn in A2. rewrite list_lookup_insert_ne in A2 by done. by split.
Qed.

Lemma reset_zero_registers_ok G c :
  core_ok G (unit_ids c) c ->
  meets (forM (seqZ 0 (hw_threads c)) reset_zero_register) c (fun _ c' =>
    core_ok G (unit_ids c') c' /\ zeroed G c' (length G) /\ still c c').
Proof.
  intros Hc. unfold hw_threads. rewrite (co_threads _ _ _ _ _ _ Hc).
  set (I := fun (l : list Z) c' => exists m : nat, (m <= length G)%nat /\ l = seqZ (Z.of_nat m) (Z.of_nat (length G - m)) /\
    core_ok G (unit_ids c') c' /\ zeroed G c' m /\ still c c').
  eapply meets_mono.
  - apply (meets_forM _ _ _ _ I).
    + exists 0%nat. split_and!; [lia|f_equal; lia|done| |done]. intros j t rf l _ ?. lia.
    + intros x l' c1 (m & Hm & Hl & Hc1 & Hz1 & Hs1).
      assert (Hlt : (m < length G)%nat).
      { destruct (Nat.lt_ge_cases m (length G)) as [|Hge]; [done|]. by rewrite seqZ_nil in Hl by lia. }
      rewrite seqZ_cons in Hl by lia. injection Hl as -> ->. eapply meets_mono; [by apply reset_zero_register_ok|].
      intros u c2 (Hc2 & Hz2 & Hs2). exists (S m). split_and!; [lia|f_equal; lia|done|done|by transitivity c1].
  - intros u c' (m & Hm & Hl & Hc' & Hz' & Hs'). split_and!; [done| |done]. intros j t rf l Hat Hj. apply (Hz' j t rf l Hat).
    destruct (Nat.lt_ge_cases m (length G)) as [|Hge]; [|lia]. by rewrite seqZ_cons in Hl by lia.
Qed.

(** ** Decode *)

(** What a decoder makes for a thread. *)
Record decoded (o : VanadisDecoderOptions) (j : nat) (i : VanadisInstruction) : Prop := {
  dc_ins : ins_ok j i;
  dc_names : names_ok (nregs o) i;
  dc_issued : hasIssued i = false;
  dc_executed : hasExecuted i = false }.

Lemma retained_arrives k t l id i : hasIssued i = false -> retained k t (l ++ [(id, i)]) = retained k t l.
Proof.
  intros Hi. unfold retained. rewrite fmap_app, in_flight_app. cbn. unfold in_flight. cbn. unfold issued_out. rewrite Hi. by rewrite app_nil_r.
Qed.

Lemma arrive_ok G P c j t rf l i :
  core_ok G P c -> at_thread G c j t rf l -> decoded (decoder_opts rf) j i ->
  meets (arrive (Z.of_nat j) i) c (fun _ c' => exists q, let t' := t <| t_rob := q |> in let l' := l ++ [(next_ins c, i)] in
    core_ok (<[j := l']> G) P c' /\ threads c' = <[j := t']> (threads c) /\ register_files c' = register_files c /\ units c' = units c).
Proof.
  intros Hc Hat [D1 D2 D3 D4]. pose proof (view_at _ _ _ _ _ _ Hc _ _ _ _ Hat) as V. pose proof Hat as [H1 H2 H3].
  rewrite (vw_opts _ _ _ _ _ _ _ _ V) in D2. unfold arrive. apply meets_bind, meets_gets, meets_bind, meets_modify, meets_bind, meets_modify.
  unfold on_rob. apply meets_bind. eapply meets_get_thread; [lia|rewrite Nat2Z.id; exact H1|]. apply meets_bind, meets_getsR.
  pose proof (vw_rob _ _ _ _ _ _ _ _ V) as Hrob.
  destruct (Z.ltb_spec (count (t_rob t)) (max_capacity (t_rob t))) as [Hroom|Hfull].
  2: { unfold push, mbind, M_bind, gets. apply Z.ltb_ge in Hfull. by rewrite Hfull. }
  destruct (runs_push _ _ Hrob (next_ins c)) as ([] & q & E & Hq); [by rewrite <- (holds_count _ _ Hrob)|]. rewrite E. cbn [yields fst snd].
  apply meets_bind. eapply meets_put_thread; [lia|rewrite Nat2Z.id; exact H1|]. rewrite Nat2Z.id. apply meets_ret.
  exists q. split_and!; [|done..]. eapply core_change; [exact Hc|exact Hat|].
  assert (Hnew : next_ins c ∉ l.*1).
  { intros ([id i0] & E0 & Hin)%list_elem_of_fmap. cbn in E0. destruct (vw_heap _ _ _ _ _ _ _ _ V _ _ Hin). lia. }
  split; unfold update; cbn.
  - done.
  - symmetry. by apply list_insert_id.
  - lia.
  - intros id Hid _. apply lookup_insert_ne. lia.
  - destruct V. split; try done.
    + by rewrite fmap_app.
    + rewrite fmap_app. by apply thread_arrive.
    + rewrite fmap_app. by apply Forall_app_2; [|apply Forall_singleton].
    + intros id i0 [Hin|[= -> ->]%list_elem_of_singleton]%elem_of_app; [|split; [apply lookup_insert_eq|lia]].
      destruct (vw_heap id i0 Hin) as [Eh Hlt]. split; [|lia]. rewrite lookup_insert_ne; [done|lia].
  - rewrite fmap_app. apply NoDup_app. split_and!; [by eapply ids_nodup|set_solver|apply NoDup_singleton].
  - intros id Hid. rewrite fmap_app in Hid. apply elem_of_app in Hid as [|Hid]; [by left|right]. apply list_elem_of_singleton in Hid. cbn in Hid. lia.
  - intros k. pose proof (co_stack _ _ _ _ _ _ Hc k). by destruct k.
  - intros k. pose proof (co_bottom _ _ _ _ _ _ Hc k). by destruct k.
  - intros k. rewrite retained_arrives by done. by destruct k.
  - apply (co_units _ _ _ _ _ _ Hc).
  - intros id Hid. destruct (step_units _ _ _ _ _ _ _ _ _ _ Hc Hat id Hid) as [|(i0 & Hi0 & Hw)]; [by left|right]. exists i0. set_solver.
  - apply (co_queued _ _ _ _ _ _ Hc).
  - intros id Hid. destruct (step_queue _ _ _ _ _ _ _ _ _ _ Hc Hat id Hid) as [|(i0 & Hi0 & Hw)]; [by left|right]. exists i0. set_solver.
  - eapply lsq_inv_frame; [apply (co_inv _ _ _ _ _ _ Hc)|done|]. intros id i0 Hid Hi0. exists i0. split; [|done]. cbn.
    rewrite lookup_insert_ne; [done|]. intros <-.
    destruct (co_queue _ _ _ _ _ _ Hc _ Hid) as (l0 & i1 & Hl0 & Hi1 & _). destruct (thread_of_ids _ _ _ _ _ _ Hc l0 Hl0) as (j1 & t1 & rf1 & Hat1).
    destruct (vw_heap _ _ _ _ _ _ _ _ (view_at _ _ _ _ _ _ Hc _ _ _ _ Hat1) _ _ Hi1). lia.
  - done.
Qed.

(** The instruction sets of the threads stay what they are. *)
Definition options (c : core Q) : list VanadisDecoderOptions := decoder_opts <$> register_files c.
Lemma options_kept G G' P P' c c' :
  core_ok G P c -> core_ok G' P' c' -> length G' = length G ->
  (forall j t rf l, at_thread G c j t rf l -> exists t' rf' l', at_thread G' c' j t' rf' l' /\ decoder_opts rf' = decoder_opts rf) ->
  options c' = options c.
Proof.
  intros Hc Hc' Hl Hg. apply list_eq. intros j. unfold options. rewrite !list_lookup_fmap.
  destruct (Nat.lt_ge_cases j (length G)) as [Hlt|Hge].
  - destruct (thread_exists _ _ _ _ _ _ Hc j Hlt) as (t & rf & l & Hat).
    destruct (Hg j t rf l Hat) as (t' & rf' & l' & [_ E _] & Ho). destruct Hat as [_ H2 _]. rewrite E, H2. cbn. by rewrite Ho.
  - rewrite !lookup_ge_None_2; [done|rewrite (co_files _ _ _ _ _ _ Hc); lia|rewrite (co_files _ _ _ _ _ _ Hc'); lia].
Qed.

(** The instructions of a decode are such as the decoders make. *)
Definition feeds (opts : list VanadisDecoderOptions) (fetched : Z -> list VanadisInstruction) : Prop := forall j o,
  opts !! j = Some o -> Forall (decoded o j) (fetched (Z.of_nat j)).

(** The instructions [F] have come to the ends of the buffers, and nothing else has
    happened. *)
Definition fills (F : program) (G : list (list entry)) (c : core Q) (G' : list (list entry)) (c' : core Q) : Prop :=
  silent c c' /\ forall j t rf l, at_thread G c j t rf l -> exists t' rf' l',
    at_thread G' c' j t' rf' l' /\ decoder_opts rf' = decoder_opts rf /\
    executes wrapv host (decoder_opts rf) [] (arch (decoder_opts rf) (retire_ptr t) rf) (arch (decoder_opts rf) (retire_ptr t') rf') /\
    code_of l' = code_of l ++ (skeleton <$> F j).
Lemma fills_still G c c' : still c c' -> silent c c' -> fills nothing G c G c'.
Proof.
  intros Hs Hn. split; [done|]. intros j t rf l [H1 H2 H3]. destruct (Hs j t rf H1 H2) as (t' & rf' & H1' & H2' & Ho & Ea).
  exists t', rf', l. split_and!; [by split|done|by constructor|cbn; by rewrite app_nil_r].
Qed.
Lemma fills_trans F F' G c G1 c1 G' c' : fills F G c G1 c1 -> fills F' G1 c1 G' c' -> fills (fun j => F j ++ F' j) G c G' c'.
Proof.
  intros [N1 H1] [N2 H2]. split; [by transitivity c1|]. intros j t rf l Hat.
  destruct (H1 j t rf l Hat) as (t1 & rf1 & l1 & Hat1 & Ho1 & E1 & C1). destruct (H2 j t1 rf1 l1 Hat1) as (t2 & rf2 & l2 & Hat2 & Ho2 & E2 & C2).
  rewrite Ho1 in *. exists t2, rf2, l2. split_and!; [done|done|by apply (executes_app _ _ _ [] [] _ _ _ E1)|].
  by rewrite C2, C1, fmap_app, (assoc_L (++)).
Qed.
Lemma fills_ext F F' G c G' c' : fills F G c G' c' -> (forall j, F' j = F j) -> fills F' G c G' c'.
Proof. intros [N H1] E. split; [done|]. intros j. rewrite E. apply H1. Qed.
Lemma fills_goes_on F G c G' c' : fills F G c G' c' -> goes_on F G c G' c'.
Proof.
  intros [N H1]. injection N as N _. exists []. rewrite app_nil_r. split; [done|]. intros j t rf l Hat.
  destruct (H1 j t rf l Hat) as (t1 & rf1 & l1 & Hat1 & Ho1 & E1 & C1). exists t1, rf1, l1, []. split_and!; [done..|].
  rewrite C1. constructor.
Qed.

(** The buffers have got the instructions [F], while the threads have their zero. *)
Record filled (opts : list VanadisDecoderOptions) (G : list (list entry)) (c : core Q) (F : program) (c' : core Q) : Prop := {
  fl_core : exists G', core_ok G' (unit_ids c') c' /\ zeroed G' c' (length G) /\ length G' = length G /\ fills F G c G' c';
  fl_options : options c' = opts }.
Lemma filled_ext opts G c F F' c' : filled opts G c F c' -> (forall j, F' j = F j) -> filled opts G c F' c'.
Proof. intros [(G' & H1 & H2 & H3 & H4) H5] Hs. split; [|done]. exists G'. split_and!; [done..|by eapply fills_ext]. Qed.

Definition gets_also (j : nat) (new : list VanadisInstruction) (F : program) : program := fun j' => F j' ++ if decide (j' = j) then new else [].

Lemma arrive_filled opts G c F c1 j o i :
  filled opts G c F c1 -> opts !! j = Some o -> decoded o j i ->
  meets (arrive (Z.of_nat j) i) c1 (fun _ c' => filled opts G c (gets_also j [i] F) c').
Proof.
  intros [(G1 & Hc & Hz & Hl & Hg) <-] Ho Hd. unfold options in Ho. rewrite list_lookup_fmap in Ho.
  destruct (register_files c1 !! j) as [rf|] eqn:Hf; [|done]. injection Ho as <-.
  destruct (thread_exists _ _ _ _ _ _ Hc j) as (t & rf0 & l & Hat); [rewrite <- (co_files _ _ _ _ _ _ Hc); by eapply lookup_lt_Some|].
  pose proof Hat as [H1 H2 H3]. rewrite Hf in H2. injection H2 as <-.
  eapply meets_mono; [eapply meets_steps; [apply silent_arrive|by eapply arrive_ok]|]. intros u c' [Hn (q & Hc' & Ht & Hf' & Hu)].
  split; [|unfold options; by rewrite Hf'].
  set (l' := l ++ [(next_ins c1, i)]) in *. exists (<[j := l']> G1). unfold unit_ids in *. rewrite Hu.
  split_and!; [exact Hc'| |by rewrite length_insert|].
  - intros j0 t0 rf0 l0 [A1 A2 A3] Hj0. rewrite Ht in A1. rewrite Hf' in A2. destruct (decide (j0 = j)) as [->|Hne].
    + rewrite list_lookup_insert_eq in A1 by (by eapply lookup_lt_Some). rewrite list_lookup_insert_eq in A3 by (by eapply lookup_lt_Some).
      injection A1 as <-. injection A3 as <-. rewrite Hf in A2. injection A2 as <-.
      pose proof (Hz j t rf l Hat Hj0) as Hr. intros Hn'. apply Hr. intros i0 Hi0. apply Hn'. subst l'. rewrite fmap_app. set_solver.
    + rewrite list_lookup_insert_ne in A1 by done. rewrite list_lookup_insert_ne in A3 by done. by apply (Hz j0 t0 rf0 l0).
  - eapply fills_trans; [exact Hg|]. split; [exact Hn|]. intros j0 t0 rf0 l0 [B1 B2 B3]. destruct (decide (j0 = j)) as [->|Hne].
    + rewrite H1 in B1. rewrite Hf in B2. rewrite H3 in B3. injection B1 as <-. injection B2 as <-. injection B3 as <-.
      exists (t <| t_rob := q |>), rf, l'. split_and!; [|done|by constructor|].
      * split; [rewrite Ht; by eapply list_lookup_insert_eq, lookup_lt_Some|by rewrite Hf'|by eapply list_lookup_insert_eq, lookup_lt_Some].
      * subst l'. unfold code_of. by rewrite fmap_app, fmap_app.
    + exists t0, rf0, l0. split_and!; [|done|by constructor|by cbn; rewrite app_nil_r].
      split; [by rewrite Ht, list_lookup_insert_ne|by rewrite Hf'|by rewrite list_lookup_insert_ne].
Qed.

Lemma arrivals_filled opts G c j o new : forall F c1,
  filled opts G c F c1 -> opts !! j = Some o -> Forall (decoded o j) new ->
  meets (forM new (arrive (Z.of_nat j))) c1 (fun _ c' => filled opts G c (gets_also j new F) c').
Proof.
  induction new as [|i new IH]; intros F c1 Hfl Ho Hd.
  - apply meets_ret. eapply filled_ext; [exact Hfl|]. intros j'. unfold gets_also. by destruct (decide _); rewrite app_nil_r.
  - apply Forall_cons in Hd as [Hi Hd]. apply meets_bind. eapply meets_mono; [by eapply arrive_filled|]. intros u c2 Hfl2.
    eapply meets_mono; [apply (IH (gets_also j [i] F)); [exact Hfl2|exact Ho|exact Hd]|]. intros u' c' Hfl'. eapply filled_ext; [exact Hfl'|]. intros j'. unfold gets_also.
    rewrite <- (assoc_L (++)). by destruct (decide _).
Qed.

(** The threads that are not halted. *)
Definition awake (c : core Q) (j : nat) : bool := match halts c !! j with Some h => negb h | None => false end.
Lemma silent_awake c c' j : silent c c' -> awake c' j = awake c j.
Proof. intros [= _ E]. unfold awake. by rewrite E. Qed.

(** What the decoders have given in a decode when the threads [l] are still to come. *)
Definition decoded_so_far (c : core Q) (fetched : Z -> list VanadisInstruction) (l : list Z) (F : program) : program := fun j =>
  F j ++ if decide (Z.of_nat j ∈ l) then [] else if awake c j then fetched (Z.of_nat j) else [].

Lemma performDecode_filled opts G c F c1 fetched :
  filled opts G c F c1 -> feeds opts fetched ->
  meets (performDecode fetched) c1 (fun _ c' => filled opts G c (fun j => F j ++ if awake c j then fetched (Z.of_nat j) else []) c').
Proof.
  intros Hfl Hf. unfold performDecode. apply meets_bind, meets_gets.
  assert (Hn : forall F0 c0, filled opts G c F0 c0 -> length (threads c0) = length opts).
  { intros F0 c0 [(G1 & Hc & _) <-]. unfold options. by rewrite length_fmap, (co_files _ _ _ _ _ _ Hc), (co_threads _ _ _ _ _ _ Hc). }
  unfold hw_threads. rewrite (Hn _ _ Hfl). eapply meets_mono.
  - apply (meets_forM _ _ _ _ (fun l c' => filled opts G c (decoded_so_far c fetched l F) c' /\ NoDup l /\ forall x, x ∈ l -> 0 <= x < Z.of_nat (length opts))).
    + split_and!; [|apply NoDup_seqZ|intros x Hx%elem_of_seqZ; lia]. eapply filled_ext; [exact Hfl|]. intros j. unfold decoded_so_far.
      destruct (decide _) as [|Hj]; [by rewrite app_nil_r|]. rewrite elem_of_seqZ in Hj. unfold awake. rewrite lookup_ge_None_2; [by rewrite app_nil_r|].
      pose proof (Hn _ _ Hfl) as Hlen. destruct Hfl as [(G1 & _ & _ & _ & [[= _ E] _]) _]. rewrite <- E. unfold halts. rewrite length_fmap, Hlen. lia.
    + intros x l' c2 (Hfl2 & [Hnx Hnd]%NoDup_cons & Hx). specialize (Hx x (list_elem_of_here _ _)) as Hx0.
      destruct (lookup_lt_is_Some_2 opts (Z.to_nat x)) as [o Ho]; [lia|].
      destruct (lookup_lt_is_Some_2 (threads c2) (Z.to_nat x)) as [t Ht]; [rewrite (Hn _ _ Hfl2); lia|].
      apply meets_bind. eapply meets_get_thread; [lia|exact Ht|].
      assert (Hrest : forall y, y ∈ l' -> 0 <= y < Z.of_nat (length opts)) by (intros y Hy; apply Hx; by right).
      assert (Haw : awake c (Z.to_nat x) = negb (t_halted t)).
      { destruct Hfl2 as [(G2 & _ & _ & _ & [Hs _]) _]. rewrite <- (silent_awake _ _ _ Hs). unfold awake, halts. by rewrite list_lookup_fmap, Ht. }
      assert (Hnext : forall c3, filled opts G c (gets_also (Z.to_nat x) (if negb (t_halted t) then fetched x else []) (decoded_so_far c fetched (x :: l') F)) c3 ->
        filled opts G c (decoded_so_far c fetched l' F) c3).
      { intros c3 Hfl3. eapply filled_ext; [exact Hfl3|]. intros j. unfold gets_also, decoded_so_far. rewrite <- (assoc_L (++)). f_equal.
        destruct (decide (j = Z.to_nat x)) as [->|Hne].
        - rewrite Haw, Z2Nat.id by lia. rewrite decide_False by done. by rewrite decide_True by (by left).
        - rewrite app_nil_r. destruct (decide (Z.of_nat j ∈ l')) as [Hin|Hnin]; [by rewrite decide_True by (by right)|].
          rewrite decide_False; [done|]. intros [E|]%elem_of_cons; [lia|done]. }
      pose proof (Hf _ _ Ho) as Hd. rewrite Z2Nat.id in Hd by lia. apply meets_when; intros Hh.
      * pose proof (arrivals_filled opts G c (Z.to_nat x) o (fetched x) _ c2 Hfl2 Ho Hd) as Ha. rewrite Z2Nat.id in Ha by lia.
        eapply meets_mono; [exact Ha|]. intros u c3 Hfl3. split_and!; [apply Hnext; by rewrite Hh|done|done].
      * split_and!; [|done|done]. apply Hnext. rewrite Hh. eapply filled_ext; [exact Hfl2|]. intros j. unfold gets_also.
        destruct (decide _); by rewrite app_nil_r.
  - intros u c' (Hfl' & _). eapply filled_ext; [exact Hfl'|]. intros j. unfold decoded_so_far. by rewrite decide_False by apply not_elem_of_nil.
Qed.

(** ** The marks of a cycle *)

Lemma reset_temps_length a b x k :
  (length (not_issued_reg_read k x) <= length (not_issued_reg_read k (resetRegisterUseTemps a b x)))%nat /\
  (length (reg_write k x) <= length (reg_write k (resetRegisterUseTemps a b x)))%nat.
Proof. unfold resetRegisterUseTemps. destruct k; cbn; rewrite !length_app, !length_replicate, !length_drop; lia. Qed.

Lemma core_mapped G P c f :
  core_ok G P c -> (forall t, exists x, f t = t <| t_temps := x |> /\ forall n, temps_ok n (t_temps t) -> temps_ok n x) ->
  core_ok G P (c <| threads ::= fmap f |>) /\ still c (c <| threads ::= fmap f |>).
Proof.
  intros Hc Hf.
  assert (Hfields : forall t, t_retire (f t) = t_retire t /\ t_issue (f t) = t_issue t /\ t_rob (f t) = t_rob t /\ t_options (f t) = t_options t).
  { intros t. destruct (Hf t) as (x & -> & _). by destruct t. }
  split.
  - destruct Hc as [C1 C2 C3 C4 C5 C6 C7 C8 C9 C10 C11 C12 C13]. split; unfold update; cbn; try done.
    + by rewrite length_fmap.
    + intros j t rf l. rewrite list_lookup_fmap. destruct (threads c !! j) as [t0|] eqn:Ht; [|done]. intros [= <-] Hrf Hl.
      destruct (Hfields t0) as (E1 & E2 & E3 & E4). destruct (C3 j t0 rf l Ht Hrf Hl). split; unfold issue_ptr, retire_ptr; rewrite ?E1, ?E2, ?E3, ?E4; try done.
      destruct (Hf t0) as (x & -> & Hx). cbn. by apply Hx.
    + intros k. rewrite <- (C7 k). unfold kept. f_equiv; [by destruct k|]. cbn. rewrite zip_with_fmap_l.
      enough (E : zip_with (fun z => retained k (f z)) (threads c) G = zip_with (retained k) (threads c) G) by by rewrite E.
      apply zip_with_ext; [|done..]. intros t l. unfold retained. by rewrite (proj1 (Hfields t)).
    + unfold turn_ok, hw_threads in *. cbn. by rewrite length_fmap.
  - intros j t rf Ht Hrf. exists (f t), rf. cbn. rewrite list_lookup_fmap, Ht. split_and!; [done..|].
    intros k. unfold retire_ptr. by rewrite (proj1 (Hfields t)).
Qed.

Lemma reset_temps_ok opts G c F c1 :
  filled opts G c F c1 -> meets reset_temps c1 (fun _ c' => filled opts G c F c').
Proof.
  intros Hfl. unfold reset_temps. apply meets_bind, meets_gets.
  eapply meets_mono; [apply (meets_forM _ _ _ _ (fun _ c' => filled opts G c F c')); [done|]|done].
  intros u l' c2 [(G2 & Hc & Hz & Hl & Hg) Ho]. apply meets_modify.
  destruct (core_mapped G2 (unit_ids c2) c2 (fun t => t <| t_temps ::= resetRegisterUseTemps (countISAIntReg u) (countISAFPReg u) |>) Hc) as [Hc' Hs'].
  { intros t. exists (resetRegisterUseTemps (countISAIntReg u) (countISAFPReg u) (t_temps t)). split; [done|]. intros m [T1 T2].
    split; intros k; [pose proof (T1 k)|pose proof (T2 k)]; pose proof (reset_temps_length (countISAIntReg u) (countISAFPReg u) (t_temps t) k); lia. }
  split; [|done]. exists G2. split_and!; [exact Hc'| |done|].
  2: { eapply fills_ext; [eapply fills_trans; [exact Hg|by apply fills_still, silent_threads]|intros j; unfold nothing; by rewrite app_nil_r]. }
  intros j t rf l [A1 A2 A3] Hj. cbn in A1. rewrite list_lookup_fmap in A1. destruct (threads c2 !! j) as [t0|] eqn:Ht; [|done]. injection A1 as <-.
  by apply (Hz j t0 rf l).
Qed.

(** ** A cycle *)

(** All that the decoders make in a cycle for the threads that are not halted. *)
Definition cycle_program (decodes : nat) (fetched : nat -> Z -> list VanadisInstruction) : program := fun j =>
  seq 0 decodes ≫= fun d => fetched d (Z.of_nat j).
Definition given (c : core Q) (decodes : nat) (fetched : nat -> Z -> list VanadisInstruction) : program := fun j =>
  if awake c j then cycle_program decodes fetched j else [].

(** The core has gone on. *)
Definition steps_to (opts : list VanadisDecoderOptions) (F : program) (G : list (list entry)) (c c' : core Q) : Prop :=
  exists G', core_ok G' (unit_ids c') c' /\ length G' = length G /\ options c' = opts /\ goes_on F G c G' c'.

Lemma steps_to_made opts F G c G' c' : options c = opts -> core_ok G (unit_ids c) c -> core_ok G' (unit_ids c') c' ->
  length G' = length G -> goes_on F G c G' c' -> steps_to opts F G c c'.
Proof.
  intros <- Hc Hc' Hl Hg. exists G'. split_and!; [done..| |done]. eapply options_kept; [exact Hc|exact Hc'|exact Hl|].
  destruct Hg as (new & _ & Hg). intros j t rf l Hat. destruct (Hg j t rf l Hat) as (t' & rf' & l' & ran & Hat' & Ho & _). by exists t', rf', l'.
Qed.

Lemma decodes_filled opts G c fetched decodes c1 :
  filled opts G c nothing c1 -> (forall d, feeds opts (fetched d)) ->
  meets (forM (seq 0 decodes) (fun d => performDecode (fetched d))) c1 (fun _ c' => filled opts G c (given c decodes fetched) c').
Proof.
  intros Hfl Hf. eapply meets_mono.
  - apply (meets_forM _ _ _ _ (fun l c' => exists ds, ds ++ l = seq 0 decodes /\ filled opts G c (fun j => if awake c j then ds ≫= fun d => fetched d (Z.of_nat j) else []) c')).
    + exists []. split; [done|]. eapply filled_ext; [exact Hfl|]. intros j. by destruct (awake c j).
    + intros d l' c2 (ds & E & Hfl2). eapply meets_mono; [by apply performDecode_filled|]. intros u c3 Hfl3. exists (ds ++ [d]).
      split; [by rewrite <- (assoc_L (++))|]. eapply filled_ext; [exact Hfl3|]. intros j. cbv beta. destruct (awake c j); [|done]. rewrite bind_app. cbn. by rewrite app_nil_r.
  - intros u c' (ds & E & Hfl'). rewrite app_nil_r in E. by subst ds.
Qed.

(** Whether the core has come to its last cycle. *)
Definition stops (c : core Q) : bool := max_cycle c <=? current_cycle c.

Lemma tick_ok opts G c decodes fetched :
  core_ok G (unit_ids c) c -> options c = opts -> (forall d, feeds opts (fetched d)) ->
  meets (tick os wrapv host decodes fetched) c (fun _ c' => steps_to opts (if stops c then nothing else given c decodes fetched) G c c').
Proof.
  intros Hc Ho Hf. unfold tick, stops. apply meets_bind, meets_gets. destruct (max_cycle c <=? current_cycle c).
  { apply meets_ret. exists G. split_and!; [done..|apply goes_on_refl]. }
  apply meets_bind, meets_gets, meets_bind, meets_gets, meets_bind.
  assert (Hn : hw_threads c = Z.of_nat (length G)) by (unfold hw_threads; by rewrite (co_threads _ _ _ _ _ _ Hc)).
  eapply meets_mono; [eapply meets_steps; [apply silent_reset_zero_registers|by apply reset_zero_registers_ok]|]. intros u1 c1 (Hn1 & Hc1 & Hz1 & Hs1).
  assert (Hfl : filled opts G c nothing c1).
  { assert (Hg : fills nothing G c G c1) by (by apply fills_still). split; [exists G; split_and!; done|].
    rewrite <- Ho. eapply options_kept; [exact Hc|exact Hc1|done|]. destruct Hg as [_ Hg]. intros j t rf l Hat.
    destruct (Hg j t rf l Hat) as (t' & rf' & l' & Hat' & Ho' & _). by exists t', rf', l'. }
  apply meets_bind. eapply meets_mono; [exact (decodes_filled opts G c fetched decodes c1 Hfl Hf)|].
  intros u2 c2 Hfl2. apply meets_bind. eapply meets_mono; [exact (reset_temps_ok opts G c _ c2 Hfl2)|]. intros u3 c3 [(G3 & Hc3 & Hz3 & Hl3 & Hg3) Ho3].
  apply fills_goes_on in Hg3. apply meets_bind, meets_gets, meets_bind. rewrite Hn, Nat2Z.id, <- Hl3. eapply meets_mono.
  { eapply meets_steps; [apply silent_issue_loop|]. apply (issue_loop_ok wrapv host nphys _ G3); [|cbn; by rewrite length_replicate..|cbn; apply Forall_replicate; lia].
    split; [done| |].
    - intros j t rf l Hat. apply (Hz3 j t rf l Hat). rewrite <- Hl3. apply (lookup_lt_Some G3 j l), Hat.
    - intros j t rf l Hat. unfold starts_of. cbn.
      replace (replicate (length G3) 0 !!! j) with 0; [by split; intros; set_solver|].
      symmetry. apply list_lookup_total_correct, lookup_replicate_2. apply (lookup_lt_Some G3 j l), Hat. }
  intros u4 c4 ([= Hn4 _] & G4 & st & sn & Hok4 & Hl4 & Hs4). pose proof (is_core _ _ _ _ _ _ _ Hok4) as Hc4.
  apply meets_bind. eapply meets_mono; [eapply meets_steps; [apply silent_performExecute|by apply performExecute_ok]|].
  intros u5 c5 ([= Hn5 _] & G5 & Hc5 & Hl5 & Hs5).
  apply meets_bind, meets_gets, meets_bind. eapply meets_mono; [by eapply retire_loop_ok|]. intros u6 c6 (G6 & Hc6 & Hl6 & Hg6).
  apply meets_bind, meets_modify, meets_gets.
  apply (steps_to_made _ _ _ _ G6); [exact Ho|exact Hc| |by rewrite Hl6, (code_length _ _ Hl5), (code_length _ _ Hl4)|].
  - apply (core_turns _ _ _ _ _ c6); try done. apply (co_turn _ _ _ _ _ _ Hc6).
  - eapply goes_on_still; [|reflexivity|by apply (still_same c6)|reflexivity]. eapply goes_on_again; [|exact Hg6].
    eapply goes_on_still; [exact Hg3|congruence|by transitivity c4|congruence].
Qed.

(** ** Any number of cycles *)

Inductive event :=
| Cycle (decodes : nat) (fetched : nat -> Z -> list VanadisInstruction)
| Response (r : memory_response)
| Halt (thr : Z).
Definition happens (e : event) : M (core Q) unit :=
  match e with
  | Cycle decodes fetched => tick os wrapv host decodes fetched ;; skip
  | Response r => on_memory (lsq_receive r)
  | Halt thr => setHalt thr
  end.
Definition event_ok (opts : list VanadisDecoderOptions) (e : event) : Prop :=
  match e with
  | Cycle _ fetched => forall d, feeds opts (fetched d)
  | Response r => response_ok r
  | Halt thr => 0 <= thr
  end.

(** What an event does to the buffer [l] of thread [j]: in a cycle of a core that is not
    at its end, what the decoder makes for the thread comes to the end of the buffer,
    unless the thread is halted, and [ran] retires; a halt throws the buffer away. [rs]
    are the restarts that the decoder is told. *)
Definition resolves (e : event) (c : core Q) (j : nat) (l ran : list VanadisInstruction) (rs : list Z) (l' : list VanadisInstruction) : Prop :=
  match e with
  | Cycle decodes fetched => retires (l ++ (skeleton <$> if stops c then [] else given c decodes fetched j)) ran rs l'
  | Response _ => ran = [] /\ rs = [] /\ l' = l
  | Halt thr => ran = [] /\ if decide (thr = Z.of_nat j) then rs = [0] /\ l' = [] else rs = [] /\ l' = l
  end.
Definition event_done (e : event) (G : list (list entry)) (c : core Q) (G' : list (list entry)) (c' : core Q) : Prop :=
  exists new, told c' = told c ++ new /\ forall j t rf l, at_thread G c j t rf l -> exists t' rf' l' ran,
    at_thread G' c' j t' rf' l' /\ decoder_opts rf' = decoder_opts rf /\
    executes wrapv host (decoder_opts rf) ran (arch (decoder_opts rf) (retire_ptr t) rf) (arch (decoder_opts rf) (retire_ptr t') rf') /\
    resolves e c j (code_of l) ran (restarts_of j new) (code_of l').

Lemma setHalt_ok G c thr :
  core_ok G (unit_ids c) c -> 0 <= thr ->
  meets (setHalt thr) c (fun _ c' => exists G', core_ok G' (unit_ids c') c' /\ length G' = length G /\ event_done (Halt thr) G c G' c').
Proof.
  intros Hc H0. unfold setHalt. apply meets_bind, meets_gets, meets_when.
  2: { intros Hge%Z.ltb_ge. unfold hw_threads in Hge. rewrite (co_threads _ _ _ _ _ _ Hc) in Hge. exists G. split_and!; [done..|].
    exists []. rewrite app_nil_r. split; [done|]. intros j t rf l Hat. exists t, rf, l, []. split_and!; [done|done|by constructor|].
    pose proof (lookup_lt_Some _ _ _ (ath_rob _ _ _ _ _ _ Hat)). split; [done|]. by rewrite decide_False by lia. }
  intros Hlt%Z.ltb_lt. unfold hw_threads in Hlt. rewrite (co_threads _ _ _ _ _ _ Hc) in Hlt.
  destruct (thread_exists _ _ _ _ _ _ Hc (Z.to_nat thr)) as (t & rf & l & Hat); [lia|].
  apply meets_bind. eapply meets_on_thread; [done|apply Hat|].
  destruct (core_same_thread _ _ _ _ _ _ _ _ _ _ (t <| t_halted := true |>) Hc Hat) as [Hc1 Hat1]; [done..|apply (view_at _ _ _ _ _ _ Hc _ _ _ _ Hat)|].
  match type of Hat1 with at_thread _ ?x _ _ _ _ => set (c1 := x) in * end.
  rewrite <- (Z2Nat.id thr) at 1 by done. eapply meets_mono; [eapply meets_tells; [apply handleMisspeculate_tells|by eapply handleMisspeculate_ok]|].
  intros u c' (En & q & Hc' & Ht' & Hf' & _ & _). exists (<[Z.to_nat thr := []]> G). split_and!; [done|by rewrite length_insert|].
  exists [SetInstructionPointer (Z.of_nat (Z.to_nat thr)) 0]. split; [exact En|].
  intros j t0 rf0 l0 [B1 B2 B3]. assert (Ht1 : threads c1 = <[Z.to_nat thr := t <| t_halted := true |>]> (threads c)) by done.
  rewrite Ht1 in Ht'. assert (Hf1 : register_files c' = register_files c) by (by rewrite Hf'). rewrite Z2Nat.id by done.
  unfold resolves, restarts_of. cbn. destruct (decide (j = Z.to_nat thr)) as [->|Hne].
  - destruct Hat as [A1 A2 A3]. rewrite A1 in B1. rewrite A2 in B2. injection B1 as <-. injection B2 as <-.
    eexists _, rf, [], []. split_and!; [split; [rewrite Ht'; eapply list_lookup_insert_eq; rewrite length_insert; by eapply lookup_lt_Some
      |by rewrite Hf1|by eapply list_lookup_insert_eq, lookup_lt_Some]|done|by constructor|done|]. by rewrite !decide_True by lia.
  - exists t0, rf0, l0, []. split_and!; [split; [rewrite Ht', !list_lookup_insert_ne by done; done|by rewrite Hf1|by rewrite list_lookup_insert_ne]|done|by constructor|done|].
    by rewrite !decide_False by lia.
Qed.

Lemma event_steps opts G c e :
  core_ok G (unit_ids c) c -> options c = opts -> event_ok opts e ->
  meets (happens e) c (fun _ c' => exists G', core_ok G' (unit_ids c') c' /\ length G' = length G /\ event_done e G c G' c').
Proof.
  intros Hc Ho He. destruct e as [decodes fetched|r|thr]; cbn [happens].
  - apply meets_bind. eapply meets_mono; [exact (tick_ok opts G c decodes fetched Hc Ho He)|]. intros b c' (G' & Hc' & Hl & _ & Hg). apply meets_ret.
    exists G'. split_and!; [done..|]. unfold event_done, resolves. by destruct (stops c).
  - eapply meets_mono; [eapply meets_steps; [apply silent_on_memory|]; apply (on_memory_ok wrapv host nphys G); [exact Hc|];
      apply lsq_receive_ok; [by eapply queue_ready|done]|].
    intros u c' ([= Hn _] & G' & Hc' & Hl & Hs). exists G'. split_and!; [done|by apply code_length|].
    exists []. rewrite app_nil_r. split; [done|]. intros j t rf l [H1 H2 H3].
    destruct (Hs j t rf H1 H2) as (t' & rf' & H1' & H2' & Ho' & Ea). destruct (code_lookup _ _ _ _ Hl H3) as (l' & H3' & El).
    exists t', rf', l', []. split_and!; [by split|done|by constructor|]. split_and!; [done|done|by rewrite El].
  - by apply setHalt_ok.
Qed.

(** The life of thread [j] through the events: event by event, what its buffer is given
    and what of it retires. *)
Inductive life (j : nat) : list event -> core Q -> list VanadisInstruction -> list VanadisInstruction -> core Q -> list VanadisInstruction -> Prop :=
| life_end c l : life j [] c l [] c l
| life_event e es c c1 c' new l l1 l' ran1 ran : happens e c = Ok (tt, c1) -> told c1 = told c ++ new ->
    resolves e c j l ran1 (restarts_of j new) l1 -> life j es c1 l1 ran c' l' -> life j (e :: es) c l (ran1 ++ ran) c' l'.

Definition lives_on (es : list event) (G : list (list entry)) (c c' : core Q) : Prop :=
  exists G', core_ok G' (unit_ids c') c' /\ length G' = length G /\ forall j t rf l, at_thread G c j t rf l -> exists t' rf' l' ran,
    at_thread G' c' j t' rf' l' /\ decoder_opts rf' = decoder_opts rf /\
    executes wrapv host (decoder_opts rf) ran (arch (decoder_opts rf) (retire_ptr t) rf) (arch (decoder_opts rf) (retire_ptr t') rf') /\
    life j es c (code_of l) ran c' (code_of l').

Lemma events_steps opts es : forall G c,
  core_ok G (unit_ids c) c -> options c = opts -> Forall (event_ok opts) es ->
  meets (forM es happens) c (fun _ c' => lives_on es G c c').
Proof.
  induction es as [|e es IH]; intros G c Hc Ho Hes.
  { apply meets_ret. exists G. split_and!; [done..|]. intros j t rf l Hat. exists t, rf, l, []. split_and!; [done|done|by constructor|constructor]. }
  apply Forall_cons in Hes as [He Hes].
  apply meets_bind. eapply meets_mono; [apply meets_result; exact (event_steps opts G c e Hc Ho He)|]. intros [] c1 (Er & G1 & Hc1 & Hl1 & new & Hn & Hg1).
  eapply meets_mono; [apply (IH G1 c1 Hc1); [|done]|].
  { rewrite <- Ho. eapply options_kept; [exact Hc|exact Hc1|exact Hl1|]. intros j t rf l Hat.
    destruct (Hg1 j t rf l Hat) as (t1 & rf1 & l1 & ran1 & Hat1 & Ho1 & _). by exists t1, rf1, l1. }
  intros u' c' (G' & Hc' & Hl' & Hg'). exists G'. split_and!; [done|congruence|]. intros j t rf l Hat.
  destruct (Hg1 j t rf l Hat) as (t1 & rf1 & l1 & ran1 & Hat1 & Ho1 & E1 & S1).
  destruct (Hg' j t1 rf1 l1 Hat1) as (t2 & rf2 & l2 & ran2 & Hat2 & Ho2 & E2 & S2). rewrite Ho1 in *.
  exists t2, rf2, l2, (ran1 ++ ran2). split_and!; [done|done|by eapply executes_app|by eapply life_event].
Qed.
End cycle.

(** ** The construction of a core *)

Lemma new_table_ok o : table_ok (nregs o) (new_VanadisISATable o (isa_int_reg_count o) (isa_fp_reg_count o)).
Proof. by split; intros []; unfold ptr; cbn; rewrite length_replicate. Qed.
Lemma new_stack_ok n : 0 <= n -> stack_ok n (new_VanadisRegisterStack n) /\ free (new_VanadisRegisterStack n) = seqZ 0 n.
Proof.
  intros Hn. unfold free. split; [split; cbn; rewrite ?length_seqZ; lia|]. cbn. apply take_ge. rewrite length_seqZ. lia.
Qed.

(** [P] has been taken from the free registers. *)
Record taken (size : Z) (s s' : VanadisRegisterStack) (P : list Z) : Prop := {
  tk_stack : stack_ok size s';
  tk_prefix : free s' `prefix_of` free s;
  tk_perm : free s ≡ₚ free s' ++ P }.

Lemma taken_none size s : stack_ok size s -> taken size s s [].
Proof. intros Hs. split; [done|done|by rewrite app_nil_r]. Qed.
Lemma taken_more size s s1 s' P P' : taken size s s1 P -> taken size s1 s' P' -> taken size s s' (P ++ P').
Proof.
  intros [A1 A2 A3] [B1 B2 B3]. split; [done|by transitivity (free s1)|]. rewrite A3, B3. solve_Permutation.
Qed.
Lemma taken_length size s s' P : taken size s s' P -> length (free s) = (length (free s') + length P)%nat.
Proof. intros [_ _ Hp]. apply Permutation_length in Hp. by rewrite length_app in Hp. Qed.

Lemma take_registers_ok k size n m : forall j t s,
  stack_ok size s -> table_ok n t -> (j + m = n k)%nat -> (m <= length (free s))%nat ->
  exists t' s' P, take_registers k m (Z.of_nat j) t s = Ok (t', s') /\ table_ok n t' /\ taken size s s' P /\ length P = m /\
    ptr k t' = take j (ptr k t) ++ P /\ forall k', k' <> k -> ptr k' t' = ptr k' t.
Proof.
  induction m as [|m IH]; intros j t s Hs Ht Hj Hm; cbn [take_registers].
  { exists t, s, []. split_and!; [done|done|by apply taken_none|done| |done].
    rewrite app_nil_r, take_ge; [done|]. rewrite (table_ptr _ _ Ht k). lia. }
  destruct (exists_last (l := free s)) as (l & x & Hl); [by destruct (free s); cbn in *; [lia|]|].
  destruct (runs_pop_register size s l x Hs Hl) as (y & s1 & E & -> & Hf1 & Hs1). rewrite E. cbn [fst snd mbind res_bind].
  destruct (setPhysReg_ok n k (Z.of_nat j) x t Ht) as (t1 & E1 & Ht1 & Hp1 & Ho1); [unfold reg_ok; lia|].
  rewrite E1. cbn [mbind res_bind]. rewrite Nat2Z.id in Hp1.
  destruct (IH (S j) t1 s1) as (t' & s' & P & E' & Ht' & Htk & HP & Hp' & Ho'); [done|done|lia|rewrite Hl, length_app in Hm; rewrite Hf1; cbn in Hm; lia|].
  exists t', s', (x :: P). replace (Z.of_nat j + 1) with (Z.of_nat (S j)) by lia. split_and!; [done|done| |cbn; lia| |].
  - apply (taken_more size s s1 s' [x] P); [|done]. split; [done|rewrite Hl, Hf1; by eexists|by rewrite Hl, Hf1].
  - assert (Hlt : (j < length (ptr k t))%nat) by (rewrite (table_ptr _ _ Ht k); lia). rewrite Hp', Hp1.
    rewrite (take_S_r _ j x) by (by apply list_lookup_insert_eq). rewrite take_insert_ge by lia. by rewrite <- (assoc_L (++)).
  - intros k' Hne. rewrite Ho' by done. by apply Ho1.
Qed.

(** ** Threads *)

Definition stack_at (k : kind) (int_s fp_s : VanadisRegisterStack) : VanadisRegisterStack :=
  match k with INT => int_s | FP => fp_s end.

Record thread_made (rob_count : Z) (o : VanadisDecoderOptions) (t : thread) : Prop := {
  tm_options : t_options t = o;
  tm_rob : t_rob t = new_queue rob_count;
  tm_issue : table_ok (nregs o) (t_issue t);
  tm_retire : table_ok (nregs o) (t_retire t);
  tm_same k : ptr k (t_issue t) = ptr k (t_retire t) }.

Lemma new_thread_ok size rob_count o int_s fp_s :
  (forall k, stack_ok (size k) (stack_at k int_s fp_s)) ->
  (forall k, (nregs o k <= length (free (stack_at k int_s fp_s)))%nat) ->
  exists t int_s' fp_s', new_thread rob_count o int_s fp_s = Ok (t, int_s', fp_s') /\ thread_made rob_count o t /\
    forall k, taken (size k) (stack_at k int_s fp_s) (stack_at k int_s' fp_s') (ptr k (t_retire t)).
Proof.
  intros Hs Hn. unfold new_thread. pose proof (new_table_ok o) as Ht.
  destruct (take_registers_ok INT (size INT) (nregs o) (nregs o INT) 0 _ int_s (Hs INT) Ht) as (t1 & s1 & P1 & E1 & Ht1 & Hk1 & HP1 & Hp1 & Ho1);
    [done|apply (Hn INT)|].
  destruct (take_registers_ok FP (size FP) (nregs o) (nregs o FP) 0 t1 fp_s (Hs FP) Ht1) as (t2 & s2 & P2 & E2 & Ht2 & Hk2 & HP2 & Hp2 & Ho2);
    [done|apply (Hn FP)|].
  unfold nregs in E1, E2. change (Z.of_nat 0) with 0 in E1, E2. rewrite E1. cbn [mbind res_bind fst snd]. rewrite E2. cbn [mbind res_bind fst snd].
  assert (Hi : ptr INT t2 = P1) by (by rewrite Ho2, Hp1). assert (Hf : ptr FP t2 = P2) by (by rewrite Hp2).
  eexists _, s1, s2. split; [reflexivity|]. split.
  - destruct Ht2 as [R1 R2 R3]. split; cbn; [done|done|done| |by intros []].
    split; intros []; [apply (R1 INT)|apply (R1 FP)|apply (R2 INT)|apply (R2 FP)|apply (R3 INT)|apply (R3 FP)].
  - intros []; unfold ptr in *; cbn in *; [by rewrite Hi|by rewrite Hf].
Qed.

Definition regs_needed (k : kind) (os : list VanadisDecoderOptions) : nat := sum_list_with (fun o => nregs o k) os.

Lemma new_threads_ok size rob_count os : forall int_s fp_s,
  (forall k, stack_ok (size k) (stack_at k int_s fp_s)) ->
  (forall k, (regs_needed k os <= length (free (stack_at k int_s fp_s)))%nat) ->
  exists ts int_s' fp_s', new_threads rob_count os int_s fp_s = Ok (ts, int_s', fp_s') /\ Forall2 (thread_made rob_count) os ts /\
    forall k, taken (size k) (stack_at k int_s fp_s) (stack_at k int_s' fp_s') (ts ≫= fun t => ptr k (t_retire t)).
Proof.
  induction os as [|o os IH]; intros int_s fp_s Hs Hn; cbn [new_threads].
  { exists [], int_s, fp_s. split_and!; [done|constructor|]. intros k. by apply taken_none. }
  destruct (new_thread_ok size rob_count o int_s fp_s Hs) as (t & s1 & f1 & E & Hm & Hk).
  { intros k. specialize (Hn k). unfold regs_needed in Hn. cbn in Hn. lia. }
  rewrite E. cbn [mbind res_bind].
  destruct (IH s1 f1) as (ts & s2 & f2 & E2 & Hm2 & Hk2).
  - intros k. apply (tk_stack _ _ _ _ (Hk k)).
  - intros k. specialize (Hn k). unfold regs_needed in *. cbn in Hn. pose proof (taken_length _ _ _ _ (Hk k)) as Hl.
    rewrite (table_ptr _ _ (tm_retire _ _ _ Hm) k) in Hl. lia.
  - rewrite E2. cbn [mbind res_bind]. exists (t :: ts), s2, f2. split_and!; [done|by constructor|].
    intros k. rewrite bind_cons. by eapply taken_more.
Qed.

Lemma new_file_wf o ni nf : 0 <= ni -> 0 <= nf -> file_wf (new_VanadisRegisterFile o ni nf (fp_reg_mode o)).
Proof.
  intros Hi Hf. split; [by apply new_register_file_wf|by cbn; destruct (fp_reg_mode o)|].
  cbn. rewrite length_replicate. destruct (fp_reg_mode o); lia.
Qed.
Lemma foldr_max_le (l : list Z) x : x ∈ l -> x <= foldr Z.max 0 l.
Proof. induction l as [|y l IH]; [set_solver|]. intros [->|Hx]%elem_of_cons; cbn; [lia|]. specialize (IH Hx). lia. Qed.
Lemma none_temps_ok o a b : isa_int_reg_count o <= a -> isa_fp_reg_count o <= b ->
  let none n := replicate (Z.to_nat n) false in temps_ok (nregs o) (mkTemps (none a) (none a) (none b) (none b)).
Proof. intros Ha Hb. split; intros []; cbn [not_issued_reg_read reg_write tmp_not_issued_int_reg_read tmp_int_reg_write tmp_not_issued_fp_reg_read tmp_fp_reg_write]; rewrite length_replicate; unfold nregs; lia. Qed.
Lemma no_thread_registers (f : thread -> list Z) k (ts : list thread) m :
  (forall t, f t = ptr k (t_retire t)) -> length ts = m -> mjoin (zip_with (retained k) ts (replicate m [])) = ts ≫= f.
Proof.
  intros Hf <-. induction ts as [|t ts IH]; [done|]. cbn [length replicate zip_with]. rewrite join_cons, bind_cons, IH, Hf.
  unfold retained. cbn. by rewrite app_nil_r.
Qed.
Lemma join_empty {A} n : mjoin (replicate n ([] : list A)) = [].
Proof. by induction n. Qed.

Record options_ok (o : VanadisDecoderOptions) : Prop := {
  oo_int : 0 <= isa_int_reg_count o;
  oo_fp : 0 <= isa_fp_reg_count o;
  oo_zero : 0 <= reg_ignore_writes o }.

Lemma prefix_bottom (l l' : list Z) : l `prefix_of` l' -> (0 < length l)%nat -> hd_error l = hd_error l'.
Proof. intros [x ->] Hl. destruct l; cbn in *; [lia|done]. Qed.

Section start.
Context {Q : Type} `{LoadStoreQueueLaws Q}.
Variables (wrapv : bool) (host : fp_operation -> list Z -> Z).
Variables (rob_count int_reg_count fp_reg_count : Z) (os : list VanadisDecoderOptions)
  (new_units : unit_class -> list VanadisFunctionalUnit) (q : Q).
Definition register_count (k : kind) : Z := match k with INT => int_reg_count | FP => fp_reg_count end.
Hypothesis Hrob : 0 < rob_count.
Hypothesis Hos : os <> [] /\ Forall options_ok os.
Hypothesis Hregs : forall k, Z.of_nat (regs_needed k os) < register_count k.
Hypothesis Hunits : forall k, records_of (new_units k) = [].
Hypothesis Hq : lsq_ids q = [] /\ forall fs, lsq_inv (mkMemory ∅ fs q).

Lemma new_core_ok max issues retires pause_at :
  exists c, new_core rob_count int_reg_count fp_reg_count os new_units q max issues retires pause_at = Ok c /\
    core_ok wrapv host register_count (replicate (length os) []) (unit_ids c) c /\ options c = os.
Proof.
  destruct Hos as [Hne Hopts]. destruct Hq as [Hids Hinv].
  assert (Hpos : forall k, 0 <= register_count k) by (intros k; pose proof (Hregs k); lia).
  assert (Hstack : forall k, stack_ok (register_count k) (stack_at k (new_VanadisRegisterStack int_reg_count) (new_VanadisRegisterStack fp_reg_count)) /\
    free (stack_at k (new_VanadisRegisterStack int_reg_count) (new_VanadisRegisterStack fp_reg_count)) = seqZ 0 (register_count k)).
  { intros []; [apply new_stack_ok, (Hpos INT)|apply new_stack_ok, (Hpos FP)]. }
  destruct (new_threads_ok register_count rob_count os (new_VanadisRegisterStack int_reg_count) (new_VanadisRegisterStack fp_reg_count))
    as (ts & s' & f' & E & Hm & Hk); [apply Hstack|intros k; rewrite (proj2 (Hstack k)), length_seqZ; pose proof (Hregs k); lia|].
  unfold new_core. rewrite E. cbn [mbind res_bind]. eexists. split; [reflexivity|]. pose proof (Forall2_length _ _ _ Hm) as Hl.
  split; [|unfold options; cbn; rewrite <- list_fmap_compose; apply list_fmap_id].
  set (temps := mkTemps _ _ _ _).
  assert (Hu : forall c : core Q, units c = new_units -> unit_ids c = []) by (intros c Ec; unfold unit_ids; by rewrite Ec, !Hunits).
  rewrite Hu by done.
  assert (Hfree : forall k, hd_error (free (stack_at k s' f')) = Some 0).
  { intros k. pose proof (Hregs k) as Hlt. pose proof (taken_length _ _ _ _ (Hk k)) as Hlen.
    rewrite (proj2 (Hstack k)), length_seqZ in Hlen.
    assert (Htot : length (ts ≫= fun t => ptr k (t_retire t)) = regs_needed k os).
    { clear - Hm. unfold regs_needed. induction Hm as [|o t os ts Ht Hm IH]; [done|]. rewrite bind_cons, length_app, IH. cbn. f_equal.
      apply (table_ptr _ _ (tm_retire _ _ _ Ht) k). }
    rewrite (prefix_bottom _ _ (tk_prefix _ _ _ _ (Hk k))) by lia. rewrite (proj2 (Hstack k)), seqZ_cons by lia. done. }
  split; cbn.
  - by rewrite length_fmap, length_replicate.
  - by rewrite length_fmap, length_replicate.
  - intros j t rf l Ht Hrf [-> _]%lookup_replicate_1. rewrite list_lookup_fmap in Ht. rewrite list_lookup_fmap in Hrf.
    destruct (ts !! j) as [t0|] eqn:Ht0; [|done]. destruct (os !! j) as [o|] eqn:Ho; [|done]. injection Ht as <-. injection Hrf as <-.
    pose proof (Forall2_lookup_lr _ _ _ _ _ _ Hm Ho Ht0) as [M1 M2 M3 M4 M5]. rewrite Forall_forall in Hopts.
    destruct (Hopts o (list_elem_of_lookup_2 _ _ _ Ho)) as [O1 O2 O3].
    assert (Hi : isa_int_reg_count o <= foldr Z.max 0 (isa_int_reg_count <$> os)) by (apply foldr_max_le, list_elem_of_fmap_2; by eapply list_elem_of_lookup_2).
    assert (Hf : isa_fp_reg_count o <= foldr Z.max 0 (isa_fp_reg_count <$> os)) by (apply foldr_max_le, list_elem_of_fmap_2; by eapply list_elem_of_lookup_2).
    split; cbn; rewrite ?M1, ?M2; try done.
    + by apply new_queue_holds.
    + by apply none_temps_ok.
    + apply new_file_wf; [apply (Hpos INT)|apply (Hpos FP)].
    + split; [constructor|set_solver| |set_solver..]. intros k. unfold issue_ptr, retire_ptr. cbn. apply M5.
    + set_solver.
  - rewrite join_empty. constructor.
  - intros k. pose proof (tk_stack _ _ _ _ (Hk k)). by destruct k.
  - intros k. pose proof (Hfree k). by destruct k.
  - intros k. pose proof (tk_perm _ _ _ _ (Hk k)) as Hp. rewrite (proj2 (Hstack k)) in Hp. unfold kept.
    rewrite (no_thread_registers (fun t => ptr k (t_retire t))) by (done || by rewrite length_fmap).
    rewrite list_fmap_bind. rewrite Hp. by destruct k.
  - constructor.
  - set_solver.
  - rewrite Hids. constructor.
  - rewrite Hids. set_solver.
  - apply Hinv.
  - unfold turn_ok, hw_threads. cbn. rewrite length_fmap. destruct os; cbn in *; [done|]. lia.
Qed.

(** The operating system starts a thread whose buffer is empty. *)
Lemma startThread_ok c ip0 thr sp ip :
  core_ok wrapv host register_count (replicate (length os) []) (unit_ids c) c -> options c = os ->
  0 <= thr < Z.of_nat (length os) ->
  meets execution_failure (startThread ip0 thr sp ip) c (fun _ c' =>
    core_ok wrapv host register_count (replicate (length os) []) (unit_ids c') c' /\ options c' = os).
Proof.
  intros Hc Ho Ht. set (G := replicate (length os) ([] : list entry)) in *.
  destruct (thread_exists _ _ _ _ _ _ Hc (Z.to_nat thr)) as (t & rf & l & Hat); [subst G; rewrite length_replicate; lia|].
  assert (l = []) as -> by (by apply (lookup_replicate_1 _ _ _ _ (ath_rob _ _ _ _ _ _ Hat))).
  unfold startThread. apply meets_bind. eapply meets_on_thread; [lia|apply Hat|].
  destruct (core_same_thread _ _ _ _ _ _ _ _ _ _ (t <| t_halted := false |>) Hc Hat) as [Hc1 Hat1]; [done..|apply (view_at _ _ _ _ _ _ Hc _ _ _ _ Hat)|].
  match type of Hat1 with at_thread _ ?x _ _ _ _ => set (c1 := x) in * end.
  set (t1 := t <| t_halted := false |>) in *.
  apply meets_bind, meets_modify. set (c2 := c1 <| told ::= _ |>).
  assert (Hc2 : core_ok wrapv host register_count G (unit_ids c2) c2) by (apply (core_turns _ _ _ _ _ c1); [exact Hc1|done..|apply (co_turn _ _ _ _ _ _ Hc1)]).
  assert (Hat2 : at_thread G c2 (Z.to_nat thr) t1 rf []) by (by destruct Hat1). pose proof Hat2 as [A1 A2 A3].
  apply meets_bind. eapply meets_get_thread; [lia|exact A1|].
  apply meets_bind, meets_getsR. eapply yields_index; [lia|exact A2|]. apply meets_bind, meets_getsR.
  pose proof (view_at _ _ _ _ _ _ Hc2 _ _ _ _ Hat2) as V. pose proof (vw_thread _ _ _ _ _ _ _ _ V) as Hth.
  assert (Hptr : forall k, issue_ptr t1 k = retire_ptr t1 k) by (intros k; exact (th_issue _ _ _ _ _ _ _ Hth k)).
  unfold setStackPointer. apply yields_bind. unfold getPhysReg.
  destruct (Z.ltb_spec 2 (Z.of_nat (length (reg_ptr (registers INT (t_issue t1)))))) as [Hlt|]; [|done].
  destruct (at_index_in_range (reg_ptr (registers INT (t_issue t1))) 2) as [p Hp]; [lia|]. rewrite Hp. cbn [yields].
  destruct (setIntReg uint64_t p sp true rf) as [rf'|e] eqn:Hset; [|revert Hset; unfold setIntReg, assert; by destruct (p <? _); intros [= <-]].
  pose proof (vw_file _ _ _ _ _ _ _ _ V) as Hwf. apply at_index_Ok in Hp as [_ Hp].
  assert (Hp0 : 0 <= p).
  { pose proof (thread_separate _ _ _ _ _ _ Hc2 _ _ _ A1 A3 INT) as [_ Hn]. rewrite Forall_forall in Hn. apply Hn.
    rewrite <- Hptr. apply elem_of_app. left. by eapply list_elem_of_lookup_2. }
  destruct (setIntReg_frame _ _ _ _ _ _ 0 Hwf Hp0 Hset) as (Hlike & _ & _).
  cbn [yields]. apply meets_bind, meets_getsR. rewrite set_index_in_range by (apply lookup_lt_Some in A2; lia). cbn [yields].
  apply meets_bind, meets_modify, meets_bind. eapply meets_put_thread; [lia|exact A1|].
  set (c3 := _ <| threads := _ |>).
  assert (Hc3 : core_ok wrapv host register_count G (unit_ids c3) c3 /\ options c3 = os).
  { split.
    - rewrite <- (list_insert_id G (Z.to_nat thr) []) by done. eapply core_change; [exact Hc2|exact Hat2|]. subst c3. split; cbn.
      + reflexivity.
      + reflexivity.
      + lia.
      + done.
      + destruct V as [V1 V2 V3 V4 V5 V6 V7 V8 V9 V10 V11].
        split; try done; [|by apply (like_wf _ _ Hlike)|by rewrite (like_opts _ _ Hlike)|].
        * destruct V2 as [R1 R2 R3]. split; intros []; [apply (R1 INT)|apply (R1 FP)|apply (R2 INT)|apply (R2 FP)|apply (R3 INT)|apply (R3 FP)].
        * split; [constructor|set_solver| |set_solver..]. by intros [].
      + constructor.
      + by left.
      + intros k. pose proof (co_stack _ _ _ _ _ _ Hc2 k). by destruct k.
      + intros k. pose proof (co_bottom _ _ _ _ _ _ Hc2 k). by destruct k.
      + intros k. pose proof (Hptr k) as E. unfold issue_ptr, retire_ptr in E. unfold retained. cbn. f_equiv; [by destruct k|].
        f_equiv. transitivity (ptr k (t_issue t1)); [by destruct k|by rewrite E].
      + apply (co_units _ _ _ _ _ _ Hc2).
      + exact (step_units _ _ _ _ _ _ _ _ _ _ Hc2 Hat2).
      + apply (co_queued _ _ _ _ _ _ Hc2).
      + exact (step_queue _ _ _ _ _ _ _ _ _ _ Hc2 Hat2).
      + eapply lsq_inv_frame; [apply (co_inv _ _ _ _ _ _ Hc2)|done|]. intros id i _ Hi. by exists i.
      + done.
    - rewrite <- Ho. unfold options. subst c3. cbn. rewrite list_fmap_insert, (like_opts _ _ Hlike). apply list_insert_id.
      by rewrite list_lookup_fmap, (ath_file _ _ _ _ _ _ Hat). }
  destruct Hc3 as [Hc3 Ho3]. apply meets_when; intros _; [apply meets_modify|done]. split; [|done].
  apply (core_turns _ _ _ _ _ c3); [exact Hc3|done..|apply (co_turn _ _ _ _ _ _ Hc3)].
Qed.

(** The threads that the operating system starts: of each, its number, its stack and
    where it begins. *)
Definition boot (initial_config_ip : Z) (starts : list (Z * Z * Z)) : M (core Q) unit :=
  forM starts (fun s => startThread initial_config_ip s.1.1 s.1.2 s.2).

Lemma boot_ok ip0 starts c :
  core_ok wrapv host register_count (replicate (length os) []) (unit_ids c) c -> options c = os ->
  Forall (fun s => 0 <= s.1.1 < Z.of_nat (length os)) starts ->
  meets execution_failure (boot ip0 starts) c (fun _ c' =>
    core_ok wrapv host register_count (replicate (length os) []) (unit_ids c') c' /\ options c' = os).
Proof.
  intros Hc Ho Hs. unfold boot.
  eapply meets_mono; [apply (meets_forM _ _ _ _ (fun l c' => (core_ok wrapv host register_count (replicate (length os) []) (unit_ids c') c' /\ options c' = os) /\
    Forall (fun s => 0 <= s.1.1 < Z.of_nat (length os)) l)); [done|]|by intros u c' [H' _]].
  intros s l' c1 [[Hc1 Ho1] [Hs1 Hs']%Forall_cons]. eapply meets_mono; [by apply startThread_ok|]. intros u c' H'. by split.
Qed.
End start.
