(* ===== verification/VanadisLsqSafe.v ===== *)
(** * VanadisLsqSafe: the basic load-store queue keeps the laws

    The instance of [LoadStoreQueueLaws] for the queue of [VanadisLsq]: it has the
    instructions of its three lists, and every step on them ([serving]) changes only
    their flags and their output registers. *)

From stdpp Require Import functions.
From S2P Require Import Prelude VanadisRegs VanadisInst VanadisRename VanadisFrame VanadisMem VanadisLsq.

#[local] Abbreviation mem := (memory VanadisBasicLoadStoreQueue).
#[local] Abbreviation meets := (meets execution_failure).

(** ** The instructions of a queue *)

Definition queue_ids (q : VanadisBasicLoadStoreQueue) : list Z :=
  (entry_ins <$> op_q q) ++ (sp_ins <$> stores_pending q) ++ (lp_ins <$> loads_pending q).
Definition lists (q : VanadisBasicLoadStoreQueue) :
    list VanadisBasicLoadStoreEntry * list VanadisBasicStorePendingEntry * list VanadisBasicLoadPendingEntry :=
  (op_q q, stores_pending q, loads_pending q).

Definition type_of (op : VanadisBasicLoadStoreEntryOp) : VanadisFunctionalUnitType :=
  match op with LOAD => INST_LOAD | STORE => INST_STORE | FENCE => INST_FENCE end.
Definition typed (h : gmap Z VanadisInstruction) (id : Z) (t : VanadisFunctionalUnitType) : Prop :=
  exists i, h !! id = Some i /\ getInstFuncType (class i) = t.
Record queue_typed (h : gmap Z VanadisInstruction) (q : VanadisBasicLoadStoreQueue) : Prop := {
  qt_op e : e ∈ op_q q -> typed h (entry_ins e) (type_of (getEntryOp e));
  qt_store e : e ∈ stores_pending q -> typed h (sp_ins e) INST_STORE;
  qt_load e : e ∈ loads_pending q -> typed h (lp_ins e) INST_LOAD }.

Lemma typed_mono h h' id t :
  (forall i, h !! id = Some i -> exists i', h' !! id = Some i' /\ class i' = class i) -> typed h id t -> typed h' id t.
Proof. intros Hh (i & Hi & Ht). destruct (Hh i Hi) as (i' & Hi' & E). exists i'. by rewrite E. Qed.
Lemma queue_typed_mono h h' q :
  (forall id i, id ∈ queue_ids q -> h !! id = Some i -> exists i', h' !! id = Some i' /\ class i' = class i) ->
  queue_typed h q -> queue_typed h' q.
Proof.
  intros Hh [H1 H2 H3].
  split; intros e He; (eapply typed_mono; [intros i; apply Hh|by auto]); unfold queue_ids; rewrite !elem_of_app;
    [left|right; left|right; right]; by apply list_elem_of_fmap_2.
Qed.
Lemma queue_typed_sub h q q' : op_q q' ⊆ op_q q -> (sp_ins <$> stores_pending q') ⊆ (sp_ins <$> stores_pending q) ->
  (lp_ins <$> loads_pending q') ⊆ (lp_ins <$> loads_pending q) -> queue_typed h q -> queue_typed h q'.
Proof.
  intros S1 S2 S3 [H1 H2 H3]. split.
  - auto.
  - intros e He. destruct (list_elem_of_fmap_1 sp_ins _ _ (S2 _ (list_elem_of_fmap_2 sp_ins _ _ He))) as (e' & -> & He'). auto.
  - intros e He. destruct (list_elem_of_fmap_1 lp_ins _ _ (S3 _ (list_elem_of_fmap_2 lp_ins _ _ He))) as (e' & -> & He'). auto.
Qed.
Lemma queue_typed_same h q q' : lists q' = lists q -> queue_typed h q -> queue_typed h q'.
Proof. unfold lists. intros [= E1 E2 E3] [H1 H2 H3]. split; rewrite ?E1, ?E2, ?E3; auto. Qed.
Lemma queue_ids_same q q' : lists q' = lists q -> queue_ids q' = queue_ids q.
Proof. unfold lists, queue_ids. by intros [= -> -> ->]. Qed.

Definition queue_inv (m : mem) : Prop := queue_typed (e_heap m) (queue m).
#[local] Abbreviation ready := (ready queue_ids queue_inv).

(** ** Steps that serve some operations *)

Record serving (m0 m : mem) : Prop := {
  sg_progress : progressed (queue_ids (queue m0)) (e_heap m0) (e_heap m) (registerFiles m0) (registerFiles m);
  sg_ready : ready m;
  sg_ids : queue_ids (queue m) ⊆+ queue_ids (queue m0) }.

Lemma serving_refl m : ready m -> serving m m.
Proof. intros Hr. split; [apply progressed_refl|done|done]. Qed.
Lemma serving_served m0 m : serving m0 m -> served queue_ids queue_inv m0 m.
Proof.
  intros [H1 [R1 R2 R3] H3]. split; [done|done| |done]. intros id i Hid Hi. destruct (R3 id Hid) as (i' & Hi' & P).
  rewrite Hi in Hi'. injection Hi' as <-. apply (pn_unexecuted _ _ P).
Qed.

Lemma pending_erase fs i i' : erase i' = erase i -> hasExecuted i' = false -> pending fs i -> pending fs i'.
Proof.
  intros E Hx [P1 P2 P3 P4 P5 P6]. split; [unfold is_memory; by rewrite (erase_class _ _ E)|done| | |by rewrite (erase_thread _ _ E)..].
  - destruct P3 as [O1 O2 O3 O4 O5]. split; intros; rewrite ?(erase_isa_in _ _ E), ?(erase_isa_out _ _ E), ?(erase_phys_in _ _ E), ?(erase_phys_out _ _ E),
      ?(erase_class _ _ E), ?(erase_options _ _ E) in *; auto. apply (erase_speculated _ _ E). auto.
  - intros k. rewrite (erase_phys_in _ _ E), (erase_phys_out _ _ E). apply P4.
Qed.

(** A flag of an instruction changes, and perhaps the queue. *)
Lemma serving_update m0 m id i i' q' :
  serving m0 m -> e_heap m !! id = Some i -> id ∈ queue_ids (queue m) -> erase i' = erase i ->
  queue_ids q' ⊆+ queue_ids (queue m) -> (id ∈ queue_ids q' -> hasExecuted i' = false) -> queue_typed (e_heap m) q' ->
  serving m0 (m <| e_heap := <[id := i']> (e_heap m) |> <| queue := q' |>).
Proof.
  intros [H1 [R1 R2 R3] H3] Hi Hid E Hq Hx Ht. split; cbn.
  - eapply (progressed_trans _ (queue_ids (queue m))); [exact H1| |intros x Hx'; by eapply elem_of_submseteq].
    split; [| |done|].
    + intros id0 i0 Hi0. destruct (decide (id0 = id)) as [->|Hne].
      * rewrite lookup_insert_eq. exists i'. assert (i0 = i) as -> by congruence. by split_and!.
      * rewrite lookup_insert_ne by done. by exists i0.
    + intros id0 Hi0. rewrite lookup_insert_ne; [done|]. by intros <-; rewrite Hi in Hi0.
    + intros t rf Hf. by exists rf.
  - split.
    + unfold queue_inv; cbn. eapply queue_typed_mono; [|exact Ht]. intros id0 i0 _ Hi0. destruct (decide (id0 = id)) as [->|Hne].
      * rewrite lookup_insert_eq. exists i'. assert (i0 = i) as -> by congruence. by rewrite (erase_class _ _ E).
      * rewrite lookup_insert_ne by done. by exists i0.
    + by eapply submseteq_NoDup.
    + intros id0 Hid0. destruct (R3 id0) as (i0 & Hi0 & P); [by eapply elem_of_submseteq|]. cbn. destruct (decide (id0 = id)) as [->|Hne].
      * rewrite lookup_insert_eq. exists i'. assert (i0 = i) as -> by congruence. split; [done|]. eapply pending_erase; [done|by apply Hx|done].
      * rewrite lookup_insert_ne by done. by exists i0.
  - by transitivity (queue_ids (queue m)).
Qed.

Lemma serving_queue m0 m q' : serving m0 m -> queue_ids q' ⊆+ queue_ids (queue m) -> queue_typed (e_heap m) q' ->
  serving m0 (m <| queue := q' |>).
Proof.
  intros [H1 [R1 R2 R3] H3] Hq Ht. split; [done| |cbn; by transitivity (queue_ids (queue m))]. split; [done|by eapply submseteq_NoDup|].
  intros id Hid. apply R3. by eapply elem_of_submseteq.
Qed.

(** The output register of an operation is written. *)
Lemma serving_file m0 m id i rf rf' :
  serving m0 m -> e_heap m !! id = Some i -> id ∈ queue_ids (queue m) ->
  registerFiles m !! Z.to_nat (hw_thread i) = Some rf -> file_like rf rf' ->
  (forall k p, 0 <= p -> p ∉ phys_out k i -> cell k rf' p = cell k rf p) ->
  serving m0 (m <| registerFiles := <[Z.to_nat (hw_thread i) := rf']> (registerFiles m) |>).
Proof.
  intros [H1 [R1 R2 R3] H3] Hi Hid Hf Hl Hc. split; [|split; [done|done|]|done].
  - eapply (progressed_trans _ (queue_ids (queue m))); [exact H1| |intros x Hx'; by eapply elem_of_submseteq].
    split; [intros id0 i0 Hi0; by exists i0|done|by cbn; rewrite length_insert|].
    intros t rf0 Hf0. cbn. destruct (decide (t = Z.to_nat (hw_thread i))) as [->|Hne].
    + rewrite list_lookup_insert_eq by (by eapply lookup_lt_Some). assert (rf0 = rf) as -> by congruence. exists rf'. split_and!; [done|done|].
      intros k p Hp Hn. apply Hc; [done|]. by apply (Hn id i).
    + rewrite list_lookup_insert_ne by done. by exists rf0.
  - intros id0 Hid0. destruct (R3 id0 Hid0) as (i0 & Hi0 & [P1 P2 P3 P4 P5 (rf0 & P6 & P7)]). exists i0. split; [done|]. split; try done.
    cbn. destruct (decide (Z.to_nat (hw_thread i0) = Z.to_nat (hw_thread i))) as [E|Hne].
    + rewrite E in *. rewrite list_lookup_insert_eq by (by eapply lookup_lt_Some). exists rf'. split; [done|].
      apply (like_wf _ _ Hl). congruence.
    + rewrite list_lookup_insert_ne by done. by exists rf0.
Qed.

(** Steps that leave the three lists of the queue. *)
Record moves (m0 m m' : mem) : Prop := {
  mv_serving : serving m0 m';
  mv_lists : lists (queue m') = lists (queue m);
  mv_erase id i : e_heap m !! id = Some i -> exists i', e_heap m' !! id = Some i' /\ erase i' = erase i }.
Lemma moves_refl m0 m : serving m0 m -> moves m0 m m.
Proof. intros Hs. split; [done|done|]. intros id i Hi. by exists i. Qed.
Lemma moves_trans m0 m m1 m2 : moves m0 m m1 -> moves m0 m1 m2 -> moves m0 m m2.
Proof.
  intros [A1 A2 A3] [B1 B2 B3]. split; [done|congruence|]. intros id i Hi. destruct (A3 id i Hi) as (i1 & Hi1 & E1).
  destruct (B3 id i1 Hi1) as (i2 & Hi2 & E2). exists i2. split; congruence.
Qed.
Lemma moves_queue m0 m q' : serving m0 m -> lists q' = lists (queue m) -> moves m0 m (m <| queue := q' |>).
Proof.
  intros Hs Hl. split; [|done|intros id i Hi; by exists i]. apply serving_queue; [done|by rewrite (queue_ids_same _ _ Hl)|].
  eapply queue_typed_same; [done|]. apply Hs.
Qed.
Lemma moves_ids m0 m m' id : moves m0 m m' -> id ∈ queue_ids (queue m) -> id ∈ queue_ids (queue m').
Proof. intros [_ Hl _]. by rewrite (queue_ids_same _ _ Hl). Qed.

Section steps.
Variables (m0 m : mem).
Hypothesis Hs : serving m0 m.

Lemma sg_ins id : id ∈ queue_ids (queue m) -> exists i, e_heap m !! id = Some i /\ pending (registerFiles m) i.
Proof. apply (rd_pending _ _ _ (sg_ready _ _ Hs)). Qed.

Lemma meets_the_ins id i (R : VanadisInstruction -> mem -> Prop) :
  e_heap m !! id = Some i -> R i m -> meets (the_ins id) m R.
Proof. intros Hi HR. apply meets_getsR. by rewrite Hi. Qed.

Lemma meets_trap id (R : unit -> mem -> Prop) :
  id ∈ queue_ids (queue m) -> (forall m', moves m0 m m' -> (exists i, e_heap m' !! id = Some i /\ trapError i = true) -> R tt m') -> meets (trap id) m R.
Proof.
  intros Hid HR. destruct (sg_ins id Hid) as (i & Hi & P). apply meets_bind. eapply meets_the_ins; [done|]. apply meets_modify, HR.
  - split; [|done|].
    + apply (serving_update m0 m id i (i <| trapError := true |>) (queue m)); try done; [intros _; exact (pn_unexecuted _ _ P)|apply Hs].
    + intros id0 i0 Hi0. cbn. destruct (decide (id0 = id)) as [->|Hne].
      * rewrite lookup_insert_eq. eexists. split; [done|]. assert (i0 = i) as -> by congruence. by destruct i.
      * rewrite lookup_insert_ne by done. by exists i0.
  - cbn. rewrite lookup_insert_eq. eexists. split; [done|]. by destruct i.
Qed.

(** An operation is done with. *)
Lemma done_serving id q' :
  queue_ids (queue m) ≡ₚ id :: queue_ids q' -> queue_typed (e_heap m) q' ->
  exists i, e_heap m !! id = Some i /\ serving m0 (m <| e_heap := <[id := i <| hasExecuted := true |>]> (e_heap m) |> <| queue := q' |>).
Proof.
  intros Hq Ht. destruct (sg_ins id) as (i & Hi & P); [rewrite Hq; by left|]. exists i. split; [done|].
  apply (serving_update m0 m id i); try done.
  - rewrite Hq. by left.
  - rewrite Hq. by apply submseteq_cons.
  - intros Hin. exfalso. pose proof (rd_nodup _ _ _ (sg_ready _ _ Hs)) as Hn. rewrite Hq in Hn. by apply NoDup_cons in Hn as [Hn _].
Qed.

Lemma meets_the_file i (R : VanadisRegisterFile -> mem -> Prop) :
  pending (registerFiles m) i -> (forall rf, registerFiles m !! Z.to_nat (hw_thread i) = Some rf -> file_wf rf -> R rf m) ->
  meets (the_file (hw_thread i)) m R.
Proof. intros [P1 P2 P3 P4 P5 (rf & Hf & Hwf)] HR. apply meets_getsR. eapply yields_index; [done|exact Hf|by apply HR]. Qed.

Lemma meets_set_file id i rf rf' (R : unit -> mem -> Prop) :
  e_heap m !! id = Some i -> id ∈ queue_ids (queue m) ->
  registerFiles m !! Z.to_nat (hw_thread i) = Some rf -> 0 <= hw_thread i -> file_like rf rf' ->
  (forall k p, 0 <= p -> p ∉ phys_out k i -> cell k rf' p = cell k rf p) ->
  (forall m', moves m0 m m' -> R tt m') -> meets (set_file (hw_thread i) rf') m R.
Proof.
  intros Hi Hid Hf H0 Hl Hc HR. apply meets_bind, meets_getsR. rewrite set_index_in_range by (apply lookup_lt_Some in Hf; lia).
  apply meets_modify, HR. split; [by eapply serving_file|done|]. intros id0 i0 Hi0. by exists i0.
Qed.
End steps.

Lemma load_class c : getInstFuncType c = INST_LOAD -> exists o w s t r, c = Op (Load o w s t r).
Proof. destruct c as [[]|[]]; cbn; try done. eauto 10. Qed.
Lemma store_class c : getInstFuncType c = INST_STORE ->
  (exists o w t r, c = Op (Store o w t r)) \/ exists o w r a b, c = Op (StoreConditional o w r a b).
Proof. destruct c as [[]|[]]; cbn; try done; eauto 10. Qed.
Lemma fence_class c : getInstFuncType c = INST_FENCE -> exists f, c = Op (Fence f).
Proof. destruct c as [[]|[]]; cbn; try done. eauto 10. Qed.

Section idle.
Variables (m0 m : mem).
Hypothesis Hs : serving m0 m.

Lemma meets_on_queue f (R : unit -> mem -> Prop) :
  (forall q, lists (f q) = lists q) -> (forall m', moves m0 m m' -> R tt m') -> meets (on_queue f) m R.
Proof. intros Hf HR. apply meets_modify, HR. by apply moves_queue. Qed.
Lemma meets_request kind addr width data i (R : memory_request -> mem -> Prop) :
  (forall r m', moves m0 m m' -> R r m') -> meets (request kind addr width data i) m R.
Proof.
  intros HR. apply meets_bind, meets_gets, meets_bind. apply meets_on_queue; [done|]. intros m' Hm. by apply meets_ret, HR.
Qed.
Lemma meets_send r (R : unit -> mem -> Prop) : (forall m', moves m0 m m' -> R tt m') -> meets (send r) m R.
Proof. by apply meets_on_queue. Qed.
Lemma meets_in_flight r (R : unit -> mem -> Prop) : (forall m', moves m0 m m' -> R tt m') -> meets (VanadisLsq.in_flight r) m R.
Proof. by apply meets_on_queue. Qed.
Lemma meets_lsq_assert b (R : unit -> mem -> Prop) : (b = true -> R tt m) -> meets (lsq_assert b) m R.
Proof. unfold lsq_assert. destruct b; [intros HR; by apply HR|done]. Qed.
Lemma yields_division (a b : Z) (f : Z -> Z -> res Z) R : (f = udiv \/ f = umod) -> (forall x, R x) -> yields execution_failure (f a b) R.
Proof. clear m0 m Hs. intros [-> | ->] HR; unfold udiv, umod; destruct (b =? 0); cbn; [set_solver|done|set_solver|done]. Qed.
Lemma meets_straddles a w (R : bool -> mem -> Prop) :
  (forall b, R b m) -> meets (getsR (fun m => operationStraddlesCacheLine a w (queue m))) m R.
Proof.
  intros HR. apply meets_getsR. unfold operationStraddlesCacheLine. apply yields_bind, yields_division; [by left|]. intros x.
  apply yields_bind, yields_division; [by left|]. intros y. apply HR.
Qed.
Lemma meets_split a w (R : Z * Z -> mem -> Prop) : (forall p, R p m) -> meets (split_widths a w) m R.
Proof.
  intros HR. apply meets_bind, meets_getsR, yields_division; [by right|]. intros x. apply meets_bind, meets_lsq_assert. intros _.
  apply meets_bind, meets_lsq_assert. intros _. apply meets_ret, HR.
Qed.
Lemma meets_address_of wrapv i o w (R : Z * Z -> mem -> Prop) :
  pending (registerFiles m) i -> (0 < reads (fp_reg_mode (isa_options i)) (class i) INT)%nat -> (forall a, R a m) ->
  meets (address_of i (computeLoadAddress wrapv o w)) m R.
Proof.
  intros P Hr HR. apply meets_bind. eapply meets_the_file; [exact P|]. intros rf Hf Hwf. apply meets_getsR.
  assert (Hk : keeps (fp_reg_mode (isa_options i)) (class i) (computeLoadAddress wrapv o w)).
  { apply keeps_bind; [apply keeps_getInt; lia|]. intros x. apply keeps_bind; [apply keeps_arith|]. intros y. apply keeps_ret. }
  specialize (Hk (mkExec i rf)). unfold Prelude.meets in Hk. destruct (computeLoadAddress wrapv o w (mkExec i rf)) as [[a s]|e].
  - apply HR.
  - apply Hk. split; cbn; [apply P|done|done|apply P|done].
Qed.
End idle.

(** ** Loads *)

Definition pop_ops (q : VanadisBasicLoadStoreQueue) : VanadisBasicLoadStoreQueue := q <| op_q ::= fun l => tail l |>.

(** The front of the queue. *)
Record at_front (m : mem) (e : VanadisBasicLoadStoreEntry) (i : VanadisInstruction) (rest : list VanadisBasicLoadStoreEntry) : Prop := {
  fr_ops : op_q (queue m) = e :: rest;
  fr_ins : e_heap m !! entry_ins e = Some i;
  fr_pending : pending (registerFiles m) i;
  fr_type : getInstFuncType (class i) = type_of (getEntryOp e) }.

Lemma front_ids m e i rest : at_front m e i rest -> queue_ids (queue m) = entry_ins e :: queue_ids (pop_ops (queue m)).
Proof. intros [H _ _ _]. unfold queue_ids. rewrite H. cbn. by rewrite H. Qed.
Lemma pop_typed h q : queue_typed h q -> queue_typed h (pop_ops q).
Proof. apply queue_typed_sub; [|done|done]. cbn. destruct (op_q q); set_solver. Qed.
Lemma front_moves m0 m m' e i rest : at_front m e i rest -> moves m0 m m' -> exists i', at_front m' e i' rest /\ erase i' = erase i.
Proof.
  intros [F1 F2 F3 F4] [M1 M2 M3]. destruct (M3 _ _ F2) as (i' & Hi' & E). exists i'. split; [|done].
  assert (F1' : op_q (queue m') = e :: rest) by (unfold lists in M2; congruence).
  split; [done|done| |by rewrite (erase_class _ _ E)].
  destruct (sg_ins _ _ M1 (entry_ins e)) as (i1 & Hi1 & P); [unfold queue_ids; rewrite F1'; by left|].
  rewrite Hi' in Hi1. by injection Hi1 as <-.
Qed.
Lemma pop_serving m0 m e i rest : serving m0 m -> at_front m e i rest -> serving m0 (m <| queue := pop_ops (queue m) |>).
Proof.
  intros Hs Hf. apply serving_queue; [done| |apply pop_typed, Hs]. rewrite (front_ids _ _ _ _ Hf). by apply submseteq_cons.
Qed.

Section load.
Variables (m0 m : mem) (e : VanadisBasicLoadStoreEntry) (i : VanadisInstruction) (rest : list VanadisBasicLoadStoreEntry).
Hypothesis Hs : serving m0 m.
Hypothesis Hf : at_front m e i rest.
Hypothesis He : getEntryOp e = LOAD.

Lemma meets_load_fields m1 (R : _ -> mem -> Prop) :
  (forall f, R f m1) -> meets (getsR (fun _ => load_fields i)) m1 R.
Proof.
  intros HR. apply meets_getsR. unfold load_fields. pose proof (fr_type _ _ _ _ Hf) as Ht. rewrite He in Ht.
  destruct (load_class _ Ht) as (o & w & s & t & r & ->). apply HR.
Qed.

Lemma special_load_ok kind a w ns :
  meets (special_load (entry_ins e) kind i a w ns) m (fun _ m' => moves m0 m m').
Proof.
  unfold special_load. destruct ns.
  - apply meets_bind. eapply meets_trap; [exact Hs|rewrite (front_ids _ _ _ _ Hf); by left|]. intros m' Hm _. by apply meets_ret.
  - apply meets_bind. eapply meets_request; [exact Hs|]. intros r m' Hm. by apply meets_ret.
Qed.

Lemma issueLoad_ok a w :
  meets (issueLoad (entry_ins e) a w) m (fun _ m' => serving m0 (m' <| queue := pop_ops (queue m') |>)).
Proof.
  unfold issueLoad. apply meets_bind. eapply meets_the_ins; [apply Hf|]. apply meets_bind, meets_straddles. intros ns.
  apply meets_bind, meets_load_fields. intros [[[[o w'] s] t] r].
  assert (Hid : entry_ins e ∈ queue_ids (queue m)) by (rewrite (front_ids _ _ _ _ Hf); by left).
  apply (meets_step _ _ _ _ (fun _ m' => moves m0 m m')).
  - destruct t.
    + destruct ns.
      * apply meets_bind, meets_split. intros [wl wr]. apply meets_bind, meets_getsR, yields_division; [by right|]. intros x.
        apply meets_bind, meets_lsq_assert. intros _.
        apply meets_bind. eapply meets_request; [exact Hs|]. intros r1 m1 Hm1. apply meets_bind. eapply meets_send; [apply Hm1|].
        intros m2 Hm2. apply meets_bind. eapply meets_request; [apply Hm2|]. intros r2 m3 Hm3. apply meets_ret.
        by repeat (eapply moves_trans; [eassumption|]); apply moves_refl, Hm3.
      * apply meets_bind, meets_lsq_assert. intros _. apply meets_bind, meets_gets. destruct (_ =? 0).
        -- apply meets_bind. eapply meets_trap; [exact Hs|done|]. intros m' Hm _. by apply meets_ret.
        -- apply meets_bind. eapply meets_request; [exact Hs|]. intros r1 m1 Hm1. by apply meets_ret.
    + apply meets_bind. eapply meets_mono; [apply special_load_ok|]. intros x m' Hm. by apply meets_ret.
    + done.
    + apply meets_bind. eapply meets_mono; [apply special_load_ok|]. intros x m' Hm. by apply meets_ret.
  - intros made m1 Hm1. destruct (front_moves _ _ _ _ _ _ Hf Hm1) as (i1 & Hf1 & E1).
    apply meets_bind. eapply meets_the_ins; [apply Hf1|]. apply meets_when; intros _; [|exact (pop_serving _ _ _ _ _ (mv_serving _ _ _ Hm1) Hf1)].
    apply meets_bind, meets_getsR. destruct (snd made) as [r'|]; [|done]. apply meets_bind. eapply meets_send; [apply Hm1|].
    intros m2 Hm2. destruct (front_moves _ _ _ _ _ _ Hf1 Hm2) as (i2 & Hf2 & E2). apply meets_modify.
    apply (serving_queue m0 m2 (pop_ops _ <| loads_pending ::= _ |>)); [apply Hm2|..].
    + rewrite (front_ids _ _ _ _ Hf2). unfold queue_ids. cbn. rewrite fmap_app. cbn.
      rewrite (assoc_L (++)), (assoc_L (++)). apply Permutation_submseteq. solve_Permutation.
    + destruct (pop_typed _ _ (rd_inv _ _ _ (sg_ready _ _ (mv_serving _ _ _ Hm2)))) as [T1 T2 T3]. split; [done|done|].
      intros e0 [He0|He0%list_elem_of_singleton]%elem_of_app; [by apply T3|]. subst e0. cbn. exists i2. split; [apply Hf2|].
      by rewrite (fr_type _ _ _ _ Hf2), He.
Qed.
End load.

(** ** Attempts to issue *)

Lemma any_of_thread_ok {E} m0 m (pointer : E -> Z) thread P l (R : bool -> mem -> Prop) :
  serving m0 m -> (forall e, e ∈ l -> pointer e ∈ queue_ids (queue m)) -> (forall b, R b m) ->
  meets (any_of_thread pointer thread P l) m R.
Proof.
  intros Hs Hl HR. induction l as [|e l IH]; cbn [any_of_thread]; [apply meets_ret, HR|].
  destruct (sg_ins _ _ Hs (pointer e)) as (i & Hi & _); [apply Hl; by left|]. apply meets_bind. eapply meets_the_ins; [exact Hi|].
  destruct (_ && _); [apply meets_ret, HR|]. apply IH. intros e' He'. apply Hl. by right.
Qed.
Lemma load_pointer q e : e ∈ loads_pending q -> lp_ins e ∈ queue_ids q.
Proof. intros He. unfold queue_ids. rewrite !elem_of_app. right; right. by apply list_elem_of_fmap_2. Qed.
Lemma store_pointer q e : e ∈ stores_pending q -> sp_ins e ∈ queue_ids q.
Proof. intros He. unfold queue_ids. rewrite !elem_of_app. right; left. by apply list_elem_of_fmap_2. Qed.

Section attempts.
Variables (wrapv : bool) (m0 m : mem) (e : VanadisBasicLoadStoreEntry) (i : VanadisInstruction) (rest : list VanadisBasicLoadStoreEntry).
Hypothesis Hs : serving m0 m.
Hypothesis Hf : at_front m e i rest.

Lemma attempt_load_ok : getEntryOp e = LOAD -> meets (attempt_load wrapv (entry_ins e)) m (fun _ m' => serving m0 m').
Proof.
  intros He. unfold attempt_load. apply meets_bind, meets_gets. destruct (_ <=? _); [by apply meets_ret|].
  apply meets_bind. eapply meets_the_ins; [apply Hf|]. pose proof (fr_type _ _ _ _ Hf) as Ht. rewrite He in Ht.
  destruct (load_class _ Ht) as (o & w & s & t & r & Ec). apply meets_bind, meets_getsR. unfold load_fields. rewrite Ec. cbn [yields].
  apply meets_bind. apply meets_address_of; [apply Hf|rewrite Ec; cbn; lia|]. intros [a w'].
  destruct (trapError i).
  - apply meets_bind, meets_modify, meets_ret. exact (pop_serving _ _ _ _ _ Hs Hf).
  - apply meets_bind. unfold checkStoreConflict. apply meets_bind, meets_gets. eapply any_of_thread_ok; [exact Hs|apply store_pointer|].
    intros []; [by apply meets_ret|]. apply meets_bind. eapply meets_mono; [by eapply issueLoad_ok|]. intros u m' Hm'.
    apply meets_bind, meets_modify, meets_ret. exact Hm'.
Qed.

Lemma done_at_front :
  exists i0, e_heap m !! entry_ins e = Some i0 /\
    serving m0 (m <| e_heap := <[entry_ins e := i0 <| hasExecuted := true |>]> (e_heap m) |> <| queue := pop_ops (queue m) |>).
Proof. apply done_serving; [done|by rewrite (front_ids _ _ _ _ Hf)|apply pop_typed, Hs]. Qed.

Lemma mark_and_pop (R : bool -> mem -> Prop) : (forall m', serving m0 m' -> R true m') ->
  meets (mark_executed (entry_ins e) ;; pop_front ;; mret true) m R.
Proof.
  intros HR. destruct done_at_front as (i0 & Hi0 & Hd). apply meets_bind, meets_bind. eapply meets_the_ins; [exact Hi0|].
  apply meets_modify, meets_bind, meets_modify, meets_ret, HR. exact Hd.
Qed.

Lemma attempt_store_ok : getEntryOp e = STORE -> meets (attempt_store wrapv (entry_ins e)) m (fun _ m' => serving m0 m').
Proof.
  intros He. unfold attempt_store. apply meets_bind, meets_gets. destruct (_ <=? _); [by apply meets_ret|].
  apply meets_bind. eapply meets_the_ins; [apply Hf|]. pose proof (fr_type _ _ _ _ Hf) as Ht. rewrite He in Ht.
  assert (Hfields : exists o w t r, store_fields i = Ok (o, w, t, r) /\ (0 < reads (fp_reg_mode (isa_options i)) (class i) INT)%nat /\
    match r with STORE_INT_REGISTER => reads (fp_reg_mode (isa_options i)) (class i) INT = 2%nat
               | STORE_FP_REGISTER => reads (fp_reg_mode (isa_options i)) (class i) FP = 1%nat end).
  { unfold store_fields. destruct (store_class _ Ht) as [(o & w & t & r & ->)|(o & w & r & a & b & ->)]; eexists o, w, _, r; destruct r; cbn; auto with lia. }
  destruct Hfields as (o & w & t & r & -> & Hr & Hop). apply meets_bind, meets_getsR. cbn [yields].
  apply meets_bind. apply meets_address_of; [apply Hf|done|]. intros [a w'].
  destruct (trapError i).
  - by apply mark_and_pop.
  - pose proof (pn_operands _ _ (fr_pending _ _ _ _ Hf)) as Ho. apply meets_bind, meets_bind, meets_getsR.
    assert (Hreg : exists p, match r with STORE_INT_REGISTER => at_index (phys_int_regs_in i) 1 | STORE_FP_REGISTER => at_index (phys_fp_regs_in i) 0 end = Ok p).
    { destruct r; apply at_index_in_range.
      - change (phys_int_regs_in i) with (phys_in INT i). rewrite (op_phys_in _ Ho), (op_reads _ Ho), Hop. lia.
      - change (phys_fp_regs_in i) with (phys_in FP i). rewrite (op_phys_in _ Ho), (op_reads _ Ho), Hop. lia. }
    destruct Hreg as [p ->]. apply meets_modify, meets_bind, meets_modify, meets_ret.
    apply (serving_queue m0 m (pop_ops ((queue m) <| stores_pending ::= _ |>))); [exact Hs|..].
    + rewrite (front_ids _ _ _ _ Hf). unfold queue_ids. cbn. rewrite fmap_app. cbn. apply Permutation_submseteq. solve_Permutation.
    + destruct (pop_typed _ _ (rd_inv _ _ _ (sg_ready _ _ Hs))) as [T1 T2 T3]. split; [done| |done].
      intros e0 [He0|He0%list_elem_of_singleton]%elem_of_app; [by apply T2|]. subst e0. cbn. exists i. split; [apply Hf|done].
Qed.

Lemma attempt_fence_ok : getEntryOp e = FENCE -> meets (attempt_fence (entry_ins e)) m (fun _ m' => serving m0 m').
Proof.
  intros He. unfold attempt_fence. apply meets_bind. eapply meets_the_ins; [apply Hf|]. pose proof (fr_type _ _ _ _ Hf) as Ht. rewrite He in Ht.
  destruct (fence_class _ Ht) as (f & ->). apply meets_bind, meets_getsR. cbn [yields].
  assert (Hany : forall (b : bool) (op : M mem bool) (R : bool -> mem -> Prop), (forall R', (forall x, R' x m) -> meets op m R') ->
    (forall x, R x m) -> meets (if b then op else mret false) m R) by (intros [] op R Ho HR; [by apply Ho|apply HR]).
  apply meets_bind, Hany.
  { intros R HR. apply meets_bind, meets_gets. eapply any_of_thread_ok; [exact Hs|apply load_pointer|done]. }
  intros x. apply meets_bind, Hany.
  { intros R HR. apply meets_bind, meets_gets. eapply any_of_thread_ok; [exact Hs|apply store_pointer|done]. }
  intros y. apply meets_bind, meets_gets. destruct (_ || _); [by apply meets_ret|]. by apply mark_and_pop.
Qed.
End attempts.

Lemma attempt_to_issue_ok wrapv m0 m : serving m0 m -> meets (attempt_to_issue wrapv) m (fun _ m' => serving m0 m').
Proof.
  intros Hs. unfold attempt_to_issue. apply meets_bind, meets_gets. destruct (op_q (queue m)) as [|e rest] eqn:Ho; [by apply meets_ret|].
  destruct (qt_op _ _ (rd_inv _ _ _ (sg_ready _ _ Hs)) e) as (i & Hi & Ht); [rewrite Ho; by left|].
  destruct (sg_ins _ _ Hs (entry_ins e)) as (i' & Hi' & P); [unfold queue_ids; rewrite Ho; by left|].
  assert (i' = i) as -> by congruence. apply meets_bind. eapply meets_the_ins; [exact Hi|]. destruct (negb _); [by apply meets_ret|].
  assert (Hf : at_front m e i rest) by by split.
  destruct (getEntryOp e) eqn:He; [by eapply attempt_load_ok|by eapply attempt_store_ok|by eapply attempt_fence_ok].
Qed.
Lemma attempts_ok wrapv n : forall m0 m, serving m0 m -> meets (attempts wrapv n) m (fun _ m' => serving m0 m').
Proof.
  induction n as [|n IH]; intros m0 m Hs; cbn [attempts]; [by apply meets_ret|]. apply meets_bind.
  eapply meets_mono; [by apply attempt_to_issue_ok|]. intros [] m' Hm'; [by apply IH|by apply meets_ret].
Qed.

(** ** Stores *)

Definition pop_stores (q : VanadisBasicLoadStoreQueue) : VanadisBasicLoadStoreQueue := q <| stores_pending ::= fun l => tail l |>.

(** The store at the front of those that wait. *)
Record store_front (m : mem) (id : Z) (i : VanadisInstruction) : Prop := {
  sf_stores : exists e rest, stores_pending (queue m) = e :: rest /\ sp_ins e = id;
  sf_ins : e_heap m !! id = Some i;
  sf_pending : pending (registerFiles m) i;
  sf_type : getInstFuncType (class i) = INST_STORE }.

Lemma store_front_made m0 m e rest : serving m0 m -> stores_pending (queue m) = e :: rest -> exists i, store_front m (sp_ins e) i.
Proof.
  intros Hs Hq. destruct (qt_store _ _ (rd_inv _ _ _ (sg_ready _ _ Hs)) e) as (i & Hi & Ht); [rewrite Hq; by left|].
  destruct (sg_ins _ _ Hs (sp_ins e)) as (i' & Hi' & P); [apply store_pointer; rewrite Hq; by left|].
  assert (i' = i) as -> by congruence. exists i. split; [by exists e, rest|done..].
Qed.
Lemma store_front_ids m id i : store_front m id i -> queue_ids (queue m) ≡ₚ id :: queue_ids (pop_stores (queue m)).
Proof. intros [(e & rest & H & <-) _ _ _]. unfold queue_ids. cbn. rewrite H. cbn. solve_Permutation. Qed.
Lemma pop_stores_typed h q : queue_typed h q -> queue_typed h (pop_stores q).
Proof. apply queue_typed_sub; [done| |done]. cbn. destruct (stores_pending q); set_solver. Qed.
Lemma store_front_moves m0 m m' id i : store_front m id i -> moves m0 m m' -> exists i', store_front m' id i' /\ erase i' = erase i.
Proof.
  intros [(e & rest & F1 & F0) F2 F3 F4] [M1 M2 M3]. destruct (M3 _ _ F2) as (i' & Hi' & E). exists i'. split; [|done].
  assert (F1' : stores_pending (queue m') = e :: rest) by (unfold lists in M2; congruence).
  split; [by exists e, rest|done| |by rewrite (erase_class _ _ E)].
  destruct (sg_ins _ _ M1 id) as (i1 & Hi1 & P); [rewrite <- F0; apply store_pointer; rewrite F1'; by left|].
  rewrite Hi' in Hi1. by injection Hi1 as <-.
Qed.

(** The entry at the front may change, but not the store it is of. *)
Record same_front (m0 m' : mem) (id : Z) : Prop := {
  sm_serving : serving m0 m';
  sm_front : exists i', store_front m' id i' }.
Lemma front_entry_kept m0 m id i f (R : unit -> mem -> Prop) :
  serving m0 m -> store_front m id i -> (forall e, sp_ins (f e) = sp_ins e) -> (forall m', same_front m0 m' id -> R tt m') ->
  meets (on_store_front f) m R.
Proof.
  intros Hs Hf Hsp HR. apply meets_modify, HR. destruct Hf as [(e & rest & F1 & F0) F2 F3 F4].
  assert (El : (sp_ins <$> match stores_pending (queue m) with e :: l' => f e :: l' | [] => [] end) = (sp_ins <$> stores_pending (queue m))).
  { rewrite F1. cbn. by rewrite Hsp. }
  split.
  - apply (serving_queue m0 m ((queue m) <| stores_pending ::= _ |>)); [done| |].
    + unfold queue_ids. cbn. by rewrite El.
    + eapply queue_typed_sub; [..|apply (rd_inv _ _ _ (sg_ready _ _ Hs))]; cbn; [done|by rewrite El|done].
  - exists i. split; [|done..]. cbn. rewrite F1. exists (f e), rest. by rewrite Hsp.
Qed.

Section store.
Variables (m0 m : mem) (id : Z) (i : VanadisInstruction).
Hypothesis Hs : serving m0 m.
Hypothesis Hf : store_front m id i.

Lemma front_stays m' : moves m0 m m' -> same_front m0 m' id.
Proof. intros Hm. split; [apply Hm|]. destruct (store_front_moves _ _ _ _ _ Hf Hm) as (i' & Hf' & _). by exists i'. Qed.

(** Marked as executed and let go, in any order. *)
Lemma finished_serving : exists i0, e_heap m !! id = Some i0 /\
  serving m0 (m <| e_heap := <[id := i0 <| hasExecuted := true |>]> (e_heap m) |> <| queue := pop_stores (queue m) |>).
Proof. apply done_serving; [done|by rewrite (store_front_ids _ _ _ Hf)|apply pop_stores_typed, Hs]. Qed.
Lemma finish_store_ok : meets (finish_store id) m (fun _ m' => serving m0 m').
Proof.
  destruct finished_serving as (i0 & Hi0 & Hd). apply meets_bind, meets_bind. eapply meets_the_ins; [exact Hi0|].
  apply meets_modify, meets_modify. exact Hd.
Qed.

Lemma store_operands : exists o w t r, store_fields i = Ok (o, w, t, r) /\
  match r with STORE_INT_REGISTER => reads (fp_reg_mode (isa_options i)) (class i) INT = 2%nat
             | STORE_FP_REGISTER => reads (fp_reg_mode (isa_options i)) (class i) FP = 1%nat end.
Proof.
  unfold store_fields.
  destruct (store_class _ (sf_type _ _ _ Hf)) as [(o & w & t & r & ->)|(o & w & r & a & b & ->)]; eexists o, w, _, r; destruct r; done.
Qed.
End store.

Lemma payload_ok m i r offset width (R : list Z -> mem -> Prop) :
  pending (registerFiles m) i ->
  match r with STORE_INT_REGISTER => reads (fp_reg_mode (isa_options i)) (class i) INT = 2%nat
             | STORE_FP_REGISTER => reads (fp_reg_mode (isa_options i)) (class i) FP = 1%nat end ->
  (forall l, R l m) -> meets (payload i r offset width) m R.
Proof.
  intros P Hop HR. apply meets_bind. eapply meets_the_file; [exact P|]. intros rf Hrf Hwf. pose proof (pn_operands _ _ P) as Ho.
  destruct r.
  - destruct (at_index_in_range (phys_int_regs_in i) 1) as [p Hp].
    { change (phys_int_regs_in i) with (phys_in INT i). rewrite (op_phys_in _ Ho), (op_reads _ Ho), Hop. lia. }
    apply meets_bind, meets_getsR. rewrite Hp. apply meets_getsR. cbn. unfold copyFromIntRegister, assert. destruct (_ && _); [apply HR|done].
  - destruct (at_index_in_range (phys_fp_regs_in i) 0) as [p Hp].
    { change (phys_fp_regs_in i) with (phys_in FP i). rewrite (op_phys_in _ Ho), (op_reads _ Ho), Hop. lia. }
    apply meets_bind, meets_getsR. rewrite Hp. apply meets_getsR. cbn. unfold copyFromFPRegister, assert. destruct (_ && _); [apply HR|done].
Qed.

Lemma standard_write_ok m0 m i a w d (R : unit -> mem -> Prop) :
  serving m0 m -> (forall m', moves m0 m m' -> R tt m') -> meets (standard_write i a w d) m R.
Proof.
  intros Hs HR. apply meets_bind. eapply meets_request; [exact Hs|]. intros r m1 Hm1. apply meets_bind. eapply meets_in_flight; [apply Hm1|].
  intros m2 Hm2. eapply meets_send; [apply Hm2|]. intros m3 Hm3. apply HR. eapply moves_trans; [exact Hm1|]. by eapply moves_trans.
Qed.
Lemma special_store_ok m0 m id i kind a w d :
  serving m0 m -> store_front m id i -> meets (special_store id i kind a w d) m (fun _ m' => same_front m0 m' id).
Proof.
  intros Hs Hf. apply meets_bind. eapply meets_request; [exact Hs|]. intros r m1 Hm1.
  apply (meets_step _ _ _ _ (fun _ m' => moves m0 m m')).
  - apply meets_when; [|done]. intros _. eapply meets_trap; [apply Hm1| |].
    + eapply moves_ids; [exact Hm1|]. rewrite (store_front_ids _ _ _ Hf). by left.
    + intros m2 Hm2 _. by eapply moves_trans.
  - intros u m2 Hm2. apply meets_bind. eapply meets_send; [apply Hm2|]. intros m3 Hm3.
    destruct (store_front_moves _ _ _ _ _ Hf (moves_trans _ _ _ _ Hm2 Hm3)) as (i3 & Hf3 & _).
    eapply front_entry_kept; [apply Hm3|exact Hf3|done|done].
Qed.

Lemma issueStore_ok m0 m e i :
  serving m0 m -> store_front m (sp_ins e) i -> meets (issueStore e) m (fun _ m' => same_front m0 m' (sp_ins e)).
Proof.
  intros Hs Hf. unfold issueStore. apply meets_bind. eapply meets_the_ins; [apply Hf|]. apply meets_bind, meets_straddles. intros ns.
  destruct (store_operands _ _ _ Hf) as (o & w & t & r & Efields & Hop). apply meets_bind, meets_getsR. rewrite Efields. cbn [yields].
  pose proof (sf_pending _ _ _ Hf) as P.
  destruct t.
  - destruct ns.
    + apply meets_bind, meets_split. intros [wl wr]. apply meets_bind. eapply payload_ok; [exact P|exact Hop|]. intros d1.
      apply meets_bind. eapply standard_write_ok; [exact Hs|]. intros m1 Hm1.
      destruct (store_front_moves _ _ _ _ _ Hf Hm1) as (i1 & Hf1 & E1).
      assert (P1 : pending (registerFiles m1) i).
      { eapply (pending_erase _ i1); [done|apply P|apply Hf1]. }
      apply meets_bind. eapply payload_ok; [exact P1|exact Hop|]. intros d2. apply meets_bind. eapply standard_write_ok; [apply Hm1|].
      intros m2 Hm2. apply meets_ret. eapply front_stays; [exact Hf|by eapply moves_trans].
    + apply meets_bind. eapply payload_ok; [exact P|exact Hop|]. intros d1.
      apply meets_bind. eapply standard_write_ok; [exact Hs|]. intros m1 Hm1. apply meets_ret. by eapply front_stays.
  - done.
  - destruct ns; [done|]. apply meets_bind. eapply payload_ok; [exact P|exact Hop|]. intros d. apply meets_bind.
    eapply meets_mono; [by eapply special_store_ok|]. intros u m' Hm'. by apply meets_ret.
  - destruct ns; [done|]. apply meets_bind. eapply payload_ok; [exact P|exact Hop|]. intros d. apply meets_bind.
    eapply meets_mono; [by eapply special_store_ok|]. intros u m' Hm'. by apply meets_ret.
Qed.

Lemma issueStoreFront_ok m0 m : serving m0 m -> meets issueStoreFront m (fun _ m' => serving m0 m').
Proof.
  intros Hs. unfold issueStoreFront. apply meets_bind, meets_gets. destruct (stores_pending (queue m)) as [|e rest] eqn:Hq; [by apply meets_ret|].
  destruct (store_front_made _ _ _ _ Hs Hq) as (i & Hf). apply meets_bind. eapply meets_the_ins; [apply Hf|].
  destruct (_ && _); [|by apply meets_ret]. apply meets_bind. eapply meets_mono; [by eapply issueStore_ok|].
  intros [] m1 [Hs1 (i1 & Hf1)].
  - destruct (finished_serving _ _ _ _ Hs1 Hf1) as (i0 & Hi0 & Hd). apply meets_bind, meets_modify, meets_bind.
    eapply meets_the_ins; [exact Hi0|]. apply meets_modify. exact Hd.
  - eapply front_entry_kept; [exact Hs1|exact Hf1|done|]. intros m' [H' _]. exact H'.
Qed.

Lemma tick_lsq_ok wrapv m : ready m -> meets (tick_lsq wrapv) m (fun _ m' => served queue_ids queue_inv m m').
Proof.
  intros Hr. apply meets_bind, meets_gets, meets_bind. eapply meets_mono; [by apply attempts_ok, serving_refl|].
  intros u m1 Hm1. eapply meets_mono; [exact (issueStoreFront_ok m m1 Hm1)|]. intros u' m' Hm'. by apply serving_served.
Qed.

(** ** Clearing a thread *)

Lemma keep_others_ok {E} m (pointer : E -> Z) thread l :
  (forall e, e ∈ l -> exists i, e_heap m !! pointer e = Some i) ->
  runs (keep_others pointer thread l) m (fun l' m' => m' = m /\ l' `sublist_of` l /\
    forall e i, e ∈ l' -> e_heap m !! pointer e = Some i -> hw_thread i <> thread).
Proof.
  induction l as [|e l IH]; intros Hl; cbn [keep_others]; [apply runs_ret; split_and!; [done|done|set_solver]|].
  destruct (Hl e) as [i Hi]; [by left|]. apply runs_bind. eapply runs_getsR; [by rewrite Hi|]. apply runs_bind.
  eapply runs_mono; [apply IH; intros; apply Hl; by right|]. intros rest m' (-> & Hsub & Ht). apply runs_ret.
  destruct (Z.eqb_spec (hw_thread i) thread) as [Heq|Hne].
  - split_and!; [done|by apply sublist_cons|done].
  - split_and!; [done|by apply sublist_skip|]. intros e' i' [->|He']%elem_of_cons Hi'; [congruence|by eapply Ht].
Qed.

Lemma clear_thread_ok thr m : ready m ->
  runs (clear_thread thr) m (fun _ m' =>
    e_heap m' = e_heap m /\ registerFiles m' = registerFiles m /\ queue_inv m' /\ queue_ids (queue m') ⊆+ queue_ids (queue m) /\
    forall id i, id ∈ queue_ids (queue m') -> e_heap m !! id = Some i -> hw_thread i <> thr).
Proof.
  intros [Hinv Hn Hp]. unfold clear_thread. apply runs_bind, runs_gets.
  assert (Hin : forall id, id ∈ queue_ids (queue m) -> exists i, e_heap m !! id = Some i) by (intros id (i & Hi & _)%Hp; by exists i).
  apply runs_bind. eapply runs_mono; [apply keep_others_ok; intros e He; apply Hin; unfold queue_ids; rewrite elem_of_app; left; by apply list_elem_of_fmap_2|].
  intros ops m1 (-> & S1 & T1). apply runs_bind. eapply runs_mono; [apply keep_others_ok; intros e He; by apply Hin, load_pointer|].
  intros loads m1 (-> & S2 & T2). apply runs_bind. eapply runs_mono; [apply keep_others_ok; intros e He; by apply Hin, store_pointer|].
  intros stores m1 (-> & S3 & T3). apply runs_modify. split_and!; [done|done| | |].
  - eapply queue_typed_sub; [..|exact Hinv]; cbn; intros x Hx.
    + by eapply elem_of_submseteq, sublist_submseteq.
    + eapply elem_of_submseteq; [exact Hx|]. by apply sublist_submseteq, fmap_sublist.
    + eapply elem_of_submseteq; [exact Hx|]. by apply sublist_submseteq, fmap_sublist.
  - unfold queue_ids. cbn. repeat apply submseteq_app; by apply sublist_submseteq, fmap_sublist.
  - intros id i Hid Hi. unfold queue_ids in Hid. cbn in Hid. rewrite !elem_of_app in Hid.
    destruct Hid as [Hid|[Hid|Hid]]; apply list_elem_of_fmap in Hid as (e & -> & He); by eauto.
Qed.

(** ** The bytes of a load *)

Lemma copyToIntRegister_frame r bs rf rf' :
  file_wf rf -> 0 <= r -> Z.of_nat (length bs) = int_reg_width rf -> Forall (fun b => 0 <= b < 2 ^ 8) bs ->
  copyToIntRegister r 0 bs rf = Ok rf' ->
  file_like rf rf' /\ forall k q, 0 <= q -> (k = INT -> q <> r) -> cell k rf' q = cell k rf q.
Proof.
  intros Hwf Hr Hlen Hbs. pose proof (file_int _ Hwf) as Hi. rewrite (wf_width _ Hi) in Hlen. unfold copyToIntRegister, assert.
  destruct (Z.ltb_spec r (count_int_regs rf)) as [Hlt|]; [|by rewrite andb_false_r]. destruct (_ <=? _); [|done]. intros [= <-].
  rewrite (wf_width _ Hi), Z.add_0_r, Z.mul_comm. destruct (put_register_word rf r bs Hi) as (Hi' & _ & Hq); [done|done|done|].
  split.
  - split; [by destruct rf..|]. intros _. split; [done|..]; destruct Hwf; by destruct rf.
  - intros [] q Hq0 Hne; [|by destruct rf]. cbn. unfold value. rewrite Hq by auto. by destruct rf.
Qed.
Lemma copyToFPRegister_frame r bs rf rf' :
  file_wf rf -> 0 <= r -> Z.of_nat (length bs) = fp_reg_width rf -> copyToFPRegister r 0 bs rf = Ok rf' ->
  file_like rf rf' /\ forall k q, 0 <= q -> (k = FP -> q <> r) -> cell k rf' q = cell k rf q.
Proof.
  intros Hwf Hr Hlen. unfold copyToFPRegister, assert.
  destruct (Z.ltb_spec r (count_fp_regs rf)) as [Hlt|]; [|by rewrite andb_false_r]. destruct (_ <=? _); [|done]. intros [= <-].
  rewrite Z.add_0_r. pose proof (file_fp_size _ Hwf) as Hsz. pose proof (file_fp_width _ Hwf) as Hw.
  assert (Hin : r * fp_reg_width rf + Z.of_nat (length bs) <= Z.of_nat (length (fp_reg_storage rf))) by nia.
  split.
  - split; [by destruct rf..|]. intros [[? ? ?] ? ?]. destruct rf as [o ci cf wi wf si sf]. cbn in *.
    split; [by split|done|]. unfold update; cbn. rewrite length_put_bytes by nia. done.
  - intros [] q Hq Hne; [by destruct rf|]. unfold cell. specialize (Hne eq_refl). destruct rf as [o ci cf wi wf si sf]. unfold update; cbn in *.
    rewrite bytes_at_put_other by nia. done.
Qed.

Definition byte_range (b : Z) : Prop := 0 <= b < 2 ^ 8.
Definition merged (l l' : list Z) : Prop := length l' = length l /\ (Forall byte_range l -> Forall byte_range l').
Lemma put_each_ok (byte : Z -> res Z) shift n : forall i l,
  (forall k, i <= k < i + Z.of_nat n -> exists b, byte k = Ok b /\ byte_range b) ->
  yields execution_failure (put_each n i shift byte l) (merged l).
Proof.
  induction n as [|n IH]; intros i l Hb; cbn [put_each]; [by split|].
  destruct (Hb i) as (b & E & Hr); [lia|]. rewrite E. apply yields_bind. cbn [yields]. apply yields_bind. unfold put_at.
  destruct (set_index l (shift + i) b) as [l1|] eqn:Hset; [|done]. cbn [yields]. apply set_index_Ok in Hset as [Hi ->].
  eapply yields_mono; [apply IH; intros k Hk; apply Hb; lia|]. intros l' [Hl Hf]. rewrite length_insert in Hl. split; [done|].
  intros Hl0. by apply Hf, Forall_insert.
Qed.
Lemma put_range_ok (byte : Z -> res Z) from to shift l :
  (forall k, from <= k < to -> exists b, byte k = Ok b /\ byte_range b) -> yields execution_failure (put_range from to shift byte l) (merged l).
Proof. intros Hb. apply put_each_ok. intros k Hk. apply Hb. lia. Qed.

Lemma byte_at bytes k : Forall byte_range bytes -> 0 <= k < Z.of_nat (length bytes) -> exists b, at_index bytes k = Ok b /\ byte_range b.
Proof.
  intros Hb Hk. destruct (at_index_in_range bytes k Hk) as [b E]. exists b. split; [done|]. apply at_index_Ok in E as [_ E].
  rewrite Forall_forall in Hb. apply Hb. by eapply list_elem_of_lookup_2.
Qed.
Lemma merged_trans l l1 l2 : merged l l1 -> merged l1 l2 -> merged l l2.
Proof. intros [A1 A2] [B1 B2]. split; [congruence|auto]. Qed.
Lemma merge_int_ok se last offset size bytes value :
  Forall byte_range bytes -> size <= Z.of_nat (length bytes) ->
  yields execution_failure (merge_int se last offset size bytes value) (merged value).
Proof.
  intros Hb Hs. unfold merge_int. apply yields_bind. eapply yields_mono; [apply put_range_ok; intros k Hk; apply byte_at; [done|lia]|].
  intros v1 H1. destruct last; [|done]. apply yields_bind.
  assert (Hfill : yields execution_failure (if se then top ← get_at (offset + size - 1) v1; Ok (if Z.testbit top 7 then 255 else 0) else Ok 0)
    (fun fill => byte_range fill)).
  { unfold byte_range. destruct se; [|cbn; lia]. apply yields_bind. unfold get_at. destruct (at_index v1 _) as [top|]; [|done].
    cbn [yields mbind res_bind]. destruct (Z.testbit top 7); lia. }
  eapply yields_mono; [exact Hfill|]. intros fill Hr. eapply yields_mono; [apply put_range_ok; intros k _; by exists fill|].
  intros v2 H2. by eapply merged_trans.
Qed.
Lemma merge_fp_ok last offset size bytes value :
  Forall byte_range bytes -> 0 <= offset -> size <= Z.of_nat (length bytes) ->
  yields execution_failure (merge_fp last offset size bytes value) (merged value).
Proof.
  intros Hb H0 Hs. unfold merge_fp. apply yields_bind. eapply yields_mono; [apply put_range_ok; intros k Hk; apply byte_at; [done|lia]|].
  intros v1 H1. destruct last; [|done]. eapply yields_mono; [apply put_range_ok; intros k _; exists 0; by split; [|unfold byte_range; lia]|].
  intros v2 H2. by eapply merged_trans.
Qed.

(** ** Responses *)

Section write_load.
Variables (m0 m : mem) (id : Z) (i : VanadisInstruction).
Hypothesis Hs : serving m0 m.
Hypothesis Hi : e_heap m !! id = Some i.
Hypothesis Hid : id ∈ queue_ids (queue m).
Hypothesis Ht : getInstFuncType (class i) = INST_LOAD.

Lemma write_load_ok entry virtual size bytes :
  size <= Z.of_nat (length bytes) -> Forall byte_range bytes ->
  meets (write_load entry i virtual size bytes) m (fun _ m' => moves m0 m m').
Proof.
  intros Hsize Hb. unfold write_load. set (offset := u64 _). set (last := (_ =? _)%nat).
  assert (H0 : 0 <= offset) by (apply Z.mod_pos_bound; lia). destruct (sg_ins _ _ Hs id Hid) as (i' & Hi' & P). assert (i' = i) as -> by congruence.
  destruct (load_class _ Ht) as (o & w & s & t & r & Ec). unfold load_fields. rewrite Ec.
  apply meets_bind, meets_getsR. cbn [yields]. apply meets_bind. eapply meets_the_file; [exact P|]. intros rf Hrf Hwf.
  pose proof (pn_operands _ _ P) as Ho. pose proof (pn_nonneg _ _ P) as Hnn.
  assert (Hout : forall k, writes (fp_reg_mode (isa_options i)) (class i) k = 1%nat ->
    (exists x, at_index (isa_out k i) 0 = Ok x) /\ exists p, at_index (phys_out k i) 0 = Ok p /\ p ∈ phys_out k i /\ 0 <= p).
  { intros k Hk. split; [apply at_index_in_range; rewrite (op_writes _ Ho), Hk; lia|].
    destruct (at_index_in_range (phys_out k i) 0) as [p Hp]; [rewrite (op_phys_out _ Ho), (op_writes _ Ho), Hk; lia|].
    exists p. split; [done|]. apply at_index_Ok in Hp as [_ Hp]. apply list_elem_of_lookup_2 in Hp. split; [done|].
    destruct (Hnn k) as [_ Hn]. rewrite Forall_forall in Hn. auto. }
  rewrite Ec in Hout. destruct r.
  - destruct (Hout INT eq_refl) as [[x Ex] (p & Ep & Hp & Hp0)]. apply meets_bind, meets_getsR. change (at_index (isa_int_regs_out i) 0 = Ok x) in Ex. rewrite Ex. cbn [yields].
    apply meets_bind, meets_getsR. change (at_index (phys_int_regs_out i) 0 = Ok p) in Ep. rewrite Ep. cbn [yields]. apply meets_bind, meets_lsq_assert. intros _.
    apply meets_when; intros _; [|by apply moves_refl]. pose proof (file_int _ Hwf) as Hwi.
    apply meets_bind, meets_getsR. unfold copyFromIntRegister, assert. rewrite Z.add_0_l, Z.leb_refl, andb_true_r.
    destruct (Z.ltb_spec p (count_int_regs rf)) as [Hlt|]; [|done]. cbn [yields]. apply meets_bind, meets_lsq_assert. intros _.
    set (value := bytes_at _ _ _).
    assert (Hv : Z.of_nat (length value) = int_reg_width rf /\ Forall byte_range value).
    { subst value. unfold bytes_at. pose proof (wf_size _ Hwi) as Hz. rewrite (wf_width _ Hwi). split.
      - rewrite length_take, length_drop. lia.
      - apply Forall_take, Forall_drop. apply (wf_bytes _ Hwi). }
    apply meets_bind, meets_getsR. eapply yields_mono; [by apply merge_int_ok|]. intros value' [Hl Hf].
    apply meets_bind, meets_getsR. destruct (copyToIntRegister p 0 value' rf) as [rf'|e] eqn:E.
    2: { revert E. unfold copyToIntRegister, assert. by destruct (_ && _); intros [= <-]. }
    cbn [yields]. destruct (copyToIntRegister_frame p value' rf rf') as [Hlike Hcell]; [done|done|by rewrite Hl; apply Hv|by apply Hf, Hv|done|].
    eapply meets_set_file; [exact Hs|exact Hi|exact Hid|exact Hrf|apply P|done| |done].
    intros k q Hq Hn. apply Hcell; [done|]. by intros -> ->.
  - destruct (Hout FP eq_refl) as [_ (p & Ep & Hp & Hp0)]. apply meets_bind, meets_getsR. change (at_index (phys_fp_regs_out i) 0 = Ok p) in Ep. rewrite Ep. cbn [yields].
    apply meets_bind, meets_getsR. unfold copyFromFPRegister, assert. rewrite Z.add_0_l, Z.leb_refl, andb_true_r.
    destruct (Z.ltb_spec p (count_fp_regs rf)) as [Hlt|]; [|done]. cbn [yields]. apply meets_bind, meets_lsq_assert. intros _.
    set (value := bytes_at _ _ _).
    assert (Hv : Z.of_nat (length value) = fp_reg_width rf).
    { subst value. unfold bytes_at. pose proof (file_fp_size _ Hwf) as Hz. pose proof (file_fp_width _ Hwf) as Hw.
      rewrite length_take, length_drop. nia. }
    apply meets_bind, meets_getsR. eapply yields_mono; [by apply merge_fp_ok|]. intros value' [Hl Hf].
    apply meets_bind, meets_getsR. destruct (copyToFPRegister p 0 value' rf) as [rf'|e] eqn:E.
    2: { revert E. unfold copyToFPRegister, assert. by destruct (_ && _); intros [= <-]. }
    cbn [yields]. destruct (copyToFPRegister_frame p value' rf rf') as [Hlike Hcell]; [done|done|by rewrite Hl|done|].
    eapply meets_set_file; [exact Hs|exact Hi|exact Hid|exact Hrf|apply P|done| |done].
    intros k q Hq Hn. apply Hcell; [done|]. by intros -> ->.
Qed.
End write_load.

Lemma find_index_some {E} (P : E -> bool) l k : find_index P l = Some k -> exists e, l !! k = Some e.
Proof.
  revert k. induction l as [|e l IH]; intros k; [done|]. cbn. destruct (P e); [intros [= <-]; by exists e|].
  destruct (find_index P l) as [k'|]; [|done]. intros [= <-]. by apply IH.
Qed.
Definition load_at (m : mem) (k : nat) (e : VanadisBasicLoadPendingEntry) (i : VanadisInstruction) : Prop :=
  loads_pending (queue m) !! k = Some e /\ e_heap m !! lp_ins e = Some i /\ getInstFuncType (class i) = INST_LOAD.
Lemma load_at_made m0 m k e : serving m0 m -> loads_pending (queue m) !! k = Some e -> exists i, load_at m k e i.
Proof.
  intros Hs Hk. destruct (qt_load _ _ (rd_inv _ _ _ (sg_ready _ _ Hs)) e) as (i & Hi & Ht); [by eapply list_elem_of_lookup_2|]. by exists i.
Qed.
Lemma load_at_moves m0 m m' k e i : load_at m k e i -> moves m0 m m' -> exists i', load_at m' k e i'.
Proof.
  intros (Hk & Hi & Ht) [M1 M2 M3]. destruct (M3 _ _ Hi) as (i' & Hi' & E). exists i'. split_and!; [|done|by rewrite (erase_class _ _ E)].
  unfold lists in M2. congruence.
Qed.
Lemma load_at_ids m k e i : load_at m k e i -> lp_ins e ∈ queue_ids (queue m).
Proof. intros (Hk & _). apply load_pointer. by eapply list_elem_of_lookup_2. Qed.

Lemma handle_read_ok m0 m id virtual size bytes failed :
  serving m0 m -> response_ok (ReadResp id virtual size bytes failed) ->
  meets (handle_read id virtual size bytes failed) m (fun _ m' => serving m0 m').
Proof.
  intros Hs (_ & _ & Hsize & Hb). unfold handle_read. apply meets_bind, meets_gets.
  destruct (find_index _ _) as [k|] eqn:Hk; [|by apply meets_ret]. apply find_index_some in Hk as [e Hk].
  apply meets_bind, meets_getsR. rewrite Hk. cbn [of_option yields]. destruct (load_at_made _ _ _ _ Hs Hk) as [i Hl].
  assert (Htrap : forall (b : bool) m1, serving m0 m1 -> (exists i1, load_at m1 k e i1) -> meets (when b (trap (lp_ins e))) m1 (fun _ m' => moves m0 m1 m')).
  { intros b m1 Hs1 (i1 & Hl1). apply meets_when; intros _; [|by apply moves_refl].
    eapply meets_trap; [exact Hs1|by eapply load_at_ids|done]. }
  apply meets_bind. eapply meets_mono; [apply Htrap; [exact Hs|by exists i]|]. intros u1 m1 Hm1.
  destruct (load_at_moves _ _ _ _ _ _ Hl Hm1) as [i1 Hl1]. apply meets_bind. eapply meets_the_ins; [apply Hl1|].
  apply meets_bind. eapply meets_mono.
  { eapply (write_load_ok m0 m1 (lp_ins e) i1); [apply Hm1|apply Hl1|by eapply load_at_ids|apply Hl1|exact Hsize|exact Hb]. }
  intros u2 m2 Hm2. destruct (load_at_moves _ _ _ _ _ _ Hl1 Hm2) as [i2 Hl2].
  apply meets_bind. eapply meets_mono; [apply Htrap; [apply Hm2|by exists i2]|]. intros u3 m3 Hm3.
  destruct (load_at_moves _ _ _ _ _ _ Hl2 Hm3) as [i3 Hl3]. destruct Hl3 as (Hk3 & Hi3 & Ht3).
  pose proof (mv_serving _ _ _ Hm3) as Hs3. pose proof (rd_inv _ _ _ (sg_ready _ _ Hs3)) as Hinv.
  destruct (lp_requests (e <| lp_requests ::= remove_first id |>)) as [|r rs].
  - set (q' := (queue m3) <| loads_pending ::= erase_at k |>).
    destruct (done_serving m0 m3 Hs3 (lp_ins e) q') as (i4 & Hi4 & Hd).
    + subst q'. unfold queue_ids. cbn. rewrite <- (erase_at_perm _ _ _ Hk3) at 1. cbn. solve_Permutation.
    + eapply queue_typed_sub; [..|exact Hinv]; subst q'; cbn; [done|done|]. 
      intros x (y & -> & Hy)%list_elem_of_fmap. apply list_elem_of_fmap_2. rewrite <- (erase_at_perm _ _ _ Hk3). by right.
    + apply meets_bind, meets_bind. eapply meets_the_ins; [exact Hi4|]. apply meets_modify, meets_modify. exact Hd.
  - apply meets_modify. set (e' := e <| lp_requests ::= remove_first id |>).
    assert (El : lp_ins <$> <[k:=e']> (loads_pending (queue m3)) = lp_ins <$> loads_pending (queue m3)).
    { rewrite list_fmap_insert. apply list_insert_id. by rewrite list_lookup_fmap, Hk3. }
    apply (serving_queue m0 m3 ((queue m3) <| loads_pending ::= _ |>)); [done| |].
    + unfold queue_ids. cbn. by rewrite El.
    + eapply queue_typed_sub; [..|exact Hinv]; cbn; [done|done|by rewrite El].
Qed.

Lemma handle_write_ok m0 m id success : serving m0 m -> meets (handle_write id success) m (fun _ m' => serving m0 m').
Proof.
  intros Hs. unfold handle_write. apply meets_bind, meets_gets. case_decide.
  { eapply meets_on_queue; [exact Hs|done|]. intros m' Hm'. apply Hm'. }
  destruct (stores_pending (queue m)) as [|e rest] eqn:Hq; [by apply meets_ret|]. destruct (waits_for _ _); [|by apply meets_ret].
  destruct (store_front_made _ _ _ _ Hs Hq) as (i & Hf). apply meets_bind. eapply meets_the_ins; [apply Hf|].
  destruct (store_operands _ _ _ Hf) as (o & w & t & r & Efields & _). apply meets_bind, meets_getsR. rewrite Efields. cbn [yields].
  pose proof (sf_pending _ _ _ Hf) as P. destruct t; [done|done| |by eapply finish_store_ok].
  destruct (store_class _ (sf_type _ _ _ Hf)) as [(o1 & w1 & t1 & r1 & Ec)|(o1 & w1 & r1 & a & b & Ec)].
  - unfold store_fields in Efields. rewrite Ec in *. injection Efields as <- <- -> <-.
    destruct (at_index_in_range (phys_int_regs_out i) 0) as [p Hp].
    { change (phys_int_regs_out i) with (phys_out INT i). pose proof (pn_operands _ _ P) as Ho.
      rewrite (op_phys_out _ Ho), (op_writes _ Ho), Ec. cbn. lia. }
    apply meets_bind, meets_getsR. rewrite Hp. cbn [yields]. by apply meets_bind.
  - rewrite Ec. assert (Hp : exists p, at_index (phys_int_regs_out i) 0 = Ok p /\ p ∈ phys_out INT i /\ 0 <= p).
    { pose proof (pn_operands _ _ P) as Ho. destruct (at_index_in_range (phys_out INT i) 0) as [p Hp].
      - rewrite (op_phys_out _ Ho), (op_writes _ Ho), Ec. cbn. lia.
      - exists p. split; [done|]. apply at_index_Ok in Hp as [_ Hp]. apply list_elem_of_lookup_2 in Hp. split; [done|].
        destruct (pn_nonneg _ _ P INT) as [_ Hn]. rewrite Forall_forall in Hn. auto. }
    destruct Hp as (p & Ep & Hp & Hp0). apply meets_bind, meets_getsR. rewrite Ep. cbn [yields].
    apply (meets_step _ _ _ _ (fun _ m' => moves m0 m m')).
    + apply meets_bind. eapply meets_the_file; [exact P|]. intros rf Hrf Hwf. apply meets_bind, meets_getsR.
      assert (Hset : forall T v, yields execution_failure (setIntReg T p v true rf) (fun rf' => file_like rf rf' /\
        forall k q, 0 <= q -> (k = INT -> q <> p) -> cell k rf' q = cell k rf q)).
      { intros T v. destruct (setIntReg T p v true rf) as [rf'|] eqn:E; [|revert E; unfold setIntReg, assert; by destruct (p <? _); intros [= <-]].
        cbn. split; [apply (setIntReg_frame T p v true rf rf' 0 Hwf Hp0 E)|]. intros [] q Hq0 Hne; apply (setIntReg_frame T p v true rf rf' q Hwf Hp0 E); auto. }
      assert (Hw : forall rf', file_like rf rf' /\ (forall k q, 0 <= q -> (k = INT -> q <> p) -> cell k rf' q = cell k rf q) ->
        meets (set_file (hw_thread i) rf') m (fun _ m' => moves m0 m m')).
      { intros rf' [Hlike Hcell]. eapply meets_set_file; [exact Hs|apply Hf| |exact Hrf|apply P|done| |done].
        - rewrite (store_front_ids _ _ _ Hf). by left.
        - intros k q Hq0 Hn. apply Hcell; [done|]. by intros -> ->. }
      destruct success; (eapply yields_mono; [apply Hset|exact Hw]).
    + intros u m1 Hm1. destruct (store_front_moves _ _ _ _ _ Hf Hm1) as (i1 & Hf1 & _). eapply finish_store_ok; [apply Hm1|exact Hf1].
Qed.

Lemma receive_ok r m : ready m -> response_ok r -> meets (receive r) m (fun _ m' => served queue_ids queue_inv m m').
Proof.
  intros Hr Hok. pose proof (serving_refl m Hr) as Hs.
  eapply meets_mono; [|intros u m'; apply serving_served]. destruct r; [by apply handle_read_ok|by apply handle_write_ok].
Qed.

(** ** The instance *)

Lemma push_ids id i q : queue_ids (push_entry id i q) ≡ₚ id :: queue_ids q.
Proof. unfold queue_ids. cbn. rewrite fmap_app. cbn. solve_Permutation. Qed.
Lemma push_typed id i m : queue_inv m -> e_heap m !! id = Some i -> is_memory i = true -> queue_inv (m <| queue ::= push_entry id i |>).
Proof.
  intros [H1 H2 H3] Hi Hm. split; cbn; [|done|done]. intros e [He|He%list_elem_of_singleton]%elem_of_app; [by apply H1|].
  subst e. exists i. split; [done|]. unfold is_memory in Hm. cbn. by destruct (getInstFuncType (class i)).
Qed.

Section instance.
Variable wrapv : bool.
#[local] Existing Instance basic_lsq.
#[export] Instance basic_lsq_laws : @LoadStoreQueueLaws VanadisBasicLoadStoreQueue (basic_lsq wrapv).
Proof.
  refine {| lsq_ids := queue_ids; lsq_inv := queue_inv |}.
  - intros m m' Hi Hq Hh. unfold queue_inv. rewrite Hq. by eapply queue_typed_mono.
  - apply push_ids.
  - apply push_typed.
  - apply clear_thread_ok.
  - intros m Hr. by apply tick_lsq_ok.
  - intros r m Hr Hok. by apply receive_ok.
Defined.
End instance.
