(* ===== verification/VanadisLsqOrder.v ===== *)
(** * VanadisLsqOrder: what the load-store queue sends to the memory, and when

    [stores_wait_for_front]: the writes that a tick of the basic queue sends are those of
    one store, the first that waits, which has issued and is at the front of its reorder
    buffer, so no speculative store reaches the memory. [load_waits_for_stores]: a load
    is sent only when no older store of its thread that waits writes one of its bytes.
    [load_response_sets]: the answers to a load into an integer register, in the order of
    their addresses, leave its value there, extended, and end the load. *)

From stdpp Require Import functions.
From S2P Require Import Prelude VanadisRegs VanadisInst VanadisRename VanadisFrame VanadisMem VanadisLsq VanadisLsqSafe.

#[local] Abbreviation mem := (memory VanadisBasicLoadStoreQueue).

Definition is_write (k : request_kind) : bool :=
  match k with Write | StoreConditionalRequest | WriteUnlock => true | Read | LoadLink | ReadLock => false end.

(** ** What operations send *)

(** What the attempts of a tick do not change of an instruction. *)
Definition standing (i : VanadisInstruction) : VanadisInstruction := i <| trapError := false |> <| hasExecuted := false |>.
(** The state [m] within a tick that began in [m0]: the instructions stand as they did,
    and stores of operations of the queue were added behind those that wait. *)
Record stands (m0 m : mem) : Prop := {
  st_heap id : standing <$> e_heap m !! id = standing <$> e_heap m0 !! id;
  st_line : cache_line_width (queue m) = cache_line_width (queue m0);
  st_files : registerFiles m = registerFiles m0;
  st_ops e : e ∈ op_q (queue m) -> e ∈ op_q (queue m0);
  st_pending : exists l, stores_pending (queue m) = stores_pending (queue m0) ++ l /\
    forall e, e ∈ l -> mkEntry STORE (sp_ins e) ∈ op_q (queue m0) }.
Lemma stands_self m : stands m m.
Proof. split; try done. exists []. rewrite app_nil_r. split; [done|set_solver]. Qed.

(** Within a tick that began in [m0] an operation sends only requests [P], and gives a
    result [R]. *)
Definition emits (m0 : mem) (P : memory_request -> Prop) {A} (R : A -> Prop) (op : M mem A) : Prop :=
  forall m a m', stands m0 m -> op m = Ok (a, m') ->
    R a /\ stands m0 m' /\ exists l, sent (queue m') = sent (queue m) ++ l /\ Forall P l.

Section emits.
Variables (m0 : mem) (P : memory_request -> Prop).
#[local] Abbreviation emits := (emits m0 P).

Lemma emits_bind {A B} (R1 : A -> Prop) (R : B -> Prop) (op : M mem A) (f : A -> M mem B) :
  emits R1 op -> (forall a, R1 a -> emits R (f a)) -> emits R (op ≫= f).
Proof.
  intros Ho Hf m b m' Hm E. unfold mbind, M_bind in E. destruct (op m) as [[a m1]|] eqn:E1; [|done].
  destruct (Ho m a m1 Hm E1) as (Ha & Hm1 & l1 & L1 & P1). destruct (Hf a Ha m1 b m' Hm1 E) as (Hb & Hm' & l2 & L2 & P2).
  split_and!; [done|done|]. exists (l1 ++ l2). rewrite L2, L1, (assoc_L (++)). split; [done|by apply Forall_app].
Qed.
Lemma emits_weaken {A} (R R' : A -> Prop) op : emits R op -> (forall a, R a -> R' a) -> emits R' op.
Proof. intros Ho Hr m a m' Hm E. destruct (Ho m a m' Hm E) as (Ha & H'). split; [by apply Hr|done]. Qed.
Lemma emits_ret {A} (R : A -> Prop) a : R a -> emits R (mret a).
Proof. intros Ha m b m' Hm [= <- <-]. split_and!; [done|done|]. exists []. by rewrite app_nil_r. Qed.
Lemma emits_getsR {A} (R : A -> Prop) (f : mem -> res A) : (forall m a, stands m0 m -> f m = Ok a -> R a) -> emits R (getsR f).
Proof.
  intros Hf m a m' Hm E. unfold getsR in E. destruct (f m) as [b|] eqn:Ef; [|done]. injection E as <- <-.
  split_and!; [by eapply Hf|done|]. exists []. by rewrite app_nil_r.
Qed.
Lemma emits_any {A} (f : mem -> res A) : emits (fun _ => True) (getsR f).
Proof. by apply emits_getsR. Qed.
Lemma emits_gets {A} (f : mem -> A) : emits (fun _ => True) (gets f).
Proof. intros m a m' Hm [= <- <-]. split_and!; [done|done|]. exists []. by rewrite app_nil_r. Qed.
Lemma emits_fatal {A} (R : A -> Prop) s : emits R (fatal s).
Proof. by intros m a m' Hm E. Qed.
Lemma emits_when (b : bool) op : (b = true -> emits (fun _ => True) op) -> emits (fun _ => True) (when b op).
Proof. destruct b; intros Ho; [by apply Ho|by apply emits_ret]. Qed.

Lemma emits_on_queue f :
  (forall q, sent (f q) = sent q /\ cache_line_width (f q) = cache_line_width q /\ stores_pending (f q) = stores_pending q /\
    forall e, e ∈ op_q (f q) -> e ∈ op_q q) -> emits (fun _ => True) (on_queue f).
Proof.
  intros Hf m a m' [Hm1 Hm2 Hm3 Hm4 Hm5] [= <- <-]. destruct (Hf (queue m)) as (F1 & F2 & F3 & F4). split; [done|]. split.
  - split; cbn; [done|by rewrite F2|done|auto|by rewrite F3].
  - exists []. cbn. by rewrite F1, app_nil_r.
Qed.
Lemma emits_pop_front : emits (fun _ => True) pop_front.
Proof. apply emits_on_queue. intros q. split_and!; [done..|]. intros e He. cbn in He. destruct (op_q q); [done|]. apply elem_of_cons; by right. Qed.
(** A store of the queue comes to wait. *)
Lemma emits_new_store e : mkEntry STORE (sp_ins e) ∈ op_q (queue m0) ->
  emits (fun _ => True) (on_queue (fun q => q <| stores_pending ::= fun l => l ++ [e] |>)).
Proof.
  intros He m a m' [Hm1 Hm2 Hm3 Hm4 (l & Hl & Hin)] [= <- <-]. split; [done|]. split.
  - split; cbn; [done..|]. exists (l ++ [e]). rewrite Hl, (assoc_L (++)). split; [done|].
    intros e' [He'|Ee]%elem_of_app; [by apply Hin|]. apply list_elem_of_singleton in Ee as ->. done.
  - exists []. cbn. by rewrite app_nil_r.
Qed.
Lemma emits_send r : P r -> emits (fun _ => True) (send r).
Proof. intros Hr m a m' [] [= <- <-]. split; [done|]. split; [done|]. exists [r]. cbn. split; [done|by constructor]. Qed.
Lemma emits_request kind addr width data i :
  emits (fun r => req_kind r = kind /\ req_thread r = hw_thread i /\ vAddr r = addr /\ req_size r = width) (request kind addr width data i).
Proof.
  intros m a m' [] [= <- <-]. split; [done|]. split; [done|]. exists []. cbn. by rewrite app_nil_r.
Qed.
Lemma emits_the_ins id : emits (fun _ => True) (the_ins id).
Proof.
  by apply emits_any.
Qed.
Lemma emits_on_the_ins id f : (forall i, standing (f i) = standing i) -> emits (fun _ => True) (on_the_ins id f).
Proof.
  intros Hf m a m' [Hm] E. unfold on_the_ins, the_ins, getsR, of_option, mbind, M_bind in E.
  destruct (e_heap m !! id) as [i|] eqn:Hi; [|done]. injection E as <- <-. split; [done|]. split; [|exists []; by rewrite app_nil_r]. split; try done.
  intros id'. cbn. destruct (decide (id' = id)) as [->|Hne]; [|by rewrite lookup_insert_ne].
  rewrite lookup_insert_eq. cbn. rewrite Hf, <- Hm, Hi. done.
Qed.
Lemma emits_trap id : emits (fun _ => True) (trap id).
Proof. apply emits_on_the_ins. by intros []. Qed.
Lemma emits_mark id : emits (fun _ => True) (mark_executed id).
Proof. apply emits_on_the_ins. by intros []. Qed.
Lemma emits_assert b : emits (fun _ => True) (lsq_assert b).
Proof. unfold lsq_assert. destruct b; [by apply emits_ret|apply emits_fatal]. Qed.
Lemma emits_the_file thr : emits (fun _ => True) (the_file thr).
Proof. apply emits_any. Qed.
End emits.

Create HintDb emit.
#[export] Hint Resolve emits_any emits_gets emits_fatal emits_trap emits_mark emits_assert emits_the_file emits_pop_front : emit.
#[export] Hint Extern 2 (emits _ _ _ (on_queue _)) => apply emits_on_queue; done : emit.
#[export] Hint Extern 2 (emits _ _ _ (mret _)) => apply emits_ret; done : emit.
#[local] Ltac next := eapply emits_bind; [solve [auto with emit]|intros ? _].

(** ** Loads *)

(** A part of an access that crosses a line: the two halves meet, and each is in it. *)
Definition halves (a w : Z) (p : Z * Z) : Prop :=
  0 < p.1 /\ 0 < p.2 /\ (0 <= a -> 0 < w -> a + w <= 2 ^ 64 -> a + w < 2 ^ 64 /\ p.1 + p.2 = w).
Definition part (a w x y : Z) : Prop := 0 <= a -> 0 < w -> a + w <= 2 ^ 64 -> a <= x /\ x + y <= a + w.

Lemma split_meets a w line r :
  0 <= a -> 0 < line -> a + w <= 2 ^ 64 -> a / line <> (a + w - 1) / line -> 0 < w -> r = (a + w) mod line -> 0 < r -> r < w.
Proof.
  intros Ha Hl Hw Hd Hw0 -> Hr. pose proof (Z.div_mod (a + w) line ltac:(lia)) as E. pose proof (Z.mod_pos_bound (a + w) line Hl).
  assert (Eq : (a + w - 1) / line = (a + w) / line).
  { symmetry. apply (Z.div_unique_pos _ _ _ ((a + w) mod line - 1)); lia. }
  rewrite Eq in Hd. assert (Hle : a / line <= (a + w) / line) by (apply Z.div_le_mono; lia).
  pose proof (Z.div_mod a line ltac:(lia)) as Ea. pose proof (Z.mod_pos_bound a line Hl). nia.
Qed.

Section loads.
Variables (m0 : mem) (P : memory_request -> Prop).
#[local] Abbreviation line := (cache_line_width (queue m0)).
#[local] Abbreviation emits := (emits m0 P (fun _ => True)).

Lemma emits_split a w :
  a / line <> u64 (a + w - 1) / line -> VanadisLsqOrder.emits m0 P (halves a w) (split_widths a w).
Proof.
  intros Hd. unfold split_widths. eapply (emits_bind _ _ (fun r => line <> 0 /\ r = u64 (a + w) mod line)).
  { apply emits_getsR. intros m r [_ Hl]. unfold umod. rewrite Hl. destruct (Z.eqb_spec line 0); [done|]. by intros [= <-]. }
  intros r [Hl0 ->]. eapply (emits_bind _ _ (fun _ => 0 < u64 (a + w) mod line)).
  { intros m x m' Hm E. unfold lsq_assert in E. destruct (Z.ltb_spec 0 (u64 (a + w) mod line)); [|done].
    injection E as <- <-. split_and!; [done|done|]. exists []. by rewrite app_nil_r. }
  intros ? Hr. eapply (emits_bind _ _ (fun _ => 0 < u64 (w - u64 (a + w) mod line))).
  { intros m x m' Hm E. unfold lsq_assert in E. destruct (Z.ltb_spec 0 (u64 (w - u64 (a + w) mod line))); [|done].
    injection E as <- <-. split_and!; [done|done|]. exists []. by rewrite app_nil_r. }
  intros ? Hl. apply emits_ret. split_and!; [done|done|]. cbn [fst snd]. intros Ha Hw0 Hw.
  assert (Hline : 0 < line).
  { destruct (Z.lt_trichotomy line 0) as [Hn|[?|]]; [|done..].
    pose proof (Z.mod_neg_bound (u64 (a + w)) line Hn). lia. }
  assert (Hlt : a + w < 2 ^ 64).
  { destruct (Z.eq_dec (a + w) (2 ^ 64)) as [E|]; [|lia]. rewrite E in Hr. change (u64 (2 ^ 64)) with 0 in Hr. by rewrite (Z.mod_0_l line) in Hr by lia. }
  unfold u64 in *. rewrite (Z.mod_small (a + w)) in * by lia. rewrite (Z.mod_small (a + w - 1)) in Hd by lia.
  pose proof (split_meets a w line ((a + w) mod line) Ha Hline Hw Hd Hw0 eq_refl Hr).
  rewrite Z.mod_small by lia. lia.
Qed.

Section issue.
Variables (a w : Z).
Hypothesis HP : forall r, is_write (req_kind r) = false -> part a w (vAddr r) (req_size r) -> P r.

Lemma emits_read kind addr width i : is_write kind = false -> part a w addr width ->
  VanadisLsqOrder.emits m0 P P (request kind addr width [] i).
Proof.
  intros Hk Hp. eapply emits_weaken; [apply emits_request|]. intros r (E & _ & Ea & Es). apply HP; [by rewrite E|by rewrite Ea, Es].
Qed.
Lemma whole_part : part a w a w.
Proof. intros _ _ _. lia. Qed.
Lemma halves_parts p : halves a w p -> part a w a p.1 /\ part a w (u64 (a + p.1)) p.2.
Proof.
  intros (H1 & H2 & H3). split; intros Ha Hw0 Hw; destruct (H3 Ha Hw0 Hw); [lia|]. unfold u64. rewrite Z.mod_small by lia. lia.
Qed.

Lemma emits_issueLoad id : emits (issueLoad id a w).
Proof.
  unfold issueLoad. eapply emits_bind; [apply emits_the_ins|]. intros i _.
  eapply (emits_bind _ _ (fun b => b = true -> a / line <> u64 (a + w - 1) / line)).
  { apply emits_getsR. intros m b [_ Hl]. unfold operationStraddlesCacheLine, udiv. rewrite Hl. destruct (line =? 0); [done|].
    cbn. intros [= <-] Hb. apply negb_true_iff, Z.eqb_neq in Hb. exact Hb. }
  intros ns Hns. next. destruct a0 as [[[[o w'] s] t] r].
  eapply (emits_bind _ _ (fun made => forall r, snd made = Some r -> P r)).
  - assert (Hspecial : forall kind, is_write kind = false ->
      VanadisLsqOrder.emits m0 P (fun made : list Z * option memory_request => forall r, snd made = Some r -> P r)
        (r ← special_load id kind i a w ns; mret ([], r))).
    { intros kind Hk. unfold special_load. destruct ns.
      - eapply (emits_bind _ _ (fun o => o = None)); [next; by apply emits_ret|]. intros ? ->. by apply emits_ret.
      - eapply (emits_bind _ _ (fun o => forall r, o = Some r -> P r)).
        + eapply emits_bind; [apply emits_read; [done|apply whole_part]|]. intros r1 H1. apply emits_ret. by intros ? [= <-].
        + intros o1 H1. by apply emits_ret. }
    destruct t; [|by apply Hspecial|apply emits_fatal|by apply Hspecial]. destruct ns.
    + eapply emits_bind; [by apply emits_split, Hns|]. intros [wl wr] [Hp1 Hp2]%halves_parts. cbn [fst snd] in Hp1, Hp2. next. next.
      eapply emits_bind; [by apply emits_read|]. intros r1 H1. eapply emits_bind; [by apply emits_send|]. intros ? _.
      eapply emits_bind; [by apply emits_read|]. intros r2 H2. apply emits_ret. by intros ? [= <-].
    + next. next. destruct (_ =? 0).
      * next. by apply emits_ret.
      * eapply emits_bind; [apply emits_read; [done|apply whole_part]|]. intros r1 H1. apply emits_ret. by intros ? [= <-].
  - intros made Hmade. eapply emits_bind; [apply emits_the_ins|]. intros i' _. apply emits_when. intros _.
    eapply (emits_bind _ _ P); [apply emits_getsR; intros m r1 _; destruct (snd made); [|done]; intros [= <-]; by apply Hmade|].
    intros r1 H1. eapply emits_bind; [by apply emits_send|]. intros ? _. auto with emit.
Qed.
End issue.

Hypothesis Hread : forall r, is_write (req_kind r) = false -> P r.
Lemma emits_address i compute : emits (address_of i compute).
Proof. unfold address_of. next. auto with emit. Qed.
Lemma emits_any_of_thread {E} (pointer : E -> Z) thread Q l : emits (any_of_thread pointer thread Q l).
Proof.
  induction l as [|e l IH]; cbn [any_of_thread]; [auto with emit|]. eapply emits_bind; [apply emits_the_ins|]. intros i _.
  destruct (_ && _); [auto with emit|done].
Qed.

Lemma emits_attempt_load wrapv id : emits (attempt_load wrapv id).
Proof.
  unfold attempt_load. next. destruct (_ <=? _); [auto with emit|]. eapply emits_bind; [apply emits_the_ins|]. intros i _. next.
  destruct a0 as [[[[o w] s] t] r]. eapply emits_bind; [apply emits_address|]. intros [x w'] _. destruct (trapError i).
  - next. auto with emit.
  - unfold checkStoreConflict. eapply emits_bind; [next; apply emits_any_of_thread|]. intros [] _; [auto with emit|].
    eapply emits_bind; [apply emits_issueLoad; auto|]. intros ? _. next. auto with emit.
Qed.
Lemma emits_attempt_store wrapv id : mkEntry STORE id ∈ op_q (queue m0) -> emits (attempt_store wrapv id).
Proof.
  intros Hid. unfold attempt_store. next. destruct (_ <=? _); [auto with emit|]. eapply emits_bind; [apply emits_the_ins|]. intros i _. next.
  destruct a0 as [[[o w] t] r]. eapply emits_bind; [apply emits_address|]. intros [x w'] _.
  eapply (emits_bind _ _ (fun _ => True)); [destruct (trapError i); [auto with emit|next; by apply emits_new_store]|]. intros ? _.
  next. auto with emit.
Qed.
Lemma emits_attempt_fence id : emits (attempt_fence id).
Proof.
  unfold attempt_fence. eapply emits_bind; [apply emits_the_ins|]. intros i _. next.
  eapply (emits_bind _ _ (fun _ => True)); [destruct a; unfold pendingLoads; try (next; apply emits_any_of_thread); auto with emit|]. intros loads _.
  eapply (emits_bind _ _ (fun _ => True)).
  { destruct (_ && _); [unfold pendingStores; next; apply emits_any_of_thread|auto with emit]. }
  intros stores _. next. destruct (_ || _); [auto with emit|]. next. next. auto with emit.
Qed.
Lemma emits_attempts wrapv n : emits (attempts wrapv n).
Proof.
  induction n as [|n IH]; cbn [attempts]; [by apply emits_ret|]. eapply (emits_bind _ _ (fun _ => True)).
  - unfold attempt_to_issue. eapply (emits_bind _ _ (fun q => forall e, e ∈ op_q q -> e ∈ op_q (queue m0))).
    { intros m a m' Hm [= <- <-]. split_and!; [apply (st_ops _ _ Hm)|done|]. exists []. by rewrite app_nil_r. }
    intros q Hq. destruct (op_q q) as [|[op id] ops]; [auto with emit|]. eapply emits_bind; [apply emits_the_ins|]. intros i _.
    destruct (negb _); [auto with emit|]. destruct op; cbn; [apply emits_attempt_load|apply emits_attempt_store|apply emits_attempt_fence].
    apply Hq, elem_of_cons; by left.
  - intros [] _; [done|by apply emits_ret].
Qed.
End loads.

(** ** Stores *)

(** A store can be sent by a tick: the one that waits first or, when none waits, one the
    tick takes from the queue of operations. *)
Definition next_store (m : mem) (e : VanadisBasicStorePendingEntry) : Prop :=
  head (stores_pending (queue m)) = Some e \/ stores_pending (queue m) = [] /\ mkEntry STORE (sp_ins e) ∈ op_q (queue m).

(** A write of the bytes of a store's value register from [offset] on. *)
Definition write_of (m : mem) (i : VanadisInstruction) (offset address : Z) (r : memory_request) : Prop :=
  is_write (req_kind r) = true /\ req_thread r = hw_thread i /\ vAddr r = address /\
  exists o w t reg, store_fields i = Ok (o, w, t, reg) /\ payload i reg offset (req_size r) m = Ok (req_data r, m).
(** The writes of one store: the whole of it, or the parts on both sides of a line's end. *)
Definition writes_store (m : mem) (e : VanadisBasicStorePendingEntry) (i : VanadisInstruction) (l : list memory_request) : Prop :=
  let a := storeAddress e in
  (exists r, l = [r] /\ write_of m i 0 a r /\ req_size r = storeWidth e) \/
  (exists r1 r2, l = [r1; r2] /\ write_of m i 0 a r1 /\ write_of m i (req_size r1) (u64 (a + req_size r1)) r2 /\
     0 < req_size r1 /\ 0 < req_size r2 /\ u64 (req_size r1 + req_size r2) = u64 (storeWidth e)).

Lemma request_sent kind a w d i m r m' : request kind a w d i m = Ok (r, m') ->
  m' = m <| queue ::= fun q => q <| next_request ::= Z.add 1 |> |> /\
  req_kind r = kind /\ req_thread r = hw_thread i /\ vAddr r = a /\ req_size r = w /\ req_data r = d.
Proof. by intros [= <- <-]. Qed.
Lemma standard_write_sent i a w d m m' : standard_write i a w d m = Ok (tt, m') ->
  registerFiles m' = registerFiles m /\ exists r, sent (queue m') = sent (queue m) ++ [r] /\
    req_kind r = Write /\ req_thread r = hw_thread i /\ vAddr r = a /\ req_size r = w /\ req_data r = d.
Proof. intros [= <-]. split; [done|]. by eexists. Qed.
Lemma the_ins_found id (m m' : mem) i : the_ins id m = Ok (i, m') -> e_heap m !! id = Some i /\ m' = m.
Proof. unfold the_ins, getsR, of_option. destruct (e_heap m !! id); [|done]. by intros [= <- <-]. Qed.
Lemma trap_keeps id (m m' : mem) : trap id m = Ok (tt, m') -> queue m' = queue m.
Proof. unfold trap, on_the_ins. intros (i & m1 & [_ ->]%the_ins_found & [= <-])%bind_Ok. done. Qed.
Lemma special_store_sent id i kind a w d m m' : special_store id i kind a w d m = Ok (tt, m') ->
  exists r, sent (queue m') = sent (queue m) ++ [r] /\
    req_kind r = kind /\ req_thread r = hw_thread i /\ vAddr r = a /\ req_size r = w /\ req_data r = d.
Proof.
  unfold special_store. intros (r & m1 & [-> Hr]%request_sent & E)%bind_Ok. apply bind_Ok in E as ([] & m2 & Ht & [= <-]).
  exists r. split; [|exact Hr]. cbn. f_equal. destruct (_ <? _) in Ht; [|by injection Ht as <-].
  apply trap_keeps in Ht. by rewrite Ht.
Qed.
Lemma payload_keeps i reg o w m d m' : payload i reg o w m = Ok (d, m') ->
  m' = m /\ forall m1, registerFiles m1 = registerFiles m -> payload i reg o w m1 = Ok (d, m1).
Proof.
  unfold payload, the_file, mbind, M_bind, getsR. intros E. destruct (at_index _ _) as [rf|] eqn:Ef; [|done].
  destruct reg; destruct (at_index _ _) as [r|] eqn:Er in E; try done; destruct (copyFromRegister _ _ _ _ _) eqn:Ec in E; try done;
    injection E as -> ->; (split; [done|]); intros m1 ->; by rewrite Ef, Er, Ec.
Qed.

Lemma issueStore_sent m e i b m' :
  e_heap m !! sp_ins e = Some i -> issueStore e m = Ok (b, m') ->
  exists l, sent (queue m') = sent (queue m) ++ l /\ writes_store m e i l.
Proof.
  intros Hi. unfold issueStore. intros (i' & m1 & [Hi' ->]%the_ins_found & E)%bind_Ok. rewrite Hi in Hi'. injection Hi' as <-.
  apply bind_Ok in E as (split & m1 & [_ ->]%getsR_Ok & E). apply bind_Ok in E as ([[[o w] t] reg] & m1 & [Hf ->]%getsR_Ok & E).
  assert (Hwhole : forall kind d r m1 m2, is_write kind = true -> payload i reg 0 (storeWidth e) m = Ok (d, m1) ->
    sent (queue m2) = sent (queue m) ++ [r] ->
    req_kind r = kind /\ req_thread r = hw_thread i /\ vAddr r = storeAddress e /\ req_size r = storeWidth e /\ req_data r = d ->
    exists l, sent (queue m2) = sent (queue m) ++ l /\ writes_store m e i l).
  { intros kind d r m1 m2 Hk [-> Hp]%payload_keeps Hs (K1 & K2 & K3 & K4 & K5). exists [r]. split; [done|]. left. exists r.
    split_and!; [done| |done]. split_and!; [by rewrite K1|done|done|]. exists o, w, t, reg. split; [done|]. rewrite K4, K5. by apply Hp. }
  destruct t; [|done| |].
  - destruct split.
    + apply bind_Ok in E as ([wl wr] & m1 & Hsplit & E).
      assert (m1 = m /\ 0 < wl /\ 0 < wr /\ u64 (wl + wr) = u64 (storeWidth e)) as (-> & Hl & Hr & Hsum).
      { revert Hsplit. unfold split_widths, lsq_assert. intros (rw & m2 & [Hrw ->]%getsR_Ok & E1)%bind_Ok.
        destruct (Z.ltb_spec 0 rw); [|done]. destruct (Z.ltb_spec 0 (u64 (storeWidth e - rw))); [|done].
        injection E1 as <- <- <-. split_and!; [done..|]. unfold u64. rewrite Zplus_mod_idemp_l. f_equal. lia. }
      apply bind_Ok in E as (d1 & m1 & [-> Hd1]%payload_keeps & E). apply bind_Ok in E as ([] & m1 & [Hf1 (r1 & S1 & A1)]%standard_write_sent & E).
      apply bind_Ok in E as (d2 & m2 & [-> Hd2]%payload_keeps & E). apply bind_Ok in E as ([] & m2 & [_ (r2 & S2 & A2)]%standard_write_sent & E).
      injection E as <- <-. exists [r1; r2]. split; [by rewrite S2, S1, <- (assoc_L (++))|]. right. exists r1, r2.
      destruct A1 as (A11 & A12 & A13 & A14 & A15), A2 as (A21 & A22 & A23 & A24 & A25). rewrite A14, A24.
      split_and!; try done; split_and!; try done; [by rewrite A11| |by rewrite A21|]; exists o, w, MEM_TRANSACTION_NONE, reg; (split; [done|]).
      * rewrite A14, A15. by apply Hd1.
      * rewrite A24, A25. by apply Hd2.
    + apply bind_Ok in E as (d & m1 & Hd & E). pose proof (payload_keeps _ _ _ _ _ _ _ Hd) as [-> _].
      apply bind_Ok in E as ([] & m1 & [_ (r & S1 & A)]%standard_write_sent & E). injection E as <- <-. by apply (Hwhole Write d r m m1).
  - destruct split; [done|]. apply bind_Ok in E as (d & m1 & Hd & E). pose proof (payload_keeps _ _ _ _ _ _ _ Hd) as [-> _].
    apply bind_Ok in E as ([] & m1 & (r & S1 & A)%special_store_sent & E). injection E as <- <-. by apply (Hwhole StoreConditionalRequest d r m m1).
  - destruct split; [done|]. apply bind_Ok in E as (d & m1 & Hd & E). pose proof (payload_keeps _ _ _ _ _ _ _ Hd) as [-> _].
    apply bind_Ok in E as ([] & m1 & (r & S1 & A)%special_store_sent & E). injection E as <- <-. by apply (Hwhole WriteUnlock d r m m1).
Qed.

Lemma issueStoreFront_sent m m' : issueStoreFront m = Ok (tt, m') ->
  exists l, sent (queue m') = sent (queue m) ++ l /\
    (l = [] \/ exists e i, head (stores_pending (queue m)) = Some e /\ e_heap m !! sp_ins e = Some i /\
       isFrontOfROB i = true /\ hasIssued i = true /\ writes_store m e i l).
Proof.
  unfold issueStoreFront. intros (stores & m1 & [= <- <-] & E)%bind_Ok.
  assert (Hnone : forall m2, queue m2 = queue m -> exists l, sent (queue m2) = sent (queue m) ++ l /\
    (l = [] \/ exists e i, head (stores_pending (queue m)) = Some e /\ e_heap m !! sp_ins e = Some i /\
       isFrontOfROB i = true /\ hasIssued i = true /\ writes_store m e i l)).
  { intros m2 ->. exists []. rewrite app_nil_r. auto. }
  destruct (stores_pending (queue m)) as [|e rest]; [injection E as <-; by apply Hnone|].
  apply bind_Ok in E as (i & m1 & [Hheap ->]%the_ins_found & E).
  destruct (_ && _) eqn:Hg; [|injection E as <-; by apply Hnone]. apply andb_prop in Hg as [_ [Hg1 Hg2]%andb_prop].
  apply bind_Ok in E as (b & m1 & (l & Hl & Hw)%(issueStore_sent _ _ _ _ _ Hheap) & E). exists l. split; [|right; by exists e, i].
  rewrite <- Hl. destruct b; [|by injection E as <-]. apply bind_Ok in E as ([] & m2 & [= <-] & E).
  unfold mark_executed, on_the_ins in E. by apply bind_Ok in E as (i2 & m3 & [_ ->]%the_ins_found & [= <-]).
Qed.

(** What a store writes does not depend on the flags that an attempt sets. *)
Lemma writes_store_standing m0 m e i i0 l : registerFiles m = registerFiles m0 -> standing i = standing i0 ->
  writes_store m e i l -> writes_store m0 e i0 l.
Proof.
  intros Hf Hs. assert (Hw : forall o a r, write_of m i o a r -> write_of m0 i0 o a r).
  { intros o a r (K1 & K2 & K3 & o' & w & t & reg & K4 & [_ K5]%payload_keeps).
    assert (hw_thread i0 = hw_thread i) as E1 by exact (eq_sym (f_equal hw_thread Hs)).
    assert (store_fields i0 = store_fields i) as E2 by exact (eq_sym (f_equal store_fields Hs)).
    split_and!; [done|by rewrite E1|done|]. exists o', w, t, reg. rewrite E2. split; [done|].
    specialize (K5 m0 (eq_sym Hf)). rewrite <- K5. change (payload i0 reg o (req_size r) m0) with (payload (standing i0) reg o (req_size r) m0).
    by rewrite <- Hs. }
  intros [(r & H1 & H2 & H3)|(r1 & r2 & H1 & H2 & H3 & H4)]; [left; exists r|right; exists r1, r2]; split_and!; auto; apply H4.
Qed.

(** C12. Stores reach the memory in a tick only from the front of a reorder buffer: what a tick
    writes are the writes of one store, whose instruction has issued and is at the front of its
    reorder buffer; it is the store that waits first, or one the tick itself takes from the queue
    when no store waits. Everything else that the tick sends reads. *)
Theorem stores_wait_for_front wrapv m m' :
  tick_lsq wrapv m = Ok (tt, m') ->
  exists reads writes, sent (queue m') = sent (queue m) ++ reads ++ writes /\
    Forall (fun r => is_write (req_kind r) = false) reads /\
    (writes = [] \/ exists e i, next_store m e /\ e_heap m !! sp_ins e = Some i /\
       isFrontOfROB i = true /\ hasIssued i = true /\ writes_store m e i writes).
Proof.
  unfold tick_lsq. intros (q & m1 & [= <- <-] & E)%bind_Ok. apply bind_Ok in E as ([] & m1 & E1 & E2).
  destruct (emits_attempts m _ (fun r H => H) wrapv _ m tt m1 (stands_self m) E1) as (_ & Hs & reads & Hr & Hreads).
  destruct (issueStoreFront_sent _ _ E2) as (writes & Hw & Hwrites). exists reads, writes.
  split_and!; [by rewrite Hw, Hr, (assoc_L (++))|done|].
  destruct Hwrites as [->|(e & i & Hhead & Hi & Hf & Hissued & Hof)]; [by left|right].
  pose proof (st_heap _ _ Hs (sp_ins e)) as Hst. rewrite Hi in Hst. destruct (e_heap m !! sp_ins e) as [i0|] eqn:Hi0; [|done].
  cbn in Hst. apply (inj Some) in Hst. exists e, i0. split_and!.
  - destruct (st_pending _ _ Hs) as (new & Hp & Hnew). rewrite Hp in Hhead. destruct (stores_pending (queue m)) as [|e0 rest] eqn:Ep.
    + right. split; [done|]. apply Hnew. destruct new; [done|]. injection Hhead as ->. apply elem_of_cons; by left.
    + left. by rewrite Ep.
  - done.
  - rewrite <- Hf. exact (eq_sym (f_equal isFrontOfROB Hst)).
  - rewrite <- Hissued. exact (eq_sym (f_equal hasIssued Hst)).
  - by eapply writes_store_standing; [apply (st_files _ _ Hs)|..].
Qed.

(** ** Loads and older stores *)

Lemma any_of_thread_false {E} (pointer : E -> Z) thread Q l m b m' :
  any_of_thread pointer thread Q l m = Ok (b, m') -> m' = m /\
  (b = false -> forall e s, e ∈ l -> e_heap m !! pointer e = Some s -> hw_thread s = thread -> Q e = false).
Proof.
  induction l as [|e l IH]; cbn [any_of_thread]; [intros [= <- <-]; split; [done|set_solver]|].
  unfold mbind, M_bind, the_ins, getsR. destruct (e_heap m !! pointer e) as [i|] eqn:Hi; [|done]. cbn [of_option].
  destruct ((hw_thread i =? thread) && Q e) eqn:Hg; [by intros [= <- <-]|]. intros [-> Hrest]%IH. split; [done|].
  intros Hb e' s [->|He']%elem_of_cons Hs Ht; [|by eapply Hrest]. rewrite Hi in Hs. injection Hs as <-.
  rewrite Ht, Z.eqb_refl in Hg. by destruct (Q e).
Qed.

(** Two accesses that the queue does not see overlap have no byte in common. *)
Lemma no_overlap a w e x :
  0 < w -> 0 <= a -> a + w <= 2 ^ 64 -> 0 < storeWidth e -> 0 <= storeAddress e -> storeAddress e + storeWidth e <= 2 ^ 64 ->
  storeAddressOverlaps a w e = false -> a <= x < a + w -> ~ storeAddress e <= x < storeAddress e + storeWidth e.
Proof.
  intros Hw Ha Hb Hsw Hsa Hsb. unfold storeAddressOverlaps, u64. rewrite !Z.mod_small by lia. intros Ho Hx Hy.
  apply orb_false_elim in Ho as [H1 H2]. rewrite andb_false_iff, !Z.leb_gt in H1, H2. lia.
Qed.

(** A store that waits and does not pass the end of the address space. *)
Definition waits_within (m : mem) (e : VanadisBasicStorePendingEntry) (thread : Z) : Prop :=
  e ∈ stores_pending (queue m) /\ 0 < storeWidth e /\ 0 <= storeAddress e /\ storeAddress e + storeWidth e <= 2 ^ 64 /\
  exists s, e_heap m !! sp_ins e = Some s /\ hw_thread s = thread.

(** C11. A load is sent to the memory only when no byte it asks for lies in a store of the same
    thread that waits in the queue. *)
Theorem load_waits_for_stores wrapv id i offset width se t r a m b m' :
  e_heap m !! id = Some i -> class i = Op (Load offset width se t r) ->
  address_of i (computeLoadAddress wrapv offset width) m = Ok ((a, width), m) -> 0 <= a -> 0 < width -> a + width <= 2 ^ 64 ->
  attempt_load wrapv id m = Ok (b, m') ->
  exists l, sent (queue m') = sent (queue m) ++ l /\ forall req e x, req ∈ l -> waits_within m e (hw_thread i) ->
    vAddr req <= x < vAddr req + req_size req -> ~ storeAddress e <= x < storeAddress e + storeWidth e.
Proof.
  intros Hi Hc Haddr Ha Hw Hb E.
  assert (Hnone : sent (queue m') = sent (queue m) -> exists l, sent (queue m') = sent (queue m) ++ l /\ forall req e x, req ∈ l -> waits_within m e (hw_thread i) ->
    vAddr req <= x < vAddr req + req_size req -> ~ storeAddress e <= x < storeAddress e + storeWidth e).
  { intros Es. exists []. rewrite app_nil_r. split; [done|]. set_solver. }
  unfold attempt_load in E. unfold gets at 1, mbind, M_bind in E.
  destruct (_ <=? _); [injection E as <- <-; by apply Hnone|].
  unfold the_ins at 1, getsR in E. rewrite Hi in E. cbn [of_option] in E. unfold load_fields in E. rewrite Hc in E. rewrite Haddr in E.
  destruct (trapError i); [injection E as <- <-; by apply Hnone|].
  destruct (checkStoreConflict (hw_thread i) a width m) as [[conflict m1]|] eqn:Hcheck; [|done].
  apply any_of_thread_false in Hcheck as [-> Hfree]. destruct conflict; [injection E as <- <-; by apply Hnone|].
  set (P := fun r => part a width (vAddr r) (req_size r)).
  assert (He : emits m P (fun _ => True) (issueLoad id a width ;; pop_front ;; mret true)).
  { eapply emits_bind; [by apply emits_issueLoad|]. intros ? _. next. by apply emits_ret. }
  destruct (He m b m' (stands_self m) E) as (_ & _ & l & Hl & HP). exists l. split; [done|].
  intros req e x Hreq (He1 & He2 & He3 & He4 & s & Hs & Ht) Hx. rewrite Forall_forall in HP.
  destruct (HP req Hreq Ha Hw Hb). eapply no_overlap; [exact Hw|exact Ha|exact Hb|done..|by eapply Hfree|lia].
Qed.

(** ** The response to a load *)

Lemma put_each_spec (byte : Z -> res Z) bs : forall i shift pre old rest,
  (forall (k : nat) b, bs !! k = Some b -> byte (i + Z.of_nat k) = Ok b) -> length old = length bs -> Z.of_nat (length pre) = shift + i ->
  put_each (length bs) i shift byte (pre ++ old ++ rest) = Ok (pre ++ bs ++ rest).
Proof.
  induction bs as [|b bs IH]; intros i shift pre old rest Hb Hold Hpre; destruct old as [|o old]; try done.
  cbn [length put_each]. pose proof (Hb 0%nat b eq_refl) as E. rewrite Z.add_0_r in E. rewrite E. cbn [mbind res_bind].
  assert (Hset : put_at (shift + i) b (pre ++ (o :: old) ++ rest) = Ok (pre ++ b :: old ++ rest)).
  { unfold put_at. rewrite set_index_in_range by (rewrite !length_app; cbn; lia). f_equal. rewrite <- Hpre, Nat2Z.id.
    by rewrite insert_app_r_alt, Nat.sub_diag by done. }
  rewrite Hset. cbn [mbind res_bind]. specialize (IH (i + 1) shift (pre ++ [b]) old rest).
  rewrite <- !(assoc_L (++)) in IH. apply IH.
  - intros k x Hk. replace (i + 1 + Z.of_nat k) with (i + Z.of_nat (S k)) by lia. by apply Hb.
  - by injection Hold.
  - rewrite length_app. cbn. lia.
Qed.

(** What extends the bytes of a load to the register. *)
Definition filling (se : bool) (bs : list Z) : Z := if se then if Z.testbit (default 0 (list.last bs)) 7 then 255 else 0 else 0.

(** A part of a load goes behind the parts that came before it. *)
Lemma merge_part se last pre bs tail :
  bs <> [] -> (length bs <= length tail)%nat ->
  merge_int se last (Z.of_nat (length pre)) (Z.of_nat (length bs)) bs (pre ++ tail) =
  Ok (pre ++ bs ++ if last then replicate (length tail - length bs) (filling se bs) else drop (length bs) tail).
Proof.
  intros Hne Hlen. unfold merge_int, put_range. rewrite Z.sub_0_r, Nat2Z.id.
  pose proof (put_each_spec (at_index bs) bs 0 (Z.of_nat (length pre)) pre (take (length bs) tail) (drop (length bs) tail)) as E.
  rewrite take_drop in E. rewrite E; [|intros k b Hk; apply at_index_Ok; rewrite Z.add_0_l, Nat2Z.id; split; [lia|done]
    |rewrite length_take; lia|lia].
  cbn [mbind res_bind]. destruct last; [|done].
  assert (Htop : get_at (Z.of_nat (length pre) + Z.of_nat (length bs) - 1) (pre ++ bs ++ drop (length bs) tail) = Ok (default 0 (list.last bs))).
  { destruct (exists_last Hne) as (l & x & ->). rewrite last_snoc. cbn. unfold get_at.
    rewrite (proj2 (at_index_Ok _ _ x)); [done|]. rewrite length_app. cbn. split; [lia|].
    replace (Z.to_nat (Z.of_nat (length pre) + Z.of_nat (length l + 1) - 1)) with (length (pre ++ l)) by (rewrite length_app; lia).
    rewrite <- (assoc_L (++) l), (assoc_L (++) pre). by apply list_lookup_middle. }
  assert (Hfill : (if se then top ← get_at (Z.of_nat (length pre) + Z.of_nat (length bs) - 1) (pre ++ bs ++ drop (length bs) tail);
                     Ok (if Z.testbit top 7 then 255 else 0) else Ok 0) = Ok (filling se bs)).
  { unfold filling. destruct se; [|done]. rewrite Htop. cbn [mbind res_bind]. done. }
  rewrite Hfill. cbn [mbind res_bind]. rewrite !length_app, length_drop. set (fill := filling se bs).
  pose proof (put_each_spec (fun _ => Ok fill) (replicate (length tail - length bs) fill) (Z.of_nat (length pre) + Z.of_nat (length bs)) 0
    (pre ++ bs) (drop (length bs) tail) []) as E2.
  rewrite !app_nil_r, length_replicate in E2.
  replace (Z.to_nat (Z.of_nat (length pre + (length bs + (length tail - length bs))) - (Z.of_nat (length pre) + Z.of_nat (length bs))))
    with (length tail - length bs)%nat by lia.
  rewrite <- !(assoc_L (++)) in E2. apply E2; [|by rewrite length_drop|rewrite length_app; lia]. intros k b Hk. by apply lookup_replicate_1 in Hk as [-> _].
Qed.

(** The top bit of a value is that of its last byte. *)
Lemma top_bit bs : bs <> [] -> Forall byte_range bs ->
  (Z.land (little_endian_to_Z 8 bs) (Z.shiftl 1 (Z.of_nat (length bs) * 8 - 1)) =? 0) = negb (Z.testbit (default 0 (list.last bs)) 7).
Proof.
  intros Hne Hb. destruct (exists_last Hne) as (l & x & ->). rewrite last_snoc. change (default 0 (Some x)) with x.
  set (n := Z.of_nat (length (l ++ [x])) * 8 - 1). assert (Hn : 0 <= n) by (subst n; rewrite length_app; cbn; lia).
  assert (Ht : Z.testbit (little_endian_to_Z 8 (l ++ [x])) n = Z.testbit x 7).
  { assert (En : n = Z.of_nat (length l) * 8 + 7) by (subst n; rewrite length_app; cbn; lia).
    rewrite (little_endian_to_Z_spec 8 (l ++ [x]) n x); [f_equal; rewrite En| lia|lia|done|].
    - rewrite Z.add_comm, Z.mod_add by lia. reflexivity.
    - rewrite En, Z.add_comm, Z.div_add by lia. cbn [Z.div]. change (7 / 8) with 0. rewrite Z.add_0_l, Nat2Z.id. by apply list_lookup_middle. }
  rewrite Z.shiftl_1_l. rewrite <- Ht. destruct (Z.testbit _ n) eqn:Hbit; cbn [negb].
  - apply Z.eqb_neq. intros E. apply (f_equal (fun v => Z.testbit v n)) in E. rewrite Z.land_spec, Hbit, Z.pow2_bits_true, Z.bits_0 in E by lia. done.
  - apply Z.eqb_eq, Z.bits_inj'. intros k Hk. rewrite Z.land_spec, Z.bits_0, Z.pow2_bits_eqb by lia.
    destruct (Z.eqb_spec n k) as [<-|]; [by rewrite Hbit|apply andb_false_r].
Qed.

(** The word that the bytes of a whole load become. *)
Definition loaded (se : bool) (n v : Z) : Z := if se then u64 (signed (8 * n) v) else v.

Lemma loaded_bytes se bs : bs <> [] -> (length bs <= 8)%nat -> Forall byte_range bs ->
  little_endian_to_Z 8 (bs ++ replicate (8 - length bs) (filling se bs)) = loaded se (Z.of_nat (length bs)) (little_endian_to_Z 8 bs).
Proof.
  intros Hne Hlen Hb. pose proof (top_bit bs Hne Hb) as Ht. set (v := little_endian_to_Z 8 bs) in *.
  assert (Hn : 0 < Z.of_nat (length bs) <= 8) by (destruct bs; cbn in *; [done|lia]).
  pose proof (little_endian_to_Z_bound 8 bs ltac:(lia) Hb) as Hv. fold v in Hv.
  rewrite (Z.mul_comm (Z.of_nat (length bs)) 8) in *. set (n := 8 * Z.of_nat (length bs)) in *.
  rewrite (msb_signed n v), (Z.mod_small v) in Ht by lia.
  assert (Hfill : filling se bs = 0 \/ filling se bs = 255) by (unfold filling; destruct se; [destruct (Z.testbit _ 7)|]; auto).
  rewrite little_endian_app, little_endian_repeat; [|done|done|apply Forall_replicate; destruct Hfill as [-> | ->]; unfold byte_range; lia].
  fold v n. replace (8 * Z.of_nat (8 - length bs)) with (64 - n) by lia.
  assert (Hpow : 2 ^ n * 2 ^ (64 - n) = 2 ^ 64) by (rewrite <- Z.pow_add_r by lia; f_equal; lia).
  assert (Hpn : 2 ^ n <= 2 ^ 64) by (apply Z.pow_le_mono_r; lia).
  unfold loaded, filling, signed, u64. fold n. destruct se; [|cbn [Z.eqb]; lia]. rewrite (Z.mod_small v) by lia.
  destruct (Z.testbit _ 7), (Z.ltb_spec v (2 ^ (n - 1))); try done; cbn [Z.eqb].
  - rewrite <- (Z.mod_add (v - 2 ^ n) 1) by lia. rewrite Z.mod_small by lia. lia.
  - rewrite Z.mod_small by lia. lia.
Qed.

Definition register_bytes (rf : VanadisRegisterFile) (p : Z) : list Z := bytes_at (8 * p) 8 (int_reg_storage rf).

(** A load into the integer register [p] of the file [rf]. *)
Record loads_into (i : VanadisInstruction) (se : bool) (p : Z) (rf : VanadisRegisterFile) : Prop := {
  li_class : exists offset width t, class i = Op (Load offset width se t LOAD_INT_REGISTER);
  li_isa : exists x, isa_int_regs_out i = [x] /\ x < isa_int_reg_count (isa_options i);
  li_phys : phys_int_regs_out i = [p];
  li_thread : 0 <= hw_thread i;
  li_opts : decoder_opts rf = isa_options i;
  li_range : in_range rf p;
  li_wf : file_wf rf }.
Lemma loads_into_like i se p rf rf' : file_like rf rf' -> loads_into i se p rf -> loads_into i se p rf'.
Proof.
  intros [L1 L2 L3 L4] []. split; try done; [by rewrite L1| |by apply L4]. unfold in_range in *. by rewrite L2.
Qed.

(** [rf'] is [rf] with the register [p] written: only [p] may differ, and not if writes to it are ignored. *)
Record written (p : Z) (rf rf' : VanadisRegisterFile) : Prop := {
  wr_like : file_like rf rf';
  wr_ignored : ignores rf p = true -> rf' = rf;
  wr_others k q : 0 <= q -> (k = INT -> q <> p) -> cell k rf' q = cell k rf q }.
Lemma written_refl p rf : written p rf rf.
Proof. done. Qed.
Lemma written_trans p rf1 rf2 rf3 : written p rf1 rf2 -> written p rf2 rf3 -> written p rf1 rf3.
Proof.
  intros [L1 I1 O1] [L2 I2 O2]. split; [by trans rf2| |].
  - intros Hi. pose proof (I1 Hi) as ->. auto.
  - intros k q Hq Hk. rewrite O2, O1; auto.
Qed.
Lemma written_ignores p rf rf' : written p rf rf' -> ignores rf' p = ignores rf p.
Proof. intros [L _ _]. unfold ignores. by rewrite (like_opts _ _ L). Qed.

Lemma runs_write_load e i se p rf pre bs (m : mem) :
  let last := (length (lp_requests e) =? 1)%nat in let virtual := u64 (load_address e + Z.of_nat (length pre)) in
  loads_into i se p rf -> registerFiles m !! Z.to_nat (hw_thread i) = Some rf ->
  bs <> [] -> (length pre + length bs <= 8)%nat -> Forall byte_range pre -> Forall byte_range bs ->
  (ignores rf p = false -> exists tail, register_bytes rf p = pre ++ tail) ->
  runs (write_load e i virtual (Z.of_nat (length bs)) bs) m (fun _ m' => exists rf',
    m' = m <| registerFiles := <[Z.to_nat (hw_thread i) := rf']> (registerFiles m) |> /\ written p rf rf' /\
    (ignores rf p = false -> exists tail, register_bytes rf' p = pre ++ bs ++ tail /\
       (last = true -> tail = replicate (8 - length (pre ++ bs)) (filling se bs)))).
Proof.
  intros last virtual [(offset & width & t & Hc) (x & Hx & Hxi) Hp Hthr Ho Hr Hwf] Hf Hne Hlen Hpre Hb Hold.
  pose proof Hr as [Hp0 Hpr]. pose proof (file_int _ Hwf) as Hi.
  assert (Hoff : u64 (virtual - load_address e) = Z.of_nat (length pre)).
  { unfold virtual, u64. rewrite Zminus_mod_idemp_l. replace (_ + _ - _) with (Z.of_nat (length pre)) by lia. apply Z.mod_small. lia. }
  unfold write_load, load_fields, the_file. rewrite Hoff, Hc, Hx, Hp. fold last.
  apply runs_bind. eapply runs_getsR; [done|]. apply runs_bind. eapply runs_getsR; [by apply at_index_Ok|]. cbv beta iota zeta.
  apply runs_bind. eapply runs_getsR; [done|]. apply runs_bind. eapply runs_getsR; [done|].
  apply runs_bind. unfold lsq_assert at 1. rewrite (proj2 (Z.ltb_lt x _)) by done. apply runs_skip.
  apply runs_when; intros Hig.
  2: { exists rf. split_and!; [rewrite list_insert_id by done; by destruct m|apply written_refl|].
       unfold ignores. rewrite Ho. apply negb_false_iff in Hig. by rewrite Hig. }
  assert (Hnot : ignores rf p = false) by (unfold ignores; rewrite Ho; by apply negb_true_iff in Hig).
  destruct (Hold Hnot) as (tail & Htail).
  assert (Hsize : length (register_bytes rf p) = 8%nat).
  { unfold register_bytes, bytes_at. rewrite length_take, length_drop. pose proof (wf_size _ Hi). lia. }
  assert (Htl : length tail = (8 - length pre)%nat) by (rewrite Htail, length_app in Hsize; lia).
  set (rest := if last then replicate (length tail - length bs) (filling se bs) else drop (length bs) tail).
  assert (Hrest : Forall byte_range rest).
  { subst rest. destruct last.
    - apply Forall_replicate. unfold filling, byte_range. destruct se; [destruct (Z.testbit _ 7)|]; lia.
    - apply Forall_drop. assert (Forall byte_range (register_bytes rf p)) as Hall by apply Forall_take, Forall_drop, (wf_bytes _ Hi).
      rewrite Htail in Hall. by apply Forall_app in Hall as [_ ?]. }
  assert (Hl8 : Z.of_nat (length (pre ++ bs ++ rest)) = 8).
  { subst rest. destruct last; rewrite !length_app, ?length_replicate, ?length_drop; lia. }
  assert (Hnb : Forall byte_range (pre ++ bs ++ rest)) by (by rewrite !Forall_app).
  apply runs_bind. eapply runs_getsR.
  { unfold copyFromIntRegister, assert. rewrite (wf_width _ Hi), (proj2 (Z.ltb_lt p _)) by done. cbn. rewrite Z.add_0_r, Z.mul_comm. exact (f_equal Ok Htail). }
  apply runs_bind. unfold lsq_assert, u64. rewrite (wf_width _ Hi), Z.mod_small, (proj2 (Z.leb_le _ 8)) by lia. apply runs_skip.
  apply runs_bind. eapply runs_getsR; [apply merge_part; [done|lia]|]. fold rest.
  set (rf' := rf <| int_reg_storage ::= put_bytes (8 * p) (pre ++ bs ++ rest) |>).
  assert (Hto : copyToIntRegister p 0 (pre ++ bs ++ rest) rf = Ok rf').
  { unfold copyToIntRegister, assert. rewrite Hl8, (wf_width _ Hi), (proj2 (Z.ltb_lt p _)) by done. cbn. by rewrite Z.add_0_r, Z.mul_comm. }
  apply runs_bind. eapply runs_getsR; [exact Hto|]. unfold set_file. apply runs_bind. eapply runs_getsR.
  { apply set_index_in_range. apply lookup_lt_Some in Hf. lia. }
  apply runs_modify. exists rf'. split; [done|].
  destruct (copyToIntRegister_frame p _ rf rf' Hwf Hp0 ltac:(by rewrite (wf_width _ Hi)) Hnb Hto) as [Hlike Hcell].
  split; [split; [done|congruence|done]|]. intros _. exists rest. split.
  - pose proof (bytes_at_put (8 * p) (pre ++ bs ++ rest) (int_reg_storage rf)) as Hput. rewrite Hl8 in Hput.
    apply Hput; pose proof (wf_size _ Hi); lia.
  - intros ->. subst rest. f_equal. rewrite length_app. lia.
Qed.

(** The answers to the requests of a load, in the order of their addresses: each has its
    request's identifier, its bytes, and whether the memory reports a fault. *)
Record answer := mkAnswer { an_id : Z; an_bytes : list Z; an_failed : bool }.
Fixpoint answers (address : Z) (l : list answer) : list memory_response :=
  match l with
  | [] => []
  | a :: l' =>
      let size := Z.of_nat (length (an_bytes a)) in
      ReadResp (an_id a) address size (an_bytes a) (an_failed a) :: answers (u64 (address + size)) l'
  end.
(** A fault, or an access to the first 64 bytes, is an error of the load. *)
Fixpoint faulty (address : Z) (l : list answer) : bool :=
  match l with
  | [] => false
  | a :: l' => an_failed a || (address <? 64) || faulty (u64 (address + Z.of_nat (length (an_bytes a)))) l'
  end.
Definition answer_ok (a : answer) : Prop := an_bytes a <> [] /\ Forall byte_range (an_bytes a).
Definition all_bytes (l : list answer) : list Z := concat (an_bytes <$> l).

Definition flagged (b : bool) (i : VanadisInstruction) : VanadisInstruction := if b then i <| trapError := true |> else i.
Lemma flagged_flagged b c i : flagged b (flagged c i) = flagged (c || b) i.
Proof. by destruct b, c, i. Qed.
Lemma flagged_loads b i se p rf : loads_into i se p rf -> loads_into (flagged b i) se p rf.
Proof. intros []. by destruct b. Qed.
Lemma flagged_thread b i : hw_thread (flagged b i) = hw_thread i.
Proof. by destruct b. Qed.

Lemma find_first {E} (P : E -> bool) l1 e l2 : Forall (fun x => P x = false) l1 -> P e = true -> find_index P (l1 ++ e :: l2) = Some (length l1).
Proof. intros Hl He. induction Hl as [|x l Hx _ IH]; cbn; [by rewrite He|by rewrite Hx, IH]. Qed.
Lemma runs_flag (b : bool) id i (m : mem) (Q : unit -> mem -> Prop) :
  e_heap m !! id = Some i -> Q tt (m <| e_heap := <[id := flagged b i]> (e_heap m) |>) -> runs (when b (trap id)) m Q.
Proof.
  intros Hi HQ. destruct b; [|apply runs_skip; cbn in HQ; rewrite (insert_id _ _ _ Hi) in HQ; by destruct m].
  unfold trap, on_the_ins, the_ins. apply runs_bind. eapply runs_getsR; [by rewrite Hi|]. by apply runs_modify.
Qed.

(** One answer: the next part of the load is in the register, and the load is done with
    when no request is left. *)
Lemma runs_handle_read i se p rf pre e l1 l2 a ids (m : mem) :
  let address := u64 (load_address e + Z.of_nat (length pre)) in
  e_heap m !! lp_ins e = Some i -> loads_into i se p rf -> registerFiles m !! Z.to_nat (hw_thread i) = Some rf ->
  loads_pending (queue m) = l1 ++ e :: l2 -> lp_requests e = an_id a :: ids ->
  Forall (fun e' => waits_for (an_id a) (lp_requests e') = false) l1 ->
  answer_ok a -> (length pre + length (an_bytes a) <= 8)%nat -> Forall byte_range pre ->
  (ignores rf p = false -> exists tail, register_bytes rf p = pre ++ tail) ->
  runs (handle_read (an_id a) address (Z.of_nat (length (an_bytes a))) (an_bytes a) (an_failed a)) m (fun _ m' => exists rf',
    written p rf rf' /\
    (ignores rf p = false -> exists tail, register_bytes rf' p = pre ++ an_bytes a ++ tail /\
       (ids = [] -> tail = replicate (8 - length (pre ++ an_bytes a)) (filling se (an_bytes a)))) /\
    let i' := flagged (an_failed a || (address <? 64)) i in
    m' = mkMemory (<[lp_ins e := match ids with [] => i' <| hasExecuted := true |> | _ => i' end]> (e_heap m))
           (<[Z.to_nat (hw_thread i) := rf']> (registerFiles m))
           ((queue m) <| loads_pending := l1 ++ match ids with [] => l2 | _ => e <| lp_requests := ids |> :: l2 end |>)).
Proof.
  intros address Hi Hli Hf Hl He Hno [Hne Hb] Hlen Hpre Hold. unfold handle_read. apply runs_bind, runs_gets. rewrite Hl.
  rewrite find_first; [|done|rewrite He; cbn; by rewrite Z.eqb_refl].
  apply runs_bind. eapply runs_getsR; [by rewrite list_lookup_middle|]. apply runs_bind. eapply runs_flag; [exact Hi|].
  set (m1 := m <| e_heap := _ |>). apply runs_bind. unfold the_ins. eapply runs_getsR; [cbn; by rewrite lookup_insert_eq|].
  eapply runs_step.
  { eapply (runs_write_load e _ se p rf pre (an_bytes a) m1); try done; [by apply flagged_loads|by rewrite flagged_thread]. }
  intros [] m2 (rf' & -> & Hw & Hbytes). rewrite flagged_thread. apply runs_bind. eapply runs_flag; [cbn; apply lookup_insert_eq|].
  rewrite flagged_flagged. cbn [e_heap]. set (i' := flagged _ i). set (m2 := _ <| e_heap := _ |>).
  assert (Em2 : m2 = mkMemory (<[lp_ins e := i']> (e_heap m)) (<[Z.to_nat (hw_thread i) := rf']> (registerFiles m)) (queue m)).
  { unfold m2, m1, update. cbn. by rewrite insert_insert_eq. }
  clearbody m2. subst m2. cbn. rewrite He. cbn. rewrite Z.eqb_refl. destruct ids as [|r ids].
  - unfold mark_executed, on_the_ins, the_ins. apply runs_bind, runs_bind. eapply runs_getsR; [cbn; by rewrite lookup_insert_eq|].
    apply runs_modify, runs_modify. exists rf'. split; [done|]. split.
    + intros Hig. destruct (Hbytes Hig) as (tail & Ht & Htail). exists tail. split; [done|]. intros _. apply Htail. by rewrite He.
    + unfold update. cbn. rewrite insert_insert_eq. do 2 f_equal. rewrite Hl. unfold erase_at. rewrite take_app_length, drop_app_ge by lia.
      by replace (S (length l1) - length l1)%nat with 1%nat by lia.
  - apply runs_modify. exists rf'. split; [done|]. split.
    + intros Hig. destruct (Hbytes Hig) as (tail & Ht & _). by exists tail.
    + unfold update. cbn. do 2 f_equal. rewrite Hl, insert_app_r_alt, Nat.sub_diag by lia. cbn. by rewrite He; cbn; rewrite Z.eqb_refl.
Qed.

Lemma filling_last se pre bs : bs <> [] -> filling se (pre ++ bs) = filling se bs.
Proof. intros Hne. destruct (exists_last Hne) as (l & x & ->). unfold filling. by rewrite (assoc_L (++)), !last_snoc. Qed.
Lemma next_address a b c : u64 (u64 (a + b) + c) = u64 (a + (b + c)).
Proof. unfold u64. rewrite Zplus_mod_idemp_l. f_equal. lia. Qed.

(** All the answers that are left, after those that brought [pre]. *)
Lemma runs_answers se p l1 l2 l : l <> [] -> forall i rf pre e (m : mem),
  let address := u64 (load_address e + Z.of_nat (length pre)) in
  e_heap m !! lp_ins e = Some i -> loads_into i se p rf -> registerFiles m !! Z.to_nat (hw_thread i) = Some rf ->
  loads_pending (queue m) = l1 ++ e :: l2 -> lp_requests e = an_id <$> l ->
  Forall (fun e' => Forall (fun a => waits_for (an_id a) (lp_requests e') = false) l) l1 ->
  Forall answer_ok l -> (length pre + length (all_bytes l) <= 8)%nat -> Forall byte_range pre ->
  (ignores rf p = false -> exists tail, register_bytes rf p = pre ++ tail) ->
  runs (forM (answers address l) receive) m (fun _ m' => exists rf',
    written p rf rf' /\
    (ignores rf p = false -> register_bytes rf' p =
       (pre ++ all_bytes l) ++ replicate (8 - length (pre ++ all_bytes l)) (filling se (pre ++ all_bytes l))) /\
    m' = mkMemory (<[lp_ins e := (flagged (faulty address l) i) <| hasExecuted := true |>]> (e_heap m))
           (<[Z.to_nat (hw_thread i) := rf']> (registerFiles m)) ((queue m) <| loads_pending := l1 ++ l2 |>)).
Proof.
  induction l as [|a l IH]; [done|]. intros _ i rf pre e m address Hi Hli Hf Hl He Hno Hok Hlen Hpre Hold.
  apply Forall_cons in Hok as [[Hne Hb] Hok]. unfold all_bytes in Hlen. cbn [fmap list_fmap concat] in Hlen. rewrite length_app in Hlen.
  cbn [answers forM]. eapply runs_step.
  { eapply (runs_handle_read i se p rf pre e l1 l2 a (an_id <$> l)); try done; [|lia].
    eapply Forall_impl; [exact Hno|]. intros e' He'. by apply Forall_cons in He' as [? _]. }
  intros [] m1 (rf1 & Hw1 & Hbytes1 & ->). set (i1 := flagged _ i).
  destruct l as [|b l].
  - apply runs_skip. exists rf1. split; [done|]. split.
    + intros Hig. destruct (Hbytes1 Hig) as (tail & -> & Htail). unfold all_bytes. cbn. rewrite app_nil_r, <- (assoc_L (++)), filling_last by done.
      by rewrite Htail.
    + cbn [faulty fmap list_fmap]. by rewrite orb_false_r.
  - cbn [fmap list_fmap] in *. set (m1 := mkMemory _ _ _). set (e1 := e <| lp_requests := an_id b :: (an_id <$> l) |>).
    specialize (IH ltac:(done) i1 rf1 (pre ++ an_bytes a) e1 m1). cbn zeta in IH.
    assert (Eaddr : u64 (load_address e1 + Z.of_nat (length (pre ++ an_bytes a))) = u64 (address + Z.of_nat (length (an_bytes a)))).
    { unfold address. rewrite next_address, length_app. do 2 f_equal. lia. }
    rewrite Eaddr in IH. eapply runs_mono.
    { apply IH.
      - cbn. apply lookup_insert_eq.
      - apply flagged_loads. by apply (loads_into_like _ _ _ rf), Hli; apply Hw1.
      - unfold i1. rewrite flagged_thread. cbn. apply list_lookup_insert_eq. by apply lookup_lt_Some in Hf.
      - done.
      - done.
      - eapply Forall_impl; [exact Hno|]. intros e' He'. by apply Forall_cons in He' as [_ ?].
      - done.
      - cbn [concat] in Hlen. rewrite length_app in Hlen. unfold all_bytes. cbn [fmap list_fmap concat]. rewrite !length_app. lia.
      - by apply Forall_app.
      - intros Hig. rewrite (written_ignores _ _ _ Hw1) in Hig. destruct (Hbytes1 Hig) as (tail & -> & _). exists tail. by rewrite (assoc_L (++)). }
    intros [] m' (rf' & Hw & Hbytes & ->). exists rf'. split; [by eapply written_trans|]. split.
    + intros Hig. rewrite <- (written_ignores _ _ _ Hw1) in Hig. rewrite (Hbytes Hig). unfold all_bytes. cbn [fmap list_fmap concat].
      by rewrite <- !(assoc_L (++)).
    + unfold m1, i1. rewrite flagged_thread, flagged_flagged. cbn [e_heap registerFiles queue lp_ins]. by rewrite insert_insert_eq, list_insert_insert_eq.
Qed.

(** C17. The answers to a load of at most a register into an integer register, which the memory
    gives in the order of the addresses (one answer, or two when the load crosses the end
    of a line): when the last is there, the register of the load has the little-endian
    value of all the bytes, extended by sign or zero as the load says (nothing, when the
    register ignores writes), no other register has changed, the instruction has
    executed, with the error flag when a part failed or lies below address 64, and the
    load waits no longer. *)
Theorem load_response_sets i se p rf l1 e l2 l (m : mem) :
  e_heap m !! lp_ins e = Some i -> loads_into i se p rf -> registerFiles m !! Z.to_nat (hw_thread i) = Some rf ->
  loads_pending (queue m) = l1 ++ e :: l2 -> lp_requests e = an_id <$> l -> l <> [] ->
  Forall (fun e' => Forall (fun a => waits_for (an_id a) (lp_requests e') = false) l) l1 ->
  0 <= load_address e < 2 ^ 64 -> Forall answer_ok l -> (length (all_bytes l) <= 8)%nat ->
  runs (forM (answers (load_address e) l) receive) m (fun _ m' => exists rf',
    file_wf rf' /\
    value rf' p = (if ignores rf p then 0 else loaded se (Z.of_nat (length (all_bytes l))) (little_endian_to_Z 8 (all_bytes l))) /\
    (forall k q, 0 <= q -> (k = INT -> q <> p) -> cell k rf' q = cell k rf q) /\
    m' = mkMemory (<[lp_ins e := (flagged (faulty (load_address e) l) i) <| hasExecuted := true |>]> (e_heap m))
           (<[Z.to_nat (hw_thread i) := rf']> (registerFiles m)) ((queue m) <| loads_pending := l1 ++ l2 |>)).
Proof.
  intros Hi Hli Hf Hl He Hne Hno Ha Hok Hlen.
  pose proof (runs_answers se p l1 l2 l Hne i rf [] e m Hi Hli Hf Hl He Hno Hok Hlen) as H. cbn zeta in H.
  change (Z.of_nat (length ([] : list Z))) with 0 in H. rewrite Z.add_0_r in H. unfold u64 in H. rewrite Z.mod_small in H by done.
  eapply runs_mono; [apply H; [constructor|intros _; by eexists]|]. intros [] m' (rf' & Hw & Hbytes & ->). exists rf'.
  split_and!; [by apply (like_wf _ _ (wr_like _ _ _ Hw)), li_wf with i se p| |apply Hw|done].
  unfold value. rewrite (written_ignores _ _ _ Hw). destruct (ignores rf p) eqn:Hig; [done|]. unfold word.
  change (bytes_at (8 * p) 8 (int_reg_storage rf')) with (register_bytes rf' p). rewrite (Hbytes eq_refl). cbn [app]. apply loaded_bytes; [|done|].
  - destruct l as [|a l]; [done|]. apply Forall_cons in Hok as [[Hna _] _]. unfold all_bytes. cbn. by destruct (an_bytes a).
  - clear -Hok. induction Hok as [|a l [_ Hb] _ IH]; [constructor|]. unfold all_bytes in *. cbn. by apply Forall_app.
Qed.
