(* ===== verification/VanadisRun.v ===== *)
(** * VanadisRun: a core that runs programs

    The theorems about the pipeline of [VanadisPipeline] from its construction on, for
    any load-store queue that keeps the laws and any sequence of cycles, responses of
    the memory and halts: the architectural registers of every thread are those of its
    instructions executed in program order, without those that follow a branch predicted
    wrongly ([threads_run_in_order]); no physical
    register is lost or used twice ([no_register_lost]); a misspeculation leaves nothing
    of the thread but its architectural state ([misspeculation_forgets]). The programs
    have no system calls and no jumps through a register with a displacement
    ([decoded]): both break the renaming in the source. *)

From S2P Require Import Prelude VanadisRegs VanadisInst VanadisQueue VanadisRename VanadisFrame VanadisMem VanadisFree VanadisPipeline VanadisOrder VanadisCore VanadisIssue VanadisRetire VanadisCycle.

#[local] Abbreviation meets := (meets execution_failure).

Section run.
Context {Q : Type} `{LoadStoreQueueLaws Q}.
Variables (wrapv : bool) (host : fp_operation -> list Z -> Z).
Variable system : VanadisInstruction -> VanadisISATable -> VanadisRegisterFile -> VanadisRegisterFile * bool * bool.

(** The parameters of a core that can be built. *)
Record configuration := mkConfiguration {
  cf_rob_count : Z;
  cf_int_regs : Z;
  cf_fp_regs : Z;
  cf_threads : list VanadisDecoderOptions;
  cf_units : unit_class -> list VanadisFunctionalUnit;
  cf_queue : Q }.
Record configured (f : configuration) : Prop := {
  cd_rob : 0 < cf_rob_count f;
  cd_threads : cf_threads f <> [] /\ Forall options_ok (cf_threads f);
  cd_registers k : Z.of_nat (regs_needed k (cf_threads f)) < register_count (cf_int_regs f) (cf_fp_regs f) k;
  cd_units k : records_of (cf_units f k) = [];
  cd_queue : lsq_ids (cf_queue f) = [] /\ forall fs, lsq_inv (mkMemory ∅ fs (cf_queue f)) }.
Definition build (f : configuration) (max issues retires pause_at : Z) : res (core Q) :=
  new_core (cf_rob_count f) (cf_int_regs f) (cf_fp_regs f) (cf_threads f) (cf_units f) (cf_queue f) max issues retires pause_at.

Definition starts_ok (f : configuration) (starts : list (Z * Z * Z)) : Prop :=
  Forall (fun s => 0 <= s.1.1 < Z.of_nat (length (cf_threads f))) starts.

(** A core is built, its threads are started, and then the events [es] happen. *)
Definition whatever_happens (f : configuration) (ip0 : Z) (starts : list (Z * Z * Z)) (es : list event) (c : core Q)
    (R : core Q -> core Q -> Prop) : Prop :=
  meets (boot ip0 starts) c (fun _ c1 => meets (forM es (happens wrapv host system)) c1 (fun _ c2 => R c1 c2)).

Lemma runs_on f max issues retires pause_at ip0 starts es (R : core Q -> core Q -> Prop) :
  configured f -> starts_ok f starts -> Forall (event_ok (cf_threads f)) es ->
  (forall c1 c2, core_ok wrapv host (register_count (cf_int_regs f) (cf_fp_regs f)) (replicate (length (cf_threads f)) []) (unit_ids c1) c1 ->
    lives_on wrapv host (register_count (cf_int_regs f) (cf_fp_regs f)) system es (replicate (length (cf_threads f)) []) c1 c2 ->
    R c1 c2) ->
  exists c, build f max issues retires pause_at = Ok c /\ whatever_happens f ip0 starts es c R.
Proof.
  intros [F1 F2 F3 F4 F5] Hs He HR.
  destruct (new_core_ok wrapv host (cf_rob_count f) (cf_int_regs f) (cf_fp_regs f) (cf_threads f) (cf_units f) (cf_queue f) F1 F2 F3 F4 F5 max issues retires pause_at)
    as (c & E & Hc & Ho).
  exists c. split; [exact E|]. unfold whatever_happens. eapply meets_mono; [by eapply boot_ok|]. intros u c1 [Hc1 Ho1].
  eapply meets_mono; [by eapply events_steps|]. intros u' c2 Hst. by apply HR.
Qed.

(** The architectural registers of a thread of a core. *)
Definition program_view (t : thread) (rf : VanadisRegisterFile) : kind -> list Z := arch (decoder_opts rf) (retire_ptr t) rf.

(** What the reorder buffer of a thread holds. *)
Definition buffers (c : core Q) (t : thread) (l : list VanadisInstruction) : Prop := exists entries : list entry,
  holds (t_rob t) entries.*1 /\ (forall id i, (id, i) ∈ entries -> heap c !! id = Some i) /\ code_of entries = l.

(** C4. From its construction on, whatever cycles, answers of the memory and halts come, the
    registers each thread of the core sees through its retirement table are those of the
    instructions [ran] executed one after the other. These are what the decoder made for
    the thread, in its order and without a gap ([life]), except that whenever a branch
    retires that was predicted wrongly, and when the thread is halted, all that was
    decoded for it and has not retired is thrown away, and the decoder is told to go on
    where the branch goes; nothing else is thrown away, and a halted thread decodes
    nothing. What has neither retired nor been thrown away is in the reorder buffer.
    The programs have no system calls and no register jumps with a displacement
    ([decoded]). A run ends early only where the code stops the simulation, or in an
    undefined overflow, shift or quotient that the arithmetic of an instruction asks for. *)
Theorem threads_run_in_order f max issues retires pause_at ip0 starts es :
  configured f -> starts_ok f starts -> Forall (event_ok (cf_threads f)) es ->
  exists c, build f max issues retires pause_at = Ok c /\ whatever_happens f ip0 starts es c (fun c1 c2 =>
    forall j t rf, threads c1 !! j = Some t -> register_files c1 !! j = Some rf -> exists t' rf' ran rest,
      threads c2 !! j = Some t' /\ register_files c2 !! j = Some rf' /\
      executes wrapv host (decoder_opts rf) ran (program_view t rf) (program_view t' rf') /\
      life wrapv host system j es c1 [] ran c2 rest /\ buffers c2 t' rest).
Proof.
  intros Hf Hs He. apply runs_on; [done..|]. intros c1 c2 Hc1 (G' & Hc2 & _ & Hg) j t rf Ht Hrf.
  assert (Hj : (j < length (cf_threads f))%nat).
  { pose proof (co_threads _ _ _ _ _ _ Hc1) as Hl. rewrite length_replicate in Hl. rewrite <- Hl. by eapply lookup_lt_Some. }
  destruct (Hg j t rf []) as (t' & rf' & l' & ran & [H1 H2 H3] & Ho & Hex & Hlife); [split; [done|done|by apply lookup_replicate_2]|].
  exists t', rf', ran, (code_of l'). unfold program_view. rewrite Ho. split_and!; [done|done|done|done|].
  pose proof (co_view _ _ _ _ _ _ Hc2 j t' rf' l' H1 H2 H3) as V. exists l'. split_and!; [apply V| |done].
  intros id i Hi. apply (vw_heap _ _ _ _ _ _ _ _ V id i Hi).
Qed.

(** C10. At every moment of a run of programs without system calls and without register
    jumps with a displacement ([decoded]), each physical register is in exactly one place: on the stack of free
    registers, mapped by the retirement table of a thread, or the output of an issued
    instruction in a reorder buffer. *)
Theorem no_register_lost f max issues retires pause_at ip0 starts es :
  configured f -> starts_ok f starts -> Forall (event_ok (cf_threads f)) es ->
  exists c, build f max issues retires pause_at = Ok c /\ whatever_happens f ip0 starts es c (fun _ c2 =>
    exists G, length G = length (threads c2) /\
      (forall j t l, threads c2 !! j = Some t -> G !! j = Some l ->
        holds (t_rob t) l.*1 /\ forall id i, (id, i) ∈ l -> heap c2 !! id = Some i) /\
      forall k, free (the_stack k c2) ++ kept k (threads c2) G ≡ₚ seqZ 0 (register_count (cf_int_regs f) (cf_fp_regs f) k)).
Proof.
  intros Hf Hs He. apply runs_on; [done..|]. intros c1 c2 Hc1 (G' & Hc2 & _ & _). exists G'.
  split_and!; [by rewrite (co_threads _ _ _ _ _ _ Hc2)| |apply (co_regs _ _ _ _ _ _ Hc2)].
  intros j t l Ht Hl. destruct (lookup_lt_is_Some_2 (register_files c2) j) as [rf Hrf].
  { rewrite (co_files _ _ _ _ _ _ Hc2). by eapply lookup_lt_Some. }
  pose proof (co_view _ _ _ _ _ _ Hc2 j t rf l Ht Hrf Hl) as V. split; [apply V|]. intros id i Hi. apply (vw_heap _ _ _ _ _ _ _ _ V id i Hi).
Qed.

(** All that is left in a functional unit or in the load-store queue are instructions of
    other threads. *)
Definition nothing_of (c : core Q) (j : nat) : Prop := forall id,
  id ∈ unit_ids c ++ lsq_ids (lsq c) -> exists i, heap c !! id = Some i /\ hw_thread i <> Z.of_nat j.

Lemma cleared_nothing nphys G c j : core_ok wrapv host nphys G (unit_ids c) c -> G !! j = Some [] -> nothing_of c j.
Proof.
  intros Hc Hj id Hid.
  assert (Hw : exists what, waiting G what id).
  { apply elem_of_app in Hid as [Hid|Hid]; [eexists; by apply (co_unit _ _ _ _ _ _ Hc)|eexists; by apply (co_queue _ _ _ _ _ _ Hc)]. }
  destruct Hw as (what & l & i & Hl & Hi & _). destruct (thread_of_ids _ _ _ _ _ _ Hc l Hl) as (j0 & t & rf & Hat).
  pose proof (view_at _ _ _ _ _ _ Hc _ _ _ _ Hat) as V. destruct (vw_heap _ _ _ _ _ _ _ _ V id i Hi) as [E _].
  exists i. split; [done|]. intros Ht. pose proof (vw_ins _ _ _ _ _ _ _ _ V) as Hio. rewrite Forall_forall in Hio.
  pose proof (io_thread _ _ (Hio i (list_elem_of_fmap_2 snd _ _ Hi))) as Hthr. assert (j0 = j) as -> by lia.
  rewrite (ath_rob _ _ _ _ _ _ Hat) in Hj. injection Hj as ->. by apply elem_of_nil in Hi.
Qed.

(** C16. After any run of programs without system calls and without register jumps with a
    displacement ([decoded]), a misspeculation leaves the register files as they are and of the thread nothing but
    its architectural state: its reorder buffer is empty, its tables are those of
    retirement, and no instruction of it is left in a unit or in the load-store queue. *)
Theorem misspeculation_forgets f max issues retires pause_at ip0 starts es j new_ip :
  configured f -> starts_ok f starts -> Forall (event_ok (cf_threads f)) es -> (j < length (cf_threads f))%nat ->
  exists c, build f max issues retires pause_at = Ok c /\ whatever_happens f ip0 starts es c (fun _ c2 =>
    meets (handleMisspeculate (Z.of_nat j) new_ip) c2 (fun _ c3 =>
      register_files c3 = register_files c2 /\ nothing_of c3 j /\
      exists t q, threads c2 !! j = Some t /\ threads c3 = <[j := restarted t q]> (threads c2) /\ holds q [])).
Proof.
  intros Hf Hs He Hj. apply runs_on; [done..|]. intros c1 c2 Hc1 (G' & Hc2 & Hl & _). rewrite length_replicate in Hl.
  destruct (thread_exists _ _ _ _ _ _ Hc2 j) as (t & rf & l & Hat); [lia|].
  eapply meets_mono; [by eapply handleMisspeculate_ok|]. intros u c3 (q & Hc3 & Ht & Hrf & _ & Hq).
  split_and!; [done| |exists t, q; split_and!; [apply Hat|done|done]].
  eapply cleared_nothing; [exact Hc3|]. apply list_lookup_insert_eq. lia.
Qed.
End run.
