(* ===== verification/VanadisDemo.v ===== *)
(** * VanadisDemo: the theorems about the pipeline at concrete inputs

    One RISC-V thread on the basic load-store queue, with four additions that depend on
    each other; and the queue with a load, a store at the front and a response. *)

From S2P Require Import Prelude VanadisRegs VanadisInst RiscvIsa RiscvDecode RiscvCode VanadisQueue VanadisRename VanadisFrame VanadisMem VanadisLsq VanadisFree VanadisPipeline VanadisOrder VanadisCore VanadisIssue VanadisRetire VanadisCycle VanadisLsqSafe VanadisLsqOrder VanadisRun.

#[local] Instance demo_lsq : LoadStoreQueue VanadisBasicLoadStoreQueue := basic_lsq true.
#[local] Instance demo_laws : LoadStoreQueueLaws VanadisBasicLoadStoreQueue := basic_lsq_laws true.

Definition demo_units (k : unit_class) : list VanadisFunctionalUnit :=
  match k with INT_ARITH => [new_VanadisFunctionalUnit 2; new_VanadisFunctionalUnit 2] | _ => [new_VanadisFunctionalUnit 2] end.
Definition demo_queue : VanadisBasicLoadStoreQueue := new_VanadisBasicLoadStoreQueue 8 16 2 64 (2 ^ 64 - 1).
Definition demo_configuration : configuration := mkConfiguration 64 80 80 [riscv_options] demo_units demo_queue.
Definition demo_system (i : VanadisInstruction) (t : VanadisISATable) (rf : VanadisRegisterFile) := (rf, true, false).
Definition demo_host (f : fp_operation) (l : list Z) : Z := 0.

Definition demo_program : list VanadisInstruction :=
  [uop 0x1000 0 riscv_options (RegImm ADDI 1 0 5);
   uop 0x1004 0 riscv_options (RegReg ADD 3 1 1);
   uop 0x1008 0 riscv_options (RegReg ADD 1 3 1);
   uop 0x100c 0 riscv_options (RegReg ADD 4 1 1)].
Definition demo_events : list event :=
  Cycle 1 (fun _ thr => if thr =? 0 then demo_program else []) :: replicate 12 (Cycle 1 (fun _ _ => [])).
Definition demo_starts : list (Z * Z * Z) := [(0, 0x8000, 0x1000)].

(** What the run leaves: four registers of the program, and how many instructions are
    still in the reorder buffer. *)
Definition demo_result : option (list Z * list Z) :=
  match build demo_configuration 1000 2 2 0 with
  | Ok c =>
      match (boot 0 demo_starts ;; forM demo_events (happens true demo_host demo_system)) c with
      | Ok (_, c') =>
          match threads c', register_files c' with
          | t :: _, rf :: _ => Some ((fun r => program_view t rf INT !!! r) <$> [1; 2; 3; 4]%nat, [count (t_rob t)])
          | _, _ => None
          end
      | Err _ => None
      end
  | Err _ => None
  end.

Lemma demo_configured : configured demo_configuration.
Proof.
  split; [done| | |by intros []|split; [done|]].
  - split; [done|]. repeat constructor; done.
  - by intros [].
  - intros fs. split; intros e He; by apply elem_of_nil in He.
Qed.
Lemma demo_starts_ok : starts_ok demo_configuration demo_starts.
Proof. repeat constructor; done. Qed.

Ltac decoded_by_computation :=
  split; [split; [done|done|intros _; split; [by intros []..|done]|done]
         |split; [intros []; repeat (constructor; [split; [lia|vm_compute; reflexivity]|]); try constructor..|by intros []|by intros []]|done|done].
Lemma demo_decoded : Forall (decoded riscv_options 0) demo_program.
Proof. repeat (apply Forall_cons; split; [decoded_by_computation|]). constructor. Qed.
Lemma demo_events_ok : Forall (event_ok (cf_threads demo_configuration)) demo_events.
Proof.
  apply Forall_cons; split.
  - intros d [|j] o; cbn; [|by destruct j]. intros [= <-]. exact demo_decoded.
  - apply Forall_replicate. intros d j o _. constructor.
Qed.

Lemma threads_run_in_order_witness : exists c, build demo_configuration 1000 2 2 0 = Ok c /\
  whatever_happens true demo_host demo_system demo_configuration 0 demo_starts demo_events c (fun c1 c2 =>
    forall j t rf, threads c1 !! j = Some t -> register_files c1 !! j = Some rf -> exists t' rf' ran rest,
      threads c2 !! j = Some t' /\ register_files c2 !! j = Some rf' /\
      executes true demo_host (decoder_opts rf) ran (program_view t rf) (program_view t' rf') /\
      life true demo_host demo_system j demo_events c1 [] ran c2 rest /\ buffers c2 t' rest) /\
  demo_result = Some ([15; 0x8000; 10; 30], [0]).
Proof.
  destruct (threads_run_in_order true demo_host demo_system demo_configuration 1000 2 2 0 0 demo_starts demo_events) as (c & E & H);
    [exact demo_configured|exact demo_starts_ok|exact demo_events_ok|].
  exists c. split; [exact E|]. split; [exact H|vm_compute; reflexivity].
Defined.

Lemma no_register_lost_witness : exists c, build demo_configuration 1000 2 2 0 = Ok c /\
  whatever_happens true demo_host demo_system demo_configuration 0 demo_starts demo_events c (fun _ c2 =>
    exists G, length G = length (threads c2) /\
      (forall j t l, threads c2 !! j = Some t -> G !! j = Some l ->
        holds (t_rob t) l.*1 /\ forall id i, (id, i) ∈ l -> heap c2 !! id = Some i) /\
      forall k, free (the_stack k c2) ++ kept k (threads c2) G ≡ₚ seqZ 0 (register_count 80 80 k)).
Proof. apply (no_register_lost true demo_host demo_system demo_configuration); [exact demo_configured|exact demo_starts_ok|exact demo_events_ok]. Defined.

(** The program is forgotten when it has just been decoded. *)
Lemma misspeculation_forgets_witness : exists c, build demo_configuration 1000 2 2 0 = Ok c /\
  whatever_happens true demo_host demo_system demo_configuration 0 demo_starts (take 1 demo_events) c (fun _ c2 =>
    meets execution_failure (handleMisspeculate 0 0x2000) c2 (fun _ c3 =>
      register_files c3 = register_files c2 /\ nothing_of c3 0 /\
      exists t q, threads c2 !! 0%nat = Some t /\ threads c3 = <[0%nat := restarted t q]> (threads c2) /\ holds q [])).
Proof.
  apply (misspeculation_forgets true demo_host demo_system demo_configuration 1000 2 2 0 0 demo_starts (take 1 demo_events) 0 0x2000);
    [exact demo_configured|exact demo_starts_ok|exact (Forall_take _ _ _ demo_events_ok)|cbn; lia].
Defined.

(** A queue of capacity 4 that holds 7 and 9. *)
Definition demo_circular : VanadisCircularQueue Z := mkQueue 4 3 1 2 [Some 9; None; None; Some 7].
Lemma demo_circular_holds : holds demo_circular [7; 9].
Proof. split; try (cbn; lia); try done. intros [|[|k]] x; cbn; try by intros [= <-]. Qed.
Lemma queue_refines_list_witness : runs (push 5) demo_circular (fun _ q' => holds q' [7; 9; 5]) /\ runs pop demo_circular (fun y q' => y = 7 /\ holds q' [9]).
Proof.
  destruct (queue_refines_list demo_circular [7; 9] demo_circular_holds) as (_ & _ & _ & Hpush & _ & Hpop & _).
  split; [by apply Hpush|by apply (Hpop 7 [9])].
Defined.

(** ** The load-store queue *)

Definition demo_rf : VanadisRegisterFile := new_VanadisRegisterFile riscv_options 40 40 VANADIS_REGISTER_MODE_FP64.
Definition demo_store : VanadisInstruction :=
  (uop 0x1000 0 riscv_options (StoreInt SD 2 1 0)) <| hasIssued := true |> <| isFrontOfROB := true |>
    <| phys_int_regs_in := [3; 4] |>.
Definition demo_memory : memory VanadisBasicLoadStoreQueue :=
  mkMemory {[ 7 := demo_store ]} [demo_rf] (demo_queue <| stores_pending := [mkStorePending 7 0x2000 8 4 STORE_INT_REGISTER false []] |>).
(** A store that is not at the front waits behind the one at the front. *)
Definition demo_later : VanadisInstruction := demo_store <| isFrontOfROB := false |>.
Definition demo_stores : memory VanadisBasicLoadStoreQueue :=
  demo_memory <| e_heap ::= <[9 := demo_later]> |>
    <| queue ::= fun q => q <| stores_pending ::= fun l => l ++ [mkStorePending 9 0x2010 8 4 STORE_INT_REGISTER false []] |> |>.
Definition demo_ticked : memory VanadisBasicLoadStoreQueue :=
  match tick_lsq true demo_stores with Ok (_, m') => m' | Err _ => demo_stores end.
Lemma stores_wait_for_front_witness : exists r i,
  sent (queue demo_ticked) = [r] /\ vAddr r = 0x2000 /\ req_size r = 8 /\
  e_heap demo_stores !! 7 = Some i /\ isFrontOfROB i = true /\ hasIssued i = true /\ req_thread r = hw_thread i.
Proof.
  destruct (stores_wait_for_front true demo_stores demo_ticked) as (reads & writes & Hl & Hr & H); [vm_compute; reflexivity|].
  assert (E : exists r, reads ++ writes = [r] /\ req_kind r = Write).
  { eexists. split; [transitivity (sent (queue demo_ticked)); [symmetry; exact Hl|vm_compute; reflexivity]|vm_compute; reflexivity]. }
  destruct E as (r & E & Hk). destruct reads as [|r0 reads].
  2: { injection E as -> _. apply Forall_inv in Hr. rewrite Hk in Hr. discriminate Hr. }
  cbn [app] in E. subst writes. destruct H as [H|(e & i & Hnext & Hi & Hf & Hissued & Hw)]; [discriminate H|].
  destruct Hnext as [Hnext|[Hnext _]]; [|discriminate Hnext]. injection Hnext as <-. exists r, i. split; [exact Hl|].
  destruct Hw as [(r' & Er & (_ & Hthr & Ha & _) & Hs)|(r1 & r2 & Er & _)]; [injection Er as <-|discriminate Er]. split_and!; assumption.
Defined.

(** A load of the eight bytes after those of a store that waits. *)
Definition demo_load : VanadisInstruction :=
  (uop 0x1004 0 riscv_options (LoadInt LH 5 2 0)) <| hasIssued := true |> <| phys_int_regs_in := [6] |> <| phys_int_regs_out := [9] |>.
Definition demo_loading : memory VanadisBasicLoadStoreQueue :=
  demo_memory <| e_heap ::= <[8 := demo_load]> |> <| queue ::= fun q => q <| op_q := [mkEntry LOAD 8] |> |>
    <| registerFiles := match setIntReg uint64_t 6 0x2008 true demo_rf with Ok rf => [rf] | Err _ => [] end |>.
Definition demo_loaded : memory VanadisBasicLoadStoreQueue :=
  match attempt_load true 8 demo_loading with Ok (_, m') => m' | Err _ => demo_loading end.
Lemma load_waits_for_stores_witness : exists req,
  sent (queue demo_loaded) = [req] /\ forall x, vAddr req <= x < vAddr req + req_size req -> ~ 0x2000 <= x < 0x2000 + 8.
Proof.
  destruct (load_waits_for_stores true 8 demo_load 0 2 true MEM_TRANSACTION_NONE LOAD_INT_REGISTER 0x2008 demo_loading true demo_loaded) as (l & Hl & H);
    [reflexivity|reflexivity|vm_compute; reflexivity|lia|lia|lia|vm_compute; reflexivity|].
  assert (E : exists r, l = [r]) by (eexists; transitivity (sent (queue demo_loaded)); [symmetry; exact Hl|vm_compute; reflexivity]).
  destruct E as (r & ->). exists r. split; [exact Hl|]. intros x Hx.
  apply (H r (mkStorePending 7 0x2000 8 4 STORE_INT_REGISTER false []) x); [apply list_elem_of_singleton; reflexivity| |exact Hx].
  split; [apply list_elem_of_singleton; reflexivity|]. cbn [storeWidth storeAddress]. split; [lia|]. split; [lia|]. split; [lia|].
  exists demo_store. split; reflexivity.
Defined.

(** The bytes 0x34 and 0x92 of a signed half-word, in one answer, and in two when it
    crosses the end of a line. *)
Definition demo_awaiting (address : Z) (requests : list Z) : memory VanadisBasicLoadStoreQueue :=
  demo_loading <| queue ::= fun q => q <| loads_pending := [mkLoadPending 8 address 2 requests] |> |> <| registerFiles := [demo_rf] |>.
Definition demo_whole : list answer := [mkAnswer 0 [0x34; 0x92] false].
Definition demo_halves : list answer := [mkAnswer 0 [0x34] false; mkAnswer 1 [0x92] false].
Lemma load_response_sets_witness :
  runs (forM (answers 0x2008 demo_whole) receive) (demo_awaiting 0x2008 [0]) (fun _ m' => exists rf',
    registerFiles m' = [rf'] /\ value rf' 9 = 2 ^ 64 - 2 ^ 16 + 0x9234) /\
  runs (forM (answers 0x203f demo_halves) receive) (demo_awaiting 0x203f [0; 1]) (fun _ m' => exists rf',
    registerFiles m' = [rf'] /\ value rf' 9 = 2 ^ 64 - 2 ^ 16 + 0x9234).
Proof.
  assert (Hload : loads_into demo_load true 9 demo_rf).
  { split; [by eexists _, _, _|by eexists|reflexivity|vm_compute; discriminate|reflexivity|split; vm_compute; [discriminate|reflexivity]|].
    apply (new_file_wf riscv_options 40 40); lia. }
  split.
  - eapply runs_mono; [apply (load_response_sets demo_load true 9 demo_rf [] (mkLoadPending 8 0x2008 2 [0]) [] demo_whole (demo_awaiting 0x2008 [0]));
      [reflexivity|exact Hload|reflexivity..|discriminate|constructor|cbn; lia|repeat constructor; vm_compute; (discriminate || reflexivity)|cbn; lia]|].
    intros [] m' (rf' & _ & Hv & _ & ->). exists rf'. split; [reflexivity|]. rewrite Hv. reflexivity.
  - eapply runs_mono; [apply (load_response_sets demo_load true 9 demo_rf [] (mkLoadPending 8 0x203f 2 [0; 1]) [] demo_halves (demo_awaiting 0x203f [0; 1]));
      [reflexivity|exact Hload|reflexivity..|discriminate|constructor|cbn; lia|repeat constructor; vm_compute; (discriminate || reflexivity)|cbn; lia]|].
    intros [] m' (rf' & _ & Hv & _ & ->). exists rf'. split; [reflexivity|]. rewrite Hv. reflexivity.
Defined.
